(* ===== verification/_CoqProject ===== *)
-Q . S2P
Prelude.v
Ring.v
DelayBuffer.v
Link.v
Delayer.v
Checksum.v
TrackSeqNo.v
Lpm.v
MacTable.v
SolarflarePoll.v
Memory.v
VhostUser.v
OsGlue.v
LjArith.v
LjFloat.v
LjStr.v
LjIntern.v
LjBuf.v
LjStrfmt.v
LjStrfmtSpec.v
LjLex.v
LjLexSpec.v
LjQuote.v
LjTab.v
LjStrscan.v
LjStrscanBuf.v
LjStrscanDec.v
LjStrscanHex.v
LjStrscanText.v
LjStrscanSafe.v
LjStrscanSpec.v
LjStrscanInt.v
LjLexNum.v
LibString.v
LibStringSpec.v
LibStringMatch.v
LibStringFind.v
LibStringGsub.v
LibStringSafe.v
LibStringBytes.v
LjTabHash.v
LjTabKey.v
LjTabMap.v
LjTabRehash.v
LjTabSpec.v
LjTabNext.v
LjTabLife.v
LjSerialize.v
LjSerializeSpec.v
LjBcdump.v
LjBcdumpFormat.v
LjBcdumpSpec.v
LjDebugInfo.v
Dasm.v
DasmSpec.v
DasmPut.v
DasmLink.v
DasmEncode.v
LibTable.v
LibTableSpec.v
LibTableInsert.v
