(* ===== verification/Prelude.v ===== *)
(** * Snabb / HybridAccess: a verification of the C core

    The program is a packet-processing toolkit: Lua applications are joined by
    links into a network, the fast paths and the services that Lua cannot
    provide are C functions called through the FFI, and everything runs on the
    vendored LuaJIT.  This development models C code of three layers and
    proves what makes it correct.

    ** Parts of the program and where they are modelled

    Applications and libraries of the toolkit ([src/src]):
    - [Ring]: ring buffers with one slot left free, shared by the next two.
    - [DelayBuffer]: [program/hybrid_access/base/delay_buffer.c].  The record
      [delay_buffer] is the C struct; [db_enqueue], [db_dequeue],
      [db_peek_time], [db_size] are its functions.
    - [Link]: the packet links ([core/link.h], [core/link.lua]).
    - [Delayer]: the delaying middleware
      ([program/hybrid_access/middleware/delayer_c_buffer.lua]), which moves
      packets between links through a delay buffer; it is verified against a
      type class of delay queues that [DelayBuffer] instantiates.
    - [Checksum]: [lib/checksum.c].
    - [TrackSeqNo]: ESP sequence numbers, [lib/ipsec/track_seq_no.c].
    - [Lpm]: IPv4 longest-prefix match, [lib/lpm/lpm4_248.c] with the Lua code
      that builds its tables, also again on arrays already filled, and
      [lib/lpm/lpm4_dxr.c].  The preorder walk of the trie gives the order of
      the prefixes; that the trie's own Lua code keeps its nodes nested is a
      hypothesis.
    - [MacTable]: the learning bridge, [apps/bridge/mac_table.c] with the
      table object of [mac_table.lua] around it (two hash tables, ageing,
      resizing).
    - [SolarflarePoll]: [apps/solarflare/poll.c]; the vendor library is a
      parameter.
    - [Memory]: DMA memory mapped on demand by a signal handler,
      [core/memory.c]; the kernel's side is part of the model's state.
    - [VhostUser]: vhost-user sockets, [apps/vhost/vhost_user.c]; the system
      calls are answered by an arbitrary function of the history.
    - [OsGlue]: clocks and sleeping ([core/lib.c]), shared memory regions
      ([lib/ipc/shmem/shmem.c]).

    DynASM ([src/src/dasm_x86.h], the encoding engine that pflua's native
    compiler calls):
    - [Dasm]: the whole engine as executable definitions on the state
      [dasm_State]: [dasm_put] (sections, label chains), [dasm_link] (branch
      shortening, addresses), [dasm_encode]; offsets that overflow an [int]
      are faults.
    - [DasmSpec]: instructions, layouts and the bytes they denote;
      [DasmPut], [DasmLink], [DasmEncode]: one file per pass, ending in the
      theorem that a well-formed program is assembled to those bytes.  Its
      instructions have no registers or marks known only at run time (VREG,
      MARK), no SETLABEL and no immediate of either size behind a displacement;
      the engine has them all.

    LuaJIT ([src/lib/luajit/src]):
    - [LjArith]: the PRNG, 64-bit cdata arithmetic, integer modulo.
    - [LjStr]: character classes, string comparison and search; [LjIntern]:
      string interning ([lj_str.c]) with the phases of the collector that
      concern strings ([lj_gc.c]): marking, sweeping, revival.
    - [LjBuf]: string buffers of all kinds ([lj_buf.c]).
    - [LjStrfmt], [LjStrfmtSpec]: the format parser and the integer, string,
      pointer and ULEB128 writers ([lj_strfmt.c]).
    - [LjLex], [LjLexSpec]: the lexer ([lj_lex.c]); [LjQuote]: quoted strings,
      written by [lj_strfmt.c] and read back by the lexer.
    - [LjTab]: tables ([lj_tab.c]) with their hash chains; [LjTabHash],
      [LjTabKey], [LjTabMap], [LjTabRehash]: chains, key insertion, the map a
      table stands for, resizing; [LjTabSpec], [LjTabNext]: the theorems;
      [LjTabLife]: a table through any stores, between which strings are freed
      and their memory is reused.
    - [LjFloat]: doubles as their 64 bits, correctly rounded conversions and
      operations; [LjStrscan]: the number scanner ([lj_strscan.c]);
      [LjStrscanBuf], [LjStrscanDec], [LjStrscanHex], [LjStrscanText]: its
      digit buffer, decimal scaling, hexadecimal numbers and the grammar of
      literals; [LjStrscanSpec], [LjStrscanInt], [LjStrscanSafe]: the theorems
      on doubles, integers and arbitrary text; [LjLexNum]: the lexer with this
      scanner for its numbers.
    - [LibString]: the string library ([lib_string.c], built with
      LUAJIT_ENABLE_LUA52COMPAT as the Makefile does): the pattern matcher on
      its state [MatchState], [string.find], [match], [gmatch] and [gsub];
      [LibStringSpec]: the syntax of patterns and the list of the matches a
      pattern denotes; [LibStringMatch], [LibStringFind], [LibStringGsub]: the
      functions compute from its head; [LibStringSafe]: any bytes at all;
      [LibStringBytes]: [string.byte] and [string.char].
    - [LibTable], [LibTableSpec]: [table.sort] ([lib_table.c]) over an
      arbitrary comparison; [LibTableInsert]: [table.insert] on the tables of
      [LjTab].
    - [LjSerialize], [LjSerializeSpec]: the serializer of string buffers
      ([lj_serialize.c]), which writes into the buffers of [LjBuf] and fills
      tables.
    - [LjBcdump]: bytecode dumps, the writer ([lj_bcwrite.c], [string.dump])
      and the reader ([lj_bcread.c]) on trees of prototypes [GCproto];
      [LjBcdumpFormat]: the format as functions, and the writer produces it;
      [LjBcdumpSpec]: the reader takes it apart again; [LjDebugInfo]: the debug
      information the parser lays out ([lj_parse.c]), the lookups in it
      ([lj_debug.c]) and what loading a dump makes of it.

    ** How code is modelled

    A C integer is a [Z] and every operation that may leave the range of its
    type is followed by the conversion C prescribes ([u8] ... [i64] below).
    Arrays are lists read and written with [zget] and [zset], whose out of
    range access has no value; each component's result type tells apart a
    normal result, the errors the code raises, and undefined accesses.  Where
    a theorem says that an operation ends normally it excludes the others.
    Loops run on fuel; the fuel is fixed by the definition (the length of the
    input, the width of the integer, the size of the table), and the theorems
    show that it suffices, so running out of it never stands for a result.
    Memory allocation succeeds except where a limit of the code refuses it.

    ** What the theorems show

    - Refinement of an abstract object by the detailed one: the delay buffer a
      bounded queue, links and the delayer on top of it; the bridge a pair of
      finite maps; the prefix tables longest-prefix match; LuaJIT's tables a
      finite map, through rehashing and hash collisions; buffers a byte
      sequence; DynASM's three passes the bytes of the program; the pattern
      functions the matches of the pattern in order of preference;
      [table.insert] the insertion into a sequence.
    - Equivalence of optimised routines with their definitions: unrolled and
      word-at-a-time checksums, string comparison, division by multiplication
      in number printing, [printf] formatting; number scanning with a digit
      buffer the nearest double; the search for a fixed string the search for
      the pattern; quicksort a sorted permutation.
    - Round trips: serialized values, bytecode dumps in whatever pieces they
      are read, variable ranges through the debug lookups, quoted strings
      through the lexer,
      numbers printed and scanned, ULEB128, checksums that verify, the
      replacement of every match by itself.
    - Termination and progress: the lexer, the number scanner, the pattern
      functions and the decoder of serialized values on any input, sorting
      under any comparison, the format parser, traversal and length of tables,
      exponentiation.
    - Safety and liveness: no sequence number twice and none lost, demand
      mapping serves every access, string interning is unique, the PRNG never
      degenerates.
    - What goes wrong, as theorems about concrete runs: the unchecked length
      in [vhost_user_receive], the byte [dasm_encode] writes past its buffer,
      the growth loop of a huge string buffer that does not end, the interval
      search of [lpm4_dxr.c] that overshoots, the digit buffer the number
      scanner runs empty or marks as cut although it is not, compiled loops
      that get into dumps, names that are misplaced when a dump is loaded.

    ** Bounds and fuel

    The matcher may call itself 200 deep, as in the code; a pattern is
    well-formed if its captures are, and if it has less than 200 items for
    which the matcher calls itself.  Sorting nests its calls at most 31 deep
    for tables of up to 2^30 values.  The theorem on decimal numbers covers
    300 digits and the exponents for which the digit buffer does not run
    empty.  DynASM code is covered up to 2^30 bytes of estimated size, so that
    no [int] offset overflows, and 2^24 positions in each of at most 126
    sections.  Sequence numbers are covered as long as no packet authenticates
    for one of the last 2^32.  Dumps are covered up to the limits of the bytecode format (2^26
    instructions, 2^16 constants of either kind, 255 upvalues per function)
    and of buffers.  All other loops take as many rounds as their input has characters,
    slots or bits.

    ** What is not modelled, and why

    The Lua applications and libraries of the toolkit, except where C code
    depends on them (they are not C); the assembly templates ([.dasl] files);
    the remaining parts of LuaJIT: the bytecode compiler (but for the debug
    information it writes) and interpreter, the garbage collector (but
    for what it does to interned strings), the trace compiler, the FFI and the
    other libraries, which are assembly or depend on the whole virtual machine
    state; floating-point formatting ([lj_strfmt_num.c]), for which the
    writers and [string.gsub] take any function; comparisons passed to
    [table.sort] and functions passed to [string.gsub] that change the table
    or the state; vendored tools (minilua, generated tables) and bindings
    (ljsyscall, ljndpi, pflua).  Left out inside modelled functions: the copy
    loops of [lj_tab_dup] (a record copy), the width of line entries
    ([fs_prep_line]), a failing [fstat] as a case of its own. *)
From stdpp Require Import base tactics numbers list gmap.
From Stdlib Require Import ZArith Lia.
Open Scope Z_scope.

(** ** Fixed-width integers

    A C integer object of width [w] is a [Z] in the range of its type; every
    arithmetic operation of the source whose result may leave that range is
    followed by the conversion below that C prescribes for its type. *)

Definition u8 (x : Z) : Z := x mod 256.
Definition u16 (x : Z) : Z := x mod 65536.
Definition u32 (x : Z) : Z := x mod 4294967296.
Definition u64 (x : Z) : Z := x mod 18446744073709551616.

(** Conversion to a signed type (two's complement, as gcc and clang do). *)
Definition i8 (x : Z) : Z := (x + 128) mod 256 - 128.
Definition i32 (x : Z) : Z := (x + 2147483648) mod 4294967296 - 2147483648.
Definition i64 (x : Z) : Z :=
  (x + 9223372036854775808) mod 18446744073709551616 - 9223372036854775808.

Definition UINT64_MAX : Z := 18446744073709551615.
Definition INT_MAX : Z := 2147483647.

Definition in_u8 (x : Z) : Prop := 0 <= x < 256.
Definition in_u16 (x : Z) : Prop := 0 <= x < 65536.
Definition in_u32 (x : Z) : Prop := 0 <= x < 4294967296.
Definition in_u64 (x : Z) : Prop := 0 <= x < 18446744073709551616.
Definition in_i32 (x : Z) : Prop := -2147483648 <= x < 2147483648.

(** Bitwise complement of an unsigned object of the given width. *)
Definition not16 (x : Z) : Z := u16 (Z.lnot x).
Definition not32 (x : Z) : Z := u32 (Z.lnot x).
Definition not64 (x : Z) : Z := u64 (Z.lnot x).

(** [lia] with quotients and remainders by numerals eliminated first. *)
Ltac zlia := unfold in_u8, in_u16, in_u32, in_u64, in_i32 in *;
  Z.to_euclidean_division_equations; lia.
Ltac width_lia :=
  unfold u8, u16, u32, u64, i8, i32, i64, UINT64_MAX, INT_MAX in *; zlia.

Create HintDb width.

Lemma u8_range x : in_u8 (u8 x).
Proof. apply Z.mod_pos_bound. lia. Qed.
Lemma u16_range x : in_u16 (u16 x).
Proof. apply Z.mod_pos_bound. lia. Qed.
Lemma u32_range x : in_u32 (u32 x).
Proof. apply Z.mod_pos_bound. lia. Qed.
Lemma u64_range x : in_u64 (u64 x).
Proof. apply Z.mod_pos_bound. lia. Qed.
Lemma i32_range x : in_i32 (i32 x).
Proof. width_lia. Qed.

Lemma u8_small x : in_u8 x -> u8 x = x.
Proof. apply Z.mod_small. Qed.
Lemma u16_small x : in_u16 x -> u16 x = x.
Proof. apply Z.mod_small. Qed.
Lemma u32_small x : in_u32 x -> u32 x = x.
Proof. apply Z.mod_small. Qed.
Lemma u64_small x : in_u64 x -> u64 x = x.
Proof. apply Z.mod_small. Qed.
Lemma i32_small x : in_i32 x -> i32 x = x.
Proof. width_lia. Qed.

#[export] Hint Resolve u8_range u16_range u32_range u64_range i32_range : width.

(** Masking with [2^n - 1] is reduction modulo [2^n]. *)
Lemma land_pow2_mask x n : 0 <= n -> Z.land x (2 ^ n - 1) = x mod 2 ^ n.
Proof.
  intros Hn. rewrite <- Z.land_ones by lia. by rewrite Z.ones_equiv, Z.sub_1_r.
Qed.

(** A decidable fact about a byte, checked on all 256 of them. *)
Lemma u8_exhaustive (f : Z -> bool) :
  forallb f (seqZ 0 256) = true -> forall b, in_u8 b -> f b = true.
Proof.
  intros H b Hb. rewrite forallb_forall in H. apply H.
  apply list_elem_of_In, elem_of_seqZ. unfold in_u8 in Hb. lia.
Qed.

(** ** Arrays

    [zget]/[zset] are the in-range reads and writes of a C array, indexed by a
    [Z] as the source indexes it.  An access outside the array has no value:
    it is [None], never a silent default. *)

Section arrays.
Context {A : Type}.

Definition zget (l : list A) (i : Z) : option A :=
  if i <? 0 then None else l !! Z.to_nat i.

Definition zset (l : list A) (i : Z) (x : A) : option (list A) :=
  if (i <? 0) || (Z.of_nat (length l) <=? i) then None
  else Some (<[Z.to_nat i := x]> l).

Definition zlen (l : list A) : Z := Z.of_nat (length l).

Lemma zget_Some_range l i x : zget l i = Some x -> 0 <= i < zlen l.
Proof.
  unfold zget, zlen. case_match eqn:E; [done|]. intros H%lookup_lt_Some. lia.
Qed.

Lemma zget_is_Some l i : 0 <= i < zlen l -> exists x, zget l i = Some x.
Proof.
  unfold zget, zlen. intros H. case_match eqn:E; [lia|].
  destruct (lookup_lt_is_Some_2 l (Z.to_nat i)) as [x Hx]; [lia|eauto].
Qed.

Lemma zset_Some l i x l' :
  zset l i x = Some l' <-> 0 <= i < zlen l /\ l' = <[Z.to_nat i := x]> l.
Proof.
  unfold zset, zlen. case_match eqn:E; split; intros H; simplify_eq;
    try (split; [lia|done]); destruct H as [? ->]; [lia|done].
Qed.

Lemma zset_is_Some l i x : 0 <= i < zlen l -> exists l', zset l i x = Some l'.
Proof. intros H. eexists. by apply zset_Some. Qed.

Lemma zset_length l i x l' : zset l i x = Some l' -> zlen l' = zlen l.
Proof. intros [_ ->]%zset_Some. unfold zlen. by rewrite length_insert. Qed.

Lemma zget_zset_eq l i x l' : zset l i x = Some l' -> zget l' i = Some x.
Proof.
  intros [Hi ->]%zset_Some. unfold zget, zlen in *. case_match eqn:E; [lia|].
  apply list_lookup_insert_eq. lia.
Qed.

Lemma zget_zset_ne l i j x l' :
  zset l i x = Some l' -> i <> j -> zget l' j = zget l j.
Proof.
  intros [Hi ->]%zset_Some Hne. unfold zget. case_match eqn:E; [done|].
  apply list_lookup_insert_ne. lia.
Qed.

Lemma zget_app_l l k i : i < zlen l -> zget (l ++ k) i = zget l i.
Proof.
  unfold zget, zlen. intros H. case_match eqn:E; [done|].
  apply lookup_app_l. lia.
Qed.

Lemma zget_app_r l k i : zlen l <= i -> zget (l ++ k) i = zget k (i - zlen l).
Proof.
  unfold zget, zlen. intros H. repeat case_match; try lia.
  rewrite lookup_app_r by lia. f_equal. lia.
Qed.

Lemma zlen_app l k : zlen (l ++ k) = zlen l + zlen k.
Proof. unfold zlen. rewrite length_app. lia. Qed.

Lemma zlen_cons x l : zlen (x :: l) = 1 + zlen l.
Proof. unfold zlen. simpl. lia. Qed.

Lemma zlen_nil : zlen (@nil A) = 0.
Proof. done. Qed.

Lemma zlen_insert l i x : zlen (<[i := x]> l) = zlen l.
Proof. unfold zlen. by rewrite length_insert. Qed.

Lemma zlen_replicate n (x : A) : zlen (replicate n x) = Z.of_nat n.
Proof. unfold zlen. by rewrite length_replicate. Qed.

(** The element at the boundary of two segments. *)
Lemma zget_middle l k x : zget (l ++ x :: k) (zlen l) = Some x.
Proof. rewrite zget_app_r by lia. by rewrite Z.sub_diag. Qed.

Lemma zset_middle l k x y : zset (l ++ x :: k) (zlen l) y = Some (l ++ y :: k).
Proof.
  apply zset_Some. rewrite zlen_app, zlen_cons. unfold zlen. split; [lia|].
  rewrite Nat2Z.id. replace (length l) with (length l + 0)%nat by lia.
  by rewrite insert_app_r.
Qed.

Lemma zlen_nonneg l : 0 <= zlen l.
Proof. unfold zlen. lia. Qed.

Lemma zget_cons_0 x l : zget (x :: l) 0 = Some x.
Proof. done. Qed.

Lemma zget_cons_pos x l i : 0 < i -> zget (x :: l) i = zget l (i - 1).
Proof.
  unfold zget. intros H. repeat case_match; try lia.
  replace (Z.to_nat i) with (S (Z.to_nat (i - 1))) by lia. done.
Qed.
End arrays.

#[export] Hint Resolve zlen_nonneg : width.

(** Normalise list lengths everywhere. *)
Ltac zlen_simpl :=
  rewrite ?zlen_app, ?zlen_cons in *;
  repeat match goal with
  | H : context [zlen (@nil ?A)] |- _ => change (zlen (@nil A)) with 0 in H
  | |- context [zlen (@nil ?A)] => change (zlen (@nil A)) with 0
  end.

(** Shared automation: peel an [option] computation whose result is known. *)
Ltac bind_inv :=
  repeat match goal with
  | H : mbind _ ?o = Some _ |- _ =>
      let E := fresh "E" in destruct o eqn:E; simpl in H; [|discriminate H]
  | H : Some _ = Some _ |- _ => injection H as H; subst
  end.

(** ** Outcomes

    A C function with assertions ends in one of three ways: it returns, an
    [assert] stops the process, or it does something that has no defined
    effect (an access outside an object).  [OutOfFuel] is the fourth outcome
    of a model whose loop runs on fuel; theorems rule it out. *)
Inductive outcome (A : Type) := Done (a : A) | AssertFail | Fault | OutOfFuel.
Arguments Done {A} a.
Arguments AssertFail {A}.
Arguments Fault {A}.
Arguments OutOfFuel {A}.

#[export] Instance outcome_ret : MRet outcome := fun A a => Done a.
#[export] Instance outcome_bind : MBind outcome := fun A B f o =>
  match o with
  | Done a => f a | AssertFail => AssertFail | Fault => Fault | OutOfFuel => OutOfFuel
  end.

(** An array access inside a function with assertions. *)
Definition acc {A} (o : option A) : outcome A :=
  match o with Some a => Done a | None => Fault end.
