(* ===== verification/Ring.v ===== *)
(** * Ring buffers with one slot kept free

    The delay buffer of [program/hybrid_access/base/delay_buffer.c] and the
    inter-app link of [core/link.lua] ([struct link] of [core/link.h]) are the
    same data structure: an array of [N] slots ([N] a power of two), a [read]
    and a [write] cursor, the ring being empty when the cursors coincide and
    full when advancing [write] would make them coincide.  This file holds the
    theory both share: which list of elements a ring represents
    ([ring_rel]), and what reading, writing and advancing the cursors do to
    that list. *)
From S2P Require Import Prelude.
From stdpp Require Import base tactics numbers list gmap.
From Stdlib Require Import ZArith Lia.
Open Scope Z_scope.

Section ring.
Context {A : Type} (N : Z).

(** [slots] from [r] (inclusive) to [w] (exclusive), going round, hold [xs]. *)
Record ring_rel (slots : gmap Z A) (r w : Z) (xs : list A) : Prop := {
  rr_read : 0 <= r < N;
  rr_len : zlen xs < N;
  rr_write : w = (r + zlen xs) mod N;
  rr_slots : forall i x, zget xs i = Some x -> slots !! ((r + i) mod N) = Some x;
}.

Lemma mod_add_wrap a i : 0 <= a < N -> 0 <= i < N ->
  (a + i) mod N = if a + i <? N then a + i else a + i - N.
Proof.
  intros Ha Hi. case_match eqn:E.
  - apply Z.mod_small. lia.
  - symmetry. apply (Z.mod_unique_pos _ _ 1); lia.
Qed.

Lemma ring_write_range slots r w xs : ring_rel slots r w xs -> 0 <= w < N.
Proof. intros [? ? -> ?]. apply Z.mod_pos_bound. lia. Qed.

Lemma ring_rel_nil slots r : 0 <= r < N -> ring_rel slots r r [].
Proof.
  intros H. split; [done|unfold zlen; simpl; lia|unfold zlen; simpl|].
  - rewrite Z.add_0_r. symmetry. by apply Z.mod_small.
  - intros i x Hx%zget_Some_range. unfold zlen in Hx. simpl in Hx. lia.
Qed.

Lemma ring_empty_iff slots r w xs :
  ring_rel slots r w xs -> (r = w <-> xs = []).
Proof.
  intros [Hr Hl -> _]. pose proof (zlen_nonneg xs). rewrite mod_add_wrap by lia.
  split; [|intros ->; rewrite zlen_nil; case_match; lia].
  intros E. destruct xs; [done|]. rewrite zlen_cons in *.
  pose proof (zlen_nonneg xs). case_match; lia.
Qed.

Lemma ring_full_iff slots r w xs :
  ring_rel slots r w xs -> ((w + 1) mod N = r <-> zlen xs = N - 1).
Proof.
  intros [Hr Hl -> _]. pose proof (zlen_nonneg xs).
  rewrite Zplus_mod_idemp_l, <- Z.add_assoc.
  destruct (decide (zlen xs = N - 1)) as [E|E].
  - replace (r + (zlen xs + 1)) with (r + 1 * N) by lia.
    rewrite Z_mod_plus_full, Z.mod_small by lia. lia.
  - rewrite mod_add_wrap by lia. case_match; lia.
Qed.

(** The element count, computed the way both sources compute it. *)
Lemma ring_count slots r w xs :
  ring_rel slots r w xs ->
  (if w <? r then w + N - r else w - r) = zlen xs.
Proof.
  intros [Hr Hl -> _]. pose proof (zlen_nonneg xs).
  rewrite mod_add_wrap by lia. repeat case_match; lia.
Qed.

Lemma ring_push slots r w xs x :
  ring_rel slots r w xs -> zlen xs < N - 1 ->
  ring_rel (<[w := x]> slots) r ((w + 1) mod N) (xs ++ [x]).
Proof.
  intros Hrel Hlen. pose proof (zlen_nonneg xs) as Hp.
  destruct Hrel as [Hr Hl -> Hs]. split; [done|..].
  - rewrite zlen_app. unfold zlen at 2. simpl. lia.
  - rewrite Zplus_mod_idemp_l, zlen_app. f_equal. unfold zlen at 3. simpl. lia.
  - intros i y Hy. pose proof (zget_Some_range _ _ _ Hy) as Hi.
    rewrite zlen_app in Hi. unfold zlen at 2 in Hi. simpl in Hi.
    destruct (decide (i = zlen xs)) as [->|Hne].
    + rewrite zget_app_r, Z.sub_diag in Hy by lia. cbn in Hy. simplify_eq.
      by rewrite lookup_insert_eq.
    + rewrite zget_app_l in Hy by lia. rewrite lookup_insert_ne; [by apply Hs|].
      rewrite !mod_add_wrap by lia. repeat case_match; lia.
Qed.

Lemma ring_front slots r w x xs : ring_rel slots r w (x :: xs) -> slots !! r = Some x.
Proof.
  intros [Hr _ _ Hs]. specialize (Hs 0 x eq_refl).
  by rewrite Z.add_0_r, Z.mod_small in Hs by lia.
Qed.

Lemma ring_pop slots r w x xs :
  ring_rel slots r w (x :: xs) -> ring_rel slots ((r + 1) mod N) w xs.
Proof.
  intros [Hr Hl -> Hs]. rewrite zlen_cons in *. split.
  - apply Z.mod_pos_bound. lia.
  - lia.
  - rewrite Zplus_mod_idemp_l. f_equal. lia.
  - intros i y Hy. pose proof (zget_Some_range _ _ _ Hy) as Hi.
    rewrite Zplus_mod_idemp_l, <- Z.add_assoc. apply Hs.
    rewrite zget_cons_pos by lia. rewrite <- Hy. f_equal. lia.
Qed.
End ring.

Create HintDb ring.
#[export] Hint Resolve ring_rel_nil ring_push ring_pop ring_front ring_write_range : ring.
