(* ===== verification/DelayBuffer.v ===== *)
(** * The delay buffer ([src/src/program/hybrid_access/base/delay_buffer.c], [.h])

    A ring of [DELAY_BUFFER_SIZE] timed packets.  The state is [struct
    delay_buffer] with its slot array as a finite map (a slot never written
    since [malloc] has no entry, so reading it has no value) and its two [int]
    cursors; the operations are the functions of delay_buffer.c, one
    definition each.  The abstract specification is a bounded FIFO list of
    packets ([db_repr]); [TimedQueue] is the interface the delaying
    middleware is verified against. *)
From S2P Require Import Prelude Ring.
From stdpp Require Import base tactics numbers list gmap.
From Stdlib Require Import ZArith Lia.
Open Scope Z_scope.

(** A [struct packet *]: an address. *)
Definition packet_ptr := Z.

Definition DELAY_BUFFER_SIZE : Z := 256 * 1024.

Record timed_packet := TimedPacket {
  tp_packet : packet_ptr;
  tp_sending_time : Z;   (* uint64_t *)
}.

Record delay_buffer := DelayBuffer {
  db_packets : gmap Z timed_packet;
  db_read : Z;    (* int *)
  db_write : Z;   (* int *)
}.

(** [db_new]: [mem] is what [malloc] returned, [None] for [NULL] and otherwise
    the (uninitialised) contents of the slots. *)
Definition db_new (mem : option (gmap Z timed_packet)) : option delay_buffer :=
  match mem with
  | None => None
  | Some slots => Some (DelayBuffer slots 0 0)
  end.

Definition buffer_is_empty (b : delay_buffer) : bool := db_read b =? db_write b.

Definition buffer_is_full (b : delay_buffer) : bool :=
  Z.land (db_write b + 1) (DELAY_BUFFER_SIZE - 1) =? db_read b.

Definition db_enqueue (b : delay_buffer) (pkt : packet_ptr) (sending_time : Z)
    : Z * delay_buffer :=
  if buffer_is_full b then (0, b)
  else
    (1, DelayBuffer (<[db_write b := TimedPacket pkt sending_time]> (db_packets b))
          (db_read b)
          (Z.land (db_write b + 1) (DELAY_BUFFER_SIZE - 1))).

(** The slot is read and the cursor advanced whether or not the buffer is
    empty; the result is [None] when the slot holds no defined value. *)
Definition db_dequeue (b : delay_buffer) : option packet_ptr * delay_buffer :=
  (tp_packet <$> db_packets b !! db_read b,
   DelayBuffer (db_packets b)
     (Z.land (db_read b + 1) (DELAY_BUFFER_SIZE - 1)) (db_write b)).

Definition db_peek_time (b : delay_buffer) : option Z :=
  if buffer_is_empty b then Some UINT64_MAX
  else tp_sending_time <$> db_packets b !! db_read b.

Definition db_size (b : delay_buffer) : Z :=
  if db_read b <=? db_write b then db_write b - db_read b
  else db_write b + DELAY_BUFFER_SIZE - db_read b.

(** [db_free] on the heap of live buffers ([0] is [NULL]); [free] of an address
    that is not live is undefined. *)
Definition db_free (heap : gmap Z delay_buffer) (p : Z) : option (gmap Z delay_buffer) :=
  if p =? 0 then Some heap
  else match heap !! p with
       | Some _ => Some (delete p heap)
       | None => None
       end.

(** ** Abstract specification *)

Definition db_repr (b : delay_buffer) (q : list timed_packet) : Prop :=
  ring_rel DELAY_BUFFER_SIZE (db_packets b) (db_read b) (db_write b) q.

Definition DB_CAPACITY : Z := DELAY_BUFFER_SIZE - 1.

Lemma db_mask x : Z.land x (DELAY_BUFFER_SIZE - 1) = x mod DELAY_BUFFER_SIZE.
Proof. apply (land_pow2_mask x 18). lia. Qed.

Lemma db_new_repr slots b : db_new (Some slots) = Some b -> db_repr b [].
Proof. intros [= <-]. apply ring_rel_nil. cbn. unfold DELAY_BUFFER_SIZE. lia. Qed.

Lemma buffer_is_empty_spec b q : db_repr b q -> buffer_is_empty b = bool_decide (q = []).
Proof.
  intros H%ring_empty_iff. apply eq_bool_prop_intro. unfold buffer_is_empty.
  rewrite bool_decide_spec, Is_true_true, Z.eqb_eq. done.
Qed.

Lemma buffer_is_full_spec b q :
  db_repr b q -> buffer_is_full b = bool_decide (zlen q = DB_CAPACITY).
Proof.
  intros H%ring_full_iff. apply eq_bool_prop_intro. unfold buffer_is_full.
  rewrite bool_decide_spec, Is_true_true, Z.eqb_eq, db_mask. done.
Qed.

Lemma db_enqueue_room b q p t : db_repr b q -> zlen q < DB_CAPACITY ->
  exists b', db_enqueue b p t = (1, b') /\ db_repr b' (q ++ [TimedPacket p t]).
Proof.
  intros H Hlen. unfold db_enqueue. rewrite (buffer_is_full_spec _ _ H).
  rewrite bool_decide_eq_false_2 by lia. eexists. split; [done|].
  unfold db_repr. cbn [db_packets db_read db_write]. rewrite db_mask.
  by apply ring_push.
Qed.

Lemma db_enqueue_full b q p t : db_repr b q -> zlen q = DB_CAPACITY ->
  db_enqueue b p t = (0, b).
Proof.
  intros H Hlen. unfold db_enqueue. rewrite (buffer_is_full_spec _ _ H).
  by rewrite bool_decide_eq_true_2.
Qed.

Lemma db_dequeue_cons b x q : db_repr b (x :: q) ->
  exists b', db_dequeue b = (Some (tp_packet x), b') /\ db_repr b' q.
Proof.
  intros H. unfold db_dequeue. rewrite (ring_front _ _ _ _ _ _ H). eexists.
  split; [done|]. unfold db_repr. cbn [db_packets db_read db_write].
  rewrite db_mask. by eapply ring_pop.
Qed.

Lemma db_peek_time_spec b q : db_repr b q ->
  db_peek_time b =
    Some match q with [] => UINT64_MAX | x :: _ => tp_sending_time x end.
Proof.
  intros H. unfold db_peek_time. rewrite (buffer_is_empty_spec _ _ H).
  destruct q as [|x q]; [done|]. rewrite bool_decide_eq_false_2 by done.
  by rewrite (ring_front _ _ _ _ _ _ H).
Qed.

Lemma db_size_spec b q : db_repr b q -> db_size b = zlen q.
Proof.
  intros H. rewrite <- (ring_count _ _ _ _ _ H). unfold db_size.
  repeat case_match; lia.
Qed.

Lemma db_capacity_bound b q : db_repr b q -> zlen q <= DB_CAPACITY.
Proof. intros [? ? ? ?]. unfold DB_CAPACITY. lia. Qed.

(** ** The interface a client of the buffer relies on

    [TimedQueue] is the set of operations the delaying middleware calls and
    [TimedQueueLaws] what they promise: a FIFO list of at most [tq_capacity]
    timed packets. *)

Class TimedQueue (Q : Type) := {
  tq_capacity : Z;
  tq_repr : Q -> list timed_packet -> Prop;
  tq_enqueue : Q -> packet_ptr -> Z -> Z * Q;
  tq_dequeue : Q -> option packet_ptr * Q;
  tq_peek_time : Q -> option Z;
  tq_size : Q -> Z;
}.

Class TimedQueueLaws (Q : Type) `{TimedQueue Q} := {
  tq_bound : forall b q, tq_repr b q -> zlen q <= tq_capacity;
  tq_enqueue_room : forall b q p t, tq_repr b q -> zlen q < tq_capacity ->
    exists b', tq_enqueue b p t = (1, b') /\ tq_repr b' (q ++ [TimedPacket p t]);
  tq_enqueue_full : forall b q p t, tq_repr b q -> zlen q = tq_capacity ->
    tq_enqueue b p t = (0, b);
  tq_dequeue_cons : forall b x q, tq_repr b (x :: q) ->
    exists b', tq_dequeue b = (Some (tp_packet x), b') /\ tq_repr b' q;
  tq_peek_spec : forall b q, tq_repr b q ->
    tq_peek_time b =
      Some match q with [] => UINT64_MAX | x :: _ => tp_sending_time x end;
  tq_size_spec : forall b q, tq_repr b q -> tq_size b = zlen q;
}.

#[export] Instance delay_buffer_queue : TimedQueue delay_buffer := {
  tq_capacity := DB_CAPACITY;
  tq_repr := db_repr;
  tq_enqueue := db_enqueue;
  tq_dequeue := db_dequeue;
  tq_peek_time := db_peek_time;
  tq_size := db_size;
}.

#[export] Instance delay_buffer_laws : TimedQueueLaws delay_buffer := {
  tq_bound := db_capacity_bound;
  tq_enqueue_room := db_enqueue_room;
  tq_enqueue_full := db_enqueue_full;
  tq_dequeue_cons := db_dequeue_cons;
  tq_peek_spec := db_peek_time_spec;
  tq_size_spec := db_size_spec;
}.

(** ** Sequences of operations

    A run of the buffer is a list of calls; the abstract run is the same list
    of calls on a bounded list. *)

Inductive db_op := OpEnqueue (p : packet_ptr) (t : Z) | OpDequeue | OpPeek | OpSize.

(** What a call returns to its caller. *)
Inductive db_result := RInt (n : Z) | RPacket (p : option packet_ptr) | RTime (t : option Z).

Definition db_step (b : delay_buffer) (o : db_op) : db_result * delay_buffer :=
  match o with
  | OpEnqueue p t => let '(r, b') := db_enqueue b p t in (RInt r, b')
  | OpDequeue => let '(p, b') := db_dequeue b in (RPacket p, b')
  | OpPeek => (RTime (db_peek_time b), b)
  | OpSize => (RInt (db_size b), b)
  end.

Fixpoint db_run (b : delay_buffer) (ops : list db_op) : list db_result * delay_buffer :=
  match ops with
  | [] => ([], b)
  | o :: ops =>
      let '(r, b') := db_step b o in
      let '(rs, b'') := db_run b' ops in (r :: rs, b'')
  end.

(** The bounded FIFO queue the buffer promises to be.  [OpDequeue] of an empty
    queue is outside the contract ("assert not empty"). *)
Definition fifo_step (q : list timed_packet) (o : db_op)
    : option (db_result * list timed_packet) :=
  match o with
  | OpEnqueue p t =>
      if zlen q <? DB_CAPACITY then Some (RInt 1, q ++ [TimedPacket p t])
      else Some (RInt 0, q)
  | OpDequeue =>
      match q with [] => None | x :: q => Some (RPacket (Some (tp_packet x)), q) end
  | OpPeek =>
      Some (RTime (Some match q with [] => UINT64_MAX | x :: _ => tp_sending_time x end), q)
  | OpSize => Some (RInt (zlen q), q)
  end.

Fixpoint fifo_run (q : list timed_packet) (ops : list db_op)
    : option (list db_result * list timed_packet) :=
  match ops with
  | [] => Some ([], q)
  | o :: ops =>
      '(r, q') ← fifo_step q o; '(rs, q'') ← fifo_run q' ops; Some (r :: rs, q'')
  end.

Lemma db_step_refines b q o r q' :
  db_repr b q -> fifo_step q o = Some (r, q') ->
  exists b', db_step b o = (r, b') /\ db_repr b' q'.
Proof.
  intros Hb Hs. destruct o as [p t| | |]; cbn [db_step fifo_step] in *.
  - case_match eqn:E; simplify_eq.
    + destruct (db_enqueue_room b q p t Hb ltac:(lia)) as (b' & -> & Hb'). eauto.
    + rewrite (db_enqueue_full b q' p t Hb); [eauto|].
      pose proof (db_capacity_bound _ _ Hb). lia.
  - destruct q as [|x q]; simplify_eq.
    destruct (db_dequeue_cons b x q' Hb) as (b' & -> & Hb'). eauto.
  - simplify_eq. rewrite (db_peek_time_spec _ _ Hb). eauto.
  - simplify_eq. rewrite (db_size_spec _ _ Hb). eauto.
Qed.

Lemma db_run_refines b q ops rs q' :
  db_repr b q -> fifo_run q ops = Some (rs, q') ->
  exists b', db_run b ops = (rs, b') /\ db_repr b' q'.
Proof.
  revert b q rs q'. induction ops as [|o ops IH]; intros b q rs q' Hb Hs; simpl in *.
  - simplify_eq. eauto.
  - destruct (fifo_step q o) as [[r q1]|] eqn:E1; simpl in Hs; [|done].
    destruct (fifo_run q1 ops) as [[rs1 q2]|] eqn:E2; simpl in Hs; simplify_eq.
    destruct (db_step_refines _ _ _ _ _ Hb E1) as (b1 & -> & Hb1).
    destruct (IH _ _ _ _ Hb1 E2) as (b2 & -> & Hb2). eauto.
Qed.

(** C1: every sequence of [db_enqueue], [db_dequeue], [db_peek_time] and
    [db_size] calls on a buffer fresh from [db_new], whatever its uninitialised
    slots hold, returns exactly what the bounded FIFO queue of
    [DELAY_BUFFER_SIZE - 1] timed packets returns, and the buffer keeps
    representing that queue. *)
Theorem delay_buffer_refines_fifo (mem : gmap Z timed_packet) (b : delay_buffer)
    (ops : list db_op) (rs : list db_result) (q : list timed_packet) :
  db_new (Some mem) = Some b -> fifo_run [] ops = Some (rs, q) ->
  exists b', db_run b ops = (rs, b') /\ db_repr b' q.
Proof. intros Hn. apply db_run_refines. by eapply db_new_repr. Qed.

Definition c1_ops : list db_op :=
  [OpPeek; OpEnqueue 4096 7; OpEnqueue 8192 9; OpPeek; OpSize; OpDequeue; OpSize; OpPeek].

Lemma delay_buffer_refines_fifo_witness :
  exists b', db_run (DelayBuffer ∅ 0 0) c1_ops =
    ([RTime (Some UINT64_MAX); RInt 1; RInt 1; RTime (Some 7); RInt 2;
      RPacket (Some 4096); RInt 1; RTime (Some 9)], b')
    /\ db_repr b' [TimedPacket 8192 9].
Proof.
  apply (delay_buffer_refines_fifo ∅ (DelayBuffer ∅ 0 0) c1_ops); reflexivity.
Defined.
