(* ===== verification/Link.v ===== *)
(** * Links ([struct link] of [src/src/core/link.h], operations of [core/link.lua])

    A link is the ring that connects two apps.  The C part is the layout of
    [struct link]; the operations on it are those of link.lua, which reads and
    writes the C structure through the FFI.  Only the counters the operations
    touch are kept, and a packet is its address plus the [length] field the
    operations read. *)
From S2P Require Import Prelude Ring DelayBuffer.
From stdpp Require Import base tactics numbers list gmap.
From Stdlib Require Import ZArith Lia.
Open Scope Z_scope.

Definition LINK_RING_SIZE : Z := 1024.
Definition LINK_MAX_PACKETS : Z := LINK_RING_SIZE - 1.

Record link_stats := LinkStats {
  ls_txbytes : Z; ls_rxbytes : Z; ls_txpackets : Z; ls_rxpackets : Z; ls_txdrop : Z;
}.

Record link := Link {
  l_packets : gmap Z packet_ptr;
  l_stats : link_stats;
  l_read : Z;
  l_write : Z;
}.

(** [counter.add]: the counters are [uint64_t]. *)
Definition counter_add (c n : Z) : Z := u64 (c + n).

Section link.
(** [plength p] is the [length] field of the packet at [p]. *)
Context (plength : packet_ptr -> Z).

Definition link_empty (r : link) : bool := l_read r =? l_write r.

Definition link_full (r : link) : bool :=
  Z.land (l_write r + 1) (LINK_RING_SIZE - 1) =? l_read r.

Definition link_receive (r : link) : option (packet_ptr * link) :=
  p ← l_packets r !! l_read r;
  let s := l_stats r in
  Some (p, Link (l_packets r)
    (LinkStats (ls_txbytes s) (counter_add (ls_rxbytes s) (plength p))
       (ls_txpackets s) (counter_add (ls_rxpackets s) 1) (ls_txdrop s))
    (Z.land (l_read r + 1) (LINK_RING_SIZE - 1)) (l_write r)).

(** The packets handed to [packet.free] are returned beside the new state. *)
Definition link_transmit (r : link) (p : packet_ptr) : list packet_ptr * link :=
  let s := l_stats r in
  if link_full r then
    ([p], Link (l_packets r)
       (LinkStats (ls_txbytes s) (ls_rxbytes s) (ls_txpackets s) (ls_rxpackets s)
          (counter_add (ls_txdrop s) 1)) (l_read r) (l_write r))
  else
    ([], Link (<[l_write r := p]> (l_packets r))
       (LinkStats (counter_add (ls_txbytes s) (plength p)) (ls_rxbytes s)
          (counter_add (ls_txpackets s) 1) (ls_rxpackets s) (ls_txdrop s))
       (l_read r) (Z.land (l_write r + 1) (LINK_RING_SIZE - 1))).

Definition link_nreadable (r : link) : Z :=
  if l_write r <? l_read r then l_write r + LINK_RING_SIZE - l_read r
  else l_write r - l_read r.

Definition link_nwritable (r : link) : Z := LINK_MAX_PACKETS - link_nreadable r.

Definition link_repr (r : link) (ps : list packet_ptr) : Prop :=
  ring_rel LINK_RING_SIZE (l_packets r) (l_read r) (l_write r) ps.

Lemma link_mask x : Z.land x (LINK_RING_SIZE - 1) = x mod LINK_RING_SIZE.
Proof. apply (land_pow2_mask x 10). lia. Qed.

Lemma link_empty_spec r ps : link_repr r ps -> link_empty r = bool_decide (ps = []).
Proof.
  intros H%ring_empty_iff. apply eq_bool_prop_intro. unfold link_empty.
  rewrite bool_decide_spec, Is_true_true, Z.eqb_eq. done.
Qed.

Lemma link_full_spec r ps :
  link_repr r ps -> link_full r = bool_decide (zlen ps = LINK_MAX_PACKETS).
Proof.
  intros H%ring_full_iff. apply eq_bool_prop_intro. unfold link_full.
  rewrite bool_decide_spec, Is_true_true, Z.eqb_eq, link_mask. done.
Qed.

Lemma link_receive_cons r p ps : link_repr r (p :: ps) ->
  exists r', link_receive r = Some (p, r') /\ link_repr r' ps.
Proof.
  intros H. unfold link_receive. rewrite (ring_front _ _ _ _ _ _ H). eexists.
  split; [done|]. unfold link_repr. simpl. rewrite link_mask. by eapply ring_pop.
Qed.

Lemma link_transmit_room r ps p : link_repr r ps -> zlen ps < LINK_MAX_PACKETS ->
  exists r', link_transmit r p = ([], r') /\ link_repr r' (ps ++ [p]).
Proof.
  intros H Hlen. unfold link_transmit. rewrite (link_full_spec _ _ H).
  rewrite bool_decide_eq_false_2 by lia. eexists. split; [done|].
  unfold link_repr. simpl. rewrite link_mask. by apply ring_push.
Qed.

Lemma link_transmit_full r ps p : link_repr r ps -> zlen ps = LINK_MAX_PACKETS ->
  exists r', link_transmit r p = ([p], r') /\ link_repr r' ps.
Proof.
  intros H Hlen. unfold link_transmit. rewrite (link_full_spec _ _ H).
  rewrite bool_decide_eq_true_2 by lia. by eexists.
Qed.

Lemma link_nreadable_spec r ps : link_repr r ps -> link_nreadable r = zlen ps.
Proof. apply ring_count. Qed.

Lemma link_bound r ps : link_repr r ps -> zlen ps <= LINK_MAX_PACKETS.
Proof. intros [? ? ? ?]. unfold LINK_MAX_PACKETS. lia. Qed.

Lemma link_nwritable_spec r ps :
  link_repr r ps -> link_nwritable r = LINK_MAX_PACKETS - zlen ps.
Proof. intros H. unfold link_nwritable. by rewrite (link_nreadable_spec _ _ H). Qed.
End link.
