(* ===== verification/Delayer.v ===== *)
(** * The delaying middleware ([program/hybrid_access/middleware/delayer_c_buffer.lua])

    [DelayerWithCBuffer:push] is the client of the C delay buffer: it forwards
    the packets whose delay has passed, discards the due packets that do not
    fit on the output link, and queues what arrived on the input link.  It is
    modelled against the [TimedQueue] interface and instantiated with the C
    buffer.  The [while] loops carry fuel; [None] is a loop that has not
    finished or an undefined read, and the theorem shows that it does not
    happen. *)
From S2P Require Import Prelude Ring DelayBuffer Link.
From stdpp Require Import base tactics numbers list gmap.
From Stdlib Require Import ZArith Lia.
Open Scope Z_scope.

Section delayer.
Context {Q : Type} `{TQ : TimedQueue Q} `{!TimedQueueLaws Q}.
Context (plength : packet_ptr -> Z).

(** What [push] works on: the queue, the two links, and the packets that have
    been handed to [packet.free]. *)
Record dstate := DState {
  d_queue : Q; d_in : link; d_out : link; d_freed : list packet_ptr;
}.

(** [for _ = 1, max_packets_to_forward do if db_peek_time(..) <= current_time ..] *)
Fixpoint forward_due (n : nat) (now : Z) (s : dstate) : option dstate :=
  match n with
  | O => Some s
  | S n =>
      t ← tq_peek_time (d_queue s);
      if t <=? now then
        let '(op, q) := tq_dequeue (d_queue s) in
        p ← op;
        let '(fs, out) := link_transmit plength (d_out s) p in
        forward_due n now (DState q (d_in s) out (d_freed s ++ fs))
      else Some s
  end.

(** [while db_peek_time(queue) <= current_time do free(db_dequeue(queue)) end] *)
Fixpoint discard_due (fuel : nat) (now : Z) (s : dstate) : option dstate :=
  match fuel with
  | O => None
  | S fuel =>
      t ← tq_peek_time (d_queue s);
      if t <=? now then
        let '(op, q) := tq_dequeue (d_queue s) in
        p ← op;
        discard_due fuel now (DState q (d_in s) (d_out s) (d_freed s ++ [p]))
      else Some s
  end.

(** [while not empty(iface_in) do .. if db_enqueue(..) == 0 then free; break end end] *)
Fixpoint queue_input (fuel : nat) (sending_time : Z) (s : dstate) : option dstate :=
  match fuel with
  | O => None
  | S fuel =>
      if link_empty (d_in s) then Some s
      else
        '(p, lin) ← link_receive plength (d_in s);
        let '(r, q) := tq_enqueue (d_queue s) p sending_time in
        if r =? 0 then Some (DState q lin (d_out s) (d_freed s ++ [p]))
        else queue_input fuel sending_time (DState q lin (d_out s) (d_freed s))
  end.

(** [while not empty(iface_in) do free(receive(iface_in)) end] *)
Fixpoint discard_input (fuel : nat) (s : dstate) : option dstate :=
  match fuel with
  | O => None
  | S fuel =>
      if link_empty (d_in s) then Some s
      else
        '(p, lin) ← link_receive plength (d_in s);
        discard_input fuel (DState (d_queue s) lin (d_out s) (d_freed s ++ [p]))
  end.

(** [DelayerWithCBuffer:push] with [current_time] and [self.delay] ([uint64_t]). *)
Definition delayer_push (fuel : nat) (now delay : Z) (s : dstate) : option dstate :=
  let max_packets := Z.min (tq_size (d_queue s)) (link_nwritable (d_out s)) in
  s1 ← forward_due (Z.to_nat max_packets) now s;
  s2 ← discard_due fuel now s1;
  s3 ← queue_input fuel (u64 (now + delay)) s2;
  discard_input fuel s3.

(** ** Specification on lists *)

Definition due (now : Z) (x : timed_packet) : bool := tp_sending_time x <=? now.

(** The longest prefix of due packets, and what follows it. *)
Fixpoint due_prefix (now : Z) (q : list timed_packet) : list timed_packet :=
  match q with [] => [] | x :: q => if due now x then x :: due_prefix now q else [] end.
Fixpoint due_rest (now : Z) (q : list timed_packet) : list timed_packet :=
  match q with [] => [] | x :: q => if due now x then due_rest now q else x :: q end.

Record drepr (s : dstate) (q : list timed_packet) (ins outs fs : list packet_ptr) : Prop := {
  dr_queue : tq_repr (d_queue s) q;
  dr_in : link_repr (d_in s) ins;
  dr_out : link_repr (d_out s) outs;
  dr_freed : d_freed s = fs;
}.

Lemma due_split now q : due_prefix now q ++ due_rest now q = q.
Proof. induction q as [|x q IH]; simpl; [done|]. case_match; simpl; congruence. Qed.

Lemma forward_due_spec now n : forall s q ins outs fs,
  now < UINT64_MAX -> drepr s q ins outs fs ->
  zlen outs + Z.of_nat n <= LINK_MAX_PACKETS ->
  exists s', forward_due n now s = Some s' /\
    drepr s' (drop n (due_prefix now q) ++ due_rest now q) ins
      (outs ++ (tp_packet <$> take n (due_prefix now q))) fs.
Proof.
  induction n as [|n IH]; intros s q ins outs fs Hnow Hs Hroom; simpl.
  - eexists. split; [done|]. rewrite drop_0, due_split, app_nil_r. done.
  - destruct Hs as [Hq Hi Ho Hf]. rewrite (tq_peek_spec _ _ Hq). simpl.
    destruct q as [|x q]; simpl.
    { case_match eqn:E; [lia|]. eexists. split; [done|]. by rewrite app_nil_r. }
    unfold due. case_match eqn:E.
    + destruct (tq_dequeue_cons _ _ _ Hq) as (b' & -> & Hb'). simpl.
      destruct (link_transmit_room plength _ _ (tp_packet x) Ho) as (o' & -> & Ho'); [lia|].
      rewrite app_nil_r.
      destruct (IH (DState b' (d_in s) o' (d_freed s)) q ins (outs ++ [tp_packet x]) fs)
        as (s' & -> & Hs'); [done|done| |].
      { rewrite zlen_app, zlen_cons, zlen_nil. lia. }
      eexists. split; [done|]. by rewrite <- app_assoc in Hs'.
    + eexists. split; [done|]. simpl. by rewrite app_nil_r.
Qed.

Lemma discard_due_spec now fuel : forall s q ins outs fs,
  now < UINT64_MAX -> drepr s q ins outs fs -> zlen q < Z.of_nat fuel ->
  exists s', discard_due fuel now s = Some s' /\
    drepr s' (due_rest now q) ins outs (fs ++ (tp_packet <$> due_prefix now q)).
Proof.
  induction fuel as [|fuel IH]; intros s q ins outs fs Hnow Hs Hfuel; simpl.
  { pose proof (zlen_nonneg q). lia. }
  destruct Hs as [Hq Hi Ho Hf]. rewrite (tq_peek_spec _ _ Hq). simpl.
  destruct q as [|x q]; simpl.
  { case_match eqn:E; [lia|]. eexists. split; [done|]. by rewrite app_nil_r. }
  unfold due. case_match eqn:E.
  - destruct (tq_dequeue_cons _ _ _ Hq) as (b' & -> & Hb'). simpl.
    rewrite zlen_cons in Hfuel.
    destruct (IH (DState b' (d_in s) (d_out s) (d_freed s ++ [tp_packet x])) q ins outs
      (fs ++ [tp_packet x])) as (s' & -> & Hs'); [done| |lia|].
    { by split; simpl; rewrite ?Hf. }
    eexists. split; [done|]. by rewrite <- app_assoc in Hs'.
  - eexists. split; [done|]. by rewrite app_nil_r.
Qed.

Lemma queue_input_spec st fuel : forall s q ins outs fs room,
  drepr s q ins outs fs -> zlen ins < Z.of_nat fuel ->
  Z.of_nat room = tq_capacity - zlen q ->
  exists s', queue_input fuel st s = Some s' /\
    drepr s' (q ++ ((fun p => TimedPacket p st) <$> take room ins))
      (drop (S room) ins) outs (fs ++ take 1 (drop room ins)).
Proof.
  induction fuel as [|fuel IH]; intros s q ins outs fs room Hs Hfuel Hroom; simpl.
  { pose proof (zlen_nonneg ins). lia. }
  destruct Hs as [Hq Hi Ho Hf]. rewrite (link_empty_spec _ _ Hi).
  destruct ins as [|p ins].
  { rewrite bool_decide_eq_true_2 by done. eexists. split; [done|].
    by rewrite !take_nil, !drop_nil, fmap_nil, !app_nil_r. }
  rewrite bool_decide_eq_false_2 by done.
  destruct (link_receive_cons plength _ _ _ Hi) as (lin & -> & Hlin). simpl.
  destruct room as [|room].
  - rewrite (tq_enqueue_full _ _ _ _ Hq) by lia. simpl. eexists. split; [done|].
    rewrite app_nil_r. by split; simpl; rewrite ?Hf.
  - destruct (tq_enqueue_room _ _ p st Hq) as (b' & -> & Hb'); [lia|]. simpl.
    rewrite zlen_cons in Hfuel.
    destruct (IH (DState b' lin (d_out s) (d_freed s)) (q ++ [TimedPacket p st]) ins outs fs room)
      as (s' & -> & Hs'); [done|lia| |].
    { rewrite zlen_app, zlen_cons, zlen_nil. lia. }
    eexists. split; [done|]. by rewrite <- app_assoc in Hs'.
Qed.

Lemma discard_input_spec fuel : forall s q ins outs fs,
  drepr s q ins outs fs -> zlen ins < Z.of_nat fuel ->
  exists s', discard_input fuel s = Some s' /\ drepr s' q [] outs (fs ++ ins).
Proof.
  induction fuel as [|fuel IH]; intros s q ins outs fs Hs Hfuel; simpl.
  { pose proof (zlen_nonneg ins). lia. }
  destruct Hs as [Hq Hi Ho Hf]. rewrite (link_empty_spec _ _ Hi).
  destruct ins as [|p ins].
  { rewrite bool_decide_eq_true_2 by done. eexists. split; [done|].
    by rewrite app_nil_r. }
  rewrite bool_decide_eq_false_2 by done. rewrite zlen_cons in Hfuel.
  destruct (link_receive_cons plength _ _ _ Hi) as (lin & -> & Hlin). simpl.
  destruct (IH (DState (d_queue s) lin (d_out s) (d_freed s ++ [p])) q ins outs (fs ++ [p]))
    as (s' & -> & Hs'); [|lia|].
  { by split; simpl; rewrite ?Hf. }
  eexists. split; [done|]. by rewrite <- app_assoc in Hs'.
Qed.

Lemma due_prefix_drop now n q :
  due_prefix now (drop n (due_prefix now q) ++ due_rest now q) = drop n (due_prefix now q)
  /\ due_rest now (drop n (due_prefix now q) ++ due_rest now q) = due_rest now q.
Proof.
  assert (Hr : forall q, due_prefix now (due_rest now q) = [] /\
                         due_rest now (due_rest now q) = due_rest now q).
  { clear q. induction q as [|x q IH]; simpl; [done|].
    case_match eqn:E; [done|]. simpl. by rewrite E. }
  assert (Ha : Forall (fun x => due now x = true) (drop n (due_prefix now q))).
  { apply Forall_drop. clear. induction q as [|x q IH]; simpl; [constructor|].
    case_match eqn:E; constructor; done. }
  induction Ha as [|x l Hx _ IH]; simpl; [apply Hr|].
  rewrite Hx. destruct IH as [-> ->]. done.
Qed.

Lemma zlen_due_rest now q : zlen (due_rest now q) <= zlen q.
Proof.
  rewrite <- (due_split now q) at 2. rewrite zlen_app.
  pose proof (zlen_nonneg (due_prefix now q)). lia.
Qed.

Lemma delayer_push_correct now delay fuel s q ins outs fs n room :
  now < UINT64_MAX -> drepr s q ins outs fs ->
  zlen q < Z.of_nat fuel -> zlen ins < Z.of_nat fuel ->
  Z.of_nat n = Z.min (zlen q) (LINK_MAX_PACKETS - zlen outs) ->
  Z.of_nat room = tq_capacity - zlen (due_rest now q) ->
  exists s', delayer_push fuel now delay s = Some s' /\
    drepr s'
      (due_rest now q ++ ((fun p => TimedPacket p (u64 (now + delay))) <$> take room ins))
      []
      (outs ++ (tp_packet <$> take n (due_prefix now q)))
      (fs ++ (tp_packet <$> drop n (due_prefix now q)) ++ drop room ins).
Proof.
  intros Hnow Hs Hfq Hfi Hn Hroom. unfold delayer_push.
  rewrite (tq_size_spec _ _ (dr_queue _ _ _ _ _ Hs)).
  rewrite (link_nwritable_spec _ _ (dr_out _ _ _ _ _ Hs)), <- Hn, Nat2Z.id.
  destruct (forward_due_spec now n s q ins outs fs Hnow Hs) as (s1 & -> & H1); [lia|].
  cbn [mbind option_bind].
  assert (Hlen1 : zlen (drop n (due_prefix now q) ++ due_rest now q) < Z.of_nat fuel).
  { eapply Z.le_lt_trans; [|exact Hfq]. rewrite <- (due_split now q) at 3.
    rewrite !zlen_app. unfold zlen. rewrite length_drop. lia. }
  destruct (discard_due_spec now fuel s1 _ _ _ _ Hnow H1 Hlen1) as (s2 & -> & H2).
  cbn [mbind option_bind]. destruct (due_prefix_drop now n q) as [E1 E2].
  rewrite E1, E2 in H2.
  destruct (queue_input_spec (u64 (now + delay)) fuel s2 _ _ _ _ room H2 Hfi Hroom)
    as (s3 & -> & H3). cbn [mbind option_bind].
  destruct (discard_input_spec fuel s3 _ _ _ _ H3) as (s4 & -> & H4).
  { eapply Z.le_lt_trans; [|exact Hfi]. unfold zlen. rewrite length_drop. lia. }
  eexists. split; [done|]. rewrite <- !app_assoc in H4.
  replace (take 1 (drop room ins) ++ drop (S room) ins) with (drop room ins) in H4; [done|].
  rewrite <- (Nat.add_1_r room), <- drop_drop. by rewrite take_drop.
Qed.
End delayer.

(** C26: one [DelayerWithCBuffer:push] over the C delay buffer terminates and
    does exactly what the middleware is for: of the packets whose sending time
    has come (the due prefix of the queue) as many as fit on the output link
    are transmitted in order and the others are freed; the input link is
    drained into the queue with sending time [now + delay] while there is room
    and what does not fit is freed; nothing else is freed, sent or lost. *)
Theorem delayer_push_functional (plength : packet_ptr -> Z) (now delay : Z)
    (fuel n room : nat) (s : dstate (Q := delay_buffer))
    (q : list timed_packet) (ins outs fs : list packet_ptr) :
  now < UINT64_MAX -> drepr s q ins outs fs ->
  zlen q < Z.of_nat fuel -> zlen ins < Z.of_nat fuel ->
  Z.of_nat n = Z.min (zlen q) (LINK_MAX_PACKETS - zlen outs) ->
  Z.of_nat room = DB_CAPACITY - zlen (due_rest now q) ->
  exists s', delayer_push plength fuel now delay s = Some s' /\
    drepr s'
      (due_rest now q ++ ((fun p => TimedPacket p (u64 (now + delay))) <$> take room ins))
      []
      (outs ++ (tp_packet <$> take n (due_prefix now q)))
      (fs ++ (tp_packet <$> drop n (due_prefix now q)) ++ drop room ins).
Proof. intros. by apply (delayer_push_correct (Q := delay_buffer)). Qed.

(** A buffer holding one due and one future packet, and a link with one packet. *)
Definition c2_state : dstate (Q := delay_buffer) :=
  DState
    (DelayBuffer {[0 := TimedPacket 4096 50; 1 := TimedPacket 8192 500]} 0 2)
    (Link {[1023 := 12288]} (LinkStats 0 0 0 0 0) 1023 0)
    (Link ∅ (LinkStats 0 0 0 0 0) 5 5) [].

Lemma c2_repr : drepr c2_state [TimedPacket 4096 50; TimedPacket 8192 500] [12288] [] [].
Proof.
  split; [| | |done]; (split; [split; vm_compute; done|vm_compute; done|reflexivity|]).
  - intros i x Hx. pose proof (zget_Some_range _ _ _ Hx) as Hi. zlen_simpl.
    assert (i = 0 \/ i = 1) as [-> | ->] by lia; vm_compute in Hx; simplify_eq; reflexivity.
  - intros i x Hx. pose proof (zget_Some_range _ _ _ Hx) as Hi. zlen_simpl.
    assert (i = 0) as -> by lia; vm_compute in Hx; simplify_eq; reflexivity.
  - intros i x Hx. pose proof (zget_Some_range _ _ _ Hx) as Hi. zlen_simpl. lia.
Qed.

Lemma delayer_push_functional_witness :
  exists s', delayer_push (fun _ => 60) 3 100 30 c2_state = Some s' /\
    drepr s' [TimedPacket 8192 500; TimedPacket 12288 130] [] [4096] [].
Proof.
  apply (delayer_push_functional (fun _ => 60) 100 30 3 2 (Z.to_nat 262142) c2_state
           [TimedPacket 4096 50; TimedPacket 8192 500] [12288] [] []);
    [reflexivity|exact c2_repr|reflexivity|reflexivity|reflexivity|vm_compute; reflexivity].
Defined.
