(* ===== verification/Checksum.v ===== *)
(** * Internet checksums ([src/src/lib/checksum.c], [checksum.h], [checksum_lib.h])

    Every function of checksum.c is a definition: the generic checksum with its
    unrolled loop, the inlined unaligned loop of the SIMD versions, the two
    incremental updates and the pseudo-header sum.  Memory is a list of bytes
    and a pointer into it is the suffix it points at; words are read in host
    (little-endian, x86-64) order and [htons]/[ntohs] swap bytes.  The
    reference is RFC 1071: one's-complement addition with end-around carry
    over the big-endian 16-bit words ([oc_sum]). *)
From S2P Require Import Prelude.
From stdpp Require Import base tactics numbers list gmap.
From Stdlib Require Import ZArith Lia.
Open Scope Z_scope.

(** ** The functions of checksum.c *)

(** [htons]/[ntohs] and [htonl]/[ntohl] on a little-endian host. *)
Definition htons (x : Z) : Z := (x mod 256) * 256 + (x / 256) mod 256.
Definition ntohs (x : Z) : Z := htons x.
Definition htonl (x : Z) : Z :=
  htons (x mod 65536) * 65536 + htons (x / 65536).
Definition ntohl (x : Z) : Z := htonl x.

(** [((const uint16_t * )p)[i]] *)
Definition load16 (p : list Z) (i : Z) : option Z :=
  b0 ← zget p (2 * i); b1 ← zget p (2 * i + 1); Some (b0 + 256 * b1).

(** [while (len >= sizeof( *u16) * 4) ..]: four words a turn. *)
Fixpoint cksum_loop4 (fuel : nat) (sum len : Z) (u16p : list Z) : option (Z * Z * list Z) :=
  match fuel with
  | O => None
  | S fuel =>
      if 8 <=? len then
        w0 ← load16 u16p 0; w1 ← load16 u16p 1;
        w2 ← load16 u16p 2; w3 ← load16 u16p 3;
        let sum := u32 (sum + w0) in
        let sum := u32 (sum + w1) in
        let sum := u32 (sum + w2) in
        let sum := u32 (sum + w3) in
        cksum_loop4 fuel sum (len - 8) (drop 8 u16p)
      else Some (sum, len, u16p)
  end.

(** [while (len >= sizeof( *u16)) ..]: one word a turn. *)
Fixpoint cksum_loop1 (fuel : nat) (sum len : Z) (u16p : list Z) : option (Z * Z * list Z) :=
  match fuel with
  | O => None
  | S fuel =>
      if 2 <=? len then
        w ← load16 u16p 0;
        cksum_loop1 fuel (u32 (sum + w)) (len - 2) (drop 2 u16p)
      else Some (sum, len, u16p)
  end.

(** [while(sum>>16) sum = (sum & 0xFFFF) + (sum>>16)] *)
Fixpoint cksum_carry (fuel : nat) (sum : Z) : option Z :=
  match fuel with
  | O => None
  | S fuel =>
      if Z.shiftr sum 16 =? 0 then Some sum
      else cksum_carry fuel (u32 (Z.land sum 0xFFFF + Z.shiftr sum 16))
  end.

(** Iterations that are enough: a turn of a loop over the data consumes at
    least two bytes, and the carry loop ends within three turns. *)
Definition cksum_generic (p : list Z) (len initial : Z) : option Z :=
  let fuel := S (Z.to_nat len) in
  let sum := htons initial in
  '(sum, len, u16p) ← cksum_loop4 fuel sum len p;
  '(sum, len, u16p) ← cksum_loop1 fuel sum len u16p;
  sum ← (if len =? 1 then b ← zget u16p 0; Some (u32 (sum + b)) else Some sum);
  sum ← cksum_carry 4 sum;
  Some (ntohs (u16 (Z.lnot sum))).

(** [cksum_ua_loop]: [n] is a [uint16_t]. *)
Fixpoint cksum_ua_go (n : nat) (s0 s1 : Z) (p : list Z) : option Z :=
  match n with
  | O => Some (u32 (u32 (Z.shiftl s0 8) + s1))
  | S n =>
      b0 ← zget p 0; b1 ← zget p 1;
      cksum_ua_go n (u32 (s0 + b0)) (u32 (s1 + b1)) (drop 2 p)
  end.
Definition cksum_ua_loop (p : list Z) (n : Z) : option Z := cksum_ua_go (Z.to_nat n) 0 0 p.

(** The two cells are returned as they are left in memory (network order). *)
Definition checksum_update_incremental_16 (checksum_cell value_cell new_value : Z) : Z * Z :=
  let sum := Z.land (Z.lnot (ntohs checksum_cell)) 0xffff in
  let sum := u32 (sum + (Z.land (Z.lnot (ntohs value_cell)) 0xffff + new_value)) in
  let sum := u32 (Z.shiftr sum 16 + Z.land sum 0xffff) in
  let sum := u32 (sum + Z.shiftr sum 16) in
  (htons (Z.land (Z.lnot sum) 0xffff), htons new_value).

Definition checksum_update_incremental_32 (checksum_cell value_cell new_value : Z) : Z * Z :=
  let old_value := not32 (ntohl value_cell) in
  let sum := Z.land (Z.lnot (ntohs checksum_cell)) 0xffff in
  let sum := u32 (sum + (Z.shiftr old_value 16 + Z.land old_value 0xffff)) in
  let sum := u32 (sum + (Z.shiftr new_value 16 + Z.land new_value 0xffff)) in
  let sum := u32 (Z.shiftr sum 16 + Z.land sum 0xffff) in
  let sum := u32 (sum + Z.shiftr sum 16) in
  (htons (Z.land (Z.lnot sum) 0xffff), htonl new_value).

(** [for (i = 4; i < 20; i+=4) sum += hwbuf[i] + .. + hwbuf[i+3]] *)
Fixpoint pseudo_v6_loop (idx : list Z) (sum : Z) (buf : list Z) : option Z :=
  match idx with
  | [] => Some sum
  | i :: idx =>
      w0 ← load16 buf i; w1 ← load16 buf (i + 1);
      w2 ← load16 buf (i + 2); w3 ← load16 buf (i + 3);
      pseudo_v6_loop idx (u32 (sum + (w0 + w1 + w2 + w3))) buf
  end.

(** [sum = ((sum & 0xffff0000) >> 16) + (sum & 0xffff)] *)
Definition fold_half (sum : Z) : Z :=
  u32 (Z.shiftr (Z.land sum 0xffff0000) 16 + Z.land sum 0xffff).

(** The bytes of [buf] are given unsigned; [int8_t] reads convert them. *)
Definition pseudo_header_initial (buf : list Z) (len : Z) : option Z :=
  b0 ← zget buf 0;
  let ipv := i8 (Z.shiftr (Z.land (i8 b0) 0xF0) 4) in
  hdr ← (if ipv =? 4 then
           b9 ← zget buf 9; Some (Some (i8 b9, Z.land (i8 b0) 0x0F * 4))
         else if ipv =? 6 then b6 ← zget buf 6; Some (Some (i8 b6, 40))
         else Some None);
  match hdr with
  | None => Some 0xFFFF0001
  | Some (proto, headersize) =>
      if (proto =? 6) || (proto =? 17) then
        let len := u64 (len - headersize) in
        osum ← (if ipv =? 4 then
                  c ← cksum_generic buf headersize 0;
                  if negb (c =? 0) then Some None
                  else
                    w6 ← load16 buf 6; w7 ← load16 buf 7;
                    w8 ← load16 buf 8; w9 ← load16 buf 9;
                    Some (Some (u32 (htons (Z.land len 0xFFFF) + Z.shiftl proto 8
                                     + w6 + w7 + w8 + w9)))
                else
                  w2 ← load16 buf 2;
                  s ← pseudo_v6_loop [4; 8; 12; 16] (u32 (w2 + Z.shiftl proto 8)) buf;
                  Some (Some s));
        match osum with
        | None => Some 0xFFFF0002
        | Some sum => Some (ntohs (u16 (fold_half (fold_half sum))))
        end
      else Some 0xFFFF0001
  end.

(** ** RFC 1071: one's-complement sums of big-endian words *)

Fixpoint be_words (bs : list Z) : list Z :=
  match bs with
  | b0 :: b1 :: bs => b0 * 256 + b1 :: be_words bs
  | [b0] => [b0 * 256]
  | [] => []
  end.

(** Addition with end-around carry. *)
Definition oc_add (a b : Z) : Z :=
  let s := a + b in if 65536 <=? s then s - 65535 else s.
Definition oc_sum (ws : list Z) : Z := foldr oc_add 0 ws.

Definition sumZ (ws : list Z) : Z := foldr Z.add 0 ws.

(** The representative in [0 .. 65535] of a sum, which is [0] only for [0]. *)
Definition fold16 (x : Z) : Z := if x =? 0 then 0 else (x - 1) mod 65535 + 1.

Definition bytes_ok (bs : list Z) : Prop := Forall in_u8 bs.

Lemma fold16_unique x y :
  0 <= x -> 0 <= y <= 65535 -> (x - y) mod 65535 = 0 -> (y = 0 <-> x = 0) -> fold16 x = y.
Proof. intros. unfold fold16. case_match; zlia. Qed.

Lemma fold16_range x : 0 <= x -> 0 <= fold16 x <= 65535.
Proof. intros. unfold fold16. case_match; zlia. Qed.

Lemma fold16_congr x : 0 <= x -> (x - fold16 x) mod 65535 = 0.
Proof. intros. unfold fold16. case_match; zlia. Qed.

Lemma fold16_zero x : 0 <= x -> (fold16 x = 0 <-> x = 0).
Proof. intros. unfold fold16. case_match; zlia. Qed.

Lemma fold16_congr_eq x y :
  0 <= x -> 0 <= y -> (x - y) mod 65535 = 0 -> (x = 0 <-> y = 0) -> fold16 x = fold16 y.
Proof.
  intros Hx Hy Hc Hz. pose proof (fold16_congr y Hy). pose proof (fold16_zero y Hy).
  pose proof (fold16_range y Hy). apply fold16_unique; [lia|lia| |tauto]. zlia.
Qed.

Lemma oc_add_fold16 a b : in_u16 a -> 0 <= b -> oc_add a (fold16 b) = fold16 (a + b).
Proof.
  intros Ha Hb. pose proof (fold16_congr b Hb). pose proof (fold16_zero b Hb).
  pose proof (fold16_range b Hb). unfold in_u16 in *. symmetry. unfold oc_add.
  apply fold16_unique; [lia|case_match; lia|case_match; zlia|case_match; lia].
Qed.

Lemma sumZ_nonneg ws : Forall in_u16 ws -> 0 <= sumZ ws.
Proof. induction 1; simpl; unfold in_u16 in *; lia. Qed.

Lemma oc_sum_fold16 ws : Forall in_u16 ws -> oc_sum ws = fold16 (sumZ ws).
Proof.
  induction 1 as [|w ws Hw Hws IH]; [done|]. simpl. rewrite IH.
  apply oc_add_fold16; [done|]. by apply sumZ_nonneg.
Qed.

Lemma sumZ_app ws vs : sumZ (ws ++ vs) = sumZ ws + sumZ vs.
Proof. induction ws; simpl; lia. Qed.

(** ** Byte order *)

Fixpoint le_sum (bs : list Z) : Z :=
  match bs with
  | b0 :: b1 :: bs => b0 + 256 * b1 + le_sum bs
  | [b0] => b0
  | [] => 0
  end.

Lemma bytes_ind2 (P : list Z -> Prop) :
  P [] -> (forall b, P [b]) -> (forall b0 b1 bs, P bs -> P (b0 :: b1 :: bs)) ->
  forall bs, P bs.
Proof.
  intros H0 H1 H2 bs. enough (P bs /\ forall b, P (b :: bs)) by tauto.
  induction bs as [|b bs [IH1 IH2]]; split; auto.
Qed.

Lemma be_words_ok bs : bytes_ok bs -> Forall in_u16 (be_words bs).
Proof.
  induction bs as [|b|b0 b1 bs IH] using bytes_ind2; intros H; simpl; [done|..].
  - apply Forall_cons_1 in H as [H _]. constructor; [|done]. zlia.
  - apply Forall_cons_1 in H as [H0 [H1 H]%Forall_cons_1]. constructor; [zlia|auto].
Qed.

Lemma le_sum_nonneg bs : bytes_ok bs -> 0 <= le_sum bs.
Proof.
  induction bs as [|b|b0 b1 bs IH] using bytes_ind2; intros H; simpl; [done|..].
  - apply Forall_cons_1 in H as [H _]. zlia.
  - apply Forall_cons_1 in H as [H0 [H1 H]%Forall_cons_1]. specialize (IH H). zlia.
Qed.

(** Summing in the wrong byte order multiplies the sum by 256 modulo 65535. *)
Lemma le_be_congr bs : bytes_ok bs ->
  (sumZ (be_words bs) - 256 * le_sum bs) mod 65535 = 0 /\
  (sumZ (be_words bs) = 0 <-> le_sum bs = 0).
Proof.
  induction bs as [|b|b0 b1 bs IH] using bytes_ind2; intros H; simpl; [split; done|..].
  - apply Forall_cons_1 in H as [H _]. split; zlia.
  - apply Forall_cons_1 in H as [H0 [H1 H]%Forall_cons_1]. destruct (IH H) as [IH1 IH2].
    pose proof (le_sum_nonneg bs H). pose proof (sumZ_nonneg _ (be_words_ok bs H)).
    split; [clear IH2; zlia|unfold in_u8 in *; lia].
Qed.

Lemma htons_range x : in_u16 (htons x).
Proof. unfold htons. zlia. Qed.

Lemma htons_bytes x : in_u16 x ->
  exists a b, 0 <= a < 256 /\ 0 <= b < 256 /\ x = 256 * a + b /\ htons x = 256 * b + a.
Proof.
  intros H. exists (x / 256), (x mod 256). unfold htons.
  rewrite (Z.mod_small (x / 256)) by zlia. zlia.
Qed.

Lemma htons_of_bytes a b : 0 <= a < 256 -> 0 <= b < 256 -> htons (256 * a + b) = 256 * b + a.
Proof. intros Ha Hb. unfold htons. zlia. Qed.

Lemma htons_involutive x : in_u16 x -> htons (htons x) = x.
Proof.
  intros H. destruct (htons_bytes x H) as (a & b & Ha & Hb & -> & ->).
  by rewrite htons_of_bytes.
Qed.

Lemma htons_congr x : in_u16 x ->
  (htons x - 256 * x) mod 65535 = 0 /\ (htons x = 0 <-> x = 0).
Proof.
  intros H. destruct (htons_bytes x H) as (a & b & Ha & Hb & -> & ->). split; [zlia|lia].
Qed.

Lemma htons_fold16 x : 0 <= x -> htons (fold16 x) = fold16 (256 * x).
Proof.
  intros Hx. pose proof (fold16_range x Hx). pose proof (fold16_congr x Hx).
  pose proof (fold16_zero x Hx). destruct (htons_congr (fold16 x)) as [Hc Hz]; [zlia|].
  pose proof (htons_range (fold16 x)). symmetry. apply fold16_unique; [lia|zlia| |lia].
  clear Hz. zlia.
Qed.

Lemma not16_small x : in_u16 x -> u16 (Z.lnot x) = 65535 - x.
Proof. intros H. unfold Z.lnot. width_lia. Qed.

Lemma land_ffff x : Z.land x 0xffff = x mod 65536.
Proof. apply (land_pow2_mask x 16). lia. Qed.

Lemma shiftr16 x : Z.shiftr x 16 = x / 65536.
Proof. by rewrite Z.shiftr_div_pow2. Qed.

Lemma htons_not16 x : in_u16 x -> htons (65535 - x) = 65535 - htons x.
Proof.
  intros H. destruct (htons_bytes x H) as (a & b & Ha & Hb & -> & ->).
  replace (65535 - (256 * a + b)) with (256 * (255 - a) + (255 - b)) by lia.
  rewrite htons_of_bytes by lia. lia.
Qed.

(** ** The loops compute the little-endian sum *)

Lemma load16_cons b0 b1 p : load16 (b0 :: b1 :: p) 0 = Some (b0 + 256 * b1).
Proof. done. Qed.

Lemma load16_first4 b0 b1 b2 b3 b4 b5 b6 b7 p :
  let l := b0 :: b1 :: b2 :: b3 :: b4 :: b5 :: b6 :: b7 :: p in
  load16 l 0 = Some (b0 + 256 * b1) /\ load16 l 1 = Some (b2 + 256 * b3) /\
  load16 l 2 = Some (b4 + 256 * b5) /\ load16 l 3 = Some (b6 + 256 * b7).
Proof. done. Qed.

Lemma le_sum_cons2 b0 b1 p : le_sum (b0 :: b1 :: p) = b0 + 256 * b1 + le_sum p.
Proof. done. Qed.

Lemma take_cons2 len (b0 b1 : Z) p : 2 <= len ->
  take (Z.to_nat len) (b0 :: b1 :: p) = b0 :: b1 :: take (Z.to_nat (len - 2)) p.
Proof. intros H. by replace (Z.to_nat len) with (S (S (Z.to_nat (len - 2)))) by lia. Qed.

Lemma bytes_ok_cons2 b0 b1 p :
  bytes_ok (b0 :: b1 :: p) -> in_u8 b0 /\ in_u8 b1 /\ bytes_ok p.
Proof. intros [? [? ?]%Forall_cons_1]%Forall_cons_1. done. Qed.

Definition msum (len : Z) (p : list Z) : Z := le_sum (take (Z.to_nat len) p).

Lemma msum_cons2 len b0 b1 p : 2 <= len ->
  msum len (b0 :: b1 :: p) = b0 + 256 * b1 + msum (len - 2) p.
Proof. intros H. unfold msum. by rewrite take_cons2. Qed.

Lemma msum_nonneg len p : bytes_ok p -> 0 <= msum len p.
Proof. intros H. apply le_sum_nonneg. by apply Forall_take. Qed.

Lemma cksum_loop4_spec fuel : forall sum len p,
  bytes_ok p -> 0 <= len <= zlen p -> 0 <= sum -> sum + msum len p < 4294967296 ->
  len < Z.of_nat fuel ->
  exists sum' len' p', cksum_loop4 fuel sum len p = Some (sum', len', p') /\
    bytes_ok p' /\ 0 <= len' <= zlen p' /\ len' <= len /\ 0 <= sum' /\
    sum' + msum len' p' = sum + msum len p.
Proof.
  induction fuel as [|fuel IH]; intros sum len p Hp Hlen Hs Hsum Hf; [lia|]. simpl.
  case_match eqn:E; [|exists sum, len, p; repeat split; try done; lia].
  do 8 (destruct p as [|? p]; [zlen_simpl; lia|]).
  destruct (load16_first4 z z0 z1 z2 z3 z4 z5 z6 p) as (-> & -> & -> & ->).
  cbn [mbind option_bind drop]. rewrite drop_0.
  rewrite !msum_cons2 in * by lia.
  apply bytes_ok_cons2 in Hp as (? & ? & (? & ? & (? & ? & (? & ? &
    Hp)%bytes_ok_cons2)%bytes_ok_cons2)%bytes_ok_cons2).
  replace (len - 2 - 2 - 2 - 2) with (len - 8) in * by lia.
  pose proof (msum_nonneg (len - 8) p Hp). unfold in_u8 in *. zlen_simpl.
  rewrite !(u32_small (sum + _)), !(u32_small (sum + _ + _)), !(u32_small (sum + _ + _ + _)),
    u32_small by (unfold in_u32; lia).
  edestruct (IH (sum + (z + 256 * z0) + (z1 + 256 * z2) + (z3 + 256 * z4) + (z5 + 256 * z6))
    (len - 8) p) as (sum' & len' & p' & -> & H'); [done|lia..|].
  exists sum', len', p'. split; [done|]. intuition lia.
Qed.

Lemma cksum_loop1_spec fuel : forall sum len p,
  bytes_ok p -> 0 <= len <= zlen p -> 0 <= sum -> sum + msum len p < 4294967296 ->
  len < Z.of_nat fuel ->
  exists sum' len' p', cksum_loop1 fuel sum len p = Some (sum', len', p') /\
    bytes_ok p' /\ 0 <= len' <= zlen p' /\ len' < 2 /\ 0 <= sum' /\
    sum' + msum len' p' = sum + msum len p.
Proof.
  induction fuel as [|fuel IH]; intros sum len p Hp Hlen Hs Hsum Hf; [lia|]. simpl.
  case_match eqn:E; [|exists sum, len, p; repeat split; try done; lia].
  do 2 (destruct p as [|? p]; [zlen_simpl; lia|]). rewrite load16_cons.
  cbn [mbind option_bind drop]. rewrite drop_0.
  rewrite msum_cons2 in * by lia. apply bytes_ok_cons2 in Hp as (? & ? & Hp).
  pose proof (msum_nonneg (len - 2) p Hp). unfold in_u8 in *. zlen_simpl.
  rewrite u32_small by (unfold in_u32; lia).
  edestruct (IH (sum + (z + 256 * z0)) (len - 2) p) as (sum' & len' & p' & -> & H');
    [done|lia..|].
  exists sum', len', p'. split; [done|]. intuition lia.
Qed.

Lemma carry_step s : 65536 <= s ->
  fold16 (s mod 65536 + s / 65536) = fold16 s.
Proof. intros Hs. apply fold16_congr_eq; zlia. Qed.

Lemma cksum_carry_done fuel s : 0 <= s <= 65535 -> cksum_carry (S fuel) s = Some (fold16 s).
Proof.
  intros Hs. simpl. rewrite shiftr16, Z.div_small by lia. simpl. f_equal.
  symmetry. apply fold16_unique; [lia..| |done]. by rewrite Z.sub_diag.
Qed.

Lemma cksum_carry_step fuel s : 65536 <= s < 4294967296 ->
  cksum_carry (S fuel) s = cksum_carry fuel (s mod 65536 + s / 65536).
Proof.
  intros Hs. simpl. rewrite shiftr16, land_ffff.
  rewrite (proj2 (Z.eqb_neq _ _)) by zlia. by rewrite u32_small by zlia.
Qed.

Lemma cksum_carry_spec s : 0 <= s < 4294967296 -> cksum_carry 4 s = Some (fold16 s).
Proof.
  intros Hs. destruct (decide (s <= 65535)) as [|H1]; [apply cksum_carry_done; lia|].
  rewrite cksum_carry_step, <- carry_step by lia.
  assert (0 <= s mod 65536 + s / 65536 <= 131070) by zlia.
  generalize dependent (s mod 65536 + s / 65536). intros t Ht.
  destruct (decide (t <= 65535)) as [|H2]; [apply cksum_carry_done; lia|].
  rewrite cksum_carry_step, <- (carry_step t) by lia. apply cksum_carry_done. zlia.
Qed.

(** The bytes [cksum_generic] covers. *)
Definition covered (p : list Z) (len : Z) : list Z := take (Z.to_nat len) p.

Lemma cksum_generic_le p len initial :
  bytes_ok p -> 0 <= len <= zlen p -> in_u16 initial ->
  htons initial + msum len p < 4294967296 ->
  cksum_generic p len initial =
    Some (65535 - htons (fold16 (htons initial + msum len p))).
Proof.
  intros Hp Hlen Hi Hsum. unfold cksum_generic.
  pose proof (htons_range initial) as Hr. pose proof (msum_nonneg len p Hp) as Hm.
  unfold in_u16 in Hr.
  destruct (cksum_loop4_spec (S (Z.to_nat len)) (htons initial) len p)
    as (s1 & l1 & p1 & -> & Hp1 & Hl1 & Hle & Hs1 & E1); [done|lia..|]. cbn [mbind option_bind].
  pose proof (msum_nonneg l1 p1 Hp1).
  destruct (cksum_loop1_spec (S (Z.to_nat len)) s1 l1 p1)
    as (s2 & l2 & p2 & -> & Hp2 & Hl2 & Hlt & Hs2 & E2); [done|lia..|]. cbn [mbind option_bind].
  pose proof (msum_nonneg l2 p2 Hp2) as Hm2. rewrite <- E1, <- E2 in *.
  assert (Hodd : (if l2 =? 1 then b ← zget p2 0; Some (u32 (s2 + b)) else Some s2)
                 = Some (s2 + msum l2 p2)).
  { case_match eqn:E.
    - apply Z.eqb_eq in E as ->. destruct p2 as [|b p2]; [zlen_simpl; lia|].
      rewrite zget_cons_0. unfold msum in *. simpl in *. by rewrite u32_small by zlia.
    - assert (l2 = 0) as -> by lia. unfold msum. simpl. by rewrite Z.add_0_r. }
  rewrite Hodd. cbn [mbind option_bind]. rewrite cksum_carry_spec by lia.
  cbn [mbind option_bind]. pose proof (fold16_range (s2 + msum l2 p2) ltac:(lia)).
  rewrite not16_small by zlia. unfold ntohs. rewrite htons_not16 by zlia. done.
Qed.

Lemma msum_be p len initial :
  bytes_ok p -> in_u16 initial ->
  htons (fold16 (htons initial + msum len p)) =
    oc_sum (initial :: be_words (covered p len)).
Proof.
  intros Hp Hi. assert (Hc : bytes_ok (covered p len)) by by apply Forall_take.
  rewrite oc_sum_fold16 by (constructor; [done|by apply be_words_ok]).
  pose proof (htons_range initial). pose proof (msum_nonneg len p Hp).
  pose proof (le_sum_nonneg _ Hc). pose proof (sumZ_nonneg _ (be_words_ok _ Hc)).
  rewrite htons_fold16 by zlia. destruct (htons_congr initial Hi) as [Ha Hb].
  destruct (le_be_congr _ Hc) as [Hd He]. simpl. unfold msum. fold (covered p len).
  apply fold16_congr_eq; [unfold in_u16 in *; lia..| |unfold in_u16 in *; lia].
  clear Hb He. pose proof (htons_bytes initial Hi) as (x & y & Hx & Hy & -> & ->). zlia.
Qed.

Lemma msum_bound p : forall len, bytes_ok p -> 0 <= len ->
  msum len p <= 65535 * ((len + 1) / 2).
Proof.
  induction p as [|b|b0 b1 p IH] using bytes_ind2; intros len Hp Hlen.
  - unfold msum. rewrite take_nil. simpl. zlia.
  - apply Forall_cons_1 in Hp as [Hb _]. unfold msum.
    destruct (decide (len = 0)) as [->|]; [done|].
    replace (Z.to_nat len) with (S (Z.to_nat (len - 1))) by lia. cbn [take].
    rewrite take_nil. simpl. zlia.
  - apply bytes_ok_cons2 in Hp as (H0 & H1 & Hp).
    destruct (decide (2 <= len)).
    + rewrite msum_cons2 by lia. specialize (IH (len - 2) Hp ltac:(lia)). zlia.
    + assert (len = 0 \/ len = 1) as [-> | ->] by lia; unfold msum; simpl; zlia.
Qed.

Lemma cksum_generic_spec p len initial :
  bytes_ok p -> 0 <= len <= zlen p -> len <= 131072 -> in_u16 initial ->
  cksum_generic p len initial =
    Some (65535 - oc_sum (initial :: be_words (covered p len))).
Proof.
  intros Hp Hlen Hmax Hi. rewrite <- msum_be by done. apply cksum_generic_le; try done.
  pose proof (msum_bound p len Hp ltac:(lia)). pose proof (htons_range initial). zlia.
Qed.

(** C19: [cksum_generic] computes the RFC 1071 checksum: for any buffer of at
    most 131072 bytes its unrolled little-endian loop, odd-byte case and carry
    loop return the one's complement of the one's-complement sum of the
    big-endian 16-bit words (an odd last byte padded with zero) and [initial],
    without the 32-bit accumulator ever overflowing. *)
Theorem cksum_generic_rfc1071 (p : list Z) (len initial : Z) :
  bytes_ok p -> 0 <= len <= zlen p -> len <= 131072 -> in_u16 initial ->
  cksum_generic p len initial =
    Some (65535 - oc_sum (initial :: be_words (covered p len))).
Proof. exact (cksum_generic_spec p len initial). Qed.

(** Decide [bytes_ok] on a concrete buffer. *)
Ltac bytes_dec :=
  repeat first [apply Forall_nil_2 | apply Forall_cons_2; [unfold in_u8; lia|]].

Lemma cksum_generic_rfc1071_witness :
  cksum_generic [0x45; 0; 0; 0x3c; 0x1c; 0x46; 0x40; 0; 0x40; 6; 0xff] 11 0x1234 =
    Some (65535 - oc_sum [0x1234; 0x4500; 0x003c; 0x1c46; 0x4000; 0x4006; 0xff00]).
Proof.
  apply (cksum_generic_rfc1071
    [0x45; 0; 0; 0x3c; 0x1c; 0x46; 0x40; 0; 0x40; 6; 0xff] 11 0x1234);
    [bytes_dec|vm_compute; done|done|vm_compute; done].
Defined.

Lemma be_words_app_even p q : Z.even (zlen p) = true ->
  be_words (p ++ q) = be_words p ++ be_words q.
Proof.
  induction p as [|b|b0 b1 p IH] using bytes_ind2; intros He; [done|done|].
  simpl. f_equal. apply IH. rewrite !zlen_cons in He.
  replace (1 + (1 + zlen p)) with (zlen p + 2) in He by lia.
  by rewrite Z.even_add in He; destruct (Z.even (zlen p)).
Qed.

Lemma oc_sum_range ws : Forall in_u16 ws -> 0 <= oc_sum ws <= 65535.
Proof. intros H. rewrite oc_sum_fold16 by done. by apply fold16_range, sumZ_nonneg. Qed.

Lemma covered_all p : covered p (zlen p) = p.
Proof. unfold covered, zlen. by rewrite Nat2Z.id, take_ge. Qed.

Lemma oc_sum_app_complement ws :
  Forall in_u16 ws -> oc_sum (ws ++ [65535 - oc_sum ws]) = 65535.
Proof.
  intros H. pose proof (oc_sum_range ws H) as Hr.
  rewrite oc_sum_fold16 by (apply Forall_app; split; [done|constructor; [zlia|done]]).
  rewrite sumZ_app. simpl. rewrite oc_sum_fold16 in * by done.
  pose proof (sumZ_nonneg _ H) as Hs. pose proof (fold16_congr _ Hs).
  pose proof (fold16_zero _ Hs). apply fold16_unique; [lia|lia| |lia]. zlia.
Qed.

(** a buffer that carries its own checksum verifies: when the checksum of
    an even-length buffer is stored behind it in network order, the checksum
    of the whole is zero. *)
Theorem cksum_generic_verifies (p : list Z) (c : Z) :
  bytes_ok p -> Z.even (zlen p) = true -> zlen p <= 131070 ->
  cksum_generic p (zlen p) 0 = Some c ->
  cksum_generic (p ++ [c / 256; c mod 256]) (zlen p + 2) 0 = Some 0.
Proof.
  intros Hp He Hl Hc. pose proof (zlen_nonneg p).
  rewrite (cksum_generic_spec p) in Hc by (done || lia || (unfold in_u16; lia)).
  rewrite covered_all in Hc. cbn [oc_sum foldr] in Hc.
  pose proof (be_words_ok p Hp) as Hw. pose proof (oc_sum_range _ Hw) as Hr.
  fold (oc_sum (be_words p)) in Hc. unfold oc_add in Hc.
  rewrite Z.add_0_l in Hc. case_match eqn:E; [lia|]. injection Hc as Hc.
  assert (Hz : zlen (p ++ [c / 256; c mod 256]) = zlen p + 2) by (zlen_simpl; lia).
  rewrite <- Hz, cksum_generic_spec; [|..|zlia]; try lia.
  2:{ apply Forall_app; split; [done|]. repeat constructor; zlia. }
  rewrite covered_all, be_words_app_even by done. cbn [be_words].
  replace (c / 256 * 256 + c mod 256) with (65535 - oc_sum (be_words p)) by zlia.
  cbn [oc_sum foldr]. fold (oc_sum (be_words p ++ [65535 - oc_sum (be_words p)])).
  by rewrite oc_sum_app_complement.
Qed.

Lemma cksum_generic_verifies_witness :
  cksum_generic ([0x45; 0; 0x1c; 0x46] ++ [0x9e; 0xb9]) 6 0 = Some 0.
Proof.
  apply (cksum_generic_verifies [0x45; 0; 0x1c; 0x46] 0x9eb9);
    [bytes_dec|reflexivity|vm_compute; done|reflexivity].
Defined.

(** *** Incremental updates *)

(** The two explicit folding steps of the incremental updates. *)
Lemma fold_twice s : 0 < s <= 0x4ffff ->
  let v := s / 65536 + s mod 65536 in (v + v / 65536) mod 65536 = fold16 s.
Proof. intros Hs v. symmetry. apply fold16_unique; subst v; zlia. Qed.

Lemma lnot_ffff x : in_u16 x -> Z.land (Z.lnot x) 0xffff = 65535 - x.
Proof. intros H. rewrite land_ffff. unfold Z.lnot. zlia. Qed.

Lemma lnot_ffff_mod x : 0 <= x -> Z.land (Z.lnot x) 0xffff = 65535 - x mod 65536.
Proof. intros H. rewrite land_ffff. unfold Z.lnot. zlia. Qed.

(** What both updates do with the accumulated sum. *)
Lemma incremental_tail s : 0 < s <= 0x4ffff ->
  htons (Z.land (Z.lnot
    (u32 (u32 (Z.shiftr s 16 + Z.land s 0xffff)
          + Z.shiftr (u32 (Z.shiftr s 16 + Z.land s 0xffff)) 16))) 0xffff)
  = htons (65535 - fold16 s).
Proof.
  intros Hs. rewrite !shiftr16, !land_ffff.
  rewrite (u32_small (s / 65536 + s mod 65536)) by zlia.
  rewrite u32_small by zlia. rewrite <- land_ffff, lnot_ffff_mod by zlia.
  by rewrite <- (fold_twice s Hs).
Qed.

Lemma sumZ_replace pre m post : sumZ (pre ++ m ++ post) = sumZ pre + sumZ m + sumZ post.
Proof. rewrite !sumZ_app. lia. Qed.

Lemma incremental_algebra old new pre post :
  Forall in_u16 pre -> Forall in_u16 post -> Forall in_u16 old -> Forall in_u16 new ->
  oc_sum (pre ++ new ++ post) <> 0 ->
  let k := 65535 * zlen old in
  let acc := oc_sum (pre ++ old ++ post) + (k - sumZ old) + sumZ new in
  sumZ old <= k ->
  0 < acc /\ fold16 acc = oc_sum (pre ++ new ++ post).
Proof.
  intros Hpre Hpost Hold Hnew Hnz k acc Hk.
  assert (Ho : Forall in_u16 (pre ++ old ++ post)) by (rewrite !Forall_app; done).
  assert (Hn : Forall in_u16 (pre ++ new ++ post)) by (rewrite !Forall_app; done).
  subst acc. rewrite !oc_sum_fold16, !sumZ_replace in * by done.
  pose proof (sumZ_nonneg _ Hpre). pose proof (sumZ_nonneg _ Hpost).
  pose proof (sumZ_nonneg _ Hold). pose proof (sumZ_nonneg _ Hnew).
  set (S := sumZ pre + sumZ old + sumZ post) in *.
  set (N := sumZ pre + sumZ new + sumZ post) in *.
  pose proof (fold16_range S ltac:(lia)). pose proof (fold16_congr S ltac:(lia)).
  pose proof (fold16_zero S ltac:(lia)). pose proof (fold16_zero N ltac:(lia)).
  assert (0 < fold16 S + (k - sumZ old) + sumZ new).
  { destruct (decide (S = 0)); [|lia]. destruct (decide (sumZ new = 0)); lia. }
  split; [done|]. apply fold16_congr_eq; [lia..| |lia].
  replace (fold16 S + (k - sumZ old) + sumZ new - N)
    with (65535 * zlen old - (S - fold16 S)) by lia.
  clearbody S N k. zlia.
Qed.

(** [checksum_update_incremental_16] keeps a checksum right: when the cell
    holds the checksum of a block of words containing [m], after the update it
    holds the checksum of the block with [m] replaced by [m'], and the value
    cell holds [m'] (both in network order).  The block after the update must
    have a non-zero word: for an all-zero block the one's-complement zero has
    two representations (RFC 1624). *)
Theorem checksum_update_incremental_16_correct (pre post : list Z) (m m' : Z) :
  Forall in_u16 (pre ++ [m] ++ post) -> in_u16 m' ->
  oc_sum (pre ++ [m'] ++ post) <> 0 ->
  checksum_update_incremental_16
    (htons (65535 - oc_sum (pre ++ [m] ++ post))) (htons m) m' =
  (htons (65535 - oc_sum (pre ++ [m'] ++ post)), htons m').
Proof.
  intros Hall Hm' Hnz. pose proof (oc_sum_range _ Hall) as Hr.
  pose proof Hall as [Hpre [Hm Hpost]%Forall_app]%Forall_app.
  apply Forall_cons_1 in Hm as [Hm _].
  unfold checksum_update_incremental_16, ntohs.
  rewrite !htons_involutive by zlia.
  rewrite (lnot_ffff (65535 - _)), (lnot_ffff m) by zlia.
  destruct (incremental_algebra [m] [m'] pre post) as [Hpos Hfold];
    [done|done|by constructor|by constructor|done|zlen_simpl; simpl; zlia|].
  zlen_simpl. cbn [sumZ foldr] in *.
  rewrite (u32_small (65535 - (65535 - _) + _)) by zlia.
  f_equal. rewrite (incremental_tail (65535 - (65535 - oc_sum (pre ++ [m] ++ post))
    + (65535 - m + m'))) by zlia.
  rewrite <- Hfold. do 2 f_equal. f_equal. lia.
Qed.

Lemma checksum_update_incremental_16_witness :
  checksum_update_incremental_16 (htons (65535 - oc_sum [0x4500; 0x4006; 0x0102]))
    (htons 0x4006) 0x3f06 =
  (htons (65535 - oc_sum [0x4500; 0x3f06; 0x0102]), htons 0x3f06).
Proof.
  apply (checksum_update_incremental_16_correct [0x4500] [0x0102] 0x4006 0x3f06);
    [repeat (apply Forall_cons_2; [unfold in_u16; lia|]); apply Forall_nil_2
    |unfold in_u16; lia|vm_compute; done].
Defined.

Lemma halves a b : in_u16 a -> (b * 65536 + a) mod 65536 = a /\ (b * 65536 + a) / 65536 = b.
Proof. intros H. split; zlia. Qed.

Lemma htonl_halves x :
  htonl x mod 65536 = htons (x / 65536) /\ htonl x / 65536 = htons (x mod 65536).
Proof. apply halves, htons_range. Qed.

Lemma htonl_involutive x : in_u32 x -> htonl (htonl x) = x.
Proof.
  intros H. destruct (htonl_halves x) as (E1 & E2). unfold htonl at 1.
  rewrite E1, E2, !htons_involutive by zlia. zlia.
Qed.

(** [checksum_update_incremental_32] does the same for a 32-bit value, the
    two consecutive words [m / 65536] and [m mod 65536] of the block. *)
Theorem checksum_update_incremental_32_correct (pre post : list Z) (m m' : Z) :
  let words x := [x / 65536; x mod 65536] in
  Forall in_u16 pre -> Forall in_u16 post -> in_u32 m -> in_u32 m' ->
  oc_sum (pre ++ words m' ++ post) <> 0 ->
  checksum_update_incremental_32
    (htons (65535 - oc_sum (pre ++ words m ++ post))) (htonl m) m' =
  (htons (65535 - oc_sum (pre ++ words m' ++ post)), htonl m').
Proof.
  intros words Hpre Hpost Hm Hm' Hnz.
  assert (Hw : forall x, in_u32 x -> Forall in_u16 (words x)).
  { intros x Hx. repeat (apply Forall_cons_2; [zlia|]). apply Forall_nil_2. }
  assert (Hall : Forall in_u16 (pre ++ words m ++ post)) by (rewrite !Forall_app; auto).
  pose proof (oc_sum_range _ Hall) as Hr.
  destruct (incremental_algebra (words m) (words m') pre post) as [Hpos Hfold];
    auto; [unfold words; zlen_simpl; simpl; zlia|].
  unfold checksum_update_incremental_32, ntohs, ntohl.
  rewrite htonl_involutive, !htons_involutive by zlia.
  rewrite (lnot_ffff (65535 - _)) by zlia.
  assert (En : not32 m = 4294967295 - m) by (unfold not32, Z.lnot; width_lia).
  rewrite En, !shiftr16, !land_ffff.
  assert (Hs1 : 0 <= m / 65536 < 65536) by zlia.
  assert (Hs2 : 0 <= m' / 65536 < 65536) by zlia.
  pose proof (Z.mod_pos_bound m 65536 ltac:(lia)).
  pose proof (Z.mod_pos_bound m' 65536 ltac:(lia)).
  assert (E1 : (4294967295 - m) / 65536 + (4294967295 - m) mod 65536
               = 131070 - (m / 65536 + m mod 65536)) by zlia.
  rewrite E1. unfold words in *. cbn [sumZ foldr] in *.
  change (zlen [m / 65536; m mod 65536]) with 2 in *.
  rewrite (u32_small (65535 - (65535 - _) + _)) by (unfold in_u32; lia).
  rewrite (u32_small (65535 - (65535 - _) + _ + _)) by (unfold in_u32; lia).
  f_equal. rewrite <- !shiftr16, <- !land_ffff.
  match goal with |- context [Z.lnot (u32 (u32 (Z.shiftr ?s 16 + _) + _))] =>
    rewrite (incremental_tail s) end; [|rewrite !shiftr16, !land_ffff; lia].
  rewrite !shiftr16, !land_ffff, <- Hfold. do 2 f_equal. f_equal. lia.
Qed.

Lemma checksum_update_incremental_32_witness :
  checksum_update_incremental_32 (htons (65535 - oc_sum [0x4500; 0x0a00; 0x0001; 0x11]))
    (htonl 0x0a000001) 0xc0a80002 =
  (htons (65535 - oc_sum [0x4500; 0xc0a8; 0x0002; 0x11]), htonl 0xc0a80002).
Proof.
  apply (checksum_update_incremental_32_correct [0x4500] [0x11] 0x0a000001 0xc0a80002);
    [repeat (apply Forall_cons_2; [unfold in_u16; lia|]); apply Forall_nil_2
    |repeat (apply Forall_cons_2; [unfold in_u16; lia|]); apply Forall_nil_2
    |unfold in_u32; lia|unfold in_u32; lia|vm_compute; done].
Defined.

(** *** The pseudo header *)

(** The value [pseudo_header_initial] promises, on big-endian words: RFC 768,
    793 (IPv4) and RFC 2460 (IPv6, where the payload length word of the header
    stands for the upper-layer length). *)
Definition pseudo_spec (buf : list Z) (len : Z) : Z :=
  let b i := buf !!! i in
  let v := b 0%nat / 16 in
  let hs := 4 * (b 0%nat mod 16) in
  let l4 p := (p =? 6) || (p =? 17) in
  if v =? 4 then
    if l4 (b 9%nat) then
      if oc_sum (be_words (covered buf hs)) =? 65535 then
        oc_sum ((len - hs) mod 65536 :: b 9%nat :: be_words (take 8 (drop 12 buf)))
      else 0xFFFF0002
    else 0xFFFF0001
  else if v =? 6 then
    if l4 (b 6%nat) then
      oc_sum (be_words (take 2 (drop 4 buf)) ++ b 6%nat :: be_words (take 32 (drop 8 buf)))
    else 0xFFFF0001
  else 0xFFFF0001.

Lemma fold_half_eq s : 0 <= s < 4294967296 -> fold_half s = s / 65536 + s mod 65536.
Proof.
  intros Hs. unfold fold_half. rewrite Z.shiftr_land.
  change (Z.shiftr 0xffff0000 16) with 0xffff. rewrite !land_ffff, shiftr16.
  rewrite (Z.mod_small (s / 65536)) by zlia. rewrite u32_small; zlia.
Qed.

Lemma fold_half_twice s : 0 < s < 0x200000 -> fold_half (fold_half s) = fold16 s.
Proof.
  intros Hs. rewrite (fold_half_eq s), fold_half_eq by zlia.
  symmetry. apply fold16_unique; zlia.
Qed.

Lemma pseudo_finish s t : 0 < s < 0x200000 -> 0 < t ->
  (256 * s - t) mod 65535 = 0 -> ntohs (u16 (fold_half (fold_half s))) = fold16 t.
Proof.
  intros Hs Ht Hc. rewrite fold_half_twice by done.
  pose proof (fold16_range s ltac:(lia)). rewrite u16_small by zlia.
  unfold ntohs. rewrite htons_fold16 by lia. apply fold16_congr_eq; lia.
Qed.

Lemma i8_eqb_small b c : in_u8 b -> 0 <= c < 128 -> (i8 b =? c) = (b =? c).
Proof. intros Hb Hc. destruct (Z.eqb_spec b c), (Z.eqb_spec (i8 b) c); width_lia. Qed.

Lemma i8_nibbles b : in_u8 b ->
  i8 (Z.shiftr (Z.land (i8 b) 0xF0) 4) = b / 16 /\ Z.land (i8 b) 0x0F * 4 = 4 * (b mod 16).
Proof.
  intros Hb.
  pose proof (u8_exhaustive
    (fun b => (i8 (Z.shiftr (Z.land (i8 b) 0xF0) 4) =? b / 16)
              && (Z.land (i8 b) 0x0F * 4 =? 4 * (b mod 16))) eq_refl b Hb) as H.
  apply andb_true_iff in H as [?%Z.eqb_eq ?%Z.eqb_eq]. done.
Qed.

Lemma i8_l4 b : in_u8 b -> (i8 b =? 6) || (i8 b =? 17) = (b =? 6) || (b =? 17).
Proof. intros. by rewrite !i8_eqb_small by (done || lia). Qed.

Lemma l4_cases b : in_u8 b -> (b =? 6) || (b =? 17) = true -> i8 b = b /\ 0 < b < 128.
Proof. intros Hb [H%Z.eqb_eq|H%Z.eqb_eq]%orb_true_iff; width_lia. Qed.

Lemma oc_sum_0 ws : Forall in_u16 ws -> oc_sum (0 :: ws) = oc_sum ws.
Proof.
  intros H. cbn [oc_sum foldr]. fold (oc_sum ws). pose proof (oc_sum_range ws H).
  unfold oc_add. case_match; lia.
Qed.

Lemma mod_u64_u16 x : Z.land (u64 x) 0xFFFF = x mod 65536.
Proof. rewrite land_ffff. unfold u64. zlia. Qed.

Section pseudo_header.
Context (buf : list Z) (len : Z).
Context (Hok : bytes_ok buf) (Hlen : 60 <= zlen buf).

Lemma ph_lookup i : (i < 60)%nat -> buf !! i = Some (buf !!! i).
Proof. intros H. apply list_lookup_lookup_total_lt. unfold zlen in Hlen. lia. Qed.

Lemma ph_zget i : (Z.to_nat i < 60)%nat -> 0 <= i -> zget buf i = Some (buf !!! Z.to_nat i).
Proof. intros H H0. unfold zget. case_match; [lia|]. by apply ph_lookup. Qed.

Lemma ph_load16 i : (Z.to_nat i < 20)%nat -> 0 <= i ->
  load16 buf i = Some (buf !!! Z.to_nat (2 * i) + 256 * buf !!! Z.to_nat (2 * i + 1)).
Proof. intros H H0. unfold load16. by rewrite !ph_zget by lia. Qed.

Lemma ph_drop i : (i < 60)%nat -> drop i buf = buf !!! i :: drop (S i) buf.
Proof. intros H. by apply drop_S, ph_lookup. Qed.

Lemma ph_byte i : (i < 60)%nat -> in_u8 (buf !!! i).
Proof.
  intros H. unfold bytes_ok in Hok. rewrite Forall_lookup in Hok.
  eapply Hok. by apply ph_lookup.
Qed.

Lemma ph_bytes : Forall in_u8 ((fun i => buf !!! i) <$> seq 0 60).
Proof.
  apply Forall_fmap, Forall_forall. intros i Hi%elem_of_seq. apply ph_byte. lia.
Qed.

(** The IPv4 sum against its specification. *)
Lemma ph_v4 :
  let proto := buf !!! 9%nat in
  let hs := 4 * (buf !!! 0%nat mod 16) in
  0 < proto < 128 ->
  ntohs (u16 (fold_half (fold_half (u32
    (htons (Z.land (u64 (len - hs)) 0xFFFF) + Z.shiftl proto 8
     + (buf !!! 12%nat + 256 * buf !!! 13%nat) + (buf !!! 14%nat + 256 * buf !!! 15%nat)
     + (buf !!! 16%nat + 256 * buf !!! 17%nat) + (buf !!! 18%nat + 256 * buf !!! 19%nat))))))
  = oc_sum ((len - hs) mod 65536 :: proto :: be_words (take 8 (drop 12 buf))).
Proof.
  intros proto hs Hp. rewrite mod_u64_u16.
  assert (Hw : Forall in_u16 (be_words (take 8 (drop 12 buf)))).
  { apply be_words_ok. by apply Forall_take, Forall_drop. }
  rewrite oc_sum_fold16 by (repeat (apply Forall_cons_2; [zlia|]); done).
  rewrite !ph_drop by lia. cbn [take be_words sumZ foldr].
  pose proof (ph_byte 12 ltac:(lia)). pose proof (ph_byte 13 ltac:(lia)).
  pose proof (ph_byte 14 ltac:(lia)). pose proof (ph_byte 15 ltac:(lia)).
  pose proof (ph_byte 16 ltac:(lia)). pose proof (ph_byte 17 ltac:(lia)).
  pose proof (ph_byte 18 ltac:(lia)). pose proof (ph_byte 19 ltac:(lia)).
  assert (Hl : in_u16 ((len - hs) mod 65536)) by zlia. clear Hw.
  destruct (htons_bytes _ Hl) as (x & y & Hx & Hy & -> & ->).
  clearbody proto. rewrite Z.shiftl_mul_pow2 by lia. change (2 ^ 8) with 256.
  unfold in_u8 in *. rewrite u32_small by (unfold in_u32; lia).
  apply pseudo_finish; [lia|lia|]. apply Z.mod_divide; [lia|].
  eexists (proto + y + buf !!! 13%nat + buf !!! 15%nat + buf !!! 17%nat + buf !!! 19%nat). lia.
Qed.

(** The same for IPv6: sixteen address words. *)
Lemma ph_v6_loop s0 : 0 <= s0 < 0x100000 ->
  pseudo_v6_loop [4; 8; 12; 16] s0 buf = Some (s0 + le_sum (take 32 (drop 8 buf))).
Proof.
  intros Hs. cbn [pseudo_v6_loop]. rewrite !ph_load16 by lia. cbn [mbind option_bind].
  rewrite !ph_drop by lia. cbn [take le_sum].
  pose proof (fun i (H : (i < 60)%nat) => ph_byte i H) as Hb. unfold in_u8 in Hb.
  repeat match goal with |- context [Z.to_nat ?x] =>
    let v := eval vm_compute in (Z.to_nat x) in change (Z.to_nat x) with v end.
  repeat match goal with |- context [buf !!! ?n] =>
    pose proof (Hb n ltac:(lia)); generalize dependent (buf !!! n); intros end.
  rewrite (u32_small (s0 + _)), (u32_small (s0 + _ + _)), (u32_small (s0 + _ + _ + _)),
    u32_small by (unfold in_u32; lia).
  f_equal. lia.
Qed.

Lemma ph_v6 :
  let proto := buf !!! 6%nat in
  0 < proto < 128 ->
  ntohs (u16 (fold_half (fold_half
    (u32 (buf !!! 4%nat + 256 * buf !!! 5%nat + Z.shiftl proto 8)
     + le_sum (take 32 (drop 8 buf)))))) =
  oc_sum (be_words (take 2 (drop 4 buf)) ++ proto :: be_words (take 32 (drop 8 buf))).
Proof.
  intros proto Hp.
  assert (Ha : bytes_ok (take 32 (drop 8 buf))) by by apply Forall_take, Forall_drop.
  assert (Hl : bytes_ok (take 2 (drop 4 buf))) by by apply Forall_take, Forall_drop.
  rewrite oc_sum_fold16 by (apply Forall_app; split; [by apply be_words_ok|];
    apply Forall_cons_2; [zlia|by apply be_words_ok]).
  rewrite sumZ_app. cbn [sumZ foldr]. fold (sumZ (be_words (take 32 (drop 8 buf)))).
  pose proof (msum_bound (drop 8 buf) 32 ltac:(by apply Forall_drop) ltac:(lia)) as Hm.
  unfold msum in Hm. change (Z.to_nat 32) with 32%nat in Hm.
  pose proof (le_sum_nonneg _ Ha). pose proof (sumZ_nonneg _ (be_words_ok _ Ha)).
  destruct (le_be_congr _ Ha) as [Hc _]. change (65535 * ((32 + 1) / 2)) with 1048560 in Hm.
  generalize dependent (le_sum (take 32 (drop 8 buf))). intros L HL1 HL2.
  generalize dependent (sumZ (be_words (take 32 (drop 8 buf)))). intros B HB Hc.
  rewrite !ph_drop by lia. cbn [take be_words sumZ foldr].
  pose proof (ph_byte 4 ltac:(lia)). pose proof (ph_byte 5 ltac:(lia)). clear Ha Hl.
  clearbody proto. rewrite Z.shiftl_mul_pow2 by lia. change (2 ^ 8) with 256.
  rewrite u32_small by zlia. unfold in_u8 in *.
  apply pseudo_finish; [lia|lia|]. apply Z.mod_divide in Hc as [k Hk]; [|lia].
  apply Z.mod_divide; [lia|]. exists (proto + buf !!! 5%nat - k). lia.
Qed.

Lemma pseudo_header_spec : pseudo_header_initial buf len = Some (pseudo_spec buf len).
Proof.
  unfold pseudo_header_initial, pseudo_spec.
  rewrite !ph_zget, !ph_load16 by lia. cbn [mbind option_bind].
  change (Z.to_nat 0) with 0%nat. change (Z.to_nat 9) with 9%nat.
  change (Z.to_nat 6) with 6%nat.
  destruct (i8_nibbles (buf !!! 0%nat) (ph_byte 0 ltac:(lia))) as [-> ->].
  pose proof (ph_byte 0 ltac:(lia)) as Hb0.
  destruct (Z.eqb_spec (buf !!! 0%nat / 16) 4) as [E4|N4]; cbn [mbind option_bind].
  - rewrite i8_l4 by (apply ph_byte; lia). case_match eqn:El; [|done].
    destruct (l4_cases _ (ph_byte 9 ltac:(lia)) El) as [Ei Hp]. rewrite Ei.
    rewrite cksum_generic_spec by (done || zlia). cbn [mbind option_bind].
    assert (Hw : Forall in_u16 (be_words (covered buf (4 * (buf !!! 0%nat mod 16))))).
    { by apply be_words_ok, Forall_take. }
    rewrite oc_sum_0 by done. pose proof (oc_sum_range _ Hw).
    destruct (Z.eqb_spec (oc_sum (be_words (covered buf (4 * (buf !!! 0%nat mod 16)))))
      65535) as [E|E].
    + rewrite E. cbn [Z.sub negb]. change (65535 - 65535 =? 0) with true.
      cbn [negb mbind option_bind]. f_equal. by apply ph_v4.
    + rewrite (proj2 (Z.eqb_neq _ _)) by lia. done.
  - destruct (Z.eqb_spec (buf !!! 0%nat / 16) 6) as [E6|N6]; cbn [mbind option_bind]; [|done].
    rewrite i8_l4 by (apply ph_byte; lia). case_match eqn:El; [|done].
    destruct (l4_cases _ (ph_byte 6 ltac:(lia)) El) as [Ei Hp]. rewrite Ei.
    rewrite ph_v6_loop by (rewrite ?u32_small; rewrite Z.shiftl_mul_pow2 by lia;
      pose proof (ph_byte (Z.to_nat (2 * 2)) ltac:(lia));
      pose proof (ph_byte (Z.to_nat (2 * 2 + 1)) ltac:(lia)); zlia).
    cbn [mbind option_bind]. f_equal. by apply ph_v6.
Qed.
End pseudo_header.

(** [pseudo_header_initial] classifies a header and sums its pseudo header:
    unknown IP versions and non-TCP/UDP packets give 0xFFFF0001, an IPv4 header
    whose own checksum is wrong gives 0xFFFF0002, and otherwise the result is
    the one's-complement sum of addresses, protocol and upper-layer length, in
    host order. *)
Theorem pseudo_header_initial_correct (buf : list Z) (len : Z) :
  bytes_ok buf -> 60 <= zlen buf ->
  pseudo_header_initial buf len = Some (pseudo_spec buf len).
Proof. exact (pseudo_header_spec buf len). Qed.

Definition c5_header : list Z :=
  [0x45; 0; 0; 0x3c; 0x1c; 0x46; 0x40; 0; 0x40; 6; 0x49; 0xb5;
   10; 0; 0; 1; 10; 0; 0; 2] ++ replicate 40 7.

Lemma pseudo_header_initial_witness :
  pseudo_header_initial c5_header 60 = Some (pseudo_spec c5_header 60).
Proof.
  apply (pseudo_header_initial_correct c5_header 60); [|vm_compute; done].
  unfold c5_header, replicate. cbn [app]. bytes_dec.
Defined.

(** *** The unaligned loop of the SIMD versions *)

Lemma cksum_ua_go_spec n : forall s0 s1 p,
  bytes_ok p -> 2 * Z.of_nat n <= zlen p -> 0 <= s0 -> 0 <= s1 ->
  s0 + 255 * Z.of_nat n <= 255 * 65535 -> s1 + 255 * Z.of_nat n <= 255 * 65535 ->
  cksum_ua_go n s0 s1 p = Some (s0 * 256 + s1 + sumZ (be_words (take (2 * n) p))).
Proof.
  induction n as [|n IH]; intros s0 s1 p Hp Hl H0 H1 B0 B1.
  - cbn [cksum_ua_go]. rewrite Z.shiftl_mul_pow2 by lia. change (2 ^ 8) with 256.
    rewrite (u32_small (s0 * 256)), u32_small by zlia. simpl. f_equal. lia.
  - do 2 (destruct p as [|? p]; [zlen_simpl; lia|]). cbn [cksum_ua_go].
    change (zget (z :: z0 :: p) 0) with (Some z). change (zget (z :: z0 :: p) 1) with (Some z0).
    cbn [mbind option_bind drop]. rewrite drop_0. apply bytes_ok_cons2 in Hp as (? & ? & Hp).
    zlen_simpl. unfold in_u8 in *.
    rewrite !u32_small by (unfold in_u32; lia). rewrite IH by (done || lia).
    replace (2 * S n)%nat with (S (S (2 * n))) by lia. cbn [take be_words sumZ foldr].
    f_equal. unfold sumZ. lia.
Qed.

(** [cksum_ua_loop] sums [n] big-endian words exactly: with [n] a 16-bit
    count neither of its two 32-bit accumulators nor the final combination can
    overflow. *)
Theorem cksum_ua_loop_exact (p : list Z) (n : Z) :
  bytes_ok p -> in_u16 n -> 2 * n <= zlen p ->
  cksum_ua_loop p n = Some (sumZ (be_words (covered p (2 * n)))).
Proof.
  intros Hp Hn Hl. unfold cksum_ua_loop, covered, in_u16 in *.
  rewrite cksum_ua_go_spec by (done || lia).
  by replace (2 * Z.to_nat n)%nat with (Z.to_nat (2 * n)) by lia.
Qed.

Lemma cksum_ua_loop_exact_witness :
  cksum_ua_loop [0xff; 0xfe; 1; 2; 9] 2 = Some (0xfffe + 0x0102).
Proof.
  apply (cksum_ua_loop_exact [0xff; 0xfe; 1; 2; 9] 2);
    [bytes_dec|vm_compute; done|vm_compute; done].
Defined.
