(* ===== verification/TrackSeqNo.v ===== *)
(** * ESP anti-replay window ([src/src/lib/ipsec/track_seq_no.c])

    The receiver keeps the highest authenticated 64-bit sequence number [T] and
    a bitmap of [W] bits indexed by sequence number modulo [W].  The packet
    carries only the low 32 bits, so [check_seq_no] infers the high half from
    the window (RFC 4303, appendix A2); [track_seq_no] records an accepted
    number.  Every function of the file is a definition; the bitmap is the list
    of its bytes.  The abstract state is the set of accepted numbers. *)
From S2P Require Import Prelude.
From stdpp Require Import base tactics numbers list gmap sets.
From Stdlib Require Import ZArith Lia.
Open Scope Z_scope.

Definition LO32 (x : Z) : Z := u32 (u64 x mod 4294967296).
Definition HI32 (x : Z) : Z := u32 (u64 x / 4294967296).
Definition MK64 (l h : Z) : Z := u64 (u32 h * 4294967296 + u32 l).

(** [set_bit]: clear the bit, then maybe set it. *)
Definition set_bit (on : bool) (seq : Z) (window : list Z) (W : Z) : option (list Z) :=
  let bitno := u32 (seq mod W) in
  let blockno := bitno / 8 in
  let bitno := bitno mod 8 in
  w ← zget window blockno;
  window ← zset window blockno (u8 (Z.land w (not32 (Z.shiftl 1 bitno))));
  w ← zget window blockno;
  zset window blockno (u8 (Z.lor w (Z.shiftl (if on then 1 else 0) bitno))).

Definition get_bit (seq : Z) (window : list Z) (W : Z) : option bool :=
  let bitno := u32 (seq mod W) in
  let blockno := bitno / 8 in
  let bitno := bitno mod 8 in
  w ← zget window blockno;
  Some (negb (Z.land w (Z.shiftl 1 bitno) =? 0)).

(** [while (diff--) set_bit(0, seq--, window, W)] *)
Fixpoint clear_bits (diff : nat) (seq : Z) (window : list Z) (W : Z) : option (list Z) :=
  match diff with
  | O => Some window
  | S diff =>
      window ← set_bit false seq window W;
      clear_bits diff (u64 (seq - 1)) window W
  end.

Definition advance_window (seq T : Z) (window : list Z) (W : Z) : option (list Z) :=
  let diff := u64 (seq - T) in
  let diff := if W <? diff then W else diff in
  clear_bits (Z.to_nat diff) seq window W.

Definition check_seq_no (seq_lo T : Z) (window : list Z) (W : Z) : option Z :=
  let Tl := LO32 T in
  let Th := HI32 T in
  let bottom := u32 (u32 (Tl - W) + 1) in
  let seq_hi :=
    if u32 (W - 1) <=? Tl then
      if bottom <=? seq_lo then Th else u32 (Th + 1)
    else
      if bottom <=? seq_lo then u32 (Th - 1) else Th in
  let seq := MK64 seq_lo seq_hi in
  if seq <=? T then
    b ← get_bit seq window W;
    Some (if b : bool then -1 else seq_hi)
  else Some seq_hi.

(** The new [T] and the window as it is left. *)
Definition track_seq_no (seq_hi seq_lo T : Z) (window : list Z) (W : Z)
    : option (Z * list Z) :=
  let seq := MK64 seq_lo seq_hi in
  '(window, T) ← (if T <? seq then
                    w ← advance_window seq T window W; Some (w, seq)
                  else Some (window, T));
  window ← set_bit true seq window W;
  Some (T, window).

Lemma testbit_u8 x j : 0 <= j < 8 -> Z.testbit (u8 x) j = Z.testbit x j.
Proof. intros H. unfold u8. apply (Z.mod_pow2_bits_low x 8). lia. Qed.

Lemma testbit_not32 x j : 0 <= j < 8 -> Z.testbit (not32 x) j = negb (Z.testbit x j).
Proof.
  intros H. unfold not32, u32. rewrite (Z.mod_pow2_bits_low _ 32) by lia.
  by rewrite Z.lnot_spec by lia.
Qed.

Lemma testbit_shiftl1 k j : 0 <= k -> Z.testbit (Z.shiftl 1 k) j = (k =? j).
Proof. intros H. rewrite Z.shiftl_1_l. by rewrite Z.pow2_bits_eqb by lia. Qed.

Lemma u64_pred x : 0 < x < 18446744073709551616 -> u64 (x - 1) = x - 1.
Proof. intros H. apply u64_small. unfold in_u64. lia. Qed.

Lemma MK64_eq l h : in_u32 l -> in_u32 h -> MK64 l h = h * 4294967296 + l.
Proof. intros Hl Hh. unfold MK64. rewrite !u32_small, u64_small by zlia. done. Qed.

Lemma split_T T : in_u64 T -> LO32 T = T mod 4294967296 /\ HI32 T = T / 4294967296.
Proof. intros H. unfold LO32, HI32. rewrite u64_small, !u32_small by zlia. done. Qed.

(** ** The bitmap as a set of residues *)

Section window.
Context (W : Z).
Context (HW : 0 < W < 4294967296) (HW8 : W mod 8 = 0).

Record window_ok (window : list Z) : Prop := {
  wo_len : zlen window = W / 8;
  wo_bytes : Forall in_u8 window;
}.

(** Bit [k] of the bitmap. *)
Definition wbit (window : list Z) (k : Z) : bool :=
  match zget window (k / 8) with Some w => Z.testbit w (k mod 8) | None => false end.

Lemma residue_range s : 0 <= s mod W < W.
Proof. apply Z.mod_pos_bound. lia. Qed.

Lemma residue_u32 s : u32 (s mod W) = s mod W.
Proof. apply u32_small. pose proof (residue_range s). unfold in_u32. lia. Qed.

Lemma block_range window k : window_ok window -> 0 <= k < W -> 0 <= k / 8 < zlen window.
Proof. intros [-> _] Hk. split; [zlia|]. apply Z.div_lt_upper_bound; zlia. Qed.

Lemma get_bit_spec window s : window_ok window ->
  get_bit s window W = Some (wbit window (s mod W)).
Proof.
  intros Hw. unfold get_bit, wbit. rewrite residue_u32.
  destruct (zget_is_Some window (s mod W / 8)) as [w E].
  { apply block_range; [done|]. apply residue_range. }
  rewrite E. simpl. f_equal. set (j := s mod W mod 8).
  assert (0 <= j < 8) by (apply Z.mod_pos_bound; lia).
  destruct (Z.testbit w j) eqn:Et.
  - apply negb_true_iff, Z.eqb_neq. intros H0.
    apply (f_equal (fun x => Z.testbit x j)) in H0.
    by rewrite Z.land_spec, testbit_shiftl1, Z.eqb_refl, Et, Z.bits_0 in H0 by lia.
  - apply negb_false_iff, Z.eqb_eq. apply Z.bits_inj'. intros i Hi.
    rewrite Z.land_spec, testbit_shiftl1, Z.bits_0 by lia.
    destruct (Z.eqb_spec j i) as [<-|]; [by rewrite Et|apply andb_false_r].
Qed.

Lemma set_bit_spec on window s : window_ok window ->
  exists window', set_bit on s window W = Some window' /\ window_ok window' /\
    forall k, 0 <= k < W ->
      wbit window' k = if k =? s mod W then on else wbit window k.
Proof.
  intros Hw. unfold set_bit. rewrite residue_u32.
  pose proof (residue_range s) as Hr. set (r := s mod W) in *.
  pose proof (block_range window r Hw Hr) as Hb.
  assert (Hj : 0 <= r mod 8 < 8) by (apply Z.mod_pos_bound; lia).
  destruct (zget_is_Some window (r / 8) Hb) as [w E]. rewrite E. cbn [mbind option_bind].
  destruct (zset_is_Some window (r / 8) (u8 (Z.land w (not32 (Z.shiftl 1 (r mod 8))))) Hb)
    as [w1 E1]. rewrite E1. cbn [mbind option_bind].
  rewrite (zget_zset_eq _ _ _ _ E1). cbn [mbind option_bind].
  set (x := u8 (Z.lor _ _)).
  destruct (zset_is_Some w1 (r / 8) x) as [w2 E2].
  { by rewrite (zset_length _ _ _ _ E1). }
  exists w2. split; [done|]. split.
  - destruct Hw as [Hl Hbytes]. split.
    + by rewrite (zset_length _ _ _ _ E2), (zset_length _ _ _ _ E1).
    + apply zset_Some in E1 as [_ ->]. apply zset_Some in E2 as [_ ->].
      apply Forall_insert; [apply Forall_insert; [done|apply u8_range]|apply u8_range].
  - intros k Hk. unfold wbit. destruct (decide (k / 8 = r / 8)) as [Eb|Nb].
    + rewrite Eb, (zget_zset_eq _ _ _ _ E2), E. subst x.
      assert (0 <= k mod 8 < 8) by (apply Z.mod_pos_bound; lia).
      rewrite testbit_u8, Z.lor_spec, testbit_u8, Z.land_spec by lia.
      rewrite testbit_not32, testbit_shiftl1 by lia.
      destruct (Z.eqb_spec k r) as [->|Hne].
      * rewrite Z.eqb_refl, andb_false_r. simpl. destruct on.
        -- by rewrite testbit_shiftl1, Z.eqb_refl by lia.
        -- by rewrite Z.shiftl_0_l, Z.bits_0.
      * assert (r mod 8 <> k mod 8) by zlia. rewrite (proj2 (Z.eqb_neq _ _)) by done.
        rewrite andb_true_r. destruct on.
        -- rewrite testbit_shiftl1, (proj2 (Z.eqb_neq _ _)) by (done || lia).
           by rewrite orb_false_r.
        -- by rewrite Z.shiftl_0_l, Z.bits_0, orb_false_r.
    + rewrite (zget_zset_ne _ _ (k / 8) _ _ E2), (zget_zset_ne _ _ (k / 8) _ _ E1) by lia.
      destruct (Z.eqb_spec k r) as [->|]; [done|done].
Qed.

(** Two numbers less than [W] apart have different residues. *)
Lemma residue_inj a b : a mod W = b mod W -> - W < a - b < W -> a = b.
Proof.
  intros E H. assert ((a - b) mod W = 0) as Hd.
  { rewrite Zminus_mod, E, Z.sub_diag. apply Z.mod_0_l. lia. }
  apply Z.mod_divide in Hd as [k Hk]; [|lia]. assert (k = 0) by nia. nia.
Qed.

(** Clearing [n <= W] bits downwards from [seq]. *)
Lemma clear_bits_spec n : forall seq window,
  window_ok window -> Z.of_nat n <= W -> Z.of_nat n <= seq < 18446744073709551616 ->
  exists window', clear_bits n seq window W = Some window' /\ window_ok window' /\
    (forall s, seq - Z.of_nat n < s <= seq -> wbit window' (s mod W) = false) /\
    (forall k, 0 <= k < W -> (forall s, seq - Z.of_nat n < s <= seq -> s mod W <> k) ->
      wbit window' k = wbit window k).
Proof.
  induction n as [|n IH]; intros seq window Hw Hn Hseq.
  - exists window. split; [done|]. split; [done|]. split; [|done].
    intros s Hs. change (Z.of_nat 0) with 0 in Hs. lia.
  - cbn [clear_bits]. destruct (set_bit_spec false window seq Hw) as (w1 & -> & Hw1 & Hb1).
    cbn [mbind option_bind]. rewrite u64_pred by lia.
    destruct (IH (seq - 1) w1 Hw1) as (w2 & -> & Hw2 & Hc2 & Hk2); [lia..|].
    exists w2. split; [done|]. split; [done|]. split.
    + intros s Hs. destruct (decide (s = seq)) as [->|]; [|apply Hc2; lia].
      rewrite Hk2.
      * rewrite Hb1 by apply residue_range. by rewrite Z.eqb_refl.
      * apply residue_range.
      * intros s Hs' E. apply residue_inj in E; lia.
    + intros k Hk Hne. rewrite Hk2, Hb1; [|done..|intros; apply Hne; lia].
      rewrite (proj2 (Z.eqb_neq _ _)); [done|]. intros ->. apply (Hne seq); [lia|done].
Qed.

(** ** The receiver's invariant

    [T] is at least every accepted number, and inside the window a bit is set
    exactly when the number was accepted. *)
Definition SEQ_LIMIT : Z := 18446744073709551616 - 4294967296.

Record replay_inv (T : Z) (window : list Z) (seen : gset Z) : Prop := {
  ri_T : 0 <= T < SEQ_LIMIT;
  ri_window : window_ok window;
  ri_seen : forall s, s ∈ seen -> 0 <= s <= T;
  ri_bits : forall s, 0 <= s -> T - W < s <= T ->
    wbit window (s mod W) = bool_decide (s ∈ seen);
}.

Lemma replay_inv_init window :
  zlen window = W / 8 -> Forall (fun b => b = 0) window -> replay_inv 0 window ∅.
Proof.
  intros Hl Hz. split.
  - unfold SEQ_LIMIT. lia.
  - split; [done|]. eapply Forall_impl; [exact Hz|]. intros b ->. unfold in_u8. lia.
  - set_solver.
  - intros s H0 H1. unfold wbit. rewrite bool_decide_eq_false_2 by set_solver.
    destruct (zget window _) as [b|] eqn:E; [|done].
    unfold zget in E. case_match; [done|]. rewrite Forall_lookup in Hz.
    by rewrite (Hz _ _ E), Z.bits_0.
Qed.

(** The number [check_seq_no] infers from the low half. *)
Definition infer_hi (seq_lo T : Z) : Z :=
  let Tl := LO32 T in
  let Th := HI32 T in
  let bottom := u32 (u32 (Tl - W) + 1) in
  if u32 (W - 1) <=? Tl then
    if bottom <=? seq_lo then Th else u32 (Th + 1)
  else
    if bottom <=? seq_lo then u32 (Th - 1) else Th.

(** RFC 4303 A2: the inferred number is the one in the [2^32] numbers from the
    bottom of the window that has the given low half; below the first window it
    is out of the range a sender uses. *)
Lemma infer_spec seq_lo T : in_u32 seq_lo -> 0 <= T < SEQ_LIMIT ->
  in_u32 (infer_hi seq_lo T) /\
  (T - W < MK64 seq_lo (infer_hi seq_lo T) <= T - W + 4294967296 \/
   SEQ_LIMIT <= MK64 seq_lo (infer_hi seq_lo T) /\ T - W + 4294967296 < seq_lo).
Proof.
  intros Hl HT. assert (HT' : in_u64 T) by (unfold in_u64, SEQ_LIMIT in *; lia).
  assert (Hu : in_u32 (infer_hi seq_lo T)).
  { unfold infer_hi, HI32. repeat case_match; apply u32_range. }
  split; [done|]. rewrite MK64_eq by done. unfold infer_hi in *.
  destruct (split_T T HT') as [-> ->]. unfold SEQ_LIMIT, in_u32, in_u64 in *.
  pose proof (Z.div_mod T 4294967296 ltac:(lia)) as Hd.
  pose proof (Z.mod_pos_bound T 4294967296 ltac:(lia)) as Hm.
  assert (Hq : 0 <= T / 4294967296 < 4294967295) by zlia.
  remember (T mod 4294967296) as Tl eqn:ETl. remember (T / 4294967296) as Th eqn:ETh.
  clear ETl ETh Hu. unfold u32 in *. rewrite Zplus_mod_idemp_l in *.
  rewrite (Z.mod_small (W - 1)) in * by lia.
  destruct (Z.leb_spec (W - 1) Tl).
  - rewrite (Z.mod_small (Tl - W + 1)) in * by lia.
    case_match eqn:E; left; [lia|]. rewrite Z.mod_small by lia. lia.
  - assert (Eb : (Tl - W + 1) mod 4294967296 = Tl - W + 1 + 4294967296) by zlia.
    rewrite Eb in *. case_match eqn:E; [|left; lia].
    destruct (decide (Th = 0)) as [->|]; [right|left; rewrite Z.mod_small by lia; lia].
    change ((0 - 1) mod 4294967296) with 4294967295. lia.
Qed.

Lemma check_seq_no_eq seq_lo T window :
  check_seq_no seq_lo T window W =
    (let hi := infer_hi seq_lo T in
     if MK64 seq_lo hi <=? T then
       b ← get_bit (MK64 seq_lo hi) window W; Some (if b : bool then -1 else hi)
     else Some hi).
Proof. done. Qed.

Lemma check_seq_no_spec seq_lo T window seen :
  replay_inv T window seen -> in_u32 seq_lo ->
  let hi := infer_hi seq_lo T in
  let seq := MK64 seq_lo hi in
  check_seq_no seq_lo T window W = Some (if bool_decide (seq ∈ seen) then -1 else hi).
Proof.
  intros [HT Hw Hs Hb] Hl hi seq. rewrite check_seq_no_eq. cbv zeta. fold hi. fold seq.
  destruct (infer_spec seq_lo T Hl HT) as [Hu Hr]. fold hi in Hu, Hr. fold seq in Hr.
  assert (0 <= seq) by (subst seq; rewrite MK64_eq by done; unfold in_u32 in *; lia).
  destruct (Z.leb_spec seq T).
  - rewrite (get_bit_spec _ _ Hw). simpl. rewrite Hb; [done|done|].
    unfold SEQ_LIMIT in *. lia.
  - rewrite bool_decide_eq_false_2; [done|]. intros Hin%Hs. lia.
Qed.

Lemma track_seq_no_spec seq_hi seq_lo T window seen :
  replay_inv T window seen -> in_u32 seq_lo -> in_u32 seq_hi ->
  let seq := MK64 seq_lo seq_hi in
  T - W < seq < SEQ_LIMIT ->
  exists window', track_seq_no seq_hi seq_lo T window W = Some (Z.max T seq, window') /\
    replay_inv (Z.max T seq) window' ({[seq]} ∪ seen).
Proof.
  intros [HT Hw Hs Hb] Hl Hh seq Hseq. unfold track_seq_no. fold seq.
  assert (H0 : 0 <= seq) by (subst seq; rewrite MK64_eq by done; unfold in_u32 in *; lia).
  assert (Hadv : exists w1,
    (if T <? seq then w ← advance_window seq T window W; Some (w, seq) else Some (window, T))
      = Some (w1, Z.max T seq) /\ window_ok w1 /\
    forall s, 0 <= s -> Z.max T seq - W < s <= Z.max T seq ->
      wbit w1 (s mod W) = bool_decide (s ∈ seen)).
  { destruct (Z.ltb_spec T seq).
    - unfold advance_window. rewrite u64_small by (unfold in_u64, SEQ_LIMIT in *; lia).
      set (d := if W <? seq - T then W else seq - T).
      assert (Hd : 0 <= d <= W /\ d <= seq - T /\ (d = W \/ d = seq - T)).
      { subst d. case_match; unfold SEQ_LIMIT in *; lia. }
      clearbody d.
      destruct (clear_bits_spec (Z.to_nat d) seq window Hw) as (w1 & -> & Hw1 & Hc & Hk);
        [lia|unfold SEQ_LIMIT in *; lia|].
      exists w1. rewrite Z.max_r by lia. split; [done|]. split; [done|].
      intros s Hs0 Hs1. destruct (decide (s <= T)).
      + rewrite Hk; [apply Hb; lia|apply residue_range|].
        intros s' Hs' E. apply residue_inj in E; lia.
      + rewrite Hc by lia. rewrite bool_decide_eq_false_2; [done|]. intros Hin%Hs. lia.
    - exists window. rewrite Z.max_l by lia. split; [done|]. split; [done|].
      intros. apply Hb; lia. }
  destruct Hadv as (w1 & -> & Hw1 & Hb1). cbn [mbind option_bind].
  destruct (set_bit_spec true w1 seq Hw1) as (w2 & -> & Hw2 & Hb2). cbn [mbind option_bind].
  exists w2. split; [done|]. split; [unfold SEQ_LIMIT in *; lia|done| |].
  - intros s [->%elem_of_singleton|Hin%Hs]%elem_of_union; lia.
  - intros s Hs0 Hs1. rewrite Hb2 by apply residue_range.
    destruct (Z.eqb_spec (s mod W) (seq mod W)) as [E|E].
    + assert (s = seq) as -> by (apply residue_inj; [done|lia]).
      rewrite bool_decide_eq_true_2; [done|]. by apply elem_of_union_l, elem_of_singleton.
    + rewrite Hb1 by lia. apply bool_decide_ext. rewrite elem_of_union, elem_of_singleton.
      split; [auto|]. intros [->|]; [done|done].
Qed.

(** ** The receiver

    The protocol track_seq_no.c documents for its caller: ask [check_seq_no];
    if the answer is not "no" and the packet with the inferred number turns out
    to be authentic, record it with [track_seq_no].  [auth] stands for the
    integrity check of the packet under the inferred 64-bit number. *)
Definition receive (auth : Z -> bool) (seq_lo : Z) (st : Z * list Z)
    : option (option Z * (Z * list Z)) :=
  let '(T, window) := st in
  hi ← check_seq_no seq_lo T window W;
  if hi <? 0 then Some (None, st)
  else if auth (MK64 seq_lo hi) then
    st' ← track_seq_no hi seq_lo T window W;
    Some (Some (MK64 seq_lo hi), st')
  else Some (None, st).

(** The accepted numbers of a run over arriving packets, each with its own
    integrity check. *)
Fixpoint run (arrivals : list (Z * (Z -> bool))) (st : Z * list Z)
    : option (list Z * (Z * list Z)) :=
  match arrivals with
  | [] => Some ([], st)
  | (seq_lo, auth) :: arrivals =>
      '(r, st) ← receive auth seq_lo st;
      '(acc, st) ← run arrivals st;
      Some (match r with Some s => s :: acc | None => acc end, st)
  end.

(** Senders do not use the last [2^32] sequence numbers. *)
Definition honest (auth : Z -> bool) : Prop :=
  forall s, auth s = true -> s < SEQ_LIMIT.

Lemma receive_spec auth seq_lo T window seen :
  replay_inv T window seen -> in_u32 seq_lo -> honest auth ->
  exists r T' window', receive auth seq_lo (T, window) = Some (r, (T', window')) /\
    match r with
    | Some s => (s ∉ seen) /\ auth s = true /\ replay_inv T' window' ({[s]} ∪ seen)
    | None => replay_inv T' window' seen
    end.
Proof.
  intros Hinv Hl Hauth. unfold receive. pose proof Hinv as [HT _ _ _].
  rewrite (check_seq_no_spec _ _ _ _ Hinv Hl). cbn [mbind option_bind].
  destruct (infer_spec seq_lo T Hl HT) as [Hu Hr].
  case_bool_decide as Hin; [by exists None, T, window|].
  rewrite (proj2 (Z.ltb_ge _ _)) by (unfold in_u32 in Hu; lia).
  destruct (auth _) eqn:Ea; [|by exists None, T, window].
  pose proof (Hauth _ Ea). 
  destruct (track_seq_no_spec (infer_hi seq_lo T) seq_lo T window seen Hinv Hl Hu)
    as (w' & -> & Hinv'); [lia|].
  cbn [mbind option_bind]. exists (Some (MK64 seq_lo (infer_hi seq_lo T))).
  do 2 eexists. split; [done|]. done.
Qed.

Lemma run_no_dup arrivals : forall T window seen,
  replay_inv T window seen ->
  Forall (fun a => in_u32 a.1 /\ honest a.2) arrivals ->
  exists acc st, run arrivals (T, window) = Some (acc, st) /\
    NoDup acc /\ (forall s, s ∈ acc -> s ∉ seen).
Proof.
  induction arrivals as [|[lo auth] arrivals IH]; intros T window seen Hinv Hall.
  - exists [], (T, window). split; [done|]. split; [constructor|]. intros s Hs. by apply not_elem_of_nil in Hs.
  - apply Forall_cons_1 in Hall as [[Hlo Hauth] Hall]. simpl in Hlo, Hauth.
    cbn [run].
    destruct (receive_spec auth lo T window seen Hinv Hlo Hauth)
      as (r & T' & w' & -> & Hr). cbn [mbind option_bind].
    destruct r as [s|].
    + destruct Hr as (Hs & _ & Hinv').
      destruct (IH _ _ _ Hinv' Hall) as (acc & st & -> & Hnd & Hnew). cbn [mbind option_bind].
      exists (s :: acc), st. split; [done|]. split.
      * constructor; [|done]. intros Hin%Hnew. by apply Hin, elem_of_union_l, elem_of_singleton.
      * intros s' [->|Hin%Hnew]%elem_of_cons; [done|]. intros Hs'.
        by apply Hin, elem_of_union_r.
    + destruct (IH _ _ _ Hr Hall) as (acc & st & -> & Hnd & Hnew). eauto.
Qed.
End window.

(** C15: anti-replay: starting from an all-zero bitmap of a window of [W]
    numbers, [W] a multiple of eight below 2^32, whatever packets arrive and in
    whatever order, no 64-bit sequence number is accepted twice, and the
    receiver never reads or writes outside its bitmap.  The integrity checks
    are arbitrary but for one thing: no packet passes for one of the last 2^32
    sequence numbers, from 2^64 - 2^32 on ([honest]); [replay_after_wrap]
    shows that this is needed. *)
Theorem anti_replay (W : Z) (window : list Z) (arrivals : list (Z * (Z -> bool))) :
  0 < W < 4294967296 -> W mod 8 = 0 ->
  zlen window = W / 8 -> Forall (fun b => b = 0) window ->
  Forall (fun a => in_u32 a.1 /\ honest a.2) arrivals ->
  exists accepted st, run W arrivals (0, window) = Some (accepted, st) /\ NoDup accepted.
Proof.
  intros HW H8 Hl Hz Hall.
  destruct (run_no_dup W HW H8 arrivals 0 window ∅) as (acc & st & -> & Hnd & _);
    [by apply replay_inv_init|done|eauto].
Qed.

Definition c7_arrivals : list (Z * (Z -> bool)) :=
  [(5, fun s => s <? 1000); (5, fun s => s <? 1000); (3, fun s => s <? 1000);
   (200, fun s => s <? 1000); (5, fun s => s <? 1000); (199, fun s => s <? 1000)].

Lemma anti_replay_witness :
  exists accepted st,
    run 64 c7_arrivals (0, replicate 8 0) = Some (accepted, st) /\ NoDup accepted.
Proof.
  apply (anti_replay 64 (replicate 8 0) c7_arrivals);
    [lia|reflexivity|reflexivity|repeat (apply Forall_cons_2; [done|]); apply Forall_nil_2|].
  unfold c7_arrivals. repeat (apply Forall_cons_2; [split; [unfold in_u32; simpl; lia|]|]);
    try apply Forall_nil_2; unfold honest, SEQ_LIMIT; simpl; intros; lia.
Defined.

(** With a packet that authenticates for one of the last numbers a replay is
    possible: 5 is accepted, then 2^64 - 10, which the inference of the upper
    half takes from the low half 2^32 - 10, and then 5 again. *)
Lemma replay_after_wrap :
  exists st, run 64 [(5, fun _ => true); (4294967286, fun _ => true); (5, fun _ => true)] (0, replicate 8 0) =
    Some ([5; 18446744073709551606; 5], st).
Proof. eexists. vm_compute. reflexivity. Qed.

(** C30: completeness of the window: an authentic number that was not accepted
    before and lies between the bottom of the window and [2^32] above it is
    accepted when its packet arrives, even far ahead of the window. *)
Theorem window_accepts (W : Z) (T seq : Z) (window : list Z) (seen : gset Z)
    (auth : Z -> bool) :
  0 < W < 4294967296 -> W mod 8 = 0 ->
  replay_inv W T window seen -> honest auth -> auth seq = true ->
  0 <= seq -> T - W < seq <= T - W + 4294967296 -> seq ∉ seen ->
  exists st, receive W auth (LO32 seq) (T, window) = Some (Some seq, st).
Proof.
  intros HW H8 Hinv Hh Ha H0 Hr Hn. pose proof (Hh _ Ha) as Hlim.
  pose proof Hinv as [HT _ _ _].
  assert (H64 : in_u64 seq) by (unfold in_u64, SEQ_LIMIT in *; lia).
  destruct (split_T seq H64) as [El Eh].
  assert (Hl : in_u32 (LO32 seq)) by (rewrite El; unfold in_u32; apply Z.mod_pos_bound; lia).
  destruct (infer_spec W HW H8 (LO32 seq) T Hl HT) as [Hu Hi].
  assert (E : MK64 (LO32 seq) (infer_hi W (LO32 seq) T) = seq).
  { rewrite MK64_eq in * by done. rewrite El in *. unfold SEQ_LIMIT in *.
    generalize dependent (infer_hi W (seq mod 4294967296) T). intros h Hu Hi.
    pose proof (Z.div_mod seq 4294967296 ltac:(lia)).
    pose proof (Z.mod_pos_bound seq 4294967296 ltac:(lia)).
    assert (seq / 4294967296 = h); [|lia]. unfold in_u32 in Hu. lia. }
  unfold receive. rewrite (check_seq_no_spec W HW H8 _ _ _ _ Hinv Hl), E.
  rewrite bool_decide_eq_false_2 by done. cbn [mbind option_bind].
  rewrite (proj2 (Z.ltb_ge _ _)) by (unfold in_u32 in Hu; lia). rewrite E, Ha.
  destruct (track_seq_no_spec W HW H8 (infer_hi W (LO32 seq) T) (LO32 seq) T window seen
    Hinv Hl Hu) as (w' & -> & _); [rewrite E; lia|]. cbn [mbind option_bind]. eauto.
Qed.

Lemma window_accepts_witness :
  exists st, receive 64 (fun s => s <? 10000000000) (LO32 3)
    (0, replicate 8 0) = Some (Some 3, st).
Proof.
  apply (window_accepts 64 0 3 (replicate 8 0) ∅ (fun s => s <? 10000000000));
    [lia|reflexivity| |unfold honest, SEQ_LIMIT; intros; lia|reflexivity|lia|lia|set_solver].
  apply (replay_inv_init 64); [lia|reflexivity|reflexivity|].
  repeat (apply Forall_cons_2; [done|]); apply Forall_nil_2.
Defined.
