(* ===== verification/Lpm.v ===== *)
(** * Longest-prefix-match lookups ([src/src/lib/lpm/lpm4_248.c], [lpm4_dxr.c])

    [lpm4_248_search] and its 32-bit variant look an address up in a 24-bit
    direct table whose flagged entries point at 256-entry second-level tables;
    the tables are filled by [LPM4_248:build] (lpm4_248.lua), whose [add] is
    modelled too, so that the C lookup can be related to the set of prefixes.
    [lpm4_dxr_search] searches a sorted array of interval ends, linearly for
    short ranges and by an unrolled binary search otherwise.  An array is a
    partial function from index to value: [None] is out of bounds. *)
From S2P Require Import Prelude.
From stdpp Require Import base tactics numbers list gmap.
From Stdlib Require Import ZArith Lia Sorted.
Open Scope Z_scope.

(** ** lpm4_248.c *)

Definition lpm4_248_search (ip : Z) (big little : Z -> option Z) : option Z :=
  v ← big (Z.shiftr ip 8);
  if 0x8000 <? v then little (Z.shiftl (v - 0x8000) 8 + Z.land ip 0xff)
  else Some v.

Definition lpm4_248_search32 (ip : Z) (big little : Z -> option Z) : option Z :=
  v ← big (Z.shiftr ip 8);
  if 0x80000000 <? v then
    little (u32 (u32 (Z.shiftl (u32 (v - 0x80000000)) 8) + Z.land ip 0xff))
  else Some v.

(** ** lpm4_248.lua: building the tables

    [t_big] and [t_little] are the two arrays, zero-filled when they are
    allocated; [t_off] is [taboff].  The table memory grows on demand, so a
    second-level index is always in bounds. *)
Record tables := Tables { t_big : Z -> Z; t_little : Z -> Z; t_off : Z }.

Definition tables_init : tables := Tables (fun _ => 0) (fun _ => 0) 1.

(** [for i = 0, count - 1 do a[base + i] = v end] *)
Definition fill (a : Z -> Z) (base count v : Z) : Z -> Z :=
  fun i => if (base <=? i) && (i <? base + count) then v else a i.

Definition update (a : Z -> Z) (k v : Z) : Z -> Z := fun i => if i =? k then v else a i.

Record prefix := Prefix { p_ip : Z; p_len : Z; p_key : Z }.

(** The local function [add] of [LPM4_248:build], for [keybits] = 15 or 31. *)
Definition add (keybits : Z) (t : tables) (e : prefix) : tables :=
  let flag := 2 ^ keybits in
  let mask := flag - 1 in
  let base := Z.shiftr (p_ip e) 8 in
  let t :=
    if p_len e <? 25 then
      Tables (fill (t_big t) base (2 ^ (24 - p_len e)) (p_key e)) (t_little t) (t_off t)
    else t in
  if 24 <? p_len e then
    let v := t_big t base in
    let bottom := Z.land (p_ip e) 0xff in
    let t :=
      if negb (Z.land flag v =? flag) then
        let little :=
          if negb (v =? 0) then fill (t_little t) (256 * t_off t) 256 v else t_little t in
        Tables (update (t_big t) base (t_off t + flag)) little (t_off t + 1)
      else t in
    let tab := 256 * Z.land (t_big t base) mask in
    Tables (t_big t) (fill (t_little t) (tab + bottom) (2 ^ (32 - p_len e)) (p_key e)) (t_off t)
  else t.

(** [build] starts from the arrays as they are: new ones, or those of an
    earlier [build]. *)
Definition build (keybits : Z) (t : tables) (es : list prefix) : tables :=
  fold_left (add keybits) es (Tables (t_big t) (t_little t) 1).

(** ** lpm4_trie.lua: the entries

    The trie as a tree; [LPM4_trie:entries] walks it in preorder and yields the
    nodes that have a key. *)
Inductive trie := Empty | Node (e : prefix) (left right : trie).

Fixpoint entries (t : trie) : list prefix :=
  match t with
  | Empty => []
  | Node e l r => (if negb (p_key e =? 0) then [e] else []) ++ entries l ++ entries r
  end.

(** ** lpm4_dxr.c *)

(** One of the four copied steps of the binary search; [/] truncates. *)
Definition dxr_step (ip : Z) (ints : Z -> option Z) (s : Z * Z) : option (Z * Z) :=
  let '(bottom, top) := s in
  let mid := bottom + Z.quot (top - bottom) 2 in
  v ← ints mid;
  Some (if v <? ip then (mid + 1, top) else (bottom, mid)).

(** [while (bottom < top) { step; step; step; step; }] *)
Fixpoint dxr_binary (fuel : nat) (ip : Z) (ints : Z -> option Z) (s : Z * Z)
    : option (Z * Z) :=
  match fuel with
  | O => None
  | S fuel =>
      if s.1 <? s.2 then
        s ← dxr_step ip ints s; s ← dxr_step ip ints s;
        s ← dxr_step ip ints s; s ← dxr_step ip ints s;
        dxr_binary fuel ip ints s
      else Some s
  end.

(** [while(bottom < top && ip <= ints[top-1]) top = top - 1] *)
Fixpoint dxr_linear (fuel : nat) (ip : Z) (ints : Z -> option Z) (bottom top : Z)
    : option Z :=
  match fuel with
  | O => None
  | S fuel =>
      if bottom <? top then
        v ← ints (top - 1);
        if ip <=? v then dxr_linear fuel ip ints bottom (top - 1) else Some top
      else Some top
  end.

(** The loops get more turns than they can take: a turn narrows the range. *)
Definition lpm4_dxr_search (ip : Z) (ints keys bottoms tops : Z -> option Z) : option Z :=
  let base := Z.shiftr ip 16 in
  let ip := Z.land ip 0xffff in
  b ← bottoms base;
  t ← tops base;
  let bottom := i32 b in
  let top := i32 t in
  let fuel := S (Z.to_nat (top - bottom)) in
  if top <=? bottom then keys top
  else if top - bottom <? 32 then
    top ← dxr_linear fuel ip ints bottom top; keys top
  else
    '(_, top) ← dxr_binary fuel ip ints (bottom, top); keys top.

(** ** The reference search: the first interval whose end is not below [ip] *)

Definition dxr_first (ip : Z) (ints : Z -> option Z) (bottom top j : Z) : Prop :=
  bottom <= j <= top /\
  (forall i v, bottom <= i < j -> ints i = Some v -> v < ip) /\
  (forall v, j < top -> ints j = Some v -> ip <= v).

Section dxr.
Context (ip : Z) (ints : Z -> option Z) (lo hi : Z).
(** The interval ends in [lo .. hi] are there and sorted. *)
Context (Hdef : forall i, lo <= i <= hi -> exists v, ints i = Some v).
Context (Hsort : forall i j v w, lo <= i <= j -> j <= hi ->
                   ints i = Some v -> ints j = Some w -> v <= w).

(** What both searches maintain: everything below [bottom] is too small, and
    everything from [top] on (short of [hi]) is large enough. *)
Definition dxr_inv (bottom top : Z) : Prop :=
  lo <= bottom /\ top <= hi /\
  (forall i v, lo <= i < bottom -> ints i = Some v -> v < ip) /\
  (forall i v, top <= i < hi -> ints i = Some v -> ip <= v).

Lemma dxr_inv_first top : dxr_inv top top -> dxr_first ip ints lo hi top.
Proof.
  intros (H1 & H2 & Hlo & Hhi). split; [lia|]. split; [done|].
  intros v Hv E. by apply (Hhi top v); [lia|].
Qed.

Lemma dxr_inv_raise bottom top mid v :
  dxr_inv bottom top -> bottom <= mid <= hi -> ints mid = Some v -> v < ip ->
  dxr_inv (mid + 1) top.
Proof.
  intros (H1 & H2 & Hlo & Hhi) Hm E Hv. split; [lia|]. split; [done|]. split; [|done].
  intros i w Hi Ei. pose proof (Hsort i mid w v ltac:(lia) ltac:(lia) Ei E). lia.
Qed.

Lemma dxr_inv_lower bottom top mid v :
  dxr_inv bottom top -> lo <= mid <= hi -> ints mid = Some v -> ip <= v ->
  dxr_inv bottom mid.
Proof.
  intros (H1 & H2 & Hlo & Hhi) Hm E Hv. split; [done|]. split; [lia|]. split; [done|].
  intros i w Hi Ei. pose proof (Hsort mid i v w ltac:(lia) ltac:(lia) E Ei). lia.
Qed.

Lemma dxr_linear_spec fuel : forall top,
  dxr_inv lo top -> lo <= top -> top - lo < Z.of_nat fuel ->
  exists j, dxr_linear fuel ip ints lo top = Some j /\ dxr_first ip ints lo hi j.
Proof.
  induction fuel as [|fuel IH]; intros top Hinv Hlt Hf; [lia|]. simpl.
  destruct (Z.ltb_spec lo top).
  - pose proof Hinv as (_ & Hhi & _).
    destruct (Hdef (top - 1)) as [v E]; [lia|]. rewrite E. simpl.
    destruct (Z.leb_spec ip v).
    + apply IH; [|lia..]. apply (dxr_inv_lower lo top (top - 1) v); done || lia.
    + exists top. split; [done|]. apply dxr_inv_first.
      replace top with (top - 1 + 1) at 1 by lia.
      apply (dxr_inv_raise lo top (top - 1) v); done || lia.
  - assert (top = lo) as -> by lia. exists lo. split; [done|]. by apply dxr_inv_first.
Qed.

(** The binary search needs more: in its unrolled turns it can read the entry
    of [top] itself, so that entry must not be below [ip]. *)
Lemma dxr_step_spec bottom top v :
  dxr_inv bottom top -> bottom <= top -> ints top = Some v -> ip <= v ->
  exists bottom' top' v', dxr_step ip ints (bottom, top) = Some (bottom', top') /\
    dxr_inv bottom' top' /\ bottom' <= top' /\ ints top' = Some v' /\ ip <= v' /\
    top' - bottom' <= top - bottom /\
    (bottom < top -> top' - bottom' < top - bottom).
Proof.
  intros Hinv Hle E Hv. pose proof Hinv as (H1 & H2 & _). unfold dxr_step.
  assert (Hq : 0 <= Z.quot (top - bottom) 2 <= top - bottom /\
               (bottom < top -> Z.quot (top - bottom) 2 < top - bottom)).
  { rewrite Z.quot_div_nonneg by lia. zlia. }
  set (mid := bottom + Z.quot (top - bottom) 2) in *.
  assert (Hm : bottom <= mid <= top) by lia.
  destruct (Hdef mid) as [w Ew]; [lia|]. rewrite Ew. simpl.
  destruct (Z.ltb_spec w ip).
  - exists (mid + 1), top, v. split; [done|]. split; [apply (dxr_inv_raise bottom top mid w); done || lia|].
    assert (mid <> top) by (intros Em; rewrite Em in Ew; simplify_eq; lia).
    repeat split; try done; lia.
  - exists bottom, mid, w. split; [done|]. split; [apply (dxr_inv_lower bottom top mid w); done || lia|].
    repeat split; try done; lia.
Qed.

Lemma dxr_binary_spec fuel : forall bottom top v,
  dxr_inv bottom top -> bottom <= top -> ints top = Some v -> ip <= v ->
  top - bottom < Z.of_nat fuel ->
  exists j, dxr_binary fuel ip ints (bottom, top) = Some (j, j) /\ dxr_first ip ints lo hi j.
Proof.
  induction fuel as [|fuel IH]; intros bottom top v Hinv Hle E Hv Hf; [lia|]. cbn [dxr_binary].
  cbn [fst snd]. destruct (Z.ltb_spec bottom top).
  - destruct (dxr_step_spec _ _ _ Hinv Hle E Hv)
      as (b1 & t1 & v1 & -> & I1 & L1 & E1 & V1 & _ & D1). cbn [mbind option_bind].
    destruct (dxr_step_spec _ _ _ I1 L1 E1 V1)
      as (b2 & t2 & v2 & -> & I2 & L2 & E2 & V2 & D2 & _). cbn [mbind option_bind].
    destruct (dxr_step_spec _ _ _ I2 L2 E2 V2)
      as (b3 & t3 & v3 & -> & I3 & L3 & E3 & V3 & D3 & _). cbn [mbind option_bind].
    destruct (dxr_step_spec _ _ _ I3 L3 E3 V3)
      as (b4 & t4 & v4 & -> & I4 & L4 & E4 & V4 & D4 & _). cbn [mbind option_bind].
    apply (IH b4 t4 v4); try done. lia.
  - assert (bottom = top) as -> by lia. exists top. split; [done|]. by apply dxr_inv_first.
Qed.
End dxr.

(** C28: [lpm4_dxr_search] terminates and returns the key of the first interval of
    the address's 2^16 block whose end is not below the address, whichever of
    its three searches the size of the range selects, provided the interval
    ends of the range are sorted and the last one is not below the address. *)
Theorem lpm4_dxr_search_correct (ip lo hi v : Z) (ints keys bottoms tops : Z -> option Z) :
  bottoms (Z.shiftr ip 16) = Some lo -> tops (Z.shiftr ip 16) = Some hi ->
  0 <= lo <= hi -> hi < 2147483648 ->
  (forall i, lo <= i <= hi -> exists v, ints i = Some v) ->
  (forall i j v w, lo <= i <= j -> j <= hi ->
     ints i = Some v -> ints j = Some w -> v <= w) ->
  ints hi = Some v -> Z.land ip 0xffff <= v ->
  exists j, dxr_first (Z.land ip 0xffff) ints lo hi j /\
    lpm4_dxr_search ip ints keys bottoms tops = keys j.
Proof.
  intros Hb Ht Hr Hmax Hdef Hsort Eh Hv. unfold lpm4_dxr_search.
  rewrite Hb, Ht. cbn [mbind option_bind].
  rewrite !i32_small by (unfold in_i32; lia). set (a := Z.land ip 0xffff) in *.
  assert (Hinv : dxr_inv a ints lo hi lo hi).
  { repeat split; [lia|lia|intros; lia|intros; lia]. }
  destruct (Z.leb_spec hi lo).
  { assert (lo = hi) as -> by lia. exists hi. split; [|done]. by apply dxr_inv_first. }
  destruct (Z.ltb_spec (hi - lo) 32).
  - destruct (dxr_linear_spec a ints lo hi Hdef Hsort (S (Z.to_nat (hi - lo))) hi Hinv)
      as (j & -> & Hj); [lia..|]. by exists j.
  - destruct (dxr_binary_spec a ints lo hi Hdef Hsort (S (Z.to_nat (hi - lo))) lo hi v Hinv)
      as (j & -> & Hj); [lia|done|done|lia|]. by exists j.
Qed.

(** Forty intervals of one block ending on 256-address boundaries. *)
Definition grid_ints (i : Z) : option Z :=
  if (0 <=? i) && (i <=? 40) then Some (256 * i + 255) else None.

Lemma lpm4_dxr_search_correct_witness :
  exists j, dxr_first 0x1234 grid_ints 0 40 j /\
    lpm4_dxr_search 0x1234 grid_ints Some (fun _ => Some 0) (fun _ => Some 40) = Some j.
Proof.
  apply (lpm4_dxr_search_correct 0x1234 0 40 (256 * 40 + 255) grid_ints Some
           (fun _ => Some 0) (fun _ => Some 40)); try (reflexivity || lia).
  - intros i Hi. unfold grid_ints. case_match; [eauto|lia].
  - unfold grid_ints. intros i j v w Hi Hj Ei Ej. repeat case_match; simplify_eq; lia.
  - vm_compute. done.
Defined.

(** Without the condition on the last interval the unrolled search goes wrong:
    the block holds the forty intervals above, the forty-first interval runs on
    into the next block (where it ends at offset 0x3fff) and is followed there
    by one ending at offset 0x7fff.  Address 0.0.80.0 lies in interval 40, but
    after the cursors meet the copied steps go on past [tops] and return the
    key of interval 41. *)
Definition cross_ints (i : Z) : option Z :=
  if i =? 40 then Some 0x3fff else if i =? 41 then Some 0x7fff
  else if (0 <=? i) && (i <? 40) then Some (256 * i + 255) else None.

Theorem lpm4_dxr_search_overshoots :
  let keys i := Some (if i =? 41 then 99 else 1) in
  dxr_first 0x5000 cross_ints 0 40 40 /\
  lpm4_dxr_search 0x5000 cross_ints keys (fun _ => Some 0) (fun _ => Some 40) = Some 99.
Proof.
  split; [|reflexivity]. split; [lia|]. split; [|intros; lia].
  intros i v Hi E. unfold cross_ints in E. repeat case_match; simplify_eq; lia.
Qed.

(** ** The 24-8 tables hold the prefixes *)

(** [ip] is covered by the prefix. *)
Definition covers (e : prefix) (ip : Z) : bool :=
  ip / 2 ^ (32 - p_len e) =? p_ip e / 2 ^ (32 - p_len e).

(** The key of the last entry that covers the address, 0 if none does. *)
Definition last_match (es : list prefix) (ip : Z) : Z :=
  fold_left (fun k e => if covers e ip then p_key e else k) es 0.

Lemma shiftr8 x : Z.shiftr x 8 = x / 256.
Proof. by rewrite Z.shiftr_div_pow2. Qed.
Lemma land_ff x : Z.land x 0xff = x mod 256.
Proof. apply (land_pow2_mask x 8). lia. Qed.

Lemma in_fill a base count v i :
  fill a base count v i = if bool_decide (base <= i < base + count) then v else a i.
Proof.
  unfold fill. destruct ((base <=? i) && (i <? base + count)) eqn:E;
    case_bool_decide; done || lia.
Qed.

Definition big_index (b : Z) : Prop := 0 <= b < 2 ^ 24.

Lemma ip_index ip : in_u32 ip -> big_index (ip / 256).
Proof. unfold in_u32, big_index. intros H. change (2 ^ 24) with 16777216. zlia. Qed.

Section tables_248.
Context (keybits : Z) (Hkb : 0 < keybits).
Let flag := 2 ^ keybits.

Record prefix_ok (e : prefix) : Prop := {
  po_len : 0 <= p_len e <= 32;
  po_ip : in_u32 (p_ip e);
  po_align : p_ip e mod 2 ^ (32 - p_len e) = 0;
  po_key : 0 < p_key e < flag;
}.

(** The lookup both C functions perform, on unbounded numbers. *)
Definition lookup_248 (t : tables) (ip : Z) : Z :=
  let v := t_big t (ip / 256) in
  if flag <? v then t_little t (256 * (v - flag) + ip mod 256) else v.

(** A first-level entry is a key or the flagged number of a table in use; no two
    entries share a table; tables not yet handed out are zero, unless every
    first-level entry is in use, so that they are always filled first. *)
Record tables_ok (t : tables) : Prop := {
  to_off : 1 <= t_off t;
  to_big : forall b, big_index b -> 0 <= t_big t b < flag \/ flag < t_big t b < flag + t_off t;
  to_distinct : forall b b', big_index b -> big_index b' ->
    flag < t_big t b -> t_big t b = t_big t b' -> b = b';
  to_fresh : (forall i, 256 * t_off t <= i -> t_little t i = 0) \/ (forall b, big_index b -> t_big t b <> 0);
}.

Lemma flag_pos : 0 < flag.
Proof. apply Z.pow_pos_nonneg; lia. Qed.

Lemma covers_spec e ip : prefix_ok e ->
  covers e ip = true <-> p_ip e <= ip < p_ip e + 2 ^ (32 - p_len e).
Proof.
  intros [Hl _ Ha _]. unfold covers. rewrite Z.eqb_eq.
  assert (Hn : 0 < 2 ^ (32 - p_len e)) by (apply Z.pow_pos_nonneg; lia).
  remember (2 ^ (32 - p_len e)) as n eqn:En. clear En.
  pose proof (Z.div_mod (p_ip e) n ltac:(lia)). pose proof (Z.div_mod ip n ltac:(lia)).
  pose proof (Z.mod_pos_bound ip n Hn). split; [intros E; nia|]. intros Hr.
  symmetry. apply (Z.div_unique_pos ip n _ (ip - p_ip e)); lia.
Qed.

Lemma covers_short e ip : prefix_ok e -> p_len e <= 24 ->
  covers e ip = true <->
  p_ip e / 256 <= ip / 256 < p_ip e / 256 + 2 ^ (24 - p_len e).
Proof.
  intros He Hl. rewrite covers_spec by done. destruct He as [Hl' _ Ha _].
  replace (32 - p_len e) with (24 - p_len e + 8) in * by lia.
  rewrite Z.pow_add_r in * by lia. change (2 ^ 8) with 256 in *.
  assert (0 < 2 ^ (24 - p_len e)) by (apply Z.pow_pos_nonneg; lia).
  remember (2 ^ (24 - p_len e)) as n eqn:En. clear En.
  apply Z.mod_divide in Ha as [k Hk]; [|lia].
  assert (p_ip e = 256 * (k * n)) as Hp by (rewrite Hk; ring). rewrite Hp.
  rewrite (Z.mul_comm 256 (k * n)), Z.div_mul by lia. remember (k * n) as c. zlia.
Qed.

(** The addresses of a prefix of more than 24 bits stay within one table. *)
Lemma long_fits e : prefix_ok e -> 24 < p_len e ->
  p_ip e mod 256 + 2 ^ (32 - p_len e) <= 256.
Proof.
  intros [Hlen _ Ha _] Hl.
  assert (exists m, 256 = m * 2 ^ (32 - p_len e)) as [m Hm].
  { exists (2 ^ (p_len e - 24)). rewrite <- Z.pow_add_r by lia.
    by replace (p_len e - 24 + (32 - p_len e)) with 8 by lia. }
  assert (Hp : 0 < 2 ^ (32 - p_len e)) by (apply Z.pow_pos_nonneg; lia).
  remember (2 ^ (32 - p_len e)) as n. apply Z.mod_divide in Ha as [q Hq]; [|lia].
  pose proof (Z.div_mod (p_ip e) 256 ltac:(lia)) as Hdm.
  pose proof (Z.mod_pos_bound (p_ip e) 256 ltac:(lia)) as Hb.
  remember (p_ip e mod 256) as r. remember (p_ip e / 256) as d.
  assert (d * m * n = 256 * d) by (rewrite Hm; ring).
  assert (Hr : r = (q - d * m) * n) by (rewrite Z.mul_sub_distr_r; lia).
  assert (q - d * m < m) by (apply (Z.mul_lt_mono_pos_r n); lia).
  assert ((q - d * m + 1) * n <= m * n) by (apply Z.mul_le_mono_nonneg_r; lia). lia.
Qed.

Lemma covers_long e ip : prefix_ok e -> 24 < p_len e ->
  covers e ip = true <->
  ip / 256 = p_ip e / 256 /\
  p_ip e mod 256 <= ip mod 256 < p_ip e mod 256 + 2 ^ (32 - p_len e).
Proof.
  intros He Hl. rewrite covers_spec by done. pose proof (long_fits e He Hl).
  assert (0 < 2 ^ (32 - p_len e)) by (apply Z.pow_pos_nonneg; destruct He; lia).
  remember (2 ^ (32 - p_len e)) as n eqn:En. clear En He. split; intros; zlia.
Qed.

Lemma land_flag v : 0 <= v < 2 * flag -> (Z.land flag v =? flag) = (flag <=? v).
Proof.
  intros Hv. pose proof flag_pos. unfold flag in *.
  destruct (Z.leb_spec (2 ^ keybits) v).
  - apply Z.eqb_eq. apply Z.bits_inj'. intros i Hi. rewrite Z.land_spec, Z.pow2_bits_eqb by lia.
    destruct (Z.eqb_spec keybits i) as [<-|]; [|done]. simpl.
    rewrite Z.testbit_true by lia.
    replace (v / 2 ^ keybits) with 1; [done|].
    apply (Z.div_unique_pos _ _ _ (v - 2 ^ keybits)); lia.
  - apply Z.eqb_neq. intros E. apply (f_equal (fun x => Z.testbit x keybits)) in E.
    rewrite Z.land_spec, Z.pow2_bits_true in E by lia. simpl in E.
    rewrite Z.testbit_true in E by lia. rewrite Z.div_small in E by lia. done.
Qed.

Lemma land_mask k : 0 <= k < flag -> Z.land (k + flag) (flag - 1) = k.
Proof.
  intros Hk. unfold flag. rewrite land_pow2_mask by lia. fold flag.
  rewrite <- (Z.mul_1_l flag) at 1. rewrite Z_mod_plus_full. by apply Z.mod_small.
Qed.

(** Adding a prefix of at most 24 bits overwrites whole first-level entries. *)
Lemma add_short t e : tables_ok t -> prefix_ok e -> p_len e <= 24 ->
  let t' := add keybits t e in
  tables_ok t' /\ t_off t' = t_off t /\
  forall ip, in_u32 ip -> lookup_248 t' ip = if covers e ip then p_key e else lookup_248 t ip.
Proof.
  intros Ht He Hl t'. subst t'. unfold add. rewrite (proj2 (Z.ltb_lt (p_len e) 25)) by lia.
  rewrite (proj2 (Z.ltb_ge 24 _)) by lia. rewrite shiftr8.
  pose proof (po_key e He) as Hk. pose proof flag_pos.
  destruct Ht as [Ho Hb Hd Hf]. split; [split; cbn [t_off t_big t_little]|split; [done|]].
  - done.
  - intros b Hi. rewrite in_fill. case_bool_decide; [lia|by apply Hb].
  - intros b b' Hi Hi'. rewrite !in_fill. repeat case_bool_decide; try lia. by apply Hd.
  - destruct Hf as [Hf|Hf]; [by left|right]. intros b Hi. rewrite in_fill. case_bool_decide; [lia|by apply Hf].
  - intros ip _. unfold lookup_248. cbn [t_big t_little]. rewrite in_fill.
    pose proof (covers_short e ip He Hl) as Hc.
    case_bool_decide as Hr.
    + rewrite (proj2 Hc Hr). rewrite (proj2 (Z.ltb_ge _ _)) by lia. done.
    + destruct (covers e ip); [|done]. exfalso. by apply Hr, Hc.
Qed.

(** The table an entry of more than 24 bits is written to: the one its
    first-level entry points at, or a fresh copy of that entry. *)
Lemma open_table t b : tables_ok t -> t_off t < flag -> big_index b ->
  let v := t_big t b in
  let t' :=
    if negb (Z.land flag v =? flag) then
      Tables (update (t_big t) b (t_off t + flag))
        (if negb (v =? 0) then fill (t_little t) (256 * t_off t) 256 v else t_little t)
        (t_off t + 1)
    else t in
  tables_ok t' /\ t_off t <= t_off t' <= t_off t + 1 /\ flag < t_big t' b < 2 * flag /\
  forall ip, in_u32 ip -> lookup_248 t' ip = lookup_248 t ip.
Proof.
  intros Ht Hoff Hib v. destruct Ht as [Ho Hb Hd Hf]. pose proof flag_pos.
  pose proof (Hb b Hib) as Hbb.
  rewrite land_flag by lia. fold v.
  destruct (Z.leb_spec flag v) as [Hv|Hv]; cbn [negb]; cbv zeta.
  { split; [done|]. split; [lia|]. split; [lia|done]. }
  assert (Hlit : forall j, 0 <= j < 256 ->
    (if negb (v =? 0) then fill (t_little t) (256 * t_off t) 256 v else t_little t)
      (256 * t_off t + j) = v).
  { intros j Hj. destruct (Z.eqb_spec v 0) as [Ev|]; cbn [negb].
    { destruct Hf as [Hf|Hf]; [rewrite Ev; apply Hf; lia|by destruct (Hf b Hib)]. }
    rewrite in_fill. by rewrite bool_decide_eq_true_2 by lia. }
  assert (Hother : forall i, i < 256 * t_off t \/ 256 * (t_off t + 1) <= i ->
    (if negb (v =? 0) then fill (t_little t) (256 * t_off t) 256 v else t_little t) i
    = t_little t i).
  { intros i Hi. case_match; [|done]. rewrite in_fill.
    by rewrite bool_decide_eq_false_2 by lia. }
  split; [split; cbn [t_off t_big t_little]|split; [cbn; lia|split]].
  - lia.
  - intros b' Hi. unfold update. destruct (Z.eqb_spec b' b); [lia|]. destruct (Hb b' Hi); lia.
  - intros b1 b2 Hi1 Hi2. unfold update. pose proof (Hb b1 Hi1). pose proof (Hb b2 Hi2).
    destruct (Z.eqb_spec b1 b), (Z.eqb_spec b2 b); subst; [done| | |by apply Hd]; intros; lia.
  - destruct Hf as [Hf|Hf]; [left; intros i Hi; rewrite Hother by lia; apply Hf; lia|right].
    intros b' Hi. unfold update. destruct (Z.eqb_spec b' b); [lia|by apply Hf].
  - cbn. unfold update. rewrite Z.eqb_refl. lia.
  - intros ip Hip. unfold lookup_248. cbn [t_big t_little]. unfold update.
    destruct (Z.eqb_spec (ip / 256) b) as [->|Hne].
    + fold v. rewrite (proj2 (Z.ltb_lt flag _)), (proj2 (Z.ltb_ge flag v)) by lia.
      replace (t_off t + flag - flag) with (t_off t) by lia.
      apply Hlit. apply Z.mod_pos_bound. lia.
    + destruct (Z.ltb_spec flag (t_big t (ip / 256))); [|done]. apply Hother. left.
      pose proof (Z.mod_pos_bound ip 256 ltac:(lia)). destruct (Hb (ip / 256) (ip_index ip Hip)); lia.
Qed.

Lemma add_long t e : tables_ok t -> t_off t < flag -> prefix_ok e -> 24 < p_len e ->
  let t' := add keybits t e in
  tables_ok t' /\ t_off t <= t_off t' <= t_off t + 1 /\
  forall ip, in_u32 ip -> lookup_248 t' ip = if covers e ip then p_key e else lookup_248 t ip.
Proof.
  intros Ht Hoff He Hl t'. subst t'. unfold add.
  rewrite (proj2 (Z.ltb_ge (p_len e) 25)), (proj2 (Z.ltb_lt 24 _)) by lia.
  rewrite shiftr8, land_ff. fold flag. cbv zeta.
  pose proof (ip_index _ (po_ip e He)) as Hie.
  pose proof (open_table t (p_ip e / 256) Ht Hoff Hie) as Hopen. cbv zeta in Hopen.
  match goal with |- context [Tables (t_big ?x) _ _] =>
    remember x as t1 eqn:Et1 in Hopen |- * end.
  clear Et1. destruct Hopen as (Ht1 & Ho1 & Hb1 & Hlk1). destruct Ht1 as [Ho Hb Hd Hf]. pose proof flag_pos.
  assert (Em : Z.land (t_big t1 (p_ip e / 256)) (flag - 1) = t_big t1 (p_ip e / 256) - flag).
  { rewrite <- (land_mask (t_big t1 (p_ip e / 256) - flag)) by lia. f_equal. lia. }
  rewrite Em. remember (t_big t1 (p_ip e / 256) - flag) as k eqn:Ek.
  pose proof (covers_long e) as Hc. specialize (fun ip => Hc ip He Hl).
  pose proof (long_fits e He Hl) as Hn.
  pose proof (Z.mod_pos_bound (p_ip e) 256 ltac:(lia)) as Hbot.
  assert (Hk : 0 < k < t_off t1) by (destruct (Hb (p_ip e / 256) Hie); lia).
  split; [split; cbn [t_off t_big t_little]|split; [done|]].
  - done.
  - done.
  - done.
  - destruct Hf as [Hf|Hf]; [left|by right]. intros i Hi. rewrite in_fill, bool_decide_eq_false_2 by lia. by apply Hf.
  - intros ip Hip. pose proof (ip_index ip Hip) as Hii. rewrite <- Hlk1 by done. unfold lookup_248. cbn [t_big t_little].
    pose proof (Z.mod_pos_bound ip 256 ltac:(lia)) as Hipm.
    destruct (covers e ip) eqn:Ec.
    + apply Hc in Ec as [Eb Er]. rewrite Eb, (proj2 (Z.ltb_lt flag _)) by lia.
      rewrite <- Ek, in_fill. by rewrite bool_decide_eq_true_2 by lia.
    + case_match eqn:E; [|done]. rewrite in_fill, bool_decide_eq_false_2; [done|].
      intros Hr. rewrite (proj2 (Hc ip)) in Ec; [done|].
      assert (t_big t1 (ip / 256) - flag = k) as Ek' by lia.
      assert (ip / 256 = p_ip e / 256) as Eb by (apply Hd; [done|done|lia|lia]).
      split; [done|]. lia.
Qed.

Lemma build_spec es : forall t, tables_ok t -> Forall prefix_ok es ->
  t_off t + zlen es <= flag ->
  let t' := fold_left (add keybits) es t in
  tables_ok t' /\ t_off t' <= t_off t + zlen es /\
  forall ip, in_u32 ip -> lookup_248 t' ip =
    fold_left (fun k e => if covers e ip then p_key e else k) es (lookup_248 t ip).
Proof.
  induction es as [|e es IH]; intros t Ht Hes Hoff; cbn [fold_left].
  { split; [done|]. split; [zlen_simpl; lia|done]. }
  apply Forall_cons_1 in Hes as [He Hes]. rewrite zlen_cons in *.
  pose proof (zlen_nonneg es).
  assert (Hstep : tables_ok (add keybits t e) /\ t_off (add keybits t e) <= t_off t + 1 /\
    forall ip, in_u32 ip -> lookup_248 (add keybits t e) ip =
      if covers e ip then p_key e else lookup_248 t ip).
  { destruct (decide (p_len e <= 24)).
    - destruct (add_short t e Ht He l) as (? & ? & ?).
      split; [done|split; [lia|done]].
    - destruct (add_long t e Ht ltac:(lia) He ltac:(lia)) as (? & ? & ?).
      split; [done|split; [lia|done]]. }
  destruct Hstep as (Ht1 & Ho1 & Hl1).
  destruct (IH (add keybits t e) Ht1 Hes ltac:(lia)) as (Ht2 & Ho2 & Hl2).
  split; [done|]. split; [lia|]. intros ip Hip. by rewrite Hl2, Hl1.
Qed.

(** What the arrays hold does not matter: they are new, or the first entry is
    a default route, which overwrites every first-level entry. *)
Definition buildable (t : tables) (es : list prefix) : Prop :=
  (forall i, t_big t i = 0 /\ t_little t i = 0) \/ (exists e es', es = e :: es' /\ p_len e = 0).

Lemma zero_ok t : (forall i, t_big t i = 0 /\ t_little t i = 0) ->
  tables_ok (Tables (t_big t) (t_little t) 1).
Proof.
  intros Hz. pose proof flag_pos. split; cbn [t_big t_little t_off].
  - lia.
  - intros b _. destruct (Hz b) as [-> _]. lia.
  - intros b b' _ _. destruct (Hz b) as [-> _]. lia.
  - left. intros i _. apply Hz.
Qed.

(** The default route leaves nothing of what was there before. *)
Lemma add_default t e : prefix_ok e -> p_len e = 0 -> t_off t = 1 ->
  let t' := add keybits t e in
  tables_ok t' /\ t_off t' = 1 /\ forall ip, in_u32 ip -> lookup_248 t' ip = p_key e /\ covers e ip = true.
Proof.
  intros He Hl Ho t'. pose proof flag_pos. pose proof (po_key e He) as Hk.
  assert (Hip : p_ip e = 0).
  { pose proof (po_align e He) as Ha. pose proof (po_ip e He) as Hi. unfold in_u32 in Hi. rewrite Hl in Ha.
    change (2 ^ (32 - 0)) with 4294967296 in Ha. rewrite Z.mod_small in Ha by lia. done. }
  assert (Hb : forall b, big_index b -> t_big t' b = p_key e).
  { intros b Hi. subst t'. unfold add. rewrite Hl, Hip. cbn [t_big Z.ltb Z.compare Pos.compare Pos.compare_cont].
    rewrite in_fill. change (Z.shiftr 0 8) with 0. unfold big_index in Hi. by rewrite bool_decide_eq_true_2 by lia. }
  assert (Hoff : t_off t' = 1) by (subst t'; unfold add; rewrite Hl; exact Ho).
  split; [|split; [done|]].
  - split; [lia| | |].
    + intros b Hi. rewrite (Hb b Hi). lia.
    + intros b b' Hi Hi'. rewrite (Hb b Hi). lia.
    + right. intros b Hi. rewrite (Hb b Hi). lia.
  - intros ip Hi. unfold lookup_248. rewrite (Hb _ (ip_index ip Hi)). rewrite (proj2 (Z.ltb_ge _ _)) by lia.
    split; [done|]. apply (covers_spec e ip He). rewrite Hip, Hl. unfold in_u32 in Hi. change (2 ^ (32 - 0)) with 4294967296. lia.
Qed.

Lemma build_last_match t es : Forall prefix_ok es -> zlen es < flag -> buildable t es ->
  let t' := build keybits t es in
  tables_ok t' /\ t_off t' <= 1 + zlen es /\
  forall ip, in_u32 ip -> lookup_248 t' ip = last_match es ip.
Proof.
  intros Hes Hlen Hb t'. pose proof flag_pos. destruct Hb as [Hz|(e & es' & -> & Hl)].
  - destruct (build_spec es _ (zero_ok t Hz) Hes) as (Ht & Ho & Hlk); [cbn [t_off]; lia|].
    split; [done|]. split; [done|]. intros ip Hip. subst t'. unfold build. rewrite (Hlk ip Hip). unfold last_match.
    f_equal. unfold lookup_248. cbn [t_big t_little]. destruct (Hz (ip / 256)) as [-> _].
    by rewrite (proj2 (Z.ltb_ge _ _)) by lia.
  - apply Forall_cons_1 in Hes as [He Hes]. rewrite zlen_cons in *. pose proof (zlen_nonneg es').
    destruct (add_default (Tables (t_big t) (t_little t) 1) e He Hl eq_refl) as (Ht & Ho & Hlk).
    destruct (build_spec es' _ Ht Hes) as (Ht2 & Ho2 & Hlk2); [lia|]. subst t'. unfold build. cbn [fold_left].
    split; [done|]. split; [lia|]. intros ip Hip. rewrite (Hlk2 ip Hip). unfold last_match. cbn [fold_left].
    destruct (Hlk ip Hip) as [-> ->]. done.
Qed.
End tables_248.

(** The arrays the Lua code passes to the C functions. *)
Definition array_of (a : Z -> Z) : Z -> option Z := fun i => Some (a i).

Lemma search16_lookup t ip :
  lpm4_248_search ip (array_of (t_big t)) (array_of (t_little t)) = Some (lookup_248 15 t ip).
Proof.
  unfold lpm4_248_search, lookup_248, array_of. cbn [mbind option_bind].
  rewrite shiftr8, land_ff. change (2 ^ 15) with 0x8000.
  case_match; [|done]. rewrite Z.shiftl_mul_pow2 by lia. do 2 f_equal. lia.
Qed.

Lemma search32_lookup t ip : tables_ok 31 t -> t_off t <= 16777216 -> in_u32 ip ->
  lpm4_248_search32 ip (array_of (t_big t)) (array_of (t_little t)) = Some (lookup_248 31 t ip).
Proof.
  intros Ht Hoff Hip. unfold lpm4_248_search32, lookup_248, array_of. cbn [mbind option_bind].
  rewrite shiftr8, land_ff. destruct Ht as [_ Hb _ _]. specialize (Hb (ip / 256) (ip_index ip Hip)).
  change (2 ^ 31) with 0x80000000 in *. pose proof (Z.mod_pos_bound ip 256 ltac:(lia)).
  case_match eqn:E; [|done]. rewrite Z.shiftl_mul_pow2 by lia. change (2 ^ 8) with 256.
  rewrite (u32_small (_ - _)), (u32_small (_ * 256)), u32_small by (unfold in_u32; lia).
  do 2 f_equal. lia.
Qed.

(** Entries come in an order in which a prefix never precedes a shorter one it
    overlaps with, as the preorder walk of the trie yields them. *)
Definition nested_order (es : list prefix) : Prop :=
  StronglySorted
    (fun e e' => forall ip, covers e ip = true -> covers e' ip = true -> p_len e <= p_len e') es.

(** [k] is the key of a longest prefix that covers [ip], 0 if none does. *)
Definition longest_match (es : list prefix) (ip k : Z) : Prop :=
  (k = 0 /\ forall e, e ∈ es -> covers e ip = false) \/
  exists e, e ∈ es /\ covers e ip = true /\ p_key e = k /\
    forall e', e' ∈ es -> covers e' ip = true -> p_len e' <= p_len e.

Lemma last_match_longest es ip : nested_order es -> longest_match es ip (last_match es ip).
Proof.
  unfold last_match. intros Hs.
  enough (H : forall k,
    (fold_left (fun k e => if covers e ip then p_key e else k) es k = k /\
     forall e, e ∈ es -> covers e ip = false) \/
    exists e, e ∈ es /\ covers e ip = true /\
      p_key e = fold_left (fun k e => if covers e ip then p_key e else k) es k /\
      forall e', e' ∈ es -> covers e' ip = true -> p_len e' <= p_len e) by exact (H 0).
  induction Hs as [|e es Hs IH Hall]; intros k; cbn [fold_left].
  { left. split; [done|]. intros e He. by apply not_elem_of_nil in He. }
  destruct (IH (if covers e ip then p_key e else k)) as [[E Hno]|(e1 & He1 & Hc1 & E & Hmax)].
  - rewrite E. destruct (covers e ip) eqn:Ec.
    + right. exists e. split; [by constructor|]. split; [done|]. split; [done|].
      intros e' [->|He']%elem_of_cons Hc'; [done|]. by rewrite Hno in Hc'.
    + left. split; [done|]. intros e' [->|He']%elem_of_cons; auto.
  - right. exists e1. split; [by constructor|]. split; [done|]. split; [done|].
    intros e' [->|He']%elem_of_cons Hc'; [|by apply Hmax].
    rewrite Forall_forall in Hall. by eapply Hall.
Qed.

(** The order the trie provides: the prefixes below a node are longer than its
    own, and no address is in both subtrees. *)
Fixpoint trie_ok (t : trie) : Prop :=
  match t with
  | Empty => True
  | Node e l r =>
      Forall (fun e' => p_len e <= p_len e') (entries l ++ entries r) /\
      (forall a b ip, a ∈ entries l -> b ∈ entries r -> covers a ip = true -> covers b ip = false) /\
      trie_ok l /\ trie_ok r
  end.

Lemma sorted_app {A} (R : A -> A -> Prop) l k :
  StronglySorted R l -> StronglySorted R k -> (forall a b, a ∈ l -> b ∈ k -> R a b) -> StronglySorted R (l ++ k).
Proof.
  induction 1 as [|a l Hl IH Ha]; intros Hk H; [done|]. cbn. constructor.
  - apply IH; [done|]. intros x b Hx. apply H. by right.
  - apply Forall_app. split; [done|]. apply Forall_forall. intros b Hb. apply H; [left|done].
Qed.

Lemma entries_nested t : trie_ok t -> nested_order (entries t).
Proof.
  induction t as [|e l IHl r IHr]; cbn [trie_ok entries]; [constructor|].
  intros (Hlen & Hdis & Hl & Hr). unfold nested_order in *.
  assert (Hlr : StronglySorted (fun e e' => forall ip, covers e ip = true -> covers e' ip = true -> p_len e <= p_len e')
    (entries l ++ entries r)).
  { apply sorted_app; [by apply IHl|by apply IHr|]. intros a b Ha Hb ip Ca Cb. by rewrite (Hdis a b ip Ha Hb Ca) in Cb. }
  destruct (negb _); [|done]. constructor; [done|]. eapply Forall_impl; [exact Hlen|]. done.
Qed.

(** C23: [lpm4_248_search] is longest-prefix match.  Let [LPM4_248:build] be run
    on up to 2^15 - 1 prefixes with keys from 1 to 2^15 - 1 that come in an
    order in which no prefix precedes a shorter one it overlaps with, which the
    preorder walk of the trie provides ([entries_nested]; that the trie's own
    code keeps its nodes nested is not modelled), and let the arrays be new, or
    else the first prefix be a default route.  Then the search returns for
    every address the key of a longest prefix that covers it, and 0 when none
    does. *)
Theorem lpm4_248_search_longest_match (t0 : tables) (es : list prefix) (ip : Z) :
  Forall (prefix_ok 15) es -> nested_order es -> zlen es < 2 ^ 15 -> buildable t0 es -> in_u32 ip ->
  let t := build 15 t0 es in
  exists k, lpm4_248_search ip (array_of (t_big t)) (array_of (t_little t)) = Some k /\
    longest_match es ip k.
Proof.
  intros Hok Ho Hlen Hb Hip t. subst t. rewrite search16_lookup.
  destruct (build_last_match 15 ltac:(lia) t0 es Hok Hlen Hb) as (_ & _ & Hlk). rewrite (Hlk ip Hip).
  eexists. split; [done|]. by apply last_match_longest.
Qed.

(** The entries of a trie, a default route first. *)
Definition c_trie : trie :=
  Node (Prefix 0 0 7) (Node (Prefix 0x0a000000 8 8) (Node (Prefix 0x0a000180 25 9) Empty Empty) Empty)
    (Node (Prefix 0xc0a80000 16 5) Empty Empty).

Lemma c_trie_ok kb : 15 <= kb -> Forall (prefix_ok kb) (entries c_trie).
Proof.
  intros Hk. assert (2 ^ 15 <= 2 ^ kb) by (apply Z.pow_le_mono_r; lia).
  change (2 ^ 15) with 32768 in *.
  repeat (apply Forall_cons_2; [split; cbn [p_ip p_len p_key];
    [lia|unfold in_u32; lia|reflexivity|lia]|]). apply Forall_nil_2.
Qed.

Lemma c_trie_nested : nested_order (entries c_trie).
Proof.
  apply entries_nested. unfold c_trie. cbn [trie_ok entries p_key Z.eqb negb app].
  assert (Hn : forall (l : list prefix) a b ip, a ∈ l -> b ∈ ([] : list prefix) -> covers a ip = true -> covers b ip = false)
    by (intros l a b ip _ Hb; by apply not_elem_of_nil in Hb).
  split_and!; try done; try apply Hn; try (repeat constructor; cbn; lia).
  intros a b ip Ha Hb Ca. apply list_elem_of_In in Ha, Hb. cbn in Ha, Hb.
  destruct Hb as [<-|[]]. apply Z.eqb_neq. cbn.
  destruct Ha as [<-|[<-|[]]]; apply Z.eqb_eq in Ca; cbn in Ca; zlia.
Qed.

(** The arrays are those of an earlier run with other prefixes. *)
Lemma lpm4_248_search_longest_match_witness :
  let t0 := build 15 tables_init [Prefix 0x0a000180 25 3; Prefix 0xac100000 12 4] in
  exists k, lpm4_248_search 0x0a000185 (array_of (t_big (build 15 t0 (entries c_trie))))
    (array_of (t_little (build 15 t0 (entries c_trie)))) = Some k /\
    longest_match (entries c_trie) 0x0a000185 k /\ k = 9.
Proof.
  intros t0. destruct (lpm4_248_search_longest_match t0 (entries c_trie) 0x0a000185) as (k & E & L).
  - apply c_trie_ok. lia.
  - exact c_trie_nested.
  - reflexivity.
  - right. eexists _, _. split; reflexivity.
  - unfold in_u32. lia.
  - exists k. split; [exact E|]. split; [exact L|]. vm_compute in E. by injection E as <-.
Defined.

(** Without a default route a second run keeps what the first one stored: a
    prefix that was removed is still found, and a second-level table that is
    used again still has its old entries. *)
Theorem lpm4_248_rebuild_stale :
  let t0 := build 15 tables_init [Prefix 0x0a000180 25 3; Prefix 0xac100000 12 4] in
  let search t ip := lpm4_248_search ip (array_of (t_big t)) (array_of (t_little t)) in
  search (build 15 t0 []) 0xac100001 = Some 4 /\ longest_match [] 0xac100001 0 /\
  search (build 15 t0 [Prefix 0x0b000000 25 8]) 0x0b000085 = Some 3 /\
  longest_match [Prefix 0x0b000000 25 8] 0x0b000085 0.
Proof.
  intros t0 search. split_and!; [vm_compute; reflexivity| |vm_compute; reflexivity|].
  - left. split; [done|]. by intros e ?%not_elem_of_nil.
  - left. split; [done|]. by intros e ->%list_elem_of_singleton.
Qed.

(** [lpm4_248_search32] is longest-prefix match for 31-bit keys: up to
    2^24 - 1 prefixes its 32-bit index arithmetic does not wrap. *)
Theorem lpm4_248_search32_longest_match (t0 : tables) (es : list prefix) (ip : Z) :
  Forall (prefix_ok 31) es -> nested_order es -> zlen es < 2 ^ 24 -> buildable t0 es -> in_u32 ip ->
  let t := build 31 t0 es in
  exists k, lpm4_248_search32 ip (array_of (t_big t)) (array_of (t_little t)) = Some k /\
    longest_match es ip k.
Proof.
  intros Hok Ho Hlen Hb Hip t. subst t. change (2 ^ 24) with 16777216 in Hlen.
  destruct (build_last_match 31 ltac:(lia) t0 es Hok ltac:(change (2 ^ 31) with 2147483648; lia) Hb) as (Ht & Hoff & Hlk).
  rewrite search32_lookup by (done || lia). rewrite (Hlk ip Hip).
  eexists. split; [done|]. by apply last_match_longest.
Qed.

Lemma lpm4_248_search32_longest_match_witness :
  exists k, lpm4_248_search32 0x0a000085 (array_of (t_big (build 31 tables_init (entries c_trie))))
    (array_of (t_little (build 31 tables_init (entries c_trie)))) = Some k /\
    longest_match (entries c_trie) 0x0a000085 k.
Proof.
  apply (lpm4_248_search32_longest_match tables_init (entries c_trie) 0x0a000085);
    [apply c_trie_ok; lia|exact c_trie_nested|reflexivity|by left|unfold in_u32; lia].
Defined.
