(* ===== verification/MacTable.v ===== *)
(** * MacTable

    The MAC address table of the learning bridge: [apps/bridge/mac_table.c]
    with the types of [apps/bridge/learning.h], and the parts of
    [mac_table.lua] that call it (insertion, lookup, the periodic timeout with
    the resizing of the tables).
    A table is refined to a finite map from addresses to (port, group); the
    forwarding tables filled by [mac_table_lookup_pft] are refined to the
    three lists of packets the bridge then sends, floods and frees. *)
From stdpp Require Import base tactics numbers list gmap.
From Stdlib Require Import ZArith Lia.
From S2P Require Import Prelude.
Open Scope Z_scope.

Module MacTable.

(** ** Data *)

Definition BUCKET_SIZE : Z := 6.

Record mac_entry := MacEntry { e_mac : Z; e_port : Z; e_group : Z }.

Record hash_table := HashTable {
  ubuckets : Z;
  entries : Z;
  overflow : Z;
  buckets : list (list mac_entry) }.

Record lookup_result := LookupResult { r_port : Z; r_group : Z }.

(** The tables as LuaJIT allocates them: zero filled. *)
Definition zero_entry : mac_entry := MacEntry 0 0 0.
Definition new_table (nb : nat) : hash_table :=
  HashTable 0 0 0 (replicate nb (replicate (Z.to_nat BUCKET_SIZE) zero_entry)).

(** ** Insertion *)

(** How the scan over the slots of a bucket ends: at a free slot, at the slot
    of the address, or past the last slot ([j == BUCKET_SIZE]). *)
Inductive slot := Free (j : Z) | Found (j : Z) | Full.

Fixpoint find_slot (mac : Z) (b : list mac_entry) (j : Z) : slot :=
  match b with
  | [] => Full
  | me :: b' =>
      if e_mac me =? 0 then Free j
      else if e_mac me =? mac then Found j
      else find_slot mac b' (j + 1)
  end.

(** The body of the loop over the two tables. *)
Definition insert_one (mac port group index : Z) (t : hash_table) : option hash_table :=
  b ← zget (buckets t) index;
  match find_slot mac b 0 with
  | Free j =>
      b' ← zset b j (MacEntry mac port group);
      bs' ← zset (buckets t) index b';
      Some (HashTable
              (if j =? 0 then u32 (ubuckets t + 1) else ubuckets t)
              (u32 (entries t + 1)) (overflow t) bs')
  | Found j =>
      b' ← zset b j (MacEntry mac port group);
      bs' ← zset (buckets t) index b';
      Some (HashTable (ubuckets t) (entries t) (overflow t) bs')
  | Full => Some (HashTable (ubuckets t) (entries t) 1 (buckets t))
  end.

Definition mac_table_insert (mac port group : Z)
    (tables : hash_table * hash_table) (index : Z) : option (hash_table * hash_table) :=
  t0 ← insert_one mac port group index tables.1;
  t1 ← insert_one mac port group index tables.2;
  Some (t0, t1).

(** ** Lookup *)

(** The entry the loop of both lookups stops at. *)
Fixpoint bucket_find (mac : Z) (b : list mac_entry) : option mac_entry :=
  match b with
  | [] => None
  | me :: b' =>
      if e_mac me =? 0 then None
      else if e_mac me =? mac then Some me
      else bucket_find mac b'
  end.

(** [result] is the static object of the function: a miss leaves the group of
    the previous hit in it. *)
Definition mac_table_lookup (mac : Z) (bucket : list mac_entry)
    (result : lookup_result) : lookup_result :=
  match bucket_find mac bucket with
  | Some me => LookupResult (e_port me) (e_group me)
  | None => LookupResult 0 (r_group result)
  end.

(** ** The Lua methods around them *)

(** The object: the target size, the number of buckets, the hash mask, and
    the main and the shadow table. *)
Record mac_table := MacTab {
  m_size : Z; m_buckets : Z; m_mask : Z; m_tables : hash_table * hash_table }.

Section methods.
(** [hash mac] is the first word of the MurmurHash of an address;
    [ceil_log2 size] is [math.ceil(math.log(size*2)/math.log(2))].  The sizes
    are integers here. *)
Context (hash : Z -> Z) (ceil_log2 : Z -> Z).
Context (resize_max : Z) (copy_on_resize : bool).

Definition alloc_tables (nb : Z) : hash_table * hash_table :=
  (new_table (Z.to_nat nb), new_table (Z.to_nat nb)).

Definition buckets_from_size (size : Z) : Z := 2 ^ ceil_log2 size.

Definition new (size : Z) : mac_table :=
  let size := Z.min size resize_max in
  let nb := buckets_from_size size in
  MacTab size nb (nb - 1) (alloc_tables nb).

Definition insert (mac port group : Z) (self : mac_table) : option mac_table :=
  let index := Z.land (hash mac) (m_mask self) in
  ts ← mac_table_insert mac port group (m_tables self) index;
  Some (MacTab (m_size self) (m_buckets self) (m_mask self) ts).

Definition lookup (mac : Z) (self : mac_table) (result : lookup_result) :
    option (option (Z * Z) * lookup_result) :=
  b ← zget (buckets (m_tables self).1) (Z.land (hash mac) (m_mask self));
  let r := mac_table_lookup mac b result in
  Some (if r_port r =? 0 then None else Some (r_port r, r_group r), r).

(** [ffi.fill(t, ffi.sizeof(t))]. *)
Definition clear (t : hash_table) : hash_table := new_table (length (buckets t)).

Definition overflow_p (t : hash_table) : bool := overflow t =? 1.

(** What the iterator yields: bucket by bucket, the slots before the first
    free one. *)
Fixpoint iterate_bucket (b : list mac_entry) : list mac_entry :=
  match b with
  | [] => []
  | me :: b' => if e_mac me =? 0 then [] else me :: iterate_bucket b'
  end.
Definition iterate (t : hash_table) : list mac_entry := buckets t ≫= iterate_bucket.

(** The loop that looks for the new target size. *)
Fixpoint grow (fuel : nat) (old_buckets n_entries size new_buckets : Z) : option (Z * Z) :=
  if ((new_buckets <? 2 * old_buckets) || (size <? n_entries)) && (size <? resize_max) then
    match fuel with
    | O => None
    | S fuel' =>
        let size := size * 2 in
        let size := if resize_max <? size then resize_max else size in
        grow fuel' old_buckets n_entries size (buckets_from_size size)
    end
  else Some (size, new_buckets).

(** [for mac, port, group in next, state do self:insert(...)]. *)
Fixpoint insert_all (l : list mac_entry) (self : mac_table) : option mac_table :=
  match l with
  | [] => Some self
  | me :: l' => self ← insert (e_mac me) (e_port me) (e_group me) self; insert_all l' self
  end.

(** When the tables cannot grow the new target size stays all the same. *)
Definition maybe_resize (self : mac_table) : option (bool * mac_table) :=
  let main := (m_tables self).1 in
  if negb (overflow_p main || (m_size self <? entries main)) then Some (false, self)
  else
    let old := iterate (m_tables self).2 in
    r ← grow (Z.to_nat (resize_max - m_size self)) (m_buckets self) (entries main) (m_size self) (m_buckets self);
    let '(size, nb) := r in
    if nb =? m_buckets self then Some (false, MacTab size (m_buckets self) (m_mask self) (m_tables self))
    else
      let self := MacTab size nb (nb - 1) (alloc_tables nb) in
      self ← (if copy_on_resize then insert_all old self else Some self);
      Some (true, self).

(** The main table is cleared and the two tables trade places, unless the
    tables were just resized and left empty. *)
Definition timeout (self : mac_table) : option mac_table :=
  r ← maybe_resize self;
  let '(resized, self) := r in
  if resized && negb copy_on_resize then Some self
  else
    let '(main, shadow) := m_tables self in
    Some (MacTab (m_size self) (m_buckets self) (m_mask self) (shadow, clear main)).

(** The operations on the table, in the order they happen. *)
Inductive op := Learn (mac port group : Z) | Timeout.

Definition step (self : mac_table) (o : op) : option mac_table :=
  match o with
  | Learn m p g => insert m p g self
  | Timeout => timeout self
  end.

Fixpoint run (self : mac_table) (ops : list op) : option mac_table :=
  match ops with
  | [] => Some self
  | o :: ops' => self' ← step self o; run self' ops'
  end.
End methods.

(** ** Buckets *)

(** The used slots of a bucket come first: behind a free slot all are free. *)
Fixpoint packed (b : list mac_entry) : Prop :=
  match b with
  | [] => True
  | me :: b' => if e_mac me =? 0 then Forall (fun me => e_mac me = 0) b' else packed b'
  end.

Lemma bucket_find_free m b :
  Forall (fun me => e_mac me = 0) b -> bucket_find m b = None.
Proof. destruct 1 as [|me b H]; [done|]. cbn. by rewrite H. Qed.

(** The addresses in a bucket. *)
Definition macs (b : list mac_entry) : list Z := filter (fun m => m <> 0) (e_mac <$> b).
Arguments macs : simpl never.

Lemma macs_cons me b : macs (me :: b) = (if e_mac me =? 0 then [] else [e_mac me]) ++ macs b.
Proof. unfold macs. rewrite fmap_cons, filter_cons. destruct (Z.eqb_spec (e_mac me) 0); by case_decide. Qed.

Lemma macs_free b : Forall (fun me => e_mac me = 0) b -> macs b = [].
Proof. induction 1 as [|me b H _ IH]; [done|]. by rewrite macs_cons, H, IH. Qed.

Lemma macs_full b : Forall (fun me => e_mac me <> 0) b -> zlen (macs b) = zlen b.
Proof.
  induction 1 as [|me b H _ IH]; [done|]. rewrite macs_cons. destruct (Z.eqb_spec (e_mac me) 0); [done|].
  cbn [app]. by rewrite !zlen_cons, IH.
Qed.

Lemma bucket_find_elem m b me : bucket_find m b = Some me -> me ∈ b /\ e_mac me = m /\ m <> 0.
Proof.
  induction b as [|e b IH]; cbn [bucket_find]; [done|]. destruct (Z.eqb_spec (e_mac e) 0); [done|].
  destruct (Z.eqb_spec (e_mac e) m) as [E|]; [intros [= <-]|]; [|set_solver].
  split_and!; [left|done|congruence].
Qed.

Lemma bucket_find_macs m b : packed b -> m <> 0 -> (is_Some (bucket_find m b) <-> m ∈ macs b).
Proof.
  intros Hp Hm. induction b as [|e b IH]; [split; [intros [? [=]]|by intros ?%not_elem_of_nil]|].
  rewrite macs_cons. cbn [bucket_find packed] in *. destruct (Z.eqb_spec (e_mac e) 0).
  - rewrite (macs_free b Hp). split; [by intros [? [=]]|by intros ?%not_elem_of_nil].
  - destruct (Z.eqb_spec (e_mac e) m) as [->|]; cbn [app]; [split; [left|eauto]|].
    rewrite (IH Hp). set_solver.
Qed.

(** What storing [me] at the slot the scan stopped at does to lookups. *)
Definition stores (m : Z) (me : mac_entry) (b b' : list mac_entry) : Prop :=
  zlen b' = zlen b /\ packed b' /\
  bucket_find m b' = Some me /\
  (forall m', m' <> m -> bucket_find m' b' = bucket_find m' b).

Lemma find_slot_free m me b j0 j :
  m <> 0 -> e_mac me = m -> packed b -> find_slot m b j0 = Free j ->
  bucket_find m b = None /\ 0 <= j - j0 < zlen b /\
  stores m me b (<[Z.to_nat (j - j0) := me]> b) /\
  macs (<[Z.to_nat (j - j0) := me]> b) = macs b ++ [m] /\ zlen (macs b) < zlen b.
Proof.
  intros Hm Hme. revert j0.
  induction b as [|e b IH]; intros j0 Hp Hf; [done|]. cbn in Hp, Hf.
  destruct (Z.eqb_spec (e_mac e) 0) as [E|E].
  - simplify_eq. rewrite Z.sub_diag. change (Z.to_nat 0) with 0%nat. cbn. rewrite E. cbn.
    split; [done|]. split; [zlen_simpl; pose proof (zlen_nonneg b); lia|].
    assert (Hne : (e_mac me =? 0) = false) by lia.
    split; [|rewrite !macs_cons, E, Hne, (macs_free b Hp); cbn; split; [done|]; rewrite zlen_cons;
      pose proof (zlen_nonneg b); change (zlen (@nil Z)) with 0; lia].
    repeat split.
    + cbn. rewrite Hne. destruct Hp; cbn; [done|]. by case_match; [|lia].
    + cbn. by rewrite Hne, Z.eqb_refl.
    + intros m' Hm'. cbn. rewrite Hne, E. cbn.
      destruct (Z.eqb_spec (e_mac me) m'); [congruence|]. by apply bucket_find_free.
  - destruct (Z.eqb_spec (e_mac e) m); [done|].
    destruct (IH _ Hp Hf) as (Hn & Hr & (Hl & Hpk & Hs & Ho) & Hmac & Hlt).
    replace (Z.to_nat (j - j0)) with (S (Z.to_nat (j - (j0 + 1)))) by lia.
    assert (E0 : (e_mac e =? 0) = false) by lia.
    assert (E1 : (e_mac e =? m) = false) by lia.
    split; [cbn; by rewrite E0, E1|]. split; [zlen_simpl; clear -Hr; lia|].
    split; [|change (<[S ?n := me]> (e :: b)) with (e :: <[n := me]> b); rewrite !macs_cons, E0; cbn [app]; rewrite Hmac, !zlen_cons; split; [done|lia]].
    split; [by rewrite zlen_insert|].
    repeat split; cbn; rewrite ?E0, ?E1; try done.
    intros m' Hm'. by rewrite Ho.
Qed.

Lemma find_slot_found m me b j0 j :
  m <> 0 -> e_mac me = m -> packed b -> find_slot m b j0 = Found j ->
  is_Some (bucket_find m b) /\ 0 <= j - j0 < zlen b /\
  stores m me b (<[Z.to_nat (j - j0) := me]> b) /\
  (e_mac <$> <[Z.to_nat (j - j0) := me]> b) = e_mac <$> b.
Proof.
  intros Hm Hme. revert j0.
  induction b as [|e b IH]; intros j0 Hp Hf; [done|]. cbn in Hp, Hf.
  destruct (Z.eqb_spec (e_mac e) 0) as [E|E]; [done|].
  assert (E0 : (e_mac e =? 0) = false) by lia.
  destruct (Z.eqb_spec (e_mac e) m) as [E1|E1].
  - simplify_eq. rewrite Z.sub_diag. change (Z.to_nat 0) with 0%nat. cbn. rewrite E0, E1, Z.eqb_refl.
    split; [eauto|]. split; [zlen_simpl; pose proof (zlen_nonneg b); lia|].
    split; [|done]. repeat split; cbn; rewrite ?E0, <- ?E1, ?E0, ?Z.eqb_refl; try done.
    intros m' Hm'. destruct (Z.eqb_spec (e_mac e) m'); [congruence|].
    done.
  - destruct (IH _ Hp Hf) as (Hn & Hr & (Hl & Hpk & Hs & Ho) & Hmacs).
    replace (Z.to_nat (j - j0)) with (S (Z.to_nat (j - (j0 + 1)))) by lia.
    assert (E1' : (e_mac e =? m) = false) by lia.
    split; [cbn; by rewrite E0, E1'|]. split; [zlen_simpl; clear -Hr; lia|].
    split; [|cbn; f_equal; done].
    split; [by rewrite zlen_insert|].
    repeat split; cbn; rewrite ?E0, ?E1'; try done.
    intros m' Hm'. by rewrite Ho.
Qed.

Lemma find_slot_full m b j0 :
  find_slot m b j0 = Full -> bucket_find m b = None /\ Forall (fun me => e_mac me <> 0) b.
Proof.
  revert j0. induction b as [|e b IH]; intros j0 H; [done|]. cbn in *.
  destruct (Z.eqb_spec (e_mac e) 0); [done|].
  destruct (Z.eqb_spec (e_mac e) m); [done|].
  destruct (IH _ H). auto.
Qed.

(** ** Tables refine finite maps *)

Definition nonempty (b : list mac_entry) : bool :=
  match b with me :: _ => negb (e_mac me =? 0) | [] => false end.

Fixpoint used_buckets (bs : list (list mac_entry)) : Z :=
  match bs with
  | [] => 0
  | b :: bs' => (if nonempty b then 1 else 0) + used_buckets bs'
  end.

Lemma used_buckets_insert bs i b b' :
  bs !! i = Some b ->
  used_buckets (<[i := b']> bs) =
  used_buckets bs - (if nonempty b then 1 else 0) + (if nonempty b' then 1 else 0).
Proof.
  revert i. induction bs as [|c bs IH]; intros [|i] H; simplify_eq/=.
  - lia.
  - rewrite (IH _ H). lia.
Qed.

Section refinement.
Context (bucket_index : Z -> Z) (nb : Z).
Hypothesis index_range : forall m, 0 <= bucket_index m < nb.

Definition table_find (t : hash_table) (m : Z) : option mac_entry :=
  b ← zget (buckets t) (bucket_index m); bucket_find m b.

(** Bucket [i] holds only addresses that belong there, each of them once. *)
Definition home (i : Z) (b : list mac_entry) : Prop :=
  Forall (fun m => bucket_index m = i) (macs b) /\ NoDup (macs b).

(** The table [t] holds exactly the mapping [M], with its statistics. *)
Record represents (t : hash_table) (M : gmap Z (Z * Z)) : Prop := {
  rep_len : zlen (buckets t) = nb;
  rep_packed : Forall (fun b => zlen b = BUCKET_SIZE /\ packed b) (buckets t);
  rep_find : forall m, m <> 0 ->
    (fun e => (e_port e, e_group e)) <$> table_find t m = M !! m;
  rep_zero : M !! 0 = None;
  rep_home : forall i b, zget (buckets t) i = Some b -> home i b;
  rep_entries : entries t = u32 (Z.of_nat (size M));
  rep_ubuckets : ubuckets t = u32 (used_buckets (buckets t)) }.

(** How many addresses of a mapping belong into the bucket of [m]. *)
Definition load (M : gmap Z (Z * Z)) (m : Z) : Z :=
  Z.of_nat (size (filter (fun kv : Z * (Z * Z) => bucket_index kv.1 = bucket_index m) M)).

Lemma rep_bucket t M m :
  represents t M -> exists b, zget (buckets t) (bucket_index m) = Some b /\
    zlen b = BUCKET_SIZE /\ packed b.
Proof.
  intros R. destruct (zget_is_Some (buckets t) (bucket_index m)) as [b Hb].
  { rewrite (rep_len _ _ R). apply index_range. }
  exists b. split; [done|]. pose proof (rep_packed _ _ R) as F.
  unfold zget in Hb. case_match; [done|].
  by apply (Forall_lookup_1 _ _ _ _ F Hb).
Qed.

Lemma load_macs t M m b :
  represents t M -> zget (buckets t) (bucket_index m) = Some b -> load M m = zlen (macs b).
Proof.
  intros R Hb. destruct (rep_bucket t M m R) as (b0 & Hb0 & _ & Hp). simplify_eq.
  destruct (rep_home _ _ R _ _ Hb) as [Hh Hn]. unfold load, zlen. f_equal.
  rewrite <- size_dom, <- (size_list_to_set (C := gset Z) (macs b)) by done. f_equal. apply set_eq. intros x.
  rewrite elem_of_list_to_set, elem_of_dom.
  assert (Hx : x <> 0 -> bucket_index x = bucket_index m -> (is_Some (M !! x) <-> x ∈ macs b)).
  { intros Hx Hi. rewrite <- (rep_find _ _ R x Hx). unfold table_find. rewrite Hi, Hb. cbn [mbind option_bind].
    rewrite fmap_is_Some. by apply bucket_find_macs. }
  split.
  - intros [pg Hl]. apply map_lookup_filter_Some in Hl as [HM Hi]. cbn in Hi.
    apply Hx; [|done|eauto]. intros ->. by rewrite (rep_zero _ _ R) in HM.
  - intros Hin. assert (Hx0 : x <> 0) by (unfold macs in Hin; by apply list_elem_of_filter in Hin as [? _]).
    pose proof (proj1 (Forall_forall _ _) Hh x Hin) as Hi. destruct (proj2 (Hx Hx0 Hi) Hin) as [pg HM].
    exists pg. by apply map_lookup_filter_Some.
Qed.

Lemma load_bound t M m : represents t M -> load M m <= BUCKET_SIZE.
Proof.
  intros R. destruct (rep_bucket t M m R) as (b & Hb & <- & _). rewrite (load_macs t M m b R Hb).
  unfold macs, zlen. pose proof (length_filter (fun m => m <> 0) (e_mac <$> b)) as H.
  rewrite length_fmap in H. lia.
Qed.

(** Replacing the bucket of [m] by one that stores [m]. *)
Lemma stored_find t m me b b' bs' m' :
  zget (buckets t) (bucket_index m) = Some b -> stores m me b b' ->
  zset (buckets t) (bucket_index m) b' = Some bs' ->
  forall u e o, table_find (HashTable u e o bs') m' =
    if decide (m' = m) then Some me else table_find t m'.
Proof.
  intros Hb (_ & _ & Hs & Ho) Hset u e o. unfold table_find. cbn [buckets].
  destruct (decide (bucket_index m' = bucket_index m)) as [Ei|Ei].
  - rewrite Ei, (zget_zset_eq _ _ _ _ Hset), Hb. cbn.
    case_decide; [by subst|by apply Ho].
  - rewrite (zget_zset_ne _ _ _ _ _ Hset) by done.
    rewrite decide_False by congruence. done.
Qed.

Lemma stored_represents t M m p g b b' bs' u e o :
  represents t M -> m <> 0 ->
  zget (buckets t) (bucket_index m) = Some b ->
  stores m (MacEntry m p g) b b' ->
  zset (buckets t) (bucket_index m) b' = Some bs' ->
  home (bucket_index m) b' ->
  e = u32 (Z.of_nat (size (<[m := (p, g)]> M))) ->
  u = u32 (used_buckets bs') ->
  represents (HashTable u e o bs') (<[m := (p, g)]> M).
Proof.
  intros R Hm Hb St Hset Hh -> ->. destruct (rep_bucket _ _ m R) as (b0 & Hb0 & Hl & Hp).
  simplify_eq. pose proof (zset_length _ _ _ _ Hset) as Hlen.
  split; cbn [buckets entries ubuckets]; try done.
  - by rewrite Hlen, (rep_len _ _ R).
  - apply zset_Some in Hset as [_ ->]. apply Forall_insert; [apply (rep_packed _ _ R)|].
    destruct St as (-> & ? & _). done.
  - intros m' Hm'. rewrite (stored_find _ _ _ _ _ _ m' Hb St Hset).
    case_decide as E.
    + subst. by rewrite lookup_insert_eq.
    + rewrite lookup_insert_ne by done. by apply (rep_find _ _ R).
  - rewrite lookup_insert_ne by done. apply (rep_zero _ _ R).
  - intros i c Hc. destruct (decide (i = bucket_index m)) as [->|Hi].
    + rewrite (zget_zset_eq _ _ _ _ Hset) in Hc. by injection Hc as <-.
    + rewrite (zget_zset_ne _ _ _ _ _ Hset) in Hc by done. by apply (rep_home _ _ R).
Qed.

Lemma nonempty_macs b b' : (e_mac <$> b) = e_mac <$> b' -> nonempty b = nonempty b'.
Proof. destruct b, b'; cbn; intros H; simplify_eq; [done|congruence]. Qed.

(** A free slot is slot 0 exactly in an empty bucket. *)
Lemma nonempty_free m me b j :
  find_slot m b 0 = Free j -> e_mac me <> 0 -> 0 <= j ->
  nonempty (<[Z.to_nat j := me]> b) = true /\ nonempty b = negb (j =? 0).
Proof.
  intros Hf Hme Hj. destruct b as [|e b]; [done|].
  destruct (Z.eqb_spec j 0) as [->|Hj0].
  - change (Z.to_nat 0) with 0%nat. cbn in *.
    destruct (Z.eqb_spec (e_mac e) 0); cbn.
    + split; [lia|done].
    + case_match; [done|]. exfalso. clear -Hf.
      assert (G : forall b k, 0 < k -> find_slot m b k <> Free 0).
      { clear. intros b. induction b as [|x b IH]; intros k Hk; cbn; [done|].
        repeat case_match; [intros [=]; lia|done|apply IH; lia]. }
      by apply (G b 1) in Hf.
  - replace (Z.to_nat j) with (S (Z.to_nat (j - 1))) by lia. cbn in *.
    destruct (Z.eqb_spec (e_mac e) 0); cbn; [simplify_eq|done].
Qed.

Lemma used_buckets_zset bs i b b' bs' :
  zget bs i = Some b -> zset bs i b' = Some bs' ->
  used_buckets bs' =
  used_buckets bs - (if nonempty b then 1 else 0) + (if nonempty b' then 1 else 0).
Proof.
  intros Hb [_ ->]%zset_Some. apply used_buckets_insert.
  unfold zget in Hb. by case_match.
Qed.

(** Inserting into a table that represents [M]: either the mapping is stored,
    or the bucket of the address is full of other addresses, the table keeps
    its contents and its overflow flag is raised. *)
Lemma insert_one_refines t M m p g :
  represents t M -> m <> 0 ->
  exists t', insert_one m p g (bucket_index m) t = Some t' /\
    ((represents t' (<[m := (p, g)]> M) /\ overflow t' = overflow t /\
      (M !! m = None -> load M m < BUCKET_SIZE)) \/
     (represents t' M /\ M !! m = None /\ load M m = BUCKET_SIZE /\ overflow t' = 1)).
Proof.
  intros R Hm. destruct (rep_bucket _ _ m R) as (b & Hb & Hl & Hp).
  pose proof (rep_find _ _ R m Hm) as Hf. unfold table_find in Hf. rewrite Hb in Hf.
  cbn in Hf. unfold insert_one. rewrite Hb. cbn [mbind option_bind].
  assert (Hbr : 0 <= bucket_index m < zlen (buckets t))
    by (rewrite (rep_len _ _ R); apply index_range).
  pose proof (load_macs t M m b R Hb) as Hload. destruct (rep_home _ _ R _ _ Hb) as [Hh1 Hh2].
  destruct (find_slot m b 0) as [j|j|] eqn:Es.
  - destruct (find_slot_free m (MacEntry m p g) b 0 j Hm eq_refl Hp Es) as (Hn & Hj & St & Hmac & Hlt).
    rewrite Z.sub_0_r in *. rewrite Hn in Hf. cbn in Hf.
    rewrite (proj2 (zset_Some b j (MacEntry m p g) _) (conj Hj eq_refl)). cbn [mbind option_bind].
    destruct (zset_is_Some (buckets t) (bucket_index m) (<[Z.to_nat j := MacEntry m p g]> b) Hbr)
      as [bs' Hset]. rewrite Hset. cbn [mbind option_bind].
    eexists. split; [done|]. left. split; [|split; [done|]].
    + destruct (nonempty_free m (MacEntry m p g) b j Es Hm ltac:(lia)) as [Hne1 Hne0].
      apply (stored_represents _ _ _ _ _ _ _ _ _ _ _ R Hm Hb St Hset).
      * unfold home. rewrite Hmac. split; [apply Forall_app; split; [done|by constructor]|].
        apply NoDup_app. split_and!; [done| |apply NoDup_singleton]. intros x Hx ->%list_elem_of_singleton.
        apply (bucket_find_macs m b Hp Hm) in Hx. rewrite Hn in Hx. by destruct Hx.
      * rewrite map_size_insert_None by done. rewrite (rep_entries _ _ R). width_lia.
      * rewrite (used_buckets_zset _ _ _ _ _ Hb Hset), Hne1, Hne0.
        rewrite (rep_ubuckets _ _ R). destruct (j =? 0); cbn [negb].
        -- width_lia.
        -- f_equal. lia.
    + intros _. lia.
  - destruct (find_slot_found m (MacEntry m p g) b 0 j Hm eq_refl Hp Es)
      as ([e He] & Hj & St & Hmacs).
    rewrite Z.sub_0_r in *. rewrite He in Hf. cbn in Hf.
    rewrite (proj2 (zset_Some b j (MacEntry m p g) _) (conj Hj eq_refl)). cbn [mbind option_bind].
    destruct (zset_is_Some (buckets t) (bucket_index m) (<[Z.to_nat j := MacEntry m p g]> b) Hbr)
      as [bs' Hset]. rewrite Hset. cbn [mbind option_bind].
    eexists. split; [done|]. left. split; [|split; [done|congruence]].
    apply (stored_represents _ _ _ _ _ _ _ _ _ _ _ R Hm Hb St Hset).
    + unfold home, macs in *. by rewrite Hmacs.
    + rewrite map_size_insert_Some by (rewrite <- Hf; eauto). apply (rep_entries _ _ R).
    + rewrite (used_buckets_zset _ _ _ _ _ Hb Hset), (nonempty_macs _ _ Hmacs).
      rewrite (rep_ubuckets _ _ R). f_equal. lia.
  - destruct (find_slot_full _ _ _ Es) as [Hn Hall]. rewrite Hn in Hf.
    eexists. split; [done|]. right. rewrite Hload, macs_full by done. split; [|by split_and!].
    destruct R as [R1 R2 R3 R4 R5 R6 R7]. by split.
Qed.

(** ** One table *)

(** The abstract table: its mappings and whether one was ever dropped. *)
Record spec_table := SpecTable { contents : gmap Z (Z * Z); lost : bool }.

(** A new address is dropped exactly when its bucket is full. *)
Definition spec_learn (m p g : Z) (s : spec_table) : spec_table :=
  if bool_decide (is_Some (contents s !! m)) || (load (contents s) m <? BUCKET_SIZE) then
    SpecTable (<[m := (p, g)]> (contents s)) (lost s)
  else SpecTable (contents s) true.

Definition simulates (t : hash_table) (s : spec_table) : Prop :=
  represents t (contents s) /\ overflow t = (if lost s then 1 else 0) /\
  map_Forall (fun _ pg => pg.1 <> 0) (contents s).

Lemma simulates_new : simulates (new_table (Z.to_nat nb)) (SpecTable ∅ false).
Proof.
  pose proof (index_range 0) as Hnb.
  assert (Hl : zlen (replicate (Z.to_nat nb) (replicate 6 zero_entry)) = nb).
  { unfold zlen. rewrite length_replicate. lia. }
  assert (Hb : forall i b, zget (buckets (new_table (Z.to_nat nb))) i = Some b -> b = replicate 6 zero_entry).
  { intros i b. unfold zget. case_match; [done|]. cbn [buckets new_table]. by intros [-> _]%lookup_replicate. }
  split; [split; cbn [buckets contents]|split; [done|by apply map_Forall_empty]]; try done.
  - apply Forall_replicate. split; [done|]. cbn. by repeat constructor.
  - intros m Hm. unfold table_find. rewrite lookup_empty.
    destruct (zget _ _) as [b|] eqn:E; [|done]. by rewrite (Hb _ _ E).
  - intros i b ->%Hb. split; [constructor|apply NoDup_nil_2].
  - cbn [new_table ubuckets buckets].
    assert (E : forall n, used_buckets (replicate n (replicate 6 zero_entry)) = 0)
      by (induction n as [|n IH]; [done|exact IH]).
    symmetry. exact (f_equal u32 (E (Z.to_nat nb))).
Qed.

Lemma clear_simulates t s : simulates t s -> clear t = new_table (Z.to_nat nb).
Proof.
  intros [R _]. unfold clear. f_equal. rewrite <- (rep_len _ _ R). unfold zlen. lia.
Qed.

Lemma insert_one_simulates t s m p g :
  simulates t s -> m <> 0 -> p <> 0 ->
  exists t', insert_one m p g (bucket_index m) t = Some t' /\ simulates t' (spec_learn m p g s).
Proof.
  intros (R & Ho & Hp) Hm Hp0. destruct s as [M l]. unfold spec_learn. cbn [contents lost] in *.
  destruct (insert_one_refines t M m p g R Hm) as (t' & Ht & [(R' & O & Hl)|(R' & Hn & Hl & O)]); exists t'.
  - replace (_ || _) with true.
    { split; [done|]. split; [done|]. split; [by rewrite O|]. by apply map_Forall_insert_2. }
    destruct (M !! m); [done|]. specialize (Hl eq_refl). cbn. lia.
  - rewrite Hn, Hl. done.
Qed.

(** *** What the iterator yields *)

Lemma iterate_macs b : packed b -> e_mac <$> iterate_bucket b = macs b.
Proof.
  induction b as [|me b IH]; intros Hp; [done|]. rewrite macs_cons. cbn [iterate_bucket packed] in *.
  destruct (Z.eqb_spec (e_mac me) 0); [by rewrite macs_free|]. cbn. by rewrite IH.
Qed.

Lemma iterate_find b me : packed b -> NoDup (macs b) -> me ∈ iterate_bucket b -> bucket_find (e_mac me) b = Some me.
Proof.
  induction b as [|e b IH]; intros Hp Hn Hin; [by apply not_elem_of_nil in Hin|]. rewrite macs_cons in Hn.
  cbn [iterate_bucket bucket_find packed] in *. destruct (Z.eqb_spec (e_mac e) 0); [by apply not_elem_of_nil in Hin|].
  cbn [app] in Hn. apply NoDup_cons in Hn as [Hni Hn]. apply elem_of_cons in Hin as [->|Hin]; [by rewrite Z.eqb_refl|].
  destruct (Z.eqb_spec (e_mac e) (e_mac me)) as [E|]; [|by apply IH].
  destruct Hni. rewrite E, <- iterate_macs by done. by apply list_elem_of_fmap_2.
Qed.

Lemma buckets_nodup (bs : list (list mac_entry)) : forall i0,
  (forall i b, zget bs i = Some b -> home (i0 + i) b) -> NoDup (bs ≫= macs).
Proof.
  induction bs as [|b bs IH]; intros i0 Hh; [apply NoDup_nil_2|]. cbn.
  assert (Htl : forall i c, zget bs i = Some c -> home (i0 + 1 + i) c).
  { intros i c Hc. pose proof (zget_Some_range _ _ _ Hc) as Hr. replace (i0 + 1 + i) with (i0 + (i + 1)) by lia.
    apply Hh. unfold zget in *. destruct (Z.ltb_spec i 0); [lia|]. destruct (Z.ltb_spec (i + 1) 0); [lia|].
    by replace (Z.to_nat (i + 1)) with (S (Z.to_nat i)) by lia. }
  destruct (Hh 0 b eq_refl) as [Hb1 Hb2]. apply NoDup_app. split_and!; [done| |by apply (IH (i0 + 1))].
  intros m Hm Hin. apply list_elem_of_bind in Hin as (c & Hc & Hin).
  apply list_elem_of_lookup in Hin as [k Hk].
  destruct (Htl (Z.of_nat k) c) as [Hc1 _].
  { unfold zget. destruct (Z.ltb_spec (Z.of_nat k) 0); [lia|]. by rewrite Nat2Z.id. }
  pose proof (proj1 (Forall_forall _ _) Hb1 m Hm) as E1. pose proof (proj1 (Forall_forall _ _) Hc1 m Hc) as E2.
  cbn beta in E1, E2. lia.
Qed.

Lemma zget_elem {A} (l : list A) x : x ∈ l <-> exists i, zget l i = Some x.
Proof.
  unfold zget. split.
  - intros [k Hk]%list_elem_of_lookup. exists (Z.of_nat k). destruct (Z.ltb_spec (Z.of_nat k) 0); [lia|]. by rewrite Nat2Z.id.
  - intros [i Hi]. case_match; [done|]. by eapply list_elem_of_lookup_2.
Qed.

(** Every mapping once. *)
Lemma iterate_represents t M : represents t M ->
  NoDup (e_mac <$> iterate t) /\
  (forall me, me ∈ iterate t -> e_mac me <> 0 /\ M !! e_mac me = Some (e_port me, e_group me)) /\
  (forall m, is_Some (M !! m) -> m ∈ e_mac <$> iterate t).
Proof.
  intros R. unfold iterate. assert (E : forall bs, Forall (fun b => zlen b = BUCKET_SIZE /\ packed b) bs ->
    e_mac <$> (bs ≫= iterate_bucket) = bs ≫= macs).
  { induction 1 as [|b bs [_ Hp] _ IH]; [done|]. cbn. by rewrite fmap_app, iterate_macs, <- IH. }
  rewrite (E _ (rep_packed _ _ R)). split_and!.
  - apply (buckets_nodup (buckets t) 0). intros i b. apply (rep_home _ _ R).
  - intros me (b & Hme & Hb)%list_elem_of_bind. destruct (proj1 (zget_elem _ _) Hb) as [i Hi].
    destruct (proj1 (Forall_forall _ _) (rep_packed _ _ R) b Hb) as [_ Hp].
    destruct (rep_home _ _ R i b Hi) as [H1 H2]. pose proof (iterate_find b me Hp H2 Hme) as Hf.
    destruct (bucket_find_elem _ _ _ Hf) as (_ & _ & H0). split; [done|].
    rewrite <- (rep_find _ _ R _ H0). unfold table_find.
    rewrite (proj1 (Forall_forall _ _) H1 (e_mac me)), Hi by (by rewrite <- iterate_macs by done; apply list_elem_of_fmap_2).
    cbn. by rewrite Hf.
  - intros m Hm. assert (H0 : m <> 0) by (intros ->; rewrite (rep_zero _ _ R) in Hm; by destruct Hm).
    destruct (rep_bucket _ _ m R) as (b & Hb & _ & Hp). rewrite <- (rep_find _ _ R m H0) in Hm.
    unfold table_find in Hm. rewrite Hb in Hm. cbn in Hm. apply fmap_is_Some in Hm.
    apply list_elem_of_bind. exists b. split; [by apply bucket_find_macs|]. apply zget_elem. eauto.
Qed.
End refinement.

(** ** The whole table *)

Section object.
Context (hash : Z -> Z) (ceil_log2 : Z -> Z) (resize_max : Z) (copy_on_resize : bool).

(** The bucket of an address when there are [nb] of them. *)
Definition bucket_index (nb m : Z) : Z := Z.land (hash m) (nb - 1).

Abbreviation nb_of := (buckets_from_size ceil_log2).

(** What the bridge does: addresses other than 00:00:00:00:00:00, port
    handles from 1. *)
Definition valid_op (o : op) : Prop :=
  match o with Learn m p _ => m <> 0 /\ p <> 0 | Timeout => True end.

(** The abstract object: the target size and the two mappings. *)
Record spec_state := Spec { sp_size : Z; sp_main : spec_table; sp_shadow : spec_table }.

(** The target sizes that are tried, and when one will do: it is the largest
    one allowed, or it takes all entries and at least doubles the buckets. *)
Definition candidate (size : Z) (k : nat) : Z := Z.min (size * 2 ^ Z.of_nat k) resize_max.
Definition large_enough (size n : Z) (k : nat) : Prop :=
  resize_max <= candidate size k \/
  (2 * nb_of size <= nb_of (candidate size k) /\ n <= candidate size k).
Definition spec_grow (size n size' : Z) : Prop :=
  exists k, size' = candidate size k /\ large_enough size n k /\ forall j, (j < k)%nat -> ~ large_enough size n j.

(** The main table is too small for what the last interval brought. *)
Definition too_small (s : spec_state) : bool :=
  lost (sp_main s) || (sp_size s <? u32 (Z.of_nat (size (contents (sp_main s))))).

Definition spec_empty : spec_table := SpecTable ∅ false.

Inductive spec_step : spec_state -> op -> spec_state -> Prop :=
| spec_Learn m p g size s0 s1 :
    spec_step (Spec size s0 s1) (Learn m p g)
      (Spec size (spec_learn (bucket_index (nb_of size)) m p g s0) (spec_learn (bucket_index (nb_of size)) m p g s1))
| spec_Rotate size s0 s1 :
    too_small (Spec size s0 s1) = false ->
    spec_step (Spec size s0 s1) Timeout (Spec size s1 spec_empty)
| spec_Limit size s0 s1 size' :
    too_small (Spec size s0 s1) = true ->
    spec_grow size (u32 (Z.of_nat (base.size (contents s0)))) size' -> nb_of size' = nb_of size ->
    spec_step (Spec size s0 s1) Timeout (Spec size' s1 spec_empty)
| spec_Resize size s0 s1 size' :
    too_small (Spec size s0 s1) = true ->
    spec_grow size (u32 (Z.of_nat (base.size (contents s0)))) size' -> nb_of size' <> nb_of size ->
    spec_step (Spec size s0 s1) Timeout
      (Spec size' (if copy_on_resize then SpecTable (contents s1) false else spec_empty) spec_empty).

Inductive spec_run : spec_state -> list op -> spec_state -> Prop :=
| spec_run_nil s : spec_run s [] s
| spec_run_cons s s' s'' o ops :
    spec_step s o s' -> spec_run s' ops s'' -> spec_run s (o :: ops) s''.

(** *** Simulation *)

Hypothesis log_nonneg : forall s, 0 <= ceil_log2 s.
Hypothesis log_mono : forall s s', 0 < s <= s' -> ceil_log2 s <= ceil_log2 s'.
Hypothesis max_pos : 0 < resize_max.

Lemma index_mod s m : bucket_index (nb_of s) m = hash m mod nb_of s.
Proof using log_nonneg.
  unfold bucket_index, buckets_from_size. rewrite Z.sub_1_r, <- Z.ones_equiv.
  by rewrite Z.land_ones.
Qed.

Lemma nb_pos s : 0 < nb_of s.
Proof using log_nonneg. apply Z.pow_pos_nonneg; [lia|done]. Qed.

Lemma index_range s m : 0 <= bucket_index (nb_of s) m < nb_of s.
Proof using log_nonneg. rewrite index_mod. apply Z.mod_pos_bound, nb_pos. Qed.

(** Addresses that share a bucket after a resize shared one before. *)
Lemma index_coarser s s' m m' : 0 < s <= s' ->
  bucket_index (nb_of s') m = bucket_index (nb_of s') m' -> bucket_index (nb_of s) m = bucket_index (nb_of s) m'.
Proof using log_nonneg log_mono.
  intros Hs. rewrite !index_mod. pose proof (nb_pos s). pose proof (nb_pos s').
  assert (Hd : (nb_of s | nb_of s')).
  { exists (2 ^ (ceil_log2 s' - ceil_log2 s)). unfold buckets_from_size.
    pose proof (log_mono s s' Hs). pose proof (log_nonneg s). rewrite <- Z.pow_add_r by lia. f_equal. lia. }
  intros E. rewrite <- (Z.mod_mod_divide (hash m) (nb_of s') (nb_of s) Hd), E. by apply Z.mod_mod_divide.
Qed.

Definition simulates_mt (t : mac_table) (s : spec_state) : Prop :=
  m_size t = sp_size s /\ 0 < m_size t <= resize_max /\
  m_buckets t = nb_of (m_size t) /\ m_mask t = m_buckets t - 1 /\
  simulates (bucket_index (m_buckets t)) (m_buckets t) (m_tables t).1 (sp_main s) /\
  simulates (bucket_index (m_buckets t)) (m_buckets t) (m_tables t).2 (sp_shadow s).

Lemma simulates_fresh size : 0 < size <= resize_max ->
  simulates_mt (MacTab size (nb_of size) (nb_of size - 1) (alloc_tables (nb_of size))) (Spec size spec_empty spec_empty).
Proof using log_nonneg.
  intros Hs. pose proof (simulates_new _ _ (index_range size)). unfold simulates_mt. cbn. split_and!; done || lia.
Qed.

Lemma insert_simulates t size s0 s1 m p g :
  simulates_mt t (Spec size s0 s1) -> m <> 0 -> p <> 0 ->
  exists t', insert hash m p g t = Some t' /\
    simulates_mt t' (Spec size (spec_learn (bucket_index (nb_of size)) m p g s0)
                               (spec_learn (bucket_index (nb_of size)) m p g s1)).
Proof using log_nonneg.
  intros (Hs & Hr & Hb & Hk & H0 & H1) Hm Hp. destruct t as [sz nb mask [t0 t1]]. cbn in *. subst.
  destruct (insert_one_simulates _ _ (index_range size) t0 s0 m p g H0 Hm Hp) as (t0' & E0 & S0).
  destruct (insert_one_simulates _ _ (index_range size) t1 s1 m p g H1 Hm Hp) as (t1' & E1 & S1).
  unfold insert, mac_table_insert. cbn [m_mask m_tables fst snd]. unfold bucket_index in E0, E1. rewrite E0. cbn [mbind option_bind].
  rewrite E1. cbn [mbind option_bind]. eexists. split; [done|]. unfold simulates_mt. cbn. split_and!; done || lia.
Qed.

(** *** Resizing *)

Lemma candidate_S size k : 0 < size -> candidate size k < resize_max ->
  candidate size (S k) = (if resize_max <? candidate size k * 2 then resize_max else candidate size k * 2).
Proof.
  unfold candidate. intros Hs Hk. rewrite Nat2Z.inj_succ, Z.pow_succ_r by lia.
  destruct (Z.min_spec (size * 2 ^ Z.of_nat k) resize_max) as [[_ E]|[? E]]; rewrite E in *; [|lia].
  destruct (Z.ltb_spec resize_max (size * 2 ^ Z.of_nat k * 2)); lia.
Qed.

Lemma grow_spec size n : 0 < size -> forall fuel k,
  resize_max - candidate size k <= Z.of_nat fuel -> (forall j, (j < k)%nat -> ~ large_enough size n j) ->
  exists size', grow ceil_log2 resize_max fuel (nb_of size) n (candidate size k) (nb_of (candidate size k)) =
      Some (size', nb_of size') /\ spec_grow size n size'.
Proof using max_pos.
  intros Hs. induction fuel as [|fuel IH]; intros k Hf Hk; cbn [grow].
  all: destruct (Z.ltb_spec (candidate size k) resize_max) as [Hlt|Hge]; rewrite ?andb_false_r, ?andb_true_r; try lia.
  all: try (eexists; split; [done|]; exists k; split_and!; [done|by left|done]).
  destruct (_ || _) eqn:E.
  - rewrite <- candidate_S by done. apply IH.
    + rewrite candidate_S by done.
      assert (0 < candidate size k) by (unfold candidate; pose proof (Z.pow_pos_nonneg 2 (Z.of_nat k)); nia).
      clear -H Hf Hlt. destruct (Z.ltb_spec resize_max (candidate size k * 2)); lia.
    + intros j Hj. destruct (decide (j = k)) as [->|]; [|apply Hk; lia].
      unfold large_enough. apply orb_true_iff in E. lia.
  - eexists. split; [done|]. exists k. split_and!; [done|right|done]. apply orb_false_iff in E. lia.
Qed.

Lemma spec_grow_range size n size' : 0 < size <= resize_max -> spec_grow size n size' -> size <= size' <= resize_max.
Proof. intros Hs (k & -> & _). unfold candidate. pose proof (Z.pow_pos_nonneg 2 (Z.of_nat k)). nia. Qed.

(** Copying the mapping [M], of which [l] is left, into the new tables: no
    bucket overflows. *)
Lemma insert_all_simulates size size' M (Hs : 0 < size <= size')
    (Hload : forall m, load (bucket_index (nb_of size)) M m <= BUCKET_SIZE)
    (HM : map_Forall (fun _ pg => pg.1 <> 0) M) l : forall t N,
  simulates_mt t (Spec size' (SpecTable N false) (SpecTable N false)) ->
  NoDup (e_mac <$> l) ->
  (forall me, me ∈ l -> e_mac me <> 0 /\ M !! e_mac me = Some (e_port me, e_group me)) ->
  (forall m, N !! m = if decide (m ∈ e_mac <$> l) then None else M !! m) ->
  exists t', insert_all hash l t = Some t' /\
    simulates_mt t' (Spec size' (SpecTable M false) (SpecTable M false)).
Proof using log_nonneg log_mono.
  induction l as [|me l IH]; intros t N Ht Hn Hl HN; cbn [insert_all].
  { exists t. split; [done|]. assert (N = M) as <-; [|done]. apply map_eq. intros m. by rewrite HN. }
  rewrite fmap_cons in *. apply NoDup_cons in Hn as [Hni Hn].
  destruct (Hl me) as [H0 Hme]; [left|].
  destruct (insert_simulates t _ _ _ (e_mac me) (e_port me) (e_group me) Ht H0 (HM _ _ Hme)) as (t' & -> & Ht').
  cbn [mbind option_bind].
  assert (Hlt : load (bucket_index (nb_of size')) N (e_mac me) < BUCKET_SIZE).
  { eapply Z.lt_le_trans; [|apply (Hload (e_mac me))]. apply Nat2Z.inj_lt, map_subset_size. split.
    - apply map_subseteq_spec. intros m pg [HNm Hi]%map_lookup_filter_Some. apply map_lookup_filter_Some.
      rewrite HN in HNm. case_decide; [done|]. split; [done|]. by eapply index_coarser.
    - intros Hsub. assert (Hin : filter (fun kv : Z * (Z * Z) => bucket_index (nb_of size) kv.1 =
        bucket_index (nb_of size) (e_mac me)) M !! e_mac me = Some (e_port me, e_group me))
        by (by apply map_lookup_filter_Some).
      eapply lookup_weaken in Hin; [|exact Hsub]. apply map_lookup_filter_Some in Hin as [Hin _].
      rewrite HN, decide_True in Hin by left. done. }
  unfold spec_learn in Ht'. cbn [contents lost] in Ht'.
  replace (_ || _) with true in Ht' by (symmetry; apply orb_true_iff; right; lia).
  apply (IH t' _ Ht'); [done|by intros me' Hin; apply Hl; right|].
  intros m. destruct (decide (m = e_mac me)) as [->|Hne].
  - rewrite lookup_insert_eq. by rewrite decide_False.
  - rewrite lookup_insert_ne, HN by done. destruct (decide (m ∈ e_mac <$> l)) as [Hin|Hin].
    + by rewrite decide_True by (by right).
    + rewrite decide_False; [done|]. by intros [?|?]%elem_of_cons.
Qed.

Lemma timeout_simulates t s : simulates_mt t s ->
  exists t' s', timeout hash ceil_log2 resize_max copy_on_resize t = Some t' /\
    simulates_mt t' s' /\ spec_step s Timeout s'.
Proof using log_nonneg log_mono max_pos.
  intros Ht. pose proof Ht as (Hs & Hr & Hb & Hk & H0 & H1).
  destruct t as [sz nb mask [t0 t1]], s as [size s0 s1]. cbn in Hs, Hr, Hb, Hk, H0, H1. subst.
  unfold timeout, maybe_resize. cbn [m_tables m_size m_buckets m_mask fst snd].
  assert (E : overflow_p t0 || (size <? entries t0) = too_small (Spec size s0 s1)).
  { destruct H0 as (R & Ho & _). unfold overflow_p, too_small. cbn [sp_main sp_size].
    rewrite Ho, (rep_entries _ _ _ _ R). by destruct (lost s0). }
  assert (Hrot : forall size', 0 < size' <= resize_max -> nb_of size' = nb_of size ->
    simulates_mt (MacTab size' (nb_of size) (nb_of size - 1) (t1, clear t0)) (Spec size' s1 spec_empty)).
  { intros size' Hr' En. unfold simulates_mt. cbn. split_and!; try done; try lia.
    rewrite (clear_simulates _ _ _ _ H0). apply simulates_new, index_range. }
  rewrite E. destruct (too_small _) eqn:Et; cbn [negb].
  2: { cbn [mbind option_bind]. eexists _, _. split; [done|]. split; [by apply Hrot|by apply spec_Rotate]. }
  pose proof H0 as (R0 & _ & _). pose proof (rep_entries _ _ _ _ R0) as En.
  assert (Hc0 : candidate size 0 = size) by (unfold candidate; change (2 ^ Z.of_nat 0) with 1; lia).
  destruct (grow_spec size (entries t0) ltac:(lia) (Z.to_nat (resize_max - size)) 0) as (size' & Eg & Hg);
    [rewrite Hc0; lia|intros j Hj; lia|]. rewrite Hc0 in Eg. rewrite Eg. cbn [mbind option_bind].
  rewrite En in Hg. pose proof (spec_grow_range size _ size' ltac:(lia) Hg) as Hr'.
  destruct (Z.eqb_spec (nb_of size') (nb_of size)) as [Eb|Eb].
  { cbn. eexists _, _. split; [done|]. split; [by apply Hrot; [lia|]|by eapply spec_Limit]. }
  destruct copy_on_resize eqn:Ecp; cbn [mbind option_bind andb negb].
  - pose proof H1 as (R1 & _ & P1). destruct (iterate_represents _ _ (index_range size) t1 _ R1) as (I1 & I2 & I3).
    destruct (insert_all_simulates size size' (contents s1) ltac:(lia)
      (fun m => load_bound _ _ (index_range size) t1 _ m R1) P1 (iterate t1) _ ∅ (simulates_fresh size' ltac:(lia)) I1 I2)
      as (t' & -> & Ht').
    { intros m. rewrite lookup_empty. case_decide as Hin; [done|]. destruct (contents s1 !! m) eqn:Em; [|done].
      destruct Hin. apply I3. rewrite Em. eauto. }
    cbn [mbind option_bind]. destruct Ht' as (F1 & F2 & F3 & F4 & F5 & F6).
    destruct t' as [sz' nb' mask' [m' sh']]. cbn in *. subst.
    eexists _, _. split; [done|]. split; [|by eapply spec_Resize]. rewrite ?Ecp. unfold simulates_mt. cbn. split_and!; try (done || lia).
    rewrite (clear_simulates _ _ _ _ F5). apply simulates_new, index_range.
  - eexists _, _. split; [done|]. split; [|by eapply spec_Resize]. rewrite Ecp. apply simulates_fresh. lia.
Qed.

Lemma step_simulates t s o : simulates_mt t s -> valid_op o ->
  exists t' s', step hash ceil_log2 resize_max copy_on_resize t o = Some t' /\ simulates_mt t' s' /\ spec_step s o s'.
Proof using log_nonneg log_mono max_pos.
  intros Ht Hv. destruct o as [m p g|]; [|by apply timeout_simulates]. destruct Hv, s as [size s0 s1].
  destruct (insert_simulates t size s0 s1 m p g Ht) as (t' & E & Ht'); [done|done|].
  eexists _, _. split; [exact E|]. split; [exact Ht'|constructor].
Qed.

Lemma run_simulates ops : forall t s, simulates_mt t s -> Forall valid_op ops ->
  exists t' s', run hash ceil_log2 resize_max copy_on_resize t ops = Some t' /\ simulates_mt t' s' /\ spec_run s ops s'.
Proof using log_nonneg log_mono max_pos.
  induction ops as [|o ops IH]; intros t s Hs Hv.
  - exists t, s. split; [done|]. split; [done|constructor].
  - apply Forall_cons in Hv as [Ho Hv].
    destruct (step_simulates t s o Hs Ho) as (t1 & s1 & E & S1 & St).
    destruct (IH _ _ S1 Hv) as (t2 & s2 & E2 & S2 & R2).
    exists t2, s2. cbn. rewrite E. cbn. split; [done|]. split; [done|].
    econstructor; eassumption.
Qed.

Lemma lookup_simulates t s m r : simulates_mt t s -> m <> 0 ->
  exists r', lookup hash m t r = Some (contents (sp_main s) !! m, r').
Proof using log_nonneg.
  intros (Hs & Hr & Hb & Hk & (R & _ & Hp) & _) Hm. rewrite Hb in Hk, R.
  destruct (rep_bucket _ _ (index_range (m_size t)) _ _ m R) as (b & Hgb & _).
  pose proof (rep_find _ _ _ _ R m Hm) as Hf. unfold table_find in Hf. rewrite Hgb in Hf.
  cbn in Hf. unfold lookup. rewrite Hk. unfold bucket_index in Hgb. rewrite Hgb. cbn [mbind option_bind].
  unfold mac_table_lookup. destruct (bucket_find m b) as [e|]; cbn in *.
  - symmetry in Hf. pose proof (Hp m _ Hf) as Hp0. cbn in Hp0.
    destruct (Z.eqb_spec (e_port e) 0); [done|]. rewrite Hf. eauto.
  - rewrite <- Hf. eauto.
Qed.

(** ** Ageing *)

Fixpoint timeouts (ops : list op) : nat :=
  match ops with
  | [] => 0
  | Timeout :: ops' => S (timeouts ops')
  | Learn _ _ _ :: ops' => timeouts ops'
  end.

Definition other_than (m : Z) (o : op) : Prop :=
  match o with Learn m' _ _ => m' <> m | Timeout => True end.

Lemma spec_learn_other idx m m' p g s :
  m' <> m -> contents (spec_learn idx m' p g s) !! m = contents s !! m.
Proof. intros Hne. unfold spec_learn. destruct (_ || _); cbn; [by rewrite lookup_insert_ne|done]. Qed.

(** While [m] is not learned again, a timeout moves what the shadow table
    knows of it to the main table, also when it resizes the tables. *)
Lemma spec_run_other m ops s s' : copy_on_resize = true ->
  spec_run s ops s' -> Forall (other_than m) ops ->
  contents (sp_main s') !! m =
    match timeouts ops with
    | O => contents (sp_main s) !! m | S O => contents (sp_shadow s) !! m | _ => None
    end /\
  contents (sp_shadow s') !! m = match timeouts ops with O => contents (sp_shadow s) !! m | _ => None end.
Proof.
  intros Hc. induction 1 as [s|s s1 s2 o ops St _ IH]; intros Ho; [done|].
  apply Forall_cons in Ho as [Ho Hos]. destruct (IH Hos) as [IH1 IH2].
  rewrite IH1, IH2. destruct St; cbn [timeouts sp_main sp_shadow]; rewrite ?Hc.
  - by rewrite !spec_learn_other.
  - by destruct (timeouts ops) as [|[]].
  - by destruct (timeouts ops) as [|[]].
  - by destruct (timeouts ops) as [|[]].
Qed.

Lemma run_app ops1 ops2 t :
  run hash ceil_log2 resize_max copy_on_resize t (ops1 ++ ops2) =
  t' ← run hash ceil_log2 resize_max copy_on_resize t ops1; run hash ceil_log2 resize_max copy_on_resize t' ops2.
Proof.
  revert t. induction ops1 as [|o ops1 IH]; intros t; [done|]. cbn.
  destruct (step _ _ _ _ _); cbn; [apply IH|done].
Qed.
End object.

(** C29: The MAC table is a pair of finite maps.  Let the logarithm behind the
    number of buckets be rounded to a number that is not negative and grows
    with the size, and the configured sizes be positive integers.  From a new
    table, every sequence of timeouts and of learning addresses other than
    00:00:00:00:00:00 on ports other than 0 runs without leaving a bucket, and
    what it makes simulates the abstract state after the same sequence: an
    address is stored in both maps unless it is new and its bucket holds six
    others, which is recorded as an overflow; a timeout makes the shadow map
    the main map and the empty map the shadow map, and when the main map
    overflowed or has more entries than the target size it takes the first
    doubled target size that will do, with room for all addresses that are
    copied, or, without copying, starts from empty maps.  A lookup returns
    what the abstract main map holds. *)
Theorem mac_table_refines_map (hash ceil_log2 : Z -> Z) (resize_max : Z) (copy_on_resize : bool) (size : Z) (ops : list op)
    (Hlog : forall s, 0 <= ceil_log2 s) (Hmono : forall s s', 0 < s <= s' -> ceil_log2 s <= ceil_log2 s')
    (Hmax : 0 < resize_max) (Hsize : 0 < size) (Hops : Forall valid_op ops) :
  exists t s,
    run hash ceil_log2 resize_max copy_on_resize (new ceil_log2 resize_max size) ops = Some t /\
    spec_run hash ceil_log2 resize_max copy_on_resize (Spec (Z.min size resize_max) spec_empty spec_empty) ops s /\
    simulates_mt hash ceil_log2 resize_max t s /\
    forall m r, m <> 0 ->
      exists r', lookup hash m t r = Some (contents (sp_main s) !! m, r').
Proof.
  destruct (run_simulates hash ceil_log2 resize_max copy_on_resize Hlog Hmono Hmax ops
    (new ceil_log2 resize_max size) (Spec (Z.min size resize_max) spec_empty spec_empty)) as (t & s & E & Sm & R).
  { apply simulates_fresh; [done|lia]. }
  { done. }
  exists t, s. split_and!; try done. intros m r Hm. by eapply lookup_simulates.
Qed.

(** Seven addresses for one bucket of a table with target size 1: the last
    one is dropped, the timeout makes 16 buckets out of two and keeps the
    other six, and the last one is stored when it is learned again. *)
Lemma mac_table_refines_map_witness :
  let ops := (fun m => Learn m 1 0) <$> [2; 4; 6; 8; 10; 12; 14] in
  let go := run id (fun s => Z.log2_up (2 * s)) 8 true (new (fun s => Z.log2_up (2 * s)) 8 1) in
  (exists t s, go (ops ++ [Timeout; Learn 14 2 5]) = Some t /\
    spec_run id (fun s => Z.log2_up (2 * s)) 8 true (Spec 1 spec_empty spec_empty) (ops ++ [Timeout; Learn 14 2 5]) s /\
    simulates_mt id (fun s => Z.log2_up (2 * s)) 8 t s /\
    m_buckets t = 16 /\ contents (sp_main s) !! 14 = Some (2, 5) /\ contents (sp_main s) !! 12 = Some (1, 0)) /\
  (fun t => (m_buckets t, overflow (m_tables t).1, entries (m_tables t).1)) <$> go ops = Some (2, 1, 6).
Proof.
  intros ops go. split; [|vm_compute; reflexivity].
  destruct (mac_table_refines_map id (fun s => Z.log2_up (2 * s)) 8 true 1 (ops ++ [Timeout; Learn 14 2 5]))
    as (t & s & E & R & Sm & L).
  - intros s. apply Z.log2_up_nonneg.
  - intros s s' Hs. apply Z.log2_up_le_mono. lia.
  - lia.
  - lia.
  - repeat constructor; lia.
  - assert (Hl : forall m, m <> 0 -> (fun x => x.1) <$> (go (ops ++ [Timeout; Learn 14 2 5]) ≫= fun t => lookup id m t (LookupResult 0 0)) =
      Some (contents (sp_main s) !! m)).
    { intros m Hm. unfold go. rewrite E. cbn [mbind option_bind]. destruct (L m (LookupResult 0 0) Hm) as [r' ->]. done. }
    exists t, s. split_and!; [exact E|exact R|exact Sm| | |].
    + assert (Hb : m_buckets <$> go (ops ++ [Timeout; Learn 14 2 5]) = Some 16) by (vm_compute; reflexivity).
      unfold go in Hb. rewrite E in Hb. by injection Hb.
    + specialize (Hl 14 ltac:(lia)). vm_compute in Hl. by injection Hl.
    + specialize (Hl 12 ltac:(lia)). vm_compute in Hl. by injection Hl.
Defined.

(** once an address has been learned without overflow, a lookup returns
    its port and group through at most one timeout, and misses after two
    timeouts without the address being learned again, whether or not the
    timeouts resize the tables (which are then copied). *)
Theorem mac_table_ageing (hash ceil_log2 : Z -> Z) (resize_max size : Z) (before after : list op)
    (m p g : Z) (t : mac_table) (r : lookup_result)
    (Hlog : forall s, 0 <= ceil_log2 s) (Hmono : forall s s', 0 < s <= s' -> ceil_log2 s <= ceil_log2 s')
    (Hmax : 0 < resize_max) (Hsize : 0 < size)
    (Hb : Forall valid_op before) (Ha : Forall valid_op after)
    (Hm : m <> 0) (Hp : p <> 0) (Hother : Forall (other_than m) after) :
  run hash ceil_log2 resize_max true (new ceil_log2 resize_max size) (before ++ [Learn m p g]) = Some t ->
  overflow (m_tables t).1 = 0 -> overflow (m_tables t).2 = 0 ->
  exists t' r', run hash ceil_log2 resize_max true t after = Some t' /\
    lookup hash m t' r =
      Some (if (timeouts after <=? 1)%nat then Some (p, g) else None, r').
Proof.
  intros Hrun Ho0 Ho1. rewrite run_app in Hrun.
  destruct (run_simulates hash ceil_log2 resize_max true Hlog Hmono Hmax before
    (new ceil_log2 resize_max size) (Spec (Z.min size resize_max) spec_empty spec_empty)) as (t1 & s & E & Sm & _).
  { apply simulates_fresh; [done|lia]. }
  { done. }
  rewrite E in Hrun. cbn [mbind option_bind run step] in Hrun. destruct s as [sz s0 s1].
  destruct (insert_simulates hash ceil_log2 resize_max Hlog t1 sz s0 s1 m p g Sm Hm Hp) as (t2 & E1 & Sm1).
  rewrite E1 in Hrun. cbn in Hrun. injection Hrun as <-.
  destruct (run_simulates hash ceil_log2 resize_max true Hlog Hmono Hmax after _ _ Sm1 Ha) as (t3 & s3 & E2 & Sm2 & R2).
  destruct (lookup_simulates hash ceil_log2 resize_max Hlog t3 s3 m r Sm2 Hm) as [r' Hl].
  exists t3, r'. split; [done|]. rewrite Hl. do 2 f_equal.
  rewrite (proj1 (spec_run_other _ _ _ _ m after _ _ eq_refl R2 Hother)).
  destruct Sm1 as (_ & _ & _ & _ & (_ & O0 & _) & (_ & O1 & _)). cbn [sp_main sp_shadow] in *.
  assert (Hin : forall idx s', (if lost (spec_learn idx m p g s') then 1 else 0) = 0 ->
    contents (spec_learn idx m p g s') !! m = Some (p, g)).
  { intros idx s'. unfold spec_learn. destruct (_ || _); cbn; [by rewrite lookup_insert_eq|done]. }
  rewrite !Hin by congruence. by destruct (timeouts after) as [|[]].
Qed.

Lemma mac_table_ageing_witness :
  exists t t' r',
    run id (fun s => Z.log2_up (2 * s)) 8 true (new (fun s => Z.log2_up (2 * s)) 8 1) ([Learn 34 2 5] ++ [Learn 17 1 7]) = Some t /\
    run id (fun s => Z.log2_up (2 * s)) 8 true t [Timeout; Learn 34 3 5; Timeout] = Some t' /\
    lookup id 17 t' (LookupResult 0 0) = Some (None, r').
Proof.
  eexists _.
  destruct (mac_table_ageing id (fun s => Z.log2_up (2 * s)) 8 1 [Learn 34 2 5]
              [Timeout; Learn 34 3 5; Timeout] 17 1 7 _ (LookupResult 0 0)
              ltac:(intros s; apply Z.log2_up_nonneg)
              ltac:(intros s s' Hs; apply Z.log2_up_le_mono; lia) ltac:(lia) ltac:(lia)
              ltac:(repeat constructor; lia) ltac:(repeat constructor; lia)
              ltac:(lia) ltac:(lia) ltac:(repeat constructor; cbn; lia)
              eq_refl eq_refl eq_refl) as (ts & r' & H1 & H2).
  exists ts, r'. split; [vm_compute; reflexivity|]. split; [exact H1|exact H2].
Defined.

(** ** The packet forwarding tables *)

(** Port lists live in a heap of their own and are named by their index:
    [plist] is a pointer, and the unicast branch writes through it. *)
Record port_list := PortList { pl_length : Z; pl_ports : list Z }.
Record pft_entry := PftEntry { pfe_p : Z; pfe_plist : Z }.
Record pft := Pft { pft_length : Z; pft_entries : list pft_entry }.

Record fwd := Fwd { ucast : pft; flood : pft; discard : pft; plists : list port_list }.

(** [pfe->p = p] and [pft->length++] at the next free entry, with the entry's
    list pointer replaced when [pl] is given. *)
Definition pft_push (t : pft) (p : Z) (pl : option Z) : option pft :=
  e ← zget (pft_entries t) (pft_length t);
  es ← zset (pft_entries t) (pft_length t)
         (PftEntry p (match pl with Some x => x | None => pfe_plist e end));
  Some (Pft (u16 (pft_length t + 1)) es).

(** [pfe->plist->ports[0] = port] for the next free entry of [t]. *)
Definition set_port0 (t : pft) (heap : list port_list) (port : Z) : option (list port_list) :=
  e ← zget (pft_entries t) (pft_length t);
  l ← zget heap (pfe_plist e);
  ports ← zset (pl_ports l) 0 port;
  zset heap (pfe_plist e) (PortList (pl_length l) ports).

Definition mac_table_lookup_pft (mac : Z) (bucket : list mac_entry) (port group p : Z)
    (f : fwd) (flood_pl : Z) : option fwd :=
  match bucket_find mac bucket with
  | Some me =>
      if (negb (group =? 0) && (group =? e_group me)) || (port =? e_port me) then
        t ← pft_push (discard f) p None;
        Some (Fwd (ucast f) (flood f) t (plists f))
      else
        heap ← set_port0 (ucast f) (plists f) (e_port me);
        t ← pft_push (ucast f) p None;
        Some (Fwd t (flood f) (discard f) heap)
  | None =>
      t ← pft_push (flood f) p (Some flood_pl);
      Some (Fwd (ucast f) t (discard f) (plists f))
  end.

(** ** What the bridge reads back *)

(** The first [n] elements of an array read one by one. *)
Definition read_out {A} (n : Z) (at_ : Z -> option A) : option (list A) :=
  mapM at_ (seqZ 0 n).

(** The loops of [bridge:push] over the three tables. *)
Definition sent_at (f : fwd) (i : Z) : option (Z * Z) :=
  e ← zget (pft_entries (ucast f)) i;
  l ← zget (plists f) (pfe_plist e);
  port ← zget (pl_ports l) 0;
  Some (pfe_p e, port).
Definition flooded_at (f : fwd) (i : Z) : option (Z * Z) :=
  e ← zget (pft_entries (flood f)) i; Some (pfe_p e, pfe_plist e).
Definition freed_at (f : fwd) (i : Z) : option Z :=
  e ← zget (pft_entries (discard f)) i; Some (pfe_p e).

Definition sent (f : fwd) := read_out (pft_length (ucast f)) (sent_at f).
Definition flooded (f : fwd) := read_out (pft_length (flood f)) (flooded_at f).
Definition freed (f : fwd) := read_out (pft_length (discard f)) (freed_at f).

(** One packet received by the bridge, with the bucket of its destination. *)
Record job := Job { j_mac : Z; j_bucket : list mac_entry; j_port : Z; j_group : Z;
                    j_p : Z; j_flood : Z }.

Definition forward_one (f : fwd) (j : job) : option fwd :=
  mac_table_lookup_pft (j_mac j) (j_bucket j) (j_port j) (j_group j) (j_p j) f (j_flood j).

Fixpoint forward_all (f : fwd) (js : list job) : option fwd :=
  match js with
  | [] => Some f
  | j :: js' => f' ← forward_one f j; forward_all f' js'
  end.

(** Where a packet belongs: to the port its destination was learned on, to
    nobody when that would be a reflection, else to every port. *)
Inductive verdict := ToPort (port : Z) | ToNobody | ToAll.

Definition verdict_of (j : job) : verdict :=
  match bucket_find (j_mac j) (j_bucket j) with
  | None => ToAll
  | Some me =>
      if bool_decide ((j_group j <> 0 /\ j_group j = e_group me) \/ j_port j = e_port me)
      then ToNobody else ToPort (e_port me)
  end.

Definition want_sent (js : list job) : list (Z * Z) :=
  js ≫= fun j => match verdict_of j with ToPort q => [(j_p j, q)] | _ => [] end.
Definition want_flooded (js : list job) : list (Z * Z) :=
  js ≫= fun j => match verdict_of j with ToAll => [(j_p j, j_flood j)] | _ => [] end.
Definition want_freed (js : list job) : list Z :=
  js ≫= fun j => match verdict_of j with ToNobody => [j_p j] | _ => [] end.

(** Tables as [alloc_pft] leaves them: [n] slots each, a port list of its own
    with room for a port behind every unicast slot. *)
Record fwd_wf (n : Z) (f : fwd) : Prop := {
  wf_ucast : zlen (pft_entries (ucast f)) = n;
  wf_flood : zlen (pft_entries (flood f)) = n;
  wf_discard : zlen (pft_entries (discard f)) = n;
  wf_plist : forall i e, zget (pft_entries (ucast f)) i = Some e ->
    exists l, zget (plists f) (pfe_plist e) = Some l /\ 0 < zlen (pl_ports l);
  wf_sep : forall i j e e', zget (pft_entries (ucast f)) i = Some e ->
    zget (pft_entries (ucast f)) j = Some e' -> pfe_plist e = pfe_plist e' -> i = j }.

Lemma mapM_ext_in {A B} (f g : A -> option B) l :
  (forall x, x ∈ l -> f x = g x) -> mapM f l = mapM g l.
Proof.
  induction l as [|x l IH]; intros H; [done|]. cbn. rewrite H by left.
  destruct (g x); [|done]. cbn. rewrite IH; [done|]. intros y Hy. apply H. by right.
Qed.

Lemma read_out_snoc {A} n (f f' : Z -> option A) l x :
  0 <= n -> read_out n f = Some l -> (forall i, 0 <= i < n -> f' i = f i) ->
  f' n = Some x -> read_out (n + 1) f' = Some (l ++ [x]).
Proof.
  unfold read_out. intros Hn Hl Hi Hx.
  rewrite seqZ_app by lia. change (seqZ (0 + n) 1) with [0 + n].
  apply mapM_Some. apply Forall2_app.
  - apply mapM_Some. rewrite <- Hl. apply mapM_ext_in. intros i Hin.
    apply Hi. apply elem_of_seqZ in Hin. lia.
  - by constructor.
Qed.

Lemma read_out_ext {A} n (f f' : Z -> option A) :
  (forall i, 0 <= i < n -> f' i = f i) -> read_out n f' = read_out n f.
Proof.
  intros H. apply mapM_ext_in. intros i Hi. apply H. apply elem_of_seqZ in Hi. lia.
Qed.

(** A table with a free slot takes a packet. *)
Lemma pft_push_Some t p pl :
  0 <= pft_length t < zlen (pft_entries t) -> pft_length t < 65535 ->
  exists e t', zget (pft_entries t) (pft_length t) = Some e /\
    pft_push t p pl = Some t' /\
    pft_length t' = pft_length t + 1 /\ zlen (pft_entries t') = zlen (pft_entries t) /\
    zget (pft_entries t') (pft_length t) =
      Some (PftEntry p (match pl with Some x => x | None => pfe_plist e end)) /\
    (forall i, i <> pft_length t -> zget (pft_entries t') i = zget (pft_entries t) i).
Proof.
  intros Hl Hu. destruct (zget_is_Some _ _ Hl) as [e He].
  destruct (zset_is_Some (pft_entries t) (pft_length t)
    (PftEntry p (match pl with Some x => x | None => pfe_plist e end)) Hl) as [es Hes].
  exists e, (Pft (pft_length t + 1) es). split; [done|]. unfold pft_push.
  rewrite He. cbn [mbind option_bind]. rewrite Hes. cbn [mbind option_bind].
  rewrite u16_small by (unfold in_u16; lia). split; [done|]. split; [done|].
  split; [by apply zset_length in Hes|]. split; [by eapply zget_zset_eq|].
  intros i Hi. eapply zget_zset_ne; [done|congruence].
Qed.

(** The invariant of the loop over a batch: what has been queued so far. *)
Definition queued (n : Z) (f : fwd) (js : list job) : Prop :=
  fwd_wf n f /\
  0 <= pft_length (ucast f) /\ 0 <= pft_length (flood f) /\ 0 <= pft_length (discard f) /\
  pft_length (ucast f) + pft_length (flood f) + pft_length (discard f) = zlen js /\
  sent f = Some (want_sent js) /\ flooded f = Some (want_flooded js) /\
  freed f = Some (want_freed js).

Lemma want_sent_snoc js j : want_sent (js ++ [j]) = want_sent js ++
  match verdict_of j with ToPort q => [(j_p j, q)] | _ => [] end.
Proof. unfold want_sent. rewrite bind_app. cbn. by rewrite app_nil_r. Qed.
Lemma want_flooded_snoc js j : want_flooded (js ++ [j]) = want_flooded js ++
  match verdict_of j with ToAll => [(j_p j, j_flood j)] | _ => [] end.
Proof. unfold want_flooded. rewrite bind_app. cbn. by rewrite app_nil_r. Qed.
Lemma want_freed_snoc js j : want_freed (js ++ [j]) = want_freed js ++
  match verdict_of j with ToNobody => [j_p j] | _ => [] end.
Proof. unfold want_freed. rewrite bind_app. cbn. by rewrite app_nil_r. Qed.

Lemma queued_discard n f js j :
  queued n f js -> zlen js < n -> n <= 65535 -> verdict_of j = ToNobody ->
  exists t, pft_push (discard f) (j_p j) None = Some t /\
    queued n (Fwd (ucast f) (flood f) t (plists f)) (js ++ [j]).
Proof.
  intros (W & Hu & Hf & Hd & Hsum & Qs & Qf & Qd) Hn Hn' Hv.
  destruct (pft_push_Some (discard f) (j_p j) None) as (e & t & He & Hp & Hl & Hz & Hx & Ho).
  { rewrite (wf_discard _ _ W). lia. } { lia. }
  exists t. split; [done|].
  split; [|cbn [ucast flood discard]; rewrite Hl; zlen_simpl; repeat split; try lia].
  - destruct W. split; cbn [ucast flood discard plists]; try done. congruence.
  - rewrite want_sent_snoc, Hv, app_nil_r. exact Qs.
  - rewrite want_flooded_snoc, Hv, app_nil_r. exact Qf.
  - rewrite want_freed_snoc, Hv. unfold freed. cbn [discard]. rewrite Hl.
    apply (read_out_snoc _ (freed_at f)); [done|done| |].
    + intros i Hi. unfold freed_at. cbn [discard]. rewrite Ho by lia. done.
    + unfold freed_at. cbn [discard]. rewrite Hx. done.
Qed.

Lemma queued_flood n f js j :
  queued n f js -> zlen js < n -> n <= 65535 -> verdict_of j = ToAll ->
  exists t, pft_push (flood f) (j_p j) (Some (j_flood j)) = Some t /\
    queued n (Fwd (ucast f) t (discard f) (plists f)) (js ++ [j]).
Proof.
  intros (W & Hu & Hf & Hd & Hsum & Qs & Qf & Qd) Hn Hn' Hv.
  destruct (pft_push_Some (flood f) (j_p j) (Some (j_flood j)))
    as (e & t & He & Hp & Hl & Hz & Hx & Ho).
  { rewrite (wf_flood _ _ W). lia. } { lia. }
  exists t. split; [done|].
  split; [|cbn [ucast flood discard]; rewrite Hl; zlen_simpl; repeat split; try lia].
  - destruct W. split; cbn [ucast flood discard plists]; try done. congruence.
  - rewrite want_sent_snoc, Hv, app_nil_r. exact Qs.
  - rewrite want_flooded_snoc, Hv. unfold flooded. cbn [flood]. rewrite Hl.
    apply (read_out_snoc _ (flooded_at f)); [done|done| |].
    + intros i Hi. unfold flooded_at. cbn [flood]. rewrite Ho by lia. done.
    + unfold flooded_at. cbn [flood]. rewrite Hx. done.
  - rewrite want_freed_snoc, Hv, app_nil_r. exact Qd.
Qed.

(** Writing the egress port of the next unicast slot leaves every other slot's
    port list alone. *)
Lemma set_port0_Some n f q :
  fwd_wf n f -> 0 <= pft_length (ucast f) < n ->
  exists e heap l l', zget (pft_entries (ucast f)) (pft_length (ucast f)) = Some e /\
    set_port0 (ucast f) (plists f) q = Some heap /\ zlen heap = zlen (plists f) /\
    zget (plists f) (pfe_plist e) = Some l /\ zlen (pl_ports l') = zlen (pl_ports l) /\
    zget heap (pfe_plist e) = Some l' /\ zget (pl_ports l') 0 = Some q /\
    (forall x, x <> pfe_plist e -> zget heap x = zget (plists f) x).
Proof.
  intros W Hl. rewrite <- (wf_ucast _ _ W) in Hl.
  destruct (zget_is_Some _ _ Hl) as [e He].
  destruct (wf_plist _ _ W _ _ He) as (l & Hgl & Hpos).
  destruct (zset_is_Some (pl_ports l) 0 q ltac:(lia)) as [ports Hports].
  pose proof (zget_Some_range _ _ _ Hgl) as Hr.
  destruct (zset_is_Some (plists f) (pfe_plist e) (PortList (pl_length l) ports) Hr) as [heap Hh].
  exists e, heap, l, (PortList (pl_length l) ports). split; [done|].
  unfold set_port0. rewrite He. cbn [mbind option_bind]. rewrite Hgl. cbn [mbind option_bind].
  rewrite Hports. cbn [mbind option_bind]. split; [done|].
  split; [by apply zset_length in Hh|]. split; [done|].
  split; [by apply zset_length in Hports|]. split; [by eapply zget_zset_eq|].
  split; [by apply zget_zset_eq in Hports|].
  intros x Hx. eapply zget_zset_ne; [done|congruence].
Qed.

Lemma queued_ucast n f js j q :
  queued n f js -> zlen js < n -> n <= 65535 -> verdict_of j = ToPort q ->
  exists heap t, set_port0 (ucast f) (plists f) q = Some heap /\
    pft_push (ucast f) (j_p j) None = Some t /\
    queued n (Fwd t (flood f) (discard f) heap) (js ++ [j]).
Proof.
  intros (W & Hu & Hf & Hd & Hsum & Qs & Qf & Qd) Hn Hn' Hv.
  destruct (set_port0_Some n f q W ltac:(lia))
    as (e & heap & l & l' & He & Hsp & Hhz & Hgl & Hlz & Hgl' & Hq & Hother).
  destruct (pft_push_Some (ucast f) (j_p j) None) as (e' & t & He' & Hp & Hl & Hz & Hx & Ho).
  { rewrite (wf_ucast _ _ W). lia. } { lia. }
  simplify_eq. cbn in Hx.
  (* the slots of the new table name the same lists as those of the old one *)
  assert (Hptr : forall i x, zget (pft_entries t) i = Some x ->
    exists y, zget (pft_entries (ucast f)) i = Some y /\ pfe_plist x = pfe_plist y).
  { intros i x Hxi. destruct (decide (i = pft_length (ucast f))) as [->|Hne].
    - rewrite Hx in Hxi. simplify_eq. eauto.
    - rewrite Ho in Hxi by done. eauto. }
  exists heap, t. split; [done|]. split; [done|].
  split; [|cbn [ucast flood discard]; rewrite Hl; zlen_simpl; repeat split; try lia].
  - destruct W as [W1 W2 W3 W4 W5]. split; cbn [ucast flood discard plists]; try done.
    + congruence.
    + intros i x (y & Hy & ->)%Hptr.
      destruct (decide (pfe_plist y = pfe_plist e)) as [->|Hne].
      * exists l'. split; [done|]. rewrite Hlz.
        destruct (W4 _ _ He) as (l0 & Hl0 & ?). by simplify_eq.
      * rewrite Hother by done. eauto.
    + intros i i' x x' (y & Hy & ->)%Hptr (y' & Hy' & ->)%Hptr. eauto.
  - rewrite want_sent_snoc, Hv. unfold sent. cbn [ucast]. rewrite Hl.
    apply (read_out_snoc _ (sent_at f)); [done|done| |].
    + intros i Hi. unfold sent_at. cbn [ucast plists]. rewrite Ho by lia.
      destruct (zget (pft_entries (ucast f)) i) as [y|] eqn:Hy; [|done]. cbn.
      rewrite Hother; [done|]. intros Heq.
      pose proof (wf_sep _ _ W _ _ _ _ Hy He Heq). lia.
    + unfold sent_at. cbn [ucast plists]. rewrite Hx.
      cbn [mbind option_bind pfe_plist pfe_p]. rewrite Hgl'. cbn [mbind option_bind].
      by rewrite Hq.
  - rewrite want_flooded_snoc, Hv, app_nil_r. exact Qf.
  - rewrite want_freed_snoc, Hv, app_nil_r. exact Qd.
Qed.

Lemma forward_one_queued n f js j :
  queued n f js -> zlen js < n -> n <= 65535 ->
  exists f', forward_one f j = Some f' /\ queued n f' (js ++ [j]).
Proof.
  intros Q Hn Hn'. unfold forward_one, mac_table_lookup_pft.
  pose proof (queued_discard n f js j Q Hn Hn') as HD.
  pose proof (queued_flood n f js j Q Hn Hn') as HF.
  pose proof (fun q => queued_ucast n f js j q Q Hn Hn') as HU.
  unfold verdict_of in *. destruct (bucket_find _ _) as [me|].
  - destruct (negb _ && _ || _) eqn:Ec.
    + destruct HD as (t & -> & HQ); [|by eauto].
      rewrite bool_decide_true by lia. done.
    + destruct (HU (e_port me)) as (heap & t & -> & Hp & HQ).
      { rewrite bool_decide_false by lia. done. }
      cbn [mbind option_bind]. rewrite Hp. by eauto.
  - destruct HF as (t & -> & HQ); by eauto.
Qed.

Lemma forward_all_queued n js' : forall f js,
  queued n f js -> zlen js + zlen js' <= n -> n <= 65535 ->
  exists f', forward_all f js' = Some f' /\ queued n f' (js ++ js').
Proof.
  induction js' as [|j js' IH]; intros f js Q Hn Hn'.
  - exists f. by rewrite app_nil_r.
  - zlen_simpl. pose proof (zlen_nonneg js').
    destruct (forward_one_queued n f js j Q ltac:(lia) Hn') as (f1 & E1 & Q1).
    destruct (IH f1 (js ++ [j]) Q1) as (f2 & E2 & Q2); [zlen_simpl; lia|done|].
    exists f2. cbn. rewrite E1. cbn. split; [done|]. by rewrite <- app_assoc in Q2.
Qed.

(** starting from reset forwarding tables of [n] slots, a batch of at most
    [n] packets is classified without an access outside a table or a port
    list, and what the bridge then reads back is, in order of arrival,
    exactly the packets to send with the port their destination was learned
    on, the packets to flood with their flooding list, and the packets to
    free (destination on the ingress port or in its split-horizon group);
    every packet is in exactly one of the three. *)
Theorem mac_table_lookup_pft_batch (n : Z) (f : fwd) (js : list job)
    (Hwf : fwd_wf n f) (Hu : pft_length (ucast f) = 0) (Hf : pft_length (flood f) = 0)
    (Hd : pft_length (discard f) = 0) (Hjs : zlen js <= n) (Hn : n <= 65535) :
  exists f', forward_all f js = Some f' /\
    sent f' = Some (want_sent js) /\ flooded f' = Some (want_flooded js) /\
    freed f' = Some (want_freed js) /\
    zlen (want_sent js) + zlen (want_flooded js) + zlen (want_freed js) = zlen js.
Proof.
  destruct (forward_all_queued n js f []) as (f' & E & _ & _ & _ & _ & _ & Q1 & Q2 & Q3).
  - unfold queued, sent, flooded, freed. rewrite Hu, Hf, Hd.
    split; [done|]. by repeat split; try lia.
  - done.
  - done.
  - exists f'. repeat (split; [done|]). clear.
    induction js as [|j js IH]; [done|].
    unfold want_sent, want_flooded, want_freed in *. cbn.
    zlen_simpl. destruct (verdict_of j); zlen_simpl; lia.
Qed.

Lemma mac_table_lookup_pft_batch_witness :
  let b := [MacEntry 17 2 0; MacEntry 34 3 9; zero_entry; zero_entry; zero_entry; zero_entry] in
  let t := Pft 0 [PftEntry 0 0; PftEntry 0 1; PftEntry 0 2] in
  let f := Fwd t t t [PortList 1 [0]; PortList 1 [0]; PortList 1 [0]] in
  let js := [Job 17 b 1 0 100 7; Job 34 b 1 9 101 7; Job 51 b 1 0 102 7] in
  exists f', forward_all f js = Some f' /\
    sent f' = Some [(100, 2)] /\ flooded f' = Some [(102, 7)] /\ freed f' = Some [101].
Proof.
  intros b t f js.
  destruct (mac_table_lookup_pft_batch 3 f js) as (f' & H1 & H2 & H3 & H4 & _);
    try done; [|by exists f'].
  assert (Hc : forall i e, zget (pft_entries t) i = Some e ->
    pfe_plist e = i /\ 0 <= i < 3).
  { intros i e H. pose proof (zget_Some_range _ _ _ H) as Hr. change (zlen _) with 3 in Hr.
    assert (i = 0 \/ i = 1 \/ i = 2) as [->|[->| ->]] by lia; vm_compute in H; simplify_eq; done. }
  split; try done; cbn [ucast f].
  - intros i e H. destruct (Hc i e H) as [-> Hr].
    assert (i = 0 \/ i = 1 \/ i = 2) as [->|[->| ->]] by lia; eexists; split; try reflexivity.
  - intros i j e e' H1 H2 H3. destruct (Hc i e H1), (Hc j e' H2). congruence.
Defined.
End MacTable.
