(* ===== verification/SolarflarePoll.v ===== *)
(** * SolarflarePoll

    [apps/solarflare/poll.c]: the registry of devices polled in one call, and
    the polling itself.  The registry is refined to the list of registered
    devices; the vendor's [eventq_poll] and [ef_vi_transmit_unbundle], loaded
    at run time, are parameters. *)
From stdpp Require Import base tactics numbers list gmap.
From Stdlib Require Import ZArith Lia.
From S2P Require Import Prelude.
Open Scope Z_scope.

Module Poll.

Definition MAX_DEVICES : Z := 256.
Definition EVENTS_PER_POLL : Z := 256.
Definition EF_EVENT_TYPE_TX : Z := 1.

(** A device is named by its address; 0 is the null pointer. *)
Record registry := Registry {
  devices : list Z; n_devices : Z; transmit_unbundle_ptr : Z }.

(** The static objects at program start. *)
Definition initial : registry := Registry (replicate (Z.to_nat MAX_DEVICES) 0) 0 0.

Definition add_device (r : registry) (device unbundle_function : Z) : outcome registry :=
  if n_devices r =? MAX_DEVICES then AssertFail
  else
    ds ← acc (zset (devices r) (n_devices r) device);
    Done (Registry ds (n_devices r + 1) unbundle_function).

(** The search loop from [i]; [fuel] is the number of slots left. *)
Fixpoint find_device (ds : list Z) (device : Z) (i : Z) (fuel : nat) : outcome Z :=
  match fuel with
  | O => Done i
  | S fuel' =>
      d ← acc (zget ds i);
      if d =? device then Done i else find_device ds device (i + 1) fuel'
  end.

(** [for (; i < n_devices; i++) devices[i] = devices[i + 1];] *)
Fixpoint shift_down (ds : list Z) (i : Z) (fuel : nat) : outcome (list Z * Z) :=
  match fuel with
  | O => Done (ds, i)
  | S fuel' =>
      d ← acc (zget ds (i + 1));
      ds' ← acc (zset ds i d);
      shift_down ds' (i + 1) fuel'
  end.

Definition drop_device (r : registry) (device : Z) : outcome registry :=
  i ← find_device (devices r) device 0 (Z.to_nat (n_devices r));
  if i =? n_devices r then AssertFail
  else
    let n := n_devices r - 1 in
    '(ds, i') ← shift_down (devices r) i (Z.to_nat (n - i));
    ds' ← acc (zset ds i' 0);
    Done (Registry ds' n (transmit_unbundle_ptr r)).

(** ** The registry refines a list *)

Record registered (r : registry) (l : list Z) : Prop := {
  reg_len : n_devices r = zlen l;
  reg_max : zlen l <= MAX_DEVICES;
  reg_devices : devices r = l ++ replicate (Z.to_nat (MAX_DEVICES - zlen l)) 0 }.

Lemma registered_initial : registered initial [].
Proof. by split. Qed.

Lemma add_device_registered r l d f :
  registered r l ->
  if zlen l =? MAX_DEVICES then add_device r d f = AssertFail
  else exists r', add_device r d f = Done r' /\ registered r' (l ++ [d]) /\
    transmit_unbundle_ptr r' = f.
Proof.
  intros [Hn Hm Hd]. unfold add_device. rewrite Hn.
  destruct (Z.eqb_spec (zlen l) MAX_DEVICES) as [|Hne]; [done|].
  rewrite Hd. replace (Z.to_nat (MAX_DEVICES - zlen l))
    with (S (Z.to_nat (MAX_DEVICES - zlen (l ++ [d])))) by (zlen_simpl; lia).
  cbn [replicate]. rewrite zset_middle. cbn. eexists. split; [done|]. split; [|done].
  split; cbn; [by zlen_simpl|by zlen_simpl; lia|by rewrite <- app_assoc].
Qed.

Lemma find_device_app ds a b c d :
  ds = a ++ b ++ c -> d ∉ b ->
  find_device ds d (zlen a) (length b) = Done (zlen a + zlen b).
Proof.
  revert a. induction b as [|x b IH]; intros a Hds Hd; cbn.
  - f_equal. change (zlen []) with 0. lia.
  - rewrite not_elem_of_cons in Hd. destruct Hd as [Hx Hd].
    rewrite Hds. cbn. rewrite zget_middle. cbn.
    destruct (Z.eqb_spec x d); [congruence|]. change (x :: b ++ c) with ((x :: b) ++ c).
    rewrite <- Hds. replace (zlen a + 1) with (zlen (a ++ [x])) by (zlen_simpl; lia).
    rewrite (IH (a ++ [x])); [zlen_simpl; f_equal; lia| |done].
    by rewrite Hds, <- app_assoc.
Qed.

Lemma find_device_hit ds a c d fuel :
  ds = a ++ d :: c -> d ∉ a -> (length a < fuel)%nat ->
  find_device ds d 0 fuel = Done (zlen a).
Proof.
  intros -> Hd Hf.
  enough (G : forall p fuel, (length a < fuel)%nat ->
    find_device (p ++ a ++ d :: c) d (zlen p) fuel = Done (zlen p + zlen a)).
  { apply (G []). lia. }
  clear fuel Hf. induction a as [|x a IH]; intros p [|fuel] Hf; cbn in *; try lia.
  - rewrite zget_middle. cbn. rewrite Z.eqb_refl. f_equal. change (zlen []) with 0. lia.
  - rewrite not_elem_of_cons in Hd. destruct Hd as [Hx Hd].
    rewrite zget_middle. cbn. destruct (Z.eqb_spec x d); [congruence|].
    specialize (IH Hd (p ++ [x]) fuel ltac:(lia)). rewrite <- app_assoc in IH. cbn in IH.
    replace (zlen p + 1) with (zlen (p ++ [x])) by (zlen_simpl; lia).
    rewrite IH. zlen_simpl. f_equal. lia.
Qed.

Lemma shift_down_app a x b c :
  exists y, shift_down (a ++ x :: b ++ c) (zlen a) (length b) =
    Done (a ++ b ++ y :: c, zlen a + zlen b).
Proof.
  revert a x. induction b as [|z b IH]; intros a x.
  - exists x. cbn. do 2 f_equal. change (zlen []) with 0. lia.
  - destruct (IH (a ++ [z]) z) as [y Hy]. exists y. cbn [length shift_down].
    replace (zlen a + 1) with (zlen (a ++ [x])) by (zlen_simpl; lia).
    pose proof (zget_middle (a ++ [x]) (b ++ c) z) as G. rewrite <- app_assoc in G.
    cbn in G. change ((z :: b) ++ c) with (z :: b ++ c). rewrite G. cbn [acc mbind outcome_bind].
    rewrite zset_middle. cbn [acc mbind outcome_bind].
    rewrite <- app_assoc in Hy. cbn in Hy.
    replace (zlen (a ++ [x])) with (zlen (a ++ [z])) by (zlen_simpl; lia).
    rewrite Hy. rewrite <- app_assoc. zlen_simpl. do 2 f_equal. lia.
Qed.

Lemma drop_device_absent r l d :
  registered r l -> (d ∉ l) -> drop_device r d = AssertFail.
Proof.
  intros [Hn Hm Hd] Hnot. unfold drop_device. rewrite Hn, Hd.
  replace (Z.to_nat (zlen l)) with (length l) by (unfold zlen; lia).
  change 0 with (zlen (@nil Z)) at 2. change (l ++ ?r) with ([] ++ l ++ r).
  rewrite (find_device_app _ [] l _ d eq_refl Hnot). cbn. by rewrite Z.eqb_refl.
Qed.

Lemma drop_device_present r l1 d l2 :
  registered r (l1 ++ d :: l2) -> (d ∉ l1) ->
  exists r', drop_device r d = Done r' /\ registered r' (l1 ++ l2) /\
    transmit_unbundle_ptr r' = transmit_unbundle_ptr r.
Proof.
  intros [Hn Hm Hd] Hnot. unfold drop_device. rewrite Hn, Hd.
  pose proof (zlen_nonneg l1). pose proof (zlen_nonneg l2).
  rewrite (find_device_hit _ l1 (l2 ++ replicate (Z.to_nat (MAX_DEVICES - zlen (l1 ++ d :: l2))) 0));
    [|by rewrite <- app_assoc|done|zlen_simpl; unfold zlen; lia].
  cbn [mbind outcome_bind]. zlen_simpl.
  destruct (Z.eqb_spec (zlen l1) (zlen l1 + (1 + zlen l2))); [lia|].
  replace (Z.to_nat (zlen l1 + (1 + zlen l2) - 1 - zlen l1)) with (length l2) by (unfold zlen; lia).
  rewrite <- app_assoc. cbn [app].
  destruct (shift_down_app l1 d l2 (replicate (Z.to_nat (MAX_DEVICES - (zlen l1 + (1 + zlen l2)))) 0))
    as [y ->].
  cbn [mbind outcome_bind]. rewrite app_assoc, <- zlen_app, zset_middle. cbn.
  eexists. split; [done|]. split; [|done].
  split; cbn; zlen_simpl; [lia|lia|].
  f_equal. replace (Z.to_nat (MAX_DEVICES - (zlen l1 + zlen l2)))
    with (S (Z.to_nat (MAX_DEVICES - (zlen l1 + (1 + zlen l2))))) by lia. done.
Qed.

(** ** Sequences of registrations *)

Inductive op := Add (device unbundle_function : Z) | Drop (device : Z).

Definition step (r : registry) (o : op) : outcome registry :=
  match o with Add d f => add_device r d f | Drop d => drop_device r d end.

Fixpoint run (r : registry) (ops : list op) : outcome registry :=
  match ops with [] => Done r | o :: ops' => r' ← step r o; run r' ops' end.

(** The first occurrence of an element taken out of a list. *)
Fixpoint list_remove (d : Z) (l : list Z) : option (list Z) :=
  match l with
  | [] => None
  | x :: l' => if decide (d = x) then Some l' else cons x <$> list_remove d l'
  end.

(** The abstract registry: a list bounded by [MAX_DEVICES]; [None] where the
    program stops on an assertion. *)
Definition spec_step (l : list Z) (o : op) : option (list Z) :=
  match o with
  | Add d _ => if zlen l =? MAX_DEVICES then None else Some (l ++ [d])
  | Drop d => list_remove d l
  end.

Fixpoint spec_run (l : list Z) (ops : list op) : option (list Z) :=
  match ops with [] => Some l | o :: ops' => l' ← spec_step l o; spec_run l' ops' end.

Lemma list_remove_split (d : Z) l :
  match list_remove d l with
  | Some k => exists l1 l2, l = l1 ++ d :: l2 /\ (d ∉ l1) /\ k = l1 ++ l2
  | None => d ∉ l
  end.
Proof.
  induction l as [|x l IH]; cbn; [set_solver|]. case_decide as E; [subst|].
  - exists [], l. split; [done|]. split; [set_solver|done].
  - destruct (list_remove d l) as [k|]; cbn.
    + destruct IH as (l1 & l2 & -> & Hn & ->). exists (x :: l1), l2. set_solver.
    + set_solver.
Qed.

Lemma run_registered ops r l :
  registered r l ->
  match spec_run l ops with
  | Some l' => exists r', run r ops = Done r' /\ registered r' l'
  | None => run r ops = AssertFail
  end.
Proof.
  revert r l. induction ops as [|o ops IH]; intros r l R; cbn; [eauto|].
  destruct o as [d f|d]; cbn.
  - pose proof (add_device_registered r l d f R) as H.
    destruct (zlen l =? MAX_DEVICES); [by rewrite H|].
    destruct H as (r' & -> & R' & _). exact (IH _ _ R').
  - pose proof (list_remove_split d l) as H. destruct (list_remove d l) as [k|]; cbn.
    + destruct H as (l1 & l2 & -> & Hn & ->).
      destruct (drop_device_present r l1 d l2 R Hn) as (r' & -> & R' & _). exact (IH _ _ R').
    + by rewrite (drop_device_absent r l d R H).
Qed.

(** every sequence of [add_device] and [drop_device] calls from program
    start either keeps the array equal to the list of registered devices in
    order of registration, padded with null pointers, with [n_devices] its
    length, or stops on an assertion exactly when a 257th device is added or
    a device that is not registered is dropped; it never leaves the array. *)
Theorem registry_refines_list (ops : list op) :
  match spec_run [] ops with
  | Some l => exists r, run initial ops = Done r /\ registered r l
  | None => run initial ops = AssertFail
  end.
Proof. apply run_registered, registered_initial. Qed.

(** ** Polling *)

Record event := Event { generic_type : Z; ev_data : Z }.
Record unbundled_tx_request_ids := Unbundled { n_tx_done : Z; tx_request_ids : list Z }.
Record device := Device {
  vi : Z; n_ev : Z; events : list event; unbundled : list unbundled_tx_request_ids }.

Section polling.
(** The state of the hardware and of the vendor library, and its two entry
    points: fill the event array and return the number of events; the ids of
    the transmits an event completes. *)
Context {W : Type}.
Context (eventq_poll : W -> Z -> list event -> Z -> W * (Z * list event)).
Context (transmit_unbundle : W -> Z -> event -> list Z -> W * (Z * list Z)).

(** The loop over the events from [i]; [fuel] is [n_ev - i]. *)
Fixpoint unbundle_loop (w : W) (v : Z) (evs : list event)
    (ub : list unbundled_tx_request_ids) (i : Z) (fuel : nat) :
    outcome (W * list unbundled_tx_request_ids) :=
  match fuel with
  | O => Done (w, ub)
  | S fuel' =>
      e ← acc (zget evs i);
      if generic_type e =? EF_EVENT_TYPE_TX then
        u ← acc (zget ub i);
        let '(w', (n, ids)) := transmit_unbundle w v e (tx_request_ids u) in
        ub' ← acc (zset ub i (Unbundled n ids));
        unbundle_loop w' v evs ub' (i + 1) fuel'
      else unbundle_loop w v evs ub (i + 1) fuel'
  end.

Definition poll_device (w : W) (d : device) : outcome (W * device) :=
  let '(w1, (n, evs)) := eventq_poll w (vi d) (events d) EVENTS_PER_POLL in
  '(w2, ub) ← unbundle_loop w1 (vi d) evs (unbundled d) 0 (Z.to_nat n);
  Done (w2, Device (vi d) n evs ub).

(** The loop over the registered devices; they live in the heap [h]. *)
Fixpoint poll_loop (w : W) (h : gmap Z device) (ds : list Z) (i : Z) (fuel : nat) :
    outcome (W * gmap Z device) :=
  match fuel with
  | O => Done (w, h)
  | S fuel' =>
      p ← acc (zget ds i);
      d ← acc (h !! p);
      '(w', d') ← poll_device w d;
      poll_loop w' (<[p := d']> h) ds (i + 1) fuel'
  end.

Definition poll_devices (w : W) (h : gmap Z device) (r : registry) :
    outcome (W * gmap Z device) :=
  poll_loop w h (devices r) 0 (Z.to_nat (n_devices r)).

(** *** Reference: one pass over the pairs of events and slots. *)
Fixpoint unbundle_all (w : W) (v : Z) (evs : list event)
    (ub : list unbundled_tx_request_ids) : W * list unbundled_tx_request_ids :=
  match evs, ub with
  | e :: evs', u :: ub' =>
      if bool_decide (generic_type e = EF_EVENT_TYPE_TX) then
        let r := transmit_unbundle w v e (tx_request_ids u) in
        let rest := unbundle_all r.1 v evs' ub' in
        (rest.1, Unbundled r.2.1 r.2.2 :: rest.2)
      else
        let rest := unbundle_all w v evs' ub' in (rest.1, u :: rest.2)
  | _, _ => (w, ub)
  end.

Definition poll_spec (w : W) (d : device) : W * device :=
  let r := eventq_poll w (vi d) (events d) EVENTS_PER_POLL in
  let k := unbundle_all r.1 (vi d) (take (Z.to_nat r.2.1) r.2.2) (unbundled d) in
  (k.1, Device (vi d) r.2.1 r.2.2 k.2).

Lemma unbundle_loop_all w v pe evs pu ub fuel :
  zlen pe = zlen pu -> (fuel <= length evs)%nat -> (fuel <= length ub)%nat ->
  unbundle_loop w v (pe ++ evs) (pu ++ ub) (zlen pe) fuel =
  let k := unbundle_all w v (take fuel evs) ub in Done (k.1, pu ++ k.2).
Proof.
  revert w pe evs pu ub. induction fuel as [|fuel IH]; intros w pe evs pu ub Hl He Hu.
  { by destruct evs. }
  destruct evs as [|e evs], ub as [|u ub]; cbn in He, Hu; try lia.
  cbn [unbundle_loop unbundle_all take]. rewrite zget_middle. cbn [acc mbind outcome_bind].
  replace (zlen pe + 1) with (zlen (pe ++ [e])) by (zlen_simpl; lia).
  rewrite (cons_middle e pe evs), app_assoc.
  destruct (Z.eqb_spec (generic_type e) EF_EVENT_TYPE_TX) as [Et|Et].
  - rewrite bool_decide_true by done. rewrite Hl, zget_middle. cbn [acc mbind outcome_bind].
    destruct (transmit_unbundle w v e (tx_request_ids u)) as [w' [n ids]].
    rewrite zset_middle. cbn [acc mbind outcome_bind].
    rewrite (cons_middle _ pu ub), app_assoc, IH by (zlen_simpl; lia).
    cbn. by rewrite <- app_assoc.
  - rewrite bool_decide_false by done.
    rewrite (cons_middle _ pu ub), app_assoc, IH by (zlen_simpl; lia).
    cbn. by rewrite <- app_assoc.
Qed.

Definition device_wf (d : device) : Prop :=
  zlen (events d) = EVENTS_PER_POLL /\ zlen (unbundled d) = EVENTS_PER_POLL.

(** The vendor's contract: no more events than asked for, all in the array. *)
Hypothesis eventq_poll_bound : forall w v evs max,
  zlen evs = max ->
  (eventq_poll w v evs max).2.1 <= max /\ zlen (eventq_poll w v evs max).2.2 = max.

Lemma poll_device_spec w d : device_wf d -> poll_device w d = Done (poll_spec w d).
Proof.
  intros [He Hu]. unfold poll_device, poll_spec.
  pose proof (eventq_poll_bound w (vi d) (events d) EVENTS_PER_POLL He) as [Hn Hz].
  destruct (eventq_poll w (vi d) (events d) EVENTS_PER_POLL) as [w1 [n evs]]. cbn in *.
  pose proof (unbundle_loop_all w1 (vi d) [] evs [] (unbundled d) (Z.to_nat n) eq_refl) as G.
  cbn [app] in G. change (zlen []) with 0 in G. unfold zlen in *. rewrite G by lia. done.
Qed.

Lemma unbundle_all_length w v evs ub : length (unbundle_all w v evs ub).2 = length ub.
Proof.
  revert w ub. induction evs as [|e evs IH]; intros w [|u ub]; cbn; try done.
  case_match; cbn; by rewrite IH.
Qed.

Lemma poll_spec_wf w d : device_wf d -> device_wf (poll_spec w d).2.
Proof.
  intros [He Hu].
  pose proof (eventq_poll_bound w (vi d) (events d) EVENTS_PER_POLL He) as [Hn Hz].
  split; cbn; [done|]. unfold zlen in *. by rewrite unbundle_all_length.
Qed.

(** Polling the devices of a list one after the other. *)
Fixpoint poll_list (w : W) (h : gmap Z device) (l : list Z) : W * gmap Z device :=
  match l with
  | [] => (w, h)
  | p :: l' =>
      match h !! p with
      | Some d => let k := poll_spec w d in poll_list k.1 (<[p := k.2]> h) l'
      | None => poll_list w h l'
      end
  end.

Lemma poll_loop_list l w h a c :
  (forall p, p ∈ l -> exists d, h !! p = Some d) ->
  map_Forall (fun _ d => device_wf d) h ->
  poll_loop w h (a ++ l ++ c) (zlen a) (length l) = Done (poll_list w h l).
Proof.
  revert w h a. induction l as [|p l IH]; intros w h a Hin Hwf; [done|].
  cbn [length poll_loop poll_list app]. rewrite zget_middle. cbn [acc mbind outcome_bind].
  destruct (Hin p ltac:(left)) as [d Hd]. rewrite Hd. cbn [acc mbind outcome_bind].
  rewrite (poll_device_spec w d) by (by eapply Hwf). cbn [mbind outcome_bind].
  destruct (poll_spec w d) as [w' d'] eqn:Es. cbn [fst snd].
  replace (zlen a + 1) with (zlen (a ++ [p])) by (zlen_simpl; lia).
  rewrite (cons_middle p a (l ++ c)), app_assoc. apply IH.
  - intros q Hq. destruct (decide (q = p)) as [->|Hne].
    + rewrite lookup_insert_eq. eauto.
    + rewrite lookup_insert_ne by done. apply Hin. by right.
  - apply map_Forall_insert_2; [|done].
    pose proof (poll_spec_wf w d (Hwf _ _ Hd)) as H. by rewrite Es in H.
Qed.
End polling.

(** with a registry that holds the devices [l], all of them allocated, and
    a vendor library that returns no more events than asked for,
    [poll_devices] polls each device of [l] once, in order, and never leaves an
    array: after it the events of a device are those of the hardware and the
    request ids of the slot of each transmit event are those unbundled from
    it, the other slots being untouched. *)
Theorem poll_devices_correct {W : Type}
    (eventq_poll : W -> Z -> list event -> Z -> W * (Z * list event))
    (transmit_unbundle : W -> Z -> event -> list Z -> W * (Z * list Z))
    (Hpoll : forall w v evs max, zlen evs = max ->
      (eventq_poll w v evs max).2.1 <= max /\ zlen (eventq_poll w v evs max).2.2 = max)
    (w : W) (h : gmap Z device) (r : registry) (l : list Z)
    (Hr : registered r l) (Hin : forall p, p ∈ l -> exists d, h !! p = Some d)
    (Hwf : map_Forall (fun _ d => device_wf d) h) :
  poll_devices eventq_poll transmit_unbundle w h r =
  Done (poll_list eventq_poll transmit_unbundle w h l).
Proof.
  destruct Hr as [Hn _ Hd]. unfold poll_devices. rewrite Hn, Hd.
  replace (Z.to_nat (zlen l)) with (length l) by (unfold zlen; lia).
  apply (poll_loop_list _ _ Hpoll l w h []); done.
Qed.

(** A vendor library that reports one completed transmit per poll. *)
Lemma poll_devices_correct_witness :
  let poll := fun (w v : Z) (evs : list event) (max : Z) =>
    (w + 1, (Z.min 1 max, <[0%nat := Event EF_EVENT_TYPE_TX w]> evs)) in
  let unb := fun (w v : Z) (e : event) (ids : list Z) => (w, (1, [ev_data e])) in
  let d := Device 5 0 (replicate 256 (Event 0 0)) (replicate 256 (Unbundled 0 [])) in
  let r := Registry (77 :: replicate 255 0) 1 9 in
  poll_devices poll unb 40 {[77 := d]} r = Done (poll_list poll unb 40 {[77 := d]} [77]) /\
  ((poll_list poll unb 40 {[77 := d]} [77]).2 !! 77 ≫= fun d' => zget (unbundled d') 0)
    = Some (Unbundled 1 [40]).
Proof.
  intros poll unb d r. split; [|by vm_compute].
  apply poll_devices_correct.
  - intros w v evs max H. cbn. rewrite zlen_insert. split; [lia|done].
  - split; done.
  - intros p Hp. apply list_elem_of_singleton in Hp as ->. exists d. by rewrite lookup_singleton_eq.
  - apply map_Forall_singleton. by split.
Defined.
End Poll.
