(* ===== verification/Memory.v ===== *)
(** * Memory

    [core/memory.c]: the SIGSEGV handler that maps the DMA memory of other
    processes on demand.  The process state is the handler's static data, the
    signal disposition and the address space; an access to an unmapped
    address raises the signal and is restarted when the handler returns. *)
From stdpp Require Import base tactics numbers list gmap strings.
From Stdlib Require Import ZArith Lia String Ascii.
From S2P Require Import Prelude.
Open Scope Z_scope.

Module Memory.

Definition TAG : Z := 0x500000000000.
Definition PATH_MAX : Z := 256.

(** ** [snprintf] as the handler uses it

    The template holds one directive, [%012lx]; other text is copied. *)
Definition hex_digit (d : Z) : ascii :=
  ascii_of_nat (Z.to_nat (if d <? 10 then 48 + d else 87 + d)).

Fixpoint hex (n : Z) (fuel : nat) (acc : string) : string :=
  match fuel with
  | O => acc
  | S fuel' =>
      let acc' := String (hex_digit (n mod 16)) acc in
      if n <? 16 then acc' else hex (n / 16) fuel' acc'
  end.

Fixpoint zeros (n : nat) (s : string) : string :=
  match n with O => s | S n' => String "0" (zeros n' s) end.

(** A 64-bit value has at most 16 hexadecimal digits. *)
Definition hex012 (n : Z) : string :=
  let h := hex n 16 EmptyString in zeros (12 - String.length h) h.

Fixpoint format (template : string) (page : Z) : string :=
  match template with
  | String "%" (String "0" (String "1" (String "2" (String "l" (String "x" rest))))) =>
      String.append (hex012 page) (format rest page)
  | String c rest => String c (format rest page)
  | EmptyString => EmptyString
  end.

Definition snprintf (template : string) (page : Z) : string :=
  String.substring 0 (Z.to_nat (PATH_MAX - 1)) (format template page).

(** ** State *)

Inductive disposition := SigDfl | SigHandler.

Record process := Process {
  page_mask : Z;
  path_template : string;
  memory_demand_mappings : Z;
  sigsegv : disposition;
  maps : list (Z * Z) (* start and size of the mapped regions *) }.

Inductive result := Running (p : process) | Killed (p : process).

Section os.
(** The files the process may open and examine, with their sizes (a failing
    [open] and a failing [fstat] both end in [punt]), and whether the kernel
    grants a mapping. *)
Context (files : gmap string Z) (mmap_ok : Z -> Z -> bool).

Definition set_sigsegv_handler (p : process) : process :=
  Process (page_mask p) (path_template p) (memory_demand_mappings p) SigHandler (maps p).

Definition signal_dfl (p : process) : process :=
  Process (page_mask p) (path_template p) (memory_demand_mappings p) SigDfl (maps p).

(** [punt] resends the signal with the default disposition in force. *)
Definition memory_sigsegv_handler (p : process) (address : Z) : result :=
  let page := Z.land (Z.land address (not64 TAG)) (page_mask p) in
  let p := signal_dfl p in
  if negb (Z.land address TAG =? TAG) then Killed p
  else
    match files !! snprintf (path_template p) page with
    | None => Killed p
    | Some st_size =>
        if mmap_ok (Z.lor page TAG) st_size then
          Running (set_sigsegv_handler
            (Process (page_mask p) (path_template p) (i32 (memory_demand_mappings p + 1))
               (sigsegv p) ((Z.lor page TAG, st_size) :: maps p)))
        else Killed p
    end.

Definition memory_sigsegv_setup (p : process) (huge_page_size : Z) (path : string) :
    outcome process :=
  if Z.of_nat (String.length path) <? PATH_MAX then
    Done (set_sigsegv_handler
            (Process (not64 (u64 (huge_page_size - 1))) path 0 (sigsegv p) (maps p)))
  else AssertFail.

(** ** The machine: an access runs, or faults and is restarted. *)

Definition mapped (p : process) (a : Z) : bool :=
  existsb (fun m => (m.1 <=? a) && (a <? m.1 + m.2)) (maps p).

Fixpoint access (fuel : nat) (p : process) (a : Z) : option result :=
  if mapped p a then Some (Running p)
  else
    match fuel, sigsegv p with
    | O, _ => None
    | S fuel', SigDfl => Some (Killed p)
    | S fuel', SigHandler =>
        match memory_sigsegv_handler p a with
        | Running p' => access fuel' p' a
        | Killed p' => Some (Killed p')
        end
    end.

Fixpoint accesses (p : process) (addrs : list Z) : option result :=
  match addrs with
  | [] => Some (Running p)
  | a :: addrs' =>
      match access 1 p a with
      | Some (Running p') => accesses p' addrs'
      | r => r
      end
  end.
End os.

(** ** Address arithmetic *)

Lemma land_not64 a b : in_u64 a -> 0 <= b -> Z.land a (not64 b) = Z.ldiff a b.
Proof.
  intros Ha Hb. unfold not64, u64. change 18446744073709551616 with (2 ^ 64).
  rewrite <- Z.land_ones by lia. rewrite Z.ldiff_land.
  rewrite (Z.land_comm (Z.lnot b)), Z.land_assoc. f_equal.
  rewrite Z.land_ones by lia. by apply Z.mod_small.
Qed.

Lemma ldiff_ones p k : 0 <= k -> Z.ldiff p (2 ^ k - 1) = p - p mod 2 ^ k.
Proof.
  intros Hk. replace (2 ^ k - 1) with (Z.ones k) by (rewrite Z.ones_equiv; lia).
  rewrite Z.ldiff_ones_r, Z.shiftl_mul_pow2, Z.shiftr_div_pow2 by lia.
  pose proof (Z.div_mod p (2 ^ k) ltac:(lia)). lia.
Qed.

Lemma tagged_split a : 0 <= a -> Z.land a TAG = TAG -> a = Z.ldiff a TAG + TAG.
Proof.
  intros Ha H. rewrite <- H at 2. rewrite Z.add_nocarry_lxor.
  - apply Z.bits_inj'. intros n Hn.
    rewrite Z.lxor_spec, Z.ldiff_spec, Z.land_spec.
    by destruct (Z.testbit a n), (Z.testbit TAG n).
  - apply Z.bits_inj'. intros n Hn. rewrite !Z.land_spec, Z.ldiff_spec, Z.bits_0.
    by destruct (Z.testbit a n), (Z.testbit TAG n).
Qed.

(** The physical page of a tagged address, for huge pages of [2^k] bytes. *)
Definition phys_page (k a : Z) : Z := (a - TAG) - (a - TAG) mod 2 ^ k.

Lemma page_of_address k a :
  in_u64 a -> 0 <= k <= 30 -> Z.land a TAG = TAG ->
  let page := Z.land (Z.land a (not64 TAG)) (not64 (u64 (2 ^ k - 1))) in
  page = phys_page k a /\ Z.lor page TAG = phys_page k a + TAG.
Proof.
  intros Ha Hk Ht page.
  assert (Hk2 : 1 <= 2 ^ k <= 2 ^ 30) by (split; [lia|apply Z.pow_le_mono_r; lia]).
  change (2 ^ 30) with 1073741824 in Hk2.
  pose proof (tagged_split a ltac:(zlia) Ht) as Hs.
  assert (Hp0 : 0 <= Z.ldiff a TAG) by (apply Z.ldiff_nonneg; zlia).
  assert (Hpage : page = Z.ldiff (Z.ldiff a TAG) (2 ^ k - 1)).
  { unfold page. rewrite (land_not64 a) by (done || (unfold TAG; lia)).
    rewrite u64_small by (unfold in_u64; lia).
    apply land_not64; [|lia]. unfold in_u64, TAG in *. lia. }
  assert (E : page = phys_page k a).
  { rewrite Hpage, ldiff_ones by lia. unfold phys_page.
    by replace (Z.ldiff a TAG) with (a - TAG) by lia. }
  split; [done|]. rewrite <- E.
  rewrite <- Z.add_lor_land. replace (Z.land page TAG) with 0; [lia|].
  rewrite Hpage. apply Z.bits_inj'. intros n Hn.
  rewrite Z.land_spec, !Z.ldiff_spec, Z.bits_0.
  by destruct (Z.testbit a n), (Z.testbit TAG n), (Z.testbit (2 ^ k - 1) n).
Qed.

Lemma in_page_iff k page b :
  0 <= k -> page mod 2 ^ k = 0 ->
  (page + TAG <= b < page + TAG + 2 ^ k) <-> phys_page k b = page.
Proof.
  intros Hk Hp. unfold phys_page. assert (H0 : 0 < 2 ^ k) by (apply Z.pow_pos_nonneg; lia).
  pose proof (Z.mod_pos_bound (b - TAG) (2 ^ k) H0). split; [|lia]. intros Hr.
  replace (b - TAG) with ((b - TAG - page) + page) by lia.
  rewrite Z.add_mod, Hp, Z.add_0_r, Z.mod_mod by lia.
  rewrite Z.mod_small by lia. lia.
Qed.

Lemma phys_page_aligned k a : 0 <= k -> phys_page k a mod 2 ^ k = 0.
Proof.
  intros Hk. unfold phys_page. assert (H0 : 0 < 2 ^ k) by (apply Z.pow_pos_nonneg; lia).
  by rewrite Zminus_mod_idemp_r, Z.sub_diag, Z.mod_0_l by lia.
Qed.

Section demand.
Context (files : gmap string Z) (mmap_ok : Z -> Z -> bool).
Context (k : Z) (path : string).
Hypothesis k_range : 0 <= k <= 30.

(** An address of a DMA page this process may use. *)
Definition available (a : Z) : Prop :=
  in_u64 a /\ Z.land a TAG = TAG /\
  files !! snprintf path (phys_page k a) = Some (2 ^ k) /\
  mmap_ok (phys_page k a + TAG) (2 ^ k) = true.

(** The handler is armed and exactly the DMA pages of [S] are mapped, each by
    one on-demand mapping. *)
Record serving (p : process) (S : gset Z) : Prop := {
  sv_mask : page_mask p = not64 (u64 (2 ^ k - 1));
  sv_path : path_template p = path;
  sv_sig : sigsegv p = SigHandler;
  sv_count : memory_demand_mappings p = Z.of_nat (size S);
  sv_mapped : forall a, Z.land a TAG = TAG -> mapped p a = bool_decide (phys_page k a ∈ S) }.

Lemma access_serving p S a :
  serving p S -> available a -> Z.of_nat (size S) < INT_MAX ->
  exists p', access files mmap_ok 1 p a = Some (Running p') /\
    serving p' ({[phys_page k a]} ∪ S).
Proof.
  intros [Hm Hp Hs Hc Hmap] (Ha & Ht & Hf & Hok) Hlim. cbn [access].
  rewrite (Hmap a Ht). case_bool_decide as Hin.
  - exists p. split; [done|]. replace ({[_]} ∪ S) with S by set_solver. by split.
  - rewrite Hs. unfold memory_sigsegv_handler. rewrite Hm, Ht, Z.eqb_refl. cbn [negb].
    destruct (page_of_address k a Ha k_range Ht) as [-> ->].
    cbn [signal_dfl path_template]. rewrite Hp, Hf, Hok.
    cbn [signal_dfl page_mask path_template memory_demand_mappings sigsegv maps].
    rewrite Hc, i32_small by (unfold in_i32, INT_MAX in *; lia).
    match goal with |- context [if mapped ?q a then _ else _] => set (p' := q) end.
    assert (Hmap' : forall b, Z.land b TAG = TAG ->
      mapped p' b = bool_decide (phys_page k b ∈ {[phys_page k a]} ∪ S)).
    { intros b Hb. unfold mapped. cbn. fold (mapped p b). rewrite (Hmap b Hb).
      pose proof (in_page_iff k _ b ltac:(lia) (phys_page_aligned k a ltac:(lia))) as Hiff.
      apply eq_bool_prop_intro. rewrite orb_True, bool_decide_spec, bool_decide_spec.
      rewrite andb_True, elem_of_union, elem_of_singleton, <- Hiff.
      destruct (Z.leb_spec (phys_page k a + TAG) b),
        (Z.ltb_spec b (phys_page k a + TAG + 2 ^ k)); cbn; intuition lia. }
    exists p'. split.
    + by rewrite Hmap', bool_decide_true by (done || set_solver).
    + split; try done. cbn. rewrite size_union by set_solver. rewrite size_singleton. lia.
Qed.

Lemma accesses_serving addrs p S :
  serving p S -> Forall available addrs ->
  Z.of_nat (size S) + zlen addrs <= INT_MAX ->
  exists p', accesses files mmap_ok p addrs = Some (Running p') /\
    serving p' (list_to_set (phys_page k <$> addrs) ∪ S).
Proof.
  revert p S. induction addrs as [|a addrs IH]; intros p S Hs Hav Hlim.
  - exists p. split; [done|]. cbn. by rewrite union_empty_l_L.
  - apply Forall_cons in Hav as [Ha Hav]. zlen_simpl. pose proof (zlen_nonneg addrs).
    destruct (access_serving p S a Hs Ha ltac:(lia)) as (p1 & E1 & S1).
    assert (Hsz : (size ({[phys_page k a]} ∪ S) <= 1 + size S)%nat).
    { rewrite size_union_alt, size_singleton.
      pose proof (subseteq_size (S ∖ {[phys_page k a]}) S ltac:(set_solver)). lia. }
    destruct (IH p1 _ S1 Hav ltac:(lia)) as (p2 & E2 & S2).
    exists p2. cbn [accesses]. rewrite E1. split; [done|]. cbn.
    replace ({[phys_page k a]} ∪ list_to_set (phys_page k <$> addrs) ∪ S)
      with (list_to_set (phys_page k <$> addrs) ∪ ({[phys_page k a]} ∪ S)) by set_solver.
    done.
Qed.
End demand.

(** C33: after [memory_sigsegv_setup] with huge pages of [2^k] bytes, a process
    none of whose DMA pages is mapped yet can touch any sequence of addresses
    of DMA pages that exist and that the kernel lets it map: every access
    completes after at most one fault, the handler is armed again after each,
    and [memory_demand_mappings] is the number of distinct pages touched. *)
Theorem demand_mapping_serves (files : gmap string Z) (mmap_ok : Z -> Z -> bool)
    (k : Z) (path : string) (p0 p1 : process) (addrs : list Z)
    (Hk : 0 <= k <= 30)
    (Hsetup : memory_sigsegv_setup p0 (2 ^ k) path = Done p1)
    (Hclear : forall a, Z.land a TAG = TAG -> mapped p0 a = false)
    (Hav : Forall (available files mmap_ok k path) addrs)
    (Hlim : zlen addrs <= INT_MAX) :
  exists p2, accesses files mmap_ok p1 addrs = Some (Running p2) /\
    sigsegv p2 = SigHandler /\
    memory_demand_mappings p2 =
      Z.of_nat (size (list_to_set (phys_page k <$> addrs) : gset Z)) /\
    Forall (fun a => mapped p2 a = true) addrs.
Proof.
  unfold memory_sigsegv_setup in Hsetup. destruct (_ <? PATH_MAX); [|done].
  injection Hsetup as <-.
  destruct (accesses_serving files mmap_ok k path Hk addrs
    (set_sigsegv_handler (Process (not64 (u64 (2 ^ k - 1))) path 0 (sigsegv p0) (maps p0))) ∅)
    as (p2 & E & [_ _ S3 S4 S5]); try done.
  rewrite union_empty_r_L in *. exists p2. repeat (split; [done|]).
  rewrite Forall_forall in *. intros a Ha. destruct (Hav a Ha) as (_ & Ht & _).
  rewrite S5 by done. apply bool_decide_true. apply elem_of_list_to_set.
  apply list_elem_of_fmap. eauto.
Qed.

Lemma demand_mapping_serves_witness :
  let path := "dma/%012lx.dma"%string in
  let files := {[ "dma/000000200000.dma"%string := 2 ^ 21 ]} in
  let addrs := [0x500000200010; 0x5000003ffff8; 0x500000200010] in
  exists p1 p2,
    memory_sigsegv_setup (Process 0 EmptyString 0 SigDfl []) (2 ^ 21) path = Done p1 /\
    accesses files (fun _ _ => true) p1 addrs = Some (Running p2) /\
    sigsegv p2 = SigHandler /\ memory_demand_mappings p2 = 1 /\
    Forall (fun a => mapped p2 a = true) addrs.
Proof.
  intros path files addrs. eexists.
  destruct (demand_mapping_serves files (fun _ _ => true) 21 path
    (Process 0 EmptyString 0 SigDfl []) _ addrs ltac:(lia) eq_refl)
    as (p2 & H1 & H2 & H3 & H4).
  - done.
  - repeat (apply Forall_cons_2; [vm_compute; intuition congruence|]). apply Forall_nil_2.
  - vm_compute. congruence.
  - exists p2. split; [reflexivity|]. split; [exact H1|]. split; [exact H2|].
    split; [rewrite H3; vm_compute; reflexivity|exact H4].
Defined.

(** C39: a fault the handler cannot serve (an address without the DMA tag, no
    file for its page, or a mapping the kernel refuses) ends the process by
    the default disposition, with the address space and the counter as they
    were. *)
Theorem unserved_fault_kills (files : gmap string Z) (mmap_ok : Z -> Z -> bool)
    (k : Z) (p : process) (a : Z) (fuel : nat)
    (Hk : 0 <= k <= 30) (Ha : in_u64 a)
    (Hmask : page_mask p = not64 (u64 (2 ^ k - 1)))
    (Harmed : sigsegv p = SigHandler) (Hun : mapped p a = false)
    (Hbad : Z.land a TAG <> TAG \/
            files !! snprintf (path_template p) (phys_page k a) = None \/
            (forall n, mmap_ok (phys_page k a + TAG) n = false)) :
  access files mmap_ok (S fuel) p a =
  Some (Killed (Process (page_mask p) (path_template p) (memory_demand_mappings p)
                  SigDfl (maps p))).
Proof.
  change (Process _ _ _ SigDfl _) with (signal_dfl p).
  cbn [access]. rewrite Hun, Harmed. unfold memory_sigsegv_handler.
  destruct (Z.eqb_spec (Z.land a TAG) TAG) as [Ht|Ht]; [|done].
  rewrite Hmask. destruct (page_of_address k a Ha Hk Ht) as [-> ->].
  cbn [negb signal_dfl path_template].
  destruct Hbad as [Hb|[Hb|Hb]]; [done|by rewrite Hb|].
  destruct (files !! _); [|done]. by rewrite Hb.
Qed.

Lemma unserved_fault_kills_witness :
  access ∅ (fun _ _ => true) 1
    (Process (not64 (u64 (2 ^ 21 - 1))) "x%012lx"%string 0 SigHandler []) 0x500000200010 =
  Some (Killed (Process (not64 (u64 (2 ^ 21 - 1))) "x%012lx"%string 0 SigDfl [])).
Proof.
  apply (unserved_fault_kills ∅ (fun _ _ => true) 21); try done; try lia.
  right. left. reflexivity.
Defined.
End Memory.
