(* ===== verification/VhostUser.v ===== *)
(** * VhostUser

    [apps/vhost/vhost_user.c]: the socket side of the vhost-user protocol.
    The operating system is an arbitrary function of the calls made so far;
    every function of the source extends that history.  The theorems say which
    descriptors survive a failed call, that interrupted calls are restarted,
    and what a received message leaves in the caller's buffers. *)
From stdpp Require Import base tactics numbers list gmap strings.
From Stdlib Require Import ZArith Lia.
From S2P Require Import Prelude.
Open Scope Z_scope.

Module VhostUser.

Definition VHOST_USER_MEMORY_MAX_NREGIONS : Z := 8.
Definition VHOST_USER_LISTEN : Z := 1.
(** [request], [flags] and [size], 32 bits each, packed. *)
Definition VHOST_USER_HDR_SIZE : Z := 12.
(** The largest member of the union: [nregions], [padding] and 8 regions of
    four 64-bit words. *)
Definition PAYLOAD_SIZE : Z := 4 + 4 + VHOST_USER_MEMORY_MAX_NREGIONS * (4 * 8).
Definition MSG_SIZE : Z := VHOST_USER_HDR_SIZE + PAYLOAD_SIZE.

(** [sizeof(un.sun_path)] on Linux. *)
Definition SUN_PATH_SIZE : Z := 108.

Definition EINTR : Z := 4.
Definition EAGAIN : Z := 11.
Definition SOL_SOCKET : Z := 1.
Definition SCM_RIGHTS : Z := 1.
Definition MSG_CTRUNC : Z := 8.
Definition MSG_TRUNC : Z := 32.
(** [CMSG_LEN(0)] and [CMSG_SPACE(sizeof(int) * 8)] on a 64-bit machine. *)
Definition CMSG_LEN0 : Z := 16.
Definition CONTROL_SIZE : Z := 48.

(** ** System calls *)

Inductive call :=
| Socket | Connect (sock : Z) (path : string) | Unlink (path : string)
| Bind (sock : Z) (path : string) | Listen (sock backlog : Z) | Accept (sock : Z)
| Fcntl_nonblock (sock : Z) | Close (fd : Z) | Sendmsg (sock len : Z)
| Recvmsg (sock len controllen : Z) | Read (fd len : Z)
| Mmap (fd size : Z) | Munmap (ptr size : Z) | Msync (ptr size : Z).

Record cmsghdr := Cmsg { cmsg_len : Z; cmsg_level : Z; cmsg_type : Z; cmsg_data : list Z }.

(** What a call gives back: its value, [errno], and for the receiving calls
    the bytes stored, the first control message and the flags. *)
Record reply := Reply {
  ret : Z; errno : Z; bytes : list Z; control : option cmsghdr; msg_flags : Z }.

Definition history : Type := list call.
Definition prog (A : Type) : Type := history -> outcome (A * history).

#[local] Instance prog_ret : MRet prog := fun A a h => Done (a, h).
#[local] Instance prog_bind : MBind prog := fun A B f m h =>
  match m h with
  | Done (a, h') => f a h'
  | AssertFail => AssertFail | Fault => Fault | OutOfFuel => OutOfFuel
  end.
Definition lift {A} (o : outcome A) : prog A :=
  fun h => match o with
  | Done a => Done (a, h)
  | AssertFail => AssertFail | Fault => Fault | OutOfFuel => OutOfFuel
  end.
Definition assert (b : bool) : prog unit := lift (if b then Done tt else AssertFail).

Section os.
Context (os : history -> call -> reply).

Definition sys (c : call) : prog reply := fun h => Done (os h c, h ++ [c]).

(** [do { ret = call; } while (ret < 0 && errno == EINTR);] *)
Fixpoint retry (fuel : nat) (c : call) : prog reply :=
  match fuel with
  | O => lift OutOfFuel
  | S fuel' =>
      r ← sys c;
      if (ret r <? 0) && (errno r =? EINTR) then retry fuel' c else mret r
  end.

(** [strncpy(un.sun_path, path, sizeof(un.sun_path)-1)] *)
Definition sun_path (path : string) : string :=
  String.substring 0 (Z.to_nat (SUN_PATH_SIZE - 1)) path.

Definition vhost_user_connect (path : string) : prog Z :=
  sock ← sys Socket;
  if ret sock =? -1 then mret (-1)
  else
    r ← sys (Connect (ret sock) (sun_path path));
    if ret r =? -1 then _ ← sys (Close (ret sock)); mret (-1)
    else mret (ret sock).

Definition vhost_user_listen (path : string) : prog Z :=
  sock ← sys Socket;
  if ret sock =? -1 then mret (-1)
  else
    _ ← sys (Unlink (sun_path path));
    b ← sys (Bind (ret sock) (sun_path path));
    if ret b =? -1 then _ ← sys (Close (ret sock)); mret (-1)
    else
      l ← sys (Listen (ret sock) VHOST_USER_LISTEN);
      if ret l =? -1 then _ ← sys (Close (ret sock)); mret (-1)
      else mret (ret sock).

Definition vhost_user_accept (sock : Z) : prog Z :=
  newsock ← sys (Accept sock);
  if ret newsock =? -1 then _ ← assert (errno newsock =? EAGAIN); mret (ret newsock)
  else
    f ← sys (Fcntl_nonblock (ret newsock));
    _ ← assert (ret f =? 0);
    mret (ret newsock).

(** The little-endian 32-bit field at offset [o] of a message. *)
Definition get32 (m : list Z) (o : Z) : option Z :=
  a ← zget m o; b ← zget m (o + 1); c ← zget m (o + 2); d ← zget m (o + 3);
  Some (a + 256 * b + 65536 * c + 16777216 * d).

Definition msg_size (m : list Z) : option Z := get32 m 8.

(** [iov_len] is a [size_t]. *)
Definition vhost_user_send (fuel : nat) (sock : Z) (msg : list Z) : prog Z :=
  size ← lift (acc (msg_size msg));
  r ← retry fuel (Sendmsg sock (VHOST_USER_HDR_SIZE + size));
  mret (ret r).

(** The kernel stores [bs] at offset [o] of an object. *)
Fixpoint store (m : list Z) (o : Z) (bs : list Z) : option (list Z) :=
  match bs with
  | [] => Some m
  | b :: bs' => m' ← zset m o b; store m' (o + 1) bs'
  end.

(** The copy of the descriptors: the new contents of [fds] (as bytes) and
    [*nfds].  Sizes are compared as [size_t]. *)
Definition copy_fds (c : option cmsghdr) (fds : list Z) : outcome (list Z * Z) :=
  let fd_size := 4 * VHOST_USER_MEMORY_MAX_NREGIONS in
  match c with
  | Some cm =>
      if (0 <? cmsg_len cm) && (cmsg_level cm =? SOL_SOCKET) && (cmsg_type cm =? SCM_RIGHTS)
      then
        let n := u64 (cmsg_len cm - CMSG_LEN0) in
        if n <=? fd_size then
          fds' ← acc (store fds 0 (take (Z.to_nat n) (cmsg_data cm)));
          Done (fds', n / 4)
        else Done (fds, 0)
      else Done (fds, 0)
  | None => Done (fds, 0)
  end.

Definition vhost_user_receive (fuel : nat) (sock : Z) (msg fds : list Z) :
    prog (Z * list Z * list Z * Z) :=
  r ← retry fuel (Recvmsg sock VHOST_USER_HDR_SIZE CONTROL_SIZE);
  msg ← lift (acc (store msg 0 (bytes r)));
  if ret r =? VHOST_USER_HDR_SIZE then
    if negb (Z.land (msg_flags r) (Z.lor MSG_TRUNC MSG_CTRUNC) =? 0) then
      mret (-1, msg, fds, 0)
    else
      '(fds, nfds) ← lift (copy_fds (control r) fds);
      size ← lift (acc (msg_size msg));
      if 0 <? size then
        r2 ← retry fuel (Read sock size);
        msg ← lift (acc (store msg VHOST_USER_HDR_SIZE (bytes r2)));
        mret (ret r2, msg, fds, nfds)
      else mret (ret r, msg, fds, nfds)
  else mret (ret r, msg, fds, 0).

Definition MAP_FAILED : Z := UINT64_MAX.

Definition vhost_user_map_guest_memory (fd size : Z) : prog Z :=
  ptr ← sys (Mmap fd size);
  mret (if ret ptr =? MAP_FAILED then 0 else ret ptr).

Definition vhost_user_unmap_guest_memory (ptr size : Z) : prog Z :=
  r ← sys (Munmap ptr size); mret (ret r).

Definition vhost_user_sync_shm (ptr size : Z) : prog Z :=
  r ← sys (Msync ptr size); mret (ret r).
End os.

(** ** Descriptors *)

Section owned.
Context (os : history -> call -> reply).

(** The descriptors a sequence of calls opened and did not close. *)
Fixpoint owned (h : history) (calls : list call) (fds : list Z) : list Z :=
  match calls with
  | [] => fds
  | c :: calls' =>
      let fds' := match c with
        | Socket | Accept _ => if ret (os h c) =? -1 then fds else ret (os h c) :: fds
        | Close fd => filter (fun x => x <> fd) fds
        | _ => fds
        end in
      owned (h ++ [c]) calls' fds'
  end.

(** The call [c] was made among [calls] and did not fail. *)
Fixpoint succeeded (h : history) (calls : list call) (c : call) : Prop :=
  match calls with
  | [] => False
  | c' :: calls' => (c' = c /\ ret (os h c) <> -1) \/ succeeded (h ++ [c']) calls' c
  end.
End owned.

Lemma bind_sys {A} os c (f : reply -> prog A) h :
  (sys os c ≫= f) h = f (os h c) (h ++ [c]).
Proof. done. Qed.
Lemma bind_lift {A B} (o : outcome A) (f : A -> prog B) h a :
  o = Done a -> (lift o ≫= f) h = f a h.
Proof. by intros ->. Qed.

Lemma filter_self (fd : Z) : filter (fun x => x <> fd) [fd] = [].
Proof. rewrite filter_cons_False; [done|tauto]. Qed.

(** Step through a program one system call at a time. *)
Ltac vu_step :=
  repeat first
    [ rewrite bind_sys
    | match goal with |- context [?x =? -1] => destruct (Z.eqb_spec x (-1)) end ].

(** Whatever the operating system answers, [vhost_user_listen] returns;
    when it returns -1 every socket it opened has been closed again, and
    otherwise the one descriptor it leaves open is the one it returns, bound
    to the path and listening. *)
Theorem vhost_user_listen_no_leak (os : history -> call -> reply) (path : string)
    (h : history) :
  exists v calls, vhost_user_listen os path h = Done (v, h ++ calls) /\
    owned os h calls [] = (if v =? -1 then [] else [v]) /\
    (v <> -1 -> succeeded os h calls (Bind v (sun_path path)) /\
                succeeded os h calls (Listen v VHOST_USER_LISTEN)).
Proof.
  unfold vhost_user_listen. vu_step.
  - exists (-1), [Socket]. split; [done|]. cbn. rewrite e. split; [done|congruence].
  - eexists (-1), [_; _; _; _]. split; [by rewrite <- !app_assoc|].
    cbn [owned]. rewrite (proj2 (Z.eqb_neq _ _) n), filter_self. split; [done|congruence].
  - eexists (-1), [_; _; _; _; _]. split; [by rewrite <- !app_assoc|].
    cbn [owned]. rewrite (proj2 (Z.eqb_neq _ _) n), filter_self. split; [done|congruence].
  - eexists _, [_; _; _; _]. split; [by rewrite <- !app_assoc|].
    rewrite (proj2 (Z.eqb_neq _ _) n). cbn. rewrite (proj2 (Z.eqb_neq _ _) n).
    split; [done|]. intros _. tauto.
Qed.

(** [vhost_user_connect] likewise leaves a descriptor open only when it
    returns it, connected to the path. *)
Theorem vhost_user_connect_no_leak (os : history -> call -> reply) (path : string)
    (h : history) :
  exists v calls, vhost_user_connect os path h = Done (v, h ++ calls) /\
    owned os h calls [] = (if v =? -1 then [] else [v]) /\
    (v <> -1 -> succeeded os h calls (Connect v (sun_path path))).
Proof.
  unfold vhost_user_connect. vu_step.
  - exists (-1), [Socket]. split; [done|]. cbn. rewrite e. split; [done|congruence].
  - eexists (-1), [_; _; _]. split; [by rewrite <- !app_assoc|].
    cbn [owned]. rewrite (proj2 (Z.eqb_neq _ _) n), filter_self. split; [done|congruence].
  - eexists _, [_; _]. split; [by rewrite <- !app_assoc|].
    rewrite (proj2 (Z.eqb_neq _ _) n). cbn. rewrite (proj2 (Z.eqb_neq _ _) n).
    split; [done|]. intros _. tauto.
Qed.

(** ** Interrupted calls *)

Definition interrupted (r : reply) : bool := (ret r <? 0) && (errno r =? EINTR).

(** Issued at history [h], the call [c] is interrupted [n] times before it is
    answered by [r]. *)
Definition answers (os : history -> call -> reply) (h : history) (c : call)
    (n : nat) (r : reply) : Prop :=
  (forall i, (i < n)%nat -> interrupted (os (h ++ replicate i c) c) = true) /\
  os (h ++ replicate n c) c = r /\ interrupted r = false.

Lemma retry_answers os n : forall h c r fuel,
  answers os h c n r -> (n < fuel)%nat ->
  retry os fuel c h = Done (r, h ++ replicate (S n) c).
Proof.
  induction n as [|n IH]; intros h c r [|fuel] (Hi & Hr & Hn) Hf; try lia.
  - cbn in *. rewrite app_nil_r in Hr. unfold interrupted in Hn.
    unfold mbind, prog_bind, sys. rewrite Hr, Hn. done.
  - cbn [retry]. unfold mbind, prog_bind, sys.
    pose proof (Hi 0%nat ltac:(lia)) as H0. cbn in H0. rewrite app_nil_r in H0.
    unfold interrupted in H0. rewrite H0.
    rewrite (IH (h ++ [c]) c r fuel).
    + by rewrite <- app_assoc.
    + split; [|by rewrite <- app_assoc].
      intros i Hlt. specialize (Hi (S i) ltac:(lia)). rewrite <- app_assoc. exact Hi.
    + lia.
Qed.

(** ** Buffers *)

Lemma store_middle a x c bs :
  zlen x = zlen bs -> store (a ++ x ++ c) (zlen a) bs = Some (a ++ bs ++ c).
Proof.
  revert a x. induction bs as [|b bs IH]; intros a x Hx; cbn [store].
  - destruct x; [done|]. zlen_simpl. pose proof (zlen_nonneg x). lia.
  - destruct x as [|y x]; [zlen_simpl; pose proof (zlen_nonneg bs); lia|].
    cbn [app]. rewrite zset_middle. cbn [mbind option_bind].
    replace (zlen a + 1) with (zlen (a ++ [b])) by (zlen_simpl; lia).
    rewrite (cons_middle b a (x ++ c)), app_assoc, IH by (zlen_simpl; lia).
    by rewrite <- app_assoc.
Qed.

Lemma store_overflow bs : forall m o,
  0 <= o <= zlen m -> zlen m < o + zlen bs -> store m o bs = None.
Proof.
  induction bs as [|b bs IH]; intros m o Ho Hl; zlen_simpl; [lia|]. cbn.
  destruct (zset m o b) as [m'|] eqn:E; [|done]. cbn.
  pose proof (zset_length _ _ _ _ E). apply zset_Some in E as [? _].
  apply IH; lia.
Qed.

Lemma get32_app a b o v : get32 a o = Some v -> get32 (a ++ b) o = Some v.
Proof.
  assert (G : forall i x, zget a i = Some x -> zget (a ++ b) i = Some x).
  { intros i x H. rewrite zget_app_l; [done|]. apply zget_Some_range in H. lia. }
  unfold get32. intros H. bind_inv. by erewrite !G by eassumption.
Qed.

(** [vhost_user_send] restarts an interrupted [sendmsg] and returns the
    value of the first one that is not interrupted; the length it asks for is
    that of the header and of the payload the message declares. *)
Theorem vhost_user_send_restarts (os : history -> call -> reply) (h : history)
    (sock size : Z) (msg : list Z) (n fuel : nat) (r : reply)
    (Hsize : msg_size msg = Some size)
    (Hans : answers os h (Sendmsg sock (VHOST_USER_HDR_SIZE + size)) n r)
    (Hfuel : (n < fuel)%nat) :
  vhost_user_send os fuel sock msg h =
  Done (ret r, h ++ replicate (S n) (Sendmsg sock (VHOST_USER_HDR_SIZE + size))).
Proof.
  unfold vhost_user_send. rewrite (bind_lift _ _ _ size) by (by rewrite Hsize).
  unfold mbind, prog_bind. by rewrite (retry_answers os n h _ r fuel Hans Hfuel).
Qed.

(** An operating system that interrupts the first two calls. *)
Lemma vhost_user_send_restarts_witness :
  let os := fun (h : history) (c : call) =>
    if (length h <? 2)%nat then Reply (-1) EINTR [] None 0 else Reply 20 0 [] None 0 in
  vhost_user_send os 5 7 ([1;0;0;0] ++ [0;0;0;0] ++ [8;0;0;0] ++ replicate 264 0) [] =
  Done (20, replicate 3 (Sendmsg 7 20)).
Proof.
  apply (vhost_user_send_restarts _ [] 7 8 _ 2 5 (Reply 20 0 [] None 0)).
  - by vm_compute.
  - split; [|by vm_compute]. intros i Hi. destruct i as [|[|]]; [done|done|lia].
  - lia.
Defined.

(** ** Receiving *)

(** A header of 12 bytes whose size field is [size]. *)
Definition header (hdr : list Z) (size : Z) : Prop :=
  zlen hdr = VHOST_USER_HDR_SIZE /\ msg_size hdr = Some size.

(** The descriptors in the control message, at most eight. *)
Definition passes (c : option cmsghdr) (passed : list Z) : Prop :=
  match c with
  | None => passed = []
  | Some cm =>
      cmsg_level cm = SOL_SOCKET /\ cmsg_type cm = SCM_RIGHTS /\
      cmsg_data cm = passed /\ cmsg_len cm = CMSG_LEN0 + zlen passed /\
      zlen passed <= 4 * VHOST_USER_MEMORY_MAX_NREGIONS
  end.

Lemma copy_fds_passes c passed fds :
  passes c passed -> zlen fds = 4 * VHOST_USER_MEMORY_MAX_NREGIONS ->
  copy_fds c fds = Done (passed ++ drop (length passed) fds, zlen passed / 4).
Proof.
  intros Hp Hf. destruct c as [cm|]; cbn in Hp; [|by subst].
  destruct Hp as (Hl & Ht & Hd & Hn & Hm). unfold copy_fds. rewrite Hl, Ht, Hn, Hd.
  pose proof (zlen_nonneg passed) as H0. unfold VHOST_USER_MEMORY_MAX_NREGIONS, CMSG_LEN0 in *.
  replace (0 <? 16 + zlen passed) with true by lia. rewrite !Z.eqb_refl. cbn [andb].
  replace (16 + zlen passed - 16) with (zlen passed) by lia.
  rewrite u64_small by (unfold in_u64; lia).
  destruct (Z.leb_spec (zlen passed) (4 * 8)); [|lia].
  rewrite take_ge by (unfold zlen; lia).
  pose proof (store_middle [] (take (length passed) fds) (drop (length passed) fds) passed) as Hst.
  cbn [app] in Hst. rewrite take_drop in Hst. change (zlen []) with 0 in Hst.
  rewrite Hst; [done|]. unfold zlen in *. rewrite length_take. lia.
Qed.

(** The reply to the receiving call for a header [hdr] with control message
    [c], neither truncated. *)
Definition header_reply (hdr : list Z) (c : option cmsghdr) : reply :=
  Reply VHOST_USER_HDR_SIZE 0 hdr c 0.

Lemma receive_header os h sock msg fds n fuel hdr c passed size :
  header hdr size -> zlen msg = MSG_SIZE ->
  zlen fds = 4 * VHOST_USER_MEMORY_MAX_NREGIONS -> passes c passed ->
  answers os h (Recvmsg sock VHOST_USER_HDR_SIZE CONTROL_SIZE) n (header_reply hdr c) ->
  (n < fuel)%nat ->
  exists rest, zlen rest = PAYLOAD_SIZE /\
  vhost_user_receive os fuel sock msg fds h =
  (if 0 <? size then
     r2 ← retry os fuel (Read sock size);
     msg ← lift (acc (store (hdr ++ rest) VHOST_USER_HDR_SIZE (bytes r2)));
     mret (ret r2, msg, passed ++ drop (length passed) fds, zlen passed / 4)
   else mret (VHOST_USER_HDR_SIZE, hdr ++ rest, passed ++ drop (length passed) fds,
              zlen passed / 4))
  (h ++ replicate (S n) (Recvmsg sock VHOST_USER_HDR_SIZE CONTROL_SIZE)).
Proof.
  intros [Hh Hs] Hm Hf Hp Ha Hn. exists (drop 12 msg).
  assert (Hsplit : zlen (take 12 msg) = 12 /\ zlen (drop 12 msg) = PAYLOAD_SIZE).
  { unfold zlen in *. rewrite length_take, length_drop.
    unfold MSG_SIZE, PAYLOAD_SIZE, VHOST_USER_HDR_SIZE, VHOST_USER_MEMORY_MAX_NREGIONS in *. lia. }
  split; [tauto|]. unfold vhost_user_receive. unfold mbind at 1, prog_bind at 1.
  rewrite (retry_answers os n h _ _ fuel Ha Hn). cbn [header_reply bytes ret control msg_flags].
  pose proof (store_middle [] (take 12 msg) (drop 12 msg) hdr) as Hst.
  cbn [app] in Hst. rewrite take_drop in Hst. change (zlen []) with 0 in Hst.
  rewrite (bind_lift _ _ _ (hdr ++ drop 12 msg)) by (rewrite Hst; [done|]; rewrite Hh; tauto).
  rewrite Z.eqb_refl. change (negb _) with false. cbv iota.
  rewrite (bind_lift _ _ _ _ (copy_fds_passes c passed fds Hp Hf)).
  rewrite (bind_lift _ _ _ size); [done|]. unfold msg_size.
  by rewrite (get32_app _ _ _ _ Hs).
Qed.

(** What a receiving call on a stream socket may do when [stream] is what the
    peer sends and [len] bytes are asked for: fail and store nothing, or store
    some of the next bytes, at most [len], and return their number. *)
Definition delivers (stream : list Z) (len : Z) (r : reply) : Prop :=
  (ret r = -1 /\ bytes r = []) \/
  (0 <= ret r <= len /\ bytes r = take (Z.to_nat (ret r)) stream /\ zlen (bytes r) = ret r).

Definition truncated (r : reply) : bool :=
  negb (Z.land (msg_flags r) (Z.lor MSG_TRUNC MSG_CTRUNC) =? 0).

(** The length of what was stored. *)
Lemma delivers_len stream len r : delivers stream len r -> zlen (bytes r) = Z.max 0 (ret r).
Proof. intros [[-> ->]|(H & _ & ->)]; [done|lia]. Qed.

Lemma delivers_prefix stream len r : delivers stream len r -> bytes r `prefix_of` stream.
Proof. intros [[_ ->]|(_ & -> & _)]; [apply prefix_nil|apply prefix_take]. Qed.

(** Storing at most [room] bytes behind [a]. *)
Lemma store_delivered a m stream len r :
  delivers stream len r -> 0 <= len <= zlen m ->
  exists m', store (a ++ m) (zlen a) (bytes r) = Some (a ++ bytes r ++ m') /\ zlen (bytes r ++ m') = zlen m.
Proof.
  intros Hd Hl. pose proof (delivers_len _ _ _ Hd) as Hb. assert (Hb' : zlen (bytes r) <= zlen m).
  { destruct Hd as [[E _]|(H & _ & _)]; rewrite Hb; lia. }
  exists (drop (length (bytes r)) m). rewrite <- (take_drop (length (bytes r)) m) at 1.
  rewrite store_middle by (unfold zlen in *; rewrite length_take; lia). split; [done|].
  zlen_simpl. unfold zlen in *. rewrite length_drop. lia.
Qed.

(** C34: What is received of a stream.  Let the receiving calls, after any
    number of interruptions, do what they may do on a stream socket: fail, or
    store some of the next bytes, be they fewer than asked for.  When the
    declared payload fits the union, nothing is written outside the buffers
    and the caller's buffer begins with consecutive bytes from the start of
    the stream.  A header that is not there whole ends the call with the value
    of the receiving call and no descriptors; truncation gives -1.  Otherwise
    the descriptors, at most eight, are stored and counted; without a payload
    the result is 12, and with one it is the value of the second call, so the
    message is there whole exactly when that is the declared size (a smaller
    positive value is a message of which only that part was stored). *)
Theorem vhost_user_receive_message (os : history -> call -> reply) (h : history)
    (sock size : Z) (stream msg fds passed : list Z) (r r2 : reply) (n n2 fuel : nat)
    (Hmsg : zlen msg = MSG_SIZE) (Hfds : zlen fds = 4 * VHOST_USER_MEMORY_MAX_NREGIONS)
    (Hpass : passes (control r) passed)
    (Hrecv : answers os h (Recvmsg sock VHOST_USER_HDR_SIZE CONTROL_SIZE) n r)
    (Hd : delivers stream VHOST_USER_HDR_SIZE r)
    (Hsize : ret r = VHOST_USER_HDR_SIZE ->
      msg_size (take 12 stream) = Some size /\ 0 <= size <= PAYLOAD_SIZE)
    (Hread : ret r = VHOST_USER_HDR_SIZE -> 0 < size ->
      answers os (h ++ replicate (S n) (Recvmsg sock VHOST_USER_HDR_SIZE CONTROL_SIZE)) (Read sock size) n2 r2 /\
      delivers (drop 12 stream) size r2)
    (Hfuel : (n < fuel)%nat) (Hfuel2 : (n2 < fuel)%nat) :
  exists v got rest fds' nfds h',
    vhost_user_receive os fuel sock msg fds h = Done ((v, got ++ rest, fds', nfds), h') /\
    zlen (got ++ rest) = MSG_SIZE /\ got `prefix_of` stream /\
    0 <= nfds <= VHOST_USER_MEMORY_MAX_NREGIONS /\
    (ret r <> VHOST_USER_HDR_SIZE -> v = ret r /\ zlen got = Z.max 0 v /\ fds' = fds /\ nfds = 0) /\
    (ret r = VHOST_USER_HDR_SIZE -> truncated r = true -> v = -1 /\ zlen got = 12 /\ fds' = fds /\ nfds = 0) /\
    (ret r = VHOST_USER_HDR_SIZE -> truncated r = false ->
      fds' = passed ++ drop (length passed) fds /\ nfds = zlen passed / 4 /\
      (size = 0 -> v = 12 /\ zlen got = 12) /\
      (0 < size -> v = ret r2 /\ zlen got = 12 + Z.max 0 v)).
Proof.
  unfold vhost_user_receive. unfold mbind at 1, prog_bind at 1.
  rewrite (retry_answers os n h _ r fuel Hrecv Hfuel).
  assert (Hm12 : 0 <= 12 <= zlen msg) by (rewrite Hmsg; by vm_compute).
  destruct (store_delivered [] msg stream 12 r Hd Hm12) as (m' & Hst & Hl). cbn [app] in Hst. change (zlen []) with 0 in Hst.
  rewrite (bind_lift _ _ _ _ (f_equal acc Hst)). rewrite Hmsg in Hl.
  pose proof (delivers_len _ _ _ Hd) as Hbl. pose proof (delivers_prefix _ _ _ Hd) as Hbp.
  destruct (Z.eqb_spec (ret r) VHOST_USER_HDR_SIZE) as [E|E].
  2: { eexists _, _, _, _, _, _. split; [done|]. split; [done|]. split; [done|]. split; [by vm_compute|]. split_and!; done. }
  rewrite E in Hbl. change (Z.max 0 VHOST_USER_HDR_SIZE) with 12 in Hbl. fold (truncated r).
  destruct (truncated r) eqn:Et.
  { eexists _, _, _, _, _, _. split; [done|]. split; [done|]. split; [done|]. split; [by vm_compute|]. split_and!; done. }
  rewrite (bind_lift _ _ _ _ (copy_fds_passes _ passed fds Hpass Hfds)).
  destruct (Hsize E) as [Hs Hr]. specialize (Hread E).
  assert (Hb : bytes r = take 12 stream).
  { destruct Hd as [[Ef _]|(_ & -> & _)]; [by rewrite E in Ef|by rewrite E]. }
  rewrite (bind_lift _ _ _ size) by (unfold msg_size in *; by rewrite Hb, (get32_app _ _ _ _ Hs)).
  assert (Hn8 : 0 <= zlen passed / 4 <= VHOST_USER_MEMORY_MAX_NREGIONS).
  { pose proof (zlen_nonneg passed). unfold VHOST_USER_MEMORY_MAX_NREGIONS.
    destruct (control r) as [cm|]; cbn in Hpass; [|by subst]. unfold VHOST_USER_MEMORY_MAX_NREGIONS in Hpass. zlia. }
  destruct (Z.ltb_spec 0 size) as [Hp|Hp].
  - destruct (Hread Hp) as [Ha2 Hd2]. unfold mbind at 1, prog_bind at 1.
    rewrite (retry_answers os n2 _ _ r2 fuel Ha2 Hfuel2).
    assert (Hm' : zlen m' = PAYLOAD_SIZE) by (rewrite zlen_app in Hl; unfold MSG_SIZE, VHOST_USER_HDR_SIZE in Hl; lia).
    destruct (store_delivered (bytes r) m' _ size r2 Hd2 ltac:(lia)) as (m2 & Hst2 & Hl2).
    rewrite Hbl in Hst2. rewrite (bind_lift _ _ _ _ (f_equal acc Hst2)).
    exists (ret r2), (bytes r ++ bytes r2), m2. eexists _, _, _. split; [by rewrite <- (app_assoc (bytes r))|].
    rewrite <- app_assoc, !zlen_app, Hbl, (delivers_len _ _ _ Hd2). rewrite zlen_app, (delivers_len _ _ _ Hd2) in Hl2.
    split; [unfold MSG_SIZE, VHOST_USER_HDR_SIZE; lia|]. split.
    { rewrite Hb. rewrite <- (take_drop 12 stream) at 2. apply prefix_app. by eapply delivers_prefix. }
    split_and!; try done; try lia; try (intros; split_and!; done || lia).
  - eexists _, _, _, _, _, _. split; [done|]. split; [done|]. split; [done|]. split; [exact Hn8|].
    rewrite E. split; [done|]. split; [done|]. intros _ _.
    split_and!; [done|done|intros; by split_and!|lia].
Qed.

(** An operating system that interrupts the first receiving and the first
    reading call and then gives a header with one descriptor and [k] bytes of
    the payload: with [k = 8] the message is there, with [k = 5] in part. *)
Lemma vhost_user_receive_message_witness :
  let hdr := [2;0;0;0; 1;0;0;0; 8;0;0;0] in
  let body := [10; 11; 12; 13; 14; 15; 16; 17] in
  let r := Reply 12 0 hdr (Some (Cmsg 20 SOL_SOCKET SCM_RIGHTS [5; 0; 0; 0])) 0 in
  let os := fun (k : Z) (h : history) (c : call) =>
    if (length h =? 0)%nat || (length h =? 2)%nat then Reply (-1) EINTR [] None 0
    else match c with Recvmsg _ _ _ => r | _ => Reply k 0 (take (Z.to_nat k) body) None 0 end in
  (exists rest h', vhost_user_receive (os 8) 2 3 (replicate 276 0) (replicate 32 9) [] =
     Done ((8, (hdr ++ body) ++ rest, [5; 0; 0; 0] ++ replicate 28 9, 1), h')) /\
  (exists rest h', vhost_user_receive (os 5) 2 3 (replicate 276 0) (replicate 32 9) [] =
     Done ((5, (hdr ++ take 5 body) ++ rest, [5; 0; 0; 0] ++ replicate 28 9, 1), h')).
Proof.
  intros hdr body r os.
  assert (H : forall k, 0 <= k <= 8 -> exists rest h',
    vhost_user_receive (os k) 2 3 (replicate 276 0) (replicate 32 9) [] =
      Done ((k, (hdr ++ take (Z.to_nat k) body) ++ rest, [5; 0; 0; 0] ++ replicate 28 9, 1), h')).
  { intros k Hk. set (r2 := Reply k 0 (take (Z.to_nat k) body) None 0).
    assert (Hb : zlen (take (Z.to_nat k) body) = k) by (unfold zlen; rewrite length_take; cbn; lia).
    destruct (vhost_user_receive_message (os k) [] 3 8 (hdr ++ body) (replicate 276 0) (replicate 32 9) [5; 0; 0; 0] r r2 1 1 2)
      as (v & got & rest & fds' & nfds & h' & E & Hl & Hp & _ & _ & _ & Hok).
    - done.
    - done.
    - by split_and!.
    - split; [|done]. intros i Hi. assert (i = 0%nat) as -> by lia. reflexivity.
    - right. by split_and!.
    - intros _. split; [reflexivity|]. by split.
    - intros _ _. split.
      + split; [intros i Hi; assert (i = 0%nat) as -> by lia; reflexivity|]. split; [reflexivity|].
        unfold interrupted, r2. cbn [ret errno]. replace (k <? 0) with false by lia. done.
      + right. unfold r2. cbn [ret bytes]. split_and!; [lia|lia|done|done].
    - lia.
    - lia.
    - destruct Hok as (-> & -> & _ & Hv); [done|done|]. destruct Hv as [-> Hg]; [lia|]. cbn [ret r2] in *.
      exists rest, h'. replace (hdr ++ take (Z.to_nat k) body) with got; [exact E|].
      destruct Hp as [x Hx]. assert (Hgot : got = take (length got) (hdr ++ body)) by (by rewrite Hx, take_app_length).
      rewrite Hgot. replace (length got) with (length hdr + Z.to_nat k)%nat by (unfold zlen in Hg; cbn; lia).
      by rewrite take_app_add. }
  split; [apply (H 8)|apply (H 5)]; lia.
Defined.

(** C40: the payload length is taken from the peer unchecked: a header that
    declares more than the union holds, followed by that many bytes, makes
    the function write behind the message buffer. *)
Theorem vhost_user_receive_overflows (os : history -> call -> reply) (h : history)
    (sock size : Z) (msg fds hdr body : list Z) (n n2 fuel : nat)
    (Hhdr : header hdr size) (Hbody : zlen body = size)
    (Hbig : PAYLOAD_SIZE < size)
    (Hmsg : zlen msg = MSG_SIZE) (Hfds : zlen fds = 4 * VHOST_USER_MEMORY_MAX_NREGIONS)
    (Hrecv : answers os h (Recvmsg sock VHOST_USER_HDR_SIZE CONTROL_SIZE) n (header_reply hdr None))
    (Hread : answers os (h ++ replicate (S n) (Recvmsg sock VHOST_USER_HDR_SIZE CONTROL_SIZE))
               (Read sock size) n2 (Reply size 0 body None 0))
    (Hfuel : (n < fuel)%nat) (Hfuel2 : (n2 < fuel)%nat) :
  vhost_user_receive os fuel sock msg fds h = Fault.
Proof.
  destruct (receive_header os h sock msg fds n fuel hdr None [] size) as (rest & Hr & ->);
    try done.
  replace (0 <? size) with true by (unfold PAYLOAD_SIZE, VHOST_USER_MEMORY_MAX_NREGIONS in *; lia).
  unfold mbind at 1, prog_bind at 1.
  rewrite (retry_answers os n2 _ _ _ fuel Hread Hfuel2). cbn [bytes ret].
  destruct Hhdr as [Hh _]. unfold mbind, prog_bind.
  rewrite store_overflow; [done|rewrite zlen_app, Hh, Hr..].
  - by vm_compute.
  - lia.
Qed.

Lemma vhost_user_receive_overflows_witness :
  let hdr := [5;0;0;0; 1;0;0;0; 0;4;0;0] in
  let os := fun (h : history) (c : call) =>
    match c with Recvmsg _ _ _ => header_reply hdr None
    | _ => Reply 1024 0 (replicate 1024 255) None 0 end in
  vhost_user_receive os 1 3 (replicate 276 0) (replicate 32 0) [] = Fault.
Proof.
  intros hdr os.
  apply (vhost_user_receive_overflows os [] 3 1024 (replicate 276 0) (replicate 32 0) hdr
    (replicate 1024 255) 0 0 1); try done;
    first [by vm_compute|lia|split; [intros; lia|done]].
Defined.
End VhostUser.
