(* ===== verification/OsGlue.v ===== *)
(** * OsGlue

    Two small C files that wrap system calls: [core/lib.c] (clocks, sleeping,
    file times) and [lib/ipc/shmem/shmem.c] (growing shared memory regions).
    The kernel's answers are arguments; what the wrappers compute from them
    and what they leave behind on each path is proved. *)
From stdpp Require Import base tactics numbers list gmap.
From Stdlib Require Import ZArith Lia.
From S2P Require Import Prelude.
Open Scope Z_scope.

Module CoreLib.

(** [struct timespec]. *)
Record timespec := Timespec { tv_sec : Z; tv_nsec : Z }.

(** [ts.tv_sec * 1000000000LL + ts.tv_nsec] returned as [uint64_t]; the
    products are signed 64-bit, [None] where they overflow. *)
Definition in_i64 (x : Z) : bool :=
  (-9223372036854775808 <=? x) && (x <? 9223372036854775808).

Definition get_time_ns (ts : timespec) : option Z :=
  let p := tv_sec ts * 1000000000 in
  if in_i64 p && in_i64 (p + tv_nsec ts) then Some (u64 (p + tv_nsec ts)) else None.

(** What the kernel's [nanosleep] does with its argument. *)
Inductive nanosleep_result := Slept (t : timespec) | EINVAL.

Definition nanosleep (t : timespec) : nanosleep_result :=
  if (tv_sec t <? 0) || (tv_nsec t <? 0) || (999999999 <? tv_nsec t) then EINVAL else Slept t.

(** [time] is a static object: its [tv_sec] is never assigned. *)
Definition sleep_ns (time : timespec) (nanoseconds : Z) : timespec * nanosleep_result :=
  let time := Timespec (tv_sec time) nanoseconds in (time, nanosleep time).

(** [stat] gives the modification time or fails; [unsigned int] result. *)
Definition stat_mtime (st : option Z) : Z :=
  match st with Some st_mtime => u32 st_mtime | None => 0 end.

Definition time_static : timespec := Timespec 0 0.

Definition ts_wf (ts : timespec) : Prop := 0 <= tv_sec ts /\ 0 <= tv_nsec ts < 1000000000.

Definition ts_le (a b : timespec) : Prop :=
  tv_sec a < tv_sec b \/ (tv_sec a = tv_sec b /\ tv_nsec a <= tv_nsec b).

Fixpoint sleeps (time : timespec) (ns : list Z) : timespec * list nanosleep_result :=
  match ns with
  | [] => (time, [])
  | n :: ns' =>
      let r := sleep_ns time n in
      let rest := sleeps r.1 ns' in (rest.1, r.2 :: rest.2)
  end.

(** The lexicographic order of normalised times is the order of their
    nanosecond counts. *)
Lemma ts_le_ns a b : ts_wf a -> ts_wf b ->
  ts_le a b <->
  tv_sec a * 1000000000 + tv_nsec a <= tv_sec b * 1000000000 + tv_nsec b.
Proof. unfold ts_wf, ts_le. intros Ha Hb. split; lia. Qed.

(** For the readings of a clock up to 292 years after its epoch,
    [get_time_ns] does not overflow and orders times as the clock does; two
    readings have the same value only when they are equal. *)
Theorem get_time_ns_monotone (a b : timespec)
    (Ha : ts_wf a) (Hb : ts_wf b)
    (Ha' : tv_sec a < 9223372036) (Hb' : tv_sec b < 9223372036) :
  exists x y, get_time_ns a = Some x /\ get_time_ns b = Some y /\
    (ts_le a b <-> x <= y) /\ (x = y -> a = b).
Proof.
  assert (G : forall t, ts_wf t -> tv_sec t < 9223372036 ->
    get_time_ns t = Some (tv_sec t * 1000000000 + tv_nsec t)).
  { intros t [Hs Hn] Hlt. unfold get_time_ns, in_i64.
    repeat match goal with |- context [?x <=? ?y] => replace (x <=? y) with true by lia end.
    repeat match goal with |- context [?x <? ?y] => replace (x <? y) with true by lia end.
    cbn [andb]. by rewrite u64_small by (unfold in_u64; lia). }
  eexists _, _. split; [by apply G|]. split; [by apply G|]. split; [by apply ts_le_ns|].
  destruct a as [sa na], b as [sb nb], Ha, Hb. cbn in *. intros Heq.
  assert (sa = sb) by lia. subst. f_equal. lia.
Qed.

Lemma get_time_ns_monotone_witness :
  exists x y, get_time_ns (Timespec 5 999999999) = Some x /\
    get_time_ns (Timespec 6 0) = Some y /\
    (ts_le (Timespec 5 999999999) (Timespec 6 0) <-> x <= y) /\
    (x = y -> Timespec 5 999999999 = Timespec 6 0).
Proof. apply get_time_ns_monotone; cbn; unfold ts_wf; cbn; lia. Defined.

(** Through any sequence of calls the static [time.tv_sec] stays 0, so
    [sleep_ns] sleeps for exactly its argument when that is below one second
    and does not sleep at all otherwise. *)
Theorem sleep_ns_exact (ns : list Z) :
  tv_sec (sleeps time_static ns).1 = 0 /\
  (sleeps time_static ns).2 =
    map (fun n => if bool_decide (0 <= n < 1000000000) then Slept (Timespec 0 n) else EINVAL) ns.
Proof.
  assert (G : forall t, tv_sec t = 0 ->
    tv_sec (sleeps t ns).1 = 0 /\ (sleeps t ns).2 =
      map (fun n => if bool_decide (0 <= n < 1000000000) then Slept (Timespec 0 n) else EINVAL) ns).
  { induction ns as [|n ns IH]; intros t Ht; [done|]. cbn [sleeps map fst snd sleep_ns].
    destruct (IH (Timespec (tv_sec t) n) Ht) as [H1 H2]. split; [done|]. rewrite H2. f_equal.
    unfold nanosleep. cbn [tv_sec tv_nsec]. rewrite Ht. case_bool_decide;
      destruct (Z.ltb_spec n 0), (Z.ltb_spec 999999999 n); first [done|lia]. }
  by apply G.
Qed.
End CoreLib.

Module Shmem.

(** The address space (start and size of each mapping) and the length of the
    file behind the handle. *)
Record state := State { mappings : list (Z * Z); file_size : Z }.

(** The kernel's answers. *)
Record kernel := Kernel {
  munmap_ok : bool; ftruncate_ok : bool;
  mmap_at : Z -> option Z (* the address chosen for a hint, or failure *) }.

Definition NULL : Z := 0.

Definition shmem_unmap (k : kernel) (s : state) (mem size : Z) : state * bool :=
  if munmap_ok k
  then (State (filter (fun m => m <> (mem, size)) (mappings s)) (file_size s), true)
  else (s, false).

Definition shmem_grow (k : kernel) (s : state) (old_mem old_size new_size : Z) : state * Z :=
  let '(s, ok) :=
    if old_mem =? NULL then (s, true) else shmem_unmap k s old_mem old_size in
  if negb ok then (s, NULL)
  else if negb (ftruncate_ok k) then (s, NULL)
  else
    let s := State (mappings s) new_size in
    match mmap_at k old_mem with
    | None => (s, NULL)
    | Some mem => (State ((mem, new_size) :: mappings s) (file_size s), mem)
    end.

Definition shmem_attach (k : kernel) (s : state) (length : Z) : state * Z :=
  match mmap_at k NULL with
  | None => (s, NULL)
  | Some mem => (State ((mem, length) :: mappings s) (file_size s), mem)
  end.

(** [shmem_grow] returns NULL exactly when a system call failed.  On
    success the region at the returned address covers the grown file and the
    old region is gone, all other mappings being kept; a failed unmapping
    changes nothing, and after any later failure the old region is gone
    too, so the caller holds no mapping of the file. *)
Theorem shmem_grow_branches (k : kernel) (s : state) (old_mem old_size new_size : Z)
    (Hmap : forall hint m, mmap_at k hint = Some m -> m <> NULL) :
  let '(s', mem) := shmem_grow k s old_mem old_size new_size in
  let kept := filter (fun m => m <> (old_mem, old_size)) (mappings s) in
  (mem <> NULL <-> (old_mem = NULL \/ munmap_ok k = true) /\ ftruncate_ok k = true /\
                   mmap_at k old_mem <> None) /\
  (mem <> NULL -> file_size s' = new_size /\ (mem, new_size) ∈ mappings s') /\
  (old_mem <> NULL -> mem <> NULL -> mappings s' = (mem, new_size) :: kept) /\
  (old_mem <> NULL -> mem = NULL -> munmap_ok k = true -> mappings s' = kept) /\
  (old_mem <> NULL -> munmap_ok k = false -> s' = s).
Proof.
  unfold shmem_grow, shmem_unmap. destruct (Z.eqb_spec old_mem NULL) as [Ho|Ho];
    destruct (munmap_ok k), (ftruncate_ok k), (mmap_at k old_mem) as [mem|] eqn:Em;
    cbn; try (pose proof (Hmap _ _ Em)); repeat split; try done; try tauto;
    try (intros; left); try (intros [? [? ?]]; congruence); intuition congruence.
Qed.

Lemma shmem_grow_branches_witness :
  let k := Kernel true true (fun h => Some (if h =? 0 then 4096 else h)) in
  let s' := shmem_grow k (State [(4096, 10); (8192, 5)] 10) 4096 10 20 in
  s'.2 <> NULL /\ mappings s'.1 = [(4096, 20); (8192, 5)].
Proof.
  intros k s'.
  pose proof (shmem_grow_branches k (State [(4096, 10); (8192, 5)] 10) 4096 10 20) as H.
  fold s' in H. cbv zeta in H.
  destruct s' as [st mem] eqn:E. vm_compute in E. injection E as <- <-.
  destruct H as (_ & _ & H3 & _).
  - intros hint m Hm. cbn in Hm. destruct (Z.eqb_spec hint 0); injection Hm as <-; done.
  - split; [done|]. apply H3; done.
Defined.
End Shmem.
