(* ===== verification/LjArith.v ===== *)
(** * LjArith

    Integer arithmetic of the Lua virtual machine the program runs on
    ([lib/luajit/src]): the Tausworthe generator of [lj_prng.c], the 64-bit
    cdata arithmetic and shifts of [lj_carith.c], and the integer modulo of
    [lj_vmmath.c]. *)
From stdpp Require Import base tactics numbers list.
From Stdlib Require Import ZArith Lia.
From S2P Require Import Prelude.
Open Scope Z_scope.

Module Prng.

(** [PRNGState]: four 64-bit words. *)
Record PRNGState := RS { u0 : Z; u1 : Z; u2 : Z; u3 : Z }.

(** The update of one generator in [TW223_GEN]; shifts of [uint64_t]. *)
Definition TW223_GEN (z k q s : Z) : Z :=
  Z.lxor
    (Z.shiftr (Z.lxor (u64 (Z.shiftl z q)) z) (k - s))
    (u64 (Z.shiftl (Z.land z (u64 (Z.shiftl (-1) (64 - k)))) s)).

(** [TW223_STEP]: the new state and the xor of its words. *)
Definition TW223_STEP (rs : PRNGState) : PRNGState * Z :=
  let z0 := TW223_GEN (u0 rs) 63 31 18 in
  let z1 := TW223_GEN (u1 rs) 58 19 28 in
  let z2 := TW223_GEN (u2 rs) 55 24 7 in
  let z3 := TW223_GEN (u3 rs) 47 21 8 in
  (RS z0 z1 z2 z3, Z.lxor (Z.lxor (Z.lxor z0 z1) z2) z3).

Definition lj_prng_u64 (rs : PRNGState) : PRNGState * Z := TW223_STEP rs.

Definition lj_prng_u64d (rs : PRNGState) : PRNGState * Z :=
  let '(rs', r) := TW223_STEP rs in
  (rs', Z.lor (Z.land r 0x000fffffffffffff) 0x3ff0000000000000).

Definition lj_prng_condition (rs : PRNGState) : PRNGState :=
  let f (u b : Z) := if u <? Z.shiftl 1 b then u64 (u + Z.shiftl 1 b) else u in
  RS (f (u0 rs) 1) (f (u1 rs) 6) (f (u2 rs) 9) (f (u3 rs) 17).

Definition lj_prng_seed_fixed : PRNGState :=
  RS 0xa0d277570a345b8c 0x764a296c5d4aa64f 0x51220704070adeaa 0x2a2717b5a7b7b927.

(** [getrandom] and [urandom] are what the two sources filled in, when they
    filled all 32 bytes. *)
Definition lj_prng_seed_secure (rs : PRNGState) (getrandom urandom : option PRNGState) :
    PRNGState * bool :=
  match getrandom with
  | Some seed => ((lj_prng_u64 (lj_prng_condition seed)).1, true)
  | None =>
      match urandom with
      | Some seed => ((lj_prng_u64 (lj_prng_condition seed)).1, true)
      | None => (rs, false)
      end
  end.

Fixpoint steps (n : nat) (rs : PRNGState) : PRNGState :=
  match n with O => rs | S n' => steps n' (lj_prng_u64 rs).1 end.

(** ** The state never degenerates *)

(** One of the [k] most significant bits of the 64-bit word [z] is set. *)
Definition msb_nonzero (k z : Z) : Prop := in_u64 z /\ Z.shiftr z (64 - k) <> 0.

Definition conditioned (rs : PRNGState) : Prop :=
  msb_nonzero 63 (u0 rs) /\ msb_nonzero 58 (u1 rs) /\
  msb_nonzero 55 (u2 rs) /\ msb_nonzero 47 (u3 rs).

Lemma testbit_u64 x n : 0 <= n < 64 -> Z.testbit (u64 x) n = Z.testbit x n.
Proof.
  intros Hn. unfold u64. change 18446744073709551616 with (2 ^ 64).
  by rewrite Z.mod_pow2_bits_low by lia.
Qed.

Lemma testbit_u64_high x n : 64 <= n -> Z.testbit (u64 x) n = false.
Proof.
  intros Hn. unfold u64. change 18446744073709551616 with (2 ^ 64).
  apply Z.mod_pow2_bits_high. lia.
Qed.

Lemma in_u64_bits z : 0 <= z -> (forall n, 64 <= n -> Z.testbit z n = false) -> in_u64 z.
Proof.
  intros H0 H. replace z with (u64 z); [apply u64_range|].
  apply Z.bits_inj'. intros n Hn. destruct (Z.lt_ge_cases n 64).
  - by apply testbit_u64.
  - by rewrite H, testbit_u64_high by lia.
Qed.

Lemma u64_bits_high z n : in_u64 z -> 64 <= n -> Z.testbit z n = false.
Proof. intros Hz Hn. rewrite <- (u64_small z Hz). by apply testbit_u64_high. Qed.

(** The bits of the new word. *)
Lemma TW223_GEN_bit z k q s n :
  in_u64 z -> 0 <= q < 64 -> 0 < s < k -> k <= 64 -> 0 <= n < 64 ->
  Z.testbit (TW223_GEN z k q s) n =
  xorb (let m := n + (k - s) in
        if m <? 64 then xorb ((q <=? m) && Z.testbit z (m - q)) (Z.testbit z m) else false)
       ((64 - k <=? n - s) && Z.testbit z (n - s)).
Proof.
  intros Hz Hq Hs Hk Hn. unfold TW223_GEN. rewrite Z.lxor_spec. f_equal.
  - rewrite Z.shiftr_spec, Z.lxor_spec by lia. cbv zeta.
    destruct (Z.ltb_spec (n + (k - s)) 64).
    + rewrite testbit_u64 by lia. f_equal.
      destruct (Z.leb_spec q (n + (k - s))); [by rewrite Z.shiftl_spec by lia|].
      by rewrite Z.shiftl_spec_low by lia.
    + by rewrite testbit_u64_high, (u64_bits_high z _ Hz) by lia.
  - rewrite testbit_u64 by lia. destruct (Z.leb_spec (64 - k) (n - s)).
    + rewrite Z.shiftl_spec, Z.land_spec, testbit_u64 by lia.
      rewrite Z.shiftl_spec, Z.bits_m1 by lia. by rewrite andb_true_r.
    + cbn [andb]. destruct (Z.lt_ge_cases n s); [by apply Z.shiftl_spec_low|].
      rewrite Z.shiftl_spec, Z.land_spec, testbit_u64 by lia.
      rewrite Z.shiftl_spec_low by lia. by rewrite andb_false_r.
Qed.

Lemma TW223_GEN_range z k q s : in_u64 z -> 0 <= q -> 0 < s < k -> in_u64 (TW223_GEN z k q s).
Proof.
  intros Hz Hq Hs. unfold TW223_GEN. apply in_u64_bits.
  - apply Z.lxor_nonneg. pose proof (u64_range (Z.shiftl z q)).
    pose proof (u64_range (Z.shiftl (Z.land z (u64 (Z.shiftl (-1) (64 - k)))) s)).
    rewrite Z.shiftr_nonneg, Z.lxor_nonneg. unfold in_u64 in *. lia.
  - intros n Hn. rewrite Z.lxor_spec, Z.shiftr_spec, Z.lxor_spec by lia.
    by rewrite !testbit_u64_high, (u64_bits_high z _ Hz) by lia.
Qed.

Lemma msb_zero_bits z k : 0 <= k <= 64 ->
  Z.shiftr z (64 - k) = 0 -> forall n, 64 - k <= n -> Z.testbit z n = false.
Proof.
  intros Hk H n Hn. replace n with ((n - (64 - k)) + (64 - k)) by lia.
  rewrite <- Z.shiftr_spec by lia. by rewrite H, Z.bits_0.
Qed.

(** If the [k] top bits of the new word are all zero, so were those of the
    old one: the recurrence on the top bits is injective. *)
Lemma TW223_GEN_nonzero z k q s :
  0 < q < 64 -> 0 < s < k -> k <= 64 -> s + q <= k ->
  msb_nonzero k z -> msb_nonzero k (TW223_GEN z k q s).
Proof.
  intros Hq Hs Hk Hsq [Hz Hnz]. split; [apply TW223_GEN_range; try done; lia|].
  intros H0. apply Hnz. pose proof (msb_zero_bits _ k ltac:(lia) H0) as Hb.
  (* the bits that moved up by [s] *)
  assert (Hlow : forall j, 64 - k <= j < 64 - s -> Z.testbit z j = false).
  { intros j Hj. specialize (Hb (j + s) ltac:(lia)).
    rewrite TW223_GEN_bit in Hb by (done || lia). cbv zeta in Hb.
    replace (j + s + (k - s) <? 64) with false in Hb by lia.
    replace (64 - k <=? j + s - s) with true in Hb by lia.
    replace (j + s - s) with j in Hb by lia. by destruct (Z.testbit z j). }
  (* the [s] fresh bits, from below *)
  assert (Hall : forall m : nat, forall j, j < 64 - s + Z.of_nat m -> 64 - k <= j < 64 ->
    Z.testbit z j = false).
  { induction m as [|m IH]; intros j Hj Hr; [apply Hlow; lia|].
    destruct (Z.lt_ge_cases j (64 - s + Z.of_nat m)); [by apply IH|].
    specialize (Hb (j - (k - s)) ltac:(lia)).
    rewrite TW223_GEN_bit in Hb by (done || lia). cbv zeta in Hb.
    replace (j - (k - s) + (k - s)) with j in Hb by lia.
    replace (j <? 64) with true in Hb by lia.
    replace (q <=? j) with true in Hb by lia.
    rewrite (IH (j - q)) in Hb by lia.
    replace (64 - k <=? j - (k - s) - s) with false in Hb by lia.
    by destruct (Z.testbit z j). }
  apply Z.bits_inj'. intros n Hn. rewrite Z.shiftr_spec, Z.bits_0 by lia.
  destruct (Z.lt_ge_cases (n + (64 - k)) 64).
  - apply (Hall (Z.to_nat s)); lia.
  - apply u64_bits_high; [done|lia].
Qed.

Lemma lj_prng_u64_conditioned rs : conditioned rs -> conditioned (lj_prng_u64 rs).1.
Proof.
  intros (H0 & H1 & H2 & H3).
  repeat split; cbn [lj_prng_u64 TW223_STEP fst u0 u1 u2 u3];
    apply TW223_GEN_nonzero; done || lia.
Qed.

Lemma condition_word u b :
  0 <= b < 64 -> in_u64 u ->
  msb_nonzero (64 - b) (if u <? Z.shiftl 1 b then u64 (u + Z.shiftl 1 b) else u).
Proof.
  intros Hb Hu. rewrite Z.shiftl_1_l. assert (Hp : 0 < 2 ^ b) by (apply Z.pow_pos_nonneg; lia).
  assert (Hp2 : 2 * 2 ^ b <= 2 ^ 64).
  { rewrite <- Z.pow_succ_r by lia. apply Z.pow_le_mono_r; lia. }
  change (2 ^ 64) with 18446744073709551616 in Hp2.
  assert (G : forall v, in_u64 v -> 2 ^ b <= v -> msb_nonzero (64 - b) v).
  { intros v Hv Hge. split; [done|]. rewrite Z.shiftr_div_pow2 by lia.
    replace (64 - (64 - b)) with b by lia.
    pose proof (Z.div_le_lower_bound v (2 ^ b) 1 Hp ltac:(lia)). lia. }
  unfold in_u64 in *. destruct (Z.ltb_spec u (2 ^ b)).
  - rewrite u64_small by (unfold in_u64; lia). apply G; lia.
  - by apply G.
Qed.

Lemma lj_prng_condition_conditioned rs :
  in_u64 (u0 rs) -> in_u64 (u1 rs) -> in_u64 (u2 rs) -> in_u64 (u3 rs) ->
  conditioned (lj_prng_condition rs).
Proof.
  intros H0 H1 H2 H3.
  pose proof (condition_word _ 1 ltac:(lia) H0). pose proof (condition_word _ 6 ltac:(lia) H1).
  pose proof (condition_word _ 9 ltac:(lia) H2). pose proof (condition_word _ 17 ltac:(lia) H3).
  split; [|split; [|split]]; assumption.
Qed.

Lemma steps_conditioned n rs : conditioned rs -> conditioned (steps n rs).
Proof.
  revert rs. induction n as [|n IH]; intros rs H; [done|].
  cbn [steps]. by apply IH, lj_prng_u64_conditioned.
Qed.

(** C38: whatever entropy the operating system supplies, a successful
    [lj_prng_seed_secure] leaves a state, and so does the fixed seed, from
    which no number of steps reaches a word whose significant bits are all
    zero (where that generator would be stuck), and every value of
    [lj_prng_u64d] on the way is the bit pattern of a double in [1, 2). *)
Theorem prng_never_degenerates (rs seed : PRNGState) (gr ur : option PRNGState) (n : nat)
    (Hgr : forall s, gr = Some s \/ ur = Some s ->
      in_u64 (u0 s) /\ in_u64 (u1 s) /\ in_u64 (u2 s) /\ in_u64 (u3 s))
    (Hseed : lj_prng_seed_secure rs gr ur = (seed, true) \/ seed = lj_prng_seed_fixed) :
  conditioned (steps n seed) /\
  0x3ff0000000000000 <= (lj_prng_u64d (steps n seed)).2 < 0x4000000000000000.
Proof.
  split.
  - apply steps_conditioned. destruct Hseed as [Hs| ->].
    + unfold lj_prng_seed_secure in Hs.
      assert (G : forall s, gr = Some s \/ ur = Some s ->
        conditioned (lj_prng_u64 (lj_prng_condition s)).1).
      { intros s Hin. destruct (Hgr s Hin) as (? & ? & ? & ?).
        by apply lj_prng_u64_conditioned, lj_prng_condition_conditioned. }
      destruct gr as [s|]; [|destruct ur as [s|]; [|done]]; injection Hs as <-; apply G; auto.
    + by repeat split; vm_compute.
  - unfold lj_prng_u64d. destruct (TW223_STEP _) as [rs' r]. cbn [snd].
    change 0x000fffffffffffff with (2 ^ 52 - 1). rewrite land_pow2_mask by lia.
    pose proof (Z.mod_pos_bound r (2 ^ 52) ltac:(lia)) as Hr.
    assert (E : Z.land (r mod 2 ^ 52) 0x3ff0000000000000 = 0).
    { change 0x3ff0000000000000 with (Z.shiftl 0x3ff 52).
      apply Z.bits_inj'. intros i Hi. rewrite Z.land_spec, Z.bits_0.
      destruct (Z.lt_ge_cases i 52).
      - rewrite Z.shiftl_spec_low by lia. apply andb_false_r.
      - by rewrite Z.mod_pow2_bits_high by lia. }
    pose proof (Z.add_lor_land (r mod 2 ^ 52) 0x3ff0000000000000) as Ha. rewrite E in Ha.
    change (2 ^ 52) with 4503599627370496 in *. lia.
Qed.

Lemma prng_never_degenerates_witness :
  conditioned (steps 3 lj_prng_seed_fixed) /\
  0x3ff0000000000000 <= (lj_prng_u64d (steps 3 lj_prng_seed_fixed)).2 < 0x4000000000000000.
Proof.
  apply (prng_never_degenerates (RS 0 0 0 0) lj_prng_seed_fixed None None 3).
  - intros s [H|H]; discriminate H.
  - by right.
Defined.
End Prng.

Module Carith.

(** [lj_rol] and [lj_ror] on a 64-bit operand. *)
Definition rol64 (x n : Z) : Z :=
  Z.lor (u64 (Z.shiftl x n)) (Z.shiftr x (Z.land (- n) 63)).
Definition ror64 (x n : Z) : Z :=
  Z.lor (u64 (Z.shiftl x (Z.land (- n) 63))) (Z.shiftr x n).

Definition lj_carith_shl64 (x sh : Z) : Z := u64 (Z.shiftl x (Z.land sh 63)).
Definition lj_carith_shr64 (x sh : Z) : Z := Z.shiftr x (Z.land sh 63).
Definition lj_carith_sar64 (x sh : Z) : Z := u64 (Z.shiftr (i64 x) (Z.land sh 63)).
Definition lj_carith_rol64 (x sh : Z) : Z := rol64 x (Z.land sh 63).
Definition lj_carith_ror64 (x sh : Z) : Z := ror64 x (Z.land sh 63).

Inductive shift_op := BSHL | BSHR | BSAR | BROL | BROR.

Definition lj_carith_shift64 (x sh : Z) (op : shift_op) : Z :=
  match op with
  | BSHL => lj_carith_shl64 x sh
  | BSHR => lj_carith_shr64 x sh
  | BSAR => lj_carith_sar64 x sh
  | BROL => lj_carith_rol64 x sh
  | BROR => lj_carith_ror64 x sh
  end.

Definition lj_carith_divu64 (a b : Z) : Z :=
  if b =? 0 then 0x8000000000000000 else a / b.

(** C division truncates: [Z.quot] and [Z.rem]. *)
Definition INT64_MIN : Z := -9223372036854775808.

Definition lj_carith_divi64 (a b : Z) : Z :=
  if (b =? 0) || ((a =? INT64_MIN) && (b =? -1)) then INT64_MIN else Z.quot a b.

Definition lj_carith_modu64 (a b : Z) : Z :=
  if b =? 0 then 0x8000000000000000 else a mod b.

Definition lj_carith_modi64 (a b : Z) : Z :=
  if b =? 0 then INT64_MIN
  else if (a =? INT64_MIN) && (b =? -1) then 0 else Z.rem a b.

(** [for (; (k & 1) == 0; k >>= 1) x *= x;] *)
Fixpoint pow_even (fuel : nat) (x k : Z) : option (Z * Z) :=
  match fuel with
  | O => None
  | S fuel' =>
      if Z.land k 1 =? 0 then pow_even fuel' (u64 (x * x)) (Z.shiftr k 1) else Some (x, k)
  end.

(** The endless loop, left by its [break] with the final [x] and [y]. *)
Fixpoint pow_loop (fuel : nat) (x y k : Z) : option (Z * Z) :=
  match fuel with
  | O => None
  | S fuel' =>
      let x := u64 (x * x) in
      if k =? 1 then Some (x, y)
      else
        let y := if Z.land k 1 =? 0 then y else u64 (y * x) in
        pow_loop fuel' x y (Z.shiftr k 1)
  end.

(** 64 rounds exhaust a 64-bit exponent. *)
Definition lj_carith_powu64 (x k : Z) : option Z :=
  if k =? 0 then Some 1
  else
    '(x, k) ← pow_even 64 x k;
    let y := x in
    let k := Z.shiftr k 1 in
    if k =? 0 then Some y
    else
      '(x, y) ← pow_loop 64 x y k;
      Some (u64 (y * x)).

Definition lj_carith_powi64 (x k : Z) : option Z :=
  if k =? 0 then Some 1
  else if k <? 0 then
    Some (if x =? 0 then 0x7fffffffffffffff
          else if x =? 1 then 1
          else if x =? -1 then (if Z.land k 1 =? 0 then 1 else -1)
          else 0)
  else i64 <$> lj_carith_powu64 (u64 x) (u64 k).

(** ** Exponentiation *)

Lemma u64_mul_idem_l a b : u64 (u64 a * b) = u64 (a * b).
Proof. apply Z.mul_mod_idemp_l. lia. Qed.
Lemma u64_mul_idem_r a b : u64 (a * u64 b) = u64 (a * b).
Proof. apply Z.mul_mod_idemp_r. lia. Qed.
Lemma u64_idem a : u64 (u64 a) = u64 a.
Proof. apply Z.mod_mod. lia. Qed.

Lemma u64_pow_idem a n : 0 <= n -> u64 (u64 a ^ n) = u64 (a ^ n).
Proof.
  revert n. apply natlike_ind; [done|]. intros n Hn IH.
  rewrite !Z.pow_succ_r by done. rewrite u64_mul_idem_l, <- u64_mul_idem_r, IH.
  apply u64_mul_idem_r.
Qed.

Lemma land1_even k : (Z.land k 1 =? 0) = Z.even k.
Proof.
  assert (E : Z.land k 1 = k mod 2) by (exact (land_pow2_mask k 1 ltac:(lia))).
  rewrite E, <- Z.bit0_mod, Z.bit0_odd, <- Z.negb_odd. by destruct (Z.odd k).
Qed.

Lemma shiftr1 k : Z.shiftr k 1 = k / 2.
Proof. by rewrite Z.shiftr_div_pow2 by lia. Qed.

Lemma halve k n : 0 <= n -> 0 < k < 2 ^ (n + 1) -> k <> 1 -> 0 < k / 2 < 2 ^ n.
Proof. intros Hn Hk H1. rewrite Z.pow_add_r in Hk by lia. change (2 ^ 1) with 2 in Hk. zlia. Qed.

(** The first loop strips the factors of two of the exponent. *)
Lemma pow_even_correct fuel x k :
  in_u64 x -> 0 < k < 2 ^ Z.of_nat fuel ->
  exists x' k', pow_even fuel x k = Some (x', k') /\ in_u64 x' /\ Z.odd k' = true /\
    0 < k' <= k /\ u64 (x' ^ k') = u64 (x ^ k).
Proof.
  revert x k. induction fuel as [|fuel IH]; intros x k Hx Hk.
  { change (2 ^ Z.of_nat 0) with 1 in Hk. lia. }
  cbn [pow_even]. rewrite land1_even, <- Z.negb_odd. destruct (Z.odd k) eqn:Ho; cbn [negb].
  - exists x, k. by split; [|split; [|split; [|split; [lia|]]]].
  - assert (Hk1 : k <> 1) by (intros ->; done).
    replace (Z.of_nat (S fuel)) with (Z.of_nat fuel + 1) in Hk by lia.
    pose proof (halve k (Z.of_nat fuel) ltac:(lia) Hk Hk1) as Hh.
    destruct (IH (u64 (x * x)) (Z.shiftr k 1)) as (x' & k' & E & Hx' & Hodd & Hr & Hp);
      [apply u64_range|by rewrite shiftr1|].
    exists x', k'. split; [done|]. split; [done|]. split; [done|]. rewrite shiftr1 in *.
    split; [zlia|]. rewrite Hp, u64_pow_idem by lia. f_equal.
    rewrite <- Z.pow_2_r, <- Z.pow_mul_r by lia. f_equal.
    rewrite (Z.div_mod k 2) at 2 by lia. rewrite Zmod_odd, Ho. lia.
Qed.

(** The second loop is square and multiply. *)
Lemma pow_loop_correct fuel x y k :
  0 < k < 2 ^ Z.of_nat fuel ->
  exists x' y', pow_loop fuel x y k = Some (x', y') /\
    u64 (y' * x') = u64 (y * (x * x) ^ k).
Proof.
  revert x y k. induction fuel as [|fuel IH]; intros x y k Hk.
  { change (2 ^ Z.of_nat 0) with 1 in Hk. lia. }
  cbn [pow_loop]. cbv zeta. destruct (Z.eqb_spec k 1) as [->|Hk1].
  - eexists _, _. split; [done|]. by rewrite u64_mul_idem_r, Z.pow_1_r.
  - replace (Z.of_nat (S fuel)) with (Z.of_nat fuel + 1) in Hk by lia.
    pose proof (halve k (Z.of_nat fuel) ltac:(lia) Hk Hk1) as Hh.
    rewrite land1_even, shiftr1.
    destruct (IH (u64 (x * x)) (if Z.even k then y else u64 (y * u64 (x * x))) (k / 2) Hh)
      as (x' & y' & E & Hp).
    exists x', y'. split; [done|]. rewrite Hp. clear E Hp IH.
    set (w := x * x). rewrite <- u64_mul_idem_r.
    replace (u64 ((u64 w * u64 w) ^ (k / 2))) with (u64 (w ^ (2 * (k / 2)))).
    2:{ rewrite Z.pow_mul_r, Z.pow_2_r by lia.
        rewrite <- (u64_pow_idem (w * w)), <- (u64_pow_idem (u64 w * u64 w)) by lia.
        by rewrite u64_mul_idem_l, u64_mul_idem_r. }
    rewrite u64_mul_idem_r, <- Z.negb_odd.
    assert (Hd : k = 2 * (k / 2) + (if Z.odd k then 1 else 0)).
    { rewrite <- Zmod_odd. apply Z.div_mod. lia. }
    destruct (Z.odd k); cbn [negb].
    + rewrite u64_mul_idem_l, <- Z.mul_assoc, Z.mul_comm, <- Z.mul_assoc.
      rewrite u64_mul_idem_l. rewrite Hd at 2.
      rewrite Z.pow_add_r, Z.pow_1_r by lia. f_equal. lia.
    + rewrite Hd at 2. by rewrite Z.add_0_r.
Qed.

Lemma powu64_pow x k :
  in_u64 x -> in_u64 k -> lj_carith_powu64 x k = Some (u64 (x ^ k)).
Proof.
  intros Hx Hk. unfold lj_carith_powu64. destruct (Z.eqb_spec k 0) as [->|Hk0]; [done|].
  assert (Hk' : 0 < k < 2 ^ Z.of_nat 64)
    by (change (2 ^ Z.of_nat 64) with 18446744073709551616; unfold in_u64 in Hk; lia).
  destruct (pow_even_correct 64 x k Hx Hk') as (x1 & k1 & -> & Hx1 & Ho & Hr & Hp).
  cbn [mbind option_bind]. rewrite shiftr1.
  assert (Hd : k1 = 2 * (k1 / 2) + 1).
  { pose proof (Z.div_mod k1 2 ltac:(lia)) as Hd. by rewrite Zmod_odd, Ho in Hd. }
  destruct (Z.eqb_spec (k1 / 2) 0) as [E|E].
  - rewrite <- Hp. replace k1 with 1 by lia. rewrite Z.pow_1_r.
    by rewrite u64_small.
  - destruct (pow_loop_correct 64 x1 x1 (k1 / 2)) as (x2 & y2 & -> & Hl); [zlia|].
    cbn [mbind option_bind]. f_equal. rewrite Hl, <- Hp. f_equal. rewrite Hd at 2.
    rewrite Z.pow_add_r, Z.pow_1_r, Z.pow_mul_r, Z.pow_2_r by lia. lia.
Qed.

(** The value C assigns to a power with a negative exponent: the exact
    quotient truncated towards zero, with 0 to a negative power saturating. *)
Definition pow_spec (x k : Z) : Z :=
  if decide (0 <= k) then i64 (x ^ k)
  else if decide (x = 0) then 9223372036854775807
  else Z.quot 1 (x ^ (- k)).

Lemma quot_1_pow_big x n : 2 <= Z.abs x -> 0 < n -> Z.quot 1 (x ^ n) = 0.
Proof.
  intros Hx Hn. assert (Habs : 2 <= Z.abs (x ^ n)).
  { rewrite Z.abs_pow. transitivity (2 ^ 1); [done|].
    transitivity (2 ^ n); [apply Z.pow_le_mono_r; lia|apply Z.pow_le_mono_l; lia]. }
  apply Z.quot_small_iff; lia.
Qed.

Lemma pow_m1 n : 0 <= n -> (-1) ^ n = if Z.even n then 1 else -1.
Proof.
  revert n. apply natlike_ind; [done|]. intros n Hn IH.
  rewrite Z.pow_succ_r, IH, Z.even_succ, <- Z.negb_odd by done. by destruct (Z.odd n).
Qed.

Lemma i64_u64 a : i64 (u64 a) = i64 a.
Proof. width_lia. Qed.

(** the square-and-multiply loops of 64-bit exponentiation end within 64
    rounds each and return the power modulo 2^64; the signed version returns
    its two's complement value, and for a negative exponent the exact power
    truncated towards zero (the largest value for base 0). *)
Theorem carith_pow_correct (x k : Z)
    (Hx : -9223372036854775808 <= x < 9223372036854775808)
    (Hk : -9223372036854775808 <= k < 9223372036854775808) :
  lj_carith_powu64 (u64 x) (u64 k) = Some (u64 (x ^ (u64 k))) /\
  lj_carith_powi64 x k = Some (pow_spec x k).
Proof.
  assert (G : lj_carith_powu64 (u64 x) (u64 k) = Some (u64 (x ^ u64 k))).
  { rewrite powu64_pow by apply u64_range. f_equal. apply u64_pow_idem. apply u64_range. }
  split; [done|]. unfold lj_carith_powi64, pow_spec.
  destruct (Z.eqb_spec k 0) as [->|Hk0]; [done|].
  destruct (Z.ltb_spec k 0).
  - rewrite decide_False by lia. f_equal.
    destruct (Z.eqb_spec x 0) as [->|Hx0]; [done|]. rewrite decide_False by done.
    destruct (Z.eqb_spec x 1) as [->|Hx1]; [by rewrite Z.pow_1_l by lia|].
    destruct (Z.eqb_spec x (-1)) as [->|Hxm].
    + rewrite pow_m1, land1_even, Z.even_opp by lia. by destruct (Z.even k).
    + symmetry. apply quot_1_pow_big; lia.
  - rewrite decide_True by lia. rewrite G. cbn. f_equal. rewrite i64_u64.
    by rewrite u64_small by (unfold in_u64; lia).
Qed.

Lemma carith_pow_correct_witness :
  lj_carith_powu64 (u64 3) (u64 13) = Some (u64 (3 ^ (u64 13))) /\
  lj_carith_powi64 3 13 = Some (pow_spec 3 13).
Proof. apply carith_pow_correct; lia. Defined.

(** ** The operator dispatch *)

Inductive CTypeID := CTID_INT64 | CTID_UINT64.
Inductive MMS := MM_eq | MM_lt | MM_le | MM_add | MM_sub | MM_mul | MM_div | MM_mod | MM_pow | MM_unm.
Inductive carith_result := RBool (b : bool) | RInt (id : CTypeID) (v : Z).

(** A number operand: whether its ctype is an unsigned one of 8 bytes. *)
Definition result_id (unsigned8_0 unsigned8_1 : bool) : CTypeID :=
  if unsigned8_0 || unsigned8_1 then CTID_UINT64 else CTID_INT64.

(** [carith_int64] on two number operands already converted to 64 bits. *)
Definition carith_int64 (id : CTypeID) (u0 u1 : Z) (mm : MMS) : option carith_result :=
  match mm with
  | MM_eq => Some (RBool (u0 =? u1))
  | MM_lt => Some (RBool (match id with CTID_INT64 => i64 u0 <? i64 u1 | CTID_UINT64 => u0 <? u1 end))
  | MM_le => Some (RBool (match id with CTID_INT64 => i64 u0 <=? i64 u1 | CTID_UINT64 => u0 <=? u1 end))
  | MM_add => Some (RInt id (u64 (u0 + u1)))
  | MM_sub => Some (RInt id (u64 (u0 - u1)))
  | MM_mul => Some (RInt id (u64 (u0 * u1)))
  | MM_div => Some (RInt id (match id with
      | CTID_INT64 => u64 (lj_carith_divi64 (i64 u0) (i64 u1))
      | CTID_UINT64 => lj_carith_divu64 u0 u1 end))
  | MM_mod => Some (RInt id (match id with
      | CTID_INT64 => u64 (lj_carith_modi64 (i64 u0) (i64 u1))
      | CTID_UINT64 => lj_carith_modu64 u0 u1 end))
  | MM_pow =>
      match id with
      | CTID_INT64 => (fun v => RInt id (u64 v)) <$> lj_carith_powi64 (i64 u0) (i64 u1)
      | CTID_UINT64 => RInt id <$> lj_carith_powu64 u0 u1
      end
  | MM_unm => Some (RInt id (u64 (not64 u0 + 1)))
  end.

(** What a 64-bit word denotes at a type, and the word of an integer. *)
Definition denotes (id : CTypeID) (u : Z) : Z :=
  match id with CTID_INT64 => i64 u | CTID_UINT64 => u end.

(** The operators on the integers, before wrap-around; [None] where the
    mathematical result does not exist. *)
Definition op_spec (mm : MMS) (a b : Z) : option (bool + Z) :=
  match mm with
  | MM_eq => Some (inl (bool_decide (a = b)))
  | MM_lt => Some (inl (bool_decide (a < b)))
  | MM_le => Some (inl (bool_decide (a <= b)))
  | MM_add => Some (inr (a + b))
  | MM_sub => Some (inr (a - b))
  | MM_mul => Some (inr (a * b))
  | MM_div => if decide (b = 0) then None else Some (inr (Z.quot a b))
  | MM_mod => if decide (b = 0) then None else Some (inr (Z.rem a b))
  | MM_pow => if decide (0 <= b) then Some (inr (a ^ b)) else None
  | MM_unm => Some (inr (- a))
  end.

Lemma u64_i64 a : u64 (i64 a) = u64 a.
Proof. width_lia. Qed.

Lemma i64_range a : -9223372036854775808 <= i64 a < 9223372036854775808.
Proof. width_lia. Qed.

Lemma denotes_word id u : in_u64 u -> u64 (denotes id u) = u.
Proof. intros H. destruct id; cbn; [rewrite u64_i64|]; by apply u64_small. Qed.

Lemma u64_bind2 (f : Z -> Z -> Z) a b :
  (forall x y, u64 (f x y) = u64 (f (u64 x) (u64 y))) ->
  u64 (f (i64 a) (i64 b)) = u64 (f a b).
Proof. intros H. by rewrite H, !u64_i64, <- H. Qed.

Lemma divi64_quot a b :
  -9223372036854775808 <= a < 9223372036854775808 -> b <> 0 ->
  u64 (lj_carith_divi64 a b) = u64 (Z.quot a b) /\
  lj_carith_modi64 a b = Z.rem a b.
Proof.
  intros Ha Hb. unfold lj_carith_divi64, lj_carith_modi64, INT64_MIN.
  destruct (Z.eqb_spec b 0); [done|]. cbn [orb].
  destruct (Z.eqb_spec a (-9223372036854775808)) as [->|]; cbn [andb]; [|done].
  destruct (Z.eqb_spec b (-1)) as [->|]; done.
Qed.

Lemma quot_rem_nonneg a b : 0 <= a -> 0 < b -> Z.quot a b = a / b /\ Z.rem a b = a mod b.
Proof. intros. split; [apply Z.quot_div_nonneg|apply Z.rem_mod_nonneg]; lia. Qed.

(** on two 64-bit words every operator of [carith_int64] returns the
    comparison of the integers they denote at the result type, or the word of
    the exact integer result (truncating division and remainder, power,
    negation), wrapped to 64 bits, whenever that result exists. *)
Theorem carith_int64_correct (id : CTypeID) (u0 u1 : Z) (mm : MMS) (r : bool + Z)
    (H0 : in_u64 u0) (H1 : in_u64 u1)
    (Hspec : op_spec mm (denotes id u0) (denotes id u1) = Some r) :
  carith_int64 id u0 u1 mm =
  Some (match r with inl b => RBool b | inr v => RInt id (u64 v) end).
Proof.
  destruct mm; cbn [op_spec] in Hspec;
    try match type of Hspec with (if decide ?P then _ else _) = _ => destruct (decide P) end;
    simplify_eq; cbn [carith_int64]; do 2 f_equal.
  - destruct id; cbn; destruct (Z.eqb_spec u0 u1); case_bool_decide; try done;
      exfalso; unfold i64, in_u64 in *; zlia.
  - destruct id; cbn; case_bool_decide; lia.
  - destruct id; cbn; case_bool_decide; lia.
  - destruct id; cbn; [|done]. symmetry. apply (u64_bind2 Z.add).
    intros x y. unfold u64. by rewrite <- Zplus_mod.
  - destruct id; cbn; [|done]. symmetry. apply (u64_bind2 Z.sub).
    intros x y. unfold u64. by rewrite <- Zminus_mod.
  - destruct id; cbn; [|done]. symmetry. apply (u64_bind2 Z.mul).
    intros x y. unfold u64. by rewrite <- Zmult_mod.
  - destruct id; cbn in *.
    + by apply divi64_quot; [apply i64_range|].
    + unfold lj_carith_divu64. destruct (Z.eqb_spec u1 0); [done|].
      unfold in_u64 in *. rewrite (proj1 (quot_rem_nonneg u0 u1 ltac:(lia) ltac:(lia))).
      rewrite u64_small; [done|]. unfold in_u64. split; [apply Z.div_pos; lia|].
      apply Z.div_lt_upper_bound; nia.
  - destruct id; cbn in *.
    + f_equal. by apply divi64_quot; [apply i64_range|].
    + unfold lj_carith_modu64. destruct (Z.eqb_spec u1 0); [done|].
      unfold in_u64 in *. rewrite (proj2 (quot_rem_nonneg u0 u1 ltac:(lia) ltac:(lia))).
      rewrite u64_small; [done|]. unfold in_u64.
      pose proof (Z.mod_pos_bound u0 u1 ltac:(lia)). lia.
  - destruct id; cbn in *.
    + pose proof (i64_range u0). pose proof (i64_range u1).
      destruct (Z.eqb_spec (i64 u1) 0) as [E|E].
      { unfold lj_carith_powi64. rewrite E. done. }
      unfold lj_carith_powi64. destruct (Z.eqb_spec (i64 u1) 0); [done|].
      destruct (Z.ltb_spec (i64 u1) 0); [lia|].
      rewrite powu64_pow by apply u64_range. cbn. do 2 f_equal.
      rewrite (u64_small (i64 u1)) by (unfold in_u64; lia).
      rewrite u64_pow_idem by lia. by rewrite u64_i64, u64_idem.
    + by rewrite powu64_pow.
  - destruct id; cbn; unfold not64, Z.lnot in *; width_lia.
Qed.

Lemma carith_int64_correct_witness :
  carith_int64 CTID_INT64 (u64 (-7)) 2 MM_div = Some (RInt CTID_INT64 (u64 (-3))).
Proof.
  apply (carith_int64_correct CTID_INT64 (u64 (-7)) 2 MM_div (inr (-3)));
    [apply u64_range|unfold in_u64; lia|by vm_compute].
Defined.
End Carith.

Module VmMath.
Definition lj_vm_modi (a b : Z) : Z :=
  let ua := if a <? 0 then u32 (not32 (u32 a) + 1) else u32 a in
  let ub := if b <? 0 then u32 (not32 (u32 b) + 1) else u32 b in
  let y := ua mod ub in
  let y := if negb (y =? 0) && (Z.lxor a b <? 0) then u32 (y - ub) else y in
  let y := if Z.lxor (i32 y) b <? 0 then u32 (not32 y + 1) else y in
  i32 y.

Lemma lxor_neg a b : (Z.lxor a b <? 0) = xorb (a <? 0) (b <? 0).
Proof.
  pose proof (Z.lxor_nonneg a b).
  destruct (Z.ltb_spec (Z.lxor a b) 0), (Z.ltb_spec a 0), (Z.ltb_spec b 0); cbn; lia.
Qed.

Lemma abs32 a : in_i32 a ->
  (if a <? 0 then u32 (not32 (u32 a) + 1) else u32 a) = Z.abs a.
Proof.
  intros Ha. unfold not32, Z.lnot. destruct (Z.ltb_spec a 0); width_lia.
Qed.

(** For every 32-bit dividend and non-zero 32-bit divisor, INT_MIN and -1
    included, [lj_vm_modi] is Lua's modulo: the remainder with the sign of
    the divisor. *)
Theorem lj_vm_modi_floor (a b : Z) (Ha : in_i32 a) (Hb : in_i32 b) (Hb0 : b <> 0) :
  lj_vm_modi a b = a mod b.
Proof.
  unfold lj_vm_modi. rewrite !abs32 by done. cbv zeta.
  pose proof (Z.div_mod (Z.abs a) (Z.abs b) ltac:(lia)) as Hd.
  pose proof (Z.mod_pos_bound (Z.abs a) (Z.abs b) ltac:(lia)) as Hr.
  set (y := Z.abs a mod Z.abs b) in *. set (q := Z.abs a / Z.abs b) in *.
  clearbody y q. rewrite !lxor_neg. unfold in_i32 in *.
  destruct (Z.eqb_spec y 0) as [->|Hy]; cbn [negb andb].
  - (* the divisor divides *)
    change (i32 0) with 0. change (0 <? 0) with false. cbn [xorb].
    assert (E : i32 (if b <? 0 then u32 (not32 0 + 1) else 0) = 0) by (by case_match).
    replace (if xorb false (b <? 0) then _ else _) with (if b <? 0 then u32 (not32 0 + 1) else 0)
      by (by destruct (b <? 0)).
    rewrite E. symmetry. apply Z.mod_divide; [done|].
    exists (q * (Z.sgn a * Z.sgn b)). nia.
  - destruct (Z.ltb_spec a 0), (Z.ltb_spec b 0); cbn [xorb].
    + rewrite (i32_small y) by (unfold in_i32; lia).
      destruct (Z.ltb_spec y 0); [lia|]. cbn [xorb].
      replace (i32 (u32 (not32 y + 1))) with (- y) by (unfold not32, Z.lnot; width_lia).
      rewrite (Z.abs_neq a), (Z.abs_neq b) in * by lia.
      apply (Z.mod_unique_neg a b q); lia.
    + replace (i32 (u32 (y - Z.abs b))) with (y - b) by width_lia.
      destruct (Z.ltb_spec (y - b) 0); [|lia]. cbn [xorb].
      replace (i32 (u32 (not32 (u32 (y - Z.abs b)) + 1))) with (b - y)
        by (unfold not32, Z.lnot; width_lia).
      rewrite (Z.abs_neq a), (Z.abs_eq b) in * by lia.
      apply (Z.mod_unique_pos a b (- q - 1)); lia.
    + assert (E : i32 (u32 (y - Z.abs b)) = y + b) by width_lia. rewrite E.
      destruct (Z.ltb_spec (y + b) 0); [|lia]. cbn [xorb]. rewrite E.
      rewrite (Z.abs_eq a), (Z.abs_neq b) in * by lia.
      apply (Z.mod_unique_neg a b (- q - 1)); lia.
    + rewrite (i32_small y) by (unfold in_i32; lia).
      destruct (Z.ltb_spec y 0); [lia|]. cbn [xorb].
      rewrite i32_small by (unfold in_i32; lia).
      rewrite (Z.abs_eq a), (Z.abs_eq b) in * by lia.
      apply (Z.mod_unique_pos a b q); lia.
Qed.

Lemma lj_vm_modi_floor_witness : lj_vm_modi (-2147483648) 3 = (-2147483648) mod 3.
Proof. apply lj_vm_modi_floor; unfold in_i32; lia. Defined.
End VmMath.
