(* ===== verification/LjFloat.v ===== *)
(** * LjFloat

    IEEE-754 doubles by their bits, as far as the number scanner of LuaJIT
    uses them: the value of a bit pattern, what it means that a pattern is
    the correct rounding of a rational number (to nearest, ties to even,
    overflow to infinity), an executable rounding of [m * 2^e] that meets
    this, the conversion of a non-negative integer to a double, and [ldexp].
    Everything is about non-negative patterns; the sign bit is separate. *)
From stdpp Require Import base tactics numbers list.
From Stdlib Require Import ZArith Lia.
From S2P Require Import Prelude.
Open Scope Z_scope.

Module Flt.

(** ** Patterns and their values *)

Definition INF : Z := 2047 * 2 ^ 52.
Definition NAN : Z := 0xfff8000000000000.
Definition SIGN : Z := 2 ^ 63.

Definition fexp (u : Z) : Z := (u / 2 ^ 52) mod 2048.
Definition fman (u : Z) : Z := u mod 2 ^ 52.

(** The value of a pattern without sign in units of [2^-1074], the smallest
    double.  The pattern of infinity gets the value [2^1024] that the rule for
    overflow compares with. *)
Definition dval (b : Z) : Z :=
  if b <? 2 ^ 52 then b else (2 ^ 52 + b mod 2 ^ 52) * 2 ^ (b / 2 ^ 52 - 1).

(** [b] is the double nearest to [N / D], the even one of two that are equally
    near. *)
Definition is_rn (N D b : Z) : Prop :=
  let S := 2 * (N * 2 ^ 1074) in
  0 <= b <= INF /\
  (0 < b -> let M := D * (dval (b - 1) + dval b) in M < S \/ (M = S /\ Z.Even b)) /\
  (b < INF -> let M := D * (dval b + dval (b + 1)) in S < M \/ (S = M /\ Z.Even b)).

(** ** Operations *)

(** [m / 2^k] rounded to an integer, ties to even. *)
Definition shr_even (m k : Z) : Z :=
  let q := m / 2 ^ k in
  match 2 * (m - q * 2 ^ k) ?= 2 ^ k with
  | Lt => q
  | Eq => if Z.even q then q else q + 1
  | Gt => q + 1
  end.

(** [m * 2^e] rounded to a double: the exponent [k] of the last place relative
    to [m] is that of 53 bits, or of the smallest double. *)
Definition rne (m e : Z) : Z :=
  if m =? 0 then 0
  else
    let k := Z.max (Z.log2 m - 52) (-1074 - e) in
    let q := if k <=? 0 then m * 2 ^ (- k) else shr_even m k in
    Z.min INF ((e + k + 1074) * 2 ^ 52 + q).

(** [(double)x] for a non-negative integer. *)
Definition double_of_uint (x : Z) : Z := rne x 0.

(** [-n] *)
Definition fneg (u : Z) : Z := Z.lxor u SIGN.

Definition ldexp (u n : Z) : Z :=
  let s := Z.land u SIGN in
  let e := fexp u in
  if e =? 2047 then u
  else if e =? 0 then s + rne (fman u) (n - 1074)
  else s + rne (2 ^ 52 + fman u) (e - 1075 + n).

#[global] Arguments rne : simpl never.
#[global] Arguments dval : simpl never.

Example rne_1 : rne 1 0 = 0x3ff0000000000000.
Proof. reflexivity. Qed.
Example rne_max : rne (2 ^ 54 - 1) 970 = INF.
Proof. vm_compute. reflexivity. Qed.
Example rne_subnormal : rne 3 (-1075) = 2.
Proof. vm_compute. reflexivity. Qed.
Example ldexp_1 : ldexp (fneg (rne 1 0)) (-1074) = SIGN + 1.
Proof. vm_compute. reflexivity. Qed.

(** ** Values of patterns *)

Lemma dval_split j q :
  0 <= j -> 0 <= q <= 2 ^ 53 -> 2 ^ 52 <= q \/ j = 0 -> dval (j * 2 ^ 52 + q) = q * 2 ^ j.
Proof.
  intros Hj Hq Hc. unfold dval.
  destruct (Z.ltb_spec (j * 2 ^ 52 + q) (2 ^ 52)).
  { assert (j = 0) as -> by lia. lia. }
  destruct (decide (q = 2 ^ 53)) as [->|Hne].
  { replace (j * 2 ^ 52 + 2 ^ 53) with ((j + 2) * 2 ^ 52) by lia.
    rewrite Z.mod_mul, Z.div_mul by lia.
    replace (j + 2 - 1) with (j + 1) by lia. rewrite Z.pow_add_r by lia. lia. }
  assert (2 ^ 52 <= q) by lia.
  replace (j * 2 ^ 52 + q) with ((q - 2 ^ 52) + (j + 1) * 2 ^ 52) by lia.
  rewrite Z.mod_add, Z.div_add, Z.mod_small, Z.div_small by lia.
  replace (0 + (j + 1) - 1) with j by lia. f_equal. lia.
Qed.

(** Every pattern has such a split, with the spacing to the next one. *)
Lemma dval_decompose b : 0 <= b ->
  exists j q, 0 <= j /\ 0 <= q < 2 ^ 53 /\ (2 ^ 52 <= q \/ j = 0) /\ b = j * 2 ^ 52 + q.
Proof.
  intros Hb. destruct (Z.ltb_spec b (2 ^ 52)).
  - exists 0, b. lia.
  - exists (b / 2 ^ 52 - 1), (2 ^ 52 + b mod 2 ^ 52).
    pose proof (Z.div_mod b (2 ^ 52) ltac:(lia)) as E.
    pose proof (Z.mod_pos_bound b (2 ^ 52) ltac:(lia)) as Hm.
    assert (1 <= b / 2 ^ 52) by (apply Z.div_le_lower_bound; lia).
    split_and!; try lia.
Qed.

Lemma dval_succ b : 0 <= b -> dval b < dval (b + 1).
Proof.
  intros Hb. destruct (dval_decompose b Hb) as (j & q & Hj & Hq & Hc & ->).
  rewrite dval_split by lia. rewrite <- Z.add_assoc, dval_split by lia.
  apply Z.mul_lt_mono_pos_r; [apply Z.pow_pos_nonneg; lia|lia].
Qed.

Lemma dval_mono a b : 0 <= a <= b -> dval a <= dval b.
Proof.
  intros [Ha Hab]. replace b with (a + Z.of_nat (Z.to_nat (b - a))) by lia.
  induction (Z.to_nat (b - a)) as [|n IH]; [rewrite Z.add_0_r; lia|].
  pose proof (dval_succ (a + Z.of_nat n) ltac:(lia)) as Hs.
  replace (a + Z.of_nat (S n)) with (a + Z.of_nat n + 1) by lia. lia.
Qed.

Lemma dval_0 : dval 0 = 0.
Proof. reflexivity. Qed.

Lemma dval_nonneg b : 0 <= b -> 0 <= dval b.
Proof. intros. rewrite <- dval_0. apply dval_mono. lia. Qed.

(** ** Correct rounding *)

(** Only the ratio matters. *)
Lemma is_rn_ratio N D N' D' b :
  0 < D -> 0 < D' -> N * D' = N' * D -> is_rn N D b -> is_rn N' D' b.
Proof.
  unfold is_rn. intros HD HD' E (Hb & Hl & Hr).
  set (P := 2 ^ 1074) in *. assert (0 < P) by (apply Z.pow_pos_nonneg; lia).
  assert (E2 : 2 * (N * P) * D' = 2 * (N' * P) * D) by nia.
  split_and!; [lia|lia| |].
  - intros H0. specialize (Hl H0). revert Hl. generalize (dval (b - 1) + dval b) as m.
    intros m [Hl|[Hl He]]; [left|right; split; [|done]]; nia.
  - intros H0. specialize (Hr H0). revert Hr. generalize (dval b + dval (b + 1)) as m.
    intros m [Hr|[Hr He]]; [left|right; split; [|done]]; nia.
Qed.

(** There is only one. *)
Lemma is_rn_lt N D a b : 0 < D -> is_rn N D a -> is_rn N D b -> a < b -> False.
Proof.
  unfold is_rn. intros HD (Ha & _ & Hr) (Hb & Hl & _) Hab.
  specialize (Hr ltac:(lia)). specialize (Hl ltac:(lia)).
  pose proof (dval_mono (a + 1) b ltac:(lia)) as H1.
  pose proof (dval_mono a (b - 1) ltac:(lia)) as H2.
  destruct (decide (b = a + 1)) as [->|Hne].
  - replace (a + 1 - 1) with a in * by lia.
    destruct Hr as [Hr|[Hr [x Hx]]], Hl as [Hl|[Hl [y Hy]]]; lia.
  - pose proof (dval_succ a ltac:(lia)) as H3.
    pose proof (dval_mono (a + 1) (b - 1) ltac:(lia)) as H4.
    assert (D * (dval a + dval (a + 1)) < D * (dval (b - 1) + dval b))
      by (apply Z.mul_lt_mono_pos_l; lia).
    lia.
Qed.

Lemma is_rn_unique N D a b : 0 < D -> is_rn N D a -> is_rn N D b -> a = b.
Proof.
  intros HD Ha Hb. destruct (Z.lt_trichotomy a b) as [H|[H|H]]; [exfalso|done|exfalso];
    eauto using is_rn_lt.
Qed.

(** Rounding a value between two neighbours. *)
Lemma is_rn_down N D b :
  0 < D -> 0 <= b < INF -> D * dval b <= N * 2 ^ 1074 ->
  2 * (N * 2 ^ 1074) < D * (dval b + dval (b + 1))
    \/ (2 * (N * 2 ^ 1074) = D * (dval b + dval (b + 1)) /\ Z.Even b) ->
  is_rn N D b.
Proof.
  intros HD Hb Hlo Hr. unfold is_rn. split_and!; [lia|lia| |done].
  intros H0. left. pose proof (dval_succ (b - 1) ltac:(lia)) as Hs.
  replace (b - 1 + 1) with b in Hs by lia. nia.
Qed.

Lemma is_rn_up N D b :
  0 < D -> 0 <= b < INF -> N * 2 ^ 1074 < D * dval (b + 1) ->
  D * (dval b + dval (b + 1)) < 2 * (N * 2 ^ 1074)
    \/ (D * (dval b + dval (b + 1)) = 2 * (N * 2 ^ 1074) /\ Z.Even (b + 1)) ->
  is_rn N D (b + 1).
Proof.
  intros HD Hb Hhi Hl. unfold is_rn. split_and!; [lia|lia| |].
  - intros _. by replace (b + 1 - 1) with b by lia.
  - intros H0. left. pose proof (dval_succ (b + 1) ltac:(lia)) as Hs. nia.
Qed.

Lemma is_rn_inf N D : 0 < D -> D * dval INF <= N * 2 ^ 1074 -> is_rn N D INF.
Proof.
  intros HD H. unfold is_rn. split_and!; [by vm_compute|lia| |lia]. intros _. left.
  pose proof (dval_succ (INF - 1) ltac:(by vm_compute)) as Hs.
  replace (INF - 1 + 1) with INF in Hs by lia. nia.
Qed.

Lemma is_rn_exact N D b : 0 < D -> 0 <= b < INF -> N * 2 ^ 1074 = D * dval b -> is_rn N D b.
Proof.
  intros HD Hb E. apply is_rn_down; [done|lia|lia|]. left.
  pose proof (dval_succ b ltac:(lia)). nia.
Qed.

Lemma is_rn_0 D : 0 < D -> is_rn 0 D 0.
Proof. intros. apply is_rn_exact; [done|by vm_compute|rewrite dval_0; lia]. Qed.

(** ** The value [m * 2^e] as a ratio *)

Definition pw (b e : Z) : Z := b ^ Z.max 0 e.

Lemma pw_pos b e : 0 < b -> 0 < pw b e.
Proof. intros. apply Z.pow_pos_nonneg; lia. Qed.
Lemma pw_nonneg b e : 0 <= e -> pw b e = b ^ e.
Proof. intros. unfold pw. by rewrite Z.max_r by lia. Qed.
Lemma pw_neg b e : e <= 0 -> pw b e = 1.
Proof. intros. unfold pw. by rewrite Z.max_l by lia. Qed.

(** The two parts of a power balance. *)
Lemma pw_shift b e K : 0 <= K -> 0 <= K + e -> pw b e * b ^ K = b ^ (K + e) * pw b (- e).
Proof.
  intros HK Ke. unfold pw. rewrite <- !Z.pow_add_r by lia. f_equal. lia.
Qed.

Lemma is_rn_shift m e K b :
  0 <= K -> 0 <= K + e -> is_rn (m * 2 ^ (K + e)) (2 ^ K) b ->
  is_rn (m * pw 2 e) (pw 2 (- e)) b.
Proof.
  intros HK Ke. apply is_rn_ratio; [by apply Z.pow_pos_nonneg|by apply pw_pos|].
  rewrite <- !Z.mul_assoc. f_equal. symmetry. by apply pw_shift.
Qed.

(** Comparing with a ratio that is given on another scale. *)
Lemma ratio_compare P A B T x :
  0 < B -> 0 < T -> P * B = A * T -> (T * x ?= P) = (x * B ?= A).
Proof.
  intros HB HT E. destruct (Z.compare_spec (x * B) A) as [H|H|H].
  - apply Z.compare_eq_iff. nia.
  - apply Z.compare_lt_iff. nia.
  - apply Z.compare_gt_iff. nia.
Qed.

(** Rounding by the integer part [f] of a mantissa: [A/B] is the value in
    units of the last place, [2^j] times the smallest double. *)
Lemma is_rn_floor A B j f :
  0 < B -> 0 <= j -> 0 <= f < 2 ^ 53 -> 2 ^ 52 <= f \/ j = 0 ->
  f * B <= A < (f + 1) * B ->
  let q := match 2 * (A - f * B) ?= B with
           | Lt => f | Eq => if Z.even f then f else f + 1 | Gt => f + 1 end in
  forall N D, 0 < D -> N * 2 ^ 1074 * B = A * 2 ^ j * D ->
  is_rn N D (Z.min INF (j * 2 ^ 52 + q)).
Proof.
  intros HB Hj Hf Hc HA q N D HD E.
  assert (Hu : dval (j * 2 ^ 52 + f) = f * 2 ^ j) by (apply dval_split; lia).
  assert (Hu1 : dval (j * 2 ^ 52 + f + 1) = (f + 1) * 2 ^ j)
    by (rewrite <- Z.add_assoc; apply dval_split; lia).
  assert (HJ : 0 < 2 ^ j) by (apply Z.pow_pos_nonneg; lia).
  assert (Hev : Z.even (j * 2 ^ 52 + f) = Z.even f).
  { rewrite Z.even_add. change (2 ^ 52) with (2 * 2 ^ 51).
    replace (j * (2 * 2 ^ 51)) with (2 * (j * 2 ^ 51)) by lia.
    rewrite Z.even_mul. by destruct (Z.even f). }
  revert Hu Hu1 Hev E. set (b := j * 2 ^ 52 + f). set (P := N * 2 ^ 1074).
  generalize (2 ^ j) HJ. intros J HJ'. intros Hu Hu1 Hev E.
  assert (Hcmp : forall x, (D * (x * J) ?= 2 * P) = (x * B ?= 2 * A)).
  { intros x. replace (D * (x * J)) with (D * J * x) by lia. apply ratio_compare; nia. }
  assert (Hlow : D * (f * J) <= P).
  { pose proof (Hcmp (2 * f)) as H. destruct (Z.compare_spec (2 * f * B) (2 * A));
      rewrite ?Z.compare_eq_iff, ?Z.compare_lt_iff in H; lia. }
  assert (Hhigh : P < D * ((f + 1) * J)).
  { pose proof (Hcmp (2 * (f + 1))) as H. destruct (Z.compare_spec (2 * (f + 1) * B) (2 * A));
      rewrite ?Z.compare_gt_iff in H; lia. }
  specialize (Hcmp (2 * f + 1)).
  replace (D * ((2 * f + 1) * J)) with (D * (f * J + (f + 1) * J)) in Hcmp by lia.
  assert (0 <= b) by (unfold b; lia).
  destruct (Z.lt_ge_cases b INF) as [Hlt|Hge].
  2:{ rewrite Z.min_l by (unfold q, b in *; repeat case_match; lia).
      apply is_rn_inf; [done|]. fold P. pose proof (dval_mono INF b ltac:(unfold INF in *; lia)). nia. }
  assert (Hq : j * 2 ^ 52 + q = b \/ j * 2 ^ 52 + q = b + 1)
    by (unfold q, b; repeat case_match; lia).
  rewrite Z.min_r by lia.
  unfold q. destruct (Z.compare_spec (2 * (A - f * B)) B) as [Ht|Ht|Ht].
  - destruct (Z.even f) eqn:Ef; [fold b|replace (j * 2 ^ 52 + (f + 1)) with (b + 1) by (unfold b; lia)].
    + apply is_rn_down; rewrite ?Hu, ?Hu1; [done|lia|done|]. right. fold P.
      split; [|by apply Z.even_spec; rewrite Hev]. symmetry. apply Z.compare_eq_iff.
      rewrite Hcmp. apply Z.compare_eq_iff. lia.
    + apply is_rn_up; rewrite ?Hu, ?Hu1; [done|lia|done|]. right. fold P.
      split; [apply Z.compare_eq_iff; rewrite Hcmp; apply Z.compare_eq_iff; lia|]. apply Z.even_spec. rewrite Z.add_1_r, Z.even_succ, <- Z.negb_even.
      by rewrite Hev.
  - fold b. apply is_rn_down; rewrite ?Hu, ?Hu1; [done|lia|done|]. left. fold P.
    apply Z.compare_gt_iff. rewrite Hcmp. apply Z.compare_gt_iff. lia.
  - replace (j * 2 ^ 52 + (f + 1)) with (b + 1) by (unfold b; lia).
    apply is_rn_up; rewrite ?Hu, ?Hu1; [done|lia|done|]. left. fold P.
    unfold Z.lt. rewrite Hcmp. apply Z.compare_lt_iff. lia.
Qed.

(** The mantissa of [rne] has 53 bits, or the exponent is the smallest. *)
Lemma rne_mantissa m e : 0 < m ->
  let k := Z.max (Z.log2 m - 52) (-1074 - e) in
  let f := if k <=? 0 then m * 2 ^ (- k) else m / 2 ^ k in
  0 <= f < 2 ^ 53 /\ (2 ^ 52 <= f \/ e + k + 1074 = 0).
Proof.
  intros Hm k f. pose proof (Z.log2_spec m Hm) as [Hl1 Hl2].
  pose proof (Z.log2_nonneg m) as Hl0.
  assert (Hk : k = Z.log2 m - 52 \/ e + k + 1074 = 0) by lia.
  unfold f. destruct (Z.leb_spec k 0) as [Hk0|Hk0].
  - assert (Hp : 0 < 2 ^ (- k)) by (apply Z.pow_pos_nonneg; lia).
    split; [split; [nia|]|destruct Hk as [Hk|Hk]; [left|by right]].
    + apply Z.lt_le_trans with (2 ^ Z.succ (Z.log2 m) * 2 ^ (- k)).
      * by apply Z.mul_lt_mono_pos_r.
      * rewrite <- Z.pow_add_r by lia. apply Z.pow_le_mono_r; lia.
    + transitivity (2 ^ Z.log2 m * 2 ^ (- k)); [|nia].
      rewrite <- Z.pow_add_r by lia. apply Z.pow_le_mono_r; lia.
  - assert (Hp : 0 < 2 ^ k) by (apply Z.pow_pos_nonneg; lia).
    split; [split; [apply Z.div_pos; lia|]|destruct Hk as [Hk|Hk]; [left|by right]].
    + apply Z.div_lt_upper_bound; [done|]. apply Z.lt_le_trans with (1 := Hl2).
      rewrite <- Z.pow_add_r by lia. apply Z.pow_le_mono_r; lia.
    + apply Z.div_le_lower_bound; [done|]. transitivity (2 ^ Z.log2 m); [|done].
      rewrite <- Z.pow_add_r by lia. apply Z.pow_le_mono_r; lia.
Qed.

Lemma rne_rn m e : 0 <= m -> is_rn (m * pw 2 e) (pw 2 (- e)) (rne m e).
Proof.
  intros Hm. unfold rne. destruct (Z.eqb_spec m 0) as [->|Hm0].
  { apply is_rn_0, pw_pos. lia. }
  pose proof (rne_mantissa m e ltac:(lia)) as [Hf Hc]. cbv zeta in *.
  set (k := Z.max (Z.log2 m - 52) (-1074 - e)) in *.
  destruct (Z.leb_spec k 0) as [Hk|Hk].
  - apply (is_rn_shift m e (Z.max 0 (- e) - k)); [lia|lia|].
    pose proof (is_rn_floor (m * 2 ^ (- k)) 1 (e + k + 1074) (m * 2 ^ (- k))
                  ltac:(lia) ltac:(lia) Hf Hc ltac:(lia)) as Hfl. cbv zeta in Hfl.
    replace (2 * (m * 2 ^ (- k) - m * 2 ^ (- k) * 1)) with 0 in Hfl by lia.
    apply Hfl; [apply Z.pow_pos_nonneg; lia|].
    rewrite Z.mul_1_r, <- !Z.mul_assoc, <- !Z.pow_add_r by lia. do 2 f_equal. lia.
  - assert (Hp : 0 < 2 ^ k) by (apply Z.pow_pos_nonneg; lia).
    pose proof (Z.div_mod m (2 ^ k) ltac:(lia)) as Hdm.
    pose proof (Z.mod_pos_bound m (2 ^ k) Hp) as Hmb.
    apply (is_rn_floor m (2 ^ k) (e + k + 1074) (m / 2 ^ k) Hp ltac:(lia) Hf Hc ltac:(lia));
      [by apply pw_pos|].
    unfold pw. rewrite <- !Z.mul_assoc, <- !Z.pow_add_r by lia. do 2 f_equal. lia.
Qed.

(** [rne] is determined by that. *)
Lemma rne_unique m e N D b :
  0 <= m -> 0 < D -> N * pw 2 (- e) = m * pw 2 e * D -> is_rn N D b -> b = rne m e.
Proof.
  intros Hm HD E Hb. apply (is_rn_unique N D); [done..|].
  eapply is_rn_ratio, rne_rn; [by apply pw_pos|done|lia|done].
Qed.

Lemma rne_scale m s e : 0 <= m -> 0 <= s -> rne (m * 2 ^ s) e = rne m (s + e).
Proof.
  intros Hm Hs. eapply rne_unique; [done| | |apply rne_rn]; [by apply pw_pos| |].
  - unfold pw. rewrite <- !Z.mul_assoc, <- !Z.pow_add_r by lia. do 2 f_equal. lia.
  - apply Z.mul_nonneg_nonneg; [done|]. apply Z.pow_nonneg. lia.
Qed.

Lemma rne_range m e : 0 <= m -> 0 <= rne m e <= INF.
Proof. intros Hm. by destruct (rne_rn m e Hm) as (? & _). Qed.

(** ** Scaling a double *)

Lemma sign_bit u : 0 <= u < SIGN -> Z.testbit u 63 = false.
Proof.
  intros Hu. destruct (decide (u = 0)) as [->|]; [done|].
  apply Z.bits_above_log2; [lia|]. apply Z.log2_lt_pow2; unfold SIGN in Hu; lia.
Qed.

Lemma land_sign u : Z.land u SIGN = if Z.testbit u 63 then SIGN else 0.
Proof.
  apply Z.bits_inj'. intros i Hi. unfold SIGN.
  rewrite Z.land_spec, Z.pow2_bits_eqb by lia.
  destruct (Z.eqb_spec 63 i) as [<-|].
  - rewrite andb_true_r. by destruct (Z.testbit u 63).
  - rewrite andb_false_r. destruct (Z.testbit u 63); [|by rewrite Z.bits_0].
    rewrite Z.pow2_bits_eqb by lia. by destruct (Z.eqb_spec 63 i).
Qed.

Lemma fneg_add u : 0 <= u < SIGN -> fneg u = SIGN + u.
Proof.
  intros Hu. unfold fneg. rewrite <- Z.add_nocarry_lxor; [lia|].
  by rewrite land_sign, sign_bit.
Qed.

Lemma ldexp_split j q n :
  0 <= j -> 2 ^ 52 <= q < 2 ^ 53 -> j * 2 ^ 52 + q < INF ->
  ldexp (j * 2 ^ 52 + q) n = rne q (j - 1074 + n).
Proof.
  intros Hj Hq Hi. unfold INF in Hi. unfold ldexp, fexp, fman, SIGN.
  replace (j * 2 ^ 52 + q) with ((q - 2 ^ 52) + (j + 1) * 2 ^ 52) by lia.
  rewrite Z.mod_add, Z.div_add, (Z.mod_small (q - 2 ^ 52)), Z.div_small by lia.
  rewrite Z.add_0_l, Z.mod_small by lia.
  destruct (Z.eqb_spec (j + 1) 2047); [lia|]. destruct (Z.eqb_spec (j + 1) 0); [lia|].
  rewrite land_sign, sign_bit by (unfold SIGN; lia). rewrite Z.add_0_l. f_equal; lia.
Qed.

Lemma ldexp_fneg u n : 0 <= u < SIGN -> ldexp (fneg u) n = SIGN + ldexp u n.
Proof.
  intros Hu. rewrite fneg_add by done. unfold ldexp, fexp, fman.
  rewrite (land_sign u), sign_bit by done.
  replace (Z.land (SIGN + u) SIGN) with SIGN.
  2:{ rewrite <- fneg_add by done. unfold fneg. rewrite land_sign, Z.lxor_spec, sign_bit by done.
      done. }
  replace (SIGN + u) with (u + 2048 * 2 ^ 52) by (unfold SIGN; lia).
  rewrite Z.div_add, Z.mod_add by lia.
  replace (u / 2 ^ 52 + 2048) with (u / 2 ^ 52 + 1 * 2048) by lia. rewrite Z.mod_add by lia.
  destruct (_ =? 2047); [unfold SIGN; lia|]. destruct (_ =? 0); lia.
Qed.

Lemma shr_even_range m k : 0 <= m -> 0 < k -> m / 2 ^ k <= shr_even m k <= m / 2 ^ k + 1.
Proof. intros Hm Hk. unfold shr_even. repeat case_match; lia. Qed.

(** The mantissa of an integer's double. *)
Definition int_man (x : Z) : Z :=
  let k := Z.log2 x - 52 in if k <=? 0 then x * 2 ^ (- k) else shr_even x k.

Lemma int_man_range x : 0 < x < 2 ^ 63 -> 2 ^ 52 <= int_man x <= 2 ^ 53.
Proof.
  intros Hx. pose proof (rne_mantissa x 0 ltac:(lia)) as [Hf Hj]. cbv zeta in *.
  pose proof (Z.log2_nonneg x) as Hl. rewrite Z.max_l in Hf, Hj by lia.
  destruct Hj as [Hj|Hj]; [|lia]. unfold int_man.
  destruct (Z.leb_spec (Z.log2 x - 52) 0); [lia|].
  pose proof (shr_even_range x (Z.log2 x - 52)). lia.
Qed.

(** [rne] on a mantissa of 53 bits does not round. *)
Lemma rne_man q e : 2 ^ 52 <= q <= 2 ^ 53 -> -1074 <= e -> rne q e = Z.min INF ((e + 1074) * 2 ^ 52 + q).
Proof.
  intros Hq He. destruct (decide (q = 2 ^ 53)) as [->|Hne].
  - change (2 ^ 53) with (2 ^ 52 * 2 ^ 1) at 1. rewrite rne_scale by lia.
    unfold rne. rewrite Z.max_l by (change (Z.log2 (2 ^ 52)) with 52; lia).
    change (Z.log2 (2 ^ 52) - 52) with 0. change (2 ^ 52 =? 0) with false.
    change (0 <=? 0) with true. cbv iota zeta. f_equal. lia.
  - assert (Hl2 : Z.log2 q = 52) by (apply Z.log2_unique; lia).
    unfold rne. rewrite Hl2, Z.max_l by lia. change (52 - 52) with 0.
    destruct (Z.eqb_spec q 0); [lia|]. change (0 <=? 0) with true. cbv iota zeta. f_equal. lia.
Qed.

Lemma ldexp_int x n : 0 < x < 2 ^ 63 -> ldexp (rne x 0) n = rne (int_man x) (Z.log2 x - 52 + n).
Proof.
  intros Hx. pose proof (int_man_range x Hx) as Hq. unfold rne at 1.
  assert (Hl : 0 <= Z.log2 x < 63).
  { split; [apply Z.log2_nonneg|]. apply Z.log2_lt_pow2; lia. }
  destruct (Z.eqb_spec x 0); [lia|]. cbv zeta. rewrite Z.max_l by lia. fold (int_man x).
  rewrite Z.min_r by (unfold INF; lia).
  destruct (decide (int_man x = 2 ^ 53)) as [->|Hne].
  - replace ((0 + (Z.log2 x - 52) + 1074) * 2 ^ 52 + 2 ^ 53)
      with ((Z.log2 x + 1023) * 2 ^ 52 + 2 ^ 52) by lia.
    rewrite ldexp_split by (unfold INF; lia).
    change (2 ^ 53) with (2 ^ 52 * 2 ^ 1). rewrite rne_scale by lia. f_equal. lia.
  - rewrite ldexp_split by (unfold INF; lia). f_equal. lia.
Qed.

(** A double made of an integer is rescaled without a second rounding unless
    the result is subnormal. *)
Lemma ldexp_rne x n :
  0 < x < 2 ^ 63 -> x < 2 ^ 53 \/ -1074 <= Z.log2 x - 52 + n ->
  ldexp (rne x 0) n = rne x n.
Proof.
  intros Hx Hc. rewrite ldexp_int by done. pose proof (int_man_range x Hx) as Hq.
  destruct (Z.le_gt_cases (Z.log2 x - 52) 0) as [Hk|Hk].
  - unfold int_man. destruct (Z.leb_spec (Z.log2 x - 52) 0); [|lia].
    rewrite rne_scale by lia. f_equal. lia.
  - destruct Hc as [Hc|Hc].
    { assert (Z.log2 x < 53) by (apply Z.log2_lt_pow2; lia). lia. }
    rewrite rne_man by lia. unfold rne. destruct (Z.eqb_spec x 0); [lia|]. cbv zeta.
    rewrite (Z.max_l (Z.log2 x - 52)) by lia. fold (int_man x). do 2 f_equal. lia.
Qed.

(** Nor is an integer that a double holds exactly rounded twice. *)
Lemma shr_even_exact m k : 0 <= k -> shr_even (m * 2 ^ k) k = m.
Proof.
  intros Hk. assert (0 < 2 ^ k) by (apply Z.pow_pos_nonneg; lia).
  unfold shr_even. cbv zeta. rewrite Z.div_mul by lia.
  replace (2 * (m * 2 ^ k - m * 2 ^ k)) with 0 by lia.
  destruct (Z.compare_spec 0 (2 ^ k)); [lia|done|lia].
Qed.

Lemma ldexp_exact q s n :
  0 < q < 2 ^ 53 -> 0 <= s -> q * 2 ^ s < 2 ^ 63 -> ldexp (rne (q * 2 ^ s) 0) n = rne (q * 2 ^ s) n.
Proof.
  intros Hq Hs Hx. assert (0 < 2 ^ s) by (apply Z.pow_pos_nonneg; lia).
  assert (Hlq : 0 <= Z.log2 q <= 52).
  { split; [apply Z.log2_nonneg|]. apply Z.lt_succ_r, Z.log2_lt_pow2; lia. }
  rewrite ldexp_int by nia. unfold int_man.
  rewrite !(Z.log2_mul_pow2 q s) by lia. set (k := Z.log2 q + s - 52).
  replace (s + Z.log2 q - 52) with k by lia.
  destruct (Z.leb_spec k 0).
  - rewrite !rne_scale by nia. f_equal. lia.
  - replace (q * 2 ^ s) with (q * 2 ^ (s - k) * 2 ^ k) by
      (rewrite <- Z.mul_assoc, <- Z.pow_add_r by lia; do 2 f_equal; lia).
    rewrite shr_even_exact by lia. rewrite (rne_scale (q * 2 ^ (s - k)) k); [done| |lia].
    apply Z.mul_nonneg_nonneg; [lia|]. apply Z.pow_nonneg. lia.
Qed.

(** A multiple of the smallest double, below the normal range. *)
Lemma rne_sub q : 0 <= q <= 2 ^ 52 -> rne q (-1074) = q.
Proof.
  intros Hq. unfold rne. destruct (Z.eqb_spec q 0); [done|].
  assert (Hl : 0 <= Z.log2 q <= 52).
  { split; [apply Z.log2_nonneg|]. apply Z.lt_succ_r, Z.log2_lt_pow2; lia. }
  cbv zeta. replace (Z.max _ _) with 0 by lia. change (0 <=? 0) with true. cbv iota.
  change (-0) with 0. unfold INF. lia.
Qed.

(** Not above half the smallest double everything rounds to zero. *)
Lemma rne_tiny x l e : 0 < x <= 2 ^ l -> 0 <= l -> l + e <= -1075 -> rne x e = 0.
Proof.
  intros Hx Hl He. symmetry.
  eapply (is_rn_unique (x * pw 2 e) (pw 2 (- e))); [by apply pw_pos| |by apply rne_rn; lia].
  rewrite (pw_neg 2 e), pw_nonneg, Z.mul_1_r by lia.
  apply is_rn_down; [apply Z.pow_pos_nonneg; lia|by vm_compute|rewrite dval_0; nia|].
  change (dval 0 + dval (0 + 1)) with 1. rewrite Z.mul_1_r.
  assert (Hle : 2 * (x * 2 ^ 1074) <= 2 ^ (- e)).
  { transitivity (2 * (2 ^ l * 2 ^ 1074)); [nia|].
    rewrite <- Z.pow_add_r, <- Z.pow_succ_r by lia. apply Z.pow_le_mono_r; lia. }
  apply Z.le_lteq in Hle as [Hle|Hle]; [by left|right; split; [done|by exists 0]].
Qed.

Lemma ldexp_tiny x n : 0 < x < 2 ^ 63 -> Z.log2 x + n < -1075 -> ldexp (rne x 0) n = rne x n.
Proof.
  intros Hx Hn. pose proof (int_man_range x Hx). pose proof (Z.log2_nonneg x).
  pose proof (Z.log2_spec x ltac:(lia)) as [_ Hl].
  rewrite ldexp_int, (rne_tiny (int_man x) 53), (rne_tiny x (Z.succ (Z.log2 x))) by lia. done.
Qed.

(** ** Sticky bits

    The midpoints between doubles are far from an odd number of 55 or more
    bits: the number may stand for everything between its even neighbours. *)

Lemma midpoint_gap b e x :
  0 <= b -> 2 ^ 53 <= x ->
  let M := dval b + dval (b + 1) in
  let U := pw 2 e * 2 ^ 1074 in
  let B := pw 2 (- e) in
  (B * M <= (4 * x + 2) * U -> B * M <= 4 * x * U) /\
  ((4 * x + 2) * U <= B * M -> (4 * x + 4) * U <= B * M).
Proof.
  intros Hb Hx M U B. destruct (dval_decompose b Hb) as (j & q & Hj & Hq & Hc & ->).
  assert (HM : M = (2 * q + 1) * 2 ^ j).
  { unfold M. rewrite dval_split by lia. rewrite <- Z.add_assoc, dval_split by lia. lia. }
  set (K := Z.max 0 (- (e + 1074))). set (s := K + e + 1074).
  assert (HU : U * 2 ^ K = 2 ^ s * B).
  { unfold U, B, s. rewrite <- Z.mul_assoc, <- Z.pow_add_r by lia.
    rewrite pw_shift by lia. do 2 f_equal. lia. }
  assert (HB : 0 < B) by (by apply pw_pos).
  assert (HK : 0 < 2 ^ K) by (apply Z.pow_pos_nonneg; lia).
  assert (Hs : 0 < 2 ^ s) by (apply Z.pow_pos_nonneg; lia).
  assert (Hcmp : forall c, (B * M ?= c * U) = (M * 2 ^ K ?= c * 2 ^ s)).
  { intros c. apply ratio_compare; [done..|]. rewrite <- Z.mul_assoc, HU. lia. }
  unfold Z.le. rewrite !(Z.compare_antisym (B * M)), !Hcmp, <- !Z.compare_antisym.
  change (((M * 2 ^ K <= (4 * x + 2) * 2 ^ s) -> M * 2 ^ K <= 4 * x * 2 ^ s) /\
          ((4 * x + 2) * 2 ^ s <= M * 2 ^ K -> (4 * x + 4) * 2 ^ s <= M * 2 ^ K)).
  rewrite HM, <- Z.mul_assoc, <- Z.pow_add_r by lia.
  destruct (Z.le_gt_cases (s + 2) (j + K)) as [Hh|Hh].
  - replace (2 ^ (j + K)) with (2 ^ (j + K - s - 2) * 4 * 2 ^ s).
    2:{ change 4 with (2 ^ 2). rewrite <- !Z.pow_add_r by lia. f_equal. lia. }
    set (w := (2 * q + 1) * 2 ^ (j + K - s - 2)).
    replace ((2 * q + 1) * (2 ^ (j + K - s - 2) * 4 * 2 ^ s)) with (4 * w * 2 ^ s) by (unfold w; lia).
    clearbody w. split; intros H; apply Z.mul_le_mono_pos_r in H; try done;
      (apply Z.mul_le_mono_pos_r; [done|lia]).
  - assert (2 ^ (j + K) <= 2 * 2 ^ s).
    { rewrite <- Z.pow_succ_r by lia. apply Z.pow_le_mono_r; lia. }
    assert (Hlt : (2 * q + 1) * 2 ^ (j + K) < 4 * x * 2 ^ s).
    { apply Z.le_lt_trans with ((2 * q + 1) * (2 * 2 ^ s)); [by apply Z.mul_le_mono_nonneg_l; lia|].
      rewrite Z.mul_assoc. apply Z.mul_lt_mono_pos_r; lia. }
    split; intros H2; lia.
Qed.

(** A step of the binary exponent. *)
Lemma pw_pred f : pw 2 f * pw 2 (- (f - 1)) = 2 * (pw 2 (f - 1) * pw 2 (- f)).
Proof. unfold pw. rewrite <- !Z.pow_add_r, <- Z.pow_succ_r by lia. f_equal. lia. Qed.

(** No midpoint lies strictly inside a cell [(x, x + 1) * 2^f] of numbers of 54
    or more bits: all numbers in it round to the same double. *)
Lemma is_rn_cell x f N D N' D' b :
  2 ^ 53 <= x -> 0 < D -> 0 < D' ->
  x * pw 2 f * D < N * pw 2 (- f) < (x + 1) * pw 2 f * D ->
  x * pw 2 f * D' < N' * pw 2 (- f) < (x + 1) * pw 2 f * D' ->
  is_rn N D b -> is_rn N' D' b.
Proof.
  intros Hx HD HD' HN HN' (Hb & Hl & Hr).
  assert (HB : 0 < pw 2 (- f)) by (by apply pw_pos).
  assert (HP : 0 < 2 ^ 1074) by (by apply Z.pow_pos_nonneg).
  assert (Hgap : forall c, 0 <= c -> let M := dval c + dval (c + 1) in
    pw 2 (- f) * M <= 2 * x * (pw 2 f * 2 ^ 1074) \/ 2 * (x + 1) * (pw 2 f * 2 ^ 1074) <= pw 2 (- f) * M).
  { intros c Hc M. destruct (midpoint_gap c (f - 1) x Hc Hx) as [H1 H2]. fold M in H1, H2. cbv zeta in *.
    pose proof (pw_pred f) as HAB. pose proof (pw_pos 2 (- (f - 1)) ltac:(lia)) as HB'.
    assert (Hs : forall k, k * (pw 2 (f - 1) * 2 ^ 1074) * pw 2 (- f) * 2 =
                           k * (pw 2 f * 2 ^ 1074) * pw 2 (- (f - 1))).
    { intros k. replace (k * (pw 2 (f - 1) * 2 ^ 1074) * pw 2 (- f) * 2)
        with (k * 2 ^ 1074 * (2 * (pw 2 (f - 1) * pw 2 (- f)))) by lia. rewrite <- HAB. lia. }
    destruct (Z.le_ge_cases (pw 2 (- (f - 1)) * M) ((4 * x + 2) * (pw 2 (f - 1) * 2 ^ 1074))) as [H|H].
    - left. specialize (H1 H). apply (Z.mul_le_mono_pos_r _ _ (pw 2 (- (f - 1)))); [done|].
      pose proof (Hs (4 * x)). nia.
    - right. specialize (H2 H). apply (Z.mul_le_mono_pos_r _ _ (pw 2 (- (f - 1)))); [done|].
      pose proof (Hs (4 * x + 4)). nia. }
  unfold is_rn. set (P := 2 ^ 1074) in *. set (A := pw 2 f) in *. set (B := pw 2 (- f)) in *.
  clearbody P A B. split_and!; [lia|lia| |].
  - intros H0. specialize (Hl H0). cbv zeta in *. left. specialize (Hgap (b - 1) ltac:(lia)).
    replace (b - 1 + 1) with b in Hgap by lia. cbv zeta in Hgap.
    revert Hl Hgap. generalize (dval (b - 1) + dval b). intros M Hl Hgap.
    assert (HM : D * M <= 2 * (N * P)) by (destruct Hl as [Hl|[Hl _]]; lia).
    destruct Hgap as [Hgap|Hgap]; [nia|exfalso; nia].
  - intros H0. specialize (Hr H0). cbv zeta in *. left. specialize (Hgap b ltac:(lia)). cbv zeta in Hgap.
    revert Hr Hgap. generalize (dval b + dval (b + 1)). intros M Hr Hgap.
    assert (HM : 2 * (N * P) <= D * M) by (destruct Hr as [Hr|[Hr _]]; lia).
    destruct Hgap as [Hgap|Hgap]; [exfalso; nia|nia].
Qed.

(** A number strictly between [x] and [x + 1] rounds like [2x + 1], one place
    further down. *)
Lemma is_rn_sticky x f N D :
  2 ^ 53 <= x -> 0 < D -> x * pw 2 f * D < N * pw 2 (- f) < (x + 1) * pw 2 f * D ->
  is_rn N D (rne (2 * x + 1) (f - 1)).
Proof.
  intros Hx HD HN. pose proof (pw_pos 2 (- (f - 1)) ltac:(lia)) as HB. pose proof (pw_pred f) as Hp.
  pose proof (pw_pos 2 (f - 1) ltac:(lia)). pose proof (pw_pos 2 (- f) ltac:(lia)).
  eapply (is_rn_cell x f ((2 * x + 1) * pw 2 (f - 1)) (pw 2 (- (f - 1)))); [done|done|done| |done|].
  - rewrite <- !Z.mul_assoc, Hp. split; nia.
  - apply rne_rn. lia.
Qed.
End Flt.
