(* ===== verification/LjStr.v ===== *)
(** * LjStr

    Characters and strings of the Lua virtual machine: the classification
    table of [lj_char.c], and from [lj_str.c] the ordered comparison that
    reads four bytes at a time, the search for a fixed string, the test for
    pattern characters, and the interning table with its resizing. *)
From stdpp Require Import base tactics numbers list gmap.
From Stdlib Require Import ZArith Lia.
From S2P Require Import Prelude.
Open Scope Z_scope.

Module Char.

Definition LJ_CHAR_CNTRL : Z := 0x01.
Definition LJ_CHAR_SPACE : Z := 0x02.
Definition LJ_CHAR_PUNCT : Z := 0x04.
Definition LJ_CHAR_DIGIT : Z := 0x08.
Definition LJ_CHAR_XDIGIT : Z := 0x10.
Definition LJ_CHAR_UPPER : Z := 0x20.
Definition LJ_CHAR_LOWER : Z := 0x40.
Definition LJ_CHAR_IDENT : Z := 0x80.
Definition LJ_CHAR_ALPHA : Z := Z.lor LJ_CHAR_LOWER LJ_CHAR_UPPER.
Definition LJ_CHAR_ALNUM : Z := Z.lor LJ_CHAR_ALPHA LJ_CHAR_DIGIT.
Definition LJ_CHAR_GRAPH : Z := Z.lor LJ_CHAR_ALNUM LJ_CHAR_PUNCT.

Definition lj_char_bits : list Z := [
    0;
    1;  1;  1;  1;  1;  1;  1;  1;  1;  3;  3;  3;  3;  3;  1;  1;
    1;  1;  1;  1;  1;  1;  1;  1;  1;  1;  1;  1;  1;  1;  1;  1;
    2;  4;  4;  4;  4;  4;  4;  4;  4;  4;  4;  4;  4;  4;  4;  4;
  152;152;152;152;152;152;152;152;152;152;  4;  4;  4;  4;  4;  4;
    4;176;176;176;176;176;176;160;160;160;160;160;160;160;160;160;
  160;160;160;160;160;160;160;160;160;160;160;  4;  4;  4;  4;132;
    4;208;208;208;208;208;208;192;192;192;192;192;192;192;192;192;
  192;192;192;192;192;192;192;192;192;192;192;  4;  4;  4;  4;  1;
  128;128;128;128;128;128;128;128;128;128;128;128;128;128;128;128;
  128;128;128;128;128;128;128;128;128;128;128;128;128;128;128;128;
  128;128;128;128;128;128;128;128;128;128;128;128;128;128;128;128;
  128;128;128;128;128;128;128;128;128;128;128;128;128;128;128;128;
  128;128;128;128;128;128;128;128;128;128;128;128;128;128;128;128;
  128;128;128;128;128;128;128;128;128;128;128;128;128;128;128;128;
  128;128;128;128;128;128;128;128;128;128;128;128;128;128;128;128;
  128;128;128;128;128;128;128;128;128;128;128;128;128;128;128;128
].

(** [(lj_char_bits+1)[c] & t]; [None] outside -1..255. *)
Definition lj_char_isa (c t : Z) : option Z :=
  b ← zget lj_char_bits (c + 1); Some (Z.land b t).

Definition lj_char_toupper (c : Z) : option Z :=
  l ← lj_char_isa c LJ_CHAR_LOWER; Some (c - Z.shiftr l 1).
Definition lj_char_tolower (c : Z) : option Z :=
  u ← lj_char_isa c LJ_CHAR_UPPER; Some (c + u).

(** ** The classes of the C locale, as predicates on codes *)
Definition between (a c b : Z) : bool := (a <=? c) && (c <=? b).

Definition ascii_class (t c : Z) : bool :=
  let upper := between 65 c 90 in
  let lower := between 97 c 122 in
  let digit := between 48 c 57 in
  let graph := between 33 c 126 in
  if t =? LJ_CHAR_CNTRL then between 0 c 31 || (c =? 127)
  else if t =? LJ_CHAR_SPACE then (c =? 32) || between 9 c 13
  else if t =? LJ_CHAR_PUNCT then graph && negb (upper || lower || digit)
  else if t =? LJ_CHAR_DIGIT then digit
  else if t =? LJ_CHAR_XDIGIT then digit || between 65 c 70 || between 97 c 102
  else if t =? LJ_CHAR_UPPER then upper
  else if t =? LJ_CHAR_LOWER then lower
  else if t =? LJ_CHAR_IDENT then upper || lower || digit || (c =? 95) || (128 <=? c)
  else if t =? LJ_CHAR_ALPHA then upper || lower
  else if t =? LJ_CHAR_ALNUM then upper || lower || digit
  else if t =? LJ_CHAR_GRAPH then graph
  else false.

Definition classes : list Z :=
  [LJ_CHAR_CNTRL; LJ_CHAR_SPACE; LJ_CHAR_PUNCT; LJ_CHAR_DIGIT; LJ_CHAR_XDIGIT;
   LJ_CHAR_UPPER; LJ_CHAR_LOWER; LJ_CHAR_IDENT; LJ_CHAR_ALPHA; LJ_CHAR_ALNUM; LJ_CHAR_GRAPH].

(** The class tests and case conversions of one character agree with ASCII. *)
Definition char_ok (c : Z) : bool :=
  forallb (fun t => match lj_char_isa c t with
                    | Some r => Bool.eqb (negb (r =? 0)) (ascii_class t c)
                    | None => false end) classes &&
  match lj_char_toupper c, lj_char_tolower c with
  | Some u, Some l =>
      (u =? (if between 97 c 122 then c - 32 else c)) &&
      (l =? (if between 65 c 90 then c + 32 else c))
  | _, _ => false
  end.

Lemma all_chars_ok : forallb char_ok (seqZ 0 256) = true.
Proof. by vm_compute. Qed.

Lemma char_ok_all c : in_u8 c -> char_ok c = true.
Proof. by apply u8_exhaustive, all_chars_ok. Qed.

Lemma ispunct_class c r :
  in_u8 c -> lj_char_isa c LJ_CHAR_PUNCT = Some r ->
  negb (r =? 0) = ascii_class LJ_CHAR_PUNCT c.
Proof.
  intros Hc Hr. pose proof (char_ok_all c Hc) as H. apply andb_prop in H as [H _].
  rewrite forallb_forall in H. specialize (H LJ_CHAR_PUNCT). rewrite Hr in H.
  apply eqb_prop, H. cbn. auto 20.
Qed.
End Char.

Module Str.

(** ** Loads *)

(** An unaligned little-endian 32-bit load. *)
Definition lj_getu32 (m : list Z) (i : Z) : option Z :=
  a ← zget m i; b ← zget m (i + 1); c ← zget m (i + 2); d ← zget m (i + 3);
  Some (a + 256 * b + 65536 * c + 16777216 * d).

(** [__builtin_bswap32]: the four bytes in reverse. *)
Definition lj_bswap (x : Z) : Z :=
  (x mod 256) * 16777216 + (x / 256 mod 256) * 65536 +
  (x / 65536 mod 256) * 256 + x / 16777216.

Definition lj_rol (x n : Z) : Z :=
  Z.lor (u32 (Z.shiftl x n)) (Z.shiftr x (Z.land (- n) 31)).

(** A string object: its length and the memory from its first byte, which
    goes on behind the string (the terminator and the rest of the word). *)
Record GCstr := Gcstr { len : Z; mem : list Z }.

(** ** Ordered comparison *)

Fixpoint cmp_loop (fuel : nat) (a b : GCstr) (n i : Z) : option Z :=
  match fuel with
  | O => None
  | S fuel' =>
      if i <? n then
        va ← lj_getu32 (mem a) i;
        vb ← lj_getu32 (mem b) i;
        if va =? vb then cmp_loop fuel' a b n (u32 (i + 4))
        else
          let va := lj_bswap va in
          let vb := lj_bswap vb in
          let i := u32 (i - n) in
          if -3 <=? i32 i then
            let sh := u32 (32 + u32 (Z.shiftl i 3)) in
            let va := Z.shiftr va sh in
            let vb := Z.shiftr vb sh in
            if va =? vb then Some (i32 (u32 (len a - len b)))
            else Some (if va <? vb then -1 else 1)
          else Some (if va <? vb then -1 else 1)
      else Some (i32 (u32 (len a - len b)))
  end.

(** The loop makes at most [n/4 + 1] tests of its condition. *)
Definition lj_str_cmp (a b : GCstr) : option Z :=
  let n := if len b <? len a then len b else len a in
  cmp_loop (S (Z.to_nat n)) a b n 0.

(** ** Fixed-string search *)

(** [memchr(s+i, c, n)]: the index of the first [c] among [n] bytes. *)
Fixpoint memchr (s : list Z) (i c : Z) (n : nat) : option (option Z) :=
  match n with
  | O => Some None
  | S n' => x ← zget s i; if x =? c then Some (Some i) else memchr s (i + 1) c n'
  end.

(** [memcmp(s+i, p+j, n) == 0] *)
Fixpoint memeq (s p : list Z) (i j : Z) (n : nat) : option bool :=
  match n with
  | O => Some true
  | S n' =>
      x ← zget s i; y ← zget p j;
      if x =? y then memeq s p (i + 1) (j + 1) n' else Some false
  end.

Fixpoint find_loop (fuel : nat) (s p : list Z) (c i slen plen : Z) : option (option Z) :=
  match fuel with
  | O => None
  | S fuel' =>
      if slen =? 0 then Some None
      else
        r ← memchr s i c (Z.to_nat slen);
        match r with
        | None => Some None
        | Some q =>
            same ← memeq s p (q + 1) 1 (Z.to_nat plen);
            if (same : bool) then Some (Some q)
            else find_loop fuel' s p c (q + 1) (slen - (q + 1 - i)) plen
        end
  end.

(** The result is the offset of the match in [s], or NULL. *)
Definition lj_str_find (s p : list Z) (slen plen : Z) : option (option Z) :=
  if plen <=? slen then
    if plen =? 0 then Some (Some 0)
    else
      c ← zget p 0;
      let plen := plen - 1 in
      let slen := slen - plen in
      find_loop (S (Z.to_nat slen)) s p c 0 slen plen
  else Some None.

(** ** Pattern characters *)

(** ^ $ * + ? . ( [ % - *)
Definition pattern_chars : list Z := [94; 36; 42; 43; 63; 46; 40; 91; 37; 45].

(** [strchr] also finds the terminator. *)
Definition strchr_pattern (c : Z) : bool := bool_decide (c ∈ pattern_chars ++ [0]).

Fixpoint lj_str_haspattern (bytes : list Z) : option bool :=
  match bytes with
  | [] => Some false
  | c :: rest =>
      isp ← Char.lj_char_isa c Char.LJ_CHAR_PUNCT;
      if negb (isp =? 0) && strchr_pattern c then Some true else lj_str_haspattern rest
  end.

(** ** Comparison is lexicographic *)

Fixpoint lex (a b : list Z) : Z :=
  match a, b with
  | [], [] => 0
  | [], _ => -1
  | _, [] => 1
  | x :: a', y :: b' => if x <? y then -1 else if y <? x then 1 else lex a' b'
  end.

Lemma lex_app p a b : lex (p ++ a) (p ++ b) = lex a b.
Proof. induction p as [|x p IH]; [done|]. cbn. by rewrite Z.ltb_irrefl. Qed.

(** The big-endian value of a list of bytes. *)
Fixpoint be (u : list Z) : Z :=
  match u with [] => 0 | x :: u' => x * 256 ^ zlen u' + be u' end.

Definition is_bytes (u : list Z) : Prop := Forall in_u8 u.

Lemma be_range u : is_bytes u -> 0 <= be u < 256 ^ zlen u.
Proof.
  induction 1 as [|x u Hx _ IH]; [done|]. cbn [be]. rewrite zlen_cons.
  pose proof (zlen_nonneg u). rewrite Z.pow_add_r by lia. unfold in_u8 in Hx. nia.
Qed.

(** Comparing big-endian values compares the bytes lexicographically. *)
Lemma be_lex u v a b :
  is_bytes u -> is_bytes v -> length u = length v ->
  (be u = be v -> u = v) /\
  (be u < be v -> lex (u ++ a) (v ++ b) = -1) /\
  (be v < be u -> lex (u ++ a) (v ++ b) = 1).
Proof.
  intros Hu. revert v. induction Hu as [|x u Hx Hu IH]; intros [|y v] Hv Hl; try done.
  apply Forall_cons in Hv as [Hy Hv]. injection Hl as Hl.
  destruct (IH v Hv Hl) as (I1 & I2 & I3).
  pose proof (be_range u Hu) as Ru. pose proof (be_range v Hv) as Rv.
  cbn [be lex app]. assert (Hz : zlen u = zlen v) by (unfold zlen; lia). rewrite Hz in *.
  assert (Hp : 0 < 256 ^ zlen v) by (apply Z.pow_pos_nonneg; pose proof (zlen_nonneg v); lia).
  destruct (Z.lt_trichotomy x y) as [Hlt|[->|Hgt]].
  - assert (x * 256 ^ zlen v + be u < y * 256 ^ zlen v + be v) by nia.
    replace (x <? y) with true by lia. split; [lia|]. split; [done|lia].
  - rewrite Z.ltb_irrefl. split; [intros; f_equal; apply I1; lia|].
    split; intros; [apply I2|apply I3]; lia.
  - assert (y * 256 ^ zlen v + be v < x * 256 ^ zlen v + be u) by nia.
    replace (x <? y) with false by lia. replace (y <? x) with true by lia.
    split; [lia|]. split; [lia|done].
Qed.

Lemma lj_bswap_be a b c d : is_bytes [a; b; c; d] ->
  lj_bswap (a + 256 * b + 65536 * c + 16777216 * d) = be [a; b; c; d].
Proof.
  intros H. repeat (apply Forall_cons in H as [? H]).
  unfold lj_bswap. cbn [be]. change (256 ^ zlen [b; c; d]) with 16777216.
  change (256 ^ zlen [c; d]) with 65536. change (256 ^ zlen [d]) with 256.
  change (256 ^ zlen (@nil Z)) with 1. zlia.
Qed.

(** Shifting out the low bytes keeps the value of the first ones. *)
Lemma be_shift u v : is_bytes v ->
  be (u ++ v) / 256 ^ zlen v = be u.
Proof.
  intros Hv. pose proof (be_range v Hv) as Rv.
  assert (E : be (u ++ v) = be u * 256 ^ zlen v + be v).
  { induction u as [|x u IH]; [done|]. cbn [be app]. rewrite IH, zlen_app, Z.pow_add_r
      by apply zlen_nonneg. lia. }
  rewrite E, Z.div_add_l, Z.div_small by lia. lia.
Qed.

(** A load that stays inside the memory sees the four bytes at [i]. *)
Lemma lj_getu32_split p a b c d q :
  lj_getu32 (p ++ a :: b :: c :: d :: q) (zlen p) =
  Some (a + 256 * b + 65536 * c + 16777216 * d).
Proof.
  unfold lj_getu32. rewrite !zget_app_r by lia.
  replace (zlen p - zlen p) with 0 by lia. replace (zlen p + 1 - zlen p) with 1 by lia.
  replace (zlen p + 2 - zlen p) with 2 by lia. replace (zlen p + 3 - zlen p) with 3 by lia.
  done.
Qed.

Lemma four_bytes (l : list Z) : 4 <= zlen l ->
  exists a b c d q, l = a :: b :: c :: d :: q.
Proof.
  intros H. destruct l as [|a [|b [|c [|d q]]]]; zlen_simpl; try lia. eauto 10.
Qed.

(** A string object that holds the bytes [s]. *)
Definition holds (o : GCstr) (s : list Z) : Prop :=
  len o = zlen s /\ zlen s < 2147483648 /\
  exists pad, mem o = s ++ pad /\ 3 <= zlen pad /\ is_bytes (s ++ pad).

Lemma u32_sub_neg i n : 0 <= i < n -> n < 2147483648 -> i32 (u32 (i - n)) = i - n.
Proof. intros. width_lia. Qed.

(** Two strings that agree up to the end of the shorter one. *)
Lemma lex_common u a b : a = [] \/ b = [] ->
  lex (u ++ a) (u ++ b) = Z.sgn (zlen (u ++ a) - zlen (u ++ b)).
Proof.
  intros H. rewrite lex_app. zlen_simpl.
  replace (zlen u + zlen a - (zlen u + zlen b)) with (zlen a - zlen b) by lia.
  destruct H as [->| ->].
  - destruct b; [done|]. zlen_simpl. pose proof (zlen_nonneg b). cbn [lex].
    rewrite Z.sgn_neg; lia.
  - destruct a; [done|]. zlen_simpl. pose proof (zlen_nonneg a). cbn [lex].
    rewrite Z.sgn_pos; lia.
Qed.

Lemma len_diff a b : 0 <= a < 2147483648 -> 0 <= b < 2147483648 -> i32 (u32 (a - b)) = a - b.
Proof. intros. width_lia. Qed.

Lemma take_min_drop {A} (l : list A) k : (k <= length l)%nat ->
  l = take k l ++ drop k l /\ length (take k l) = k.
Proof. intros H. split; [by rewrite take_drop|]. rewrite length_take. lia. Qed.

Lemma take_app_word {A} (r p : list A) a b c d q k :
  r ++ p = a :: b :: c :: d :: q -> (k <= length r)%nat -> (k <= 4)%nat ->
  take k r = take k [a; b; c; d].
Proof.
  intros E Hk H4. rewrite <- (take_app_le r p k) by done. rewrite E.
  by do 5 (destruct k as [|k]; [done|cbn; try (f_equal; [])]); try lia.
Qed.

Lemma word_inj a b c d a' b' c' d' :
  is_bytes [a; b; c; d] -> is_bytes [a'; b'; c'; d'] ->
  a + 256 * b + 65536 * c + 16777216 * d = a' + 256 * b' + 65536 * c' + 16777216 * d' ->
  [a; b; c; d] = [a'; b'; c'; d'].
Proof.
  intros H H' E. repeat (apply Forall_cons in H as [? H]; apply Forall_cons in H' as [? H']).
  unfold in_u8 in *. repeat f_equal; zlia.
Qed.

(** The comparison of the first differing words of two strings whose
    remaining parts are [ra] and [rb]. *)
Definition word_verdict (va vb k la lb : Z) : Z :=
  let va := lj_bswap va in
  let vb := lj_bswap vb in
  if k <=? 3 then
    let va := va / 256 ^ (4 - k) in
    let vb := vb / 256 ^ (4 - k) in
    if va =? vb then la - lb else if va <? vb then -1 else 1
  else if va <? vb then -1 else 1.

Lemma word_verdict_lex ra rb pa pb a b c d q a' b' c' d' q' k la lb :
  ra ++ pa = a :: b :: c :: d :: q -> rb ++ pb = a' :: b' :: c' :: d' :: q' ->
  is_bytes [a; b; c; d] -> is_bytes [a'; b'; c'; d'] ->
  [a; b; c; d] <> [a'; b'; c'; d'] ->
  0 < k -> k = Z.min (zlen ra) (zlen rb) -> la - lb = zlen ra - zlen rb ->
  Z.sgn (word_verdict (a + 256 * b + 65536 * c + 16777216 * d)
           (a' + 256 * b' + 65536 * c' + 16777216 * d') k la lb) = lex ra rb.
Proof.
  intros Ea Eb Ba Bb Hne Hk Hmin Hlen. unfold word_verdict. rewrite !lj_bswap_be by done.
  assert (Hra : (Z.to_nat (Z.min k 4) <= length ra)%nat) by (unfold zlen in *; lia).
  assert (Hrb : (Z.to_nat (Z.min k 4) <= length rb)%nat) by (unfold zlen in *; lia).
  remember (Z.to_nat (Z.min k 4)) as m eqn:Hm.
  destruct (take_min_drop ra m Hra) as [Sa La], (take_min_drop rb m Hrb) as [Sb Lb].
  pose proof (take_app_word _ _ _ _ _ _ _ m Ea Hra ltac:(lia)) as Ta.
  pose proof (take_app_word _ _ _ _ _ _ _ m Eb Hrb ltac:(lia)) as Tb.
  set (wa := [a; b; c; d]) in *. set (wb := [a'; b'; c'; d']) in *.
  assert (Bta : is_bytes (take m wa)) by (by apply Forall_take).
  assert (Btb : is_bytes (take m wb)) by (by apply Forall_take).
  destruct (be_lex (take m wa) (take m wb) (drop m ra) (drop m rb) Bta Btb) as (I1 & I2 & I3);
    [rewrite <- Ta, <- Tb; lia|].
  rewrite Ta in Sa. rewrite Tb in Sb. rewrite <- Sa, <- Sb in I2, I3.
  destruct (Z.leb_spec k 3) as [Hk3|Hk3].
  - assert (Dv : forall w, w = wa \/ w = wb -> be w / 256 ^ (4 - k) = be (take m w)).
    { intros w Hw. rewrite <- (take_drop m w) at 1.
      replace (4 - k) with (zlen (drop m w)).
      - apply be_shift. apply Forall_drop. by destruct Hw as [->| ->].
      - unfold zlen. rewrite length_drop. destruct Hw as [->| ->]; cbn [length wa wb]; lia. }
    rewrite (Dv wa), (Dv wb) by auto.
    destruct (Z.eqb_spec (be (take m wa)) (be (take m wb))) as [E|E].
    + apply I1 in E. rewrite Sa, Sb, E, lex_common.
      * f_equal. rewrite Hlen. rewrite Sa at 1. rewrite Sb at 1. by rewrite E.
      * assert (length ra = m \/ length rb = m) by (unfold zlen in *; lia).
        destruct H as [H|H]; [left|right]; apply drop_ge; lia.
    + destruct (Z.ltb_spec (be (take m wa)) (be (take m wb))).
      * by rewrite I2.
      * by rewrite I3 by lia.
  - replace m with 4%nat in * by lia. change (take 4 wa) with wa in *.
    change (take 4 wb) with wb in *.
    destruct (Z.ltb_spec (be wa) (be wb)).
    + by rewrite I2.
    + rewrite I3; [done|]. destruct (Z.eq_dec (be wa) (be wb)) as [E|]; [|lia].
      by apply I1 in E.
Qed.

Lemma bytes_word p a b c d q : is_bytes (p ++ a :: b :: c :: d :: q) -> is_bytes [a; b; c; d].
Proof.
  intros [_ H]%Forall_app. do 4 (apply Forall_cons_1 in H as [? H]).
  by repeat apply Forall_cons_2.
Qed.

(** The shift amounts for 1, 2 and 3 remaining bytes. *)
Lemma partial_shift v k : 1 <= k <= 3 ->
  Z.shiftr v (u32 (32 + u32 (Z.shiftl (u32 (- k)) 3))) = v / 256 ^ (4 - k).
Proof.
  intros Hk. assert (k = 1 \/ k = 2 \/ k = 3) as [->|[->| ->]] by lia;
    rewrite Z.shiftr_div_pow2; done.
Qed.

Lemma common_prefix_done ra rb pa pb a b c d qa qb k :
  ra ++ pa = a :: b :: c :: d :: qa -> rb ++ pb = a :: b :: c :: d :: qb ->
  k = Z.min (zlen ra) (zlen rb) -> k <= 4 -> 0 <= k ->
  lex ra rb = Z.sgn (zlen ra - zlen rb).
Proof.
  intros Ea Eb Hk H4 H0.
  assert (Hra : (Z.to_nat k <= length ra)%nat) by (unfold zlen in *; lia).
  assert (Hrb : (Z.to_nat k <= length rb)%nat) by (unfold zlen in *; lia).
  destruct (take_min_drop ra _ Hra) as [Sa _], (take_min_drop rb _ Hrb) as [Sb _].
  rewrite (take_app_word _ _ _ _ _ _ _ _ Ea Hra ltac:(lia)) in Sa.
  rewrite (take_app_word _ _ _ _ _ _ _ _ Eb Hrb ltac:(lia)) in Sb.
  rewrite Sa, Sb. apply lex_common.
  assert (length ra = Z.to_nat k \/ length rb = Z.to_nat k) as [E|E] by (unfold zlen in *; lia);
    [left|right]; apply drop_ge; lia.
Qed.

Lemma cmp_loop_lex fuel : forall a b p ra rb pa pb,
  mem a = p ++ ra ++ pa -> mem b = p ++ rb ++ pb ->
  is_bytes (mem a) -> is_bytes (mem b) -> 3 <= zlen pa -> 3 <= zlen pb ->
  len a = zlen p + zlen ra -> len b = zlen p + zlen rb ->
  len a < 2147483648 -> len b < 2147483648 ->
  Z.min (zlen ra) (zlen rb) < Z.of_nat fuel ->
  exists r, cmp_loop fuel a b (Z.min (len a) (len b)) (zlen p) = Some r /\
    Z.sgn r = lex ra rb.
Proof.
  induction fuel as [|fuel IH]; intros a b p ra rb pa pb Ma Mb Ba Bb Pa Pb La Lb Ha Hb Hf;
    [pose proof (zlen_nonneg ra); pose proof (zlen_nonneg rb); lia|].
  pose proof (zlen_nonneg p). pose proof (zlen_nonneg ra). pose proof (zlen_nonneg rb).
  cbn [cmp_loop]. set (n := Z.min (len a) (len b)).
  destruct (Z.ltb_spec (zlen p) n) as [Hlt|Hge].
  2:{ eexists. split; [done|]. rewrite len_diff by lia.
      pose proof (lex_common [] ra rb) as Hc. cbn [app] in Hc. rewrite Hc.
      - f_equal. lia.
      - assert (zlen ra = 0 \/ zlen rb = 0) as [E|E] by lia;
          [left; destruct ra|right; destruct rb]; try done; zlen_simpl;
          match goal with E : 1 + zlen ?l = 0 |- _ => pose proof (zlen_nonneg l); lia end. }
  destruct (four_bytes (ra ++ pa)) as (x0 & x1 & x2 & x3 & qa & Ea); [zlen_simpl; lia|].
  destruct (four_bytes (rb ++ pb)) as (y0 & y1 & y2 & y3 & qb & Eb); [zlen_simpl; lia|].
  assert (Bx : is_bytes [x0; x1; x2; x3]) by (rewrite Ma, Ea in Ba; by eapply bytes_word).
  assert (By : is_bytes [y0; y1; y2; y3]) by (rewrite Mb, Eb in Bb; by eapply bytes_word).
  rewrite Ma, Ea, lj_getu32_split. cbn [mbind option_bind].
  rewrite Mb, Eb, lj_getu32_split. cbn [mbind option_bind].
  destruct (Z.eqb_spec (x0 + 256 * x1 + 65536 * x2 + 16777216 * x3)
    (y0 + 256 * y1 + 65536 * y2 + 16777216 * y3)) as [Ew|Ew].
  - apply word_inj in Ew; [|done..]. injection Ew as -> -> -> ->.
    destruct (Z.le_gt_cases 4 (n - zlen p)) as [H4|H4].
    + assert (Hra : (4 <= length ra)%nat) by (unfold zlen in *; lia).
      assert (Hrb : (4 <= length rb)%nat) by (unfold zlen in *; lia).
      destruct (take_min_drop ra 4 Hra) as [Sa _], (take_min_drop rb 4 Hrb) as [Sb _].
      rewrite (take_app_word _ _ _ _ _ _ _ 4 Ea Hra ltac:(lia)) in Sa.
      rewrite (take_app_word _ _ _ _ _ _ _ 4 Eb Hrb ltac:(lia)) in Sb.
      cbn [take] in Sa, Sb. set (w := [y0; y1; y2; y3]) in *.
      replace (u32 (zlen p + 4)) with (zlen (p ++ w))
        by (rewrite u32_small by (unfold in_u32; lia); rewrite zlen_app; done).
      destruct (IH a b (p ++ w) (drop 4 ra) (drop 4 rb) pa pb) as (r & Hr & Hs);
        try done; try (rewrite Ma, Sa at 1 || rewrite Mb, Sb at 1; by rewrite <- !app_assoc);
        try (rewrite Sa in La; zlen_simpl; lia); try (rewrite Sb in Lb; zlen_simpl; lia).
      { rewrite Sa, Sb in Hf. zlen_simpl. change (zlen w) with 4 in Hf. lia. }
      exists r. split; [done|]. rewrite Hs. rewrite Sa at 2. rewrite Sb at 2.
      by rewrite lex_app.
    + destruct fuel as [|fuel]; [lia|]. cbn [cmp_loop].
      rewrite u32_small by (unfold in_u32; lia).
      destruct (Z.ltb_spec (zlen p + 4) n); [lia|]. eexists. split; [done|].
      rewrite len_diff by lia.
      rewrite (common_prefix_done _ _ _ _ _ _ _ _ _ _ (n - zlen p) Ea Eb) by lia.
      f_equal. lia.
  - eexists. split; [|apply (word_verdict_lex ra rb pa pb x0 x1 x2 x3 qa y0 y1 y2 y3 qb
      (n - zlen p) (len a) (len b)); try done; try lia; by intros [= -> -> -> ->]].
    rewrite u32_sub_neg by lia. unfold word_verdict. cbv zeta.
    destruct (Z.leb_spec (n - zlen p) 3) as [H3|H3].
    + replace (-3 <=? zlen p - n) with true by lia.
      replace (zlen p - n) with (- (n - zlen p)) by lia. rewrite !partial_shift by lia.
      rewrite len_diff by lia. by repeat case_match.
    + by replace (-3 <=? zlen p - n) with false by lia.
Qed.

(** C36: on strings shorter than 2^31 bytes, whatever follows them in memory,
    the word-wise comparison ends, never reads more than three bytes behind
    the shorter string, and its result has the sign of the lexicographic
    order of the two byte strings. *)
Theorem lj_str_cmp_lexicographic (a b : GCstr) (sa sb : list Z)
    (Ha : holds a sa) (Hb : holds b sb) :
  exists r, lj_str_cmp a b = Some r /\ Z.sgn r = lex sa sb.
Proof.
  destruct Ha as (La & Lla & pa & Ma & Pa & Ba), Hb as (Lb & Llb & pb & Mb & Pb & Bb).
  pose proof (zlen_nonneg sa). pose proof (zlen_nonneg sb). unfold lj_str_cmp.
  replace (if len b <? len a then len b else len a) with (Z.min (len a) (len b))
    by (destruct (Z.ltb_spec (len b) (len a)); lia).
  apply (cmp_loop_lex _ a b [] sa sb pa pb); try done; try (cbn; lia);
    rewrite ?Ma, ?Mb; done.
Qed.

Lemma lj_str_cmp_lexicographic_witness :
  exists r, lj_str_cmp (Gcstr 5 [97;98;99;100;101;0;7;7]) (Gcstr 5 [97;98;99;100;102;0;9;9])
    = Some r /\ Z.sgn r = lex [97;98;99;100;101] [97;98;99;100;102].
Proof.
  apply lj_str_cmp_lexicographic.
  - split; [done|]. split; [done|]. exists [0;7;7]. split; [done|]. split; [done|].
    by repeat (apply Forall_cons_2; [unfold in_u8; lia|]).
  - split; [done|]. split; [done|]. exists [0;9;9]. split; [done|]. split; [done|].
    by repeat (apply Forall_cons_2; [unfold in_u8; lia|]).
Defined.

(** ** The search finds the first occurrence *)

Definition matches_at (s p : list Z) (q : Z) : Prop :=
  forall k, 0 <= k < zlen p -> zget s (q + k) = zget p k.

Lemma memchr_spec s c n : forall i,
  0 <= i -> i + Z.of_nat n <= zlen s ->
  exists r, memchr s i c n = Some r /\
    match r with
    | Some q => i <= q < i + Z.of_nat n /\ zget s q = Some c /\
                (forall j, i <= j < q -> zget s j <> Some c)
    | None => forall j, i <= j < i + Z.of_nat n -> zget s j <> Some c
    end.
Proof.
  induction n as [|n IH]; intros i Hi Hn; cbn [memchr].
  { exists None. split; [done|]. intros j Hj. lia. }
  destruct (zget_is_Some s i ltac:(lia)) as [x Hx]. rewrite Hx. cbn [mbind option_bind].
  destruct (Z.eqb_spec x c) as [->|Hne].
  - exists (Some i). split; [done|]. split; [lia|]. split; [done|]. intros j Hj. lia.
  - destruct (IH (i + 1) ltac:(lia) ltac:(lia)) as (r & E & Hr). exists r. split; [done|].
    assert (Hstep : forall j, i <= j -> j = i \/ i + 1 <= j) by lia.
    destruct r as [q|].
    + destruct Hr as (Hq & Hz & Hb). split; [lia|]. split; [done|].
      intros j Hj. destruct (Hstep j) as [->|]; [lia|congruence|apply Hb; lia].
    + intros j Hj. destruct (Hstep j) as [->|]; [lia|congruence|apply Hr; lia].
Qed.

Lemma memeq_spec s p n : forall i j,
  0 <= i -> 0 <= j -> i + Z.of_nat n <= zlen s -> j + Z.of_nat n <= zlen p ->
  exists b, memeq s p i j n = Some b /\
    (b = true <-> forall k, 0 <= k < Z.of_nat n -> zget s (i + k) = zget p (j + k)).
Proof.
  induction n as [|n IH]; intros i j Hi Hj Hn Hm; cbn [memeq].
  { exists true. split; [done|]. split; [|done]. intros _ k Hk. lia. }
  destruct (zget_is_Some s i ltac:(lia)) as [x Hx]. rewrite Hx.
  destruct (zget_is_Some p j ltac:(lia)) as [y Hy]. cbn [mbind option_bind]. rewrite Hy.
  cbn [mbind option_bind]. destruct (Z.eqb_spec x y) as [->|Hne].
  - destruct (IH (i + 1) (j + 1) ltac:(lia) ltac:(lia) ltac:(lia) ltac:(lia)) as (b & E & Hb).
    exists b. split; [done|]. rewrite Hb. split; intros H k Hk.
    + destruct (Z.eq_dec k 0) as [->|]; [by rewrite !Z.add_0_r, Hx, Hy|].
      specialize (H (k - 1) ltac:(lia)).
      by replace (i + 1 + (k - 1)) with (i + k) in H by lia;
        replace (j + 1 + (k - 1)) with (j + k) in H by lia.
    + specialize (H (k + 1) ltac:(lia)).
      by replace (i + 1 + k) with (i + (k + 1)) by lia;
        replace (j + 1 + k) with (j + (k + 1)) by lia.
  - exists false. split; [done|]. split; [done|]. intros H. specialize (H 0 ltac:(lia)).
    rewrite !Z.add_0_r in H. congruence.
Qed.

Lemma find_loop_spec s p c : forall fuel i slen,
  zget p 0 = Some c -> 0 <= i -> 0 <= slen -> slen < Z.of_nat fuel ->
  i + slen = zlen s - (zlen p - 1) ->
  (forall j, 0 <= j < i -> ~ matches_at s p j) ->
  exists r, find_loop fuel s p c i slen (zlen p - 1) = Some r /\
    match r with
    | Some q => 0 <= q /\ q + zlen p <= zlen s /\ matches_at s p q /\
                (forall j, 0 <= j < q -> ~ matches_at s p j)
    | None => forall j, 0 <= j -> j + zlen p <= zlen s -> ~ matches_at s p j
    end.
Proof.
  induction fuel as [|fuel IH]; intros i slen Hc Hi Hs Hf Hsum Hno; [lia|].
  pose proof (zget_Some_range _ _ _ Hc) as Hp. cbn [find_loop].
  destruct (Z.eqb_spec slen 0) as [->|Hs0].
  { exists None. split; [done|]. intros j Hj Hjp. apply Hno. lia. }
  destruct (memchr_spec s c (Z.to_nat slen) i Hi ltac:(lia)) as (r & -> & Hr).
  cbn [mbind option_bind].
  (* a match starts with the first character *)
  assert (Hfirst : forall j, matches_at s p j -> zget s j = Some c).
  { intros j Hj. specialize (Hj 0 ltac:(lia)). by rewrite Z.add_0_r, Hc in Hj. }
  destruct r as [q|].
  - destruct Hr as (Hq & Hzq & Hbefore).
    assert (Hno' : forall j, 0 <= j < q -> ~ matches_at s p j).
    { intros j Hj Hm. destruct (Z.lt_ge_cases j i); [apply (Hno j); [lia|done]|].
      apply (Hbefore j); [lia|by apply Hfirst]. }
    destruct (memeq_spec s p (Z.to_nat (zlen p - 1)) (q + 1) 1 ltac:(lia) ltac:(lia)
      ltac:(lia) ltac:(lia)) as (b & -> & Hb). cbn [mbind option_bind].
    assert (Hiff : b = true <-> matches_at s p q).
    { rewrite Hb. split; intros H k Hk.
      - destruct (Z.eq_dec k 0) as [->|]; [by rewrite Z.add_0_r, Hzq, Hc|].
        specialize (H (k - 1) ltac:(lia)).
        by replace (q + 1 + (k - 1)) with (q + k) in H by lia;
          replace (1 + (k - 1)) with k in H by lia.
      - replace (q + 1 + k) with (q + (1 + k)) by lia. apply H. lia. }
    destruct b.
    + exists (Some q). split; [done|]. split; [lia|]. split; [lia|]. split; [tauto|done].
    + apply IH; try lia; [done|]. intros j Hj Hm.
      destruct (Z.eq_dec j q) as [->|]; [|apply (Hno' j); [lia|done]].
      apply Hiff in Hm. done.
  - exists None. split; [done|]. intros j Hj Hjp Hm.
    destruct (Z.lt_ge_cases j i); [apply (Hno j); [lia|done]|].
    apply (Hr j); [lia|by apply Hfirst].
Qed.

(** the fixed-string search ends, stays inside both strings, and returns
    the offset of the first occurrence of [p] in [s], or NULL exactly when
    there is none. *)
Theorem lj_str_find_first (s p : list Z) :
  exists r, lj_str_find s p (zlen s) (zlen p) = Some r /\
    match r with
    | Some q => 0 <= q /\ q + zlen p <= zlen s /\ matches_at s p q /\
                (forall j, 0 <= j < q -> ~ matches_at s p j)
    | None => forall j, 0 <= j -> j + zlen p <= zlen s -> ~ matches_at s p j
    end.
Proof.
  pose proof (zlen_nonneg p). pose proof (zlen_nonneg s). unfold lj_str_find.
  destruct (Z.leb_spec (zlen p) (zlen s)).
  - destruct (Z.eqb_spec (zlen p) 0) as [E|E].
    + exists (Some 0). split; [done|]. split; [lia|]. split; [lia|].
      split; [intros k Hk; lia|intros j Hj; lia].
    + destruct (zget_is_Some p 0 ltac:(lia)) as [c Hc]. rewrite Hc. cbn [mbind option_bind].
      cbv zeta. apply find_loop_spec; try done; try lia.
  - exists None. split; [done|]. intros j Hj Hjp. lia.
Qed.

Lemma lj_str_haspattern_spec bytes : is_bytes bytes ->
  lj_str_haspattern bytes = Some (existsb (fun c => bool_decide (c ∈ pattern_chars)) bytes).
Proof.
  induction 1 as [|c rest Hc _ IH]; cbn [lj_str_haspattern existsb]; [done|].
  assert (Hsome : exists r, Char.lj_char_isa c Char.LJ_CHAR_PUNCT = Some r).
  { destruct (zget_is_Some Char.lj_char_bits (c + 1)) as [b Hb].
    - change (zlen Char.lj_char_bits) with 257. unfold in_u8 in Hc. lia.
    - unfold Char.lj_char_isa. rewrite Hb. eauto. }
  destruct Hsome as [r Hr]. rewrite Hr. cbn [mbind option_bind].
  rewrite (Char.ispunct_class c r Hc Hr).
  assert (Hpat : (Char.ascii_class Char.LJ_CHAR_PUNCT c && strchr_pattern c) =
    bool_decide (c ∈ pattern_chars)).
  { apply (u8_exhaustive (fun c => Bool.eqb (Char.ascii_class Char.LJ_CHAR_PUNCT c &&
      strchr_pattern c) (bool_decide (c ∈ pattern_chars)))) in Hc; [|by vm_compute].
    by apply eqb_prop. }
  rewrite Hpat, IH. by case_bool_decide.
Qed.
End Str.
