(* ===== verification/LjIntern.v ===== *)
(** * LjIntern

    String interning ([lj_str.c]) together with the part of the collector that
    frees strings ([lj_gc.c]): the hash table, its resizing, the marks of the
    string objects, the steps of a collection cycle and the sweep of the hash
    chains.  What the marker reaches through other objects is abstract: the
    program holds a list of references, and the atomic phase marks the strings
    in it.  Freed objects leave a hole in the heap; following a pointer to one,
    an access outside the table and a failing assertion are faults. *)
From stdpp Require Import base tactics numbers list sets.
From Stdlib Require Import ZArith Lia.
From S2P Require Import Prelude LjStr.
Open Scope Z_scope.

Module Intern.
Import Str.

Definition LJ_MAX_STR : Z := 0x7fffff00.
Definition LJ_MAX_STRTAB : Z := Z.shiftl 1 26.
Definition LJ_MIN_STRTAB : Z := 256.
Definition LJ_GC_WHITE0 : Z := 1.
Definition LJ_GC_FIXED : Z := 0x20.
Definition LJ_GC_WHITES : Z := 3.
Definition LJ_GC_COLORS : Z := 7.

(** ** State *)

(** A string object in the collector's heap. *)
Record strobj := Strobj { s_hash : Z; s_len : Z; s_data : list Z; s_marked : Z }.

Inductive gcstate := GCSpause | GCSpropagate | GCSatomic | GCSsweepstring | GCSsweep.

Definition sweeping (st : gcstate) : bool := match st with GCSsweepstring => true | _ => false end.

(** The string part of [global_State]; objects are named by their index in
    the heap, a chain lists its objects from the anchor on. *)
Record global := Global {
  strhash : list (list nat); strmask : Z; strnum : Z; heap : list (option strobj);
  state : gcstate; sweepstr : Z; currentwhite : Z }.

(** Following a pointer. *)
Definition obj (hp : list (option strobj)) (id : nat) : option strobj := o ← hp !! id; o.

Definition set_heap (g : global) (hp : list (option strobj)) : global :=
  Global (strhash g) (strmask g) (strnum g) hp (state g) (sweepstr g) (currentwhite g).
Definition set_table (g : global) (sh : list (list nat)) (mask : Z) : global :=
  Global sh mask (strnum g) (heap g) (state g) (sweepstr g) (currentwhite g).
Definition set_state (g : global) (st : gcstate) : global :=
  Global (strhash g) (strmask g) (strnum g) (heap g) st (sweepstr g) (currentwhite g).

(** ** Marks *)

Definition otherwhite (g : global) : Z := Z.lxor (currentwhite g) LJ_GC_WHITES.
Definition curwhite (g : global) : Z := Z.land (currentwhite g) LJ_GC_WHITES.

Definition isdead (g : global) (o : strobj) : bool :=
  negb (Z.land (Z.land (s_marked o) (otherwhite g)) LJ_GC_WHITES =? 0).

Definition set_marked (o : strobj) (m : Z) : strobj := Strobj (s_hash o) (s_len o) (s_data o) m.
Definition flipwhite (o : strobj) : strobj := set_marked o (Z.lxor (s_marked o) LJ_GC_WHITES).
Definition makewhite (g : global) (o : strobj) : strobj :=
  set_marked o (Z.lor (Z.land (s_marked o) (u8 (Z.lnot LJ_GC_COLORS))) (curwhite g)).
Definition gc_mark_str (o : strobj) : strobj := set_marked o (Z.land (s_marked o) (u8 (Z.lnot LJ_GC_WHITES))).
Definition fixstring (o : strobj) : strobj := set_marked o (Z.lor (s_marked o) LJ_GC_FIXED).

(** ** The hash *)

(** The hash of a string of [len] bytes, not 0; every load is inside the
    string. *)
Definition str_hash (str : list Z) (len : Z) : option Z :=
  let h := len in
  '(a, h, b) ←
    (if 4 <=? len then
       a ← lj_getu32 str 0;
       x ← lj_getu32 str (len - 4);
       let h := Z.lxor h x in
       b ← lj_getu32 str (Z.shiftr len 1 - 2);
       let h := Z.lxor h b in
       let h := u32 (h - lj_rol b 14) in
       y ← lj_getu32 str (Z.shiftr len 2 - 1);
       let b := u32 (b + y) in
       Some (a, h, b)
     else
       a ← zget str 0;
       x ← zget str (len - 1);
       let h := Z.lxor h x in
       b ← zget str (Z.shiftr len 1);
       let h := Z.lxor h b in
       let h := u32 (h - lj_rol b 14) in
       Some (a, h, b));
  let a := Z.lxor a h in let a := u32 (a - lj_rol h 11) in
  let b := Z.lxor b a in let b := u32 (b - lj_rol a 25) in
  let h := Z.lxor h b in let h := u32 (h - lj_rol b 16) in
  Some h.

(** ** Resizing *)

(** Put [id] at the head of the chain its hash selects. *)
Definition push_chain (hp : list (option strobj)) (newmask : Z) (newhash : list (list nat)) (id : nat) :
    option (list (list nat)) :=
  o ← obj hp id;
  let h := Z.land (s_hash o) newmask in
  c ← zget newhash h;
  zset newhash h (id :: c).

Fixpoint push_all (hp : list (option strobj)) (newmask : Z) (newhash : list (list nat)) (ids : list nat) :
    option (list (list nat)) :=
  match ids with
  | [] => Some newhash
  | id :: ids' => nh ← push_chain hp newmask newhash id; push_all hp newmask nh ids'
  end.

(** The loop over the old anchors runs from the last one down. *)
Fixpoint rehash (hp : list (option strobj)) (newmask : Z) (newhash chains : list (list nat)) :
    option (list (list nat)) :=
  match chains with
  | [] => Some newhash
  | c :: chains' => nh ← push_all hp newmask newhash c; rehash hp newmask nh chains'
  end.

Definition lj_str_resize (g : global) (newmask : Z) : option global :=
  if sweeping (state g) || (LJ_MAX_STRTAB - 1 <=? newmask) then Some g
  else
    nh ← rehash (heap g) newmask (replicate (Z.to_nat (newmask + 1)) []) (reverse (strhash g));
    Some (set_table g nh newmask).

(** ** Interning *)

Inductive strref := Strempty | Strobject (id : nat).

(** A reference, or the error for strings that are too long. *)
Inductive newres := NewStr (r : strref) | STROV.

(** [memcmp] of [len] bytes. *)
Definition memeq (len : Z) (a b : list Z) : bool :=
  bool_decide (take (Z.to_nat len) a = take (Z.to_nat len) b).

(** The walk along a hash chain. *)
Fixpoint chain_find (hp : list (option strobj)) (chain : list nat) (str : list Z) (len h : Z) :
    option (option nat) :=
  match chain with
  | [] => Some None
  | id :: chain' =>
      o ← obj hp id;
      if (s_hash o =? h) && (s_len o =? len) && memeq len str (s_data o)
      then Some (Some id) else chain_find hp chain' str len h
  end.

(** [str] is all of the caller's bytes, [zlen str] is [lenx]. *)
Definition lj_str_new (g : global) (str : list Z) : option (global * newres) :=
  let lenx := zlen str in
  let len := u32 lenx in
  if LJ_MAX_STR <=? lenx then Some (g, STROV)
  else if len =? 0 then Some (g, NewStr Strempty)
  else
    h ← str_hash str len;
    chain ← zget (strhash g) (Z.land h (strmask g));
    found ← chain_find (heap g) chain str len h;
    match found with
    | Some id =>
        o ← obj (heap g) id;
        let hp := if isdead g o then <[id := Some (flipwhite o)]> (heap g) else heap g in
        Some (set_heap g hp, NewStr (Strobject id))
    | None =>
        let id := length (heap g) in
        let o := Strobj h len (take (Z.to_nat len) str) (curwhite g) in
        sh ← zset (strhash g) (Z.land h (strmask g)) (id :: chain);
        let g' := Global sh (strmask g) (u32 (strnum g + 1)) (heap g ++ [Some o])
                    (state g) (sweepstr g) (currentwhite g) in
        g'' ← (if strmask g <? strnum g
               then lj_str_resize g' (u32 (u32 (Z.shiftl (strmask g) 1) + 1))
               else Some g');
        Some (g'', NewStr (Strobject id))
    end.

(** ** The collector *)

(** [gc_fullsweep] of a chain with [gc_sweep] and [lj_str_free]: the heap, the
    number of strings and the chain that is left; the assertions fault. *)
Fixpoint gc_sweep (g : global) (hp : list (option strobj)) (num : Z) (chain : list nat) :
    option (list (option strobj) * Z * list nat) :=
  match chain with
  | [] => Some (hp, num, [])
  | id :: chain' =>
      o ← obj hp id;
      if negb (Z.land (Z.lxor (s_marked o) LJ_GC_WHITES) (otherwhite g) =? 0) then
        if negb (isdead g o) || negb (Z.land (s_marked o) LJ_GC_FIXED =? 0) then
          r ← gc_sweep g (<[id := Some (makewhite g o)]> hp) num chain';
          Some (r.1.1, r.1.2, id :: r.2)
        else None
      else if isdead g o then gc_sweep g (<[id := None]> hp) (u32 (num - 1)) chain'
      else None
  end.

(** The strings behind references are marked. *)
Fixpoint mark_refs (hp : list (option strobj)) (rs : list (list Z * strref)) : option (list (option strobj)) :=
  match rs with
  | [] => Some hp
  | (_, Strempty) :: rs' => mark_refs hp rs'
  | (_, Strobject id) :: rs' => o ← obj hp id; mark_refs (<[id := Some (gc_mark_str o)]> hp) rs'
  end.

(** A step of the cycle, as far as strings are concerned: the start and the
    end of marking, the atomic phase with the references the program holds,
    the sweep of one chain, the end of the sweep. *)
Definition gc_onestep (g : global) (held : list (list Z * strref)) : option global :=
  match state g with
  | GCSpause => Some (set_state g GCSpropagate)
  | GCSpropagate => Some (set_state g GCSatomic)
  | GCSatomic =>
      hp ← mark_refs (heap g) held;
      Some (Global (strhash g) (strmask g) (strnum g) hp GCSsweepstring 0 (u8 (otherwhite g)))
  | GCSsweepstring =>
      c ← zget (strhash g) (sweepstr g);
      r ← gc_sweep g (heap g) (strnum g) c;
      sh ← zset (strhash g) (sweepstr g) r.2;
      let i := u32 (sweepstr g + 1) in
      Some (Global sh (strmask g) r.1.2 r.1.1
              (if strmask g <? i then GCSsweep else GCSsweepstring) i (currentwhite g))
  | GCSsweep =>
      g' ← (if (strnum g <=? Z.shiftr (strmask g) 2) && (LJ_MIN_STRTAB * 2 - 1 <? strmask g)
            then lj_str_resize g (Z.shiftr (strmask g) 1) else Some g);
      Some (set_state g' GCSpause)
  end.

(** The table after the first [lj_str_resize] of a new state. *)
Definition initial : global :=
  Global (replicate (Z.to_nat LJ_MIN_STRTAB) []) (LJ_MIN_STRTAB - 1) 0 [] GCSpause 0 (Z.lor LJ_GC_WHITE0 LJ_GC_FIXED).

(** ** Programs *)

(** The program interns a string and holds the reference, forgets the [k]-th
    reference it holds or fixes its string; the marker marks a string, be it
    still held or not; the collector makes a step; the table is resized. *)
Inductive op := New (str : list Z) | Forget (k : nat) | Fix (k : nat) | Mark (id : nat) | Gc | Resize (bits : Z).

Definition update_obj (g : global) (id : nat) (f : strobj -> strobj) : global :=
  match obj (heap g) id with Some o => set_heap g (<[id := Some (f o)]> (heap g)) | None => g end.

Definition step (g : global) (held : list (list Z * strref)) (o : op) : option (global * list (list Z * strref)) :=
  match o with
  | New str => '(g', r) ← lj_str_new g str; Some (g', match r with NewStr r => (str, r) :: held | STROV => held end)
  | Forget k => Some (g, base.delete k held)
  | Fix k => Some (match held !! k with Some (_, Strobject id) => update_obj g id fixstring | _ => g end, held)
  | Mark id => Some (update_obj g id gc_mark_str, held)
  | Gc => g' ← gc_onestep g held; Some (g', held)
  | Resize k => g' ← lj_str_resize g (2 ^ k - 1); Some (g', held)
  end.

Fixpoint run (g : global) (held : list (list Z * strref)) (ops : list op) : option (global * list (list Z * strref)) :=
  match ops with
  | [] => Some (g, held)
  | o :: ops' => '(g', held') ← step g held o; run g' held' ops'
  end.

(** ** The hash stays inside the string *)

Lemma lj_getu32_is_Some str i : 0 <= i -> i + 4 <= zlen str -> is_Some (lj_getu32 str i).
Proof.
  intros H0 H4. unfold lj_getu32.
  destruct (zget_is_Some str i) as [a ->]; [lia|]. cbn [mbind option_bind].
  destruct (zget_is_Some str (i + 1)) as [b ->]; [lia|]. cbn [mbind option_bind].
  destruct (zget_is_Some str (i + 2)) as [c ->]; [lia|]. cbn [mbind option_bind].
  destruct (zget_is_Some str (i + 3)) as [d ->]; [lia|]. eauto.
Qed.

Lemma str_hash_is_Some str : 0 < zlen str -> is_Some (str_hash str (zlen str)).
Proof.
  intros Hl. unfold str_hash. cbv zeta.
  rewrite !Z.shiftr_div_pow2 by lia. change (2 ^ 1) with 2. change (2 ^ 2) with 4.
  destruct (Z.leb_spec 4 (zlen str)).
  - destruct (lj_getu32_is_Some str 0) as [a ->]; [lia..|]. cbn [mbind option_bind].
    destruct (lj_getu32_is_Some str (zlen str - 4)) as [x ->]; [lia..|]. cbn [mbind option_bind].
    destruct (lj_getu32_is_Some str (zlen str / 2 - 2)) as [b ->]; [zlia..|].
    cbn [mbind option_bind].
    destruct (lj_getu32_is_Some str (zlen str / 4 - 1)) as [y ->]; [zlia..|]. eauto.
  - destruct (zget_is_Some str 0) as [a ->]; [lia|]. cbn [mbind option_bind].
    destruct (zget_is_Some str (zlen str - 1)) as [x ->]; [lia|]. cbn [mbind option_bind].
    destruct (zget_is_Some str (zlen str / 2)) as [b ->]; [zlia|]. eauto.
Qed.

(** ** Marks *)

(** The current white of a running state: one of the two and the flag that
    makes fixed objects survive. *)
Definition white (cw : Z) : Prop := cw = 33 \/ cw = 34.

Definition dead (cw m : Z) : bool :=
  negb (Z.land (Z.land m (Z.lxor cw LJ_GC_WHITES)) LJ_GC_WHITES =? 0).

(** The object is dead and not fixed. *)
Definition freed (cw m : Z) : bool := dead cw m && (Z.land m LJ_GC_FIXED =? 0).

(** What the operations on marks do to all values of a byte. *)
Definition marks_ok (cw m : Z) : bool :=
  implb (dead cw m) (negb (dead cw (Z.lxor m 3))) &&
  Bool.eqb (dead cw (Z.lor m 32)) (dead cw m) &&
  negb (dead cw (Z.land m 252)) && (Z.land (Z.land m 252) 3 =? 0) &&
  negb (dead cw (Z.lor (Z.land m 248) (Z.land cw 3))) &&
  Bool.eqb (Z.land (Z.lxor m 3) (Z.lxor cw 3) =? 0) (freed cw m) &&
  implb (Z.land m 3 =? 0) (negb (dead cw m)) &&
  forallb (fun x => (0 <=? x) && (x <=? 255))
    [Z.lxor m 3; Z.lor m 32; Z.land m 252; Z.lor (Z.land m 248) (Z.land cw 3)].

Lemma marks cw m : white cw -> in_u8 m ->
  (dead cw m = true -> dead cw (Z.lxor m 3) = false) /\
  dead cw (Z.lor m 32) = dead cw m /\
  dead cw (Z.land m 252) = false /\ Z.land (Z.land m 252) 3 = 0 /\
  dead cw (Z.lor (Z.land m 248) (Z.land cw 3)) = false /\
  (Z.land (Z.lxor m 3) (Z.lxor cw 3) =? 0) = freed cw m /\
  (Z.land m 3 = 0 -> dead cw m = false) /\
  in_u8 (Z.lxor m 3) /\ in_u8 (Z.lor m 32) /\ in_u8 (Z.land m 252) /\ in_u8 (Z.lor (Z.land m 248) (Z.land cw 3)).
Proof.
  intros Hw Hm. assert (E : marks_ok cw m = true).
  { destruct Hw as [-> | ->]; revert m Hm; apply u8_exhaustive; by vm_compute. }
  unfold marks_ok in E. cbn [forallb] in E. unfold in_u8.
  repeat match goal with
  | H : (_ && _) = true |- _ => apply andb_prop in H as [? ?]
  | H : Bool.eqb _ _ = true |- _ => apply eqb_prop in H
  | H : negb _ = true |- _ => apply negb_true_iff in H
  end.
  split_and!; try done; try lia.
  - intros E. match goal with H : implb (dead cw m) _ = true |- _ => rewrite E in H end. by apply negb_true_iff.
  - intros E. match goal with H : implb (_ =? 0) _ = true |- _ => rewrite E in H end. by apply negb_true_iff.
Qed.

Lemma white_flip cw : white cw -> white (u8 (Z.lxor cw LJ_GC_WHITES)).
Proof. intros [-> | ->]; [right|left]; done. Qed.

Lemma white_new cw : white cw -> in_u8 (Z.land cw 3) /\ dead cw (Z.land cw 3) = false.
Proof. intros [-> | ->]; done. Qed.

(** ** The heap *)

Lemma obj_lt hp id o : obj hp id = Some o -> (id < length hp)%nat.
Proof. unfold obj. intros H. apply bind_Some in H as (x & Hx & _). by eapply lookup_lt_Some. Qed.

Lemma obj_insert_eq hp id x : (id < length hp)%nat -> obj (<[id := x]> hp) id = x.
Proof. intros H. unfold obj. by rewrite list_lookup_insert_eq. Qed.

Lemma obj_insert_ne hp id id' x : id' <> id -> obj (<[id := x]> hp) id' = obj hp id'.
Proof. intros H. unfold obj. by rewrite list_lookup_insert_ne. Qed.

Lemma obj_app hp id o : obj hp id = Some o -> forall x, obj (hp ++ [x]) id = Some o.
Proof. intros H x. pose proof (obj_lt _ _ _ H). unfold obj in *. by rewrite lookup_app_l. Qed.

Lemma obj_new hp x : obj (hp ++ [x]) (length hp) = x.
Proof. unfold obj. by rewrite list_lookup_middle. Qed.

Lemma obj_app_inv hp x id o : obj (hp ++ [x]) id = Some o -> obj hp id = Some o \/ (id = length hp /\ x = Some o).
Proof.
  unfold obj. intros H. apply bind_Some in H as (y & Hy & ->).
  apply lookup_snoc_Some in Hy as [[_ Hy]|[-> <-]]; [left|by right]. by rewrite Hy.
Qed.

(** ** The invariant of the table *)

Record wf (g : global) : Prop := {
  wf_mask : exists k, 0 <= k <= 26 /\ strmask g = 2 ^ k - 1;
  wf_len : zlen (strhash g) = strmask g + 1;
  wf_chain : forall i c id, zget (strhash g) i = Some c -> id ∈ c ->
    exists o, obj (heap g) id = Some o /\ Z.land (s_hash o) (strmask g) = i;
  wf_nodup : forall i c, zget (strhash g) i = Some c -> NoDup c;
  wf_obj : forall id o, obj (heap g) id = Some o ->
    s_len o = zlen (s_data o) /\ str_hash (s_data o) (s_len o) = Some (s_hash o) /\ in_u8 (s_marked o) /\
    exists c, zget (strhash g) (Z.land (s_hash o) (strmask g)) = Some c /\ id ∈ c;
  wf_inj : forall id id' o o', obj (heap g) id = Some o -> obj (heap g) id' = Some o' ->
    s_data o = s_data o' -> id = id';
  wf_white : white (currentwhite g);
  wf_sweep : state g = GCSsweepstring -> 0 <= sweepstr g <= strmask g;
  (* dead strings are only in chains that are still to be swept *)
  wf_dead : forall id o, obj (heap g) id = Some o -> isdead g o = true ->
    state g = GCSsweepstring /\ sweepstr g <= Z.land (s_hash o) (strmask g) }.

Lemma land_mask_range h k : 0 <= k -> 0 <= Z.land h (2 ^ k - 1) < 2 ^ k.
Proof.
  intros Hk. rewrite land_pow2_mask by done. apply Z.mod_pos_bound.
  apply Z.pow_pos_nonneg; lia.
Qed.

Lemma wf_index g h : wf g -> 0 <= Z.land h (strmask g) < zlen (strhash g).
Proof.
  intros W. destruct (wf_mask _ W) as (k & Hk & Hm). rewrite (wf_len _ W), Hm.
  pose proof (land_mask_range h k ltac:(lia)). lia.
Qed.

Lemma initial_wf : wf initial.
Proof.
  assert (Hi : forall i c, zget (strhash initial) i = Some c -> c = []).
  { intros i c Hi. unfold zget in Hi. case_match; [done|]. cbn [strhash initial] in Hi.
    by apply lookup_replicate in Hi as [-> _]. }
  split; try done.
  - exists 8. split; [lia|done].
  - intros i c id ->%Hi ?%elem_of_nil. done.
  - intros i c ->%Hi. apply NoDup_nil_2.
  - by left.
Qed.

(** [g'] has all strings of [g], with the same contents, and none of them has
    died. *)
Definition keeps (g g' : global) : Prop :=
  forall id o, obj (heap g) id = Some o ->
    exists o', obj (heap g') id = Some o' /\ s_data o' = s_data o /\
      (isdead g o = false -> isdead g' o' = false).

(** The reference [r] stands for the string [str], which is not dead. *)
Definition refers (g : global) (r : strref) (str : list Z) : Prop :=
  match r with
  | Strempty => str = []
  | Strobject id => str <> [] /\ exists o, obj (heap g) id = Some o /\ s_data o = str /\ isdead g o = false
  end.

Lemma refers_keeps g g' r str : keeps g g' -> refers g r str -> refers g' r str.
Proof.
  intros K. destruct r as [|id]; [done|]. intros (Hne & o & Ho & Hd & Hl). split; [done|].
  destruct (K id o Ho) as (o' & Ho' & Hd' & Hl'). exists o'. split_and!; [done|congruence|auto].
Qed.

Lemma keeps_same g g' : heap g' = heap g -> currentwhite g' = currentwhite g -> keeps g g'.
Proof. intros E Ew id o Ho. rewrite E. exists o. unfold isdead, otherwhite. rewrite Ew. eauto. Qed.

Lemma keeps_trans g1 g2 g3 : keeps g1 g2 -> keeps g2 g3 -> keeps g1 g3.
Proof.
  intros K1 K2 id o Ho. destruct (K1 id o Ho) as (o1 & Ho1 & Hd1 & L1).
  destruct (K2 id o1 Ho1) as (o2 & Ho2 & Hd2 & L2). exists o2. split_and!; [done|congruence|auto].
Qed.

(** A new mark for a string, which does not make it dead. *)
Lemma remark_wf g id o m :
  wf g -> obj (heap g) id = Some o -> in_u8 m -> (isdead g (set_marked o m) = true -> isdead g o = true) ->
  let g' := set_heap g (<[id := Some (set_marked o m)]> (heap g)) in
  wf g' /\ keeps g g'.
Proof.
  intros W Ho Hm Hdead g'. pose proof (obj_lt _ _ _ Ho) as Hlt.
  assert (Hsame : forall id' o', obj (heap g') id' = Some o' ->
    exists o0, obj (heap g) id' = Some o0 /\ s_hash o0 = s_hash o' /\ s_len o0 = s_len o' /\
      s_data o0 = s_data o' /\ in_u8 (s_marked o') /\ (isdead g o' = true -> isdead g o0 = true)).
  { intros id' o' H. cbn [g' set_heap heap] in H. destruct (decide (id' = id)) as [->|Hne].
    - rewrite obj_insert_eq in H by done. injection H as <-. exists o. by split_and!.
    - rewrite obj_insert_ne in H by done. exists o'. split_and!; try done.
      by destruct (wf_obj _ W _ _ H) as (_ & _ & ? & _). }
  assert (Hback : forall id' o0, obj (heap g) id' = Some o0 -> exists o', obj (heap g') id' = Some o' /\
      s_hash o' = s_hash o0 /\ s_data o' = s_data o0 /\ (isdead g o0 = false -> isdead g o' = false)).
  { intros id' o0 H. cbn [g' set_heap heap]. destruct (decide (id' = id)) as [->|Hne].
    - rewrite obj_insert_eq by done. assert (o0 = o) as -> by congruence. eexists. split_and!; [done|done|done|].
      intros H0. destruct (isdead g (set_marked o m)); [|done]. by rewrite Hdead in H0.
    - rewrite obj_insert_ne by done. eauto. }
  split; [split; cbn [strhash strmask g' set_heap state sweepstr currentwhite]|].
  - exact (wf_mask _ W).
  - exact (wf_len _ W).
  - intros i c id' Hi Hin. destruct (wf_chain _ W i c id' Hi Hin) as (o0 & H0 & Hl).
    destruct (Hback _ _ H0) as (o' & H' & Hh & _). exists o'. split; [done|congruence].
  - exact (wf_nodup _ W).
  - intros id' o' H'. destruct (Hsame _ _ H') as (o0 & H0 & Hh & Hl & Hd & Hu & _).
    rewrite <- Hh, <- Hl, <- Hd. destruct (wf_obj _ W id' o0 H0) as (? & ? & _ & ?). done.
  - intros i1 i2 o1 o2 H1 H2 Hd. destruct (Hsame _ _ H1) as (a & Ha & _ & _ & Da & _).
    destruct (Hsame _ _ H2) as (b & Hb & _ & _ & Db & _).
    apply (wf_inj _ W _ _ a b Ha Hb). congruence.
  - exact (wf_white _ W).
  - exact (wf_sweep _ W).
  - intros id' o' H' Hd'. destruct (Hsame _ _ H') as (o0 & H0 & Hh & _ & _ & _ & Hdd).
    rewrite <- Hh. apply (wf_dead _ W id' o0 H0). by apply Hdd.
  - intros id' o0 H0. destruct (Hback _ _ H0) as (o' & H' & _ & Hd & Hdd). exists o'. by split_and!.
Qed.

(** ** Resizing keeps every string reachable from its anchor *)

Lemma push_all_app hp m nh a b :
  push_all hp m nh (a ++ b) = nh' ← push_all hp m nh a; push_all hp m nh' b.
Proof.
  revert nh. induction a as [|x a IH]; intros nh; [done|]. cbn [app push_all].
  destruct (push_chain hp m nh x); cbn [mbind option_bind]; [apply IH|done].
Qed.

Lemma rehash_concat hp m nh chains :
  rehash hp m nh chains = push_all hp m nh (concat chains).
Proof.
  revert nh. induction chains as [|c chains IH]; intros nh; [done|].
  cbn [rehash concat]. rewrite push_all_app. by destruct (push_all hp m nh c); cbn.
Qed.

Definition goes_to (hp : list (option strobj)) (m j : Z) (id : nat) : Prop :=
  exists o, obj hp id = Some o /\ Z.land (s_hash o) m = j.

Lemma push_all_spec hp k ids : forall nh,
  0 <= k -> zlen nh = 2 ^ k -> (forall id, id ∈ ids -> is_Some (obj hp id)) -> NoDup ids ->
  (forall j c, zget nh j = Some c -> NoDup c /\ forall id, id ∈ c -> id ∉ ids) ->
  exists nh', push_all hp (2 ^ k - 1) nh ids = Some nh' /\ zlen nh' = 2 ^ k /\
    forall j c', zget nh' j = Some c' -> NoDup c' /\ exists c, zget nh j = Some c /\
      forall id, id ∈ c' <-> id ∈ c \/ (id ∈ ids /\ goes_to hp (2 ^ k - 1) j id).
Proof.
  induction ids as [|x ids IH]; intros nh Hk Hl Hin Hnd Hc.
  { exists nh. split; [done|]. split; [done|]. intros j c' Hj. split; [by apply (Hc j)|]. exists c'. set_solver. }
  destruct (Hin x ltac:(left)) as [o Ho]. cbn [push_all]. unfold push_chain.
  rewrite Ho. cbn [mbind option_bind]. apply NoDup_cons in Hnd as [Hx Hnd].
  assert (Hr : 0 <= Z.land (s_hash o) (2 ^ k - 1) < zlen nh)
    by (rewrite Hl; by apply land_mask_range).
  destruct (zget_is_Some nh _ Hr) as [c Ec]. rewrite Ec. cbn [mbind option_bind].
  destruct (zset_is_Some nh _ (x :: c) Hr) as [nh1 Hset]. rewrite Hset. cbn [mbind option_bind].
  pose proof (zset_length _ _ _ _ Hset) as Hl1.
  destruct (IH nh1 Hk ltac:(lia)) as (nh' & E & Hl' & Hmem).
  { intros id Hid. apply Hin. by right. }
  { done. }
  { intros j c1 Hj. destruct (Z.eq_dec j (Z.land (s_hash o) (2 ^ k - 1))) as [->|Hne].
    - rewrite (zget_zset_eq _ _ _ _ Hset) in Hj. injection Hj as <-. destruct (Hc _ _ Ec) as [Hcn Hci].
      split; [apply NoDup_cons; split; [|done]; intros Hxc; apply (Hci x Hxc); left|].
      intros id [->|Hid]%elem_of_cons; [done|]. specialize (Hci id Hid). set_solver.
    - rewrite (zget_zset_ne _ _ _ _ _ Hset) in Hj by congruence. destruct (Hc _ _ Hj) as [Hcn Hci].
      split; [done|]. intros id Hid. specialize (Hci id Hid). set_solver. }
  exists nh'. split; [done|]. split; [done|]. intros j c' Hj.
  destruct (Hmem j c' Hj) as (Hn' & c1 & Hc1 & Hiff). split; [done|].
  assert (Hgx : forall j, goes_to hp (2 ^ k - 1) j x <-> Z.land (s_hash o) (2 ^ k - 1) = j).
  { intros j'. unfold goes_to. split; [|eauto]. intros (o' & Ho' & ?). by simplify_eq. }
  destruct (Z.eq_dec j (Z.land (s_hash o) (2 ^ k - 1))) as [->|Hne].
  - rewrite (zget_zset_eq _ _ _ _ Hset) in Hc1. simplify_eq. exists c. split; [done|].
    intros id. rewrite Hiff, !elem_of_cons. split; [|set_solver].
    intros [[->|]|]; [|by left|set_solver]. right. split; [by left|by apply Hgx].
  - rewrite (zget_zset_ne _ _ _ _ _ Hset) in Hc1 by congruence. exists c1. split; [done|].
    intros id. rewrite Hiff, elem_of_cons. split; [set_solver|].
    intros [|[[->|] Hg]]; [by left| |by right]. apply Hgx in Hg. congruence.
Qed.

Lemma nodup_concat (l : list (list nat)) :
  Forall NoDup l ->
  (forall i j c d x, l !! i = Some c -> l !! j = Some d -> x ∈ c -> x ∈ d -> i = j) -> NoDup (concat l).
Proof.
  induction 1 as [|c l Hc _ IH]; intros Hd; cbn; [apply NoDup_nil_2|]. apply NoDup_app. split_and!.
  - done.
  - intros x Hx Hin. apply list_elem_of_In, in_concat in Hin as (d & Hdl & Hxd).
    apply list_elem_of_In, list_elem_of_lookup in Hdl as [j Hj]. apply list_elem_of_In in Hxd.
    by specialize (Hd 0%nat (S j) c d x eq_refl Hj Hx Hxd).
  - apply IH. intros i j c' d x Hi Hj Hxc Hxd. by specialize (Hd (S i) (S j) c' d x Hi Hj Hxc Hxd) as [= ->].
Qed.

Lemma zget_of_nat {A} (l : list A) i x : l !! i = Some x -> zget l (Z.of_nat i) = Some x.
Proof. intros H. unfold zget. destruct (Z.ltb_spec (Z.of_nat i) 0); [lia|]. by rewrite Nat2Z.id. Qed.

(** The chains of a table have no string in common. *)
Lemma chains_nodup g : wf g -> NoDup (concat (reverse (strhash g))).
Proof.
  intros W. apply nodup_concat.
  - apply Forall_reverse, Forall_forall. intros c [i Hi]%list_elem_of_lookup.
    by eapply (wf_nodup _ W), zget_of_nat.
  - intros i j c d x [Hi Hil]%reverse_lookup_Some [Hj Hjl]%reverse_lookup_Some Hc Hd.
    destruct (wf_chain _ W _ _ x (zget_of_nat _ _ _ Hi) Hc) as (o & Ho & E).
    destruct (wf_chain _ W _ _ x (zget_of_nat _ _ _ Hj) Hd) as (o' & Ho' & E'). simplify_eq. lia.
Qed.

Lemma chains_objs g id : wf g -> id ∈ concat (reverse (strhash g)) <-> is_Some (obj (heap g) id).
Proof.
  intros W. rewrite list_elem_of_In, in_concat. split.
  - intros (c & Hc & Hid). rewrite <- list_elem_of_In, elem_of_reverse in Hc.
    apply list_elem_of_lookup in Hc as [i Hi]. apply list_elem_of_In in Hid.
    destruct (wf_chain _ W _ _ id (zget_of_nat _ _ _ Hi) Hid) as (o & Ho & _). eauto.
  - intros [o Ho]. destruct (wf_obj _ W id o Ho) as (_ & _ & _ & c & Hc & Hin).
    exists c. split; [|by apply list_elem_of_In]. apply list_elem_of_In. rewrite elem_of_reverse.
    unfold zget in Hc. case_match; [done|]. by eapply list_elem_of_lookup_2.
Qed.

Lemma lj_str_resize_wf g k :
  wf g -> 0 <= k ->
  exists g', lj_str_resize g (2 ^ k - 1) = Some g' /\ wf g' /\ keeps g g' /\ state g' = state g.
Proof.
  intros W Hk. unfold lj_str_resize.
  destruct (sweeping (state g) || (LJ_MAX_STRTAB - 1 <=? 2 ^ k - 1)) eqn:Eg.
  { exists g. split_and!; [done|done|by apply keeps_same|done]. }
  apply orb_false_iff in Eg as [Esw Eg].
  assert (Hk26 : k < 26).
  { apply (Z.pow_lt_mono_r_iff 2); [lia..|]. change LJ_MAX_STRTAB with (2 ^ 26) in Eg. lia. }
  rewrite rehash_concat. replace (2 ^ k - 1 + 1) with (2 ^ k) by lia.
  assert (Hp : 0 < 2 ^ k) by (apply Z.pow_pos_nonneg; lia).
  assert (Hnil : forall j c, zget (replicate (Z.to_nat (2 ^ k)) ([] : list nat)) j = Some c -> c = []).
  { intros j c. unfold zget. case_match; [done|]. by intros [-> _]%lookup_replicate. }
  destruct (push_all_spec (heap g) k (concat (reverse (strhash g)))
    (replicate (Z.to_nat (2 ^ k)) [])) as (nh & -> & Hl & Hmem);
    [lia|rewrite zlen_replicate; lia|intros id; by apply chains_objs|by apply chains_nodup| |].
  { intros j c ->%Hnil. split; [apply NoDup_nil_2|]. by intros id ?%elem_of_nil. }
  cbn [mbind option_bind]. eexists. split; [done|]. split; [|split; [by apply keeps_same|done]].
  assert (Hmem' : forall j c, zget nh j = Some c -> forall id,
    id ∈ c <-> is_Some (obj (heap g) id) /\ goes_to (heap g) (2 ^ k - 1) j id).
  { intros j c Hj. destruct (Hmem j c Hj) as (_ & c0 & ->%Hnil & Hiff). intros id.
    rewrite Hiff, chains_objs by done. set_solver. }
  split; cbn [strhash strmask heap set_table state sweepstr currentwhite].
  - exists k. split; [lia|done].
  - lia.
  - intros i c id Hi Hin. by apply (Hmem' i c Hi) in Hin as [_ ?].
  - intros i c Hi. by destruct (Hmem i c Hi).
  - intros id o Ho. destruct (wf_obj _ W id o Ho) as (H1 & H2 & H3 & _). split_and!; [done|done|apply H3..|].
    destruct (zget_is_Some nh (Z.land (s_hash o) (2 ^ k - 1))) as [c Hc].
    { rewrite Hl. apply land_mask_range. lia. }
    exists c. split; [done|]. apply (Hmem' _ c Hc). split; [eauto|]. exists o. done.
  - exact (wf_inj _ W).
  - exact (wf_white _ W).
  - intros E. by rewrite E in Esw.
  - intros id o Ho Hd. destruct (wf_dead _ W id o Ho Hd) as [E _]. by rewrite E in Esw.
Qed.

(** ** Interning *)

Lemma memeq_all s d : memeq (zlen s) s d = true -> zlen d = zlen s -> s = d.
Proof.
  unfold memeq, zlen. rewrite Nat2Z.id. intros E%bool_decide_eq_true Hl. rewrite !take_ge in E by lia. done.
Qed.

Lemma memeq_refl n s : memeq n s s = true.
Proof. by apply bool_decide_eq_true. Qed.

Lemma chain_find_spec hp chain str h :
  (forall id, id ∈ chain -> exists o, obj hp id = Some o /\ s_len o = zlen (s_data o)) ->
  exists r, chain_find hp chain str (zlen str) h = Some r /\
    match r with
    | Some id => id ∈ chain /\ exists o, obj hp id = Some o /\ s_data o = str
    | None => forall id o, id ∈ chain -> obj hp id = Some o -> s_hash o = h -> s_data o <> str
    end.
Proof.
  induction chain as [|x chain IH]; intros Hin; cbn [chain_find].
  { exists None. split; [done|]. intros id o H. by apply elem_of_nil in H. }
  destruct (Hin x ltac:(left)) as (o & Ho & Hlen). rewrite Ho. cbn [mbind option_bind].
  destruct (_ && _ && _) eqn:E.
  - apply andb_prop in E as [[_ E1]%andb_prop E2].
    exists (Some x). split; [done|]. split; [left|]. exists o. split; [done|]. symmetry. apply memeq_all; [done|lia].
  - destruct IH as (r & -> & Hr); [intros id Hid; apply Hin; by right|].
    exists r. split; [done|]. destruct r as [id|].
    + destruct Hr as [Hid Ho']. split; [by right|done].
    + intros id o' Hid Ho' Hh Hd. apply elem_of_cons in Hid as [->|Hid]; [|by eapply Hr].
      simplify_eq. rewrite Hlen, !Z.eqb_refl, memeq_refl in E. done.
Qed.

(** Linking in a string that is not in the table. *)
Lemma add_wf g str h chain sh n :
  wf g -> str_hash str (zlen str) = Some h ->
  zget (strhash g) (Z.land h (strmask g)) = Some chain ->
  zset (strhash g) (Z.land h (strmask g)) (length (heap g) :: chain) = Some sh ->
  (forall id o, obj (heap g) id = Some o -> s_data o <> str) ->
  let g' := Global sh (strmask g) n (heap g ++ [Some (Strobj h (zlen str) str (curwhite g))])
              (state g) (sweepstr g) (currentwhite g) in
  wf g' /\ keeps g g'.
Proof.
  intros W Hh Hc Hset Hfresh g'. set (new := Strobj h (zlen str) str (curwhite g)).
  assert (Hnew : forall id o, obj (heap g') id = Some o ->
    obj (heap g) id = Some o \/ (id = length (heap g) /\ o = new)).
  { intros id o [H|[-> [= <-]]]%obj_app_inv; auto. }
  assert (Hold : forall id o, obj (heap g) id = Some o -> obj (heap g') id = Some o).
  { intros id o H. by apply obj_app. }
  assert (Hlast : obj (heap g') (length (heap g)) = Some new) by apply obj_new.
  assert (Hni : forall i c, zget (strhash g) i = Some c -> length (heap g) ∉ c).
  { intros i c Hi Hin. destruct (wf_chain _ W _ _ _ Hi Hin) as (o & Ho & _). apply obj_lt in Ho. lia. }
  split; [|intros id o H; exists o; split_and!; [by apply Hold|done|done]].
  destruct (white_new _ (wf_white _ W)) as [Hu Hnd].
  split; cbn [strhash strmask g' state sweepstr currentwhite].
  - exact (wf_mask _ W).
  - rewrite (zset_length _ _ _ _ Hset). exact (wf_len _ W).
  - intros i c id Hi Hin. destruct (Z.eq_dec (Z.land h (strmask g)) i) as [<-|Hne].
    + rewrite (zget_zset_eq _ _ _ _ Hset) in Hi. simplify_eq.
      apply elem_of_cons in Hin as [->|Hin]; [by exists new|].
      destruct (wf_chain _ W _ _ id Hc Hin) as (o & Ho & Hl). eauto.
    + rewrite (zget_zset_ne _ _ _ _ _ Hset Hne) in Hi.
      destruct (wf_chain _ W _ _ id Hi Hin) as (o & Ho & Hl). eauto.
  - intros i c Hi. destruct (Z.eq_dec (Z.land h (strmask g)) i) as [<-|Hne].
    + rewrite (zget_zset_eq _ _ _ _ Hset) in Hi. injection Hi as <-. apply NoDup_cons.
      split; [by eapply Hni|by eapply (wf_nodup _ W)].
    + rewrite (zget_zset_ne _ _ _ _ _ Hset Hne) in Hi. by eapply (wf_nodup _ W).
  - intros id o [Ho|[-> ->]]%Hnew.
    + destruct (wf_obj _ W id o Ho) as (H1 & H2 & H0 & c & H3 & H4). split_and!; [done|done|apply H0..|].
      destruct (Z.eq_dec (Z.land h (strmask g)) (Z.land (s_hash o) (strmask g))) as [E|Hne].
      * exists (length (heap g) :: chain). rewrite <- E in *. simplify_eq.
        split; [by eapply zget_zset_eq|by right].
      * exists c. by rewrite (zget_zset_ne _ _ _ _ _ Hset Hne).
    + split_and!; [done|done|apply Hu..|]. exists (length (heap g) :: chain).
      split; [by eapply zget_zset_eq|left].
  - intros id id' o o' [H|[-> ->]]%Hnew [H'|[-> ->]]%Hnew Hd; try done.
    + by apply (wf_inj _ W id id' o o').
    + by destruct (Hfresh id o H).
    + by destruct (Hfresh id' o' H').
  - exact (wf_white _ W).
  - exact (wf_sweep _ W).
  - intros id o [Ho|[-> ->]]%Hnew Hd; [by apply (wf_dead _ W id)|].
    change (dead (currentwhite g) (Z.land (currentwhite g) 3) = true) in Hd. congruence.
Qed.

Lemma lj_str_new_spec g str :
  wf g -> exists g' r, lj_str_new g str = Some (g', r) /\ wf g' /\ keeps g g' /\
    match r with NewStr r => refers g' r str | STROV => LJ_MAX_STR <= zlen str end.
Proof.
  intros W. unfold lj_str_new. cbv zeta. destruct (Z.leb_spec LJ_MAX_STR (zlen str)) as [Hbig|Hmax].
  { exists g, STROV. split_and!; [done|done|by apply keeps_same|done]. }
  pose proof (zlen_nonneg str) as Hpos. unfold LJ_MAX_STR in Hmax. rewrite u32_small by (unfold in_u32; lia).
  destruct (Z.eqb_spec (zlen str) 0) as [E0|E0].
  { exists g, (NewStr Strempty). split_and!; [done|done|by apply keeps_same|].
    destruct str; [done|]. zlen_simpl. pose proof (zlen_nonneg str). lia. }
  assert (Hne : str <> []) by (by intros ->).
  destruct (str_hash_is_Some str) as [h Hh]; [lia|]. rewrite Hh. cbn [mbind option_bind].
  pose proof (wf_index g h W) as Hr.
  destruct (zget_is_Some _ _ Hr) as [chain Hc]. rewrite Hc. cbn [mbind option_bind].
  destruct (chain_find_spec (heap g) chain str h) as (r & -> & Hfind).
  { intros id Hid. destruct (wf_chain _ W _ _ id Hc Hid) as (o & Ho & _). exists o. split; [done|].
    by destruct (wf_obj _ W id o Ho). }
  cbn [mbind option_bind]. destruct r as [id|].
  - destruct Hfind as (Hid & o & Ho & Hd). rewrite Ho. cbn [mbind option_bind].
    destruct (wf_obj _ W id o Ho) as (_ & _ & Hu & _).
    destruct (marks _ _ (wf_white _ W) Hu) as (M1 & _ & _ & _ & _ & _ & _ & Mu & _).
    eexists _, _. split; [done|]. destruct (isdead g o) eqn:Ed.
    + specialize (M1 Ed). destruct (remark_wf g id o (Z.lxor (s_marked o) 3) W Ho Mu) as [W' K]; [done|].
      split; [done|]. split; [done|]. split; [done|]. exists (flipwhite o).
      split; [|by split]. apply obj_insert_eq. by eapply obj_lt.
    + split; [by destruct g|]. split; [by apply keeps_same|]. split; [done|]. eauto.
  - destruct (zset_is_Some (strhash g) _ (length (heap g) :: chain) Hr) as [sh Hset].
    rewrite Hset. cbn [mbind option_bind]. rewrite (take_ge str) by (unfold zlen; lia).
    assert (Hfresh : forall id o, obj (heap g) id = Some o -> s_data o <> str).
    { intros id o Ho Hd. destruct (wf_obj _ W id o Ho) as (Hlen & Hho & _ & c & Hc' & Hin).
      rewrite Hlen, Hd, Hh in Hho. injection Hho as Hho. rewrite <- Hho in Hc'. simplify_eq.
      by eapply (Hfind id o). }
    destruct (add_wf g str h chain sh (u32 (strnum g + 1)) W Hh Hc Hset Hfresh) as [W1 K1].
    match type of W1 with wf ?x => set (g1 := x) in * end.
    assert (Href : refers g1 (Strobject (length (heap g))) str).
    { split; [done|]. eexists. split; [apply obj_new|]. split; [done|].
      exact (proj2 (white_new _ (wf_white _ W))). }
    destruct (wf_mask _ W) as (k & Hk & Hm).
    destruct (strmask g <? strnum g).
    + replace (u32 (u32 (Z.shiftl (strmask g) 1) + 1)) with (2 ^ (k + 1) - 1).
      2:{ rewrite Hm, Z.shiftl_mul_pow2, Z.pow_add_r by lia. change (2 ^ 1) with 2.
          assert (2 ^ k <= 2 ^ 26) by (apply Z.pow_le_mono_r; lia).
          assert (0 < 2 ^ k) by (apply Z.pow_pos_nonneg; lia).
          change (2 ^ 26) with 67108864 in *. width_lia. }
      destruct (lj_str_resize_wf g1 (k + 1) W1 ltac:(lia)) as (g2 & -> & W2 & K2 & _).
      cbn [mbind option_bind]. eexists _, _. split; [done|]. split; [done|].
      split; [by eapply keeps_trans|by eapply refers_keeps].
    + eexists _, _. by split.
Qed.

(** ** Sweeping *)

(** A chain is swept without a fault: the dead strings in it that are not
    fixed are freed, the others become white. *)
Lemma gc_sweep_spec g chain : white (currentwhite g) -> forall hp num,
  NoDup chain -> (forall id, id ∈ chain -> exists o, obj hp id = Some o /\ in_u8 (s_marked o)) ->
  exists hp' num' c', gc_sweep g hp num chain = Some (hp', num', c') /\ NoDup c' /\
    (forall id, id ∉ chain -> obj hp' id = obj hp id) /\
    (forall id, id ∈ c' -> id ∈ chain) /\
    (forall id o, id ∈ chain -> obj hp id = Some o ->
      if freed (currentwhite g) (s_marked o) then obj hp' id = None /\ id ∉ c'
      else obj hp' id = Some (makewhite g o) /\ id ∈ c').
Proof.
  intros Hw. induction chain as [|x chain IH]; intros hp num Hnd Hin; cbn [gc_sweep].
  { eexists _, _, _. split; [done|]. split; [apply NoDup_nil_2|]. split; [done|]. split; [done|].
    by intros id o ?%elem_of_nil. }
  apply NoDup_cons in Hnd as [Hx Hnd]. destruct (Hin x ltac:(left)) as (o & Ho & Hu).
  pose proof (obj_lt _ _ _ Ho) as Hlt. rewrite Ho. cbn [mbind option_bind].
  assert (Htl : forall y id, id ∈ chain -> obj (<[x := y]> hp) id = obj hp id).
  { intros y id Hid. apply obj_insert_ne. by intros ->. }
  assert (Hin' : forall y id, id ∈ chain -> exists o, obj (<[x := y]> hp) id = Some o /\ in_u8 (s_marked o)).
  { intros y id Hid. rewrite Htl by done. apply Hin. by right. }
  destruct (marks _ _ Hw Hu) as (_ & _ & _ & _ & _ & Malive & _).
  unfold otherwhite, LJ_GC_WHITES. rewrite Malive. unfold freed in *.
  change (isdead g o) with (dead (currentwhite g) (s_marked o)).
  destruct (dead (currentwhite g) (s_marked o) && _) eqn:Ef; cbn [negb].
  - pose proof Ef as [Ed Ef2]%andb_prop. rewrite Ed.
    destruct (IH (<[x := None]> hp) (u32 (num - 1)) Hnd (Hin' None)) as (hp' & num' & c' & -> & Hn' & Hout & Hsub & Hch).
    eexists _, _, _. split; [done|]. split; [done|].
    assert (Hx' : obj hp' x = None) by (rewrite Hout by done; by apply obj_insert_eq).
    split_and!.
    + intros id [Hne Hid]%not_elem_of_cons. rewrite Hout by done. by apply obj_insert_ne.
    + intros id Hid. right. by apply Hsub.
    + intros id o' [->|Hid]%elem_of_cons Ho'.
      * assert (o' = o) as -> by congruence. rewrite Ef. split; [done|by intros ?%Hsub].
      * apply Hch; [done|]. by rewrite Htl.
  - assert (Has : negb (dead (currentwhite g) (s_marked o)) || negb (Z.land (s_marked o) LJ_GC_FIXED =? 0) = true).
    { rewrite <- negb_andb. by rewrite Ef. }
    rewrite Has.
    destruct (IH (<[x := Some (makewhite g o)]> hp) num Hnd (Hin' _)) as (hp' & num' & c' & -> & Hn' & Hout & Hsub & Hch).
    cbn [mbind option_bind]. eexists _, _, _. split; [done|].
    assert (Hx' : obj hp' x = Some (makewhite g o)) by (rewrite Hout by done; by apply obj_insert_eq).
    split; [apply NoDup_cons; split; [by intros ?%Hsub|done]|]. split_and!.
    + intros id [Hne Hid]%not_elem_of_cons. rewrite Hout by done. by apply obj_insert_ne.
    + intros id [->|Hid]%elem_of_cons; [left|right; by apply Hsub].
    + intros id o' [->|Hid]%elem_of_cons Ho'.
      * assert (o' = o) as -> by congruence. rewrite Ef. split; [done|left].
      * specialize (Hch id o' Hid ltac:(by rewrite Htl)). destruct (dead (currentwhite g) (s_marked o') && _); destruct Hch as [H1 H2]; (split; [done|]); [|by right].
        apply not_elem_of_cons. split; [by intros ->|done].
Qed.

(** Sweeping the next chain. *)
Lemma sweep_wf g : wf g -> state g = GCSsweepstring ->
  exists g', gc_onestep g [] = Some g' /\ (forall held, gc_onestep g held = Some g') /\ wf g' /\
    forall id o, obj (heap g) id = Some o -> isdead g o = false ->
      exists o', obj (heap g') id = Some o' /\ s_data o' = s_data o /\ isdead g' o' = false.
Proof.
  intros W Est. unfold gc_onestep. rewrite Est. pose proof (wf_sweep _ W Est) as Hs.
  pose proof (wf_len _ W) as Hlen. destruct (wf_mask _ W) as (k & Hk & Hm).
  destruct (zget_is_Some (strhash g) (sweepstr g)) as [c Hc]; [lia|]. rewrite Hc. cbn [mbind option_bind].
  pose proof (wf_white _ W) as Hw.
  destruct (gc_sweep_spec g c Hw (heap g) (strnum g) (wf_nodup _ W _ _ Hc)) as (hp & num & c' & -> & Hnd & Hout & Hsub & Hin).
  { intros id Hid. destruct (wf_chain _ W _ _ id Hc Hid) as (o & Ho & _). exists o. split; [done|]. by apply (wf_obj _ W id). }
  cbn [mbind option_bind fst snd].
  destruct (zset_is_Some (strhash g) (sweepstr g) c') as [sh Hset]; [lia|]. rewrite Hset. cbn [mbind option_bind].
  assert (H26 : 2 ^ k <= 2 ^ 26) by (apply Z.pow_le_mono_r; lia). change (2 ^ 26) with 67108864 in H26.
  rewrite u32_small by (unfold in_u32; lia).
  (* the strings that are left, and where they come from *)
  assert (Hfrom : forall id o', obj hp id = Some o' ->
    exists o, obj (heap g) id = Some o /\ s_hash o' = s_hash o /\ s_len o' = s_len o /\ s_data o' = s_data o /\
      in_u8 (s_marked o') /\ (Z.land (s_hash o) (strmask g) = sweepstr g -> id ∈ c' /\ isdead g o' = false) /\
      (Z.land (s_hash o) (strmask g) <> sweepstr g -> o' = o)).
  { intros id o' Ho'. destruct (decide (id ∈ c)) as [Hid|Hid].
    - destruct (wf_chain _ W _ _ id Hc Hid) as (o & Ho & Hi). specialize (Hin id o Hid Ho).
      destruct (wf_obj _ W id o Ho) as (_ & _ & Hu & _). destruct (marks _ _ Hw Hu) as (_ & _ & _ & _ & Md & _ & _ & _ & _ & _ & Mu).
      destruct (freed _ _); [destruct Hin; congruence|]. destruct Hin as [E Hc']. rewrite E in Ho'. injection Ho' as <-.
      exists o. split_and!; try done; apply Mu.
    - rewrite Hout in Ho' by done. exists o'. destruct (wf_obj _ W id o' Ho') as (_ & _ & Hu & c0 & Hc0 & Hic0).
      split_and!; try done; [apply Hu..|]. intros Hi. rewrite Hi, Hc in Hc0. by injection Hc0 as ->. }
  assert (Hkept : forall id o, obj (heap g) id = Some o -> isdead g o = false ->
    exists o', obj hp id = Some o' /\ s_data o' = s_data o /\ isdead g o' = false).
  { intros id o Ho Hd. destruct (decide (id ∈ c)) as [Hid|Hid].
    - specialize (Hin id o Hid Ho). change (isdead g o) with (dead (currentwhite g) (s_marked o)) in Hd.
      unfold freed in Hin. rewrite Hd in Hin. destruct Hin as [E _]. exists (makewhite g o). split_and!; [done|done|].
      destruct (wf_obj _ W id o Ho) as (_ & _ & Hu & _). by destruct (marks _ _ Hw Hu) as (_ & _ & _ & _ & Md & _).
    - rewrite Hout by done. eauto. }
  eexists. split; [done|]. split; [done|]. split; [|exact Hkept].
  split; cbn [strhash strmask heap state sweepstr currentwhite].
  - eauto.
  - rewrite (zset_length _ _ _ _ Hset). done.
  - intros i d id Hi Hid. destruct (Z.eq_dec (sweepstr g) i) as [<-|Hne].
    + rewrite (zget_zset_eq _ _ _ _ Hset) in Hi. injection Hi as <-. pose proof (Hsub id Hid) as Hidc.
      destruct (wf_chain _ W _ _ id Hc Hidc) as (o & Ho & Hio). specialize (Hin id o Hidc Ho).
      destruct (freed _ _) eqn:Ef; [|destruct Hin as [E _]; by exists (makewhite g o)].
      by destruct Hin.
    + rewrite (zget_zset_ne _ _ _ _ _ Hset Hne) in Hi. destruct (wf_chain _ W _ _ id Hi Hid) as (o & Ho & Hio).
      exists o. split; [|done]. rewrite Hout; [done|]. intros Hidc.
      destruct (wf_chain _ W _ _ id Hc Hidc) as (o' & Ho' & Hio'). congruence.
  - intros i d Hi. destruct (Z.eq_dec (sweepstr g) i) as [<-|Hne].
    + rewrite (zget_zset_eq _ _ _ _ Hset) in Hi. by injection Hi as <-.
    + rewrite (zget_zset_ne _ _ _ _ _ Hset Hne) in Hi. by eapply (wf_nodup _ W).
  - intros id o' Ho'. destruct (Hfrom id o' Ho') as (o & Ho & -> & -> & -> & Hu & Hsw & Hno).
    destruct (wf_obj _ W id o Ho) as (H1 & H2 & _ & c0 & Hc0 & Hic0). split_and!; [done|done|apply Hu..|].
    destruct (Z.eq_dec (sweepstr g) (Z.land (s_hash o) (strmask g))) as [E|Hne].
    + exists c'. rewrite <- E. split; [by eapply zget_zset_eq|]. by apply Hsw.
    + exists c0. by rewrite (zget_zset_ne _ _ _ _ _ Hset Hne).
  - intros id id' o o' Ho Ho' Hd. destruct (Hfrom id o Ho) as (a & Ha & _ & _ & Da & _).
    destruct (Hfrom id' o' Ho') as (b & Hb & _ & _ & Db & _). apply (wf_inj _ W id id' a b Ha Hb). congruence.
  - done.
  - destruct (Z.ltb_spec (strmask g) (sweepstr g + 1)); [done|]. lia.
  - intros id o' Ho' Hd. destruct (Hfrom id o' Ho') as (o & Ho & Hh & _ & _ & _ & Hsw & Hno). rewrite Hh.
    destruct (Z.eq_dec (Z.land (s_hash o) (strmask g)) (sweepstr g)) as [E|Hne].
    { destruct (Hsw E) as [_ Hl]. change (isdead g o' = true) in Hd. congruence. }
    rewrite (Hno Hne) in Hd. destruct (wf_dead _ W id o Ho Hd) as [_ Hle].
    pose proof (wf_index g (s_hash o) W). rewrite Hlen in *.
    destruct (Z.ltb_spec (strmask g) (sweepstr g + 1)); [lia|]. split; [done|lia].
Qed.

(** ** Marking *)

Lemma mark_wf g id o : wf g -> obj (heap g) id = Some o ->
  let g' := set_heap g (<[id := Some (gc_mark_str o)]> (heap g)) in wf g' /\ keeps g g'.
Proof.
  intros W Ho. destruct (wf_obj _ W id o Ho) as (_ & _ & Hu & _).
  destruct (marks _ _ (wf_white _ W) Hu) as (_ & _ & M1 & _ & _ & _ & _ & _ & _ & M2 & _).
  apply remark_wf; [done|done|done|]. intros E. change (dead (currentwhite g) (Z.land (s_marked o) 252) = true) in E.
  congruence.
Qed.

(** A string that the marker has seen. *)
Definition unwhite (o : strobj) : Prop := Z.land (s_marked o) 3 = 0.

Lemma mark_refs_spec rs : forall g, wf g -> Forall (fun sr => refers g sr.2 sr.1) rs ->
  exists hp, mark_refs (heap g) rs = Some hp /\ wf (set_heap g hp) /\ keeps g (set_heap g hp) /\
    (forall id o, obj (heap g) id = Some o -> unwhite o -> exists o', obj hp id = Some o' /\ unwhite o') /\
    (forall s id, (s, Strobject id) ∈ rs -> exists o', obj hp id = Some o' /\ unwhite o').
Proof.
  induction rs as [|[s [|id]] rs IH]; intros g W Hr; cbn [mark_refs].
  - exists (heap g). split; [done|]. split; [by destruct g|]. split; [by apply keeps_same|].
    split; [eauto|]. by intros ? ? ?%elem_of_nil.
  - apply Forall_cons in Hr as [_ Hr]. destruct (IH g W Hr) as (hp & E & W' & K' & U & V).
    exists hp. split_and!; try done. intros s' id' [[=]|Hin]%elem_of_cons. by eapply V.
  - apply Forall_cons in Hr as [(_ & o & Ho & _) Hr]. rewrite Ho. cbn [mbind option_bind].
    destruct (mark_wf g id o W Ho) as [W1 K1].
    set (g1 := set_heap g _) in *.
    destruct (IH g1 W1) as (hp & E & W' & K' & U & V).
    { eapply Forall_impl; [exact Hr|]. intros sr. by apply refers_keeps. }
    exists hp. split; [exact E|]. split; [done|]. split; [by eapply keeps_trans|].
    assert (Hm : obj (heap g1) id = Some (gc_mark_str o) /\ unwhite (gc_mark_str o)).
    { split; [apply obj_insert_eq; by eapply obj_lt|]. unfold unwhite. cbn.
      destruct (wf_obj _ W id o Ho) as (_ & _ & Hu & _).
      by destruct (marks _ _ (wf_white _ W) Hu) as (_ & _ & _ & M & _). }
    split.
    + intros id' o' Ho' Hw. destruct (decide (id' = id)) as [->|Hne]; [by apply (U id (gc_mark_str o)); apply Hm|].
      eapply U; [|done]. cbn [g1 set_heap heap]. by rewrite obj_insert_ne.
    + intros s' id' [[= -> ->]|Hin]%elem_of_cons; [by apply (U id (gc_mark_str o)); apply Hm|by eapply V].
Qed.

(** ** Whole runs *)

(** The table is in order and every reference the program holds stands for
    its string, which the collector will not free. *)
Definition inv (g : global) (held : list (list Z * strref)) : Prop :=
  wf g /\ Forall (fun sr => refers g sr.2 sr.1) held.

Lemma inv_keeps g g' held : inv g held -> wf g' -> keeps g g' -> inv g' held.
Proof.
  intros [_ F] W' K. split; [done|]. eapply Forall_impl; [exact F|]. intros sr. by apply refers_keeps.
Qed.

Lemma inv_state g held st : inv g held -> sweeping (state g) = false -> sweeping st = false -> inv (set_state g st) held.
Proof.
  intros Hi Hs Ht. eapply inv_keeps; [exact Hi| |by apply keeps_same]. destruct Hi as [W _].
  destruct W; split; try done; cbn [state set_state].
  - intros ->. done.
  - intros id o Ho Hd. destruct (wf_dead0 id o Ho Hd) as [E _]. by rewrite E in Hs.
Qed.

(** A step of the collector: nothing that is held dies. *)
Lemma onestep_inv g held : inv g held -> exists g', gc_onestep g held = Some g' /\ inv g' held.
Proof.
  intros Hi. pose proof Hi as [W F]. unfold gc_onestep. destruct (state g) eqn:Est.
  - eexists. split; [done|]. apply inv_state; [done|by rewrite Est|done].
  - eexists. split; [done|]. apply inv_state; [done|by rewrite Est|done].
  - destruct (mark_refs_spec held g W F) as (hp & -> & W' & K' & _ & V). cbn [mbind option_bind].
    eexists. split; [done|]. pose proof (white_flip _ (wf_white _ W)) as Hw. split.
    + destruct W' as [A B C D E G _ _ _]. split; try done; cbn [strhash strmask heap state sweepstr set_heap] in *.
      * intros _. destruct A as (k & Hk & ->). assert (0 < 2 ^ k) by (apply Z.pow_pos_nonneg; lia). lia.
      * intros id o _ _. split; [done|]. destruct A as (k & Hk & ->). pose proof (land_mask_range (s_hash o) k ltac:(lia)). lia.
    + apply Forall_forall. intros [s r] Hin. pose proof (proj1 (Forall_forall _ _) F _ Hin) as R.
      destruct r as [|id]; [done|]. destruct R as (Hne & o & Ho & Hd & Hl). split; [done|].
      destruct (K' id o Ho) as (o' & Ho' & Hd' & _). destruct (V s id Hin) as (o2 & Ho2 & Hu2).
      cbn [heap set_heap] in *. assert (o2 = o') as -> by congruence.
      exists o'. split_and!; [done|congruence|].
      assert (Hu : in_u8 (s_marked o')) by (apply (wf_obj _ W' id o'); done).
      by apply (marks _ _ Hw Hu).
  - destruct (sweep_wf g W Est) as (g' & _ & E & W' & Hk). specialize (E held). unfold gc_onestep in E. rewrite Est in E.
    rewrite E. exists g'. split; [done|]. split; [done|]. eapply Forall_impl; [exact F|]. intros [s [|id]]; [done|].
    intros (Hne & o & Ho & Hd & Hl). split; [done|]. destruct (Hk id o Ho Hl) as (o' & Ho' & Hd' & Hl').
    exists o'. split_and!; [done|congruence|done].
  - assert (Hsh : exists g', (if (strnum g <=? Z.shiftr (strmask g) 2) && (LJ_MIN_STRTAB * 2 - 1 <? strmask g)
        then lj_str_resize g (Z.shiftr (strmask g) 1) else Some g) = Some g' /\ inv g' held /\ state g' = GCSsweep).
    { destruct (_ && _) eqn:Eb; [|eauto]. apply andb_prop in Eb as [_ Eb]. unfold LJ_MIN_STRTAB in Eb.
      destruct (wf_mask _ W) as (k & Hk & Hm).
      assert (Hk1 : 1 <= k). { destruct (Z.eq_dec k 0) as [->|]; [|lia]. change (2 ^ 0) with 1 in Hm. lia. }
      replace (Z.shiftr (strmask g) 1) with (2 ^ (k - 1) - 1).
      2: { rewrite Z.shiftr_div_pow2 by lia. rewrite Hm. replace k with (k - 1 + 1) at 2 by lia.
           rewrite Z.pow_add_r by lia. change (2 ^ 1) with 2. apply (Z.div_unique _ 2 _ 1); lia. }
      destruct (lj_str_resize_wf g (k - 1) W ltac:(lia)) as (g' & -> & W' & K' & Es).
      exists g'. split; [done|]. split; [by eapply inv_keeps|congruence]. }
    destruct Hsh as (g' & -> & Hi' & Es). cbn [mbind option_bind]. eexists. split; [done|].
    apply inv_state; [done|by rewrite Es|done].
Qed.

Definition valid_op (o : op) : Prop := match o with Resize k => 0 <= k | _ => True end.

Lemma update_inv g held id f : inv g held ->
  (forall o, obj (heap g) id = Some o -> exists m, f o = set_marked o m /\ in_u8 m /\
    (isdead g (set_marked o m) = true -> isdead g o = true)) ->
  inv (update_obj g id f) held.
Proof.
  intros Hi Hf. unfold update_obj. destruct (obj (heap g) id) as [o|] eqn:Ho; [|done].
  destruct (Hf o eq_refl) as (m & -> & Hu & Hd). pose proof Hi as [W F].
  destruct (remark_wf g id o m W Ho Hu Hd) as [W' K]. by eapply inv_keeps.
Qed.

Lemma fix_inv g held id : inv g held -> inv (update_obj g id fixstring) held.
Proof.
  intros Hi. apply update_inv; [done|]. intros o Ho. eexists. split; [done|]. destruct Hi as [W _].
  destruct (wf_obj _ W id o Ho) as (_ & _ & Hu & _).
  destruct (marks _ _ (wf_white _ W) Hu) as (_ & M & _ & _ & _ & _ & _ & _ & Mu & _). split; [done|].
  intros E. change (dead (currentwhite g) (Z.lor (s_marked o) 32) = true) in E. by rewrite M in E.
Qed.

Lemma mark_inv g held id : inv g held -> inv (update_obj g id gc_mark_str) held.
Proof.
  intros Hi. apply update_inv; [done|]. intros o Ho. eexists. split; [done|]. destruct Hi as [W _].
  destruct (wf_obj _ W id o Ho) as (_ & _ & Hu & _).
  destruct (marks _ _ (wf_white _ W) Hu) as (_ & _ & M & _ & _ & _ & _ & _ & _ & Mu & _). split; [done|].
  intros E. change (dead (currentwhite g) (Z.land (s_marked o) 252) = true) in E. by rewrite M in E.
Qed.

Lemma step_inv g held o : inv g held -> valid_op o ->
  exists g' held', step g held o = Some (g', held') /\ inv g' held'.
Proof.
  intros Hi Hv. pose proof Hi as [W F]. destruct o as [str|k|k|id| |k]; cbn [step].
  - destruct (lj_str_new_spec g str W) as (g' & r & -> & W' & K & R). cbn [mbind option_bind].
    eexists _, _. split; [done|]. destruct (inv_keeps g g' held Hi W' K) as [_ F'].
    destruct r; [|done]. split; [done|]. by constructor.
  - eexists _, _. split; [done|]. split; [done|]. by apply Forall_delete.
  - eexists _, _. split; [done|]. destruct (held !! k) as [[? [|id]]|]; [done|by apply fix_inv|done].
  - eexists _, _. split; [done|]. by apply mark_inv.
  - destruct (onestep_inv g held Hi) as (g' & -> & Hi'). cbn. eauto.
  - destruct (lj_str_resize_wf g k W Hv) as (g' & -> & W' & K & _). cbn.
    eexists _, _. split; [done|]. by eapply inv_keeps.
Qed.

Lemma run_inv ops : forall g held, inv g held -> Forall valid_op ops ->
  exists g' held', run g held ops = Some (g', held') /\ inv g' held'.
Proof.
  induction ops as [|o ops IH]; intros g held Hi Hv; [eexists _, _; by split|].
  apply Forall_cons in Hv as [Ho Hv]. destruct (step_inv g held o Hi Ho) as (g1 & h1 & E & Hi1).
  cbn [run]. rewrite E. cbn [mbind option_bind]. by apply IH.
Qed.

(** C35: String references are unique and stay valid.  Take any sequence of
    internings, forgotten references, fixed strings, marks, steps of the
    collector (which frees strings the program no longer holds) and table
    resizings from a new state, where the atomic phase marks the strings the
    program holds.  No step follows a pointer to a freed string, leaves the
    table or fails an assertion; every reference the program holds is to an
    object that is not dead and holds its string, also when it was interned
    again while dead and not yet swept; and two references it holds are equal
    exactly when their strings are equal.  Strings of [LJ_MAX_STR] bytes or
    more give the error and no reference. *)
Theorem interning_unique (ops : list op) (Hops : Forall valid_op ops) :
  exists g held, run initial [] ops = Some (g, held) /\
    Forall (fun sr => refers g sr.2 sr.1) held /\
    (forall i j s1 r1 s2 r2, held !! i = Some (s1, r1) -> held !! j = Some (s2, r2) ->
      (r1 = r2 <-> s1 = s2)) /\
    (forall str, exists g' r, lj_str_new g str = Some (g', r) /\ (r = STROV <-> LJ_MAX_STR <= zlen str)).
Proof.
  destruct (run_inv ops initial []) as (g & held & E & W & F); [split; [apply initial_wf|constructor]|done|].
  exists g, held. split; [done|]. split; [done|]. split.
  - intros i j s1 r1 s2 r2 H1 H2.
    pose proof (Forall_lookup_1 _ _ _ _ F H1) as R1.
    pose proof (Forall_lookup_1 _ _ _ _ F H2) as R2. cbn in R1, R2.
    destruct r1 as [|id1], r2 as [|id2]; cbn in R1, R2.
    + by subst.
    + destruct R2 as [Hne _]. split; [done|]. intros ->. done.
    + destruct R1 as [Hne _]. split; [done|]. intros ->. done.
    + destruct R1 as (_ & o1 & Ho1 & <- & _), R2 as (_ & o2 & Ho2 & <- & _). split.
      * intros [= ->]. by simplify_eq.
      * intros Hd. f_equal. by eapply (wf_inj _ W).
  - intros str. destruct (lj_str_new_spec g str W) as (g' & r & En & _ & _ & R). exists g', r. split; [done|].
    destruct r; [|done]. split; [done|]. intros Hbig. unfold lj_str_new in En.
    destruct (Z.leb_spec LJ_MAX_STR (zlen str)); [done|lia].
Qed.

(** Two strings are interned and forgotten; the collector runs up to the
    sweep, where the first is interned again while dead; when the sweep is
    over (256 chains) the second is freed and the first is still there. *)
Lemma interning_unique_witness :
  let ops := [New [97; 98]; New [99]; Forget 0; Forget 0; Gc; Gc; Gc; New [97; 98]] ++ replicate 256 Gc ++ [New [97; 98]; New []] in
  exists g held, run initial [] ops = Some (g, held) /\
    Forall (fun sr => refers g sr.2 sr.1) held /\
    held = [([], Strempty); ([97; 98], Strobject 0); ([97; 98], Strobject 0)] /\
    is_Some (obj (heap g) 0) /\ obj (heap g) 1 = None /\ state g = GCSsweep.
Proof.
  intros ops. destruct (interning_unique ops) as (g & held & E & F & _ & _).
  { apply Forall_app. split; [|apply Forall_app; split; [by apply Forall_replicate|]]; repeat (constructor; [done|]); constructor. }
  exists g, held. split; [exact E|]. split; [exact F|].
  assert (Hc : (fun x => (x.2, bool_decide (is_Some (obj (heap x.1) 0)), obj (heap x.1) 1, state x.1)) <$> run initial [] ops =
    Some ([([], Strempty); ([97; 98], Strobject 0); ([97; 98], Strobject 0)], true, None, GCSsweep)) by (vm_compute; reflexivity).
  rewrite E in Hc. cbn in Hc. injection Hc as -> Hb Ho Hs. apply bool_decide_eq_true in Hb. by split_and!.
Defined.
End Intern.
