(* ===== verification/LjBuf.v ===== *)
(** * LjBuf

    String buffers of the Lua virtual machine ([lj_buf.c], [lj_buf.h]):
    plain, extended (with a read pointer), copy-on-write and borrowed ones.
    A buffer is refined to the sequence of bytes between its read and write
    pointers; growth, compaction and un-sharing are invisible there. *)
From stdpp Require Import base tactics numbers list.
From Stdlib Require Import ZArith Lia.
From S2P Require Import Prelude.
Open Scope Z_scope.

Module Buf.

Definition LJ_MIN_SBUF : Z := 32.
Definition LJ_MAX_BUF : Z := 0x7fffff00.
Definition LJ_MAX_STR : Z := 0x7fffff00.

(** How an operation ends: normally, by raising the out-of-memory error, or
    with an access that has no defined effect; [NoFuel] marks a loop that did
    not end within its fuel. *)
Inductive res (A : Type) := Ok (a : A) | ErrMem | Bad | NoFuel.
Arguments Ok {A} a.
Arguments ErrMem {A}.
Arguments Bad {A}.
Arguments NoFuel {A}.

#[export] Instance res_ret : MRet res := fun A a => Ok a.
#[export] Instance res_bind : MBind res := fun A B f o =>
  match o with Ok a => f a | ErrMem => ErrMem | Bad => Bad | NoFuel => NoFuel end.
Definition chk {A} (o : option A) : res A := match o with Some a => Ok a | None => Bad end.

(** A buffer: its memory ([e - b] cells, [None] where nothing was written
    yet), the offsets of the write and read pointers from [b], the flags in
    the low bits of [L], and for a borrowed buffer the write and end offsets
    of the buffer it borrowed from. *)
Record SBuf := Sbuf {
  mem : list (option Z);
  w : Z;
  r : Z;
  ext : bool; cow : bool; borrow : bool;
  bsb : Z * Z }.

Definition sbufsz (sb : SBuf) : Z := zlen (mem sb).
Definition sbuflen (sb : SBuf) : Z := w sb.
Definition sbufleft (sb : SBuf) : Z := sbufsz sb - w sb.
Definition sbufxlen (sb : SBuf) : Z := w sb - r sb.
Definition sbufxslack (sb : SBuf) : Z := r sb.

Definition lj_buf_init : SBuf := Sbuf [] 0 0 false false false (0, 0).
Definition lj_bufx_init : SBuf := Sbuf [] 0 0 true false false (0, 0).

Definition lj_buf_reset (sb : SBuf) : SBuf :=
  Sbuf (mem sb) 0 (r sb) (ext sb) (cow sb) (borrow sb) (bsb sb).

(** A buffer over the memory of a string. *)
Definition lj_bufx_set_cow (p : list Z) : SBuf :=
  Sbuf (Some <$> p) (zlen p) 0 true true false (0, 0).

Definition lj_bufx_set_borrow (sb : SBuf) : SBuf :=
  Sbuf (mem sb) 0 0 true false true (w sb, sbufsz sb).

Definition lj_bufx_reset (sb : SBuf) : SBuf :=
  if cow sb then Sbuf [] 0 0 (ext sb) false (borrow sb) (bsb sb)
  else Sbuf (mem sb) 0 0 (ext sb) (cow sb) (borrow sb) (bsb sb).

(** ** Growth *)

(** [while (nsz < sz) nsz += nsz;] on [MSize]. *)
Fixpoint grow_size (fuel : nat) (nsz sz : Z) : res Z :=
  match fuel with
  | O => NoFuel
  | S fuel' => if nsz <? sz then grow_size fuel' (u32 (nsz + nsz)) sz else Ok nsz
  end.

(** [memmove(b, r, len)]: the moved bytes, then the old rest. *)
Definition move_down (m : list (option Z)) (r len : Z) : list (option Z) :=
  let moved := take (Z.to_nat len) (drop (Z.to_nat r) m) in
  moved ++ drop (Z.to_nat len) m.

(** Both branches of the allocation keep the old cells and leave the new ones
    unwritten; the copy-on-write one drops the flag.  32 doublings exhaust
    the 32-bit sizes. *)
Definition buf_grow (sb : SBuf) (sz : Z) : res SBuf :=
  let osz := sbufsz sb in
  let len := sbuflen sb in
  nsz ← grow_size 32 (if osz <? LJ_MIN_SBUF then LJ_MIN_SBUF else osz) sz;
  Ok (Sbuf (mem sb ++ replicate (Z.to_nat (nsz - osz)) None) len
        (r sb) (ext sb) false (borrow sb)
        (if borrow sb then (len, nsz) else bsb sb)).

Definition lj_buf_need2 (sb : SBuf) (sz : Z) : res SBuf :=
  if LJ_MAX_BUF <? sz then ErrMem else buf_grow sb sz.

Definition lj_buf_need (sb : SBuf) (sz : Z) : res SBuf :=
  if sbufsz sb <? sz then lj_buf_need2 sb sz else Ok sb.

Definition compact (sb : SBuf) (len : Z) : SBuf :=
  if r sb =? 0 then sb
  else Sbuf (move_down (mem sb) (r sb) len) len 0 (ext sb) (cow sb) (borrow sb) (bsb sb).

Definition lj_buf_more2 (sb : SBuf) (sz : Z) : res SBuf :=
  if ext sb then
    let len := sbufxlen sb in
    if (LJ_MAX_BUF <? sz) || (LJ_MAX_BUF <? u32 (len + sz)) then ErrMem
    else if sbufsz sb <? u32 (len + sz) then
      sb' ← buf_grow sb (u32 (len + sz)); Ok (compact sb' len)
    else if cow sb || (sbufxslack sb <? Z.shiftr (sbufsz sb) 3) then
      buf_grow sb (u32 (sbuflen sb + sz))
    else Ok (compact sb len)
  else
    let len := sbuflen sb in
    if (LJ_MAX_BUF <? sz) || (LJ_MAX_BUF <? u32 (len + sz)) then ErrMem
    else buf_grow sb (u32 (len + sz)).

Definition lj_buf_more (sb : SBuf) (sz : Z) : res SBuf :=
  if sbufleft sb <? sz then lj_buf_more2 sb sz else Ok sb.

Definition lj_buf_shrink (sb : SBuf) : SBuf :=
  let osz := sbufsz sb in
  if 2 * LJ_MIN_SBUF <? osz then
    Sbuf (take (Z.to_nat (Z.shiftr osz 1)) (mem sb)) (w sb) (r sb)
      (ext sb) (cow sb) (borrow sb) (bsb sb)
  else sb.

(** ** Writing *)

(** Store [bs] from the write pointer on and advance it; shared memory must
    not be written. *)
Fixpoint put_bytes (sb : SBuf) (bs : list Z) : res SBuf :=
  match bs with
  | [] => Ok sb
  | c :: bs' =>
      if cow sb then Bad
      else
        m ← chk (zset (mem sb) (w sb) (Some c));
        put_bytes (Sbuf m (w sb + 1) (r sb) (ext sb) (cow sb) (borrow sb) (bsb sb)) bs'
  end.

Definition lj_buf_putmem (sb : SBuf) (q : list Z) : res SBuf :=
  sb ← lj_buf_more sb (zlen q); put_bytes sb q.

Definition lj_buf_putb (sb : SBuf) (c : Z) : res SBuf :=
  sb ← lj_buf_more sb 1; put_bytes sb [u8 c].

Definition lj_buf_putchar2 (sb : SBuf) (c : Z) : res SBuf :=
  sb ← lj_buf_more2 sb 1; put_bytes sb [u8 c].

Definition lj_buf_putchar (sb : SBuf) (c : Z) : res SBuf :=
  if w sb <? sbufsz sb then put_bytes sb [u8 c] else lj_buf_putchar2 sb c.

Definition lj_buf_putstr (sb : SBuf) (s : list Z) : res SBuf :=
  sb ← lj_buf_more sb (zlen s); put_bytes sb s.

(** The loop reads from the last byte backwards. *)
Fixpoint rev_read (s : list Z) (q : Z) (n : nat) : option (list Z) :=
  match n with
  | O => Some []
  | S n' => c ← zget s q; rest ← rev_read s (q - 1) n'; Some (c :: rest)
  end.

Definition lj_buf_putstr_reverse (sb : SBuf) (s : list Z) : res SBuf :=
  sb ← lj_buf_more sb (zlen s);
  bs ← chk (rev_read s (zlen s - 1) (length s));
  put_bytes sb bs.

Definition lower1 (c : Z) : Z := if (65 <=? c) && (c <=? 90) then u8 (c + 0x20) else c.
Definition upper1 (c : Z) : Z := if (97 <=? c) && (c <=? 122) then u8 (c - 0x20) else c.

Definition lj_buf_putstr_lower (sb : SBuf) (s : list Z) : res SBuf :=
  sb ← lj_buf_more sb (zlen s); put_bytes sb (lower1 <$> s).

Definition lj_buf_putstr_upper (sb : SBuf) (s : list Z) : res SBuf :=
  sb ← lj_buf_more sb (zlen s); put_bytes sb (upper1 <$> s).

(** The [do ... while (--rep > 0)] loops run [rep] times. *)
Fixpoint rep_loop (sb : SBuf) (s : list Z) (rep : nat) : res SBuf :=
  match rep with
  | O => Ok sb
  | S rep' => sb ← put_bytes sb s; rep_loop sb s rep'
  end.

Definition lj_buf_putstr_rep (sb : SBuf) (s : list Z) (rep : Z) : res SBuf :=
  if (0 <? rep) && negb (zlen s =? 0) then
    let tlen := u64 (rep * zlen s) in
    if LJ_MAX_STR <? tlen then ErrMem
    else
      sb ← lj_buf_more sb (u32 tlen);
      rep_loop sb s (Z.to_nat rep)
  else Ok sb.

(** ** ULEB128 *)

Fixpoint ruleb_loop (fuel : nat) (m : list Z) (p v sh : Z) : option (Z * Z) :=
  match fuel with
  | O => None
  | S fuel' =>
      c ← zget m p;
      let sh := sh + 7 in
      let v := Z.lor v (u32 (Z.shiftl (Z.land c 0x7f) sh)) in
      if 0x80 <=? c then ruleb_loop fuel' m (p + 1) v sh else Some (v, p + 1)
  end.

(** The value and the new read position. *)
Definition lj_buf_ruleb128 (m : list Z) (p : Z) : option (Z * Z) :=
  v ← zget m p;
  if 0x80 <=? v then ruleb_loop (length m) m (p + 1) (Z.land v 0x7f) 0
  else Some (v, p + 1).

(** ** The contents of a buffer *)

(** The bytes between the read and the write pointer are [c]. *)
Definition holds (sb : SBuf) (c : list Z) : Prop :=
  exists pre post,
    mem sb = pre ++ (Some <$> c) ++ post /\
    r sb = zlen pre /\ w sb = zlen pre + zlen c /\
    (ext sb = false -> pre = []) /\ (cow sb = true -> ext sb = true /\ post = []) /\
    zlen (mem sb) < 4294967296.

Lemma zlen_fmap {A B} (f : A -> B) l : zlen (f <$> l) = zlen l.
Proof. unfold zlen. by rewrite length_fmap. Qed.

Lemma grow_size_ok fuel : forall nsz sz,
  0 < nsz < 4294967296 -> sz <= 2147483648 -> sz <= nsz * 2 ^ Z.of_nat fuel ->
  exists n, grow_size (S fuel) nsz sz = Ok n /\ nsz <= n < 4294967296 /\ sz <= n.
Proof.
  induction fuel as [|fuel IH]; intros nsz sz Hn Hs Hf; cbn [grow_size];
    destruct (Z.ltb_spec nsz sz) as [Hlt|Hge]; try (exists nsz; split; [done|lia]).
  - change (2 ^ Z.of_nat 0) with 1 in Hf. lia.
  - rewrite u32_small by (unfold in_u32; lia).
    destruct (IH (nsz + nsz) sz) as (n & E & Hr & Hsz); [lia|lia| |].
    { replace (Z.of_nat (S fuel)) with (Z.of_nat fuel + 1) in Hf by lia.
      rewrite Z.pow_add_r in Hf by lia. change (2 ^ 1) with 2 in Hf. lia. }
    exists n. split; [exact E|]. lia.
Qed.

(** Growing keeps the contents and makes room. *)
Lemma buf_grow_holds sb c sz :
  holds sb c -> sz <= 2147483648 ->
  exists sb', buf_grow sb sz = Ok sb' /\ holds sb' c /\ sz <= sbufsz sb' /\
    cow sb' = false /\ r sb' = r sb /\ w sb' = w sb /\ ext sb' = ext sb /\
    sbufsz sb <= sbufsz sb'.
Proof.
  intros (pre & post & Hm & Hr & Hw & He & Hc & Hz) Hsz. unfold buf_grow.
  pose proof (zlen_nonneg (mem sb)) as H0. unfold sbufsz in *.
  set (n0 := if zlen (mem sb) <? LJ_MIN_SBUF then LJ_MIN_SBUF else zlen (mem sb)).
  assert (Hn0 : LJ_MIN_SBUF <= n0 /\ zlen (mem sb) <= n0 < 4294967296).
  { unfold n0, LJ_MIN_SBUF. destruct (Z.ltb_spec (zlen (mem sb)) 32); lia. }
  destruct (grow_size_ok 31 n0 sz) as (n & -> & Hn & Hns).
  { unfold LJ_MIN_SBUF in Hn0. lia. } { done. }
  { unfold LJ_MIN_SBUF in Hn0. change (2 ^ Z.of_nat 31) with 2147483648. lia. }
  cbn [mbind res_bind]. eexists. split; [done|].
  assert (Hlen : zlen (mem sb ++ replicate (Z.to_nat (n - zlen (mem sb))) None) = n).
  { rewrite zlen_app, zlen_replicate. lia. }
  split.
  - exists pre, (post ++ replicate (Z.to_nat (n - zlen (mem sb))) None).
    cbn [mem r w ext cow sbuflen]. split; [by rewrite Hm at 1; rewrite <- !app_assoc|].
    split; [done|]. split; [done|]. split; [done|]. split; [done|]. rewrite Hlen. lia.
  - cbn [mem r w ext cow sbuflen]. rewrite Hlen. repeat split; lia.
Qed.

Lemma drop_app_exact {A} (l k : list A) : drop (length l) (l ++ k) = k.
Proof. by rewrite drop_app_length. Qed.

Lemma compact_holds sb c :
  holds sb c -> cow sb = false ->
  holds (compact sb (sbufxlen sb)) c /\
  r (compact sb (sbufxlen sb)) = 0 /\ cow (compact sb (sbufxlen sb)) = false /\
  w (compact sb (sbufxlen sb)) = zlen c /\
  sbufsz (compact sb (sbufxlen sb)) = sbufsz sb.
Proof.
  intros (pre & post & Hm & Hr & Hw & He & Hc & Hz) Hcow. unfold compact.
  destruct (Z.eqb_spec (r sb) 0) as [E|E].
  - assert (pre = []) as -> by (destruct pre; [done|]; zlen_simpl; pose proof (zlen_nonneg pre); lia).
    split; [by exists [], post|]. rewrite Hw. done.
  - assert (Hlen : sbufxlen sb = zlen c) by (unfold sbufxlen; lia). rewrite Hlen.
    assert (Hmv : take (Z.to_nat (zlen c)) (drop (Z.to_nat (r sb)) (mem sb)) = Some <$> c).
    { rewrite Hm, Hr. unfold zlen. rewrite !Nat2Z.id, drop_app_length.
      rewrite <- (length_fmap Some c). apply take_app_length. }
    assert (Hpc : zlen pre + zlen c <= zlen (mem sb)).
    { rewrite Hm. rewrite !zlen_app, zlen_fmap. pose proof (zlen_nonneg post). lia. }
    assert (Hl2 : zlen (move_down (mem sb) (r sb) (zlen c)) = zlen (mem sb)).
    { unfold move_down. rewrite Hmv, zlen_app, zlen_fmap. unfold zlen in *.
      rewrite length_drop. lia. }
    split; [|by split; [|split; [|split]]].
    exists [], (drop (Z.to_nat (zlen c)) (mem sb)). cbn [mem r w ext cow].
    split; [unfold move_down; by rewrite Hmv|]. rewrite Hl2. repeat split; try done.
    + congruence.
    + congruence.
Qed.

Lemma holds_bounds sb c : holds sb c ->
  0 <= r sb /\ w sb = r sb + zlen c /\ w sb <= sbufsz sb < 4294967296 /\
  (ext sb = false -> r sb = 0) /\ (cow sb = true -> w sb = sbufsz sb).
Proof.
  intros (pre & post & Hm & Hr & Hw & He & Hc & Hz).
  pose proof (zlen_nonneg pre). pose proof (zlen_nonneg post). unfold sbufsz in *.
  assert (Hl : zlen (mem sb) = zlen pre + zlen c + zlen post)
    by (rewrite Hm, !zlen_app, zlen_fmap; lia).
  split; [lia|]. split; [lia|]. split; [lia|]. split.
  - intros E. by rewrite Hr, (He E).
  - intros E. destruct (Hc E) as [_ ->]. rewrite Hw, Hl. zlen_simpl. lia.
Qed.

(** Room for [sz] more bytes behind contents that stay the same. *)
Lemma lj_buf_more2_holds sb c sz :
  holds sb c -> 0 <= sz -> zlen c + sz <= LJ_MAX_BUF -> w sb + sz <= 2147483648 ->
  exists sb', lj_buf_more2 sb sz = Ok sb' /\ holds sb' c /\ sz <= sbufleft sb' /\
    cow sb' = false /\ w sb' <= w sb.
Proof.
  intros H Hsz Hmax Hw. destruct (holds_bounds sb c H) as (B1 & B2 & B3 & B4 & B5).
  pose proof (zlen_nonneg c). unfold LJ_MAX_BUF in *. unfold lj_buf_more2.
  assert (Hx : sbufxlen sb = zlen c) by (unfold sbufxlen; lia).
  destruct (ext sb) eqn:Ee.
  - rewrite Hx, !u32_small by (unfold in_u32, sbuflen; lia).
    unfold LJ_MAX_BUF. replace (0x7fffff00 <? sz) with false by lia.
    replace (0x7fffff00 <? zlen c + sz) with false by lia. cbn [orb].
    destruct (Z.ltb_spec (sbufsz sb) (zlen c + sz)) as [Hg|Hg].
    + destruct (buf_grow_holds sb c (zlen c + sz) H ltac:(lia))
        as (sb1 & -> & H1 & Hs1 & Hc1 & Hr1 & Hw1 & He1 & _).
      cbn [mbind res_bind]. destruct (compact_holds sb1 c H1 Hc1) as (C1 & C2 & C3 & C4 & C5).
      replace (sbufxlen sb1) with (zlen c) in * by (unfold sbufxlen in *; lia).
      eexists. split; [done|]. split; [done|]. unfold sbufleft. rewrite C4, C5.
      split; [lia|]. split; [done|lia].
    + destruct (cow sb || (sbufxslack sb <? Z.shiftr (sbufsz sb) 3)) eqn:Es.
      * destruct (buf_grow_holds sb c (sbuflen sb + sz) H ltac:(unfold sbuflen; lia))
          as (sb1 & -> & H1 & Hs1 & Hc1 & Hr1 & Hw1 & He1 & _).
        eexists. split; [done|]. split; [done|]. unfold sbufleft, sbuflen in *.
        split; [lia|]. split; [done|lia].
      * apply orb_false_iff in Es as [Es _].
        destruct (compact_holds sb c H Es) as (C1 & C2 & C3 & C4 & C5). rewrite Hx in *.
        eexists. split; [done|]. split; [done|]. unfold sbufleft. rewrite C4, C5.
        split; [lia|]. split; [done|lia].
  - specialize (B4 eq_refl). unfold sbuflen.
    rewrite !u32_small by (unfold in_u32; lia).
    unfold LJ_MAX_BUF. replace (0x7fffff00 <? sz) with false by lia.
    replace (0x7fffff00 <? w sb + sz) with false by lia. cbn [orb].
    destruct (buf_grow_holds sb c (w sb + sz) H ltac:(lia))
      as (sb1 & -> & H1 & Hs1 & Hc1 & Hr1 & Hw1 & He1 & _).
    eexists. split; [done|]. split; [done|]. unfold sbufleft. split; [lia|]. split; [done|lia].
Qed.

Lemma lj_buf_more_holds sb c sz :
  holds sb c -> 0 <= sz -> zlen c + sz <= LJ_MAX_BUF -> w sb + sz <= 2147483648 ->
  exists sb', lj_buf_more sb sz = Ok sb' /\ holds sb' c /\ sz <= sbufleft sb' /\
    (0 < sz -> cow sb' = false) /\ w sb' <= w sb.
Proof.
  intros H Hsz Hmax Hw. unfold lj_buf_more. destruct (Z.ltb_spec (sbufleft sb) sz).
  - destruct (lj_buf_more2_holds sb c sz H Hsz Hmax Hw) as (sb' & E & H' & Hl & Hc & Hw').
    exists sb'. by split.
  - exists sb. split; [done|]. split; [done|]. split; [done|]. split; [|lia].
    intros Hpos. destruct (cow sb) eqn:Ec; [|done].
    destruct (holds_bounds sb c H) as (_ & _ & _ & _ & B5). unfold sbufleft in *.
    specialize (B5 Ec). lia.
Qed.

(** Writing into the room behind the contents appends. *)
Lemma put_bytes_holds bs : forall sb c,
  holds sb c -> (bs <> [] -> cow sb = false) -> zlen bs <= sbufleft sb ->
  exists sb', put_bytes sb bs = Ok sb' /\ holds sb' (c ++ bs) /\ w sb' = w sb + zlen bs /\
    cow sb' = cow sb /\ sbufsz sb' = sbufsz sb.
Proof.
  induction bs as [|x bs IH]; intros sb c H Hcow Hl; cbn [put_bytes].
  { exists sb. rewrite app_nil_r. zlen_simpl. by repeat split; try lia. }
  rewrite (Hcow ltac:(done)). destruct H as (pre & post & Hm & Hr & Hw & He & Hc & Hz).
  unfold sbufleft, sbufsz in *. rewrite zlen_cons in Hl. pose proof (zlen_nonneg bs).
  assert (Hp : 1 <= zlen post).
  { rewrite Hm, !zlen_app, zlen_fmap in Hl. lia. }
  destruct post as [|y post]; [zlen_simpl; lia|].
  assert (Hset : zset (mem sb) (w sb) (Some x) = Some ((pre ++ (Some <$> c)) ++ Some x :: post)).
  { rewrite Hm, app_assoc, Hw. rewrite <- (zlen_fmap Some c), <- zlen_app. apply zset_middle. }
  rewrite Hset. cbn [chk mbind res_bind].
  assert (Hz' : zlen ((pre ++ (Some <$> c)) ++ Some x :: post) = zlen (mem sb)).
  { rewrite Hm. rewrite !zlen_app, !zlen_cons. lia. }
  destruct (IH (Sbuf ((pre ++ (Some <$> c)) ++ Some x :: post) (w sb + 1) (r sb) (ext sb)
    false (borrow sb) (bsb sb)) (c ++ [x])) as (sb' & E & H' & Hw' & Hc' & Hz'').
  - exists pre, post. cbn [mem r w ext cow]. split; [by rewrite fmap_app, <- !app_assoc|].
    split; [done|]. split; [rewrite zlen_app, zlen_cons; zlen_simpl; lia|].
    split; [done|]. split; [done|]. rewrite Hz'. done.
  - done.
  - cbn [mem w]. rewrite Hz'. lia.
  - exists sb'. rewrite (Hcow ltac:(done)) in *. split; [exact E|].
    split; [by rewrite <- app_assoc in H'|]. rewrite Hw', zlen_cons. cbn [w].
    split; [lia|]. split; [done|]. unfold sbufsz in *. rewrite Hz''. exact Hz'.
Qed.

(** Reserving and then writing, as all put operations do. *)
Lemma put_append sb c bs sz :
  holds sb c -> zlen bs <= sz -> zlen c + sz <= LJ_MAX_BUF -> w sb + sz <= 2147483648 ->
  exists sb', (sb ← lj_buf_more sb sz; put_bytes sb bs) = Ok sb' /\
    holds sb' (c ++ bs) /\ w sb' <= w sb + zlen bs.
Proof.
  intros H Hb Hmax Hw. pose proof (zlen_nonneg bs).
  destruct (lj_buf_more_holds sb c sz H ltac:(lia) Hmax Hw) as (sb1 & -> & H1 & Hl & Hc & Hw1).
  cbn [mbind res_bind].
  destruct (put_bytes_holds bs sb1 c H1) as (sb2 & -> & H2 & Hw2 & _ & _).
  - intros Hne. apply Hc. destruct bs; [done|]. rewrite zlen_cons in *.
    pose proof (zlen_nonneg bs). lia.
  - lia.
  - exists sb2. split; [done|]. split; [done|lia].
Qed.

Lemma rev_read_spec s : forall k, (k <= length s)%nat ->
  rev_read s (Z.of_nat k - 1) k = Some (reverse (take k s)).
Proof.
  induction k as [|k IH]; intros Hk; [done|]. cbn [rev_read].
  replace (Z.of_nat (S k) - 1) with (Z.of_nat k) by lia.
  destruct (zget_is_Some s (Z.of_nat k)) as [x Hx]; [unfold zlen; lia|].
  rewrite Hx. cbn [mbind option_bind]. rewrite IH by lia. cbn [mbind option_bind].
  unfold zget in Hx. destruct (Z.of_nat k <? 0); [done|]. rewrite Nat2Z.id in Hx.
  by rewrite (take_S_r _ _ _ Hx), reverse_app.
Qed.

Lemma rep_loop_holds s n : forall sb c,
  holds sb c -> cow sb = false -> Z.of_nat n * zlen s <= sbufleft sb ->
  exists sb', rep_loop sb s n = Ok sb' /\ holds sb' (c ++ concat (replicate n s)) /\
    w sb' = w sb + Z.of_nat n * zlen s.
Proof.
  induction n as [|n IH]; intros sb c H Hc Hl; cbn [rep_loop replicate concat].
  { exists sb. rewrite app_nil_r. split; [done|]. split; [done|lia]. }
  pose proof (zlen_nonneg s).
  destruct (put_bytes_holds s sb c H) as (sb1 & -> & H1 & Hw1 & Hc1 & Hz1); [done|lia|].
  cbn [mbind res_bind].
  destruct (IH sb1 (c ++ s) H1) as (sb2 & -> & H2 & Hw2).
  - congruence.
  - unfold sbufleft in *. rewrite Hz1, Hw1. lia.
  - exists sb2. rewrite <- app_assoc in H2. split; [done|]. split; [done|]. lia.
Qed.

(** ** Sequences of put operations *)

Inductive put :=
| PutMem (q : list Z) | PutStr (s : list Z) | PutB (c : Z) | PutChar (c : Z)
| PutReverse (s : list Z) | PutLower (s : list Z) | PutUpper (s : list Z)
| PutRep (s : list Z) (rep : Z).

Definition do_put (sb : SBuf) (p : put) : res SBuf :=
  match p with
  | PutMem q => lj_buf_putmem sb q
  | PutStr s => lj_buf_putstr sb s
  | PutB c => lj_buf_putb sb c
  | PutChar c => lj_buf_putchar sb c
  | PutReverse s => lj_buf_putstr_reverse sb s
  | PutLower s => lj_buf_putstr_lower sb s
  | PutUpper s => lj_buf_putstr_upper sb s
  | PutRep s n => lj_buf_putstr_rep sb s n
  end.

Fixpoint do_puts (sb : SBuf) (ps : list put) : res SBuf :=
  match ps with [] => Ok sb | p :: ps' => sb ← do_put sb p; do_puts sb ps' end.

(** The bytes an operation is meant to append. *)
Definition appended (p : put) : list Z :=
  match p with
  | PutMem q => q
  | PutStr s => s
  | PutB c | PutChar c => [c mod 256]
  | PutReverse s => reverse s
  | PutLower s => (fun c => if decide (65 <= c <= 90) then c + 32 else c) <$> s
  | PutUpper s => (fun c => if decide (97 <= c <= 122) then c - 32 else c) <$> s
  | PutRep s n => concat (replicate (Z.to_nat n) s)
  end.

Lemma lower_eq s : lower1 <$> s = appended (PutLower s).
Proof.
  cbn. apply list_fmap_ext. intros _ c _. unfold lower1.
  destruct (Z.leb_spec 65 c), (Z.leb_spec c 90); cbn [andb]; case_decide; try lia.
  apply u8_small. unfold in_u8. lia.
Qed.

Lemma upper_eq s : upper1 <$> s = appended (PutUpper s).
Proof.
  cbn. apply list_fmap_ext. intros _ c _. unfold upper1.
  destruct (Z.leb_spec 97 c), (Z.leb_spec c 122); cbn [andb]; case_decide; try lia.
  apply u8_small. unfold in_u8. lia.
Qed.

Lemma zlen_rep (s : list Z) n : 0 <= n -> zlen (concat (replicate (Z.to_nat n) s)) = n * zlen s.
Proof.
  intros Hn. replace n with (Z.of_nat (Z.to_nat n)) at 2 by lia.
  induction (Z.to_nat n) as [|k IH]; cbn [replicate concat]; [done|].
  rewrite zlen_app, IH. lia.
Qed.

Lemma zlen_reverse {A} (l : list A) : zlen (reverse l) = zlen l.
Proof. unfold zlen. by rewrite length_reverse. Qed.

Lemma putchar_holds sb c x :
  holds sb c -> w sb + 1 <= LJ_MAX_BUF ->
  exists sb', lj_buf_putchar sb x = Ok sb' /\ holds sb' (c ++ [u8 x]) /\ w sb' <= w sb + 1.
Proof.
  intros H Hl. destruct (holds_bounds sb c H) as (B1 & B2 & B3 & B4 & B5). pose proof (zlen_nonneg c).
  unfold lj_buf_putchar, lj_buf_putchar2.
  destruct (Z.ltb_spec (w sb) (sbufsz sb)) as [Hlt|Hge].
  + destruct (put_bytes_holds [u8 x] sb c H) as (sb' & E & H' & Hw' & _).
    * intros _. destruct (cow sb); [specialize (B5 eq_refl); lia|done].
    * unfold sbufleft. change (zlen [u8 x]) with 1. lia.
    * exists sb'. split; [done|]. split; [done|]. change (zlen [u8 x]) with 1 in Hw'. lia.
  + unfold LJ_MAX_BUF in *.
    destruct (lj_buf_more2_holds sb c 1 H) as (sb1 & -> & H1 & Hl1 & Hc1 & Hw1);
      [lia|unfold LJ_MAX_BUF; lia|lia|].
    cbn [mbind res_bind].
    destruct (put_bytes_holds [u8 x] sb1 c H1) as (sb' & -> & H' & Hw' & _); [done|done|].
    exists sb'. split; [done|]. split; [done|]. change (zlen [u8 x]) with 1 in Hw'. lia.
Qed.

Lemma putstr_rep_holds sb c s n :
  holds sb c -> w sb + zlen (appended (PutRep s n)) <= LJ_MAX_BUF ->
  exists sb', lj_buf_putstr_rep sb s n = Ok sb' /\ holds sb' (c ++ appended (PutRep s n)) /\
    w sb' <= w sb + zlen (appended (PutRep s n)).
Proof.
  intros H Hl. destruct (holds_bounds sb c H) as (B1 & B2 & B3 & B4 & B5).
  cbn [appended] in *. unfold lj_buf_putstr_rep. pose proof (zlen_nonneg s) as Hs0.
  destruct (Z.ltb_spec 0 n) as [Hn|Hn]; cbn [andb].
  2:{ exists sb. replace (Z.to_nat n) with 0%nat by lia. cbn. rewrite app_nil_r.
      zlen_simpl. split; [done|]. split; [done|lia]. }
  rewrite zlen_rep in * by lia. destruct (Z.eqb_spec (zlen s) 0) as [E|E]; cbn [negb].
  { exists sb. assert (s = []) as -> by (destruct s; [done|]; zlen_simpl;
      pose proof (zlen_nonneg s); lia).
    replace (concat (replicate (Z.to_nat n) [])) with (@nil Z)
      by (induction (Z.to_nat n); done).
    rewrite app_nil_r. zlen_simpl. split; [done|]. split; [done|lia]. }
  unfold LJ_MAX_BUF, LJ_MAX_STR in *. pose proof (zlen_nonneg c).
  assert (Hnl : 0 < n * zlen s) by nia.
  rewrite u64_small by (unfold in_u64; lia). rewrite u32_small by (unfold in_u32; lia).
  replace (0x7fffff00 <? n * zlen s) with false by lia.
  destruct (lj_buf_more_holds sb c (n * zlen s) H) as (sb1 & -> & H1 & Hl1 & Hc1 & Hw1);
    [lia|unfold LJ_MAX_BUF; lia|lia|]. cbn [mbind res_bind].
  destruct (rep_loop_holds s (Z.to_nat n) sb1 c H1) as (sb' & -> & H' & Hw').
  + apply Hc1. lia.
  + rewrite Z2Nat.id by lia. done.
  + exists sb'. split; [done|]. split; [done|]. rewrite Z2Nat.id in Hw' by lia. lia.
Qed.

Lemma do_put_holds sb c p :
  holds sb c -> w sb + zlen (appended p) <= LJ_MAX_BUF ->
  exists sb', do_put sb p = Ok sb' /\ holds sb' (c ++ appended p) /\
    w sb' <= w sb + zlen (appended p).
Proof.
  intros H Hl. destruct (holds_bounds sb c H) as (B1 & B2 & B3 & B4 & B5).
  assert (Hput : forall bs sz, zlen bs <= sz -> w sb + sz <= LJ_MAX_BUF ->
    exists sb', (sb ← lj_buf_more sb sz; put_bytes sb bs) = Ok sb' /\
      holds sb' (c ++ bs) /\ w sb' <= w sb + zlen bs).
  { intros bs sz Hb Hs. apply put_append; unfold LJ_MAX_BUF in *; try done; lia. }
  destruct p as [q|s|x|x|s|s|s|s n]; cbn [do_put].
  - apply (Hput q (zlen q)); [lia|done].
  - apply (Hput s (zlen s)); [lia|done].
  - apply (Hput [u8 x] 1); [done|exact Hl].
  - by apply (putchar_holds sb c x H).
  - cbn [appended] in *. rewrite zlen_reverse in *. unfold lj_buf_putstr_reverse.
    pose proof (rev_read_spec s (length s) ltac:(lia)) as Hr. rewrite take_ge in Hr by lia.
    change (Z.of_nat (length s)) with (zlen s) in Hr. rewrite Hr. cbn [chk].
    destruct (Hput (reverse s) (zlen s)) as (sb' & E & H' & Hw'); [by rewrite zlen_reverse|done|].
    exists sb'. rewrite zlen_reverse in Hw'. split; [|done].
    destruct (lj_buf_more sb (zlen s)); exact E.
  - unfold lj_buf_putstr_lower. rewrite lower_eq.
    apply (Hput (appended (PutLower s)) (zlen s)); [|cbn [appended] in Hl; by rewrite zlen_fmap in Hl].
    cbn [appended]. by rewrite zlen_fmap.
  - unfold lj_buf_putstr_upper. rewrite upper_eq.
    apply (Hput (appended (PutUpper s)) (zlen s)); [|cbn [appended] in Hl; by rewrite zlen_fmap in Hl].
    cbn [appended]. by rewrite zlen_fmap.
  - by apply putstr_rep_holds.
Qed.

(** C37: from a buffer with given contents (plain, extended, copy-on-write or
    borrowed), any sequence of put operations whose total stays within the
    buffer limit succeeds and appends exactly the intended bytes, through
    every growth, compaction and un-sharing; memory shared with a string is
    never written. *)
Theorem puts_append (ps : list put) (sb : SBuf) (c : list Z)
    (Hsb : holds sb c) (Hlim : w sb + zlen (concat (appended <$> ps)) <= LJ_MAX_BUF) :
  exists sb', do_puts sb ps = Ok sb' /\ holds sb' (c ++ concat (appended <$> ps)).
Proof.
  revert sb c Hsb Hlim. induction ps as [|p ps IH]; intros sb c H Hl; cbn [do_puts].
  - exists sb. cbn. by rewrite app_nil_r.
  - cbn [fmap list_fmap concat] in *. rewrite zlen_app in Hl.
    pose proof (zlen_nonneg (concat (appended <$> ps))).
    destruct (do_put_holds sb c p H ltac:(lia)) as (sb1 & -> & H1 & Hw1).
    cbn [mbind res_bind]. destruct (IH sb1 _ H1 ltac:(lia)) as (sb2 & E & H2).
    exists sb2. split; [done|]. by rewrite <- app_assoc in H2.
Qed.

(** A copy-on-write buffer over "ab", then three operations. *)
Lemma puts_append_witness :
  exists sb', do_puts (lj_bufx_set_cow [97; 98]) [PutUpper [99; 100]; PutRep [45] 3; PutReverse [1; 2]]
    = Ok sb' /\ holds sb' [97; 98; 67; 68; 45; 45; 45; 2; 1].
Proof.
  apply (puts_append [PutUpper [99; 100]; PutRep [45] 3; PutReverse [1; 2]]
    (lj_bufx_set_cow [97; 98]) [97; 98]).
  - exists [], []. vm_compute. intuition congruence.
  - vm_compute. congruence.
Defined.

(** Doubling a 32-bit size of 2^31 gives 0, which never reaches the target. *)
Lemma grow_size_zero fuel sz : 0 < sz -> grow_size fuel 0 sz = NoFuel.
Proof.
  intros Hs. induction fuel as [|fuel IH]; [done|]. cbn [grow_size].
  destruct (Z.ltb_spec 0 sz); [exact IH|lia].
Qed.

(** An extended buffer of 2^31 bytes whose contents and the requested
    bytes fit the limit, but whose write pointer plus the request exceed 2^31
    and whose slack is below an eighth of its size, makes [lj_buf_more] grow
    to a size its 32-bit doubling loop never reaches. *)
Theorem buf_more_diverges (sb : SBuf) (sz : Z) (fuel : nat)
    (Hext : ext sb = true) (Hsz : sbufsz sb = 2147483648)
    (Hr : 0 <= r sb < 268435456) (Hrw : r sb <= w sb)
    (Hlim : sbufxlen sb + sz <= LJ_MAX_BUF) (Hpos : 0 < sz)
    (Hover : 2147483648 < w sb + sz) :
  lj_buf_more sb sz = buf_grow sb (w sb + sz) /\
  grow_size fuel 2147483648 (w sb + sz) = NoFuel.
Proof.
  unfold LJ_MAX_BUF, sbufxlen in *. split.
  - unfold lj_buf_more, lj_buf_more2, sbufleft, sbufxlen, sbuflen, sbufxslack.
    rewrite Hext, Hsz. destruct (Z.ltb_spec (2147483648 - w sb) sz); [|lia].
    rewrite !u32_small by (unfold in_u32; lia). unfold LJ_MAX_BUF.
    replace (0x7fffff00 <? sz) with false by lia.
    replace (0x7fffff00 <? w sb - r sb + sz) with false by lia. cbn [orb].
    replace (2147483648 <? w sb - r sb + sz) with false by lia.
    change (Z.shiftr 2147483648 3) with 268435456.
    replace (r sb <? 268435456) with true by lia. by rewrite orb_true_r.
  - destruct fuel as [|fuel]; [done|]. cbn [grow_size].
    destruct (Z.ltb_spec 2147483648 (w sb + sz)); [|lia].
    change (u32 (2147483648 + 2147483648)) with 0. apply grow_size_zero. lia.
Qed.

Lemma buf_more_diverges_witness :
  exists sb, lj_buf_more sb 2048 = buf_grow sb (2147483136 + 2048) /\
    grow_size 100 2147483648 (2147483136 + 2048) = NoFuel.
Proof.
  exists (Sbuf (replicate (Z.to_nat 2147483648) None) 2147483136 4096 true false false (0, 0)).
  refine (buf_more_diverges
    (Sbuf (replicate (Z.to_nat 2147483648) None) 2147483136 4096 true false false (0, 0))
    2048 100 eq_refl _ _ _ _ _ _); unfold sbufsz, sbufxlen, LJ_MAX_BUF; cbn [mem r w];
    [rewrite zlen_replicate, Z2Nat.id; lia|lia..].
Defined.
End Buf.
