(* ===== verification/LjStrfmt.v ===== *)
(** * LjStrfmt

    String formatting ([lj_strfmt.c], [lj_strfmt.h]): the parser of format
    strings, the raw conversions of integers, pointers and ULEB128 numbers,
    and the formatted output of characters, strings and integers into string
    buffers.  A byte array that is written through a moving pointer is the
    list of the bytes written. *)
From stdpp Require Import base tactics numbers list.
From Stdlib Require Import ZArith Lia.
From S2P Require Import Prelude LjStr LjBuf.
Import Buf.
Open Scope Z_scope.

Module Strfmt.

(** ** Format indicators *)

Definition STRFMT_EOF : Z := 0.
Definition STRFMT_ERR : Z := 1.
Definition STRFMT_LIT : Z := 2.
Definition STRFMT_INT : Z := 3.
Definition STRFMT_UINT : Z := 4.
Definition STRFMT_NUM : Z := 5.
Definition STRFMT_STR : Z := 6.
Definition STRFMT_CHAR : Z := 7.
Definition STRFMT_PTR : Z := 8.

Definition STRFMT_T_HEX : Z := 0x0010.
Definition STRFMT_T_OCT : Z := 0x0020.
Definition STRFMT_T_FP_A : Z := 0x0000.
Definition STRFMT_T_FP_E : Z := 0x0010.
Definition STRFMT_T_FP_F : Z := 0x0020.
Definition STRFMT_T_FP_G : Z := 0x0030.
Definition STRFMT_T_QUOTED : Z := 0x0010.

Definition STRFMT_F_LEFT : Z := 0x0100.
Definition STRFMT_F_PLUS : Z := 0x0200.
Definition STRFMT_F_ZERO : Z := 0x0400.
Definition STRFMT_F_SPACE : Z := 0x0800.
Definition STRFMT_F_ALT : Z := 0x1000.
Definition STRFMT_F_UPPER : Z := 0x2000.

Definition STRFMT_SH_WIDTH : Z := 16.
Definition STRFMT_SH_PREC : Z := 24.

Definition STRFMT_TYPE (sf : Z) : Z := Z.land sf 15.
Definition STRFMT_WIDTH (sf : Z) : Z := Z.land (Z.shiftr sf STRFMT_SH_WIDTH) 255.
Definition STRFMT_PREC (sf : Z) : Z := u32 (Z.land (Z.shiftr sf STRFMT_SH_PREC) 255 - 1).

Definition STRFMT_A : Z := Z.lor STRFMT_NUM STRFMT_T_FP_A.
Definition STRFMT_C : Z := STRFMT_CHAR.
Definition STRFMT_D : Z := STRFMT_INT.
Definition STRFMT_E : Z := Z.lor STRFMT_NUM STRFMT_T_FP_E.
Definition STRFMT_F : Z := Z.lor STRFMT_NUM STRFMT_T_FP_F.
Definition STRFMT_G : Z := Z.lor STRFMT_NUM STRFMT_T_FP_G.
Definition STRFMT_I : Z := STRFMT_D.
Definition STRFMT_O : Z := Z.lor STRFMT_UINT STRFMT_T_OCT.
Definition STRFMT_P : Z := STRFMT_PTR.
Definition STRFMT_Q : Z := Z.lor STRFMT_STR STRFMT_T_QUOTED.
Definition STRFMT_S : Z := STRFMT_STR.
Definition STRFMT_U : Z := STRFMT_UINT.
Definition STRFMT_X : Z := Z.lor STRFMT_UINT STRFMT_T_HEX.

Definition STRFMT_MAXBUF_XINT : Z := 1 + 22.
Definition STRFMT_MAXBUF_INT : Z := 1 + 10.
Definition STRFMT_MAXBUF_PTR : Z := 2 + 2 * 8.

(** [(sf & flags)] as a condition. *)
Definition flag (sf f : Z) : bool := negb (Z.land sf f =? 0).

(** ** The format parser *)

(** From 'A' to 'x'. *)
Definition strfmt_map : list Z := [
  STRFMT_A;0;0;0;STRFMT_E;STRFMT_F;STRFMT_G;0;0;0;0;0;0;
  0;0;0;0;0;0;0;0;0;0;STRFMT_X;0;0;
  0;0;0;0;0;0;
  STRFMT_A;0;STRFMT_C;STRFMT_D;STRFMT_E;STRFMT_F;STRFMT_G;0;STRFMT_I;0;0;0;0;
  0;STRFMT_O;STRFMT_P;STRFMT_Q;0;STRFMT_S;0;STRFMT_U;0;0;STRFMT_X].

(** Positions in the memory of the format string. *)
Record FormatState := MkFS { fs_p : Z; fs_e : Z; fs_str : Z; fs_len : Z }.

Definition lj_strfmt_init (p len : Z) : FormatState := MkFS p (p + len) p 0.

Definition isdig (c : Z) : bool := u32 (c - 48) <? 10.

(** The flags; a loop round per character of ' ' to '0'. *)
Fixpoint parse_flags (fuel : nat) (m : list Z) (p sf : Z) : option (Z * Z) :=
  match fuel with
  | O => None
  | S fuel' =>
      c ← zget m p;
      if u32 (c - 32) <=? 48 - 32 then
        if c =? 45 then parse_flags fuel' m (p + 1) (Z.lor sf STRFMT_F_LEFT)
        else if c =? 43 then parse_flags fuel' m (p + 1) (Z.lor sf STRFMT_F_PLUS)
        else if c =? 48 then parse_flags fuel' m (p + 1) (Z.lor sf STRFMT_F_ZERO)
        else if c =? 32 then parse_flags fuel' m (p + 1) (Z.lor sf STRFMT_F_SPACE)
        else if c =? 35 then parse_flags fuel' m (p + 1) (Z.lor sf STRFMT_F_ALT)
        else Some (p, sf)
      else Some (p, sf)
  end.

(** At most two digits. *)
Definition parse_digits (m : list Z) (p : Z) : option (Z * Z) :=
  c ← zget m p;
  if isdig c then
    let v := c - 48 in
    d ← zget m (p + 1);
    if isdig d then Some (p + 2, d - 48 + v * 10) else Some (p + 1, v)
  else Some (p, 0).

Definition parse_width (m : list Z) (p sf : Z) : option (Z * Z) :=
  c ← zget m p;
  if isdig c then
    r ← parse_digits m p;
    Some (r.1, Z.lor sf (Z.shiftl r.2 STRFMT_SH_WIDTH))
  else Some (p, sf).

Definition parse_prec (m : list Z) (p sf : Z) : option (Z * Z) :=
  c ← zget m p;
  if c =? 46 then
    r ← parse_digits m (p + 1);
    Some (r.1, Z.lor sf (Z.shiftl (r.2 + 1) STRFMT_SH_PREC))
  else Some (p, sf).

(** Behind a '%': the indicator and the state, or the error location. *)
Definition parse_conv (m : list Z) (fs : FormatState) (p : Z) : option (Z * FormatState) :=
  r ← parse_flags (length m) m p 0;
  r ← parse_width m r.1 r.2;
  r ← parse_prec m r.1 r.2;
  let '(p, sf) := r in
  x ← zget m p;
  let c := u32 (x - 65) in
  let sx := if c <=? 120 - 65 then default 0 (zget strfmt_map c) else 0 in
  if negb (sx =? 0) then
    Some (Z.lor (Z.lor sf sx) (if Z.land c 0x20 =? 0 then STRFMT_F_UPPER else 0),
          MkFS (p + 1) (fs_e fs) (fs_str fs) (fs_len fs))
  else
    let p := if 32 <=? x then p + 1 else p in
    Some (STRFMT_ERR, MkFS (fs_e fs) (fs_e fs) (fs_str fs) (u32 (p - fs_str fs))).

Fixpoint parse_loop (fuel : nat) (m : list Z) (fs : FormatState) (p : Z) : option (Z * FormatState) :=
  let lit fp p :=
    let len := u32 (p - fs_str fs) in
    Some (if len =? 0 then STRFMT_EOF else STRFMT_LIT, MkFS fp (fs_e fs) (fs_str fs) len) in
  match fuel with
  | O => None
  | S fuel' =>
      if p <? fs_e fs then
        c ← zget m p;
        if c =? 37 then
          d ← zget m (p + 1);
          if d =? 37 then lit (p + 2) (p + 1)
          else if negb (p =? fs_str fs) then lit p p
          else parse_conv m fs (p + 1)
        else parse_loop fuel' m fs (p + 1)
      else lit p p
  end.

Definition lj_strfmt_parse (m : list Z) (fs : FormatState) : option (Z * FormatState) :=
  let p := fs_p fs in
  parse_loop (S (length m)) m (MkFS p (fs_e fs) p (fs_len fs)) p.

(** ** Raw conversions *)

(** [WINT_R]: a digit and the rest. *)
Definition WINT_R (x sh sc : Z) : Z * Z :=
  let d := Z.shiftr (u32 (x * ((Z.shiftl 1 sh + sc - 1) / sc))) sh in
  (u8 (48 + d), u32 (x - d * sc)).

(** The digits from the labels [dig1], [dig2], [dig3] of the last group on,
    and of a whole group. *)
Definition dig1 (u : Z) : list Z := [u8 (48 + u)].
Definition dig2 (u : Z) : list Z := let '(c, u) := WINT_R u 10 10 in c :: dig1 u.
Definition dig3 (u : Z) : list Z := let '(c, u) := WINT_R u 12 100 in c :: dig2 u.
Definition dig4 (u : Z) : list Z := let '(c, u) := WINT_R u 23 1000 in c :: dig3 u.

Definition lj_strfmt_wint (k : Z) : list Z :=
  let '(sign, u) := if k <? 0 then ([45], u32 (- k)) else ([], u32 k) in
  sign ++
  if u <? 10000 then
    if u <? 10 then dig1 u else if u <? 100 then dig2 u else if u <? 1000 then dig3 u else dig4 u
  else
    let v := u / 10000 in
    let u := u32 (u - v * 10000) in
    (if v <? 10000 then
       if v <? 10 then dig1 v else if v <? 100 then dig2 v else if v <? 1000 then dig3 v else dig4 v
     else
       let w := v / 10000 in
       let v := u32 (v - w * 10000) in
       (if 10 <=? w then dig2 w else dig1 w) ++ dig4 v) ++ dig4 u.

Definition hexdig (upper : bool) (d : Z) : Z :=
  if d <? 10 then 48 + d else (if upper then 65 else 97) + (d - 10).

(** [for (i = n-1; i >= 2; i--, x >>= 4) p[i] = ...], [k] digits. *)
Fixpoint wptr_loop (k : nat) (x : Z) (acc : list Z) : list Z :=
  match k with
  | O => acc
  | S k' => wptr_loop k' (Z.shiftr x 4) (hexdig false (Z.land x 15) :: acc)
  end.

Definition lj_strfmt_wptr (v : Z) : list Z :=
  let x := i64 v in
  if x =? 0 then [78; 85; 76; 76]
  else
    let hi := Z.shiftr x 32 in
    let n := 2 + 2 * 4 + (if hi =? 0 then 0 else 2 + 2 * Z.shiftr (Z.log2 (u32 hi)) 3) in
    48 :: 120 :: wptr_loop (Z.to_nat (n - 2)) x [].

(** Five bytes hold 32 bits. *)
Fixpoint wuleb_loop (fuel : nat) (v : Z) : option (list Z) :=
  match fuel with
  | O => None
  | S fuel' =>
      if 0x80 <=? v then
        rest ← wuleb_loop fuel' (Z.shiftr v 7);
        Some (u8 (Z.lor (Z.land v 0x7f) 0x80) :: rest)
      else Some [u8 v]
  end.
Definition lj_strfmt_wuleb128 (v : Z) : option (list Z) := wuleb_loop 5 v.

(** ** Output to a buffer *)

Definition lj_strfmt_putint (sb : SBuf) (k : Z) : res SBuf :=
  sb ← lj_buf_more sb STRFMT_MAXBUF_INT; put_bytes sb (lj_strfmt_wint k).

Definition lj_strfmt_putptr (sb : SBuf) (v : Z) : res SBuf :=
  sb ← lj_buf_more sb STRFMT_MAXBUF_PTR; put_bytes sb (lj_strfmt_wptr v).

(** [while (width-- > bound) *w++ = c;] with the new width. *)
Fixpoint pad (fuel : nat) (width bound c : Z) : option (list Z * Z) :=
  match fuel with
  | O => None
  | S fuel' =>
      if bound <? width then
        r ← pad fuel' (width - 1) bound c; Some (c :: r.1, r.2)
      else Some ([], u32 (width - 1))
  end.

(** A width has eight bits. *)
Definition pad_width (width bound c : Z) : option (list Z * Z) := pad 257 width bound c.

Definition lj_strfmt_putfchar (sb : SBuf) (sf c : Z) : res SBuf :=
  let width := STRFMT_WIDTH sf in
  sb ← lj_buf_more sb (if 1 <? width then width else 1);
  r ← chk (pad_width width 1 32);
  put_bytes sb ((if flag sf STRFMT_F_LEFT then [u8 c] else []) ++ r.1 ++
    (if flag sf STRFMT_F_LEFT then [] else [u8 c])).

Definition strfmt_putfstrlen (sb : SBuf) (sf : Z) (s : list Z) : res SBuf :=
  let width := STRFMT_WIDTH sf in
  let len := if STRFMT_PREC sf <? zlen s then STRFMT_PREC sf else zlen s in
  let s := take (Z.to_nat len) s in
  sb ← lj_buf_more sb (if len <? width then width else len);
  r ← chk (pad_width width len 32);
  put_bytes sb ((if flag sf STRFMT_F_LEFT then s else []) ++ r.1 ++
    (if flag sf STRFMT_F_LEFT then [] else s)).

(** *** Integers *)

(** [*--q = c] in the local buffer. *)
Definition push (c : Z) (q : list Z) : res (list Z) :=
  if zlen q <? STRFMT_MAXBUF_XINT then Ok (c :: q) else Bad.

(** [while (k >> 32) { *--q = '0' + k % 10; k /= 10; }] *)
Fixpoint dec_high (fuel : nat) (k : Z) (q : list Z) : res (Z * list Z) :=
  match fuel with
  | O => NoFuel
  | S fuel' =>
      if Z.shiftr k 32 =? 0 then Ok (k, q)
      else q ← push (u8 (48 + k mod 10)) q; dec_high fuel' (k / 10) q
  end.

(** [do { *--q = dig(k); k = next(k); } while (k);] *)
Fixpoint digits_loop (fuel : nat) (dig next : Z -> Z) (k : Z) (q : list Z) : res (list Z) :=
  match fuel with
  | O => NoFuel
  | S fuel' =>
      q ← push (dig k) q;
      let k := next k in
      if k =? 0 then Ok q else digits_loop fuel' dig next k q
  end.

(** 64 rounds are enough: each shifts or divides the number. *)
Definition fxint_digits (sf k prec prefix : Z) : res (list Z * Z) :=
  if k =? 0 then
    q ← (if negb (prec =? 0) || (Z.land sf (Z.lor STRFMT_T_OCT STRFMT_F_ALT) =? Z.lor STRFMT_T_OCT STRFMT_F_ALT)
         then push 48 [] else Ok []);
    Ok (q, prefix)
  else if negb (flag sf (Z.lor STRFMT_T_HEX STRFMT_T_OCT)) then
    r ← dec_high 65 k [];
    q ← digits_loop 65 (fun k2 => u8 (48 + k2 mod 10)) (fun k2 => k2 / 10) (u32 r.1) r.2;
    Ok (q, prefix)
  else if flag sf STRFMT_T_HEX then
    let up := flag sf STRFMT_F_UPPER in
    q ← digits_loop 65 (fun k => hexdig up (Z.land k 15)) (fun k => Z.shiftr k 4) k [];
    Ok (q, if flag sf STRFMT_F_ALT then 512 + (if up then 88 else 120) else prefix)
  else
    q ← digits_loop 65 (fun k => u8 (48 + Z.land k 7)) (fun k => Z.shiftr k 3) k [];
    q ← (if flag sf STRFMT_F_ALT then push 48 q else Ok q);
    Ok (q, prefix).

(** [(char)prefix >= 'X'] on signed characters. *)
Definition prefix_bytes (prefix : Z) : list Z :=
  if prefix =? 0 then []
  else (if 88 <=? i8 prefix then [48] else []) ++ [u8 prefix].

Definition lj_strfmt_putfxint (sb : SBuf) (sf k : Z) : res SBuf :=
  let '(k, prefix) :=
    if STRFMT_TYPE sf =? STRFMT_INT then
      if i64 k <? 0 then (u64 (- i64 k), 256 + 45)
      else if flag sf STRFMT_F_PLUS then (k, 256 + 43)
      else if flag sf STRFMT_F_SPACE then (k, 256 + 32)
      else (k, 0)
    else (k, 0) in
  let prec := STRFMT_PREC sf in
  let sf := if 0 <=? i32 prec then Z.land sf (not32 STRFMT_F_ZERO) else sf in
  r ← fxint_digits sf k prec prefix;
  let '(q, prefix) := r in
  let len := zlen q in
  let prec := if i32 prec <=? i32 len then len else prec in
  let width := STRFMT_WIDTH sf in
  let pprec := u32 (prec + Z.shiftr prefix 8) in
  let need := if pprec <? width then width else pprec in
  sb ← lj_buf_more sb need;
  let lz := Z.land sf (Z.lor STRFMT_F_LEFT STRFMT_F_ZERO) in
  a ← (if lz =? 0 then chk (pad_width width pprec 32) else Ok ([], width));
  b ← (if lz =? STRFMT_F_ZERO then chk (pad_width a.2 pprec 48) else Ok ([], a.2));
  z ← chk (pad_width prec len 48);
  c ← (if flag sf STRFMT_F_LEFT then chk (pad_width b.2 pprec 32) else Ok ([], b.2));
  put_bytes sb (a.1 ++ prefix_bytes prefix ++ b.1 ++ z.1 ++ q ++ c.1).

(** ** Numerals *)

Section numeral.
Context (base : Z) (up : bool).

(** The digits of [n], the last one first. *)
Fixpoint num_rev (fuel : nat) (n : Z) : list Z :=
  match fuel with
  | O => []
  | S fuel' => if n =? 0 then [] else hexdig up (n mod base) :: num_rev fuel' (n / base)
  end.

(** The numeral of a positive number below [2^64]. *)
Definition numeral (n : Z) : list Z := reverse (num_rev 64 n).

Context (Hb : 2 <= base).

Lemma div_base_lt n f : 0 <= n < 2 ^ Z.of_nat (S f) -> 0 <= n / base < 2 ^ Z.of_nat f.
Proof.
  rewrite Nat2Z.inj_succ, Z.pow_succ_r by lia. intros Hn. split; [apply Z.div_pos; lia|].
  apply Z.div_lt_upper_bound; [lia|]. nia.
Qed.

Lemma num_rev_fuel f1 : forall f2 n, 0 <= n < 2 ^ Z.of_nat f1 -> n < 2 ^ Z.of_nat f2 -> num_rev f1 n = num_rev f2 n.
Proof.
  induction f1 as [|f1 IH]; intros f2 n H1 H2.
  - simpl in H1. assert (n = 0) as -> by lia. by destruct f2.
  - destruct f2 as [|f2]; [simpl in H2; assert (n = 0) as -> by lia; done|]. cbn [num_rev].
    destruct (n =? 0); [done|]. f_equal. apply IH; [by apply div_base_lt|]. apply (div_base_lt n f2). lia.
Qed.

Lemma num_rev_len f : forall n j, 0 <= n < base ^ Z.of_nat j -> zlen (num_rev f n) <= Z.of_nat j.
Proof.
  induction f as [|f IH]; intros n j Hn; cbn [num_rev]; [change (zlen (@nil Z)) with 0; lia|].
  destruct (n =? 0) eqn:E; [change (zlen (@nil Z)) with 0; lia|]. destruct j as [|j]; [simpl in Hn; lia|].
  rewrite zlen_cons. specialize (IH (n / base) j). rewrite Nat2Z.inj_succ, Z.pow_succ_r in Hn by lia.
  assert (0 <= n / base < base ^ Z.of_nat j); [|lia]. split; [apply Z.div_pos; lia|]. apply Z.div_lt_upper_bound; lia.
Qed.

(** The value of a numeral, read from the front. *)
Lemma numeral_step n : 0 < n < 2 ^ 64 ->
  numeral n = (if n / base =? 0 then [] else numeral (n / base)) ++ [hexdig up (n mod base)].
Proof.
  intros Hn. unfold numeral. assert (num_rev 64 n = hexdig up (n mod base) :: num_rev 63 (n / base)) as E.
  { cbn [num_rev]. by destruct (n =? 0) eqn:E; [lia|]. }
  pose proof (div_base_lt n 63) as Hd. change (Z.of_nat 64) with 64 in Hd. specialize (Hd ltac:(lia)).
  rewrite E, reverse_cons. f_equal. rewrite (num_rev_fuel 63 64); [|done|].
  - destruct (n / base =? 0) eqn:E0; [|done]. assert (n / base = 0) as -> by lia. done.
  - change (2 ^ Z.of_nat 63) with (2 ^ 63) in Hd. change (2 ^ Z.of_nat 64) with (2 ^ 64). lia.
Qed.

(** The conversion loops write the numeral. *)
Lemma digits_loop_spec dig next f : (forall n, 0 <= n -> dig n = hexdig up (n mod base) /\ next n = n / base) ->
  forall n q, 0 < n < 2 ^ Z.of_nat f -> zlen q + zlen (num_rev f n) <= STRFMT_MAXBUF_XINT ->
  digits_loop f dig next n q = Ok (reverse (num_rev f n) ++ q).
Proof.
  intros Hd. induction f as [|f IH]; intros n q Hn Hq; [simpl in Hn; lia|]. cbn [digits_loop num_rev] in *.
  destruct (Hd n) as [-> ->]; [lia|]. destruct (n =? 0) eqn:E0; [lia|]. rewrite zlen_cons in Hq.
  pose proof (zlen_nonneg (num_rev f (n / base))). unfold push.
  replace (zlen q <? STRFMT_MAXBUF_XINT) with true by lia. cbn [mbind res_bind].
  rewrite reverse_cons, <- app_assoc. pose proof (div_base_lt n f ltac:(lia)).
  destruct (n / base =? 0) eqn:E1.
  - assert (n / base = 0) as -> by lia. by destruct f.
  - apply (IH (n / base) (hexdig up (n mod base) :: q)); [lia|]. rewrite zlen_cons. lia.
Qed.
End numeral.

(** *** Decimal *)

Definition dec : Z -> list Z := numeral 10 false.

Lemma dec_step n : 0 < n < 2 ^ 64 -> dec n = (if n / 10 =? 0 then [] else dec (n / 10)) ++ [48 + n mod 10].
Proof.
  intros Hn. unfold dec. rewrite numeral_step by lia. unfold hexdig.
  pose proof (Z.mod_pos_bound n 10). by replace (n mod 10 <? 10) with true by lia.
Qed.

(** [k] digits with leading zeros. *)
Fixpoint dec_fixed (k : nat) (n : Z) : list Z :=
  match k with O => [] | S k' => dec_fixed k' (n / 10) ++ [48 + n mod 10] end.

Lemma dec_split k : forall n m, 0 < n -> 0 <= m < 10 ^ Z.of_nat k -> n * 10 ^ Z.of_nat k + m < 2 ^ 64 ->
  dec (n * 10 ^ Z.of_nat k + m) = dec n ++ dec_fixed k m.
Proof.
  induction k as [|k IH]; intros n m Hn Hm Hl; cbn [dec_fixed].
  - simpl in *. rewrite app_nil_r. f_equal. lia.
  - rewrite Nat2Z.inj_succ, Z.pow_succ_r in * by lia. assert (0 < 10 ^ Z.of_nat k) as Hp by (apply Z.pow_pos_nonneg; lia).
    rewrite dec_step by nia.
    assert ((n * (10 * 10 ^ Z.of_nat k) + m) / 10 = n * 10 ^ Z.of_nat k + m / 10) as ->.
    { replace (n * (10 * 10 ^ Z.of_nat k) + m) with (m + (n * 10 ^ Z.of_nat k) * 10) by lia. rewrite Z.div_add by lia. lia. }
    assert ((n * (10 * 10 ^ Z.of_nat k) + m) mod 10 = m mod 10) as ->.
    { replace (n * (10 * 10 ^ Z.of_nat k) + m) with (m + (n * 10 ^ Z.of_nat k) * 10) by lia. by rewrite Z.mod_add by lia. }
    assert (0 <= m / 10 < 10 ^ Z.of_nat k) as Hd by (split; [apply Z.div_pos; lia|apply Z.div_lt_upper_bound; lia]).
    assert (m / 10 <= m) by (apply Z.div_le_upper_bound; lia).
    destruct (n * 10 ^ Z.of_nat k + m / 10 =? 0) eqn:E; [nia|]. rewrite IH by nia. by rewrite app_assoc.
Qed.

(** The multiplications of [WINT_R] divide exactly on their ranges. *)
Definition group_ok (u : Z) : bool :=
  bool_decide (dig4 u = dec_fixed 4 u) &&
  (negb (1 <=? u) || bool_decide ((if u <? 10 then dig1 u else if u <? 100 then dig2 u else if u <? 1000 then dig3 u else dig4 u) = dec u)).

Lemma groups_ok : forallb group_ok (seqZ 0 10000) = true.
Proof. by vm_compute. Qed.

Lemma group_spec u : 0 <= u < 10000 -> dig4 u = dec_fixed 4 u /\
  (1 <= u -> (if u <? 10 then dig1 u else if u <? 100 then dig2 u else if u <? 1000 then dig3 u else dig4 u) = dec u).
Proof.
  intros Hu. pose proof groups_ok as H. rewrite forallb_forall in H. specialize (H u).
  assert (In u (seqZ 0 10000)) as Hin by (apply list_elem_of_In, elem_of_seqZ; lia).
  apply H, andb_prop in Hin as [H1 H2]. apply bool_decide_eq_true in H1. split; [done|]. intros Hu1.
  destruct (1 <=? u) eqn:E; [|lia]. by apply bool_decide_eq_true in H2.
Qed.


(** The digits without the sign. *)
Definition wint_digits (u : Z) : list Z :=
  if u <? 10000 then
    if u <? 10 then dig1 u else if u <? 100 then dig2 u else if u <? 1000 then dig3 u else dig4 u
  else
    let v := u / 10000 in
    let u := u32 (u - v * 10000) in
    (if v <? 10000 then
       if v <? 10 then dig1 v else if v <? 100 then dig2 v else if v <? 1000 then dig3 v else dig4 v
     else
       let w := v / 10000 in
       let v := u32 (v - w * 10000) in
       (if 10 <=? w then dig2 w else dig1 w) ++ dig4 v) ++ dig4 u.

Lemma wint_digits_spec u : 0 < u <= 2147483648 -> wint_digits u = dec u.
Proof.
  intros Hu. unfold wint_digits. destruct (u <? 10000) eqn:E1; [apply (proj2 (group_spec u ltac:(lia))); lia|].
  cbv zeta. set (v := u / 10000). assert (0 < v <= 214748) as Hv by (unfold v; zlia).
  assert (u - v * 10000 = u mod 10000) as -> by (unfold v; rewrite Z.mod_eq; lia).
  assert (0 <= u mod 10000 < 10000) as Hm by (apply Z.mod_pos_bound; lia).
  rewrite (u32_small (u mod 10000)) by (unfold in_u32; lia). rewrite (proj1 (group_spec (u mod 10000) ltac:(lia))).
  assert (u = v * 10 ^ Z.of_nat 4 + u mod 10000) as Eu.
  { change (10 ^ Z.of_nat 4) with 10000. unfold v. pose proof (Z.div_mod u 10000). lia. }
  rewrite Eu at 2. rewrite dec_split by (rewrite <- ?Eu; change (10 ^ Z.of_nat 4) with 10000; lia). f_equal.
  destruct (v <? 10000) eqn:E2; [apply (proj2 (group_spec v ltac:(lia))); lia|].
  set (w := v / 10000). assert (0 < w <= 21) as Hw by (unfold w; zlia).
  assert (v - w * 10000 = v mod 10000) as -> by (unfold w; rewrite Z.mod_eq; lia).
  assert (0 <= v mod 10000 < 10000) as Hm2 by (apply Z.mod_pos_bound; lia).
  rewrite u32_small by (unfold in_u32; lia). rewrite (proj1 (group_spec (v mod 10000) ltac:(lia))).
  assert (v = w * 10 ^ Z.of_nat 4 + v mod 10000) as Ev.
  { change (10 ^ Z.of_nat 4) with 10000. unfold w. pose proof (Z.div_mod v 10000). lia. }
  rewrite Ev at 2. rewrite dec_split by (rewrite <- ?Ev; change (10 ^ Z.of_nat 4) with 10000; lia). f_equal.
  destruct (group_spec w ltac:(lia)) as [_ <-]; [|lia].
  destruct (10 <=? w) eqn:E3; [replace (w <? 10) with false by lia|by replace (w <? 10) with true by lia].
  by replace (w <? 100) with true by lia.
Qed.

Lemma dec_len n : 0 <= n <= 2147483648 -> zlen (dec n) <= 10.
Proof.
  intros Hn. unfold dec, numeral. rewrite zlen_reverse. apply (num_rev_len 10 false ltac:(lia) 64 n 10).
  change (10 ^ Z.of_nat 10) with 10000000000. lia.
Qed.

Lemma wint_text k : in_i32 k ->
  lj_strfmt_wint k = (if k <? 0 then [45] else []) ++ (if k =? 0 then [48] else dec (Z.abs k)).
Proof.
  intros Hk. unfold in_i32 in Hk.
  assert (lj_strfmt_wint k = (if k <? 0 then [45] else []) ++ wint_digits (Z.abs k)) as E.
  { unfold lj_strfmt_wint. destruct (k <? 0) eqn:E; rewrite u32_small by (unfold in_u32; lia);
      [by replace (Z.abs k) with (- k) by lia|by replace (Z.abs k) with k by lia]. }
  rewrite E. destruct (k =? 0) eqn:E0; [by assert (k = 0) as -> by lia|]. by rewrite wint_digits_spec by lia.
Qed.

(** [lj_strfmt_wint] writes the decimal numeral.  For every 32-bit
    integer the digits found by multiplication and shift, four at a time, are
    those of repeated division by ten, behind a minus sign for a negative
    number; they fit the eleven bytes that are reserved. *)
Theorem strfmt_wint_decimal k : in_i32 k ->
  lj_strfmt_wint k = (if k <? 0 then [45] else []) ++ (if k =? 0 then [48] else dec (Z.abs k)) /\
  zlen (lj_strfmt_wint k) <= STRFMT_MAXBUF_INT.
Proof.
  intros Hk. rewrite wint_text by done. split; [done|]. unfold in_i32 in Hk. pose proof (dec_len (Z.abs k) ltac:(lia)).
  rewrite zlen_app. unfold STRFMT_MAXBUF_INT.
  destruct (k <? 0), (k =? 0); try change (zlen [45]) with 1; try change (zlen [48]) with 1;
    try change (zlen (@nil Z)) with 0; lia.
Qed.

Lemma strfmt_wint_decimal_witness : lj_strfmt_wint (-2147483648) = [45; 50; 49; 52; 55; 52; 56; 51; 54; 52; 56].
Proof.
  assert (in_i32 (-2147483648)) as H by (unfold in_i32; lia).
  rewrite (proj1 (strfmt_wint_decimal (-2147483648) H)). vm_compute. reflexivity.
Defined.

(** ** ULEB128 *)

Lemma lor_high a x n : 0 <= n -> 0 <= a < 2 ^ n -> Z.lor a (Z.shiftl x n) = a + x * 2 ^ n.
Proof.
  intros Hn Ha. rewrite <- Z.shiftl_mul_pow2 by done. symmetry. apply Z.add_nocarry_lor. apply Z.bits_inj'.
  intros i Hi. rewrite Z.land_spec, Z.bits_0. destruct (Z.lt_ge_cases i n).
  - by rewrite Z.shiftl_spec_low, andb_false_r.
  - rewrite <- (Z.mod_small a (2 ^ n)) by done. by rewrite Z.mod_pow2_bits_high.
Qed.

(** A continuation byte. *)
Lemma uleb_byte v : 0 <= v -> u8 (Z.lor (Z.land v 0x7f) 0x80) = v mod 128 + 128.
Proof.
  intros Hv. change 0x7f with (2 ^ 7 - 1). rewrite land_pow2_mask by lia. change (2 ^ 7) with 128.
  assert (0 <= v mod 128 < 128) as Hm by (apply Z.mod_pos_bound; lia).
  pose proof (lor_high (v mod 128) 1 7 ltac:(lia) Hm) as E. change (Z.shiftl 1 7) with 128 in E. rewrite E.
  change (1 * 2 ^ 7) with 128. apply u8_small. unfold in_u8. lia.
Qed.

Lemma uleb_strip v : 0 <= v -> Z.land (v mod 128 + 128) 0x7f = v mod 128.
Proof.
  intros Hv. change 0x7f with (2 ^ 7 - 1). rewrite land_pow2_mask by lia. change (2 ^ 7) with 128.
  rewrite <- (Z.mul_1_l 128) at 2. rewrite Z.mod_add by lia. apply Z.mod_mod. lia.
Qed.

Lemma ruleb_loop_spec f : forall v bytes pre post u sh fuel, 0 <= v -> wuleb_loop f v = Some bytes ->
  0 <= sh -> 0 <= u < 2 ^ (sh + 7) -> u + v * 2 ^ (sh + 7) < 2 ^ 32 -> (length bytes <= fuel)%nat ->
  ruleb_loop fuel (pre ++ bytes ++ post) (zlen pre) u sh = Some (u + v * 2 ^ (sh + 7), zlen pre + zlen bytes).
Proof.
  induction f as [|f IH]; intros v bytes pre post u sh fuel Hv E Hsh Hu Hlim Hf; [done|].
  destruct fuel as [|fuel].
  { exfalso. cbn [wuleb_loop] in E. destruct (0x80 <=? v); [|injection E as <-; simpl in Hf; lia].
    destruct (wuleb_loop f _); [|done]. injection E as <-. simpl in Hf. lia. }
  cbn [wuleb_loop ruleb_loop] in *.
  assert (0 < 2 ^ (sh + 7)) as Hp by (apply Z.pow_pos_nonneg; lia).
  assert (forall x, 0 <= x -> u + x * 2 ^ (sh + 7) < 2 ^ 32 ->
    Z.lor u (u32 (Z.shiftl x (sh + 7))) = u + x * 2 ^ (sh + 7)) as Hor.
  { intros x Hx Hxl. rewrite u32_small; [by apply lor_high; lia|]. rewrite Z.shiftl_mul_pow2 by lia. unfold in_u32. nia. }
  destruct (0x80 <=? v) eqn:Ev.
  - destruct (wuleb_loop f (Z.shiftr v 7)) as [rest|] eqn:Er; [|done]. injection E as <-.
    rewrite uleb_byte by done. cbn [app]. rewrite zget_middle. cbn [mbind option_bind].
    rewrite Z.shiftr_div_pow2 in Er by lia. change (2 ^ 7) with 128 in Er.
    pose proof (Z.div_mod v 128) as Hdm. assert (0 <= v mod 128 < 128) as Hm by (apply Z.mod_pos_bound; lia).
    assert (0 <= v / 128) as Hd by (apply Z.div_pos; lia).
    replace (128 <=? v mod 128 + 128) with true by lia. rewrite uleb_strip by done.
    assert (2 ^ (sh + 7 + 7) = 128 * 2 ^ (sh + 7)) as Ep by (rewrite (Z.pow_add_r 2 (sh + 7) 7) by lia; lia).
    rewrite Hor by nia.
    specialize (IH (v / 128) rest (pre ++ [v mod 128 + 128]) post (u + v mod 128 * 2 ^ (sh + 7)) (sh + 7) fuel).
    rewrite zlen_app, <- app_assoc in IH. change (zlen [v mod 128 + 128]) with 1 in IH. cbn [app] in IH.
    simpl in Hf. rewrite IH by (done || lia || nia). rewrite zlen_cons. f_equal. f_equal; [nia|lia].
  - injection E as <-. rewrite u8_small by (unfold in_u8; lia). cbn [app]. rewrite zget_middle. cbn [mbind option_bind].
    replace (128 <=? v) with false by lia.
    assert (Z.land v 0x7f = v) as ->.
    { change 0x7f with (2 ^ 7 - 1). rewrite land_pow2_mask by lia. apply Z.mod_small. change (2 ^ 7) with 128. lia. }
    rewrite Hor by lia. done.
Qed.

Lemma wuleb_S f v : wuleb_loop (S f) v =
  if 0x80 <=? v then rest ← wuleb_loop f (Z.shiftr v 7); Some (u8 (Z.lor (Z.land v 0x7f) 0x80) :: rest) else Some [u8 v].
Proof. done. Qed.

Lemma wuleb_some f : forall v, 0 <= v < 2 ^ (7 * Z.of_nat (S f)) ->
  exists bytes, wuleb_loop (S f) v = Some bytes /\ 1 <= zlen bytes <= Z.of_nat (S f).
Proof.
  induction f as [|f IH]; intros v Hv; cbn [wuleb_loop]; destruct (0x80 <=? v) eqn:E.
  - exfalso. change (2 ^ (7 * Z.of_nat 1)) with 128 in Hv. lia.
  - exists [u8 v]. split; [done|]. change (zlen [u8 v]) with 1. lia.
  - rewrite Z.shiftr_div_pow2 by lia. destruct (IH (v / 2 ^ 7)) as (bytes & Eb & Hl).
    + split; [apply Z.div_pos; lia|]. apply Z.div_lt_upper_bound; [lia|]. rewrite <- Z.pow_add_r by lia.
      replace (7 + 7 * Z.of_nat (S f)) with (7 * Z.of_nat (S (S f))) by lia. lia.
    + cbn [wuleb_loop] in Eb. rewrite Eb. cbn [mbind option_bind]. eexists. split; [done|]. rewrite zlen_cons. lia.
  - exists [u8 v]. split; [done|]. change (zlen [u8 v]) with 1. lia.
Qed.

(** ULEB128 round trip.  Every 32-bit number is written in at most five
    bytes, and [lj_buf_ruleb128] at their start, whatever precedes and
    follows, gives the number and the position behind them. *)
Theorem uleb128_roundtrip v pre post : in_u32 v -> exists bytes, lj_strfmt_wuleb128 v = Some bytes /\
  1 <= zlen bytes <= 5 /\ lj_buf_ruleb128 (pre ++ bytes ++ post) (zlen pre) = Some (v, zlen pre + zlen bytes).
Proof.
  intros Hv. unfold in_u32 in Hv. unfold lj_strfmt_wuleb128.
  destruct (wuleb_some 4 v) as (bytes & E & Hl); [change (2 ^ (7 * Z.of_nat 5)) with 34359738368; lia|].
  exists bytes. split; [done|]. split; [lia|]. unfold lj_buf_ruleb128. rewrite wuleb_S in E.
  destruct (0x80 <=? v) eqn:Ev.
  - destruct (wuleb_loop 4 (Z.shiftr v 7)) as [rest|] eqn:Er; [|done]. injection E as <-.
    rewrite uleb_byte by lia. cbn [app]. rewrite zget_middle. cbn [mbind option_bind].
    assert (0 <= v mod 128 < 128) as Hm by (apply Z.mod_pos_bound; lia).
    replace (128 <=? v mod 128 + 128) with true by lia. rewrite uleb_strip by lia.
    assert (Z.shiftr v 7 = v / 128) as E7 by (rewrite Z.shiftr_div_pow2 by lia; done). rewrite E7 in Er.
    pose proof (Z.div_mod v 128) as Hdm. assert (0 <= v / 128) as Hd by (apply Z.div_pos; lia).
    pose proof (ruleb_loop_spec 4 (v / 128) rest (pre ++ [v mod 128 + 128]) post (v mod 128) 0) as HR.
    rewrite zlen_app, <- app_assoc in HR. change (zlen [v mod 128 + 128]) with 1 in HR. cbn [app] in HR.
    change (2 ^ (0 + 7)) with 128 in HR. rewrite HR; try done; try lia.
    + rewrite zlen_cons. f_equal. f_equal; lia.
    + rewrite !length_app. simpl. rewrite length_app. lia.
  - injection E as <-. rewrite u8_small by (unfold in_u8; lia). cbn [app]. rewrite zget_middle. cbn [mbind option_bind].
    by replace (128 <=? v) with false by lia.
Qed.

Lemma uleb128_roundtrip_witness : exists bytes,
  lj_strfmt_wuleb128 300 = Some bytes /\ lj_buf_ruleb128 ([7] ++ bytes ++ [9]) 1 = Some (300, 1 + zlen bytes).
Proof.
  destruct (uleb128_roundtrip 300 [7] [9]) as (bytes & E & _ & H); [split; [discriminate|reflexivity]|].
  exists bytes. split; [exact E|exact H].
Defined.
End Strfmt.
