(* ===== verification/LjStrfmtSpec.v ===== *)
(** * LjStrfmtSpec

    Formatted integers are what the C library prints for the same
    conversion, and the parser of format strings makes progress inside the
    string. *)
From stdpp Require Import base tactics numbers list.
From Stdlib Require Import ZArith Lia.
From S2P Require Import Prelude LjBuf LjStrfmt.
Import Buf Strfmt.
Open Scope Z_scope.

Module StrfmtSpec.

(** ** The reference *)

(** A precision is given. *)
Definition hasprec (sf : Z) : bool := STRFMT_PREC sf <? 255.

Definition spaces (n : Z) : list Z := replicate (Z.to_nat n) 32.
Definition zeros (n : Z) : list Z := replicate (Z.to_nat n) 48.

(** The integer conversions of [printf]: sign or radix prefix, precision as
    the least number of digits, then padding to the width. *)
Definition printf_int (sf k : Z) : list Z :=
  let signed := STRFMT_TYPE sf =? STRFMT_INT in
  let n := if signed then Z.abs (i64 k) else k in
  let hex := flag sf STRFMT_T_HEX in
  let oct := flag sf STRFMT_T_OCT in
  let alt := flag sf STRFMT_F_ALT in
  let up := flag sf STRFMT_F_UPPER in
  let sign :=
    if signed then
      if i64 k <? 0 then [45] else if flag sf STRFMT_F_PLUS then [43] else if flag sf STRFMT_F_SPACE then [32] else []
    else [] in
  let prefix := if hex && alt && negb (n =? 0) then [48; if up then 88 else 120] else sign in
  let digits :=
    if n =? 0 then if (STRFMT_PREC sf =? 0) && negb (oct && alt) then [] else [48]
    else if hex then numeral 16 up n
    else if oct then (if alt then [48] else []) ++ numeral 8 false n
    else numeral 10 false n in
  let body := (if hasprec sf then zeros (STRFMT_PREC sf - zlen digits) else []) ++ digits in
  let gap := STRFMT_WIDTH sf - zlen (prefix ++ body) in
  if flag sf STRFMT_F_LEFT then prefix ++ body ++ spaces gap
  else if flag sf STRFMT_F_ZERO && negb (hasprec sf) then prefix ++ zeros gap ++ body
  else spaces gap ++ prefix ++ body.

(** ** Flags *)

Lemma land_bit x i : 0 <= i -> Z.land x (2 ^ i) = if Z.testbit x i then 2 ^ i else 0.
Proof.
  intros Hi. apply Z.bits_inj'. intros j Hj. rewrite Z.land_spec, Z.pow2_bits_eqb by done.
  destruct (i =? j) eqn:E.
  - apply Z.eqb_eq in E as <-. rewrite andb_true_r. destruct (Z.testbit x i) eqn:Et; [by rewrite Z.pow2_bits_true|by rewrite Z.bits_0].
  - rewrite andb_false_r. destruct (Z.testbit x i); [rewrite Z.pow2_bits_eqb, E by done; done|by rewrite Z.bits_0].
Qed.

Lemma flag_bit x i : 0 <= i -> flag x (2 ^ i) = Z.testbit x i.
Proof.
  intros Hi. unfold flag. rewrite land_bit by done. assert (0 < 2 ^ i) by (apply Z.pow_pos_nonneg; lia).
  destruct (Z.testbit x i); [|done]. by replace (2 ^ i =? 0) with false by lia.
Qed.

Lemma land_two x i j : 0 <= i < j -> Z.land x (2 ^ i + 2 ^ j) = (if flag x (2 ^ i) then 2 ^ i else 0) + (if flag x (2 ^ j) then 2 ^ j else 0).
Proof.
  intros Hij. rewrite !flag_bit by lia. rewrite <- !land_bit by lia.
  assert (0 < 2 ^ i) by (apply Z.pow_pos_nonneg; lia). assert (2 ^ i < 2 ^ j) by (apply Z.pow_lt_mono_r; lia).
  assert (2 ^ i + 2 ^ j = Z.lor (2 ^ i) (2 ^ j)) as ->.
  { rewrite <- (Z.mul_1_l (2 ^ j)), <- lor_high by lia. f_equal. rewrite Z.shiftl_mul_pow2 by lia. lia. }
  rewrite Z.land_lor_distr_r. rewrite !land_bit by lia.
  destruct (Z.testbit x i), (Z.testbit x j); rewrite ?Z.lor_0_r, ?Z.lor_0_l; try lia.
  rewrite <- (Z.mul_1_l (2 ^ j)) at 2. rewrite <- lor_high by lia. f_equal. rewrite Z.shiftl_mul_pow2 by lia. lia.
Qed.

(** Clearing the zero flag leaves the other flags and fields. *)
Lemma clear_zero_land sf f : Z.land (not32 STRFMT_F_ZERO) f = f -> Z.land (Z.land sf (not32 STRFMT_F_ZERO)) f = Z.land sf f.
Proof. intros E. by rewrite <- Z.land_assoc, E. Qed.

Lemma clear_zero_flag sf : flag (Z.land sf (not32 STRFMT_F_ZERO)) STRFMT_F_ZERO = false.
Proof. unfold flag. rewrite <- Z.land_assoc. change (Z.land (not32 STRFMT_F_ZERO) STRFMT_F_ZERO) with 0. by rewrite Z.land_0_r. Qed.

Lemma clear_zero_width sf : STRFMT_WIDTH (Z.land sf (not32 STRFMT_F_ZERO)) = STRFMT_WIDTH sf.
Proof.
  unfold STRFMT_WIDTH, STRFMT_SH_WIDTH. rewrite Z.shiftr_land, <- Z.land_assoc. f_equal.
Qed.

(** ** Fields *)

Lemma prec_cases sf : exists p, 0 <= p < 256 /\ STRFMT_PREC sf = u32 (p - 1) /\
  (hasprec sf = true -> 0 <= STRFMT_PREC sf < 255 /\ i32 (STRFMT_PREC sf) = STRFMT_PREC sf) /\
  (hasprec sf = false -> i32 (STRFMT_PREC sf) = -1 /\ STRFMT_PREC sf <> 0).
Proof.
  unfold hasprec, STRFMT_PREC. set (p := Z.land (Z.shiftr sf STRFMT_SH_PREC) 255).
  assert (0 <= p < 256) as Hp.
  { unfold p. change 255 with (2 ^ 8 - 1). rewrite land_pow2_mask by lia. apply Z.mod_pos_bound. lia. }
  exists p. split; [done|]. split; [done|]. destruct (Z.eq_dec p 0) as [->|Hne].
  - change (u32 (0 - 1)) with 4294967295. split; [done|]. intros _. split; [done|lia].
  - rewrite u32_small by (unfold in_u32; lia). split.
    + intros H. split; [lia|]. apply i32_small. unfold in_i32. lia.
    + intros H. lia.
Qed.

Lemma width_range sf : 0 <= STRFMT_WIDTH sf < 256.
Proof.
  unfold STRFMT_WIDTH. change 255 with (2 ^ 8 - 1). rewrite land_pow2_mask by lia. apply Z.mod_pos_bound. lia.
Qed.

Lemma pad_spec fuel : forall width bound c, Z.max 0 (width - bound) < Z.of_nat fuel ->
  exists r, pad fuel width bound c = Some (replicate (Z.to_nat (width - bound)) c, r).
Proof.
  induction fuel as [|fuel IH]; intros width bound c Hf; cbn [pad]; [lia|].
  destruct (bound <? width) eqn:E.
  - destruct (IH (width - 1) bound c) as (r & ->); [lia|]. exists r. cbn [mbind option_bind fst snd].
    replace (Z.to_nat (width - bound)) with (S (Z.to_nat (width - 1 - bound))) by lia. done.
  - exists (u32 (width - 1)). by replace (Z.to_nat (width - bound)) with 0%nat by lia.
Qed.

Lemma pad_width_spec width bound c : width - bound <= 256 ->
  exists r, pad_width width bound c = Some (replicate (Z.to_nat (width - bound)) c, r).
Proof. intros H. apply pad_spec. lia. Qed.

(** ** Digits *)

Lemma num_rev_S base up f n : n <> 0 -> num_rev base up (S f) n = hexdig up (n mod base) :: num_rev base up f (n / base).
Proof. intros Hn. cbn [num_rev]. by destruct (n =? 0) eqn:E; [lia|]. Qed.

(** Another step without counting the fuel. *)
Lemma num_rev_step base up n : 2 <= base -> 0 < n < 2 ^ 64 ->
  num_rev base up 64 n = hexdig up (n mod base) :: num_rev base up 64 (n / base).
Proof.
  intros Hb Hn. pose proof (div_base_lt base Hb n 63) as Hd. change (Z.of_nat 64) with 64 in Hd.
  specialize (Hd ltac:(lia)). change (2 ^ Z.of_nat 63) with (2 ^ 63) in Hd.
  rewrite (num_rev_S base up 63) by lia. rewrite (num_rev_fuel base up Hb 63 64 (n / base)); [reflexivity|exact Hd|].
  change (2 ^ Z.of_nat 64) with (2 ^ 64). lia.
Qed.

Lemma hexdig_dec d : 0 <= d < 10 -> hexdig false d = 48 + d.
Proof. intros H. unfold hexdig. by replace (d <? 10) with true by lia. Qed.

Lemma dec_high_spec f : forall k q, 0 < k < 2 ^ Z.of_nat f -> k < 2 ^ 64 ->
  zlen q + zlen (num_rev 10 false 64 k) <= STRFMT_MAXBUF_XINT ->
  exists k' ds, dec_high (S f) k q = Ok (k', reverse ds ++ q) /\ 0 < k' < 2 ^ 32 /\
  num_rev 10 false 64 k = ds ++ num_rev 10 false 64 k'.
Proof.
  induction f as [|f IH]; intros k q Hk Hl Hq; [simpl in Hk; lia|].
  change (dec_high (S (S f)) k q) with (if Z.shiftr k 32 =? 0 then Ok (k, q)
    else q ← push (u8 (48 + k mod 10)) q; dec_high (S f) (k / 10) q).
  rewrite Z.shiftr_div_pow2 by lia. destruct (k / 2 ^ 32 =? 0) eqn:E.
  - exists k, []. split; [done|]. split; [|done]. assert (k / 2 ^ 32 = 0) as E0 by lia.
    apply Z.div_small_iff in E0; lia.
  - rewrite num_rev_step in Hq by lia. rewrite zlen_cons in Hq.
    pose proof (zlen_nonneg (num_rev 10 false 64 (k / 10))). unfold push.
    replace (zlen q <? STRFMT_MAXBUF_XINT) with true by lia. cbn [mbind res_bind].
    assert (0 <= k mod 10 < 10) as Hm by (apply Z.mod_pos_bound; lia).
    rewrite u8_small by (unfold in_u8; lia).
    assert (2 ^ 32 <= k) as Hk32.
    { destruct (Z.lt_ge_cases k (2 ^ 32)); [|done]. rewrite Z.div_small in E by lia. lia. }
    pose proof (div_base_lt 10 ltac:(lia) k f ltac:(lia)) as Hd.
    assert (0 < k / 10) as Hd0 by (apply Z.div_str_pos; lia).
    assert (k / 10 <= k) by (apply Z.div_le_upper_bound; lia).
    destruct (IH (k / 10) (48 + k mod 10 :: q)) as (k' & ds & -> & Hk' & E2); [lia|lia|rewrite zlen_cons; lia|].
    exists k', (48 + k mod 10 :: ds). split; [by rewrite reverse_cons, <- app_assoc|]. split; [done|].
    rewrite num_rev_step, hexdig_dec by lia. by rewrite E2.
Qed.

(** The digits of the reference. *)
Definition digits_ref (sf n : Z) : list Z :=
  if n =? 0 then if (STRFMT_PREC sf =? 0) && negb (flag sf STRFMT_T_OCT && flag sf STRFMT_F_ALT) then [] else [48]
  else if flag sf STRFMT_T_HEX then numeral 16 (flag sf STRFMT_F_UPPER) n
  else if flag sf STRFMT_T_OCT then (if flag sf STRFMT_F_ALT then [48] else []) ++ numeral 8 false n
  else numeral 10 false n.

Lemma numeral_len base up n j : 2 <= base -> 0 <= n < base ^ Z.of_nat j -> zlen (numeral base up n) <= Z.of_nat j.
Proof. intros Hb Hn. unfold numeral. rewrite zlen_reverse. by apply num_rev_len. Qed.

Lemma digits_ref_len sf n : in_u64 n -> zlen (digits_ref sf n) <= STRFMT_MAXBUF_XINT.
Proof.
  intros Hn. unfold in_u64 in Hn. unfold digits_ref, STRFMT_MAXBUF_XINT.
  destruct (n =? 0); [by destruct (_ && _)|]. destruct (flag sf STRFMT_T_HEX).
  { pose proof (numeral_len 16 (flag sf STRFMT_F_UPPER) n 16). change (16 ^ Z.of_nat 16) with 18446744073709551616 in *. lia. }
  destruct (flag sf STRFMT_T_OCT).
  - pose proof (numeral_len 8 false n 22) as H. change (8 ^ Z.of_nat 22) with 73786976294838206464 in H. rewrite zlen_app.
    destruct (flag sf STRFMT_F_ALT); [change (zlen [48]) with 1|change (zlen (@nil Z)) with 0]; lia.
  - pose proof (numeral_len 10 false n 20) as H. change (10 ^ Z.of_nat 20) with 100000000000000000000 in H. lia.
Qed.

(** One of the loops in the octal and hexadecimal branches. *)
Lemma radix_loop base up dig next n : 2 <= base -> in_u64 n -> n <> 0 ->
  (forall n, 0 <= n -> dig n = hexdig up (n mod base) /\ next n = n / base) ->
  zlen (numeral base up n) <= STRFMT_MAXBUF_XINT ->
  digits_loop 65 dig next n [] = Ok (numeral base up n).
Proof.
  intros Hb Hn Hn0 Hd Hl. unfold in_u64 in Hn. unfold numeral in *. rewrite zlen_reverse in Hl.
  assert (num_rev base up 65 n = num_rev base up 64 n) as E.
  { apply num_rev_fuel; [done|change (2 ^ Z.of_nat 65) with (2 ^ 65); lia|change (2 ^ Z.of_nat 64) with (2 ^ 64); lia]. }
  rewrite (digits_loop_spec base up Hb dig next 65 Hd); rewrite ?E; [rewrite app_nil_r; reflexivity| |].
  - change (2 ^ Z.of_nat 65) with (2 ^ 65). lia.
  - change (zlen (@nil Z)) with 0. lia.
Qed.

Lemma dec_loop n : in_u64 n -> n <> 0 ->
  (r ← dec_high 65 n []; digits_loop 65 (fun k2 => u8 (48 + k2 mod 10)) (fun k2 => k2 / 10) (u32 r.1) r.2) =
  Ok (numeral 10 false n).
Proof.
  intros Hn Hn0. unfold in_u64 in Hn.
  assert (zlen (num_rev 10 false 64 n) <= 20) as Hl.
  { apply (num_rev_len 10 false ltac:(lia) 64 n 20). change (10 ^ Z.of_nat 20) with 100000000000000000000. lia. }
  destruct (dec_high_spec 64 n []) as (k' & ds & -> & Hk' & E);
    [change (2 ^ Z.of_nat 64) with (2 ^ 64); lia|lia|unfold STRFMT_MAXBUF_XINT; change (zlen (@nil Z)) with 0; lia|].
  cbn [mbind res_bind fst snd]. rewrite u32_small by (unfold in_u32; lia). rewrite app_nil_r.
  rewrite E, zlen_app in Hl.
  assert (num_rev 10 false 65 k' = num_rev 10 false 64 k') as E2.
  { apply num_rev_fuel; [lia|change (2 ^ Z.of_nat 65) with (2 ^ 65); lia|change (2 ^ Z.of_nat 64) with (2 ^ 64); lia]. }
  rewrite (digits_loop_spec 10 false ltac:(lia)).
  - rewrite E2. unfold numeral. rewrite E, reverse_app. reflexivity.
  - intros m Hm. assert (0 <= m mod 10 < 10) by (apply Z.mod_pos_bound; lia).
    rewrite hexdig_dec, u8_small by (unfold in_u8; lia). split; reflexivity.
  - change (2 ^ Z.of_nat 65) with (2 ^ 65). lia.
  - rewrite E2, zlen_reverse. unfold STRFMT_MAXBUF_XINT. lia.
Qed.

Lemma flag_hexoct sf : flag sf (Z.lor STRFMT_T_HEX STRFMT_T_OCT) = flag sf STRFMT_T_HEX || flag sf STRFMT_T_OCT.
Proof.
  unfold flag at 1. change (Z.lor STRFMT_T_HEX STRFMT_T_OCT) with (2 ^ 4 + 2 ^ 5). rewrite land_two by lia.
  change (2 ^ 4) with STRFMT_T_HEX. change (2 ^ 5) with STRFMT_T_OCT.
  by destruct (flag sf STRFMT_T_HEX), (flag sf STRFMT_T_OCT).
Qed.

Lemma flag_octalt sf : (Z.land sf (Z.lor STRFMT_T_OCT STRFMT_F_ALT) =? Z.lor STRFMT_T_OCT STRFMT_F_ALT) =
  flag sf STRFMT_T_OCT && flag sf STRFMT_F_ALT.
Proof.
  change (Z.lor STRFMT_T_OCT STRFMT_F_ALT) with (2 ^ 5 + 2 ^ 12). rewrite land_two by lia.
  change (2 ^ 5) with STRFMT_T_OCT. change (2 ^ 12) with STRFMT_F_ALT.
  by destruct (flag sf STRFMT_T_OCT), (flag sf STRFMT_F_ALT).
Qed.

Lemma flag_leftzero sf : Z.land sf (Z.lor STRFMT_F_LEFT STRFMT_F_ZERO) =
  (if flag sf STRFMT_F_LEFT then STRFMT_F_LEFT else 0) + (if flag sf STRFMT_F_ZERO then STRFMT_F_ZERO else 0).
Proof. change (Z.lor STRFMT_F_LEFT STRFMT_F_ZERO) with (2 ^ 8 + 2 ^ 10). by rewrite land_two by lia. Qed.

Lemma hex_dig up n : 0 <= n -> hexdig up (Z.land n 15) = hexdig up (n mod 16) /\ Z.shiftr n 4 = n / 16.
Proof.
  intros Hn. change 15 with (2 ^ 4 - 1). rewrite land_pow2_mask, Z.shiftr_div_pow2 by lia. done.
Qed.

Lemma oct_dig n : 0 <= n -> u8 (48 + Z.land n 7) = hexdig false (n mod 8) /\ Z.shiftr n 3 = n / 8.
Proof.
  intros Hn. change 7 with (2 ^ 3 - 1). rewrite land_pow2_mask, Z.shiftr_div_pow2 by lia. change (2 ^ 3) with 8.
  assert (0 <= n mod 8 < 8) by (apply Z.mod_pos_bound; lia). rewrite hexdig_dec, u8_small by (unfold in_u8; lia). done.
Qed.

Lemma fxint_digits_spec sf n prefix : in_u64 n -> fxint_digits sf n (STRFMT_PREC sf) prefix =
  Ok (digits_ref sf n, if flag sf STRFMT_T_HEX && flag sf STRFMT_F_ALT && negb (n =? 0)
    then 512 + (if flag sf STRFMT_F_UPPER then 88 else 120) else prefix).
Proof.
  intros Hn. pose proof (digits_ref_len sf n Hn) as HL. unfold fxint_digits, digits_ref in *.
  rewrite flag_octalt, flag_hexoct. destruct (n =? 0) eqn:E0.
  { rewrite andb_false_r. by destruct (STRFMT_PREC sf =? 0), (flag sf STRFMT_T_OCT && flag sf STRFMT_F_ALT). }
  rewrite andb_true_r. destruct (flag sf STRFMT_T_HEX) eqn:Eh; cbn [orb negb andb].
  - rewrite (radix_loop 16 (flag sf STRFMT_F_UPPER)); [done|lia|done|lia|by apply hex_dig|done].
  - destruct (flag sf STRFMT_T_OCT); cbn [negb].
    + rewrite zlen_app in HL. rewrite (radix_loop 8 false); [|lia|done|lia|by apply oct_dig|].
      * cbn [mbind res_bind]. destruct (flag sf STRFMT_F_ALT); [|done]. unfold push. change (zlen [48]) with 1 in HL.
        by replace (zlen (numeral 8 false n) <? STRFMT_MAXBUF_XINT) with true by lia.
      * pose proof (zlen_nonneg (if flag sf STRFMT_F_ALT then [48] else [])). lia.
    + pose proof (dec_loop n Hn ltac:(lia)) as HD. destruct (dec_high 65 n []) as [[k' q]| | |]; cbn [mbind res_bind fst snd] in *; try done.
      by rewrite HD.
Qed.

(** The signed prefix and the number that is printed. *)
Definition sign_of (sf k : Z) : list Z :=
  if STRFMT_TYPE sf =? STRFMT_INT then
    if i64 k <? 0 then [45] else if flag sf STRFMT_F_PLUS then [43] else if flag sf STRFMT_F_SPACE then [32] else []
  else [].
Definition magnitude (sf k : Z) : Z := if STRFMT_TYPE sf =? STRFMT_INT then Z.abs (i64 k) else k.

(** The code's prefix numbers: a count and a character. *)
Definition sign_num (sf k : Z) : Z :=
  if STRFMT_TYPE sf =? STRFMT_INT then
    if i64 k <? 0 then 256 + 45 else if flag sf STRFMT_F_PLUS then 256 + 43 else if flag sf STRFMT_F_SPACE then 256 + 32 else 0
  else 0.

Definition prefix_num (sf k : Z) : Z :=
  if flag sf STRFMT_T_HEX && flag sf STRFMT_F_ALT && negb (magnitude sf k =? 0)
  then 512 + (if flag sf STRFMT_F_UPPER then 88 else 120) else sign_num sf k.
Definition prefix_ref (sf k : Z) : list Z :=
  if flag sf STRFMT_T_HEX && flag sf STRFMT_F_ALT && negb (magnitude sf k =? 0)
  then [48; if flag sf STRFMT_F_UPPER then 88 else 120] else sign_of sf k.

Lemma prefix_spec sf k : prefix_bytes (prefix_num sf k) = prefix_ref sf k /\
  Z.shiftr (prefix_num sf k) 8 = zlen (prefix_ref sf k) /\ zlen (prefix_ref sf k) <= 2.
Proof.
  unfold prefix_num, prefix_ref, sign_num, sign_of. destruct (_ && _ && _); [by destruct (flag sf STRFMT_F_UPPER)|].
  destruct (STRFMT_TYPE sf =? STRFMT_INT); [|done]. destruct (i64 k <? 0); [done|].
  destruct (flag sf STRFMT_F_PLUS); [done|]. by destruct (flag sf STRFMT_F_SPACE).
Qed.

Lemma magnitude_range sf k : in_u64 k -> in_u64 (magnitude sf k).
Proof. intros Hk. unfold magnitude. destruct (_ =? _); [|done]. unfold i64, in_u64 in *. zlia. Qed.

Lemma sign_spec sf k : in_u64 k ->
  (if STRFMT_TYPE sf =? STRFMT_INT then
     if i64 k <? 0 then (u64 (- i64 k), 256 + 45)
     else if flag sf STRFMT_F_PLUS then (k, 256 + 43)
     else if flag sf STRFMT_F_SPACE then (k, 256 + 32)
     else (k, 0)
   else (k, 0)) = (magnitude sf k, sign_num sf k).
Proof.
  intros Hk. unfold magnitude, sign_num. destruct (STRFMT_TYPE sf =? STRFMT_INT); [|done].
  destruct (i64 k <? 0) eqn:E.
  - f_equal. unfold u64, i64, in_u64 in *. zlia.
  - assert (Z.abs (i64 k) = k) as -> by (unfold i64, in_u64 in *; zlia).
    destruct (flag sf STRFMT_F_PLUS); [done|]. by destruct (flag sf STRFMT_F_SPACE).
Qed.

Lemma fxint_digits_clear sf n prec prefix :
  fxint_digits (Z.land sf (not32 STRFMT_F_ZERO)) n prec prefix = fxint_digits sf n prec prefix.
Proof. unfold fxint_digits, flag. by rewrite !clear_zero_land by (vm_compute; reflexivity). Qed.

Lemma flag_left_clear sf : flag (Z.land sf (not32 STRFMT_F_ZERO)) STRFMT_F_LEFT = flag sf STRFMT_F_LEFT.
Proof. unfold flag. by rewrite clear_zero_land by (vm_compute; reflexivity). Qed.

(** Sizes, padding and output, for the digits [q] behind a prefix. *)
Definition emit (sb : SBuf) (sf prec prefix : Z) (q : list Z) : res SBuf :=
  let len := zlen q in
  let prec := if i32 prec <=? i32 len then len else prec in
  let width := STRFMT_WIDTH sf in
  let pprec := u32 (prec + Z.shiftr prefix 8) in
  let need := if pprec <? width then width else pprec in
  sb ← lj_buf_more sb need;
  let lz := Z.land sf (Z.lor STRFMT_F_LEFT STRFMT_F_ZERO) in
  a ← (if lz =? 0 then chk (pad_width width pprec 32) else Ok ([], width));
  b ← (if lz =? STRFMT_F_ZERO then chk (pad_width a.2 pprec 48) else Ok ([], a.2));
  z ← chk (pad_width prec len 48);
  c ← (if flag sf STRFMT_F_LEFT then chk (pad_width b.2 pprec 32) else Ok ([], b.2));
  put_bytes sb (a.1 ++ prefix_bytes prefix ++ b.1 ++ z.1 ++ q ++ c.1).

Lemma putfxint_emit sb sf k : in_u64 k -> lj_strfmt_putfxint sb sf k =
  emit sb (if hasprec sf then Z.land sf (not32 STRFMT_F_ZERO) else sf) (STRFMT_PREC sf)
    (prefix_num sf k) (digits_ref sf (magnitude sf k)).
Proof.
  intros Hk. unfold lj_strfmt_putfxint. rewrite sign_spec by done.
  destruct (prec_cases sf) as (p & _ & _ & P1 & P2).
  assert ((0 <=? i32 (STRFMT_PREC sf)) = hasprec sf) as ->.
  { destruct (hasprec sf) eqn:E; [destruct (P1 eq_refl) as [? ->]; lia|]. by destruct (P2 eq_refl) as [-> _]. }
  assert (forall pf, fxint_digits (if hasprec sf then Z.land sf (not32 STRFMT_F_ZERO) else sf) (magnitude sf k) (STRFMT_PREC sf) pf =
    fxint_digits sf (magnitude sf k) (STRFMT_PREC sf) pf) as E by (intros pf; destruct (hasprec sf); [apply fxint_digits_clear|done]).
  rewrite E, fxint_digits_spec by (by apply magnitude_range). cbn [mbind res_bind]. reflexivity.
Qed.

(** Prefix and digits, padded. *)
Definition layout (left zero : bool) (width : Z) (prefix body : list Z) : list Z :=
  let gap := width - zlen (prefix ++ body) in
  if left then prefix ++ body ++ spaces gap
  else if zero then prefix ++ zeros gap ++ body
  else spaces gap ++ prefix ++ body.

Lemma zlen_spaces n : zlen (spaces n) = Z.max 0 n.
Proof. unfold spaces. rewrite zlen_replicate. lia. Qed.
Lemma zlen_zeros n : zlen (zeros n) = Z.max 0 n.
Proof. unfold zeros. rewrite zlen_replicate. lia. Qed.

Lemma layout_len left zero width prefix body :
  zlen (layout left zero width prefix body) = Z.max width (zlen prefix + zlen body).
Proof.
  unfold layout. destruct left, zero; rewrite ?zlen_app, ?zlen_spaces, ?zlen_zeros, ?zlen_app; lia.
Qed.

Lemma emit_spec sb c sf prec pf P q : holds sb c -> w sb + 300 <= LJ_MAX_BUF ->
  prefix_bytes pf = P -> Z.shiftr pf 8 = zlen P -> zlen P <= 2 -> zlen q <= STRFMT_MAXBUF_XINT ->
  i32 prec < 255 -> (0 <= i32 prec -> i32 prec = prec) ->
  exists sb', emit sb sf prec pf q = Ok sb' /\
  holds sb' (c ++ layout (flag sf STRFMT_F_LEFT) (flag sf STRFMT_F_ZERO) (STRFMT_WIDTH sf) P (zeros (i32 prec - zlen q) ++ q)).
Proof.
  unfold STRFMT_MAXBUF_XINT. intros Hsb Hw HP Hs HP2 Hq Hp1 Hp2. pose proof (zlen_nonneg P). pose proof (zlen_nonneg q).
  pose proof (width_range sf) as HW. unfold emit. rewrite (i32_small (zlen q)) by (unfold in_i32; lia).
  set (prec' := if i32 prec <=? zlen q then zlen q else prec).
  assert (prec' = Z.max (zlen q) (i32 prec)) as Hpr.
  { unfold prec'. destruct (i32 prec <=? zlen q) eqn:E; [lia|]. rewrite <- Hp2 at 1; lia. }
  rewrite Hs. rewrite (u32_small (prec' + zlen P)) by (unfold in_u32; lia).
  destruct (pad_width_spec prec' (zlen q) 48) as (rz & Ez); [lia|].
  assert (replicate (Z.to_nat (prec' - zlen q)) 48 = zeros (i32 prec - zlen q)) as Ezz.
  { unfold zeros. f_equal. lia. }
  set (body := zeros (i32 prec - zlen q) ++ q).
  assert (zlen P + zlen body = prec' + zlen P) as Hbody by (unfold body; rewrite zlen_app, zlen_zeros; lia).
  set (need := if prec' + zlen P <? STRFMT_WIDTH sf then STRFMT_WIDTH sf else prec' + zlen P).
  assert (need = Z.max (STRFMT_WIDTH sf) (zlen P + zlen body)) as Hneed.
  { unfold need. destruct (prec' + zlen P <? STRFMT_WIDTH sf) eqn:E; lia. }
  assert (forall ch, exists r, chk (pad_width (STRFMT_WIDTH sf) (prec' + zlen P) ch) =
    Ok (replicate (Z.to_nat (STRFMT_WIDTH sf - zlen (P ++ body))) ch, r)) as Hpad.
  { intros ch. destruct (pad_width_spec (STRFMT_WIDTH sf) (prec' + zlen P) ch) as (r & ->); [lia|]. exists r.
    rewrite zlen_app, Hbody. done. }
  destruct (put_append sb c (layout (flag sf STRFMT_F_LEFT) (flag sf STRFMT_F_ZERO) (STRFMT_WIDTH sf) P body) need Hsb)
    as (sb' & E & Hsb' & _); [rewrite layout_len; lia|..].
  { destruct (holds_bounds sb c Hsb) as (B1 & B2 & _). unfold LJ_MAX_BUF in *. lia. }
  { unfold LJ_MAX_BUF in Hw. lia. }
  exists sb'. split; [|exact Hsb']. rewrite <- E. destruct (lj_buf_more sb need) as [sb1| | |]; try done.
  cbn [mbind res_bind]. rewrite flag_leftzero, Ez. cbn [chk]. unfold layout. rewrite HP.
  destruct (Hpad 32) as (r1 & E1), (Hpad 48) as (r2 & E2).
  destruct (flag sf STRFMT_F_LEFT), (flag sf STRFMT_F_ZERO).
  - change (STRFMT_F_LEFT + STRFMT_F_ZERO =? 0) with false. change (STRFMT_F_LEFT + STRFMT_F_ZERO =? STRFMT_F_ZERO) with false.
    cbn [mbind res_bind fst snd]. rewrite E1. cbn [mbind res_bind fst snd app]. unfold body. by rewrite Ezz, <- !app_assoc.
  - change (STRFMT_F_LEFT + 0 =? 0) with false. change (STRFMT_F_LEFT + 0 =? STRFMT_F_ZERO) with false.
    cbn [mbind res_bind fst snd]. rewrite E1. cbn [mbind res_bind fst snd app]. unfold body. by rewrite Ezz, <- !app_assoc.
  - change (0 + STRFMT_F_ZERO =? 0) with false. change (0 + STRFMT_F_ZERO =? STRFMT_F_ZERO) with true.
    cbn [mbind res_bind fst snd]. rewrite E2. cbn [mbind res_bind fst snd app]. unfold body. by rewrite Ezz, app_nil_r.
  - change (0 + 0 =? 0) with true. change (0 + 0 =? STRFMT_F_ZERO) with false.
    cbn [mbind res_bind fst snd]. rewrite E1. cbn [mbind res_bind fst snd app]. unfold body. by rewrite Ezz, app_nil_r.
Qed.

(** C16: formatted integers.  For every integer conversion, 64-bit number,
    width, precision and flags, [lj_strfmt_putfxint] keeps within its local
    buffer of 23 bytes and the space it reserves, and appends what [printf]
    prints for it. *)
Theorem putfxint_printf sb c sf k : holds sb c -> w sb + 300 <= LJ_MAX_BUF -> in_u64 k ->
  exists sb', lj_strfmt_putfxint sb sf k = Ok sb' /\ holds sb' (c ++ printf_int sf k).
Proof.
  intros Hsb Hw Hk. rewrite putfxint_emit by done. destruct (prefix_spec sf k) as (P1 & P2 & P3).
  destruct (prec_cases sf) as (p & _ & _ & Q1 & Q2).
  destruct (emit_spec sb c (if hasprec sf then Z.land sf (not32 STRFMT_F_ZERO) else sf) (STRFMT_PREC sf) (prefix_num sf k)
    (prefix_ref sf k) (digits_ref sf (magnitude sf k)) Hsb Hw P1 P2 P3) as (sb' & E & H).
  - apply digits_ref_len. by apply magnitude_range.
  - destruct (hasprec sf) eqn:E; [destruct (Q1 eq_refl) as [? ->]; lia|]. destruct (Q2 eq_refl) as [-> _]. lia.
  - destruct (hasprec sf) eqn:E; [by destruct (Q1 eq_refl) as [? ->]|]. destruct (Q2 eq_refl) as [-> _]. lia.
  - exists sb'. split; [done|].
    assert (layout (flag (if hasprec sf then Z.land sf (not32 STRFMT_F_ZERO) else sf) STRFMT_F_LEFT)
      (flag (if hasprec sf then Z.land sf (not32 STRFMT_F_ZERO) else sf) STRFMT_F_ZERO)
      (STRFMT_WIDTH (if hasprec sf then Z.land sf (not32 STRFMT_F_ZERO) else sf)) (prefix_ref sf k)
      (zeros (i32 (STRFMT_PREC sf) - zlen (digits_ref sf (magnitude sf k))) ++ digits_ref sf (magnitude sf k))
      = printf_int sf k) as <-; [|done].
    assert (printf_int sf k = layout (flag sf STRFMT_F_LEFT) (flag sf STRFMT_F_ZERO && negb (hasprec sf)) (STRFMT_WIDTH sf)
      (prefix_ref sf k) ((if hasprec sf then zeros (STRFMT_PREC sf - zlen (digits_ref sf (magnitude sf k))) else [])
        ++ digits_ref sf (magnitude sf k))) as -> by reflexivity.
    destruct (hasprec sf) eqn:Eh.
    + rewrite flag_left_clear, clear_zero_flag, clear_zero_width, andb_false_r. by destruct (Q1 eq_refl) as [_ ->].
    + rewrite andb_true_r. destruct (Q2 eq_refl) as [-> _].
      assert (zeros (-1 - zlen (digits_ref sf (magnitude sf k))) = []) as ->; [|done].
      unfold zeros. pose proof (zlen_nonneg (digits_ref sf (magnitude sf k))).
      by replace (Z.to_nat (-1 - zlen (digits_ref sf (magnitude sf k)))) with 0%nat by lia.
Qed.

(** "%+8d" of 1234 and "%#o" of the largest number. *)
Lemma putfxint_printf_witness : exists sb',
  lj_strfmt_putfxint lj_buf_init (Z.lor STRFMT_INT (Z.lor STRFMT_F_PLUS (Z.shiftl 8 STRFMT_SH_WIDTH))) 1234 = Ok sb' /\
  holds sb' [32; 32; 32; 43; 49; 50; 51; 52].
Proof.
  apply (putfxint_printf lj_buf_init [] (Z.lor STRFMT_INT (Z.lor STRFMT_F_PLUS (Z.shiftl 8 STRFMT_SH_WIDTH))) 1234).
  - exists [], []. vm_compute. intuition congruence.
  - vm_compute. discriminate.
  - vm_compute. intuition congruence.
Defined.

(** ** The parser *)
Section parse.
Context (m : list Z) (e : Z) (He : zget m e = Some 0).

Lemma e_range : 0 <= e < zlen m.
Proof. by apply zget_Some_range in He. Qed.

(** A byte other than NUL lies before the end. *)
Lemma not_nul p c : p <= e -> zget m p = Some c -> c <> 0 -> p + 1 <= e.
Proof. intros Hp E Hc. destruct (Z.eq_dec p e) as [->|]; [congruence|lia]. Qed.

Lemma get_before p : 0 <= p <= e -> exists c, zget m p = Some c.
Proof. intros Hp. apply zget_is_Some. pose proof e_range. lia. Qed.

(** The fields above the conversion. *)
Definition fields (sf : Z) : Prop := Z.land sf 255 = 0.

Lemma fields_lor a b : fields a -> fields b -> fields (Z.lor a b).
Proof. unfold fields. intros Ha Hb. by rewrite Z.land_lor_distr_l, Ha, Hb. Qed.

Lemma fields_shift v n : 8 <= n -> fields (Z.shiftl v n).
Proof.
  intros Hn. unfold fields. change 255 with (2 ^ 8 - 1). rewrite land_pow2_mask, Z.shiftl_mul_pow2 by lia.
  replace n with (n - 8 + 8) by lia. rewrite Z.pow_add_r, Z.mul_assoc by lia. apply Z.mod_mul. lia.
Qed.

Lemma parse_flags_spec fuel : forall p sf, 0 <= p <= e -> e - p < Z.of_nat fuel -> fields sf ->
  exists p' sf', parse_flags fuel m p sf = Some (p', sf') /\ p <= p' <= e /\ fields sf'.
Proof.
  induction fuel as [|fuel IH]; intros p sf Hp Hf Hsf; [lia|]. cbn [parse_flags].
  destruct (get_before p Hp) as (c & Ec). rewrite Ec. cbn [mbind option_bind].
  assert (forall f, fields f -> c <> 0 ->
    exists p'' sf'', parse_flags fuel m (p + 1) (Z.lor sf f) = Some (p'', sf'') /\ p <= p'' <= e /\ fields sf'') as Hrec.
  { intros f Hff Hc. pose proof (not_nul p c ltac:(lia) Ec Hc).
    destruct (IH (p + 1) (Z.lor sf f)) as (p'' & sf'' & -> & ? & ?); [lia|lia|by apply fields_lor|].
    exists p'', sf''. split; [done|]. split; [lia|done]. }
  destruct (u32 (c - 32) <=? 48 - 32); [|exists p, sf; split; [done|]; split; [lia|done]].
  destruct (c =? 45) eqn:E1; [apply Hrec; [done|lia]|]. destruct (c =? 43) eqn:E2; [apply Hrec; [done|lia]|].
  destruct (c =? 48) eqn:E3; [apply Hrec; [done|lia]|]. destruct (c =? 32) eqn:E4; [apply Hrec; [done|lia]|].
  destruct (c =? 35) eqn:E5; [apply Hrec; [done|lia]|]. exists p, sf. split; [done|]. split; [lia|done].
Qed.

Lemma isdig_nul c : isdig c = true -> c <> 0.
Proof. intros H ->. done. Qed.

Lemma parse_digits_spec p : 0 <= p <= e -> exists p' v, parse_digits m p = Some (p', v) /\ p <= p' <= e.
Proof.
  intros Hp. unfold parse_digits. destruct (get_before p Hp) as (c & Ec). rewrite Ec. cbn [mbind option_bind].
  destruct (isdig c) eqn:E1; [|exists p, 0; split; [done|lia]].
  pose proof (not_nul p c ltac:(lia) Ec (isdig_nul c E1)).
  destruct (get_before (p + 1) ltac:(lia)) as (d & Ed). rewrite Ed. cbn [mbind option_bind].
  destruct (isdig d) eqn:E2; [|eexists _, _; split; [done|lia]].
  pose proof (not_nul (p + 1) d ltac:(lia) Ed (isdig_nul d E2)). eexists _, _. split; [done|lia].
Qed.

Lemma parse_width_spec p sf : 0 <= p <= e -> fields sf ->
  exists p' sf', parse_width m p sf = Some (p', sf') /\ p <= p' <= e /\ fields sf'.
Proof.
  intros Hp Hsf. unfold parse_width. destruct (get_before p Hp) as (c & ->). cbn [mbind option_bind].
  destruct (isdig c); [|exists p, sf; split; [done|]; split; [lia|done]].
  destruct (parse_digits_spec p Hp) as (p' & v & -> & ?). cbn [mbind option_bind fst snd].
  eexists _, _. split; [done|]. split; [lia|]. by apply fields_lor, fields_shift.
Qed.

Lemma parse_prec_spec p sf : 0 <= p <= e -> fields sf ->
  exists p' sf', parse_prec m p sf = Some (p', sf') /\ p <= p' <= e /\ fields sf'.
Proof.
  intros Hp Hsf. unfold parse_prec. destruct (get_before p Hp) as (c & Ec). rewrite Ec. cbn [mbind option_bind].
  destruct (c =? 46) eqn:E; [|exists p, sf; split; [done|]; split; [lia|done]].
  pose proof (not_nul p c ltac:(lia) Ec ltac:(lia)).
  destruct (parse_digits_spec (p + 1) ltac:(lia)) as (p' & v & -> & ?). cbn [mbind option_bind fst snd].
  eexists _, _. split; [done|]. split; [lia|]. by apply fields_lor, fields_shift.
Qed.

(** The conversions have types of their own. *)
Lemma map_types c x : zget strfmt_map c = Some x -> x = 0 \/ 3 <= STRFMT_TYPE x.
Proof.
  intros E. assert (forallb (fun x => (x =? 0) || (3 <=? STRFMT_TYPE x)) strfmt_map = true) as H by (vm_compute; reflexivity).
  rewrite forallb_forall in H. specialize (H x). unfold zget in E. destruct (c <? 0); [discriminate|].
  apply list_elem_of_lookup_2, list_elem_of_In, H in E. lia.
Qed.

(** What a call may return for the text from [fs_str] on. *)
Definition parsed (fs fs' : FormatState) (sf : Z) : Prop :=
  fs_e fs' = fs_e fs /\ fs_str fs' = fs_str fs /\
  ((sf = STRFMT_EOF /\ fs_str fs = fs_e fs /\ fs_len fs' = 0) \/
   (sf <> STRFMT_EOF /\ fs_str fs < fs_p fs' <= fs_e fs)) /\
  (sf = STRFMT_LIT \/ sf = STRFMT_ERR -> 0 < fs_len fs' <= fs_e fs - fs_str fs).

Lemma parse_conv_spec fs p : fs_e fs = e -> 0 <= fs_str fs < p -> p <= e -> e < 2 ^ 32 ->
  exists sf fs', parse_conv m fs p = Some (sf, fs') /\ parsed fs fs' sf.
Proof.
  intros Hfe Hs Hp Hlt. unfold parse_conv. pose proof e_range as Hr.
  destruct (parse_flags_spec (length m) p 0) as (p1 & sf1 & -> & H1 & F1); [lia|unfold zlen in Hr; lia|done|]. cbn [mbind option_bind fst snd].
  destruct (parse_width_spec p1 sf1) as (p2 & sf2 & -> & H2 & F2); [lia|done|]. cbn [mbind option_bind fst snd].
  destruct (parse_prec_spec p2 sf2) as (p3 & sf3 & -> & H3 & F3); [lia|done|]. cbn [mbind option_bind fst snd].
  destruct (get_before p3) as (x & Ex); [lia|]. rewrite Ex. cbn [mbind option_bind].
  set (sx := if u32 (x - 65) <=? 120 - 65 then default 0 (zget strfmt_map (u32 (x - 65))) else 0).
  destruct (sx =? 0) eqn:Esx; cbn [negb].
  - eexists _, _. split; [done|]. split; [done|]. split; [done|]. cbn [fs_p fs_len]. split; [right; split; [done|lia]|].
    intros _. assert ((32 <=? x) = true -> p3 + 1 <= e) as Hx by (intros E32; apply (not_nul p3 x); [lia|done|lia]).
    destruct (32 <=? x); rewrite u32_small; unfold in_u32; try specialize (Hx eq_refl); lia.
  - assert (x <> 0) as Hx0 by (intros ->; unfold sx in Esx; vm_compute in Esx; done).
    pose proof (not_nul p3 x ltac:(lia) Ex Hx0).
    assert (3 <= STRFMT_TYPE sx) as Ht.
    { unfold sx in *. destruct (_ <=? _); [|done]. destruct (zget strfmt_map _) as [y|] eqn:Ey; [|done].
      apply map_types in Ey. cbn [default] in *. unfold id in *. lia. }
    assert (forall sf u, fields sf -> STRFMT_TYPE u = 0 -> STRFMT_TYPE (Z.lor (Z.lor sf sx) u) = STRFMT_TYPE sx) as Hty.
    { intros sf u Hsf Hu. unfold STRFMT_TYPE in *. rewrite !Z.land_lor_distr_l, Hu, Z.lor_0_r.
      change 15 with (Z.land 255 15) at 1. rewrite Z.land_assoc, Hsf, Z.land_0_l. apply Z.lor_0_l. }
    assert (STRFMT_TYPE (if Z.land (u32 (x - 65)) 0x20 =? 0 then STRFMT_F_UPPER else 0) = 0) as Hup
      by (destruct (Z.land _ _ =? 0); vm_compute; reflexivity).
    specialize (Hty sf3 _ F3 Hup).
    eexists _, _. split; [done|]. split; [done|]. split; [done|]. cbn [fs_p fs_len]. split.
    + right. split; [|lia]. intros E0. rewrite E0 in Hty. change (STRFMT_TYPE STRFMT_EOF) with 0 in Hty. lia.
    + intros [E0|E0]; rewrite E0 in Hty; [change (STRFMT_TYPE STRFMT_LIT) with 2 in Hty|change (STRFMT_TYPE STRFMT_ERR) with 1 in Hty]; lia.
Qed.

Lemma parse_lit_spec fs fp p : fs_e fs = e -> e < 2 ^ 32 -> 0 <= fs_str fs <= p -> p <= fp <= e ->
  (fs_str fs < p \/ p = fp /\ p = e) ->
  exists sf fs', (let len := u32 (p - fs_str fs) in
    Some (if len =? 0 then STRFMT_EOF else STRFMT_LIT, MkFS fp (fs_e fs) (fs_str fs) len)) = Some (sf, fs') /\ parsed fs fs' sf.
Proof.
  intros Hfe Hlt Hp Hfp Hor. cbv zeta. rewrite u32_small by (unfold in_u32; lia). eexists _, _. split; [done|].
  split; [done|]. split; [done|]. cbn [fs_p fs_len]. destruct (p - fs_str fs =? 0) eqn:E.
  - split; [left; split; [done|lia]|]. by intros [?|?].
  - split; [right; split; [done|lia]|]. lia.
Qed.

Lemma parse_loop_spec fuel : forall fs p, fs_e fs = e -> e < 2 ^ 32 -> 0 <= fs_str fs <= p -> p <= e ->
  e - p < Z.of_nat fuel -> exists sf fs', parse_loop fuel m fs p = Some (sf, fs') /\ parsed fs fs' sf.
Proof.
  induction fuel as [|fuel IH]; intros fs p Hfe Hlt Hs Hp Hf; [lia|]. cbn [parse_loop]. rewrite Hfe.
  destruct (p <? e) eqn:E; [|rewrite <- Hfe; apply parse_lit_spec; lia].
  destruct (get_before p ltac:(lia)) as (c & ->). cbn [mbind option_bind].
  destruct (c =? 37) eqn:Ec; [|apply IH; lia].
  destruct (get_before (p + 1) ltac:(lia)) as (d & Ed). rewrite Ed. cbn [mbind option_bind].
  destruct (d =? 37) eqn:Ed37.
  - pose proof (not_nul (p + 1) d ltac:(lia) Ed ltac:(lia)). rewrite <- Hfe. apply parse_lit_spec; lia.
  - destruct (negb (p =? fs_str fs)) eqn:Eps; [rewrite <- Hfe; apply parse_lit_spec; lia|].
    apply parse_conv_spec; lia.
Qed.
End parse.

(** the format parser stays in the string and makes progress.  On a
    NUL-terminated format, from any position, [lj_strfmt_parse] ends without
    reading behind the terminator; it reports the end exactly at the end, and
    otherwise a literal, an error or a conversion and a position further on
    that is still inside the format. *)
Theorem strfmt_parse_progress m fs : zget m (fs_e fs) = Some 0 -> fs_e fs < 2 ^ 32 -> 0 <= fs_p fs <= fs_e fs ->
  exists sf fs', lj_strfmt_parse m fs = Some (sf, fs') /\
  fs_e fs' = fs_e fs /\ fs_str fs' = fs_p fs /\
  (sf = STRFMT_EOF /\ fs_p fs = fs_e fs \/ sf <> STRFMT_EOF /\ fs_p fs < fs_p fs' <= fs_e fs) /\
  (sf = STRFMT_LIT \/ sf = STRFMT_ERR -> 0 < fs_len fs' <= fs_e fs - fs_p fs).
Proof.
  intros He Hlt Hp. unfold lj_strfmt_parse.
  destruct (parse_loop_spec m (fs_e fs) He (S (length m)) (MkFS (fs_p fs) (fs_e fs) (fs_p fs) (fs_len fs)) (fs_p fs))
    as (sf & fs' & -> & P1 & P2 & P3 & P4); cbn [fs_e fs_str]; try done; try lia.
  { apply zget_Some_range in He. unfold zlen in He. lia. }
  exists sf, fs'. split; [done|]. split; [done|]. split; [done|]. cbn [fs_e fs_str] in *. split; [|done].
  destruct P3 as [(? & ? & _)|?]; [by left|by right].
Qed.

(** "a%5.3dz" *)
Lemma strfmt_parse_progress_witness : exists sf fs',
  lj_strfmt_parse [97; 37; 53; 46; 51; 100; 122; 0] (lj_strfmt_init 0 7) = Some (sf, fs') /\ 0 < fs_p fs' <= 7.
Proof.
  destruct (strfmt_parse_progress [97; 37; 53; 46; 51; 100; 122; 0] (lj_strfmt_init 0 7)) as (sf & fs' & E & _ & _ & [[_ H]|[_ H]] & _).
  - reflexivity.
  - reflexivity.
  - split; discriminate.
  - discriminate H.
  - exists sf, fs'. split; [exact E|exact H].
Defined.
End StrfmtSpec.
