(* ===== verification/LjLex.v ===== *)
(** * LjLex

    The lexical analyser of LuaJIT ([lj_lex.c]): characters, line breaks,
    string literals and long strings, numbers, the token scanner with its one
    token of look-ahead, the bounded input log and the set-up of a chunk.

    The reader callback is the list of the pieces it delivers; an empty piece
    or the end of the list is its end-of-input answer, which it keeps giving.
    The token buffer is the list of the bytes saved in it ([LjBuf] relates
    [lj_buf_putb] to appending a byte), and the string objects made from it
    are their bytes.  [lj_strscan_scan], which turns the text of a number into
    a value, is a parameter: every result below holds for any such function. *)
From stdpp Require Import base tactics numbers list.
From Stdlib Require Import ZArith Lia.
From S2P Require Import Prelude LjStr LjStrfmt.
Open Scope Z_scope.

Module Lex.

(** [lj_char_isa] as a condition. *)
Definition isa (c t : Z) : option bool := b ← Char.lj_char_isa c t; Some (negb (b =? 0)).

(** ** Tokens *)

Definition TK_OFS : Z := 256.

(** The names of the tokens, in the order of the enumeration. *)
Definition tokennames : list (list Z) := [
  [97; 110; 100]; [98; 114; 101; 97; 107]; [100; 111]; [101; 108; 115; 101];
  [101; 108; 115; 101; 105; 102]; [101; 110; 100]; [102; 97; 108; 115; 101];
  [102; 111; 114]; [102; 117; 110; 99; 116; 105; 111; 110]; [103; 111; 116; 111]; [105; 102];
  [105; 110]; [108; 111; 99; 97; 108]; [110; 105; 108]; [110; 111; 116]; [111; 114];
  [114; 101; 112; 101; 97; 116]; [114; 101; 116; 117; 114; 110]; [116; 104; 101; 110];
  [116; 114; 117; 101]; [117; 110; 116; 105; 108]; [119; 104; 105; 108; 101];
  [46; 46]; [46; 46; 46]; [61; 61]; [62; 61]; [60; 61]; [126; 61]; [58; 58];
  [60; 110; 117; 109; 98; 101; 114; 62]; [60; 110; 97; 109; 101; 62];
  [60; 115; 116; 114; 105; 110; 103; 62]; [60; 101; 111; 102; 62] ].

Definition TK_while : Z := 278.
Definition TK_concat : Z := 279.
Definition TK_dots : Z := 280.
Definition TK_eq : Z := 281.
Definition TK_ge : Z := 282.
Definition TK_le : Z := 283.
Definition TK_ne : Z := 284.
Definition TK_label : Z := 285.
Definition TK_number : Z := 286.
Definition TK_name : Z := 287.
Definition TK_string : Z := 288.
Definition TK_eof : Z := 289.
Definition TK_RESERVED : Z := TK_while - TK_OFS.

Definition LEX_EOF : Z := -1.
Definition LJ_MAX_LINE : Z := 0x7fffff00.

(** ** Results *)

Inductive ErrMsg := XSTR | XESC | XLINES | XLSTR | XLCOM | XLDELIM | XNUMBER | BCBAD.

(** What [lj_err_lex] is called with: the text of the token, the line and the
    message. *)
Record lexerr := MkErr { e_tok : option (list Z); e_line : Z; e_msg : ErrMsg }.

Inductive lres (A : Type) := LOk (a : A) | LErr (e : lexerr) | LBad | LFuel.
Arguments LOk {A} a.
Arguments LErr {A} e.
Arguments LBad {A}.
Arguments LFuel {A}.

#[export] Instance lres_ret : MRet lres := fun A a => LOk a.
#[export] Instance lres_bind : MBind lres := fun A B f o =>
  match o with LOk a => f a | LErr e => LErr e | LBad => LBad | LFuel => LFuel end.
Definition lchk {A} (o : option A) : lres A := match o with Some a => LOk a | None => LBad end.

(** ** The state of the scanner *)

(** [inp] is what is left between [p] and [pe], [chunks] what the reader has
    still to deliver, [logged] what was written through [log] and [logroom]
    the distance from [log] to [logend] (0 when there is no log). *)
Record LexState := MkLex {
  lc : Z; inp : list Z; chunks : list (list Z); lsb : list Z; linenumber : Z;
  logged : list Z; logroom : Z }.

(** The bytes the scanner has still to read. *)
Fixpoint upto (cs : list (list Z)) : list Z :=
  match cs with (_ :: _) as p :: cs' => p ++ upto cs' | _ => [] end.
Definition pending (ls : LexState) : list Z := inp ls ++ upto (chunks ls).

Definition lex_iseol (ls : LexState) : bool := (lc ls =? 10) || (lc ls =? 13).

(** The next character and the input behind it. *)
Definition lex_more (cs : list (list Z)) : Z * list Z * list (list Z) :=
  match cs with (c :: p) :: cs' => (c, p, cs') | _ => (LEX_EOF, [], cs) end.

Definition lex_next (ls : LexState) : LexState :=
  let '(c, p, cs) := match inp ls with c :: p => (c, p, chunks ls) | [] => lex_more (chunks ls) end in
  if 0 <? logroom ls
  then MkLex c p cs (lsb ls) (linenumber ls) (logged ls ++ [u8 c]) (logroom ls - 1)
  else MkLex c p cs (lsb ls) (linenumber ls) (logged ls) (logroom ls).

Definition with_sb (ls : LexState) (b : list Z) : LexState :=
  MkLex (lc ls) (inp ls) (chunks ls) b (linenumber ls) (logged ls) (logroom ls).
Definition with_line (ls : LexState) (n : Z) : LexState :=
  MkLex (lc ls) (inp ls) (chunks ls) (lsb ls) n (logged ls) (logroom ls).

Definition lex_save (ls : LexState) (c : Z) : LexState := with_sb ls (lsb ls ++ [u8 c]).
Definition lex_savenext (ls : LexState) : LexState := lex_next (lex_save ls (lc ls)).
(** [lex_save(ls, c); lex_next(ls);] *)
Definition save_next (ls : LexState) (c : Z) : LexState := lex_next (lex_save ls c).

Definition lj_lex_log (ls : LexState) (size : Z) : LexState :=
  MkLex (lc ls) (inp ls) (chunks ls) (lsb ls) (linenumber ls) [] (size - 1).
Definition lj_lex_endlog (ls : LexState) : LexState :=
  MkLex (lc ls) (inp ls) (chunks ls) (lsb ls) (linenumber ls) (logged ls) 0.

(** ** Errors *)

(** The name of a token, the character itself, or [char(%d)]. *)
Definition lj_lex_token2str (tok : Z) : option (list Z) :=
  if TK_OFS <? tok then zget tokennames (tok - TK_OFS - 1)
  else
    ctl ← isa tok Char.LJ_CHAR_CNTRL;
    if negb ctl then Some [u8 tok]
    else Some ([99; 104; 97; 114; 40] ++ Strfmt.lj_strfmt_wint tok ++ [41]).

(** A C string ends at its first NUL. *)
Fixpoint c_str (b : list Z) : list Z :=
  match b with [] => [] | c :: b' => if c =? 0 then [] else c :: c_str b' end.

Definition lj_lex_error {A} (ls : LexState) (tok : Z) (em : ErrMsg) : lres A :=
  if tok =? 0 then LErr (MkErr None (linenumber ls) em)
  else if (tok =? TK_name) || (tok =? TK_string) || (tok =? TK_number) then
    LErr (MkErr (Some (c_str (lsb (lex_save ls 0)))) (linenumber ls) em)
  else t ← lchk (lj_lex_token2str tok); LErr (MkErr (Some t) (linenumber ls) em).

Section scan.

(** The parser's current token, which the too-many-lines message names, and
    the conversion of the text of a number. *)
Context {Num : Type}.
Variable tok : Z.
Variable lj_strscan_scan : list Z -> Z * Num.

Definition lex_newline (ls : LexState) : lres LexState :=
  let old := lc ls in
  let ls := lex_next ls in
  let ls := if lex_iseol ls && negb (lc ls =? old) then lex_next ls else ls in
  let ls := with_line ls (linenumber ls + 1) in
  if LJ_MAX_LINE <=? linenumber ls then lj_lex_error ls tok XLINES else LOk ls.

(** ** Numbers *)

Definition STRSCAN_ERROR : Z := 0.
Definition STRSCAN_NUM : Z := 1.
Definition STRSCAN_IMAG : Z := 2.
Definition STRSCAN_I64 : Z := 5.
Definition STRSCAN_U64 : Z := 6.

(** A token's value: a string, a number, or the cdata object made for an
    imaginary number or a 64-bit integer. *)
Inductive TokVal := VStr (s : list Z) | VNum (n : Num) | VImag (n : Num) | VI64 (n : Num) | VU64 (n : Num).

(** Every loop reads a character a round and stops at the end of the input at
    the latest. *)
Definition rounds (ls : LexState) : nat := S (S (length (pending ls))).

Fixpoint number_loop (fuel : nat) (ls : LexState) (c xp : Z) : lres LexState :=
  match fuel with
  | O => LFuel
  | S fuel' =>
      id ← lchk (isa (lc ls) Char.LJ_CHAR_IDENT);
      if (id : bool) || (lc ls =? 46) || (((lc ls =? 45) || (lc ls =? 43)) && (Z.lor c 0x20 =? xp))
      then number_loop fuel' (lex_savenext ls) (lc ls) xp
      else LOk ls
  end.

Definition lex_number (ls : LexState) : lres (TokVal * LexState) :=
  let c := lc ls in
  let '(ls, xp) :=
    if c =? 48 then
      let ls := lex_savenext ls in (ls, if Z.lor (lc ls) 0x20 =? 120 then 112 else 101)
    else (ls, 101) in
  ls ← number_loop (rounds ls) ls c xp;
  let ls := lex_save ls 0 in
  let '(fmt, n) := lj_strscan_scan (take (length (lsb ls) - 1) (lsb ls)) in
  if fmt =? STRSCAN_NUM then LOk (VNum n, ls)
  else if negb (fmt =? STRSCAN_ERROR) then
    LOk (if fmt =? STRSCAN_IMAG then VImag n else if fmt =? STRSCAN_I64 then VI64 n else VU64 n, ls)
  else lj_lex_error ls TK_number XNUMBER.

(** ** Long strings *)

(** [while (lex_savenext(ls) == '=' && count < 0x20000000) count++;] *)
Fixpoint skipeq_loop (fuel : nat) (ls : LexState) (count : Z) : lres (LexState * Z) :=
  match fuel with
  | O => LFuel
  | S fuel' =>
      let ls := lex_savenext ls in
      if (lc ls =? 61) && (count <? 0x20000000) then skipeq_loop fuel' ls (count + 1) else LOk (ls, count)
  end.

Definition lex_skipeq (ls : LexState) : lres (Z * LexState) :=
  let s := lc ls in
  r ← skipeq_loop (rounds ls) ls 0;
  let '(ls, count) := r in
  LOk (if lc ls =? s then count else - count - 1, ls).

(** [str] says that the string is wanted ([tv] is not [NULL]). *)
Fixpoint longstring_loop (fuel : nat) (str : bool) (sep : Z) (ls : LexState) : lres LexState :=
  match fuel with
  | O => LFuel
  | S fuel' =>
      if lc ls =? LEX_EOF then lj_lex_error ls TK_eof (if str then XLSTR else XLCOM)
      else if lc ls =? 93 then
        r ← lex_skipeq ls;
        let '(n, ls) := r in
        if n =? sep then LOk (lex_savenext ls) else longstring_loop fuel' str sep ls
      else if (lc ls =? 10) || (lc ls =? 13) then
        ls ← lex_newline (lex_save ls 10);
        longstring_loop fuel' str sep (if str then ls else with_sb ls [])
      else longstring_loop fuel' str sep (lex_savenext ls)
  end.

Definition lex_longstring (str : bool) (sep : Z) (ls : LexState) : lres (list Z * LexState) :=
  let ls := lex_savenext ls in
  ls ← (if lex_iseol ls then lex_newline ls else LOk ls);
  ls ← longstring_loop (rounds ls) str sep ls;
  let n := Z.to_nat (2 + sep) in
  LOk (take (length (lsb ls) - 2 * n) (drop n (lsb ls)), ls).

(** ** String literals *)

(** A hexadecimal digit: [c & 15], and 9 more for a letter. *)
Definition xdigit (ls : LexState) : lres Z :=
  dig ← lchk (isa (lc ls) Char.LJ_CHAR_DIGIT);
  if dig : bool then LOk (Z.land (lc ls) 15)
  else
    xd ← lchk (isa (lc ls) Char.LJ_CHAR_XDIGIT);
    if xd : bool then LOk (Z.land (lc ls) 15 + 9) else lj_lex_error ls TK_string XESC.

(** [do { ... } while (lex_next(ls) != '}');] *)
Fixpoint uni_loop (fuel : nat) (ls : LexState) (c : Z) : lres (LexState * Z) :=
  match fuel with
  | O => LFuel
  | S fuel' =>
      let c := Z.lor (Z.shiftl c 4) (Z.land (lc ls) 15) in
      dig ← lchk (isa (lc ls) Char.LJ_CHAR_DIGIT);
      c ← (if dig : bool then LOk c
           else
             xd ← lchk (isa (lc ls) Char.LJ_CHAR_XDIGIT);
             if xd : bool then LOk (c + 9) else lj_lex_error ls TK_string XESC);
      if 0x110000 <=? c then lj_lex_error ls TK_string XESC
      else
        let ls := lex_next ls in
        if lc ls =? 125 then LOk (ls, c) else uni_loop fuel' ls c
  end.

(** The leading bytes of the UTF-8 form are saved, the last one returned. *)
Definition uni_save (ls : LexState) (c : Z) : lres (LexState * Z) :=
  if c <? 0x80 then LOk (ls, c)
  else
    ls ← (if c <? 0x800 then LOk (lex_save ls (Z.lor 0xc0 (Z.shiftr c 6)))
          else
            ls ← (if 0x10000 <=? c then
                    LOk (lex_save (lex_save ls (Z.lor 0xf0 (Z.shiftr c 18)))
                           (Z.lor 0x80 (Z.land (Z.shiftr c 12) 0x3f)))
                  else if (0xd800 <=? c) && (c <? 0xe000) then lj_lex_error ls TK_string XESC
                  else LOk (lex_save ls (Z.lor 0xe0 (Z.shiftr c 12))));
            LOk (lex_save ls (Z.lor 0x80 (Z.land (Z.shiftr c 6) 0x3f))));
    LOk (ls, Z.lor 0x80 (Z.land c 0x3f)).

Fixpoint skip_space (fuel : nat) (ls : LexState) : lres LexState :=
  match fuel with
  | O => LFuel
  | S fuel' =>
      sp ← lchk (isa (lc ls) Char.LJ_CHAR_SPACE);
      if sp : bool then
        ls ← (if lex_iseol ls then lex_newline ls else LOk (lex_next ls)); skip_space fuel' ls
      else LOk ls
  end.

(** Decimal escapes of up to three digits. *)
Definition esc_dec (ls : LexState) (c : Z) : lres LexState :=
  dig ← lchk (isa c Char.LJ_CHAR_DIGIT);
  if negb dig then lj_lex_error ls TK_string XESC
  else
    let c := c - 48 in
    let ls := lex_next ls in
    d2 ← lchk (isa (lc ls) Char.LJ_CHAR_DIGIT);
    if d2 : bool then
      let c := c * 10 + (lc ls - 48) in
      let ls := lex_next ls in
      d3 ← lchk (isa (lc ls) Char.LJ_CHAR_DIGIT);
      if d3 : bool then
        let c := c * 10 + (lc ls - 48) in
        if 255 <? c then lj_lex_error ls TK_string XESC else LOk (lex_save (lex_next ls) c)
      else LOk (lex_save ls c)
    else LOk (lex_save ls c).

(** The single-letter escapes. *)
Definition esc_letter (c : Z) : option Z :=
  if c =? 97 then Some 7
  else if c =? 98 then Some 8
  else if c =? 102 then Some 12
  else if c =? 110 then Some 10
  else if c =? 114 then Some 13
  else if c =? 116 then Some 9
  else if c =? 118 then Some 11
  else if (c =? 92) || (c =? 34) || (c =? 39) then Some c
  else None.

(** Behind a backslash. *)
Definition lex_escape (ls : LexState) : lres LexState :=
  let ls := lex_next ls in
  let c := lc ls in
  match esc_letter c with
  | Some c => LOk (save_next ls c)
  | None =>
      if c =? 120 then
        let ls := lex_next ls in
        h ← xdigit ls;
        let ls := lex_next ls in
        l ← xdigit ls;
        LOk (save_next ls (Z.shiftl h 4 + l))
      else if c =? 117 then
        let ls := lex_next ls in
        if negb (lc ls =? 123) then lj_lex_error ls TK_string XESC
        else
          let ls := lex_next ls in
          r ← uni_loop (rounds ls) ls 0;
          r ← uni_save r.1 r.2;
          LOk (save_next r.1 r.2)
      else if c =? 122 then let ls := lex_next ls in skip_space (rounds ls) ls
      else if (c =? 10) || (c =? 13) then lex_newline (lex_save ls 10)
      else if c =? LEX_EOF then LOk ls
      else esc_dec ls c
  end.

Fixpoint string_loop (fuel : nat) (delim : Z) (ls : LexState) : lres LexState :=
  match fuel with
  | O => LFuel
  | S fuel' =>
      if lc ls =? delim then LOk ls
      else if lc ls =? LEX_EOF then lj_lex_error ls TK_eof XSTR
      else if (lc ls =? 10) || (lc ls =? 13) then lj_lex_error ls TK_string XSTR
      else if lc ls =? 92 then ls ← lex_escape ls; string_loop fuel' delim ls
      else string_loop fuel' delim (lex_savenext ls)
  end.

Definition lex_string (ls : LexState) : lres (list Z * LexState) :=
  let delim := lc ls in
  let ls := lex_savenext ls in
  ls ← string_loop (rounds ls) delim ls;
  let ls := lex_savenext ls in
  LOk (take (length (lsb ls) - 2) (drop 1 (lsb ls)), ls).

(** ** Tokens *)

Fixpoint find_index (s : list Z) (l : list (list Z)) (i : Z) : Z :=
  match l with
  | [] => 0
  | x :: l' => if bool_decide (x = s) then i else find_index s l' (i + 1)
  end.

(** The [reserved] field [lj_lex_init] gives the string objects of the
    reserved words; 0 in all others. *)
Definition reserved (s : list Z) : Z := find_index s (take (Z.to_nat TK_RESERVED) tokennames) 1.

(** [do { lex_savenext(ls); } while (lj_char_isident(ls->c));] *)
Fixpoint ident_loop (fuel : nat) (ls : LexState) : lres LexState :=
  match fuel with
  | O => LFuel
  | S fuel' =>
      let ls := lex_savenext ls in
      id ← lchk (isa (lc ls) Char.LJ_CHAR_IDENT);
      if id : bool then ident_loop fuel' ls else LOk ls
  end.

Fixpoint comment_loop (fuel : nat) (ls : LexState) : lres LexState :=
  match fuel with
  | O => LFuel
  | S fuel' =>
      if negb (lex_iseol ls) && negb (lc ls =? LEX_EOF) then comment_loop fuel' (lex_next ls) else LOk ls
  end.

(** A character that is a token of its own unless [second] follows. *)
Definition two_char (ls : LexState) (second token : Z) : Z * option TokVal * LexState :=
  let c := lc ls in
  let ls := lex_next ls in
  if negb (lc ls =? second) then (c, None, ls) else (token, None, lex_next ls).

Definition scan_ident (ls : LexState) : lres (Z * option TokVal * LexState) :=
  ls ← ident_loop (rounds ls) ls;
  let s := lsb ls in
  LOk (if 0 <? reserved s then TK_OFS + reserved s else TK_name, Some (VStr s), ls).

(** The text behind a minus sign, once a second one was read: a long comment
    or one to the end of the line. *)
Definition scan_comment (ls : LexState) : lres LexState :=
  if lc ls =? 91 then
    r ← lex_skipeq ls;
    let '(sep, ls) := r in
    let ls := with_sb ls [] in
    if 0 <=? sep then r ← lex_longstring false sep ls; LOk (with_sb r.2 [])
    else comment_loop (rounds ls) ls
  else comment_loop (rounds ls) ls.

Definition scan_bracket (ls : LexState) : lres (Z * option TokVal * LexState) :=
  r ← lex_skipeq ls;
  let '(sep, ls) := r in
  if 0 <=? sep then r ← lex_longstring true sep ls; LOk (TK_string, Some (VStr r.1), r.2)
  else if sep =? -1 then LOk (91, None, ls)
  else lj_lex_error ls TK_string XLDELIM.

Definition scan_dot (ls : LexState) : lres (Z * option TokVal * LexState) :=
  let ls := lex_savenext ls in
  if lc ls =? 46 then
    let ls := lex_next ls in
    if lc ls =? 46 then LOk (TK_dots, None, lex_next ls) else LOk (TK_concat, None, ls)
  else
    dig ← lchk (isa (lc ls) Char.LJ_CHAR_DIGIT);
    if negb dig then LOk (46, None, ls)
    else r ← lex_number ls; LOk (TK_number, Some r.1, r.2).

(** The characters that begin neither a name, a number, white space nor a
    comment. *)
Definition scan_other (ls : LexState) : lres (Z * option TokVal * LexState) :=
  let c := lc ls in
  if c =? 91 then scan_bracket ls
  else if c =? 61 then LOk (two_char ls 61 TK_eq)
  else if c =? 60 then LOk (two_char ls 61 TK_le)
  else if c =? 62 then LOk (two_char ls 61 TK_ge)
  else if c =? 126 then LOk (two_char ls 61 TK_ne)
  else if c =? 58 then LOk (two_char ls 58 TK_label)
  else if (c =? 34) || (c =? 39) then r ← lex_string ls; LOk (TK_string, Some (VStr r.1), r.2)
  else if c =? 46 then scan_dot ls
  else if c =? LEX_EOF then LOk (TK_eof, None, ls)
  else LOk (c, None, lex_next ls).

Fixpoint scan_loop (fuel : nat) (ls : LexState) : lres (Z * option TokVal * LexState) :=
  match fuel with
  | O => LFuel
  | S fuel' =>
      id ← lchk (isa (lc ls) Char.LJ_CHAR_IDENT);
      if id : bool then
        dig ← lchk (isa (lc ls) Char.LJ_CHAR_DIGIT);
        if dig : bool then r ← lex_number ls; LOk (TK_number, Some r.1, r.2)
        else scan_ident ls
      else if (lc ls =? 10) || (lc ls =? 13) then ls ← lex_newline ls; scan_loop fuel' ls
      else if (lc ls =? 32) || (lc ls =? 9) || (lc ls =? 11) || (lc ls =? 12) then
        scan_loop fuel' (lex_next ls)
      else if lc ls =? 45 then
        let ls := lex_next ls in
        if negb (lc ls =? 45) then LOk (45, None, ls)
        else ls ← scan_comment (lex_next ls); scan_loop fuel' ls
      else scan_other ls
  end.

(** The token, the value it stores in [*tv] and the state behind it. *)
Definition lex_scan (ls : LexState) : lres (Z * option TokVal * LexState) :=
  let ls := with_sb ls [] in scan_loop (rounds ls) ls.
End scan.

(** ** The lexer's interface to the parser *)

Section lexer.
Context {Num : Type}.
Variable lj_strscan_scan : list Z -> Z * Num.

Record Lexer := MkLexer {
  ls : LexState; lastline : Z; tok : Z; lookahead : Z;
  tokval : option (@TokVal Num); lookaheadval : option (@TokVal Num) }.

(** A token without a value leaves the old one in place. *)
Definition keep (new old : option (@TokVal Num)) : option (@TokVal Num) :=
  match new with Some v => Some v | None => old end.

Definition lj_lex_next (x : Lexer) : lres Lexer :=
  let last := linenumber (ls x) in
  if lookahead x =? TK_eof then
    r ← lex_scan (tok x) lj_strscan_scan (ls x);
    let '(t, v, s) := r in
    LOk (MkLexer s last t (lookahead x) (keep v (tokval x)) (lookaheadval x))
  else LOk (MkLexer (ls x) last (lookahead x) TK_eof (lookaheadval x) (lookaheadval x)).

Definition lj_lex_lookahead (x : Lexer) : lres Lexer :=
  r ← lex_scan (tok x) lj_strscan_scan (ls x);
  let '(t, v, s) := r in
  LOk (MkLexer s (lastline x) (tok x) t (tokval x) (keep v (lookaheadval x))).

(** The rest of a line that begins with a hash sign; [None] when the input ends first. *)
Fixpoint header_loop (fuel : nat) (s : LexState) : lres (bool * LexState) :=
  match fuel with
  | O => LFuel
  | S fuel' =>
      let s := lex_next s in
      if lc s =? LEX_EOF then LOk (false, s)
      else if negb (lex_iseol s) then header_loop fuel' s else LOk (true, s)
  end.

(** The byte order mark is recognised only when it lies in the piece at hand. *)
Definition skip_bom (s : LexState) : bool * LexState :=
  match lc s =? 0xef, inp s with
  | true, a :: b :: p =>
      if (a =? 0xbb) && (b =? 0xbf) then
        (true, lex_next (MkLex (lc s) p (chunks s) (lsb s) (linenumber s) (logged s) (logroom s)))
      else (false, s)
  | _, _ => (false, s)
  end.

(** The state for the pieces of a chunk, and whether it is a bytecode dump. *)
Definition lj_lex_setup (sb : list Z) (reader : list (list Z)) : lres (bool * Lexer) :=
  let s := lex_next (MkLex 0 [] reader sb 1 [] 0) in
  let '(header, s) := skip_bom s in
  let done bc s := LOk (bc, MkLexer s 1 0 TK_eof None None) in
  r ← (if lc s =? 35 then
         r ← header_loop (rounds s) s;
         let '(more, s) := r in
         if more : bool then s ← lex_newline 0 s; LOk (true, true, s) else LOk (false, false, s)
       else LOk (true, header, s));
  let '(go, header, s) := r in
  if negb go then done false s
  else if lc s =? 27 then
    if header : bool then LErr (MkErr None (linenumber s) BCBAD) else done true s
  else done false s.
End lexer.
End Lex.
