(* ===== verification/LjLexSpec.v ===== *)
(** * LjLexSpec

    The scanner always comes to an end: every loop of [LjLex] reads a
    character a round, so with the fuel the definitions give it each operation
    returns a token or raises one of the lexer's errors, on any input, and
    reading token after token reaches the end of the chunk.  The input log
    never grows past its buffer. *)
From stdpp Require Import base tactics numbers list.
From Stdlib Require Import ZArith Lia.
From S2P Require Import Prelude LjStr LjStrfmt LjLex.
Import Lex.
Open Scope Z_scope.

Module LexSpec.

(** ** Results that are neither undefined nor out of fuel *)

Definition okp {A} (P : A -> Prop) (r : lres A) : Prop :=
  match r with LOk a => P a | LErr _ => True | _ => False end.

Lemma okp_bind {A B} (P : A -> Prop) (Q : B -> Prop) (r : lres A) (f : A -> lres B) :
  okp P r -> (forall a, P a -> okp Q (f a)) -> okp Q (r ≫= f).
Proof. destruct r; cbn; auto. Qed.

Lemma okp_mono {A} (P Q : A -> Prop) (r : lres A) :
  okp P r -> (forall a, P a -> Q a) -> okp Q r.
Proof. destruct r; cbn; auto. Qed.

(** ** Well-formed scanner states *)

Definition in_c (c : Z) : Prop := -1 <= c < 256.

(** The end of the input is final, and everything before it is a byte. *)
Definition wf (ls : LexState) : Prop :=
  Forall in_u8 (pending ls) /\ in_c (lc ls) /\ (lc ls = LEX_EOF -> pending ls = []) /\ 0 <= logroom ls.

(** The characters not passed yet, the current one included. *)
Definition left (ls : LexState) : nat :=
  length (pending ls) + (if lc ls =? LEX_EOF then 0 else 1).

(** The size of the log buffer, written and free. *)
Definition logsize (ls : LexState) : Z := zlen (logged ls) + logroom ls.

(** [ls'] is [ls] with at least [n] characters passed. *)
Definition adv (n : nat) (ls ls' : LexState) : Prop :=
  wf ls' /\ (left ls' + n <= left ls)%nat /\ logsize ls' = logsize ls.

Definition valid_tok (t : Z) : Prop := 0 <= t < 256 \/ TK_OFS < t <= TK_eof.

(** ** Characters *)

Lemma isa_total c t : in_c c -> exists b, isa c t = Some b.
Proof.
  intros Hc. unfold isa, Char.lj_char_isa.
  destruct (zget_is_Some Char.lj_char_bits (c + 1)) as [b ->].
  - change (zlen Char.lj_char_bits) with 257. unfold in_c in Hc. lia.
  - cbn. eauto.
Qed.

Lemma isa_eof t : isa LEX_EOF t = Some false.
Proof. reflexivity. Qed.

Lemma isa_class c t : in_u8 c -> t ∈ Char.classes -> isa c t = Some (Char.ascii_class t c).
Proof.
  intros Hc Ht. pose proof (Char.char_ok_all c Hc) as H. apply andb_prop in H as [H _].
  rewrite forallb_forall in H. specialize (H t (proj1 (list_elem_of_In _ _) Ht)).
  unfold isa. destruct (Char.lj_char_isa c t) as [b|]; [|done]. cbn. f_equal. by apply eqb_prop.
Qed.

Lemma isa_true_char c t : isa c t = Some true -> c <> LEX_EOF.
Proof. intros H ->. by rewrite isa_eof in H. Qed.

(** ** Advancing *)

Lemma lex_next_spec ls :
  lc (lex_next ls) = default LEX_EOF (head (pending ls)) /\
  pending (lex_next ls) = tail (pending ls) /\
  lsb (lex_next ls) = lsb ls /\ linenumber (lex_next ls) = linenumber ls /\
  logsize (lex_next ls) = logsize ls /\ (0 <= logroom ls -> 0 <= logroom (lex_next ls)).
Proof.
  unfold lex_next, pending, logsize. destruct (Z.ltb_spec 0 (logroom ls)).
  all: destruct (inp ls) as [|c p]; [destruct (chunks ls) as [|[|c p] cs]|];
    cbn [lex_more inp chunks lc lsb linenumber logged logroom upto app head tail default length];
    rewrite ?zlen_app; change (zlen [_]) with 1; repeat split; try lia; done.
Qed.

Lemma lex_next_adv ls : wf ls -> wf (lex_next ls) /\ left (lex_next ls) = (left ls - 1)%nat /\
  logsize (lex_next ls) = logsize ls.
Proof.
  intros (Hp & Hc & He & Hr). destruct (lex_next_spec ls) as (E1 & E2 & _ & _ & E5 & E6).
  unfold wf, left. rewrite E1, E2, E5. split_and!; try done; auto.
  - destruct Hp; [constructor|done].
  - destruct Hp as [|c p Hc']; cbn; [unfold in_c, LEX_EOF; lia|unfold in_c, in_u8 in *; lia].
  - destruct Hp as [|c p Hc']; cbn; [done|unfold LEX_EOF, in_u8 in *; lia].
  - destruct (Z.eqb_spec (lc ls) LEX_EOF) as [E|E]; [by rewrite He|].
    destruct Hp as [|c p Hc' Hp']; cbn; [done|].
    destruct (Z.eqb_spec c LEX_EOF); unfold LEX_EOF, in_u8 in *; lia.
Qed.

Lemma left_pos ls : lc ls <> LEX_EOF -> (0 < left ls)%nat.
Proof. intros H. unfold left. destruct (Z.eqb_spec (lc ls) LEX_EOF); [done|lia]. Qed.

Lemma adv_refl ls : wf ls -> adv 0 ls ls.
Proof. intros H. split_and!; [done|lia|done]. Qed.

Lemma adv_trans n m k ls ls' ls'' : adv n ls ls' -> adv m ls' ls'' -> (k <= n + m)%nat -> adv k ls ls''.
Proof. intros (W & L & G) (W' & L' & G') Hk. split_and!; [done|lia|congruence]. Qed.

Lemma adv_wf n ls ls' : adv n ls ls' -> wf ls'.
Proof. by intros [? _]. Qed.

(** Steps that do not read leave all this alone. *)
Lemma adv_sb n ls ls' b : adv n ls ls' -> adv n ls (with_sb ls' b).
Proof. done. Qed.
Lemma adv_save n ls ls' c : adv n ls ls' -> adv n ls (lex_save ls' c).
Proof. done. Qed.
Lemma wf_sb ls b : wf ls -> wf (with_sb ls b).
Proof. done. Qed.

Lemma adv_next ls : wf ls -> lc ls <> LEX_EOF -> adv 1 ls (lex_next ls).
Proof.
  intros W H. destruct (lex_next_adv ls W) as (W' & L & G). pose proof (left_pos ls H).
  split_and!; [done|lia|done].
Qed.

Lemma adv_next0 ls : wf ls -> adv 0 ls (lex_next ls).
Proof. intros W. destruct (lex_next_adv ls W) as (W' & L & G). split_and!; [done|lia|done]. Qed.

Lemma adv_savenext ls : wf ls -> lc ls <> LEX_EOF -> adv 1 ls (lex_savenext ls).
Proof. intros W H. by apply (adv_next (lex_save ls (lc ls))). Qed.

Lemma rounds_left ls : (left ls < rounds ls)%nat.
Proof. unfold left, rounds. destruct (_ =? _); lia. Qed.

Create HintDb lex.
#[export] Hint Resolve adv_refl adv_next adv_next0 adv_savenext adv_sb adv_save wf_sb rounds_left adv_wf : lex.

Lemma lex_error_ok {A} (P : A -> Prop) ls t em : valid_tok t -> okp P (lj_lex_error ls t em).
Proof.
  intros Ht. unfold lj_lex_error. destruct (t =? 0); [done|]. destruct (_ || _ || _); [done|].
  unfold lj_lex_token2str. destruct (Z.ltb_spec TK_OFS t).
  - destruct (zget_is_Some tokennames (t - TK_OFS - 1)) as [x ->]; [|done].
    change (zlen tokennames) with 33. unfold valid_tok, TK_OFS, TK_eof in *. lia.
  - destruct (isa_total t Char.LJ_CHAR_CNTRL) as [b ->].
    { unfold valid_tok, TK_OFS, in_c in *. lia. }
    cbn. by destruct b.
Qed.

(** A class test of the current character never fails; when it succeeds there
    is a character. *)
Lemma okp_isa {B} (Q : B -> Prop) ls t (f : bool -> lres B) :
  wf ls -> (lc ls <> LEX_EOF -> okp Q (f true)) -> okp Q (f false) ->
  okp Q (lchk (isa (lc ls) t) ≫= f).
Proof.
  intros W Ht Hf. destruct (isa_total (lc ls) t) as [b E]; [apply W|]. rewrite E. cbn.
  destruct b; [|done]. by eapply Ht, isa_true_char.
Qed.

Section scan.
Context {Num : Type} (tok : Z) (scan : list Z -> Z * Num) (Htok : valid_tok tok).

Lemma lex_newline_adv ls : wf ls -> lc ls <> LEX_EOF -> okp (adv 1 ls) (lex_newline tok ls).
Proof using Htok.
  intros W H. unfold lex_newline.
  set (l1 := if _ && _ then _ else _). assert (A : adv 1 ls l1).
  { subst l1. destruct (_ && _); [|auto with lex].
    eapply adv_trans; [by apply adv_next|apply adv_next0|lia]. eauto with lex. }
  destruct (_ <=? _); [by apply lex_error_ok|]. done.
Qed.

Lemma number_loop_adv fuel : forall ls c xp,
  wf ls -> (left ls < fuel)%nat -> okp (adv 0 ls) (number_loop fuel ls c xp).
Proof.
  induction fuel as [|fuel IH]; intros ls c xp W Hf; [lia|]. cbn [number_loop].
  assert (Hgo : lc ls <> LEX_EOF -> okp (adv 0 ls) (number_loop fuel (lex_savenext ls) (lc ls) xp)).
  { intros H. pose proof (adv_savenext ls W H) as A. pose proof (left_pos ls H).
    eapply okp_mono; [apply IH|intros a A'; eapply adv_trans; [exact A|exact A'|lia]].
    - eauto with lex.
    - destruct A as (_ & L & _). lia. }
  apply okp_isa; [done|by auto|]. destruct (Z.eqb_spec (lc ls) 46) as [E|E].
  { apply Hgo. rewrite E. done. }
  destruct (Z.eqb_spec (lc ls) 45) as [E1|E1]; [|destruct (Z.eqb_spec (lc ls) 43) as [E2|E2]].
  all: cbn [orb andb]; try destruct (_ =? xp); try (cbn; by apply adv_refl); apply Hgo; unfold LEX_EOF; lia.
Qed.

(** At a character of a number at least that one is read. *)
Lemma number_loop_adv1 ls c xp :
  wf ls -> isa (lc ls) Char.LJ_CHAR_IDENT = Some true -> okp (adv 1 ls) (number_loop (rounds ls) ls c xp).
Proof.
  intros W H. pose proof (rounds_left ls) as R. destruct (rounds ls) as [|fuel]; [lia|].
  cbn [number_loop]. rewrite H. cbn [lchk mbind lres_bind orb].
  pose proof (adv_savenext ls W (isa_true_char _ _ H)) as A. eapply okp_mono.
  - apply number_loop_adv; [by eapply adv_wf|].
    pose proof (left_pos ls (isa_true_char _ _ H)). destruct A as (_ & L & _). lia.
  - intros a A'. eapply adv_trans; [exact A|exact A'|lia].
Qed.

Lemma lex_number_adv n ls :
  wf ls -> lc ls <> LEX_EOF -> (n = 0 \/ n = 1 /\ isa (lc ls) Char.LJ_CHAR_IDENT = Some true)%nat ->
  okp (fun r => adv n ls r.2) (lex_number scan ls).
Proof using Htok.
  intros W H Hn. unfold lex_number. set (p := if lc ls =? 48 then _ else _).
  assert (Hl : okp (adv n ls) (number_loop (rounds p.1) p.1 (lc ls) p.2)).
  { subst p. destruct (lc ls =? 48); cbn [fst snd].
    - pose proof (adv_savenext ls W H) as A. eapply okp_mono.
      + apply number_loop_adv; [by eapply adv_wf|apply rounds_left].
      + intros a A'. eapply adv_trans; [exact A|exact A'|lia].
    - destruct Hn as [->|[-> Hi]]; [|by apply number_loop_adv1].
      apply number_loop_adv; [done|apply rounds_left]. }
  destruct p as [l1 xp]. cbn [fst snd] in Hl. eapply okp_bind; [exact Hl|].
  intros l2 A2. destruct (scan _) as [fmt v]. pose proof (adv_save _ _ _ 0 A2) as A3.
  destruct (_ =? STRSCAN_NUM); [done|]. destruct (negb _); [done|].
  apply lex_error_ok. right. done.
Qed.

Lemma skipeq_loop_adv fuel : forall ls count,
  wf ls -> lc ls <> LEX_EOF -> (left ls < fuel)%nat -> 0 <= count ->
  okp (fun r => adv 1 ls r.1 /\ 0 <= r.2) (skipeq_loop fuel ls count).
Proof.
  induction fuel as [|fuel IH]; intros ls count W H Hf Hc; [lia|]. cbn [skipeq_loop].
  pose proof (adv_savenext ls W H) as A. destruct (Z.eqb_spec (lc (lex_savenext ls)) 61) as [E|E]; [|done].
  destruct (_ <? _); [|done]. cbn [andb]. eapply okp_mono.
  - apply IH; [eauto with lex|by rewrite E|destruct A as (_ & L & _); lia|lia].
  - intros a [A' Hc']. split; [|done]. eapply adv_trans; [exact A|exact A'|lia].
Qed.

(** A result that is not negative says that a second bracket follows. *)
Lemma lex_skipeq_adv ls : wf ls -> lc ls <> LEX_EOF ->
  okp (fun r => adv 1 ls r.2 /\ (0 <= r.1 -> lc r.2 = lc ls)) (lex_skipeq ls).
Proof.
  intros W H. unfold lex_skipeq. eapply okp_bind.
  { apply skipeq_loop_adv; [done|done|apply rounds_left|lia]. }
  intros [l c] [A Hc]. cbn in *. split; [exact A|]. destruct (Z.eqb_spec (lc l) (lc ls)); [done|lia].
Qed.

(** The induction step of every loop: what a round read makes the fuel for
    the rest suffice. *)
Lemma loop_step (f : LexState -> lres LexState) n fuel ls l1 :
  (forall l, wf l -> (left l < fuel)%nat -> okp (adv 0 l) (f l)) ->
  adv (S n) ls l1 -> (left ls < S fuel)%nat -> okp (adv (S n) ls) (f l1).
Proof.
  intros IH A Hf. eapply okp_mono.
  - apply IH; [by eapply adv_wf|destruct A as (_ & L & _); lia].
  - intros a A'. eapply adv_trans; [exact A|exact A'|lia].
Qed.

Lemma okp_weaken n ls r : okp (adv n ls) r -> okp (adv 0 ls) r.
Proof. intros H. eapply okp_mono; [exact H|]. intros a (W & L & G). split_and!; [done|lia|done]. Qed.

Lemma longstring_loop_adv fuel str sep : forall ls,
  wf ls -> (left ls < fuel)%nat -> okp (adv 0 ls) (longstring_loop tok fuel str sep ls).
Proof using Htok.
  induction fuel as [|fuel IH]; intros ls W Hf; [lia|]. cbn [longstring_loop].
  destruct (Z.eqb_spec (lc ls) LEX_EOF) as [E|E]; [apply lex_error_ok; right; done|].
  apply (okp_weaken 1).
  destruct (lc ls =? 93).
  { eapply okp_bind; [by apply lex_skipeq_adv|]. intros [n l] [A _]. cbn in A.
    destruct (n =? sep); [|by eapply loop_step].
    eapply adv_trans; [exact A|apply (adv_next0 (lex_save l (lc l)))|lia].
    apply wf_sb. eauto with lex. }
  destruct (_ || _); [|eapply loop_step; [done|by apply adv_savenext|done]].
  eapply okp_bind; [by apply (lex_newline_adv (lex_save ls 10))|]. intros l A.
  eapply loop_step; [done| |done]. destruct str; [done|by apply adv_sb].
Qed.

Lemma lex_longstring_adv str sep ls :
  wf ls -> lc ls <> LEX_EOF -> okp (fun r => adv 1 ls r.2) (lex_longstring tok str sep ls).
Proof using Htok.
  intros W H. unfold lex_longstring. pose proof (adv_savenext ls W H) as A.
  set (l1 := lex_savenext ls) in *. apply (okp_bind (adv 1 ls)).
  { destruct (lex_iseol l1) eqn:E; [|done]. eapply okp_mono; [apply lex_newline_adv|].
    - eauto with lex.
    - intros E'. unfold lex_iseol in E. by rewrite E' in E.
    - intros a A'. eapply adv_trans; [exact A|exact A'|lia]. }
  intros l2 A2. eapply okp_bind; [apply longstring_loop_adv; [eauto with lex|apply rounds_left]|].
  intros l3 A3. cbn. eapply adv_trans; [exact A2|exact A3|lia].
Qed.

(** ** String literals *)

Lemma TK_string_valid : valid_tok TK_string.
Proof. right. done. Qed.

Lemma xdigit_ok ls : wf ls -> okp (fun _ => lc ls <> LEX_EOF) (xdigit ls).
Proof.
  intros W. unfold xdigit. apply okp_isa; [done|done|]. apply okp_isa; [done|done|].
  apply lex_error_ok, TK_string_valid.
Qed.

Lemma uni_loop_adv fuel : forall ls c,
  wf ls -> (left ls < fuel)%nat -> okp (fun r => adv 0 ls r.1) (uni_loop fuel ls c).
Proof.
  induction fuel as [|fuel IH]; intros ls c W Hf; [lia|]. cbn [uni_loop].
  assert (Hgo : forall c', lc ls <> LEX_EOF -> okp (fun r => adv 0 ls r.1)
    (if 0x110000 <=? c' then lj_lex_error ls TK_string XESC
     else if lc (lex_next ls) =? 125 then LOk (lex_next ls, c') else uni_loop fuel (lex_next ls) c')).
  { intros c' H. destruct (_ <=? c'); [apply lex_error_ok, TK_string_valid|].
    pose proof (adv_next ls W H) as A. destruct (_ =? 125); [cbn; auto with lex|].
    eapply okp_mono; [apply IH|].
    - eauto with lex.
    - destruct A as (_ & L & _). lia.
    - intros a A'. eapply adv_trans; [exact A|exact A'|lia]. }
  apply okp_isa; [done|intros H; by apply Hgo|].
  eapply (okp_bind (fun _ => lc ls <> LEX_EOF)); [|intros c' H; by apply Hgo].
  apply okp_isa; [done|done|apply lex_error_ok, TK_string_valid].
Qed.

Lemma uni_save_adv n ls l c : adv n ls l -> okp (fun r => adv n ls r.1) (uni_save l c).
Proof.
  intros A. unfold uni_save. destruct (_ <? 0x80); [done|].
  apply (okp_bind (adv n ls)); [|done]. destruct (_ <? 0x800); [done|].
  apply (okp_bind (adv n ls)); [|done]. destruct (_ <=? c); [done|].
  destruct (_ && _); [|done]. apply lex_error_ok, TK_string_valid.
Qed.

Lemma skip_space_adv fuel : forall ls,
  wf ls -> (left ls < fuel)%nat -> okp (adv 0 ls) (skip_space tok fuel ls).
Proof using Htok.
  induction fuel as [|fuel IH]; intros ls W Hf; [lia|]. cbn [skip_space].
  apply okp_isa; [done| |by apply adv_refl]. intros H. apply (okp_weaken 1).
  apply (okp_bind (adv 1 ls)); [|intros l A; by eapply loop_step].
  destruct (lex_iseol ls); [by apply lex_newline_adv|by apply adv_next].
Qed.

Lemma esc_dec_adv ls : wf ls -> lc ls <> LEX_EOF -> okp (adv 1 ls) (esc_dec ls (lc ls)).
Proof.
  intros W H. unfold esc_dec. pose proof (adv_next ls W H) as A.
  apply okp_isa; [done| |apply lex_error_ok, TK_string_valid]. intros _. cbn [negb].
  apply okp_isa; [by eapply adv_wf| |done]. intros H2.
  assert (A2 : adv 1 ls (lex_next (lex_next ls))).
  { eapply adv_trans; [exact A|apply adv_next0; eauto with lex|lia]. }
  apply okp_isa; [by eapply adv_wf| |done]. intros H3.
  destruct (255 <? _); [apply lex_error_ok, TK_string_valid|].
  apply adv_save. eapply adv_trans; [exact A2|apply adv_next0; eauto with lex|lia].
Qed.

Lemma lex_escape_adv ls : wf ls -> lc ls <> LEX_EOF -> okp (adv 1 ls) (lex_escape tok ls).
Proof using Htok.
  intros W H. unfold lex_escape. pose proof (adv_next ls W H) as A. set (l1 := lex_next ls) in *.
  pose proof (adv_wf _ _ _ A) as W1.
  assert (Hn : forall l, adv 1 ls l -> adv 1 ls (lex_next l)).
  { intros l Al. eapply adv_trans; [exact Al|apply adv_next0; eauto with lex|lia]. }
  destruct (esc_letter (lc l1)) as [c|]; [by apply (Hn (lex_save l1 c))|].
  destruct (lc l1 =? 120).
  { pose proof (Hn _ A) as A2. pose proof (Hn _ A2) as A3.
    eapply okp_bind; [by apply xdigit_ok, (adv_wf _ _ _ A2)|]. intros h _.
    eapply okp_bind; [by apply xdigit_ok, (adv_wf _ _ _ A3)|]. intros k _.
    apply (Hn (lex_save _ _)), adv_save, A3. }
  destruct (lc l1 =? 117).
  { pose proof (Hn _ A) as A2. pose proof (Hn _ A2) as A3.
    destruct (negb _); [apply lex_error_ok, TK_string_valid|].
    eapply okp_bind; [apply uni_loop_adv; [by apply (adv_wf _ _ _ A3)|apply rounds_left]|].
    intros [l4 c] A4. cbn in A4. eapply (okp_bind (fun r => adv 1 ls r.1)).
    - apply uni_save_adv. eapply adv_trans; [exact A3|exact A4|lia].
    - intros [l5 c5] A5. by apply (Hn (lex_save l5 c5)). }
  destruct (lc l1 =? 122).
  { pose proof (Hn _ A) as A2. eapply okp_mono.
    - apply skip_space_adv; [by apply (adv_wf _ _ _ A2)|apply rounds_left].
    - intros l A3. eapply adv_trans; [exact A2|exact A3|lia]. }
  destruct ((lc l1 =? 10) || (lc l1 =? 13)) eqn:E.
  { eapply okp_mono; [apply (lex_newline_adv (lex_save l1 10)); [done|]|].
    - intros E'. cbn in E'. by rewrite E' in E.
    - intros l A2. eapply adv_trans; [exact A|exact A2|lia]. }
  destruct (Z.eqb_spec (lc l1) LEX_EOF) as [E1|E1]; [done|].
  eapply okp_mono; [by apply esc_dec_adv|]. intros l A2. eapply adv_trans; [exact A|exact A2|lia].
Qed.

Lemma string_loop_adv fuel delim : forall ls,
  wf ls -> (left ls < fuel)%nat -> okp (adv 0 ls) (string_loop tok fuel delim ls).
Proof using Htok.
  induction fuel as [|fuel IH]; intros ls W Hf; [lia|]. cbn [string_loop].
  destruct (lc ls =? delim); [by apply adv_refl|].
  destruct (Z.eqb_spec (lc ls) LEX_EOF) as [E|E]; [apply lex_error_ok; right; done|].
  destruct (_ || _); [apply lex_error_ok, TK_string_valid|]. apply (okp_weaken 1).
  destruct (lc ls =? 92).
  - eapply okp_bind; [by apply lex_escape_adv|]. intros l A. by eapply loop_step.
  - eapply loop_step; [done|by apply adv_savenext|done].
Qed.

Lemma lex_string_adv ls : wf ls -> lc ls <> LEX_EOF -> okp (fun r => adv 1 ls r.2) (lex_string tok ls).
Proof using Htok.
  intros W H. unfold lex_string. pose proof (adv_savenext ls W H) as A.
  eapply okp_bind; [apply string_loop_adv; [by eapply adv_wf|apply rounds_left]|].
  intros l A2. cbn.
  eapply adv_trans; [exact A| |reflexivity].
  eapply adv_trans; [exact A2|apply (adv_next0 (lex_save l (lc l)))|reflexivity].
  apply wf_sb. eauto with lex.
Qed.

(** ** Tokens *)

(** A token was read behind [ls], or the input is at its end. *)
Definition tokp (ls : LexState) (r : Z * option (@TokVal Num) * LexState) : Prop :=
  let '(t, _, ls') := r in
  valid_tok t /\ wf ls' /\ logsize ls' = logsize ls /\
  (left ls' < left ls \/ t = TK_eof /\ left ls' <= left ls)%nat.

Lemma tokp_adv ls t v l : valid_tok t -> adv 1 ls l -> tokp ls (t, v, l).
Proof. intros Ht (W & L & G). split_and!; [done|done|done|]. left. lia. Qed.

Lemma tokp_trans ls l r : adv 0 ls l -> tokp l r -> tokp ls r.
Proof.
  intros (W & L & G) H. destruct r as [[t v] l']. destruct H as (Ht & W' & G' & H).
  split_and!; [done|done|congruence|]. destruct H as [H|[-> H]]; [left|right]; [|split; [done|]]; lia.
Qed.

Lemma find_index_bound s l : forall i, 0 < i -> 0 <= find_index s l i < i + zlen l \/ find_index s l i = 0.
Proof.
  induction l as [|x l IH]; intros i Hi; cbn [find_index]; [by right|].
  rewrite zlen_cons. pose proof (zlen_nonneg l). case_bool_decide; [left; lia|].
  destruct (IH (i + 1)); [lia|left; lia|by right].
Qed.

Lemma ident_loop_adv fuel : forall ls,
  wf ls -> lc ls <> LEX_EOF -> (left ls < fuel)%nat -> okp (adv 1 ls) (ident_loop fuel ls).
Proof.
  induction fuel as [|fuel IH]; intros ls W H Hf; [lia|]. cbn [ident_loop].
  pose proof (adv_savenext ls W H) as A. apply okp_isa; [by eapply adv_wf| |done]. intros H2.
  eapply okp_mono; [apply IH; [by eapply adv_wf|done|destruct A as (_ & L & _); lia]|].
  intros l A2. eapply adv_trans; [exact A|exact A2|lia].
Qed.

Lemma comment_loop_adv fuel : forall ls,
  wf ls -> (left ls < fuel)%nat -> okp (adv 0 ls) (comment_loop fuel ls).
Proof.
  induction fuel as [|fuel IH]; intros ls W Hf; [lia|]. cbn [comment_loop].
  destruct (Z.eqb_spec (lc ls) LEX_EOF) as [E|E]; [rewrite andb_false_r; by apply adv_refl|].
  destruct (_ && _); [|by apply adv_refl]. apply (okp_weaken 1).
  eapply loop_step; [done|by apply adv_next|done].
Qed.

Lemma scan_ident_tok ls : wf ls -> lc ls <> LEX_EOF -> okp (tokp ls) (scan_ident ls).
Proof.
  intros W H. unfold scan_ident.
  eapply okp_bind; [apply ident_loop_adv; [done|done|apply rounds_left]|].
  intros l A. apply tokp_adv; [|done].
  destruct (find_index_bound (lsb l) (take (Z.to_nat TK_RESERVED) tokennames) 1) as [Hr|Hr]; [lia| |];
    change (find_index _ _ _) with (reserved (lsb l)) in Hr.
  - change (zlen _) with 22 in Hr. unfold valid_tok, TK_OFS, TK_eof, TK_name. destruct (Z.ltb_spec 0 (reserved (lsb l))); lia.
  - rewrite Hr. right. done.
Qed.

Lemma scan_comment_adv ls : wf ls -> okp (adv 0 ls) (scan_comment tok ls).
Proof using Htok.
  intros W. unfold scan_comment. destruct (Z.eqb_spec (lc ls) 91) as [E|E].
  - eapply okp_bind; [apply lex_skipeq_adv; [done|by rewrite E]|]. intros [sep l] [A Hb]. cbn in A, Hb.
    pose proof (adv_sb _ _ _ [] A) as A1. pose proof (adv_wf _ _ _ A1) as W1.
    destruct (Z.leb_spec 0 sep) as [Es|Es].
    + eapply okp_bind; [apply lex_longstring_adv; [done|by cbn; rewrite Hb, E]|]. intros [b l2] A2. cbn.
      apply adv_sb. eapply adv_trans; [exact A1|exact A2|lia].
    + eapply okp_mono; [apply comment_loop_adv; [done|apply rounds_left]|].
      intros l2 A2. eapply adv_trans; [exact A1|exact A2|lia].
  - apply comment_loop_adv; [done|apply rounds_left].
Qed.

Lemma two_char_tok ls second t :
  wf ls -> in_u8 (lc ls) -> valid_tok t -> tokp ls (two_char ls second t).
Proof.
  intros W H Ht. unfold two_char.
  assert (A : adv 1 ls (lex_next ls)) by (apply adv_next; [done|unfold in_u8, LEX_EOF in *; lia]).
  destruct (negb _); apply tokp_adv; [left; exact H|done|done|].
  eapply adv_trans; [exact A|apply adv_next0; eauto with lex|lia].
Qed.

Lemma scan_bracket_tok ls : wf ls -> lc ls = 91 -> okp (tokp ls) (scan_bracket tok ls).
Proof using Htok.
  intros W E. unfold scan_bracket.
  eapply okp_bind; [apply lex_skipeq_adv; [done|by rewrite E]|]. intros [sep l] [A Hb]. cbn in A, Hb.
  destruct (Z.leb_spec 0 sep) as [Es|Es].
  - eapply okp_bind; [apply lex_longstring_adv; [by eapply adv_wf|by rewrite Hb, E]|].
    intros [b l2] A2. apply tokp_adv; [right; done|]. eapply adv_trans; [exact A|exact A2|lia].
  - destruct (sep =? -1); [apply tokp_adv; [left; lia|done]|]. apply lex_error_ok, TK_string_valid.
Qed.

Lemma scan_dot_tok ls : wf ls -> lc ls = 46 -> okp (tokp ls) (scan_dot scan ls).
Proof using Htok.
  intros W E. unfold scan_dot.
  assert (A : adv 1 ls (lex_savenext ls)) by (apply adv_savenext; [done|by rewrite E]).
  pose proof (adv_wf _ _ _ A) as W1. set (l1 := lex_savenext ls) in *.
  destruct (lc l1 =? 46).
  { assert (A2 : adv 1 ls (lex_next l1)) by (eapply adv_trans; [exact A|by apply adv_next0|lia]).
    destruct (_ =? 46); apply tokp_adv; try done; try (right; done).
    eapply adv_trans; [exact A2|apply adv_next0; eauto with lex|lia]. }
  apply okp_isa; [done| |apply tokp_adv; [left; lia|done]]. intros H. cbn [negb].
  eapply okp_bind; [by apply (lex_number_adv 0); [..|left]|]. intros [v l2] A2.
  apply tokp_adv; [right; done|]. eapply adv_trans; [exact A|exact A2|lia].
Qed.

Lemma scan_other_tok ls : wf ls -> okp (tokp ls) (scan_other tok scan ls).
Proof using Htok.
  intros W. assert (Hc : in_c (lc ls)) by apply W. unfold scan_other.
  assert (Ht : forall s t n, lc ls = n -> in_u8 n -> valid_tok t -> okp (tokp ls) (LOk (two_char ls s t))).
  { intros s t n E Hn. rewrite <- E in Hn. by apply two_char_tok. }
  destruct (Z.eqb_spec (lc ls) 91) as [E|_]; [by apply scan_bracket_tok|].
  destruct (Z.eqb_spec (lc ls) 61) as [E|_]; [by eapply Ht; [exact E| |right]|].
  destruct (Z.eqb_spec (lc ls) 60) as [E|_]; [by eapply Ht; [exact E| |right]|].
  destruct (Z.eqb_spec (lc ls) 62) as [E|_]; [by eapply Ht; [exact E| |right]|].
  destruct (Z.eqb_spec (lc ls) 126) as [E|_]; [by eapply Ht; [exact E| |right]|].
  destruct (Z.eqb_spec (lc ls) 58) as [E|_]; [by eapply Ht; [exact E| |right]|].
  destruct ((lc ls =? 34) || (lc ls =? 39)) eqn:E.
  { eapply okp_bind; [apply lex_string_adv; [done|intros E'; by rewrite E' in E]|].
    intros [b l] A. apply tokp_adv; [right; done|exact A]. }
  destruct (Z.eqb_spec (lc ls) 46) as [E1|_]; [by apply scan_dot_tok|].
  destruct (Z.eqb_spec (lc ls) LEX_EOF) as [E1|E1].
  - split_and!; [right; done|done|done|]. by right.
  - apply tokp_adv; [|by apply adv_next]. left. unfold in_c, LEX_EOF in *. lia.
Qed.

Lemma scan_loop_tok fuel : forall ls,
  wf ls -> (left ls < fuel)%nat -> okp (tokp ls) (scan_loop tok scan fuel ls).
Proof using Htok.
  induction fuel as [|fuel IH]; intros ls W Hf; [lia|]. cbn [scan_loop].
  assert (Hgo : forall l, adv 1 ls l -> okp (tokp ls) (scan_loop tok scan fuel l)).
  { intros l A. eapply okp_mono; [apply IH; [by eapply adv_wf|destruct A as (_ & L & _); lia]|].
    intros r Hr. eapply tokp_trans; [|exact Hr]. eapply adv_trans; [exact A|apply adv_refl|lia].
    by eapply adv_wf. }
  destruct (isa_total (lc ls) Char.LJ_CHAR_IDENT) as [id Ei]; [apply W|]. rewrite Ei.
  cbn [lchk mbind lres_bind]. destruct id.
  { pose proof (isa_true_char _ _ Ei) as H. apply okp_isa; [done| |by apply scan_ident_tok]. intros _.
    eapply okp_bind; [by apply (lex_number_adv 1); [..|right]|]. intros [v l] A.
    apply tokp_adv; [right; done|exact A]. }
  destruct ((lc ls =? 10) || (lc ls =? 13)) eqn:E.
  { eapply okp_bind; [apply lex_newline_adv; [done|intros E'; by rewrite E' in E]|]. exact Hgo. }
  destruct (_ || _ || _ || _) eqn:E2.
  { apply Hgo, adv_next; [done|]. intros E'. by rewrite E' in E2. }
  destruct (Z.eqb_spec (lc ls) 45) as [E3|E3]; [|by apply scan_other_tok].
  assert (A : adv 1 ls (lex_next ls)) by (apply adv_next; [done|by rewrite E3]).
  destruct (negb _); [apply tokp_adv; [left; lia|done]|].
  eapply okp_bind; [apply scan_comment_adv, (adv_wf 0 (lex_next ls)), adv_next0; by eapply adv_wf|].
  intros l A2. apply Hgo. eapply adv_trans; [exact A| |reflexivity].
  eapply adv_trans; [apply adv_next0; by eapply adv_wf|exact A2|reflexivity].
Qed.

Lemma lex_scan_tok ls : wf ls -> okp (tokp ls) (lex_scan tok scan ls).
Proof using Htok. intros W. apply (scan_loop_tok _ (with_sb ls [])); [done|apply rounds_left]. Qed.
End scan.

(** ** A whole chunk *)

Section chunk.
Context {Num : Type} (scan : list Z -> Z * Num).

(** The parser's view of a chunk: token after token up to the end. *)
Fixpoint tokens (fuel : nat) (x : Lexer) : lres (list Z) :=
  match fuel with
  | O => LFuel
  | S fuel' =>
      x ← lj_lex_next scan x;
      if Lex.tok x =? TK_eof then LOk [TK_eof] else ts ← tokens fuel' x; LOk (Lex.tok x :: ts)
  end.

Definition lexwf (x : @Lexer Num) : Prop :=
  wf (Lex.ls x) /\ valid_tok (Lex.tok x) /\ lookahead x = TK_eof.

Lemma tokens_ok fuel : forall x,
  lexwf x -> (left (Lex.ls x) < fuel)%nat -> okp (fun ts => last ts = Some TK_eof) (tokens fuel x).
Proof.
  induction fuel as [|fuel IH]; intros x (W & Ht & Hl) Hf; [lia|]. cbn [tokens].
  unfold lj_lex_next. rewrite Hl. change (TK_eof =? TK_eof) with true. cbn [mbind].
  apply (okp_bind (fun x' => lexwf x' /\
    ((left (Lex.ls x') < left (Lex.ls x))%nat \/ Lex.tok x' = TK_eof))).
  { eapply okp_bind; [by apply (lex_scan_tok _ scan Ht)|]. intros [[t v] l] (Ht' & W' & _ & Hp).
    split; [done|]. cbn. destruct Hp as [Hp|[Hp _]]; auto. }
  intros x' [Hx Hp]. destruct (Z.eqb_spec (Lex.tok x') TK_eof) as [E|E]; [done|].
  destruct Hp as [Hp|Hp]; [|done]. eapply okp_bind; [apply IH; [done|lia]|].
  intros ts Hts. cbn. by destruct ts.
Qed.

Lemma header_loop_adv fuel : forall s,
  wf s -> lc s <> LEX_EOF -> (left s < fuel)%nat -> 
  okp (fun r => adv 1 s r.2 /\ (r.1 = true -> lc r.2 <> LEX_EOF)) (header_loop fuel s).
Proof.
  induction fuel as [|fuel IH]; intros s W H Hf; [lia|]. cbn [header_loop].
  pose proof (adv_next s W H) as A. destruct (Z.eqb_spec (lc (lex_next s)) LEX_EOF) as [E|E]; [done|].
  destruct (negb _); [|done]. eapply okp_mono.
  - apply IH; [by eapply adv_wf|done|destruct A as (_ & L & _); lia].
  - intros [b l] [A2 Hb]. split; [|done]. eapply adv_trans; [exact A|exact A2|lia].
Qed.

Lemma skip_bom_adv s : wf s -> adv 0 s (skip_bom s).2.
Proof.
  intros W. unfold skip_bom. destruct (Z.eqb_spec (lc s) 0xef) as [E|E]; [|by apply adv_refl].
  destruct (inp s) as [|a [|b p]] eqn:Ei; [by apply adv_refl..|].
  destruct (_ && _); [|by apply adv_refl]. cbn [snd]. set (s' := MkLex _ _ _ _ _ _ _).
  assert (A : adv 0 s s').
  { destruct W as (Hp & Hc & _ & Hr). unfold pending in Hp. rewrite Ei in Hp. cbn in Hp.
    inversion_clear Hp as [|? ? _ Hp']. inversion_clear Hp' as [|? ? _ Hp''].
    split_and!; [|unfold left, pending; rewrite Ei; cbn; lia|done].
    split_and!; [done|done| |done]. intros E'. cbn in E'. by rewrite E in E'. }
  eapply adv_trans; [exact A|apply adv_next0; by eapply adv_wf|lia].
Qed.

Lemma upto_bytes reader : Forall (Forall in_u8) reader -> Forall in_u8 (upto reader).
Proof.
  induction 1 as [|p cs Hp _ IH]; cbn [upto]; [constructor|]. destruct p; [constructor|].
  by apply Forall_app.
Qed.

Lemma setup_ok reader : Forall (Forall in_u8) reader ->
  okp (fun r => lexwf r.2 /\ (left (Lex.ls r.2) <= length (upto reader))%nat)
    (@lj_lex_setup Num [] reader).
Proof.
  intros Hr. unfold lj_lex_setup. set (s0 := MkLex 0 [] reader [] 1 [] 0).
  assert (W0 : wf s0).
  { split_and!; [by apply upto_bytes|done|done|done]. }
  assert (A1 : adv 1 s0 (lex_next s0)) by by apply adv_next.
  pose proof (skip_bom_adv _ (adv_wf _ _ _ A1)) as A2. destruct (skip_bom _) as [header s]. cbn in A2.
  assert (A : adv 1 s0 s) by (eapply adv_trans; [exact A1|exact A2|lia]). clear A1 A2.
  apply (okp_bind (fun r => adv 1 s0 r.2)).
  - destruct (Z.eqb_spec (lc s) 35) as [E|E]; [|done]. eapply okp_bind.
    { apply header_loop_adv; [by eapply adv_wf|by rewrite E|apply rounds_left]. }
    intros [more l] [A2 Hm]. cbn in A2, Hm.
    assert (A3 : adv 1 s0 l) by (eapply adv_trans; [exact A|exact A2|lia]).
    destruct more; [|exact A3]. eapply okp_bind.
    { apply lex_newline_adv; [left; lia|by eapply adv_wf|auto]. }
    intros l2 A4. cbn. eapply adv_trans; [exact A3|exact A4|lia].
  - intros [[go h] l] A2. cbn in A2.
    assert (Hd : forall bc : bool, okp (fun r => lexwf r.2 /\ (left (Lex.ls r.2) <= length (upto reader))%nat)
      (LOk (bc, @MkLexer Num l 1 0 TK_eof None None))).
    { intros bc. destruct A2 as (W & L & _). split; [split_and!; [done|left; cbn; lia|done]|].
      cbn. unfold left in L at 2. cbn in L. unfold pending in L. cbn in L. lia. }
    destruct (negb go); [done|]. destruct (_ =? 27); [|done]. by destruct h.
Qed.
End chunk.

(** C17: The lexer comes to an end on any input.  For every sequence of pieces
    of bytes the reader may deliver and every number conversion, setting up
    the lexer and then reading token after token never indexes a table out of
    range and never loops: after at most one more token than there are bytes
    it has either met the end-of-file token or raised one of the lexer's
    errors. *)
Theorem lexer_total {Num} (scan : list Z -> Z * Num) (reader : list (list Z)) :
  Forall (Forall in_u8) reader ->
  (exists e, @lj_lex_setup Num [] reader = LErr e) \/
  exists bc x, lj_lex_setup [] reader = LOk (bc, x) /\
    ((exists e, tokens scan (S (length (upto reader))) x = LErr e) \/
     (exists ts, tokens scan (S (length (upto reader))) x = LOk ts /\ last ts = Some TK_eof)).
Proof.
  intros Hr. pose proof (@setup_ok Num reader Hr) as H.
  destruct (lj_lex_setup [] reader) as [[bc x]|e| |]; [|by left; eauto|done|done].
  right. exists bc, x. split; [done|]. destruct H as [Hx Hl]. cbn in Hx, Hl.
  pose proof (tokens_ok scan (S (length (upto reader))) x Hx ltac:(lia)) as Ht.
  destruct (tokens _ _ _) as [ts|e| |]; [right; eauto|left; eauto|done|done].
Qed.

(** The pieces [x=] and [1 -- c]. *)
Lemma lexer_total_witness :
  (exists e, @lj_lex_setup unit [] [[120; 61]; [49; 32; 45; 45; 32; 99]] = LErr e) \/
  exists bc x, lj_lex_setup [] [[120; 61]; [49; 32; 45; 45; 32; 99]] = LOk (bc, x) /\
    ((exists e, tokens (fun _ => (STRSCAN_NUM, tt)) 9 x = LErr e) \/
     (exists ts, tokens (fun _ => (STRSCAN_NUM, tt)) 9 x = LOk ts /\ last ts = Some TK_eof)).
Proof.
  apply (lexer_total (fun _ => (STRSCAN_NUM, tt)) [[120; 61]; [49; 32; 45; 45; 32; 99]]).
  repeat constructor; unfold in_u8; lia.
Defined.

(** C27: Progress of the scanner and the bound of its log.  From any
    well-formed state, logging the input into a buffer of [size] bytes, the
    scanner either raises an error or returns a valid token, having read at
    least one character unless the token is the end of file, in a state that
    is well-formed again; the log holds at most [size - 1] bytes, which leaves
    room for the terminating NUL. *)
Theorem lex_scan_progress {Num} (scan : list Z -> Z * Num) (tok size : Z) (ls : LexState) :
  valid_tok tok -> wf ls -> 1 <= size ->
  match lex_scan tok scan (lj_lex_log ls size) with
  | LOk (t, _, ls') =>
      valid_tok t /\ wf ls' /\ zlen (logged ls') <= size - 1 /\
      (left ls' < left ls \/ t = TK_eof)%nat
  | LErr _ => True
  | LBad | LFuel => False
  end.
Proof.
  intros Ht (Hp & Hc & He & Hr) Hs.
  assert (W : wf (lj_lex_log ls size)) by (split_and!; [done|done|done|cbn; lia]).
  pose proof (lex_scan_tok tok scan Ht _ W) as H.
  destruct (lex_scan _ _ _) as [[[t v] l]|e| |]; [|done..]. destruct H as (Ht' & W' & G & H).
  split_and!; [done|done| |].
  - unfold logsize in G. cbn in G. destruct W' as (_ & _ & _ & Hr'). unfold zlen in *. cbn in G. lia.
  - change (left (lj_lex_log ls size)) with (left ls) in H. tauto.
Qed.

Lemma lex_scan_progress_witness :
  match lex_scan 0 (fun _ => (STRSCAN_NUM, tt)) (lj_lex_log (MkLex 120 [121; 61] [] [] 1 [] 0) 2) with
  | LOk (t, _, ls') =>
      valid_tok t /\ wf ls' /\ zlen (logged ls') <= 2 - 1 /\
      ((left ls' < left (MkLex 120 [121; 61] [] [] 1 [] 0)%Z)%nat \/ t = TK_eof)
  | LErr _ => True
  | LBad | LFuel => False
  end.
Proof.
  apply (lex_scan_progress (fun _ => (STRSCAN_NUM, tt)) 0 2 (MkLex 120 [121; 61] [] [] 1 [] 0)); [left; lia| |lia].
  split_and!; [repeat constructor; unfold in_u8; lia|unfold in_c; cbn; lia|done|cbn; lia].
Defined.
End LexSpec.
