(* ===== verification/LjQuote.v ===== *)
(** * LjQuote

    Quoted strings: the writer of the [%q] conversion
    ([strfmt_putquotedlen] in [lj_strfmt.c]), and the theorem that the lexer
    ([LjLex]) reads the literal it writes as a string token with the original
    bytes, whatever they are. *)
From stdpp Require Import base tactics numbers list.
From Stdlib Require Import ZArith Lia.
From S2P Require Import Prelude LjStr LjBuf LjStrfmt LjLex LjLexSpec.
Import Buf Lex LexSpec.
Open Scope Z_scope.

Module Quote.

(** ** Writing *)

(** What is written for [c] when [next] is the byte behind it, the NUL at the
    end of the string for the last one. *)
Definition quote1 (c next : Z) : option (list Z) :=
  if (c =? 34) || (c =? 92) || (c =? 10) then Some [92; c]
  else
    ctl ← isa c Char.LJ_CHAR_CNTRL;
    if ctl : bool then
      dig ← isa next Char.LJ_CHAR_DIGIT;
      let tens c :=
        let d := Z.shiftr (c * 205) 11 in
        let c := c - d * 10 in
        [u8 (48 + d); u8 (c + 48)] in
      if (100 <=? c) || dig then
        Some (92 :: u8 (48 + (if 100 <=? c then 1 else 0)) :: tens (if 100 <=? c then c - 100 else c))
      else if 10 <=? c then Some (92 :: tens c)
      else Some [92; u8 (c + 48)]
    else Some [u8 c].

Fixpoint putquoted_loop (sb : SBuf) (s : list Z) : res SBuf :=
  match s with
  | [] => Ok sb
  | c :: s' =>
      sb ← lj_buf_more sb 4;
      bs ← chk (quote1 c (default 0 (head s')));
      sb ← put_bytes sb bs;
      putquoted_loop sb s'
  end.

Definition strfmt_putquotedlen (sb : SBuf) (s : list Z) : res SBuf :=
  sb ← lj_buf_putb sb 34;
  sb ← putquoted_loop sb s;
  lj_buf_putb sb 34.

Definition lj_strfmt_putquoted (sb : SBuf) (str : list Z) : res SBuf := strfmt_putquotedlen sb str.

(** ** What the writer emits *)

(** The form of [c] when the byte behind it is ([d]) or is not a digit. *)
Definition qform (c : Z) (d : bool) : list Z :=
  if (c =? 34) || (c =? 92) || (c =? 10) then [92; c]
  else if (c <? 32) || (c =? 127) then
    if c =? 127 then [92; 49; 50; 55]
    else if d then [92; 48; 48 + c / 10; 48 + c mod 10]
    else if 10 <=? c then [92; 48 + c / 10; 48 + c mod 10]
    else [92; 48 + c]
  else [c].

Definition digit (c : Z) : bool := Char.between 48 c 57.

Lemma isa_digit c : in_c c -> isa c Char.LJ_CHAR_DIGIT = Some (digit c).
Proof.
  intros Hc. destruct (decide (c = LEX_EOF)) as [->|Hn]; [reflexivity|].
  rewrite isa_class; [reflexivity| |by apply (bool_decide_unpack _); vm_compute].
  unfold in_c, LEX_EOF, in_u8 in *. lia.
Qed.

Lemma quote1_form c next : in_u8 c -> in_u8 next -> quote1 c next = Some (qform c (digit next)).
Proof.
  intros Hc Hn. unfold quote1. rewrite (isa_digit next) by (unfold in_c, in_u8 in *; lia).
  assert (E : forall d : bool, bool_decide
    ((if (c =? 34) || (c =? 92) || (c =? 10) then Some [92; c]
      else
        ctl ← isa c Char.LJ_CHAR_CNTRL;
        if ctl : bool then
          dig ← Some d;
          let tens c :=
            let d := Z.shiftr (c * 205) 11 in
            let c := c - d * 10 in
            [u8 (48 + d); u8 (c + 48)] in
          if (100 <=? c) || dig then
            Some (92 :: u8 (48 + (if 100 <=? c then 1 else 0)) :: tens (if 100 <=? c then c - 100 else c))
          else if 10 <=? c then Some (92 :: tens c)
          else Some [92; u8 (c + 48)]
        else Some [u8 c]) = Some (qform c d)) = true).
  { intros d. revert c Hc. apply u8_exhaustive. destruct d; by vm_compute. }
  exact (bool_decide_eq_true_1 _ (E _)).
Qed.

(** The quoted form of a whole string, without the quotation marks. *)
Fixpoint qlist (s : list Z) : list Z :=
  match s with [] => [] | c :: s' => qform c (digit (default 0 (head s'))) ++ qlist s' end.

Lemma qform_len c d : 1 <= zlen (qform c d) <= 4.
Proof.
  unfold qform. repeat case_match; unfold zlen; cbn; lia.
Qed.

Lemma head_byte s : Forall in_u8 s -> in_u8 (default 0 (head s)).
Proof. by destruct 1. Qed.

Lemma putquoted_loop_ok s : forall sb c,
  Forall in_u8 s -> holds sb c -> w sb + 4 * zlen s <= LJ_MAX_BUF ->
  exists sb', putquoted_loop sb s = Ok sb' /\ holds sb' (c ++ qlist s) /\ w sb' <= w sb + 4 * zlen s.
Proof.
  induction s as [|x s IH]; intros sb c Hs H Hl; cbn [putquoted_loop qlist].
  { exists sb. rewrite app_nil_r. split_and!; [done|done|]. change (zlen []) with 0. lia. }
  inversion_clear Hs as [|? ? Hx Hs']. rewrite zlen_cons in *. pose proof (zlen_nonneg s) as Hz.
  pose proof (qform_len x (digit (default 0 (head s)))) as Hq.
  destruct (holds_bounds sb c H) as (B1 & B2 & _). pose proof (zlen_nonneg c).
  destruct (put_append sb c (qform x (digit (default 0 (head s)))) 4 H) as (sb1 & E1 & H1 & W1);
    [lia|unfold LJ_MAX_BUF in *; lia|unfold LJ_MAX_BUF in *; lia|].
  rewrite (quote1_form x _ Hx (head_byte s Hs')). cbn [chk].
  destruct (IH sb1 _ Hs' H1) as (sb2 & E2 & H2 & W2); [lia|].
  exists sb2. split_and!; [|by rewrite <- app_assoc in H2|lia].
  destruct (lj_buf_more sb 4) as [sb'| | |]; cbn [mbind res_bind] in *; [|done..].
  rewrite E1. exact E2.
Qed.

Lemma putb_ok sb c x :
  in_u8 x -> holds sb c -> w sb + 1 <= LJ_MAX_BUF ->
  exists sb', lj_buf_putb sb x = Ok sb' /\ holds sb' (c ++ [x]) /\ w sb' <= w sb + 1.
Proof.
  intros Hx H Hl. destruct (holds_bounds sb c H) as (B1 & B2 & _).
  unfold lj_buf_putb. rewrite (u8_small x Hx).
  apply (put_append sb c [x] 1 H); [done|unfold LJ_MAX_BUF in *; lia|unfold LJ_MAX_BUF in *; lia].
Qed.

Lemma putquoted_ok sb c s :
  Forall in_u8 s -> holds sb c -> w sb + 4 * zlen s + 2 <= LJ_MAX_BUF ->
  exists sb', strfmt_putquotedlen sb s = Ok sb' /\ holds sb' (c ++ 34 :: qlist s ++ [34]).
Proof.
  intros Hs H Hl. pose proof (zlen_nonneg s). unfold strfmt_putquotedlen.
  destruct (putb_ok sb c 34) as (sb1 & -> & H1 & W1); [unfold in_u8; lia|done|lia|].
  cbn [mbind res_bind].
  destruct (putquoted_loop_ok s sb1 _ Hs H1) as (sb2 & -> & H2 & W2); [lia|]. cbn [mbind res_bind].
  destruct (putb_ok sb2 _ 34 ltac:(unfold in_u8; lia) H2) as (sb3 & -> & H3 & _); [lia|].
  exists sb3. split; [done|]. by rewrite <- !app_assoc in H3.
Qed.

(** ** Reading it back *)

(** The text ahead of the scanner, the current character included, and its
    line. *)
Definition reads (ls : LexState) (txt : list Z) (n : Z) : Prop :=
  lc ls = default LEX_EOF (head txt) /\ pending ls = tail txt /\ linenumber ls = n.

Definition saved (ls : LexState) (txt b : list Z) (n : Z) : Prop := reads ls txt n /\ lsb ls = b.

Lemma saved_next ls c txt b n : saved ls (c :: txt) b n -> saved (lex_next ls) txt b n.
Proof.
  intros [(E1 & E2 & E3) E4]. destruct (lex_next_spec ls) as (F1 & F2 & F3 & F4 & _).
  cbn in E2. rewrite E2 in F1, F2. split; [|congruence].
  unfold reads. split_and!; [done|done|congruence].
Qed.

Lemma saved_save ls txt b n c : in_u8 c -> saved ls txt b n -> saved (lex_save ls c) txt (b ++ [c]) n.
Proof.
  intros Hc [R E]. split; [done|]. cbn. by rewrite E, u8_small.
Qed.

Lemma saved_char ls c txt b n : saved ls (c :: txt) b n -> lc ls = c.
Proof. by intros [(E & _) _]. Qed.

Lemma saved_savenext ls c txt b n :
  in_u8 c -> saved ls (c :: txt) b n -> saved (lex_savenext ls) txt (b ++ [c]) n.
Proof.
  intros Hc H. unfold lex_savenext. rewrite (saved_char _ _ _ _ _ H).
  eapply saved_next, saved_save; [done|exact H].
Qed.

Lemma digit_spec c : digit c = true <-> 48 <= c <= 57.
Proof. unfold digit, Char.between. lia. Qed.

Lemma esc_letter_digit c : digit c = true -> esc_letter c = None.
Proof.
  intros Hc%digit_spec. unfold esc_letter. repeat (case_match eqn:E; [lia|]; clear E). done.
Qed.

(** The first character of a text, tested for being a digit. *)
Definition starts_digit (txt : list Z) : bool := digit (default LEX_EOF (head txt)).

Definition byte_text (txt : list Z) : Prop := in_c (default LEX_EOF (head txt)).

Lemma isa_head ls txt b n :
  byte_text txt -> saved ls txt b n -> isa (lc ls) Char.LJ_CHAR_DIGIT = Some (starts_digit txt).
Proof. intros Ht [(E & _) _]. rewrite E. by apply isa_digit. Qed.

Lemma byte_text_cons c txt : in_c c -> byte_text (c :: txt).
Proof. done. Qed.

Lemma digit_in_c c : digit c = true -> in_c c.
Proof. intros H%digit_spec. unfold in_c. lia. Qed.

Section read.
Context (tok : Z).

(** A backslash before a digit is a decimal escape. *)
Lemma escape_digit ls d txt b n :
  digit d = true -> saved ls (92 :: d :: txt) b n ->
  lex_escape tok ls = esc_dec (lex_next ls) d.
Proof.
  intros Hd H. apply saved_next in H. pose proof (saved_char _ _ _ _ _ H) as E.
  unfold lex_escape. rewrite E, (esc_letter_digit d Hd). apply digit_spec in Hd.
  unfold LEX_EOF. repeat (case_match eqn:E'; [lia|]; clear E'). done.
Qed.

Lemma esc_dec1 ls d txt b n :
  digit d = true -> byte_text txt -> starts_digit txt = false -> saved ls (d :: txt) b n ->
  exists ls', esc_dec ls d = LOk ls' /\ saved ls' txt (b ++ [d - 48]) n.
Proof.
  intros Hd Ht Hs H. unfold esc_dec. rewrite (isa_digit d) by by apply digit_in_c. rewrite Hd.
  cbn [lchk mbind lres_bind negb]. apply saved_next in H. rewrite (isa_head _ _ _ _ Ht H), Hs.
  cbn [lchk mbind lres_bind]. eexists. split; [done|]. apply saved_save; [|done].
  apply digit_spec in Hd. unfold in_u8. lia.
Qed.

Lemma esc_dec2 ls d e txt b n :
  digit d = true -> digit e = true -> byte_text txt -> starts_digit txt = false ->
  saved ls (d :: e :: txt) b n ->
  exists ls', esc_dec ls d = LOk ls' /\ saved ls' txt (b ++ [(d - 48) * 10 + (e - 48)]) n.
Proof.
  intros Hd He Ht Hs H. unfold esc_dec. rewrite (isa_digit d) by by apply digit_in_c. rewrite Hd.
  cbn [lchk mbind lres_bind negb]. apply saved_next in H.
  rewrite (isa_head _ _ _ _ (byte_text_cons e txt (digit_in_c e He)) H). unfold starts_digit at 1.
  cbn [head default]. unfold id. rewrite He. cbn [lchk mbind lres_bind].
  rewrite (saved_char _ _ _ _ _ H). apply saved_next in H. rewrite (isa_head _ _ _ _ Ht H), Hs.
  cbn [lchk mbind lres_bind]. eexists. split; [done|]. apply saved_save; [|done].
  apply digit_spec in Hd, He. unfold in_u8. lia.
Qed.

Lemma esc_dec3 ls d e f txt b n :
  digit d = true -> digit e = true -> digit f = true ->
  ((d - 48) * 10 + (e - 48)) * 10 + (f - 48) <= 255 -> saved ls (d :: e :: f :: txt) b n ->
  exists ls', esc_dec ls d = LOk ls' /\
    saved ls' txt (b ++ [((d - 48) * 10 + (e - 48)) * 10 + (f - 48)]) n.
Proof.
  intros Hd He Hf Hv H. unfold esc_dec. rewrite (isa_digit d) by by apply digit_in_c. rewrite Hd.
  cbn [lchk mbind lres_bind negb]. apply saved_next in H.
  rewrite (isa_head _ _ _ _ (byte_text_cons e (f :: txt) (digit_in_c e He)) H). unfold starts_digit at 1.
  cbn [head default]. unfold id at 1. rewrite He. cbn [lchk mbind lres_bind].
  rewrite (saved_char _ _ _ _ _ H). apply saved_next in H.
  rewrite (isa_head _ _ _ _ (byte_text_cons f txt (digit_in_c f Hf)) H). unfold starts_digit at 1.
  cbn [head default]. unfold id. rewrite Hf. cbn [lchk mbind lres_bind].
  rewrite (saved_char _ _ _ _ _ H). apply saved_next in H.
  destruct (Z.ltb_spec 255 (((d - 48) * 10 + (e - 48)) * 10 + (f - 48))); [lia|].
  eexists. split; [done|]. apply saved_save; [|done]. apply digit_spec in Hd, He, Hf. unfold in_u8. lia.
Qed.

Lemma escape_ctl ls c (d : bool) txt b n :
  in_u8 c -> (c < 32 \/ c = 127) -> c <> 10 -> byte_text txt -> (d = false -> starts_digit txt = false) ->
  saved ls (qform c d ++ txt) b n ->
  exists ls', lex_escape tok ls = LOk ls' /\ saved ls' txt (b ++ [c]) n /\ lc ls = 92.
Proof.
  intros Hc Hk Hn Ht Hd. unfold qform. unfold in_u8 in Hc.
  destruct (Z.eqb_spec c 34); [lia|]. destruct (Z.eqb_spec c 92); [lia|].
  destruct (Z.eqb_spec c 10); [lia|]. cbn [orb].
  replace ((c <? 32) || (c =? 127)) with true by lia.
  assert (Dt : digit (48 + c / 10) = (c <? 100)) by (unfold digit, Char.between; zlia).
  assert (Du : digit (48 + c mod 10) = true) by (apply digit_spec; zlia).
  pose proof (Z.div_mod c 10 ltac:(lia)) as Hdm.
  destruct (Z.eqb_spec c 127) as [->|E]; [|destruct d; [|destruct (Z.leb_spec 10 c) as [Hg|Hg]]]; cbn [app]; intros H.
  - pose proof (saved_char _ _ _ _ _ H) as E0. rewrite (escape_digit ls 49 _ b n eq_refl H).
    apply saved_next in H. destruct (esc_dec3 _ 49 50 55 txt b n eq_refl eq_refl eq_refl ltac:(lia) H) as (l & E1 & H1).
    eauto.
  - pose proof (saved_char _ _ _ _ _ H) as E0. rewrite (escape_digit ls 48 _ b n eq_refl H).
    apply saved_next in H. destruct (esc_dec3 (lex_next ls) 48 (48 + c / 10) (48 + c mod 10) txt b n) as (l & E1 & H1); try done.
    { rewrite Dt. lia. }
    { lia. }
    exists l. split_and!; [done| |done]. assert (V : ((48 - 48) * 10 + (48 + c / 10 - 48)) * 10 + (48 + c mod 10 - 48) = c) by lia. by rewrite V in H1.
  - pose proof (saved_char _ _ _ _ _ H) as E0. rewrite (escape_digit ls (48 + c / 10) _ b n ltac:(rewrite Dt; lia) H).
    apply saved_next in H. destruct (esc_dec2 (lex_next ls) (48 + c / 10) (48 + c mod 10) txt b n) as (l & E1 & H1); auto.
    { rewrite Dt. lia. }
    exists l. split_and!; [done| |done]. assert (V : (48 + c / 10 - 48) * 10 + (48 + c mod 10 - 48) = c) by lia. by rewrite V in H1.
  - assert (Dc : digit (48 + c) = true) by (apply digit_spec; lia).
    pose proof (saved_char _ _ _ _ _ H) as E0. rewrite (escape_digit ls (48 + c) _ b n Dc H).
    apply saved_next in H. destruct (esc_dec1 _ (48 + c) txt b n Dc Ht (Hd eq_refl) H) as (l & E1 & H1).
    exists l. split_and!; [done| |done]. assert (V : 48 + c - 48 = c) by lia. by rewrite V in H1.
Qed.

Definition nl (c : Z) : Z := if c =? 10 then 1 else 0.
Fixpoint newlines (s : list Z) : Z := match s with [] => 0 | c :: s' => nl c + newlines s' end.

Lemma newlines_nonneg s : 0 <= newlines s.
Proof. induction s as [|c s IH]; cbn [newlines]; [lia|]. unfold nl. destruct (_ =? _); lia. Qed.

(** A line break behind a backslash, which no carriage return follows. *)
Lemma newline_read ls txt b n :
  default LEX_EOF (head txt) <> 13 -> n + 1 < LJ_MAX_LINE -> saved ls (10 :: txt) b n ->
  exists ls', lex_newline tok ls = LOk ls' /\ saved ls' txt b (n + 1).
Proof.
  intros Hc Hl H. unfold lex_newline. rewrite (saved_char _ _ _ _ _ H). apply saved_next in H.
  destruct H as [(E1 & E2 & E3) E4].
  assert (Ef : lex_iseol (lex_next ls) && negb (lc (lex_next ls) =? 10) = false).
  { unfold lex_iseol. rewrite E1. destruct (Z.eqb_spec (default LEX_EOF (head txt)) 10); cbn [negb orb].
    - by rewrite andb_false_r.
    - destruct (Z.eqb_spec (default LEX_EOF (head txt)) 13); [done|]. done. }
  rewrite Ef. cbn [with_line linenumber]. rewrite E3.
  destruct (Z.leb_spec LJ_MAX_LINE (n + 1)); [lia|]. eexists. split; [done|]. done.
Qed.

(** One round of the loop reads what was written for one byte. *)
Lemma string_step fuel ls c (d : bool) txt b n :
  in_u8 c -> byte_text txt -> (d = false -> starts_digit txt = false) ->
  default LEX_EOF (head txt) <> 13 -> n + nl c < LJ_MAX_LINE ->
  saved ls (qform c d ++ txt) b n ->
  exists ls', string_loop tok (S fuel) 34 ls = string_loop tok fuel 34 ls' /\
    saved ls' txt (b ++ [c]) (n + nl c).
Proof.
  intros Hc Ht Hd Hr Hn H. cbn [string_loop]. unfold nl in *.
  destruct (decide ((c < 32 \/ c = 127) /\ c <> 10)) as [[Hk H10]|Hk].
  { destruct (escape_ctl ls c d txt b n Hc Hk H10 Ht Hd H) as (ls' & E & H' & ->).
    change (92 =? 34) with false. change (92 =? LEX_EOF) with false.
    change ((92 =? 10) || (92 =? 13)) with false. change (92 =? 92) with true. cbn iota.
    rewrite E. exists ls'. split; [done|]. destruct (Z.eqb_spec c 10); [done|]. by rewrite Z.add_0_r. }
  unfold qform in H. unfold in_u8 in Hc. destruct ((c =? 34) || (c =? 92) || (c =? 10)) eqn:Eq.
  - cbn [app] in H. rewrite (saved_char _ _ _ _ _ H).
    change (92 =? 34) with false. change (92 =? LEX_EOF) with false.
    change ((92 =? 10) || (92 =? 13)) with false. change (92 =? 92) with true. cbn iota.
    unfold lex_escape. apply saved_next in H. rewrite (saved_char _ _ _ _ _ H).
    destruct (Z.eqb_spec c 10) as [->|E10].
    + cbn [esc_letter]. change (esc_letter 10) with (@None Z). cbn iota.
      change (10 =? 120) with false. change (10 =? 117) with false. change (10 =? 122) with false.
      change ((10 =? 10) || (10 =? 13)) with true. cbn iota.
      destruct (newline_read (lex_save (lex_next ls) 10) txt (b ++ [10]) n) as (ls' & -> & H'); [done|done| |].
      { apply saved_save; [unfold in_u8; lia|done]. }
      exists ls'. done.
    + assert (El : esc_letter c = Some c) by (destruct (Z.eqb_spec c 34) as [->|]; [done|];
        destruct (Z.eqb_spec c 92) as [->|]; done).
      rewrite El. eexists. split; [done|]. rewrite Z.add_0_r.
      eapply saved_next, saved_save; [unfold in_u8; lia|exact H].
  - destruct ((c <? 32) || (c =? 127)) eqn:Ek; [lia|]. cbn [app] in H.
    rewrite (saved_char _ _ _ _ _ H). unfold LEX_EOF.
    destruct (Z.eqb_spec c 34); [lia|]. destruct (Z.eqb_spec c (-1)); [lia|].
    destruct (Z.eqb_spec c 10); [lia|]. destruct (Z.eqb_spec c 13); [lia|].
    destruct (Z.eqb_spec c 92); [lia|]. cbn [orb]. eexists. split; [done|]. rewrite Z.add_0_r.
    by apply saved_savenext.
Qed.

(** The quoted text of a string begins with a digit only if the string does,
    and never with a carriage return. *)
Lemma qlist_head s rest : Forall in_u8 s ->
  let h := default LEX_EOF (head (qlist s ++ 34 :: rest)) in
  in_c h /\ h <> 13 /\ digit h = digit (default 0 (head s)).
Proof.
  destruct 1 as [|c s Hc Hs]; cbn [qlist app head default]; [by unfold id, in_c|].
  unfold qform, in_u8, in_c, id in *. rewrite <- app_assoc.
  destruct ((c =? 34) || (c =? 92) || (c =? 10)) eqn:E1; cbn.
  { split_and!; [lia..|]. unfold digit, Char.between. lia. }
  destruct ((c <? 32) || (c =? 127)) eqn:E2.
  - repeat case_match; cbn; (split_and!; [lia..|]); unfold digit, Char.between; lia.
  - cbn. split_and!; [lia..|done].
Qed.

Lemma string_loop_reads s : forall fuel ls b n rest,
  Forall in_u8 s -> (length s < fuel)%nat -> n + newlines s < LJ_MAX_LINE ->
  saved ls (qlist s ++ 34 :: rest) b n ->
  exists ls', string_loop tok fuel 34 ls = LOk ls' /\ saved ls' (34 :: rest) (b ++ s) (n + newlines s).
Proof.
  induction s as [|c s IH]; intros fuel ls b n rest Hs Hf Hn H; (destruct fuel as [|fuel]; [cbn in Hf; lia|]).
  - cbn [string_loop qlist app newlines] in *. rewrite (saved_char _ _ _ _ _ H).
    exists ls. by rewrite app_nil_r, Z.add_0_r.
  - inversion_clear Hs as [|? ? Hc Hs']. cbn [qlist newlines] in *. rewrite <- app_assoc in H.
    destruct (qlist_head s rest Hs') as (Q1 & Q2 & Q3). pose proof (newlines_nonneg s).
    destruct (string_step fuel ls c _ _ b n Hc Q1 ltac:(intros E; unfold starts_digit; by rewrite Q3) Q2
      ltac:(lia) H) as (l1 & -> & H1).
    destruct (IH fuel l1 (b ++ [c]) (n + nl c) rest Hs' ltac:(cbn in Hf; lia) ltac:(lia) H1) as (l2 & -> & H2).
    exists l2. split; [done|]. by rewrite <- app_assoc, <- Z.add_assoc in H2.
Qed.

Lemma qlist_length s : (length s <= length (qlist s))%nat.
Proof.
  induction s as [|c s IH]; cbn [qlist length]; [lia|]. rewrite length_app.
  pose proof (qform_len c (digit (default 0 (head s)))) as Hq. unfold zlen in Hq. lia.
Qed.

Lemma lex_string_reads s ls n rest :
  Forall in_u8 s -> n + newlines s < LJ_MAX_LINE -> saved ls (34 :: qlist s ++ 34 :: rest) [] n ->
  exists ls', lex_string tok ls = LOk (s, ls') /\ reads ls' rest (n + newlines s).
Proof.
  intros Hs Hn H. unfold lex_string. rewrite (saved_char _ _ _ _ _ H).
  apply saved_savenext in H; [|unfold in_u8; lia].
  assert (Hf : (length s < rounds (lex_savenext ls))%nat).
  { unfold rounds. destruct H as [(_ & -> & _) _]. pose proof (qlist_length s).
    assert (length (qlist s) <= length (tail (qlist s ++ 34%Z :: rest)))%nat; [|lia].
    destruct (qlist s); cbn; [lia|]. rewrite length_app. cbn. lia. }
  destruct (string_loop_reads s _ _ _ n rest Hs Hf Hn H) as (l & -> & H2). cbn [mbind lres_bind].
  apply saved_savenext in H2; [|unfold in_u8; lia]. destruct H2 as [R E]. rewrite E.
  eexists. split; [|exact R]. do 2 f_equal. cbn [app]. cbn [drop]. rewrite drop_0.
  cbn [length]. rewrite length_app. cbn [length].
  replace (S (length s + 1) - 2)%nat with (length s) by lia. by rewrite take_app_length.
Qed.
End read.

(** C11: Quoting round trip.  For every string of bytes, [strfmt_putquotedlen]
    appends to the buffer a literal in quotation marks, and wherever a program
    text begins with that literal, cut into whatever pieces by the reader, the
    scanner returns a string token whose value is exactly the original bytes
    and stops right behind the closing quotation mark, the line counter moved
    on by the line breaks in the string. *)
Theorem quote_roundtrip {Num} (scan : list Z -> Z * Num) sb c s :
  Forall in_u8 s -> holds sb c -> w sb + 4 * zlen s + 2 <= LJ_MAX_BUF ->
  exists sb' q,
    strfmt_putquotedlen sb s = Ok sb' /\ holds sb' (c ++ 34 :: q ++ [34]) /\
    forall tok ls n rest,
      reads ls (34 :: q ++ 34 :: rest) n -> n + newlines s < LJ_MAX_LINE ->
      exists ls', lex_scan tok scan ls = LOk (TK_string, Some (VStr s), ls') /\
        reads ls' rest (n + newlines s).
Proof.
  intros Hs H Hl. destruct (putquoted_ok sb c s Hs H Hl) as (sb' & E & H').
  exists sb', (qlist s). split_and!; [done|done|]. intros tok ls n rest R Hn.
  destruct (lex_string_reads tok s (with_sb ls []) n rest Hs Hn (conj R eq_refl)) as (ls' & Es & R').
  exists ls'. split; [|exact R']. unfold lex_scan, rounds. cbn [scan_loop].
  assert (Ec : lc (with_sb ls []) = 34) by apply R. rewrite Ec.
  change (isa 34 Char.LJ_CHAR_IDENT) with (Some false). cbn [lchk mbind lres_bind].
  unfold scan_other. rewrite Ec. cbn -[lex_string]. by rewrite Es.
Qed.

(** The bytes 0, ASCII 1, a line break, a carriage return and a quotation mark. *)
Lemma quote_roundtrip_witness :
  exists sb' q,
    strfmt_putquotedlen lj_buf_init [0; 49; 10; 13; 34] = Ok sb' /\ holds sb' ([] ++ 34 :: q ++ [34]) /\
    forall tok ls n rest,
      reads ls (34 :: q ++ 34 :: rest) n -> n + newlines [0; 49; 10; 13; 34] < LJ_MAX_LINE ->
      exists ls', lex_scan tok (fun _ => (STRSCAN_NUM, tt)) ls =
          LOk (TK_string, Some (VStr [0; 49; 10; 13; 34]), ls') /\
        reads ls' rest (n + newlines [0; 49; 10; 13; 34]).
Proof.
  apply (quote_roundtrip (fun _ => (STRSCAN_NUM, tt)) lj_buf_init [] [0; 49; 10; 13; 34]).
  - repeat constructor; unfold in_u8; lia.
  - exists [], []. repeat split; done.
  - vm_compute. done.
Defined.
End Quote.
