(* ===== verification/LjTab.v ===== *)
(** * LjTab

    The tables of the Lua virtual machine ([lj_tab.c], [lj_tab.h]): an array
    part, and a hash part of chained nodes with Brent's variation and a
    downward search for free nodes.  This file holds the operations; what
    they implement is proved in [LjTabHash] and [LjTabMap].

    Nodes and array slots are indices; the pointer to a value that the setters
    return is a [slot].  The colocation of small arrays, the metatable and the
    allocator only place memory and are left out. *)
From stdpp Require Import base tactics numbers list.
From Stdlib Require Import ZArith Lia.
From S2P Require Import Prelude LjStr.
Open Scope Z_scope.

Module Tab.

(** ** Values *)

(** A [TValue]: the primitive types, a double by its bits, a string by its
    reference, any other object or light userdata by its 64 bits. *)
Inductive TValue := VNil | VBool (b : bool) | VNum (u : Z) | VStr (r : Z) | VGC (u : Z).

#[export] Instance TValue_eq_dec : EqDecision TValue.
Proof. solve_decision. Defined.

Definition tvisnil (o : TValue) : bool := match o with VNil => true | _ => false end.

(** *** Doubles *)

Definition num_exp (u : Z) : Z := Z.land (Z.shiftr u 52) 0x7ff.
Definition num_man (u : Z) : Z := Z.land u 0xfffffffffffff.
Definition num_neg (u : Z) : bool := Z.testbit u 63.

Definition num_isnan (u : Z) : bool := (num_exp u =? 0x7ff) && negb (num_man u =? 0).
Definition num_iszero (u : Z) : bool := (num_exp u =? 0) && (num_man u =? 0).

(** [==] on doubles. *)
Definition num_eq (a b : Z) : bool :=
  negb (num_isnan a) && negb (num_isnan b) &&
  ((a =? b) || (num_iszero a && num_iszero b)).

(** [Some k] when the number is the 32-bit integer [k]: what the test
    [nk == (lua_Number)lj_num2int(nk)] finds. *)
Definition num_int (u : Z) : option Z :=
  let e := num_exp u in
  if num_iszero u then Some 0
  else if (e =? 0) || (e =? 0x7ff) || (1075 <=? e) then None
  else
    let d := 2 ^ (1075 - e) in
    let m := 2 ^ 52 + num_man u in
    if m mod d =? 0 then
      let v := if num_neg u then - (m / d) else m / d in
      if (-2147483648 <=? v) && (v <=? 2147483647) then Some v else None
    else None.

(** [(lua_Number)k] for a 32-bit integer. *)
Definition num_of_int (k : Z) : Z :=
  if k =? 0 then 0
  else
    let a := Z.abs k in
    let e := Z.log2 a in
    (if k <? 0 then 2 ^ 63 else 0) + (e + 1023) * 2 ^ 52 + (a * 2 ^ (52 - e) - 2 ^ 52).

#[global] Arguments num_exp : simpl never.
#[global] Arguments num_man : simpl never.
#[global] Arguments num_int : simpl never.
#[global] Arguments num_of_int : simpl never.

(** [lj_obj_equal]. *)
Definition lj_obj_equal (o1 o2 : TValue) : bool :=
  match o1, o2 with
  | VNil, VNil => true
  | VBool a, VBool b => Bool.eqb a b
  | VNum a, VNum b => num_eq a b
  | VStr a, VStr b => a =? b
  | VGC a, VGC b => a =? b
  | _, _ => false
  end.

(** ** Tables *)

Record Node := MkNode { n_val : TValue; n_key : TValue; n_next : option Z }.

Definition nilnode : Node := MkNode VNil VNil None.

(** A table without hash part has the shared [nilnode] as its only node. *)
Record GCtab := MkTab {
  nomm : Z;
  array : list TValue;
  node : list Node;
  freetop : Z }.

Definition asize (t : GCtab) : Z := zlen (array t).
Definition hmask (t : GCtab) : Z := zlen (node t) - 1.

Definition with_node (t : GCtab) (l : list Node) : GCtab := MkTab (nomm t) (array t) l (freetop t).
Definition with_array (t : GCtab) (l : list TValue) : GCtab := MkTab (nomm t) l (node t) (freetop t).
Definition with_freetop (t : GCtab) (i : Z) : GCtab := MkTab (nomm t) (array t) (node t) i.
Definition with_nomm (t : GCtab) (n : Z) : GCtab := MkTab n (array t) (node t) (freetop t).

(** How an operation ends: with a result, by raising an error, with an access
    that has no defined effect, or not within its fuel. *)
Inductive terr := TABOV | NANIDX | NILIDX.
Inductive tres (A : Type) := TOk (a : A) | TErr (e : terr) | TBad | TFuel.
Arguments TOk {A} a.
Arguments TErr {A} e.
Arguments TBad {A}.
Arguments TFuel {A}.

#[export] Instance tres_ret : MRet tres := fun A a => TOk a.
#[export] Instance tres_bind : MBind tres := fun A B f o =>
  match o with TOk a => f a | TErr e => TErr e | TBad => TBad | TFuel => TFuel end.
Definition chk {A} (o : option A) : tres A := match o with Some a => TOk a | None => TBad end.

Definition LJ_MAX_HBITS : Z := 26.
Definition LJ_MAX_ABITS : Z := 28.
Definition LJ_MAX_ASIZE : Z := 2 ^ (LJ_MAX_ABITS - 1) + 1.

Definition lj_fls (x : Z) : Z := Z.log2 x.

Definition hsize2hbits (s : Z) : Z :=
  if s =? 0 then 0 else if s =? 1 then 1 else 1 + lj_fls (s - 1).

Definition newhpart (t : GCtab) (hbits : Z) : tres GCtab :=
  if LJ_MAX_HBITS <? hbits then TErr TABOV
  else TOk (MkTab (nomm t) (array t) (replicate (Z.to_nat (2 ^ hbits)) nilnode) (2 ^ hbits)).

Definition nohpart (t : GCtab) : GCtab := MkTab (nomm t) (array t) [nilnode] 0.

(** [newtab] followed by the clearing of both parts. *)
Definition lj_tab_new (as_ hbits : Z) : tres GCtab :=
  if LJ_MAX_ASIZE <? as_ then TErr TABOV
  else
    let t := MkTab 255 (replicate (Z.to_nat as_) VNil) [nilnode] 0 in
    if hbits =? 0 then TOk t else newhpart t hbits.

Definition lj_tab_new_ah (a h : Z) : tres GCtab :=
  lj_tab_new (if 0 <? a then a + 1 else 0) (hsize2hbits h).

Definition lj_tab_new1 (ahsize : Z) : tres GCtab :=
  lj_tab_new (Z.land ahsize 0xffffff) (Z.shiftr ahsize 24).

(** The parts are copied; chain links are node numbers here, so that the
    relocation of the source's pointers leaves them as they are. *)
Definition lj_tab_dup (kt : GCtab) : GCtab := MkTab 0 (array kt) (node kt) (freetop kt).

Definition lj_tab_clear (t : GCtab) : GCtab :=
  let t := with_array t (replicate (length (array t)) VNil) in
  if 0 <? hmask t then
    with_freetop (with_node t (replicate (length (node t)) nilnode)) (hmask t + 1)
  else t.

Section hash.
(** The hash stored in each string object. *)
Context (strhash : Z -> Z).

(** ** Hashing *)

Definition hashrot (lo hi : Z) : Z :=
  let lo := Z.lxor lo hi in
  let hi := LjStr.Str.lj_rol hi 14 in
  let lo := u32 (lo - hi) in
  let hi := LjStr.Str.lj_rol hi 5 in
  let hi := Z.lxor hi lo in
  u32 (hi - LjStr.Str.lj_rol lo 13).

Definition lo32 (u : Z) : Z := u32 u.
Definition hi32 (u : Z) : Z := u32 (Z.shiftr u 32).

Definition hashmask (t : GCtab) (h : Z) : Z := Z.land h (hmask t).

(** The 64 bits of [VNil] are all ones. *)
Definition key_hash (key : TValue) : Z :=
  match key with
  | VStr r => strhash r
  | VNum u => hashrot (lo32 u) (u32 (Z.shiftl (hi32 u) 1))
  | VBool b => if b then 1 else 0
  | VGC u => hashrot (lo32 u) (hi32 u)
  | VNil => hashrot 0xffffffff 0xffffffff
  end.

Definition hashkey (t : GCtab) (key : TValue) : Z := hashmask t (key_hash key).

(** ** Getters *)

(** [do { if (p(n->key)) return n; } while ((n = nextnode(n)));] *)
Fixpoint chain_find (fuel : nat) (l : list Node) (p : TValue -> bool) (n : Z) : tres (option Z) :=
  match fuel with
  | O => TFuel
  | S fuel' =>
      nd ← chk (zget l n);
      if p (n_key nd) then TOk (Some n)
      else match n_next nd with
      | Some n' => chain_find fuel' l p n'
      | None => TOk None
      end
  end.

(** A chain visits each node at most once. *)
Definition find (t : GCtab) (p : TValue -> bool) (n : Z) : tres (option Z) :=
  chain_find (S (length (node t))) (node t) p n.

Definition isint (k : Z) (key : TValue) : bool :=
  match key with VNum u => num_eq u (num_of_int k) | _ => false end.
Definition isstr (r : Z) (key : TValue) : bool :=
  match key with VStr r' => r' =? r | _ => false end.

(** Where a value lies. *)
Inductive slot := SArr (i : Z) | SNode (n : Z).

Definition read (t : GCtab) (s : slot) : tres TValue :=
  match s with
  | SArr i => chk (zget (array t) i)
  | SNode n => nd ← chk (zget (node t) n); TOk (n_val nd)
  end.

Definition store (t : GCtab) (s : slot) (v : TValue) : tres GCtab :=
  match s with
  | SArr i => l ← chk (zset (array t) i v); TOk (with_array t l)
  | SNode n =>
      nd ← chk (zget (node t) n);
      l ← chk (zset (node t) n (MkNode v (n_key nd) (n_next nd)));
      TOk (with_node t l)
  end.

Definition inarray (t : GCtab) (k : Z) : bool := u32 k <? asize t.

Definition lj_tab_getinth (t : GCtab) (k : Z) : tres (option slot) :=
  r ← find t (isint k) (hashkey t (VNum (num_of_int k))); TOk (option_map SNode r).

Definition lj_tab_getint (t : GCtab) (k : Z) : tres (option slot) :=
  if inarray t k then TOk (Some (SArr (u32 k))) else lj_tab_getinth t k.

Definition lj_tab_getstr (t : GCtab) (r : Z) : tres (option slot) :=
  x ← find t (isstr r) (hashkey t (VStr r)); TOk (option_map SNode x).

Definition gen_lookup (t : GCtab) (key : TValue) : tres (option slot) :=
  x ← find t (fun k => lj_obj_equal k key) (hashkey t key); TOk (option_map SNode x).

(** The value found, nil without one. *)
Definition lj_tab_get (t : GCtab) (key : TValue) : tres TValue :=
  s ← match key with
      | VStr r => lj_tab_getstr t r
      | VNum u => match num_int u with Some k => lj_tab_getint t k | None => gen_lookup t key end
      | VNil => TOk None
      | _ => gen_lookup t key
      end;
  match s with Some s => read t s | None => TOk VNil end.

(** ** Insertion of a new key *)

Definition upd_node (l : list Node) (n : Z) (f : Node -> Node) : tres (list Node) :=
  nd ← chk (zget l n); chk (zset l n (f nd)).
Definition set_next (l : list Node) (n : Z) (nx : option Z) : tres (list Node) :=
  upd_node l n (fun nd => MkNode (n_val nd) (n_key nd) nx).

(** The search for a node without key below [k]. *)
Fixpoint free_search (l : list Node) (k : nat) : tres (option Z) :=
  match k with
  | O => TOk None
  | S k' =>
      nd ← chk (zget l (Z.of_nat k'));
      if tvisnil (n_key nd) then TOk (Some (Z.of_nat k')) else free_search l k'
  end.

(** [while (noderef(collide->next) != n) collide = nextnode(collide);] *)
Fixpoint pred_search (fuel : nat) (l : list Node) (collide n : Z) : tres Z :=
  match fuel with
  | O => TFuel
  | S fuel' =>
      nd ← chk (zget l collide);
      match n_next nd with
      | Some x => if x =? n then TOk collide else pred_search fuel' l x n
      | None => TBad
      end
  end.

(** [cur->next = nn->next; nn->next = mn->next; mn->next = nn;] *)
Definition relink (l : list Node) (cur nn mn : Z) : tres (list Node) :=
  x ← chk (zget l nn);
  l ← set_next l cur (n_next x);
  m ← chk (zget l mn);
  l ← set_next l nn (n_next m);
  set_next l mn (Some nn).

(** The inner loop of the rechaining: every entry behind [cur] that is not in
    its main position moves behind it. *)
Fixpoint rechain_rest (fuel : nat) (t : GCtab) (l : list Node) (cur : Z) : tres (list Node) :=
  match fuel with
  | O => TFuel
  | S fuel' =>
      nd ← chk (zget l cur);
      match n_next nd with
      | None => TOk l
      | Some nn =>
          x ← chk (zget l nn);
          if negb (tvisnil (n_val x)) then
            let mn := hashkey t (n_key x) in
            if negb (mn =? cur) && negb (mn =? nn) then
              l ← relink l cur nn mn;
              rechain_rest fuel' t l cur
            else rechain_rest fuel' t l nn
          else rechain_rest fuel' t l nn
      end
  end.

(** The outer loop: look for an entry whose main position is [n]. *)
Fixpoint rechain (fuel : nat) (t : GCtab) (l : list Node) (cur n : Z) : tres (list Node) :=
  match fuel with
  | O => TFuel
  | S fuel' =>
      nd ← chk (zget l cur);
      match n_next nd with
      | None => TOk l
      | Some nn =>
          x ← chk (zget l nn);
          if negb (tvisnil (n_val x)) && (hashkey t (n_key x) =? n) then
            l ← relink l cur nn n;
            rechain_rest (S (length l)) t l cur
          else rechain fuel' t l nn n
      end
  end.

(** The colliding node [n] moves to the free node [fr]. *)
Definition move_node (t : GCtab) (l : list Node) (collide n fr : Z) : tres (list Node) :=
  collide ← pred_search (S (length l)) l collide n;
  l ← set_next l collide (Some fr);
  nd ← chk (zget l n);
  l ← chk (zset l fr nd);
  l ← chk (zset l n (MkNode VNil (n_key nd) None));
  rechain (S (length l)) t l fr n.

(** [n->key.u64 = key->u64], with minus zero made zero. *)
Definition put_key (t : GCtab) (n : Z) (key : TValue) : tres (GCtab * slot) :=
  let key := match key with VNum u => if u =? 2 ^ 63 then VNum 0 else key | _ => key end in
  l ← upd_node (node t) n (fun nd => MkNode (n_val nd) key (n_next nd));
  TOk (with_node t l, SNode n).

(** [retry] is the rehash followed by another try. *)
Definition newkey_body (retry : GCtab -> TValue -> tres (GCtab * slot)) (t : GCtab) (key : TValue)
    : tres (GCtab * slot) :=
  let n := hashkey t key in
  nd ← chk (zget (node t) n);
  if negb (tvisnil (n_val nd)) || (hmask t =? 0) then
    fr ← free_search (node t) (Z.to_nat (freetop t));
    match fr with
    | None => retry t key
    | Some fr =>
        let t := with_freetop t fr in
        let collide := hashkey t (n_key nd) in
        if negb (collide =? n) then
          l ← move_node t (node t) collide n fr;
          put_key (with_node t l) n key
        else
          l ← set_next (node t) fr (n_next nd);
          l ← set_next l n (Some fr);
          put_key (with_node t l) fr key
    end
  else put_key t n key.

(** ** Setters and resizing

    They insert through [newkey], which in turn may resize: the recursion is
    tied below. *)
Section setters.
Context (newkey : GCtab -> TValue -> tres (GCtab * slot)).

Definition lj_tab_setinth (t : GCtab) (k : Z) : tres (GCtab * slot) :=
  let key := VNum (num_of_int k) in
  r ← find t (isint k) (hashkey t key);
  match r with Some n => TOk (t, SNode n) | None => newkey t key end.

Definition lj_tab_setint (t : GCtab) (k : Z) : tres (GCtab * slot) :=
  if inarray t k then TOk (t, SArr (u32 k)) else lj_tab_setinth t k.

Definition lj_tab_setstr (t : GCtab) (r : Z) : tres (GCtab * slot) :=
  x ← find t (isstr r) (hashkey t (VStr r));
  match x with Some n => TOk (t, SNode n) | None => newkey t (VStr r) end.

Definition gen_set (t : GCtab) (key : TValue) : tres (GCtab * slot) :=
  x ← find t (fun k => lj_obj_equal k key) (hashkey t key);
  match x with Some n => TOk (t, SNode n) | None => newkey t key end.

Definition lj_tab_set (t : GCtab) (key : TValue) : tres (GCtab * slot) :=
  let t := with_nomm t 0 in
  match key with
  | VStr r => lj_tab_setstr t r
  | VNum u =>
      match num_int u with
      | Some k => lj_tab_setint t k
      | None => if num_isnan u then TErr NANIDX else gen_set t key
      end
  | VNil => TErr NILIDX
  | _ => gen_set t key
  end.

(** Reinsertion of array values from index [i] on. *)
Fixpoint reinsert_array (t : GCtab) (i : Z) (l : list TValue) : tres GCtab :=
  match l with
  | [] => TOk t
  | v :: l =>
      t ← (if tvisnil v then TOk t
           else r ← lj_tab_setinth t i; store r.1 r.2 v);
      reinsert_array t (i + 1) l
  end.

Fixpoint reinsert_nodes (t : GCtab) (l : list Node) : tres GCtab :=
  match l with
  | [] => TOk t
  | n :: l =>
      t ← (if tvisnil (n_val n) then TOk t
           else r ← lj_tab_set t (n_key n); store r.1 r.2 (n_val n));
      reinsert_nodes t l
  end.

Definition lj_tab_resize (t : GCtab) (as_ hbits : Z) : tres GCtab :=
  let oldarray := array t in
  let oldnode := node t in
  let oldasize := asize t in
  let oldhmask := hmask t in
  t ← (if oldasize <? as_ then
         if LJ_MAX_ASIZE <? as_ then TErr TABOV
         else TOk (with_array t (oldarray ++ replicate (Z.to_nat (as_ - oldasize)) VNil))
       else TOk t);
  t ← (if hbits =? 0 then TOk (nohpart t) else newhpart t hbits);
  t ← (if as_ <? oldasize then
         reinsert_array (with_array t (take (Z.to_nat as_) oldarray)) as_ (drop (Z.to_nat as_) oldarray)
       else TOk t);
  if 0 <? oldhmask then reinsert_nodes t oldnode else TOk t.
End setters.

(** *** Counting *)

Definition bins_add (bins : list Z) (b n : Z) : tres (list Z) :=
  x ← chk (zget bins b); chk (zset bins b (u32 (x + n))).

Definition countint (key : TValue) (bins : list Z) : tres (list Z * Z) :=
  match key with
  | VNum u =>
      match num_int u with
      | Some k =>
          if u32 k <? LJ_MAX_ASIZE then
            bins ← bins_add bins (if 2 <? k then lj_fls (k - 1) else 0) 1; TOk (bins, 1)
          else TOk (bins, 0)
      | None => TOk (bins, 0)
      end
  | _ => TOk (bins, 0)
  end.

(** The values that are not nil among [n] array slots from [i] on. *)
Fixpoint count_slots (l : list TValue) (i : Z) (n : nat) : tres Z :=
  match n with
  | O => TOk 0
  | S n' =>
      v ← chk (zget l i);
      c ← count_slots l (i + 1) n';
      TOk (if tvisnil v then c else c + 1)
  end.

(** [for (b = ..; b < LJ_MAX_ABITS; b++)], [k] rounds left. *)
Fixpoint countarray_loop (k : nat) (l : list TValue) (b i na : Z) (bins : list Z) : tres (list Z * Z) :=
  match k with
  | O => TOk (bins, na)
  | S k' =>
      let top := Z.shiftl 2 b in
      let over := zlen l <=? top in
      let top := if over then zlen l - 1 else top in
      if over && (top <? i) then TOk (bins, na)
      else
        n ← count_slots l i (Z.to_nat (top + 1 - i));
        bins ← bins_add bins b n;
        countarray_loop k' l (b + 1) (top + 1) (u32 (na + n)) bins
  end.

Definition countarray (t : GCtab) (bins : list Z) : tres (list Z * Z) :=
  if asize t =? 0 then TOk (bins, 0)
  else countarray_loop (Z.to_nat LJ_MAX_ABITS) (array t) 0 0 0 bins.

(** The bins, the integer keys among the entries, and the entries. *)
Fixpoint counthash (l : list Node) (bins : list Z) (na total : Z) : tres (list Z * Z * Z) :=
  match l with
  | [] => TOk (bins, na, total)
  | n :: l =>
      if tvisnil (n_val n) then counthash l bins na total
      else
        r ← countint (n_key n) bins;
        counthash l r.1 (u32 (na + r.2)) (u32 (total + 1))
  end.

(** [bestasize]: the array size and the keys that go there. *)
Fixpoint bestasize_loop (fuel : nat) (bins : list Z) (nn b sum sz na : Z) : tres (Z * Z) :=
  match fuel with
  | O => TFuel
  | S fuel' =>
      if (Z.shiftl 1 b <? u32 (2 * nn)) && negb (sum =? nn) then
        x ← chk (zget bins b);
        if 0 <? x then
          let sum := u32 (sum + x) in
          if Z.shiftl 1 b <? u32 (2 * sum)
          then bestasize_loop fuel' bins nn (b + 1) sum (Z.shiftl 2 b + 1) sum
          else bestasize_loop fuel' bins nn (b + 1) sum sz na
        else bestasize_loop fuel' bins nn (b + 1) sum sz na
      else TOk (sz, na)
  end.

(** [2*nn] is below [2^32]: 33 rounds end the loop. *)
Definition bestasize (bins : list Z) (narray : Z) : tres (Z * Z) :=
  bestasize_loop 33 bins narray 0 0 0 0.

Definition rehashtab (newkey : GCtab -> TValue -> tres (GCtab * slot)) (t : GCtab) (ek : TValue) : tres GCtab :=
  r ← countarray t (replicate (Z.to_nat LJ_MAX_ABITS) 0);
  let '(bins, na) := r in
  let total := u32 (1 + na) in
  r ← counthash (node t) bins 0 0;
  let '(bins, nh, entries) := r in
  let total := u32 (total + entries) in
  let as_ := u32 (na + nh) in
  r ← countint ek bins;
  let '(bins, c) := r in
  let as_ := u32 (as_ + c) in
  r ← bestasize bins as_;
  let '(as_, na) := r in
  lj_tab_resize newkey t as_ (hsize2hbits (u32 (total - na))).

(** [lj_tab_newkey] with a bound on the nesting of rehashes. *)
Fixpoint lj_tab_newkey (depth : nat) (t : GCtab) (key : TValue) : tres (GCtab * slot) :=
  newkey_body (fun t key =>
    match depth with
    | O => TFuel
    | S d =>
        t ← rehashtab (lj_tab_newkey d) t key;
        lj_tab_set (lj_tab_newkey d) t key
    end) t key.

Definition lj_tab_rehash (depth : nat) (t : GCtab) : tres GCtab := rehashtab (lj_tab_newkey depth) t VNil.

Definition lj_tab_reasize (depth : nat) (t : GCtab) (nasize : Z) : tres GCtab :=
  lj_tab_resize (lj_tab_newkey depth) t (u32 (nasize + 1))
    (if 0 <? hmask t then lj_fls (hmask t) + 1 else 0).
End hash.
End Tab.
