(* ===== verification/LjStrscan.v ===== *)
(** * LjStrscan

    The number scanner of LuaJIT ([lj_strscan.c]): from the text of a number,
    decimal, hexadecimal, binary or octal, with fraction, exponent and
    suffix, to an integer or a double.  The text is the bytes of a string
    and the NUL after them, a pointer is an index into it, a double is its
    64 bits ([LjFloat]).  This file holds the operations; what they compute is
    proved in [LjStrscanDec] and [LjStrscanSpec]. *)
From stdpp Require Import base tactics numbers list.
From Stdlib Require Import ZArith Lia.
From S2P Require Import Prelude LjStr LjFloat LjTab.
Open Scope Z_scope.

Module Strscan.

Definition STRSCAN_OPT_TOINT : Z := 0x01.
Definition STRSCAN_OPT_TONUM : Z := 0x02.
Definition STRSCAN_OPT_IMAG : Z := 0x04.
Definition STRSCAN_OPT_LL : Z := 0x08.
Definition STRSCAN_OPT_C : Z := 0x10.

Definition STRSCAN_ERROR : Z := 0.
Definition STRSCAN_NUM : Z := 1.
Definition STRSCAN_IMAG : Z := 2.
Definition STRSCAN_INT : Z := 3.
Definition STRSCAN_U32 : Z := 4.
Definition STRSCAN_I64 : Z := 5.
Definition STRSCAN_U64 : Z := 6.

(** What a scan stores: [o->i], [o->n] or [o->u64]. *)
Inductive Val := OInt (i : Z) | ONum (n : Z) | OU64 (u : Z).

(** The outcome of a scanning function: a result, the return of
    [STRSCAN_ERROR], or one of three that the theorems rule out: an access
    without a defined effect (outside an object, or of a cell that was never
    written), a failed assertion, a loop that ran out of fuel. *)
Inductive sres (A : Type) := SOk (a : A) | SErr | SFault | SAssert | SFuel.
Arguments SOk {A} a.
Arguments SErr {A}.
Arguments SFault {A}.
Arguments SAssert {A}.
Arguments SFuel {A}.

#[export] Instance sres_ret : MRet sres := fun A a => SOk a.
#[export] Instance sres_bind : MBind sres := fun A B f o =>
  match o with
  | SOk a => f a | SErr => SErr | SFault => SFault | SAssert => SAssert | SFuel => SFuel
  end.

Definition chk {A} (o : option A) : sres A := match o with Some a => SOk a | None => SFault end.
Definition lj_assertX (b : bool) : sres () := if b then SOk () else SAssert.

Definition opt_has (opt f : Z) : bool := negb (Z.land opt f =? 0).

Definition b2z (b : bool) : Z := if b then 1 else 0.

(** [(int32_t)(~x+1u)] and the like. *)
Definition sgn_i32 (neg : bool) (x : Z) : Z := if neg then i32 (u64 (not64 x + 1)) else i32 x.
Definition sgn_u64 (neg : bool) (x : Z) : Z := if neg then u64 (not64 x + 1) else x.

(** ** Reading the text *)

Section text.
Variable s : list Z.

Definition rd (p : Z) : sres Z := chk (zget s p).

(** [( *p != '.' ? *p : *++p )] *)
Definition rd_digit (p : Z) : sres (Z * Z) :=
  c ← rd p;
  if negb (c =? 46) then SOk (c, p) else c ← rd (p + 1); SOk (c, p + 1).

Definition casecmp (c k : Z) : bool := Z.lor c 0x20 =? k.

Definition isa (c t : Z) : sres bool := b ← chk (Char.lj_char_isa c t); SOk (negb (b =? 0)).

(** A loop that moves the pointer reads a byte a round. *)
Definition rounds : nat := S (length s).

(** ** Conversion to a double *)

Definition strscan_double (x ex2 : Z) (neg : bool) : sres Z :=
  let x :=
    if (ex2 <=? -1075) && negb (x =? 0) then
      let b := Z.log2 x in
      if (b + ex2 <=? -1023) && (-1075 <=? b + ex2) then
        let rb := u64 (Z.shiftl 1 (-1075 - ex2)) in
        let x :=
          if negb (Z.land x rb =? 0) && negb (Z.land x (u64 (rb + rb + rb - 1)) =? 0)
          then u64 (x + u64 (rb + rb)) else x in
        Z.land x (not64 (u64 (rb + rb - 1)))
      else x
    else x in
  _ ← lj_assertX (0 <=? i64 x);
  let n := Flt.double_of_uint x in
  let n := if neg then Flt.fneg n else n in
  SOk (if ex2 =? 0 then n else Flt.ldexp n ex2).

(** ** Hexadecimal *)

Fixpoint hex_digits (n : nat) (p x : Z) : sres (Z * Z) :=
  match n with
  | O => SOk (p, x)
  | S n' =>
      r ← rd_digit p;
      let '(d, p) := r in
      let d := if 57 <? d then d + 9 else d in
      hex_digits n' (p + 1) (u64 (u64 (Z.shiftl x 4) + Z.land d 15))
  end.

Fixpoint hex_excess (n : nat) (p x ex2 : Z) : sres (Z * Z) :=
  match n with
  | O => SOk (x, ex2)
  | S n' =>
      r ← rd_digit p;
      let '(d, p) := r in
      hex_excess n' (p + 1) (Z.lor x (b2z (negb (d =? 48)))) (i32 (ex2 + 4))
  end.

(** [if ((x & U64x(c0000000,0000000))) { x = (x >> 2) | (x & 3); ex2 += 2; }],
    then the conversion. *)
Definition reduce_double (fmt x ex2 : Z) (neg : bool) : sres (Z * Val) :=
  let '(x, ex2) :=
    if negb (Z.land x 0xc000000000000000 =? 0)
    then (Z.lor (Z.shiftr x 2) (Z.land x 3), i32 (ex2 + 2)) else (x, ex2) in
  n ← strscan_double x ex2 neg; SOk (fmt, ONum n).

Definition strscan_hex (p fmt opt ex2 : Z) (neg : bool) (dig : Z) : sres (Z * Val) :=
  r ← hex_digits (Z.to_nat (if 16 <? dig then 16 else dig)) p 0;
  let '(p, x) := r in
  r ← hex_excess (Z.to_nat (dig - 16)) p x ex2;
  let '(x, ex2) := r in
  let as_u32 := if 8 <? dig then SErr else SOk (STRSCAN_U32, OInt (sgn_i32 neg x)) in
  if fmt =? STRSCAN_INT then
    if negb (opt_has opt STRSCAN_OPT_TONUM) && (x <? 0x80000000 + b2z neg) && negb ((x =? 0) && neg)
    then SOk (STRSCAN_INT, OInt (sgn_i32 neg x))
    else if negb (opt_has opt STRSCAN_OPT_C) then reduce_double STRSCAN_NUM x ex2 neg
    else as_u32
  else if fmt =? STRSCAN_U32 then as_u32
  else if (fmt =? STRSCAN_I64) || (fmt =? STRSCAN_U64) then
    if 16 <? dig then SErr else SOk (fmt, OU64 (sgn_u64 neg x))
  else reduce_double fmt x ex2 neg.

(** ** Octal *)

Fixpoint oct_digits (n : nat) (p x : Z) : sres Z :=
  match n with
  | O => SOk x
  | S n' =>
      c ← rd p;
      if negb ((48 <=? c) && (c <=? 55)) then SErr
      else oct_digits n' (p + 1) (u64 (u64 (Z.shiftl x 3) + Z.land c 7))
  end.

Definition strscan_oct (p fmt : Z) (neg : bool) (dig : Z) : sres (Z * Val) :=
  top ← (if 22 <? dig then SOk true
         else if dig =? 22 then c ← rd p; SOk (49 <? c) else SOk false);
  if top : bool then SErr
  else
    x ← oct_digits (Z.to_nat dig) p 0;
    let fmt := if (fmt =? STRSCAN_INT) && (0x80000000 + b2z neg <=? x) then STRSCAN_U32 else fmt in
    if (fmt =? STRSCAN_INT) || (fmt =? STRSCAN_U32) then
      if negb (Z.shiftr x 32 =? 0) then SErr
      else SOk (fmt, OInt (if neg then i32 (u32 (not32 (u32 x) + 1)) else i32 x))
    else SOk (fmt, OU64 (sgn_u64 neg x)).

(** ** Binary *)

Fixpoint bin_digits (n : nat) (p x : Z) : sres Z :=
  match n with
  | O => SOk x
  | S n' =>
      c ← rd p;
      if negb (Z.land c (Z.lnot 1) =? 48) then SErr
      else bin_digits n' (p + 1) (Z.lor (u64 (Z.shiftl x 1)) (Z.land c 1))
  end.

(** The negations [-(int32_t)x] and [-(int64_t)x] wrap around, as the machine
    instruction does; C leaves them undefined at the smallest integer. *)
Definition strscan_bin (p fmt opt ex2 : Z) (neg : bool) (dig : Z) : sres (Z * Val) :=
  if negb (ex2 =? 0) || (64 <? dig) then SErr
  else
    x ← bin_digits (Z.to_nat dig) p 0;
    let int := OInt (if neg then i32 (- i32 x) else i32 x) in
    let as_u32 := if 32 <? dig then SErr else SOk (STRSCAN_U32, int) in
    if fmt =? STRSCAN_INT then
      if negb (opt_has opt STRSCAN_OPT_TONUM) && (x <? 0x80000000 + b2z neg)
      then SOk (STRSCAN_INT, int)
      else if negb (opt_has opt STRSCAN_OPT_C) then reduce_double STRSCAN_NUM x ex2 neg
      else as_u32
    else if fmt =? STRSCAN_U32 then as_u32
    else if (fmt =? STRSCAN_I64) || (fmt =? STRSCAN_U64) then
      SOk (fmt, OU64 (if neg then u64 (i64 (- i64 x)) else x))
    else reduce_double fmt x ex2 neg.

(** ** Decimal *)

Definition STRSCAN_MAXDIG : Z := 800.
Definition STRSCAN_DDIG : Z := 512.
Definition STRSCAN_DMASK : Z := STRSCAN_DDIG - 1.
Definition STRSCAN_MAXEXP : Z := Z.shiftl 1 20.

Definition DNEXT (a : Z) : Z := Z.land (a + 1) STRSCAN_DMASK.
Definition DPREV (a : Z) : Z := Z.land (a - 1) STRSCAN_DMASK.
Definition DLEN (lo hi : Z) : Z := Z.land (lo - hi) STRSCAN_DMASK.

(** The digit buffer [xi]: cells in base 100, [None] until written. *)
Definition cells := list (option Z).
Definition cells0 : cells := replicate (Z.to_nat STRSCAN_DDIG) None.
Definition xget (xi : cells) (i : Z) : sres Z := c ← chk (zget xi i); chk c.
Definition xset (xi : cells) (i v : Z) : sres cells := chk (zset xi i (Some (u8 v))).

(** One digit, and the next pointer. *)
Definition dec_digit (p : Z) : sres (Z * Z) :=
  r ← rd_digit p; let '(c, p) := r in SOk (Z.land c 15, p + 1).

Fixpoint dec_pairs (n : nat) (p : Z) (xi : cells) (xip : Z) : sres (Z * cells * Z) :=
  match n with
  | O => SOk (p, xi, xip)
  | S n' =>
      r ← dec_digit p; let '(a, p) := r in
      r ← dec_digit p; let '(b, p) := r in
      xi ← xset xi xip (10 * a + b);
      dec_pairs n' p xi (xip + 1)
  end.

(** [do { ... } while (--dig > STRSCAN_MAXDIG)] *)
Fixpoint dec_excess (n : nat) (p : Z) (xi : cells) (xip : Z) : sres cells :=
  match n with
  | O => SOk xi
  | S n' =>
      r ← rd_digit p; let '(c, p) := r in
      if negb (c =? 48) then v ← xget xi (xip - 1); xset xi (xip - 1) (Z.lor v 1)
      else dec_excess n' (p + 1) xi xip
  end.

(** [while (ex10 > 0 && dig <= 18) *xip++ = 0, ex10 -= 2, dig += 2;] *)
Fixpoint dec_simplify (fuel : nat) (xi : cells) (xip ex10 dig : Z) : sres (cells * Z * Z * Z) :=
  match fuel with
  | O => SFuel
  | S fuel' =>
      if (0 <? ex10) && (dig <=? 18) then
        xi ← xset xi xip 0; dec_simplify fuel' xi (xip + 1) (ex10 - 2) (dig + 2)
      else SOk (xi, xip, ex10, dig)
  end.

(** The digits in pairs, a single one first or last so that the exponent
    becomes even: the pointer, the cells, their number, exponent and digits. *)
Definition dec_lead (p ex10 i : Z) : sres (Z * cells * Z * Z) :=
  if negb (Z.land (Z.lxor ex10 i) 1 =? 0) then
    r ← dec_digit p; let '(d, p) := r in
    xi ← xset cells0 0 d; SOk (p, xi, 1, i - 1)
  else SOk (p, cells0, 0, i).

Definition dec_align (p ex10 i dig : Z) : sres (Z * cells * Z * Z * Z) :=
  r ← dec_lead p ex10 i;
  let '(p, xi, xip, i) := r in
  r ← dec_pairs (Z.to_nat (i / 2)) p xi xip;
  let '(p, xi, xip) := r in
  if negb (i mod 2 =? 0) then
    r ← dec_digit p; let '(d, p) := r in
    xi ← xset xi xip (10 * d); SOk (p, xi, xip + 1, ex10 - 1, dig + 1)
  else SOk (p, xi, xip, ex10, dig).

(** Filling the buffer: the cells, their number, the exponent, the digits. *)
Definition dec_fill (p ex10 dig : Z) : sres (cells * Z * Z * Z) :=
  if dig =? 0 then xi ← xset cells0 0 0; SOk (xi, 0, 0, 0)
  else
    let '(i, ex10) :=
      if STRSCAN_MAXDIG <? dig then (STRSCAN_MAXDIG, i32 (ex10 + i32 (dig - STRSCAN_MAXDIG)))
      else (dig, ex10) in
    r ← dec_align p ex10 i dig;
    let '(p, xi, xip, ex10, dig) := r in
    if STRSCAN_MAXDIG <? dig then
      xi ← dec_excess (Z.to_nat (dig - STRSCAN_MAXDIG)) p xi xip;
      SOk (xi, xip, ex10, STRSCAN_MAXDIG)
    else dec_simplify 11 xi xip ex10 dig.

(** [for (xis = xi+1; xis < xip; xis++) x = x * 100 + *xis;] *)
Fixpoint dec_sum (n : nat) (xi : cells) (i x : Z) : sres Z :=
  match n with
  | O => SOk x
  | S n' => v ← xget xi i; dec_sum n' xi (i + 1) (u64 (x * 100 + v))
  end.

(** The format-specific handling of the integer [x]: a result, or the format
    for the slow path. *)
Definition dec_switch (x fmt opt : Z) (neg : bool) : sres (Z * Val + Z) :=
  let plainnumber fmt :=
    if i64 x <? 0 then SOk (inr fmt)
    else
      let n := Flt.double_of_uint x in
      SOk (inl (fmt, ONum (if neg then Flt.fneg n else n))) in
  let as_u32 :=
    if negb (Z.shiftr x 32 =? 0) then SErr else SOk (inl (STRSCAN_U32, OInt (sgn_i32 neg x))) in
  if fmt =? STRSCAN_INT then
    if negb (opt_has opt STRSCAN_OPT_TONUM) && (x <? 0x80000000 + b2z neg)
    then SOk (inl (STRSCAN_INT, OInt (sgn_i32 neg x)))
    else if negb (opt_has opt STRSCAN_OPT_C) then plainnumber STRSCAN_NUM
    else as_u32
  else if fmt =? STRSCAN_U32 then as_u32
  else if (fmt =? STRSCAN_I64) || (fmt =? STRSCAN_U64) then SOk (inl (fmt, OU64 (sgn_u64 neg x)))
  else plainnumber fmt.

(** The path for integers, with its test for overflow. *)
Definition dec_fast (xi : cells) (xip ex10 dig fmt opt : Z) (neg : bool) : sres (Z * Val + Z) :=
  if (dig <=? 20) && (ex10 =? 0) then
    v ← xget xi 0;
    x ← dec_sum (Z.to_nat (xip - 1)) xi 1 v;
    if negb ((dig =? 20) && ((18 <? v) || (0 <=? i64 x))) then dec_switch x fmt opt neg
    else SOk (inr fmt)
  else SOk (inr fmt).

(** *** The slow path *)

(** The number in the buffer: its cells run from [hi] to [lo], [idig] of them
    before the decimal point, scaled by [2^ex2]. *)
Record Dec := MkDec { xi : cells; hi : Z; lo : Z; ex2 : Z; idig : Z }.

(** The pass of a scaling step upwards, from the last cell to the first. *)
Fixpoint up_pass (fuel : nat) (xi : cells) (i hi lo cy : Z) : sres (cells * Z * Z) :=
  match fuel with
  | O => SFuel
  | S fuel' =>
      v ← xget xi i;
      let d := u32 (Z.shiftl v 6 + cy) in
      let cy := Z.shiftr (u32 (Z.shiftr d 2 * 5243)) 17 in
      let d := u32 (d - cy * 100) in
      xi ← xset xi i d;
      if i =? hi then SOk (xi, lo, cy)
      else up_pass fuel' xi (DPREV i) hi (if (d =? 0) && (i =? DPREV lo) then i else lo) cy
  end.

(** [if (cy) ...]: the carry becomes the first cell, at [hi]; a full buffer
    loses its last cell. *)
Definition up_carry (c : cells) (hi lo cy : Z) : sres (cells * Z) :=
  v ← xget c (DPREV lo);
  r ← (if v =? 0 then SOk (c, DPREV lo)
       else if hi =? lo then
         let lo := DPREV lo in
         a ← xget c (DPREV lo); b ← xget c lo;
         c ← xset c (DPREV lo) (Z.lor a b); SOk (c, lo)
       else SOk (c, lo));
  let '(c, lo) := r in
  c ← xset c hi cy; SOk (c, lo).

Definition up_step (x : Dec) : sres Dec :=
  r ← up_pass 512 (xi x) (DPREV (lo x)) (hi x) (lo x) 0;
  let '(c, lo, cy) := r in
  if negb (cy =? 0) then
    let hi := DPREV (hi x) in
    r ← up_carry c hi lo cy;
    let '(c, lo) := r in
    SOk (MkDec c hi lo (ex2 x - 6) (idig x + 1))
  else SOk (MkDec c (hi x) lo (ex2 x - 6) (idig x)).

Fixpoint scale_up (fuel : nat) (x : Dec) : sres Dec :=
  match fuel with
  | O => SFuel
  | S fuel' =>
      if (idig x <? 9) && (idig x <? DLEN (lo x) (hi x)) then x ← up_step x; scale_up fuel' x
      else SOk x
  end.

(** The pass of a scaling step downwards: the cells, the first one, the number
    of integer cells, the remainder. *)
Fixpoint down_pass (fuel : nat) (xi : cells) (i hi lo idig cy : Z) : sres (cells * Z * Z * Z) :=
  match fuel with
  | O => SFuel
  | S fuel' =>
      v ← xget xi i;
      let cy := u32 (cy + v) in
      let q := u8 (Z.shiftr cy 6) in
      xi ← xset xi i q;
      let cy := 100 * Z.land cy 0x3f in
      let '(hi, idig) := if (q =? 0) && (i =? hi) then (DNEXT hi, idig - 1) else (hi, idig) in
      let i := DNEXT i in
      if i =? lo then SOk (xi, hi, idig, cy) else down_pass fuel' xi i hi lo idig cy
  end.

(** [while (cy) ...]: the digits behind the last cell. *)
Fixpoint down_tail (fuel : nat) (xi : cells) (hi lo cy : Z) : sres (cells * Z) :=
  match fuel with
  | O => SFuel
  | S fuel' =>
      if cy =? 0 then SOk (xi, lo)
      else if hi =? lo then
        v ← xget xi (DPREV lo); xi ← xset xi (DPREV lo) (Z.lor v 1); SOk (xi, lo)
      else
        xi ← xset xi lo (Z.shiftr cy 6);
        down_tail fuel' xi hi (DNEXT lo) (100 * Z.land cy 0x3f)
  end.

Definition down_step (x : Dec) : sres Dec :=
  r ← down_pass 512 (xi x) (hi x) (hi x) (lo x) (idig x) 0;
  let '(c, hi, idig, cy) := r in
  r ← down_tail 4 c hi (lo x) cy;
  let '(c, lo) := r in
  SOk (MkDec c hi lo (ex2 x + 6) idig).

Fixpoint scale_down (fuel : nat) (x : Dec) : sres Dec :=
  match fuel with
  | O => SFuel
  | S fuel' => if 9 <? idig x then x ← down_step x; scale_down fuel' x else SOk x
  end.

(** [for (i = DNEXT(hi); --idig > 0 && i != lo; i = DNEXT(i)) x = x * 100 + xi[i];] *)
Fixpoint collect_int (fuel : nat) (xi : cells) (i lo idig x : Z) : sres (Z * Z * Z) :=
  match fuel with
  | O => SFuel
  | S fuel' =>
      let idig := idig - 1 in
      if (0 <? idig) && negb (i =? lo) then
        v ← xget xi i; collect_int fuel' xi (DNEXT i) lo idig (u64 (x * 100 + v))
      else SOk (i, idig, x)
  end.

(** [while (--idig >= 0) x = x * 100;] *)
Fixpoint collect_zeros (fuel : nat) (idig x : Z) : sres Z :=
  match fuel with
  | O => SFuel
  | S fuel' =>
      let idig := idig - 1 in
      if 0 <=? idig then collect_zeros fuel' idig (u64 (x * 100)) else SOk x
  end.

(** The round bit of the remaining cells. *)
Fixpoint collect_frac (fuel : nat) (xi : cells) (i lo : Z) : sres bool :=
  match fuel with
  | O => SFuel
  | S fuel' =>
      v ← xget xi i;
      if negb (v =? 0) then SOk true
      else let i := DNEXT i in if i =? lo then SOk false else collect_frac fuel' xi i lo
  end.

(** The integer and the binary exponent for the final conversion. *)
Definition collect (x : Dec) : sres (Z * Z) :=
  v ← xget (xi x) (hi x);
  r ← collect_int 512 (xi x) (DNEXT (hi x)) (lo x) (idig x) v;
  let '(i, idig, v) := r in
  if i =? lo x then v ← collect_zeros 512 idig v; SOk (v, ex2 x)
  else b ← collect_frac 512 (xi x) i (lo x); SOk (Z.lor (u64 (Z.shiftl v 1)) (b2z b), ex2 x - 1).

(** A step moves the number of integer cells at least every other time. *)
Definition dec_slow (c : cells) (lo ex10 fmt : Z) (neg : bool) : sres (Z * Val) :=
  let idig := lo + Z.shiftr ex10 1 in
  _ ← lj_assertX ((0 <? lo) && (Z.land ex10 1 =? 0));
  if 310 / 2 <? idig then SOk (fmt, ONum (if neg then Flt.fneg Flt.INF else Flt.INF))
  else if idig <? -(326 / 2) then SOk (fmt, ONum (if neg then Flt.SIGN else 0))
  else
    x ← scale_up 400 (MkDec c 0 lo 0 idig);
    x ← scale_down 400 x;
    r ← collect x;
    let '(x, ex2) := r in
    n ← strscan_double x ex2 neg; SOk (fmt, ONum n).

Definition strscan_dec (p fmt opt ex10 : Z) (neg : bool) (dig : Z) : sres (Z * Val) :=
  r ← dec_fill p ex10 dig;
  let '(c, lo, ex10, dig) := r in
  r ← dec_fast c lo ex10 dig fmt opt neg;
  match r with
  | inl v => SOk v
  | inr fmt =>
      if fmt =? STRSCAN_INT then
        if opt_has opt STRSCAN_OPT_C then SErr else dec_slow c lo ex10 STRSCAN_NUM neg
      else if STRSCAN_INT <? fmt then SErr
      else dec_slow c lo ex10 fmt neg
  end.

(** ** The scan of a whole number *)

(** [while (lj_char_isspace( *p)) p++;] *)
Fixpoint skip_space (fuel : nat) (p : Z) : sres Z :=
  match fuel with
  | O => SFuel
  | S fuel' =>
      c ← rd p; b ← isa c Char.LJ_CHAR_SPACE;
      if b : bool then skip_space fuel' (p + 1) else SOk p
  end.

(** [casecmp(p[0],k0) && casecmp(p[1],k1) && ...] *)
Fixpoint casecmps (p : Z) (ks : list Z) : sres bool :=
  match ks with
  | [] => SOk true
  | k :: ks' => c ← rd p; if casecmp c k then casecmps (p + 1) ks' else SOk false
  end.

(** [p < pe], [*p] *)
Definition scan_end (p pe : Z) : sres () :=
  c ← rd p; if negb (c =? 0) || (p <? pe) then SErr else SOk ().

(** "inf", "infinity", "nan", and any other text that begins with a letter. *)
Definition scan_nonnum (p pe : Z) (neg : bool) : sres (Z * Val) :=
  inf ← casecmps p [105; 110; 102];
  r ← (if inf : bool then
         let p := p + 3 in
         inity ← casecmps p [105; 110; 105; 116; 121];
         SOk (if neg then Flt.fneg Flt.INF else Flt.INF, if inity : bool then p + 5 else p)
       else
         nan ← casecmps p [110; 97; 110]; SOk (Flt.NAN, if nan : bool then p + 3 else p));
  let '(tmp, p) := r in
  p ← skip_space rounds p;
  _ ← scan_end p pe;
  SOk (STRSCAN_NUM, ONum tmp).

(** Leading space and sign: the sign, and the pointer, or a non-number. *)
Definition scan_sign (pe : Z) : sres (bool * Z + Z * Val) :=
  c ← rd 0; dig ← isa c Char.LJ_CHAR_DIGIT;
  if dig : bool then SOk (inl (false, 0))
  else
    p ← skip_space rounds 0;
    c ← rd p;
    let '(neg, p) := if (c =? 43) || (c =? 45) then (c =? 45, p + 1) else (false, p) in
    c ← rd p;
    if 65 <=? c then r ← scan_nonnum p pe neg; SOk (inr r) else SOk (inl (neg, p)).

(** Leading zeros and their point: the pointer, whether there was a zero, the
    place of the point. *)
Fixpoint scan_zeros (fuel : nat) (p : Z) (hasdig : bool) (dp : option Z) : sres (Z * bool * option Z) :=
  match fuel with
  | O => SFuel
  | S fuel' =>
      c ← rd p;
      if c =? 48 then scan_zeros fuel' (p + 1) true dp
      else if c =? 46 then
        match dp with Some _ => SErr | None => scan_zeros fuel' (p + 1) hasdig (Some p) end
      else SOk (p, hasdig, dp)
  end.

(** Digits and point: also the value of the digits modulo [2^32]. *)
Fixpoint scan_digits (fuel : nat) (cmask p x dig : Z) (dp : option Z) : sres (Z * Z * Z * option Z) :=
  match fuel with
  | O => SFuel
  | S fuel' =>
      c ← rd p; b ← isa c cmask;
      if b : bool then scan_digits fuel' cmask (p + 1) (u32 (x * 10 + Z.land c 15)) (dig + 1) dp
      else if c =? 46 then
        match dp with Some _ => SErr | None => scan_digits fuel' cmask (p + 1) x dig (Some p) end
      else SOk (p, x, dig, dp)
  end.

(** [while (ex < 0 && *dp-- == '0') ex++, dig--;] *)
Fixpoint trail_zeros (fuel : nat) (dp ex dig : Z) : sres (Z * Z) :=
  match fuel with
  | O => SFuel
  | S fuel' =>
      if ex <? 0 then
        c ← rd dp;
        if c =? 48 then trail_zeros fuel' (dp - 1) (ex + 1) (dig - 1) else SOk (ex, dig)
      else SOk (ex, dig)
  end.

(** The decimal point: the format, the exponent, the number of digits. *)
Definition scan_point (base p dig : Z) (dp : option Z) : sres (Z * Z * Z) :=
  match dp with
  | None => SOk (STRSCAN_INT, 0, dig)
  | Some dp =>
      if base =? 2 then SErr
      else if negb (dig =? 0) then
        r ← trail_zeros rounds (p - 1) (i32 (dp - (p - 1))) dig;
        let '(ex, dig) := r in
        if ex <=? - STRSCAN_MAXEXP then SErr
        else SOk (STRSCAN_NUM, if base =? 16 then i32 (ex * 4) else ex, dig)
      else SOk (STRSCAN_NUM, 0, dig)
  end.

Fixpoint exp_digits (fuel : nat) (p xx : Z) : sres (Z * Z) :=
  match fuel with
  | O => SFuel
  | S fuel' =>
      c ← rd p; b ← isa c Char.LJ_CHAR_DIGIT;
      if b : bool then
        let xx := u32 (xx * 10 + Z.land c 15) in
        if STRSCAN_MAXEXP <=? xx then SErr else exp_digits fuel' (p + 1) xx
      else SOk (p, xx)
  end.

(** The exponent: the pointer, the format, the exponent. *)
Definition scan_exp (base p fmt ex : Z) : sres (Z * Z * Z) :=
  c ← rd p;
  if (10 <=? base) && casecmp c (if base =? 16 then 112 else 101) then
    let p := p + 1 in
    c ← rd p;
    let '(negx, p) := if (c =? 43) || (c =? 45) then (c =? 45, p + 1) else (false, p) in
    c ← rd p; b ← isa c Char.LJ_CHAR_DIGIT;
    if negb b then SErr
    else
      r ← exp_digits rounds (p + 1) (Z.land c 15);
      let '(p, xx) := r in
      SOk (p, STRSCAN_NUM, i32 (ex + (if negx then i32 (u32 (not32 xx + 1)) else i32 xx)))
  else SOk (p, fmt, ex).

(** The suffix of an integer: U (U32), LL (I64), ULL/LLU (U64), L, UL/LU;
    [sizeof(long)] is 8. *)
Definition scan_intsuffix (opt p fmt : Z) : sres (Z * Z) :=
  c ← rd p;
  let '(p, fmt) := if casecmp c 117 then (p + 1, STRSCAN_U32) else (p, fmt) in
  c ← rd p;
  r ← (if casecmp c 108 then
         let p := p + 1 in
         c ← rd p;
         if casecmp c 108 then SOk (p + 1, fmt + (STRSCAN_I64 - STRSCAN_INT))
         else if negb (opt_has opt STRSCAN_OPT_C) then SErr
         else SOk (p, fmt + (STRSCAN_I64 - STRSCAN_INT))
       else SOk (p, fmt));
  let '(p, fmt) := r in
  c ← rd p;
  let '(p, fmt) :=
    if casecmp c 117 && ((fmt =? STRSCAN_INT) || (fmt =? STRSCAN_I64))
    then (p + 1, fmt + (STRSCAN_U32 - STRSCAN_INT)) else (p, fmt) in
  if ((fmt =? STRSCAN_U32) && negb (opt_has opt STRSCAN_OPT_C))
     || ((STRSCAN_I64 <=? fmt) && negb (opt_has opt STRSCAN_OPT_LL))
  then SErr else SOk (p, fmt).

(** Suffix, trailing space and the end of the text: the final format. *)
Definition scan_suffix (opt p pe fmt : Z) : sres Z :=
  c ← rd p;
  r ← (if negb (c =? 0) then
         r ← (if casecmp c 105 then
                if negb (opt_has opt STRSCAN_OPT_IMAG) then SErr else SOk (p + 1, STRSCAN_IMAG)
              else if fmt =? STRSCAN_INT then scan_intsuffix opt p fmt
              else SOk (p, fmt));
         let '(p, fmt) := r in
         p ← skip_space rounds p;
         c ← rd p;
         if negb (c =? 0) then SErr else SOk (p, fmt)
       else SOk (p, fmt));
  let '(p, fmt) := r in
  if p <? pe then SErr else SOk fmt.

(** What the scan of the text up to its end finds: the base, the place and
    number of the significant digits, their value modulo [2^32], the format
    and the exponent. *)
Record Lit := MkLit { l_base : Z; l_sp : Z; l_dig : Z; l_x : Z; l_fmt : Z; l_ex : Z }.

(** The base, the class of its digits, and the leading zeros. *)
Definition scan_prefix (p opt : Z) : sres (Z * Z * Z * bool * option Z) :=
  c ← rd p;
  let base := if opt_has opt STRSCAN_OPT_C && (c =? 48) then 0 else 10 in
  if c <=? 48 then
    r ← (if c =? 48 then
           c1 ← rd (p + 1);
           SOk (if casecmp c1 120 then (16, Char.LJ_CHAR_XDIGIT, p + 2)
                else if casecmp c1 98 then (2, Char.LJ_CHAR_DIGIT, p + 2)
                else (base, Char.LJ_CHAR_DIGIT, p))
         else SOk (base, Char.LJ_CHAR_DIGIT, p));
    let '(base, cmask, p) := r in
    r ← scan_zeros rounds p false None;
    let '(p, hasdig, dp) := r in SOk (base, cmask, p, hasdig, dp)
  else SOk (base, Char.LJ_CHAR_DIGIT, p, false, None).

Definition scan_lit (p pe opt : Z) : sres Lit :=
  r ← scan_prefix p opt;
  let '(base, cmask, sp, hasdig, dp) := r in
  r ← scan_digits rounds cmask sp 0 0 dp;
  let '(p, x, dig, dp) := r in
  if negb hasdig && (dig =? 0) then SErr
  else
    r ← scan_point base p dig dp;
    let '(fmt, ex, dig) := r in
    r ← scan_exp base p fmt ex;
    let '(p, fmt, ex) := r in
    fmt ← scan_suffix opt p pe fmt;
    SOk (MkLit base sp dig x fmt ex).

(** The fast path for 32-bit integers, the parser for the base, the
    conversion of a number to an integer. *)
Definition scan_value (l : Lit) (neg : bool) (opt : Z) : sres (Z * Val) :=
  let x := l_x l in
  fast ← (if (l_fmt l =? STRSCAN_INT) && (l_base l =? 10) then
            if l_dig l <? 10 then SOk true
            else if l_dig l =? 10 then
              c ← rd (l_sp l); SOk ((c <=? 50) && (x <? 0x80000000 + b2z neg))
            else SOk false
          else SOk false);
  if fast : bool then
    if opt_has opt STRSCAN_OPT_TONUM then
      let n := Flt.double_of_uint x in SOk (STRSCAN_NUM, ONum (if neg then Flt.fneg n else n))
    else if (x =? 0) && neg then SOk (STRSCAN_NUM, ONum Flt.SIGN)
    else SOk (STRSCAN_INT, OInt (if neg then i32 (u32 (not32 x + 1)) else i32 x))
  else if (l_base l =? 0) && negb ((l_fmt l =? STRSCAN_NUM) || (l_fmt l =? STRSCAN_IMAG))
  then strscan_oct (l_sp l) (l_fmt l) neg (l_dig l)
  else
    r ← (if l_base l =? 16 then strscan_hex (l_sp l) (l_fmt l) opt (l_ex l) neg (l_dig l)
         else if l_base l =? 2 then strscan_bin (l_sp l) (l_fmt l) opt (l_ex l) neg (l_dig l)
         else strscan_dec (l_sp l) (l_fmt l) opt (l_ex l) neg (l_dig l));
    match r with
    | (fmt, ONum n) =>
        if (fmt =? STRSCAN_NUM) && opt_has opt STRSCAN_OPT_TOINT && negb (n =? Flt.SIGN) then
          match Tab.num_int n with Some i => SOk (STRSCAN_INT, OInt i) | None => SOk r end
        else SOk r
    | _ => SOk r
    end.

Definition lj_strscan_scan (opt : Z) : sres (Z * Val) :=
  let pe := zlen s - 1 in
  r ← scan_sign pe;
  match r with
  | inr v => SOk v
  | inl (neg, p) => l ← scan_lit p pe opt; scan_value l neg opt
  end.

(** The number, or [None]; the assertion is about the format. *)
Definition lj_strscan_num : sres (option Z) :=
  match lj_strscan_scan STRSCAN_OPT_TONUM with
  | SOk (fmt, ONum n) => _ ← lj_assertX (fmt =? STRSCAN_NUM); SOk (Some n)
  | SOk _ => SAssert
  | SErr => SOk None
  | SFault => SFault | SAssert => SAssert | SFuel => SFuel
  end.
End text.
End Strscan.
