(* ===== verification/LjStrscanBuf.v ===== *)
(** * LjStrscanBuf

    Two parts of the number scanner: the final conversion to a double is a
    single correct rounding, also of subnormal results; the circular buffer
    of base-100 cells holds a list of digits, and its scaling steps multiply
    or divide the value of the list by 64, exactly while there is room. *)
From stdpp Require Import base tactics numbers list.
From Stdlib Require Import ZArith Lia.
From S2P Require Import Prelude LjFloat LjTab LjStrscan.
Open Scope Z_scope.

Module StrscanBuf.
Import Flt Strscan.

(** A pattern with a sign. *)
Definition signed (neg : bool) (b : Z) : Z := if neg then SIGN + b else b.

(** ** The final conversion *)

Lemma INF_lt_SIGN : INF < SIGN.
Proof. reflexivity. Qed.

(** The conversion of [y] gives what rounding [x] once gives. *)
Lemma signed_rescale x y ex2 neg :
  0 <= y < 2 ^ 63 -> (if ex2 =? 0 then rne y 0 else ldexp (rne y 0) ex2) = rne x ex2 ->
  (_ ← lj_assertX (0 <=? i64 y);
   let n := double_of_uint y in
   let n := if neg : bool then fneg n else n in
   SOk (if ex2 =? 0 then n else ldexp n ex2)) = SOk (signed neg (rne x ex2)).
Proof.
  intros Hy E. replace (0 <=? i64 y) with true by (symmetry; apply Z.leb_le; width_lia).
  cbn [lj_assertX mbind sres_bind]. cbv zeta. f_equal. unfold double_of_uint, signed.
  pose proof (rne_range y 0 ltac:(lia)). pose proof INF_lt_SIGN. rewrite <- E.
  destruct neg; [|done]. destruct (ex2 =? 0); [apply fneg_add; lia|apply ldexp_fneg; lia].
Qed.

Lemma rescale_0 ex2 : (if ex2 =? 0 then rne 0 0 else ldexp (rne 0 0) ex2) = rne 0 ex2.
Proof. by destruct (ex2 =? 0). Qed.

Lemma rescale_normal x ex2 :
  0 < x < 2 ^ 63 -> x < 2 ^ 53 \/ -1074 <= Z.log2 x - 52 + ex2 ->
  (if ex2 =? 0 then rne x 0 else ldexp (rne x 0) ex2) = rne x ex2.
Proof.
  intros Hx Hc. destruct (Z.eqb_spec ex2 0) as [->|]; [done|]. by apply ldexp_rne.
Qed.

(** The treatment of subnormals: [x] is rounded to the multiple of [2^(t+1)]
    that the result can hold. *)
Lemma land_pow2 x t : 0 <= t -> (Z.land x (2 ^ t) =? 0) = negb (Z.testbit x t).
Proof.
  intros Ht. destruct (Z.testbit x t) eqn:E.
  - apply Z.eqb_neq. intros H. assert (Hb : Z.testbit (Z.land x (2 ^ t)) t = true).
    { by rewrite Z.land_spec, Z.pow2_bits_true, E. }
    by rewrite H, Z.bits_0 in Hb.
  - apply Z.eqb_eq, Z.bits_inj'. intros i Hi. rewrite Z.land_spec, Z.bits_0.
    rewrite Z.pow2_bits_eqb by done. destruct (Z.eqb_spec t i) as [<-|]; [by rewrite E|].
    by rewrite andb_false_r.
Qed.

Lemma land_round_bits x t :
  0 <= t -> (Z.land x (3 * 2 ^ t - 1) =? 0) = negb (Z.testbit x (t + 1)) && (x mod 2 ^ t =? 0).
Proof.
  intros Ht. replace (3 * 2 ^ t - 1) with (Z.lor (2 ^ (t + 1)) (Z.ones t)).
  - rewrite Z.land_lor_distr_r, Z.land_ones, <- (land_pow2 x (t + 1)) by lia.
    apply eq_true_iff_eq. rewrite andb_true_iff, !Z.eqb_eq. apply Z.lor_eq_0_iff.
  - rewrite <- Z.add_nocarry_lor.
    + rewrite Z.ones_equiv, Z.pow_add_r by lia. lia.
    + apply Z.bits_inj'. intros i Hi. rewrite Z.land_spec, Z.pow2_bits_eqb, Z.bits_0 by lia.
      destruct (Z.eqb_spec (t + 1) i) as [<-|]; [|done]. apply Z.ones_spec_high. lia.
Qed.

Lemma land_not_mask x n :
  0 <= x < 2 ^ 64 -> 0 <= n < 64 -> Z.land x (not64 (2 ^ n - 1)) = x / 2 ^ n * 2 ^ n.
Proof.
  intros Hx Hn. unfold not64, u64. change 18446744073709551616 with (2 ^ 64).
  rewrite <- Z.land_ones, (Z.land_comm (Z.lnot _)), Z.land_assoc by lia.
  rewrite Z.land_ones, Z.mod_small by lia.
  replace (2 ^ n - 1) with (Z.ones n) by (rewrite Z.ones_equiv; lia).
  rewrite <- Z.ldiff_land, Z.ldiff_ones_r by lia.
  by rewrite Z.shiftl_mul_pow2, Z.shiftr_div_pow2 by lia.
Qed.

(** Half up, ties to even, by the bits of [x]. *)
Lemma shr_even_bits x t : 0 <= x -> 0 <= t ->
  shr_even x (t + 1) =
    x / 2 ^ (t + 1) + b2z (Z.testbit x t && (Z.testbit x (t + 1) || negb (x mod 2 ^ t =? 0))).
Proof.
  intros Hx Ht. assert (Hp : 0 < 2 ^ t) by (apply Z.pow_pos_nonneg; lia).
  assert (H2 : 2 ^ (t + 1) = 2 * 2 ^ t) by (rewrite Z.pow_add_r by lia; lia).
  rewrite (Z.testbit_odd x (t + 1)), (Z.testbit_odd x t), !Z.shiftr_div_pow2 by lia.
  unfold shr_even. cbv zeta. rewrite H2.
  pose proof (Z.div_mod x (2 ^ t) ltac:(lia)) as Hd. pose proof (Z.mod_pos_bound x (2 ^ t) Hp) as Hm.
  pose proof (Z.div_mod (x / 2 ^ t) 2 ltac:(lia)) as Hd2.
  pose proof (Z.mod_pos_bound (x / 2 ^ t) 2 ltac:(lia)) as Hm2.
  replace (x / (2 * 2 ^ t)) with (x / 2 ^ t / 2) by (rewrite Z.div_div by lia; f_equal; lia).
  rewrite <- (Z.bit0_odd (x / 2 ^ t)), Z.bit0_eqb, <- Z.negb_even.
  generalize dependent (x / 2 ^ t / 2). intros q Hd2.
  revert Hm2 Hd2. generalize ((x / 2 ^ t) mod 2). intros h Hm2 Hd2.
  revert Hd Hm. generalize (x mod 2 ^ t). intros r Hd Hm.
  rewrite Hd2 in Hd. clear Hd2. revert Hp H2 Hd Hm. generalize (2 ^ t). intros T Hp H2 Hd Hm.
  assert (Hh : h = 0 \/ h = 1) by lia.
  destruct (Z.compare_spec (2 * (x - q * (2 * T))) (2 * T)) as [Hc|Hc|Hc];
    destruct (Z.eqb_spec r 0); destruct Hh as [-> | ->]; destruct (Z.even q); cbn -[Z.add]; lia.
Qed.

(** A subnormal result is the integer the bits are rounded to. *)
Lemma rne_subnormal_bits x ex2 :
  0 < x -> ex2 <= -1075 -> Z.log2 x + ex2 <= -1023 -> rne x ex2 = shr_even x (-1074 - ex2).
Proof.
  intros Hx He Hl. pose proof (Z.log2_nonneg x).
  unfold rne. destruct (Z.eqb_spec x 0); [lia|]. cbv zeta.
  rewrite Z.max_r by lia. destruct (Z.leb_spec (-1074 - ex2) 0); [lia|].
  replace (ex2 + (-1074 - ex2) + 1074) with 0 by lia. rewrite Z.mul_0_l, Z.add_0_l.
  apply Z.min_r. pose proof (shr_even_range x (-1074 - ex2) ltac:(lia) ltac:(lia)) as [_ Hr].
  assert (Hp : 0 < 2 ^ (-1074 - ex2)) by (apply Z.pow_pos_nonneg; lia).
  assert (x / 2 ^ (-1074 - ex2) < 2 ^ 53); [|unfold INF; lia].
  apply Z.div_lt_upper_bound; [done|].
  apply Z.lt_le_trans with (2 ^ Z.succ (Z.log2 x)); [by apply Z.log2_spec|].
  rewrite <- Z.pow_add_r by lia. apply Z.pow_le_mono_r; lia.
Qed.

Lemma shr_even_small x ex2 :
  0 < x -> ex2 <= -1075 -> Z.log2 x + ex2 <= -1023 -> 0 <= shr_even x (-1074 - ex2) <= 2 ^ 52.
Proof.
  intros Hx He Hl. pose proof (Z.log2_nonneg x).
  pose proof (shr_even_range x (-1074 - ex2) ltac:(lia) ltac:(lia)) as Hr.
  assert (Hp : 0 < 2 ^ (-1074 - ex2)) by (apply Z.pow_pos_nonneg; lia).
  assert (0 <= x / 2 ^ (-1074 - ex2)) by (apply Z.div_pos; lia).
  assert (x / 2 ^ (-1074 - ex2) < 2 ^ 52); [|lia].
  apply Z.div_lt_upper_bound; [done|].
  apply Z.lt_le_trans with (2 ^ Z.succ (Z.log2 x)); [by apply Z.log2_spec|].
  rewrite <- Z.pow_add_r by lia. apply Z.pow_le_mono_r; lia.
Qed.

(** What the source does with the bits of a subnormal result. *)
Lemma preround x t :
  0 <= t <= 61 -> 0 <= x < 2 ^ 62 ->
  let rb := u64 (Z.shiftl 1 t) in
  Z.land
    (if negb (Z.land x rb =? 0) && negb (Z.land x (u64 (rb + rb + rb - 1)) =? 0)
     then u64 (x + u64 (rb + rb)) else x)
    (not64 (u64 (rb + rb - 1))) = shr_even x (t + 1) * 2 ^ (t + 1).
Proof.
  intros Ht Hx rb. assert (Hp : 0 < 2 ^ t) by (apply Z.pow_pos_nonneg; lia).
  assert (Hp61 : 2 ^ t <= 2 ^ 61) by (apply Z.pow_le_mono_r; lia).
  assert (H2 : 2 ^ (t + 1) = 2 * 2 ^ t) by (rewrite Z.pow_add_r by lia; lia).
  assert (Hrb : rb = 2 ^ t).
  { unfold rb. rewrite Z.shiftl_1_l. apply u64_small. unfold in_u64. lia. }
  rewrite Hrb. rewrite (u64_small (2 ^ t + 2 ^ t + 2 ^ t - 1)), (u64_small (2 ^ t + 2 ^ t)),
    (u64_small (2 ^ t + 2 ^ t - 1)), (u64_small (x + _)) by (unfold in_u64; lia).
  replace (2 ^ t + 2 ^ t + 2 ^ t - 1) with (3 * 2 ^ t - 1) by lia.
  rewrite land_pow2, land_round_bits, negb_involutive, negb_andb, negb_involutive by lia.
  rewrite shr_even_bits by lia.
  replace (2 ^ t + 2 ^ t) with (2 ^ (t + 1)) by lia.
  destruct (_ && _); cbn [b2z]; rewrite land_not_mask by lia; [|by rewrite Z.add_0_r].
  f_equal. replace (x + 2 ^ (t + 1)) with (x + 1 * 2 ^ (t + 1)) by lia. rewrite Z.div_add; lia.
Qed.

Lemma shr_even_back x s :
  0 <= x < 2 ^ 62 -> 0 < s <= 62 -> shr_even x s * 2 ^ s <= 2 ^ 62.
Proof.
  intros Hx Hs. pose proof (shr_even_range x s ltac:(lia) ltac:(lia)) as [_ Hr].
  assert (Hp : 0 < 2 ^ s) by (apply Z.pow_pos_nonneg; lia).
  assert (Hp62 : 2 ^ s * 2 ^ (62 - s) = 2 ^ 62) by (rewrite <- Z.pow_add_r by lia; f_equal; lia).
  assert (x / 2 ^ s < 2 ^ (62 - s)) by (apply Z.div_lt_upper_bound; lia). nia.
Qed.

(** The double is [x * 2^ex2], rounded once. *)
Lemma strscan_double_correct x ex2 neg :
  0 <= x < 2 ^ 62 -> strscan_double x ex2 neg = SOk (signed neg (rne x ex2)).
Proof.
  intros Hx. unfold strscan_double.
  destruct (Z.eqb_spec x 0) as [->|Hx0].
  { rewrite andb_false_r. apply signed_rescale; [lia|apply rescale_0]. }
  cbn [negb]. rewrite andb_true_r.
  assert (Hb : 0 <= Z.log2 x < 62) by (split; [apply Z.log2_nonneg|apply Z.log2_lt_pow2; lia]).
  destruct (Z.leb_spec ex2 (-1075)) as [He|He].
  2:{ apply signed_rescale; [lia|]. apply rescale_normal; [lia|].
      destruct (Z.lt_ge_cases x (2 ^ 53)); [by left|right].
      assert (53 <= Z.log2 x) by (apply Z.log2_le_pow2; lia). lia. }
  destruct (Z.leb_spec (Z.log2 x + ex2) (-1023)) as [H1|H1].
  2:{ cbn [andb]. apply signed_rescale; [lia|]. apply rescale_normal; [lia|right; lia]. }
  destruct (Z.leb_spec (-1075) (Z.log2 x + ex2)) as [H3|H3]; cbn [andb].
  2:{ apply signed_rescale; [lia|]. destruct (Z.eqb_spec ex2 0); [lia|]. apply ldexp_tiny; lia. }
  rewrite preround by lia. replace (-1075 - ex2 + 1) with (-1074 - ex2) by lia.
  pose proof (shr_even_small x ex2 ltac:(lia) He H1) as Hq.
  pose proof (rne_subnormal_bits x ex2 ltac:(lia) He H1) as Hs.
  pose proof (shr_even_back x (-1074 - ex2) ltac:(lia) ltac:(lia)) as Hlen.
  apply signed_rescale; [split; [apply Z.mul_nonneg_nonneg; [lia|apply Z.pow_nonneg; lia]|lia]|].
  destruct (Z.eqb_spec ex2 0); [lia|].
  rewrite Hs.
  destruct (decide (shr_even x (-1074 - ex2) = 0)) as [->|Hq0]; [done|].
  rewrite ldexp_exact, rne_scale by lia. replace (-1074 - ex2 + ex2) with (-1074) by lia.
  by apply rne_sub.
Qed.

(** ** The circular buffer *)

Lemma DNEXT_mod a : DNEXT a = (a + 1) mod 512.
Proof. apply (land_pow2_mask (a + 1) 9). lia. Qed.
Lemma DPREV_mod a : DPREV a = (a - 1) mod 512.
Proof. apply (land_pow2_mask (a - 1) 9). lia. Qed.
Lemma DLEN_mod a b : DLEN a b = (a - b) mod 512.
Proof. apply (land_pow2_mask (a - b) 9). lia. Qed.

(** The cells from [h] on hold the list [ds]. *)
Definition rep (c : cells) (h : Z) (ds : list Z) : Prop :=
  zlen c = 512 /\ 0 <= h < 512 /\ zlen ds <= 512 /\
  forall j, 0 <= j < zlen ds -> zget c ((h + j) mod 512) = Some (zget ds j).

(** The place behind [ds]. *)
Definition end_of (h : Z) (ds : list Z) : Z := (h + zlen ds) mod 512.

Lemma rep_get c h pre v suf :
  rep c h (pre ++ v :: suf) -> xget c (end_of h pre) = SOk v.
Proof.
  intros (Hc & Hh & Hl & Hg). unfold xget, end_of. zlen_simpl.
  pose proof (zlen_nonneg pre). pose proof (zlen_nonneg suf).
  rewrite Hg by lia. by rewrite zget_middle.
Qed.

Lemma zget_mid_ne {A} (pre suf : list A) v w j :
  j <> zlen pre -> zget (pre ++ v :: suf) j = zget (pre ++ w :: suf) j.
Proof.
  intros Hj. destruct (Z.lt_ge_cases j (zlen pre)).
  - by rewrite !zget_app_l by lia.
  - rewrite !zget_app_r by lia. by rewrite !zget_cons_pos by lia.
Qed.

Lemma rep_set c h pre v w suf :
  rep c h (pre ++ v :: suf) -> 0 <= w < 256 ->
  exists c', xset c (end_of h pre) w = SOk c' /\ rep c' h (pre ++ w :: suf).
Proof.
  intros (Hc & Hh & Hl & Hg) Hw. unfold xset, end_of.
  pose proof (zlen_nonneg pre). pose proof (zlen_nonneg suf). zlen_simpl.
  destruct (zset_is_Some c ((h + zlen pre) mod 512) (Some (u8 w))) as [c' Hc'].
  { rewrite Hc. apply Z.mod_pos_bound. lia. }
  exists c'. rewrite Hc'. split; [done|]. split_and!; [|lia|lia| |].
  - by rewrite (zset_length _ _ _ _ Hc').
  - zlen_simpl. lia.
  - intros j Hj. zlen_simpl. destruct (decide (j = zlen pre)) as [->|Hne].
    + rewrite (zget_zset_eq _ _ _ _ Hc'), zget_middle, u8_small by done. done.
    + rewrite (zget_zset_ne _ _ _ _ _ Hc') by zlia.
      rewrite Hg by lia. f_equal. by apply zget_mid_ne.
Qed.

Lemma rep_prefix c h pre suf : rep c h (pre ++ suf) -> rep c h pre.
Proof.
  intros (Hc & Hh & Hl & Hg). pose proof (zlen_nonneg suf). zlen_simpl.
  split_and!; [done|lia|lia|lia|]. intros j Hj. rewrite Hg by lia.
  f_equal. apply zget_app_l; lia.
Qed.

(** A cell before the first, a cell behind the last. *)
Lemma rep_push_front c h v ds :
  rep c h ds -> zlen ds < 512 -> 0 <= v < 256 ->
  exists c', xset c (DPREV h) v = SOk c' /\ rep c' (DPREV h) (v :: ds).
Proof.
  intros (Hc & Hh & Hl & Hg) Hlt Hv. rewrite DPREV_mod. unfold xset.
  destruct (zset_is_Some c ((h - 1) mod 512) (Some (u8 v))) as [c' Hc']; [rewrite Hc; zlia|].
  exists c'. rewrite Hc'. split; [done|]. split_and!.
  - by rewrite (zset_length _ _ _ _ Hc').
  - zlia.
  - zlia.
  - zlen_simpl. lia.
  - intros j Hj. zlen_simpl. rewrite Z.add_mod_idemp_l by lia.
    destruct (decide (j = 0)) as [->|Hne].
    + rewrite Z.add_0_r, (zget_zset_eq _ _ _ _ Hc'), zget_cons_0, u8_small by done. done.
    + rewrite (zget_zset_ne _ _ _ _ _ Hc') by zlia. rewrite zget_cons_pos by lia.
      rewrite <- Hg by lia. f_equal. f_equal. lia.
Qed.

Lemma rep_push_back c h v ds :
  rep c h ds -> zlen ds < 512 -> 0 <= v < 256 ->
  exists c', xset c (end_of h ds) v = SOk c' /\ rep c' h (ds ++ [v]).
Proof.
  intros (Hc & Hh & Hl & Hg) Hlt Hv. unfold xset, end_of. pose proof (zlen_nonneg ds).
  destruct (zset_is_Some c ((h + zlen ds) mod 512) (Some (u8 v))) as [c' Hc']; [rewrite Hc; zlia|].
  exists c'. rewrite Hc'. split; [done|]. split_and!; [|lia|lia| |].
  - by rewrite (zset_length _ _ _ _ Hc').
  - zlen_simpl. lia.
  - intros j Hj. zlen_simpl. destruct (decide (j = zlen ds)) as [->|Hne].
    + rewrite (zget_zset_eq _ _ _ _ Hc'), zget_middle, u8_small by done. done.
    + rewrite (zget_zset_ne _ _ _ _ _ Hc') by zlia.
      rewrite zget_app_l by lia. apply Hg. lia.
Qed.

Lemma rep_tail c h v ds : rep c h (v :: ds) -> rep c (DNEXT h) ds.
Proof.
  intros (Hc & Hh & Hl & Hg). rewrite DNEXT_mod. zlen_simpl.
  split_and!; [done|zlia|zlia|lia|]. intros j Hj. rewrite Z.add_mod_idemp_l by lia.
  replace (h + 1 + j) with (h + (1 + j)) by lia. rewrite Hg by lia.
  rewrite zget_cons_pos by lia. do 2 f_equal. lia.
Qed.

Lemma end_of_nil h : 0 <= h < 512 -> end_of h [] = h.
Proof. intros Hh. unfold end_of. zlen_simpl. zlia. Qed.
Lemma end_of_snoc h ds v : DNEXT (end_of h ds) = end_of h (ds ++ [v]).
Proof. unfold end_of. rewrite DNEXT_mod. zlen_simpl. zlia. Qed.
Lemma end_of_pred h ds v : DPREV (end_of h (ds ++ [v])) = end_of h ds.
Proof. unfold end_of. rewrite DPREV_mod. zlen_simpl. zlia. Qed.
Lemma end_of_cons h v ds : end_of (DNEXT h) ds = end_of h (v :: ds).
Proof. unfold end_of. rewrite DNEXT_mod. zlen_simpl. zlia. Qed.
Lemma end_of_uncons h v ds : end_of (DPREV h) (v :: ds) = end_of h ds.
Proof. unfold end_of. rewrite DPREV_mod. zlen_simpl. zlia. Qed.
Lemma end_of_eq h a b : zlen a <= zlen b < zlen a + 512 -> end_of h a = end_of h b -> zlen a = zlen b.
Proof. unfold end_of. zlia. Qed.

(** ** The value of the cells *)

Definition val (ds : list Z) : Z := fold_left (fun x d => x * 100 + d) ds 0.

Lemma val_acc ds x : fold_left (fun x d => x * 100 + d) ds x = x * 100 ^ zlen ds + val ds.
Proof.
  unfold val. revert x. induction ds as [|d ds IH]; intros x.
  { cbn [fold_left]. change (100 ^ zlen []) with 1. lia. }
  cbn [fold_left]. rewrite IH, (IH (0 * 100 + d)). zlen_simpl.
  pose proof (zlen_nonneg ds). rewrite Z.pow_add_r by lia. lia.
Qed.

Lemma val_app a b : val (a ++ b) = val a * 100 ^ zlen b + val b.
Proof. unfold val at 1. rewrite fold_left_app, val_acc. done. Qed.
Lemma val_snoc a d : val (a ++ [d]) = val a * 100 + d.
Proof. rewrite val_app. change (100 ^ zlen [d]) with 100. cbn. lia. Qed.
Lemma val_cons d ds : val (d :: ds) = d * 100 ^ zlen ds + val ds.
Proof. change (d :: ds) with ([d] ++ ds). rewrite val_app. f_equal. Qed.
Lemma val_nil : val [] = 0.
Proof. done. Qed.

Definition dig99 (d : Z) : Prop := 0 <= d < 100.
(** A cell into which another has been merged. *)
Definition dig127 (d : Z) : Prop := 0 <= d < 128.

Lemma pow100_pos n : 0 <= n -> 0 < 100 ^ n.
Proof. intros. by apply Z.pow_pos_nonneg. Qed.

Lemma val_bound ds : Forall dig99 ds -> 0 <= val ds < 100 ^ zlen ds.
Proof.
  induction 1 as [|d ds Hd _ IH]; [by split|]. rewrite val_cons. zlen_simpl.
  pose proof (zlen_nonneg ds). rewrite Z.pow_add_r by lia. unfold dig99 in Hd. nia.
Qed.

Lemma val_lower d ds : Forall dig99 ds -> 1 <= d -> 100 ^ zlen ds <= val (d :: ds).
Proof.
  intros H Hd. rewrite val_cons. pose proof (val_bound ds H).
  pose proof (pow100_pos (zlen ds) (zlen_nonneg ds)).
  assert (1 * 100 ^ zlen ds <= d * 100 ^ zlen ds) by (apply Z.mul_le_mono_nonneg_r; lia). lia.
Qed.

(** ** Scaling up *)

Lemma div100 t : 0 <= t < 8300 -> Z.shiftr (u32 (Z.shiftr t 2 * 5243)) 17 = t / 100.
Proof.
  intros Ht.
  assert (H : forallb (fun t => Z.shiftr (u32 (Z.shiftr t 2 * 5243)) 17 =? t / 100) (seqZ 0 8300) = true)
    by (vm_compute; reflexivity).
  rewrite forallb_forall in H. apply Z.eqb_eq, H, list_elem_of_In, elem_of_seqZ. lia.
Qed.

Definition last_nz (ds : list Z) : Prop := forall l x, ds = l ++ [x] -> x <> 0.

Lemma last_nz_cons d ds : last_nz ds -> (ds = [] -> d <> 0) -> last_nz (d :: ds).
Proof.
  intros H Hd l x E. destruct l as [|y l]; injection E as <- E; [auto|]. by apply (H l).
Qed.

Lemma end_of_pre_ne h pre0 v suf :
  zlen (pre0 ++ v :: suf) <= 511 ->
  (end_of h pre0 =? DPREV (end_of h (pre0 ++ v :: suf))) = match suf with [] => true | _ => false end.
Proof.
  intros Hl. destruct suf as [|w suf].
  - rewrite end_of_pred. apply Z.eqb_refl.
  - apply Z.eqb_neq. unfold end_of. rewrite DPREV_mod. zlen_simpl.
    pose proof (zlen_nonneg suf). pose proof (zlen_nonneg pre0). zlia.
Qed.

Lemma end_of_hi h pre0 : 0 <= h < 512 -> zlen pre0 < 512 ->
  (end_of h pre0 =? h) = match pre0 with [] => true | _ => false end.
Proof.
  intros Hh Hl. destruct pre0 as [|w pre0].
  - rewrite end_of_nil by done. apply Z.eqb_refl.
  - apply Z.eqb_neq. unfold end_of. zlen_simpl. pose proof (zlen_nonneg pre0). zlia.
Qed.

Lemma up_pass_spec pre : forall fuel c h suf cy,
  pre <> [] -> (length pre <= fuel)%nat -> rep c h (pre ++ suf) -> zlen (pre ++ suf) <= 511 ->
  Forall dig127 pre -> Forall dig99 suf -> last_nz suf -> 0 <= cy <= 82 ->
  exists c' ds' cy' k,
    up_pass fuel c (DPREV (end_of h pre)) h (end_of h (pre ++ suf)) cy = SOk (c', end_of h ds', cy') /\
    rep c' h ds' /\ ds' <> [] /\ Forall dig99 ds' /\ 0 <= cy' <= 82 /\ 0 <= k /\
    zlen ds' + k = zlen (pre ++ suf) /\
    (64 * val pre + cy) * 100 ^ zlen suf + val suf = (cy' * 100 ^ zlen ds' + val ds') * 100 ^ k /\
    (last_nz ds' \/ zlen ds' = 1) /\
    64 * hd 0 pre <= cy' * 100 + hd 0 ds'.
Proof.
  induction pre as [|v pre0 IH] using rev_ind; [done|].
  intros fuel c h suf cy _ Hf Hr Hl Hpre Hsuf Hlast Hcy.
  apply Forall_app in Hpre as [Hpre0 Hv]. apply Forall_inv in Hv as Hv. unfold dig127 in Hv.
  rewrite length_app in Hf. cbn in Hf. destruct fuel as [|fuel]; [lia|].
  rewrite <- app_assoc in *. cbn [app] in *. rewrite end_of_pred. cbn [up_pass].
  rewrite (rep_get _ _ _ _ _ Hr). cbn [mbind sres_bind].
  set (t := 64 * v + cy). assert (Ht : 0 <= t < 8300) by lia.
  replace (u32 (Z.shiftl v 6 + cy)) with t.
  2:{ rewrite Z.shiftl_mul_pow2, u32_small by (try lia; unfold in_u32; lia). lia. }
  rewrite div100 by done. replace (u32 (t - t / 100 * 100)) with (t mod 100).
  2:{ rewrite u32_small by zlia. zlia. }
  destruct (rep_set c h pre0 v (t mod 100) suf Hr ltac:(zlia)) as (c' & -> & Hr').
  cbn [mbind sres_bind].
  assert (Hh : 0 <= h < 512) by apply Hr. pose proof (zlen_nonneg suf) as Hns.
  assert (Hlp : zlen pre0 < 512) by (zlen_simpl; lia).
  assert (Hd : dig99 (t mod 100)) by (unfold dig99; zlia).
  assert (Hval : (64 * val (pre0 ++ [v]) + cy) * 100 ^ zlen suf + val suf =
                 (64 * val pre0 + t / 100) * 100 ^ (1 + zlen suf) + val (t mod 100 :: suf)).
  { rewrite val_snoc, val_cons, Z.pow_add_r by lia. change (100 ^ 1) with 100.
    pose proof (Z.div_mod t 100 ltac:(lia)) as Hdm. unfold t in *. nia. }
  rewrite end_of_hi, end_of_pre_ne by done.
  destruct pre0 as [|w pre1] eqn:Epre.
  - exists c', (t mod 100 :: suf), (t / 100), 0. split_and!; try done; try zlia.
    + by constructor.
    + etransitivity; [exact Hval|]. zlen_simpl. rewrite Z.pow_0_r, val_nil. lia.
    + destruct suf as [|x suf]; [by right|left]. by apply last_nz_cons.
    + cbn [hd app]. zlia.
  - rewrite <- Epre in *. assert (Hne : pre0 <> []) by (rewrite Epre; done).
    assert (Hhd : hd 0 (pre0 ++ [v]) = hd 0 pre0) by (by rewrite Epre).
    clear w pre1 Epre. rewrite Hhd.
    destruct (decide (suf = [] /\ t mod 100 = 0)) as [[-> Hz]|Hnz].
    + rewrite Hz in *. cbn [Z.eqb andb]. apply rep_prefix in Hr'.
      destruct (IH fuel c' h [] (t / 100) Hne ltac:(lia)) as
        (c2 & ds & cy2 & k & E & H1 & H2 & H3 & H4 & H5 & H6 & H7 & H8 & H9);
        rewrite ?app_nil_r; try done; [zlen_simpl; lia|zlia|].
      rewrite app_nil_r in *. rewrite E. exists c2, ds, cy2, (k + 1).
      split_and!; try done; try lia; [zlen_simpl; lia|].
      rewrite Hval, (Z.pow_add_r 100 k 1), (Z.mul_assoc _ (100 ^ k)), <- H7 by lia.
      change (100 ^ (1 + zlen [])) with 100. change (100 ^ zlen []) with 1.
      rewrite val_cons, val_nil. lia.
    + replace ((t mod 100 =? 0) && match suf with [] => true | _ => false end) with false.
      2:{ destruct suf; [|by rewrite andb_false_r]. symmetry. rewrite andb_true_r.
          apply Z.eqb_neq. intros H. by apply Hnz. }
      destruct (IH fuel c' h (t mod 100 :: suf) (t / 100) Hne ltac:(lia)) as
        (c2 & ds & cy2 & k & E & H1 & H2 & H3 & H4 & H5 & H6 & H7 & H8 & H9); try done;
        [zlen_simpl; lia|by constructor|by apply last_nz_cons; [|intros -> Hz; apply Hnz]|zlia|].
      replace (end_of h (pre0 ++ v :: suf)) with (end_of h (pre0 ++ t mod 100 :: suf))
        by (unfold end_of; zlen_simpl; done).
      rewrite E. exists c2, ds, cy2, k. split_and!; try done; try lia; [zlen_simpl; lia|].
      rewrite Hval, <- H7. by zlen_simpl.
Qed.

(** The buffer of a state holds [ds], the number does not begin with zero. *)
Definition abs (x : Dec) (ds : list Z) : Prop :=
  rep (xi x) (hi x) ds /\ lo x = end_of (hi x) ds /\ ds <> [] /\ 1 <= hd 0 ds.

(** The number of integer cells moves at least every other step: a measure. *)
Definition mu (x : Dec) (ds : list Z) : Z := 2 * idig x + b2z (64 <=? hd 0 ds).

(** One step upwards, exactly: the value is multiplied by 64, [k] zero cells
    at the end are dropped. *)
Definition up_exact (x x' : Dec) (ds ds' : list Z) : Prop :=
  Forall dig99 ds' /\
  exists k, 0 <= k /\ 64 * val ds = val ds' * 100 ^ k /\
            zlen ds' + k = zlen ds + (idig x' - idig x).

Lemma dig99_127 ds : Forall dig99 ds -> Forall dig127 ds.
Proof. intros H. eapply Forall_impl; [exact H|]. unfold dig99, dig127. lia. Qed.

Lemma lor_range n a b : 0 < n -> 0 <= a < 2 ^ n -> 0 <= b < 2 ^ n -> 0 <= Z.lor a b < 2 ^ n.
Proof.
  intros Hn Ha Hb. assert (0 <= Z.lor a b) by (apply Z.lor_nonneg; lia). pose proof (Z.pow_pos_nonneg 2 n ltac:(lia) ltac:(lia)).
  split; [done|]. destruct (decide (Z.lor a b = 0)) as [->|Hne]; [lia|].
  apply Z.log2_lt_pow2; [lia|]. rewrite Z.log2_lor by lia.
  apply Z.max_lub_lt.
  - destruct (decide (a = 0)) as [->|]; [done|]. apply Z.log2_lt_pow2; lia.
  - destruct (decide (b = 0)) as [->|]; [done|]. apply Z.log2_lt_pow2; lia.
Qed.
Lemma lor_127 a b : dig127 a -> dig127 b -> dig127 (Z.lor a b).
Proof. apply (lor_range 7). lia. Qed.

Lemma abs_len x ds : abs x ds -> 1 <= zlen ds <= 512.
Proof.
  intros ((_ & _ & Hl & _) & _ & Hne & _). destruct ds; [done|]. zlen_simpl.
  pose proof (zlen_nonneg ds). lia.
Qed.

Lemma snoc_inv {A} (ds : list A) : ds <> [] -> exists l x, ds = l ++ [x].
Proof. intros H. destruct ds as [|x l _] using rev_ind; [done|eauto]. Qed.

(** The new first cell of a step with a carry. *)
Lemma up_carry_spec c h ds cy :
  rep c h ds -> ds <> [] -> zlen ds <= 511 -> Forall dig99 ds -> (last_nz ds \/ zlen ds = 1) ->
  1 <= cy <= 82 ->
  exists c' ds',
    up_carry c (DPREV h) (end_of h ds) cy =
      SOk (c', end_of (DPREV h) (cy :: ds')) /\
    rep c' (DPREV h) (cy :: ds') /\ Forall dig127 ds' /\ zlen ds' <= 510 /\
    (zlen ds <= 510 -> Forall dig99 ds' /\
       exists k, 0 <= k /\ val (cy :: ds) = val (cy :: ds') * 100 ^ k /\ zlen ds' + k = zlen ds).
Proof.
  intros Hr Hne Hl Hd Hlast Hcy. unfold up_carry. destruct (snoc_inv ds Hne) as (l & v & ->).
  assert (Hh : 0 <= h < 512) by apply Hr.
  rewrite !end_of_pred, (rep_get _ _ _ _ _ Hr). cbn [mbind sres_bind].
  pose proof (zlen_nonneg l) as Hnl. zlen_simpl.
  apply Forall_app in Hd as Hd'. destruct Hd' as [Hdl Hdv%Forall_inv].
  destruct (Z.eqb_spec v 0) as [->|Hv].
  - assert (l = []) as ->.
    { destruct Hlast as [Hlast|Hlast]; [by destruct (Hlast l 0)|].
      destruct l; [done|]. zlen_simpl. pose proof (zlen_nonneg l). lia. }
    apply rep_prefix in Hr.
    destruct (rep_push_front c h cy [] Hr) as (c' & Ec & Hr'); [zlen_simpl; lia|lia|].
    exists c', []. cbn [mbind sres_bind]. rewrite Ec. cbn [mbind sres_bind]. rewrite end_of_uncons. split_and!; try done.
    intros _. split; [done|]. exists 1. split_and!; [lia| |zlen_simpl; lia].
    rewrite !val_cons, val_snoc, !val_nil. zlen_simpl. lia.
  - destruct (Z.eqb_spec (DPREV h) (end_of h (l ++ [v]))) as [He|He].
    + assert (Hlen : zlen l = 510).
      { unfold end_of in He. rewrite DPREV_mod in He. zlen_simpl. zlia. }
      destruct (snoc_inv l) as (l0 & a & ->); [by intros ->|].
      rewrite end_of_pred, <- app_assoc in *. cbn [app] in *.
      rewrite (rep_get _ _ _ _ _ Hr). cbn [mbind sres_bind].
      apply Forall_app in Hdl as [Hdl0 Ha%Forall_inv].
      unfold dig99 in Ha, Hdv.
      assert (Hor : dig127 (Z.lor a v)) by (apply lor_127; unfold dig127; lia).
      destruct (rep_set c h l0 a (Z.lor a v) [v] Hr) as (c1 & -> & Hr1).
      { unfold dig127 in Hor. lia. }
      cbn [mbind sres_bind]. change (l0 ++ [Z.lor a v; v]) with (l0 ++ [Z.lor a v] ++ [v]) in Hr1.
      rewrite app_assoc in Hr1. apply rep_prefix in Hr1.
      destruct (rep_push_front c1 h cy _ Hr1) as (c' & Ec & Hr'); [zlen_simpl; lia|lia|].
      rewrite Ec. cbn [mbind sres_bind]. exists c', (l0 ++ [Z.lor a v]). rewrite end_of_uncons.
      split_and!; [|done| |zlen_simpl; lia|zlen_simpl; lia].
      * do 2 f_equal. unfold end_of. by zlen_simpl.
      * apply Forall_app. split; [by apply dig99_127|by constructor].
    + assert (Hlen : zlen l <= 509).
      { unfold end_of in He. rewrite DPREV_mod in He. zlen_simpl.
        destruct (decide (zlen l = 510)) as [E|]; [|lia]. rewrite E in He. exfalso. apply He. zlia. }
      destruct (rep_push_front c h cy _ Hr) as (c' & Ec & Hr'); [zlen_simpl; lia|lia|].
      cbn [mbind sres_bind]. rewrite Ec. exists c', (l ++ [v]). rewrite end_of_uncons.
      split_and!; try done; [by apply dig99_127|zlen_simpl; lia|].
      intros _. split; [done|]. exists 0. rewrite Z.pow_0_r, Z.mul_1_r. split_and!; [lia|done|zlen_simpl; lia].
Qed.

Lemma up_step_spec x ds :
  abs x ds -> zlen ds <= 511 -> Forall dig127 ds ->
  exists x' ds',
    up_step x = SOk x' /\ abs x' ds' /\ zlen ds' <= 511 /\ Forall dig127 ds' /\
    ex2 x' = ex2 x - 6 /\ idig x <= idig x' <= idig x + 1 /\ mu x ds < mu x' ds' /\
    (zlen ds <= 510 -> up_exact x x' ds ds').
Proof.
  intros (Hr & Hlo & Hne & Hhd) Hl Hd. unfold up_step. rewrite Hlo.
  destruct (up_pass_spec ds 512 (xi x) (hi x) [] 0 Hne) as
    (c & ds1 & cy & k & E & Hr1 & Hne1 & Hd1 & Hcy & Hk & Hlen & Hval & Hlast & Hhead);
    rewrite ?app_nil_r; try done.
  { unfold zlen in Hl. lia. }
  { intros [|? ?] ? ?; done. }
  rewrite app_nil_r in *. change (100 ^ zlen []) with 1 in Hval. rewrite val_nil in Hval.
  rewrite E. cbn [mbind sres_bind]. destruct (Z.eqb_spec cy 0) as [->|Hcy0]; cbn [negb].
  - exists (MkDec c (hi x) (end_of (hi x) ds1) (ex2 x - 6) (idig x)), ds1.
    assert (Hhd1 : hd 0 ds1 < 100) by (by destruct Hd1 as [|? ? []]).
    cbn [xi hi lo ex2 idig]. split_and!; try done; try lia.
    + unfold abs. cbn [xi hi lo ex2 idig]. split_and!; try done. lia.
    + by apply dig99_127.
    + unfold mu. cbn [idig]. destruct (Z.leb_spec 64 (hd 0 ds1)); [|lia].
      destruct (Z.leb_spec 64 (hd 0 ds)); [lia|]. cbn. lia.
    + intros _. split; [done|]. exists k. cbn [idig]. split_and!; [lia|lia|lia].
  - destruct (up_carry_spec c (hi x) ds1 cy) as (c' & ds' & E2 & Hr2 & Hd2 & Hl2 & Hex); try done; try lia.
    cbv zeta. rewrite E2. cbn [mbind sres_bind].
    exists (MkDec c' (DPREV (hi x)) (end_of (DPREV (hi x)) (cy :: ds')) (ex2 x - 6) (idig x + 1)), (cy :: ds').
    cbn [xi hi lo ex2 idig]. split_and!; try done; try lia.
    + unfold abs. cbn [xi hi lo ex2 idig hd]. split_and!; try done. lia.
    + zlen_simpl. lia.
    + constructor; [unfold dig127; lia|done].
    + unfold mu. cbn [idig]. destruct (64 <=? hd 0 ds), (64 <=? hd 0 (cy :: ds')); cbn; lia.
    + intros Hl510. destruct Hex as (Hd' & k2 & Hk2 & Hv2 & Hlen2); [lia|].
      split; [constructor; [|done]|].
      * unfold dig99. lia.
      * exists (k + k2). cbn [idig]. zlen_simpl. split_and!; [lia| |lia].
        rewrite Z.pow_add_r, (Z.mul_comm (100 ^ k)), Z.mul_assoc, <- Hv2 by lia.
        rewrite val_cons, <- Hval. lia.
Qed.

(** What a number of steps upwards has done. *)
Definition up_rel (x x' : Dec) (ds ds' : list Z) : Prop :=
  Forall dig99 ds' /\
  exists n k, 0 <= n /\ 0 <= k /\ ex2 x' = ex2 x - 6 * n /\
    64 ^ n * val ds = val ds' * 100 ^ k /\ zlen ds' + k = zlen ds + (idig x' - idig x).

Lemma up_rel_refl x ds : Forall dig99 ds -> up_rel x x ds ds.
Proof. intros H. split; [done|]. exists 0, 0. rewrite !Z.pow_0_r. split_and!; lia. Qed.

Lemma up_rel_step x x1 x2 ds ds1 ds2 :
  ex2 x1 = ex2 x - 6 -> up_exact x x1 ds ds1 -> up_rel x1 x2 ds1 ds2 -> up_rel x x2 ds ds2.
Proof.
  intros He (_ & k1 & Hk1 & Hv1 & Hl1) (Hd & n & k2 & Hn & Hk2 & He2 & Hv2 & Hl2).
  split; [done|]. exists (n + 1), (k1 + k2). split_and!; try lia.
  rewrite !Z.pow_add_r, (Z.mul_comm (100 ^ k1)), Z.mul_assoc, <- Hv2 by lia.
  rewrite <- !Z.mul_assoc, <- Hv1. lia.
Qed.

(** The loop: it ends, and is exact as long as the buffer has room. *)
Lemma scale_up_spec fuel : forall x ds,
  abs x ds -> zlen ds <= 511 -> Forall dig127 ds -> 19 - mu x ds < Z.of_nat fuel -> idig x <= 9 ->
  exists x' ds',
    scale_up fuel x = SOk x' /\ abs x' ds' /\ zlen ds' <= 511 /\ Forall dig127 ds' /\
    idig x <= idig x' <= 9 /\ (idig x' = 9 \/ zlen ds' <= idig x') /\
    (Forall dig99 ds -> zlen ds - idig x <= 500 -> up_rel x x' ds ds').
Proof.
  induction fuel as [|fuel IH]; intros x ds Habs Hl Hd Hf Hi.
  { exfalso. unfold mu in Hf. destruct (64 <=? hd 0 ds); cbn in Hf; lia. }
  cbn [scale_up]. pose proof (abs_len _ _ Habs) as Hlen.
  assert (HD : DLEN (lo x) (hi x) = zlen ds).
  { destruct Habs as (Hr & -> & _). rewrite DLEN_mod. unfold end_of.
    assert (0 <= hi x < 512) by apply Hr. zlia. }
  rewrite HD. destruct (Z.ltb_spec (idig x) 9) as [H9|H9]; cbn [andb].
  2:{ exists x, ds. split_and!; try done; try lia. intros. by apply up_rel_refl. }
  destruct (Z.ltb_spec (idig x) (zlen ds)) as [HL|HL].
  2:{ exists x, ds. split_and!; try done; try lia. intros. by apply up_rel_refl. }
  destruct (up_step_spec x ds Habs Hl Hd) as (x1 & ds1 & -> & Ha1 & Hl1 & Hd1 & He1 & Hi1 & Hmu & Hex).
  cbn [mbind sres_bind].
  destruct (IH x1 ds1 Ha1 Hl1 Hd1) as (x' & ds' & E & H1 & H2 & H3 & H4 & H5 & H6); [lia|lia|].
  exists x', ds'. split_and!; try done; try lia.
  intros H99 Hfr. specialize (Hex ltac:(lia)). eapply up_rel_step; [done..|].
  destruct Hex as (Hd99 & k & Hk & _ & Hlk). apply H6; [done|lia].
Qed.

(** ** Scaling down *)

(** The cells behind the first: [r] is the remainder carried in. *)
Lemma down_pass_rest rest : forall fuel c h don i r,
  rest <> [] -> (length rest <= fuel)%nat -> rep c h (don ++ rest) -> Forall dig99 rest ->
  0 <= r < 64 -> don <> [] \/ 1 <= r ->
  exists c' rest' r',
    down_pass fuel c (end_of h don) h (end_of h (don ++ rest)) i (100 * r) = SOk (c', h, i, 100 * r') /\
    rep c' h (don ++ rest') /\ zlen rest' = zlen rest /\ Forall dig99 rest' /\ 0 <= r' < 64 /\
    r * 100 ^ zlen rest + val rest = 64 * val rest' + r' /\
    (don = [] -> 1 <= hd 0 rest').
Proof.
  induction rest as [|v rest IH]; intros fuel c h don i r Hne Hf Hr Hd Hr64 Hc; [done|].
  cbn in Hf. destruct fuel as [|fuel]; [lia|]. cbn [down_pass].
  rewrite (rep_get _ _ _ _ _ Hr). cbn [mbind sres_bind].
  apply Forall_cons in Hd as [Hv Hd]. unfold dig99 in Hv.
  rewrite u32_small by (unfold in_u32; lia). set (t := 100 * r + v).
  rewrite Z.shiftr_div_pow2, u8_small by (unfold in_u8; zlia). change (2 ^ 6) with 64.
  replace (Z.land t 63) with (t mod 64) by (symmetry; apply (land_pow2_mask t 6); lia).
  destruct (rep_set c h don v (t / 64) rest Hr ltac:(zlia)) as (c' & -> & Hr').
  cbn [mbind sres_bind].
  assert (Hh : 0 <= h < 512) by apply Hr. assert (Hl : zlen (don ++ v :: rest) <= 512) by apply Hr.
  pose proof (zlen_nonneg rest) as Hnr.
  assert (Hlt : zlen don < 512) by (zlen_simpl; lia).
  replace ((t / 64 =? 0) && (end_of h don =? h)) with false.
  2:{ symmetry. rewrite end_of_hi by done. destruct don; [|by rewrite andb_false_r].
      destruct Hc as [Hc|Hc]; [done|]. rewrite andb_true_r. apply Z.eqb_neq. zlia. }
  rewrite (end_of_snoc h don (t / 64)).
  replace (end_of h (don ++ v :: rest)) with (end_of h ((don ++ [t / 64]) ++ rest))
    by (unfold end_of; zlen_simpl; f_equal; lia).
  assert (Hval : r * 100 ^ zlen (v :: rest) + val (v :: rest) =
                 64 * (t / 64 * 100 ^ zlen rest) + ((t mod 64) * 100 ^ zlen rest + val rest)).
  { rewrite val_cons. zlen_simpl. rewrite Z.pow_add_r by lia. change (100 ^ 1) with 100.
    pose proof (Z.div_mod t 64 ltac:(lia)) as Hdm. unfold t in *. nia. }
  destruct rest as [|w rest].
  - rewrite app_nil_r, Z.eqb_refl. exists c', [t / 64], (t mod 64).
    split_and!; try done; try zlia.
    + constructor; [unfold dig99; zlia|done].
    + rewrite Hval, val_cons, val_nil. zlen_simpl. lia.
    + intros ->. destruct Hc as [Hc|Hc]; [done|]. cbn [hd]. zlia.
  - assert (Hie : (end_of h (don ++ [t / 64]) =? end_of h ((don ++ [t / 64]) ++ w :: rest)) = false).
    { apply Z.eqb_neq. unfold end_of. zlen_simpl. pose proof (zlen_nonneg rest).
      pose proof (zlen_nonneg don). zlia. }
    rewrite Hie. change (don ++ t / 64 :: w :: rest) with (don ++ [t / 64] ++ w :: rest) in Hr'.
    rewrite app_assoc in Hr'.
    destruct (IH fuel c' h (don ++ [t / 64]) i (t mod 64)) as
      (c2 & rest2 & r2 & E & H1 & H2 & H3 & H4 & H5 & _); try done.
    { cbn [length] in *. lia. }
    { zlia. }
    { left. by destruct don. }
    rewrite E. exists c2, (t / 64 :: rest2), r2. rewrite <- app_assoc in H1. split_and!; try done.
    + zlen_simpl. lia.
    + constructor; [unfold dig99; zlia|done].
    + lia.
    + lia.
    + rewrite Hval, H5, val_cons, H2. lia.
    + intros ->. destruct Hc as [Hc|Hc]; [done|]. cbn [hd]. zlia.
Qed.

(** The whole pass.  A first cell below 64 is dropped; there must be another. *)
Lemma down_pass_spec fuel c h ds i :
  (length ds <= fuel)%nat ->
  rep c h ds -> ds <> [] -> Forall dig99 ds -> 1 <= hd 0 ds -> 2 <= zlen ds \/ 64 <= hd 0 ds ->
  exists c' h' ds' i' r,
    down_pass fuel c h h (end_of h ds) i 0 = SOk (c', h', i', 100 * r) /\
    rep c' h' ds' /\ end_of h' ds' = end_of h ds /\ ds' <> [] /\ Forall dig99 ds' /\ 1 <= hd 0 ds' /\
    0 <= r < 64 /\ val ds = 64 * val ds' + r /\ zlen ds' - i' = zlen ds - i /\
    i - 1 <= i' <= i /\ 2 * i' + b2z (64 <=? hd 0 ds') < 2 * i + b2z (64 <=? hd 0 ds).
Proof.
  intros Hf Hr Hne Hd Hhd Hbig. destruct ds as [|v tl]; [done|]. cbn [hd length] in *.
  destruct fuel as [|fuel]; [lia|]. assert (Hltl : (length tl <= fuel)%nat) by lia. clear Hf.
  assert (Hh : 0 <= h < 512) by apply Hr. assert (Hl : zlen (v :: tl) <= 512) by apply Hr.
  apply Forall_cons in Hd as [Hv Hd]. unfold dig99 in Hv. cbn [down_pass].
  pose proof (rep_get c h [] v tl Hr) as Hg. rewrite end_of_nil in Hg by done.
  rewrite Hg. cbn [mbind sres_bind]. rewrite Z.add_0_l, u32_small by (unfold in_u32; lia).
  rewrite Z.shiftr_div_pow2, u8_small by (unfold in_u8; zlia). change (2 ^ 6) with 64.
  replace (Z.land v 63) with (v mod 64) by (symmetry; apply (land_pow2_mask v 6); lia).
  destruct (rep_set c h [] v (v / 64) tl Hr ltac:(zlia)) as (c' & Hset & Hr').
  rewrite end_of_nil in Hset by done. rewrite Hset. cbn [mbind sres_bind].
  rewrite Z.eqb_refl, andb_true_r. cbn [app] in Hr'.
  pose proof (zlen_nonneg tl) as Htl. zlen_simpl.
  destruct (Z.eqb_spec (v / 64) 0) as [Hz|Hz].
  - assert (v < 64) by zlia. rewrite Z.mod_small by lia. apply rep_tail in Hr'.
    rewrite <- end_of_cons. destruct tl as [|w tl]; [zlen_simpl; lia|].
    assert (Hh' : 0 <= DNEXT h < 512) by (rewrite DNEXT_mod; zlia).
    destruct (down_pass_rest (w :: tl) fuel c' (DNEXT h) [] (i - 1) v) as
      (c2 & ds' & r & E & H1 & H2 & H3 & H4 & H5 & H6); try done; try lia.
    rewrite end_of_nil in E by done. cbn [app] in *.
    assert (Hie : (DNEXT h =? end_of (DNEXT h) (w :: tl)) = false).
    { apply Z.eqb_neq. unfold end_of. zlen_simpl. pose proof (zlen_nonneg tl). zlia. }
    rewrite Hie, E. exists c2, (DNEXT h), ds', (i - 1), r. specialize (H6 eq_refl).
    split_and!; try done; try lia.
    + unfold end_of. by rewrite H2.
    + intros ->. zlen_simpl. pose proof (zlen_nonneg tl). lia.
    + rewrite val_cons. zlen_simpl. lia.
    + destruct (64 <=? hd 0 ds'), (64 <=? v); cbn; lia.
  - assert (Hv64 : 64 <= v) by zlia.
    assert (Hv1 : v / 64 = 1 /\ v mod 64 = v - 64) by zlia. destruct Hv1 as [Hv1 Hvm].
    rewrite Hv1, Hvm in *. replace (DNEXT h) with (end_of h [1])
      by (unfold end_of; rewrite DNEXT_mod; done).
    destruct tl as [|w tl].
    + change (end_of h [v]) with (end_of h [1]). rewrite Z.eqb_refl. exists c', h, [1], i, (v - 64). split_and!; try done; try lia.
      * constructor; [unfold dig99; lia|done].
      * rewrite !val_cons, val_nil. zlen_simpl. lia.
      * destruct (Z.leb_spec 64 v); [|lia]. cbn. lia.
    + destruct (down_pass_rest (w :: tl) fuel c' h [1] i (v - 64)) as
        (c2 & ds' & r & E & H1 & H2 & H3 & H4 & H5 & _); try done; try lia; [by left|].
      assert (Hie : (end_of h [1] =? end_of h (v :: w :: tl)) = false).
      { apply Z.eqb_neq. unfold end_of. zlen_simpl. pose proof (zlen_nonneg tl). zlia. }
      cbn [app] in *. replace (end_of h (1 :: w :: tl)) with (end_of h (v :: w :: tl)) in E
        by (unfold end_of; by zlen_simpl).
      rewrite Hie, E. exists c2, h, (1 :: ds'), i, r. split_and!; try done; try lia.
      * unfold end_of. zlen_simpl. rewrite H2. zlen_simpl. done.
      * constructor; [unfold dig99; lia|done].
      * rewrite (val_cons v), (val_cons 1), H2. lia.
      * zlen_simpl. lia.
      * cbn [hd]. destruct (Z.leb_spec 64 v); [|lia]. cbn. lia.
Qed.

Lemma lor_1_dig99 v : dig99 v -> dig99 (Z.lor v 1).
Proof.
  unfold dig99. intros Hv.
  assert (Hb : forallb (fun v => (0 <=? Z.lor v 1) && (Z.lor v 1 <? 100)) (seqZ 0 100) = true)
    by (vm_compute; reflexivity).
  rewrite forallb_forall in Hb. specialize (Hb v).
  rewrite <- list_elem_of_In, elem_of_seqZ, andb_true_iff, Z.leb_le, Z.ltb_lt in Hb. apply Hb. lia.
Qed.

Lemma down_tail_S n c h l cy : down_tail (S n) c h l cy =
  if cy =? 0 then SOk (c, l)
  else if h =? l then v ← xget c (DPREV l); c ← xset c (DPREV l) (Z.lor v 1); SOk (c, l)
  else c ← xset c l (Z.shiftr cy 6); down_tail n c h (DNEXT l) (100 * Z.land cy 0x3f).
Proof. done. Qed.

(** The remainder is gone after three cells; a full buffer keeps a sticky bit. *)
Lemma down_tail_spec n : forall c h ds r,
  rep c h ds -> ds <> [] -> Forall dig99 ds -> 0 <= r < 64 -> (64 | r * 4 ^ Z.of_nat n) ->
  exists c' ds',
    down_tail (S n) c h (end_of h ds) (100 * r) = SOk (c', end_of h ds') /\
    rep c' h ds' /\ Forall dig99 ds' /\ zlen ds <= zlen ds' /\ hd 0 ds' = hd 0 ds /\
    (zlen ds + Z.of_nat n <= 512 ->
     exists m, 0 <= m <= Z.of_nat n /\ zlen ds' = zlen ds + m /\ (64 * val ds + r) * 100 ^ m = 64 * val ds').
Proof.
  induction n as [|n IH]; intros c h ds r Hr Hne Hd Hr64 Hdiv; rewrite down_tail_S.
  all: destruct (decide (r = 0)) as [->|Hr0];
    [exists c, ds; split_and!; try done; intros _; exists 0; rewrite Z.pow_0_r; split_and!; lia|].
  { destruct Hdiv as [k Hk]. change (4 ^ Z.of_nat 0) with 1 in Hk. lia. }
  destruct (Z.eqb_spec (100 * r) 0) as [Hz|_]; [lia|].
  assert (Hh : 0 <= h < 512) by apply Hr. assert (Hl : zlen ds <= 512) by apply Hr.
  destruct (decide (zlen ds = 512)) as [E512|Hlt].
  - replace (h =? end_of h ds) with true by (symmetry; apply Z.eqb_eq; unfold end_of; rewrite E512; zlia).
    destruct (snoc_inv ds Hne) as (l & v & ->). apply Forall_app in Hd as [Hdl Hv%Forall_inv].
    pose proof (lor_1_dig99 v Hv) as Hv1.
    rewrite end_of_pred, (rep_get _ _ _ _ _ Hr). cbn [mbind sres_bind].
    destruct (rep_set c h l v (Z.lor v 1) [] Hr) as (c' & -> & Hr'); [unfold dig99 in Hv1; lia|].
    cbn [mbind sres_bind]. exists c', (l ++ [Z.lor v 1]).
    split_and!; [| done | | | |].
    + do 2 f_equal. unfold end_of. by zlen_simpl.
    + apply Forall_app. split; [done|]. constructor; [done|constructor].
    + zlen_simpl. lia.
    + destruct l; [|done]. zlen_simpl. lia.
    + intros Hn. zlen_simpl. lia.
  - replace (h =? end_of h ds) with false.
    2:{ symmetry. apply Z.eqb_neq. unfold end_of. destruct ds; [done|]. zlen_simpl.
        pose proof (zlen_nonneg ds). zlia. }
    rewrite Z.shiftr_div_pow2 by lia. change (2 ^ 6) with 64.
    replace (Z.land (100 * r) 63) with ((100 * r) mod 64)
      by (symmetry; apply (land_pow2_mask (100 * r) 6); lia).
    destruct (rep_push_back c h (100 * r / 64) ds Hr) as (c1 & -> & Hr1); [lia|zlia|].
    cbn [mbind sres_bind]. rewrite (end_of_snoc h ds (100 * r / 64)).
    destruct (IH c1 h (ds ++ [100 * r / 64]) ((100 * r) mod 64)) as
      (c' & ds' & E & H1 & H2 & H3 & H4 & H5); try done.
    + by destruct ds.
    + apply Forall_app. split; [done|]. constructor; [unfold dig99; zlia|done].
    + zlia.
    + destruct Hdiv as [k Hk]. rewrite Nat2Z.inj_succ, Z.pow_succ_r in Hk by lia.
      exists (25 * k - 100 * r / 64 * 4 ^ Z.of_nat n).
      pose proof (Z.div_mod (100 * r) 64 ltac:(lia)). nia.
    + exists c', ds'. zlen_simpl. split_and!; try done; try lia.
      * rewrite H4. by destruct ds.
      * intros Hn. destruct H5 as (m & Hm & Hlm & Hvm); [lia|]. exists (m + 1). split_and!; try lia.
        rewrite <- Hvm, val_snoc, Z.pow_add_r by lia. change (100 ^ 1) with 100.
        pose proof (Z.div_mod (100 * r) 64 ltac:(lia)). nia.
Qed.

(** One step downwards, exactly: the value is divided by 64, with [m] cells
    more. *)
Definition down_exact (x x' : Dec) (ds ds' : list Z) : Prop :=
  exists m, 0 <= m <= 3 /\ val ds * 100 ^ m = 64 * val ds' /\
            zlen ds' - idig x' = zlen ds - idig x + m.

Lemma down_step_spec x ds :
  abs x ds -> Forall dig99 ds -> 2 <= zlen ds \/ 64 <= hd 0 ds ->
  exists x' ds',
    down_step x = SOk x' /\ abs x' ds' /\ Forall dig99 ds' /\ ex2 x' = ex2 x + 6 /\
    zlen ds - idig x <= zlen ds' - idig x' /\ idig x - 1 <= idig x' <= idig x /\
    mu x' ds' < mu x ds /\ (zlen ds <= 509 -> down_exact x x' ds ds').
Proof.
  intros (Hr & Hlo & Hne & Hhd) Hd Hbig. unfold down_step. rewrite Hlo.
  assert (Hl : zlen ds <= 512) by apply Hr.
  destruct (down_pass_spec 512 (xi x) (hi x) ds (idig x)) as
    (c & h & ds1 & i & r & -> & Hr1 & Hend & Hne1 & Hd1 & Hhd1 & Hr64 & Hval & Hlen & Hi & Hmu);
    try done; [unfold zlen in Hl; lia|].
  cbn [mbind sres_bind]. rewrite <- Hend.
  destruct (down_tail_spec 3 c h ds1 r) as (c' & ds' & E & H1 & H2 & H3 & H4 & H5); try done.
  { exists r. change (4 ^ Z.of_nat 3) with 64. lia. }
  rewrite E. cbn [mbind sres_bind].
  exists (MkDec c' h (end_of h ds') (ex2 x + 6) i), ds'. cbn [xi hi lo ex2 idig].
  split_and!; try done; try lia.
  - unfold abs. cbn [xi hi lo ex2 idig]. split_and!; try done; [|lia].
    intros ->. zlen_simpl. destruct ds1; [done|]. zlen_simpl. pose proof (zlen_nonneg ds1). lia.
  - unfold mu. cbn [idig]. by rewrite H4.
  - intros Hl509. destruct H5 as (m & Hm & Hlm & Hvm); [lia|]. exists m. cbn [idig].
    split_and!; try lia.
Qed.

(** What the invariants of the loop may use of a step. *)
Definition down_rel (x x' : Dec) (ds ds' : list Z) : Prop :=
  ex2 x' = ex2 x + 6 /\ zlen ds - idig x <= zlen ds' - idig x' /\
  idig x - 1 <= idig x' <= idig x /\ (zlen ds <= 509 -> down_exact x x' ds ds').

(** The loop, with an invariant that keeps the buffer from running empty. *)
Lemma scale_down_gen (I : Dec -> list Z -> Prop) :
  (forall x ds, abs x ds -> Forall dig99 ds -> I x ds -> 9 < idig x ->
     (2 <= zlen ds \/ 64 <= hd 0 ds) /\
     forall x' ds', abs x' ds' -> Forall dig99 ds' -> down_rel x x' ds ds' -> I x' ds') ->
  forall fuel x ds,
  abs x ds -> Forall dig99 ds -> I x ds -> mu x ds < Z.of_nat fuel -> 0 <= idig x ->
  exists x' ds',
    scale_down fuel x = SOk x' /\ abs x' ds' /\ Forall dig99 ds' /\ I x' ds' /\
    idig x' = Z.min 9 (idig x).
Proof.
  intros Hstep. induction fuel as [|fuel IH]; intros x ds Habs Hd HI Hf Hi.
  { exfalso. unfold mu in Hf. destruct (64 <=? hd 0 ds); cbn in Hf; lia. }
  cbn [scale_down]. destruct (Z.ltb_spec 9 (idig x)) as [H9|H9].
  2:{ exists x, ds. split_and!; try done. lia. }
  destruct (Hstep x ds Habs Hd HI H9) as [Hbig Hnext].
  destruct (down_step_spec x ds Habs Hd Hbig) as
    (x1 & ds1 & -> & Ha1 & Hd1 & He1 & Hz1 & Hi1 & Hmu & Hex).
  cbn [mbind sres_bind].
  destruct (IH x1 ds1 Ha1 Hd1) as (x' & ds' & E & H1 & H2 & H3 & H4); [|lia|lia|].
  { apply Hnext; [done..|]. repeat split; try done; lia. }
  exists x', ds'. split_and!; try done. lia.
Qed.

(** *** The exact value

    [W] cells and [z] zero cells behind them, divided by [64^n]. *)
Definition Exact (W z0 : Z) (x : Dec) (ds : list Z) : Prop :=
  exists n, 0 <= n /\ ex2 x = 6 * n /\ idig x - zlen ds <= z0 /\ z0 - (idig x - zlen ds) <= 3 * n /\
    W * 100 ^ (z0 - (idig x - zlen ds)) = val ds * 64 ^ n.

(** The digits that run the buffer empty: [c * 64^k] with [c] a single cell
    below 64 and nine zero cells or more to come. *)
Definition trap_free (W z : Z) : Prop :=
  9 <= z -> forall k c, 0 <= k -> W = c * 64 ^ k -> 64 <= c.

Lemma divide_25 w n W d : 0 <= n -> 1 <= d -> W * 100 ^ d = w * 64 ^ n ->
  exists a, w = 25 * a /\ W * 4 * 100 ^ (d - 1) = a * 64 ^ n.
Proof.
  intros Hn Hd E.
  assert (Hp : 100 ^ d = 25 * (4 * 100 ^ (d - 1))).
  { replace d with (1 + (d - 1)) at 1 by lia. rewrite Z.pow_add_r by lia. lia. }
  rewrite Hp in E.
  destruct (Z.gauss 25 (64 ^ n) w) as [a Ha].
  - exists (W * (4 * 100 ^ (d - 1))). lia.
  - by apply Z.coprime_pow_r.
  - exists a. split; [lia|]. subst w. nia.
Qed.

Lemma exact_not_trapped W z0 x ds :
  1 <= W -> abs x ds -> Forall dig99 ds -> Exact W z0 x ds -> trap_free W z0 -> 9 < idig x ->
  2 <= zlen ds \/ 64 <= hd 0 ds.
Proof.
  intros HW Habs Hd (n & Hn & _ & Hz & _ & E) Htf Hi.
  pose proof (abs_len _ _ Habs) as Hl.
  destruct (Z.le_gt_cases 2 (zlen ds)) as [?|Hl1]; [by left|right].
  destruct ds as [|w [|w2 ds]]; [zlen_simpl; lia| |zlen_simpl; pose proof (zlen_nonneg ds); lia].
  cbn [hd]. zlen_simpl. rewrite val_cons, val_nil in E. change (100 ^ zlen []) with 1 in E.
  specialize (Htf ltac:(lia)).
  destruct (Z.le_gt_cases 64 w) as [?|Hw]; [done|exfalso].
  assert (1 <= w) by apply Habs.
  set (d := z0 - (idig x - (1 + 0))) in *.
  destruct (decide (d = 0)) as [->|Hd0].
  { specialize (Htf n w Hn). lia. }
  destruct (divide_25 (w * 1 + 0) n W d Hn ltac:(lia) E) as (a & Ha & Ea).
  destruct (decide (d = 1)) as [->|Hd1].
  - change (100 ^ (1 - 1)) with 1 in Ea.
    destruct (decide (n = 0)) as [->|Hn0]; [rewrite Z.pow_0_r in Ea; lia|].
    specialize (Htf (n - 1) (16 * a) ltac:(lia)).
    replace (64 ^ n) with (64 * 64 ^ (n - 1)) in Ea
      by (rewrite <- Z.pow_succ_r by lia; f_equal; lia).
    lia.
  - destruct (divide_25 a n (W * 4) (d - 1) Hn ltac:(lia) Ea) as (a' & Ha' & _). lia.
Qed.

(** The number of steps, and with it of new cells, by the integer cells gone. *)
Lemma pow_64_100 D n : 0 <= D <= 146 -> 0 <= n -> 64 ^ n < 100 ^ (D + 1) -> n <= 1108 * D / 1000 + 2.
Proof.
  intros HD Hn H.
  assert (Hb : forallb (fun D => 100 ^ (D + 1) <=? 64 ^ (1108 * D / 1000 + 3)) (seqZ 0 147) = true)
    by (vm_compute; reflexivity).
  rewrite forallb_forall in Hb. specialize (Hb D).
  rewrite <- list_elem_of_In, elem_of_seqZ, Z.leb_le in Hb. specialize (Hb ltac:(lia)).
  apply Z.lt_succ_r. apply (Z.pow_lt_mono_r_iff 64); [lia|zlia|].
  replace (Z.succ (1108 * D / 1000 + 2)) with (1108 * D / 1000 + 3) by lia. lia.
Qed.

Lemma exact_len W z0 L0 x ds :
  Exact W z0 x ds -> abs x ds -> Forall dig99 ds -> W < 100 ^ L0 -> 0 <= L0 <= 160 ->
  9 <= idig x <= L0 + z0 -> L0 + z0 <= 155 -> zlen ds <= 509.
Proof.
  intros (n & Hn & _ & Hz & Hzn & E) Habs Hd HW HL0 Hi H155.
  pose proof (abs_len _ _ Habs) as Hl.
  assert (Hlow : 100 ^ (zlen ds - 1) <= val ds).
  { destruct ds as [|v ds]; [zlen_simpl; lia|]. apply Forall_cons in Hd as [_ Hd].
    pose proof (val_lower v ds Hd ltac:(apply Habs)) as H. zlen_simpl.
    by replace (1 + zlen ds - 1) with (zlen ds) by lia. }
  set (D := L0 + z0 - idig x).
  assert (Hpow : 64 ^ n < 100 ^ (D + 1)).
  { assert (Hp : 0 < 100 ^ (zlen ds - 1)) by (apply pow100_pos; lia).
    apply (Z.mul_lt_mono_pos_r (100 ^ (zlen ds - 1))); [done|].
    apply Z.le_lt_trans with (val ds * 64 ^ n).
    { rewrite Z.mul_comm. apply Z.mul_le_mono_nonneg_r; [apply Z.pow_nonneg; lia|done]. }
    rewrite <- E, <- Z.pow_add_r by lia.
    apply Z.lt_le_trans with (100 ^ L0 * 100 ^ (z0 - (idig x - zlen ds))).
    { apply Z.mul_lt_mono_pos_r; [apply pow100_pos; lia|done]. }
    rewrite <- Z.pow_add_r by lia. apply Z.pow_le_mono_r; lia. }
  pose proof (pow_64_100 D n ltac:(lia) Hn Hpow). zlia.
Qed.

Lemma Exact_step W z0 x x' ds ds' :
  Exact W z0 x ds -> ex2 x' = ex2 x + 6 -> down_exact x x' ds ds' -> Exact W z0 x' ds'.
Proof.
  intros (n & Hn & He & Hz & Hzn & E) He' (m & Hm & Hv & Hl).
  exists (n + 1). split_and!; try lia.
  replace (z0 - (idig x' - zlen ds')) with (z0 - (idig x - zlen ds) + m) by lia.
  rewrite Z.pow_add_r, Z.mul_assoc, E, Z.pow_add_r by lia. change (64 ^ 1) with 64.
  rewrite <- (Z.mul_comm (64 ^ n)), <- Z.mul_assoc, Hv. lia.
Qed.

Lemma scale_down_exact W z0 x ds :
  abs x ds -> Forall dig99 ds -> val ds = W -> zlen ds <= 160 -> z0 = idig x - zlen ds -> ex2 x = 0 ->
  9 <= idig x <= 155 -> trap_free W z0 ->
  exists x' ds',
    scale_down 400 x = SOk x' /\ abs x' ds' /\ Forall dig99 ds' /\ idig x' = 9 /\ Exact W z0 x' ds'.
Proof.
  intros Habs Hd HW HL Hz He Hi Htf. pose proof (abs_len _ _ Habs) as Hlen.
  assert (HW1 : 1 <= W < 100 ^ zlen ds).
  { rewrite <- HW. pose proof (val_bound ds Hd). destruct ds as [|v tl]; [zlen_simpl; lia|].
    apply Forall_cons in Hd as [_ Hd]. pose proof (val_lower v tl Hd ltac:(apply Habs)).
    pose proof (pow100_pos (zlen tl) (zlen_nonneg tl)). lia. }
  set (I := fun x' ds' => Exact W z0 x' ds' /\ 9 <= idig x' <= idig x).
  destruct (scale_down_gen I) with (fuel := 400%nat) (x := x) (ds := ds) as
    (x' & ds' & E & H1 & H2 & [H3 H4] & H5); try done.
  - intros y ys Hay Hdy [Hex Hiy] H9. split; [apply (exact_not_trapped W z0 y ys); [lia|done..]|].
    intros y' ys' Hay' Hdy' (Hr1 & Hr2 & Hr3 & Hr4). split; [|lia].
    apply (Exact_step W z0 y y' ys ys'); [done..|]. apply Hr4.
    apply (exact_len W z0 (zlen ds) y ys); try done; lia.
  - split; [|lia]. exists 0. rewrite Z.pow_0_r, Z.mul_1_r, He, <- Hz, Z.sub_diag. split_and!; try lia.
  - unfold mu. destruct (64 <=? hd 0 ds); cbn; lia.
  - lia.
  - exists x', ds'. split_and!; try done. lia.
Qed.
End StrscanBuf.
