(* ===== verification/LjStrscanDec.v ===== *)
(** * LjStrscanDec

    Decimal numbers of the number scanner: the digits are collected from the
    scaled buffer, the double is the correct rounding of the decimal number,
    the integer formats are exact. *)
From stdpp Require Import base tactics numbers list.
From Stdlib Require Import ZArith Lia.
From S2P Require Import Prelude LjFloat LjTab LjStrscan LjStrscanBuf.
Open Scope Z_scope.

Module StrscanDec.
Import Flt Strscan StrscanBuf.

(** ** Collecting the digits *)

Lemma collect_int_spec rest : forall fuel c h pre i x,
  rep c h (pre ++ rest) -> pre <> [] -> (length rest < fuel)%nat -> Forall dig99 rest ->
  0 <= x -> 1 <= i -> i <= 9 - (zlen pre - 1) -> x < 100 ^ zlen pre ->
  exists a b,
    rest = a ++ b /\ zlen a = Z.min (i - 1) (zlen rest) /\
    collect_int fuel c (end_of h pre) (end_of h (pre ++ rest)) i x =
      SOk (end_of h (pre ++ a), i - 1 - zlen a, x * 100 ^ zlen a + val a).
Proof.
  induction rest as [|v rest IH]; intros fuel c h pre i x Hr Hne Hf Hd Hx Hi Hi9 Hxb;
    (destruct fuel as [|fuel]; [cbn in Hf; lia|]); cbn [collect_int].
  - exists [], []. rewrite !(app_nil_r pre), Z.eqb_refl, andb_false_r. split_and!; [done|zlen_simpl; lia|].
    change (zlen []) with 0. change (val []) with 0. by rewrite Z.pow_0_r, Z.mul_1_r, Z.add_0_r, Z.sub_0_r.
  - assert (Hh : 0 <= h < 512) by apply Hr. assert (Hl : zlen (pre ++ v :: rest) <= 512) by apply Hr.
    apply Forall_cons in Hd as [Hv Hd]. unfold dig99 in Hv.
    pose proof (zlen_nonneg rest). pose proof (zlen_nonneg pre).
    assert (Hp1 : 1 <= zlen pre) by (destruct pre; [done|]; zlen_simpl; pose proof (zlen_nonneg pre); lia).
    assert (Hie : (end_of h pre =? end_of h (pre ++ v :: rest)) = false).
    { apply Z.eqb_neq. unfold end_of. zlen_simpl. zlia. }
    rewrite Hie. cbn [negb]. rewrite andb_true_r. destruct (Z.ltb_spec 0 (i - 1)) as [Hi0|Hi0].
    + rewrite (rep_get _ _ _ _ _ Hr). cbn [mbind sres_bind].
      assert (Hx2 : x * 100 + v < 100 ^ (zlen pre + 1)).
      { rewrite Z.pow_add_r by lia. change (100 ^ 1) with 100. lia. }
      assert (Hx64 : 100 ^ (zlen pre + 1) <= 100 ^ 9) by (apply Z.pow_le_mono_r; lia).
      rewrite u64_small by (unfold in_u64; lia). rewrite (end_of_snoc h pre v).
      destruct (IH fuel c h (pre ++ [v]) (i - 1) (x * 100 + v)) as (a & b & -> & Ha & E); try done; try lia.
      * by rewrite <- app_assoc.
      * by destruct pre.
      * cbn in Hf. lia.
      * zlen_simpl. lia.
      * zlen_simpl. by rewrite Z.add_0_r.
      * exists (v :: a), b. rewrite <- app_assoc in E. cbn [app] in E. rewrite E.
        split_and!; [done|rewrite zlen_cons, (zlen_cons v (a ++ b)), Ha; lia|]. rewrite <- app_assoc. cbn [app]. zlen_simpl.
        rewrite val_cons, Z.pow_add_r by lia. change (100 ^ 1) with 100.
        do 2 f_equal; [f_equal; lia|lia].
    + exists [], (v :: rest). rewrite (app_nil_r pre). split_and!; [done|zlen_simpl; lia|].
      change (zlen []) with 0. change (val []) with 0. by rewrite Z.pow_0_r, Z.mul_1_r, Z.add_0_r, Z.sub_0_r.
Qed.

Lemma collect_zeros_spec n : forall fuel i x,
  i = Z.of_nat n -> (n < fuel)%nat -> 0 <= x -> x * 100 ^ i < 2 ^ 64 ->
  collect_zeros fuel i x = SOk (x * 100 ^ i).
Proof.
  induction n as [|n IH]; intros fuel i x Hi Hf Hx Hb; (destruct fuel as [|fuel]; [lia|]); cbn [collect_zeros].
  - subst i. cbn -[Z.mul]. by rewrite Z.mul_1_r.
  - replace (0 <=? i - 1) with true by (symmetry; apply Z.leb_le; lia).
    replace i with (1 + (i - 1)) in Hb by lia. rewrite Z.pow_add_r in Hb by lia.
    assert (1 <= 100 ^ (i - 1)) by (pose proof (pow100_pos (i - 1) ltac:(lia)); lia).
    rewrite u64_small by (unfold in_u64; nia).
    rewrite IH by (try lia; nia). f_equal.
    replace i with (1 + (i - 1)) at 2 by lia. rewrite Z.pow_add_r by lia. lia.
Qed.

Lemma collect_frac_spec rest : forall fuel c h pre,
  rep c h (pre ++ rest) -> rest <> [] -> (length rest <= fuel)%nat -> Forall dig99 rest ->
  collect_frac fuel c (end_of h pre) (end_of h (pre ++ rest)) = SOk (negb (val rest =? 0)).
Proof.
  induction rest as [|v rest IH]; intros fuel c h pre Hr Hne Hf Hd; [done|].
  destruct fuel as [|fuel]; [cbn in Hf; lia|]. cbn [collect_frac].
  rewrite (rep_get _ _ _ _ _ Hr). cbn [mbind sres_bind].
  apply Forall_cons in Hd as [Hv Hd]. unfold dig99 in Hv.
  pose proof (val_bound rest Hd). pose proof (pow100_pos (zlen rest) (zlen_nonneg rest)).
  rewrite val_cons. destruct (Z.eqb_spec v 0) as [->|Hv0]; cbn [negb].
  - rewrite (end_of_snoc h pre 0). destruct rest as [|w rest].
    + by rewrite Z.eqb_refl.
    + assert (Hl : zlen (pre ++ 0 :: w :: rest) <= 512) by apply Hr.
      assert (Hie : (end_of h (pre ++ [0]) =? end_of h (pre ++ 0 :: w :: rest)) = false).
      { apply Z.eqb_neq. unfold end_of. zlen_simpl. pose proof (zlen_nonneg rest).
        pose proof (zlen_nonneg pre). zlia. }
      rewrite Hie. change (pre ++ 0 :: w :: rest) with (pre ++ [0] ++ w :: rest) in *.
      rewrite app_assoc in *. rewrite IH; try done. cbn in Hf |- *. lia.
  - f_equal. symmetry. apply negb_true_iff, Z.eqb_neq. nia.
Qed.

Lemma val_lower_hd ds : Forall dig99 ds -> ds <> [] -> 1 <= hd 0 ds -> 100 ^ (zlen ds - 1) <= val ds.
Proof.
  intros Hd Hne Hhd. destruct ds as [|v ds]; [done|]. apply Forall_cons in Hd as [_ Hd].
  rewrite zlen_cons. replace (1 + zlen ds - 1) with (zlen ds) by lia. by apply val_lower.
Qed.

Lemma collect_spec x ds :
  abs x ds -> Forall dig99 ds -> 1 <= idig x <= 9 -> idig x = 9 \/ zlen ds <= idig x ->
  (zlen ds <= idig x /\ collect x = SOk (val ds * 100 ^ (idig x - zlen ds), ex2 x)) \/
  exists a b, ds = a ++ b /\ zlen a = 9 /\ idig x = 9 /\ b <> [] /\
    collect x = SOk (2 * val a + b2z (negb (val b =? 0)), ex2 x - 1).
Proof.
  intros (Hr & Hlo & Hne & Hhd) Hd Hi Hc. unfold collect. rewrite Hlo.
  assert (Hh : 0 <= hi x < 512) by apply Hr. assert (Hl : zlen ds <= 512) by apply Hr.
  destruct ds as [|v rest]; [done|]. apply Forall_cons in Hd as [Hv Hd]. unfold dig99 in Hv.
  pose proof (rep_get (xi x) (hi x) [] v rest Hr) as Hg. rewrite end_of_nil in Hg by done.
  rewrite Hg. cbn [mbind sres_bind].
  replace (DNEXT (hi x)) with (end_of (hi x) [v]) by (unfold end_of; rewrite DNEXT_mod; done).
  pose proof (zlen_nonneg rest). rewrite zlen_cons in *.
  destruct (collect_int_spec rest 512 (xi x) (hi x) [v] (idig x) v) as (a & b & -> & Ha & E);
    try done; try lia.
  { unfold zlen in *. lia. }
  { change (zlen [v]) with 1. lia. }
  { change (100 ^ zlen [v]) with 100. lia. }
  cbn [app] in E. rewrite E. cbn [mbind sres_bind].
  rewrite zlen_app in *. pose proof (zlen_nonneg a). pose proof (zlen_nonneg b).
  apply Forall_app in Hd as [Hda Hdb].
  assert (Hva : v * 100 ^ zlen a + val a = val (v :: a)) by (by rewrite val_cons).
  assert (Hvb : 0 <= val (v :: a) < 100 ^ (1 + zlen a)).
  { rewrite <- zlen_cons with (x := v). apply val_bound. by constructor. }
  rewrite Hva. destruct b as [|w b].
  - left. rewrite app_nil_r, Z.eqb_refl. change (zlen []) with 0 in *. split; [lia|].
    rewrite (collect_zeros_spec (Z.to_nat (idig x - 1 - zlen a))); try lia.
    + cbn [mbind sres_bind]. by replace (idig x - (1 + (zlen a + 0))) with (idig x - 1 - zlen a) by lia.
    + apply Z.lt_le_trans with (100 ^ (1 + zlen a) * 100 ^ (idig x - 1 - zlen a)).
      * apply Z.mul_lt_mono_pos_r; [apply pow100_pos; lia|lia].
      * rewrite <- Z.pow_add_r by lia. transitivity (100 ^ 9); [apply Z.pow_le_mono_r; lia|lia].
  - right. pose proof (zlen_nonneg b). rewrite zlen_cons in *.
    assert (idig x = 9 /\ zlen a = 8) as [Hi9 Ha8] by lia.
    exists (v :: a), (w :: b). cbn [app]. split_and!; [done|rewrite zlen_cons; lia|done|done|].
    assert (Hie : (end_of (hi x) (v :: a) =? end_of (hi x) (v :: a ++ w :: b)) = false).
    { apply Z.eqb_neq. unfold end_of. rewrite !zlen_cons, zlen_app, zlen_cons. zlia. }
    rewrite Hie.
    pose proof (collect_frac_spec (w :: b) 512 (xi x) (hi x) (v :: a) Hr) as Ef. cbn [app] in Ef.
    rewrite Ef; [|done|unfold zlen in *; cbn [length]; lia|done]. cbn [mbind sres_bind].
    rewrite Ha8 in Hvb. rewrite Z.shiftl_mul_pow2, u64_small by (try lia; unfold in_u64; lia).
    do 2 f_equal. destruct (negb _); cbn [b2z].
    + rewrite <- Z.add_nocarry_lor; [lia|]. apply Z.bits_inj'. intros j Hj.
      rewrite Z.land_spec, Z.bits_0. destruct (decide (j = 0)) as [->|].
      * rewrite Z.mul_pow2_bits_low by lia. done.
      * change 1 with (2 ^ 0). rewrite (Z.pow2_bits_false 0 j), andb_false_r by lia. done.
    + rewrite Z.lor_0_r. lia.
Qed.

(** [N / D] is [W * 100^z * 2^e]. *)
Definition is_val (N D W z e : Z) : Prop :=
  N * pw 100 (- z) * pw 2 (- e) = W * pw 100 z * pw 2 e * D.

Lemma collect_rn N D x ds :
  0 < D -> abs x ds -> Forall dig99 ds -> 1 <= idig x <= 9 -> idig x = 9 \/ zlen ds <= idig x ->
  is_val N D (val ds) (idig x - zlen ds) (ex2 x) ->
  exists y e, collect x = SOk (y, e) /\ 0 <= y < 2 ^ 62 /\ is_rn N D (rne y e).
Proof.
  intros HD Habs Hd Hi Hc HV. unfold is_val in HV.
  destruct (collect_spec x ds Habs Hd Hi Hc) as [[Hle E]|(a & b & -> & Ha & Hi9 & Hb & E)].
  - exists (val ds * 100 ^ (idig x - zlen ds)), (ex2 x). pose proof (val_bound ds Hd).
    assert (Hy : 0 <= val ds * 100 ^ (idig x - zlen ds) < 100 ^ 9).
    { split; [apply Z.mul_nonneg_nonneg; [lia|apply Z.pow_nonneg; lia]|].
      apply Z.lt_le_trans with (100 ^ zlen ds * 100 ^ (idig x - zlen ds)).
      - apply Z.mul_lt_mono_pos_r; [apply pow100_pos; lia|lia].
      - rewrite <- Z.pow_add_r by (try apply zlen_nonneg; lia). apply Z.pow_le_mono_r; lia. }
    split_and!; [done|lia|lia|].
    rewrite pw_neg, (pw_nonneg 100) in HV by lia.
    eapply is_rn_ratio, rne_rn; [by apply pw_pos|done|lia|lia].
  - rewrite E. exists (2 * val a + b2z (negb (val b =? 0))), (ex2 x - 1).
    apply Forall_app in Hd as [Hda Hdb]. pose proof (val_bound a Hda). pose proof (val_bound b Hdb) as Hvb.
    assert (Hlow : 2 ^ 53 <= val a).
    { destruct Habs as (_ & _ & _ & Hhd). destruct a as [|v a]; [done|].
      pose proof (val_lower_hd (v :: a) Hda ltac:(done) Hhd) as Hv. rewrite Ha in Hv.
      change (100 ^ (9 - 1)) with 10000000000000000 in Hv. lia. }
    rewrite Ha in *. assert (0 <= b2z (negb (val b =? 0)) <= 1) by (destruct (negb _); cbn; lia).
    split_and!; [done|lia|lia|].
    rewrite Hi9, zlen_app, Ha in HV. replace (9 - (9 + zlen b)) with (- zlen b) in HV by lia.
    pose proof (zlen_nonneg b) as Hnb.
    rewrite Z.opp_involutive, (pw_neg 100 (- zlen b)), (pw_nonneg 100), val_app in HV by lia.
    rewrite Z.mul_1_r in HV.
    set (e := ex2 x) in *. pose proof (pw_pos 2 e ltac:(lia)) as HA.
    pose proof (pw_pos 2 (- e) ltac:(lia)) as HB. pose proof (pow100_pos (zlen b) Hnb) as HP.
    destruct (Z.eqb_spec (val b) 0) as [Hb0|Hb0]; cbn [negb b2z].
    + rewrite Z.add_0_r. replace (2 * val a) with (val a * 2 ^ 1) by lia.
      rewrite rne_scale by lia. replace (1 + (e - 1)) with e by lia.
      rewrite Hb0, Z.add_0_r in HV. eapply is_rn_ratio, rne_rn; [done|done| |lia].
      apply (Z.mul_reg_r _ _ (100 ^ zlen b)); [lia|]. lia.
    + apply is_rn_sticky; [done|done|].
      assert (HNB : N * pw 2 (- e) * 100 ^ zlen b = (val a * 100 ^ zlen b + val b) * (pw 2 e * D)) by lia.
      split; apply (Z.mul_lt_mono_pos_r (100 ^ zlen b)); try done; rewrite HNB.
      * replace (val a * pw 2 e * D * 100 ^ zlen b) with (val a * 100 ^ zlen b * (pw 2 e * D)) by lia.
        apply Z.mul_lt_mono_pos_r; [nia|lia].
      * replace ((val a + 1) * pw 2 e * D * 100 ^ zlen b)
          with ((val a * 100 ^ zlen b + 100 ^ zlen b) * (pw 2 e * D)) by lia.
        apply Z.mul_lt_mono_pos_r; [nia|lia].
Qed.

(** ** The slow path *)

Lemma pw_balance a b : b <= a -> pw 100 a * pw 100 (- b) = 100 ^ (a - b) * (pw 100 b * pw 100 (- a)).
Proof. intros H. unfold pw. rewrite <- !Z.pow_add_r by lia. f_equal. lia. Qed.

Lemma pow_64 n : 0 <= n -> 2 ^ (6 * n) = 64 ^ n.
Proof. intros Hn. by rewrite Z.pow_mul_r by lia. Qed.

Lemma Exact_is_val W z0 x ds :
  Exact W z0 x ds -> is_val (W * pw 100 z0) (pw 100 (- z0)) (val ds) (idig x - zlen ds) (ex2 x).
Proof.
  intros (n & Hn & He & Hz & _ & E). unfold is_val. rewrite He.
  rewrite (pw_neg 2 (- (6 * n))), (pw_nonneg 2), pow_64 by lia. rewrite Z.mul_1_r.
  rewrite <- (Z.mul_assoc W), (pw_balance z0 _ Hz), Z.mul_assoc, E. lia.
Qed.

Lemma up_rel_is_val x x' ds ds' :
  up_rel x x' ds ds' -> ex2 x = 0 ->
  is_val (val ds * pw 100 (idig x - zlen ds)) (pw 100 (- (idig x - zlen ds)))
         (val ds') (idig x' - zlen ds') (ex2 x').
Proof.
  intros (_ & n & k & Hn & Hk & He & Hv & Hl) He0. unfold is_val. rewrite He, He0.
  replace (0 - 6 * n) with (- (6 * n)) by lia.
  rewrite (pw_neg 2 (- (6 * n))), Z.opp_involutive, (pw_nonneg 2), pow_64 by lia. rewrite Z.mul_1_r.
  replace (idig x' - zlen ds') with (idig x - zlen ds + k) by lia.
  pose proof (pw_balance (idig x - zlen ds + k) (idig x - zlen ds) ltac:(lia)) as Hb.
  replace (idig x - zlen ds + k - (idig x - zlen ds)) with k in Hb by lia.
  set (z := idig x - zlen ds) in *. clearbody z.
  rewrite <- (Z.mul_assoc (val ds')), Hb.
  replace (val ds * pw 100 z * pw 100 (- (z + k)) * 64 ^ n)
    with (64 ^ n * val ds * (pw 100 z * pw 100 (- (z + k)))) by lia.
  rewrite Hv. lia.
Qed.

(** The digits of [ds] and [z] zero cells behind them, or a fraction. *)
Lemma too_large ds z :
  Forall dig99 ds -> ds <> [] -> 1 <= hd 0 ds -> 155 < zlen ds + z ->
  is_rn (val ds * pw 100 z) (pw 100 (- z)) INF.
Proof.
  intros Hd Hne Hhd Hbig. pose proof (val_lower_hd ds Hd Hne Hhd) as Hv.
  assert (Hl : 1 <= zlen ds) by (destruct ds; [done|]; rewrite zlen_cons; pose proof (zlen_nonneg ds); lia).
  apply is_rn_inf; [by apply pw_pos|].
  pose proof (pw_shift 100 z (zlen ds - 1) ltac:(lia) ltac:(lia)) as Hs.
  pose proof (pw_pos 100 z ltac:(lia)) as Hp. pose proof (pw_pos 100 (- z) ltac:(lia)) as Hp'.
  assert (H155 : 2 ^ 1024 <= 100 ^ (zlen ds - 1 + z)).
  { transitivity (100 ^ 155); [by vm_compute|]. apply Z.pow_le_mono_r; lia. }
  replace (dval INF) with (2 ^ 1024 * 2 ^ 1074) by (vm_compute; reflexivity).
  rewrite Z.mul_assoc. apply Z.mul_le_mono_nonneg_r; [apply Z.pow_nonneg; lia|].
  transitivity (pw 100 (- z) * 100 ^ (zlen ds - 1 + z)); [by apply Z.mul_le_mono_nonneg_l; lia|].
  rewrite Z.mul_comm, <- Hs, Z.mul_comm. apply Z.mul_le_mono_nonneg_r; lia.
Qed.

Lemma too_small ds z :
  Forall dig99 ds -> zlen ds + z < -163 -> is_rn (val ds * pw 100 z) (pw 100 (- z)) 0.
Proof.
  intros Hd Hsm. pose proof (val_bound ds Hd) as Hv. pose proof (zlen_nonneg ds) as Hl.
  rewrite (pw_neg 100 z), pw_nonneg, Z.mul_1_r by lia.
  apply is_rn_down; [apply pow100_pos; lia|by vm_compute|rewrite dval_0; nia|]. left.
  change (dval 0 + dval (0 + 1)) with 1. rewrite Z.mul_1_r.
  apply Z.lt_le_trans with (100 ^ zlen ds * 100 ^ 164).
  - apply Z.lt_le_trans with (100 ^ zlen ds * 2 ^ 1075).
    + change (2 ^ 1075) with (2 * 2 ^ 1074). set (P := 2 ^ 1074). assert (0 < P) by reflexivity. nia.
    + apply Z.mul_le_mono_nonneg_l; [apply Z.pow_nonneg; lia|by vm_compute].
  - rewrite <- Z.pow_add_r by lia. apply Z.pow_le_mono_r; lia.
Qed.

Lemma scale_exact x ds :
  abs x ds -> Forall dig99 ds -> zlen ds <= 160 -> ex2 x = 0 -> -163 <= idig x <= 155 ->
  trap_free (val ds) (idig x - zlen ds) ->
  exists x1 x' ds',
    scale_up 400 x = SOk x1 /\ scale_down 400 x1 = SOk x' /\ abs x' ds' /\ Forall dig99 ds' /\
    1 <= idig x' <= 9 /\ (idig x' = 9 \/ zlen ds' <= idig x') /\
    is_val (val ds * pw 100 (idig x - zlen ds)) (pw 100 (- (idig x - zlen ds)))
           (val ds') (idig x' - zlen ds') (ex2 x').
Proof.
  intros Habs Hd Hl He Hi Htf. destruct (Z.le_gt_cases (idig x) 9) as [H9|H9].
  - destruct (scale_up_spec 400 x ds) as (x' & ds' & -> & H1 & H2 & H3 & H4 & H5 & H6);
      try done; try lia; [by apply dig99_127| |].
    { unfold mu. destruct (64 <=? hd 0 ds); cbn; lia. }
    exists x', x', ds'. pose proof (abs_len _ _ H1). specialize (H6 Hd ltac:(lia)).
    assert (Hdown : scale_down 400 x' = SOk x').
    { cbn [scale_down]. destruct (Z.ltb_spec 9 (idig x')); [lia|done]. }
    split_and!; try done; try lia; [by apply H6|by apply up_rel_is_val].
  - destruct (scale_down_exact (val ds) (idig x - zlen ds) x ds) as (x' & ds' & E & H1 & H2 & H3 & H4);
      try done; try lia.
    exists x, x', ds'. split_and!; try done; try lia.
    + cbn [scale_up]. destruct (Z.ltb_spec (idig x) 9); [lia|done].
    + by apply Exact_is_val.
Qed.

Lemma signed_inf neg : (if neg : bool then fneg INF else INF) = signed neg INF.
Proof. by destruct neg. Qed.
Lemma signed_zero neg : (if neg : bool then SIGN else 0) = signed neg 0.
Proof. by destruct neg. Qed.

Lemma dec_slow_cells c n z fmt neg :
  0 < n ->
  dec_slow c n (2 * z) fmt neg =
    if 155 <? n + z then SOk (fmt, ONum (signed neg INF))
    else if n + z <? -163 then SOk (fmt, ONum (signed neg 0))
    else
      x ← scale_up 400 (MkDec c 0 n 0 (n + z)); x ← scale_down 400 x;
      r ← collect x; let '(x, ex2) := r in
      n ← strscan_double x ex2 neg; SOk (fmt, ONum n).
Proof.
  intros Hn. unfold dec_slow.
  replace (Z.shiftr (2 * z) 1) with z by (rewrite Z.shiftr_div_pow2 by lia; zlia).
  replace (Z.land (2 * z) 1) with 0 by (change 1 with (2 ^ 1 - 1); rewrite land_pow2_mask by lia; zlia).
  destruct (Z.ltb_spec 0 n); [|lia]. cbn [Z.eqb andb lj_assertX mbind sres_bind].
  change (310 / 2) with 155. change (- (326 / 2)) with (-163). by rewrite signed_inf, signed_zero.
Qed.

Lemma dec_slow_abs c ds z :
  rep c 0 ds -> ds <> [] -> 1 <= hd 0 ds -> zlen ds <= 511 -> abs (MkDec c 0 (zlen ds) 0 (zlen ds + z)) ds.
Proof.
  intros Hr Hne Hhd Hl. split_and!; try done. unfold end_of; cbn [lo hi]. pose proof (zlen_nonneg ds). zlia.
Qed.

Lemma zlen_pos {A} (l : list A) : l <> [] -> 0 < zlen l.
Proof. destruct l as [|a l]; [done|]. rewrite zlen_cons. pose proof (zlen_nonneg l). lia. Qed.

Lemma dec_slow_correct c ds z fmt neg :
  rep c 0 ds -> ds <> [] -> Forall dig99 ds -> 1 <= hd 0 ds -> zlen ds <= 160 -> trap_free (val ds) z ->
  exists b, dec_slow c (zlen ds) (2 * z) fmt neg = SOk (fmt, ONum (signed neg b)) /\
            is_rn (val ds * pw 100 z) (pw 100 (- z)) b.
Proof.
  intros Hr Hne Hd Hhd Hl Htf. rewrite dec_slow_cells by (by apply zlen_pos).
  destruct (Z.ltb_spec 155 (zlen ds + z)) as [Hbig|Hbig].
  { exists INF. split; [done|by apply too_large]. }
  destruct (Z.ltb_spec (zlen ds + z) (-163)) as [Hsm|Hsm].
  { exists 0. split; [done|by apply too_small]. }
  pose proof (dec_slow_abs c ds z Hr Hne Hhd ltac:(lia)) as Habs. set (x := MkDec c 0 (zlen ds) 0 (zlen ds + z)) in *.
  destruct (scale_exact x ds) as (x1 & x' & ds' & -> & E & H1 & H2 & H3 & H4 & H5); try done.
  { unfold x; cbn [idig]. by replace (zlen ds + z - zlen ds) with z by lia. }
  cbn [mbind sres_bind]. rewrite E. cbn [mbind sres_bind].
  unfold x in H5; cbn [idig] in H5. replace (zlen ds + z - zlen ds) with z in H5 by lia.
  destruct (collect_rn (val ds * pw 100 z) (pw 100 (- z)) x' ds' (pw_pos 100 (- z) ltac:(done)) H1 H2 H3 H4 H5) as (y & e & -> & Hy & Hrn).
  cbn [mbind sres_bind]. rewrite strscan_double_correct by done. cbn [mbind sres_bind]. eauto.
Qed.

(** ** Filling the buffer *)

Section text.
Variable s : list Z.

(** The digits [l] (their characters) from [p] on, a point in between skipped,
    up to [q]. *)
Fixpoint digs (p : Z) (l : list Z) (q : Z) : Prop :=
  match l with
  | [] => p = q
  | c :: l' => exists p', rd_digit s p = SOk (c, p') /\ digs (p' + 1) l' q
  end.

Definition isdig (c : Z) : Prop := 48 <= c < 58.

Lemma digs_app a b p q : digs p (a ++ b) q <-> exists r, digs p a r /\ digs r b q.
Proof.
  revert p. induction a as [|c a IH]; intros p; cbn [digs app].
  - split; [intros H; by exists p|by intros (r & -> & H)].
  - split.
    + intros (p' & E & H). apply IH in H as (r & H1 & H2). eauto 10.
    + intros (r & (p' & E & H1) & H2). exists p'. split; [done|]. apply IH. eauto.
Qed.

(** The decimal value of digit characters. *)
Definition dec (l : list Z) : Z := fold_left (fun x c => x * 10 + (c - 48)) l 0.

Lemma dec_acc l x : fold_left (fun x c => x * 10 + (c - 48)) l x = x * 10 ^ zlen l + dec l.
Proof.
  unfold dec. revert x. induction l as [|d l IH]; intros x.
  { cbn [fold_left]. change (10 ^ zlen []) with 1. lia. }
  cbn [fold_left]. rewrite IH, (IH (0 * 10 + (d - 48))). rewrite zlen_cons.
  pose proof (zlen_nonneg l). rewrite Z.pow_add_r by lia. lia.
Qed.

Lemma dec_app a b : dec (a ++ b) = dec a * 10 ^ zlen b + dec b.
Proof. unfold dec at 1. rewrite fold_left_app, dec_acc. done. Qed.
Lemma dec_cons c l : dec (c :: l) = (c - 48) * 10 ^ zlen l + dec l.
Proof. change (c :: l) with ([c] ++ l). rewrite dec_app. f_equal. Qed.

Lemma pow10_pos n : 0 <= n -> 0 < 10 ^ n.
Proof. intros. by apply Z.pow_pos_nonneg. Qed.

Lemma dec_bound l : Forall isdig l -> 0 <= dec l < 10 ^ zlen l.
Proof.
  induction 1 as [|c l Hc _ IH]; [by split|]. rewrite dec_cons, zlen_cons.
  pose proof (zlen_nonneg l). rewrite Z.pow_add_r by lia. unfold isdig in Hc. nia.
Qed.

Lemma land_15 c : isdig c -> Z.land c 15 = c - 48.
Proof.
  unfold isdig. intros Hc. change 15 with (2 ^ 4 - 1). rewrite land_pow2_mask by lia. change (2 ^ 4) with 16. zlia.
Qed.

Lemma dec_digit_spec p c q : digs p [c] q -> isdig c -> dec_digit s p = SOk (c - 48, q).
Proof.
  intros (p' & E & <-) Hc. unfold dec_digit. rewrite E. cbn [mbind sres_bind]. by rewrite land_15.
Qed.

(** The cells of pairs of digits. *)
Fixpoint pairs (l : list Z) : list Z :=
  match l with
  | a :: b :: l' => (10 * (a - 48) + (b - 48)) :: pairs l'
  | _ => []
  end.

Lemma pairs_spec n l : zlen l = 2 * Z.of_nat n -> Forall isdig l ->
  zlen (pairs l) = Z.of_nat n /\ Forall dig99 (pairs l) /\ val (pairs l) = dec l /\
  (forall c l', l = c :: l' -> 49 <= c -> 1 <= hd 0 (pairs l)).
Proof.
  revert l. induction n as [|n IH]; intros l Hl Hd.
  - destruct l; [|rewrite zlen_cons in Hl; pose proof (zlen_nonneg l); lia]. by split_and!.
  - destruct l as [|a [|b l]]; [done|rewrite zlen_cons in Hl; change (zlen []) with 0 in Hl; lia|].
    apply Forall_cons in Hd as [Ha Hd]. apply Forall_cons in Hd as [Hb Hd]. rewrite !zlen_cons in Hl.
    destruct (IH l ltac:(lia) Hd) as (H1 & H2 & H3 & _). cbn [pairs]. unfold isdig in *.
    split_and!.
    + rewrite zlen_cons. lia.
    + constructor; [unfold dig99; lia|done].
    + rewrite val_cons, !dec_cons, H1, H3, zlen_cons.
      replace (zlen l) with (2 * Z.of_nat n) by lia. rewrite Z.pow_add_r, Z.pow_mul_r by lia.
      change (10 ^ 2) with 100. lia.
    + intros c l' [= <- _] Hc. cbn [hd]. lia.
Qed.

Lemma dec_pairs_spec n : forall l p q xi ds,
  zlen l = 2 * Z.of_nat n -> digs p l q -> Forall isdig l -> rep xi 0 ds -> zlen ds + Z.of_nat n <= 511 ->
  exists xi', dec_pairs s n p xi (zlen ds) = SOk (q, xi', zlen ds + Z.of_nat n) /\ rep xi' 0 (ds ++ pairs l).
Proof.
  induction n as [|n IH]; intros l p q xi ds Hl Hdg Hd Hr Hb; cbn [dec_pairs].
  - destruct l; [|rewrite zlen_cons in Hl; pose proof (zlen_nonneg l); lia]. cbn [digs] in Hdg. subst q.
    exists xi. rewrite app_nil_r, Z.add_0_r. done.
  - destruct l as [|a [|b l]]; [done|rewrite zlen_cons in Hl; change (zlen []) with 0 in Hl; lia|].
    change (a :: b :: l) with ([a] ++ [b] ++ l) in Hdg.
    apply digs_app in Hdg as (p1 & Ha & Hdg). apply digs_app in Hdg as (p2 & Hb2 & Hdg).
    apply Forall_cons in Hd as [Hia Hd]. apply Forall_cons in Hd as [Hib Hd].
    rewrite (dec_digit_spec _ _ _ Ha Hia). cbn [mbind sres_bind].
    rewrite (dec_digit_spec _ _ _ Hb2 Hib). cbn [mbind sres_bind]. unfold isdig in *.
    pose proof (zlen_nonneg ds).
    destruct (rep_push_back xi 0 (10 * (a - 48) + (b - 48)) ds Hr) as (xi1 & E & Hr1); [lia|lia|].
    unfold end_of in E. rewrite Z.add_0_l, Z.mod_small in E by lia. rewrite E. cbn [mbind sres_bind].
    rewrite !zlen_cons in Hl.
    destruct (IH l p2 q xi1 (ds ++ [10 * (a - 48) + (b - 48)])) as (xi' & E' & Hr'); try done.
    + lia.
    + rewrite zlen_app, zlen_cons. change (zlen []) with 0. lia.
    + rewrite zlen_app, zlen_cons in E'. change (zlen []) with 0 in E'.
      replace (zlen ds + (1 + 0)) with (zlen ds + 1) in E' by lia. rewrite E'.
      exists xi'. rewrite <- app_assoc in Hr'. split; [do 2 f_equal; lia|done].
Qed.

Lemma val_zeros ds k : val (ds ++ replicate k 0) = val ds * 100 ^ Z.of_nat k.
Proof.
  rewrite val_app, zlen_replicate. replace (val (replicate k 0)) with 0; [lia|].
  induction k as [|k IH]; [done|]. cbn [replicate]. rewrite val_cons, <- IH. lia.
Qed.

Lemma dec_simplify_spec fuel : forall xi ds z dig,
  rep xi 0 ds -> 1 <= dig -> 21 <= dig + 2 * Z.of_nat fuel ->
  zlen ds + Z.of_nat fuel <= 500 -> (0 < fuel)%nat ->
  exists xi' k,
    dec_simplify fuel xi (zlen ds) (2 * z) dig =
      SOk (xi', zlen ds + Z.of_nat k, 2 * (z - Z.of_nat k), dig + 2 * Z.of_nat k) /\
    rep xi' 0 (ds ++ replicate k 0) /\ (Z.of_nat k <= Z.max 0 z) /\
    (dig + 2 * Z.of_nat k <= 20 \/ k = O) /\ (z - Z.of_nat k <= 0 \/ 18 < dig + 2 * Z.of_nat k).
Proof.
  induction fuel as [|fuel IH]; intros xi ds z dig Hr Hd Hf Hroom Hf0; [lia|].
  cbn [dec_simplify].
  destruct (Z.ltb_spec 0 (2 * z)) as [Hz|Hz]; cbn [andb].
  2:{ exists xi, O. cbn [replicate]. rewrite app_nil_r, !Z.add_0_r, Z.sub_0_r. split_and!; try done; lia. }
  destruct (Z.leb_spec dig 18) as [H18|H18].
  2:{ exists xi, O. cbn [replicate]. rewrite app_nil_r, !Z.add_0_r, Z.sub_0_r. split_and!; try done; lia. }
  pose proof (zlen_nonneg ds).
  destruct (rep_push_back xi 0 0 ds Hr) as (xi1 & E & Hr1); [lia|lia|].
  unfold end_of in E. rewrite Z.add_0_l, Z.mod_small in E by lia. rewrite E. cbn [mbind sres_bind].
  destruct fuel as [|fuel]; [lia|].
  assert (Hl1 : zlen (ds ++ [0]) = zlen ds + 1) by (rewrite zlen_app; done).
  destruct (IH xi1 (ds ++ [0]) (z - 1) (dig + 2)) as (xi' & k & E' & H1 & H2 & H3 & H4); try done; try lia.
  rewrite Hl1 in E'. replace (2 * z - 2) with (2 * (z - 1)) by lia. rewrite E'.
  exists xi', (S k). rewrite <- app_assoc in H1. split_and!; try done; try lia.
  do 2 f_equal; [f_equal; [f_equal|]|]; lia.
Qed.

(** The parity of the exponent decides how the digits are paired. *)
Lemma parity_test a b : (Z.land (Z.lxor a b) 1 =? 0) = Bool.eqb (Z.odd a) (Z.odd b).
Proof.
  change 1 with (2 ^ 0). rewrite land_pow2, Z.lxor_spec, !Z.bit0_odd by lia.
  by destruct (Z.odd a), (Z.odd b).
Qed.

Lemma rep_cells0 : rep cells0 0 [].
Proof.
  split_and!; try done. intros j Hj. change (zlen []) with 0 in Hj. lia.
Qed.

Lemma rep_push_cell xi ds v :
  rep xi 0 ds -> zlen ds < 512 -> 0 <= v < 256 ->
  exists xi', xset xi (zlen ds) v = SOk xi' /\ rep xi' 0 (ds ++ [v]).
Proof.
  intros Hr Hl Hv. destruct (rep_push_back xi 0 v ds Hr Hl Hv) as (xi' & E & Hr').
  pose proof (zlen_nonneg ds). unfold end_of in E. rewrite Z.add_0_l, Z.mod_small in E by lia. eauto.
Qed.

Lemma pairs_app n a b : zlen a = 2 * Z.of_nat n -> pairs (a ++ b) = pairs a ++ pairs b.
Proof.
  revert a. induction n as [|n IH]; intros a Ha.
  - destruct a; [done|rewrite zlen_cons in Ha; pose proof (zlen_nonneg a); lia].
  - destruct a as [|x [|y a]]; [done|rewrite zlen_cons in Ha; change (zlen []) with 0 in Ha; lia|].
    cbn [app pairs]. rewrite IH; [done|]. rewrite !zlen_cons in Ha. lia.
Qed.

(** The digits that the cells hold: a zero before or behind makes their number
    even where the exponent needs it. *)
Definition lead (ex10 i : Z) : list Z := if Bool.eqb (Z.odd ex10) (Z.odd i) then [] else [48].
Definition trail (ex10 : Z) : list Z := if Z.odd ex10 then [48] else [].

Lemma zlen_pairs l n : zlen l = 2 * n -> 0 <= n -> zlen (pairs l) = n.
Proof.
  intros Hl Hn. revert l Hl. pattern n. apply natlike_ind; [| |done].
  - intros l Hl. destruct l; [done|rewrite zlen_cons in Hl; pose proof (zlen_nonneg l); lia].
  - intros m Hm IH l Hl. destruct l as [|x [|y l]]; rewrite ?zlen_cons in Hl.
    + change (zlen []) with 0 in Hl. lia.
    + change (zlen []) with 0 in Hl. lia.
    + cbn [pairs]. rewrite zlen_cons, IH; lia.
Qed.

Lemma odd_half n : Z.odd n = true -> n = 2 * (n / 2) + 1.
Proof. rewrite Zodd_mod, Z.eqb_eq. zlia. Qed.
Lemma even_half n : Z.odd n = false -> n = 2 * (n / 2).
Proof. rewrite <- Z.negb_even, negb_false_iff, Zeven_mod, Z.eqb_eq. zlia. Qed.

(** Pairs and the last digit, behind the cells [ds]. *)
Lemma dec_align_rest r p q ex10 dig xi ds :
  digs p r q -> Forall isdig r -> zlen r <= 800 -> rep xi 0 ds -> zlen ds <= 1 -> Z.odd (zlen r) = Z.odd ex10 ->
  exists xi',
    (r' ← dec_pairs s (Z.to_nat (zlen r / 2)) p xi (zlen ds);
     let '(p, xi, xip) := r' in
     if negb (zlen r mod 2 =? 0) then
       r ← dec_digit s p; let '(d, p) := r in
       xi ← xset xi xip (10 * d); SOk (p, xi, xip + 1, ex10 - 1, dig + 1)
     else SOk (p, xi, xip, ex10, dig)) =
    SOk (q, xi', zlen (ds ++ pairs (r ++ trail ex10)), ex10 - zlen (trail ex10), dig + zlen (trail ex10)) /\
    rep xi' 0 (ds ++ pairs (r ++ trail ex10)).
Proof.
  intros Hdg Hd Hl Hr Hds Hodd. pose proof (zlen_nonneg r) as Hnr. pose proof (zlen_nonneg ds) as Hnd.
  unfold trail. rewrite <- Hodd. destruct (Z.odd (zlen r)) eqn:Ho.
  - pose proof (odd_half _ Ho) as Hh. destruct (snoc_inv r) as (m & t & ->).
    { intros ->. change (zlen []) with 0 in Hh. lia. }
    rewrite zlen_app in *. change (zlen [t]) with 1 in *. set (n := (zlen m + 1) / 2) in *.
    apply digs_app in Hdg as (p1 & Hm & Ht). apply Forall_app in Hd as [Hdm Hdt%Forall_inv].
    destruct (dec_pairs_spec (Z.to_nat n) m p p1 xi ds) as (xi1 & -> & Hr1); try done; try lia.
    cbn [mbind sres_bind].
    replace ((zlen m + 1) mod 2 =? 0) with false by (symmetry; apply Z.eqb_neq; zlia). cbn [negb].
    rewrite (dec_digit_spec _ _ _ Ht Hdt). cbn [mbind sres_bind].
    assert (Hpm : zlen (pairs m) = n) by (apply zlen_pairs; lia).
    replace (zlen ds + Z.of_nat (Z.to_nat n)) with (zlen (ds ++ pairs m)) by (rewrite zlen_app; lia).
    unfold isdig in Hdt.
    destruct (rep_push_cell xi1 (ds ++ pairs m) (10 * (t - 48)) Hr1) as (xi' & -> & Hr'); [rewrite zlen_app; lia|lia|].
    cbn [mbind sres_bind]. exists xi'.
    assert (Ep : pairs ((m ++ [t]) ++ [48]) = pairs m ++ [10 * (t - 48)]).
    { rewrite <- app_assoc, (pairs_app (Z.to_nat n)) by lia. cbn [app pairs]. do 2 f_equal. lia. }
    rewrite Ep, app_assoc. split; [|done]. rewrite (zlen_app (ds ++ pairs m)). done.
  - pose proof (even_half _ Ho) as Hh. set (n := zlen r / 2) in *.
    destruct (dec_pairs_spec (Z.to_nat n) r p q xi ds) as (xi1 & -> & Hr1); try done; try lia.
    cbn [mbind sres_bind].
    replace (zlen r mod 2 =? 0) with true by (symmetry; apply Z.eqb_eq; zlia). cbn [negb].
    exists xi1. rewrite app_nil_r. split; [|done].
    rewrite zlen_app, (zlen_pairs r n) by lia. change (zlen []) with 0.
    rewrite Z.sub_0_r, Z.add_0_r. by replace (zlen ds + Z.of_nat (Z.to_nat n)) with (zlen ds + n) by lia.
Qed.

Lemma dec_align_spec l p q ex10 dig :
  digs p l q -> Forall isdig l -> 1 <= zlen l <= 800 ->
  let l' := lead ex10 (zlen l) ++ l ++ trail ex10 in
  exists xi,
    dec_align s p ex10 (zlen l) dig =
      SOk (q, xi, zlen (pairs l'), ex10 - zlen (trail ex10), dig + zlen (trail ex10)) /\
    rep xi 0 (pairs l').
Proof.
  intros Hdg Hd Hl l'. unfold l', lead, dec_align, dec_lead. rewrite parity_test.
  destruct (Bool.eqb (Z.odd ex10) (Z.odd (zlen l))) eqn:Hp; cbn [negb mbind sres_bind].
  - apply Bool.eqb_prop in Hp.
    apply (dec_align_rest l p q ex10 dig cells0 [] Hdg Hd ltac:(lia) rep_cells0 ltac:(done)). done.
  - destruct l as [|c r]; [change (zlen []) with 0 in Hl; lia|]. rewrite zlen_cons in *.
    change (c :: r) with ([c] ++ r) in Hdg. apply digs_app in Hdg as (p1 & Hc & Hdg).
    apply Forall_cons in Hd as [Hdc Hd]. rewrite (dec_digit_spec _ _ _ Hc Hdc). cbn [mbind sres_bind].
    unfold isdig in Hdc.
    destruct (rep_push_cell cells0 [] (c - 48) rep_cells0) as (xi & E & Hr); [done|lia|].
    change (zlen []) with 0 in E. rewrite E. cbn [mbind sres_bind].
    replace (1 + zlen r - 1) with (zlen r) by lia.
    destruct (dec_align_rest r p1 q ex10 dig xi [c - 48]) as (xi' & E' & Hr'); try done; try lia.
    { apply Bool.eqb_false_iff in Hp. rewrite Z.odd_add in Hp. cbn in Hp.
      by destruct (Z.odd ex10), (Z.odd (zlen r)). }
    change (zlen [c - 48]) with 1 in E'. rewrite E'. exists xi'. cbn [app pairs].
    replace (10 * (48 - 48) + (c - 48)) with (c - 48) by lia. done.
Qed.

Lemma lead_trail_even ex10 i : 0 <= i ->
  exists n, 0 <= n /\ zlen (lead ex10 i) + i + zlen (trail ex10) = 2 * n /\ zlen (lead ex10 i) <= 1 /\
            n = (i + zlen (trail ex10) + 1) / 2.
Proof.
  intros Hi. unfold lead, trail.
  destruct (Z.odd ex10), (Z.odd i) eqn:Ho; cbn [Bool.eqb];
    (pose proof (odd_half i Ho) as Hh || pose proof (even_half i Ho) as Hh);
    repeat change (zlen [48]) with 1; repeat change (zlen (@nil Z)) with 0;
    eexists; (split_and!; [| |lia|reflexivity]); zlia.
Qed.

Lemma trail_exp ex10 : exists z, ex10 - zlen (trail ex10) = 2 * z.
Proof.
  unfold trail. destruct (Z.odd ex10) eqn:Ho.
  - exists (ex10 / 2). apply odd_half in Ho. change (zlen [48]) with 1. lia.
  - exists (ex10 / 2). apply even_half in Ho. change (zlen []) with 0. lia.
Qed.

Lemma isdig_48 : isdig 48.
Proof. unfold isdig. lia. Qed.

Lemma aligned_digits ex10 l :
  Forall isdig l -> 49 <= hd 0 l -> 1 <= zlen l ->
  let l' := lead ex10 (zlen l) ++ l ++ trail ex10 in
  let ds := pairs l' in
  Forall dig99 ds /\ ds <> [] /\ 1 <= hd 0 ds /\ val ds = dec l * 10 ^ zlen (trail ex10) /\
  zlen ds = (zlen l + zlen (trail ex10) + 1) / 2.
Proof.
  intros Hd Hhd Hl l' ds. destruct (lead_trail_even ex10 (zlen l) ltac:(lia)) as (n & Hn & He & _ & Hnn).
  assert (Hl' : zlen l' = 2 * n) by (unfold l'; rewrite !zlen_app; lia).
  pose proof (zlen_nonneg (lead ex10 (zlen l))). pose proof (zlen_nonneg (trail ex10)).
  assert (Hd' : Forall isdig l').
  { unfold l', lead, trail. repeat apply Forall_app_2; [|done|];
      case_match; first [constructor; [apply isdig_48|constructor]|constructor]. }
  destruct (pairs_spec (Z.to_nat n) l' ltac:(lia) Hd') as (H1 & H2 & H3 & H4).
  assert (Hdec : dec l' = dec l * 10 ^ zlen (trail ex10)).
  { unfold l'. rewrite !dec_app. unfold lead, trail.
    destruct (Bool.eqb _ _), (Z.odd ex10); repeat change (dec [48]) with 0; repeat change (dec []) with 0; lia. }
  assert (Hne : ds <> []).
  { unfold ds. intros E. rewrite E in H1. change (zlen []) with 0 in H1. lia. }
  split_and!; try done; [|unfold ds; lia|unfold ds; lia].
  destruct l as [|c l]; [done|]. cbn [hd] in Hhd. unfold ds.
  destruct (Bool.eqb (Z.odd ex10) (Z.odd (zlen (c :: l)))) eqn:Eb.
  - apply (H4 c (l ++ trail ex10)); [unfold l', lead; by rewrite Eb|done].
  - unfold l', lead. rewrite Eb. cbn [app pairs hd]. lia.
Qed.

(** The buffer of up to 300 digits holds their value, with an even exponent. *)
Lemma dec_fill_spec l p q ex10 :
  digs p l q -> Forall isdig l -> 49 <= hd 0 l -> 1 <= zlen l <= 300 ->
  exists c ds z dig' j,
    dec_fill s p ex10 (zlen l) = SOk (c, zlen ds, 2 * z, dig') /\
    rep c 0 ds /\ Forall dig99 ds /\ ds <> [] /\ 1 <= hd 0 ds /\ zlen ds <= 160 /\
    0 <= j /\ ex10 = 2 * z + j /\ val ds = dec l * 10 ^ j /\ zlen ds = (dig' + 1) / 2 /\
    dig' = zlen l + j /\ (j <= 1 \/ dig' <= 20 /\ 0 < ex10) /\ (z <= 0 \/ 18 < dig').
Proof.
  intros Hdg Hd Hhd Hl. unfold dec_fill, STRSCAN_MAXDIG.
  destruct (Z.eqb_spec (zlen l) 0); [lia|]. destruct (Z.ltb_spec 800 (zlen l)); [lia|].
  destruct (dec_align_spec l p q ex10 (zlen l) Hdg Hd ltac:(lia)) as (xi & -> & Hr).
  destruct (aligned_digits ex10 l Hd Hhd ltac:(lia)) as (H1 & H2 & H3 & H4 & H5).
  destruct (trail_exp ex10) as [z Hz]. cbv zeta in *. cbn [mbind sres_bind].
  set (ds := pairs (lead ex10 (zlen l) ++ l ++ trail ex10)) in *.
  assert (Ht : 0 <= zlen (trail ex10) <= 1) by (unfold trail; destruct (Z.odd ex10); by split).
  destruct (Z.ltb_spec 800 (zlen l + zlen (trail ex10))); [lia|].
  assert (Hds : zlen ds <= 151) by zlia. rewrite Hz.
  destruct (dec_simplify_spec 11 xi ds z (zlen l + zlen (trail ex10)) Hr) as
    (c & k & -> & Hr' & Hk & Hk20 & Hend); try lia.
  exists c, (ds ++ replicate k 0), (z - Z.of_nat k), (zlen l + zlen (trail ex10) + 2 * Z.of_nat k),
    (zlen (trail ex10) + 2 * Z.of_nat k).
  rewrite zlen_app, zlen_replicate. split_and!; try done; try lia.
  - apply Forall_app. split; [done|]. apply Forall_replicate. done.
  - by destruct ds.
  - by destruct ds.
  - rewrite val_zeros, H4, Z.pow_add_r, Z.pow_mul_r by lia. change (10 ^ 2) with 100. lia.
  - zlia.
Qed.

(** ** The digits that run the buffer empty *)

(** [D] with [dig] digits and the exponent [ex10] are converted: the exponent
    is small, the digits are few, or the odd part of [D] has more than a cell. *)
Definition dec_safe (D dig ex10 : Z) : Prop :=
  ex10 < 18 \/ dig <= 17 \/ (forall a k, 0 <= k -> D = a * 2 ^ k -> 64 <= a).

Lemma dec_lower l : Forall isdig l -> 49 <= hd 0 l -> 1 <= zlen l -> 10 ^ (zlen l - 1) <= dec l.
Proof.
  intros Hd Hhd Hl. destruct l as [|c l]; [change (zlen []) with 0 in Hl; lia|]. cbn [hd] in Hhd.
  apply Forall_cons in Hd as [_ Hd]. rewrite zlen_cons, dec_cons. pose proof (dec_bound l Hd).
  replace (1 + zlen l - 1) with (zlen l) by lia.
  assert (1 * 10 ^ zlen l <= (c - 48) * 10 ^ zlen l) by (apply Z.mul_le_mono_nonneg_r; lia). lia.
Qed.

Lemma pow5_divides D j c m : 0 <= j -> 0 <= m -> D * 10 ^ j = c * 2 ^ m ->
  exists c', c = 5 ^ j * c' /\ D * 2 ^ j = c' * 2 ^ m.
Proof.
  intros Hj Hm E. change 10 with (2 * 5) in E. rewrite Z.pow_mul_l in E.
  destruct (Z.gauss (5 ^ j) (2 ^ m) c) as [a Ha].
  - exists (D * 2 ^ j). lia.
  - by apply Z.coprime_pow_l, Z.coprime_pow_r.
  - exists a. split; [lia|]. subst c. assert (0 < 5 ^ j) by (by apply Z.pow_pos_nonneg).
    apply (Z.mul_reg_r _ _ (5 ^ j)); lia.
Qed.

Lemma dec_safe_trap_free D dig ex10 j z dig' :
  10 ^ (dig - 1) <= D < 10 ^ dig -> 1 <= dig -> dec_safe D dig ex10 -> 0 <= j -> ex10 = 2 * z + j ->
  dig' = dig + j -> z <= 0 \/ 18 < dig' -> trap_free (D * 10 ^ j) z.
Proof.
  intros HD Hdig Hs Hj He Hd' Hz Hz9 k c Hk E.
  assert (HD1 : 1 <= D) by (pose proof (pow10_pos (dig - 1)); lia).
  rewrite <- pow_64 in E by lia.
  assert (Hp : 0 < 2 ^ (6 * k)) by (apply Z.pow_pos_nonneg; lia).
  destruct (pow5_divides D j c (6 * k) Hj ltac:(lia) E) as (c' & -> & E').
  assert (H2j : 0 < 2 ^ j) by (by apply Z.pow_pos_nonneg).
  assert (Hc' : 1 <= c') by nia.
  destruct (Z.le_gt_cases 3 j) as [H3|H3].
  { assert (5 ^ 3 <= 5 ^ j) by (apply Z.pow_le_mono_r; lia). change (5 ^ 3) with 125 in *. nia. }
  destruct Hs as [Hs|[Hs|Hs]]; [lia| |].
  - assert (j = 2 /\ dig = 17) as [-> ->] by lia. change (5 ^ 2) with 25. change (2 ^ 2) with 4 in E'.
    change (10 ^ (17 - 1)) with 10000000000000000 in HD. change (10 ^ 17) with 100000000000000000 in HD.
    destruct (Z.le_gt_cases 3 c') as [?|Hc3]; [lia|exfalso].
    destruct (Z.le_gt_cases k 9) as [Hk9|Hk9].
    + assert (2 ^ (6 * k) <= 2 ^ 54) by (apply Z.pow_le_mono_r; lia). nia.
    + assert (2 ^ 60 <= 2 ^ (6 * k)) by (apply Z.pow_le_mono_r; lia). nia.
  - assert (H5 : 1 <= 5 ^ j) by (pose proof (Z.pow_pos_nonneg 5 j); lia).
    assert (Hc : 64 <= c'); [|nia].
    destruct (Z.le_gt_cases j (6 * k)) as [Hjk|Hjk].
    + apply (Hs c' (6 * k - j)); [lia|]. apply (Z.mul_reg_r _ _ (2 ^ j)); [lia|].
      rewrite E', <- Z.mul_assoc, <- Z.pow_add_r by lia. do 2 f_equal. lia.
    + specialize (Hs D 0 ltac:(lia)). rewrite Z.pow_0_r, Z.mul_1_r in Hs. specialize (Hs eq_refl).
      assert (2 ^ (6 * k) <= 2 ^ j) by (apply Z.pow_le_mono_r; lia). nia.
Qed.

(** ** The path for integers *)

Lemma u64_step y v : u64 (u64 y * 100 + v) = u64 (y * 100 + v).
Proof. width_lia. Qed.

Lemma dec_sum_spec rest : forall xi pre y,
  rep xi 0 (pre ++ rest) -> zlen (pre ++ rest) <= 511 ->
  dec_sum (length rest) xi (zlen pre) (u64 y) = SOk (u64 (y * 100 ^ zlen rest + val rest)).
Proof.
  induction rest as [|v rest IH]; intros xi pre y Hr Hl; cbn [dec_sum length].
  - change (100 ^ zlen []) with 1. rewrite val_nil. do 2 f_equal. lia.
  - pose proof (rep_get _ _ _ _ _ Hr) as Hg. unfold end_of in Hg.
    rewrite zlen_app, zlen_cons in Hl. pose proof (zlen_nonneg pre). pose proof (zlen_nonneg rest).
    rewrite Z.add_0_l, Z.mod_small in Hg by lia. rewrite Hg. cbn [mbind sres_bind].
    rewrite u64_step. change (v :: rest) with ([v] ++ rest) in Hr. rewrite app_assoc in Hr.
    replace (zlen pre + 1) with (zlen (pre ++ [v])) by (rewrite zlen_app; done).
    rewrite IH; [|done|rewrite !zlen_app; change (zlen [v]) with 1; lia].
    rewrite val_cons, zlen_cons, Z.pow_add_r by lia. do 2 f_equal. lia.
Qed.

(** The test for overflow is exact. *)
Lemma dec_fast_spec xi ds z dig fmt opt neg :
  rep xi 0 ds -> Forall dig99 ds -> ds <> [] -> zlen ds <= 160 -> zlen ds = (dig + 1) / 2 ->
  10 ^ (dig - 1) <= val ds < 10 ^ dig -> 1 <= dig ->
  dec_fast xi (zlen ds) (2 * z) dig fmt opt neg =
    if (z =? 0) && (val ds <? 2 ^ 64) then dec_switch (val ds) fmt opt neg else SOk (inr fmt).
Proof.
  intros Hr Hd Hne Hl Hlen Hv Hdig. unfold dec_fast.
  assert (Hz : (2 * z =? 0) = (z =? 0)) by (destruct (Z.eqb_spec z 0); [subst; done|apply Z.eqb_neq; lia]).
  rewrite Hz. destruct (Z.leb_spec dig 20) as [H20|H20]; cbn [andb].
  2:{ assert (10 ^ 20 <= 10 ^ (dig - 1)) by (apply Z.pow_le_mono_r; lia).
      destruct (Z.ltb_spec (val ds) (2 ^ 64)); [lia|]. by rewrite andb_false_r. }
  destruct (z =? 0); cbn [andb]; [|done].
  destruct ds as [|v rest]; [done|]. apply Forall_cons in Hd as [Hdv Hd]. unfold dig99 in Hdv.
  pose proof (rep_get xi 0 [] v rest Hr) as Hg. rewrite end_of_nil in Hg by lia. rewrite Hg.
  cbn [mbind sres_bind]. rewrite zlen_cons in Hl, Hlen |- *.
  replace (Z.to_nat (1 + zlen rest - 1)) with (length rest) by (unfold zlen; lia).
  pose proof (dec_sum_spec rest xi [v] v Hr) as Hs. rewrite u64_small in Hs by (unfold in_u64; lia).
  change (zlen [v]) with 1 in Hs. rewrite Hs by (rewrite zlen_app; change (zlen [v]) with 1; lia).
  cbn [mbind sres_bind]. rewrite <- val_cons. pose proof (val_bound rest Hd) as Hb.
  pose proof (val_cons v rest) as Hvc.
  destruct (Z.ltb_spec (val (v :: rest)) (2 ^ 64)) as [H64|H64].
  - rewrite u64_small by (unfold in_u64; lia).
    destruct (Z.eqb_spec dig 20) as [->|Hne20]; cbn [andb negb]; [|done].
    change ((20 + 1) / 2) with 10 in Hlen. assert (E9 : zlen rest = 9) by lia. rewrite E9 in *.
    change (100 ^ 9) with 1000000000000000000 in *. change (10 ^ (20 - 1)) with 10000000000000000000 in *.
    destruct (Z.ltb_spec 18 v); [lia|]. cbn [orb].
    destruct (Z.leb_spec 0 (i64 (val (v :: rest)))); [exfalso; width_lia|done].
  - destruct (Z.eqb_spec dig 20) as [->|Hne20].
    2:{ assert (10 ^ dig <= 10 ^ 19) by (apply Z.pow_le_mono_r; lia). lia. }
    change ((20 + 1) / 2) with 10 in Hlen. assert (E9 : zlen rest = 9) by lia. rewrite E9 in *.
    change (100 ^ 9) with 1000000000000000000 in *.
    destruct (Z.ltb_spec 18 v); [done|]. cbn [orb].
    destruct (Z.leb_spec 0 (i64 (u64 (val (v :: rest))))); [done|exfalso; width_lia].
Qed.

(** *** Numbers *)

(** The options under which digits become a double. *)
Definition num_format (fmt opt : Z) : option Z :=
  if fmt =? STRSCAN_INT then
    if opt_has opt STRSCAN_OPT_TONUM && negb (opt_has opt STRSCAN_OPT_C) then Some STRSCAN_NUM else None
  else if (fmt =? STRSCAN_NUM) || (fmt =? STRSCAN_IMAG) then Some fmt else None.

Lemma dec_switch_num x fmt opt neg fmt' :
  num_format fmt opt = Some fmt' -> 0 <= x < 2 ^ 64 ->
  dec_switch x fmt opt neg =
    if x <? 2 ^ 63 then SOk (inl (fmt', ONum (signed neg (rne x 0)))) else SOk (inr fmt').
Proof.
  intros Hf Hx. unfold dec_switch, num_format in *.
  assert (Hn : (if neg then fneg (double_of_uint x) else double_of_uint x) = signed neg (rne x 0)).
  { unfold double_of_uint, signed. destruct neg; [|done].
    pose proof (rne_range x 0 ltac:(lia)). pose proof INF_lt_SIGN. apply fneg_add. lia. }
  assert (Hi : (i64 x <? 0) = negb (x <? 2 ^ 63)).
  { destruct (Z.ltb_spec x (2 ^ 63)); [apply Z.ltb_ge|apply Z.ltb_lt]; width_lia. }
  destruct (Z.eqb_spec fmt STRSCAN_INT) as [->|Hni].
  - destruct (opt_has opt STRSCAN_OPT_TONUM), (opt_has opt STRSCAN_OPT_C); try done.
    injection Hf as <-. cbn [negb andb]. rewrite Hi, Hn. by destruct (x <? 2 ^ 63).
  - destruct ((fmt =? STRSCAN_NUM) || (fmt =? STRSCAN_IMAG)) eqn:E; [|done]. injection Hf as <-.
    replace (fmt =? STRSCAN_U32) with false by (symmetry; apply Z.eqb_neq; intros ->; done).
    replace ((fmt =? STRSCAN_I64) || (fmt =? STRSCAN_U64)) with false
      by (symmetry; apply orb_false_iff; split; apply Z.eqb_neq; intros ->; done).
    rewrite Hi, Hn. by destruct (x <? 2 ^ 63).
Qed.

Lemma num_format_slow fmt opt fmt' c lo ex10 neg :
  num_format fmt opt = Some fmt' ->
  (if fmt =? STRSCAN_INT then
     if opt_has opt STRSCAN_OPT_C then SErr else dec_slow c lo ex10 STRSCAN_NUM neg
   else if STRSCAN_INT <? fmt then SErr else dec_slow c lo ex10 fmt neg) = dec_slow c lo ex10 fmt' neg.
Proof.
  unfold num_format. intros H. destruct (Z.eqb_spec fmt STRSCAN_INT) as [->|Hn].
  - destruct (opt_has opt STRSCAN_OPT_TONUM), (opt_has opt STRSCAN_OPT_C); try done. by injection H as <-.
  - destruct (Z.eqb_spec fmt STRSCAN_NUM) as [->|]; [by injection H as <-|].
    destruct (Z.eqb_spec fmt STRSCAN_IMAG) as [->|]; [by injection H as <-|done].
Qed.

Lemma num_format_idem fmt opt fmt' : num_format fmt opt = Some fmt' -> num_format fmt' opt = Some fmt'.
Proof.
  unfold num_format. intros H. destruct (Z.eqb_spec fmt STRSCAN_INT) as [->|Hn].
  - destruct (_ && _); [|done]. by injection H as <-.
  - destruct (Z.eqb_spec fmt STRSCAN_NUM) as [->|]; [by injection H as <-|].
    destruct (Z.eqb_spec fmt STRSCAN_IMAG) as [->|]; [by injection H as <-|done].
Qed.

Lemma dec_ratio D j z ex10 b :
  0 <= j -> ex10 = 2 * z + j -> is_rn (D * 10 ^ j * pw 100 z) (pw 100 (- z)) b ->
  is_rn (D * pw 10 ex10) (pw 10 (- ex10)) b.
Proof.
  intros Hj He. apply is_rn_ratio; [by apply pw_pos..|].
  assert (H100 : forall y, pw 100 y = pw 10 (2 * y)).
  { intros y. unfold pw. change 100 with (10 ^ 2). rewrite <- Z.pow_mul_r by lia. f_equal. lia. }
  rewrite !H100. unfold pw. rewrite <- !Z.mul_assoc, <- !Z.pow_add_r by lia. do 2 f_equal. lia.
Qed.

(** The digits [l] with the exponent [ex10]: the double is the correct rounding
    of the decimal number. *)
Lemma scaled_bound D n j :
  1 <= n -> 0 <= j -> 10 ^ (n - 1) <= D < 10 ^ n -> 10 ^ (n + j - 1) <= D * 10 ^ j < 10 ^ (n + j).
Proof.
  intros Hn Hj HD. replace (n + j - 1) with (n - 1 + j) by lia. rewrite !Z.pow_add_r by lia.
  pose proof (pow10_pos j Hj). nia.
Qed.

Lemma strscan_dec_number l p q ex10 fmt opt neg fmt' :
  digs p l q -> Forall isdig l -> 49 <= hd 0 l -> 1 <= zlen l <= 300 ->
  dec_safe (dec l) (zlen l) ex10 -> num_format fmt opt = Some fmt' ->
  exists b, strscan_dec s p fmt opt ex10 neg (zlen l) = SOk (fmt', ONum (signed neg b)) /\
            is_rn (dec l * pw 10 ex10) (pw 10 (- ex10)) b.
Proof.
  intros Hdg Hd Hhd Hl Hsafe Hf. unfold strscan_dec.
  destruct (dec_fill_spec l p q ex10 Hdg Hd Hhd Hl) as
    (c & ds & z & dig' & j & -> & Hr & Hd99 & Hne & Hhd' & Hlds & Hj & He & Hval & Hlen & Hdig & _ & Hz).
  cbn [mbind sres_bind].
  pose proof (dec_lower l Hd Hhd ltac:(lia)) as HDl. pose proof (dec_bound l Hd) as HDb.
  assert (Hvb : 10 ^ (dig' - 1) <= val ds < 10 ^ dig').
  { rewrite Hval, Hdig. apply scaled_bound; lia. }
  rewrite dec_fast_spec by (done || lia).
  assert (Hslow : exists b, dec_slow c (zlen ds) (2 * z) fmt' neg = SOk (fmt', ONum (signed neg b)) /\
                            is_rn (dec l * pw 10 ex10) (pw 10 (- ex10)) b).
  { destruct (dec_slow_correct c ds z fmt' neg) as (b & E & Hrn); try done.
    - rewrite Hval. by apply (dec_safe_trap_free _ (zlen l) ex10 j z dig'); [lia..|done|lia|done|done|done].
    - exists b. split; [done|]. rewrite Hval in Hrn. by apply (dec_ratio _ j z). }
  destruct ((z =? 0) && (val ds <? 2 ^ 64)) eqn:Ec.
  - apply andb_true_iff in Ec as [Ez%Z.eqb_eq Ev%Z.ltb_lt].
    rewrite (dec_switch_num _ _ _ _ fmt') by (done || lia).
    destruct (Z.ltb_spec (val ds) (2 ^ 63)) as [H63|H63]; cbn [mbind sres_bind].
    + exists (rne (val ds) 0). split; [done|]. apply (dec_ratio _ j z); [done..|].
      rewrite <- Hval, Ez. change (pw 100 0) with 1. change (pw 100 (- 0)) with 1.
      pose proof (rne_rn (val ds) 0 ltac:(lia)) as Hrn. exact Hrn.
    + rewrite (num_format_slow fmt' opt fmt'); [done|by apply (num_format_idem fmt)].
  - cbn [mbind sres_bind]. by rewrite (num_format_slow fmt opt fmt').
Qed.

(** No digits but zeros. *)
Lemma dec_fill_empty p ex10 fmt opt neg :
  exists xi, dec_fill s p ex10 0 = SOk (xi, 0, 0, 0) /\ dec_fast xi 0 0 0 fmt opt neg = dec_switch 0 fmt opt neg.
Proof.
  change (dec_fill s p ex10 0) with (xi ← xset cells0 0 0; SOk (xi, 0, 0, 0)).
  destruct (rep_push_cell cells0 [] 0 rep_cells0) as (xi & E & Hr); [done|done|].
  change (zlen []) with 0 in E. rewrite E. cbn [mbind sres_bind]. exists xi. split; [done|]. unfold dec_fast.
  change ((0 <=? 20) && (0 =? 0)) with true. cbv iota.
  pose proof (rep_get xi 0 [] 0 [] Hr) as Hg. rewrite end_of_nil in Hg by lia. by rewrite Hg.
Qed.

Lemma strscan_dec_zero p fmt opt ex10 neg fmt' :
  num_format fmt opt = Some fmt' ->
  strscan_dec s p fmt opt ex10 neg 0 = SOk (fmt', ONum (signed neg 0)).
Proof.
  intros Hf. unfold strscan_dec. destruct (dec_fill_empty p ex10 fmt opt neg) as (xi & -> & E).
  cbn [mbind sres_bind]. rewrite E, (dec_switch_num 0 fmt opt neg fmt') by (done || lia). done.
Qed.
End text.
End StrscanDec.
