(* ===== verification/LjStrscanHex.v ===== *)
(** * LjStrscanHex

    Hexadecimal, binary and octal numbers of the number scanner: the range
    reduction and the bit that sums up excess digits do not disturb the
    rounding, the integer formats are exact. *)
From stdpp Require Import base tactics numbers list.
From Stdlib Require Import ZArith Lia.
From S2P Require Import Prelude LjFloat LjTab LjStrscan LjStrscanBuf LjStrscanDec.
Open Scope Z_scope.

Module StrscanHex.
Import Flt Strscan StrscanBuf StrscanDec.

(** ** Range reduction *)

Lemma top_bits x : 0 <= x < 2 ^ 64 -> (Z.land x 0xc000000000000000 =? 0) = (x <? 2 ^ 62).
Proof.
  intros Hx. change 0xc000000000000000 with (Z.shiftl 3 62).
  assert (E : Z.land x (Z.shiftl 3 62) = Z.shiftl (Z.land (Z.shiftr x 62) 3) 62).
  { apply Z.bits_inj'. intros i Hi. rewrite Z.land_spec. destruct (Z.lt_ge_cases i 62) as [Hlt|Hge].
    - rewrite !Z.shiftl_spec_low by lia. apply andb_false_r.
    - rewrite !Z.shiftl_spec, Z.land_spec, Z.shiftr_spec by lia. do 2 f_equal. lia. }
  rewrite E, Z.shiftr_div_pow2, Z.shiftl_mul_pow2 by lia.
  assert (Hq : 0 <= x / 2 ^ 62 < 4) by (split; [apply Z.div_pos|apply Z.div_lt_upper_bound]; lia).
  replace (Z.land (x / 2 ^ 62) 3) with (x / 2 ^ 62)
    by (change 3 with (2 ^ 2 - 1); rewrite land_pow2_mask by lia; symmetry; apply Z.mod_small; lia).
  destruct (Z.ltb_spec x (2 ^ 62)).
  - rewrite Z.div_small by lia. done.
  - apply Z.eqb_neq. assert (1 <= x / 2 ^ 62) by (apply Z.div_le_lower_bound; lia). lia.
Qed.

Lemma reduce_bits x : 0 <= x ->
  let y := Z.lor (Z.shiftr x 2) (Z.land x 3) in
  0 <= y /\ y / 4 = x / 16 /\ (y mod 4 = 0 <-> x mod 16 = 0).
Proof.
  intros Hx y. assert (Hy : 0 <= y) by (apply Z.lor_nonneg; split; [apply Z.shiftr_nonneg|apply Z.land_nonneg]; lia).
  assert (Hq : y / 4 = x / 16).
  { unfold y. change 4 with (2 ^ 2) at 1. rewrite <- Z.shiftr_div_pow2, Z.shiftr_lor by lia.
    rewrite Z.shiftr_shiftr, Z.shiftr_land by lia. change (Z.shiftr 3 2) with 0.
    rewrite Z.land_0_r, Z.lor_0_r. by rewrite Z.shiftr_div_pow2. }
  split_and!; [done|done|].
  assert (Hm : y mod 4 = Z.lor (x / 4 mod 4) (x mod 4)).
  { transitivity (Z.land y (2 ^ 2 - 1)); [by rewrite land_pow2_mask|]. unfold y. change (2 ^ 2 - 1) with 3.
    rewrite Z.land_lor_distr_l, <- Z.land_assoc. change (Z.land 3 3) with 3.
    rewrite Z.shiftr_div_pow2 by lia. change 3 with (2 ^ 2 - 1). rewrite !land_pow2_mask by lia. done. }
  rewrite Hm, Z.lor_eq_0_iff. zlia.
Qed.

(** The integer [x] stands for the number [N / D]: exactly, or with a sticky
    bit for what lies behind it. *)
Definition stands_for (x : Z) (sticky : bool) (e N D : Z) : Prop :=
  if sticky then x * pw 2 e * D < N * pw 2 (- e) < (x + 1) * pw 2 e * D
  else N * pw 2 (- e) = x * pw 2 e * D.

Lemma pw_up e k : 0 <= k -> pw 2 (e + k) * pw 2 (- e) = 2 ^ k * (pw 2 e * pw 2 (- (e + k))).
Proof. intros Hk. unfold pw. rewrite <- !Z.pow_add_r by lia. f_equal. lia. Qed.

(** The number lies strictly inside the block of [2^k] around [x]. *)
Lemma stands_for_cell x sticky e N D k :
  0 < D -> 0 <= k -> stands_for x sticky e N D -> sticky = true \/ x mod 2 ^ k <> 0 ->
  x / 2 ^ k * pw 2 (e + k) * D < N * pw 2 (- (e + k)) < (x / 2 ^ k + 1) * pw 2 (e + k) * D.
Proof.
  intros HD Hk Hst Hc. unfold stands_for in Hst. assert (H2 : 0 < 2 ^ k) by (by apply Z.pow_pos_nonneg).
  pose proof (Z.div_mod x (2 ^ k) ltac:(lia)) as Hdm. pose proof (Z.mod_pos_bound x (2 ^ k) H2) as Hm.
  pose proof (pw_up e k Hk) as Hup. pose proof (pw_pos 2 e ltac:(lia)) as HA. pose proof (pw_pos 2 (- e) ltac:(lia)) as HB.
  pose proof (pw_pos 2 (- (e + k)) ltac:(lia)) as HB'.
  set (q := x / 2 ^ k) in *. set (B' := pw 2 (- (e + k))) in *. set (A' := pw 2 (e + k)) in *.
  set (A := pw 2 e) in *. set (B := pw 2 (- e)) in *.
  assert (HAD : 0 < A * D) by nia.
  assert (Hlo : q * 2 ^ k * A * D < N * B).
  { replace (q * 2 ^ k * A * D) with (q * 2 ^ k * (A * D)) by lia.
    assert (Hle : q * 2 ^ k * (A * D) <= x * (A * D)) by (apply Z.mul_le_mono_nonneg_r; lia).
    destruct sticky; [lia|]. destruct Hc as [?|Hc]; [done|].
    assert (q * 2 ^ k * (A * D) < x * (A * D)) by (apply Z.mul_lt_mono_pos_r; lia). lia. }
  assert (Hhi : N * B < (q + 1) * 2 ^ k * A * D).
  { replace ((q + 1) * 2 ^ k * A * D) with ((q + 1) * 2 ^ k * (A * D)) by lia.
    assert (Hle : (x + 1) * (A * D) <= (q + 1) * 2 ^ k * (A * D)) by (apply Z.mul_le_mono_nonneg_r; lia).
    destruct sticky; lia. }
  split; apply (Z.mul_lt_mono_pos_r B); try done.
  - replace (q * A' * D * B) with (q * D * (A' * B)) by lia. rewrite Hup.
    replace (q * D * (2 ^ k * (A * B'))) with (q * 2 ^ k * A * D * B') by lia.
    replace (N * B' * B) with (N * B * B') by lia. by apply Z.mul_lt_mono_pos_r.
  - replace ((q + 1) * A' * D * B) with ((q + 1) * D * (A' * B)) by lia. rewrite Hup.
    replace ((q + 1) * D * (2 ^ k * (A * B'))) with ((q + 1) * 2 ^ k * A * D * B') by lia.
    replace (N * B' * B) with (N * B * B') by lia. by apply Z.mul_lt_mono_pos_r.
Qed.

Lemma lor_sticky x sticky : 0 <= x < 2 ^ 64 ->
  let x1 := Z.lor x (b2z sticky) in
  x1 / 2 = x / 2 /\ 0 <= x1 < 2 ^ 64 /\ (sticky = true -> x1 mod 2 = 1) /\ (sticky = false -> x1 = x).
Proof.
  intros Hx x1. destruct sticky; cbn [b2z] in *; [|unfold x1; rewrite Z.lor_0_r; split_and!; (done || lia)].
  assert (Hq : x1 / 2 = x / 2).
  { unfold x1. change 2 with (2 ^ 1). rewrite <- !Z.shiftr_div_pow2, Z.shiftr_lor by lia.
    change (Z.shiftr 1 1) with 0. by rewrite Z.lor_0_r. }
  assert (Hm : x1 mod 2 = 1).
  { rewrite <- Z.bit0_mod. unfold x1. rewrite Z.lor_spec. change (Z.testbit 1 0) with true. by rewrite orb_true_r. }
  split_and!; try done; zlia.
Qed.

(** The conversion rounds the number that [x] stands for. *)
Lemma reduce_double_rn fmt x sticky e neg N D :
  0 < D -> 0 <= x < 2 ^ 64 -> (sticky = true -> 2 ^ 60 <= x) -> -1073741824 <= e < 1073741824 ->
  stands_for x sticky e N D ->
  exists b, reduce_double fmt (Z.lor x (b2z sticky)) e neg = SOk (fmt, ONum (signed neg b)) /\ is_rn N D b.
Proof.
  intros HD Hx Hbig He Hst. unfold reduce_double.
  destruct (lor_sticky x sticky ltac:(lia)) as (H1 & H1r & Hodd & Heq).
  set (x1 := Z.lor x (b2z sticky)) in *. rewrite top_bits by lia.
  assert (Hself : forall y f, stands_for y false f (y * pw 2 f) (pw 2 (- f))) by (intros y f; done).
  destruct (Z.ltb_spec x1 (2 ^ 62)) as [Hlt|Hge]; cbn [negb].
  - rewrite strscan_double_correct by lia. cbn [mbind sres_bind]. exists (rne x1 e). split; [done|].
    destruct sticky.
    + specialize (Hbig eq_refl). specialize (Hodd eq_refl).
      eapply (is_rn_cell (x / 2 ^ 1) (e + 1) (x1 * pw 2 e) (pw 2 (- e))); [|by apply pw_pos|done| | |apply rne_rn; lia].
      * apply Z.div_le_lower_bound; lia.
      * change (2 ^ 1) with 2. rewrite <- H1.
        apply (stands_for_cell x1 false e _ _ 1); [by apply pw_pos|lia|done|right; change (2 ^ 1) with 2; lia].
      * apply (stands_for_cell x true e _ _ 1); [done|lia|done|by left].
    + specialize (Heq eq_refl). rewrite Heq in *. unfold stands_for in Hst.
      eapply is_rn_ratio, rne_rn; [by apply pw_pos|done|lia|lia].
  - destruct (reduce_bits x1 ltac:(lia)) as (Hy & Hyq & Hym).
    set (y := Z.lor (Z.shiftr x1 2) (Z.land x1 3)) in *.
    assert (Hy62 : y < 2 ^ 62) by zlia. rewrite i32_small by (unfold in_i32; lia).
    rewrite strscan_double_correct by lia. cbn [mbind sres_bind]. exists (rne y (e + 2)). split; [done|].
    assert (H16 : x1 / 16 = x / 16) by zlia.
    destruct (decide (x1 mod 16 = 0)) as [Hz|Hnz].
    + destruct sticky; [specialize (Hodd eq_refl); exfalso; zlia|]. specialize (Heq eq_refl).
      assert (Hxy : x = y * 2 ^ 2) by (apply Hym in Hz as Hz4; rewrite <- Heq; zlia).
      replace (rne y (e + 2)) with (rne x e) by (rewrite Hxy, rne_scale by lia; f_equal; lia).
      unfold stands_for in Hst. eapply is_rn_ratio, rne_rn; [by apply pw_pos|done|lia|lia].
    + eapply (is_rn_cell (x / 2 ^ 4) (e + 4) (y * pw 2 (e + 2)) (pw 2 (- (e + 2)))); [|by apply pw_pos|done| | |apply rne_rn; lia].
      * change (2 ^ 4) with 16. zlia.
      * change (2 ^ 4) with 16. rewrite <- H16, <- Hyq. replace (e + 4) with (e + 2 + 2) by lia. change 4 with (2 ^ 2).
        apply (stands_for_cell y false (e + 2) _ _ 2); [by apply pw_pos|lia|done|right].
        change (2 ^ 2) with 4. intros Hy0. by apply Hnz, Hym.
      * apply (stands_for_cell x sticky e _ _ 4); [done|lia|done|]. change (2 ^ 4) with 16.
        destruct sticky; [by left|right]. specialize (Heq eq_refl). by rewrite <- Heq.
Qed.

(** ** Hexadecimal digits *)

Definition isx (c : Z) : Prop := 48 <= c < 58 \/ 65 <= c < 71 \/ 97 <= c < 103.
Definition hexd (c : Z) : Z := if c <? 58 then c - 48 else if c <? 71 then c - 55 else c - 87.
Definition hexval (l : list Z) : Z := fold_left (fun x c => x * 16 + hexd c) l 0.

Lemma hexval_acc l x : fold_left (fun x c => x * 16 + hexd c) l x = x * 16 ^ zlen l + hexval l.
Proof.
  unfold hexval. revert x. induction l as [|d l IH]; intros x.
  { cbn [fold_left]. change (16 ^ zlen []) with 1. lia. }
  cbn [fold_left]. rewrite IH, (IH (0 * 16 + hexd d)). rewrite zlen_cons.
  pose proof (zlen_nonneg l). rewrite Z.pow_add_r by lia. lia.
Qed.
Lemma hexval_app a b : hexval (a ++ b) = hexval a * 16 ^ zlen b + hexval b.
Proof. unfold hexval at 1. rewrite fold_left_app, hexval_acc. done. Qed.
Lemma hexval_cons c l : hexval (c :: l) = hexd c * 16 ^ zlen l + hexval l.
Proof. change (c :: l) with ([c] ++ l). rewrite hexval_app. f_equal. Qed.

Lemma hexd_spec c : isx c -> 0 <= hexd c < 16 /\ Z.land (if 57 <? c then c + 9 else c) 15 = hexd c /\
  (hexd c = 0 <-> c = 48).
Proof.
  intros Hc. assert (Hb : in_u8 c) by (unfold isx, in_u8 in *; lia).
  set (ok c := negb (((48 <=? c) && (c <? 58)) || ((65 <=? c) && (c <? 71)) || ((97 <=? c) && (c <? 103))) ||
    ((0 <=? hexd c) && (hexd c <? 16) && (Z.land (if 57 <? c then c + 9 else c) 15 =? hexd c) &&
     Bool.eqb (hexd c =? 0) (c =? 48))).
  assert (H : ok c = true) by (apply (u8_exhaustive ok); [vm_compute; reflexivity|done]).
  unfold ok in H. rewrite orb_true_iff, negb_true_iff, !andb_true_iff in H. destruct H as [H|[[[H1 H2] H3] H4]].
  - exfalso. rewrite !orb_false_iff, !andb_false_iff, !Z.leb_gt, !Z.ltb_ge in H. unfold isx in Hc. lia.
  - apply Z.leb_le in H1. apply Z.ltb_lt in H2. apply Z.eqb_eq in H3. apply Bool.eqb_prop in H4.
    split_and!; try done. rewrite <- !Z.eqb_eq. by rewrite H4.
Qed.

Lemma hexval_bound l : Forall isx l -> 0 <= hexval l < 16 ^ zlen l.
Proof.
  induction 1 as [|c l Hc _ IH]; [by split|]. rewrite hexval_cons, zlen_cons.
  pose proof (zlen_nonneg l). rewrite Z.pow_add_r by lia. destruct (hexd_spec c Hc) as [Hd _]. nia.
Qed.

Section text.
Variable s : list Z.

Lemma hex_digits_spec l : forall p q x,
  digs s p l q -> Forall isx l -> 0 <= x -> x * 16 ^ zlen l + hexval l < 2 ^ 64 ->
  hex_digits s (length l) p x = SOk (q, x * 16 ^ zlen l + hexval l).
Proof.
  induction l as [|c l IH]; intros p q x Hdg Hd Hx Hb; cbn [hex_digits length].
  - cbn [digs] in Hdg. subst q. change (16 ^ zlen []) with 1. change (hexval []) with 0.
    by rewrite Z.mul_1_r, Z.add_0_r.
  - cbn [digs] in Hdg. destruct Hdg as (p' & -> & Hdg). cbn [mbind sres_bind].
    apply Forall_cons in Hd as [Hc Hd]. destruct (hexd_spec c Hc) as (Hr & -> & _).
    rewrite hexval_cons, zlen_cons, Z.pow_add_r in * by (pose proof (zlen_nonneg l); lia).
    change (16 ^ 1) with 16 in *. pose proof (hexval_bound l Hd).
    assert (1 <= 16 ^ zlen l) by (pose proof (Z.pow_pos_nonneg 16 (zlen l)); pose proof (zlen_nonneg l); lia).
    assert (Hxb : x * 16 + hexd c < 2 ^ 64) by nia.
    rewrite Z.shiftl_mul_pow2 by lia. change (2 ^ 4) with 16.
    rewrite (u64_small (x * 16)) by (unfold in_u64; lia). rewrite u64_small by (unfold in_u64; lia).
    rewrite (IH (p' + 1) q) by (done || lia). do 2 f_equal. lia.
Qed.

Lemma hex_excess_spec l : forall p q x ex2,
  digs s p l q -> Forall isx l -> -2147483648 <= ex2 -> ex2 + 4 * zlen l < 2147483648 ->
  hex_excess s (length l) p x ex2 =
    SOk (Z.lor x (b2z (negb (hexval l =? 0))), ex2 + 4 * zlen l).
Proof.
  induction l as [|c l IH]; intros p q x ex2 Hdg Hd Hlo Hhi; cbn [hex_excess length].
  - change (hexval [] =? 0) with true. cbn [negb b2z]. rewrite Z.lor_0_r. change (zlen []) with 0.
    by rewrite Z.mul_0_r, Z.add_0_r.
  - cbn [digs] in Hdg. destruct Hdg as (p' & -> & Hdg). cbn [mbind sres_bind].
    apply Forall_cons in Hd as [Hc Hd]. destruct (hexd_spec c Hc) as (Hr & _ & H0).
    rewrite zlen_cons in *. pose proof (zlen_nonneg l). rewrite i32_small by (unfold in_i32; lia).
    rewrite (IH (p' + 1) q) by (done || lia). pose proof (hexval_bound l Hd).
    assert (0 < 16 ^ zlen l) by (by apply Z.pow_pos_nonneg).
    assert (Hb : Z.lor (b2z (negb (c =? 48))) (b2z (negb (hexval l =? 0))) = b2z (negb (hexval (c :: l) =? 0))).
    { rewrite hexval_cons. destruct (Z.eqb_spec c 48) as [E|E].
      - apply H0 in E. rewrite E, Z.mul_0_l, Z.add_0_l. by destruct (hexval l =? 0).
      - assert (hexd c <> 0) by (by rewrite H0).
        destruct (Z.eqb_spec (hexd c * 16 ^ zlen l + hexval l) 0); [nia|]. by destruct (hexval l =? 0). }
    rewrite <- Z.lor_assoc, Hb. do 2 f_equal. lia.
Qed.

(** The first sixteen digits and the rest. *)
Lemma hex_split l p q : digs s p l q ->
  exists a b r, l = a ++ b /\ digs s p a r /\ digs s r b q /\
    length a = Z.to_nat (if 16 <? zlen l then 16 else zlen l) /\ length b = Z.to_nat (zlen l - 16).
Proof.
  intros Hdg. exists (take 16 l), (drop 16 l). rewrite <- (take_drop 16 l) in Hdg.
  apply digs_app in Hdg as (r & Ha & Hb). exists r. rewrite take_drop. split_and!; try done.
  - rewrite length_take. unfold zlen. destruct (Z.ltb_spec 16 (Z.of_nat (length l))); lia.
  - rewrite length_drop. unfold zlen. lia.
Qed.

Lemma hex_stands_for a b ex2 :
  Forall isx a -> Forall isx b ->
  stands_for (hexval a) (negb (hexval b =? 0)) (ex2 + 4 * zlen b) (hexval (a ++ b) * pw 2 ex2) (pw 2 (- ex2)).
Proof.
  intros Ha Hb. pose proof (zlen_nonneg b) as Hn. pose proof (hexval_bound b Hb) as Hvb.
  pose proof (pw_up ex2 (4 * zlen b) ltac:(lia)) as Hup. rewrite hexval_app.
  assert (H16 : 16 ^ zlen b = 2 ^ (4 * zlen b)) by (by rewrite Z.pow_mul_r by lia).
  rewrite H16 in *. set (e := ex2 + 4 * zlen b) in *.
  pose proof (pw_pos 2 ex2 ltac:(lia)). pose proof (pw_pos 2 (- e) ltac:(lia)).
  set (K := pw 2 ex2 * pw 2 (- e)) in *. assert (HK : 0 < K) by (unfold K; nia).
  assert (EN : forall v, v * pw 2 ex2 * pw 2 (- e) = v * K) by (intros v; unfold K; lia).
  assert (EX : forall v, v * pw 2 e * pw 2 (- ex2) = v * 2 ^ (4 * zlen b) * K)
    by (intros v; rewrite <- Z.mul_assoc, Hup; lia).
  unfold stands_for. destruct (Z.eqb_spec (hexval b) 0) as [E0|N0]; cbn [negb]; rewrite EN, !EX.
  - rewrite E0, Z.add_0_r. done.
  - split; apply Z.mul_lt_mono_pos_r; lia.
Qed.

(** C21: A hexadecimal number with the digits [l], wherever its point lies, and
    the binary exponent [ex2] is converted to the nearest double (the even one
    of two), however many digits there are: the sixteen that fit 64 bits, the
    sticky bit for the rest and the two bits that are shifted out lose nothing
    that rounding needs. *)
Theorem strscan_hex_number l p q ex2 fmt opt neg fmt' :
  digs s p l q -> Forall isx l -> hd 0 l <> 48 -> zlen l < 2 ^ 26 -> -2 ^ 28 <= ex2 < 2 ^ 28 ->
  num_format fmt opt = Some fmt' ->
  exists b, strscan_hex s p fmt opt ex2 neg (zlen l) = SOk (fmt', ONum (signed neg b)) /\
            is_rn (hexval l * pw 2 ex2) (pw 2 (- ex2)) b.
Proof.
  intros Hdg Hd Hhd Hlen He Hf. unfold strscan_hex.
  destruct (hex_split l p q Hdg) as (a & b & r & -> & Ha & Hb & Ela & Elb).
  rewrite <- Ela, <- Elb. apply Forall_app in Hd as [Hda Hdb]. pose proof (hexval_bound a Hda) as Hva.
  rewrite zlen_app in *. pose proof (zlen_nonneg a) as Hna. pose proof (zlen_nonneg b) as Hnb.
  assert (Hla : zlen a <= 16 /\ (0 < zlen b -> zlen a = 16)).
  { unfold zlen in *. destruct (Z.ltb_spec 16 (Z.of_nat (length a) + Z.of_nat (length b))); lia. }
  assert (H64 : hexval a < 2 ^ 64).
  { assert (16 ^ zlen a <= 16 ^ 16) by (apply Z.pow_le_mono_r; lia). change (16 ^ 16) with (2 ^ 64) in *. lia. }
  rewrite (hex_digits_spec a p r 0) by (done || lia). rewrite Z.mul_0_l, Z.add_0_l. cbn [mbind sres_bind].
  rewrite (hex_excess_spec b r q) by (done || lia). cbn [mbind sres_bind].
  set (sticky := negb (hexval b =? 0)).
  assert (Hst : sticky = true -> 2 ^ 60 <= hexval a).
  { unfold sticky. intros Hs. apply negb_true_iff, Z.eqb_neq in Hs.
    destruct b as [|cb b]; [done|]. rewrite zlen_cons in Hla. pose proof (zlen_nonneg b).
    destruct a as [|c a]; [change (zlen []) with 0 in Hla; lia|]. rewrite zlen_cons in Hla. cbn [app hd] in Hhd.
    apply Forall_cons in Hda as [Hc Hda]. rewrite hexval_cons. pose proof (hexval_bound a Hda).
    destruct (hexd_spec c Hc) as (Hrc & _ & Hz). assert (hexd c <> 0) by (by rewrite Hz).
    replace (zlen a) with 15 in * by lia. change (16 ^ 15) with (2 ^ 60) in *. nia. }
  assert (Hred : forall f, exists v, reduce_double f (Z.lor (hexval a) (b2z sticky)) (ex2 + 4 * zlen b) neg =
                                       SOk (f, ONum (signed neg v)) /\
                           is_rn (hexval (a ++ b) * pw 2 ex2) (pw 2 (- ex2)) v).
  { intros f. apply reduce_double_rn; [by apply pw_pos|lia|done|lia|by apply hex_stands_for]. }
  unfold num_format in Hf. destruct (Z.eqb_spec fmt STRSCAN_INT) as [->|Hni].
  - destruct (opt_has opt STRSCAN_OPT_TONUM), (opt_has opt STRSCAN_OPT_C); try done. injection Hf as <-. apply Hred.
  - destruct (Z.eqb_spec fmt STRSCAN_NUM) as [->|]; [injection Hf as <-; apply Hred|].
    destruct (Z.eqb_spec fmt STRSCAN_IMAG) as [->|]; [injection Hf as <-; apply Hred|done].
Qed.
End text.

(** "1.8", with the exponent -4 of its last digit, is 1.5. *)
Lemma strscan_hex_number_witness :
  exists b, strscan_hex [49; 46; 56; 0] 0 STRSCAN_NUM STRSCAN_OPT_TONUM (-4) true 2 =
              SOk (STRSCAN_NUM, ONum (signed true b)) /\
            is_rn 24 16 b.
Proof.
  apply (strscan_hex_number [49; 46; 56; 0] [49; 56] 0 3 (-4) STRSCAN_NUM STRSCAN_OPT_TONUM true STRSCAN_NUM).
  - exists 0. split; [done|]. exists 2. by split.
  - by repeat constructor.
  - done.
  - done.
  - by split.
  - done.
Defined.
End StrscanHex.
