(* ===== verification/LjStrscanText.v ===== *)
(** * LjStrscanText

    How the number scanner walks through its text: each loop consumes the
    longest run of characters of its kind, whatever the text, and every byte
    that it reads lies in the text with its final NUL. *)
From stdpp Require Import base tactics numbers list.
From Stdlib Require Import ZArith Lia.
From S2P Require Import Prelude LjStr LjFloat LjTab LjStrscan LjStrscanBuf LjStrscanDec.
Open Scope Z_scope.

Module StrscanText.
Import Strscan StrscanDec.

(** ** Characters *)

Definition digit (c : Z) : bool := (48 <=? c) && (c <=? 57).
Definition space (c : Z) : bool := (c =? 32) || ((9 <=? c) && (c <=? 13)).
Definition xdigit (c : Z) : bool :=
  digit c || ((65 <=? c) && (c <=? 70)) || ((97 <=? c) && (c <=? 102)).

Definition class_of (t : Z) (c : Z) : bool :=
  if t =? Char.LJ_CHAR_DIGIT then digit c
  else if t =? Char.LJ_CHAR_SPACE then space c else xdigit c.

Definition known_class (t : Z) : Prop :=
  t = Char.LJ_CHAR_DIGIT \/ t = Char.LJ_CHAR_SPACE \/ t = Char.LJ_CHAR_XDIGIT.

Lemma isa_known t c : known_class t -> in_u8 c -> isa c t = SOk (class_of t c).
Proof.
  intros Ht Hc.
  assert (H : forall t', (t' = Char.LJ_CHAR_DIGIT \/ t' = Char.LJ_CHAR_SPACE \/ t' = Char.LJ_CHAR_XDIGIT) ->
    forallb (fun c => match isa c t' with SOk b => Bool.eqb b (class_of t' c) | _ => false end)
      (seqZ 0 256) = true) by (intros t' [->|[->| ->]]; vm_compute; reflexivity).
  pose proof (u8_exhaustive _ (H t Ht) c Hc) as E. cbv beta in E.
  destruct (isa c t) as [b| | | |]; try done. f_equal. by apply Bool.eqb_prop.
Qed.

Lemma digit_isdig c : digit c = true <-> isdig c.
Proof. unfold digit, isdig. rewrite andb_true_iff, !Z.leb_le. lia. Qed.

(** ** Positions *)

Section text.
Variable s : list Z.
Hypothesis bytes : Forall in_u8 s.

(** [p] is the place of [w] in the text. *)
Definition at_ (p : Z) (w : list Z) : Prop := exists a, s = a ++ w /\ p = zlen a.

Lemma at_app p u w : at_ p (u ++ w) -> at_ (p + zlen u) w.
Proof using. intros (a & E & ->). exists (a ++ u). by rewrite <- app_assoc, zlen_app. Qed.
Lemma at_cons p c w : at_ p (c :: w) -> at_ (p + 1) w.
Proof using. intros H. by apply (at_app p [c]). Qed.
Lemma rd_at p c w : at_ p (c :: w) -> rd s p = SOk c.
Proof. intros (a & E & ->). unfold rd. by rewrite E, zget_middle. Qed.
Lemma at_byte p c w : at_ p (c :: w) -> in_u8 c.
Proof using bytes.
  intros (a & E & _). rewrite E in bytes. apply Forall_app in bytes as [_ H]. by apply Forall_inv in H.
Qed.
Lemma at_len p w : at_ p w -> zlen w <= zlen s.
Proof using. intros (a & E & _). rewrite E, zlen_app. pose proof (zlen_nonneg a). lia. Qed.
Lemma at_len_nat p w : at_ p w -> (length w <= length s)%nat.
Proof. intros H%at_len. unfold zlen in H. lia. Qed.
Lemma at_end p w : at_ p w -> p + zlen w = zlen s.
Proof using. intros (a & E & ->). by rewrite E, zlen_app. Qed.

(** The longest run of a kind of characters.  A text that ends in NUL has a
    character behind the run. *)
Lemma munch (f : Z -> bool) w :
  f 0 = false -> (exists w', w = w' ++ [0]) ->
  exists r t w', w = r ++ t :: w' /\ Forall (fun c => f c = true) r /\ f t = false.
Proof.
  intros H0 (w' & ->). induction w' as [|c w' IH].
  - by exists [], 0, [].
  - destruct (f c) eqn:Ec.
    + destruct IH as (r & t & w2 & E & Hr & Ht). exists (c :: r), t, w2. cbn [app]. rewrite E.
      split_and!; [done|by constructor|done].
    + exists [], c, (w' ++ [0]). done.
Qed.

(** *** Space *)

Lemma skip_space_spec r : forall fuel p t w,
  at_ p (r ++ t :: w) -> Forall (fun c => space c = true) r -> space t = false -> (length r < fuel)%nat ->
  skip_space s fuel p = SOk (p + zlen r).
Proof using bytes.
  induction r as [|c r IH]; intros fuel p t w Hat Hr Ht Hf;
    (destruct fuel as [|fuel]; [cbn in Hf; lia|]); cbn [skip_space app] in *.
  - rewrite (rd_at _ _ _ Hat). cbn [mbind sres_bind].
    rewrite isa_known; [|by right; left|by eapply at_byte]. cbn [mbind sres_bind].
    change (class_of Char.LJ_CHAR_SPACE t) with (space t). rewrite Ht. by rewrite Z.add_0_r.
  - apply Forall_cons in Hr as [Hc Hr].
    rewrite (rd_at _ _ _ Hat). cbn [mbind sres_bind].
    rewrite isa_known; [|by right; left|by eapply at_byte]. cbn [mbind sres_bind].
    change (class_of Char.LJ_CHAR_SPACE c) with (space c). rewrite Hc.
    rewrite (IH fuel (p + 1) t w); [|by apply at_cons in Hat|done|done|cbn in Hf; lia].
    f_equal. rewrite zlen_cons. lia.
Qed.

(** *** Digits and the point *)

Definition point (c : Z) : bool := c =? 46.
Definition nodot (l : list Z) : list Z := filter (fun c => c <> 46) l.
Fixpoint find_dot (p : Z) (l : list Z) : option Z :=
  match l with [] => None | c :: l' => if c =? 46 then Some p else find_dot (p + 1) l' end.
Definition dots (l : list Z) : Z := zlen (filter (fun c => c = 46) l).
Definition seen (dp : option Z) : Z := match dp with Some _ => 1 | None => 0 end.
Definition or_else (a b : option Z) : option Z := match a with Some x => Some x | None => b end.

Lemma dots_cons c l : dots (c :: l) = (if c =? 46 then 1 else 0) + dots l.
Proof.
  unfold dots. rewrite filter_cons. destruct (Z.eqb_spec c 46); [rewrite decide_True by done|by rewrite decide_False].
  by rewrite zlen_cons.
Qed.
Lemma dots_nonneg l : 0 <= dots l.
Proof. apply zlen_nonneg. Qed.

Lemma nodot_cons c l : nodot (c :: l) = if c =? 46 then nodot l else c :: nodot l.
Proof.
  unfold nodot. rewrite filter_cons. destruct (Z.eqb_spec c 46); [by rewrite decide_False by naive_solver|by rewrite decide_True].
Qed.

Lemma scan_zeros_spec r : forall fuel p h dp t w,
  at_ p (r ++ t :: w) -> Forall (fun c => (c =? 48) || point c = true) r -> (t =? 48) || point t = false ->
  (length r < fuel)%nat ->
  scan_zeros s fuel p h dp =
    if 1 <? seen dp + dots r then SErr
    else SOk (p + zlen r, h || negb (forallb point r), or_else dp (find_dot p r)).
Proof.
  induction r as [|c r IH]; intros fuel p h dp t w Hat Hr Ht Hf;
    (destruct fuel as [|fuel]; [cbn in Hf; lia|]); cbn [scan_zeros app] in *.
  - rewrite (rd_at _ _ _ Hat). cbn [mbind sres_bind]. apply orb_false_iff in Ht as [-> Ht].
    unfold point in Ht. rewrite Ht. cbn [forallb find_dot negb]. rewrite orb_false_r.
    replace (1 <? seen dp + dots []) with false by (by destruct dp).
    replace (or_else dp None) with dp by (by destruct dp). by rewrite Z.add_0_r.
  - apply Forall_cons in Hr as [Hc Hr]. rewrite (rd_at _ _ _ Hat). cbn [mbind sres_bind].
    rewrite dots_cons, zlen_cons. cbn [forallb find_dot]. unfold point at 1. unfold point in Hc.
    destruct (Z.eqb_spec c 48) as [->|H48].
    + change (48 =? 46) with false. cbv iota. cbn [andb negb orb].
      rewrite (IH fuel (p + 1) true dp t w); [|by apply at_cons in Hat|done|done|cbn in Hf; lia].
      rewrite orb_true_r. cbn [orb]. rewrite Z.add_0_l. by replace (p + 1 + zlen r) with (p + (1 + zlen r)) by lia.
    + cbn [orb] in Hc. rewrite Hc. cbn [andb]. pose proof (dots_nonneg r). destruct dp as [d|].
      * destruct (Z.ltb_spec 1 (seen (Some d) + (1 + dots r))) as [|Hle]; [done|cbn in Hle; lia].
      * rewrite (IH fuel (p + 1) h (Some p) t w); [|by apply at_cons in Hat|done|done|cbn in Hf; lia].
        cbn [seen or_else]. rewrite Z.add_0_l. by replace (p + 1 + zlen r) with (p + (1 + zlen r)) by lia.
Qed.

(** The digits' value modulo [2^32], as the scan accumulates it. *)
Definition prescan (x : Z) (l : list Z) : Z := fold_left (fun x c => u32 (x * 10 + Z.land c 15)) l x.

Lemma scan_digits_spec cm r : forall fuel p x dig dp t w,
  cm = Char.LJ_CHAR_DIGIT \/ cm = Char.LJ_CHAR_XDIGIT ->
  at_ p (r ++ t :: w) -> Forall (fun c => class_of cm c || point c = true) r -> class_of cm t || point t = false ->
  (length r < fuel)%nat ->
  scan_digits s fuel cm p x dig dp =
    if 1 <? seen dp + dots r then SErr
    else SOk (p + zlen r, prescan x (nodot r), dig + zlen (nodot r), or_else dp (find_dot p r)).
Proof using bytes.
  intros fuel p x dig dp t w Hcm. revert fuel p x dig dp.
  assert (Hk : known_class cm) by (destruct Hcm as [->| ->]; [by left|by right; right]).
  assert (H46 : class_of cm 46 = false) by (by destruct Hcm as [->| ->]).
  induction r as [|c r IH]; intros fuel p x dig dp Hat Hr Ht Hf;
    (destruct fuel as [|fuel]; [cbn in Hf; lia|]); cbn [scan_digits app] in *.
  - rewrite (rd_at _ _ _ Hat). cbn [mbind sres_bind].
    rewrite isa_known by (done || by eapply at_byte). cbn [mbind sres_bind].
    apply orb_false_iff in Ht as [-> Ht]. unfold point in Ht. rewrite Ht. cbn [find_dot].
    replace (1 <? seen dp + dots []) with false by (by destruct dp).
    replace (or_else dp None) with dp by (by destruct dp). change (zlen (nodot [])) with 0.
    change (zlen []) with 0. by rewrite !Z.add_0_r.
  - apply Forall_cons in Hr as [Hc Hr]. rewrite (rd_at _ _ _ Hat). cbn [mbind sres_bind].
    rewrite isa_known by (done || by eapply at_byte). cbn [mbind sres_bind].
    rewrite dots_cons, nodot_cons, zlen_cons. cbn [find_dot]. unfold point in Hc.
    assert (Hat' : at_ (p + 1) (r ++ t :: w)) by (by apply at_cons in Hat).
    assert (Hf' : (length r < fuel)%nat) by (cbn in Hf; lia).
    replace (p + (1 + zlen r)) with (p + 1 + zlen r) by lia.
    destruct (class_of cm c) eqn:Ec.
    + destruct (Z.eqb_spec c 46) as [->|_]; [congruence|].
      rewrite (IH fuel (p + 1) (u32 (x * 10 + Z.land c 15)) (dig + 1) dp Hat' Hr Ht Hf').
      rewrite Z.add_0_l, zlen_cons. by replace (dig + (1 + zlen (nodot r))) with (dig + 1 + zlen (nodot r)) by lia.
    + cbn [orb] in Hc. rewrite Hc. pose proof (dots_nonneg r). destruct dp as [d|].
      * destruct (Z.ltb_spec 1 (seen (Some d) + (1 + dots r))) as [|Hle]; [done|cbn in Hle; lia].
      * rewrite (IH fuel (p + 1) x dig (Some p) Hat' Hr Ht Hf'). by cbn [seen or_else].
Qed.

(** The accumulated value of up to nine digits, or of ten that fit. *)
Lemma prescan_dec l x : Forall isdig l -> prescan (u32 x) l = u32 (x * 10 ^ zlen l + dec l).
Proof.
  unfold prescan. revert x. induction l as [|c l IH]; intros x Hd; cbn [fold_left].
  - change (zlen []) with 0. change (dec []) with 0. f_equal. lia.
  - apply Forall_cons in Hd as [Hc Hd]. rewrite land_15 by done.
    replace (u32 (u32 x * 10 + (c - 48))) with (u32 (x * 10 + (c - 48))) by width_lia.
    rewrite IH by done. f_equal. rewrite dec_cons, zlen_cons. pose proof (zlen_nonneg l).
    rewrite Z.pow_add_r by lia. lia.
Qed.

(** *** The exponent *)

Lemma exp_digits_spec r : forall fuel p xx t w,
  at_ p (r ++ t :: w) -> Forall (fun c => digit c = true) r -> digit t = false -> (length r < fuel)%nat ->
  0 <= xx < STRSCAN_MAXEXP ->
  exp_digits s fuel p xx =
    if xx * 10 ^ zlen r + dec r <? STRSCAN_MAXEXP then SOk (p + zlen r, xx * 10 ^ zlen r + dec r) else SErr.
Proof using bytes.
  induction r as [|c r IH]; intros fuel p xx t w Hat Hr Ht Hf Hx;
    (destruct fuel as [|fuel]; [cbn in Hf; lia|]); cbn [exp_digits app] in *.
  - rewrite (rd_at _ _ _ Hat). cbn [mbind sres_bind].
    rewrite isa_known; [|by left|by eapply at_byte]. cbn [mbind sres_bind].
    change (class_of Char.LJ_CHAR_DIGIT t) with (digit t). rewrite Ht.
    change (zlen []) with 0. change (dec []) with 0. rewrite Z.pow_0_r, Z.mul_1_r, !Z.add_0_r.
    destruct (Z.ltb_spec xx STRSCAN_MAXEXP); [done|lia].
  - apply Forall_cons in Hr as [Hc Hr]. rewrite (rd_at _ _ _ Hat). cbn [mbind sres_bind].
    rewrite isa_known; [|by left|by eapply at_byte]. cbn [mbind sres_bind].
    change (class_of Char.LJ_CHAR_DIGIT c) with (digit c). rewrite Hc.
    apply digit_isdig in Hc. rewrite land_15 by done. unfold isdig in Hc.
    change STRSCAN_MAXEXP with 1048576 in *. rewrite u32_small by (unfold in_u32; lia).
    rewrite dec_cons, zlen_cons. pose proof (zlen_nonneg r). rewrite Z.pow_add_r by lia. change (10 ^ 1) with 10.
    assert (Hd : Forall isdig r) by (eapply Forall_impl; [done|]; intros; by apply digit_isdig).
    pose proof (dec_bound r Hd). pose proof (pow10_pos (zlen r) ltac:(lia)).
    replace (xx * (10 * 10 ^ zlen r) + ((c - 48) * 10 ^ zlen r + dec r))
      with ((xx * 10 + (c - 48)) * 10 ^ zlen r + dec r) by lia.
    destruct (Z.leb_spec 1048576 (xx * 10 + (c - 48))) as [Hbig|Hsm].
    + destruct (Z.ltb_spec ((xx * 10 + (c - 48)) * 10 ^ zlen r + dec r) 1048576); [nia|done].
    + rewrite (IH fuel (p + 1) _ t w); [|by apply at_cons in Hat|done|done|cbn in Hf; lia|lia].
      by replace (p + 1 + zlen r) with (p + (1 + zlen r)) by lia.
Qed.

(** *** Trailing zeros of the fraction *)

Lemma trail_zeros_spec k : forall fuel p f ex dig,
  (exists w, at_ p (f ++ replicate k 48 ++ w)) ->
  (k < fuel)%nat -> ex <= - Z.of_nat k ->
  (ex = - Z.of_nat k \/ exists f' c, f = f' ++ [c] /\ c <> 48) ->
  trail_zeros s fuel (p + zlen f + Z.of_nat k - 1) ex dig = SOk (ex + Z.of_nat k, dig - Z.of_nat k).
Proof.
  induction k as [|k IH]; intros fuel p f ex dig (w & Hat) Hf Hex Hc;
    (destruct fuel as [|fuel]; [lia|]); cbn [trail_zeros].
  - destruct (Z.ltb_spec ex 0) as [Hlt|Hge].
    + destruct Hc as [Hc|(f' & c & -> & Hc)]; [cbn in Hc; lia|]. cbn [replicate app] in Hat.
      rewrite <- app_assoc in Hat. apply at_app in Hat. rewrite zlen_app. change (zlen [c]) with 1.
      replace (p + (zlen f' + 1) + Z.of_nat 0 - 1) with (p + zlen f') by lia.
      rewrite (rd_at _ _ _ Hat). cbn [mbind sres_bind]. destruct (Z.eqb_spec c 48); [done|].
      do 2 f_equal; lia.
    + do 2 f_equal; lia.
  - destruct (Z.ltb_spec ex 0) as [Hlt|Hge]; [|lia].
    assert (Hat2 : at_ p ((f ++ replicate k 48) ++ 48 :: w)).
    { replace (S k) with (k + 1)%nat in Hat by lia. rewrite replicate_add in Hat. cbn [replicate] in Hat.
      by rewrite <- !app_assoc in *. }
    apply at_app in Hat2 as Hat3. rewrite zlen_app, zlen_replicate in Hat3.
    replace (p + zlen f + Z.of_nat (S k) - 1) with (p + (zlen f + Z.of_nat k)) by lia.
    rewrite (rd_at _ _ _ Hat3). cbn [mbind sres_bind]. change (48 =? 48) with true. cbv iota.
    replace (p + (zlen f + Z.of_nat k) - 1) with (p + zlen f + Z.of_nat k - 1) by lia.
    rewrite (IH fuel p f (ex + 1) (dig - 1)); [do 2 f_equal; lia| |lia|lia|].
    + exists (48 :: w). by rewrite app_assoc.
    + destruct Hc as [Hc|Hc]; [left; lia|by right].
Qed.

(** *** The digits that are read again *)

Lemma rd_digit_plain p c w : at_ p (c :: w) -> c <> 46 -> rd_digit s p = SOk (c, p).
Proof.
  intros Hat Hc. unfold rd_digit. rewrite (rd_at _ _ _ Hat). cbn [mbind sres_bind].
  by destruct (Z.eqb_spec c 46).
Qed.
Lemma rd_digit_dot p c w : at_ p (46 :: c :: w) -> rd_digit s p = SOk (c, p + 1).
Proof.
  intros Hat. unfold rd_digit. rewrite (rd_at _ _ _ Hat). cbn [mbind sres_bind].
  change (negb (46 =? 46)) with false. cbv iota. apply at_cons in Hat. rewrite (rd_at _ _ _ Hat). done.
Qed.

Lemma digs_nodot r : forall p w, at_ p (r ++ w) -> dots r <= 1 ->
  exists q, digs s p (nodot r) q /\ (exists u, at_ q u /\ (u = w \/ u = 46 :: w)).
Proof.
  induction r as [|c r IH]; intros p w Hat Hd; cbn [app] in Hat.
  - exists p. cbn. eauto.
  - rewrite dots_cons in Hd. rewrite nodot_cons. destruct (Z.eqb_spec c 46) as [->|Hc].
    + pose proof (dots_nonneg r). destruct r as [|d r].
      { exists p. cbn. eauto. }
      cbn [app] in Hat. rewrite dots_cons in Hd. pose proof (dots_nonneg r).
      destruct (Z.eqb_spec d 46) as [->|Hd46]; [lia|].
      rewrite nodot_cons. destruct (Z.eqb_spec d 46); [done|].
      apply at_cons in Hat as Hat1. apply at_cons in Hat1 as Hat2.
      destruct (IH (p + 1) w Hat1) as (q & Hq & Hu); [rewrite dots_cons; destruct (Z.eqb_spec d 46); [done|lia]|].
      rewrite nodot_cons in Hq. destruct (Z.eqb_spec d 46); [done|].
      exists q. split; [|done]. cbn [digs] in Hq |- *. destruct Hq as (p' & E & Hq).
      rewrite (rd_digit_plain _ _ _ Hat1) in E by done. injection E as <-.
      exists (p + 1). split; [by apply (rd_digit_dot _ _ _ Hat)|done].
    + apply at_cons in Hat as Hat1. destruct (IH (p + 1) w Hat1) as (q & Hq & Hu); [lia|].
      exists q. split; [|done]. cbn [digs]. exists p. split; [by apply (rd_digit_plain _ _ _ Hat)|done].
Qed.

(** *** The decimal point *)

Lemma nodot_app a b : nodot (a ++ b) = nodot a ++ nodot b.
Proof. apply filter_app. Qed.
Lemma dots_app a b : dots (a ++ b) = dots a + dots b.
Proof. unfold dots. by rewrite filter_app, zlen_app. Qed.
Lemma find_dot_app p a b : find_dot p (a ++ b) = or_else (find_dot p a) (find_dot (p + zlen a) b).
Proof.
  revert p. induction a as [|c a IH]; intros p; cbn [find_dot app].
  - by rewrite Z.add_0_r.
  - destruct (c =? 46); [done|]. rewrite IH, zlen_cons. do 2 f_equal. lia.
Qed.
Definition zero_or_point (c : Z) : bool := (c =? 48) || point c.

Lemma split_zeros l : exists z r, l = z ++ r /\ Forall (fun c => zero_or_point c = true) z /\
  (forall c r', r = c :: r' -> zero_or_point c = false).
Proof.
  induction l as [|c l IH]; [by exists [], []|]. destruct (zero_or_point c) eqn:E.
  - destruct IH as (z & r & -> & Hz & Hr). exists (c :: z), r. by split_and!; [|constructor|].
  - exists [], (c :: l). split_and!; [done|done|]. by intros ? ? [= <- _].
Qed.

Lemma strip_zeros (l : list Z) :
  exists l1 k, l = l1 ++ replicate k 48 /\ (l1 = [] \/ exists l' c, l1 = l' ++ [c] /\ c <> 48).
Proof.
  induction l as [|c l IH] using rev_ind; [exists [], O; by split; [|left]|].
  destruct (decide (c = 48)) as [->|Hc].
  - destruct IH as (l1 & k & -> & H). exists l1, (k + 1)%nat.
    rewrite replicate_add, <- app_assoc. by split.
  - exists (l ++ [c]), O. rewrite app_nil_r. split; [done|right]. eauto.
Qed.

Lemma app_zeros_inv a l b k :
  a ++ l = b ++ replicate k 48 -> hd 48 l <> 48 -> exists l1, l = l1 ++ replicate k 48.
Proof using.
  intros E Hhd. apply app_eq_inv in E as [(k' & -> & E)|(k' & -> & E)]; [|eauto].
  destruct l as [|c l]; [done|]. cbn [hd] in Hhd. exfalso.
  assert (Hz : Forall (fun c => c = 48) (replicate k 48)) by (by apply Forall_replicate).
  rewrite E in Hz. apply Forall_app in Hz as [_ Hz]. by apply Forall_inv in Hz.
Qed.

(** Digits with at most one point. *)
Definition body_of (a : list Z) (fr : option (list Z)) : list Z :=
  a ++ match fr with Some f => 46 :: f | None => [] end.

Lemma split_dot l : dots l <= 1 ->
  exists a fr, l = body_of a fr /\ nodot a = a /\ nodot (default [] fr) = default [] fr.
Proof using.
  unfold body_of. induction l as [|c l IH]; intros Hd; [by exists [], None|]. rewrite dots_cons in Hd.
  destruct (Z.eqb_spec c 46) as [->|Hc].
  - exists [], (Some l). split_and!; [done|done|]. change (nodot l = l). pose proof (dots_nonneg l).
    assert (Hz : dots l = 0) by lia. clear -Hz. induction l as [|c l IH]; [done|].
    rewrite dots_cons in Hz. rewrite nodot_cons. pose proof (dots_nonneg l).
    destruct (c =? 46); [lia|]. f_equal. apply IH. lia.
  - destruct IH as (a & fr & -> & Ha & Hf); [lia|]. exists (c :: a), fr. split_and!; [done| |done].
    rewrite nodot_cons, Ha. by destruct (Z.eqb_spec c 46).
Qed.

Lemma find_dot_body p a fr : nodot a = a ->
  find_dot p (body_of a fr) = match fr with Some _ => Some (p + zlen a) | None => None end.
Proof using.
  intros Ha. unfold body_of. rewrite find_dot_app.
  assert (E : find_dot p a = None).
  { revert p Ha. induction a as [|c a IH]; intros p Ha; [done|]. rewrite nodot_cons in Ha. cbn [find_dot].
    destruct (Z.eqb_spec c 46) as [->|].
    - exfalso. assert (length (nodot a) <= length a)%nat by apply length_filter. rewrite Ha in *. cbn in *. lia.
    - apply IH. by injection Ha. }
  rewrite E. by destruct fr.
Qed.

(** The significant digits, and the exponent of their last place as far as
    the point determines it. *)
Lemma scan_point_spec base p a fr z r w :
  at_ p (body_of a fr ++ w) -> body_of a fr = z ++ r ->
  nodot a = a -> nodot (default [] fr) = default [] fr ->
  r = [] \/ hd 48 (nodot r) <> 48 -> zlen (body_of a fr) < 2 ^ 31 ->
  exists l k,
    nodot r = l ++ replicate k 48 /\ (r <> [] -> l <> []) /\ Z.of_nat k <= zlen (default [] fr) /\
    let ex := if decide (r = []) then 0 else Z.of_nat k - zlen (default [] fr) in
    ex <= 0 /\
    scan_point s base (p + zlen (body_of a fr)) (zlen (nodot r)) (find_dot p (body_of a fr)) =
      match fr with
      | None => SOk (STRSCAN_INT, 0, zlen l)
      | Some _ =>
          if base =? 2 then SErr
          else if ex <=? - STRSCAN_MAXEXP then SErr
          else SOk (STRSCAN_NUM, if base =? 16 then i32 (ex * 4) else ex, zlen l)
      end.
Proof using.
  intros Hat Hbody Ha Hf Hhd Hlen. rewrite find_dot_body by done. unfold scan_point.
  assert (Hnd : nodot z ++ nodot r = a ++ default [] fr).
  { rewrite <- nodot_app, <- Hbody. unfold body_of. rewrite nodot_app, Ha. f_equal.
    destruct fr as [f|]; [|done]. by rewrite nodot_cons. }
  destruct fr as [f|]; cbn [default] in *; unfold id in *.
  2:{ exists (nodot r), O. rewrite app_nil_r. split_and!; try done.
      - intros Hne Hn. destruct Hhd as [?|Hhd]; [done|]. by rewrite Hn in Hhd.
      - by destruct (decide _). }
  destruct (decide (r = [])) as [->|Hne].
  { exists [], O. split_and!; try done; [by apply zlen_nonneg|]. change (zlen (nodot [])) with 0. cbn [Z.eqb negb].
    by destruct (base =? 2), (base =? 16). }
  destruct Hhd as [?|Hhd]; [done|].
  assert (Hdig : (zlen (nodot r) =? 0) = false).
  { apply Z.eqb_neq. destruct (nodot r) as [|c l]; [done|]. rewrite zlen_cons. pose proof (zlen_nonneg l). lia. }
  rewrite Hdig. cbn [negb]. destruct (strip_zeros f) as (f1 & k & Ef1 & Hlast).
  assert (Hbd : body_of a (Some f) = (a ++ 46 :: f1) ++ replicate k 48).
  { unfold body_of. rewrite Ef1, <- app_assoc. done. }
  destruct (app_zeros_inv (nodot z) (nodot r) (a ++ f1) k) as (l & El); [by rewrite Hnd, Ef1, app_assoc|done|].
  assert (Hlb : zlen (body_of a (Some f)) = zlen a + 1 + zlen f1 + Z.of_nat k).
  { rewrite Hbd, !zlen_app, zlen_cons, zlen_replicate. lia. }
  assert (Hlf : zlen f = zlen f1 + Z.of_nat k) by (rewrite Ef1, zlen_app, zlen_replicate; done).
  assert (Hpe : zlen (a ++ 46 :: f1) = zlen a + 1 + zlen f1) by (rewrite zlen_app, zlen_cons; lia).
  pose proof (zlen_nonneg f1). pose proof (zlen_nonneg a).
  rewrite i32_small by (unfold in_i32; lia).
  replace (p + zlen (body_of a (Some f)) - 1) with (p + zlen (a ++ 46 :: f1) + Z.of_nat k - 1) by lia.
  replace (p + zlen a - (p + zlen (a ++ 46 :: f1) + Z.of_nat k - 1)) with (- zlen f) by lia.
  exists l, k. rewrite trail_zeros_spec.
  - cbn [mbind sres_bind]. replace (- zlen f + Z.of_nat k) with (Z.of_nat k - zlen f) by lia.
    rewrite El, zlen_app, zlen_replicate. replace (zlen l + Z.of_nat k - Z.of_nat k) with (zlen l) by lia.
    split_and!; try done; try lia. intros _ ->. rewrite El in Hhd. by destruct k.
  - exists w. by rewrite app_assoc, <- Hbd.
  - unfold rounds. pose proof (at_len_nat _ _ Hat) as Hal. rewrite Hbd, !length_app, length_replicate in Hal. lia.
  - lia.
  - destruct Hlast as [->|(f' & c & -> & Hc)]; [left; change (zlen []) with 0 in Hlf; lia|right].
    exists (a ++ 46 :: f'), c. by rewrite <- app_assoc.
Qed.
End text.
End StrscanText.
