(* ===== verification/LjStrscanSafe.v ===== *)
(** * LjStrscanSafe

    The number scanner on any text: it returns a result or an error, every
    read lies in the text, every cell it reads was written, no assertion
    fails and every loop ends.  The texts on which the digit buffer runs empty
    are excepted. *)
From stdpp Require Import base tactics numbers list.
From Stdlib Require Import ZArith Lia.
From S2P Require Import Prelude LjStr LjFloat LjTab LjStrscan LjStrscanBuf LjStrscanDec LjStrscanHex LjStrscanText.
Open Scope Z_scope.

Module StrscanSafe.
Import Strscan StrscanBuf StrscanDec StrscanHex StrscanText.

(** A result with [P], or the return of an error; nothing undefined, no failed
    assertion, no loop left running. *)
Definition outcome {A} (P : A -> Prop) (r : sres A) : Prop :=
  match r with SOk a => P a | SErr => True | _ => False end.

Lemma outcome_bind {A B} (P : A -> Prop) (Q : B -> Prop) (r : sres A) (f : A -> sres B) :
  outcome P r -> (forall a, P a -> outcome Q (f a)) -> outcome Q (r ≫= f).
Proof. intros Hr Hf. destruct r; try done. cbn. by apply Hf. Qed.

Lemma outcome_impl {A} (P Q : A -> Prop) (r : sres A) :
  outcome P r -> (forall a, P a -> Q a) -> outcome Q r.
Proof. intros Hr H. destruct r; try done. by apply H. Qed.

(** The format says which field of the value is set. *)
Definition typed (r : Z * Val) : Prop :=
  match r with
  | (fmt, ONum _) => fmt = STRSCAN_NUM \/ fmt = STRSCAN_IMAG
  | (fmt, OInt _) => fmt = STRSCAN_INT \/ fmt = STRSCAN_U32
  | (fmt, OU64 _) => fmt = STRSCAN_I64 \/ fmt = STRSCAN_U64
  end.

Definition is_fmt (fmt : Z) : Prop := STRSCAN_NUM <= fmt <= STRSCAN_U64.

(** ** Collecting cells of any size *)

Lemma end_of_ne h a v b : zlen (a ++ v :: b) < zlen a + 512 -> (end_of h a =? end_of h (a ++ v :: b)) = false.
Proof.
  intros Hl. apply Z.eqb_neq. intros E. pose proof (zlen_nonneg b).
  assert (Hz : zlen (a ++ v :: b) = zlen a + (1 + zlen b)) by (by rewrite zlen_app, zlen_cons).
  apply end_of_eq in E; lia.
Qed.

(** The integer of [k] cells up to 127. *)
Definition bound127 (x k : Z) : Prop := 0 <= x /\ 99 * x + 128 <= 128 * 100 ^ k.

Lemma bound127_step x k v : 0 <= k -> bound127 x k -> dig127 v -> bound127 (x * 100 + v) (k + 1).
Proof.
  unfold bound127, dig127. intros Hk [Hx Hb] Hv. rewrite Z.pow_add_r by lia. change (100 ^ 1) with 100. lia.
Qed.

Lemma bound127_62 x k : 0 <= k <= 9 -> bound127 x k -> 0 <= x /\ 2 * x + 1 < 2 ^ 62.
Proof.
  unfold bound127. intros Hk [Hx Hb]. assert (100 ^ k <= 100 ^ 9) by (apply Z.pow_le_mono_r; lia). lia.
Qed.

Lemma collect_int_safe rest : forall fuel c h pre i x,
  rep c h (pre ++ rest) -> pre <> [] -> (length rest < fuel)%nat -> Forall dig127 rest ->
  1 <= i <= 9 - (zlen pre - 1) -> bound127 x (zlen pre) ->
  exists a b i' x',
    rest = a ++ b /\ collect_int fuel c (end_of h pre) (end_of h (pre ++ rest)) i x =
      SOk (end_of h (pre ++ a), i', x') /\ 0 <= i' <= i - 1 /\ zlen a = i - 1 - i' /\
    bound127 x' (zlen pre + zlen a).
Proof.
  induction rest as [|v rest IH]; intros fuel c h pre i x Hr Hne Hf Hd Hi Hx;
    (destruct fuel as [|fuel]; [cbn in Hf; lia|]); cbn [collect_int].
  - exists [], [], (i - 1), x. rewrite !(app_nil_r pre), Z.eqb_refl, andb_false_r.
    change (zlen []) with 0. rewrite Z.add_0_r. split_and!; first [done|lia].
  - assert (Hh : 0 <= h < 512) by apply Hr. assert (Hl : zlen (pre ++ v :: rest) <= 512) by apply Hr.
    apply Forall_cons in Hd as [Hv Hd]. pose proof (zlen_nonneg rest). pose proof (zlen_nonneg pre).
    pose proof (zlen_pos pre Hne).
    rewrite end_of_ne by lia. cbn [negb]. rewrite andb_true_r. destruct (Z.ltb_spec 0 (i - 1)) as [Hi0|Hi0].
    + rewrite (rep_get _ _ _ _ _ Hr). cbn [mbind sres_bind].
      pose proof (bound127_step x (zlen pre) v ltac:(lia) Hx Hv) as Hx2.
      destruct (bound127_62 _ (zlen pre + 1) ltac:(lia) Hx2) as [Hx0 Hx62].
      rewrite u64_small by (unfold in_u64; lia). rewrite (end_of_snoc h pre v).
      assert (Hpl : zlen (pre ++ [v]) = zlen pre + 1) by (by rewrite zlen_app).
      destruct (IH fuel c h (pre ++ [v]) (i - 1) (x * 100 + v)) as (a & b & i' & x' & -> & E & Hi' & Ha & Hx');
        try done.
      * by rewrite <- app_assoc.
      * by destruct pre.
      * cbn in Hf. lia.
      * lia.
      * by rewrite Hpl.
      * exists (v :: a), b, i', x'. rewrite <- app_assoc in E. cbn [app] in E. rewrite E.
        rewrite <- app_assoc, zlen_cons. cbn [app]. rewrite Hpl in Hx'.
        replace (zlen pre + (1 + zlen a)) with (zlen pre + 1 + zlen a) by lia. split_and!; first [done|lia].
    + exists [], (v :: rest), (i - 1), x. rewrite (app_nil_r pre). change (zlen []) with 0. rewrite Z.add_0_r.
      split_and!; first [done|lia].
Qed.

Lemma collect_zeros_safe n : forall fuel i x k,
  i = Z.of_nat n -> (n < fuel)%nat -> 0 <= k -> k + i <= 9 -> bound127 x k ->
  exists y, collect_zeros fuel i x = SOk y /\ bound127 y (k + i).
Proof.
  induction n as [|n IH]; intros fuel i x k Hi Hf Hk Hki Hx; (destruct fuel as [|fuel]; [lia|]); cbn [collect_zeros].
  - subst i. exists x. cbn -[Z.add]. by rewrite Z.add_0_r.
  - replace (0 <=? i - 1) with true by (symmetry; apply Z.leb_le; lia).
    pose proof (bound127_step x k 0 Hk Hx ltac:(done)) as Hx2. rewrite Z.add_0_r in Hx2.
    destruct (bound127_62 _ (k + 1) ltac:(lia) Hx2) as [Hx0 Hx62].
    rewrite u64_small by (unfold in_u64; lia).
    destruct (IH fuel (i - 1) (x * 100) (k + 1)) as (y & -> & Hy); [lia..|done|].
    exists y. split; [done|]. by replace (k + 1 + (i - 1)) with (k + i) in Hy by lia.
Qed.

Lemma collect_frac_safe rest : forall fuel c h pre,
  rep c h (pre ++ rest) -> rest <> [] -> (length rest <= fuel)%nat ->
  exists b, collect_frac fuel c (end_of h pre) (end_of h (pre ++ rest)) = SOk b.
Proof.
  induction rest as [|v rest IH]; intros fuel c h pre Hr Hne Hf; [done|].
  destruct fuel as [|fuel]; [cbn in Hf; lia|]. cbn [collect_frac].
  rewrite (rep_get _ _ _ _ _ Hr). cbn [mbind sres_bind]. destruct (v =? 0); cbn [negb]; [|eauto].
  rewrite (end_of_snoc h pre v). destruct rest as [|w rest].
  - rewrite Z.eqb_refl. eauto.
  - assert (Hl : zlen (pre ++ v :: w :: rest) <= 512) by apply Hr.
    change (pre ++ v :: w :: rest) with (pre ++ [v] ++ w :: rest) in *. rewrite app_assoc in *.
    rewrite end_of_ne by (rewrite (zlen_app pre); change (zlen [v]) with 1; pose proof (zlen_nonneg pre); lia).
    apply IH; [done|done|]. cbn in Hf |- *. lia.
Qed.

Lemma collect_safe x ds :
  abs x ds -> Forall dig127 ds -> 1 <= idig x <= 9 ->
  exists y e, collect x = SOk (y, e) /\ 0 <= y < 2 ^ 62.
Proof.
  intros (Hr & Hlo & Hne & Hhd) Hd Hi. unfold collect. rewrite Hlo.
  assert (Hh : 0 <= hi x < 512) by apply Hr. assert (Hl : zlen ds <= 512) by apply Hr.
  destruct ds as [|v rest]; [done|]. apply Forall_cons in Hd as [Hv Hd].
  pose proof (rep_get (xi x) (hi x) [] v rest Hr) as Hg. rewrite end_of_nil in Hg by done.
  rewrite Hg. cbn [mbind sres_bind].
  replace (DNEXT (hi x)) with (end_of (hi x) [v]) by (unfold end_of; rewrite DNEXT_mod; done).
  destruct (collect_int_safe rest 512 (xi x) (hi x) [v] (idig x) v) as (a & b & i' & x' & -> & E & Hi' & Ha & Hx');
    try done.
  { rewrite zlen_cons in Hl. unfold zlen in *. lia. }
  { unfold bound127, dig127 in *. change (100 ^ zlen [v]) with 100. lia. }
  change ([v] ++ a ++ b) with (v :: a ++ b) in E. change (zlen [v]) with 1 in Hx'.
  rewrite E. cbn [mbind sres_bind]. pose proof (zlen_nonneg a).
  destruct b as [|w b].
  - rewrite app_nil_r. change ([v] ++ a) with (v :: a). rewrite Z.eqb_refl.
    destruct (collect_zeros_safe (Z.to_nat i') 512 i' x' (1 + zlen a)) as (y & -> & Hy); [lia..|done|].
    cbn [mbind sres_bind]. destruct (bound127_62 y (1 + zlen a + i') ltac:(lia) Hy). exists y, (ex2 x). split; [done|lia].
  - change (v :: a ++ w :: b) with (([v] ++ a) ++ w :: b) in *.
    rewrite end_of_ne by (rewrite (zlen_app [v]); change (zlen [v]) with 1; lia).
    destruct (collect_frac_safe (w :: b) 512 (xi x) (hi x) ([v] ++ a) Hr) as (f & ->); [done| |].
    { rewrite zlen_app in Hl. pose proof (zlen_nonneg ([v] ++ a)). unfold zlen in *. lia. }
    cbn [mbind sres_bind]. destruct (bound127_62 x' (1 + zlen a) ltac:(lia) Hx') as [Hx0 Hx62].
    rewrite Z.shiftl_mul_pow2, u64_small by (try lia; unfold in_u64; lia). change (2 ^ 1) with 2.
    eexists _, _. split; [done|]. destruct f; cbn [b2z]; [|rewrite Z.lor_0_r; lia].
    rewrite <- Z.add_nocarry_lor; [lia|]. apply Z.bits_inj'. intros j Hj. rewrite Z.land_spec, Z.bits_0.
    destruct (decide (j = 0)) as [->|].
    + change (x' * 2) with (x' * 2 ^ 1). rewrite Z.mul_pow2_bits_low by lia. done.
    + change 1 with (2 ^ 0). rewrite (Z.pow2_bits_false 0 j), andb_false_r by lia. done.
Qed.

(** ** The slow path on any cells *)

Lemma scale_any x ds :
  abs x ds -> Forall dig99 ds -> zlen ds <= 511 -> -163 <= idig x <= 155 -> idig x - zlen ds <= 8 ->
  exists x1 x' ds',
    scale_up 400 x = SOk x1 /\ scale_down 400 x1 = SOk x' /\ abs x' ds' /\ Forall dig127 ds' /\
    1 <= idig x' <= 9.
Proof.
  intros Habs Hd Hl Hi Hz. pose proof (abs_len _ _ Habs). destruct (Z.le_gt_cases (idig x) 9) as [H9|H9].
  - destruct (scale_up_spec 400 x ds) as (x' & ds' & -> & H1 & H2 & H3 & H4 & H5 & _);
      try done; try lia; [by apply dig99_127| |].
    { unfold mu. destruct (64 <=? hd 0 ds); cbn; lia. }
    exists x', x', ds'. pose proof (abs_len _ _ H1).
    assert (Hdown : scale_down 400 x' = SOk x').
    { cbn [scale_down]. destruct (Z.ltb_spec 9 (idig x')); [lia|done]. }
    split_and!; try done; lia.
  - destruct (scale_down_gen (fun y ys => idig y - zlen ys <= 8)) with (fuel := 400%nat) (x := x) (ds := ds)
      as (x' & ds' & E & H1 & H2 & H3 & H4); try done.
    + intros y ys Hay Hdy Hiy Hy9. split; [left; lia|]. intros y' ys' Hay' Hdy' (_ & Hr & _). lia.
    + unfold mu. destruct (64 <=? hd 0 ds); cbn; lia.
    + lia.
    + exists x, x', ds'. split_and!; try done; try lia.
      * cbn [scale_up]. destruct (Z.ltb_spec (idig x) 9); [lia|done].
      * by apply dig99_127.
Qed.

Lemma dec_slow_safe c ds z fmt neg :
  rep c 0 ds -> ds <> [] -> Forall dig99 ds -> 1 <= hd 0 ds -> zlen ds <= 511 ->
  z <= 8 \/ 147 <= zlen ds \/ trap_free (val ds) z ->
  exists b, dec_slow c (zlen ds) (2 * z) fmt neg = SOk (fmt, ONum b).
Proof.
  intros Hr Hne Hd Hhd Hl Hz. rewrite dec_slow_cells by (by apply zlen_pos).
  destruct (Z.ltb_spec 155 (zlen ds + z)) as [Hbig|Hbig]; [eauto|].
  destruct (Z.ltb_spec (zlen ds + z) (-163)) as [Hsm|Hsm]; [eauto|].
  pose proof (dec_slow_abs c ds z Hr Hne Hhd ltac:(lia)) as Habs.
  set (x := MkDec c 0 (zlen ds) 0 (zlen ds + z)) in *.
  assert (exists x1 x' ds', scale_up 400 x = SOk x1 /\ scale_down 400 x1 = SOk x' /\ abs x' ds' /\
            Forall dig127 ds' /\ 1 <= idig x' <= 9) as (x1 & x' & ds' & -> & E & H1 & H2 & H3).
  { destruct (Z.le_gt_cases z 8) as [H8|H8]; [apply (scale_any x ds); try done; unfold x; cbn [idig]; lia|].
    destruct Hz as [Hz|[Hz|Hz]]; [lia..|].
    destruct (scale_exact x ds) as (x1 & x' & ds' & E1 & E & H1 & H2 & H3 & _); try done.
    { lia. }
    { unfold x; cbn [idig]. by replace (zlen ds + z - zlen ds) with z by lia. }
    exists x1, x', ds'. split_and!; try done; [by apply dig99_127|lia..]. }
  cbn [mbind sres_bind]. rewrite E. cbn [mbind sres_bind].
  destruct (collect_safe x' ds' H1 H2 H3) as (y & e & -> & Hy).
  cbn [mbind sres_bind]. rewrite strscan_double_correct by done. cbn [mbind sres_bind]. eauto.
Qed.

(** ** Filling the buffer with any number of digits *)

Section text.
Context (s : list Z).

Lemma dec_excess_safe n : forall b p q xi ds v,
  digs s p b q -> (exists r, rd_digit s q = SOk r) -> Z.of_nat n <= zlen b + 1 ->
  rep xi 0 (ds ++ [v]) -> dig99 v -> zlen ds <= 500 ->
  exists xi' v', dec_excess s n p xi (zlen ds + 1) = SOk xi' /\ rep xi' 0 (ds ++ [v']) /\ dig99 v'.
Proof.
  induction n as [|n IH]; intros b p q xi ds v Hb Hq Hn Hr Hv Hl; cbn [dec_excess]; [eauto|].
  assert (exists c p', rd_digit s p = SOk (c, p') /\
            (n = O \/ exists b', digs s (p' + 1) b' q /\ Z.of_nat n <= zlen b' + 1)) as (c & p' & -> & Hc).
  { destruct b as [|c b].
    - cbn in Hb. subst p. destruct Hq as [[c p'] Hq]. exists c, p'. split; [done|].
      left. change (zlen []) with 0 in Hn. lia.
    - destruct Hb as (p' & E & Hb). exists c, p'. split; [done|]. right. exists b.
      rewrite zlen_cons in Hn. split; [done|lia]. }
  cbn [mbind sres_bind]. replace (zlen ds + 1 - 1) with (zlen ds) by lia.
  destruct (negb (c =? 48)).
  - assert (He : zlen ds = end_of 0 ds) by (unfold end_of; pose proof (zlen_nonneg ds); zlia).
    rewrite He, (rep_get _ _ _ _ _ Hr). cbn [mbind sres_bind].
    destruct (rep_set xi 0 ds v (Z.lor v 1) [] Hr) as (xi' & -> & Hr').
    { pose proof (lor_1_dig99 v Hv). unfold dig99 in *. lia. }
    exists xi', (Z.lor v 1). split_and!; try done. by apply lor_1_dig99.
  - destruct Hc as [->|(b' & Hb' & Hn')]; [cbn; eauto|]. by apply (IH b' _ q _ _ v).
Qed.

Lemma dec_fill_long l p q ex10 :
  digs s p l q -> (exists r, rd_digit s q = SOk r) -> Forall isdig l -> 49 <= hd 0 l -> 300 < zlen l ->
  exists c ds z dig',
    dec_fill s p ex10 (zlen l) = SOk (c, zlen ds, 2 * z, dig') /\
    rep c 0 ds /\ Forall dig99 ds /\ ds <> [] /\ 1 <= hd 0 ds /\ 147 <= zlen ds <= 511 /\ 20 < dig'.
Proof.
  intros Hl Hq Hd Hhd Hlen. unfold dec_fill. rewrite (proj2 (Z.eqb_neq (zlen l) 0)) by lia.
  set (ie := if STRSCAN_MAXDIG <? zlen l then (STRSCAN_MAXDIG, i32 (ex10 + i32 (zlen l - STRSCAN_MAXDIG))) else (zlen l, ex10)).
  assert (Hi : fst ie = Z.min 800 (zlen l)).
  { unfold ie, STRSCAN_MAXDIG. destruct (Z.ltb_spec 800 (zlen l)); cbn [fst]; lia. }
  destruct ie as [i ex]. cbn [fst] in Hi.
  set (a := take (Z.to_nat i) l). set (b := drop (Z.to_nat i) l).
  assert (Eab : l = a ++ b) by (by unfold a, b; rewrite take_drop).
  assert (Ha : zlen a = i) by (unfold a, zlen in *; rewrite length_take; lia).
  assert (Hb : zlen b = zlen l - i) by (assert (zlen l = zlen a + zlen b) by (by rewrite <- zlen_app, <- Eab); lia).
  rewrite Eab in Hl. apply digs_app in Hl as (r & Hpa & Hrb).
  assert (Hda : Forall isdig a /\ 49 <= hd 0 a).
  { rewrite Eab in Hd, Hhd. apply Forall_app in Hd as [Hd _]. split; [done|].
    destruct a; [change (zlen []) with 0 in Ha; lia|done]. }
  destruct (dec_align_spec s a p r ex (zlen l) Hpa (proj1 Hda) ltac:(lia)) as (xi & E & Hrep).
  destruct (aligned_digits ex a (proj1 Hda) (proj2 Hda) ltac:(lia)) as (H1 & H2 & H3 & _ & H5).
  rewrite Ha in E. rewrite E. cbn [mbind sres_bind]. clear E. rewrite Ha in *.
  destruct (trail_exp ex) as [z ->].
  assert (Ht : 0 <= zlen (trail ex) <= 1) by (unfold trail; destruct (Z.odd ex); unfold zlen; cbn; lia).
  set (ds := pairs (lead ex i ++ a ++ trail ex)) in *. clearbody ds.
  unfold STRSCAN_MAXDIG. destruct (Z.ltb_spec 800 (zlen l + zlen (trail ex))) as [Hx|Hx].
  - destruct (snoc_inv ds H2) as (ds0 & v & ->). rewrite zlen_app in *. change (zlen [v]) with 1 in *.
    apply Forall_app in H1 as [H1 Hv]. rewrite Forall_singleton in Hv.
    assert (Hz0 : 147 <= zlen ds0 + 1 <= 411) by (clear -H5 Hi Hlen Ht; zlia).
    destruct (dec_excess_safe (Z.to_nat (zlen l + zlen (trail ex) - 800)) b r q xi ds0 v)
      as (xi' & v' & -> & Hrep' & Hv'); try done; [lia..|].
    cbn [mbind sres_bind]. exists xi', (ds0 ++ [v']), z, 800. rewrite zlen_app. change (zlen [v']) with 1.
    split_and!; try done; try lia.
    + apply Forall_app. by rewrite Forall_singleton.
    + by destruct ds0.
    + destruct ds0; [change (zlen []) with 0 in Hz0; lia|done].
  - cbn [dec_simplify]. rewrite (proj2 (Z.leb_gt (zlen l + zlen (trail ex)) 18)), andb_false_r by lia.
    exists xi, ds, z, (zlen l + zlen (trail ex)). split_and!; try done; try lia; clear -H5 Hi Hlen Ht; zlia.
Qed.

(** ** Decimal numbers *)

Definition typed_or_fmt (r : Z * Val + Z) : Prop := match r with inl v => typed v | inr f => is_fmt f end.

Lemma fmt_cases fmt : is_fmt fmt ->
  fmt = STRSCAN_NUM \/ fmt = STRSCAN_IMAG \/ fmt = STRSCAN_INT \/ fmt = STRSCAN_U32 \/
  fmt = STRSCAN_I64 \/ fmt = STRSCAN_U64.
Proof.
  unfold is_fmt, STRSCAN_NUM, STRSCAN_IMAG, STRSCAN_INT, STRSCAN_U32, STRSCAN_I64, STRSCAN_U64. lia.
Qed.

Lemma dec_switch_outcome x fmt opt neg : is_fmt fmt -> outcome typed_or_fmt (dec_switch x fmt opt neg).
Proof.
  intros Hf. unfold dec_switch. destruct (fmt_cases fmt Hf) as [->|[->|[->|[->|[->| ->]]]]];
    repeat case_match; cbn; tauto || done.
Qed.

Lemma dec_switch_0 fmt opt neg : is_fmt fmt ->
  outcome (fun r => exists v, r = inl v /\ typed v) (dec_switch 0 fmt opt neg).
Proof.
  intros Hf. unfold dec_switch. destruct (fmt_cases fmt Hf) as [->|[->|[->|[->|[->| ->]]]]];
    repeat case_match; try done; eexists; (split; [reflexivity|]); cbn; tauto.
Qed.

Lemma dec_filled l p q ex10 fmt opt neg :
  digs s p l q -> (exists r, rd_digit s q = SOk r) -> Forall isdig l -> 49 <= hd 0 l -> 1 <= zlen l ->
  300 < zlen l \/ dec_safe (dec l) (zlen l) ex10 -> is_fmt fmt ->
  exists c lo e dig',
    dec_fill s p ex10 (zlen l) = SOk (c, lo, e, dig') /\
    outcome typed_or_fmt (dec_fast c lo e dig' fmt opt neg) /\
    forall f, exists b, dec_slow c lo e f neg = SOk (f, ONum b).
Proof.
  intros Hl Hq Hd Hhd Hlen Hs Hf. destruct (Z.le_gt_cases (zlen l) 300) as [H3|H3].
  - destruct (dec_fill_spec s l p q ex10) as
      (c & ds & z & dig' & j & E & Hr & Hd99 & Hne & Hhd' & Hlds & Hj & He & Hval & Hlen' & Hdig & _ & Hz);
      [done..|].
    pose proof (dec_lower l Hd Hhd Hlen). pose proof (dec_bound l Hd).
    exists c, (zlen ds), (2 * z), dig'. split_and!; [done| |].
    + rewrite dec_fast_spec by (first [done|lia|rewrite Hval, Hdig; apply scaled_bound; lia]).
      case_match; [by apply dec_switch_outcome|done].
    + intros f. apply dec_slow_safe; try done; [lia|].
      right; right. rewrite Hval. destruct Hs as [Hs|Hs]; [lia|].
      by apply (dec_safe_trap_free _ (zlen l) ex10 j z dig'); [lia..|done|lia|done|done|done].
  - destruct (dec_fill_long l p q ex10) as (c & ds & z & dig' & E & Hr & Hd99 & Hne & Hhd' & Hlds & Hdig); [done..|].
    exists c, (zlen ds), (2 * z), dig'. split_and!; [done| |].
    + unfold dec_fast. by rewrite (proj2 (Z.leb_gt dig' 20)) by lia.
    + intros f. apply dec_slow_safe; try done; lia.
Qed.

Lemma strscan_dec_outcome l p q ex10 fmt opt neg :
  digs s p l q -> (exists r, rd_digit s q = SOk r) -> Forall isdig l -> l = [] \/ 49 <= hd 0 l ->
  300 < zlen l \/ dec_safe (dec l) (zlen l) ex10 -> is_fmt fmt ->
  outcome typed (strscan_dec s p fmt opt ex10 neg (zlen l)).
Proof.
  intros Hl Hq Hd Hhd Hs Hf. unfold strscan_dec. destruct Hhd as [->|Hhd].
  - destruct (dec_fill_empty s p ex10 fmt opt neg) as (xi & E & E'). change (zlen []) with 0.
    rewrite E. cbn [mbind sres_bind]. rewrite E'.
    apply (outcome_bind (fun r => exists v, r = inl v /\ typed v)); [by apply dec_switch_0|].
    by intros ? (v & -> & Hv).
  - assert (1 <= zlen l) by (destruct l as [|c l]; [cbn in Hhd; lia|rewrite zlen_cons; pose proof (zlen_nonneg l); lia]).
    destruct (dec_filled l p q ex10 fmt opt neg) as (c & lo & e & dig' & -> & Hfast & Hslow); [done..|].
    cbn [mbind sres_bind]. apply (outcome_bind typed_or_fmt); [done|]. intros [v|f] Hr; [done|].
    destruct (Hslow f) as (b & ->), (Hslow STRSCAN_NUM) as (b' & ->).
    destruct (fmt_cases f Hr) as [->|[->|[->|[->|[->| ->]]]]]; cbn; repeat case_match; cbn; tauto.
Qed.

(** ** The other bases *)

Lemma reduce_double_outcome fmt x e neg :
  0 <= x < 2 ^ 64 -> fmt = STRSCAN_NUM \/ fmt = STRSCAN_IMAG -> outcome typed (reduce_double fmt x e neg).
Proof.
  intros Hx Hf. unfold reduce_double. rewrite top_bits by done. destruct (Z.ltb_spec x (2 ^ 62)); cbn [negb].
  - by rewrite strscan_double_correct by lia.
  - destruct (reduce_bits x ltac:(lia)) as (H0 & H1 & _). rewrite strscan_double_correct; [done|].
    clear -H0 H1 Hx. zlia.
Qed.

Lemma oct_digits_outcome n : forall p x, p + Z.of_nat n <= zlen s -> 0 <= p ->
  outcome (fun _ => True) (oct_digits s n p x).
Proof.
  induction n as [|n IH]; intros p x Hp H0; [done|]. cbn [oct_digits]. unfold rd.
  destruct (zget_is_Some s p) as [c ->]; [lia|]. cbn [chk mbind sres_bind]. case_match; [done|]. apply IH; lia.
Qed.

Lemma strscan_oct_outcome p fmt neg dig :
  0 <= p < zlen s -> p + dig <= zlen s -> 0 <= dig -> STRSCAN_INT <= fmt <= STRSCAN_U64 ->
  outcome typed (strscan_oct s p fmt neg dig).
Proof.
  intros Hp Hd H0 Hf. unfold strscan_oct.
  apply (outcome_bind (fun _ => True)).
  { repeat case_match; try done. unfold rd. by destruct (zget_is_Some s p) as [c ->]. }
  intros [|] _; [done|]. apply (outcome_bind (fun _ => True)); [apply oct_digits_outcome; lia|]. intros x _.
  assert (Hf' : fmt = STRSCAN_INT \/ fmt = STRSCAN_U32 \/ fmt = STRSCAN_I64 \/ fmt = STRSCAN_U64)
    by (unfold STRSCAN_INT, STRSCAN_U32, STRSCAN_I64, STRSCAN_U64 in *; lia).
  generalize (0x80000000 + b2z neg <=? x), (Z.shiftr x 32 =? 0), (sgn_u64 neg x),
    (if neg then i32 (u32 (not32 (u32 x) + 1)) else i32 x).
  intros [] [] u i; destruct Hf' as [->|[->|[->| ->]]]; cbn; tauto.
Qed.

Lemma bin_digits_outcome n : forall p x, p + Z.of_nat n <= zlen s -> 0 <= p -> 0 <= x < 2 ^ 64 ->
  outcome (fun y => 0 <= y < 2 ^ 64) (bin_digits s n p x).
Proof.
  induction n as [|n IH]; intros p x Hp H0 Hx; [done|]. cbn [bin_digits]. unfold rd.
  destruct (zget_is_Some s p) as [c ->]; [lia|]. cbn [chk mbind sres_bind]. case_match; [done|].
  apply IH; [lia..|]. apply lor_range; [lia|apply u64_range|].
  change 1 with (2 ^ 1 - 1). rewrite land_pow2_mask by lia. zlia.
Qed.

Lemma strscan_bin_outcome p fmt opt e neg dig :
  0 <= p -> p + dig <= zlen s -> 0 <= dig -> is_fmt fmt -> outcome typed (strscan_bin s p fmt opt e neg dig).
Proof.
  intros Hp Hd H0 Hf. unfold strscan_bin. case_match; [done|].
  apply (outcome_bind (fun y => 0 <= y < 2 ^ 64)); [apply bin_digits_outcome; lia|]. intros x Hx.
  destruct (fmt_cases fmt Hf) as [->|[->|[->|[->|[->| ->]]]]]; cbn; repeat case_match;
    first [by apply reduce_double_outcome; auto|cbn; tauto].
Qed.

Lemma hex_digits_outcome l : forall p q x,
  digs s p l q -> 0 <= x < 2 ^ 64 ->
  exists y, hex_digits s (length l) p x = SOk (q, y) /\ 0 <= y < 2 ^ 64.
Proof.
  induction l as [|c l IH]; intros p q x Hl Hx; cbn [hex_digits length].
  - cbn in Hl. subst q. eauto.
  - destruct Hl as (p' & -> & Hl). cbn [mbind sres_bind]. apply IH; [done|apply u64_range].
Qed.

Lemma hex_excess_outcome l : forall p q x e,
  digs s p l q -> 0 <= x < 2 ^ 64 ->
  exists y e', hex_excess s (length l) p x e = SOk (y, e') /\ 0 <= y < 2 ^ 64.
Proof.
  induction l as [|c l IH]; intros p q x e Hl Hx; cbn [hex_excess length]; [eauto|].
  destruct Hl as (p' & -> & Hl). cbn [mbind sres_bind]. apply (IH _ q); [done|].
  apply lor_range; [lia|done|]. by destruct (negb (c =? 48)).
Qed.

Lemma strscan_hex_outcome l p q fmt opt e neg :
  digs s p l q -> is_fmt fmt -> outcome typed (strscan_hex s p fmt opt e neg (zlen l)).
Proof.
  intros Hl Hf. unfold strscan_hex.
  destruct (hex_split s l p q Hl) as (a & b & r & -> & Ha & Hb & <- & <-).
  destruct (hex_digits_outcome a p r 0 Ha ltac:(done)) as (x & -> & Hx). cbn [mbind sres_bind].
  destruct (hex_excess_outcome b r q x e Hb Hx) as (y & e' & -> & Hy). cbn [mbind sres_bind].
  destruct (fmt_cases fmt Hf) as [->|[->|[->|[->|[->| ->]]]]]; cbn; repeat case_match;
    first [by apply reduce_double_outcome; auto|cbn; tauto].
Qed.
End text.

(** ** The scan of any text *)

Section scan.
Context (s : list Z) (bytes : Forall in_u8 s) (nul : exists w, s = w ++ [0]).

(** A pointer into the text, its NUL included. *)
Definition ptr (p : Z) : Prop := 0 <= p < zlen s.

Lemma ptr_at p : ptr p -> exists w, at_ s p (w ++ [0]).
Proof using nul.
  intros Hp. destruct nul as (w & E). exists (drop (Z.to_nat p) w), (take (Z.to_nat p) w).
  assert (zlen s = zlen w + 1) by (rewrite E, zlen_app; done). unfold ptr in Hp.
  rewrite app_assoc, take_drop. split; [done|]. unfold zlen in *. rewrite length_take. lia.
Qed.

Lemma at_ptr p c w : at_ s p (c :: w) -> ptr p.
Proof using.
  intros (a & E & ->). unfold ptr. rewrite E, zlen_app, zlen_cons.
  pose proof (zlen_nonneg a). pose proof (zlen_nonneg w). lia.
Qed.

(** Behind a character that is not the NUL there is another one. *)
Lemma ptr_rd p : ptr p -> exists c, rd s p = SOk c /\ in_u8 c /\ (c <> 0 -> ptr (p + 1)).
Proof using bytes nul.
  intros Hp. destruct (ptr_at p Hp) as (w & Hat). destruct w as [|c w].
  - exists 0. split_and!; [by eapply rd_at|done|done].
  - exists c. split_and!; [by eapply rd_at|by eapply at_byte|]. intros _.
    apply at_cons in Hat. destruct w as [|c' w]; by eapply at_ptr.
Qed.

(** The run of a kind of characters from a pointer on. *)
Lemma run f p : f 0 = false -> ptr p ->
  exists r t w, at_ s p (r ++ t :: w) /\ Forall (fun c => f c = true) r /\ f t = false /\
    ptr (p + zlen r) /\ (length r < rounds s)%nat.
Proof using nul.
  intros H0 Hp. destruct (ptr_at p Hp) as (w & Hat).
  destruct (munch f (w ++ [0]) H0 ltac:(eauto)) as (r & t & w' & E & Hr & Ht). rewrite E in Hat.
  exists r, t, w'. pose proof (at_len_nat _ _ _ Hat) as Hl. rewrite length_app in Hl.
  split_and!; [done..| |unfold rounds; lia]. apply at_app in Hat. by eapply at_ptr.
Qed.

Lemma skip_space_ok p : ptr p -> exists p', skip_space s (rounds s) p = SOk p' /\ ptr p'.
Proof using bytes nul.
  intros Hp. destruct (run space p eq_refl Hp) as (r & t & w & Hat & Hr & Ht & Hp' & Hl).
  exists (p + zlen r). split; [by eapply skip_space_spec|done].
Qed.

Lemma casecmp_nul k : k <> 32 -> casecmp 0 k = false.
Proof using. intros Hk. unfold casecmp. rewrite Z.lor_0_l. apply Z.eqb_neq. lia. Qed.

Lemma casecmps_ok ks : forall p, Forall (fun k => k <> 32) ks -> ptr p ->
  exists b, casecmps s p ks = SOk b /\ (b = true -> ptr (p + zlen ks)).
Proof using bytes nul.
  induction ks as [|k ks IH]; intros p Hk Hp; cbn [casecmps].
  - exists true. split; [done|]. by rewrite Z.add_0_r.
  - apply Forall_cons in Hk as [Hk Hks]. destruct (ptr_rd p Hp) as (c & -> & _ & Hn). cbn [mbind sres_bind].
    destruct (casecmp c k) eqn:Ec; [|by exists false].
    destruct (IH (p + 1) Hks) as (b & -> & Hb).
    { apply Hn. intros ->. by rewrite casecmp_nul in Ec. }
    exists b. split; [done|]. rewrite zlen_cons. intros H. by replace (p + (1 + zlen ks)) with (p + 1 + zlen ks) by lia; apply Hb.
Qed.

Lemma scan_nonnum_outcome p pe neg : ptr p -> outcome typed (scan_nonnum s p pe neg).
Proof using bytes nul.
  intros Hp. unfold scan_nonnum.
  destruct (casecmps_ok [105; 110; 102] p) as (inf & -> & Hinf); [by repeat constructor|done|]. cbn [mbind sres_bind].
  apply (outcome_bind (fun r => ptr (snd r))).
  - destruct inf.
    + destruct (casecmps_ok [105; 110; 105; 116; 121] (p + 3)) as (i & -> & Hi); [by repeat constructor|by apply Hinf|].
      cbn [mbind sres_bind outcome snd]. destruct i; [by apply Hi|by apply Hinf].
    + destruct (casecmps_ok [110; 97; 110] p) as (n & -> & Hn); [by repeat constructor|done|].
      cbn [mbind sres_bind outcome snd]. destruct n; [by apply Hn|done].
  - intros [tmp p1] Hp1. cbn [snd] in Hp1. destruct (skip_space_ok p1 Hp1) as (p2 & -> & Hp2).
    unfold scan_end. destruct (ptr_rd p2 Hp2) as (c & E & _). cbn [mbind sres_bind]. rewrite E. cbn [mbind sres_bind].
    case_match; [done|]. by left.
Qed.

Lemma scan_sign_outcome pe : 
  outcome (fun r => match r with inl (_, p) => ptr p | inr v => typed v end) (scan_sign s pe).
Proof using bytes nul.
  assert (H0 : ptr 0).
  { destruct nul as (w & E). unfold ptr. rewrite E, zlen_app. pose proof (zlen_nonneg w). change (zlen [0]) with 1. lia. }
  unfold scan_sign. destruct (ptr_rd 0 H0) as (c & -> & Hc & _). cbn [mbind sres_bind].
  rewrite isa_known by (done || by left). cbn [mbind sres_bind]. case_match; [done|].
  destruct (skip_space_ok 0 H0) as (p & -> & Hp). cbn [mbind sres_bind].
  destruct (ptr_rd p Hp) as (c1 & -> & _ & Hn). cbn [mbind sres_bind].
  assert (exists neg p', (if (c1 =? 43) || (c1 =? 45) then (c1 =? 45, p + 1) else (false, p)) = (neg, p') /\ ptr p')
    as (neg & p' & -> & Hp').
  { destruct ((c1 =? 43) || (c1 =? 45)) eqn:E; eexists _, _; (split; [reflexivity|]); [apply Hn; intros ->; done|done]. }
  destruct (ptr_rd p' Hp') as (c2 & -> & _). cbn [mbind sres_bind]. case_match; [|done].
  apply (outcome_bind typed); [by apply scan_nonnum_outcome|done].
Qed.

Lemma casecmp_e c : in_u8 c -> casecmp c 101 = true -> c = 101 \/ c = 69.
Proof using.
  intros Hc H. pose proof (u8_exhaustive (fun c => implb (casecmp c 101) ((c =? 101) || (c =? 69))) ltac:(by vm_compute) c Hc) as E.
  cbv beta in E. rewrite H in E. cbn [implb] in E. apply orb_true_iff in E as [E|E]; apply Z.eqb_eq in E; auto.
Qed.

(** No character that begins a decimal exponent. *)
Definition no_exponent : Prop := Forall (fun c => c <> 101 /\ c <> 69) s.

Lemma scan_exp_outcome base p fmt ex :
  ptr p ->
  outcome (fun r => match r with (p', fmt', ex') =>
             ptr p' /\ (fmt' = fmt \/ fmt' = STRSCAN_NUM) /\ (no_exponent -> base <> 16 -> ex' = ex) end)
    (scan_exp s base p fmt ex).
Proof using bytes nul.
  intros Hp. unfold scan_exp. destruct (ptr_rd p Hp) as (c & Hrd & Hc & Hn). rewrite Hrd. cbn [mbind sres_bind].
  destruct ((10 <=? base) && casecmp c (if base =? 16 then 112 else 101)) eqn:E; [|cbn; auto].
  apply andb_true_iff in E as [_ E].
  assert (Hex : no_exponent -> base <> 16 -> False).
  { intros Hne Hb. rewrite (proj2 (Z.eqb_neq base 16) Hb) in E.
    assert (Hin : c ∈ s) by (destruct (ptr_at p Hp) as (w & a & E' & ->); 
      unfold rd in Hrd; destruct (zget s (zlen a)) eqn:Eg; [injection Hrd as ->|done];
      unfold zget in Eg; case_match; [done|by eapply list_elem_of_lookup_2]).
    unfold no_exponent in Hne. rewrite Forall_forall in Hne. destruct (casecmp_e c Hc E); destruct (Hne c); auto; done. }
  assert (Hp1 : ptr (p + 1)).
  { apply Hn. intros ->. by destruct (base =? 16). }
  destruct (ptr_rd _ Hp1) as (c1 & -> & _ & Hn1). cbn [mbind sres_bind].
  assert (exists neg p', (if (c1 =? 43) || (c1 =? 45) then (c1 =? 45, p + 1 + 1) else (false, p + 1)) = (neg, p') /\ ptr p')
    as (neg & p' & -> & Hp').
  { destruct ((c1 =? 43) || (c1 =? 45)) eqn:E1; eexists _, _; (split; [reflexivity|]); [apply Hn1; intros ->; done|done]. }
  destruct (ptr_rd p' Hp') as (c2 & -> & Hc2 & Hn2). cbn [mbind sres_bind].
  rewrite isa_known by (done || by left). cbn [mbind sres_bind].
  change (class_of Char.LJ_CHAR_DIGIT c2) with (digit c2). destruct (digit c2) eqn:E2; [|done]. cbn [negb].
  destruct (run digit (p' + 1) eq_refl) as (r & t & w & Hat & Hr & Ht & Hp2 & Hl).
  { apply Hn2. by intros ->. }
  rewrite (exp_digits_spec s bytes r _ _ _ t w); try done.
  - destruct (_ <? _); [|done]. cbn [mbind sres_bind outcome]. split_and!; [done|by right|].
    intros H1 H2. by destruct (Hex H1 H2).
  - apply digit_isdig in E2. rewrite land_15 by done. unfold isdig in E2. change STRSCAN_MAXEXP with 1048576. lia.
Qed.

(** A step over a character that is compared with one that is not space. *)
Lemma step_ptr p c k : k <> 32 -> (c <> 0 -> ptr (p + 1)) -> casecmp c k = true -> ptr (p + 1).
Proof using. intros Hk Hn E. apply Hn. intros ->. by rewrite casecmp_nul in E. Qed.

Lemma scan_intsuffix_outcome opt p :
  ptr p -> outcome (fun r => ptr (fst r) /\ STRSCAN_INT <= snd r <= STRSCAN_U64) (scan_intsuffix s opt p STRSCAN_INT).
Proof using bytes nul.
  intros Hp. unfold scan_intsuffix. destruct (ptr_rd p Hp) as (c & -> & _ & Hn). cbn [mbind sres_bind].
  assert (exists p1 f1, (if casecmp c 117 then (p + 1, STRSCAN_U32) else (p, STRSCAN_INT)) = (p1, f1) /\ ptr p1 /\
            (f1 = STRSCAN_INT \/ f1 = STRSCAN_U32)) as (p1 & f1 & -> & Hp1 & Hf1).
  { destruct (casecmp c 117) eqn:E; eexists _, _; (split; [reflexivity|]); [|auto]. split; [by apply (step_ptr p c 117)|auto]. }
  destruct (ptr_rd p1 Hp1) as (c1 & -> & _ & Hn1). cbn [mbind sres_bind].
  apply (outcome_bind (fun r => ptr (fst r) /\ STRSCAN_INT <= snd r <= STRSCAN_U64)).
  - destruct (casecmp c1 108) eqn:E1.
    + pose proof (step_ptr p1 c1 108 ltac:(done) Hn1 E1) as Hp2.
      destruct (ptr_rd _ Hp2) as (c2 & -> & _ & Hn2). cbn [mbind sres_bind].
      assert (STRSCAN_INT <= f1 + (STRSCAN_I64 - STRSCAN_INT) <= STRSCAN_U64) by (by destruct Hf1 as [->| ->]).
      destruct (casecmp c2 108) eqn:E2; [|by case_match]. split; [by apply (step_ptr (p1 + 1) c2 108)|done].
    + split; [done|]. by destruct Hf1 as [->| ->].
  - intros [p2 f2] [Hp2 Hf2]. cbn [fst snd] in *. destruct (ptr_rd p2 Hp2) as (c2 & -> & _ & Hn2). cbn [mbind sres_bind].
    destruct (casecmp c2 117) eqn:E2; cbn [andb]; [|by case_match].
    pose proof (step_ptr p2 c2 117 ltac:(done) Hn2 E2).
    destruct ((f2 =? STRSCAN_INT) || (f2 =? STRSCAN_I64)) eqn:Ef; [|by case_match].
    assert (STRSCAN_INT <= f2 + (STRSCAN_U32 - STRSCAN_INT) <= STRSCAN_U64); [|by case_match].
    apply orb_true_iff in Ef as [Ef|Ef]; apply Z.eqb_eq in Ef; by subst f2.
Qed.

Lemma scan_suffix_outcome opt p pe fmt :
  ptr p -> fmt = STRSCAN_INT \/ fmt = STRSCAN_NUM ->
  outcome (fun f => is_fmt f /\ (STRSCAN_INT <= f -> fmt = STRSCAN_INT)) (scan_suffix s opt p pe fmt).
Proof using bytes nul.
  intros Hp Hf. unfold scan_suffix. destruct (ptr_rd p Hp) as (c & -> & _ & Hn). cbn [mbind sres_bind].
  set (good := fun f => is_fmt f /\ (STRSCAN_INT <= f -> fmt = STRSCAN_INT)).
  assert (Hg : good fmt).
  { unfold good, is_fmt, STRSCAN_INT, STRSCAN_NUM, STRSCAN_U64 in *. lia. }
  apply (outcome_bind (fun r => good (snd r))).
  2:{ intros [p' f] Hg'. by case_match. }
  case_match; [|done]. apply (outcome_bind (fun r => ptr (fst r) /\ good (snd r))).
  - destruct (casecmp c 105) eqn:E.
    + case_match; [done|]. split; [apply Hn; by intros ->|]. by split.
    + destruct Hf as [->| ->]; [|by split].
      apply (outcome_impl _ _ _ (scan_intsuffix_outcome opt p Hp)). intros [p' f]. cbn [fst snd]. intros [H1 H2].
      split; [done|]. unfold good, is_fmt, STRSCAN_INT, STRSCAN_NUM, STRSCAN_U64 in *. lia.
  - intros [p' f] [Hp' Hg']. cbn [fst snd] in *. destruct (skip_space_ok p' Hp') as (p2 & -> & Hp2).
    cbn [mbind sres_bind]. destruct (ptr_rd p2 Hp2) as (c2 & -> & _). cbn [mbind sres_bind]. by case_match.
Qed.

(** What the scan leaves for the conversions: the digits, and a character
    behind them. *)
Definition lit_ok (l : Lit) : Prop :=
  is_fmt (l_fmt l) /\ ptr (l_sp l) /\
  exists ds q, digs s (l_sp l) ds q /\ (exists r, rd_digit s q = SOk r) /\ zlen ds = l_dig l /\
    l_sp l + zlen ds <= zlen s /\
    (l_base l <> 16 -> Forall isdig ds /\ (ds = [] \/ 49 <= hd 0 ds) /\
                       zlen ds <= zlen (filter (fun c => digit c = true) s) /\ (no_exponent -> l_ex l <= 0)).

Definition prefix_ok (r : Z * Z * Z * bool * option Z) : Prop :=
  match r with (base, cmask, sp, hasdig, dp) =>
    (base <> 16 /\ cmask = Char.LJ_CHAR_DIGIT \/ base = 16 /\ cmask = Char.LJ_CHAR_XDIGIT) /\ ptr sp /\
    exists start z c w, at_ s start (z ++ c :: w) /\ sp = start + zlen z /\ dp = find_dot start z /\ dots z <= 1 /\
      zero_or_point c = false
  end.

Lemma scan_prefix_outcome p opt : ptr p -> outcome prefix_ok (scan_prefix s p opt).
Proof using bytes nul.
  intros Hp. unfold scan_prefix. destruct (ptr_rd p Hp) as (c & Hrd & _ & Hn). rewrite Hrd. cbn [mbind sres_bind].
  set (base := if opt_has opt STRSCAN_OPT_C && (c =? 48) then 0 else 10).
  assert (Hb : base <> 16) by (unfold base; by case_match).
  destruct (Z.leb_spec c 48) as [H48|H48].
  - apply (outcome_bind (fun r => match r with (base, cmask, p) =>
      (base <> 16 /\ cmask = Char.LJ_CHAR_DIGIT \/ base = 16 /\ cmask = Char.LJ_CHAR_XDIGIT) /\ ptr p end)).
    + destruct (Z.eqb_spec c 48) as [->|]; [|cbn; auto].
      assert (Hp1 : ptr (p + 1)) by (by apply Hn). destruct (ptr_rd _ Hp1) as (c1 & -> & _ & Hn1). cbn [mbind sres_bind].
      replace (p + 2) with (p + 1 + 1) by lia.
      destruct (casecmp c1 120) eqn:E1; [|destruct (casecmp c1 98) eqn:E2]; cbn [outcome]; auto;
        (split; [auto|by eapply step_ptr; [..|done]; done]).
    + intros [[b cm] p1] [Hc Hp1].
      destruct (run zero_or_point p1 eq_refl Hp1) as (r & t & w & Hat & Hr & Ht & Hp2 & Hl).
      rewrite (scan_zeros_spec s r _ p1 false None t w Hat Hr Ht Hl). destruct (Z.ltb_spec 1 (seen None + dots r)); [done|].
      cbn [mbind sres_bind outcome prefix_ok or_else]. cbn [seen] in *.
      split_and!; [done|done|]. exists p1, r, t, w. by split_and!.
  - cbn [outcome prefix_ok]. split_and!; [auto|done|]. destruct (ptr_at p Hp) as (w & Hat).
    assert (exists w', w ++ [0] = c :: w') as (w' & E).
    { destruct w as [|c' w]; cbn [app] in *; rewrite (rd_at _ _ _ _ Hat) in Hrd; injection Hrd as Ec; [lia|rewrite Ec; eauto]. }
    rewrite E in Hat. exists p, [], c, w'. split_and!; try done; [by rewrite Z.add_0_r|].
    unfold zero_or_point, point. apply orb_false_iff. split; apply Z.eqb_neq; lia.
Qed.

(** *** Digits *)

Lemma at_inj p u v : at_ s p u -> at_ s p v -> u = v.
Proof using.
  intros (a & E & ->) (b & E' & H). rewrite E in E'. apply app_inj_1 in E' as [_ ?]; [done|].
  unfold zlen in H. lia.
Qed.

Lemma length_nodot r : zlen (nodot r) <= zlen r.
Proof using. unfold zlen, nodot. apply inj_le, length_filter. Qed.

Lemma nodot_count r : Forall (fun c => digit c || point c = true) r ->
  Forall isdig (nodot r) /\ zlen (nodot r) = zlen (filter (fun c => digit c = true) r).
Proof using.
  induction 1 as [|c r Hc _ [IH1 IH2]]; [done|]. rewrite nodot_cons, filter_cons. unfold point in Hc.
  destruct (Z.eqb_spec c 46) as [->|Hn].
  - rewrite decide_False by done. done.
  - rewrite orb_false_r in Hc. rewrite decide_True by done. rewrite !zlen_cons, IH2.
    split; [constructor; [by apply digit_isdig|done]|done].
Qed.

(** A part of the digits, and the character behind it. *)
Lemma digs_part p r t w l k :
  at_ s p (r ++ t :: w) -> dots r <= 1 -> point t = false -> nodot r = l ++ replicate k 48 ->
  exists q, digs s p l q /\ exists d, rd_digit s q = SOk d.
Proof using.
  intros Hat Hd Ht E. destruct (digs_nodot s r p (t :: w) Hat Hd) as (q & Hq & u & Hu & Hcase).
  rewrite E in Hq. apply digs_app in Hq as (q' & Hl & Hz). exists q'. split; [done|].
  destruct k as [|k].
  - cbn in Hz. subst q'. unfold point in Ht. apply Z.eqb_neq in Ht. destruct Hcase as [->| ->].
    + eexists. by eapply rd_digit_plain.
    + eexists. by eapply rd_digit_dot.
  - cbn [replicate digs] in Hz. destruct Hz as (p' & Hz & _). eauto.
Qed.

Lemma seen_dots q z : dots z <= 1 -> seen (find_dot q z) = dots z.
Proof using.
  revert q. induction z as [|c z IH]; intros q Hd; [done|]. rewrite dots_cons in *. cbn [find_dot].
  pose proof (dots_nonneg z). destruct (c =? 46); [cbn; lia|]. rewrite IH; lia.
Qed.

Lemma sig_first c w r t w' :
  c :: w = r ++ t :: w' -> zero_or_point c = false -> r = [] \/ hd 48 (nodot r) = c /\ c <> 48.
Proof using.
  intros E Hc. destruct r as [|c' r]; [by left|right]. injection E as <- _.
  unfold zero_or_point, point in Hc. apply orb_false_iff in Hc as [H48%Z.eqb_neq H46].
  by rewrite nodot_cons, H46.
Qed.

(** The digits [r] behind the zeros [z], as the conversions need them. *)
Lemma sig_digits_ok base start z r t w l k :
  at_ s start (z ++ r ++ t :: w) -> dots r <= 1 -> point t = false ->
  nodot r = l ++ replicate k 48 -> (r <> [] -> l <> []) ->
  (base <> 16 -> Forall (fun c => digit c || point c = true) r) -> r = [] \/ hd 48 (nodot r) <> 48 ->
  exists q, digs s (start + zlen z) l q /\ (exists d, rd_digit s q = SOk d) /\
    start + zlen z + zlen l <= zlen s /\
    (base <> 16 -> Forall isdig l /\ (l = [] \/ 49 <= hd 0 l) /\
                   zlen l <= zlen (filter (fun c => digit c = true) s)).
Proof using.
  intros Hat Hd Ht El Hne Hcl Hhd. pose proof (at_app _ _ _ _ Hat) as Hat'.
  destruct (digs_part _ r t w l k Hat' Hd Ht El) as (q & Hq & Hrd). exists q.
  assert (Hl : zlen l <= zlen (nodot r)) by (rewrite El, zlen_app; pose proof (zlen_nonneg (replicate k 48)); lia).
  split_and!; [done|done| |].
  - pose proof (at_end _ _ _ Hat') as He. rewrite zlen_app, zlen_cons in He. pose proof (length_nodot r).
    pose proof (zlen_nonneg w). lia.
  - intros Hb. destruct (nodot_count r (Hcl Hb)) as [Hdig Hcnt]. rewrite El in Hdig. apply Forall_app in Hdig as [Hdl _].
    split_and!; [done| |].
    + destruct l as [|c l]; [by left|right]. destruct Hhd as [->|Hhd]; [done|]. rewrite El in Hhd. cbn [app hd] in *.
      apply Forall_inv in Hdl. unfold isdig in Hdl. lia.
    + rewrite Hcnt in Hl. destruct Hat' as (a & E & _). rewrite E, !filter_app, !zlen_app.
      pose proof (zlen_nonneg (filter (fun c => digit c = true) a)).
      pose proof (zlen_nonneg (filter (fun c => digit c = true) (t :: w))). lia.
Qed.

Lemma scan_rest_outcome base start z r t w x pe opt :
  at_ s start (z ++ r ++ t :: w) -> dots z + dots r <= 1 -> point t = false -> zlen s < 2 ^ 31 ->
  (base <> 16 -> Forall (fun c => digit c || point c = true) r) -> r = [] \/ hd 48 (nodot r) <> 48 ->
  outcome lit_ok
    (r' ← scan_point s base (start + zlen z + zlen r) (zlen (nodot r)) (find_dot start (z ++ r));
     let '(fmt, ex, dig) := r' in
     r' ← scan_exp s base (start + zlen z + zlen r) fmt ex;
     let '(p, fmt, ex) := r' in
     fmt ← scan_suffix s opt p pe fmt; SOk (MkLit base (start + zlen z) dig x fmt ex)).
Proof using bytes nul.
  intros Hat Hd Ht Hlen Hcl Hhd. destruct (split_dot (z ++ r)) as (a & fr & Eb & Ha & Hf); [by rewrite dots_app|].
  pose proof (at_end _ _ _ Hat) as He. rewrite !zlen_app, zlen_cons in He.
  pose proof (zlen_nonneg w). pose proof (zlen_nonneg z). pose proof (zlen_nonneg r). pose proof (dots_nonneg z).
  assert (Hst : 0 <= start) by (destruct Hat as (u & _ & ->); apply zlen_nonneg).
  destruct (scan_point_spec s base start a fr z r (t :: w)) as (l & k & El & Hne & _ & Hex & Ep); try done.
  { by rewrite <- Eb, <- app_assoc. }
  { rewrite <- Eb, zlen_app. lia. }
  rewrite <- Eb, zlen_app, Z.add_assoc in Ep. rewrite Ep. clear Ep.
  apply (outcome_bind (fun r => match r with (fmt, ex, dig) =>
    dig = zlen l /\ (fmt = STRSCAN_INT \/ fmt = STRSCAN_NUM) /\ (base <> 16 -> ex <= 0) end)).
  { destruct fr; [|by split_and!; auto]. destruct (base =? 2); [done|]. cbv zeta in *.
    set (e := if decide (r = []) then _ else _) in *. destruct (e <=? _); [done|]. cbn [outcome].
    split_and!; auto. intros Hb. by rewrite (proj2 (Z.eqb_neq base 16) Hb). }
  intros [[fmt ex] dig] (-> & Hfmt & Hex0). cbv beta iota.
  apply (outcome_bind _ _ _ _ (scan_exp_outcome base (start + zlen z + zlen r) fmt ex ltac:(unfold ptr; lia))).
  intros [[p fmt1] ex1] (Hp & Hf1 & Hex1). cbv beta iota.
  assert (Hf1' : fmt1 = STRSCAN_INT \/ fmt1 = STRSCAN_NUM) by (destruct Hf1 as [->| ->]; auto).
  apply (outcome_bind _ _ _ _ (scan_suffix_outcome opt p pe fmt1 Hp Hf1')). intros fmt2 [Hf2 _].
  destruct (sig_digits_ok base start z r t w l k) as (q & Hq & Hrd & Hle & Hb); [done|lia|done..|].
  cbn [outcome]. unfold lit_ok. cbn [l_fmt l_sp l_dig l_base l_ex]. split_and!; [done|unfold ptr; lia|].
  exists l, q. split_and!; try done. intros Hb16. destruct (Hb Hb16) as (? & ? & ?). split_and!; try done.
  intros Hn. rewrite (Hex1 Hn Hb16). auto.
Qed.

Lemma scan_lit_outcome p pe opt : ptr p -> zlen s < 2 ^ 31 -> outcome lit_ok (scan_lit s p pe opt).
Proof using bytes nul.
  intros Hp Hlen. unfold scan_lit. apply (outcome_bind prefix_ok); [by apply scan_prefix_outcome|].
  intros [[[[base cmask] sp] hasdig] dp] (Hbc & Hsp & start & z & c & w & Hat & -> & -> & Hdz & Hc).
  assert (Hcm : cmask = Char.LJ_CHAR_DIGIT \/ cmask = Char.LJ_CHAR_XDIGIT) by tauto.
  destruct (run (fun c => class_of cmask c || point c) _ ltac:(by destruct Hcm as [->| ->]) Hsp)
    as (r & t & w' & Hr & Hcl & Ht & Hp' & Hrounds).
  assert (Hcw : c :: w = r ++ t :: w') by (eapply at_inj; [|done]; by apply at_app).
  rewrite (scan_digits_spec s bytes cmask r _ _ 0 0 _ t w' Hcm Hr Hcl Ht Hrounds).
  rewrite (seen_dots start z Hdz). destruct (Z.ltb_spec 1 (dots z + dots r)) as [|Hd1]; [done|].
  cbn [mbind sres_bind]. case_match; [done|]. rewrite <- find_dot_app.
  apply (scan_rest_outcome base start z r t w' _ pe opt); try done.
  - by rewrite <- Hcw.
  - by apply orb_false_iff in Ht as [_ Ht].
  - intros Hb. destruct Hbc as [[_ ->]|[-> _]]; done.
  - destruct (sig_first c w r t w' Hcw Hc) as [->|[-> ?]]; auto.
Qed.

(** ** The value *)

Lemma scan_value_outcome l neg opt :
  lit_ok l -> no_exponent \/ zlen (filter (fun c => digit c = true) s) <= 17 ->
  outcome typed (scan_value s l neg opt).
Proof using bytes nul.
  intros (Hf & Hsp & ds & q & Hq & Hrd & Hdig & Hle & Hb) Hsafe. unfold scan_value. rewrite <- Hdig.
  apply (outcome_bind (fun _ => True)).
  { repeat case_match; try done. destruct (ptr_rd _ Hsp) as (c & -> & _). done. }
  intros [|] _; [repeat case_match; cbn; auto|].
  destruct ((l_base l =? 0) && negb ((l_fmt l =? STRSCAN_NUM) || (l_fmt l =? STRSCAN_IMAG))) eqn:E0.
  { apply strscan_oct_outcome; [done|done|apply zlen_nonneg|].
    apply andb_true_iff in E0 as [_ E0]. apply negb_true_iff, orb_false_iff in E0 as [E1%Z.eqb_neq E2%Z.eqb_neq].
    unfold is_fmt, STRSCAN_NUM, STRSCAN_IMAG, STRSCAN_INT, STRSCAN_U64 in *. lia. }
  apply (outcome_bind typed).
  - destruct (Z.eqb_spec (l_base l) 16) as [|Hb16]; [by eapply strscan_hex_outcome|].
    destruct (Hb Hb16) as (Hd & Hhd & Hfew & Hex).
    case_match; [apply strscan_bin_outcome; try done; [apply Hsp|apply zlen_nonneg]|].
    eapply strscan_dec_outcome; try done. right. unfold dec_safe.
    destruct Hsafe as [Hn|Hn]; [specialize (Hex Hn); lia|lia].
  - intros [fmt [i|n|u]] Ht; try done. repeat case_match; cbn; auto.
Qed.
End scan.

(** C8: The number scanner is total on any text: on any bytes that end in NUL,
    under any options, it returns an error or a value whose field is the one
    its format names.  It reads nothing outside the text, no cell of its digit
    buffer that was not written, fails no assertion, and ends.  The text must
    have no decimal exponent or at most seventeen digits. *)
Theorem strscan_total w opt :
  Forall in_u8 w -> zlen w < 2 ^ 31 - 1 ->
  no_exponent w \/ zlen (filter (fun c => digit c = true) w) <= 17 ->
  outcome typed (lj_strscan_scan (w ++ [0]) opt).
Proof.
  intros Hw Hlen Hsafe. set (s := w ++ [0]).
  assert (Hs : zlen s = zlen w + 1) by (unfold s; rewrite zlen_app; done).
  assert (bytes : Forall in_u8 s) by (apply Forall_app; split; [done|by repeat constructor]).
  assert (nul : exists w, s = w ++ [0]) by (by exists w).
  unfold lj_strscan_scan. apply (outcome_bind _ _ _ _ (scan_sign_outcome s bytes nul _)).
  intros [[neg p]|v] Hp; [|done].
  apply (outcome_bind _ _ _ _ (scan_lit_outcome s bytes nul p _ opt Hp ltac:(lia))). intros l Hl.
  apply scan_value_outcome; try done. destruct Hsafe as [Hn|Hn]; [left|right].
  - apply Forall_app. split; [done|by repeat constructor].
  - unfold s. by rewrite filter_app, zlen_app, Z.add_0_r.
Qed.

(** The text "0x1P+4" keeps its digits below eighteen, "99.25" has no exponent. *)
Lemma strscan_total_witness :
  outcome typed (lj_strscan_scan ([48; 120; 49; 80; 43; 52] ++ [0]) STRSCAN_OPT_TONUM) /\
  outcome typed (lj_strscan_scan ([57; 57; 46; 50; 53] ++ [0]) STRSCAN_OPT_TOINT).
Proof.
  split; apply strscan_total; try (by repeat constructor); first [by vm_compute|by left; repeat constructor|by right; vm_compute].
Defined.
End StrscanSafe.
