(* ===== verification/LjStrscanSpec.v ===== *)
(** * LjStrscanSpec

    What the number scanner promises: a decimal literal is converted to the
    double nearest to the number it denotes. *)
From stdpp Require Import base tactics numbers list.
From Stdlib Require Import ZArith Lia.
From S2P Require Import Prelude LjStr LjFloat LjTab LjStrscan LjStrscanBuf LjStrscanDec LjStrscanText.
Open Scope Z_scope.

Module StrscanSpec.
Import Strscan StrscanBuf StrscanDec StrscanText.

(** ** Decimal literals *)

(** A decimal literal: space, a sign, digits with a point, an exponent, space. *)
Record Dlit := MkDlit {
  d_space : list Z; d_sign : list Z; d_int : list Z; d_frac : option (list Z);
  d_exp : option (Z * list Z * list Z); d_trail : list Z }.

Definition d_digits (d : Dlit) : list Z := d_int d ++ default [] (d_frac d).
Definition d_body (d : Dlit) : list Z :=
  d_int d ++ match d_frac d with Some f => 46 :: f | None => [] end.
Definition d_exptext (d : Dlit) : list Z :=
  match d_exp d with Some (e, sg, xs) => e :: sg ++ xs | None => [] end.
Definition d_rest (d : Dlit) : list Z := d_exptext d ++ d_trail d ++ [0].

(** The text as the scanner gets it, with its NUL. *)
Definition d_text (d : Dlit) : list Z := d_space d ++ d_sign d ++ d_body d ++ d_rest d.

Definition is_sign (sg : list Z) : Prop := sg = [] \/ sg = [43] \/ sg = [45].
Definition minus (sg : list Z) : bool := match sg with [45] => true | _ => false end.

(** The exponent that is written, and that of the digits' last place. *)
Definition d_expval (d : Dlit) : Z :=
  match d_exp d with Some (_, sg, xs) => if minus sg then - dec xs else dec xs | None => 0 end.
Definition d_exponent (d : Dlit) : Z := d_expval d - zlen (default [] (d_frac d)).

Record d_wf (d : Dlit) : Prop := {
  wf_space : Forall (fun c => space c = true) (d_space d);
  wf_sign : is_sign (d_sign d);
  wf_digits : Forall isdig (d_digits d);
  wf_some : d_digits d <> [];
  wf_len : zlen (d_digits d) < STRSCAN_MAXEXP;
  wf_exp : match d_exp d with
           | Some (e, sg, xs) => (e = 101 \/ e = 69) /\ is_sign sg /\ Forall isdig xs /\ xs <> [] /\
                                 dec xs < STRSCAN_MAXEXP
           | None => True
           end;
  wf_trail : Forall (fun c => space c = true) (d_trail d) }.

(** [b] is the double nearest to [D * 10^E]. *)
Definition is_rn_ten (D E b : Z) : Prop := Flt.is_rn (D * Flt.pw 10 E) (Flt.pw 10 (- E)) b.

(** ** The scan of a literal *)

Lemma isdig_byte c : isdig c -> in_u8 c.
Proof. unfold isdig, in_u8. lia. Qed.
Lemma space_byte c : space c = true -> in_u8 c /\ (c = 32 \/ 9 <= c <= 13).
Proof.
  unfold space, in_u8. rewrite orb_true_iff, andb_true_iff, Z.eqb_eq, !Z.leb_le. lia.
Qed.
Lemma sign_bytes sg : is_sign sg -> Forall in_u8 sg.
Proof. intros [->|[->| ->]]; repeat constructor; done. Qed.

Lemma d_frac_digits d : d_wf d ->
  Forall isdig (d_int d) /\ Forall isdig (default [] (d_frac d)).
Proof. intros H. apply Forall_app. apply (wf_digits d H). Qed.

Lemma d_body_bytes d : d_wf d -> Forall in_u8 (d_body d).
Proof.
  intros H. destruct (d_frac_digits d H) as [Hi Hf]. unfold d_body. apply Forall_app. split.
  - eapply Forall_impl; [done|]. apply isdig_byte.
  - destruct (d_frac d); [|done]. constructor; [done|]. eapply Forall_impl; [done|]. apply isdig_byte.
Qed.

Lemma d_text_bytes d : d_wf d -> Forall in_u8 (d_text d).
Proof.
  intros H. unfold d_text, d_rest. rewrite !Forall_app. split_and!.
  - eapply Forall_impl; [apply (wf_space d H)|]. intros c Hc. by apply space_byte.
  - apply sign_bytes, (wf_sign d H).
  - by apply d_body_bytes.
  - unfold d_exptext. pose proof (wf_exp d H) as He. destruct (d_exp d) as [[[e sg] xs]|]; [|done].
    destruct He as (Hc & Hs & Hx & _). constructor; [destruct Hc as [->| ->]; done|].
    apply Forall_app. split; [by apply sign_bytes|]. eapply Forall_impl; [done|]. apply isdig_byte.
  - eapply Forall_impl; [apply (wf_trail d H)|]. intros c Hc. by apply space_byte.
  - by repeat constructor.
Qed.

(** The character behind the digits: an exponent, space or NUL. *)
Lemma d_rest_head d : d_wf d ->
  exists t w, d_rest d = t :: w /\
    ((t = 101 \/ t = 69) /\ d_exp d <> None \/ d_exp d = None /\ (t = 0 /\ d_trail d = [] \/ space t = true)).
Proof.
  intros H. unfold d_rest, d_exptext. pose proof (wf_exp d H) as He. pose proof (wf_trail d H) as Ht.
  destruct (d_exp d) as [[[e sg] xs]|].
  - eexists e, _. split; [reflexivity|]. left. split; [apply He|done].
  - destruct (d_trail d) as [|c tr]; [exists 0, []|exists c, (tr ++ [0])]; (split; [done|right; split; [done|]]).
    + by left.
    + right. by apply Forall_inv in Ht.
Qed.

Lemma d_rest_nodigit d t w : d_wf d -> d_rest d = t :: w -> digit t = false /\ (t =? 46) = false /\
  casecmp t 120 = false /\ casecmp t 98 = false /\ casecmp t 105 = false /\ casecmp t 117 = false /\ casecmp t 108 = false.
Proof.
  intros H E. destruct (d_rest_head d H) as (t' & w' & E' & Hc). rewrite E in E'. injection E' as <- <-.
  assert (Hcase : t = 101 \/ t = 69 \/ t = 0 \/ t = 32 \/ 9 <= t <= 13).
  { destruct Hc as [[[-> | ->] _]|[_ [[-> _]|Hs]]]; try lia. apply space_byte in Hs. lia. }
  assert (Hall : t = 101 \/ t = 69 \/ t = 0 \/ t = 32 \/ t = 9 \/ t = 10 \/ t = 11 \/ t = 12 \/ t = 13) by lia.
  repeat destruct Hall as [->|Hall]; try done. by subst t.
Qed.

(** *** Digits before and behind the leading zeros *)

Lemma nodot_digits l : Forall isdig l -> nodot l = l.
Proof.
  induction 1 as [|c l Hc _ IH]; [done|]. rewrite nodot_cons, IH. unfold isdig in Hc.
  by destruct (Z.eqb_spec c 46); [lia|].
Qed.
Lemma dots_digits l : Forall isdig l -> dots l = 0.
Proof.
  induction 1 as [|c l Hc _ IH]; [done|]. rewrite dots_cons, IH. unfold isdig in Hc.
  by destruct (Z.eqb_spec c 46); [lia|].
Qed.
Lemma find_dot_digits p l : Forall isdig l -> find_dot p l = None.
Proof.
  intros H. revert p. induction H as [|c l Hc _ IH]; intros p; [done|]. cbn [find_dot]. unfold isdig in Hc.
  by destruct (Z.eqb_spec c 46); [lia|].
Qed.

Lemma d_body_nodot d : d_wf d -> nodot (d_body d) = d_digits d.
Proof.
  intros H. destruct (d_frac_digits d H) as [Hi Hf]. unfold d_body, d_digits.
  rewrite nodot_app, (nodot_digits _ Hi). f_equal. destruct (d_frac d) as [f|]; [|done].
  rewrite nodot_cons. by apply nodot_digits.
Qed.
Lemma d_body_dots d : d_wf d -> dots (d_body d) <= 1.
Proof.
  intros H. destruct (d_frac_digits d H) as [Hi Hf]. unfold d_body.
  rewrite dots_app, (dots_digits _ Hi). destruct (d_frac d) as [f|]; [|done].
  rewrite dots_cons. cbn [default] in Hf. by rewrite (dots_digits f Hf).
Qed.
Lemma d_body_find d p : d_wf d ->
  find_dot p (d_body d) = match d_frac d with Some _ => Some (p + zlen (d_int d)) | None => None end.
Proof.
  intros H. destruct (d_frac_digits d H) as [Hi Hf]. unfold d_body.
  rewrite find_dot_app, (find_dot_digits _ _ Hi). by destruct (d_frac d).
Qed.
Lemma d_body_class d : d_wf d -> Forall (fun c => digit c || point c = true) (d_body d).
Proof.
  intros H. destruct (d_frac_digits d H) as [Hi Hf]. unfold d_body. apply Forall_app. split.
  - eapply Forall_impl; [done|]. intros c Hc. apply orb_true_iff. left. by apply digit_isdig.
  - destruct (d_frac d) as [f|]; [|done]. constructor; [done|].
    eapply Forall_impl; [done|]. intros c Hc. apply orb_true_iff. left. by apply digit_isdig.
Qed.

Lemma dec_zeros z l : Forall (fun c => zero_or_point c = true) z -> dec (nodot z ++ l) = dec l.
Proof.
  intros H. rewrite dec_app. replace (dec (nodot z)) with 0; [lia|].
  induction H as [|c z Hc _ IH]; [done|]. rewrite nodot_cons. destruct (Z.eqb_spec c 46) as [->|Hn]; [done|].
  unfold zero_or_point, point in Hc. apply orb_true_iff in Hc as [Hc%Z.eqb_eq|Hc%Z.eqb_eq]; [|done].
  rewrite dec_cons, <- IH, Hc. lia.
Qed.

Section literal.
Variable d : Dlit.
Hypothesis Hwf : d_wf d.
Abbreviation s := (d_text d).

Definition d_start : Z := zlen (d_space d ++ d_sign d).

Lemma at_body : at_ s d_start (d_body d ++ d_rest d).
Proof using. exists (d_space d ++ d_sign d). split; [unfold d_text; by rewrite <- app_assoc|done]. Qed.

Lemma at_rest : at_ s (d_start + zlen (d_body d)) (d_rest d).
Proof using. exact (at_app _ _ _ _ at_body). Qed.

(** The first significant digit. *)
Lemma sig_head z r :
  d_body d = z ++ r -> (forall c r', r = c :: r' -> zero_or_point c = false) ->
  Forall isdig (nodot r) /\ (r = [] \/ 49 <= hd 0 (nodot r)).
Proof using Hwf.
  intros Hb Hr. pose proof (d_body_nodot d Hwf) as Hn. rewrite Hb, nodot_app in Hn.
  pose proof (wf_digits d Hwf) as Hd. rewrite <- Hn in Hd. apply Forall_app in Hd as [_ Hd].
  split; [done|]. destruct r as [|c r]; [by left|right]. specialize (Hr c r eq_refl).
  unfold zero_or_point, point in Hr. apply orb_false_iff in Hr as [H48%Z.eqb_neq H46].
  rewrite nodot_cons, H46 in *. apply Forall_inv in Hd. unfold isdig in Hd. cbn [hd]. lia.
Qed.

(** The significant digits, and the exponent of their last place as far as
    the point determines it. *)
Lemma scan_point_literal z r :
  d_body d = z ++ r -> Forall (fun c => zero_or_point c = true) z ->
  (forall c r', r = c :: r' -> zero_or_point c = false) ->
  exists l k,
    nodot r = l ++ replicate k 48 /\ (r <> [] -> l <> []) /\
    scan_point s 10 (d_start + zlen (d_body d)) (zlen (nodot r)) (find_dot d_start (d_body d)) =
      SOk (match d_frac d with Some _ => STRSCAN_NUM | None => STRSCAN_INT end,
           if decide (r = []) then 0 else Z.of_nat k - zlen (default [] (d_frac d)), zlen l) /\
    Z.of_nat k <= zlen (default [] (d_frac d)).
Proof using Hwf.
  intros Hbody Hz Hr. destruct (d_frac_digits d Hwf) as [Hi Hf]. destruct (sig_head z r Hbody Hr) as [_ Hhd].
  pose proof (wf_len d Hwf) as Hlen. unfold d_digits in Hlen. rewrite zlen_app in Hlen.
  change STRSCAN_MAXEXP with 1048576 in *. pose proof (zlen_nonneg (d_int d)).
  destruct (scan_point_spec s 10 d_start (d_int d) (d_frac d) z r (d_rest d)) as (l & k & El & Hl & Hk & Hp & E).
  - apply at_body.
  - done.
  - by apply nodot_digits.
  - by apply nodot_digits.
  - destruct Hhd as [?|Hhd]; [by left|right]. destruct (nodot r); cbn in *; lia.
  - unfold body_of. rewrite zlen_app. change (2 ^ 31) with 2147483648.
    destruct (d_frac d); cbn [default] in *; unfold id in *; [rewrite zlen_cons|]; lia.
  - exists l, k. split_and!; try done. change (body_of (d_int d) (d_frac d)) with (d_body d) in E. rewrite E.
    destruct (d_frac d) as [f|]; cbn [default] in *.
    + change (10 =? 2) with false. change (10 =? 16) with false. cbv iota. change (- STRSCAN_MAXEXP) with (-1048576).
      destruct (decide (r = [])); [done|]. unfold id in *.
      destruct (Z.leb_spec (Z.of_nat k - zlen f) (-1048576)); [lia|done].
    + destruct (decide (r = [])); [done|]. change (zlen []) with 0 in *. by replace (Z.of_nat k - 0) with 0 by lia.
Qed.

(** The exponent. *)
Definition d_fmt (fmt : Z) : Z := match d_exp d with Some _ => STRSCAN_NUM | None => fmt end.

Lemma at_trail : at_ s (d_start + zlen (d_body d) + zlen (d_exptext d)) (d_trail d ++ [0]).
Proof using. exact (at_app _ _ _ _ at_rest). Qed.

Lemma trail_head : exists t w, d_trail d ++ [0] = t :: w /\ digit t = false.
Proof using Hwf.
  pose proof (wf_trail d Hwf) as Ht. destruct (d_trail d) as [|c tr]; [by exists 0, []|].
  exists c, (tr ++ [0]). split; [done|]. apply Forall_inv in Ht. apply space_byte in Ht.
  unfold digit. destruct (Z.leb_spec 48 c); [lia|done].
Qed.

Lemma not_int32 xx : 0 <= xx <= 2 ^ 31 -> i32 (u32 (not32 xx + 1)) = - xx.
Proof using.
  intros H. unfold not32. replace (Z.lnot xx) with (- xx - 1) by (unfold Z.lnot; lia). width_lia.
Qed.

Lemma scan_exp_literal fmt ex :
  -1048576 < ex <= 0 ->
  scan_exp s 10 (d_start + zlen (d_body d)) fmt ex =
    SOk (d_start + zlen (d_body d) + zlen (d_exptext d), d_fmt fmt, ex + d_expval d).
Proof using Hwf.
  intros Hex. pose proof (d_text_bytes d Hwf) as Hbytes. pose proof at_rest as Hat.
  pose proof at_trail as Hatt. destruct trail_head as (t & w & Et & Htd). rewrite Et in Hatt.
  unfold scan_exp, d_fmt, d_expval. unfold d_rest in Hat. rewrite Et in Hat. unfold d_exptext in *.
  pose proof (wf_exp d Hwf) as He. destruct (d_exp d) as [[[e sg] xs]|] eqn:Ee.
  - destruct He as (Hc & Hs & Hx & Hne & Hm). cbn [app] in Hat.
    rewrite (rd_at _ _ _ _ Hat). cbn [mbind sres_bind].
    replace ((10 <=? 10) && casecmp e (if 10 =? 16 then 112 else 101)) with true
      by (destruct Hc as [->| ->]; done).
    apply at_cons in Hat as Hat1. destruct xs as [|x xs]; [done|].
    apply Forall_cons in Hx as [Hxd Hx].
    assert (Hsign : exists q, (c ← rd s (d_start + zlen (d_body d) + 1);
        SOk (if (c =? 43) || (c =? 45) then (c =? 45, d_start + zlen (d_body d) + 1 + 1)
             else (false, d_start + zlen (d_body d) + 1))) = SOk (minus sg, q) /\
        at_ s q (x :: xs ++ t :: w) /\ q = d_start + zlen (d_body d) + 1 + zlen sg).
    { destruct Hs as [->|[->| ->]]; cbn [app] in Hat1; rewrite (rd_at _ _ _ _ Hat1); cbn [mbind sres_bind].
      - unfold isdig in Hxd. destruct (Z.eqb_spec x 43); [lia|]. destruct (Z.eqb_spec x 45); [lia|]. cbn [orb].
        eexists. split_and!; [done|done|]. change (zlen []) with 0. lia.
      - eexists. split_and!; [done|by apply at_cons in Hat1|done].
      - eexists. split_and!; [done|by apply at_cons in Hat1|done]. }
    destruct Hsign as (q & Hsg & Hatq & Hq). revert Hsg.
    destruct (rd s (d_start + zlen (d_body d) + 1)) as [c1| | | |]; try done. cbn [mbind sres_bind].
    intros [= Hsg]. rewrite Hsg. rewrite (rd_at _ _ _ _ Hatq). cbn [mbind sres_bind].
    rewrite isa_known; [|by left|by apply isdig_byte]. cbn [mbind sres_bind].
    change (class_of Char.LJ_CHAR_DIGIT x) with (digit x).
    assert (Hdx : digit x = true) by (by apply digit_isdig). rewrite Hdx. cbn [negb].
    rewrite land_15 by done. apply at_cons in Hatq as Hatx.
    assert (Hxs : Forall (fun c => digit c = true) xs)
      by (eapply Forall_impl; [done|]; intros; by apply digit_isdig).
    rewrite dec_cons in Hm. pose proof (dec_bound xs Hx) as Hb. unfold isdig in Hxd.
    change STRSCAN_MAXEXP with 1048576 in *.
    rewrite (exp_digits_spec _ Hbytes xs _ _ _ t w Hatx Hxs Htd);
      [|unfold rounds; pose proof (at_len_nat _ _ _ Hatx) as Hal; rewrite length_app in Hal; cbn in Hal; lia
       |change STRSCAN_MAXEXP with 1048576; lia].
    change STRSCAN_MAXEXP with 1048576.
    destruct (Z.ltb_spec ((x - 48) * 10 ^ zlen xs + dec xs) 1048576); [|lia].
    cbn [mbind sres_bind]. rewrite <- dec_cons.
    assert (0 <= dec (x :: xs) < 1048576).
    { rewrite dec_cons. pose proof (pow10_pos (zlen xs) (zlen_nonneg xs)). nia. }
    assert (Hend : q + 1 + zlen xs = d_start + zlen (d_body d) + zlen (e :: sg ++ x :: xs)).
    { rewrite zlen_cons, zlen_app, zlen_cons. lia. }
    rewrite Hend. do 2 f_equal. destruct (minus sg).
    + rewrite not_int32 by lia. apply i32_small. unfold in_i32. lia.
    + rewrite (i32_small (dec (x :: xs))) by (unfold in_i32; lia). apply i32_small. unfold in_i32. lia.
  - cbn [app] in Hat. rewrite (rd_at _ _ _ _ Hat). cbn [mbind sres_bind].
    destruct (d_rest_head d Hwf) as (t' & w' & Er & Hc). unfold d_rest, d_exptext in Er. rewrite Ee, Et in Er.
    injection Er as <- <-. destruct Hc as [[_ Hc]|[_ Hc]]; [by rewrite Ee in Hc|].
    replace (casecmp t (if 10 =? 16 then 112 else 101)) with false.
    { rewrite andb_false_r. change (zlen []) with 0. by rewrite !Z.add_0_r. }
    symmetry. change (10 =? 16) with false. cbv iota.
    destruct Hc as [[-> _]|Hsp]; [done|]. apply space_byte in Hsp as [_ Hsp].
    assert (Hall : t = 32 \/ t = 9 \/ t = 10 \/ t = 11 \/ t = 12 \/ t = 13) by lia.
    repeat destruct Hall as [->|Hall]; try done. by subst t.
Qed.

(** The end of the text. *)
Lemma d_text_len : zlen s = d_start + zlen (d_body d) + zlen (d_exptext d) + zlen (d_trail d) + 1.
Proof using.
  unfold d_text, d_rest, d_start. rewrite !zlen_app. change (zlen [0]) with 1. lia.
Qed.

Lemma space_nosuffix c : space c = true ->
  (c =? 0) = false /\ casecmp c 105 = false /\ casecmp c 117 = false /\ casecmp c 108 = false.
Proof using.
  intros [_ Hs]%space_byte.
  assert (Hall : c = 32 \/ c = 9 \/ c = 10 \/ c = 11 \/ c = 12 \/ c = 13) by lia.
  repeat destruct Hall as [->|Hall]; try done. by subst c.
Qed.

Lemma scan_suffix_literal opt fmt :
  fmt = STRSCAN_INT \/ fmt = STRSCAN_NUM ->
  scan_suffix s opt (d_start + zlen (d_body d) + zlen (d_exptext d)) (zlen s - 1) fmt = SOk fmt.
Proof using Hwf.
  intros Hfmt. pose proof (d_text_bytes d Hwf) as Hbytes. pose proof at_trail as Hat.
  pose proof (wf_trail d Hwf) as Ht. pose proof d_text_len as Hlen.
  set (p := d_start + zlen (d_body d) + zlen (d_exptext d)) in *. unfold scan_suffix.
  assert (Hskip : skip_space s (rounds s) p = SOk (p + zlen (d_trail d))).
  { apply (skip_space_spec _ Hbytes (d_trail d) _ p 0 []); [done..|].
    unfold rounds. pose proof (at_len_nat _ _ _ Hat) as Hal. rewrite length_app in Hal. lia. }
  apply at_app in Hat as Hat0. destruct (d_trail d) as [|c tr] eqn:Etr.
  - cbn [app] in Hat. rewrite (rd_at _ _ _ _ Hat). change (zlen []) with 0 in *. cbn [mbind sres_bind].
    change (negb (0 =? 0)) with false. cbv iota. cbn [mbind sres_bind].
    destruct (Z.ltb_spec p (zlen s - 1)); [lia|done].
  - cbn [app] in Hat. rewrite (rd_at _ _ _ _ Hat). cbn [mbind sres_bind].
    apply Forall_inv in Ht as Hc. destruct (space_nosuffix c Hc) as (H0 & Hi & Hu & Hl).
    rewrite H0, Hi. cbn [negb].
    assert (Hsfx : (if fmt =? STRSCAN_INT then scan_intsuffix s opt p fmt else SOk (p, fmt)) = SOk (p, fmt)).
    { destruct Hfmt as [->| ->]; [|done]. change (STRSCAN_INT =? STRSCAN_INT) with true. cbv iota.
      unfold scan_intsuffix. rewrite (rd_at _ _ _ _ Hat). cbn [mbind sres_bind]. rewrite Hu.
      rewrite (rd_at _ _ _ _ Hat). cbn [mbind sres_bind]. rewrite Hl. cbn [mbind sres_bind].
      rewrite (rd_at _ _ _ _ Hat). cbn [mbind sres_bind]. rewrite Hu. done. }
    rewrite Hsfx. cbn [mbind sres_bind]. rewrite Hskip. cbn [mbind sres_bind].
    rewrite (rd_at _ _ _ _ Hat0). cbn [mbind sres_bind]. change (negb (0 =? 0)) with false. cbv iota.
    cbn [mbind sres_bind]. destruct (Z.ltb_spec (p + zlen (c :: tr)) (zlen s - 1)); [lia|done].
Qed.

(** *** The literal *)

Definition sig_of (z r : list Z) : Prop :=
  d_body d = z ++ r /\ Forall (fun c => zero_or_point c = true) z /\
  (forall c r', r = c :: r' -> zero_or_point c = false).

Lemma body_head : exists c w, d_body d ++ d_rest d = c :: w /\ (isdig c \/ c = 46) /\
  (c = 48 -> exists c1 w', w = c1 :: w' /\ casecmp c1 120 = false /\ casecmp c1 98 = false).
Proof using Hwf.
  pose proof (d_body_class d Hwf) as Hcl. pose proof (d_body_nodot d Hwf) as Hnd.
  destruct (d_body d) as [|c b] eqn:Eb; [by destruct (wf_some d Hwf)|].
  exists c, (b ++ d_rest d). apply Forall_cons in Hcl as [Hc Hb]. split_and!; [done| |].
  - apply orb_true_iff in Hc as [Hc|Hc]; [left; by apply digit_isdig|right; by apply Z.eqb_eq].
  - intros _. destruct b as [|c1 b].
    + destruct (d_rest_head d Hwf) as (t & w & Er & _).
      destruct (d_rest_nodigit d t w Hwf Er) as (_ & _ & Hx & Hbb & _). rewrite Er. eauto.
    + apply Forall_inv in Hb. exists c1, (b ++ d_rest d). split; [done|].
      assert (Hcase : 48 <= c1 <= 57 \/ c1 = 46).
      { apply orb_true_iff in Hb as [Hb|Hb]; [apply digit_isdig in Hb; unfold isdig in Hb; lia|right; by apply Z.eqb_eq]. }
      assert (Hall : c1 = 46 \/ c1 = 48 \/ c1 = 49 \/ c1 = 50 \/ c1 = 51 \/ c1 = 52 \/ c1 = 53 \/ c1 = 54 \/
                     c1 = 55 \/ c1 = 56 \/ c1 = 57) by lia.
      repeat destruct Hall as [->|Hall]; try done. by subst c1.
Qed.

Lemma after_zeros z r : sig_of z r ->
  exists t w, r ++ d_rest d = t :: w /\ zero_or_point t = false.
Proof using Hwf.
  intros (_ & _ & Hr). destruct (d_rest_head d Hwf) as (t & tw & Er & _).
  destruct (d_rest_nodigit d t tw Hwf Er) as (Htd & Ht46 & _).
  destruct r as [|c1 r1]; [exists t, tw|exists c1, (r1 ++ d_rest d)].
  - split; [done|]. unfold zero_or_point, point. rewrite Ht46, orb_false_r. unfold digit in Htd.
    destruct (Z.eqb_spec t 48) as [->|]; done.
  - split; [done|]. by apply (Hr c1 r1).
Qed.

Lemma sig_dots z r : sig_of z r -> dots z + dots r <= 1 /\ 0 <= dots z /\ 0 <= dots r.
Proof using Hwf.
  intros (Hb & _). rewrite <- dots_app, <- Hb. pose proof (d_body_dots d Hwf).
  pose proof (dots_nonneg z). pose proof (dots_nonneg r). lia.
Qed.

Lemma scan_prefix_literal opt z r :
  opt_has opt STRSCAN_OPT_C = false -> sig_of z r ->
  scan_prefix s d_start opt =
    SOk (10, Char.LJ_CHAR_DIGIT, d_start + zlen z, negb (forallb point z), find_dot d_start z).
Proof using Hwf.
  intros HC Hsig. pose proof at_body as Hat. destruct (sig_dots z r Hsig) as (Hdots & Hdz & Hdr).
  destruct (after_zeros z r Hsig) as (t1 & w1 & Efol & Ht1). destruct Hsig as (Hb & Hz & Hr).
  destruct body_head as (c & w & Ecw & Hc & Hc48). pose proof Hat as Hat0. rewrite Ecw in Hat0.
  unfold scan_prefix. rewrite (rd_at _ _ _ _ Hat0). cbn [mbind sres_bind]. rewrite HC. cbn [andb].
  rewrite Hb, <- app_assoc, Efol in Hat.
  destruct (Z.leb_spec c 48) as [Hc0|Hc0].
  - assert (Hz0 : scan_zeros s (rounds s) d_start false None =
                  SOk (d_start + zlen z, negb (forallb point z), find_dot d_start z)).
    { rewrite (scan_zeros_spec _ z _ _ _ _ t1 w1 Hat); [|done|done|].
      - destruct (Z.ltb_spec 1 (seen None + dots z)) as [Hbad|_]; [cbn in Hbad; lia|done].
      - unfold rounds. pose proof (at_len_nat _ _ _ Hat) as Hal. rewrite length_app in Hal. lia. }
    destruct (Z.eqb_spec c 48) as [->|Hne48].
    + destruct (Hc48 eq_refl) as (c1 & w' & -> & Hx & Hbb). apply at_cons in Hat0.
      rewrite (rd_at _ _ _ _ Hat0). cbn [mbind sres_bind]. rewrite Hx, Hbb. by rewrite Hz0.
    + cbn [mbind sres_bind]. by rewrite Hz0.
  - assert (z = []) as ->.
    { destruct z as [|c0 z]; [done|]. rewrite Hb in Ecw. cbn [app] in Ecw. injection Ecw as -> _.
      apply Forall_inv in Hz. unfold zero_or_point, point in Hz. apply orb_true_iff in Hz.
      rewrite !Z.eqb_eq in Hz. lia. }
    change (zlen []) with 0. by rewrite Z.add_0_r.
Qed.

Lemma find_dot_dots q z : seen (find_dot q z) <= dots z.
Proof using.
  revert q. induction z as [|c z IH]; intros q; [done|]. rewrite dots_cons. cbn [find_dot].
  pose proof (dots_nonneg z). destruct (c =? 46); [cbn; lia|]. specialize (IH (q + 1)). lia.
Qed.

Lemma scan_digits_literal z r :
  sig_of z r ->
  scan_digits s (rounds s) Char.LJ_CHAR_DIGIT (d_start + zlen z) 0 0 (find_dot d_start z) =
    SOk (d_start + zlen (d_body d), prescan 0 (nodot r), zlen (nodot r), find_dot d_start (d_body d)).
Proof using Hwf.
  intros Hsig. destruct (sig_dots z r Hsig) as (Hdots & Hdz & Hdr). destruct Hsig as (Hb & Hz & Hr).
  destruct (d_rest_head d Hwf) as (t & tw & Er & _). destruct (d_rest_nodigit d t tw Hwf Er) as (Htd & Ht46 & _).
  pose proof at_body as Hat. rewrite Hb, <- app_assoc in Hat. apply at_app in Hat as Hatr. rewrite Er in Hatr.
  rewrite (scan_digits_spec _ (d_text_bytes d Hwf) _ r _ _ _ _ _ t tw); [| by left|done| | |].
  - pose proof (find_dot_dots d_start z). destruct (Z.ltb_spec 1 (seen (find_dot d_start z) + dots r)); [lia|].
    rewrite Z.add_0_l, <- find_dot_app, <- Hb.
    by replace (d_start + zlen z + zlen r) with (d_start + zlen (d_body d)) by (rewrite Hb, zlen_app; lia).
  - change (class_of Char.LJ_CHAR_DIGIT) with digit. pose proof (d_body_class d Hwf) as Hcl. rewrite Hb in Hcl.
    by apply Forall_app in Hcl as [_ Hcl].
  - change (class_of Char.LJ_CHAR_DIGIT) with digit. unfold point. by rewrite Htd, Ht46.
  - unfold rounds. pose proof (at_len_nat _ _ _ Hatr) as Hal. rewrite length_app in Hal. lia.
Qed.

(** There is a digit, a leading zero or another. *)
Lemma some_digit z r : sig_of z r -> negb (negb (forallb point z)) && (zlen (nodot r) =? 0) = false.
Proof using Hwf.
  intros (Hb & Hz & Hr). destruct (sig_head z r Hb Hr) as [_ Hhd]. apply andb_false_iff.
  destruct Hhd as [->|Hhd].
  - left. rewrite negb_involutive. apply not_true_is_false. intros Hall.
    pose proof (d_body_nodot d Hwf) as Hnd. rewrite Hb, app_nil_r in Hnd.
    apply (wf_some d Hwf). rewrite <- Hnd. clear -Hall. induction z as [|c0 z IH]; [done|].
    cbn [forallb] in Hall. apply andb_true_iff in Hall as [H1 H2]. rewrite nodot_cons.
    unfold point in H1. rewrite H1. by apply IH.
  - right. apply Z.eqb_neq. destruct (nodot r) as [|c0 l0]; [cbn in Hhd; lia|].
    rewrite zlen_cons. pose proof (zlen_nonneg l0). lia.
Qed.

(** The scan finds the significant digits [l] of the literal, the format and
    the exponent. *)
Lemma scan_lit_literal opt :
  opt_has opt STRSCAN_OPT_C = false ->
  exists z r l k,
    sig_of z r /\ nodot r = l ++ replicate k 48 /\ (r <> [] -> l <> []) /\
    Z.of_nat k <= zlen (default [] (d_frac d)) /\
    scan_lit s d_start (zlen s - 1) opt =
      SOk (MkLit 10 (d_start + zlen z) (zlen l) (prescan 0 (nodot r))
             (d_fmt (match d_frac d with Some _ => STRSCAN_NUM | None => STRSCAN_INT end))
             ((if decide (r = []) then 0 else Z.of_nat k - zlen (default [] (d_frac d))) + d_expval d)).
Proof using Hwf.
  intros HC. destruct (split_zeros (d_body d)) as (z & r & Hb & Hz & Hr).
  assert (Hsig : sig_of z r) by done.
  destruct (scan_point_literal z r Hb Hz Hr) as (l & k & Hl & Hne & Hpt & Hk).
  exists z, r, l, k. split_and!; try done. unfold scan_lit.
  rewrite (scan_prefix_literal opt z r) by done. cbn [mbind sres_bind].
  rewrite (scan_digits_literal z r) by done. cbn [mbind sres_bind].
  rewrite some_digit by done. rewrite Hpt. cbn [mbind sres_bind].
  pose proof (wf_len d Hwf) as Hlen. change STRSCAN_MAXEXP with 1048576 in Hlen. unfold d_digits in Hlen.
  rewrite zlen_app in Hlen. pose proof (zlen_nonneg (d_int d)).
  rewrite scan_exp_literal by (destruct (decide (r = [])); lia). cbn [mbind sres_bind].
  rewrite scan_suffix_literal; [done|]. unfold d_fmt. destruct (d_exp d); [by right|].
  destruct (d_frac d); [by right|by left].
Qed.

Lemma scan_sign_literal : scan_sign s (zlen s - 1) = SOk (inl (minus (d_sign d), d_start)).
Proof using Hwf.
  pose proof (d_text_bytes d Hwf) as Hbytes. pose proof at_body as Hat.
  destruct body_head as (c & w & Ecw & Hc & _). rewrite Ecw in Hat.
  assert (Hat0 : at_ s 0 (d_space d ++ d_sign d ++ c :: w)).
  { exists []. split; [unfold d_text; by rewrite <- Ecw|done]. }
  assert (Hc65 : c < 65 /\ (c =? 43) = false /\ (c =? 45) = false /\ space c = false).
  { unfold isdig, space in *. destruct Hc as [Hc| ->]; [|done].
    split_and!; [lia|apply Z.eqb_neq; lia|apply Z.eqb_neq; lia|].
    destruct (Z.eqb_spec c 32); [lia|]. destruct (Z.leb_spec c 13); [lia|]. by rewrite andb_false_r. }
  destruct Hc65 as (H65 & H43 & H45 & Hsp).
  assert (Hsgn : exists t1 w1, d_sign d ++ c :: w = t1 :: w1 /\ space t1 = false).
  { destruct (wf_sign d Hwf) as [->|[->| ->]]; eauto. }
  destruct Hsgn as (t1 & w1 & Esg & Ht1).
  assert (Hslow : (p ← skip_space s (rounds s) 0;
    c ← rd s p;
    let '(neg, p) := if (c =? 43) || (c =? 45) then (c =? 45, p + 1) else (false, p) in
    c ← rd s p;
    if 65 <=? c then r ← scan_nonnum s p (zlen s - 1) neg; SOk (inr r) else SOk (inl (neg, p))) =
    SOk (inl (minus (d_sign d), d_start))).
  { rewrite Esg in Hat0.
    rewrite (skip_space_spec _ Hbytes (d_space d) _ 0 t1 w1 Hat0 (wf_space d Hwf) Ht1).
    2:{ unfold rounds. pose proof (at_len_nat _ _ _ Hat0) as Hal. rewrite length_app in Hal. lia. }
    cbn [mbind sres_bind]. apply at_app in Hat0. rewrite (rd_at _ _ _ _ Hat0). cbn [mbind sres_bind].
    rewrite Z.add_0_l in *.
    unfold d_start in *. rewrite zlen_app in *.
    destruct (wf_sign d Hwf) as [E|[E|E]]; rewrite E in *; cbn [app minus] in *; injection Esg as <- <-.
    - rewrite H43, H45. cbn [orb]. change (zlen []) with 0 in *. rewrite Z.add_0_r in *.
      rewrite (rd_at _ _ _ _ Hat). cbn [mbind sres_bind]. destruct (Z.leb_spec 65 c); [lia|done].
    - change ((43 =? 43) || (43 =? 45)) with true. cbv iota.
      change (zlen [43]) with 1 in *. rewrite (rd_at _ _ _ _ Hat). cbn [mbind sres_bind].
      destruct (Z.leb_spec 65 c); [lia|done].
    - change ((45 =? 43) || (45 =? 45)) with true. cbv iota.
      change (zlen [45]) with 1 in *. rewrite (rd_at _ _ _ _ Hat). cbn [mbind sres_bind].
      destruct (Z.leb_spec 65 c); [lia|done]. }
  unfold scan_sign.
  destruct (d_space d ++ d_sign d ++ c :: w) as [|c0 w0] eqn:E0; [by destruct (d_space d), (d_sign d)|].
  rewrite (rd_at _ _ _ _ Hat0). cbn [mbind sres_bind].
  rewrite isa_known; [|by left|by eapply at_byte]. cbn [mbind sres_bind].
  change (class_of Char.LJ_CHAR_DIGIT c0) with (digit c0). destruct (digit c0) eqn:Ed; [|exact Hslow].
  apply digit_isdig in Ed. unfold isdig in Ed.
  destruct (d_space d) as [|sc sp] eqn:Esp.
  - destruct (wf_sign d Hwf) as [Es|[Es|Es]]; rewrite Es in E0; cbn [app] in E0; injection E0 as <- _;
      [|lia|lia]. unfold d_start. by rewrite Esp, Es.
  - cbn [app] in E0. injection E0 as <- _. pose proof (wf_space d Hwf) as Hs. rewrite Esp in Hs.
    apply Forall_inv in Hs. apply space_byte in Hs. lia.
Qed.

(** *** The value *)

(** The digits from the first that is not zero. *)
Fixpoint drop_zeros (l : list Z) : list Z :=
  match l with c :: l' => if c =? 48 then drop_zeros l' else l | [] => [] end.
Definition d_sig : list Z := drop_zeros (d_digits d).

Lemma drop_zeros_app z l :
  Forall (fun c => zero_or_point c = true) z -> l = [] \/ 49 <= hd 0 l -> drop_zeros (nodot z ++ l) = l.
Proof using.
  intros Hz Hl. induction Hz as [|c z Hc _ IH].
  - destruct l as [|c l]; [done|]. destruct Hl as [?|Hl]; [done|]. cbn [hd] in Hl.
    change (nodot [] ++ c :: l) with (c :: l). cbn [drop_zeros]. destruct (Z.eqb_spec c 48); [lia|done].
  - rewrite nodot_cons. destruct (Z.eqb_spec c 46) as [->|Hn]; [done|]. cbn [app drop_zeros].
    unfold zero_or_point, point in Hc. apply orb_true_iff in Hc as [Hc|Hc%Z.eqb_eq]; [|done]. by rewrite Hc.
Qed.

Lemma sig_digits z r : sig_of z r ->
  nodot r = d_sig /\ dec (nodot r) = dec (d_digits d) /\ Forall isdig (nodot r) /\ (r = [] \/ 49 <= hd 0 (nodot r)).
Proof using Hwf.
  intros (Hb & Hz & Hr). destruct (sig_head z r Hb Hr) as [Hd Hhd].
  pose proof (d_body_nodot d Hwf) as Hn. rewrite Hb, nodot_app in Hn.
  split_and!; [|by rewrite <- Hn, dec_zeros|done|done].
  unfold d_sig. rewrite <- Hn. symmetry. apply drop_zeros_app; [done|].
  destruct Hhd as [->|Hhd]; [by left|by right].
Qed.

Lemma dec_unstrip D k E b :
  0 <= k -> is_rn_ten D (E + k) b -> is_rn_ten (D * 10 ^ k) E b.
Proof using.
  intros Hk. apply Flt.is_rn_ratio; [by apply Flt.pw_pos..|].
  unfold Flt.pw. rewrite <- !Z.mul_assoc, <- !Z.pow_add_r by lia. do 2 f_equal. lia.
Qed.

End literal.

(** The fast path reads the exact value. *)
Lemma fast_value l neg :
  Forall isdig l -> zlen l < 10 \/ (zlen l = 10 /\ hd 0 l <= 50) -> prescan 0 l = dec l /\
  (if neg : bool then Flt.fneg (Flt.double_of_uint (dec l)) else Flt.double_of_uint (dec l)) = signed neg (Flt.rne (dec l) 0).
Proof.
  intros Hd Hl. pose proof (dec_bound l Hd) as Hb. split.
  - change 0 with (u32 0) at 1. rewrite prescan_dec by done. apply u32_small. unfold in_u32.
    assert (dec l < 4294967296); [|lia]. destruct Hl as [Hl|[Hl Hh]].
    + assert (10 ^ zlen l <= 10 ^ 9) by (apply Z.pow_le_mono_r; lia). lia.
    + destruct l as [|c l]; [done|]. cbn [hd] in Hh. apply Forall_cons in Hd as [_ Hd].
      rewrite zlen_cons in Hl. rewrite dec_cons. pose proof (dec_bound l Hd) as Hb2.
      replace (zlen l) with 9 in * by lia. lia.
  - unfold Flt.double_of_uint, signed. destruct neg; [|done].
    pose proof (Flt.rne_range (dec l) 0 ltac:(lia)). pose proof INF_lt_SIGN. apply Flt.fneg_add. lia.
Qed.

(** The options of the lexer and of [tonumber]: numbers become doubles. *)
Definition num_opts (opt : Z) : Prop :=
  opt_has opt STRSCAN_OPT_TONUM = true /\ opt_has opt STRSCAN_OPT_C = false /\
  opt_has opt STRSCAN_OPT_TOINT = false.

Lemma scan_value_number s l sp q x fmt ex neg opt :
  num_opts opt -> digs s sp l q -> Forall isdig l -> l = [] \/ 49 <= hd 0 l -> zlen l <= 300 ->
  dec_safe (dec l) (zlen l) ex -> fmt = STRSCAN_NUM \/ fmt = STRSCAN_INT ->
  (fmt = STRSCAN_INT -> ex = 0 /\ x = prescan 0 l /\ (l <> [] -> rd s sp = SOk (hd 0 l))) ->
  exists b, scan_value s (MkLit 10 sp (zlen l) x fmt ex) neg opt = SOk (STRSCAN_NUM, ONum (signed neg b)) /\
            is_rn_ten (dec l) ex b.
Proof.
  intros (HN & HC & HI) Hdg Hd Hhd Hlen Hsafe Hfmt Hint. unfold scan_value. cbn [l_fmt l_base l_dig l_sp l_ex l_x].
  assert (Hnf : num_format fmt opt = Some STRSCAN_NUM).
  { unfold num_format. destruct Hfmt as [->| ->]; [done|]. by rewrite HN, HC. }
  assert (Hdec : exists b, strscan_dec s sp fmt opt ex neg (zlen l) = SOk (STRSCAN_NUM, ONum (signed neg b)) /\
                           is_rn_ten (dec l) ex b).
  { destruct l as [|c l']; [|destruct Hhd as [?|Hhd]; [done|]].
    - exists 0. split; [by apply strscan_dec_zero|]. change (dec []) with 0. unfold is_rn_ten.
      rewrite Z.mul_0_l. apply Flt.is_rn_0. by apply Flt.pw_pos.
    - pose proof (zlen_cons c l'). pose proof (zlen_nonneg l').
      by apply (strscan_dec_number s (c :: l') sp q ex fmt opt neg); [done..|lia|done|done]. }
  change (10 =? 10) with true. change (10 =? 0) with false. change (10 =? 16) with false.
  change (10 =? 2) with false. cbn [andb]. rewrite andb_true_r.
  assert (Hslow : exists b, (r ← strscan_dec s sp fmt opt ex neg (zlen l);
    match r with
    | (fmt, ONum n) =>
        if (fmt =? STRSCAN_NUM) && opt_has opt STRSCAN_OPT_TOINT && negb (n =? Flt.SIGN) then
          match Tab.num_int n with Some i => SOk (STRSCAN_INT, OInt i) | None => SOk r end
        else SOk r
    | _ => SOk r
    end) = SOk (STRSCAN_NUM, ONum (signed neg b)) /\ is_rn_ten (dec l) ex b).
  { destruct Hdec as (b & -> & Hb). exists b. cbn [mbind sres_bind]. by rewrite HI. }
  destruct Hfmt as [->| ->]; [exact Hslow|].
  change (STRSCAN_INT =? STRSCAN_INT) with true. cbv iota. destruct (Hint eq_refl) as (-> & -> & Hrd).
  assert (Hfast : zlen l < 10 \/ zlen l = 10 /\ hd 0 l <= 50 ->
    exists b, SOk (STRSCAN_NUM, ONum (if neg then Flt.fneg (Flt.double_of_uint (prescan 0 l))
                                      else Flt.double_of_uint (prescan 0 l))) =
              SOk (STRSCAN_NUM, ONum (signed neg b)) /\ is_rn_ten (dec l) 0 b).
  { intros Hl. destruct (fast_value l neg Hd Hl) as [-> ->]. exists (Flt.rne (dec l) 0). split; [done|].
    pose proof (dec_bound l Hd). exact (Flt.rne_rn (dec l) 0 ltac:(lia)). }
  destruct (Z.ltb_spec (zlen l) 10) as [H10|H10]; cbn [mbind sres_bind].
  { rewrite HN. apply Hfast. by left. }
  destruct (Z.eqb_spec (zlen l) 10) as [E10|N10]; cbn [mbind sres_bind]; [|exact Hslow].
  rewrite Hrd by (intros ->; done). cbn [mbind sres_bind].
  destruct (Z.leb_spec (hd 0 l) 50) as [H50|H50]; cbn [andb]; [|exact Hslow].
  destruct (_ <? _); [|exact Hslow]. rewrite HN. apply Hfast. by right.
Qed.

Lemma strscan_decimal d opt :
  d_wf d -> zlen (d_sig d) <= 300 -> d_expval d < 18 \/ zlen (d_sig d) <= 17 -> num_opts opt ->
  exists b,
    lj_strscan_scan (d_text d) opt = SOk (STRSCAN_NUM, ONum (signed (minus (d_sign d)) b)) /\
    is_rn_ten (dec (d_digits d)) (d_exponent d) b.
Proof.
  intros Hwf H300 Hsafe Hopt. unfold lj_strscan_scan. rewrite (scan_sign_literal d Hwf). cbn [mbind sres_bind].
  destruct (scan_lit_literal d Hwf opt ltac:(apply Hopt)) as (z & r & l & k & Hsig & Hl & Hne & Hk & ->).
  cbn [mbind sres_bind].
  destruct (sig_digits d Hwf z r Hsig) as (Hs & Hdec & Hdd & Hhd).
  destruct (sig_dots d Hwf z r Hsig) as (Hdots & Hdz & _). destruct Hsig as (Hb & Hz & Hr).
  pose proof (at_body d) as Hat. rewrite Hb, <- app_assoc in Hat. apply at_app in Hat.
  destruct (digs_nodot _ r _ _ Hat ltac:(lia)) as (q & Hq & _). rewrite Hl in Hq.
  apply digs_app in Hq as (q1 & Hq & _).
  set (F := zlen (default [] (d_frac d))) in *.
  assert (HdecD : dec (d_digits d) = dec l * 10 ^ Z.of_nat k).
  { rewrite <- Hdec, Hl, dec_app, zlen_replicate. replace (dec (replicate k 48)) with 0; [lia|].
    clear. induction k as [|k IH]; [done|]. cbn [replicate]. rewrite dec_cons, <- IH. lia. }
  rewrite Hl in Hdd, Hhd. apply Forall_app in Hdd as [Hdl _].
  assert (Hsl : zlen l <= zlen (d_sig d)).
  { rewrite <- Hs, Hl, zlen_app, zlen_replicate. lia. }
  destruct (decide (r = [])) as [Er|Hrne].
  - assert (l = [] /\ k = O) as [-> ->].
    { rewrite Er in Hl. change (nodot []) with (@nil Z) in Hl. destruct l, k; done. }
    destruct (scan_value_number (d_text d) [] (d_start d + zlen z) q1 (prescan 0 (nodot r))
      (d_fmt d (match d_frac d with Some _ => STRSCAN_NUM | None => STRSCAN_INT end)) (0 + d_expval d)
      (minus (d_sign d)) opt) as (b & -> & Hb'); try done.
    { by left. } { by right; left. }
    { unfold d_fmt. destruct (d_exp d), (d_frac d); eauto. }
    { intros Hf. rewrite Er. unfold d_fmt, d_expval in *. by destruct (d_exp d), (d_frac d). }
    exists b. split; [done|]. rewrite HdecD. change (dec []) with 0 in *.
    unfold is_rn_ten in *. rewrite !Z.mul_0_l in *.
    eapply Flt.is_rn_ratio, Hb'; [by apply Flt.pw_pos|by apply Flt.pw_pos|lia].
  - specialize (Hne Hrne). destruct Hhd as [?|Hhd]; [done|].
    assert (Hhl : 49 <= hd 0 l) by (by destruct l).
    destruct (scan_value_number (d_text d) l (d_start d + zlen z) q1 (prescan 0 (nodot r))
      (d_fmt d (match d_frac d with Some _ => STRSCAN_NUM | None => STRSCAN_INT end)) (Z.of_nat k - F + d_expval d)
      (minus (d_sign d)) opt) as (b & -> & Hb'); try done.
    { by right. } { lia. }
    { destruct Hsafe as [Hx|Hx]; [left; lia|right; left; lia]. }
    { unfold d_fmt. destruct (d_exp d), (d_frac d); eauto. }
    { intros Hf. unfold d_fmt, d_expval in *. destruct (d_exp d); [done|]. destruct (d_frac d); [done|].
      change F with 0 in *. assert (k = O) as -> by lia. cbn [replicate] in Hl. rewrite app_nil_r in Hl.
      split_and!; [done|by rewrite Hl|]. intros _.
      destruct r as [|c r']; [done|]. specialize (Hr c r' eq_refl).
      unfold zero_or_point, point in Hr. apply orb_false_iff in Hr as [_ Hr46].
      rewrite nodot_cons, Hr46 in Hl. rewrite <- Hl. by apply (rd_at _ _ c (r' ++ d_rest d)). }
    exists b. split; [done|]. rewrite HdecD. apply dec_unstrip; [lia|].
    unfold d_exponent. fold F. by replace (d_expval d - F + Z.of_nat k) with (Z.of_nat k - F + d_expval d) by lia.
Qed.

(** C5: The text of a decimal number, with optional space, sign, fraction and
    exponent, is converted to the double nearest to the number it denotes (the
    even one of two), with its sign.  This holds for up to 300 significant
    digits, when the exponent is below 18 or there are at most 17 of them. *)
Theorem strscan_decimal_correct d opt :
  d_wf d -> zlen (d_sig d) <= 300 -> d_expval d < 18 \/ zlen (d_sig d) <= 17 -> num_opts opt ->
  exists b,
    lj_strscan_scan (d_text d) opt = SOk (STRSCAN_NUM, ONum (signed (minus (d_sign d)) b)) /\
    is_rn_ten (dec (d_digits d)) (d_exponent d) b.
Proof. apply strscan_decimal. Qed.

(** " -12.50e+3": twelve thousand five hundred, with its sign. *)
Lemma strscan_decimal_correct_witness :
  let d := MkDlit [32] [45] [49; 50] (Some [53; 48]) (Some (101, [43], [51])) [] in
  exists b,
    lj_strscan_scan (d_text d) STRSCAN_OPT_TONUM = SOk (STRSCAN_NUM, ONum (signed true b)) /\
    is_rn_ten 1250 1 b.
Proof.
  apply (strscan_decimal_correct (MkDlit [32] [45] [49; 50] (Some [53; 48]) (Some (101, [43], [51])) []) STRSCAN_OPT_TONUM).
  - split; try done; repeat constructor; done.
  - by vm_compute.
  - by left; vm_compute.
  - by split.
Defined.

(** The scale-down loop runs the digit buffer empty on "1152921504606846976e20"
    ([2^60] with twenty zeros to come) and reads a cell that was never
    written. *)
Example strscan_empty_buffer :
  lj_strscan_scan [49; 49; 53; 50; 57; 50; 49; 53; 48; 52; 54; 48; 54; 56; 52; 54; 57; 55; 54; 101; 50; 48; 0]
    STRSCAN_OPT_TONUM = SFault.
Proof. vm_compute. reflexivity. Qed.

(** With 800 digits and an odd exponent the character behind the digits sets
    the sticky bit: "180143985094819860...0e-783", which is the even number
    18014398509481986 exactly and half-way between two doubles, is rounded up
    instead of to even. *)
Example strscan_false_sticky :
  let digits := [49; 56; 48; 49; 52; 51; 57; 56; 53; 48; 57; 52; 56; 49; 57; 56; 54] in
  lj_strscan_scan (digits ++ replicate 783 48 ++ [101; 45; 55; 56; 51; 0]) STRSCAN_OPT_TONUM =
    SOk (STRSCAN_NUM, ONum 4850376798678024193) /\
  lj_strscan_scan (digits ++ replicate 782 48 ++ [101; 45; 55; 56; 50; 0]) STRSCAN_OPT_TONUM =
    SOk (STRSCAN_NUM, ONum 4850376798678024192).
Proof. vm_compute. split; reflexivity. Qed.
End StrscanSpec.
