(* ===== verification/LjStrscanInt.v ===== *)
(** * LjStrscanInt

    Integers through the number scanner: a decimal integer that fits 32 bits
    is scanned to itself, so the text [lj_strfmt_wint] writes reads back as the
    integer it was written for; a 64-bit literal is exact or rejected. *)
From stdpp Require Import base tactics numbers list.
From Stdlib Require Import ZArith Lia.
From S2P Require Import Prelude LjStr LjBuf LjStrfmt LjFloat LjTab LjStrscan LjStrscanBuf LjStrscanDec LjStrscanText LjStrscanSafe LjStrscanSpec.
Open Scope Z_scope.

Module StrscanInt.
Import Strscan StrscanBuf StrscanDec StrscanText StrscanSafe StrscanSpec.

(** ** 32-bit integers *)

(** The value of an integer literal. *)
Definition int_value (d : Dlit) : Z :=
  if minus (d_sign d) then - dec (d_digits d) else dec (d_digits d).

Definition is_int (d : Dlit) : Prop := d_frac d = None /\ d_exp d = None.

Definition int_opts (opt : Z) : Prop :=
  opt_has opt STRSCAN_OPT_TONUM = false /\ opt_has opt STRSCAN_OPT_C = false.

Lemma opt_i32 neg x : 0 <= x -> x < 0x80000000 + b2z neg ->
  (if neg : bool then i32 (u32 (not32 x + 1)) else i32 x) = if neg then - x else x.
Proof.
  intros H0 Hx. destruct neg; cbn [b2z] in Hx.
  - apply not_int32. lia.
  - apply i32_small. unfold in_i32. lia.
Qed.

(** Significant digits of a number below [2^31 + 1]. *)
Lemma int_digits_fast l : Forall isdig l -> l = [] \/ 49 <= hd 0 l -> dec l <= 2147483648 ->
  zlen l < 10 \/ zlen l = 10 /\ hd 0 l <= 50.
Proof.
  intros Hd Hhd Hv. destruct (Z.lt_ge_cases (zlen l) 10) as [|H10]; [by left|right].
  destruct Hhd as [->|Hhd]; [by change (zlen []) with 0 in H10|].
  pose proof (dec_lower l Hd Hhd ltac:(lia)) as Hlow.
  destruct (Z.le_gt_cases (zlen l) 10) as [Hle|Hgt].
  - split; [lia|]. destruct l as [|c l]; [done|]. cbn [hd]. rewrite dec_cons in Hv. rewrite zlen_cons in *.
    apply Forall_cons in Hd as [_ Hd]. pose proof (dec_bound l Hd). replace (zlen l) with 9 in * by lia. lia.
  - exfalso. assert (10 ^ 10 <= 10 ^ (zlen l - 1)) by (apply Z.pow_le_mono_r; lia). lia.
Qed.

Lemma scan_value_int s l sp neg opt :
  int_opts opt -> Forall isdig l -> l = [] \/ 49 <= hd 0 l ->
  (l <> [] -> rd s sp = SOk (hd 0 l)) -> dec l < 0x80000000 + b2z neg ->
  scan_value s (MkLit 10 sp (zlen l) (prescan 0 l) STRSCAN_INT 0) neg opt =
    SOk (if (dec l =? 0) && neg then (STRSCAN_NUM, ONum Flt.SIGN)
         else (STRSCAN_INT, OInt (if neg then - dec l else dec l))).
Proof.
  intros [HN HC] Hd Hhd Hrd Hv. unfold scan_value. cbn [l_fmt l_base l_dig l_sp l_ex l_x].
  pose proof (dec_bound l Hd) as Hb.
  assert (Hf : zlen l < 10 \/ zlen l = 10 /\ hd 0 l <= 50) by (apply int_digits_fast; try done; destruct neg; cbn in Hv; lia).
  destruct (fast_value l neg Hd Hf) as [-> _].
  change ((STRSCAN_INT =? STRSCAN_INT) && (10 =? 10)) with true. cbv iota.
  assert (Hfast : (if zlen l <? 10 then SOk true
                   else if zlen l =? 10 then c ← rd s sp; SOk ((c <=? 50) && (dec l <? 0x80000000 + b2z neg))
                   else SOk false) = SOk true).
  { destruct Hf as [Hf|[Hf Hh]]; [by rewrite (proj2 (Z.ltb_lt _ _) Hf)|]. rewrite Hf.
    rewrite Hrd by (intros ->; done). cbn [mbind sres_bind].
    by rewrite (proj2 (Z.leb_le _ _) Hh), (proj2 (Z.ltb_lt _ _) Hv). }
  rewrite Hfast. cbn [mbind sres_bind]. rewrite HN, opt_i32 by (done || lia). by destruct (_ && _).
Qed.

Lemma strscan_int_literal d opt :
  d_wf d -> is_int d -> int_opts opt -> in_i32 (int_value d) ->
  lj_strscan_scan (d_text d) opt =
    SOk (if (int_value d =? 0) && minus (d_sign d) then (STRSCAN_NUM, ONum Flt.SIGN)
         else (STRSCAN_INT, OInt (int_value d))).
Proof.
  intros Hwf [Hfr Hex] Hopt Hv. unfold lj_strscan_scan. rewrite (scan_sign_literal d Hwf). cbn [mbind sres_bind].
  destruct (scan_lit_literal d Hwf opt ltac:(apply Hopt)) as (z & r & l & k & Hsig & Hl & Hne & Hk & ->).
  cbn [mbind sres_bind].
  destruct (sig_digits d Hwf z r Hsig) as (Hs & Hdec & Hdd & Hhd). destruct Hsig as (Hb & Hz & Hr).
  pose proof (at_body d) as Hat. rewrite Hb, <- app_assoc in Hat. apply at_app in Hat.
  rewrite Hfr in *. cbn [default] in *. change (zlen []) with 0 in *. assert (k = O) as -> by lia.
  cbn [replicate] in Hl. rewrite app_nil_r in Hl. subst l.
  replace (d_fmt d STRSCAN_INT) with STRSCAN_INT by (unfold d_fmt; by rewrite Hex).
  replace ((if decide (r = []) then 0 else Z.of_nat 0 - 0) + d_expval d) with 0
    by (unfold d_expval; rewrite Hex; by destruct (decide _)).
  rewrite scan_value_int; try done.
  - rewrite Hdec. unfold int_value. destruct (minus (d_sign d)); [|by rewrite !andb_false_r].
    by replace (- dec (d_digits d) =? 0) with (dec (d_digits d) =? 0) by lia.
  - destruct Hhd as [->|Hhd]; [by left|by right].
  - intros Hnn. destruct r as [|c r']; [done|]. specialize (Hr c r' eq_refl).
    unfold zero_or_point, point in Hr. apply orb_false_iff in Hr as [_ Hr46].
    rewrite nodot_cons, Hr46. by apply (rd_at _ _ c (r' ++ d_rest d)).
  - rewrite Hdec. unfold int_value, in_i32 in Hv. destruct (minus (d_sign d)); cbn [b2z]; lia.
Qed.

(** ** The integers [lj_strfmt_wint] writes *)

Lemma dec_snoc l c : dec (l ++ [c]) = dec l * 10 + (c - 48).
Proof. rewrite dec_app. change (dec [c]) with (c - 48). change (10 ^ zlen [c]) with 10. done. Qed.

(** The numeral reads back as the number. *)
Lemma dec_numeral k : forall n, 0 < n < 10 ^ Z.of_nat k -> n < 2 ^ 64 ->
  Forall isdig (Strfmt.dec n) /\ Strfmt.dec n <> [] /\ dec (Strfmt.dec n) = n.
Proof.
  induction k as [|k IH]; intros n Hn H64; [cbn in Hn; lia|].
  rewrite Nat2Z.inj_succ, Z.pow_succ_r in Hn by lia. rewrite Strfmt.dec_step by lia.
  pose proof (Z.mod_pos_bound n 10 ltac:(lia)) as Hm. pose proof (Z.div_mod n 10 ltac:(lia)) as Hdm.
  assert (Hq : Forall isdig (if n / 10 =? 0 then [] else Strfmt.dec (n / 10)) /\
               dec (if n / 10 =? 0 then [] else Strfmt.dec (n / 10)) = n / 10).
  { destruct (Z.eqb_spec (n / 10) 0) as [->|Hne]; [done|].
    assert (0 <= n / 10) by (apply Z.div_pos; lia). destruct (IH (n / 10)) as (H1 & _ & H2); [lia..|done]. }
  destruct Hq as [Hq Hv]. split_and!.
  - apply Forall_app. split; [done|]. constructor; [unfold isdig; lia|done].
  - by destruct (if n / 10 =? 0 then _ else _).
  - rewrite dec_snoc, Hv. lia.
Qed.

(** The literal that is the text of [k]. *)
Definition wint_lit (k : Z) : Dlit :=
  MkDlit [] (if k <? 0 then [45] else []) (if k =? 0 then [48] else Strfmt.dec (Z.abs k)) None None [].

Lemma wint_lit_text k : in_i32 k -> d_text (wint_lit k) = Strfmt.lj_strfmt_wint k ++ [0].
Proof.
  intros Hk. rewrite Strfmt.wint_text by done. unfold d_text, d_body, d_rest, d_exptext, wint_lit.
  cbn [d_space d_sign d_int d_frac d_exp d_trail app]. by rewrite app_nil_r, <- app_assoc.
Qed.

Lemma wint_lit_ok k : in_i32 k -> d_wf (wint_lit k) /\ int_value (wint_lit k) = k.
Proof.
  intros Hk. unfold in_i32 in Hk.
  assert (H : Forall isdig (if k =? 0 then [48] else Strfmt.dec (Z.abs k)) /\
              (if k =? 0 then [48] else Strfmt.dec (Z.abs k)) <> [] /\
              zlen (if k =? 0 then [48] else Strfmt.dec (Z.abs k)) <= 10 /\
              dec (if k =? 0 then [48] else Strfmt.dec (Z.abs k)) = Z.abs k).
  { destruct (Z.eqb_spec k 0) as [->|Hne]; [split_and!; try done; by repeat constructor|].
    destruct (dec_numeral 10 (Z.abs k)) as (H1 & H2 & H3); [change (10 ^ Z.of_nat 10) with 10000000000; lia|lia|].
    split_and!; try done. apply Strfmt.dec_len. lia. }
  destruct H as (H1 & H2 & H3 & H4). split.
  - split; unfold d_digits, wint_lit; cbn [d_space d_sign d_int d_frac d_exp d_trail default]; rewrite ?app_nil_r; try done.
    + unfold is_sign. destruct (k <? 0); auto.
    + change STRSCAN_MAXEXP with 1048576. lia.
  - unfold int_value, d_digits, wint_lit. cbn [d_sign d_int d_frac default]. rewrite app_nil_r, H4.
    destruct (Z.ltb_spec k 0); cbn [minus]; lia.
Qed.

(** Printing and scanning round trip: the text [lj_strfmt_wint] writes for
    any 32-bit integer, scanned with the option for integers, is that
    integer. *)
Theorem strscan_wint_roundtrip k : in_i32 k ->
  lj_strscan_scan (Strfmt.lj_strfmt_wint k ++ [0]) STRSCAN_OPT_TOINT = SOk (STRSCAN_INT, OInt k).
Proof.
  intros Hk. destruct (wint_lit_ok k Hk) as [Hwf Hv]. rewrite <- wint_lit_text by done.
  rewrite strscan_int_literal by (rewrite ?Hv; done). rewrite Hv.
  replace ((k =? 0) && minus (d_sign (wint_lit k))) with false; [done|].
  unfold wint_lit; cbn [d_sign]. destruct (Z.ltb_spec k 0); [destruct (Z.eqb_spec k 0); [lia|done]|by rewrite andb_false_r].
Qed.

Lemma strscan_wint_roundtrip_witness :
  lj_strscan_scan ([45; 50; 49; 52; 55; 52; 56; 51; 54; 52; 56] ++ [0]) STRSCAN_OPT_TOINT = SOk (STRSCAN_INT, OInt (-2147483648)).
Proof. apply (strscan_wint_roundtrip (-2147483648)). split; done. Defined.

(** ** 64-bit integers *)

Section text.
Context (s : list Z).

(** C25: A decimal literal with the suffix of a 64-bit integer is scanned to
    exactly the number it denotes modulo its sign, when that is below [2^64],
    and rejected otherwise, however many digits it has. *)
Theorem strscan_dec_int64 l p q fmt opt neg :
  digs s p l q -> (exists r, rd_digit s q = SOk r) -> Forall isdig l -> 49 <= hd 0 l ->
  fmt = STRSCAN_I64 \/ fmt = STRSCAN_U64 ->
  strscan_dec s p fmt opt 0 neg (zlen l) =
    if dec l <? 2 ^ 64 then SOk (fmt, OU64 (sgn_u64 neg (dec l))) else SErr.
Proof.
  intros Hl Hq Hd Hhd Hf. unfold strscan_dec.
  assert (Hne : l <> []) by (intros ->; cbn in Hhd; lia). pose proof (zlen_pos l Hne).
  assert (Hsw : forall x, dec_switch x fmt opt neg = SOk (inl (fmt, OU64 (sgn_u64 neg x)))) by (by destruct Hf as [->| ->]).
  assert (Hslow : forall c lo e,
    (if fmt =? STRSCAN_INT then if opt_has opt STRSCAN_OPT_C then SErr else dec_slow c lo e STRSCAN_NUM neg
     else if STRSCAN_INT <? fmt then SErr else dec_slow c lo e fmt neg) = SErr) by (by destruct Hf as [->| ->]).
  destruct (Z.le_gt_cases (zlen l) 300) as [H3|H3].
  - destruct (dec_fill_spec s l p q 0) as
      (c & ds & z & dig' & j & -> & Hr & Hd99 & Hne' & Hhd' & Hlds & Hj & He & Hval & Hlen' & Hdig & Hj1 & Hz);
      [done..|lia|]. pose proof (dec_lower l Hd Hhd ltac:(lia)). pose proof (dec_bound l Hd).
    cbn [mbind sres_bind]. rewrite dec_fast_spec by (first [done|lia|rewrite Hval, Hdig; apply scaled_bound; lia]).
    assert (j = 0 /\ z = 0) as [-> ->] by lia. rewrite Hval, Z.pow_0_r, Z.mul_1_r.
    cbn [Z.eqb andb]. destruct (dec l <? 2 ^ 64); cbn [mbind sres_bind]; [by rewrite Hsw|apply Hslow].
  - destruct (dec_fill_long s l p q 0) as (c & ds & z & dig' & -> & _ & _ & _ & _ & _ & Hdig); [done..|].
    cbn [mbind sres_bind]. unfold dec_fast. rewrite (proj2 (Z.leb_gt dig' 20)) by lia. cbn [andb mbind sres_bind].
    rewrite Hslow. destruct (Z.ltb_spec (dec l) (2 ^ 64)) as [Hlt|]; [|done]. exfalso.
    pose proof (dec_lower l Hd Hhd ltac:(lia)). assert (10 ^ 20 <= 10 ^ (zlen l - 1)) by (apply Z.pow_le_mono_r; lia). lia.
Qed.
End text.

(** "18446744073709551615" is the largest such literal, the next one is rejected. *)
Lemma strscan_dec_int64_witness :
  let s := [49; 56; 52; 52; 54; 55; 52; 52; 48; 55; 51; 55; 48; 57; 53; 53; 49; 54; 49; 53; 0] in
  let s' := [49; 56; 52; 52; 54; 55; 52; 52; 48; 55; 51; 55; 48; 57; 53; 53; 49; 54; 49; 54; 0] in
  strscan_dec s 0 STRSCAN_U64 0 0 false 20 = SOk (STRSCAN_U64, OU64 18446744073709551615) /\
  strscan_dec s' 0 STRSCAN_U64 0 0 false 20 = SErr.
Proof.
  split.
  - apply (strscan_dec_int64 _ [49; 56; 52; 52; 54; 55; 52; 52; 48; 55; 51; 55; 48; 57; 53; 53; 49; 54; 49; 53] 0 20
      STRSCAN_U64 0 false); [repeat (eexists; split; [reflexivity|]); done|by eexists|by repeat constructor|done|by right].
  - apply (strscan_dec_int64 _ [49; 56; 52; 52; 54; 55; 52; 52; 48; 55; 51; 55; 48; 57; 53; 53; 49; 54; 49; 54] 0 20
      STRSCAN_U64 0 false); [repeat (eexists; split; [reflexivity|]); done|by eexists|by repeat constructor|done|by right].
Defined.
End StrscanInt.
