(* ===== verification/LjLexNum.v ===== *)
(** * LjLexNum

    Number literals through the lexer and the number scanner: [lex_number]
    ([LjLex]) collects the text of a literal from the pieces of a program and
    hands it to [lj_strscan_scan] ([LjStrscan]). *)
From stdpp Require Import base tactics numbers list.
From Stdlib Require Import ZArith Lia.
From S2P Require Import Prelude LjStr LjFloat LjLex LjLexSpec LjQuote LjTab LjStrscan LjStrscanBuf LjStrscanDec LjStrscanText LjStrscanSpec.
Open Scope Z_scope.

Module LexNum.
Import Lex LexSpec Quote.
Import StrscanSpec.

(** The call of the scanner in [lex_number]. *)
Definition LEX_OPTS : Z :=
  Z.lor Strscan.STRSCAN_OPT_TONUM (Z.lor Strscan.STRSCAN_OPT_LL Strscan.STRSCAN_OPT_IMAG).
(** Only a text that is no number gives the error format.  A fault, a failed
    assertion or a loop without end in the scanner is no property of the text:
    it is passed on as the value of the token, where nothing but [SOk] is a
    value. *)
Definition lex_strscan (txt : list Z) : Z * Strscan.sres Strscan.Val :=
  match Strscan.lj_strscan_scan (txt ++ [0]) LEX_OPTS with
  | Strscan.SOk (fmt, v) => (fmt, Strscan.SOk v)
  | Strscan.SErr => (STRSCAN_ERROR, Strscan.SErr)
  | Strscan.SFault => (STRSCAN_NUM, Strscan.SFault)
  | Strscan.SAssert => (STRSCAN_NUM, Strscan.SAssert)
  | Strscan.SFuel => (STRSCAN_NUM, Strscan.SFuel)
  end.

(** ** The characters of a literal *)

Definition ident (c : Z) : bool := Char.ascii_class Char.LJ_CHAR_IDENT c.

(** [c] continues a number whose last character is [prev]. *)
Definition continues (xp prev c : Z) : bool :=
  ident c || (c =? 46) || (((c =? 45) || (c =? 43)) && (Z.lor prev 0x20 =? xp)).

Fixpoint eats (xp prev : Z) (u : list Z) : bool :=
  match u with [] => true | c :: u' => continues xp prev c && eats xp c u' end.

Fixpoint last_of (prev : Z) (u : list Z) : Z := match u with [] => prev | c :: u' => last_of c u' end.

(** A text that ends a number whose last character is [prev]. *)
Definition stops (xp prev : Z) (rest : list Z) : Prop :=
  match rest with [] => True | c :: _ => in_u8 c /\ continues xp prev c = false end.

Lemma isa_ident c : in_u8 c -> isa c Char.LJ_CHAR_IDENT = Some (ident c).
Proof. intros Hc. apply isa_class; [done|]. apply list_elem_of_In. cbn. tauto. Qed.

Lemma number_loop_reads xp u : forall fuel ls prev b n rest,
  Forall in_u8 u -> saved ls (u ++ rest) b n -> eats xp prev u = true -> stops xp (last_of prev u) rest ->
  (length u < fuel)%nat ->
  exists ls', number_loop fuel ls prev xp = LOk ls' /\ saved ls' rest (b ++ u) n.
Proof.
  induction u as [|c u IH]; intros fuel ls prev b n rest Hu H He Hs Hf;
    (destruct fuel as [|fuel]; [cbn in Hf; lia|]); cbn [number_loop].
  - exists ls. rewrite app_nil_r. split; [|done]. destruct H as [(Ec & _) _]. cbn [app] in Ec. cbn [last_of] in Hs.
    destruct rest as [|c rest]; cbn in Ec; rewrite Ec.
    + by rewrite isa_eof.
    + destruct Hs as [Hc Hs]. rewrite isa_ident by done. cbn [lchk mbind lres_bind]. unfold continues in Hs. by rewrite Hs.
  - apply Forall_cons in Hu as [Hc Hu]. cbn [eats app] in *. apply andb_true_iff in He as [He1 He2].
    pose proof (saved_char _ _ _ _ _ H) as Ec. rewrite Ec, isa_ident by done. cbn [lchk mbind lres_bind].
    unfold continues in He1. rewrite He1.
    apply saved_savenext in H; [|done].
    destruct (IH fuel (lex_savenext ls) c (b ++ [c]) n rest) as (ls' & E & H'); try done.
    { cbn in Hf. lia. }
    exists ls'. split; [done|]. by rewrite <- app_assoc in H'.
Qed.

(** ** Decimal literals *)

(** The text of a literal as it stands in a program: no space, no sign, a digit
    first. *)
Definition plain (d : Dlit) : Prop :=
  d_space d = [] /\ d_sign d = [] /\ d_trail d = [] /\ d_int d <> [].
Definition d_source (d : Dlit) : list Z := d_body d ++ d_exptext d.

Lemma plain_text d : plain d -> d_text d = d_source d ++ [0].
Proof.
  intros (H1 & H2 & H3 & _). unfold d_text, d_rest, d_source. rewrite H1, H2, H3. cbn [app]. by rewrite <- app_assoc.
Qed.

Lemma ident_digit c : StrscanDec.isdig c -> ident c = true.
Proof.
  intros Hc. unfold StrscanDec.isdig in Hc. assert (Hall : forallb ident (seqZ 48 10) = true) by (by vm_compute). rewrite forallb_forall in Hall.
  apply Hall, list_elem_of_In, elem_of_seqZ. lia.
Qed.
Lemma continues_digit xp prev c : StrscanDec.isdig c -> continues xp prev c = true.
Proof. intros Hc. unfold continues. by rewrite (ident_digit c Hc). Qed.

Lemma eats_digits xp u : forall prev v,
  Forall StrscanDec.isdig u -> eats xp prev (u ++ v) = eats xp (last_of prev u) v.
Proof.
  induction u as [|c u IH]; intros prev v Hu; [done|]. apply Forall_cons in Hu as [Hc Hu]. cbn [app eats last_of].
  by rewrite continues_digit, IH.
Qed.

Lemma last_of_app prev u v : last_of prev (u ++ v) = last_of (last_of prev u) v.
Proof. revert prev. induction u as [|c u IH]; intros prev; [done|]. apply IH. Qed.

Lemma last_digit u : forall prev, Forall StrscanDec.isdig u -> u <> [] -> StrscanDec.isdig (last_of prev u).
Proof.
  induction u as [|c u IH]; intros prev Hu Hne; [done|]. apply Forall_cons in Hu as [Hc Hu]. cbn [last_of].
  destruct u as [|c' u]; [done|]. by apply IH.
Qed.

(** The lexer takes in the whole literal. *)
Lemma eats_exp d prev : d_wf d -> eats 101 prev (d_exptext d) = true.
Proof.
  intros Hwf. pose proof (wf_exp d Hwf) as He. unfold d_exptext. destruct (d_exp d) as [[[e sg] xs]|]; [|done].
  destruct He as (Hc & Hs & Hx & _). cbn [eats].
  assert (continues 101 prev e = true) as -> by (by destruct Hc as [->| ->]). cbn [andb].
  assert (Hd : forall p, eats 101 p xs = true) by (intros p; rewrite <- (app_nil_r xs), eats_digits by done; done).
  destruct Hs as [->|[->| ->]]; cbn [app eats]; [done|..]; rewrite Hd, andb_true_r;
    by destruct Hc as [->| ->].
Qed.

Lemma eats_source d prev : d_wf d -> eats 101 prev (d_source d) = true.
Proof.
  intros Hwf. destruct (d_frac_digits d Hwf) as [Hi Hf]. unfold d_source, d_body. rewrite <- app_assoc, eats_digits by done.
  destruct (d_frac d) as [f|]; [|by apply eats_exp]. cbn [app eats]. rewrite eats_digits by done.
  by rewrite eats_exp.
Qed.

(** Its last character is a digit or the point. *)
Lemma source_last d prev : d_wf d -> d_int d <> [] -> Z.lor (last_of prev (d_source d)) 0x20 <> 101.
Proof.
  intros Hwf Hne. destruct (d_frac_digits d Hwf) as [Hi Hf].
  assert (Hl : forall c, StrscanDec.isdig c \/ c = 46 -> Z.lor c 0x20 <> 101).
  { intros c [Hc| ->]; [|done].
    assert (Hall : forallb (fun c => negb (Z.lor c 0x20 =? 101)) (seqZ 48 10) = true) by (by vm_compute).
    rewrite forallb_forall in Hall. unfold StrscanDec.isdig in Hc. 
    specialize (Hall c ltac:(apply list_elem_of_In, elem_of_seqZ; lia)). by apply negb_true_iff, Z.eqb_neq in Hall. }
  apply Hl. unfold d_source, d_body, d_exptext. rewrite last_of_app. pose proof (wf_exp d Hwf) as He.
  destruct (d_exp d) as [[[e sg] xs]|].
  - left. destruct He as (_ & _ & Hx & Hn & _). cbn [last_of]. rewrite last_of_app. by apply last_digit.
  - cbn [last_of]. rewrite last_of_app. destruct (d_frac d) as [f|]; cbn [last_of]; [|left; by apply last_digit].
    cbn [last_of]. destruct f as [|c f]; [by right|left]. by apply last_digit.
Qed.

(** What may follow a number: no letter, digit, underscore or point. *)
Definition delimited (rest : list Z) : Prop :=
  match rest with [] => True | c :: _ => in_u8 c /\ ident c = false /\ c <> 46 end.

Lemma delimited_stops prev rest : Z.lor prev 0x20 <> 101 -> delimited rest -> stops 101 prev rest.
Proof.
  intros Hp. destruct rest as [|c rest]; [done|]. intros (Hc & Hi & H46). split; [done|].
  unfold continues. rewrite Hi, (proj2 (Z.eqb_neq _ _) H46), (proj2 (Z.eqb_neq _ _) Hp). cbn [orb].
  apply andb_false_r.
Qed.

Lemma digit_ident c : StrscanDec.isdig c ->
  isa c Char.LJ_CHAR_IDENT = Some true /\ isa c Char.LJ_CHAR_DIGIT = Some true /\ in_u8 c.
Proof.
  intros Hc. pose proof (isdig_byte c Hc) as Hb. split_and!; [|rewrite isa_digit|done].
  - by rewrite isa_ident, ident_digit.
  - f_equal. apply digit_spec. unfold StrscanDec.isdig in Hc. lia.
  - unfold in_c, StrscanDec.isdig in *. lia.
Qed.

Lemma d_source_bytes d : d_wf d -> plain d -> Forall in_u8 (d_source d).
Proof.
  intros Hwf Hp. pose proof (d_text_bytes d Hwf) as H. rewrite (plain_text d Hp) in H. by apply Forall_app in H as [H _].
Qed.

(** The character behind a leading zero does not make the number hexadecimal. *)
Definition not_x (c : Z) : Prop := c <> 88 /\ c <> 120.

Lemma source_not_x d : d_wf d -> Forall not_x (d_source d).
Proof.
  intros Hwf. destruct (d_frac_digits d Hwf) as [Hi Hf].
  assert (Hd : forall l, Forall StrscanDec.isdig l -> Forall not_x l).
  { intros l Hl. eapply Forall_impl; [done|]. unfold StrscanDec.isdig, not_x. lia. }
  unfold d_source, d_body, d_exptext. rewrite !Forall_app. split_and!.
  - by apply Hd.
  - destruct (d_frac d) as [f|]; [|done]. constructor; [done|by apply Hd].
  - pose proof (wf_exp d Hwf) as He. destruct (d_exp d) as [[[e sg] xs]|]; [|done].
    destruct He as (Hc & Hs & Hx & _). constructor; [by destruct Hc as [->| ->]|].
    apply Forall_app. split; [|by apply Hd]. destruct Hs as [->|[->| ->]]; by repeat constructor.
Qed.

Lemma or_x c : in_c c -> Z.lor c 0x20 = 120 -> c = 88 \/ c = 120.
Proof.
  intros Hc E. assert (Hall : forallb (fun c => negb (Z.lor c 0x20 =? 120) || (c =? 88) || (c =? 120)) (seqZ (-1) 257) = true)
    by (by vm_compute). rewrite forallb_forall in Hall.
  specialize (Hall c ltac:(apply list_elem_of_In, elem_of_seqZ; unfold in_c in Hc; lia)). cbv beta in Hall.
  rewrite E in Hall. cbn in Hall. apply orb_true_iff in Hall as [H|H]; apply Z.eqb_eq in H; auto.
Qed.

Lemma not_hex d c0 u rest : d_wf d -> plain d -> d_source d = c0 :: u -> delimited rest ->
  (Z.lor (default LEX_EOF (head (u ++ rest))) 0x20 =? 120) = false.
Proof.
  intros Hwf Hp E Hr. apply Z.eqb_neq. intros Hx.
  pose proof (source_not_x d Hwf) as Hn. pose proof (d_source_bytes d Hwf Hp) as Hb. rewrite E in Hn, Hb.
  destruct u as [|c u]; cbn [app] in Hx.
  - destruct rest as [|c rest]; [done|]. destruct Hr as (Hc & Hi & _). unfold in_u8 in Hc.
    change (Z.lor c 0x20 = 120) in Hx. apply or_x in Hx as [->| ->]; [done..|unfold in_c; lia].
  - apply Forall_cons in Hn as [_ Hn], Hb as [_ Hb]. apply Forall_inv in Hn as [H1 H2], Hb. unfold in_u8 in Hb.
    change (Z.lor c 0x20 = 120) in Hx. apply or_x in Hx as [?|?]; [done..|unfold in_c; lia].
Qed.

Lemma source_cons d : d_wf d -> plain d -> exists c u, d_source d = c :: u /\ StrscanDec.isdig c.
Proof.
  intros Hwf (_ & _ & _ & Hne). destruct (d_frac_digits d Hwf) as [Hi _]. unfold d_source, d_body.
  destruct (d_int d) as [|c u]; [done|]. apply Forall_inv in Hi. cbn [app]. eauto.
Qed.

(** Enough rounds for the text ahead. *)
Lemma rounds_text ls txt b n : saved ls txt b n -> (length txt < rounds ls)%nat.
Proof. intros [(_ & E & _) _]. unfold rounds. rewrite E. destruct txt; cbn; lia. Qed.

(** The characters of the literal are collected. *)
Lemma number_collects d rest ls n :
  d_wf d -> plain d -> delimited rest -> saved ls (d_source d ++ rest) [] n ->
  exists ls', saved ls' rest (d_source d) n /\
    (let '(ls1, xp) :=
       if lc ls =? 48 then
         let ls := lex_savenext ls in (ls, if Z.lor (lc ls) 0x20 =? 120 then 112 else 101)
       else (ls, 101) in
     number_loop (rounds ls1) ls1 (lc ls) xp) = LOk ls'.
Proof.
  intros Hwf Hp Hr H. pose proof (d_source_bytes d Hwf Hp) as Hb. pose proof (rounds_text _ _ _ _ H) as Hf.
  destruct (source_cons d Hwf Hp) as (c & u & E & Hc).
  assert (Hs : forall prev, stops 101 (last_of prev (d_source d)) rest)
    by (intros prev; apply delimited_stops; [by apply source_last; [|apply Hp]|done]).
  assert (Ec : lc ls = c) by (rewrite E in H; by eapply saved_char).
  rewrite Ec. destruct (Z.eqb_spec c 48) as [->|].
  - rewrite E in H, Hb, Hs. cbn [app] in H. apply Forall_cons in Hb as [Hc8 Hb].
    pose proof (saved_savenext _ _ _ _ _ Hc8 H) as H1. pose proof (rounds_text _ _ _ _ H1) as Hf1.
    assert (El : lc (lex_savenext ls) = default LEX_EOF (head (u ++ rest))) by apply H1.
    cbv zeta. rewrite El, (not_hex d 48 u rest Hwf Hp E Hr).
    pose proof (eats_source d 48 Hwf) as He. rewrite E in He. cbn [eats] in He. apply andb_true_iff in He as [_ He].
    destruct (number_loop_reads 101 u (rounds (lex_savenext ls)) (lex_savenext ls) 48 _ n rest Hb H1 He (Hs 48))
      as (ls' & El' & H'); [rewrite length_app in Hf1; lia|].
    exists ls'. by rewrite E.
  - rewrite length_app in Hf.
    destruct (number_loop_reads 101 (d_source d) (rounds ls) ls c [] n rest Hb H (eats_source d c Hwf) (Hs c))
      as (ls' & El' & H'); [lia|]. by exists ls'.
Qed.

(** C12: A decimal literal in a program becomes the nearest number.  Let the
    text ahead of the lexer, cut into whatever pieces by the reader, begin with
    a decimal literal that starts with a digit (digits, then perhaps a point
    and digits, then perhaps an exponent) and that no letter, digit, underscore
    or point prolongs.  If the literal has at most 300 significant digits, and
    an exponent part below 18 (or none) or at most 17 significant digits, then
    [lex_scan] returns the token of a number without a fault or a failed
    assertion in the number scanner, its value is the double nearest to what
    the literal denotes, and the lexer stops right behind it.  Outside these
    limits the scanner is not always right ([strscan_empty_buffer] and
    [strscan_false_sticky] of [LjStrscanSpec]). *)
Theorem lex_decimal_literal tok d rest ls n :
  d_wf d -> plain d -> delimited rest ->
  zlen (d_sig d) <= 300 -> d_expval d < 18 \/ zlen (d_sig d) <= 17 ->
  reads ls (d_source d ++ rest) n ->
  exists ls' b,
    lex_scan tok lex_strscan ls = LOk (TK_number, Some (VNum (Strscan.SOk (Strscan.ONum b))), ls') /\
    is_rn_ten (StrscanDec.dec (d_digits d)) (d_exponent d) b /\ reads ls' rest n.
Proof.
  intros Hwf Hp Hr H300 Hsafe R. destruct (source_cons d Hwf Hp) as (c & u & E & Hc).
  destruct (number_collects d rest (with_sb ls []) n Hwf Hp Hr (conj R eq_refl)) as (l1 & [R1 E1] & El).
  destruct (strscan_decimal d LEX_OPTS Hwf H300 Hsafe ltac:(by split)) as (b & Hscan & Hrn).
  assert (Hsg : minus (d_sign d) = false) by (by destruct Hp as (_ & -> & _)).
  rewrite Hsg in Hscan. cbn [StrscanBuf.signed] in Hscan. rewrite (plain_text d Hp) in Hscan.
  exists (lex_save l1 0), b. split_and!; [|done|exact R1].
  assert (Ec : lc (with_sb ls []) = c) by (destruct R as (Ec & _); by rewrite E in Ec).
  destruct (digit_ident c Hc) as (Hi & Hd & _).
  unfold lex_scan. unfold rounds at 1. cbn [scan_loop]. rewrite Ec, Hi. cbn [lchk mbind lres_bind]. rewrite Hd.
  cbn [lchk mbind lres_bind]. unfold lex_number.
  destruct (if lc (with_sb ls []) =? 48 then _ else _) as [ls1 xp]. rewrite El. cbn [mbind lres_bind].
  assert (Et : take (length (lsb (lex_save l1 0)) - 1) (lsb (lex_save l1 0)) = d_source d).
  { cbn. rewrite E1, length_app. cbn [length]. replace (length (d_source d) + 1 - 1)%nat with (length (d_source d)) by lia.
    by rewrite take_app_length. }
  rewrite Et. unfold lex_strscan. rewrite Hscan. done.
Qed.

(** The program "0.5e1+x", in one piece. *)
Lemma lex_decimal_literal_witness :
  exists ls' b,
    lex_scan 0 lex_strscan (MkLex 48 [46; 53; 101; 49; 43; 120] [] [] 1 [] 0) =
      LOk (TK_number, Some (VNum (Strscan.SOk (Strscan.ONum b))), ls') /\
    is_rn_ten 5 0 b /\ reads ls' [43; 120] 1.
Proof.
  apply (lex_decimal_literal 0 (MkDlit [] [] [48] (Some [53]) (Some (101, [], [49])) []) [43; 120]
    (MkLex 48 [46; 53; 101; 49; 43; 120] [] [] 1 [] 0) 1).
  - split; try done; repeat constructor; done.
  - by split_and!.
  - by split_and!.
  - by vm_compute.
  - by left; vm_compute.
  - by split_and!.
Defined.
End LexNum.
