(* ===== verification/LibString.v ===== *)
(** * LibString

    The pattern matcher of the string library ([lib_string.c]): the matcher
    itself with its captures and its backtracking, and the functions
    [string.find], [string.match], [string.gmatch] and [string.gsub] on top of
    it.  The subject and the pattern are the bytes of a string and the NUL
    behind them, a pointer is an index.  This file holds the operations; what a
    pattern matches is defined in [LibStringSpec] and proved in
    [LibStringMatch] and [LibStringFind]; that no pattern makes the matcher
    leave its strings is shown in [LibStringSafe]. *)
From stdpp Require Import base tactics numbers list.
From Stdlib Require Import ZArith Lia.
From S2P Require Import Prelude LjStr.
Open Scope Z_scope.

Module Match.

Definition CAP_UNFINISHED : Z := -1.
Definition CAP_POSITION : Z := -2.
Definition LUA_MAXCAPTURES : Z := 32.
Definition LJ_MAX_XLEVEL : Z := 200.
Definition L_ESC : Z := 37.

Inductive ErrMsg :=
  | STRCAPI | STRPATC | STRPATE | STRPATM | STRPATU | STRPATB | STRPATX | STRCAPN | STRCAPU | STRGSRV | STRSLC | BADVAL.

(** A result, an error raised to the caller, or one of two outcomes the
    theorems rule out: an access without a defined effect, a loop out of
    fuel. *)
Inductive pres (A : Type) := POk (a : A) | PErr (e : ErrMsg) | PFault | PFuel.
Arguments POk {A} a.
Arguments PErr {A} e.
Arguments PFault {A}.
Arguments PFuel {A}.

#[export] Instance pres_ret : MRet pres := fun A a => POk a.
#[export] Instance pres_bind : MBind pres := fun A B f o =>
  match o with POk a => f a | PErr e => PErr e | PFault => PFault | PFuel => PFuel end.
Definition pchk {A} (o : option A) : pres A := match o with Some a => POk a | None => PFault end.

Definition isa (c t : Z) : pres bool := b ← pchk (Char.lj_char_isa c t); POk (negb (b =? 0)).

(** [capture] is [None] where it was never written; a cell is its [init] and
    [len]. *)
Record MatchState := MkMS { level : Z; depth : Z; capture : list (option (Z * Z)) }.

Definition with_level (ms : MatchState) (l : Z) : MatchState := MkMS l (depth ms) (capture ms).
Definition with_depth (ms : MatchState) (d : Z) : MatchState := MkMS (level ms) d (capture ms).
Definition get_cap (ms : MatchState) (l : Z) : pres (Z * Z) := c ← pchk (zget (capture ms) l); pchk c.
Definition set_cap (ms : MatchState) (l : Z) (c : Z * Z) : pres MatchState :=
  cs ← pchk (zset (capture ms) l (Some c)); POk (MkMS (level ms) (depth ms) cs).

(** An array of captures nobody has written to; [ms.level = ms.depth = 0]. *)
Definition ms_init : MatchState := MkMS 0 0 (replicate (Z.to_nat LUA_MAXCAPTURES) None).

(** ** Character classes *)

Definition match_class_map : list Z := [
  0; Char.LJ_CHAR_ALPHA; 0; Char.LJ_CHAR_CNTRL; Char.LJ_CHAR_DIGIT; 0; 0; Char.LJ_CHAR_GRAPH; 0; 0; 0; 0;
  Char.LJ_CHAR_LOWER; 0; 0; 0; Char.LJ_CHAR_PUNCT; 0; 0; Char.LJ_CHAR_SPACE; 0;
  Char.LJ_CHAR_UPPER; 0; Char.LJ_CHAR_ALNUM; Char.LJ_CHAR_XDIGIT; 0; 0; 0; 0; 0; 0; 0 ].

Definition match_class (c cl : Z) : pres bool :=
  if Z.land cl 0xc0 =? 0x40 then
    t ← pchk (zget match_class_map (Z.land cl 0x1f));
    if negb (t =? 0) then
      t ← isa c t; POk (if negb (Z.land cl 0x20 =? 0) then t else negb t)
    else if cl =? 122 then POk (c =? 0)
    else if cl =? 90 then POk (negb (c =? 0))
    else POk (cl =? c)
  else POk (cl =? c).

Section subject.

(** The subject and the pattern, each with its NUL. *)
Variable src pat : list Z.
Definition src_end : Z := zlen src - 1.
Definition rds (i : Z) : pres Z := pchk (zget src i).
Definition rdp (i : Z) : pres Z := pchk (zget pat i).

(** A loop over a string takes a character a round. *)
Definition pat_rounds : nat := S (length pat).
Definition src_rounds : nat := S (length src).

(** [do { ... } while ( *p != ']')] *)
Fixpoint classend_loop (fuel : nat) (p : Z) : pres Z :=
  match fuel with
  | O => PFuel
  | S fuel' =>
      c ← rdp p;
      if c =? 0 then PErr STRPATM
      else
        let p := p + 1 in
        c1 ← rdp p;
        let p := if (c =? L_ESC) && negb (c1 =? 0) then p + 1 else p in
        c2 ← rdp p;
        if negb (c2 =? 93) then classend_loop fuel' p else POk (p + 1)
  end.

Definition classend (p : Z) : pres Z :=
  c ← rdp p;
  let p := p + 1 in
  if c =? L_ESC then
    c1 ← rdp p; if c1 =? 0 then PErr STRPATE else POk (p + 1)
  else if c =? 91 then
    c1 ← rdp p; classend_loop pat_rounds (if c1 =? 94 then p + 1 else p)
  else POk p.

(** [while (++p < ec) ...] *)
Fixpoint bracket_loop (fuel : nat) (c p ec : Z) (sig : bool) : pres bool :=
  match fuel with
  | O => PFuel
  | S fuel' =>
      let p := p + 1 in
      if p <? ec then
        a ← rdp p;
        if a =? L_ESC then
          let p := p + 1 in
          cl ← rdp p; m ← match_class c cl;
          if m : bool then POk sig else bracket_loop fuel' c p ec sig
        else
          b ← rdp (p + 1);
          if (b =? 45) && (p + 2 <? ec) then
            hi ← rdp (p + 2);
            if (a <=? c) && (c <=? hi) then POk sig else bracket_loop fuel' c (p + 2) ec sig
          else if a =? c then POk sig else bracket_loop fuel' c p ec sig
      else POk (negb sig)
  end.

Definition matchbracketclass (c p ec : Z) : pres bool :=
  c1 ← rdp (p + 1);
  if c1 =? 94 then bracket_loop pat_rounds c (p + 1) ec false else bracket_loop pat_rounds c p ec true.

Definition singlematch (c p ep : Z) : pres bool :=
  a ← rdp p;
  if a =? 46 then POk true
  else if a =? L_ESC then cl ← rdp (p + 1); match_class c cl
  else if a =? 91 then matchbracketclass c p (ep - 1)
  else POk (a =? c).

(** [s<ms->src_end && singlematch(uchar( *s), p, ep)] *)
Definition matches_here (s p ep : Z) : pres bool :=
  if s <? src_end then c ← rds s; singlematch c p ep else POk false.

(** ** Captures *)

Definition check_capture (ms : MatchState) (l : Z) : pres Z :=
  let l := l - 49 in
  if (l <? 0) || (level ms <=? l) then PErr STRCAPI
  else c ← get_cap ms l; if c.2 =? CAP_UNFINISHED then PErr STRCAPI else POk l.

(** [for (level--; level>=0; level--)] *)
Fixpoint to_close (n : nat) (ms : MatchState) : pres Z :=
  match n with
  | O => PErr STRPATC
  | S n' => c ← get_cap ms (Z.of_nat n'); if c.2 =? CAP_UNFINISHED then POk (Z.of_nat n') else to_close n' ms
  end.
Definition capture_to_close (ms : MatchState) : pres Z := to_close (Z.to_nat (level ms)) ms.

(** [memcmp(a, b, len) == 0] *)
Fixpoint memeq (len : nat) (a b : Z) : pres bool :=
  match len with
  | O => POk true
  | S len' => x ← rds a; y ← rds b; if x =? y then memeq len' (a + 1) (b + 1) else POk false
  end.

(** The length of a position capture is huge as a [size_t]. *)
Definition match_capture (ms : MatchState) (s l : Z) : pres (option Z) :=
  l ← check_capture ms l;
  c ← get_cap ms l;
  let len := u64 c.2 in
  if len <=? src_end - s then
    e ← memeq (Z.to_nat len) c.1 s; POk (if e : bool then Some (s + len) else None)
  else POk None.

(** ** Balanced strings *)

(** [while (++s < ms->src_end)] *)
Fixpoint balance_loop (fuel : nat) (s b e cont : Z) : pres (option Z) :=
  match fuel with
  | O => PFuel
  | S fuel' =>
      let s := s + 1 in
      if s <? src_end then
        c ← rds s;
        if c =? e then
          let cont := cont - 1 in
          if cont =? 0 then POk (Some (s + 1)) else balance_loop fuel' s b e cont
        else balance_loop fuel' s b e (if c =? b then cont + 1 else cont)
      else POk None
  end.

Definition matchbalance (s p : Z) : pres (option Z) :=
  b ← rdp p;
  if b =? 0 then PErr STRPATU
  else
    e ← rdp (p + 1);
    if e =? 0 then PErr STRPATU
    else c ← rds s; if negb (c =? b) then POk None else balance_loop src_rounds s b e 1.

(** ** The matcher *)

Section recursion.

(** The recursive call, of [match]. *)
Variable rec : MatchState -> Z -> Z -> pres (option Z * MatchState).

(** [while ((s+i)<ms->src_end && singlematch(...)) i++;] *)
Fixpoint max_count (fuel : nat) (s p ep i : Z) : pres Z :=
  match fuel with
  | O => PFuel
  | S fuel' => m ← matches_here (s + i) p ep; if m : bool then max_count fuel' s p ep (i + 1) else POk i
  end.

(** [while (i>=0) ...], with [i = n - 1]. *)
Fixpoint max_try (n : nat) (ms : MatchState) (s ep : Z) : pres (option Z * MatchState) :=
  match n with
  | O => POk (None, ms)
  | S n' =>
      r ← rec ms (s + Z.of_nat n') (ep + 1);
      let '(res, ms) := r in
      match res with Some q => POk (Some q, ms) | None => max_try n' ms s ep end
  end.

Definition max_expand (ms : MatchState) (s p ep : Z) : pres (option Z * MatchState) :=
  i ← max_count src_rounds s p ep 0; max_try (S (Z.to_nat i)) ms s ep.

Fixpoint min_loop (fuel : nat) (ms : MatchState) (s p ep : Z) : pres (option Z * MatchState) :=
  match fuel with
  | O => PFuel
  | S fuel' =>
      r ← rec ms s (ep + 1);
      let '(res, ms) := r in
      match res with
      | Some q => POk (Some q, ms)
      | None =>
          m ← matches_here s p ep;
          if m : bool then min_loop fuel' ms (s + 1) p ep else POk (None, ms)
      end
  end.
Definition min_expand (ms : MatchState) (s p ep : Z) : pres (option Z * MatchState) :=
  min_loop src_rounds ms s p ep.

Definition start_capture (ms : MatchState) (s p what : Z) : pres (option Z * MatchState) :=
  if LUA_MAXCAPTURES <=? level ms then PErr STRCAPN
  else
    ms ← set_cap ms (level ms) (s, what);
    r ← rec (with_level ms (level ms + 1)) s p;
    let '(res, ms) := r in
    POk (res, match res with Some _ => ms | None => with_level ms (level ms - 1) end).

Definition end_capture (ms : MatchState) (s p : Z) : pres (option Z * MatchState) :=
  l ← capture_to_close ms;
  c ← get_cap ms l;
  ms ← set_cap ms l (c.1, s - c.1);
  r ← rec ms s p;
  let '(res, ms) := r in
  match res with
  | Some q => POk (Some q, ms)
  | None => c ← get_cap ms l; ms ← set_cap ms l (c.1, CAP_UNFINISHED); POk (None, ms)
  end.

(** A round of [match] from its label [init] on.  The last component of the
    result says where to go on ([goto init]). *)
Inductive next := Done (res : option Z) | Goto (s p : Z).

(** [default: dflt:] *)
Definition match_item (ms : MatchState) (s p : Z) : pres (next * MatchState) :=
  ep ← classend p;
  m ← matches_here s p ep;
  e ← rdp ep;
  let done r := r ← r; POk (Done r.1, r.2) in
  if e =? 63 then
    r ← (if m : bool then rec ms (s + 1) (ep + 1) else POk (None, ms));
    let '(res, ms) := r in
    POk (match res with Some q => Done (Some q) | None => Goto s (ep + 1) end, ms)
  else if e =? 42 then done (max_expand ms s p ep)
  else if e =? 43 then (if m : bool then done (max_expand ms (s + 1) p ep) else POk (Done None, ms))
  else if e =? 45 then done (min_expand ms s p ep)
  else POk (if m : bool then Goto (s + 1) ep else Done None, ms).

(** [case 'f'] *)
Definition match_frontier (ms : MatchState) (s p : Z) : pres (next * MatchState) :=
  c ← rdp p;
  if negb (c =? 91) then PErr STRPATB
  else
    ep ← classend p;
    previous ← (if s =? 0 then POk 0 else rds (s - 1));
    m1 ← matchbracketclass previous p (ep - 1);
    if m1 : bool then POk (Done None, ms)
    else
      c ← rds s;
      m2 ← matchbracketclass c p (ep - 1);
      POk (if m2 : bool then Goto s ep else Done None, ms).

Definition match_round (ms : MatchState) (s p : Z) : pres (next * MatchState) :=
  let done r := r ← r; POk (Done r.1, r.2) in
  c ← rdp p;
  if c =? 40 then
    c1 ← rdp (p + 1);
    if c1 =? 41 then done (start_capture ms s (p + 2) CAP_POSITION)
    else done (start_capture ms s (p + 1) CAP_UNFINISHED)
  else if c =? 41 then done (end_capture ms s (p + 1))
  else if c =? L_ESC then
    c1 ← rdp (p + 1);
    if c1 =? 98 then
      r ← matchbalance s (p + 2);
      POk (match r with Some s => Goto s (p + 4) | None => Done None end, ms)
    else if c1 =? 102 then match_frontier ms s (p + 2)
    else
      dig ← isa c1 Char.LJ_CHAR_DIGIT;
      if dig : bool then
        r ← match_capture ms s c1;
        POk (match r with Some s => Goto s (p + 2) | None => Done None end, ms)
      else match_item ms s p
  else if c =? 0 then POk (Done (Some s), ms)
  else if c =? 36 then
    c1 ← rdp (p + 1);
    if negb (c1 =? 0) then match_item ms s p
    else POk (Done (if s =? src_end then Some s else None), ms)
  else match_item ms s p.

Fixpoint match_init (fuel : nat) (ms : MatchState) (s p : Z) : pres (option Z * MatchState) :=
  match fuel with
  | O => PFuel
  | S fuel' =>
      r ← match_round ms s p;
      let '(n, ms) := r in
      match n with Done res => POk (res, ms) | Goto s p => match_init fuel' ms s p end
  end.
End recursion.

(** [match] itself; [match_rounds] is one more than the greatest depth. *)
Fixpoint match_ (fuel : nat) (ms : MatchState) (s p : Z) : pres (option Z * MatchState) :=
  match fuel with
  | O => PFuel
  | S fuel' =>
      let ms := with_depth ms (depth ms + 1) in
      if LJ_MAX_XLEVEL <? depth ms then PErr STRPATX
      else
        r ← match_init (match_ fuel') pat_rounds ms s p;
        let '(res, ms) := r in POk (res, with_depth ms (depth ms - 1))
  end.
Definition match_rounds : nat := 201.

(** [ms.level = ms.depth = 0; match(&ms, s, p)]: the capture array keeps what an
    earlier attempt left in it. *)
Definition do_match (ms : MatchState) (s p : Z) : pres (option Z * MatchState) :=
  match_ match_rounds (MkMS 0 0 (capture ms)) s p.

(** ** Results *)

(** The Lua values that are passed in and out; the numbers are integers. *)
Inductive Lval := LNil | LBool (b : bool) | LInt (k : Z) | LStr (s : list Z) | LOther.

(** [lua_pushlstring(L, a, len)] *)
Fixpoint substr (len : nat) (a : Z) : pres (list Z) :=
  match len with
  | O => POk []
  | S len' => c ← rds a; l ← substr len' (a + 1); POk (c :: l)
  end.

Definition push_onecapture (ms : MatchState) (i s e : Z) : pres Lval :=
  if level ms <=? i then
    if i =? 0 then l ← substr (Z.to_nat (e - s)) s; POk (LStr l) else PErr STRCAPI
  else
    c ← get_cap ms i;
    if c.2 =? CAP_UNFINISHED then PErr STRCAPU
    else if c.2 =? CAP_POSITION then POk (LInt (c.1 + 1))
    else l ← substr (Z.to_nat c.2) c.1; POk (LStr l).

Fixpoint push_loop (n : nat) (i : Z) (ms : MatchState) (s e : Z) : pres (list Lval) :=
  match n with
  | O => POk []
  | S n' => v ← push_onecapture ms i s e; vs ← push_loop n' (i + 1) ms s e; POk (v :: vs)
  end.

(** [whole] is false where the pointers are [NULL]. *)
Definition push_captures (ms : MatchState) (whole : bool) (s e : Z) : pres (list Lval) :=
  let nlevels := if (level ms =? 0) && whole then 1 else level ms in
  push_loop (Z.to_nat nlevels) 0 ms s e.

(** ** string.find and string.match *)

(** [do { ... } while (sstr++ < ms.src_end && !anchor)] *)
Fixpoint find_pattern (fuel : nat) (find anchor : bool) (ms : MatchState) (sstr pstr : Z) : pres (list Lval) :=
  match fuel with
  | O => PFuel
  | S fuel' =>
      r ← do_match ms sstr pstr;
      let '(q, ms) := r in
      match q with
      | Some q =>
          if find then vs ← push_captures ms false 0 0; POk (LInt (sstr + 1) :: LInt q :: vs)
          else push_captures ms true sstr q
      | None =>
          if (sstr <? src_end) && negb anchor then find_pattern fuel' find anchor ms (sstr + 1) pstr
          else POk [LNil]
      end
  end.
End subject.

(** The bytes of a string as the matcher gets them. *)
Definition c_text (s : list Z) : list Z := s ++ [0].

(** [start] is the third argument and [plain] whether the fourth is true.  The
    build sets [LUAJIT_ENABLE_LUA52COMPAT], so a start behind the end of the
    subject gives nil. *)
Definition str_find_aux (s p : list Z) (start : Z) (plain find : bool) : pres (list Lval) :=
  let len := zlen s in
  let start := if start <? 0 then i32 (start + len) else start - 1 in
  let st := if start <? 0 then 0 else start in
  if len <? st then POk [LNil]
  else
    fixed ← (if find then
               if plain then POk true else h ← pchk (Str.lj_str_haspattern p); POk (negb h)
             else POk false);
    if fixed : bool then
      q ← pchk (Str.lj_str_find (drop (Z.to_nat st) s) p (len - st) (zlen p));
      match q with
      | Some q => POk [LInt (st + q + 1); LInt (st + q + zlen p)]
      | None => POk [LNil]
      end
    else
      c ← rdp (c_text p) 0;
      let '(pstr, anchor) := if c =? 94 then (1, true) else (0, false) in
      find_pattern (c_text s) (c_text p) (src_rounds (c_text s)) find anchor ms_init st pstr.

Definition string_find (s p : list Z) (start : Z) (plain : bool) := str_find_aux s p start plain true.
Definition string_match (s p : list Z) (start : Z) := str_find_aux s p start false false.

(** ** string.gmatch *)

(** The iterator: the results and the position for the next call. *)
Fixpoint gmatch_loop (fuel : nat) (s p : list Z) (ms : MatchState) (src : Z) : pres (option (list Lval * Z)) :=
  match fuel with
  | O => PFuel
  | S fuel' =>
      if src <=? src_end (c_text s) then
        r ← do_match (c_text s) (c_text p) ms src 0;
        let '(e, ms) := r in
        match e with
        | Some e =>
            let pos := if e =? src then e + 1 else e in
            vs ← push_captures (c_text s) ms true src e; POk (Some (vs, pos))
        | None => gmatch_loop fuel' s p ms (src + 1)
        end
      else POk None
  end.
Definition string_gmatch_aux (s p : list Z) (pos : Z) : pres (option (list Lval * Z)) :=
  gmatch_loop (S (src_rounds (c_text s))) s p ms_init pos.

(** ** string.gsub *)

Section gsub.

(** The text of a number ([lj_strfmt_number]); the replacement function and
    table are whatever the program passes, as functions of the captures that
    keep no state and raise no error. *)
Variable tostr : Z -> list Z.
Inductive Repl := RStr (news : list Z) | RFun (f : list Lval -> Lval) | RTab (t : Lval -> Lval).

(** [luaL_addvalue] *)
Definition addvalue (b : list Z) (v : Lval) : pres (list Z) :=
  match v with LStr l => POk (b ++ l) | LInt k => POk (b ++ tostr k) | _ => PFault end.

(** [for (i = 0; i < l; i++)]; the character behind a final escape is the
    terminator of [news], which is no digit. *)
Fixpoint add_s (news : list Z) (src : list Z) (ms : MatchState) (b : list Z) (s e : Z) : pres (list Z) :=
  match news with
  | [] => POk b
  | c :: news' =>
      if negb (c =? L_ESC) then add_s news' src ms (b ++ [c]) s e
      else
        match news' with
        | [] => POk (b ++ [0])
        | d :: rest =>
            dig ← isa d Char.LJ_CHAR_DIGIT;
            if negb dig then add_s rest src ms (b ++ [d]) s e
            else if d =? 48 then l ← substr src (Z.to_nat (e - s)) s; add_s rest src ms (b ++ l) s e
            else v ← push_onecapture src ms (d - 49) s e; b ← addvalue b v; add_s rest src ms b s e
        end
  end.

Definition add_value (r : Repl) (src : list Z) (ms : MatchState) (b : list Z) (s e : Z) : pres (list Z) :=
  let finish v :=
    match v with
    | LNil | LBool false => l ← substr src (Z.to_nat (e - s)) s; POk (b ++ l)
    | LStr _ | LInt _ => addvalue b v
    | _ => PErr STRGSRV
    end in
  match r with
  | RStr news => add_s news src ms b s e
  | RFun f => vs ← push_captures src ms true s e; finish (f vs)
  | RTab t => v ← push_onecapture src ms 0 s e; finish (t v)
  end.

Fixpoint gsub_loop (fuel : nat) (s p : list Z) (r : Repl) (max_s : Z) (anchor : bool)
    (ms : MatchState) (b : list Z) (n src pstr : Z) : pres (list Z * Z) :=
  match fuel with
  | O => PFuel
  | S fuel' =>
      let finish b n src := l ← substr s (Z.to_nat (src_end s - src)) src; POk (b ++ l, n) in
      if n <? max_s then
        m ← do_match s p ms src pstr;
        let '(e, ms) := m in
        bn ← (match e with
              | Some q => b ← add_value r s ms b src q; POk (b, n + 1)
              | None => POk (b, n)
              end);
        let '(b, n) := bn in
        let skip := match e with Some q => if src <? q then Some q else None | None => None end in
        match skip with
        | Some q => if anchor then finish b n q else gsub_loop fuel' s p r max_s anchor ms b n q pstr
        | None =>
            if src <? src_end s then
              c ← rds s src;
              if anchor then finish (b ++ [c]) n (src + 1)
              else gsub_loop fuel' s p r max_s anchor ms (b ++ [c]) n (src + 1) pstr
            else finish b n src
        end
      else finish b n src
  end.

(** The new string and the number of substitutions. *)
Definition string_gsub (s p : list Z) (r : Repl) (max_s : option Z) : pres (list Z * Z) :=
  let max_s := default (zlen s + 1) max_s in
  c ← rdp (c_text p) 0;
  let '(pstr, anchor) := if c =? 94 then (1, true) else (0, false) in
  gsub_loop (S (src_rounds (c_text s))) (c_text s) (c_text p) r max_s anchor ms_init [] 0 0 pstr.
End gsub.
End Match.
