(* ===== verification/LibStringSpec.v ===== *)
(** * LibStringSpec

    What a pattern means: the syntax of patterns, the matches of a pattern at
    a place of a subject in the order of preference.  That the matcher
    ([LibString]) finds the first of them is proved in [LibStringMatch]. *)
From stdpp Require Import base tactics numbers list.
From Stdlib Require Import ZArith Lia.
From S2P Require Import Prelude LjStr LibString.
Open Scope Z_scope.

Module MatchSpec.
Import Match.

(** ** Syntax *)

Inductive elem := EChar (c : Z) | EClass (cl : Z) | ERange (lo hi : Z).
Inductive cset := SAny | SChar (c : Z) | SClass (cl : Z) | SBracket (neg : bool) (es : list elem).
Inductive quant := QOne | QOpt | QStar | QPlus | QMin.
Inductive item :=
  | ISet (st : cset) (q : quant) | IOpen | IOpenPos | IClose
  | IBal (b e : Z) | IFront (st : cset) | IBack (n : Z) | IEnd.

(** The classes of the manual: letters, control characters, digits, printable
    characters, lower case, punctuation, space, upper case, alphanumeric
    characters, hexadecimal digits, the NUL; the letter in upper case is the
    complement, any other character stands for itself. *)
Definition letter_class (l c : Z) : option bool :=
  let a t := Some (Char.ascii_class t c) in
  if l =? 97 then a Char.LJ_CHAR_ALPHA else if l =? 99 then a Char.LJ_CHAR_CNTRL
  else if l =? 100 then a Char.LJ_CHAR_DIGIT else if l =? 103 then a Char.LJ_CHAR_GRAPH
  else if l =? 108 then a Char.LJ_CHAR_LOWER else if l =? 112 then a Char.LJ_CHAR_PUNCT
  else if l =? 115 then a Char.LJ_CHAR_SPACE else if l =? 117 then a Char.LJ_CHAR_UPPER
  else if l =? 119 then a Char.LJ_CHAR_ALNUM else if l =? 120 then a Char.LJ_CHAR_XDIGIT
  else if l =? 122 then Some (c =? 0) else None.
Definition class_has (cl c : Z) : bool :=
  match letter_class cl c with
  | Some b => b
  | None =>
      if Char.between 65 cl 90 then
        match letter_class (cl + 32) c with Some b => negb b | None => cl =? c end
      else cl =? c
  end.

Definition elem_has (c : Z) (e : elem) : bool :=
  match e with EChar a => a =? c | EClass cl => class_has cl c | ERange lo hi => (lo <=? c) && (c <=? hi) end.
Definition set_has (st : cset) (c : Z) : bool :=
  match st with
  | SAny => true | SChar a => a =? c | SClass cl => class_has cl c
  | SBracket neg es => xorb neg (existsb (elem_has c) es)
  end.

(** *** Parsing *)

Definition ch (l : list Z) : Z := hd 0 l.

(** The elements between brackets.  An escape cut off by a range, as in
    "[a-%%]", which the manual leaves undefined, takes the closing bracket. *)
Fixpoint elems (l : list Z) : list elem :=
  match l with
  | [] => []
  | a :: l1 =>
      if a =? L_ESC then match l1 with cl :: l2 => EClass cl :: elems l2 | [] => [EClass 93] end
      else match l1 with
           | d :: hi :: l3 => if d =? 45 then ERange a hi :: elems l3 else EChar a :: elems l1
           | _ => EChar a :: elems l1
           end
  end.

(** What stands between the brackets, whose first character may be [']'], and
    what follows. *)
Fixpoint bracket_body (l : list Z) : option (list Z * list Z) :=
  match l with
  | [] => None
  | c :: l1 =>
      let go taken rest sub :=
        if ch rest =? 93 then Some (taken, tail rest)
        else r ← sub; Some (taken ++ r.1, r.2) in
      if c =? L_ESC then
        match l1 with d :: l2 => go [c; d] l2 (bracket_body l2) | [] => None end
      else go [c] l1 (bracket_body l1)
  end.

Definition parse_set (l : list Z) : option (cset * list Z) :=
  match l with
  | [] => None
  | c :: l1 =>
      if c =? L_ESC then match l1 with d :: l2 => Some (SClass d, l2) | [] => None end
      else if c =? 91 then
        let neg := ch l1 =? 94 in
        r ← bracket_body (if neg then tail l1 else l1); Some (SBracket neg (elems r.1), r.2)
      else Some (if c =? 46 then SAny else SChar c, l1)
  end.

Definition parse_quant (l : list Z) : quant * list Z :=
  if ch l =? 63 then (QOpt, tail l) else if ch l =? 42 then (QStar, tail l)
  else if ch l =? 43 then (QPlus, tail l) else if ch l =? 45 then (QMin, tail l) else (QOne, l).

Definition parse_item (l : list Z) : option (item * list Z) :=
  let c := ch l in
  let l1 := tail l in
  let c1 := ch l1 in
  let l2 := tail l1 in
  if c =? 40 then Some (if c1 =? 41 then (IOpenPos, l2) else (IOpen, l1))
  else if c =? 41 then Some (IClose, l1)
  else if (c =? L_ESC) && (c1 =? 98) then
    if (ch l2 =? 0) || (ch (tail l2) =? 0) then None else Some (IBal (ch l2) (ch (tail l2)), tail (tail l2))
  else if (c =? L_ESC) && (c1 =? 102) then
    if ch l2 =? 91 then r ← parse_set l2; Some (IFront r.1, r.2) else None
  else if (c =? L_ESC) && Char.between 48 c1 57 then Some (IBack (c1 - 49), l2)
  else if (c =? 36) && (c1 =? 0) then Some (IEnd, l1)
  else r ← parse_set l; let '(q, rest) := parse_quant r.2 in Some (ISet r.1 q, rest).

Fixpoint parse (fuel : nat) (l : list Z) : option (list item) :=
  match fuel with
  | O => None
  | S fuel' =>
      match l with
      | [] => Some []
      | _ => r ← parse_item l; its ← parse fuel' r.2; Some (r.1 :: its)
      end
  end.

(** ** Meaning *)

Section subject.
Context (s : list Z).
Abbreviation n := (zlen s).

(** A character of the subject; there is none behind its end. *)
Definition has (st : cset) (i : Z) : bool := match zget s i with Some c => set_has st c | None => false end.

(** The characters of a set from a place on. *)
Fixpoint runlen (st : cset) (l : list Z) : nat :=
  match l with c :: l' => if set_has st c then S (runlen st l') else O | [] => O end.
Definition run (st : cset) (i : Z) : nat := runlen st (drop (Z.to_nat i) s).

(** The length of the text up to the place where every [b] is closed. *)
Fixpoint bal (b e cont : Z) (l : list Z) : option Z :=
  match l with
  | [] => None
  | c :: l' =>
      if c =? e then if cont =? 1 then Some 1 else k ← bal b e (cont - 1) l'; Some (k + 1)
      else k ← bal b e (if c =? b then cont + 1 else cont) l'; Some (k + 1)
  end.
Definition balanced (b e i : Z) : option Z :=
  match drop (Z.to_nat i) s with
  | c :: l => if c =? b then k ← bal b e 1 l; Some (i + 1 + k) else None
  | [] => None
  end.

(** Captures, in the order of their opening: the start, and the length or the
    mark of an open or a position capture. *)
Abbreviation cap := (Z * Z)%type.

(** The last open one is closed. *)
Fixpoint close_cap (i : Z) (cs : list cap) : option (list cap) :=
  match cs with
  | [] => None
  | c :: cs' =>
      match close_cap i cs' with
      | Some cs'' => Some (c :: cs'')
      | None => if c.2 =? CAP_UNFINISHED then Some ((c.1, i - c.1) :: cs') else None
      end
  end.

Definition piece (i len : Z) : list Z := take (Z.to_nat len) (drop (Z.to_nat i) s).

(** The text of the capture stands at [i]. *)
Definition repeats (c : cap) (i : Z) : bool :=
  (0 <=? c.2) && (c.2 <=? n - i) && bool_decide (piece c.1 c.2 = piece i c.2).

(** The matches for a run of characters, the longest or the shortest first. *)
Fixpoint longest {R} (f : Z -> list R) (i : Z) (k : nat) : list R :=
  match k with O => f i | S k' => f (i + Z.of_nat k) ++ longest f i k' end.
Fixpoint shortest {R} (f : Z -> list R) (i : Z) (k : nat) : list R :=
  f i ++ match k with O => [] | S k' => shortest f (i + 1) k' end.

(** The ends and captures of all matches at [i], the preferred one first. *)
Fixpoint den (its : list item) (i : Z) (cs : list cap) : list (Z * list cap) :=
  match its with
  | [] => [(i, cs)]
  | it :: r =>
      match it with
      | ISet st QOne => if has st i then den r (i + 1) cs else []
      | ISet st QOpt => (if has st i then den r (i + 1) cs else []) ++ den r i cs
      | ISet st QStar => longest (fun j => den r j cs) i (run st i)
      | ISet st QPlus => if has st i then longest (fun j => den r j cs) (i + 1) (run st (i + 1)) else []
      | ISet st QMin => shortest (fun j => den r j cs) i (run st i)
      | IOpen => den r i (cs ++ [(i, CAP_UNFINISHED)])
      | IOpenPos => den r i (cs ++ [(i, CAP_POSITION)])
      | IClose => match close_cap i cs with Some cs' => den r i cs' | None => [] end
      | IBal b e => match balanced b e i with Some j => den r j cs | None => [] end
      | IFront st =>
          let prev := default 0 (zget s (i - 1)) in
          if negb (set_has st prev) && set_has st (default 0 (zget s i)) then den r i cs else []
      | IBack k =>
          match zget cs k with Some c => if repeats c i then den r (i + c.2) cs else [] | None => [] end
      | IEnd => if i =? n then den r i cs else []
      end
  end.
End subject.

(** ** Well-formed patterns *)

(** How far a capture is. *)
Inductive cstat := COpen | CPos | CDone.
#[export] Instance cstat_dec : EqDecision cstat.
Proof. solve_decision. Defined.
Definition stat (c : Z * Z) : cstat :=
  if c.2 =? CAP_UNFINISHED then COpen else if c.2 =? CAP_POSITION then CPos else CDone.

Fixpoint close_stat (sts : list cstat) : option (list cstat) :=
  match sts with
  | [] => None
  | c :: sts' =>
      match close_stat sts' with
      | Some sts'' => Some (c :: sts'')
      | None => if bool_decide (c = COpen) then Some (CDone :: sts') else None
      end
  end.

(** The states of the captures at the end, if none is closed that is not open,
    none named that is not closed, and they are at most 32. *)
Fixpoint caps_ok (sts : list cstat) (its : list item) : option (list cstat) :=
  match its with
  | [] => Some sts
  | IOpen :: r => if zlen sts <? LUA_MAXCAPTURES then caps_ok (sts ++ [COpen]) r else None
  | IOpenPos :: r => if zlen sts <? LUA_MAXCAPTURES then caps_ok (sts ++ [CPos]) r else None
  | IClose :: r => sts' ← close_stat sts; caps_ok sts' r
  | IBack k :: r =>
      match zget sts k with Some c => if bool_decide (c = COpen) then None else caps_ok sts r | None => None end
  | _ :: r => caps_ok sts r
  end.

(** The items for which the matcher calls itself. *)
Definition cost1 (it : item) : Z :=
  match it with ISet _ QOne | IBal _ _ | IFront _ | IBack _ | IEnd => 0 | _ => 1 end.
Definition cost (its : list item) : Z := fold_right (fun it k => cost1 it + k) 0 its.
End MatchSpec.
