(* ===== verification/LibStringMatch.v ===== *)
(** * LibStringMatch

    The matcher finds the preferred match: by induction on the items of a
    pattern, every call of [match] returns the first of the matches
    [MatchSpec.den] lists, with its captures, or fails and leaves the captures
    as they were. *)
From stdpp Require Import base tactics numbers list.
From Stdlib Require Import ZArith Lia.
From S2P Require Import Prelude LjStr LibString LibStringSpec.
Open Scope Z_scope.

Module MatchCorrect.
Import Match MatchSpec.

(** ** Classes *)

Lemma isa_pres c t : in_u8 c -> t ∈ Char.classes -> isa c t = POk (Char.ascii_class t c).
Proof.
  intros Hc Ht. pose proof (Char.char_ok_all c Hc) as H. apply andb_prop in H as [H _].
  rewrite forallb_forall in H. specialize (H t (proj1 (list_elem_of_In _ _) Ht)).
  unfold isa. destruct (Char.lj_char_isa c t) as [b|]; [|done]. cbn. f_equal. by apply eqb_prop.
Qed.

Lemma match_class_ok c cl : in_u8 c -> in_u8 cl -> match_class c cl = POk (class_has cl c).
Proof.
  intros Hc Hcl.
  assert (H : forallb (fun cl => forallb (fun c =>
    match match_class c cl with POk b => Bool.eqb b (class_has cl c) | _ => false end) (seqZ 0 256)) (seqZ 0 256) = true)
    by (vm_compute; reflexivity).
  pose proof (u8_exhaustive (fun cl => forallb _ (seqZ 0 256)) H cl Hcl) as H1. cbv beta in H1. clear H.
  pose proof (u8_exhaustive (fun c => match match_class c cl with POk b => _ | _ => _ end) H1 c Hc) as E. cbv beta in E. clear H1.
  revert E. generalize (class_has cl c), (match_class c cl).
  intros b [b'|e| |] E; [|discriminate E..]. f_equal. by apply Bool.eqb_prop.
Qed.

(** ** Places in the pattern *)

Section pattern.
Context (src pat : list Z).

(** [p] is the place of the text [l], up to the end of the pattern. *)
Definition at_p (p : Z) (l : list Z) : Prop :=
  exists pre tl, pat = pre ++ l ++ 0 :: tl /\ p = zlen pre /\ Forall (fun c => in_u8 c /\ c <> 0) l.

Lemma at_p_app p u l : at_p p (u ++ l) -> at_p (p + zlen u) l.
Proof using.
  intros (pre & tl & E & -> & H). exists (pre ++ u), tl. rewrite zlen_app. apply Forall_app in H as [_ H].
  split_and!; [|done|done]. by rewrite E, <- !app_assoc.
Qed.
Lemma at_p_tail p l : at_p p l -> l <> [] -> at_p (p + 1) (tail l).
Proof using. destruct l as [|c l]; [done|]. intros H _. by apply (at_p_app p [c]). Qed.
Lemma rdp_at p l : at_p p l -> rdp pat p = POk (ch l).
Proof using.
  intros (pre & tl & E & -> & _). unfold rdp. rewrite E.
  destruct l as [|c l]; cbn [app]; by rewrite zget_middle.
Qed.
Lemma at_p_char p c l : at_p p (c :: l) -> in_u8 c /\ c <> 0.
Proof using. intros (pre & tl & _ & _ & H). by apply Forall_inv in H. Qed.
Lemma at_p_length p l : at_p p l -> (length l < length pat)%nat.
Proof using. intros (pre & tl & E & _). rewrite E, !length_app. cbn. lia. Qed.
Lemma at_p_ch p l : at_p p l -> ch l = 0 <-> l = [].
Proof using. intros H. destruct l as [|c l]; [done|]. apply at_p_char in H. cbn. naive_solver. Qed.
Lemma rdp_next p l : at_p p l -> l <> [] -> rdp pat (p + 1) = POk (ch (tail l)).
Proof using. intros H Hne. apply rdp_at. by apply at_p_tail. Qed.

(** ** Brackets *)

Lemma bracket_body_app : forall l body r, bracket_body l = Some (body, r) -> l = body ++ 93 :: r /\ body <> [].
Proof using.
  intros l. remember (length l) as k eqn:Hk. revert l Hk.
  induction (lt_wf k) as [k _ IH]. intros l -> body r E. destruct l as [|c l1]; [done|]. cbn [bracket_body] in E.
  assert (Hgo : forall taken rest, (length rest < length (c :: l1))%nat -> taken <> [] ->
    (if ch rest =? 93 then Some (taken, tail rest) else r ← bracket_body rest; Some (taken ++ r.1, r.2)) = Some (body, r) ->
    taken ++ rest = body ++ 93 :: r /\ body <> []).
  { intros taken rest Hlt Hne E'. destruct (Z.eqb_spec (ch rest) 93) as [E93|_].
    - injection E' as <- <-. destruct rest as [|x rest]; [done|]. cbn in E93. subst x. done.
    - destruct (bracket_body rest) as [[b' r']|] eqn:Er; [|done]. injection E' as <- <-.
      destruct (IH _ Hlt rest eq_refl _ _ Er) as [-> _]. split; [by rewrite <- app_assoc|].
      by destruct taken. }
  destruct (c =? L_ESC).
  - destruct l1 as [|d l2]; [done|]. apply (Hgo [c; d] l2); [cbn; lia|done|done].
  - apply (Hgo [c] l1); [cbn; lia|done|done].
Qed.

Lemma classend_body : forall fuel p l body r,
  at_p p l -> bracket_body l = Some (body, r) -> (length l < fuel)%nat ->
  classend_loop pat fuel p = POk (p + zlen body + 1).
Proof using.
  induction fuel as [|fuel IH]; intros p l body r Hat E Hf; [lia|].
  destruct l as [|c l1]; [done|]. cbn [bracket_body classend_loop] in *.
  rewrite (rdp_at _ _ Hat). cbn [mbind pres_bind ch hd]. destruct (at_p_char _ _ _ Hat) as [_ Hc].
  rewrite (proj2 (Z.eqb_neq c 0) Hc). pose proof (at_p_app p [c] l1 Hat) as H1.
  change (zlen [c]) with 1 in H1. rewrite (rdp_at _ _ H1). cbn [mbind pres_bind].
  assert (Hgo : forall q taken rest, at_p q rest -> (length rest < fuel)%nat -> q = p + zlen taken ->
    (if ch rest =? 93 then Some (taken, tail rest) else r ← bracket_body rest; Some (taken ++ r.1, r.2)) = Some (body, r) ->
    (c2 ← rdp pat q; if negb (c2 =? 93) then classend_loop pat fuel q else POk (q + 1)) = POk (p + zlen body + 1)).
  { intros q taken rest Hq Hlt -> E'. rewrite (rdp_at _ _ Hq). cbn [mbind pres_bind].
    destruct (ch rest =? 93).
    - injection E' as <- <-. done.
    - destruct (bracket_body rest) as [[b' r']|] eqn:Er; [|done]. injection E' as <- <-. cbn [negb].
      rewrite (IH _ _ _ _ Hq Er Hlt). f_equal. cbn [fst]. rewrite zlen_app. lia. }
  destruct (Z.eqb_spec c L_ESC) as [->|Hne]; cbn [andb].
  - destruct l1 as [|d l2]; [done|]. destruct (at_p_char _ _ _ H1) as [_ Hd]. cbn [ch hd].
    rewrite (proj2 (Z.eqb_neq d 0) Hd). cbn [negb].
    apply (Hgo (p + 1 + 1) [L_ESC; d] l2); [by apply (at_p_app (p + 1) [d])|cbn in Hf; lia|change (zlen [L_ESC; d]) with 2; lia|done].
  - apply (Hgo (p + 1) [c] l1); [done|cbn in Hf; lia|done|done].
Qed.

Lemma at_p_byte p l : at_p p l -> in_u8 (ch l).
Proof using. destruct l as [|c l]; [done|]. intros H. by apply at_p_char in H as [H _]. Qed.

Lemma bracket_loop_ok c sig : in_u8 c -> forall fuel body p r,
  at_p (p + 1) (body ++ 93 :: r) -> (S (length body) < fuel)%nat ->
  bracket_loop pat fuel c p (p + 1 + zlen body) sig =
    POk (if existsb (elem_has c) (elems body) then sig else negb sig).
Proof using.
  intros Hc. induction fuel as [|fuel IH]; intros body p r Hat Hf; [lia|]. cbn [bracket_loop].
  destruct body as [|a l1]; [by rewrite Z.add_0_r, Z.ltb_irrefl|].
  rewrite zlen_cons. pose proof (zlen_nonneg l1). rewrite (proj2 (Z.ltb_lt _ _)) by lia.
  rewrite (rdp_at _ _ Hat). cbn [mbind pres_bind ch hd app]. cbn [app] in Hat.
  pose proof (at_p_app _ [a] _ Hat) as H1. change (zlen [a]) with 1 in H1. rewrite (rdp_at _ _ H1).
  cbn [mbind pres_bind elems length] in *. destruct (Z.eqb_spec a L_ESC) as [->|Hne].
  - pose proof (at_p_byte _ _ H1) as Hb. rewrite match_class_ok by done. cbn [mbind pres_bind].
    destruct l1 as [|cl l2]; cbn [app ch hd existsb elem_has] in *.
    + change (zlen []) with 0. destruct (class_has 93 c); [done|]. cbn [orb].
      destruct fuel as [|fuel]; [lia|]. cbn [bracket_loop]. by rewrite (proj2 (Z.ltb_ge _ _)) by lia.
    + destruct (class_has cl c); [done|]. cbn [orb]. rewrite zlen_cons.
      replace (p + 1 + (1 + (1 + zlen l2))) with (p + 1 + 1 + 1 + zlen l2) by lia.
      apply (IH l2 (p + 1 + 1) r); [by apply (at_p_app (p + 1 + 1) [cl])|cbn in Hf; lia].
  - assert (Hch : forall l, (length l < fuel - 1)%nat -> at_p (p + 1 + 1) (l ++ 93 :: r) ->
      (if a =? c then POk sig else bracket_loop pat fuel c (p + 1) (p + 1 + (1 + zlen l)) sig) =
      POk (if existsb (elem_has c) (EChar a :: elems l) then sig else negb sig)).
    { intros l Hl Hat'. cbn [existsb elem_has]. destruct (a =? c); [done|]. cbn [orb].
      replace (p + 1 + (1 + zlen l)) with (p + 1 + 1 + zlen l) by lia. apply (IH l (p + 1) r); [done|lia]. }
    destruct l1 as [|d [|hi l3]]; cbn [app ch hd] in *.
    + change (93 =? 45) with false. cbn [andb]. apply (Hch []); [cbn in *; lia|done].
    + change (zlen [d]) with 1. rewrite (proj2 (Z.ltb_ge (p + 1 + 2) (p + 1 + (1 + 1)))), andb_false_r by lia.
      apply (Hch [d]); [cbn in *; lia|done].
    + rewrite !zlen_cons in *. pose proof (zlen_nonneg l3). rewrite (proj2 (Z.ltb_lt (p + 1 + 2) _)), andb_true_r by lia.
      destruct (d =? 45).
      * pose proof (at_p_app _ [d] _ H1) as H2. change (zlen [d]) with 1 in H2.
        replace (p + 1 + 2) with (p + 1 + 1 + 1) by lia. rewrite (rdp_at _ _ H2).
        cbn [mbind pres_bind existsb elem_has ch hd]. destruct ((a <=? c) && (c <=? hi)); [done|]. cbn [orb].
        replace (p + 1 + (1 + (1 + (1 + zlen l3)))) with (p + 1 + 1 + 1 + 1 + zlen l3) by lia.
        apply (IH l3 (p + 1 + 1 + 1) r); [by apply (at_p_app (p + 1 + 1 + 1) [hi])|cbn in Hf; lia].
      * pose proof (Hch (d :: hi :: l3)) as Hq. rewrite !zlen_cons in Hq. apply Hq; [cbn in *; lia|done].
Qed.

(** ** Single characters *)

Lemma parse_set_app l st r : parse_set l = Some (st, r) -> exists u, l = u ++ r /\ u <> [].
Proof using.
  unfold parse_set. destruct l as [|c l1]; [done|]. intros E. destruct (c =? L_ESC).
  - destruct l1 as [|d l2]; [done|]. injection E as <- <-. by exists [c; d].
  - destruct (c =? 91).
    + destruct (bracket_body _) as [[body r']|] eqn:Eb; [|done]. injection E as <- <-.
      apply bracket_body_app in Eb as [Eb _]. cbn [snd]. destruct (Z.eqb_spec (ch l1) 94) as [E94|_].
      * destruct l1 as [|x l1]; [done|]. cbn in E94, Eb. subst x l1. exists (c :: 94 :: body ++ [93]).
        split; [cbn [app]; by rewrite <- app_assoc|done].
      * subst l1. exists (c :: body ++ [93]). split; [cbn [app]; by rewrite <- app_assoc|done].
    + injection E as <- <-. by exists [c].
Qed.

(** Where the item ends, and which characters it matches. *)
Lemma classend_ok p l st r :
  at_p p l -> parse_set l = Some (st, r) -> classend pat p = POk (p + zlen l - zlen r).
Proof using.
  intros Hat E. unfold classend. rewrite (rdp_at _ _ Hat). cbn [mbind pres_bind].
  destruct l as [|c l1]; [done|]. cbn [parse_set ch hd] in *.
  pose proof (at_p_app _ [c] _ Hat) as H1. change (zlen [c]) with 1 in H1. rewrite zlen_cons.
  destruct (c =? L_ESC).
  - destruct l1 as [|d l2]; [done|]. rewrite (rdp_at _ _ H1). cbn [mbind pres_bind ch hd].
    destruct (at_p_char _ _ _ H1) as [_ Hd]. rewrite (proj2 (Z.eqb_neq d 0) Hd). injection E as <- <-.
    f_equal. rewrite zlen_cons. lia.
  - destruct (c =? 91).
    + rewrite (rdp_at _ _ H1). cbn [mbind pres_bind].
      destruct (bracket_body _) as [[body r']|] eqn:Eb; [|done]. injection E as <- <-. cbn [snd].
      pose proof (at_p_length _ _ H1) as Hl. pose proof Eb as Eb'. apply bracket_body_app in Eb' as [El _].
      destruct (Z.eqb_spec (ch l1) 94) as [E94|_].
      * destruct l1 as [|x l1]; [done|]. cbn [ch hd tail] in *. subst x.
        pose proof (at_p_app _ [94] _ H1) as H2. change (zlen [94]) with 1 in H2.
        rewrite (classend_body _ _ _ _ _ H2 Eb) by (unfold pat_rounds; cbn in Hl; lia).
        f_equal. rewrite zlen_cons, El, zlen_app, zlen_cons. lia.
      * rewrite (classend_body _ _ _ _ _ H1 Eb) by (unfold pat_rounds; lia).
        f_equal. rewrite El, zlen_app, zlen_cons. lia.
    + injection E as <- <-. f_equal. lia.
Qed.

Lemma bracket_ok c p l1 body r :
  in_u8 c -> at_p p (91 :: l1) -> let neg := ch l1 =? 94 in
  bracket_body (if neg then tail l1 else l1) = Some (body, r) ->
  matchbracketclass pat c p (p + zlen (91 :: l1) - zlen r - 1) = POk (set_has (SBracket neg (elems body)) c).
Proof using.
  intros Hc Hat neg Eb. unfold matchbracketclass.
  pose proof (at_p_app _ [91] _ Hat) as H1. change (zlen [91]) with 1 in H1. rewrite (rdp_at _ _ H1).
  cbn [mbind pres_bind]. pose proof Eb as Eb'. apply bracket_body_app in Eb' as [El _].
  pose proof (at_p_length _ _ H1) as Hl. unfold neg in *. destruct (Z.eqb_spec (ch l1) 94) as [E94|_].
  - destruct l1 as [|x l1]; [done|]. cbn [ch hd tail] in *. subst x l1.
    pose proof (at_p_app _ [94] _ H1) as H2. change (zlen [94]) with 1 in H2.
    replace (p + zlen (91 :: 94 :: body ++ 93 :: r) - zlen r - 1) with (p + 1 + 1 + zlen body)
      by (rewrite !zlen_cons, zlen_app, zlen_cons; lia).
    rewrite (bracket_loop_ok c false Hc _ body (p + 1) r H2).
    + cbn [set_has]. by destruct (existsb _ _).
    + unfold pat_rounds. cbn [length] in Hl. rewrite length_app in Hl. cbn in Hl. lia.
  - subst l1. replace (p + zlen (91 :: body ++ 93 :: r) - zlen r - 1) with (p + 1 + zlen body)
      by (rewrite !zlen_cons, zlen_app, zlen_cons; lia).
    rewrite (bracket_loop_ok c true Hc _ body p r H1).
    + cbn [set_has]. by destruct (existsb _ _).
    + unfold pat_rounds. rewrite length_app in Hl. cbn in Hl. lia.
Qed.

Lemma singlematch_ok c p l st r :
  in_u8 c -> at_p p l -> parse_set l = Some (st, r) ->
  singlematch pat c p (p + zlen l - zlen r) = POk (set_has st c).
Proof using.
  intros Hc Hat E. unfold singlematch. rewrite (rdp_at _ _ Hat). cbn [mbind pres_bind].
  destruct l as [|x l1]; [done|]. cbn [parse_set ch hd] in *.
  pose proof (at_p_app _ [x] _ Hat) as H1. change (zlen [x]) with 1 in H1.
  destruct (Z.eqb_spec x 46) as [->|H46].
  { injection E as <- <-. done. }
  destruct (Z.eqb_spec x L_ESC) as [->|].
  { destruct l1 as [|d l2]; [done|]. injection E as <- <-. rewrite (rdp_at _ _ H1). cbn [mbind pres_bind ch hd].
    by apply match_class_ok; [|eapply at_p_byte in H1]. }
  destruct (Z.eqb_spec x 91) as [->|]; [|by injection E as <- <-].
  destruct (bracket_body _) as [[body r']|] eqn:Eb; [|done]. injection E as <- <-. by apply bracket_ok.
Qed.
End pattern.

(** ** The subject *)

Section subject.
Context (s pat : list Z) (bytes : Forall in_u8 s) (short : zlen s < 2 ^ 31).
Abbreviation n := (zlen s).
Abbreviation src := (c_text s).

Lemma src_end_ok : src_end src = n.
Proof using. unfold src_end, c_text. rewrite zlen_app. change (zlen [0]) with 1. lia. Qed.

Lemma rest_cons i c : zget s i = Some c -> drop (Z.to_nat i) s = c :: drop (Z.to_nat (i + 1)) s.
Proof using.
  intros H. pose proof (zget_Some_range _ _ _ H). unfold zget in H. case_match; [done|].
  rewrite (drop_S _ _ _ H). do 2 f_equal. lia.
Qed.
Lemma rest_nil i : n <= i -> drop (Z.to_nat i) s = [].
Proof using. intros H. apply drop_ge. unfold zlen in H. lia. Qed.
Lemma byte_at i c : zget s i = Some c -> in_u8 c.
Proof using bytes.
  unfold zget. destruct (i <? 0); [done|]. intros H. by apply (Forall_lookup_1 _ _ _ _ bytes H).
Qed.
Lemma rds_at i c : zget s i = Some c -> rds src i = POk c.
Proof using.
  intros H. pose proof (zget_Some_range _ _ _ H). unfold rds, c_text. by rewrite zget_app_l, H by lia.
Qed.
Lemma rds_any i : 0 <= i <= n -> rds src i = POk (default 0 (zget s i)).
Proof using.
  intros Hi. destruct (Z.lt_ge_cases i n) as [Hlt|Hge].
  - destruct (zget_is_Some s i ltac:(lia)) as [c E]. rewrite E. by apply rds_at.
  - assert (i = n) as -> by lia. unfold rds, c_text. rewrite zget_middle.
    destruct (zget s n) eqn:E; [|done]. apply zget_Some_range in E. lia.
Qed.
Lemma byte_any i : in_u8 (default 0 (zget s i)).
Proof using bytes. destruct (zget s i) eqn:E; [by eapply byte_at|done]. Qed.

(** A set at [p] whose text is the [l] up to [r]. *)
Definition set_at (p : Z) (st : cset) (ep : Z) (r : list Z) : Prop :=
  exists l, at_p pat p l /\ parse_set l = Some (st, r) /\ ep = p + zlen l - zlen r.

Lemma matches_here_ok i p ep st r : set_at p st ep r -> 0 <= i <= n -> matches_here src pat i p ep = POk (has s st i).
Proof using bytes.
  intros (l & Hat & E & ->) Hi. unfold matches_here, has. rewrite src_end_ok.
  destruct (Z.ltb_spec i n).
  - destruct (zget_is_Some s i ltac:(lia)) as [c Ec]. rewrite Ec, (rds_at _ _ Ec). cbn [mbind pres_bind].
    by rewrite (singlematch_ok pat c p l st r (byte_at _ _ Ec) Hat E).
  - destruct (zget s i) eqn:Eg; [|done]. apply zget_Some_range in Eg. lia.
Qed.

Lemma run_has st i : 0 <= i -> run s st i = if has s st i then S (run s st (i + 1)) else O.
Proof using.
  intros Hi. unfold run, has. destruct (zget s i) as [c|] eqn:E.
  - by rewrite (rest_cons _ _ E).
  - rewrite rest_nil; [done|]. destruct (Z.lt_ge_cases i n); [|done].
    destruct (zget_is_Some s i ltac:(lia)) as [c Ec]. congruence.
Qed.
Lemma run_bound st i : 0 <= i <= n -> i + Z.of_nat (run s st i) <= n.
Proof using.
  intros Hi. unfold run. assert (H : forall l, (runlen st l <= length l)%nat).
  { induction l as [|c l IH]; cbn; [lia|]. destruct (set_has st c); lia. }
  specialize (H (drop (Z.to_nat i) s)). rewrite length_drop in H. unfold zlen in *. lia.
Qed.

Lemma max_count_ok p ep st r : set_at p st ep r -> forall fuel i k,
  0 <= i -> 0 <= k -> i + k <= n -> (run s st (i + k) < fuel)%nat ->
  max_count src pat fuel i p ep k = POk (k + Z.of_nat (run s st (i + k))).
Proof using bytes.
  intros Hst. induction fuel as [|fuel IH]; intros i k Hi Hk Hn Hf; [lia|]. cbn [max_count].
  rewrite (matches_here_ok (i + k) p ep st r Hst) by lia. cbn [mbind pres_bind].
  rewrite run_has in * by lia. destruct (has s st (i + k)) eqn:Eh; [|f_equal; lia].
  assert (Hlt : i + k < n).
  { unfold has in Eh. destruct (zget s (i + k)) eqn:Eg; [|done]. apply zget_Some_range in Eg. lia. }
  rewrite IH by (try lia; replace (i + (k + 1)) with (i + k + 1) by lia; lia).
  replace (i + (k + 1)) with (i + k + 1) by lia. f_equal. lia.
Qed.

(** *** Balance *)

Lemma balance_loop_ok b e : forall fuel i cont,
  -1 <= i < n -> (Z.to_nat (n - i) < fuel)%nat ->
  balance_loop src fuel i b e cont =
    POk (k ← bal b e cont (drop (Z.to_nat (i + 1)) s); Some (i + 1 + k)).
Proof using.
  induction fuel as [|fuel IH]; intros i cont Hi Hf; [lia|]. cbn [balance_loop]. rewrite src_end_ok.
  destruct (Z.ltb_spec (i + 1) n) as [Hlt|Hge]; [|by rewrite rest_nil].
  destruct (zget_is_Some s (i + 1) ltac:(lia)) as [c Ec]. rewrite (rest_cons _ _ Ec), (rds_at _ _ Ec).
  cbn [mbind pres_bind bal]. destruct (c =? e).
  - destruct (Z.eqb_spec cont 1) as [->|Hne]; [cbn; do 2 f_equal; lia|].
    rewrite (proj2 (Z.eqb_neq (cont - 1) 0)) by lia. rewrite IH by lia.
    destruct (bal b e (cont - 1) _); cbn; [do 2 f_equal; lia|done].
  - rewrite IH by lia. destruct (bal b e _ _); cbn; [do 2 f_equal; lia|done].
Qed.

Lemma matchbalance_ok i p b e l : 0 <= i <= n -> at_p pat p (b :: e :: l) ->
  matchbalance src pat i p = POk (balanced s b e i).
Proof using.
  intros Hi Hat. unfold matchbalance. rewrite (rdp_at _ _ _ Hat). cbn [mbind pres_bind ch hd].
  destruct (at_p_char _ _ _ _ Hat) as [_ Hb]. rewrite (proj2 (Z.eqb_neq b 0) Hb).
  apply at_p_tail in Hat; [|done]. cbn [tail] in Hat. rewrite (rdp_at _ _ _ Hat). cbn [mbind pres_bind ch hd].
  destruct (at_p_char _ _ _ _ Hat) as [_ He]. rewrite (proj2 (Z.eqb_neq e 0) He).
  rewrite rds_any by done. cbn [mbind pres_bind]. unfold balanced.
  destruct (zget s i) as [c|] eqn:Ec; cbn [default].
  - change (id c) with c. pose proof (zget_Some_range _ _ _ Ec). rewrite (rest_cons _ _ Ec).
    destruct (Z.eqb_spec c b); [|done]. cbn [negb]. rewrite balance_loop_ok; [done|lia|].
    unfold src_rounds, c_text. rewrite length_app. unfold zlen in *. cbn. lia.
  - rewrite (proj2 (Z.eqb_neq 0 b)) by done. cbn [negb]. rewrite rest_nil; [done|].
    destruct (Z.lt_ge_cases i n); [|done]. destruct (zget_is_Some s i ltac:(lia)) as [c E']. congruence.
Qed.

(** *** Captures *)

Abbreviation cap := (Z * Z)%type.

(** The matcher's captures are [cs]. *)
Definition repr (ms : MatchState) (cs : list cap) : Prop :=
  level ms = zlen cs /\ zlen cs <= LUA_MAXCAPTURES /\ zlen (capture ms) = LUA_MAXCAPTURES /\
  forall j c, zget cs j = Some c -> zget (capture ms) j = Some (Some c).

(** They lie before [i]. *)
Definition cap_ok (i : Z) (c : cap) : Prop :=
  0 <= c.1 <= i /\ (c.2 = CAP_UNFINISHED \/ c.2 = CAP_POSITION \/ 0 <= c.2 /\ c.1 + c.2 <= i).

Lemma cap_ok_mono i j cs : i <= j -> Forall (cap_ok i) cs -> Forall (cap_ok j) cs.
Proof using. intros H Hc. eapply Forall_impl; [done|]. unfold cap_ok. lia. Qed.

Lemma get_cap_ok ms cs j c : repr ms cs -> zget cs j = Some c -> get_cap ms j = POk c.
Proof using. intros (_ & _ & _ & H) Hj. unfold get_cap. by rewrite (H j c Hj). Qed.

Lemma set_cap_ok ms a c b c' : repr ms (a ++ c :: b) ->
  exists ms', set_cap ms (zlen a) c' = POk ms' /\ repr ms' (a ++ c' :: b) /\ depth ms' = depth ms.
Proof using.
  intros (H1 & H2 & H3 & H4). unfold set_cap. pose proof (zlen_nonneg a). pose proof (zlen_nonneg b).
  rewrite zlen_app, zlen_cons in *.
  destruct (zset_is_Some (capture ms) (zlen a) (Some c')) as [cs' E]; [lia|]. rewrite E. cbn [pchk mbind pres_bind].
  eexists. split_and!; [done| |done]. unfold repr. cbn [level capture]. rewrite zlen_app, zlen_cons.
  split_and!; [lia|lia|rewrite (zset_length _ _ _ _ E); lia|].
  intros j x Hj. destruct (decide (j = zlen a)) as [->|Hne].
  - rewrite zget_middle in Hj. injection Hj as <-. by apply (zget_zset_eq _ _ _ _ E).
  - rewrite (zget_zset_ne _ _ _ _ _ E) by done. apply H4.
    destruct (Z.lt_ge_cases j (zlen a)); [by rewrite zget_app_l in * by lia|].
    rewrite zget_app_r in * by lia. by rewrite zget_cons_pos in * by lia.
Qed.

Lemma push_cap ms cs c : repr ms cs -> zlen cs < LUA_MAXCAPTURES ->
  exists ms', set_cap ms (level ms) c = POk ms' /\ repr (with_level ms' (level ms' + 1)) (cs ++ [c]) /\
              depth ms' = depth ms.
Proof using.
  intros (H1 & H2 & H3 & H4) Hl. unfold set_cap. pose proof (zlen_nonneg cs).
  destruct (zset_is_Some (capture ms) (level ms) (Some c)) as [cs' E]; [lia|]. rewrite E. cbn [pchk mbind pres_bind].
  eexists. split_and!; [done| |done]. unfold repr. cbn [level capture with_level]. rewrite zlen_app. change (zlen [c]) with 1.
  split_and!; [lia|lia|rewrite (zset_length _ _ _ _ E); lia|].
  intros j x Hj. destruct (decide (j = zlen cs)) as [->|Hne].
  - rewrite zget_middle in Hj. injection Hj as <-. rewrite <- H1. by apply (zget_zset_eq _ _ _ _ E).
  - rewrite (zget_zset_ne _ _ _ _ _ E) by lia. apply H4. pose proof (zget_Some_range _ _ _ Hj) as Hr.
    rewrite zlen_app in Hr. change (zlen [c]) with 1 in Hr. by rewrite zget_app_l in Hj by lia.
Qed.

Lemma pop_cap ms cs c : repr ms (cs ++ [c]) -> repr (with_level ms (level ms - 1)) cs.
Proof using.
  intros (H1 & H2 & H3 & H4). rewrite zlen_app in *. change (zlen [c]) with 1 in *. unfold repr. cbn [level capture with_level].
  split_and!; [lia|lia|done|]. intros j x Hj. apply H4. rewrite zget_app_l; [done|]. apply zget_Some_range in Hj. lia.
Qed.

Lemma close_split i cs cs' : close_cap i cs = Some cs' ->
  exists a c b, cs = a ++ c :: b /\ c.2 = CAP_UNFINISHED /\ Forall (fun c => c.2 <> CAP_UNFINISHED) b /\
                cs' = a ++ (c.1, i - c.1) :: b.
Proof using.
  assert (Hn : forall cs, close_cap i cs = None -> Forall (fun c => c.2 <> CAP_UNFINISHED) cs).
  { induction cs0 as [|c cs0 IH]; [done|]. cbn [close_cap]. destruct (close_cap i cs0) eqn:E; [done|].
    destruct (Z.eqb_spec c.2 CAP_UNFINISHED); [done|]. intros _. constructor; [done|by apply IH]. }
  revert cs'. induction cs as [|c cs IH]; intros cs' E; [done|]. cbn [close_cap] in E.
  destruct (close_cap i cs) as [cs1|] eqn:E1.
  - injection E as <-. destruct (IH _ eq_refl) as (a & c0 & b & -> & H1 & H2 & ->). by exists (c :: a), c0, b.
  - destruct (Z.eqb_spec c.2 CAP_UNFINISHED); [|done]. injection E as <-. exists [], c, cs. split_and!; try done. by apply Hn.
Qed.

Lemma to_close_ok ms a c b : repr ms (a ++ c :: b) -> c.2 = CAP_UNFINISHED ->
  Forall (fun c => c.2 <> CAP_UNFINISHED) b -> capture_to_close ms = POk (zlen a).
Proof using.
  intros Hr Hc Hb. unfold capture_to_close.
  assert (H : forall b', Forall (fun c => c.2 <> CAP_UNFINISHED) b' ->
    (forall j x, zget (a ++ c :: b') j = Some x -> get_cap ms j = POk x) ->
    to_close (length (a ++ c :: b')) ms = POk (zlen a)).
  { intros b'. induction b' as [|x b' IH] using rev_ind; intros Hb' Hg.
    - rewrite length_app. cbn [length]. rewrite Nat.add_1_r. cbn [to_close]. fold (zlen a).
      rewrite (Hg (zlen a) c) by (apply zget_middle). cbn [mbind pres_bind]. by rewrite Hc.
    - apply Forall_app in Hb' as [Hb' Hx]. rewrite Forall_singleton in Hx.
      change (a ++ c :: b' ++ [x]) with (a ++ (c :: b') ++ [x]) in *. rewrite app_assoc in *.
      rewrite length_app. cbn [length]. rewrite Nat.add_1_r. cbn [to_close]. fold (zlen (a ++ c :: b')).
      rewrite (Hg _ x) by (apply zget_middle). cbn [mbind pres_bind].
      rewrite (proj2 (Z.eqb_neq _ _) Hx). apply IH; [done|]. intros j y Hj. apply Hg.
      rewrite zget_app_l; [done|]. apply zget_Some_range in Hj. lia. }
  destruct Hr as (Hl & Hr). rewrite Hl. unfold zlen at 1. rewrite Nat2Z.id. apply H; [done|].
  intros j x. apply get_cap_ok. by split.
Qed.

Lemma stat_open c : stat c = COpen <-> c.2 = CAP_UNFINISHED.
Proof using. unfold stat. destruct (Z.eqb_spec c.2 CAP_UNFINISHED); [done|]. by destruct (_ =? _). Qed.

Lemma stat_closed a k : 0 <= k -> stat (a, k) = CDone.
Proof using.
  intros Hk. unfold stat, CAP_UNFINISHED, CAP_POSITION. cbn [snd].
  by rewrite (proj2 (Z.eqb_neq k (-1))), (proj2 (Z.eqb_neq k (-2))) by lia.
Qed.

Lemma close_stat_ok i cs : Forall (cap_ok i) cs ->
  close_stat (map stat cs) = option_map (map stat) (close_cap i cs).
Proof using.
  induction 1 as [|c cs Hc _ IH]; [done|]. cbn [map close_stat close_cap]. rewrite IH.
  destruct (close_cap i cs) as [cs'|]; cbn [option_map]; [done|].
  destruct (Z.eqb_spec c.2 CAP_UNFINISHED) as [Eu|].
  - rewrite bool_decide_true by (by apply stat_open). cbn [option_map map].
    rewrite stat_closed; [done|]. unfold cap_ok in Hc. lia.
  - by rewrite bool_decide_false by (by rewrite stat_open).
Qed.

Lemma close_cap_ok i cs cs' : Forall (cap_ok i) cs -> close_cap i cs = Some cs' -> Forall (cap_ok i) cs'.
Proof using.
  intros H E. apply close_split in E as (a & c & b & -> & Hc & _ & ->).
  apply Forall_app in H as [Ha H]. apply Forall_cons in H as [Hx Hb]. apply Forall_app. split; [done|].
  constructor; [|done]. unfold cap_ok in *. cbn [fst snd]. lia.
Qed.

Lemma memeq_ok k : forall a b, 0 <= a -> 0 <= b -> a + Z.of_nat k <= n -> b + Z.of_nat k <= n ->
  memeq src k a b = POk (bool_decide (piece s a (Z.of_nat k) = piece s b (Z.of_nat k))).
Proof using.
  induction k as [|k IH]; intros a b Ha Hb Hka Hkb; [done|]. cbn [memeq].
  destruct (zget_is_Some s a ltac:(lia)) as [x Ex], (zget_is_Some s b ltac:(lia)) as [y Ey].
  rewrite (rds_at _ _ Ex), (rds_at _ _ Ey). cbn [mbind pres_bind]. unfold piece in *.
  rewrite (rest_cons _ _ Ex), (rest_cons _ _ Ey), Nat2Z.id. cbn [take].
  destruct (Z.eqb_spec x y) as [->|Hne].
  - rewrite IH by lia. rewrite Nat2Z.id. f_equal. apply bool_decide_ext. split; [intros ->; done|]. by intros [= ->].
  - by rewrite bool_decide_false by congruence.
Qed.

Lemma match_capture_ok ms cs i d c :
  repr ms cs -> zget cs (d - 49) = Some c -> stat c <> COpen -> cap_ok i c -> 0 <= i <= n ->
  match_capture src ms i d = POk (if repeats s c i then Some (i + c.2) else None).
Proof using short.
  intros Hr Hc Hst Hok Hi. unfold match_capture, check_capture, repeats.
  pose proof (zget_Some_range _ _ _ Hc) as Hrg. destruct Hr as (Hl & Hr). rewrite Hl.
  rewrite (proj2 (Z.ltb_ge (d - 49) 0)), (proj2 (Z.leb_gt (zlen cs) (d - 49))) by lia. cbn [orb].
  rewrite (get_cap_ok ms cs _ c (conj Hl Hr) Hc). cbn [mbind pres_bind].
  assert (Hu : c.2 <> CAP_UNFINISHED) by (intros E; apply Hst; unfold stat; by rewrite E).
  rewrite (proj2 (Z.eqb_neq _ _) Hu). cbn [mbind pres_bind]. rewrite (get_cap_ok ms cs _ c (conj Hl Hr) Hc).
  cbn [mbind pres_bind]. rewrite src_end_ok. destruct Hok as [Hc1 [?|[Ep|[H0 Hle]]]]; [done| |].
  - rewrite Ep. change (u64 CAP_POSITION) with 18446744073709551614. change (0 <=? CAP_POSITION) with false. cbn [andb].
    by rewrite (proj2 (Z.leb_gt _ _)) by lia.
  - rewrite u64_small by (unfold in_u64; lia). rewrite (proj2 (Z.leb_le 0 c.2) H0). cbn [andb].
    destruct (Z.leb_spec c.2 (n - i)) as [Hn|Hn]; [|done]. cbn [andb].
    rewrite memeq_ok by lia. rewrite Z2Nat.id by lia. cbn [mbind pres_bind]. by case_match.
Qed.

(** ** A round of the matcher *)

Definition prev_cur (st : cset) (i : Z) : bool :=
  negb (set_has st (default 0 (zget s (i - 1)))) && set_has st (default 0 (zget s i)).

(** What a round does for an item that ends before [q]. *)
Definition round_of (rec : MatchState -> Z -> Z -> pres (option Z * MatchState))
    (it : item) (ms : MatchState) (i p q : Z) : pres (next * MatchState) :=
  let done r := r ← r; POk (Done r.1, r.2) in
  match it with
  | IOpen => done (start_capture rec ms i q CAP_UNFINISHED)
  | IOpenPos => done (start_capture rec ms i q CAP_POSITION)
  | IClose => done (end_capture rec ms i q)
  | IBal b e => POk (match balanced s b e i with Some j => Goto j q | None => Done None end, ms)
  | IFront st => POk (if prev_cur st i then Goto i q else Done None, ms)
  | IBack k => r ← match_capture src ms i (k + 49); POk (match r with Some j => Goto j q | None => Done None end, ms)
  | IEnd => POk (Done (if i =? n then Some i else None), ms)
  | ISet st QOne => POk (if has s st i then Goto (i + 1) q else Done None, ms)
  | ISet st QOpt =>
      r ← (if has s st i then rec ms (i + 1) q else POk (None, ms));
      POk (match r.1 with Some x => Done (Some x) | None => Goto i q end, r.2)
  | ISet st QStar => done (max_expand src pat rec ms i p (q - 1))
  | ISet st QPlus => if has s st i then done (max_expand src pat rec ms (i + 1) p (q - 1)) else POk (Done None, ms)
  | ISet st QMin => done (min_expand src pat rec ms i p (q - 1))
  end.

Lemma at_p_rest p u r l : at_p pat p l -> l = u ++ r -> at_p pat (p + zlen l - zlen r) r.
Proof using. intros H ->. apply at_p_app in H. rewrite zlen_app. by replace (p + (zlen u + zlen r) - zlen r) with (p + zlen u) by lia. Qed.

Lemma quant_app r q rest : parse_quant r = (q, rest) -> q = QOne /\ rest = r \/ q <> QOne /\ exists c, r = c :: rest.
Proof using.
  unfold parse_quant. destruct r as [|c r].
  - cbn. intros [= <- <-]. by left.
  - cbn [ch hd tail]. repeat case_match; intros [= <- <-]; eauto.
Qed.

Lemma match_item_ok rec ms i p l st r q rest :
  at_p pat p l -> parse_set l = Some (st, r) -> parse_quant r = (q, rest) -> 0 <= i <= n ->
  match_item src pat rec ms i p = round_of rec (ISet st q) ms i p (p + zlen l - zlen rest) /\
  at_p pat (p + zlen l - zlen rest) rest.
Proof using bytes.
  intros Hat E Eq Hi. destruct (parse_set_app l st r E) as (u & El & _).
  pose proof (at_p_rest p u r l Hat El) as Hr.
  assert (Hst : set_at p st (p + zlen l - zlen r) r) by (by exists l).
  assert (Hq : at_p pat (p + zlen l - zlen rest) rest).
  { destruct (quant_app _ _ _ Eq) as [[_ ->]|[_ [c ->]]]; [done|]. apply (at_p_app pat _ [c]) in Hr.
    rewrite zlen_cons in Hr. change (zlen [c]) with 1 in Hr.
    by replace (p + zlen l - (1 + zlen rest) + 1) with (p + zlen l - zlen rest) in Hr by lia. }
  split; [|done]. unfold match_item. rewrite (classend_ok pat p l st r Hat E). cbn [mbind pres_bind].
  rewrite (matches_here_ok i p _ st r Hst Hi). cbn [mbind pres_bind]. rewrite (rdp_at _ _ _ Hr). cbn [mbind pres_bind].
  unfold parse_quant in Eq. destruct r as [|c r]; cbn [ch hd tail] in *.
  { injection Eq as <- <-. done. }
  replace (p + zlen l - zlen (c :: r)) with (p + zlen l - zlen r - 1) in * by (rewrite zlen_cons; lia).
  destruct (c =? 63).
  { injection Eq as <- <-. cbn [round_of]. replace (p + zlen l - zlen r - 1 + 1) with (p + zlen l - zlen r) by lia.
    destruct (has s st i); [|done]. destruct (rec _ _ _) as [[res ms']| | |]; done. }
  destruct (c =? 42); [injection Eq as <- <-; done|]. destruct (c =? 43); [injection Eq as <- <-; done|].
  destruct (c =? 45); injection Eq as <- <-; [done|].
  replace (p + zlen l - zlen (c :: r)) with (p + zlen l - zlen r - 1) by (rewrite zlen_cons; lia). done.
Qed.

Lemma at_p_two p l : at_p pat p l -> l <> [] -> ch (tail l) <> 0 -> at_p pat (p + 2) (tail (tail l)).
Proof using.
  intros H Hne H1. apply at_p_tail in H; [|done]. apply at_p_tail in H.
  - by replace (p + 1 + 1) with (p + 2) in H by lia.
  - intros E. by rewrite E in H1.
Qed.

Lemma zlen_tail (l : list Z) : ch l <> 0 -> zlen l = 1 + zlen (tail l).
Proof using. destruct l; [done|]. intros _. apply zlen_cons. Qed.

Lemma isa_byte_digit c : in_u8 c -> isa c Char.LJ_CHAR_DIGIT = POk (Char.between 48 c 57).
Proof using. intros Hc. rewrite isa_pres; [done|done|]. apply list_elem_of_In. cbn. tauto. Qed.

Lemma frontier_ok ms i p l st r :
  at_p pat p l -> ch l = 91 -> parse_set l = Some (st, r) -> 0 <= i <= n ->
  match_frontier src pat ms i p = POk (if prev_cur st i then Goto i (p + zlen l - zlen r) else Done None, ms).
Proof using bytes.
  intros Hat Ec E Hi. unfold match_frontier. rewrite (rdp_at _ _ _ Hat). cbn [mbind pres_bind]. rewrite Ec.
  change (negb (91 =? 91)) with false. cbv iota. rewrite (classend_ok pat p l st r Hat E). cbn [mbind pres_bind].
  destruct l as [|x l1]; [done|]. cbn [ch hd] in Ec. subst x. cbn [parse_set] in E.
  change (91 =? L_ESC) with false in E. change (91 =? 91) with true in E. cbv iota zeta in E.
  destruct (bracket_body _) as [[body r']|] eqn:Eb; [|done]. injection E as <- <-. cbn [snd fst].
  assert (Hm : forall c, in_u8 c -> matchbracketclass pat c p (p + zlen (91 :: l1) - zlen r' - 1) =
            POk (set_has (SBracket (ch l1 =? 94) (elems body)) c)) by (intros c Hc; by apply bracket_ok).
  assert (Hp : (if i =? 0 then POk 0 else rds src (i - 1)) = POk (default 0 (zget s (i - 1)))).
  { destruct (Z.eqb_spec i 0) as [->|]; [done|]. apply rds_any. lia. }
  rewrite Hp. cbn [mbind pres_bind]. rewrite Hm by apply byte_any. cbn [mbind pres_bind]. unfold prev_cur.
  destruct (set_has _ (default 0 (zget s (i - 1)))); [done|]. rewrite rds_any by lia. cbn [mbind pres_bind negb andb].
  rewrite Hm by apply byte_any. done.
Qed.

Lemma round_ok rec ms i p l it r :
  at_p pat p l -> l <> [] -> parse_item l = Some (it, r) -> 0 <= i <= n ->
  match_round src pat rec ms i p = round_of rec it ms i p (p + zlen l - zlen r) /\
  at_p pat (p + zlen l - zlen r) r.
Proof using bytes.
  intros Hat Hne E Hi. unfold match_round, parse_item in *. rewrite (rdp_at _ _ _ Hat). cbn [mbind pres_bind].
  assert (Hc0 : ch l <> 0) by (by rewrite (at_p_ch _ _ _ Hat)).
  pose proof (at_p_tail pat p l Hat Hne) as H1. rewrite (rdp_at _ _ _ H1). cbn [mbind pres_bind].
  pose proof (zlen_tail l Hc0) as Hz1.
  assert (Hq1 : p + zlen l - zlen (tail l) = p + 1) by lia.
  assert (Hq2 : ch (tail l) <> 0 -> p + zlen l - zlen (tail (tail l)) = p + 2) by (intros H; apply zlen_tail in H; lia).
  assert (Hitem : (x ← parse_set l; let '(q, rest) := parse_quant x.2 in Some (ISet x.1 q, rest)) = Some (it, r) ->
    match_item src pat rec ms i p = round_of rec it ms i p (p + zlen l - zlen r) /\ at_p pat (p + zlen l - zlen r) r).
  { intros E'. destruct (parse_set l) as [[st r0]|] eqn:Es; [|done]. cbn in E'.
    destruct (parse_quant r0) as [q rest] eqn:Eq. injection E' as <- <-. by apply (match_item_ok _ _ _ _ l st r0). }
  destruct (Z.eqb_spec (ch l) 40).
  { destruct (Z.eqb_spec (ch (tail l)) 41) as [E41|]; injection E as <- <-.
    - rewrite Hq2 by (by rewrite E41). split; [done|]. apply at_p_two; [done|done|by rewrite E41].
    - by rewrite Hq1. }
  destruct (Z.eqb_spec (ch l) 41); [injection E as <- <-; by rewrite Hq1|].
  destruct (Z.eqb_spec (ch l) L_ESC) as [Ee|]; cbn [andb] in E.
  - destruct (Z.eqb_spec (ch (tail l)) 98) as [E98|].
    { assert (Hn1 : ch (tail l) <> 0) by (by rewrite E98). pose proof (at_p_two p l Hat Hne Hn1) as H2.
      destruct (tail (tail l)) as [|b [|e r']] eqn:Et; cbn [ch hd tail] in E; [done|by rewrite orb_true_r in E|].
      destruct ((b =? 0) || (e =? 0)); [done|]. injection E as <- <-.
      rewrite (matchbalance_ok i (p + 2) b e r' Hi H2). cbn [mbind pres_bind round_of].
      specialize (Hq2 Hn1). rewrite !zlen_cons in Hq2.
      replace (p + zlen l - zlen r') with (p + 4) by lia. split; [done|].
      apply (at_p_app pat (p + 2) [b; e]) in H2. change (zlen [b; e]) with 2 in H2.
      by replace (p + 2 + 2) with (p + 4) in H2 by lia. }
    destruct (Z.eqb_spec (ch (tail l)) 102) as [E102|].
    { assert (Hn1 : ch (tail l) <> 0) by (by rewrite E102). pose proof (at_p_two p l Hat Hne Hn1) as H2.
      destruct (Z.eqb_spec (ch (tail (tail l))) 91) as [E91|]; [|done].
      destruct (parse_set (tail (tail l))) as [[st r0]|] eqn:Es; [|done]. injection E as <- <-. cbn [fst snd].
      rewrite (frontier_ok ms i (p + 2) _ st r0 H2 E91 Es Hi). specialize (Hq2 Hn1).
      replace (p + zlen l - zlen r0) with (p + 2 + zlen (tail (tail l)) - zlen r0) by lia.
      split; [done|]. destruct (parse_set_app _ _ _ Es) as (u & El & _). by apply (at_p_rest _ u). }
    rewrite isa_byte_digit by (by eapply at_p_byte). cbn [mbind pres_bind].
    destruct (Char.between 48 (ch (tail l)) 57) eqn:Ed.
    { assert (Hn1 : ch (tail l) <> 0) by (intros E0; by rewrite E0 in Ed). injection E as <- <-.
      rewrite (Hq2 Hn1). cbn [round_of]. replace (ch (tail l) - 49 + 49) with (ch (tail l)) by lia.
      split; [done|]. by apply at_p_two. }
    destruct (Z.eqb_spec (ch l) 36) as [E36|]; [by rewrite E36 in Ee|]. by apply Hitem.
  - rewrite (proj2 (Z.eqb_neq (ch l) 0) Hc0). destruct (Z.eqb_spec (ch l) 36) as [E36|]; cbn [andb] in E; [|by apply Hitem].
    destruct (Z.eqb_spec (ch (tail l)) 0) as [E0|]; cbn [negb]; [|by apply Hitem].
    injection E as <- <-. rewrite src_end_ok. split; [done|]. by rewrite Hq1.
Qed.

(** ** The first match *)

Lemma cost_nonneg its : 0 <= cost its.
Proof using. induction its as [|it its IH]; [done|]. cbn [cost fold_right]. fold (cost its). destruct it as [? []| | | | | | | ]; cbn; lia. Qed.

(** The outcome [r] of a call is the first match of [d], or a failure that
    leaves the captures [cs]. *)
Definition agrees (d : list (Z * list cap)) (ms : MatchState) (cs : list cap) (r : pres (option Z * MatchState)) : Prop :=
  exists res ms', r = POk (res, ms') /\ depth ms' = depth ms /\
    match d with [] => res = None /\ repr ms' cs | (q, cs') :: _ => res = Some q /\ repr ms' cs' end.

Lemma agrees_fail ms cs : repr ms cs -> agrees [] ms cs (POk (None, ms)).
Proof using. intros H. by exists None, ms. Qed.

Lemma agrees_depth d ms ms' cs r : depth ms' = depth ms -> agrees d ms' cs r -> agrees d ms cs r.
Proof using. intros E (res & m & H1 & H2 & H3). exists res, m. split_and!; [done|congruence|done]. Qed.

(** Another attempt after a failure. *)
Lemma agrees_app d1 d2 ms cs r1 (k : MatchState -> pres (option Z * MatchState)) :
  agrees d1 ms cs r1 ->
  (forall ms', repr ms' cs -> depth ms' = depth ms -> agrees d2 ms' cs (k ms')) ->
  agrees (d1 ++ d2) ms cs
    (r ← r1; let '(res, ms) := r in match res with Some q => POk (Some q, ms) | None => k ms end).
Proof using.
  intros (res & ms' & -> & Hd & H) Hk. cbn [mbind pres_bind]. destruct d1 as [|[q cs'] d1]; destruct H as [-> Hr].
  - apply (agrees_depth d2 ms ms'); [done|]. by apply Hk.
  - by exists (Some q), ms'.
Qed.

(** A state in which the items can be tried at [i]. *)
Definition ready (its : list item) (ms : MatchState) (cs : list cap) (i : Z) : Prop :=
  0 <= i <= n /\ repr ms cs /\ Forall (cap_ok i) cs /\ caps_ok (map stat cs) its <> None.

Lemma ready_move its ms ms' cs i j : ready its ms cs i -> i <= j <= n -> repr ms' cs -> ready its ms' cs j.
Proof using. intros (H1 & H2 & H3 & H4) Hj Hr. split_and!; [lia|lia|done|by eapply cap_ok_mono; [|done]; lia|done]. Qed.

(** The recursive call is right for the items at [q]. *)
Definition rec_ok (rec : MatchState -> Z -> Z -> pres (option Z * MatchState)) (its : list item) (q : Z) : Prop :=
  forall ms cs i, ready its ms cs i -> depth ms + cost its < LJ_MAX_XLEVEL -> agrees (den s its i cs) ms cs (rec ms i q).

Lemma max_try_ok rec its ep cs i : rec_ok rec its (ep + 1) -> forall k ms,
  ready its ms cs i -> depth ms + cost its < LJ_MAX_XLEVEL -> i + Z.of_nat k <= n ->
  agrees (longest (fun j => den s its j cs) i k) ms cs (max_try rec (S k) ms i ep).
Proof using.
  intros Hrec. induction k as [|k IH]; intros ms Hr Hd Hk; cbn [longest].
  - rewrite <- (app_nil_r (den s its i cs)). cbn [max_try]. rewrite Z.add_0_r.
    apply agrees_app; [by apply Hrec|]. intros. by apply agrees_fail.
  - change (max_try rec (S (S k)) ms i ep) with (r ← rec ms (i + Z.of_nat (S k)) (ep + 1);
      let '(res, ms) := r in match res with Some q => POk (Some q, ms) | None => max_try rec (S k) ms i ep end).
    pose proof Hr as (Hi & Hrep & _). apply agrees_app.
    + apply Hrec; [|done]. apply (ready_move its ms ms cs i); [done|lia|done].
    + intros ms' Hr' Hd'. apply IH; [by apply (ready_move its ms ms' cs i); [|lia|]|lia|lia].
Qed.

Lemma max_expand_ok rec its p ep st r ms cs i :
  set_at p st ep r -> rec_ok rec its (ep + 1) -> ready its ms cs i -> depth ms + cost its < LJ_MAX_XLEVEL ->
  agrees (longest (fun j => den s its j cs) i (run s st i)) ms cs (max_expand src pat rec ms i p ep).
Proof using bytes.
  intros Hst Hrec Hr Hd. pose proof Hr as (Hi & _). pose proof (run_bound st i Hi) as Hb. unfold max_expand.
  rewrite (max_count_ok p ep st r Hst) by (try lia; rewrite ?Z.add_0_r; unfold src_rounds, c_text; rewrite length_app; unfold zlen in *; lia).
  cbn [mbind pres_bind]. rewrite !Z.add_0_r, Z.add_0_l, Nat2Z.id. by apply (max_try_ok rec its ep cs i Hrec).
Qed.

Lemma min_loop_ok rec its p ep st r cs : set_at p st ep r -> rec_ok rec its (ep + 1) -> forall fuel i ms,
  ready its ms cs i -> depth ms + cost its < LJ_MAX_XLEVEL -> (run s st i < fuel)%nat ->
  agrees (shortest (fun j => den s its j cs) i (run s st i)) ms cs (min_loop src pat rec fuel ms i p ep).
Proof using bytes.
  intros Hst Hrec. induction fuel as [|fuel IH]; intros i ms Hr Hd Hf; [lia|]. pose proof Hr as (Hi & _).
  pose proof (run_bound st i Hi) as Hb. rewrite run_has in * by lia. cbn [min_loop].
  destruct (has s st i) eqn:Eh; cbn [shortest]; (apply agrees_app; [by apply Hrec|]); intros ms' Hr' Hd';
    rewrite (matches_here_ok i p ep st r Hst Hi), Eh; cbn [mbind pres_bind].
  - apply IH; [apply (ready_move its ms ms' cs i); [done|lia|done]|lia|lia].
  - by apply agrees_fail.
Qed.

Lemma start_capture_ok rec its q what ms cs i :
  rec_ok rec its q -> 0 <= i <= n -> repr ms cs -> Forall (cap_ok i) cs -> zlen cs < LUA_MAXCAPTURES ->
  what = CAP_UNFINISHED \/ what = CAP_POSITION -> caps_ok (map stat (cs ++ [(i, what)])) its <> None ->
  depth ms + cost its < LJ_MAX_XLEVEL ->
  agrees (den s its i (cs ++ [(i, what)])) ms cs (start_capture rec ms i q what).
Proof using.
  intros Hrec Hi Hr Hc Hl Hw Hok Hd. unfold start_capture. pose proof Hr as (Hlv & _).
  rewrite (proj2 (Z.leb_gt LUA_MAXCAPTURES (level ms))) by lia.
  destruct (push_cap ms cs (i, what) Hr Hl) as (m1 & -> & Hr1 & Hd1). cbn [mbind pres_bind].
  destruct (Hrec (with_level m1 (level m1 + 1)) (cs ++ [(i, what)]) i) as (res & m2 & -> & Hd2 & H).
  - split_and!; [lia|lia|done| |done]. apply Forall_app. split; [done|]. constructor; [|done].
    unfold cap_ok. cbn [fst snd]. tauto || (split; [lia|tauto]).
  - cbn [depth with_level]. lia.
  - cbn [mbind pres_bind]. cbn [depth with_level] in Hd2. eexists _, _. split; [done|].
    destruct (den s its i _) as [|[e cs'] d]; destruct H as [-> H].
    + split_and!; [cbn; lia|done|by apply pop_cap in H].
    + split_and!; [lia|done|done].
Qed.

Lemma end_capture_ok rec its q ms cs cs' i :
  rec_ok rec its q -> 0 <= i <= n -> repr ms cs -> Forall (cap_ok i) cs -> close_cap i cs = Some cs' ->
  caps_ok (map stat cs') its <> None -> depth ms + cost its < LJ_MAX_XLEVEL ->
  agrees (den s its i cs') ms cs (end_capture rec ms i q).
Proof using.
  intros Hrec Hi Hr Hc Hcl Hok Hd. pose proof (close_cap_ok i cs cs' Hc Hcl) as Hc'.
  apply close_split in Hcl as (a & c & b & -> & Hu & Hb & ->). unfold end_capture.
  rewrite (to_close_ok ms a c b Hr Hu Hb). cbn [mbind pres_bind].
  rewrite (get_cap_ok ms _ _ c Hr (zget_middle a b c)). cbn [mbind pres_bind].
  destruct (set_cap_ok ms a c b (c.1, i - c.1) Hr) as (m1 & -> & Hr1 & Hd1). cbn [mbind pres_bind].
  destruct (Hrec m1 _ i (conj Hi (conj Hr1 (conj Hc' Hok)))) as (res & m2 & -> & Hd2 & H); [lia|]. cbn [mbind pres_bind].
  destruct (den s its i _) as [|[e cs2] d] eqn:Ed; destruct H as [-> H].
  - rewrite (get_cap_ok m2 _ _ _ H (zget_middle a b _)). cbn [mbind pres_bind fst].
    destruct (set_cap_ok m2 a (c.1, i - c.1) b (c.1, CAP_UNFINISHED) H) as (m3 & -> & Hr3 & Hd3). cbn [mbind pres_bind].
    exists None, m3. split_and!; [done|lia|done|]. rewrite <- Hu in Hr3. by destruct c.
  - exists (Some e), m2. split_and!; [done|lia|done|done].
Qed.

(** *** Induction on the items *)

Definition inits_ok (f : nat) (its : list item) (q : Z) : Prop :=
  forall fuel ms cs i, ready its ms cs i -> depth ms + cost its <= LJ_MAX_XLEVEL -> (length its < fuel)%nat ->
    agrees (den s its i cs) ms cs (match_init src pat (match_ src pat f) fuel ms i q).

Lemma rec_of_inits f its q : inits_ok f its q -> (length its < length pat)%nat ->
  rec_ok (match_ src pat (S f)) its q.
Proof using.
  intros H Hl ms cs i Hr Hd. cbn [match_]. unfold pat_rounds.
  destruct (Z.ltb_spec LJ_MAX_XLEVEL (depth (with_depth ms (depth ms + 1)))) as [Hx|_].
  { cbn in Hx. pose proof (cost_nonneg its). lia. }
  destruct (H (S (length pat)) (with_depth ms (depth ms + 1)) cs i) as (res & m & -> & Hm & Ha); [done|cbn; lia|lia|].
  cbn [mbind pres_bind]. exists res, (with_depth m (depth m - 1)). split_and!; [done|cbn in *; lia|].
  destruct (den s its i cs) as [|[e cs'] d]; exact Ha.
Qed.

Lemma parse_nil k l : parse k l = Some [] -> l = [].
Proof using. destruct k as [|k]; [done|]. cbn [parse]. destruct l; [done|].
  destruct (parse_item _) as [[it r]|]; [|done]. cbn. by destruct (parse k r). Qed.
Lemma parse_cons k l it its : parse k l = Some (it :: its) ->
  l <> [] /\ exists k' r, parse_item l = Some (it, r) /\ parse k' r = Some its.
Proof using.
  destruct k as [|k]; [done|]. cbn [parse]. destruct l as [|c l]; [done|].
  destruct (parse_item (c :: l)) as [[it' r]|]; [|done]. cbn. destruct (parse k r) as [its'|] eqn:E; [|done].
  intros [= <- <-]. split; [done|]. by exists k, r.
Qed.

Lemma round_end rec ms i p : at_p pat p [] -> match_round src pat rec ms i p = POk (Done (Some i), ms).
Proof using. intros H. unfold match_round. by rewrite (rdp_at _ _ _ H). Qed.

(** Every item leaves fewer characters. *)
Lemma parse_set_shorter l st r : parse_set l = Some (st, r) -> (length r < length l)%nat.
Proof using. intros (u & -> & Hu)%parse_set_app. rewrite length_app. destruct u; cbn in *; [done|lia]. Qed.

Lemma parse_item_shorter l it r : l <> [] -> parse_item l = Some (it, r) -> (length r < length l)%nat.
Proof using.
  intros Hne E. unfold parse_item in E.
  assert (Ht : forall l : list Z, (length (tail l) <= length l)%nat) by (intros [|? ?]; cbn; lia).
  assert (H1 : (length (tail l) < length l)%nat) by (destruct l; [done|cbn; lia]).
  pose proof (Ht (tail l)). pose proof (Ht (tail (tail l))). pose proof (Ht (tail (tail (tail l)))).
  repeat case_match; try done; repeat match goal with H : Some _ = Some _ |- _ => injection H as <- <- end; try lia;
    try (destruct (parse_set _) as [[st r0]|] eqn:Es; [|done]; apply parse_set_shorter in Es; cbn in E);
    try (injection E as <- <-; lia).
  all: destruct (parse_quant r0) as [q rest] eqn:Eq; injection E as <- <-;
    destruct (quant_app _ _ _ Eq) as [[_ ->]|[_ [c ->]]]; cbn in *; lia.
Qed.

Lemma parse_length its : forall k l, parse k l = Some its -> (length its <= length l)%nat.
Proof using.
  induction its as [|it its IH]; intros k l E; [cbn; lia|].
  apply parse_cons in E as (Hne & k' & r & Ei & Er). apply parse_item_shorter in Ei; [|done].
  specialize (IH _ _ Er). cbn. lia.
Qed.

Lemma parse_item_set l st q rest : parse_item l = Some (ISet st q, rest) ->
  exists r, parse_set l = Some (st, r) /\ parse_quant r = (q, rest).
Proof using.
  unfold parse_item. intros E.
  assert (H : (r ← parse_set l; let '(q, rest) := parse_quant r.2 in Some (ISet r.1 q, rest)) = Some (ISet st q, rest)).
  { repeat case_match; try done; destruct (parse_set _) as [[]|]; done. }
  destruct (parse_set l) as [[st' r]|]; [|done]. cbn in H. destruct (parse_quant r) as [q' rest'] eqn:Eq.
  injection H as <- <- <-. eauto.
Qed.

Lemma quant_set_at p l st q rest : at_p pat p l -> parse_item l = Some (ISet st q, rest) -> q <> QOne ->
  exists r, set_at p st (p + zlen l - zlen rest - 1) r.
Proof using.
  intros Hat E Hq. apply parse_item_set in E as (r & Es & Eq). exists r, l. split_and!; [done|done|].
  destruct (quant_app _ _ _ Eq) as [[? _]|[_ [c ->]]]; [done|]. rewrite zlen_cons. lia.
Qed.

Lemma done_bind (X : pres (option Z * MatchState)) k :
  (r ← (r ← X; POk (Done r.1, r.2));
   let '(nx, ms) := r in match nx with Done res => POk (res, ms) | Goto j q => k ms j q end) = X.
Proof using. by destruct X as [[res ms]| | |]. Qed.

Lemma opt_bind (X : pres (option Z * MatchState)) i q k :
  (r ← (r ← X; POk (match r.1 with Some x => Done (Some x) | None => Goto i q end, r.2));
   let '(nx, ms) := r in match nx with Done res => POk (res, ms) | Goto j q => k ms j q end) =
  (r ← X; let '(res, ms) := r in match res with Some x => POk (Some x, ms) | None => k ms i q end).
Proof using. by destruct X as [[[x|] ms]| | |]. Qed.

Lemma parse_item_end l r : parse_item l = Some (IEnd, r) -> ch r = 0.
Proof using.
  unfold parse_item. intros E. repeat case_match; try done; simplify_eq; try (destruct (parse_set _) as [[st r0]|]; [|done]; cbn in E);
    try (by destruct (parse_quant _)); try done.
  match goal with H : (_ && (ch (tail l) =? 0)) = true |- _ => apply andb_true_iff in H as [_ H]; by apply Z.eqb_eq in H end.
Qed.

Lemma has_end st i : has s st i = true -> 0 <= i < n.
Proof using. unfold has. destruct (zget s i) eqn:E; [|done]. intros _. by apply zget_Some_range in E. Qed.

Lemma balanced_bound b e i j : 0 <= i -> balanced s b e i = Some j -> i <= j <= n.
Proof using.
  intros Hi. unfold balanced.
  assert (H : forall l cont k, bal b e cont l = Some k -> 0 <= k <= zlen l).
  { induction l as [|c l IH]; intros cont k E; [done|]. cbn [bal] in E. rewrite zlen_cons.
    pose proof (zlen_nonneg l). destruct (c =? e).
    - destruct (cont =? 1); [injection E as <-; lia|]. destruct (bal b e (cont - 1) l) eqn:E1; [|done].
      injection E as <-. apply IH in E1. lia.
    - destruct (bal b e _ l) eqn:E1; [|done]. injection E as <-. apply IH in E1. lia. }
  destruct (drop (Z.to_nat i) s) as [|c l] eqn:Ed; [done|]. destruct (c =? b); [|done].
  destruct (bal b e 1 l) eqn:Eb; [|done]. intros [= <-]. apply H in Eb.
  assert (Hl : length (drop (Z.to_nat i) s) = length (c :: l)) by (by rewrite Ed). rewrite length_drop in Hl. cbn in Hl.
  unfold zlen in *. lia.
Qed.

Lemma zget_map (cs : list cap) j c : zget cs j = Some c -> zget (map stat cs) j = Some (stat c).
Proof using. unfold zget. destruct (j <? 0); [done|]. intros H. by rewrite list_lookup_fmap, H. Qed.
Lemma zget_map_inv (cs : list cap) j x : zget (map stat cs) j = Some x -> exists c, zget cs j = Some c /\ stat c = x.
Proof using.
  unfold zget. destruct (j <? 0); [done|]. rewrite list_lookup_fmap. destruct (cs !! Z.to_nat j); [|done]. intros [= <-]. eauto.
Qed.

Lemma match_items its : forall k l f p,
  parse k l = Some its -> at_p pat p l -> cost its <= Z.of_nat f -> inits_ok f its p.
Proof using bytes short.
  induction its as [|it its IH]; intros k l f p E Hat Hf fuel ms cs i Hr Hd Hfl;
    (destruct fuel as [|fuel]; [lia|]); cbn [match_init].
  { apply parse_nil in E as ->. rewrite (round_end _ _ _ _ Hat). cbn [mbind pres_bind den].
    exists (Some i), ms. split_and!; try done. apply Hr. }
  apply parse_cons in E as (Hne & k' & r & Ei & Er).
  pose proof Hr as (Hi & Hrep & Hcap & Hok).
  destruct (round_ok (match_ src pat f) ms i p l it r Hat Hne Ei Hi) as [-> Hat'].
  set (q := p + zlen l - zlen r) in *.
  pose proof (parse_length _ _ _ Er) as Hlen. pose proof (at_p_length _ _ _ Hat') as Hlp.
  cbn [cost fold_right] in Hd, Hf. fold (cost its) in Hd, Hf. cbn [length] in Hfl.
  pose proof (cost_nonneg its) as Hcn.
  (* the rest by [goto init], or by a recursive call *)
  assert (Hgo : forall ms' cs' j, depth ms' = depth ms -> ready its ms' cs' j ->
    agrees (den s its j cs') ms cs' (match_init src pat (match_ src pat f) fuel ms' j q)).
  { intros ms' cs' j Hd' Hr'. apply (agrees_depth _ ms ms'); [done|].
    apply (IH k' r f q Er Hat'); [destruct it as [? []| | | | | | | ]; cbn [cost1] in *; lia|done| |lia].
    rewrite Hd'. destruct it as [? []| | | | | | | ]; cbn [cost1] in *; lia. }
  assert (Hrec : cost1 it = 1 -> rec_ok (match_ src pat f) its q).
  { intros Hc. rewrite Hc in Hf. destruct f as [|f]; [lia|]. apply rec_of_inits; [|lia].
    apply (IH k' r f q Er Hat'). lia. }
  destruct it as [st []| | | |b e|st|d| ]; cbn [round_of den cost1 caps_ok] in *.
  - (* one *)
    cbn [mbind pres_bind]. destruct (has s st i) eqn:Eh; [|by apply agrees_fail]. apply has_end in Eh.
    apply Hgo; [done|]. by apply (ready_move its ms ms cs i); [|lia|].
  - (* optional *)
    assert (H1 : agrees (if has s st i then den s its (i + 1) cs else []) ms cs
                   (if has s st i then match_ src pat f ms (i + 1) q else POk (None, ms))).
    { destruct (has s st i) eqn:Eh; [|by apply agrees_fail]. apply has_end in Eh.
      apply Hrec; [done|by apply (ready_move its ms ms cs i); [|lia|]|lia]. }
    rewrite opt_bind. apply agrees_app; [done|]. intros m' Hm' Hdm. apply (agrees_depth _ m' ms); [done|].
    apply Hgo; [done|]. by apply (ready_move its ms m' cs i); [|lia|].
  - (* star *)
    rewrite done_bind. destruct (quant_set_at p l st QStar r Hat Ei) as [r0 Hst]; [done|].
    apply (max_expand_ok _ its p (q - 1) st r0); [done| |done|lia]. replace (q - 1 + 1) with q by lia. by apply Hrec.
  - (* plus *)
    destruct (has s st i) eqn:Eh; [|by apply agrees_fail]. apply has_end in Eh.
    rewrite done_bind. destruct (quant_set_at p l st QPlus r Hat Ei) as [r0 Hst]; [done|].
    apply (max_expand_ok _ its p (q - 1) st r0); [done| |by apply (ready_move its ms ms cs i); [|lia|]|lia].
    replace (q - 1 + 1) with q by lia. by apply Hrec.
  - (* minus *)
    rewrite done_bind. destruct (quant_set_at p l st QMin r Hat Ei) as [r0 Hst]; [done|].
    apply (min_loop_ok _ its p (q - 1) st r0); [done| |done|lia|].
    + replace (q - 1 + 1) with q by lia. by apply Hrec.
    + pose proof (run_bound st i Hi). unfold src_rounds, c_text. rewrite length_app. unfold zlen in *. lia.
  - (* open *)
    rewrite done_bind. destruct (Z.ltb_spec (zlen (map stat cs)) LUA_MAXCAPTURES) as [Hl|]; [|done].
    unfold zlen in Hl. rewrite length_map in Hl. fold (zlen cs) in Hl.
    apply (start_capture_ok _ its); auto; [by rewrite map_app|lia].
  - (* position *)
    rewrite done_bind. destruct (Z.ltb_spec (zlen (map stat cs)) LUA_MAXCAPTURES) as [Hl|]; [|done].
    unfold zlen in Hl. rewrite length_map in Hl. fold (zlen cs) in Hl.
    apply (start_capture_ok _ its); auto; [by rewrite map_app|lia].
  - (* close *)
    rewrite done_bind. rewrite (close_stat_ok i cs Hcap) in Hok. destruct (close_cap i cs) as [cs'|] eqn:Ec; [|done].
    apply (end_capture_ok _ its q ms cs cs'); auto. lia.
  - (* balance *)
    cbn [mbind pres_bind]. destruct (balanced s b e i) as [j|] eqn:Eb; [|by apply agrees_fail].
    apply balanced_bound in Eb; [|lia]. apply Hgo; [done|]. by apply (ready_move its ms ms cs i).
  - (* frontier *)
    cbn [mbind pres_bind]. unfold prev_cur. destruct (negb _ && _); [|by apply agrees_fail]. by apply Hgo.
  - (* back *)
    destruct (zget (map stat cs) d) as [x|] eqn:Ex; [|done]. apply zget_map_inv in Ex as (c & Ec & <-). rewrite Ec.
    destruct (bool_decide_reflect (stat c = COpen)); [done|].
    assert (Hck : cap_ok i c).
    { unfold zget in Ec. destruct (d <? 0); [done|]. by apply (Forall_lookup_1 _ _ _ _ Hcap Ec). }
    rewrite (match_capture_ok ms cs i (d + 49) c); try done; [|by replace (d + 49 - 49) with d by lia].
    cbn [mbind pres_bind]. destruct (repeats s c i) eqn:Erp; [|by apply agrees_fail].
    unfold repeats in Erp. apply andb_true_iff in Erp as [Erp _]. apply andb_true_iff in Erp as [E0%Z.leb_le E1%Z.leb_le].
    apply Hgo; [done|]. by apply (ready_move its ms ms cs i); [|lia|].
  - (* end *)
    cbn [mbind pres_bind]. destruct (i =? n); [|by apply agrees_fail].
    apply parse_item_end in Ei. rewrite (at_p_ch _ _ _ Hat') in Ei. subst r.
    assert (its = []) as -> by (destruct k'; [done|]; cbn in Er; congruence). by exists (Some i), ms.
Qed.
End subject.
End MatchCorrect.
