(* ===== verification/LibStringFind.v ===== *)
(** * LibStringFind

    The functions of the string library on top of the matcher: [string.find]
    and [string.match] return the first match at the first place that has one,
    [string.gmatch] goes through the matches, [string.gsub] replaces them. *)
From stdpp Require Import base tactics numbers list.
From Stdlib Require Import ZArith Lia.
From S2P Require Import Prelude LjStr LibString LibStringSpec LibStringMatch.
Open Scope Z_scope.

Module MatchFind.
Import Match MatchSpec MatchCorrect.

(** ** Patterns as programs pass them *)

(** The pattern ends at its first NUL. *)
Fixpoint until_nul (p : list Z) : list Z :=
  match p with [] => [] | c :: p' => if c =? 0 then [] else c :: until_nul p' end.

(** Every capture is closed, and the matcher calls itself less than 200 deep. *)
Definition well_formed (its : list item) : bool :=
  match caps_ok [] its with
  | Some fin => forallb (fun c => negb (bool_decide (c = COpen))) fin
  | None => false
  end && (cost its <? LJ_MAX_XLEVEL).

(** The items behind an anchor, and whether there is one. *)
Definition items_of (anchor : bool) (p : list Z) : option (list item) :=
  let l := until_nul p in
  let l := if anchor then tail l else l in
  its ← parse (S (length l)) l; if well_formed its then Some its else None.
Definition anchored (p : list Z) : bool := ch (until_nul p) =? 94.

Lemma until_nul_split p : Forall in_u8 p ->
  exists tl, c_text p = until_nul p ++ 0 :: tl /\ Forall (fun c => in_u8 c /\ c <> 0) (until_nul p).
Proof.
  unfold c_text. induction 1 as [|c p Hc _ IH]; cbn [until_nul app]; [by exists []|].
  destruct (Z.eqb_spec c 0) as [->|Hne]; [by exists (p ++ [0])|].
  destruct IH as (tl & -> & Hl). exists tl. by split; [|constructor].
Qed.

Lemma at_p_0 p : Forall in_u8 p -> at_p (c_text p) 0 (until_nul p).
Proof. intros H. destruct (until_nul_split p H) as (tl & E & Hl). exists [], tl. by split_and!. Qed.

(** ** Matches *)

Section subject.
Context (s p : list Z) (bytes : Forall in_u8 s) (short : zlen s < 2 ^ 31) (pbytes : Forall in_u8 p).
Abbreviation n := (zlen s).
Abbreviation src := (c_text s).
Abbreviation pat := (c_text p).
Abbreviation cap := (Z * Z)%type.

(** Matches lie in the subject, and so do their captures. *)
Definition match_ok (i : Z) (fin : list cstat) (m : Z * list cap) : Prop :=
  i <= m.1 <= n /\ Forall (cap_ok m.1) m.2 /\ map stat m.2 = fin.

Lemma match_ok_le i j fin m : i <= j -> match_ok j fin m -> match_ok i fin m.
Proof using. unfold match_ok. intros Hj (H & ? & ?). split_and!; [lia|lia|done|done]. Qed.

Lemma longest_ok f i k (P : Z * list cap -> Prop) :
  (forall j, i <= j <= i + Z.of_nat k -> Forall P (f j)) -> Forall P (longest f i k).
Proof using.
  induction k as [|k IH]; intros H; cbn [longest]; [apply H; lia|].
  apply Forall_app. split; [apply H; lia|]. apply IH. intros j Hj. apply H. lia.
Qed.
Lemma shortest_ok f k (P : Z * list cap -> Prop) : forall i,
  (forall j, i <= j <= i + Z.of_nat k -> Forall P (f j)) -> Forall P (shortest f i k).
Proof using.
  induction k as [|k IH]; intros i H; cbn [shortest]; apply Forall_app; (split; [apply H; lia|]); [done|].
  apply IH. intros j Hj. apply H. lia.
Qed.

Lemma den_ok its fin : forall i cs,
  0 <= i <= n -> Forall (cap_ok i) cs -> caps_ok (map stat cs) its = Some fin ->
  Forall (match_ok i fin) (den s its i cs).
Proof using.
  induction its as [|it its IH]; intros i cs Hi Hc Hok.
  { injection Hok as <-. constructor; [|done]. split_and!; cbn; [lia|lia|done|done]. }
  assert (Hmv : forall j, i <= j <= n -> caps_ok (map stat cs) its = Some fin -> Forall (match_ok i fin) (den s its j cs)).
  { intros j Hj Hok'. eapply Forall_impl; [apply (IH j cs); [lia|by eapply cap_ok_mono; [|done]; lia|done]|].
    intros m. apply match_ok_le. lia. }
  destruct it as [st []| | | |b e|st|d| ]; cbn [den caps_ok] in *.
  - destruct (has s st i) eqn:Eh; [|done]. apply has_end in Eh. apply Hmv; [lia|done].
  - apply Forall_app. split; [|apply Hmv; [lia|done]].
    destruct (has s st i) eqn:Eh; [|done]. apply has_end in Eh. apply Hmv; [lia|done].
  - pose proof (run_bound s st i Hi). apply longest_ok. intros j Hj. apply Hmv; [lia|done].
  - destruct (has s st i) eqn:Eh; [|done]. apply has_end in Eh. pose proof (run_bound s st (i + 1) ltac:(lia)).
    apply longest_ok. intros j Hj. apply Hmv; [lia|done].
  - pose proof (run_bound s st i Hi). apply shortest_ok. intros j Hj. apply Hmv; [lia|done].
  - case_match; [|done]. apply IH; [done| |by rewrite map_app].
    apply Forall_app. split; [done|]. constructor; [|done]. split; cbn; [lia|by left].
  - case_match; [|done]. apply IH; [done| |by rewrite map_app].
    apply Forall_app. split; [done|]. constructor; [|done]. split; cbn; [lia|by right; left].
  - rewrite (close_stat_ok i cs Hc) in Hok. destruct (close_cap i cs) as [cs'|] eqn:Ec; [|done].
    apply IH; [done|by eapply close_cap_ok|done].
  - destruct (balanced s b e i) as [j|] eqn:Eb; [|done]. apply balanced_bound in Eb; [|lia]. by apply Hmv.
  - destruct (negb _ && _); [|done]. apply Hmv; [lia|done].
  - destruct (zget (map stat cs) d) as [x|] eqn:Ex; [|done]. apply zget_map_inv in Ex as (c & Ec & <-). rewrite Ec.
    case_bool_decide; [done|]. destruct (repeats s c i) eqn:Erp; [|done].
    unfold repeats in Erp. apply andb_true_iff in Erp as [Erp _]. apply andb_true_iff in Erp as [E0%Z.leb_le E1%Z.leb_le].
    apply Hmv; [lia|done].
  - destruct (i =? n); [|done]. apply Hmv; [lia|done].
Qed.

(** ** Results *)

(** What a capture gives: its position, or its text. *)
Definition cap_val (c : cap) : Lval := if c.2 =? CAP_POSITION then LInt (c.1 + 1) else LStr (piece s c.1 c.2).

(** The captures of a match, or the whole match if it has none. *)
Definition cap_vals (i : Z) (m : Z * list cap) : list Lval :=
  match m.2 with [] => [LStr (piece s i (m.1 - i))] | cs => map cap_val cs end.

Lemma piece_nil i len : len <= 0 -> piece s i len = [].
Proof using. intros H. unfold piece. by replace (Z.to_nat len) with O by lia. Qed.
Lemma piece_cons i k c : zget s i = Some c -> piece s i (Z.of_nat (S k)) = c :: piece s (i + 1) (Z.of_nat k).
Proof using. intros H. unfold piece. by rewrite !Nat2Z.id, (rest_cons s i c H). Qed.

Lemma substr_ok k : forall a, 0 <= a -> a + Z.of_nat k <= n -> substr src k a = POk (piece s a (Z.of_nat k)).
Proof using.
  induction k as [|k IH]; intros a Ha Hk; cbn [substr]; [by rewrite piece_nil|].
  destruct (zget_is_Some s a) as [c Hc]; [lia|]. rewrite (rds_at s a c Hc), (IH (a + 1)) by lia.
  cbn [mbind pres_bind]. by rewrite (piece_cons a k c Hc).
Qed.
Lemma substr_piece a len : 0 <= a -> 0 <= len -> a + len <= n -> substr src (Z.to_nat len) a = POk (piece s a len).
Proof using. intros Ha Hl Hn. rewrite substr_ok by lia. by rewrite Z2Nat.id. Qed.

Definition closed (c : cap) : Prop := c.2 <> CAP_UNFINISHED.

Lemma push_onecapture_ok ms cs i k c e : repr ms cs -> zget cs k = Some c -> cap_ok n c -> closed c ->
  push_onecapture src ms k i e = POk (cap_val c).
Proof using.
  intros Hr Hk [Hc1 Hc2] Hcl. unfold push_onecapture, cap_val. pose proof Hr as (Hl & _).
  pose proof (zget_Some_range _ _ _ Hk) as Hb. rewrite (proj2 (Z.leb_gt _ _)) by lia.
  rewrite (get_cap_ok ms cs k c Hr Hk). cbn [mbind pres_bind]. rewrite (proj2 (Z.eqb_neq _ _) Hcl).
  destruct (Z.eqb_spec c.2 CAP_POSITION) as [|Hp]; [done|].
  destruct Hc2 as [?|[?|Hc2]]; [done|done|]. by rewrite substr_piece by lia.
Qed.

Lemma push_loop_ok ms i e cs2 : forall cs1, repr ms (cs1 ++ cs2) -> Forall (cap_ok n) cs2 -> Forall closed cs2 ->
  push_loop src (length cs2) (zlen cs1) ms i e = POk (map cap_val cs2).
Proof using.
  induction cs2 as [|c cs2 IH]; intros cs1 Hr Hc Hcl; [done|]. cbn [push_loop length map].
  apply Forall_cons_1 in Hc as [Hc Hcs]. apply Forall_cons_1 in Hcl as [Hcl Hcls].
  rewrite (push_onecapture_ok ms _ i (zlen cs1) c e Hr (zget_middle cs1 cs2 c) Hc Hcl). cbn [mbind pres_bind].
  specialize (IH (cs1 ++ [c])). rewrite zlen_app in IH. change (zlen [c]) with 1 in IH.
  rewrite IH; [done|by rewrite <- app_assoc|done|done].
Qed.

Lemma whole_ok ms i e : repr ms [] -> 0 <= i <= e -> e <= n -> push_onecapture src ms 0 i e = POk (LStr (piece s i (e - i))).
Proof using. intros (Hl & _) Hi He. unfold push_onecapture. rewrite Hl. cbn. by rewrite substr_piece by lia. Qed.

Lemma push_captures_ok ms cs i e (whole : bool) : repr ms cs -> Forall (cap_ok n) cs -> Forall closed cs ->
  0 <= i <= e -> e <= n ->
  push_captures src ms whole i e = POk (if whole then cap_vals i (e, cs) else map cap_val cs).
Proof using.
  intros Hr Hc Hcl Hi He. unfold push_captures, cap_vals. cbn [fst snd]. pose proof Hr as (Hl & _). rewrite Hl.
  pose proof (push_loop_ok ms i e cs [] Hr Hc Hcl) as H. change (zlen []) with 0 in H.
  destruct cs as [|c cs].
  - destruct whole; [|done].
    change (push_loop src 1 0 ms i e = POk [LStr (piece s i (e - i))]). cbn [push_loop].
    by rewrite (whole_ok ms i e Hr Hi He).
  - pose proof (zlen_nonneg cs). rewrite (proj2 (Z.eqb_neq _ _)) by (rewrite zlen_cons; lia).
    cbn [andb]. unfold zlen. rewrite Nat2Z.id, H. by destruct whole.
Qed.

(** ** The first match at a place *)

Lemma repr_start cells : zlen cells = LUA_MAXCAPTURES -> repr (MkMS 0 0 cells) [].
Proof using.
  intros H. split_and!; [done|by vm_compute|done|]. intros j c Hj. apply zget_Some_range in Hj.
  change (zlen []) with 0 in Hj. lia.
Qed.

Context (its : list item) (pstr : Z).

(** The place [pstr] of the pattern is that of the items. *)
Definition compiled : Prop :=
  well_formed its = true /\ exists l k, at_p pat pstr l /\ parse k l = Some its.

Lemma do_match_ok ms i : compiled -> 0 <= i <= n -> zlen (capture ms) = LUA_MAXCAPTURES ->
  exists res ms', do_match src pat ms i pstr = POk (res, ms') /\ zlen (capture ms') = LUA_MAXCAPTURES /\
    match den s its i [] with
    | [] => res = None
    | (e, cs) :: _ => res = Some e /\ i <= e <= n /\ repr ms' cs /\ Forall (cap_ok n) cs /\ Forall closed cs
    end.
Proof using bytes short.
  intros (Hwf & l & k & Hat & Hp) Hi Hlen. unfold do_match. change match_rounds with (S 200).
  unfold well_formed in Hwf. apply andb_true_iff in Hwf as [Hcap Hcost%Z.ltb_lt].
  destruct (caps_ok [] its) as [fin|] eqn:Ecap; [|done].
  assert (Hinit : inits_ok s pat 200 its pstr).
  { apply (match_items s pat bytes short its k l 200 pstr Hp Hat). unfold LJ_MAX_XLEVEL in Hcost. lia. }
  pose proof (parse_length _ _ _ Hp) as H1. pose proof (at_p_length _ _ _ Hat) as H2.
  destruct (rec_of_inits s pat 200 its pstr Hinit ltac:(lia) (MkMS 0 0 (capture ms)) [] i) as (res & ms' & E & _ & H).
  { split_and!; [lia|lia|by apply repr_start|done|cbn [map]; congruence]. }
  { done. }
  exists res, ms'. split; [exact E|].
  destruct (den s its i []) as [|[e cs] d] eqn:Ed; destruct H as [-> Hr].
  { split; [apply Hr|done]. }
  pose proof (den_ok its fin i [] Hi (Forall_nil_2 _) Ecap) as Hd. rewrite Ed in Hd.
  apply Forall_inv in Hd as (He & Hc & Hst). cbn [fst snd] in *.
  split_and!; [apply Hr|done|lia|lia|done|eapply cap_ok_mono; [|done]; lia|].
  subst fin. clear -Hcap. induction cs as [|c cs IH]; [done|].
  cbn [map forallb] in Hcap. apply andb_true_iff in Hcap as [H1 H2]. constructor; [|by apply IH].
  unfold closed. rewrite <- stat_open. by case_bool_decide.
Qed.

(** ** The first place with a match *)

(** Of [k + 1] places from [i] on. *)
Fixpoint first_at (k : nat) (i : Z) : option (Z * (Z * list cap)) :=
  match den s its i [] with
  | m :: _ => Some (i, m)
  | [] => match k with O => None | S k' => first_at k' (i + 1) end
  end.

Lemma first_at_step k i : first_at k i =
  match den s its i [] with
  | m :: _ => Some (i, m)
  | [] => match k with O => None | S k' => first_at k' (i + 1) end
  end.
Proof using. by destruct k. Qed.

(** It is the least one. *)
Lemma first_at_hit j m d : den s its j [] = m :: d -> forall k i,
  i <= j <= i + Z.of_nat k -> (forall j', i <= j' < j -> den s its j' [] = []) -> first_at k i = Some (j, m).
Proof using.
  intros Hj k. induction k as [|k IH]; intros i Hr Hno; rewrite first_at_step.
  - replace i with j by lia. by rewrite Hj.
  - destruct (decide (i = j)) as [->|]; [by rewrite Hj|]. rewrite (Hno i) by lia.
    apply IH; [lia|]. intros j' Hj'. apply Hno. lia.
Qed.
Lemma first_at_miss k : forall i, (forall j, i <= j <= i + Z.of_nat k -> den s its j [] = []) -> first_at k i = None.
Proof using.
  induction k as [|k IH]; intros i Hno; rewrite first_at_step, (Hno i) by lia; [done|].
  apply IH. intros j Hj. apply Hno. lia.
Qed.

(** What [string.find] and [string.match] return for it. *)
Definition found (find : bool) (r : option (Z * (Z * list cap))) : list Lval :=
  match r with
  | None => [LNil]
  | Some (i, m) => if find then LInt (i + 1) :: LInt m.1 :: map cap_val m.2 else cap_vals i m
  end.

(** The number of further places. *)
Definition places (anchor : bool) (i : Z) : nat := if anchor then O else Z.to_nat (n - i).

Lemma find_pattern_ok find anchor : compiled -> forall fuel ms i,
  0 <= i <= n -> zlen (capture ms) = LUA_MAXCAPTURES -> (Z.to_nat (n - i) < fuel)%nat ->
  find_pattern src pat fuel find anchor ms i pstr = POk (found find (first_at (places anchor i) i)).
Proof using bytes short.
  intros Hc. induction fuel as [|fuel IH]; intros ms i Hi Hl Hf; [lia|]. cbn [find_pattern].
  destruct (do_match_ok ms i Hc Hi Hl) as (res & ms' & -> & Hl' & Hd). cbn [mbind pres_bind].
  rewrite first_at_step. destruct (den s its i []) as [|[e cs] d].
  - subst res. rewrite src_end_ok. unfold places in *. destruct anchor; [by rewrite andb_false_r|].
    destruct (Z.ltb_spec i n) as [Hlt|Hge]; cbn [andb negb].
    + rewrite IH by (done || lia). by replace (Z.to_nat (n - i)) with (S (Z.to_nat (n - (i + 1)))) by lia.
    + by replace (Z.to_nat (n - i)) with O by lia.
  - destruct Hd as (-> & He & Hr & Hcs & Hcl). destruct find.
    + rewrite (push_captures_ok ms' cs 0 0 false) by (done || lia). done.
    + by rewrite (push_captures_ok ms' cs i e true) by (done || lia).
Qed.

(** What a call of the iterator of [string.gmatch] returns for it. *)
Definition next_match (r : option (Z * (Z * list cap))) : option (list Lval * Z) :=
  match r with None => None | Some (i, m) => Some (cap_vals i m, if m.1 =? i then m.1 + 1 else m.1) end.
End subject.

(** [string.gmatch] takes the pattern as it is, also with a '^' in front. *)
Section gmatch.
Context (s p : list Z) (bytes : Forall in_u8 s) (short : zlen s < 2 ^ 31) (its : list item).

Lemma gmatch_loop_ok : compiled p its 0 -> forall fuel ms i,
  0 <= i <= zlen s -> zlen (capture ms) = LUA_MAXCAPTURES -> (S (Z.to_nat (zlen s - i)) < fuel)%nat ->
  gmatch_loop fuel s p ms i = POk (next_match s (first_at s its (places s false i) i)).
Proof using bytes short.
  intros Hc. induction fuel as [|fuel IH]; intros ms i Hi Hl Hf; [lia|]. cbn [gmatch_loop].
  rewrite src_end_ok, (proj2 (Z.leb_le _ _)) by lia.
  destruct (do_match_ok s p bytes short its 0 ms i Hc Hi Hl) as (res & ms' & -> & Hl' & Hd). cbn [mbind pres_bind].
  rewrite first_at_step. unfold places in *. destruct (den s its i []) as [|[e cs] d].
  - subst res. destruct (Z.ltb_spec i (zlen s)) as [Hlt|Hge].
    + rewrite IH by (done || lia). by replace (Z.to_nat (zlen s - i)) with (S (Z.to_nat (zlen s - (i + 1)))) by lia.
    + replace (Z.to_nat (zlen s - i)) with O by lia. destruct fuel as [|fuel]; [lia|]. cbn [gmatch_loop].
      by rewrite src_end_ok, (proj2 (Z.leb_gt _ _)) by lia.
  - destruct Hd as (-> & He & Hr & Hcs & Hcl).
    by rewrite (push_captures_ok s ms' cs i e true) by (done || lia).
Qed.

(** The next call starts behind this match. *)
Lemma first_at_range fin : caps_ok [] its = Some fin -> forall k i j m,
  0 <= i -> i + Z.of_nat k <= zlen s -> first_at s its k i = Some (j, m) -> i <= j <= m.1 /\ m.1 <= zlen s.
Proof using.
  intros Hok. induction k as [|k IH]; intros i j m Hi Hk; rewrite first_at_step;
    destruct (den s its i []) as [|m' d] eqn:Ed; try done.
  2:{ intros H. apply IH in H; lia. }
  all: intros [= <- <-]; pose proof (den_ok s its fin i [] ltac:(lia) (Forall_nil_2 _) Hok) as H; rewrite Ed in H;
    apply Forall_inv in H as [H _]; lia.
Qed.
End gmatch.

(** ** The search for a fixed string *)

(** A pattern without special characters. *)
Definition plain_item (c : Z) : item := ISet (SChar c) QOne.
Definition plain_char (c : Z) : Prop := (in_u8 c /\ c <> 0) /\ c ∉ Str.pattern_chars.

Lemma plain_neq c d : c ∉ Str.pattern_chars -> bool_decide (d ∈ Str.pattern_chars) = true -> (c =? d) = false.
Proof. intros Hc Hd%bool_decide_eq_true. apply Z.eqb_neq. by intros ->. Qed.

Lemma plain_quant l : Forall plain_char l -> parse_quant l = (QOne, l).
Proof. intros H. destruct l as [|c l]; [done|]. apply Forall_inv in H as [_ H]. unfold parse_quant. cbn [ch hd]. by rewrite !(plain_neq _ _ H). Qed.

Lemma plain_parse l its : Forall plain_char l -> forall k, parse k l = Some its -> caps_ok [] its <> None ->
  its = map plain_item l.
Proof.
  intros Hl. revert its. induction Hl as [|c l [[Hu H0] Hc] Hl IH]; intros its [|k] E Hok; try done; cbn [parse] in E.
  { by injection E as <-. }
  unfold parse_item in E. cbn [ch hd tail] in E. rewrite (plain_neq c 40), (plain_neq c L_ESC), (plain_neq c 36) in E by done. cbn [andb] in E.
  destruct (c =? 41).
  { cbn in E. destruct (parse k l) as [its'|]; [|done]. injection E as <-. done. }
  unfold parse_set in E. rewrite (plain_neq c L_ESC), (plain_neq c 91), (plain_neq c 46) in E by done. cbn in E.
  rewrite (plain_quant l Hl) in E. cbn in E. destruct (parse k l) as [its'|] eqn:El; [|done]. injection E as <-.
  cbn [map]. f_equal. by apply (IH its' k).
Qed.

Lemma matches_at_cons s c l i : Str.matches_at s (c :: l) i <-> zget s i = Some c /\ Str.matches_at s l (i + 1).
Proof.
  unfold Str.matches_at. rewrite zlen_cons. split.
  - intros H. split; [pose proof (zlen_nonneg l); specialize (H 0 ltac:(lia)); by rewrite Z.add_0_r in H|].
    intros k Hk. specialize (H (k + 1) ltac:(lia)). rewrite zget_cons_pos in H by lia.
    by replace (i + (k + 1)) with (i + 1 + k) in H by lia; replace (k + 1 - 1) with k in H by lia.
  - intros [H1 H2] k Hk. destruct (decide (k = 0)) as [->|]; [by rewrite Z.add_0_r|].
    rewrite zget_cons_pos by lia. rewrite <- H2 by lia. f_equal. lia.
Qed.

Lemma den_plain s cs l : forall i,
  Str.matches_at s l i /\ den s (map plain_item l) i cs = [(i + zlen l, cs)] \/
  ~ Str.matches_at s l i /\ den s (map plain_item l) i cs = [].
Proof.
  induction l as [|c l IH]; intros i.
  { left. split; [|by rewrite Z.add_0_r]. intros k Hk. change (zlen []) with 0 in Hk. lia. }
  cbn [map den plain_item]. rewrite matches_at_cons. unfold has. cbn [set_has].
  destruct (zget s i) as [c'|]; [|right; naive_solver].
  destruct (Z.eqb_spec c c') as [->|]; [|right; naive_solver].
  destruct (IH (i + 1)) as [[H1 H2]|[H1 H2]]; rewrite H2; [left|right; naive_solver].
  split; [done|]. rewrite zlen_cons. do 2 f_equal. lia.
Qed.

Lemma matches_at_drop s p st q : 0 <= st -> 0 <= q -> Str.matches_at (drop (Z.to_nat st) s) p q <-> Str.matches_at s p (st + q).
Proof.
  intros Hst Hq. unfold Str.matches_at.
  assert (H : forall k, 0 <= k -> zget (drop (Z.to_nat st) s) (q + k) = zget s (st + q + k)).
  { intros k Hk. unfold zget. rewrite !(proj2 (Z.ltb_ge _ 0)) by lia. rewrite lookup_drop. f_equal. lia. }
  split; intros Hm k Hk; specialize (Hm k Hk); rewrite H in * by lia; done.
Qed.

Lemma matches_at_range s p i : 0 <= i <= zlen s -> Str.matches_at s p i -> i + zlen p <= zlen s.
Proof.
  intros Hi Hm. destruct (decide (zlen p = 0)) as [E|]; [lia|]. pose proof (zlen_nonneg p).
  destruct (zget_is_Some p (zlen p - 1)) as [c Hc]; [lia|]. rewrite <- (Hm (zlen p - 1)) in Hc by lia.
  apply zget_Some_range in Hc. lia.
Qed.

(** The search for a fixed string is the search for the pattern. *)
Lemma fixed_ok s p st : 0 <= st <= zlen s ->
  exists r, Str.lj_str_find (drop (Z.to_nat st) s) p (zlen s - st) (zlen p) = Some r /\
    found s true (first_at s (map plain_item p) (Z.to_nat (zlen s - st)) st) =
    match r with Some q => [LInt (st + q + 1); LInt (st + q + zlen p)] | None => [LNil] end.
Proof.
  intros Hst. assert (Hl : zlen s - st = zlen (drop (Z.to_nat st) s)) by (unfold zlen in *; rewrite length_drop; lia).
  destruct (Str.lj_str_find_first (drop (Z.to_nat st) s) p) as (r & E & H). rewrite <- Hl in E, H.
  exists r. split; [done|]. pose proof (zlen_nonneg p).
  assert (Hnone : forall j, ~ Str.matches_at s p j -> den s (map plain_item p) j [] = []).
  { intros j Hj. by destruct (den_plain s [] p j) as [[? _]|[_ ?]]. }
  destruct r as [q|].
  - destruct H as (Hq & Hb & Hm & Hno). rewrite matches_at_drop in Hm by lia.
    destruct (den_plain s [] p (st + q)) as [[_ Ed]|[? _]]; [|done].
    rewrite (first_at_hit s _ (st + q) _ [] Ed); [done|lia|]. intros j Hj. apply Hnone. intros Hmj.
    apply (Hno (j - st)); [lia|]. rewrite matches_at_drop by lia. by replace (st + (j - st)) with j by lia.
  - rewrite first_at_miss; [done|]. intros j Hj. apply Hnone. intros Hmj.
    apply (H (j - st)); [lia|apply matches_at_range in Hmj; lia|]. rewrite matches_at_drop by lia.
    by replace (st + (j - st)) with j by lia.
Qed.

(** ** string.find and string.match *)

(** Where the search starts for the third argument, negative from the end. *)
Definition start_pos (len start : Z) : Z := Z.max 0 (if start <? 0 then start + len else start - 1).

Definition text_char (c : Z) : Prop := in_u8 c /\ c <> 0.

Lemma until_nul_text p : Forall text_char p -> until_nul p = p.
Proof. induction 1 as [|c p [_ Hc] _ IH]; [done|]. cbn [until_nul]. by rewrite (proj2 (Z.eqb_neq _ _) Hc), IH. Qed.

Lemma items_wf anchor p its : items_of anchor p = Some its -> exists fin, caps_ok [] its = Some fin.
Proof.
  unfold items_of. destruct (parse _ _) as [its'|]; [|done]. cbn. destruct (well_formed its') eqn:Ew; [|done].
  intros [= ->]. unfold well_formed in Ew. destruct (caps_ok [] its); [eauto|done].
Qed.

Lemma items_compiled_at p its anchor : Forall in_u8 p -> items_of anchor p = Some its ->
  (anchor = true -> anchored p = true) -> compiled p its (if anchor then 1 else 0).
Proof.
  intros Hp E Ha. pose proof (at_p_0 p Hp) as Hat.
  unfold items_of in E. destruct (parse _ _) as [its'|] eqn:Ep; [|done]. cbn in E.
  destruct (well_formed its') eqn:Ew; [|done]. injection E as ->. split; [done|].
  destruct anchor; [|by eexists _, _].
  eexists _, _. split; [|exact Ep]. apply (at_p_tail _ 0); [done|].
  specialize (Ha eq_refl). unfold anchored in Ha. by destruct (until_nul p).
Qed.

Lemma items_compiled p its : Forall in_u8 p -> items_of (anchored p) p = Some its ->
  rdp (c_text p) 0 = POk (ch (until_nul p)) /\ compiled p its (if anchored p then 1 else 0).
Proof. intros Hp E. split; [by apply rdp_at, at_p_0|by apply items_compiled_at]. Qed.

Lemma start_pos_ok (s : list Z) start : zlen s < 2 ^ 31 -> - 2 ^ 31 <= start < 2 ^ 31 ->
  (let st := if start <? 0 then i32 (start + zlen s) else start - 1 in if st <? 0 then 0 else st) = start_pos (zlen s) start.
Proof.
  intros Hl Hst. cbv zeta. pose proof (zlen_nonneg s). unfold start_pos. destruct (Z.ltb_spec start 0).
  - rewrite i32_small by (unfold in_i32; lia). case_match; lia.
  - case_match; lia.
Qed.

Lemma plain_pattern p its : Forall text_char p -> existsb (fun c => bool_decide (c ∈ Str.pattern_chars)) p = false ->
  items_of (anchored p) p = Some its -> anchored p = false /\ its = map plain_item p.
Proof.
  intros Hp Ex Hits. assert (Hplain : Forall plain_char p).
  { clear -Hp Ex. induction Hp as [|c p Hc _ IH]; [done|]. cbn in Ex. apply orb_false_iff in Ex as [E1 E2].
    constructor; [|by apply IH]. split; [done|]. by apply bool_decide_eq_false in E1. }
  assert (Ha : anchored p = false).
  { unfold anchored. rewrite until_nul_text by done. destruct p as [|c p]; [done|].
    apply Forall_inv in Hplain as [_ Hc]. by apply plain_neq. }
  split; [done|]. rewrite Ha in Hits. unfold items_of in Hits. rewrite until_nul_text in Hits by done.
  destruct (parse _ p) as [its'|] eqn:Ep; [|done]. cbn in Hits. destruct (well_formed its') eqn:Ew; [|done].
  injection Hits as ->. apply (plain_parse p its Hplain _ Ep).
  unfold well_formed in Ew. by destruct (caps_ok [] its).
Qed.

(** C2: For every well-formed pattern (its captures are in order, and it has
    fewer than 200 items for which the matcher calls itself), [string.find]
    and [string.match] return the first place from the starting position on at
    which the pattern matches (only the starting position for an anchored
    pattern), the preferred match at that place, and its captures; or nil
    exactly when no place has a match, or the starting position is behind the
    end of the subject.  The fixed-string search [string.find] takes for a
    pattern without special characters gives the same. *)
Theorem str_find_correct (s p : list Z) (start : Z) (find : bool) (its : list item)
  (Hs : Forall in_u8 s) (Hp : Forall text_char p) (Hl : zlen s < 2 ^ 31) (Hstart : - 2 ^ 31 <= start < 2 ^ 31)
  (Hits : items_of (anchored p) p = Some its) :
  let st := start_pos (zlen s) start in
  str_find_aux s p start false find =
    POk (if st <=? zlen s then found s find (first_at s its (places s (anchored p) st) st) else [LNil]).
Proof.
  intros st. pose proof (start_pos_ok s start Hl Hstart) as Ep. unfold str_find_aux. cbv zeta in Ep |- *. rewrite !Ep. fold st. clear Ep.
  destruct (Z.leb_spec st (zlen s)) as [Hle|Hgt]; [|by rewrite (proj2 (Z.ltb_lt _ _) Hgt)].
  rewrite (proj2 (Z.ltb_ge _ _) Hle). assert (Hst : 0 <= st <= zlen s) by (unfold st, start_pos in *; lia).
  assert (Hpb : Forall in_u8 p) by (eapply Forall_impl; [exact Hp|by intros ? []]).
  destruct (items_compiled p its Hpb Hits) as [Hr0 Hc].
  assert (Hpat : find_pattern (c_text s) (c_text p) (src_rounds (c_text s)) find (anchored p) ms_init st
      (if anchored p then 1 else 0) = POk (found s find (first_at s its (places s (anchored p) st) st))).
  { apply (find_pattern_ok s p Hs Hl its _ find (anchored p) Hc); [done|done|].
    unfold src_rounds, c_text. rewrite length_app. unfold zlen in *. lia. }
  assert (Hpat' : (c ← rdp (c_text p) 0; let '(pstr, anchor) := if c =? 94 then (1, true) else (0, false) in
    find_pattern (c_text s) (c_text p) (src_rounds (c_text s)) find anchor ms_init st pstr) =
    POk (found s find (first_at s its (places s (anchored p) st) st))).
  { rewrite Hr0, <- Hpat. cbn [mbind pres_bind]. unfold anchored. by destruct (_ =? 94). }
  destruct find; [|exact Hpat'].
  rewrite (Str.lj_str_haspattern_spec p Hpb). cbn [pchk mbind pres_bind].
  destruct (existsb _ p) eqn:Ex; cbn [negb]; [exact Hpat'|].
  destruct (plain_pattern p its Hp Ex Hits) as [Ha ->]. rewrite Ha.
  destruct (fixed_ok s p st Hst) as (r & -> & E). unfold places. rewrite E. cbn [pchk mbind pres_bind]. by destruct r.
Qed.

(** The pattern "(%w+)()=" in "a; key=1" from the second character on. *)
Lemma str_find_correct_witness :
  let s := [97; 59; 32; 107; 101; 121; 61; 49] in
  let p := [40; 37; 119; 43; 41; 40; 41; 61] in
  let its := [IOpen; ISet (SClass 119) QPlus; IClose; IOpenPos; ISet (SChar 61) QOne] in
  items_of (anchored p) p = Some its /\
  found s true (first_at s its (places s (anchored p) (start_pos 8 2)) (start_pos 8 2)) =
    [LInt 4; LInt 7; LStr [107; 101; 121]; LInt 7] /\
  string_find s p 2 false = POk [LInt 4; LInt 7; LStr [107; 101; 121]; LInt 7] /\
  string_find s p 10 false = POk [LNil].
Proof.
  intros s p its. split; [by vm_compute|]. split; [by vm_compute|].
  assert (Hs : Forall in_u8 s) by (repeat constructor; unfold in_u8; lia).
  assert (Hp : Forall text_char p) by (repeat constructor; unfold in_u8; lia).
  unfold string_find. split; [rewrite (str_find_correct s p 2 true its)|rewrite (str_find_correct s p 10 true its)];
    try done; by vm_compute.
Defined.

(** ** string.gmatch *)

(** C22: a call of the iterator [string.gmatch] returns gives the captures of
    the first match at the first place from its position on, or ends the
    iteration exactly when no place has a match; and its position moves behind
    the match and stays at most one past the end of the subject, also for an
    empty match, so that an iteration ends. *)
Theorem gmatch_correct (s p : list Z) (pos : Z) (its : list item)
  (Hs : Forall in_u8 s) (Hp : Forall in_u8 p) (Hl : zlen s < 2 ^ 31)
  (Hits : items_of false p = Some its) (Hpos : 0 <= pos <= zlen s + 1) :
  string_gmatch_aux s p pos =
    POk (if pos <=? zlen s then next_match s (first_at s its (Z.to_nat (zlen s - pos)) pos) else None) /\
  (forall vs pos', string_gmatch_aux s p pos = POk (Some (vs, pos')) -> pos < pos' <= zlen s + 1).
Proof.
  assert (E : string_gmatch_aux s p pos =
    POk (if pos <=? zlen s then next_match s (first_at s its (Z.to_nat (zlen s - pos)) pos) else None)).
  { pose proof (items_compiled_at p its false Hp Hits ltac:(done)) as Hc. unfold string_gmatch_aux.
    destruct (Z.leb_spec pos (zlen s)).
    - apply gmatch_loop_ok; [done|done|done|lia|done|]. unfold src_rounds, c_text. rewrite length_app. unfold zlen in *. cbn; lia.
    - cbn [gmatch_loop]. by rewrite src_end_ok, (proj2 (Z.leb_gt _ _)) by lia. }
  split; [exact E|]. intros vs pos' E'. rewrite E in E'. destruct (Z.leb_spec pos (zlen s)); [|done].
  destruct (first_at _ _ _ _) as [[j m]|] eqn:Ef; [|done]. injection E' as _ <-.
  apply items_wf in Hits as [fin Hfin].
  apply (first_at_range s its fin Hfin) in Ef; [|lia..]. destruct (Z.eqb_spec m.1 j); lia.
Qed.

(** The pattern "%d*" in "a12": the empty match before the 'a', then "12". *)
Lemma gmatch_correct_witness :
  let s := [97; 49; 50] in
  string_gmatch_aux s [37; 100; 42] 0 = POk (Some ([LStr []], 1)) /\
  string_gmatch_aux s [37; 100; 42] 1 = POk (Some ([LStr [49; 50]], 3)).
Proof.
  intros s. assert (Hs : Forall in_u8 s) by (repeat constructor; unfold in_u8; lia).
  assert (Hp : Forall in_u8 [37; 100; 42]) by (repeat constructor; unfold in_u8; lia).
  destruct (gmatch_correct s [37; 100; 42] 0 [ISet (SClass 100) QStar] Hs Hp) as [-> _]; [done|done|by vm_compute|].
  destruct (gmatch_correct s [37; 100; 42] 1 [ISet (SClass 100) QStar] Hs Hp) as [-> _]; [done|done|by vm_compute|].
  split; by vm_compute.
Defined.
End MatchFind.
