(* ===== verification/LibStringGsub.v ===== *)
(** * LibStringGsub

    [string.gsub] in terms of the matches of a pattern ([LibStringSpec]): which
    text stands for a match, the replacement of the matches from left to right,
    and the theorems that the code computes it and that a replacement by the
    match itself gives the subject back. *)
From stdpp Require Import base tactics numbers list.
From Stdlib Require Import ZArith Lia.
From S2P Require Import Prelude LjStr LibString LibStringSpec LibStringMatch LibStringFind.
Open Scope Z_scope.

Module GsubSpec.
Import Match MatchSpec MatchCorrect MatchFind.

Section gsub.
Context (tostr : Z -> list Z) (s : list Z) (bytes : Forall in_u8 s) (short : zlen s < 2 ^ 31).
Abbreviation n := (zlen s).
Abbreviation src := (c_text s).
Abbreviation cap := (Z * Z)%type.

(** ** The text for a match *)

Definition whole (i : Z) (m : Z * list cap) : list Z := piece s i (m.1 - i).

Lemma piece_one i c : zget s i = Some c -> piece s i 1 = [c].
Proof using. intros H. by rewrite (piece_cons s i 0 c H : piece s i 1 = _), piece_nil by lia. Qed.

(** Capture [k]; the first one of a match without captures is the match. *)
Definition cap_at (i : Z) (m : Z * list cap) (k : Z) : pres Lval :=
  match zget m.2 k with
  | Some c => POk (cap_val s c)
  | None => if (zlen m.2 =? 0) && (k =? 0) then POk (LStr (whole i m)) else PErr STRCAPI
  end.

Definition text_of (v : Lval) : list Z := match v with LStr l => l | LInt k => tostr k | _ => [] end.

(** The replacement string: "%0" is the match, "%1" to "%9" a capture, "%" before
    any other character that character. *)
Fixpoint expand (news : list Z) (i : Z) (m : Z * list cap) : pres (list Z) :=
  match news with
  | [] => POk []
  | c :: news' =>
      if c =? L_ESC then
        match news' with
        | [] => POk [0]
        | d :: rest =>
            t ← (if Char.between 49 d 57 then v ← cap_at i m (d - 49); POk (text_of v)
                 else POk (if d =? 48 then whole i m else [d]));
            u ← expand rest i m; POk (t ++ u)
        end
      else u ← expand news' i m; POk (c :: u)
  end.

(** The value of a function or a table: nil and false keep the match. *)
Definition or_keep (v : Lval) (i : Z) (m : Z * list cap) : pres (list Z) :=
  match v with
  | LNil | LBool false => POk (whole i m)
  | LStr _ | LInt _ => POk (text_of v)
  | _ => PErr STRGSRV
  end.

Definition replacement (r : Repl) (i : Z) (m : Z * list cap) : pres (list Z) :=
  match r with
  | RStr news => expand news i m
  | RFun f => or_keep (f (cap_vals s i m)) i m
  | RTab t => v ← cap_at i m 0; or_keep (t v) i m
  end.

(** A match the matcher has returned, with its state. *)
Definition shown (ms : MatchState) (i : Z) (m : Z * list cap) : Prop :=
  0 <= i <= m.1 /\ m.1 <= n /\ repr ms m.2 /\ Forall (cap_ok n) m.2 /\ Forall closed m.2.

Lemma whole_substr ms i m : shown ms i m -> substr src (Z.to_nat (m.1 - i)) i = POk (whole i m).
Proof using. intros (? & ? & _). unfold whole. by rewrite substr_piece by lia. Qed.

Lemma cap_at_ok ms i m k : shown ms i m -> 0 <= k -> push_onecapture src ms k i m.1 = cap_at i m k.
Proof using.
  intros (Hi & Hn & Hr & Hc & Hcl) Hk. unfold cap_at. destruct (zget m.2 k) as [c|] eqn:Ek.
  - assert (Hin : m.2 !! Z.to_nat k = Some c) by (unfold zget in Ek; by destruct (k <? 0)).
    apply (push_onecapture_ok s ms m.2); try done; [by apply (Forall_lookup_1 _ _ _ _ Hc Hin)|by apply (Forall_lookup_1 _ _ _ _ Hcl Hin)].
  - assert (zlen m.2 <= k).
    { destruct (Z.lt_ge_cases k (zlen m.2)); [|done]. destruct (zget_is_Some m.2 k); [lia|congruence]. }
    pose proof Hr as (Hl & _). pose proof (zlen_nonneg m.2). unfold push_onecapture. rewrite Hl, (proj2 (Z.leb_le _ _)) by lia.
    destruct (Z.eqb_spec k 0) as [->|]; [|by rewrite andb_false_r].
    rewrite (proj2 (Z.eqb_eq _ _)) by lia. cbn [andb]. unfold whole. by rewrite substr_piece by lia.
Qed.

Lemma cap_at_value i m k v : cap_at i m k = POk v -> forall b, addvalue tostr b v = POk (b ++ text_of v).
Proof using.
  unfold cap_at, cap_val. intros E b. destruct (zget m.2 k) as [c|]; [|destruct (_ && _); [|done]].
  all: injection E as <-; try done. by destruct (c.2 =? CAP_POSITION).
Qed.

Lemma add_s_ok ms i m (Hm : shown ms i m) news : Forall in_u8 news -> forall b,
  add_s tostr news src ms b i m.1 = (t ← expand news i m; POk (b ++ t)).
Proof using.
  intros Hb. remember (length news) as k eqn:Ek. revert news Hb Ek. induction (lt_wf k) as [k _ IH].
  intros news Hb -> b. destruct news as [|c news']; cbn [add_s expand]; [cbn; by rewrite app_nil_r|].
  apply Forall_cons_1 in Hb as [Hc Hb].
  assert (Hgo : forall rest b' t, (length rest < length (c :: news'))%nat -> Forall in_u8 rest ->
    b' = b ++ t -> add_s tostr rest src ms b' i m.1 = (t' ← (u ← expand rest i m; POk (t ++ u)); POk (b ++ t'))).
  { intros rest b' t Hlt Hr ->. rewrite (IH _ Hlt rest Hr eq_refl).
    destruct (expand rest i m); cbn; try done. by rewrite app_assoc. }
  destruct (Z.eqb_spec c L_ESC) as [->|]; cbn [negb]; [|by apply (Hgo news' _ [c]); [cbn; lia| |]].
  destruct news' as [|d rest]; [done|]. apply Forall_cons_1 in Hb as [Hd Hb].
  rewrite (isa_byte_digit d Hd). cbn [mbind pres_bind].
  destruct (Z.eqb_spec d 48) as [->|Hd0].
  { cbn [Char.between Z.leb Z.compare andb negb Pos.compare Pos.compare_cont]. rewrite (whole_substr ms i m Hm).
    cbn [mbind pres_bind]. apply (Hgo rest); [cbn; lia|done|done]. }
  assert (Hdig : Char.between 48 d 57 = Char.between 49 d 57).
  { unfold Char.between. destruct (Z.leb_spec 48 d), (Z.leb_spec 49 d); try done; lia. }
  rewrite Hdig. destruct (Char.between 49 d 57) eqn:Eb; cbn [negb mbind pres_bind].
  2:{ apply (Hgo rest); [cbn; lia|done|done]. }
  unfold Char.between in Eb. apply andb_true_iff in Eb as [Eb%Z.leb_le _].
  rewrite (cap_at_ok ms i m (d - 49) Hm) by lia. destruct (cap_at i m (d - 49)) as [v| | |] eqn:Ev; cbn [mbind pres_bind]; try done.
  rewrite (cap_at_value i m _ v Ev). cbn [mbind pres_bind]. apply (Hgo rest); [cbn; lia|done|done].
Qed.

(** The bytes of a replacement string. *)
Definition repl_bytes (r : Repl) : Prop := match r with RStr news => Forall in_u8 news | _ => True end.

Lemma add_value_ok r ms i m b : repl_bytes r -> shown ms i m ->
  add_value tostr r src ms b i m.1 = (t ← replacement r i m; POk (b ++ t)).
Proof using.
  intros Hr Hm. pose proof Hm as (Hi & Hn & Hrep & Hc & Hcl). unfold add_value, replacement.
  assert (Hf : forall v, match v with
      | LNil | LBool false => l ← substr src (Z.to_nat (m.1 - i)) i; POk (b ++ l)
      | LStr _ | LInt _ => addvalue tostr b v | _ => PErr STRGSRV end = (t ← or_keep v i m; POk (b ++ t))).
  { intros [|[]| | |]; cbn [or_keep]; try done; by rewrite (whole_substr ms i m Hm). }
  destruct r as [news|f|t]; [by apply add_s_ok| |].
  - rewrite (push_captures_ok s ms m.2 i m.1 true) by done. cbn [mbind pres_bind]. destruct m; apply Hf.
  - rewrite (cap_at_ok ms i m 0 Hm) by lia. destruct (cap_at i m 0); cbn [mbind pres_bind]; [apply Hf|done..].
Qed.

(** ** The matches from left to right *)

Context (its : list item) (r : Repl) (anchor : bool).

(** From place [i] on, with [left] replacements to go: the text and the number
    of replacements.  After an empty match, and where there is none, the
    character goes over as it is; an anchored pattern is tried once. *)
Fixpoint subst (fuel : nat) (left i : Z) : pres (list Z * Z) :=
  match fuel with
  | O => PFuel
  | S fuel' =>
      let go left j := if anchor then POk (piece s j (n - j), 0) else subst fuel' left j in
      if 0 <? left then
        match den s its i [] with
        | m :: _ =>
            t ← replacement r i m;
            x ← (if i <? m.1 then go (left - 1) m.1
                 else if i <? n then x ← go (left - 1) (i + 1); POk (piece s i 1 ++ x.1, x.2)
                 else POk ([], 0));
            POk (t ++ x.1, 1 + x.2)
        | [] => if i <? n then x ← go left (i + 1); POk (piece s i 1 ++ x.1, x.2) else POk ([], 0)
        end
      else POk (piece s i (n - i), 0)
  end.

Lemma rest_ok b k j : 0 <= j <= n ->
  (l ← substr src (Z.to_nat (n - j)) j; POk (b ++ l, k)) = POk (b ++ piece s j (n - j), k + 0).
Proof using. intros Hj. rewrite substr_piece by lia. cbn. by rewrite Z.add_0_r. Qed.

Lemma counted_bind (b t : list Z) (k : Z) (X : pres (list Z * Z)) :
  (x ← X; POk ((b ++ t) ++ x.1, k + 1 + x.2)) = (x ← (x ← X; POk (t ++ x.1, 1 + x.2)); POk (b ++ x.1, k + x.2)).
Proof using. destruct X as [[u x]| | |]; cbn; try done. by rewrite <- app_assoc, Z.add_assoc. Qed.

Lemma gsub_loop_ok p pstr : compiled p its pstr -> repl_bytes r -> forall fuel ms b k i max,
  0 <= i <= n -> zlen (capture ms) = LUA_MAXCAPTURES ->
  gsub_loop tostr fuel src (c_text p) r max anchor ms b k i pstr =
    (x ← subst fuel (max - k) i; POk (b ++ x.1, k + x.2)).
Proof using bytes short.
  intros Hc Hr. induction fuel as [|fuel IH]; intros ms b k i max Hi Hl; [done|]. cbn [gsub_loop subst].
  rewrite src_end_ok.
  assert (Hlt : (0 <? max - k) = (k <? max)).
  { destruct (Z.ltb_spec 0 (max - k)), (Z.ltb_spec k max); try done; lia. }
  rewrite Hlt. destruct (k <? max); [|by rewrite rest_ok].
  assert (Hgo : forall ms b k' left j, 0 <= j <= n -> zlen (capture ms) = LUA_MAXCAPTURES -> left = max - k' ->
    (if anchor then l ← substr src (Z.to_nat (n - j)) j; POk (b ++ l, k')
     else gsub_loop tostr fuel src (c_text p) r max anchor ms b k' j pstr) =
    (x ← (if anchor then POk (piece s j (n - j), 0) else subst fuel left j); POk (b ++ x.1, k' + x.2))).
  { intros ms' b' k' left j Hj Hl' ->. destruct anchor; [by rewrite rest_ok|by apply IH]. }
  assert (Hch : forall ms b k' left, i < n -> zlen (capture ms) = LUA_MAXCAPTURES -> left = max - k' ->
    (c ← rds src i; if anchor then l ← substr src (Z.to_nat (n - (i + 1))) (i + 1); POk ((b ++ [c]) ++ l, k')
     else gsub_loop tostr fuel src (c_text p) r max anchor ms (b ++ [c]) k' (i + 1) pstr) =
    (x ← (x ← (if anchor then POk (piece s (i + 1) (n - (i + 1)), 0) else subst fuel left (i + 1));
          POk (piece s i 1 ++ x.1, x.2)); POk (b ++ x.1, k' + x.2))).
  { intros ms' b' k' left Hin Hl' Hle. destruct (zget_is_Some s i) as [c Hcc]; [lia|].
    rewrite (rds_at s i c Hcc). cbn [mbind pres_bind]. rewrite (Hgo ms' (b' ++ [c]) k' left) by (done || lia).
    rewrite (piece_one i c Hcc).
    destruct (if anchor then _ else _) as [[u x]| | |]; cbn; try done. by rewrite <- app_assoc. }
  destruct (do_match_ok s p bytes short its pstr ms i Hc Hi Hl) as (res & ms' & -> & Hl' & Hd). cbn [mbind pres_bind].
  destruct (den s its i []) as [|[e cs] d].
  - subst res. cbn [mbind pres_bind]. destruct (Z.ltb_spec i n); [by apply Hch|]. rewrite rest_ok by lia.
    by rewrite piece_nil by lia.
  - destruct Hd as (-> & He & Hrep & Hcs & Hcl). cbn [fst].
    assert (Hsh : shown ms' i (e, cs)) by (split_and!; cbn [fst snd]; (lia || done)).
    pose proof (add_value_ok r ms' i (e, cs) b Hr Hsh) as Ea. cbn [fst] in Ea. rewrite Ea.
    destruct (replacement r i (e, cs)) as [t| | |]; cbn [mbind pres_bind]; try done.
    rewrite <- counted_bind. destruct (Z.ltb_spec i e); [apply Hgo; [lia|done|lia]|].
    destruct (Z.ltb_spec i n); [apply Hch; [lia|done|lia]|]. rewrite rest_ok by lia. by rewrite piece_nil by lia.
Qed.

(** *** Outcomes *)

(** A result, or an error of the replacement. *)
Definition settled {A} (P : A -> Prop) (x : pres A) : Prop :=
  match x with POk a => P a | PErr STRCAPI | PErr STRGSRV => True | _ => False end.

Lemma settled_bind {A B} (P : A -> Prop) (Q : B -> Prop) (x : pres A) (f : A -> pres B) :
  settled P x -> (forall a, P a -> settled Q (f a)) -> settled Q (a ← x; f a).
Proof using. destruct x; cbn; auto. Qed.

Lemma cap_at_settled i m k : settled (fun _ => True) (cap_at i m k).
Proof using. unfold cap_at. by repeat case_match. Qed.

Lemma expand_settled i m news : settled (fun _ => True) (expand news i m).
Proof using.
  remember (length news) as k eqn:Ek. revert news Ek. induction (lt_wf k) as [k _ IH]. intros news ->.
  destruct news as [|c news']; cbn [expand]; [done|].
  destruct (c =? L_ESC); [destruct news' as [|d rest]; [done|]|].
  - apply (settled_bind (fun _ => True)).
    + case_match; [|done]. eapply settled_bind; [apply cap_at_settled|done].
    + intros t' _. eapply settled_bind; [apply (IH (length rest)); [cbn; lia|done]|done].
  - eapply settled_bind; [apply (IH (length news')); [cbn; lia|done]|done].
Qed.

Lemma replacement_settled i m : settled (fun _ => True) (replacement r i m).
Proof using.
  assert (Hk : forall v, settled (fun _ => True) (or_keep v i m)) by (by intros [|[]| | |]).
  destruct r; cbn [replacement]; [apply expand_settled|apply Hk|].
  eapply settled_bind; [apply cap_at_settled|]. intros v _. apply Hk.
Qed.

Context (fin : list cstat) (wf : caps_ok [] its = Some fin).

Lemma den_range i m d : 0 <= i <= n -> den s its i [] = m :: d -> i <= m.1 <= n.
Proof using wf.
  intros Hi Hd. pose proof (den_ok s its fin i [] Hi (Forall_nil_2 _) wf) as H. rewrite Hd in H.
  apply Forall_inv in H as [H _]. lia.
Qed.

(** The rounds are enough for every place, and the replacements are counted. *)
Lemma subst_settled : forall fuel left i, 0 <= i <= n -> (Z.to_nat (n - i) < fuel)%nat ->
  settled (fun x => 0 <= x.2 <= Z.max 0 left) (subst fuel left i).
Proof using wf.
  induction fuel as [|fuel IH]; intros left i Hi Hf; [lia|]. cbn [subst].
  destruct (Z.ltb_spec 0 left); [|cbn; lia].
  assert (Hgo : forall left j, i < j <= n ->
    settled (fun x => 0 <= x.2 <= Z.max 0 left) (if anchor then POk (piece s j (n - j), 0) else subst fuel left j)).
  { intros left' j Hj. destruct anchor; [cbn; lia|]. apply IH; lia. }
  destruct (den s its i []) as [|m d] eqn:Ed.
  - destruct (Z.ltb_spec i n); [|cbn; lia]. eapply settled_bind; [apply (Hgo left (i + 1)); lia|]. intros x Hx. cbn in *. lia.
  - pose proof (den_range i m d Hi Ed) as Hm. eapply settled_bind; [apply replacement_settled|]. intros t _.
    apply (settled_bind (fun x => 0 <= x.2 <= Z.max 0 (left - 1))); [|intros x Hx; cbn in *; lia].
    destruct (Z.ltb_spec i m.1); [apply Hgo; lia|]. destruct (Z.ltb_spec i n); [|cbn; lia].
    eapply settled_bind; [apply (Hgo (left - 1) (i + 1)); lia|]. intros x Hx. cbn in *. lia.
Qed.

Lemma piece_app i j k : 0 <= i <= j -> j <= k -> piece s i (j - i) ++ piece s j (k - j) = piece s i (k - i).
Proof using.
  intros Hi Hj. unfold piece. replace (Z.to_nat j) with (Z.to_nat i + Z.to_nat (j - i))%nat by lia.
  rewrite <- drop_drop. replace (Z.to_nat (k - i)) with (Z.to_nat (j - i) + Z.to_nat (k - j))%nat by lia.
  by rewrite take_take_drop.
Qed.

(** A replacement that is the match gives the text back. *)
Lemma subst_id : (forall i m, replacement r i m = POk (whole i m)) -> forall fuel left i,
  0 <= i <= n -> (Z.to_nat (n - i) < fuel)%nat ->
  exists k, subst fuel left i = POk (piece s i (n - i), k) /\ 0 <= k <= Z.max 0 left.
Proof using wf.
  intros Hr. induction fuel as [|fuel IH]; intros left i Hi Hf; [lia|]. cbn [subst].
  destruct (Z.ltb_spec 0 left); [|exists 0; split; [done|lia]].
  assert (Hgo : forall left j, i < j <= n -> exists k,
    (if anchor then POk (piece s j (n - j), 0) else subst fuel left j) = POk (piece s j (n - j), k) /\ 0 <= k <= Z.max 0 left).
  { intros left' j Hj. destruct anchor; [exists 0; split; [done|lia]|]. apply IH; lia. }
  assert (Hone : forall k, i < n -> piece s i 1 ++ piece s (i + 1) (n - (i + 1)) = piece s i (n - i) /\ 0 <= Z.max 0 k).
  { intros k Hin. replace 1 with (i + 1 - i) at 1 by lia. split; [apply piece_app|]; lia. }
  destruct (den s its i []) as [|m d] eqn:Ed.
  - destruct (Z.ltb_spec i n) as [Hin|]; [|exists 0; split; [by rewrite piece_nil by lia|lia]].
    destruct (Hgo left (i + 1) ltac:(lia)) as (k & -> & Hk). cbn [mbind pres_bind fst snd].
    exists k. by rewrite (proj1 (Hone 0 Hin)).
  - pose proof (den_range i m d Hi Ed) as Hm. rewrite Hr. cbn [mbind pres_bind]. unfold whole.
    destruct (Z.ltb_spec i m.1) as [Hlt|Hge].
    + destruct (Hgo (left - 1) m.1 ltac:(lia)) as (k & -> & Hk). cbn [mbind pres_bind fst snd].
      exists (1 + k). split; [by rewrite piece_app by lia|lia].
    + rewrite (piece_nil s i (m.1 - i)) by lia. destruct (Z.ltb_spec i n) as [Hin|].
      * destruct (Hgo (left - 1) (i + 1) ltac:(lia)) as (k & -> & Hk). cbn [mbind pres_bind fst snd app].
        exists (1 + k). rewrite (proj1 (Hone 0 Hin)). split; [done|lia].
      * exists 1. cbn. split; [by rewrite piece_nil by lia|lia].
Qed.
End gsub.

(** ** string.gsub *)

Lemma string_gsub_subst tostr s p r max its :
  Forall in_u8 s -> zlen s < 2 ^ 31 -> Forall in_u8 p -> repl_bytes r -> items_of (anchored p) p = Some its ->
  string_gsub tostr s p r max =
    subst tostr s its r (anchored p) (S (src_rounds (c_text s))) (default (zlen s + 1) max) 0.
Proof.
  intros Hs Hl Hp Hr Hits. destruct (items_compiled p its Hp Hits) as [H0 Hc]. pose proof (zlen_nonneg s).
  unfold string_gsub. rewrite H0. cbn [mbind pres_bind]. unfold anchored in *.
  destruct (ch (until_nul p) =? 94); rewrite (gsub_loop_ok tostr s Hs Hl its r _ p _ Hc Hr) by (done || lia);
    rewrite Z.sub_0_r; by destruct (subst _ _ _ _ _ _ _ _) as [[]| | |].
Qed.

(** C13: [string.gsub] replaces the matches of the pattern from left to right,
    each by the text its replacement stands for (a string with "%0" to "%9", a
    function of the captures, a table indexed by the first capture), at most
    as often as the caller allows, and counts the replacements; it fails only
    with one of the two errors of a replacement (a capture the pattern does
    not have, a value that is no string). *)
Theorem gsub_correct (tostr : Z -> list Z) (s p : list Z) (r : Repl) (max : option Z) (its : list item)
  (Hs : Forall in_u8 s) (Hp : Forall in_u8 p) (Hl : zlen s < 2 ^ 31) (Hr : repl_bytes r)
  (Hits : items_of (anchored p) p = Some its) :
  let limit := default (zlen s + 1) max in
  string_gsub tostr s p r max = subst tostr s its r (anchored p) (length s + 3) limit 0 /\
  settled (fun x => 0 <= x.2 <= Z.max 0 limit) (string_gsub tostr s p r max).
Proof.
  intros limit. rewrite (string_gsub_subst tostr s p r max its) by done. fold limit.
  replace (S (src_rounds (c_text s))) with (length s + 3)%nat by (unfold src_rounds, c_text; rewrite length_app; cbn; lia).
  split; [done|]. destruct (items_wf _ p its Hits) as [fin Hfin]. pose proof (zlen_nonneg s).
  apply (subst_settled tostr s its r (anchored p) fin Hfin); [lia|unfold zlen; lia].
Qed.

(** "(%a)(%d)" by "%2%1!" in "a1 b2 c3", twice. *)
Lemma gsub_correct_witness :
  let s := [97; 49; 32; 98; 50; 32; 99; 51] in
  let p := [40; 37; 97; 41; 40; 37; 100; 41] in
  let r := RStr [37; 50; 37; 49; 33] in
  string_gsub (fun _ => []) s p r (Some 2) = POk ([49; 97; 33; 32; 50; 98; 33; 32; 99; 51], 2).
Proof.
  intros s p r. assert (Hs : Forall in_u8 s) by (repeat constructor; unfold in_u8; lia).
  assert (Hp : Forall in_u8 p) by (repeat constructor; unfold in_u8; lia).
  assert (Hr : repl_bytes r) by (repeat constructor; unfold in_u8; lia).
  destruct (gsub_correct (fun _ => []) s p r (Some 2)
    [IOpen; ISet (SClass 97) QOne; IClose; IOpen; ISet (SClass 100) QOne; IClose] Hs Hp) as [-> _];
    [done|done|by vm_compute|]. by vm_compute.
Defined.

(** A replacement of every match by itself ("%0"), and likewise by a
    function that returns nil, gives the subject back, whatever the pattern is
    and wherever it matches, empty matches included. *)
Theorem gsub_identity (tostr : Z -> list Z) (s p : list Z) (r : Repl) (max : option Z) (its : list item)
  (Hs : Forall in_u8 s) (Hp : Forall in_u8 p) (Hl : zlen s < 2 ^ 31)
  (Hits : items_of (anchored p) p = Some its) (Hr : r = RStr [37; 48] \/ r = RFun (fun _ => LNil)) :
  exists k, string_gsub tostr s p r max = POk (s, k) /\ 0 <= k <= Z.max 0 (default (zlen s + 1) max).
Proof.
  assert (Hb : repl_bytes r) by (destruct Hr as [-> | ->]; cbn; [repeat constructor; unfold in_u8; lia|done]).
  rewrite (string_gsub_subst tostr s p r max its) by done. destruct (items_wf _ p its Hits) as [fin Hfin].
  pose proof (zlen_nonneg s).
  destruct (subst_id tostr s its r (anchored p) fin Hfin) with (fuel := S (src_rounds (c_text s)))
    (left := default (zlen s + 1) max) (i := 0) as (k & E & Hk).
  - intros i m. destruct Hr as [-> | ->]; [cbn|done]. by rewrite app_nil_r.
  - lia.
  - unfold src_rounds, c_text. rewrite length_app. unfold zlen. cbn. lia.
  - exists k. split; [|done]. rewrite E. unfold piece. rewrite Z.sub_0_r. unfold zlen. by rewrite Nat2Z.id, drop_0, firstn_all.
Qed.

(** The pattern "x*" matches the empty string before and behind every character
    of "axb" that is no 'x'. *)
Lemma gsub_identity_witness :
  exists k, string_gsub (fun _ => []) [97; 120; 98] [120; 42] (RStr [37; 48]) None = POk ([97; 120; 98], k) /\ k = 4.
Proof.
  assert (Hs : Forall in_u8 [97; 120; 98]) by (repeat constructor; unfold in_u8; lia).
  assert (Hp : Forall in_u8 [120; 42]) by (repeat constructor; unfold in_u8; lia).
  destruct (gsub_identity (fun _ => []) [97; 120; 98] [120; 42] (RStr [37; 48]) None [ISet (SChar 120) QStar] Hs Hp)
    as (k & E & Hk); [done|by vm_compute|by left|].
  exists k. split; [exact E|]. assert (Hr : string_gsub (fun _ => []) [97; 120; 98] [120; 42] (RStr [37; 48]) None = POk ([97; 120; 98], 4))
    by (by vm_compute). congruence.
Defined.
End GsubSpec.
