(* ===== verification/LibStringSafe.v ===== *)
(** * LibStringSafe

    No pattern makes the matcher leave its strings or its captures: for all
    bytes of the pattern and the subject, every read stays inside one of them,
    no capture is read before it is written, the loops and the recursion end,
    and what the functions of the string library return is a result or one of
    the errors of a malformed pattern. *)
From stdpp Require Import base tactics numbers list.
From Stdlib Require Import ZArith Lia.
From S2P Require Import Prelude LjStr LibString LibStringSpec LibStringMatch LibStringFind LibStringGsub.
Open Scope Z_scope.

Module MatchSafe.
Import Match MatchSpec MatchCorrect MatchFind GsubSpec.

(** A result with [P], or an error. *)
Definition safe {A} (P : A -> Prop) (x : pres A) : Prop :=
  match x with POk a => P a | PErr _ => True | PFault | PFuel => False end.

Lemma safe_bind {A B} (P : A -> Prop) (Q : B -> Prop) (x : pres A) (f : A -> pres B) :
  safe P x -> (forall a, P a -> safe Q (f a)) -> safe Q (a ← x; f a).
Proof. destruct x; cbn; auto. Qed.
Lemma safe_impl {A} (P Q : A -> Prop) x : safe P x -> (forall a, P a -> Q a) -> safe Q x.
Proof. destruct x; cbn; auto. Qed.

Section matcher.
Context (p : list Z) (pbytes : Forall in_u8 p).
Abbreviation pat := (c_text p).
Abbreviation len := (zlen pat).
Abbreviation cap := (Z * Z)%type.

(** ** Places in the pattern *)

Definition in_pat (q : Z) : Prop := 0 <= q < len.

(** A character that is not NUL has another one behind it. *)
Lemma rdp_in q : in_pat q -> exists c, rdp pat q = POk c /\ in_u8 c /\ (c <> 0 -> in_pat (q + 1)).
Proof using pbytes.
  intros Hq. unfold in_pat in *. destruct (zget_is_Some pat q Hq) as [c Hc]. exists c. unfold rdp. rewrite Hc. split; [done|].
  unfold c_text in *. rewrite zlen_app in *. change (zlen [0]) with 1 in *.
  destruct (Z.lt_ge_cases q (zlen p)) as [Hlt|Hge].
  - split; [|lia]. rewrite zget_app_l in Hc by lia. unfold zget in Hc. destruct (q <? 0); [done|].
    apply (Forall_lookup_1 _ _ _ _ pbytes Hc).
  - replace q with (zlen p) in * by lia. rewrite zget_middle in Hc. injection Hc as <-. split; [unfold in_u8; lia|done].
Qed.

Lemma rdp_safe {B} q (Q : B -> Prop) f : in_pat q ->
  (forall c, in_u8 c -> (c <> 0 -> in_pat (q + 1)) -> rdp pat q = POk c -> safe Q (f c)) -> safe Q (c ← rdp pat q; f c).
Proof using pbytes. intros Hq Hf. destruct (rdp_in q Hq) as (c & E & H1 & H2). rewrite E. cbn. auto. Qed.

Lemma classend_loop_safe : forall fuel q, in_pat q -> len - q < Z.of_nat fuel ->
  safe (fun ep => q < ep /\ in_pat ep) (classend_loop pat fuel q).
Proof using pbytes.
  induction fuel as [|fuel IH]; intros q Hq Hf; [unfold in_pat in *; lia|]. cbn [classend_loop].
  apply rdp_safe; [done|]. intros c _ Hc _. destruct (Z.eqb_spec c 0); [done|]. specialize (Hc ltac:(done)).
  apply rdp_safe; [done|]. intros c1 _ Hc1 _. replace (q + 1 + 1) with (q + 2) in * by lia.
  assert (Hq' : exists q', q < q' /\ in_pat q' /\ (if (c =? L_ESC) && negb (c1 =? 0) then q + 2 else q + 1) = q').
  { eexists. split_and!; [| |done]; destruct (c =? L_ESC), (Z.eqb_spec c1 0); cbn; auto; lia. }
  destruct Hq' as (q' & Hlt & Hin & ->). apply rdp_safe; [done|]. intros c2 _ Hc2 _.
  destruct (Z.eqb_spec c2 93) as [->|]; cbn [negb]; [split; [lia|by apply Hc2]|].
  eapply safe_impl; [apply IH; [done|lia]|]. intros ep []. split; [lia|done].
Qed.

Lemma classend_safe q c : in_pat q -> rdp pat q = POk c -> c <> 0 -> safe (fun ep => q < ep /\ in_pat ep) (classend pat q).
Proof using pbytes.
  intros Hq Ec Hc. destruct (rdp_in q Hq) as (c' & E & _ & Hn). rewrite E in Ec. injection Ec as ->. specialize (Hn Hc).
  unfold classend. rewrite E. cbn [mbind pres_bind].
  assert (Hf : forall q', q <= q' -> in_pat q' -> safe (fun ep => q < ep /\ in_pat ep) (classend_loop pat (pat_rounds pat) q')).
  { intros q' Hle Hin. eapply safe_impl; [apply classend_loop_safe; [done|]|].
    - unfold pat_rounds. unfold in_pat, zlen in *. lia.
    - intros ep []. split; [lia|done]. }
  destruct (c =? L_ESC); [|destruct (c =? 91); [|split; [lia|done]]]; (apply rdp_safe; [done|]); intros c1 _ Hc1 _.
  - destruct (Z.eqb_spec c1 0); [done|]. split; [lia|auto].
  - destruct (Z.eqb_spec c1 94) as [->|]; apply Hf; auto; lia.
Qed.

Lemma match_class_safe c cl : in_u8 c -> in_u8 cl -> safe (fun _ => True) (match_class c cl).
Proof using. intros H1 H2. by rewrite match_class_ok. Qed.

Lemma bracket_loop_safe c ec sig : in_u8 c -> in_pat ec -> forall fuel q, 0 <= q -> len - q < Z.of_nat fuel -> 0 < Z.of_nat fuel ->
  safe (fun _ => True) (bracket_loop pat fuel c q ec sig).
Proof using pbytes.
  intros Hc Hec. induction fuel as [|fuel IH]; intros q Hq Hf Hf0; [lia|]. cbn [bracket_loop].
  destruct (Z.ltb_spec (q + 1) ec) as [Hlt|]; [|done].
  assert (Hin : forall x, 0 <= x <= ec -> in_pat x) by (unfold in_pat in *; lia).
  apply rdp_safe; [apply Hin; lia|]. intros a Ha _ _. destruct (a =? L_ESC).
  - apply rdp_safe; [apply Hin; lia|]. intros cl Hcl _ _. eapply safe_bind; [by apply match_class_safe|].
    intros [] _; [done|]. apply IH; unfold in_pat in *; lia.
  - apply rdp_safe; [apply Hin; lia|]. intros b _ _ _. destruct ((b =? 45) && (q + 1 + 2 <? ec)) eqn:Eb.
    + apply andb_true_iff in Eb as [_ Eb%Z.ltb_lt]. apply rdp_safe; [apply Hin; lia|]. intros hi _ _ _.
      destruct (_ && _); [done|]. apply IH; unfold in_pat in *; lia.
    + destruct (a =? c); [done|]. apply IH; unfold in_pat in *; lia.
Qed.

(** [ec] is the end of the class at [q]. *)
Lemma bracketclass_safe c q ec : in_u8 c -> in_pat (q + 1) -> 0 <= q -> in_pat ec ->
  safe (fun _ => True) (matchbracketclass pat c q ec).
Proof using pbytes.
  intros Hc Hq Hq0 Hec. unfold matchbracketclass. apply rdp_safe; [done|]. intros c1 _ _ _.
  destruct (c1 =? 94); (apply bracket_loop_safe; [done|done|lia|unfold pat_rounds, zlen; lia|unfold pat_rounds; lia]).
Qed.

(** A single-character item at [q], up to [ep]. *)
Definition item_at (q ep : Z) : Prop := in_pat q /\ (exists a, rdp pat q = POk a /\ a <> 0) /\ q < ep /\ in_pat ep.

Lemma singlematch_safe c q ep : in_u8 c -> item_at q ep -> safe (fun _ => True) (singlematch pat c q ep).
Proof using pbytes.
  intros Hc (Hq & (a & Ea & Ha) & Hlt & Hep). unfold singlematch. apply rdp_safe; [done|]. intros a' _ Hn Ea'.
  rewrite Ea in Ea'. injection Ea' as <-. specialize (Hn Ha). destruct (a =? 46); [done|]. destruct (a =? L_ESC).
  - apply rdp_safe; [done|]. intros cl Hcl _ _. by apply match_class_safe.
  - destruct (a =? 91); [|done]. apply bracketclass_safe; unfold in_pat in *; (done || lia).
Qed.

(** ** Places in the subject *)

Context (s : list Z) (bytes : Forall in_u8 s) (short : zlen s < 2 ^ 31).
Abbreviation n := (zlen s).
Abbreviation src := (c_text s).

Lemma matches_here_safe i q ep : 0 <= i <= n -> item_at q ep ->
  safe (fun b : bool => b = true -> i < n) (matches_here src pat i q ep).
Proof using bytes pbytes.
  intros Hi Hit. unfold matches_here. rewrite src_end_ok. destruct (Z.ltb_spec i n); [|done].
  rewrite rds_any by lia. cbn [mbind pres_bind]. eapply safe_impl; [apply singlematch_safe; [by apply byte_any|done]|done].
Qed.

Lemma balance_loop_safe b e : forall fuel i cont, 0 <= i <= n -> n - i < Z.of_nat fuel ->
  safe (fun r => forall j, r = Some j -> i <= j <= n) (balance_loop src fuel i b e cont).
Proof using.
  induction fuel as [|fuel IH]; intros i cont Hi Hf; [lia|]. cbn [balance_loop]. rewrite src_end_ok.
  destruct (Z.ltb_spec (i + 1) n); [|done]. rewrite rds_any by lia. cbn [mbind pres_bind].
  assert (Hgo : forall cont, safe (fun r => forall j, r = Some j -> i <= j <= n) (balance_loop src fuel (i + 1) b e cont)).
  { intros cont'. eapply safe_impl; [apply IH; lia|]. intros r Hr j ->. specialize (Hr j eq_refl). lia. }
  destruct (_ =? e); [destruct (cont - 1 =? 0)|]; [|apply Hgo..]. intros j [= <-]. lia.
Qed.

Lemma matchbalance_safe i q : 0 <= i <= n -> in_pat q ->
  safe (fun r => forall j, r = Some j -> i <= j <= n /\ in_pat (q + 2)) (matchbalance src pat i q).
Proof using pbytes.
  intros Hi Hq. unfold matchbalance. apply rdp_safe; [done|]. intros b _ Hb _. destruct (Z.eqb_spec b 0); [done|].
  apply rdp_safe; [auto|]. intros e _ He _. destruct (Z.eqb_spec e 0); [done|].
  rewrite rds_any by lia. cbn [mbind pres_bind]. destruct (negb _); [done|].
  eapply safe_impl; [apply balance_loop_safe; [done|]|].
  - unfold src_rounds, c_text. rewrite length_app. unfold zlen in *. lia.
  - intros r Hr j ->. split; [by apply Hr|]. replace (q + 2) with (q + 1 + 1) by lia. auto.
Qed.

Lemma match_capture_safe ms cs i d : 0 <= i <= n -> repr ms cs -> Forall (cap_ok i) cs ->
  safe (fun r => forall j, r = Some j -> i <= j <= n) (match_capture src ms i d).
Proof using short.
  intros Hi Hr Hc. destruct (zget cs (d - 49)) as [c|] eqn:Ec.
  - assert (Hck : cap_ok i c).
    { unfold zget in Ec. destruct (d - 49 <? 0); [done|]. by apply (Forall_lookup_1 _ _ _ _ Hc Ec). }
    destruct (decide (stat c = COpen)) as [Ho|Ho].
    + unfold match_capture, check_capture. destruct (_ || _); [done|]. rewrite (get_cap_ok ms cs _ c Hr Ec). cbn [mbind pres_bind].
      apply stat_open in Ho. by rewrite Ho.
    + rewrite (match_capture_ok s short ms cs i d c) by done. destruct (repeats s c i) eqn:Erp; [|done].
      unfold repeats in Erp. apply andb_true_iff in Erp as [Erp _]. apply andb_true_iff in Erp as [E0%Z.leb_le E1%Z.leb_le].
      intros j [= <-]. lia.
  - unfold match_capture, check_capture. pose proof Hr as (Hl & _). rewrite Hl.
    destruct (Z.ltb_spec (d - 49) 0), (Z.leb_spec (zlen cs) (d - 49)); try done.
    destruct (zget_is_Some cs (d - 49)); [lia|congruence].
Qed.

(** ** The matcher *)

(** The outcome of a call at [i]: a match behind [i] with its captures in the
    subject, or a failure that leaves the captures as they were. *)
Definition post (ms : MatchState) (cs : list cap) (i : Z) (r : option Z * MatchState) : Prop :=
  depth r.2 = depth ms /\
  match r.1 with
  | None => repr r.2 cs
  | Some e => i <= e <= n /\ exists cs', repr r.2 cs' /\ Forall (cap_ok e) cs'
  end.

Definition pre (ms : MatchState) (cs : list cap) (i q : Z) : Prop :=
  0 <= i <= n /\ in_pat q /\ repr ms cs /\ Forall (cap_ok i) cs.

Lemma pre_move ms ms' cs i j q q' : pre ms cs i q -> i <= j <= n -> in_pat q' -> repr ms' cs -> pre ms' cs j q'.
Proof using. intros (Hi & _ & _ & Hc) Hj Hq Hr. split_and!; try lia; try done; try (unfold in_pat in *; lia). by eapply cap_ok_mono; [|done]; lia. Qed.
Lemma post_le ms ms' cs i j r : depth ms' = depth ms -> i <= j -> post ms' cs j r -> post ms cs i r.
Proof using. intros E Hj [Hd H]. split; [congruence|]. destruct r.1; [|done]. destruct H as [H1 H2]. split; [lia|done]. Qed.

Section recursion.
Context (d : Z) (rec : MatchState -> Z -> Z -> pres (option Z * MatchState)).
Context (Hrec : forall ms cs i q, depth ms = d -> pre ms cs i q -> safe (post ms cs i) (rec ms i q)).

Lemma max_count_safe q ep : item_at q ep -> forall fuel i k, 0 <= i -> 0 <= k -> i + k <= n -> n - i - k < Z.of_nat fuel ->
  safe (fun k' => k <= k' /\ i + k' <= n) (max_count src pat fuel i q ep k).
Proof using bytes pbytes.
  intros Hit. induction fuel as [|fuel IH]; intros i k Hi Hk Hn Hf; [lia|]. cbn [max_count].
  eapply safe_bind; [apply matches_here_safe; [lia|done]|]. intros [] Hb; [|cbn; lia].
  specialize (Hb eq_refl). eapply safe_impl; [apply IH; lia|]. cbn. lia.
Qed.

Lemma max_try_safe cs i ep : in_pat (ep + 1) -> forall k ms, depth ms = d -> pre ms cs i ep -> i + Z.of_nat k <= n + 1 ->
  safe (post ms cs i) (max_try rec k ms i ep).
Proof using Hrec.
  intros Hep. induction k as [|k IH]; intros ms Hd Hp Hk; cbn [max_try]; [by split; [|apply Hp]|].
  eapply safe_bind; [apply Hrec; [done|apply (pre_move ms ms cs i _ ep); [done|lia|done|apply Hp]]|].
  intros [[e|] ms'] [Hd' H]; cbn [fst snd] in *.
  - eapply (post_le ms ms); [done| |split; [done|exact H]]. lia.
  - eapply safe_impl; [apply IH; [congruence| |lia]|].
    + apply (pre_move ms ms' cs i _ ep); [done|unfold pre in Hp; lia|apply Hp|done].
    + intros r. by apply post_le.
Qed.

Lemma max_expand_safe ms cs i q ep : depth ms = d -> pre ms cs i q -> item_at q ep -> in_pat (ep + 1) ->
  safe (post ms cs i) (max_expand src pat rec ms i q ep).
Proof using bytes pbytes Hrec.
  intros Hd Hp Hit Hep. pose proof Hp as (Hi & _). unfold max_expand. eapply safe_bind.
  - apply (max_count_safe q ep Hit); try lia. unfold src_rounds, c_text. rewrite length_app. unfold zlen in *. lia.
  - intros k Hk. cbn beta in Hk. apply max_try_safe; [done|done| |lia].
    apply (pre_move ms ms cs i _ q); [done|lia|apply Hit|apply Hp].
Qed.

Lemma min_loop_safe cs q ep : item_at q ep -> in_pat (ep + 1) -> forall fuel i ms,
  depth ms = d -> pre ms cs i q -> n - i < Z.of_nat fuel ->
  safe (post ms cs i) (min_loop src pat rec fuel ms i q ep).
Proof using bytes pbytes Hrec.
  intros Hit Hep. induction fuel as [|fuel IH]; intros i ms Hd Hp Hf; [unfold pre in Hp; lia|]. cbn [min_loop].
  pose proof Hp as (Hi & _). eapply safe_bind; [apply Hrec; [done|apply (pre_move ms ms cs i _ q); [done|lia|done|apply Hp]]|].
  intros [[e|] ms'] [Hd' H]; cbn [fst snd] in *; [by split|].
  eapply safe_bind; [apply matches_here_safe; [lia|done]|]. intros [] Hb; [|by split].
  specialize (Hb eq_refl). eapply safe_impl; [apply IH; [congruence| |lia]|].
  - apply (pre_move ms ms' cs i _ q); [done|lia|apply Hp|done].
  - intros r. apply post_le; [done|lia].
Qed.

Lemma start_capture_safe ms cs i q what : depth ms = d -> pre ms cs i q -> what = CAP_UNFINISHED \/ what = CAP_POSITION ->
  safe (post ms cs i) (start_capture rec ms i q what).
Proof using Hrec.
  intros Hd (Hi & Hq & Hr & Hc) Hw. unfold start_capture. destruct (Z.leb_spec LUA_MAXCAPTURES (level ms)); [done|].
  pose proof Hr as (Hl & _).
  destruct (push_cap ms cs (i, what) Hr ltac:(lia)) as (m1 & -> & Hr1 & Hd1). cbn [mbind pres_bind].
  eapply safe_bind; [apply (Hrec _ (cs ++ [(i, what)]) i q)|].
  - cbn [depth with_level]. congruence.
  - split_and!; [lia|lia|done|done|]. apply Forall_app. split; [done|]. constructor; [|done].
    unfold cap_ok. cbn [fst snd]. split; [lia|tauto].
  - intros [[e|] m2] [Hd2 Hm]; cbn [fst snd depth with_level] in *; (split; [cbn; congruence|]); cbn [fst snd]; [done|by apply pop_cap in Hm].
Qed.

Lemma to_close_safe ms cs : repr ms cs -> forall k, (k <= length cs)%nat ->
  safe (fun l => exists a c b, cs = a ++ c :: b /\ l = zlen a /\ c.2 = CAP_UNFINISHED) (to_close k ms).
Proof using.
  intros Hr. induction k as [|k IH]; intros Hk; cbn [to_close]; [done|].
  destruct (lookup_lt_is_Some_2 cs k ltac:(lia)) as [c Hc].
  assert (Hz : zget cs (Z.of_nat k) = Some c).
  { unfold zget. rewrite (proj2 (Z.ltb_ge _ 0)) by lia. by rewrite Nat2Z.id. }
  rewrite (get_cap_ok ms cs _ c Hr Hz). cbn [mbind pres_bind].
  destruct (Z.eqb_spec c.2 CAP_UNFINISHED); [|apply IH; lia].
  exists (take k cs), c, (drop (S k) cs). split_and!; [by rewrite take_drop_middle| |done].
  unfold zlen. rewrite length_take. lia.
Qed.

Lemma end_capture_safe ms cs i q : depth ms = d -> pre ms cs i q -> safe (post ms cs i) (end_capture rec ms i q).
Proof using Hrec.
  intros Hd (Hi & Hq & Hr & Hc). unfold end_capture, capture_to_close. pose proof Hr as (Hl & _). rewrite Hl.
  unfold zlen at 1. rewrite Nat2Z.id. eapply safe_bind; [by apply (to_close_safe ms cs Hr)|].
  intros l (a & c & b & -> & -> & Hu).
  rewrite (get_cap_ok ms _ _ c Hr (zget_middle a b c)). cbn [mbind pres_bind].
  destruct (set_cap_ok ms a c b (c.1, i - c.1) Hr) as (m1 & -> & Hr1 & Hd1). cbn [mbind pres_bind].
  apply Forall_app in Hc as [Ha Hc]. apply Forall_cons_1 in Hc as [Hcc Hb].
  eapply safe_bind; [apply (Hrec m1 (a ++ (c.1, i - c.1) :: b) i q); [congruence|]|].
  - split_and!; [lia|lia|done|done|]. apply Forall_app. split; [done|]. constructor; [|done].
    unfold cap_ok in *. cbn [fst snd]. lia.
  - intros [[e|] m2] [Hd2 H]; cbn [fst snd] in *; [split; [cbn; congruence|done]|].
    rewrite (get_cap_ok m2 _ _ _ H (zget_middle a b _)). cbn [mbind pres_bind fst].
    destruct (set_cap_ok m2 a (c.1, i - c.1) b (c.1, CAP_UNFINISHED) H) as (m3 & -> & Hr3 & Hd3). cbn [mbind pres_bind].
    split; cbn [fst snd]; [congruence|]. rewrite <- Hu in Hr3. by destruct c.
Qed.

(** A round ends the call or goes on behind the item. *)
Definition round_post (ms : MatchState) (cs : list cap) (i q : Z) (r : next * MatchState) : Prop :=
  match r.1 with
  | Done res => post ms cs i (res, r.2)
  | Goto j q' => depth r.2 = depth ms /\ i <= j /\ q < q' /\ pre r.2 cs j q'
  end.

Lemma done_safe ms cs i q X : safe (post ms cs i) X -> safe (round_post ms cs i q) (r ← X; POk (Done r.1, r.2)).
Proof using. intros H. eapply safe_bind; [exact H|]. by intros [res m] Hp. Qed.
Lemma fail_safe ms cs i q : pre ms cs i q -> safe (round_post ms cs i q) (POk (Done None, ms)).
Proof using. intros (_ & _ & H & _). by split. Qed.

Lemma goto_safe ms ms' cs i q j q' : pre ms cs i q -> depth ms' = depth ms -> repr ms' cs -> i <= j <= n -> q < q' -> in_pat q' ->
  round_post ms cs i q (Goto j q', ms').
Proof using. intros Hp Hd Hr Hj Hq Hin. split_and!; try done; [lia|]. by apply (pre_move ms ms' cs i _ q). Qed.

Lemma item_safe ms cs i q c : depth ms = d -> pre ms cs i q -> rdp pat q = POk c -> c <> 0 ->
  safe (round_post ms cs i q) (match_item src pat rec ms i q).
Proof using bytes pbytes Hrec.
  intros Hd Hp Ec Hc. pose proof Hp as (Hi & Hq & Hr & _). unfold match_item.
  eapply safe_bind; [by apply (classend_safe q c)|]. intros ep [Hlt Hep].
  assert (Hit : item_at q ep) by (split_and!; eauto).
  eapply safe_bind; [by apply (matches_here_safe i q ep)|]. intros m Hm.
  apply rdp_safe; [done|]. intros e _ He _.
  assert (Hmv : forall q', m = true -> in_pat q' -> pre ms cs (i + 1) q').
  { intros q' Hm' Hq'. apply (pre_move ms ms cs i _ q); [done|specialize (Hm Hm'); lia|done|done]. }
  assert (Hle : forall r, post ms cs (i + 1) r -> post ms cs i r) by (intros r; apply post_le; [done|lia]).
  destruct (Z.eqb_spec e 63) as [->|].
  { apply (safe_bind (post ms cs i)).
    - destruct m; [|by split]. eapply safe_impl; [apply Hrec; [done|apply Hmv; auto]|done].
    - intros [[x|] m'] Hx; [done|]. destruct Hx as [Hd' Hr']. apply goto_safe; auto; lia. }
  destruct (Z.eqb_spec e 42) as [->|]; [apply done_safe, max_expand_safe; auto|].
  destruct (Z.eqb_spec e 43) as [->|].
  { destruct m; [|by apply fail_safe]. apply done_safe. eapply safe_impl; [apply max_expand_safe; auto|done]. }
  destruct (Z.eqb_spec e 45) as [->|].
  { apply done_safe, min_loop_safe; auto. unfold src_rounds, c_text. rewrite length_app. unfold zlen in *. lia. }
  destruct m; [|by apply fail_safe]. apply goto_safe; auto. specialize (Hm eq_refl). lia.
Qed.

Lemma frontier_safe ms cs i q : pre ms cs i q ->
  safe (round_post ms cs i q) (match_frontier src pat ms i q).
Proof using bytes pbytes.
  intros Hp. pose proof Hp as (Hi & Hq & Hr & _). unfold match_frontier.
  apply rdp_safe; [done|]. intros c _ Hn Ec. destruct (Z.eqb_spec c 91) as [->|]; [|done]. cbn [negb]. specialize (Hn ltac:(done)).
  eapply safe_bind; [by apply (classend_safe q 91)|]. intros ep [Hlt Hep].
  assert (Hbr : forall c, in_u8 c -> safe (fun _ => True) (matchbracketclass pat c q (ep - 1))).
  { intros c Hc. apply bracketclass_safe; unfold in_pat in *; (done || lia). }
  apply (safe_bind in_u8).
  { destruct (Z.eqb_spec i 0); [cbn; unfold in_u8; lia|]. rewrite rds_any by lia. by apply byte_any. }
  intros prev Hprev. eapply safe_bind; [by apply Hbr|]. intros [] _; [by apply fail_safe|].
  rewrite rds_any by lia. cbn [mbind pres_bind]. eapply safe_bind; [by apply Hbr, byte_any|].
  intros [] _; [|by apply fail_safe]. apply goto_safe; auto. lia.
Qed.

Lemma round_safe ms cs i q : depth ms = d -> pre ms cs i q ->
  safe (round_post ms cs i q) (match_round src pat rec ms i q).
Proof using bytes pbytes short Hrec.
  intros Hd Hp. pose proof Hp as (Hi & Hq & Hr & Hc). unfold match_round.
  apply rdp_safe; [done|]. intros c _ Hn Ec.
  assert (Hmv : forall q', in_pat q' -> pre ms cs i q') by (intros q' Hq'; apply (pre_move ms ms cs i _ q); auto; lia).
  assert (Hitem : c <> 0 -> safe (round_post ms cs i q) (match_item src pat rec ms i q)) by (intros; by apply (item_safe ms cs i q c)).
  destruct (Z.eqb_spec c 40) as [->|].
  { specialize (Hn ltac:(done)). apply rdp_safe; [done|]. intros c1 _ Hn1 _.
    destruct (Z.eqb_spec c1 41) as [->|]; apply done_safe, start_capture_safe; auto.
    replace (q + 2) with (q + 1 + 1) by lia. auto. }
  destruct (Z.eqb_spec c 41) as [->|]; [apply done_safe, end_capture_safe; auto|].
  destruct (Z.eqb_spec c L_ESC) as [->|].
  - specialize (Hn ltac:(done)). apply rdp_safe; [done|]. intros c1 Hc1 Hn1 _. replace (q + 1 + 1) with (q + 2) in Hn1 by lia.
    destruct (Z.eqb_spec c1 98) as [->|].
    { eapply safe_bind; [apply matchbalance_safe; auto|]. intros [j|] Hj; [|by apply fail_safe].
      destruct (Hj j eq_refl) as [Hj1 Hj2]. apply goto_safe; auto; [lia|by replace (q + 4) with (q + 2 + 2) by lia]. }
    destruct (Z.eqb_spec c1 102) as [->|].
    { eapply safe_impl; [apply frontier_safe, Hmv; auto|]. intros [[res|j q'] m]; cbn; [done|].
      intros (? & ? & ? & ?). split_and!; (done || lia). }
    rewrite (isa_byte_digit c1 Hc1). cbn [mbind pres_bind]. destruct (Char.between 48 c1 57) eqn:Eb; [|by apply Hitem].
    eapply safe_bind; [by apply (match_capture_safe ms cs)|]. intros [j|] Hj; [|by apply fail_safe].
    specialize (Hj j eq_refl). apply goto_safe; auto; [lia|]. apply Hn1. intros ->. done.
  - destruct (Z.eqb_spec c 0) as [->|]; [|destruct (Z.eqb_spec c 36) as [->|]; [|by apply Hitem]].
    + split; [done|]. cbn. split; [lia|eauto].
    + apply rdp_safe; [auto|]. intros c1 _ _ _. destruct (negb _); [by apply Hitem|]. rewrite src_end_ok.
      destruct (i =? zlen s); [|by apply fail_safe]. split; [done|]. cbn. split; [lia|eauto].
Qed.

Lemma init_safe cs : forall fuel ms i q, depth ms = d -> pre ms cs i q -> len - q < Z.of_nat fuel ->
  safe (post ms cs i) (match_init src pat rec fuel ms i q).
Proof using bytes pbytes short Hrec.
  induction fuel as [|fuel IH]; intros ms i q Hd Hp Hf; [destruct Hp as (_ & Hq & _); unfold in_pat in *; lia|].
  cbn [match_init]. eapply safe_bind; [by apply (round_safe ms cs)|]. intros [[res|j q'] m]; cbn [round_post fst snd]; [done|].
  intros (Hd' & Hj & Hq & Hp'). eapply safe_impl; [apply IH; [congruence|done|lia]|]. intros r. by apply post_le.
Qed.
End recursion.

Lemma match_safe cs : forall f ms i q, 0 <= depth ms <= LJ_MAX_XLEVEL -> LJ_MAX_XLEVEL < depth ms + Z.of_nat f -> pre ms cs i q ->
  safe (post ms cs i) (match_ src pat f ms i q).
Proof using bytes pbytes short.
  intros f. revert cs. induction f as [|f IH]; intros cs ms i q Hd Hf Hp; [lia|]. cbn [match_].
  destruct (Z.ltb_spec LJ_MAX_XLEVEL (depth (with_depth ms (depth ms + 1)))) as [|Hx]; [done|].
  cbn [depth with_depth] in Hx. eapply safe_bind; [apply (init_safe (depth ms + 1)) with (cs := cs)|].
  - intros m cs' j q' Hm Hp'. apply IH; [lia|lia|done].
  - done.
  - destruct Hp as (H1 & H2 & H3 & H4). by split_and!; try lia.
  - destruct Hp as (_ & Hq & _). unfold pat_rounds. unfold in_pat, zlen in *. lia.
  - intros [res m] [Hm H]. split; cbn in *; [lia|done].
Qed.

(** An attempt from scratch. *)
Lemma do_match_safe ms i q : 0 <= i <= n -> in_pat q -> zlen (capture ms) = LUA_MAXCAPTURES ->
  safe (fun r => zlen (capture r.2) = LUA_MAXCAPTURES /\
    forall e, r.1 = Some e -> i <= e <= n /\ exists cs, repr r.2 cs /\ Forall (cap_ok n) cs) (do_match src pat ms i q).
Proof using bytes pbytes short.
  intros Hi Hq Hl. unfold do_match. eapply safe_impl; [apply (match_safe [])|].
  - by vm_compute.
  - by vm_compute.
  - split_and!; [lia|lia|done|by apply repr_start|done].
  - intros [[e|] m] [_ H]; cbn [fst snd] in *.
    + destruct H as (He & cs & Hr & Hc). split; [apply Hr|]. intros e' [= <-]. split; [done|]. exists cs. split; [done|].
      eapply cap_ok_mono; [|done]. lia.
    + split; [apply H|done].
Qed.

(** ** The functions of the library *)

(** What the matcher has returned for a match from [i] to [e]. *)
Definition matched (ms : MatchState) (i e : Z) : Prop :=
  0 <= i <= e /\ e <= n /\ exists cs, repr ms cs /\ Forall (cap_ok n) cs.

(** A value that has a text. *)
Definition has_text (v : Lval) : Prop := match v with LStr _ | LInt _ => True | _ => False end.

Lemma push_onecapture_safe ms i e k : matched ms i e -> 0 <= k -> safe has_text (push_onecapture src ms k i e).
Proof using.
  intros (Hi & He & cs & Hr & Hc) Hk. unfold push_onecapture. pose proof Hr as (Hl & _). rewrite Hl.
  destruct (Z.leb_spec (zlen cs) k).
  - destruct (k =? 0); [|done]. by rewrite substr_piece by lia.
  - destruct (zget_is_Some cs k) as [c Ec]; [lia|]. rewrite (get_cap_ok ms cs k c Hr Ec). cbn [mbind pres_bind].
    assert (Hin : cs !! Z.to_nat k = Some c) by (unfold zget in Ec; by destruct (k <? 0)).
    pose proof (Forall_lookup_1 _ _ _ _ Hc Hin) as [Hc1 Hc2].
    destruct (Z.eqb_spec c.2 CAP_UNFINISHED); [done|]. destruct (Z.eqb_spec c.2 CAP_POSITION); [done|].
    rewrite substr_piece; [done|lia..].
Qed.

Lemma push_loop_safe ms i e : matched ms i e -> forall k j, 0 <= j -> safe (fun _ => True) (push_loop src k j ms i e).
Proof using.
  intros Hm. induction k as [|k IH]; intros j Hj; cbn [push_loop]; [done|].
  eapply safe_bind; [by apply push_onecapture_safe|]. intros v _. eapply safe_bind; [apply IH; lia|]. done.
Qed.

Lemma find_pattern_safe find anchor q : in_pat q -> forall fuel ms i,
  0 <= i <= n -> zlen (capture ms) = LUA_MAXCAPTURES -> n - i < Z.of_nat fuel ->
  safe (fun _ => True) (find_pattern src pat fuel find anchor ms i q).
Proof using bytes pbytes short.
  intros Hq. induction fuel as [|fuel IH]; intros ms i Hi Hl Hf; [lia|]. cbn [find_pattern].
  eapply safe_bind; [by apply do_match_safe|]. intros [[e|] ms'] [Hl' He]; cbn [fst snd] in *.
  - destruct (He e eq_refl) as [Hie Hcs]. destruct find.
    + eapply safe_bind; [|done]. apply push_loop_safe; [|done]. split_and!; (done || lia).
    + apply push_loop_safe; [|done]. split_and!; (done || lia).
  - rewrite src_end_ok. destruct (Z.ltb_spec i n); [|done]. destruct anchor; [done|]. apply IH; (done || lia).
Qed.

Lemma gmatch_loop_safe : forall fuel ms i, 0 <= i <= n + 1 -> zlen (capture ms) = LUA_MAXCAPTURES -> n + 1 - i < Z.of_nat fuel ->
  safe (fun r => forall vs pos, r = Some (vs, pos) -> i < pos <= n + 1) (gmatch_loop fuel s p ms i).
Proof using bytes pbytes short.
  induction fuel as [|fuel IH]; intros ms i Hi Hl Hf; [lia|]. cbn [gmatch_loop]. rewrite src_end_ok.
  destruct (Z.leb_spec i n); [|done]. eapply safe_bind; [apply do_match_safe; [lia| |done]|].
  - unfold in_pat, c_text. rewrite zlen_app. change (zlen [0]) with 1. pose proof (zlen_nonneg p). lia.
  - intros [[e|] ms'] [Hl' He]; cbn [fst snd] in *.
    + destruct (He e eq_refl) as [Hie Hcs]. eapply safe_bind; [apply push_loop_safe; [|done]; split_and!; (done || lia)|].
      intros vs _ vs' pos [= _ <-]. destruct (Z.eqb_spec e i); lia.
    + eapply safe_impl; [apply IH; [lia|done|lia]|]. intros r Hr vs pos ->. specialize (Hr vs pos eq_refl). lia.
Qed.

Lemma add_s_safe tostr ms i e : matched ms i e -> forall news b, Forall in_u8 news ->
  safe (fun _ => True) (add_s tostr news src ms b i e).
Proof using.
  intros Hm news. remember (length news) as k eqn:Ek. revert news Ek. induction (lt_wf k) as [k _ IH].
  intros news -> b Hb. destruct news as [|c news']; cbn [add_s]; [done|]. apply Forall_cons_1 in Hb as [_ Hb].
  destruct (negb _); [by apply (IH (length news')); [cbn; lia| |]|]. destruct news' as [|x rest]; [done|].
  apply Forall_cons_1 in Hb as [Hx Hb].
  assert (Hgo : forall b, safe (fun _ => True) (add_s tostr rest src ms b i e)).
  { intros b'. by apply (IH (length rest)); [cbn; lia| |]. }
  rewrite (isa_byte_digit x Hx). cbn [mbind pres_bind]. destruct (Char.between 48 x 57) eqn:Eb; cbn [negb]; [|apply Hgo].
  destruct (Z.eqb_spec x 48) as [->|].
  - destruct Hm as (Hi & He & _). rewrite substr_piece by lia. apply Hgo.
  - unfold Char.between in Eb. apply andb_true_iff in Eb as [Eb%Z.leb_le _].
    eapply safe_bind; [apply push_onecapture_safe; [done|lia]|]. intros [| | | |] Hv; try done; apply Hgo.
Qed.

Lemma add_value_safe tostr r ms i e b : repl_bytes r -> matched ms i e ->
  safe (fun _ => True) (add_value tostr r src ms b i e).
Proof using.
  intros Hr Hm. unfold add_value.
  assert (Hf : forall v, safe (fun _ => True) match v with
      | LNil | LBool false => l ← substr src (Z.to_nat (e - i)) i; POk (b ++ l)
      | LStr _ | LInt _ => addvalue tostr b v | _ => PErr STRGSRV end).
  { destruct Hm as (Hi & He & _). intros [|[]| | |]; try done; by rewrite substr_piece by lia. }
  destruct r; [by apply add_s_safe| |].
  - eapply safe_bind; [by apply push_loop_safe|]. intros vs _. apply Hf.
  - eapply safe_bind; [by apply push_onecapture_safe|]. intros v _. apply Hf.
Qed.

Lemma gsub_loop_safe tostr r max anchor q : repl_bytes r -> in_pat q -> forall fuel ms b k i,
  0 <= i <= n -> 0 <= k -> zlen (capture ms) = LUA_MAXCAPTURES -> n - i < Z.of_nat fuel ->
  safe (fun x => k <= x.2 <= Z.max k max) (gsub_loop tostr fuel src pat r max anchor ms b k i q).
Proof using bytes pbytes short.
  intros Hr Hq. induction fuel as [|fuel IH]; intros ms b k i Hi Hk Hl Hf; [lia|]. cbn [gsub_loop]. rewrite src_end_ok.
  assert (Hfin : forall b k' j, 0 <= j <= n -> k <= k' <= Z.max k max ->
    safe (fun x => k <= x.2 <= Z.max k max) (l ← substr src (Z.to_nat (n - j)) j; POk (b ++ l, k'))).
  { intros b' k' j Hj Hk'. rewrite rest_ok by done. cbn. lia. }
  destruct (Z.ltb_spec k max) as [Hmax|]; [|apply Hfin; lia].
  assert (Hgo : forall ms b k' j, i < j <= n -> k <= k' <= Z.max k max -> zlen (capture ms) = LUA_MAXCAPTURES ->
    safe (fun x => k <= x.2 <= Z.max k max) (if anchor then l ← substr src (Z.to_nat (n - j)) j; POk (b ++ l, k')
      else gsub_loop tostr fuel src pat r max anchor ms b k' j q)).
  { intros ms' b' k' j Hj Hk' Hl'. destruct anchor; [apply Hfin; lia|].
    eapply safe_impl; [apply IH; [lia|lia|done|lia]|]. intros x Hx. cbn beta in *. lia. }
  assert (Hch : forall ms b k', k <= k' <= Z.max k max -> zlen (capture ms) = LUA_MAXCAPTURES ->
    safe (fun x => k <= x.2 <= Z.max k max) (if i <? n then c ← rds src i;
        if anchor then l ← substr src (Z.to_nat (n - (i + 1))) (i + 1); POk ((b ++ [c]) ++ l, k')
        else gsub_loop tostr fuel src pat r max anchor ms (b ++ [c]) k' (i + 1) q
      else l ← substr src (Z.to_nat (n - i)) i; POk (b ++ l, k'))).
  { intros ms' b' k' Hk' Hl'. destruct (Z.ltb_spec i n); [|apply Hfin; lia]. rewrite rds_any by lia. apply Hgo; (done || lia). }
  eapply safe_bind; [by apply do_match_safe|]. intros [[e|] ms'] [Hl' He]; cbn [fst snd mbind pres_bind] in *.
  - destruct (He e eq_refl) as [Hie Hcs]. eapply safe_bind.
    + eapply safe_bind; [apply (add_value_safe tostr r ms' i e b Hr); split_and!; (done || lia)|].
      intros b' _. by instantiate (1 := fun bk => bk.2 = k + 1).
    + intros [b' k'] Hk'. cbn [snd] in Hk'. subst k'. destruct (Z.ltb_spec i e); [apply Hgo; (done || lia)|apply Hch; (done || lia)].
  - apply Hch; (done || lia).
Qed.
End matcher.

Lemma in_pat_start p c : Forall in_u8 p -> rdp (c_text p) 0 = POk c ->
  in_pat p (if c =? 94 then 1 else 0).
Proof.
  intros Hp Ec. assert (H0 : in_pat p 0).
  { unfold in_pat, c_text. rewrite zlen_app. change (zlen [0]) with 1. pose proof (zlen_nonneg p). lia. }
  destruct (rdp_in p Hp 0 H0) as (c' & E & _ & Hn). rewrite E in Ec. injection Ec as ->.
  destruct (Z.eqb_spec c 94) as [->|]; [by apply Hn|done].
Qed.

Lemma str_find_safe s p start plain find : Forall in_u8 s -> Forall in_u8 p -> zlen s < 2 ^ 31 -> - 2 ^ 31 <= start < 2 ^ 31 ->
  safe (fun _ => True) (str_find_aux s p start plain find).
Proof.
  intros Hs Hp Hl Hst. pose proof (start_pos_ok s start Hl Hst) as Ep. unfold str_find_aux. cbv zeta in Ep |- *. rewrite !Ep. clear Ep.
  set (st := start_pos (zlen s) start). pose proof (zlen_nonneg s).
  destruct (Z.ltb_spec (zlen s) st) as [_|Hle]; [done|].
  assert (Hb : 0 <= st <= zlen s) by (unfold st, start_pos in *; lia).
  assert (Hf : exists b, (if find then if plain then POk true else h ← pchk (Str.lj_str_haspattern p); POk (negb h) else POk false) = POk b).
  { destruct find, plain; eauto. rewrite (Str.lj_str_haspattern_spec p Hp). by eexists. }
  destruct Hf as [[] ->]; cbn [mbind pres_bind].
  - destruct (fixed_ok s p st Hb) as (r & -> & _). cbn. by destruct r.
  - destruct (rdp (c_text p) 0) as [c| | |] eqn:Ec; [|by destruct p..].
    pose proof (in_pat_start p c Hp Ec) as Hq. cbn [mbind pres_bind].
    destruct (c =? 94); apply find_pattern_safe; try done;
      (unfold src_rounds, c_text; rewrite length_app; unfold zlen in *; cbn; lia).
Qed.

Lemma gsub_safe tostr s p r max : Forall in_u8 s -> Forall in_u8 p -> zlen s < 2 ^ 31 -> repl_bytes r ->
  safe (fun x => 0 <= x.2 <= Z.max 0 (default (zlen s + 1) max)) (string_gsub tostr s p r max).
Proof.
  intros Hs Hp Hl Hr. unfold string_gsub. destruct (rdp (c_text p) 0) as [c| | |] eqn:Ec; [|by destruct p..].
  pose proof (in_pat_start p c Hp Ec) as Hq. cbn [mbind pres_bind]. pose proof (zlen_nonneg s).
  destruct (c =? 94); (apply gsub_loop_safe; try done;
    unfold src_rounds, c_text; rewrite ?length_app; unfold zlen in *; cbn; lia).
Qed.

(** C7: no pattern, well-formed or not, no subject and no replacement makes
    the matcher leave them: [string.find], [string.match], the iterator of
    [string.gmatch] and [string.gsub] end with a result or an error of the
    pattern or the replacement, never with a read outside the subject, the
    pattern or the written captures, never out of rounds, and never deeper than the
    200 levels of recursion; the iterator moves forward, and the number of
    replacements keeps to its limit. *)
Theorem string_functions_safe (tostr : Z -> list Z) (s p : list Z) (start pos : Z) (plain find : bool) (r : Repl) (max : option Z)
  (Hs : Forall in_u8 s) (Hp : Forall in_u8 p) (Hl : zlen s < 2 ^ 31)
  (Hstart : - 2 ^ 31 <= start < 2 ^ 31) (Hpos : 0 <= pos <= zlen s + 1) (Hr : repl_bytes r) :
  safe (fun _ => True) (str_find_aux s p start plain find) /\
  safe (fun x => forall vs pos', x = Some (vs, pos') -> pos < pos' <= zlen s + 1) (string_gmatch_aux s p pos) /\
  safe (fun x => 0 <= x.2 <= Z.max 0 (default (zlen s + 1) max)) (string_gsub tostr s p r max).
Proof.
  split; [by apply str_find_safe|]. split; [|by apply gsub_safe].
  apply gmatch_loop_safe; try done. unfold src_rounds, c_text. rewrite length_app. unfold zlen in *. cbn; lia.
Qed.

(** The pattern "[a-%" ends inside a class, the pattern "(()" leaves a capture
    open. *)
Lemma string_functions_safe_witness :
  string_match [97] [91; 97; 45; 37] 1 = PErr STRPATM /\
  safe (fun _ => True) (string_match [97] [91; 97; 45; 37] 1) /\
  string_gsub (fun _ => []) [97] [40; 40; 41] (RStr [37; 49]) None = PErr STRCAPU /\
  safe (fun x => 0 <= x.2 <= 2) (string_gsub (fun _ => []) [97] [40; 40; 41] (RStr [37; 49]) None).
Proof.
  assert (Hs : Forall in_u8 [97]) by (repeat constructor; unfold in_u8; lia).
  split; [by vm_compute|]. split.
  - apply (string_functions_safe (fun _ => []) [97] [91; 97; 45; 37] 1 0 false false (RStr []) None); try done;
      repeat constructor; unfold in_u8; lia.
  - split; [by vm_compute|].
    apply (string_functions_safe (fun _ => []) [97] [40; 40; 41] 1 0 false false (RStr [37; 49]) None); try done;
      repeat constructor; unfold in_u8; lia.
Defined.
End MatchSafe.
