(* ===== verification/LibStringBytes.v ===== *)
(** * LibStringBytes

    [string.byte] and [string.char] ([lib_string.c]), the functions between a
    string and the numbers of its bytes. *)
From stdpp Require Import base tactics numbers list.
From Stdlib Require Import ZArith Lia.
From S2P Require Import Prelude LjStr LibString LibStringSpec LibStringMatch LibStringFind.
Open Scope Z_scope.

Module StrBytes.
Import Match MatchSpec MatchFind.

Definition LUAI_MAXCSTACK : Z := 8000.

(** [for (i = 0; i < n; i++)] over the string from [a] on is [substr]. *)
Definition string_byte (s : list Z) (start : Z) (stop : option Z) : pres (list Z) :=
  let len := i32 (zlen s) in
  let stop := default start stop in
  let stop := if stop <? 0 then i32 (stop + i32 (len + 1)) else stop in
  let start := if start <? 0 then i32 (start + i32 (len + 1)) else start in
  let start := if start <=? 0 then 1 else start in
  let stop := if len <? stop then len else stop in
  if stop <? start then POk []
  else
    let start := start - 1 in
    let n := i32 (stop - start) in
    if LUAI_MAXCSTACK <? u32 n then PErr STRSLC
    else substr (c_text s) (Z.to_nat n) start.

Definition checku8 (x : Z) : bool := x =? u8 x.

Fixpoint string_char (ks : list Z) : pres (list Z) :=
  match ks with
  | [] => POk []
  | k :: ks' => if negb (checku8 k) then PErr BADVAL else l ← string_char ks'; POk (k :: l)
  end.

(** Positions count from one, negative ones from the end. *)
Definition position (len k : Z) : Z := if k <? 0 then k + len + 1 else k.

(** The bytes from the one position to the other, as far as they lie in the
    string; an error for more than 8000. *)
Lemma string_byte_piece s start stop :
  zlen s < 2 ^ 31 - 1 -> - 2 ^ 31 <= start < 2 ^ 31 -> - 2 ^ 31 <= default start stop < 2 ^ 31 ->
  let a := Z.max 1 (position (zlen s) start) in
  let b := Z.min (zlen s) (position (zlen s) (default start stop)) in
  string_byte s start stop =
    if LUAI_MAXCSTACK <? b - a + 1 then PErr STRSLC else POk (piece s (a - 1) (b - a + 1)).
Proof.
  intros Hl Hs He. cbv zeta. set (e := default start stop) in *. unfold string_byte. fold e. pose proof (zlen_nonneg s).
  rewrite (i32_small (zlen s)), (i32_small (zlen s + 1)) by (unfold in_i32; lia).
  assert (Hpos : forall k, - 2 ^ 31 <= k < 2 ^ 31 -> (if k <? 0 then i32 (k + (zlen s + 1)) else k) = position (zlen s) k).
  { intros k Hk. unfold position. destruct (Z.ltb_spec k 0); [|done]. rewrite i32_small by (unfold in_i32; lia). lia. }
  rewrite !Hpos by done.
  assert (Ha : (if position (zlen s) start <=? 0 then 1 else position (zlen s) start) = Z.max 1 (position (zlen s) start))
    by (destruct (Z.leb_spec (position (zlen s) start) 0); lia).
  assert (Hb : (if zlen s <? position (zlen s) e then zlen s else position (zlen s) e) = Z.min (zlen s) (position (zlen s) e))
    by (destruct (Z.ltb_spec (zlen s) (position (zlen s) e)); lia).
  rewrite Ha, Hb. set (a := Z.max 1 _) in *. set (b := Z.min _ _) in *.
  destruct (Z.ltb_spec b a) as [Hlt|Hge].
  - cbv iota. rewrite (proj2 (Z.ltb_ge LUAI_MAXCSTACK _)) by (unfold LUAI_MAXCSTACK; lia). by rewrite piece_nil by lia.
  - rewrite i32_small by (unfold in_i32; lia). rewrite u32_small by (unfold in_u32; lia).
    replace (b - (a - 1)) with (b - a + 1) by lia. destruct (LUAI_MAXCSTACK <? b - a + 1); [done|]. apply substr_piece; lia.
Qed.

(** [string.char] takes the bytes of a string back to it. *)
Lemma string_char_byte s : Forall in_u8 s -> zlen s <= LUAI_MAXCSTACK ->
  (l ← string_byte s 1 (Some (-1)); string_char l) = POk s.
Proof.
  intros Hs Hl. unfold LUAI_MAXCSTACK in Hl. pose proof (zlen_nonneg s).
  rewrite string_byte_piece by (cbn; lia). unfold position. cbn [default id Z.ltb Z.compare].
  replace (Z.min (zlen s) (-1 + zlen s + 1) - Z.max 1 1 + 1) with (zlen s) by lia.
  rewrite (proj2 (Z.ltb_ge LUAI_MAXCSTACK _)) by (unfold LUAI_MAXCSTACK; lia). cbn [mbind pres_bind].
  assert (Ep : piece s (Z.max 1 1 - 1) (zlen s) = s).
  { unfold piece, zlen. rewrite Nat2Z.id. change (Z.max 1 1 - 1) with 0. by rewrite drop_0, firstn_all. }
  rewrite Ep. clear -Hs. induction Hs as [|c s Hc _ IH]; [done|]. cbn [string_char]. unfold checku8.
  rewrite u8_small by done. rewrite Z.eqb_refl. cbn [negb]. by rewrite IH.
Qed.
End StrBytes.
