(* ===== verification/LjTabHash.v ===== *)
(** * LjTabHash

    The hash part of a Lua table.  Its nodes form chains; a key that is
    present lies on the chain of its main position, in front of every other
    node with that key.  Entries whose value is nil keep their key, and the
    hash of such a key may change when the collector reuses the memory of its
    string: the invariant says nothing about them, and the rechaining in
    [lj_tab_newkey] restores it for the others. *)
From stdpp Require Import base tactics numbers list relations.
From Stdlib Require Import ZArith Lia FunctionalExtensionality.
From S2P Require Import Prelude LjTab.
Import Tab.
Open Scope Z_scope.

Module TabHash.

(** ** Chains as a successor function *)

Definition edge (nx : Z -> option Z) (a b : Z) : Prop := nx a = Some b.
Definition inj (nx : Z -> option Z) : Prop := forall a b c, nx a = Some c -> nx b = Some c -> a = b.
Definition acyc (nx : Z -> option Z) : Prop := forall a, ~ tc (edge nx) a a.
Definition alone (nx : Z -> option Z) (y : Z) : Prop := nx y = None /\ forall a, nx a <> Some y.

Definition fupd (nx : Z -> option Z) (a : Z) (v : option Z) : Z -> option Z :=
  fun x => if decide (x = a) then v else nx x.

Lemma fupd_eq nx a v : fupd nx a v a = v.
Proof. unfold fupd. by rewrite decide_True. Qed.
Lemma fupd_ne nx a v x : x <> a -> fupd nx a v x = nx x.
Proof. intros. unfold fupd. by rewrite decide_False. Qed.

(** Take the successor [y] of [c] out of its chain; put [y] behind [m]. *)
Definition unlink (nx : Z -> option Z) (c y : Z) : Z -> option Z := fupd (fupd nx c (nx y)) y None.
Definition splice (nx : Z -> option Z) (m y : Z) : Z -> option Z := fupd (fupd nx y (nx m)) m (Some y).

Section unlink.
Context (nx : Z -> option Z) (c y : Z) (Hc : nx c = Some y) (Hi : inj nx) (Ha : acyc nx).
Abbreviation nx' := (unlink nx c y).

Lemma unlink_cy : c <> y.
Proof. intros ->. apply (Ha y). by apply tc_once. Qed.

Lemma unlink_c : nx' c = nx y.
Proof. unfold unlink. rewrite fupd_ne by apply unlink_cy. apply fupd_eq. Qed.
Lemma unlink_y : nx' y = None.
Proof. apply fupd_eq. Qed.
Lemma unlink_other x : x <> c -> x <> y -> nx' x = nx x.
Proof. intros. unfold unlink. by rewrite !fupd_ne. Qed.

Lemma unlink_edge a b : edge nx' a b -> tc (edge nx) a b /\ b <> y /\ a <> y.
Proof.
  unfold edge. intros H. destruct (Z.eq_dec a y) as [->|Hy]; [by rewrite unlink_y in H|].
  destruct (Z.eq_dec a c) as [->|Hne].
  - rewrite unlink_c in H. split; [|split; [|done]].
    + eapply tc_l; [exact Hc|]. by apply tc_once.
    + intros ->. apply (Ha y). by apply tc_once.
  - rewrite unlink_other in H by done. split; [by apply tc_once|]. split; [|done].
    intros ->. apply Hne. by eapply Hi.
Qed.

Lemma unlink_rtc_back a b : rtc (edge nx') a b -> rtc (edge nx) a b.
Proof.
  induction 1 as [|a b d H1 _ IH]; [done|]. apply unlink_edge in H1 as [H1 _].
  etrans; [by apply tc_rtc|done].
Qed.

Lemma unlink_tc_back a b : tc (edge nx') a b -> tc (edge nx) a b.
Proof.
  induction 1 as [a b H|a b d H _ IH]; apply unlink_edge in H as [H _]; [done|by etrans].
Qed.

Lemma unlink_acyc : acyc nx'.
Proof. intros a H%unlink_tc_back. by eapply Ha. Qed.

Lemma unlink_inj : inj nx'.
Proof.
  intros a b z H1 H2.
  assert (a <> y) by (intros ->; by rewrite unlink_y in H1).
  assert (b <> y) by (intros ->; by rewrite unlink_y in H2).
  destruct (Z.eq_dec a c) as [->|Hac], (Z.eq_dec b c) as [->|Hbc]; try done.
  - rewrite unlink_c in H1. rewrite unlink_other in H2 by done. exfalso.
    assert (b = y) by (by eapply Hi). done.
  - rewrite unlink_c in H2. rewrite unlink_other in H1 by done. exfalso.
    assert (a = y) by (by eapply Hi). done.
  - rewrite unlink_other in H1, H2 by done. by eapply Hi.
Qed.

Lemma unlink_alone : alone nx' y.
Proof. split; [apply unlink_y|]. intros a H. by apply unlink_edge in H as (_ & ? & _). Qed.

Lemma unlink_rtc a b : rtc (edge nx) a b -> b <> y -> a <> y -> rtc (edge nx') a b.
Proof.
  intros H Hb Hay.
  assert (forall a, rtc (edge nx) a b -> (a <> y -> rtc (edge nx') a b) /\
    (a = y -> exists z, nx y = Some z /\ rtc (edge nx') z b)) as HP; [|by apply HP].
  clear a H Hay. intros a H. induction H as [|a d b Had _ IH].
  - split; [done|]. by intros ->.
  - destruct (IH Hb) as [IH1 IH2]. split.
    + intros Hay. destruct (Z.eq_dec d y) as [->|Hdy].
      * destruct (IH2 eq_refl) as (z & Hz & Hzb). assert (a = c) as -> by (by eapply Hi).
        eapply rtc_l; [|done]. unfold edge. by rewrite unlink_c.
      * eapply rtc_l; [|by apply IH1]. unfold edge.
        destruct (Z.eq_dec a c) as [->|Hac]; [|by rewrite unlink_other].
        exfalso. unfold edge in Had. congruence.
    + intros ->. exists d. split; [done|]. apply IH1. intros ->. apply (Ha y). by apply tc_once.
Qed.
End unlink.

Section splice.
Context (nx : Z -> option Z) (m y : Z) (Hy : alone nx y) (Hmy : m <> y) (Hi : inj nx) (Ha : acyc nx).
Abbreviation nx' := (splice nx m y).

Lemma splice_m : nx' m = Some y.
Proof. apply fupd_eq. Qed.
Lemma splice_y : nx' y = nx m.
Proof. unfold splice. rewrite fupd_ne by congruence. apply fupd_eq. Qed.
Lemma splice_other x : x <> m -> x <> y -> nx' x = nx x.
Proof. intros. unfold splice. by rewrite !fupd_ne. Qed.

Lemma splice_edge a b : edge nx' a b ->
  a = m /\ b = y \/ a = y /\ nx m = Some b /\ b <> y \/ a <> m /\ a <> y /\ nx a = Some b /\ b <> y.
Proof.
  unfold edge. intros H. destruct (Z.eq_dec a m) as [->|Ham].
  - rewrite splice_m in H. left. split; congruence.
  - right. destruct (Z.eq_dec a y) as [->|Hay].
    + rewrite splice_y in H. left. split; [done|]. split; [done|]. intros ->. by eapply Hy.
    + rewrite splice_other in H by done. right. repeat split; try done. intros ->. by eapply Hy.
Qed.

Lemma splice_inj : inj nx'.
Proof.
  intros a b z H1 H2. apply splice_edge in H1, H2.
  destruct H1 as [[-> ->]|[(-> & H1 & H1')|(Hm1 & Hy1 & H1 & H1')]],
    H2 as [[-> E]|[(-> & H2 & H2')|(Hm2 & Hy2 & H2 & H2')]]; try congruence.
  - by destruct Hm2; eapply Hi.
  - by destruct Hm1; eapply Hi.
  - by eapply Hi.
Qed.

Definition sf (x : Z) : Z := if decide (x = y) then m else x.

Lemma splice_step a b : edge nx' a b -> a = m /\ b = y \/ edge nx (sf a) (sf b).
Proof.
  intros H. unfold sf, edge. apply splice_edge in H as [[-> ->]|[(-> & H & Hb)|(Hm1 & Hy1 & H & Hb)]]; [by left|right|right].
  - by rewrite decide_True, decide_False.
  - by rewrite !decide_False.
Qed.

Lemma splice_tc a b : tc (edge nx') a b -> a = m /\ b = y \/ tc (edge nx) (sf a) (sf b).
Proof.
  assert (sf m = m) as Hm by (unfold sf; by rewrite decide_False).
  assert (sf y = m) as Hys by (unfold sf; by rewrite decide_True).
  induction 1 as [a b H|a b d H _ IH].
  - destruct (splice_step a b H) as [|H']; [by left|right; by apply tc_once].
  - right. destruct (splice_step a b H) as [[-> ->]|H'], IH as [[E1 E2]|IH].
    + congruence.
    + rewrite Hm. by rewrite Hys in IH.
    + subst b d. rewrite Hm in H'. rewrite Hys. by apply tc_once.
    + by eapply tc_l.
Qed.

Lemma splice_acyc : acyc nx'.
Proof. intros a [[-> ?]|H]%splice_tc; [done|]. by eapply Ha. Qed.

Lemma splice_rtc_back a b : rtc (edge nx') a b -> a <> y -> b <> y -> rtc (edge nx) a b.
Proof.
  intros H Hay Hby. apply rtc_tc in H as [->|H]; [done|].
  apply splice_tc in H as [[_ ?]|H]; [done|]. unfold sf in H. rewrite !decide_False in H by done. by apply tc_rtc.
Qed.

Lemma splice_rtc a b : rtc (edge nx) a b -> rtc (edge nx') a b.
Proof.
  induction 1 as [|a d b Had _ IH]; [done|]. unfold edge in Had.
  assert (a <> y) by (intros ->; rewrite (proj1 Hy) in Had; done).
  destruct (Z.eq_dec a m) as [->|Ham].
  - eapply rtc_l; [apply splice_m|]. eapply rtc_l; [|done]. unfold edge. by rewrite splice_y.
  - eapply rtc_l; [|done]. unfold edge. by rewrite splice_other.
Qed.
End splice.

(** Two nodes behind the same one are on one line. *)
Lemma rtc_linear nx a b c : rtc (edge nx) a b -> rtc (edge nx) a c ->
  rtc (edge nx) b c \/ rtc (edge nx) c b.
Proof.
  induction 1 as [|a d b Had Hdb IH]; [by left|]. intros H. apply rtc_inv in H as [->|(d' & Hd' & H)].
  - right. by eapply rtc_l.
  - unfold edge in *. assert (d' = d) as -> by congruence. by apply IH.
Qed.

Lemma rtc_antisym nx a b : acyc nx -> rtc (edge nx) a b -> rtc (edge nx) b a -> a = b.
Proof.
  intros Hac H1 H2. apply rtc_tc in H1 as [->|H1]; [done|]. exfalso. apply (Hac a).
  eapply tc_rtc_r; done.
Qed.

Lemma alone_rtc nx a b : alone nx b -> rtc (edge nx) a b -> a = b.
Proof. intros [_ Hb] H. apply rtc_inv_r in H as [->|(c & _ & Hc)]; [done|]. by destruct (Hb c). Qed.

Lemma alone_rtc_l nx a b : alone nx a -> rtc (edge nx) a b -> a = b.
Proof.
  intros [Hn _] H. apply rtc_inv in H as [->|(c & Hc & _)]; [done|]. unfold edge in Hc. congruence.
Qed.

(** ** The chain behind a node *)

Fixpoint tail (nx : Z -> option Z) (c : Z) (T : list Z) : Prop :=
  match T with
  | [] => nx c = None
  | y :: T => nx c = Some y /\ tail nx y T
  end.

Lemma tail_elem nx c T z : tail nx c T -> (z ∈ T <-> tc (edge nx) c z).
Proof.
  revert c. induction T as [|y T IH]; intros c; simpl.
  - intros Hc. split; [by intros ?%not_elem_of_nil|]. intros H. exfalso.
    destruct H as [? ? H|? ? ? H _]; unfold edge in H; congruence.
  - intros [Hc HT]. rewrite elem_of_cons, (IH _ HT). split.
    + intros [->|H]; [by apply tc_once|by eapply tc_l].
    + intros H. destruct H as [? z H|? d z H H']; unfold edge in H; simplify_eq; [by left|by right].
Qed.

Lemma tail_ext nx nx' c T :
  tail nx c T -> nx' c = nx c -> (forall z, z ∈ T -> nx' z = nx z) -> tail nx' c T.
Proof.
  revert c. induction T as [|y T IH]; intros c; simpl; [congruence|].
  intros [Hc HT] E1 E2. split; [congruence|]. apply IH; [done|apply E2; left|].
  intros z Hz. apply E2. by right.
Qed.

Definition bnd (nx : Z -> option Z) (N : Z) : Prop :=
  forall a b, nx a = Some b -> 0 <= a < N /\ 0 <= b < N.

Lemma nodup_range (P : list Z) N : NoDup P -> (forall p, p ∈ P -> 0 <= p < N) -> zlen P <= Z.max 0 N.
Proof.
  intros Hn Hr. assert (P ⊆+ seqZ 0 N) as Hs.
  { apply NoDup_submseteq; [done|]. intros p Hp. apply elem_of_seqZ. specialize (Hr p Hp). lia. }
  apply submseteq_length in Hs. rewrite length_seqZ in Hs. unfold zlen. lia.
Qed.

Lemma tail_exists nx c N : bnd nx N -> acyc nx -> 0 <= c < N ->
  exists T, tail nx c T /\ zlen T < N.
Proof.
  intros Hb Ha Hc.
  assert (forall k P c, 0 <= c < N -> NoDup P -> (forall p, p ∈ P -> 0 <= p < N /\ tc (edge nx) p c) ->
    zlen P + Z.of_nat k = N -> exists T, tail nx c T /\ (length T < k)%nat) as HH.
  { induction k as [|k IH]; intros P d Hd Hn HP Hl.
    - exfalso. assert (zlen (d :: P) <= Z.max 0 N); [|rewrite zlen_cons in *; lia].
      apply nodup_range.
      + constructor; [|done]. intros Hin. by apply (Ha d), HP.
      + intros p Hp. apply elem_of_cons in Hp as [->|Hp]; [done|by apply HP].
    - destruct (nx d) as [y|] eqn:E; [|exists []; simpl; split; [done|lia]].
      destruct (IH (d :: P) y) as (T & HT & HlT).
      + exact (proj2 (Hb _ _ E)).
      + constructor; [|done]. intros Hin. by apply (Ha d), HP.
      + intros p Hp. apply elem_of_cons in Hp as [->|Hp]; [split; [done|by apply tc_once]|].
        split; [by apply HP|]. eapply tc_r; [by apply HP|done].
      + rewrite zlen_cons. lia.
      + exists (y :: T). split; [by split|]. simpl. lia. }
  destruct (HH (Z.to_nat N) [] c) as (T & HT & Hl); [done|by constructor|by intros p ?%not_elem_of_nil|
    change (zlen (@nil Z)) with 0; lia|].
  exists T. split; [done|]. unfold zlen. lia.
Qed.

(** ** Main positions

    [lv] are the entries that are present, [key] the keys of the nodes, [h]
    the main position of a key.  A present entry is reached from its main
    position ([anchored]), and no node on the way has the same key ([first]). *)
Definition anchored (key : Z -> TValue) (h : TValue -> Z) (nx : Z -> option Z) (z : Z) : Prop :=
  rtc (edge nx) (h (key z)) z.
Definition first (key : Z -> TValue) (h : TValue -> Z) (nx : Z -> option Z) (z : Z) : Prop :=
  forall d, d <> z -> key d = key z -> rtc (edge nx) (h (key z)) d -> rtc (edge nx) d z -> False.

Section rechain.
Context (lv : Z -> Prop) (key : Z -> TValue) (h : TValue -> Z).
Abbreviation H z := (h (key z)).
Abbreviation ok nx z := (anchored key h nx z /\ first key h nx z).
Context (Hu : forall z d, lv z -> lv d -> key z = key d -> z = d).
Context (Hs : forall z, lv z -> key (H z) = key z -> H z = z).

(** The main position of an entry is not further down the list. *)
Fixpoint ord (T : list Z) : Prop :=
  match T with
  | [] => True
  | z :: T => (lv z -> H z ∉ T) /\ ord T
  end.

(** Every entry but those behind [c] is in order. *)
Record loop (nx : Z -> option Z) (c : Z) (T : list Z) : Prop := {
  lp_inj : inj nx;
  lp_acyc : acyc nx;
  lp_tail : tail nx c T;
  lp_ord : ord T;
  lp_ok : forall z, lv z -> z ∉ T -> ok nx z }.

Lemma loop_stay nx c y T : loop nx c (y :: T) -> (lv y -> H y = c \/ H y = y) -> loop nx y T.
Proof.
  intros [Hi Ha [Hc HT] [Ho1 Ho2] Hok] Hy. constructor; try done.
  intros z Hz Hn. destruct (Z.eq_dec z y) as [->|Hne]; [|apply Hok; [done|set_solver]].
  unfold anchored, first. destruct (Hy Hz) as [E|E]; rewrite E.
  - split; [by apply rtc_once|]. intros d Hd Hk H1 H2.
    assert (d = c) as ->.
    { apply rtc_inv in H1 as [->|(d' & E' & H1)]; [done|]. unfold edge in E'.
      simplify_eq. by destruct Hd; apply (rtc_antisym nx). }
    apply Hd. rewrite <- E in Hk |- *. by apply Hs.
  - split; [done|]. intros d Hd _ H1 H2. by destruct Hd; apply (rtc_antisym nx).
Qed.

Lemma loop_move nx c y T : loop nx c (y :: T) -> lv y -> H y <> c -> H y <> y ->
  loop (splice (unlink nx c y) (H y) y) c T.
Proof.
  intros [Hi Ha [Hc HT] [Ho1 Ho2] Hok] Hy Hhc Hhy.
  pose proof (unlink_alone nx c y Hc Hi Ha) as Hal.
  pose proof (unlink_inj nx c y Hc Hi Ha) as Hi1.
  pose proof (unlink_acyc nx c y Hc Hi Ha) as Ha1.
  assert (y ∉ T) as HyT. { intros E. apply (tail_elem _ _ _ _ HT) in E. by apply (Ha y). }
  assert (c ∉ T) as HcT.
  { intros E. apply (tail_elem _ _ _ _ HT) in E. apply (Ha c). by eapply tc_l. }
  specialize (Ho1 Hy).
  assert (forall z, lv z -> z ∉ T -> z <> y -> H z <> y /\ ok (unlink nx c y) z) as Hok1.
  { intros z Hz HzT Hzy. destruct (Hok z Hz) as [J1 J2]; [set_solver|].
    assert (H z <> y) as HHz.
    { intros E. unfold anchored in J1. rewrite E in J1. apply rtc_tc in J1 as [?|J1]; [done|].
      by apply (tail_elem _ _ _ _ HT) in J1. }
    split; [done|]. split; [by apply unlink_rtc|].
    intros d Hd Hk H1 H2. apply (J2 d Hd Hk); by eapply unlink_rtc_back. }
  constructor.
  - by apply splice_inj.
  - by apply splice_acyc.
  - assert (tail (unlink nx c y) c T) as HT1.
    { destruct T as [|x T]; simpl in *; rewrite unlink_c by done; [done|].
      destruct HT as [Hx HT]. split; [done|]. apply (tail_ext nx); [done| |].
      - apply unlink_other; set_solver.
      - intros z Hz. apply unlink_other; set_solver. }
    apply (tail_ext _ _ _ _ HT1).
    + apply splice_other; [congruence|]. intros ->. by apply (unlink_cy nx y y).
    + intros z Hz. apply splice_other; intros ->; done.
  - done.
  - intros z Hz HzT. destruct (Z.eq_dec z y) as [->|Hne].
    + assert (splice (unlink nx c y) (H y) y (H y) = Some y) as Em by apply splice_m.
      split; [by apply rtc_once|]. intros d Hd Hk H1 H2.
      apply rtc_inv in H1 as [E|(d' & E' & H1)].
      * apply Hhy. apply Hs; [done|]. by rewrite E.
      * unfold edge in E'. assert (d' = y) as -> by congruence. apply Hd.
        apply (rtc_antisym (splice (unlink nx c y) (H y) y)); [by apply splice_acyc|done|done].
    + destruct (Hok1 z Hz HzT Hne) as [HHz [J1 J2]]. split; [by apply splice_rtc|].
      intros d Hd Hk H1 H2. destruct (Z.eq_dec d y) as [->|Hdy].
      { apply Hd. by apply Hu. }
      apply (J2 d Hd Hk); by apply (splice_rtc_back _ (H y) y).
Qed.
End rechain.

Lemma ord_impl (lv lv' : Z -> Prop) key h T : (forall z, lv' z -> lv z) -> ord lv key h T -> ord lv' key h T.
Proof. intros Hi. induction T as [|z T IH]; simpl; [done|]. intros [H1 H2]. split; auto. Qed.

(** ** Moving an entry to a free node *)
Section move.
Context (lv : Z -> Prop) (key : Z -> TValue) (h : TValue -> Z) (nx : Z -> option Z).
Abbreviation H z := (h (key z)).
Context (Hi : inj nx) (Ha : acyc nx).
Context (Hok : forall z, lv z -> anchored key h nx z /\ first key h nx z).
Context (n fr col : Z) (Hn : lv n) (Hnh : H n <> n) (Hfr : alone nx fr) (Hlf : ~ lv fr) (Hcol : nx col = Some n).

Lemma live_unique z d : lv z -> lv d -> key z = key d -> z = d.
Proof.
  intros Hz Hd E. destruct (Hok z Hz) as [Z1 Z2], (Hok d Hd) as [D1 D2].
  destruct (Z.eq_dec z d) as [|Hne]; [done|exfalso]. unfold anchored, first in *. rewrite <- E in D1, D2.
  destruct (rtc_linear _ _ _ _ Z1 D1) as [R|R]; [by apply (D2 z)|by apply (Z2 d)].
Qed.

Definition key1 (z : Z) : TValue := if decide (z = fr) then key n else key z.
Definition lv1 (z : Z) : Prop := z = fr \/ lv z /\ z <> n.
Definition nx1 : Z -> option Z := unlink (splice nx col fr) fr n.

Lemma move_nfr : n <> fr.
Proof. congruence. Qed.
Lemma move_colfr : col <> fr.
Proof. intros ->. destruct Hfr. congruence. Qed.

Lemma key1_fr : key1 fr = key n.
Proof. unfold key1. by rewrite decide_True. Qed.
Lemma key1_ne z : z <> fr -> key1 z = key z.
Proof. intros. unfold key1. by rewrite decide_False. Qed.

Lemma move_home z : lv z -> H z <> fr.
Proof.
  intros Hz E. destruct (Hok z Hz) as [J1 _]. unfold anchored in J1. rewrite E in J1.
  apply Hlf. by rewrite (alone_rtc_l _ _ _ Hfr J1).
Qed.

Lemma splice_fr_n : splice nx col fr fr = Some n.
Proof. rewrite splice_y; [done|apply move_colfr]. Qed.

Let Hmi : inj (splice nx col fr).
Proof. apply splice_inj; [done|apply move_colfr|done]. Qed.
Let Hma : acyc (splice nx col fr).
Proof. apply splice_acyc; [done|apply move_colfr|done]. Qed.

Lemma move_inj : inj nx1.
Proof. apply unlink_inj; [apply splice_fr_n|done|done]. Qed.
Lemma move_acyc : acyc nx1.
Proof. apply unlink_acyc; [apply splice_fr_n|done|done]. Qed.
Lemma move_alone : alone nx1 n.
Proof. apply unlink_alone; [apply splice_fr_n|done|done]. Qed.

Lemma move_back a b : rtc (edge nx1) a b -> a <> fr -> b <> fr -> rtc (edge nx) a b.
Proof.
  intros R%unlink_rtc_back Hna Hnb; [|apply splice_fr_n|done|done].
  by apply (splice_rtc_back nx col fr); [..|apply move_colfr| | |].
Qed.

Lemma move_ok_fr : anchored key1 h nx1 fr /\ first key1 h nx1 fr.
Proof.
  destruct (Hok n Hn) as [J1 J2]. unfold anchored, first in *. rewrite key1_fr.
  pose proof (move_home n Hn) as HH. split.
  - apply unlink_rtc; [apply splice_fr_n|done|done| |apply not_eq_sym, move_nfr|done].
    apply (splice_rtc _ _ _ Hfr move_colfr) in J1.
    apply rtc_inv_r in J1 as [?|(x & J1 & E)]; [done|].
    by rewrite (Hmi _ _ _ E splice_fr_n) in J1.
  - intros d Hd Hk R1 R2. rewrite key1_ne in Hk by done.
    destruct (Z.eq_dec d n) as [->|Hdn].
    + apply alone_rtc_l in R2; [|apply move_alone]. by apply move_nfr.
    + apply (J2 d Hdn Hk); [by apply move_back|].
      apply (splice_rtc_back nx col fr); try done; [apply move_colfr| |apply move_nfr].
      etrans; [by eapply unlink_rtc_back; [apply splice_fr_n| | |]|].
      apply rtc_once, splice_fr_n.
Qed.

Lemma move_ok z : lv1 z -> h (key1 z) <> n -> anchored key1 h nx1 z /\ first key1 h nx1 z.
Proof.
  intros [->|[Hz Hzn]] HH; [apply move_ok_fr|].
  assert (z <> fr) as Hzf by (by intros ->). destruct (Hok z Hz) as [J1 J2].
  unfold anchored, first in *. rewrite key1_ne in * by done. split.
  - apply unlink_rtc; [apply splice_fr_n|done|done| |done|done].
    apply splice_rtc; [done|apply move_colfr|done].
  - intros d Hd Hk R1 R2. destruct (Z.eq_dec d fr) as [->|Hdf].
    + rewrite key1_fr in Hk. apply Hzn. by apply live_unique.
    + rewrite key1_ne in Hk by done. apply (J2 d Hd Hk); apply move_back; try done. by apply move_home.
Qed.

Lemma move_unique z d : lv1 z -> lv1 d -> key1 z = key1 d -> z = d.
Proof.
  intros [->|[Hz Hzn]] [->|[Hd Hdn]]; [done|..];
    rewrite ?key1_fr, ?key1_ne by (by intros ->); intros E.
  - destruct Hdn. by apply live_unique.
  - destruct Hzn. by apply live_unique.
  - by apply live_unique.
Qed.

Lemma move_self z : lv1 z -> key1 (h (key1 z)) = key1 z -> h (key1 z) = z.
Proof.
  intros [->|[Hz Hzn]].
  - rewrite key1_fr, key1_ne by (by apply move_home). intros E. exfalso.
    destruct (Hok n Hn) as [J1 J2]. by apply (J2 (H n)).
  - rewrite (key1_ne z) by (by intros ->). rewrite key1_ne by (by apply move_home). intros E.
    destruct (Z.eq_dec (H z) z) as [|Hne]; [done|]. destruct (Hok z Hz) as [J1 J2].
    exfalso. by apply (J2 (H z)).
Qed.

Lemma move_tail T : tail nx n T -> tail nx1 fr T /\ (fr ∉ T) /\ (n ∉ T) /\ ord lv1 key1 h T /\
  (forall z, lv1 z -> h (key1 z) = n -> z ∈ T).
Proof.
  intros HT.
  assert (fr ∉ T) as HfT.
  { intros E. apply (tail_elem _ _ _ _ HT), tc_rtc, alone_rtc in E; [by apply move_nfr|done]. }
  assert (n ∉ T) as HnT by (intros E; apply (tail_elem _ _ _ _ HT) in E; by apply (Ha n)).
  assert (col ∉ T) as HcT.
  { intros E. apply (tail_elem _ _ _ _ HT) in E. apply (Ha n). eapply tc_r; [done|done]. }
  split; [|split; [done|split; [done|split]]].
  - assert (tail (splice nx col fr) n T) as HT1.
    { apply (tail_ext nx); [done| |].
      - apply splice_other; [|apply move_nfr]. intros E. apply (Ha n). apply tc_once. by rewrite E at 1.
      - intros z Hz. apply splice_other; intros ->; done. }
    assert (nx1 fr = splice nx col fr n) as E1 by (apply unlink_c; [apply splice_fr_n|done]).
    assert (forall z, z ∈ T -> nx1 z = splice nx col fr z) as E2.
    { intros z Hz. apply unlink_other; intros ->; done. }
    destruct T as [|x T]; simpl in *; [congruence|]. destruct HT1 as [Hx HT1]. split; [congruence|].
    apply (tail_ext _ _ _ _ HT1); [apply E2; left|intros z Hz; apply E2; by right].
  - clear HnT HcT. revert HfT HT. generalize n at 1. induction T as [|y T IH]; intros c HfT; simpl; [done|].
    intros [Hc HT]. split; [|by eapply IH; [set_solver|]].
    intros Hy. assert (y <> fr) as Hyf by set_solver. rewrite key1_ne by done.
    destruct Hy as [?|[Hy _]]; [done|]. intros E. destruct (Hok y Hy) as [J1 _].
    apply (tail_elem _ _ _ _ HT) in E. apply (Ha y). eapply tc_rtc_r; done.
  - intros z [->|[Hz Hzn]] E; [by rewrite key1_fr in E|].
    rewrite key1_ne in E by (by intros ->). destruct (Hok z Hz) as [J1 _]. unfold anchored in J1.
    rewrite E in J1. apply rtc_tc in J1 as [?|J1]; [congruence|]. by apply (tail_elem _ _ _ _ HT).
Qed.
End move.

(** ** Lists of nodes *)

Definition nx_of (l : list Node) (z : Z) : option Z := zget l z ≫= n_next.
Definition key_of (l : list Node) (z : Z) : TValue := default VNil (n_key <$> zget l z).
Definition val_of (l : list Node) (z : Z) : TValue := default VNil (n_val <$> zget l z).
Definition live (l : list Node) (z : Z) : Prop := val_of l z <> VNil.

(** Only the links differ. *)
Definition relinked (l l' : list Node) : Prop :=
  zlen l' = zlen l /\ key_of l' = key_of l /\ val_of l' = val_of l.

Lemma relinked_refl l : relinked l l.
Proof. done. Qed.
Lemma relinked_trans l1 l2 l3 : relinked l1 l2 -> relinked l2 l3 -> relinked l1 l3.
Proof. intros (A1 & A2 & A3) (B1 & B2 & B3). split; [congruence|split; congruence]. Qed.

Lemma upd_node_spec l n f : 0 <= n < zlen l -> exists nd l',
  zget l n = Some nd /\ upd_node l n f = TOk l' /\ zlen l' = zlen l /\
  zget l' n = Some (f nd) /\ forall z, z <> n -> zget l' z = zget l z.
Proof.
  intros Hn. destruct (zget_is_Some l n Hn) as [nd Hnd].
  destruct (zset_is_Some l n (f nd) Hn) as [l' Hl']. exists nd, l'. unfold upd_node.
  rewrite Hnd; simpl. rewrite Hl'; simpl. repeat split.
  - by eapply zset_length.
  - by eapply zget_zset_eq.
  - intros z Hz. by eapply zget_zset_ne.
Qed.

Lemma of_ext l l' : (forall z, n_key <$> zget l' z = n_key <$> zget l z) ->
  (forall z, n_val <$> zget l' z = n_val <$> zget l z) -> key_of l' = key_of l /\ val_of l' = val_of l.
Proof.
  intros H1 H2. split; apply functional_extensionality; intros z; unfold key_of, val_of; by rewrite ?H1, ?H2.
Qed.

Lemma set_next_spec l n v : 0 <= n < zlen l -> exists l',
  set_next l n v = TOk l' /\ relinked l l' /\ nx_of l' = fupd (nx_of l) n v.
Proof.
  intros Hn. destruct (upd_node_spec l n (fun nd => MkNode (n_val nd) (n_key nd) v) Hn)
    as (nd & l' & Hnd & E & Hl & E1 & E2).
  exists l'. split; [done|]. split.
  - split; [done|]. apply of_ext; intros z; (destruct (Z.eq_dec z n) as [->|Hz]; [by rewrite E1, Hnd|by rewrite E2]).
  - apply functional_extensionality. intros z. unfold nx_of, fupd. case_decide; subst; [by rewrite E1|by rewrite E2].
Qed.

Lemma relink_spec l c y m : 0 <= c < zlen l -> 0 <= y < zlen l -> 0 <= m < zlen l -> m <> y -> exists l',
  relink l c y m = TOk l' /\ relinked l l' /\ nx_of l' = splice (unlink (nx_of l) c y) m y.
Proof.
  intros Hc Hy Hm Hmy. unfold relink. destruct (zget_is_Some l y Hy) as [x Hx]. rewrite Hx; simpl.
  destruct (set_next_spec l c (n_next x) Hc) as (l1 & -> & R1 & N1); simpl.
  assert (zlen l1 = zlen l) as L1 by apply R1.
  destruct (zget_is_Some l1 m) as [mm Hmm]; [lia|]. rewrite Hmm; simpl.
  destruct (set_next_spec l1 y (n_next mm)) as (l2 & -> & R2 & N2); [lia|]; simpl.
  assert (zlen l2 = zlen l1) as L2 by apply R2.
  destruct (set_next_spec l2 m (Some y)) as (l3 & -> & R3 & N3); [lia|].
  exists l3. split; [done|]. split; [by eapply relinked_trans; [|eapply relinked_trans]|].
  assert (n_next mm = nx_of l1 m) as Em by (unfold nx_of; by rewrite Hmm).
  assert (n_next x = nx_of l y) as Ex by (unfold nx_of; by rewrite Hx).
  rewrite N3, N2, Em, N1, Ex. unfold splice, unlink. apply functional_extensionality. intros z.
  unfold fupd. repeat case_decide; congruence.
Qed.

Lemma nx_of_some l c y : nx_of l c = Some y -> exists nd, zget l c = Some nd /\ n_next nd = Some y.
Proof. unfold nx_of. intros H. apply bind_Some in H as (nd & ? & ?). eauto. Qed.

Lemma get_of l z nd : zget l z = Some nd ->
  n_val nd = val_of l z /\ n_key nd = key_of l z /\ n_next nd = nx_of l z.
Proof. unfold val_of, key_of, nx_of. by intros ->. Qed.

(** The loops of the rechaining, on the list [T] behind [c]. *)
Section loops.
Context (strhash : Z -> Z) (t : GCtab).
Abbreviation h := (hashkey strhash t).
Context (key : Z -> TValue) (lv : Z -> Prop).
Context (Hu : forall z d, lv z -> lv d -> key z = key d -> z = d).
Context (Hs : forall z, lv z -> key (h (key z)) = key z -> h (key z) = z).
Context (N : Z) (HhN : forall k, 0 <= h k < N).

(** A node without key stays alone. *)
Definition nils (nx : Z -> option Z) : Prop := forall z, key z = VNil -> alone nx z.
Context (Hhn : forall z, lv z -> key z <> VNil /\ key (h (key z)) <> VNil).

Definition state (l : list Node) (nx : Z -> option Z) : Prop :=
  nx_of l = nx /\ key_of l = key /\ live l = lv /\ zlen l = N /\ bnd nx N /\ nils nx.

Lemma alone_relink nx c y m z : nx c = Some y -> alone nx z -> z <> m -> z <> y -> y <> m -> c <> y ->
  alone (splice (unlink nx c y) m y) z.
Proof.
  intros Hc [H1 H2] Hm Hy Hym Hcy. unfold splice, unlink, alone, fupd. split.
  - repeat case_decide; congruence.
  - intros a. specialize (H2 a) as H3. specialize (H2 y) as H4. pose proof (H2 m).
    repeat case_decide; congruence.
Qed.

Lemma bnd_relink nx c y m : nx c = Some y -> bnd nx N -> 0 <= m < N -> bnd (splice (unlink nx c y) m y) N.
Proof.
  intros Hc Hb Hm. pose proof (Hb _ _ Hc) as [Hc1 Hc2]. intros a b. unfold splice, unlink, fupd.
  repeat case_decide; intros E; subst; try (by apply Hb in E); try (split; [done|]);
    try done; simplify_eq; try done; try (by apply Hb in E as [_ ?]).
Qed.


Lemma relink_loop l nx c y T : state l nx -> loop lv key h nx c (y :: T) -> lv y ->
  h (key y) <> c -> h (key y) <> y -> exists l' nx',
  relink l c y (h (key y)) = TOk l' /\ state l' nx' /\ loop lv key h nx' c T /\ relinked l l'.
Proof.
  intros (<- & Ek & El & HN & Hb & Hnil) HL Hy Hc Hyy.
  pose proof (lp_tail _ _ _ _ _ _ HL) as [Hcy _]. destruct (Hb _ _ Hcy) as [Rc Ry].
  pose proof (unlink_cy _ _ _ Hcy (lp_acyc _ _ _ _ _ _ HL)) as Hne.
  destruct (relink_spec l c y (h (key y))) as (l' & -> & R & N'); try (rewrite HN; done); [done|].
  exists l', (nx_of l'). split; [done|]. rewrite N'. split; [|split; [by apply loop_move|done]].
  destruct R as (R1 & R2 & R3). split; [done|]. split; [congruence|].
  split; [rewrite <- El; unfold live; by rewrite R3|]. split; [congruence|].
  split; [by apply bnd_relink|]. intros z Hz. apply alone_relink; try done; [by apply Hnil|..].
  - intros ->. by eapply (proj2 (Hhn y Hy)).
  - intros ->. by apply (proj1 (Hhn y Hy)).
Qed.

Lemma live_tvisnil l z nd : live l = lv -> zget l z = Some nd -> lv z \/ ~ lv z.
Proof.
  intros <- E. destruct (decide (val_of l z = VNil)) as [E'|E']; [right; by intros H|by left].
Qed.

(** One look at the node behind [c]. *)
Lemma loop_get l nx c y : state l nx -> nx c = Some y -> exists nd x,
  zget l c = Some nd /\ n_next nd = Some y /\ zget l y = Some x /\ n_key x = key y /\
  (tvisnil (n_val x) = false <-> lv y).
Proof.
  intros (<- & <- & <- & HN & Hb & Hnil) Hc. destruct (Hb _ _ Hc) as [Rc Ry].
  destruct (zget_is_Some l c) as [nd Hnd]; [lia|]. destruct (zget_is_Some l y) as [x Hx]; [lia|].
  exists nd, x. apply get_of in Hx as Gx. apply get_of in Hnd as Gn. destruct Gx as (G1 & G2 & _), Gn as (_ & _ & G3).
  repeat split; try congruence.
  - intros E. unfold live. rewrite <- G1. by destruct (n_val x).
  - unfold live. rewrite <- G1. by destruct (n_val x).
Qed.

Lemma rechain_rest_spec T : forall fuel l nx c, 0 <= c < N ->
  state l nx -> loop lv key h nx c T -> (length T < fuel)%nat -> exists l' nx',
  rechain_rest strhash fuel t l c = TOk l' /\ state l' nx' /\ inj nx' /\ acyc nx' /\ relinked l l' /\
  forall z, lv z -> anchored key h nx' z /\ first key h nx' z.
Proof.
  induction T as [|y T IH]; intros fuel l nx c Hc HS HL Hf; (destruct fuel as [|fuel]; [simpl in Hf; lia|]); simpl.
  - destruct HS as (<- & HS). pose proof (lp_tail _ _ _ _ _ _ HL) as Hn; simpl in Hn.
    destruct (zget_is_Some l c) as [nd Hnd]; [destruct HS as (_ & _ & -> & _); lia|]. rewrite Hnd; simpl.
    apply get_of in Hnd as (_ & _ & ->). rewrite Hn. exists l, (nx_of l). split; [done|].
    split; [done|]. split; [apply HL|]. split; [apply HL|]. split; [done|].
    intros z Hz. apply HL; [done|]. by apply not_elem_of_nil.
  - pose proof (lp_tail _ _ _ _ _ _ HL) as [Hcy _]. simpl in Hf.
    destruct (loop_get l nx c y HS Hcy) as (nd & x & -> & Hnx & Ex & Hkx & Hlv); simpl.
    rewrite Hnx, Ex; simpl. rewrite Hkx.
    assert (0 <= y < N) as Hy by (destruct HS as (_ & _ & _ & _ & Hb & _); exact (proj2 (Hb _ _ Hcy))).
    destruct (tvisnil (n_val x)) eqn:En; simpl.
    { apply (IH fuel l nx y); [done|done| |lia]. eapply loop_stay; [exact Hu|exact Hs|done|].
      intros Hlv'. by apply Hlv in Hlv'. }
    assert (lv y) as Hly by (by apply Hlv).
    destruct (negb _ && negb _) eqn:Eb; simpl.
    + destruct (relink_loop l nx c y T) as (l1 & nx1 & -> & S1 & L1 & R1); try done; try lia; simpl.
      destruct (IH fuel l1 nx1 c) as (l2 & nx2 & -> & HS2 & ? & ? & R2 & ?); [done|done|done|lia|].
      exists l2, nx2. split_and!; try done. by eapply relinked_trans.
    + apply (IH fuel l nx y); [done|done| |lia]. eapply loop_stay; [exact Hu|exact Hs|done|]. lia.
Qed.

#[local] Arguments rechain_rest : simpl never.

(** Until an entry with main position [n] is met, those with another one are in order. *)
Lemma rechain_spec T : forall fuel l nx c n, 0 <= c < N -> 0 <= n < N -> n ∉ c :: T ->
  state l nx -> inj nx -> acyc nx -> tail nx c T -> ord lv key h T ->
  (forall z, lv z -> h (key z) <> n -> anchored key h nx z /\ first key h nx z) ->
  (forall z, lv z -> h (key z) = n -> z ∈ T) ->
  zlen T < N -> (length T < fuel)%nat -> exists l' nx',
  rechain strhash fuel t l c n = TOk l' /\ state l' nx' /\ inj nx' /\ acyc nx' /\ relinked l l' /\
  forall z, lv z -> anchored key h nx' z /\ first key h nx' z.
Proof.
  induction T as [|y T IH]; intros fuel l nx c n Hc Hn HnT HS Hi Ha HT Ho Hok Hin HTN Hf;
    (destruct fuel as [|fuel]; [simpl in Hf; lia|]); simpl.
  - destruct HS as (<- & HS). simpl in HT.
    destruct (zget_is_Some l c) as [nd Hnd]; [destruct HS as (_ & _ & -> & _); lia|]. rewrite Hnd; simpl.
    apply get_of in Hnd as (_ & _ & ->). rewrite HT. exists l, (nx_of l).
    split_and!; try done. intros z Hz. apply Hok; [done|]. intros E.
    by apply Hin, not_elem_of_nil in E.
  - pose proof HT as [Hcy HT']. simpl in Hf. rewrite zlen_cons in HTN.
    assert (h (key y) = n -> lv y -> loop lv key h nx c (y :: T)) as HL.
    { intros Hyn Hly. constructor; try done. intros z Hz HzT. apply Hok; [done|]. intros E. by apply HzT, Hin. }
    destruct (loop_get l nx c y HS Hcy) as (nd & x & -> & Hnx & Ex & Hkx & Hlv); simpl.
    rewrite Hnx, Ex; simpl. rewrite Hkx.
    assert (0 <= y < N) as Hy by (destruct HS as (_ & _ & _ & _ & Hb & _); exact (proj2 (Hb _ _ Hcy))).
    destruct (negb (tvisnil (n_val x)) && (h (key y) =? n)) eqn:Eb.
    + assert (lv y) as Hly by (apply Hlv; by destruct (tvisnil (n_val x))).
      assert (h (key y) = n) as Eyn by lia.
      destruct (relink_loop l nx c y T) as (l1 & nx1 & E1 & S1 & L1 & R1); try done;
        [by apply HL|rewrite Eyn; set_solver|rewrite Eyn; set_solver|].
      rewrite Eyn in E1. rewrite E1. cbn [mbind tres_bind].
      destruct (rechain_rest_spec T (S (length l1)) l1 nx1 c) as (l2 & nx2 & -> & HS2 & ? & ? & R2 & ?); try done.
      { destruct S1 as (_ & _ & _ & HlN & _). unfold zlen in *. lia. }
      exists l2, nx2. split_and!; try done. by eapply relinked_trans.
    + apply (IH fuel l nx y n); try done; try lia; [set_solver|by destruct Ho|].
      intros z Hz E. apply Hin in E as E'; [|done]. apply elem_of_cons in E' as [->|]; [|done].
      apply Hlv in Hz. rewrite Hz in Eb. simpl in Eb. lia.
Qed.
End loops.

(** ** The invariant *)

(** Keys as they are stored: no NaN, no minus zero. *)
Definition canonical (k : TValue) : Prop :=
  match k with VNum u => in_u64 u /\ num_isnan u = false /\ u <> 2 ^ 63 | _ => True end.
Definition canon (k : TValue) : TValue :=
  match k with VNum u => if u =? 2 ^ 63 then VNum 0 else k | _ => k end.

(** [m] is a node that is about to receive a key. *)
Record hash_pre (strhash : Z -> Z) (t : GCtab) (m : Z) : Prop := {
  hw_size : exists b, 0 <= b <= LJ_MAX_HBITS /\ zlen (node t) = 2 ^ b;
  hw_ft : 0 <= freetop t <= zlen (node t);
  hw_bnd : bnd (nx_of (node t)) (zlen (node t));
  hw_inj : inj (nx_of (node t));
  hw_acyc : acyc (nx_of (node t));
  hw_val : forall z, key_of (node t) z = VNil -> val_of (node t) z = VNil;
  hw_nil : forall z, z <> m -> key_of (node t) z = VNil -> alone (nx_of (node t)) z;
  hw_free : forall z, 1 < zlen (node t) -> z <> m -> freetop t <= z < zlen (node t) -> key_of (node t) z <> VNil;
  hw_single : zlen (node t) = 1 -> node t = [nilnode] /\ freetop t = 0;
  hw_ok : forall z, live (node t) z ->
    anchored (key_of (node t)) (hashkey strhash t) (nx_of (node t)) z /\
    first (key_of (node t)) (hashkey strhash t) (nx_of (node t)) z;
  hw_canon : forall z, canonical (key_of (node t) z) }.

Definition hash_wf (strhash : Z -> Z) (t : GCtab) : Prop := hash_pre strhash t (-1).

(** The pairs of the hash part. *)
Definition hash_has (l : list Node) (k v : TValue) : Prop :=
  v <> VNil /\ exists z, key_of l z = k /\ val_of l z = v.

(** A value for [k] may be stored at node [n]. *)
Definition slot_for (strhash : Z -> Z) (t : GCtab) (n : Z) (k : TValue) : Prop :=
  0 <= n < zlen (node t) /\ key_of (node t) n = k /\ k <> VNil /\
  anchored (key_of (node t)) (hashkey strhash t) (nx_of (node t)) n /\
  first (key_of (node t)) (hashkey strhash t) (nx_of (node t)) n /\
  forall z, live (node t) z -> key_of (node t) z = k -> z = n.

(** The nodes that have a key. *)
Definition keyed (l : list Node) : list Z := filter (fun z => key_of l z <> VNil) (seqZ 0 (zlen l)).

Lemma of_range l z : ~ (0 <= z < zlen l) -> key_of l z = VNil /\ val_of l z = VNil /\ nx_of l z = None.
Proof.
  intros H. unfold key_of, val_of, nx_of. destruct (zget l z) eqn:E; [|done].
  by apply zget_Some_range in E.
Qed.

Lemma key_range l z : key_of l z <> VNil -> 0 <= z < zlen l.
Proof.
  intros H. destruct (decide (0 <= z < zlen l)) as [|Hn]; [done|]. by destruct (of_range l z Hn).
Qed.

Lemma live_range l z : live l z -> 0 <= z < zlen l.
Proof.
  intros H. destruct (decide (0 <= z < zlen l)) as [|Hn]; [done|]. by destruct (of_range l z Hn) as (_ & ? & _).
Qed.

Lemma keyed_le l : zlen (keyed l) <= zlen l.
Proof.
  pose proof (length_filter (fun z => key_of l z <> VNil) (seqZ 0 (zlen l))) as H.
  rewrite length_seqZ in H. unfold keyed, zlen in *. lia.
Qed.

Lemma keyed_insert l l' n : zlen l' = zlen l -> (forall z, z <> n -> key_of l' z <> VNil -> key_of l z <> VNil) ->
  zlen (keyed l') <= zlen (keyed l) + 1.
Proof.
  intros Hl HE. assert (keyed l' ⊆+ n :: keyed l) as H.
  { apply NoDup_submseteq; [apply NoDup_filter, NoDup_seqZ|]. intros z. unfold keyed.
    rewrite elem_of_cons, !list_elem_of_filter, Hl. intros [H1 H2].
    destruct (Z.eq_dec z n) as [|Hz]; [by left|]. right. split; [by apply HE|done]. }
  apply submseteq_length in H. simpl in H. unfold zlen. lia.
Qed.

Lemma keyed_full l : zlen (keyed l) < zlen l -> exists z, 0 <= z < zlen l /\ key_of l z = VNil.
Proof.
  intros H. destruct (decide (Exists (fun z => key_of l z = VNil) (seqZ 0 (zlen l)))) as [E|E].
  - apply Exists_exists in E as (x & Hx & E). apply elem_of_seqZ in Hx. exists x. split; [lia|done].
  - exfalso. apply not_Exists_Forall in E; [|apply _]. assert (seqZ 0 (zlen l) ⊆+ keyed l) as Hk.
    { apply NoDup_submseteq; [apply NoDup_seqZ|]. intros x Hx. apply list_elem_of_filter. split; [|done].
      rewrite Forall_forall in E. by apply E. }
    apply submseteq_length in Hk. rewrite length_seqZ in Hk. unfold zlen in *. lia.
Qed.

(** *** Searching *)

Lemma tab_chain_find_spec l p T : forall fuel n, 0 <= n < zlen l -> bnd (nx_of l) (zlen l) -> acyc (nx_of l) ->
  tail (nx_of l) n T -> (length T < fuel)%nat -> exists r, chain_find fuel l p n = TOk r /\
  match r with
  | Some m => 0 <= m < zlen l /\ rtc (edge (nx_of l)) n m /\ p (key_of l m) = true /\
      forall d, rtc (edge (nx_of l)) n d -> rtc (edge (nx_of l)) d m -> d <> m -> p (key_of l d) = false
  | None => forall d, rtc (edge (nx_of l)) n d -> p (key_of l d) = false
  end.
Proof.
  induction T as [|y T IH]; intros fuel n Hn Hb Ha HT Hf; (destruct fuel as [|fuel]; [simpl in Hf; lia|]);
    destruct (zget_is_Some l n Hn) as [nd Hnd]; pose proof (get_of l n nd Hnd) as (_ & Hk & Hx);
    simpl; rewrite Hnd; simpl; rewrite Hk, Hx; (destruct (p (key_of l n)) eqn:Ep;
      [exists (Some n); do 4 (split; [done|]); intros d H1 H2 H3; by destruct H3; apply (rtc_antisym (nx_of l))|]).
  - simpl in HT. rewrite HT. exists None. split; [done|]. intros d H. apply rtc_inv in H as [<-|(x & E & _)]; [done|].
    unfold edge in E. congruence.
  - destruct HT as [Hy HT]. rewrite Hy. simpl in Hf.
    destruct (IH fuel y) as (r & -> & Hr); [exact (proj2 (Hb _ _ Hy))|done|done|done|lia|].
    exists r. split; [done|].
    assert (forall d, rtc (edge (nx_of l)) n d -> d = n \/ rtc (edge (nx_of l)) y d) as Hd.
    { intros d H. apply rtc_inv in H as [<-|(x & E & H)]; [by left|]. unfold edge in E. right. by simplify_eq. }
    destruct r as [m|].
    + destruct Hr as (H1 & H2 & H3 & H4). split_and!; [lia|lia|by eapply rtc_l|done|].
      intros d D1 D2 D3. destruct (Hd d D1) as [->|D]; [done|]. by apply H4.
    + intros d D. destruct (Hd d D) as [->|D']; [done|]. by apply Hr.
Qed.

Lemma pred_search_spec l n T : forall fuel c, 0 <= c < zlen l -> bnd (nx_of l) (zlen l) ->
  tail (nx_of l) c T -> n ∈ T -> (length T < fuel)%nat ->
  exists col, pred_search fuel l c n = TOk col /\ nx_of l col = Some n.
Proof.
  induction T as [|y T IH]; intros fuel c Hc Hb HT Hin Hf; [by apply not_elem_of_nil in Hin|].
  destruct fuel as [|fuel]; [simpl in Hf; lia|]. destruct HT as [Hy HT]. simpl.
  destruct (zget_is_Some l c Hc) as [nd Hnd]; pose proof (get_of l c nd Hnd) as (_ & _ & Hx).
  rewrite Hnd; simpl. rewrite Hx, Hy. destruct (y =? n) eqn:E; [exists c; split; [done|]; by rewrite Hy; f_equal; lia|].
  apply IH; [exact (proj2 (Hb _ _ Hy))|done|done| |simpl in Hf; lia].
  apply elem_of_cons in Hin as [->|]; [lia|done].
Qed.

Lemma free_search_spec l k : Z.of_nat k <= zlen l -> exists r, free_search l k = TOk r /\
  match r with
  | Some fr => 0 <= fr < Z.of_nat k /\ key_of l fr = VNil /\ forall z, fr < z < Z.of_nat k -> key_of l z <> VNil
  | None => forall z, 0 <= z < Z.of_nat k -> key_of l z <> VNil
  end.
Proof.
  induction k as [|k IH]; intros Hk; [exists None; split; [done|]; intros z Hz; lia|].
  destruct (zget_is_Some l (Z.of_nat k)) as [nd Hnd]; [lia|]. pose proof (get_of _ _ _ Hnd) as (_ & Ek & _).
  cbn [free_search]. rewrite Hnd; simpl. rewrite Ek. destruct (tvisnil (key_of l (Z.of_nat k))) eqn:En.
  - exists (Some (Z.of_nat k)). split; [done|]. split; [lia|]. split; [by destruct (key_of l (Z.of_nat k))|]. lia.
  - assert (key_of l (Z.of_nat k) <> VNil) as Hne by (intros E; by rewrite E in En).
    destruct IH as (r & -> & Hr); [lia|]. exists r. split; [done|]. destruct r as [fr|].
    + destruct Hr as (H1 & H2 & H3). split; [lia|]. split; [done|]. intros z Hz.
      destruct (Z.eq_dec z (Z.of_nat k)) as [->|]; [done|]. apply H3. lia.
    + intros z Hz. destruct (Z.eq_dec z (Z.of_nat k)) as [->|]; [done|]. apply Hr. lia.
Qed.
End TabHash.
