(* ===== verification/LjTabKey.v ===== *)
(** * LjTabKey

    The operations on the hash part of a Lua table keep its invariant:
    searching a key, inserting a new one and storing a value.  Where
    [lj_tab_newkey] finds no free node it hands over to the rehash. *)
From stdpp Require Import base tactics numbers list relations.
From Stdlib Require Import ZArith Lia FunctionalExtensionality.
From S2P Require Import Prelude LjTab LjTabHash.
Import Tab TabHash.
Open Scope Z_scope.

Module TabKey.

(** Two tables with hash parts of the same size hash alike. *)
Lemma hashkey_size strhash t t' : zlen (node t') = zlen (node t) -> hashkey strhash t' = hashkey strhash t.
Proof. intros E. apply functional_extensionality. intros k. unfold hashkey, hashmask, hmask. by rewrite E. Qed.

Lemma hashkey_canon strhash t k : hashkey strhash t (canon k) = hashkey strhash t k.
Proof.
  destruct k as [|b|u|r|u]; try done. simpl. destruct (u =? 2 ^ 63) eqn:E; [|done].
  apply Z.eqb_eq in E. subst. unfold hashkey. f_equal.
Qed.

Section wf.
Context (strhash : Z -> Z) (t : GCtab) (W : hash_wf strhash t).
Abbreviation h := (hashkey strhash t).
Abbreviation l := (node t).

Lemma hash_range k : 0 <= h k < zlen l.
Proof.
  destruct (hw_size _ _ _ W) as (b & Hb & E). unfold hashkey, hashmask, hmask. rewrite E.
  rewrite land_pow2_mask by lia. apply Z.mod_pos_bound. apply Z.pow_pos_nonneg; lia.
Qed.

Lemma live_key z : live l z -> key_of l z <> VNil.
Proof. intros H E. by apply H, (hw_val _ _ _ W). Qed.

Lemma nil_alone z : key_of l z = VNil -> alone (nx_of l) z.
Proof.
  intros E. destruct (Z.eq_dec z (-1)) as [->|]; [|by apply (hw_nil _ _ _ W)].
  split; [by apply of_range; lia|]. intros a Ha. apply (hw_bnd _ _ _ W) in Ha. lia.
Qed.

Lemma home_keyed z : live l z -> key_of l (h (key_of l z)) <> VNil.
Proof.
  intros H E. destruct (hw_ok _ _ _ W z H) as [J1 _]. unfold anchored in J1.
  apply alone_rtc_l in J1.
  - rewrite J1 in E. by apply (live_key z).
  - by apply nil_alone.
Qed.

Lemma tail_of c : 0 <= c < zlen l -> exists T, tail (nx_of l) c T /\ zlen T < zlen l.
Proof. intros Hc. by apply tail_exists; [apply W|apply W|]. Qed.

(** Looking up a key finds the node where its value is, or belongs. *)
Lemma find_spec p k : k <> VNil -> (forall k', canonical k' -> p k' = true <-> k' = k) ->
  exists r, find t p (h k) = TOk r /\
  match r with
  | Some n => slot_for strhash t n k
  | None => forall z, live l z -> key_of l z <> k
  end.
Proof.
  intros Hk Hp. unfold find. destruct (tail_of (h k) (hash_range k)) as (T & HT & HlT).
  destruct (tab_chain_find_spec l p T (S (length l)) (h k)) as (r & -> & Hr);
    [apply hash_range|apply W|apply W|done|unfold zlen in *; lia|].
  exists r. split; [done|]. pose proof (hw_canon _ _ _ W) as Hc. destruct r as [n|].
  - destruct Hr as (H1 & H2 & H3 & H4). apply Hp in H3 as Ek; [|done].
    assert (forall d, rtc (edge (nx_of l)) (h k) d -> rtc (edge (nx_of l)) d n -> d <> n -> key_of l d <> k) as H5.
    { intros d D1 D2 D3 D4. specialize (H4 d D1 D2 D3). apply Hp in D4; [congruence|done]. }
    unfold slot_for, anchored, first. rewrite Ek. split_and!; try done; try lia.
    + intros d D1 D2 D3 D4. by apply (H5 d).
    + intros z Hz Ez. destruct (hw_ok _ _ _ W z Hz) as [J1 J2]. unfold anchored, first in J1, J2. rewrite Ez in J1, J2.
      destruct (Z.eq_dec z n) as [|Hne]; [done|exfalso].
      destruct (rtc_linear _ _ _ _ J1 H2) as [R|R]; [by apply (H5 z)|by apply (J2 n)].
  - intros z Hz Ez. destruct (hw_ok _ _ _ W z Hz) as [J1 _]. unfold anchored in J1. rewrite Ez in J1.
    specialize (Hr z J1). apply Hp in Ez; [congruence|done].
Qed.
End wf.

(** *** Putting a key into a node without value *)

Definition upd {A} (f : Z -> A) (n : Z) (a : A) : Z -> A := fun z => if decide (z = n) then a else f z.
Lemma kupd_eq {A} (f : Z -> A) n a : upd f n a n = a.
Proof. unfold upd. by rewrite decide_True. Qed.
Lemma kupd_ne {A} (f : Z -> A) n a z : z <> n -> upd f n a z = f z.
Proof. intros. unfold upd. by rewrite decide_False. Qed.

(** What happens to a list when one node changes. *)
Lemma upd_node_of l n f : 0 <= n < zlen l -> exists nd l', zget l n = Some nd /\
  upd_node l n f = TOk l' /\ zlen l' = zlen l /\
  key_of l' = upd (key_of l) n (n_key (f nd)) /\ val_of l' = upd (val_of l) n (n_val (f nd)) /\
  nx_of l' = upd (nx_of l) n (n_next (f nd)).
Proof.
  intros Hn. destruct (upd_node_spec l n f Hn) as (nd & l' & H1 & H2 & H3 & H4 & H5).
  exists nd, l'. split_and!; try done; apply functional_extensionality; intros z;
    unfold key_of, val_of, nx_of, upd; case_decide; subst; by rewrite ?H4, ?H5.
Qed.

Lemma kupd_same {A} (f : Z -> A) n : upd f n (f n) = f.
Proof. apply functional_extensionality. intros z. unfold upd. by case_decide; subst. Qed.

Section put.
Context (strhash : Z -> Z) (t : GCtab) (n : Z) (W : hash_pre strhash t n) (Hn : 0 <= n < zlen (node t)).
Abbreviation h := (hashkey strhash t).
Abbreviation l := (node t).
Context (Hv : val_of l n = VNil) (Hsz : 1 < zlen l).
Context (key : TValue) (Hk : canon key <> VNil) (Hc : canonical (canon key)).
Context (Hnew : forall z, live l z -> key_of l z <> canon key).
Context (Hr : rtc (edge (nx_of l)) (h key) n).
Context (Hf : forall d, d <> n -> rtc (edge (nx_of l)) (h key) d -> rtc (edge (nx_of l)) d n -> key_of l d <> canon key).

Lemma put_key_spec : exists t', put_key t n key = TOk (t', SNode n) /\
  array t' = array t /\ nomm t' = nomm t /\ zlen (node t') = zlen l /\
  key_of (node t') = upd (key_of l) n (canon key) /\ val_of (node t') = val_of l /\
  hash_wf strhash t' /\ slot_for strhash t' n (canon key).
Proof.
  destruct (upd_node_of l n (fun nd => MkNode (n_val nd) (canon key) (n_next nd)) Hn)
    as (nd & l' & Hnd & E & EL & EK & EV & EX).
  pose proof (get_of _ _ _ Hnd) as (G1 & G2 & G3). simpl in EK, EV, EX.
  rewrite G1, kupd_same in EV. rewrite G3, kupd_same in EX.
  exists (with_node t l'). unfold put_key. fold (canon key). rewrite E.
  assert (hashkey strhash (with_node t l') = h) as EH by (by apply hashkey_size).
  do 6 (split; [done|]). rewrite <- (hashkey_canon strhash t key) in Hr, Hf.
  assert (forall z, z <> n -> anchored (key_of l) h (nx_of l) z /\ first (key_of l) h (nx_of l) z ->
    key_of l z <> canon key ->
    anchored (upd (key_of l) n (canon key)) h (nx_of l) z /\ first (upd (key_of l) n (canon key)) h (nx_of l) z) as Hok.
  { intros z Hz [J1 J2] Hzk. unfold anchored, first. rewrite kupd_ne by done. split; [done|].
    intros d D1 D2 D3 D4. destruct (Z.eq_dec d n) as [->|Hdn].
    - rewrite kupd_eq in D2. congruence.
    - rewrite kupd_ne in D2 by done. by apply (J2 d). }
  assert (forall z, live l z -> z <> n) as Hln by (intros z Hz ->; done).
  split.
  - constructor; simpl; rewrite ?EL, ?EK, ?EV, ?EX, ?EH; try apply W.
    + intros z Hz. destruct (Z.eq_dec z n) as [->|Hzn]; [done|]. rewrite kupd_ne in Hz by done. by apply W.
    + intros z _ Hz. destruct (Z.eq_dec z n) as [->|Hzn]; [by rewrite kupd_eq in Hz|].
      rewrite kupd_ne in Hz by done. by apply W.
    + intros z _ _ Hz. destruct (Z.eq_dec z n) as [->|Hzn]; [by rewrite kupd_eq|].
      rewrite kupd_ne by done. by apply W.
    + lia.
    + unfold live. rewrite EV. intros z Hz. apply Hok; [by apply Hln|by apply W|by apply Hnew].
    + intros z. destruct (Z.eq_dec z n) as [->|Hzn]; [by rewrite kupd_eq|]. rewrite kupd_ne by done. apply W.
  - unfold slot_for. simpl. rewrite EL, EK, EX, EH. unfold anchored, first. rewrite !kupd_eq.
    split_and!; try done; try lia.
    + intros d D1 D2 D3 D4. rewrite kupd_ne in D2 by done. by apply (Hf d).
    + unfold live. rewrite EV. intros z Hz Ez. rewrite kupd_ne in Ez by (by apply Hln). by destruct (Hnew z).
Qed.
End put.

(** *** A new key behind its occupied main position *)
Section splice_new.
Context (strhash : Z -> Z) (t : GCtab) (W : hash_wf strhash t).
Abbreviation h := (hashkey strhash t).
Abbreviation l := (node t).
Context (n fr : Z) (Hn : live l n) (Hfr : 0 <= fr < freetop t) (Hfk : key_of l fr = VNil)
  (Hft : forall z, fr < z < freetop t -> key_of l z <> VNil).

Lemma free_alone : alone (nx_of l) fr.
Proof. by apply (nil_alone strhash t W). Qed.

Lemma free_ne : n <> fr.
Proof. intros ->. by apply (live_key strhash t W fr). Qed.

Lemma free_range : 0 <= fr < zlen l.
Proof. pose proof (hw_ft _ _ _ W). lia. Qed.

Lemma free_size : 1 < zlen l.
Proof.
  pose proof free_ne. pose proof free_range. pose proof (live_range _ _ Hn). lia.
Qed.

Lemma freetop_keys z : fr < z < zlen l -> key_of l z <> VNil.
Proof.
  intros Hz. destruct (Z.lt_ge_cases z (freetop t)); [by apply Hft; lia|].
  apply (hw_free _ _ _ W); [apply free_size|lia|lia].
Qed.

Lemma home_not_free z : live l z -> h (key_of l z) <> fr.
Proof. intros Hz E. apply (home_keyed strhash t W z Hz). congruence. Qed.

Lemma insert_behind (t1 := with_freetop t fr) : exists l',
  (l1 ← set_next l fr (nx_of l n); set_next l1 n (Some fr)) = TOk l' /\ relinked l l' /\
  nx_of l' = splice (nx_of l) n fr /\ hash_pre strhash (with_node t1 l') fr.
Proof.
  pose proof free_alone as Hal. pose proof free_ne as Hne. pose proof free_range as Hfrr.
  pose proof (live_range _ _ Hn) as Hnr.
  destruct (set_next_spec l fr (nx_of l n)) as (l1 & -> & R1 & N1); [done|]; simpl.
  destruct (set_next_spec l1 n (Some fr)) as (l2 & -> & R2 & N2); [by rewrite (proj1 R1)|].
  rewrite N1 in N2. pose proof (relinked_trans _ _ _ R1 R2) as R.
  exists l2. split; [done|]. split; [done|]. split; [done|]. destruct R as (RL & RK & RV).
  assert (hashkey strhash (with_node t1 l2) = h) as EH by (by apply hashkey_size).
  constructor; simpl; rewrite ?RL, ?RK, ?RV, ?N2, ?EH; fold (splice (nx_of l) n fr); try apply W.
  - lia.
  - intros a b [[-> ->]|[(-> & E & _)|(_ & _ & E & _)]]%splice_edge; try done.
    + split; [done|]. exact (proj2 (hw_bnd _ _ _ W _ _ E)).
    + exact (hw_bnd _ _ _ W _ _ E).
  - apply splice_inj; [done|done|apply W].
  - apply splice_acyc; [done|done|apply W].
  - intros z Hz Ek. destruct (Z.eq_dec z n) as [->|Hzn]; [by apply (live_key strhash t W) in Hn|].
    assert (alone (nx_of l) z) as [A1 A2] by (by apply (nil_alone strhash t W)).
    split; [by rewrite splice_other|]. intros a [[-> ->]|[(-> & E & _)|(_ & _ & E & _)]]%splice_edge; try done;
      by eapply A2.
  - intros z Hs Hz Hr. apply freetop_keys. lia.
  - pose proof free_size. lia.
  - unfold live. rewrite RV. intros z Hz. destruct (hw_ok _ _ _ W z Hz) as [J1 J2].
    pose proof (home_not_free z Hz) as HH.
    assert (z <> fr) by (intros ->; by apply (live_key strhash t W) in Hz). split.
    + by apply splice_rtc.
    + intros d D1 D2 D3 D4.
      assert (d <> fr) by (intros ->; apply (live_key strhash t W) in Hz; congruence).
      apply (J2 d D1 D2); by apply (splice_rtc_back _ n fr).
Qed.

(** *** Moving the entry that occupies a main position *)

(** The list after the copy, before the rechaining. *)
Definition moved (l3 : list Node) (col : Z) : Prop :=
  zlen l3 = zlen l /\ key_of l3 = key1 (key_of l) n fr /\
  val_of l3 = upd (upd (val_of l) fr (val_of l n)) n VNil /\
  nx_of l3 = nx1 (nx_of l) n fr col.

Lemma copy_spec col : nx_of l col = Some n -> exists nd l1 l2 l3,
  set_next l col (Some fr) = TOk l1 /\ zget l1 n = Some nd /\ zset l1 fr nd = Some l2 /\
  zset l2 n (MkNode VNil (n_key nd) None) = Some l3 /\ moved l3 col.
Proof.
  intros Hcol. pose proof free_alone as Hal. pose proof free_ne as Hne. pose proof free_range as Hfrr.
  pose proof (live_range _ _ Hn) as Hnr. destruct (hw_bnd _ _ _ W _ _ Hcol) as [Hcr _].
  assert (col <> fr) as Hcf by (intros ->; destruct Hal; congruence).
  assert (col <> n) as Hcn.
  { intros E. apply (hw_acyc _ _ _ W n). apply tc_once. unfold edge. by rewrite <- E at 1. }
  destruct (set_next_spec l col (Some fr)) as (l1 & E1 & (L1 & K1 & V1) & N1); [done|].
  destruct (zget_is_Some l1 n) as [nd Hnd]; [lia|]. pose proof (get_of _ _ _ Hnd) as (G1 & G2 & G3).
  destruct (zset_is_Some l1 fr nd) as [l2 E2]; [lia|]. pose proof (zset_length _ _ _ _ E2) as L2.
  destruct (zset_is_Some l2 n (MkNode VNil (n_key nd) None)) as [l3 E3]; [lia|].
  pose proof (zset_length _ _ _ _ E3) as L3.
  exists nd, l1, l2, l3. do 4 (split; [done|]).
  assert (forall z, zget l3 z = if decide (z = n) then Some (MkNode VNil (n_key nd) None)
    else if decide (z = fr) then Some nd else zget l1 z) as Hget.
  { intros z. case_decide; [subst; by eapply zget_zset_eq|]. rewrite (zget_zset_ne _ _ _ _ _ E3) by congruence.
    case_decide; [subst; by eapply zget_zset_eq|]. by rewrite (zget_zset_ne _ _ _ _ _ E2) by congruence. }
  split; [lia|]. rewrite K1 in G2. rewrite V1 in G1. rewrite N1 in G3. rewrite fupd_ne in G3 by congruence.
  split_and!; apply functional_extensionality; intros z.
  - unfold key1. rewrite <- K1. unfold key_of at 1. rewrite Hget. repeat case_decide; subst; simpl; try done; congruence.
  - unfold upd. rewrite <- V1. unfold val_of at 1. rewrite Hget. repeat case_decide; subst; simpl; try done; congruence.
  - unfold nx_of at 1. rewrite Hget. unfold nx1, unlink, splice, fupd.
    destruct (decide (z = n)) as [|Hzn]; [done|]. destruct (decide (z = fr)) as [->|Hzf]; simpl.
    + rewrite G3. by rewrite !decide_False by congruence.
    + change (nx_of l1 z = if decide (z = col) then Some fr else nx_of l z). by rewrite N1.
Qed.

Context (Hnh : h (key_of l n) <> n).

Lemma pred_spec : exists col,
  pred_search (S (length l)) l (h (key_of l n)) n = TOk col /\ nx_of l col = Some n.
Proof.
  destruct (tail_of strhash t W (h (key_of l n))) as (T & HT & HlT); [by apply hash_range|].
  apply (pred_search_spec l n T); [by apply hash_range|apply W|done| |unfold zlen in *; lia].
  apply (tail_elem _ _ _ _ HT). destruct (hw_ok _ _ _ W n Hn) as [J1 _].
  apply rtc_tc in J1 as [?|]; [done|done].
Qed.

Lemma moved_live l3 z : val_of l3 = upd (upd (val_of l) fr (val_of l n)) n VNil ->
  live l3 z <-> lv1 (live l) n fr z.
Proof.
  intros E. pose proof free_ne. unfold live, lv1. rewrite E. unfold upd. repeat case_decide; subst.
  - split; [done|]. by intros [?|[_ ?]].
  - split; [by left|done].
  - split; [by right|]. by intros [?|[? _]].
Qed.

Lemma live_not_free : ~ live l fr.
Proof. intros H. by apply (live_key strhash t W) in H. Qed.

Lemma moved_state l3 col : nx_of l col = Some n -> moved l3 col ->
  state (key_of l3) (live l3) (zlen l) l3 (nx_of l3).
Proof.
  intros Hcol (M1 & M2 & M3 & M4). pose proof free_alone as Hal. pose proof free_ne as Hne.
  pose proof free_range as Hfrr. destruct (hw_bnd _ _ _ W _ _ Hcol) as [Hcr Hnr].
  assert (splice (nx_of l) col fr fr = Some n) as Ef by (by apply splice_fr_n).
  split_and!; try done; rewrite M4.
  - intros a b. unfold nx1, unlink, splice, fupd. intros E. repeat case_decide; simplify_eq; try done;
      try (by apply (hw_bnd _ _ _ W) in E); split; try done; exact (proj2 (hw_bnd _ _ _ W _ _ E)).
  - intros z. rewrite M2. intros Ez.
    assert (z <> fr) as Hzf.
    { intros ->. rewrite key1_fr in Ez. by apply (live_key strhash t W) in Ez. }
    rewrite key1_ne in Ez by done. destruct (nil_alone strhash t W z Ez) as [A1 A2].
    split; [unfold nx1, unlink, splice, fupd; repeat case_decide; congruence|].
    intros a. specialize (A2 a) as A3. specialize (A2 col) as A4. specialize (A2 n) as A5.
    unfold nx1, unlink, splice, fupd. repeat case_decide; congruence.
Qed.

Lemma moved_keys z : lv1 (live l) n fr z -> key1 (key_of l) n fr z <> VNil /\
  key1 (key_of l) n fr (h (key1 (key_of l) n fr z)) <> VNil.
Proof.
  intros [->|[Hz Hzn]].
  - rewrite key1_fr, key1_ne by (by apply home_not_free).
    split; [by apply (live_key strhash t W)|by apply home_keyed].
  - rewrite (key1_ne _ _ _ z) by (intros ->; by apply live_not_free). rewrite key1_ne by (by apply home_not_free).
    split; [by apply (live_key strhash t W)|by apply home_keyed].
Qed.

Lemma rechain_moved l3 col (t1 := with_freetop t fr) : nx_of l col = Some n -> moved l3 col -> exists l' nx',
  rechain strhash (S (length l3)) t1 l3 fr n = TOk l' /\ state (key_of l3) (live l3) (zlen l) l' nx' /\
  inj nx' /\ acyc nx' /\ relinked l3 l' /\
  forall z, live l3 z -> anchored (key_of l3) h nx' z /\ first (key_of l3) h nx' z.
Proof.
  intros Hcol HM. pose proof free_alone as Hal. pose proof free_ne as Hne. pose proof live_not_free as Hlf.
  pose proof (live_range _ _ Hn) as Hnr. pose proof (hw_inj _ _ _ W) as Hi. pose proof (hw_acyc _ _ _ W) as Ha.
  pose proof (hw_ok _ _ _ W) as Hok. pose proof HM as (M1 & M2 & M3 & M4).
  pose proof (fun z => moved_live l3 z M3) as Hlv.
  destruct (tail_of strhash t W n Hnr) as (T & HT & HlT).
  destruct (move_tail (live l) (key_of l) h (nx_of l) Hi Ha Hok n fr col Hn Hnh Hal Hlf Hcol T HT)
    as (T1 & T2 & T3 & T4 & T5).
  eapply (rechain_spec strhash t1 (key_of l3) (live l3)) with (T := T); change (hashkey strhash t1) with h.
  - intros z d. rewrite !Hlv, M2. by apply (move_unique (live l) (key_of l) h (nx_of l)).
  - intros z. rewrite Hlv, M2. by apply (move_self (live l) (key_of l) h (nx_of l)).
  - by apply hash_range.
  - intros z. rewrite Hlv, M2. apply moved_keys.
  - apply free_range.
  - done.
  - set_solver.
  - exact (moved_state l3 col Hcol HM).
  - rewrite M4. by apply move_inj.
  - rewrite M4. by apply move_acyc.
  - by rewrite M4.
  - rewrite M2. eapply ord_impl; [|exact T4]. intros z. apply Hlv.
  - intros z. rewrite Hlv, M2, M4. by apply move_ok.
  - intros z. rewrite Hlv, M2. apply T5.
  - done.
  - unfold zlen in *. lia.
Qed.

Lemma move_node_spec (t1 := with_freetop t fr) : exists l',
  move_node strhash t1 l (h (key_of l n)) n fr = TOk l' /\ zlen l' = zlen l /\
  key_of l' = key1 (key_of l) n fr /\ val_of l' = upd (upd (val_of l) fr (val_of l n)) n VNil /\
  hash_wf strhash (with_node t1 l').
Proof.
  destruct pred_spec as (col & E1 & Hcol). unfold move_node. rewrite E1. cbn [mbind tres_bind].
  destruct (copy_spec col Hcol) as (nd & l1 & l2 & l3 & -> & E2 & E3 & E4 & HM).
  cbn [mbind tres_bind]. rewrite E2; cbn [mbind tres_bind chk]. rewrite E3; cbn [mbind tres_bind chk].
  rewrite E4; cbn [mbind tres_bind chk].
  destruct (rechain_moved l3 col Hcol HM) as (l' & nx' & E5 & (HS1 & _ & _ & HS2 & HS3 & HS4) & Hi & Ha & (R1 & R2 & R3) & Hok).
  destruct HM as (M1 & M2 & M3 & M4). exists l'. split; [exact E5|]. split; [done|]. split; [congruence|].
  split; [congruence|].
  assert (hashkey strhash (with_node t1 l') = h) as EH by (by apply hashkey_size).
  pose proof free_ne as Hne. pose proof free_range.
  constructor; simpl; rewrite ?HS1, ?HS2, ?EH, ?R2, ?R3; try done; try apply W.
  - lia.
  - intros z. rewrite M2, M3. unfold key1, upd. repeat case_decide; subst; try done; apply W.
  - intros z _. apply HS4.
  - intros z _ _ Hz. rewrite M2. unfold key1. case_decide; [by apply (live_key strhash t W)|].
    apply freetop_keys. lia.
  - pose proof free_size. lia.
  - unfold live. by rewrite R3.
  - intros z. rewrite M2. unfold key1. case_decide; apply W.
Qed.
End splice_new.

(** *** The pairs under a change *)

Lemma has_dead l l' n : val_of l n = VNil -> val_of l' = val_of l ->
  (forall z, z <> n -> key_of l' z = key_of l z) -> forall k v, hash_has l' k v <-> hash_has l k v.
Proof.
  intros Hn EV EK k v. unfold hash_has. rewrite EV.
  split; intros [Hv (z & E1 & E2)]; (split; [done|]); (assert (z <> n) by congruence); exists z; split; try done;
    [rewrite <- EK|rewrite EK]; done.
Qed.

Lemma has_move l l' n fr : key_of l fr = VNil -> val_of l fr = VNil -> n <> fr ->
  key_of l' = key1 (key_of l) n fr -> val_of l' = upd (upd (val_of l) fr (val_of l n)) n VNil ->
  forall k v, hash_has l' k v <-> hash_has l k v.
Proof.
  intros K0 V0 Hne EK EV k v. unfold hash_has. rewrite EK, EV. unfold key1, upd. split; intros [Hv (z & E1 & E2)]; (split; [done|]).
  - repeat case_decide; subst; try done; eauto.
  - assert (z <> fr) by congruence. destruct (Z.eq_dec z n) as [->|Hz].
    + exists fr. rewrite !(decide_True (P := fr = fr)) by done. by rewrite decide_False by congruence.
    + exists z. by rewrite !decide_False by congruence.
Qed.

(** *** [lj_tab_newkey] *)

(** No node is free. *)
Definition full (t : GCtab) : Prop := zlen (node t) = 1 \/ zlen (keyed (node t)) = zlen (node t).

(** A node for the new key [k], and everything else as before. *)
Definition inserted (strhash : Z -> Z) (t t' : GCtab) (n : Z) (k : TValue) : Prop :=
  array t' = array t /\ nomm t' = nomm t /\ zlen (node t') = zlen (node t) /\
  hash_wf strhash t' /\ slot_for strhash t' n k /\ val_of (node t') n = VNil /\
  (forall k v, hash_has (node t') k v <-> hash_has (node t) k v) /\
  zlen (keyed (node t')) <= zlen (keyed (node t)) + 1.

Section here.
Context (strhash : Z -> Z) (t : GCtab) (W : hash_wf strhash t).
Abbreviation h := (hashkey strhash t).
Abbreviation l := (node t).
Context (key : TValue) (Hk : canon key <> VNil) (Hc : canonical (canon key)).
Context (Hnew : forall z, live l z -> key_of l z <> canon key).

Lemma size_cases : zlen l = 1 \/ 1 < zlen l.
Proof.
  destruct (hw_size _ _ _ W) as (b & Hb & ->). pose proof (Z.pow_pos_nonneg 2 b). lia.
Qed.

Lemma no_free : (forall z, 0 <= z < freetop t -> key_of l z <> VNil) -> full t.
Proof.
  intros H. unfold full. destruct size_cases as [|Hs]; [by left|right].
  pose proof (keyed_le l). destruct (Z.lt_ge_cases (zlen (keyed l)) (zlen l)) as [Hlt|]; [|lia].
  apply keyed_full in Hlt as (z & Hz & E). exfalso.
  destruct (Z.lt_ge_cases z (freetop t)); [by apply (H z); [lia|]|].
  by apply (hw_free _ _ _ W z); [done|lia|lia|].
Qed.

Lemma newkey_here (n := h key) : val_of l n = VNil -> 1 < zlen l ->
  exists t' m, put_key t n key = TOk (t', SNode m) /\ inserted strhash t t' m (canon key) /\
  key_of (node t') = upd (key_of l) n (canon key).
Proof.
  intros Hv Hs. assert (0 <= n < zlen l) as Hn by (by apply hash_range).
  destruct (put_key_spec strhash t n) with (key := key) as (t' & E & E1 & E2 & E3 & E4 & E5 & E6 & E7); try done.
  - destruct W as []. constructor; try done; intros z; [intros _; by apply (nil_alone strhash t W)|].
    intros ? _ ?. by apply hw_free0; [|lia|].
  - intros d Hd R1 R2. destruct Hd. by apply (rtc_antisym (nx_of l)); [apply W|..].
  - exists t', n. split; [done|]. split; [|done]. unfold inserted. split_and!; try done; [congruence| |].
    + apply (has_dead _ _ n); [done|done|]. intros z Hz. rewrite E4. by apply kupd_ne.
    + apply (keyed_insert _ _ n); [done|]. intros z Hz. rewrite E4. by rewrite kupd_ne.
Qed.

End here.

Section newkey.
Context (strhash : Z -> Z) (t : GCtab) (W : hash_wf strhash t).
Abbreviation h := (hashkey strhash t).
Abbreviation l := (node t).
Context (key : TValue) (Hk : canon key <> VNil) (Hc : canonical (canon key)).
Context (Hnew : forall z, live l z -> key_of l z <> canon key).

Section occupied.
Abbreviation n := (h key).
Context (fr : Z) (Hn : live l n) (Hfr : 0 <= fr < freetop t) (Hfk : key_of l fr = VNil)
  (Hft : forall z, fr < z < freetop t -> key_of l z <> VNil).
Abbreviation t1 := (with_freetop t fr).

Lemma newkey_behind : exists l1 l2 t' m, set_next l fr (nx_of l n) = TOk l1 /\ set_next l1 n (Some fr) = TOk l2 /\
  put_key (with_node t1 l2) fr key = TOk (t', SNode m) /\ inserted strhash t t' m (canon key).
Proof.
  destruct (insert_behind strhash t W n fr Hn Hfr Hfk Hft) as (l2 & E & (RL & RK & RV) & EX & WP).
  destruct (set_next l fr (nx_of l n)) as [l1| | |] eqn:E1; try done. simpl in E.
  pose proof (free_ne strhash t W n fr Hn Hfk) as Hne.
  assert (hashkey strhash (with_node t1 l2) = h) as EH by (by apply hashkey_size).
  destruct (put_key_spec strhash (with_node t1 l2) fr WP) with (key := key)
    as (t' & E2 & P1 & P2 & P3 & P4 & P5 & P6 & P7); try done; simpl.
  - rewrite RL. by apply (free_range strhash t W).
  - rewrite RV. by apply W.
  - rewrite RL. by apply (free_size strhash t W n fr).
  - unfold live. rewrite RV, RK. apply Hnew.
  - rewrite EX, EH. apply rtc_once, splice_m.
  - rewrite EX, EH, RK. intros d Hd R1 R2. apply rtc_inv in R1 as [<-|(x & Ex & R1)]; [by apply Hnew|].
    unfold edge in Ex. rewrite splice_m in Ex. injection Ex as <-.
    destruct Hd. apply (rtc_antisym (splice (nx_of l) n fr)); [|done|done].
    apply splice_acyc; [by apply (free_alone strhash t W)|done|apply W].
  - simpl in P1, P2, P3, P4, P5. exists l1, l2, t', fr. do 3 (split; [done|]). unfold inserted. split_and!; try done; try congruence.
    + rewrite P5, RV. by apply W.
    + apply (has_dead _ _ fr); [by apply W|congruence|]. intros z Hz. rewrite P4, RK. by apply kupd_ne.
    + apply (keyed_insert _ _ fr); [congruence|]. intros z Hz. rewrite P4, RK. by rewrite kupd_ne.
Qed.

Lemma newkey_move : h (key_of l n) <> n -> exists l' t' m, move_node strhash t1 l (h (key_of l n)) n fr = TOk l' /\
  put_key (with_node t1 l') n key = TOk (t', SNode m) /\ inserted strhash t t' m (canon key).
Proof.
  intros Hnh. destruct (move_node_spec strhash t W n fr Hn Hfr Hfk Hft Hnh) as (l' & E & EL & EK & EV & W').
  pose proof (free_ne strhash t W n fr Hn Hfk) as Hne.
  assert (hashkey strhash (with_node t1 l') = h) as EH by (by apply hashkey_size).
  assert (val_of l fr = VNil) as V0 by (by apply W).
  destruct (newkey_here strhash (with_node t1 l') W' key Hk Hc) as (t' & m & E1 & E2 & E3).
  - simpl. intros z Hz. apply (moved_live strhash t W n fr Hn Hfk l' z EV) in Hz as Hz'.
    rewrite EK. destruct Hz' as [->|[Hz' Hzn]]; [rewrite key1_fr; by apply Hnew|].
    rewrite key1_ne; [by apply Hnew|]. intros ->. by apply Hz'.
  - simpl. rewrite EH, EV. apply kupd_eq.
  - simpl. rewrite EL. by apply (free_size strhash t W n fr).
  - rewrite EH in E1, E3. simpl in E3. exists l', t', m. split; [done|]. split; [done|].
    destruct E2 as (I1 & I2 & I3 & I4 & I5 & I6 & I7 & I8). unfold inserted. split_and!; try done; simpl in *.
    + congruence.
    + intros k v. rewrite I7. by apply (has_move _ _ n fr).
    + apply (keyed_insert _ _ fr); [congruence|]. intros z Hz. rewrite E3, EK. unfold upd. case_decide as Ez.
      * subst. intros _. by apply (live_key strhash t W).
      * by rewrite key1_ne.
Qed.
End occupied.

(** The insertion of a key that is not present: without a free node it is the
    rehash that goes on, else the result has room for its value. *)
Lemma newkey_body_spec retry :
  newkey_body strhash retry t key = retry t key /\ full t \/
  exists t' m, newkey_body strhash retry t key = TOk (t', SNode m) /\ inserted strhash t t' m (canon key).
Proof.
  pose proof (hash_range strhash t W key) as Hr. unfold newkey_body.
  destruct (zget_is_Some l (h key) Hr) as [nd Hnd]. rewrite Hnd; simpl.
  pose proof (get_of _ _ _ Hnd) as (G1 & G2 & G3). rewrite G1.
  destruct (negb (tvisnil (val_of l (h key))) || (hmask t =? 0)) eqn:E.
  - pose proof (hw_ft _ _ _ W) as Hft.
    destruct (free_search_spec l (Z.to_nat (freetop t))) as (r & -> & Hfs); [lia|]. rewrite Z2Nat.id in Hfs by lia.
    cbn [mbind tres_bind]. destruct r as [fr|]; [right|by left; split; [|apply (no_free strhash)]].
    destruct Hfs as (F1 & F2 & F3).
    assert (live l (h key)) as Hlv.
    { intros E'. rewrite E' in E. simpl in E. assert (zlen l = 1) as Hone by (unfold hmask in E; lia).
      destruct (hw_single _ _ _ W Hone). lia. }
    change (hashkey strhash (with_freetop t fr)) with h. rewrite G2, G3.
    destruct (h (key_of l (h key)) =? h key) eqn:Ec; simpl.
    + destruct (newkey_behind fr Hlv F1 F2 F3) as (l1 & l2 & t' & m & -> & E2 & E3 & HI); simpl.
      rewrite E2; simpl. eauto.
    + destruct (newkey_move fr Hlv F1 F2 F3) as (l' & t' & m & E2 & E3 & HI); [lia|].
      change (node (with_freetop t fr)) with l. rewrite E2; simpl. eauto.
  - right. destruct (newkey_here strhash t W key) as (t' & m & E1 & E2 & _); try done; [| |eauto].
    2: unfold hmask in E; destruct (size_cases strhash t W); lia.
    by destruct (val_of l (h key)).
Qed.
End newkey.
End TabKey.
