(* ===== verification/LjTabMap.v ===== *)
(** * LjTabMap

    A Lua table as a finite map.  Both parts together hold pairs of a key and
    a value that is not nil; the getters find the value of a key, the setters
    a place for it, and storing there changes the map at that key only.  The
    case where the hash part has no free node is left to [LjTabRehash]. *)
From stdpp Require Import base tactics numbers list relations.
From Stdlib Require Import ZArith Lia.
From S2P Require Import Prelude LjTab LjTabHash LjTabKey.
Import Tab TabHash TabKey.
Open Scope Z_scope.

Module TabMap.

(** ** Doubles *)

Lemma num_fields (s E M : Z) : 0 <= s < 2 -> 0 <= E < 2048 -> 0 <= M < 2 ^ 52 ->
  let u := s * 2 ^ 63 + E * 2 ^ 52 + M in
  num_exp u = E /\ num_man u = M /\ num_neg u = (s =? 1).
Proof.
  intros Hs HE HM u. unfold num_exp, num_man, num_neg.
  change 0x7ff with (2 ^ 11 - 1). change 0xfffffffffffff with (2 ^ 52 - 1).
  rewrite !land_pow2_mask, Z.shiftr_div_pow2 by lia. subst u.
  split; [|split].
  - replace (s * 2 ^ 63 + E * 2 ^ 52 + M) with (M + (s * 2 ^ 11 + E) * 2 ^ 52) by lia.
    rewrite Z.div_add, Z.div_small by lia. rewrite Z.add_0_l, Z.add_comm, Z.mod_add, Z.mod_small by lia. done.
  - replace (s * 2 ^ 63 + E * 2 ^ 52 + M) with (M + (s * 2 ^ 11 + E) * 2 ^ 52) by lia.
    rewrite Z.mod_add, Z.mod_small by lia. done.
  - rewrite Z.testbit_eqb by lia. 
    replace (s * 2 ^ 63 + E * 2 ^ 52 + M) with ((E * 2 ^ 52 + M) + s * 2 ^ 63) by lia.
    rewrite Z.div_add, (Z.div_small (E * 2 ^ 52 + M)) by lia. rewrite Z.add_0_l, Z.mod_small by lia. done.
Qed.

Lemma num_split u : in_u64 u -> exists s, 0 <= s < 2 /\ 0 <= num_exp u < 2048 /\ 0 <= num_man u < 2 ^ 52 /\
  num_neg u = (s =? 1) /\ u = s * 2 ^ 63 + num_exp u * 2 ^ 52 + num_man u.
Proof.
  intros Hu. unfold in_u64 in Hu. set (s := u / 2 ^ 63). set (E := (u / 2 ^ 52) mod 2 ^ 11). set (M := u mod 2 ^ 52).
  assert (0 <= s < 2) as Hs by (subst s; split; [apply Z.div_pos; lia|apply Z.div_lt_upper_bound; lia]).
  assert (0 <= E < 2048) as HE by (apply Z.mod_pos_bound; lia).
  assert (0 <= M < 2 ^ 52) as HM by (apply Z.mod_pos_bound; lia).
  assert (u = s * 2 ^ 63 + E * 2 ^ 52 + M) as Hd.
  { subst s E M. pose proof (Z.div_mod u (2 ^ 52)). pose proof (Z.div_mod (u / 2 ^ 52) (2 ^ 11)).
    rewrite Z.div_div in H0 by lia. replace (2 ^ 52 * 2 ^ 11) with (2 ^ 63) in H0 by done. lia. }
  destruct (num_fields s E M Hs HE HM) as (F1 & F2 & F3). rewrite <- Hd in F1, F2, F3.
  exists s. rewrite F1, F2. done.
Qed.

Lemma num_iszero_iff u : in_u64 u -> num_iszero u = true <-> u = 0 \/ u = 2 ^ 63.
Proof.
  intros Hu. split.
  - unfold num_iszero. intros H. destruct (num_split u Hu) as (s & Hs & _ & _ & _ & E). lia.
  - intros [-> | ->]; vm_compute; reflexivity.
Qed.

Lemma num_mzero : num_isnan (2 ^ 63) = false /\ num_iszero (2 ^ 63) = true /\ num_exp (2 ^ 63) = 0.
Proof. vm_compute. done. Qed.

(** On stored keys [==] is equality. *)
Lemma num_eq_canon a u : canonical (VNum a) -> in_u64 u ->
  num_eq a u = true <-> VNum a = canon (VNum u) /\ num_isnan u = false.
Proof.
  intros (Ha & Hn & Hz) Hu. unfold num_eq. rewrite Hn. cbn [negb andb canon].
  pose proof (num_iszero_iff a Ha) as Za. pose proof (num_iszero_iff u Hu) as Zu.
  destruct (u =? 2 ^ 63) eqn:E.
  - apply Z.eqb_eq in E. subst u. destruct num_mzero as (-> & -> & _). cbn [negb andb].
    rewrite andb_true_r, orb_true_iff, Z.eqb_eq, Za. split.
    + intros H. split; [|done]. f_equal. lia.
    + intros [H _]. injection H as ->. by right; left.
  - apply Z.eqb_neq in E. destruct (num_isnan u); cbn [negb andb]; [split; [done|by intros []]|].
    rewrite orb_true_iff, Z.eqb_eq, andb_true_iff, Za, Zu. split.
    + intros H. split; [|done]. f_equal. lia.
    + intros [H _]. injection H as ->. by left.
Qed.

(** *** Integers *)

Lemma num_of_int_fields k : in_i32 k -> k <> 0 -> let e := Z.log2 (Z.abs k) in
  0 <= e <= 31 /\ num_exp (num_of_int k) = e + 1023 /\ num_man (num_of_int k) = Z.abs k * 2 ^ (52 - e) - 2 ^ 52 /\
  num_neg (num_of_int k) = (k <? 0) /\ in_u64 (num_of_int k) /\ 0 <= Z.abs k * 2 ^ (52 - e) - 2 ^ 52 < 2 ^ 52.
Proof.
  intros Hk H0 e. unfold in_i32 in Hk.
  assert (2 ^ e <= Z.abs k < 2 ^ (e + 1)) as He by (apply Z.log2_spec; lia).
  assert (0 <= e) as He0 by apply Z.log2_nonneg.
  assert (e <= 31) as He1 by (apply Z.lt_succ_r, (Z.pow_lt_mono_r_iff 2); lia).
  assert (0 <= Z.abs k * 2 ^ (52 - e) - 2 ^ 52 < 2 ^ 52) as HM.
  { assert (2 ^ 52 = 2 ^ e * 2 ^ (52 - e)) as E1 by (rewrite <- Z.pow_add_r by lia; f_equal; lia).
    assert (2 ^ 53 = 2 ^ (e + 1) * 2 ^ (52 - e)) as E2 by (rewrite <- Z.pow_add_r by lia; f_equal; lia).
    assert (0 < 2 ^ (52 - e)) by (apply Z.pow_pos_nonneg; lia).
    change (2 ^ 53) with (2 * 2 ^ 52) in E2. nia. }
  unfold num_of_int. destruct (k =? 0) eqn:E0; [lia|].
  destruct (num_fields (if k <? 0 then 1 else 0) (e + 1023) (Z.abs k * 2 ^ (52 - e) - 2 ^ 52)) as (F1 & F2 & F3);
    [destruct (k <? 0); lia|lia|lia|]. fold e.
  replace ((if k <? 0 then 2 ^ 63 else 0) + (e + 1023) * 2 ^ 52 + (Z.abs k * 2 ^ (52 - e) - 2 ^ 52))
    with ((if k <? 0 then 1 else 0) * 2 ^ 63 + (e + 1023) * 2 ^ 52 + (Z.abs k * 2 ^ (52 - e) - 2 ^ 52))
    by (destruct (k <? 0); lia).
  rewrite F1, F2, F3. split_and!; try lia; try done.
  - by destruct (k <? 0).
  - unfold in_u64. destruct (k <? 0); lia.
Qed.

Lemma num_of_int_canonical k : in_i32 k -> canonical (VNum (num_of_int k)).
Proof.
  intros Hk. destruct (Z.eq_dec k 0) as [->|H0]; [vm_compute; done|].
  destruct (num_of_int_fields k Hk H0) as (H1 & H2 & H3 & H4 & H5 & _). split; [done|]. unfold num_isnan.
  rewrite H2. split; [by destruct (Z.log2 (Z.abs k) + 1023 =? 2047) eqn:E; [lia|]|].
  intros E. rewrite E, (proj2 (proj2 num_mzero)) in H2. lia.
Qed.

Lemma num_int_of_int k : in_i32 k -> num_int (num_of_int k) = Some k.
Proof.
  intros Hk. destruct (Z.eq_dec k 0) as [->|H0]; [vm_compute; done|].
  destruct (num_of_int_fields k Hk H0) as (H1 & H2 & H3 & H4 & H5 & H6). unfold num_int, num_iszero.
  rewrite H2, H3, H4. set (e := Z.log2 (Z.abs k)) in *.
  replace (e + 1023 =? 0) with false by lia. replace (e + 1023 =? 2047) with false by lia.
  replace (1075 <=? e + 1023) with false by lia. simpl.
  replace (1075 - (e + 1023)) with (52 - e) by lia.
  replace (2 ^ 52 + (Z.abs k * 2 ^ (52 - e) - 2 ^ 52)) with (Z.abs k * 2 ^ (52 - e)) by lia.
  assert (0 < 2 ^ (52 - e)) by (apply Z.pow_pos_nonneg; lia).
  rewrite Z.mod_mul, Z.div_mul by lia. simpl. unfold in_i32 in Hk.
  destruct (k <? 0) eqn:Ek; [replace (- Z.abs k) with k by lia|replace (Z.abs k) with k by lia];
    by replace ((-2147483648 <=? k) && (k <=? 2147483647)) with true by lia.
Qed.

(** A number that is an integer is stored as that integer. *)
Lemma num_int_some u k : in_u64 u -> num_int u = Some k -> in_i32 k /\ canon (VNum u) = VNum (num_of_int k) /\ num_isnan u = false.
Proof.
  intros Hu. unfold num_int. destruct (num_iszero u) eqn:Ez.
  { intros [= <-]. split; [unfold in_i32; lia|]. apply num_iszero_iff in Ez as [-> | ->]; [..|done]; vm_compute; done. }
  destruct ((num_exp u =? 0) || (num_exp u =? 2047) || (1075 <=? num_exp u)) eqn:Ee; [done|].
  cbv zeta. destruct (_ mod _ =? 0) eqn:Em; [|done]. destruct ((_ <=? _) && (_ <=? _)) eqn:Er; [|done]. intros [= Hk].
  destruct (num_split u Hu) as (s & Hs & HE & HM & Hn & Hd). set (e := num_exp u) in *. set (m := num_man u) in *.
  set (d := 2 ^ (1075 - e)) in *. assert (0 < d) as Hdp by (apply Z.pow_pos_nonneg; lia).
  set (q := (2 ^ 52 + m) / d) in *.
  assert (2 ^ 52 + m = q * d) as Hq.
  { pose proof (Z.div_mod (2 ^ 52 + m) d). unfold q. lia. }
  rewrite Hn in Hk, Er. assert (0 < q) as Hq0 by nia.
  assert (Z.abs k = q) as Hab by (destruct (s =? 1); lia).
  assert (in_i32 k) as Hki by (unfold in_i32; destruct (s =? 1); lia).
  split; [done|]. assert (u <> 2 ^ 63) as Hz by (intros ->; by rewrite (proj1 (proj2 num_mzero)) in Ez).
  assert (1023 <= e <= 1054) as Her.
  { split.
    - destruct (Z.le_gt_cases 1023 e); [done|exfalso]. assert (2 ^ 53 <= d) by (apply Z.pow_le_mono_r; lia). nia.
    - destruct (Z.le_gt_cases e 1054); [done|exfalso]. assert (d <= 2 ^ 20) by (apply Z.pow_le_mono_r; lia).
      destruct (s =? 1); nia. }
  assert (Z.log2 q = e - 1023) as Hlog.
  { apply Z.log2_unique; [lia|].
    assert (2 ^ 52 = 2 ^ (e - 1023) * d) as E1 by (unfold d; rewrite <- Z.pow_add_r by lia; f_equal; lia).
    assert (2 ^ 53 = 2 ^ Z.succ (e - 1023) * d) as E2 by (unfold d; rewrite <- Z.pow_add_r by lia; f_equal; lia).
    change (2 ^ 53) with (2 * 2 ^ 52) in E2. nia. }
  split.
  - simpl. replace (u =? 2 ^ 63) with false by lia. f_equal. unfold num_of_int.
    replace (k =? 0) with false by lia. rewrite Hab, Hlog.
    replace (52 - (e - 1023)) with (1075 - e) by lia. fold d. destruct (s =? 1) eqn:Es.
    + replace (k <? 0) with true by lia. lia.
    + replace (k <? 0) with false by lia. lia.
  - unfold num_isnan. fold e. by replace (e =? 2047) with false by lia.
Qed.

Lemma num_of_int_inj a b : in_i32 a -> in_i32 b -> num_of_int a = num_of_int b -> a = b.
Proof. intros Ha Hb E. pose proof (num_int_of_int a Ha) as H. rewrite E, num_int_of_int in H by done. congruence. Qed.

(** ** The pairs of a table *)

Definition arr_has (t : GCtab) (k v : TValue) : Prop :=
  v <> VNil /\ exists i, k = VNum (num_of_int i) /\ zget (array t) i = Some v.
Definition has (t : GCtab) (k v : TValue) : Prop := arr_has t k v \/ hash_has (node t) k v.
Definition inarr (t : GCtab) (k : TValue) : Prop := exists i, 0 <= i < asize t /\ k = VNum (num_of_int i).

Record tab_wf (strhash : Z -> Z) (t : GCtab) : Prop := {
  tw_asize : asize t <= LJ_MAX_ASIZE;
  tw_hash : hash_wf strhash t;
  tw_disj : forall z, live (node t) z -> ~ inarr t (key_of (node t) z) }.

(** A number has 64 bits. *)
Definition kvalid (k : TValue) : Prop := match k with VNum u => in_u64 u | _ => True end.

(** The place of a key. *)
Definition slot_of (strhash : Z -> Z) (t : GCtab) (s : slot) (k : TValue) : Prop :=
  match s with
  | SArr i => 0 <= i < asize t /\ k = VNum (num_of_int i)
  | SNode n => slot_for strhash t n k /\ ~ inarr t k
  end.

Lemma canon_canonical k : canonical k -> canon k = k.
Proof. destruct k as [| |u| |]; try done. intros (_ & _ & H). simpl. by apply Z.eqb_neq in H as ->. Qed.

Lemma canon_nil k : canon k = VNil -> k = VNil.
Proof. destruct k as [| |u| |]; try done. simpl. by destruct (u =? _). Qed.

Lemma hash_live l k v : hash_has l k v -> exists z, live l z /\ key_of l z = k /\ val_of l z = v.
Proof. intros [Hv (z & E1 & E2)]. exists z. unfold live. by rewrite E2. Qed.

Lemma live_hash l z : live l z -> hash_has l (key_of l z) (val_of l z).
Proof. intros H. split; [done|eauto]. Qed.

Lemma arr_has_inarr t k v : arr_has t k v -> inarr t k.
Proof. intros [_ (i & E & H)]. exists i. split; [by apply zget_Some_range in H|done]. Qed.

Lemma asize_i32 strhash t i : tab_wf strhash t -> 0 <= i < asize t -> in_i32 i.
Proof.
  intros W Hi. pose proof (tw_asize _ _ W) as H. unfold LJ_MAX_ASIZE, LJ_MAX_ABITS in H.
  change (2 ^ (28 - 1)) with 134217728 in H. unfold in_i32. lia.
Qed.

(** Extensional equality of tables as maps. *)
Definition same_map (t t' : GCtab) : Prop := forall k v, has t' k v <-> has t k v.

#[export] Instance same_map_equiv : Equivalence same_map.
Proof.
  split; unfold same_map.
  - done.
  - intros t t' H k v. by rewrite H.
  - intros t1 t2 t3 H1 H2 k v. by rewrite H2, H1.
Qed.

Section wf.
Context (strhash : Z -> Z) (t : GCtab) (W : tab_wf strhash t).
Abbreviation l := (node t).

Lemma has_in_array i : 0 <= i < asize t -> exists v, zget (array t) i = Some v /\
  forall v', has t (VNum (num_of_int i)) v' <-> v' = v /\ v' <> VNil.
Proof.
  intros Hi. destruct (zget_is_Some (array t) i Hi) as [v Hv]. exists v. split; [done|]. intros v'. split.
  - intros [[Hn (j & E & H)]|H].
    + split; [|done]. apply zget_Some_range in H as Hj. injection E as E.
      apply num_of_int_inj in E as <-; [congruence|by eapply asize_i32..].
    + apply hash_live in H as (z & Hz & E & _). destruct (tw_disj _ _ W z Hz). rewrite E. by exists i.
  - intros [-> Hn]. left. split; [done|eauto].
Qed.

Lemma has_in_hash k : ~ inarr t k -> forall v, has t k v <-> hash_has l k v.
Proof.
  intros Hk v. split; [|by right]. intros [H|H]; [by apply arr_has_inarr in H|done].
Qed.

Lemma slot_read s k : slot_of strhash t s k -> exists v, read t s = TOk v /\
  forall v', has t k v' <-> v' = v /\ v' <> VNil.
Proof.
  destruct s as [i|n]; simpl.
  - intros [Hi ->]. destruct (has_in_array i Hi) as (v & -> & H). by exists v.
  - intros [(H1 & H2 & H3 & _ & _ & H6) Hin]. destruct (zget_is_Some l n H1) as [nd Hnd]. rewrite Hnd; simpl.
    pose proof (get_of _ _ _ Hnd) as (-> & _). exists (val_of l n). split; [done|]. intros v'.
    rewrite has_in_hash by done. split.
    + intros Hh. split; [|apply Hh]. apply hash_live in Hh as (z & Hz & E & <-). by rewrite (H6 z Hz E).
    + intros [-> Hn]. split; [done|]. by exists n.
Qed.

Lemma hash_find key p : ~ inarr t (canon key) -> canon key <> VNil ->
  (forall k', canonical k' -> p k' = true <-> k' = canon key) ->
  exists r, find t p (hashkey strhash t key) = TOk r /\
  match r with
  | Some n => slot_of strhash t (SNode n) (canon key)
  | None => (forall v, ~ has t (canon key) v) /\ (forall z, live l z -> key_of l z <> canon key)
  end.
Proof.
  intros Hin Hk Hp. rewrite <- hashkey_canon.
  destruct (find_spec strhash t (tw_hash _ _ W) p (canon key) Hk Hp) as (r & -> & Hr).
  exists r. split; [done|]. destruct r as [n|]; [by split|]. split; [|done].
  intros v. rewrite has_in_hash by done. intros (z & Hz & E & _)%hash_live. by apply (Hr z).
Qed.

Lemma isint_iff k : in_i32 k -> forall k', canonical k' -> isint k k' = true <-> k' = VNum (num_of_int k).
Proof.
  intros Hk k' Hc. pose proof (num_of_int_canonical k Hk) as Hn. destruct k' as [| |u| |]; try done. simpl.
  rewrite num_eq_canon; [|done|apply Hn]. rewrite (canon_canonical _ Hn). split; [by intros []|]. intros ->.
  split; [done|apply Hn].
Qed.

Lemma isstr_iff r k' : isstr r k' = true <-> k' = VStr r.
Proof. destruct k' as [| | |r'|]; try done. simpl. rewrite Z.eqb_eq. split; congruence. Qed.

Lemma lj_obj_equal_iff key k' : kvalid key -> canonical k' -> lj_obj_equal k' key = true <-> k' = canon key.
Proof.
  intros Hv Hc. destruct key as [|b|u|r|u], k' as [|b'|u'|r'|u']; try done;
    try (simpl; rewrite ?eqb_true_iff, ?Z.eqb_eq; split; congruence);
    try (simpl; destruct (u =? 2 ^ 63); done).
  cbn [lj_obj_equal]. rewrite num_eq_canon by done. split; [by intros []|]. intros E. split; [done|].
  simpl in E. destruct (u =? 2 ^ 63) eqn:E1.
  - apply Z.eqb_eq in E1 as ->. apply num_mzero.
  - injection E as <-. apply Hc.
Qed.

Lemma inarray_iff k : in_i32 k -> if inarray t k then 0 <= k < asize t /\ u32 k = k
  else ~ inarr t (VNum (num_of_int k)).
Proof.
  intros Hk. unfold inarray. pose proof (tw_asize _ _ W) as H. unfold LJ_MAX_ASIZE, LJ_MAX_ABITS in H.
  change (2 ^ (28 - 1)) with 134217728 in H. pose proof (zlen_nonneg (array t)).
  destruct (u32 k <? asize t) eqn:E; [unfold asize in *; width_lia|].
  intros (i & Hi & E1). injection E1 as E1. apply num_of_int_inj in E1 as <-; [|done|by eapply asize_i32].
  width_lia.
Qed.

Lemma not_int_inarr u : in_u64 u -> num_int u = None -> ~ inarr t (canon (VNum u)).
Proof.
  intros Hu Hn (i & Hi & E). simpl in E. destruct (u =? 2 ^ 63) eqn:E1.
  - apply Z.eqb_eq in E1 as ->. clear -Hn. vm_compute in Hn. done.
  - injection E as ->. rewrite num_int_of_int in Hn; [done|by eapply asize_i32].
Qed.

Lemma other_inarr key : (forall u, key <> VNum u) -> ~ inarr t (canon key).
Proof. intros Hk (i & _ & E). destruct key; try done. by eapply Hk. Qed.

(** *** Reading *)

(** The value of a key, nil for none. *)
Definition value_of (k v : TValue) : Prop := forall v', has t k v' <-> v' = v /\ v' <> VNil.

Lemma value_of_none k : (forall v, ~ has t k v) -> value_of k VNil.
Proof. intros H v'. split; [by intros ?%H|by intros [? ?]]. Qed.

Lemma read_found key (r : option Z) :
  match r with
  | Some n => slot_of strhash t (SNode n) (canon key)
  | None => (forall v, ~ has t (canon key) v) /\ (forall z, live l z -> key_of l z <> canon key)
  end ->
  exists v, match option_map SNode r with Some s => read t s | None => TOk VNil end = TOk v /\ value_of (canon key) v.
Proof.
  destruct r as [n|]; [apply slot_read|]. intros [H _]. exists VNil. split; [done|]. by apply value_of_none.
Qed.

Lemma gen_get_spec key : kvalid key -> key <> VNil -> ~ inarr t (canon key) ->
  exists v, (s ← gen_lookup strhash t key; match s with Some s => read t s | None => TOk VNil end) = TOk v /\
  value_of (canon key) v.
Proof.
  intros Hv Hk Hin. unfold gen_lookup.
  destruct (hash_find key (fun k => lj_obj_equal k key)) as (r & -> & Hr);
    [done|by intros ?%canon_nil|by intros; apply lj_obj_equal_iff|].
  by apply read_found.
Qed.

Lemma get_spec key : kvalid key -> exists v, lj_tab_get strhash t key = TOk v /\ value_of (canon key) v.
Proof.
  intros Hv. unfold lj_tab_get. destruct key as [|b|u|r|u].
  - exists VNil. split; [done|]. apply value_of_none. intros v [H|H].
    + by destruct H as [_ (i & ? & _)].
    + apply hash_live in H as (z & Hz & E & _). by apply (live_key strhash t (tw_hash _ _ W)) in E.
  - by apply gen_get_spec; [..|apply other_inarr].
  - destruct (num_int u) as [k|] eqn:Ek.
    + destruct (num_int_some u k Hv Ek) as (Hk & Ec & _). rewrite Ec. unfold lj_tab_getint.
      pose proof (inarray_iff k Hk) as Hin. destruct (inarray t k).
      * destruct Hin as [Hi ->]. cbn [mbind tres_bind]. by apply (slot_read (SArr k)).
      * unfold lj_tab_getinth. pose proof (num_of_int_canonical k Hk) as Hcan.
        destruct (hash_find (VNum (num_of_int k)) (isint k)) as (r & -> & Hr);
          rewrite ?(canon_canonical _ Hcan); [done|done|by apply isint_iff|].
        cbn [mbind tres_bind]. pose proof (read_found (VNum (num_of_int k)) r) as H.
        rewrite (canon_canonical _ Hcan) in Hr, H. by apply H.
    + apply gen_get_spec; [done|done|by apply not_int_inarr].
  - unfold lj_tab_getstr. destruct (hash_find (VStr r) (isstr r)) as (x & -> & Hx);
      [by apply other_inarr|done|by intros; apply isstr_iff|].
    by apply (read_found (VStr r)).
  - by apply gen_get_spec; [..|apply other_inarr].
Qed.

(** *** Finding a place to write *)

(** Either the key has its place, or it is new to the table. *)
Definition place (key : TValue) (newkey : GCtab -> TValue -> tres (GCtab * slot)) (t0 : GCtab) (r : tres (GCtab * slot)) : Prop :=
  (exists s, r = TOk (t0, s) /\ slot_of strhash t s (canon key)) \/
  (exists key', r = newkey t0 key' /\ canon key' = canon key /\ (~ inarr t (canon key)) /\
    forall z, live l z -> key_of l z <> canon key).

Lemma found_place key key' newkey t0 p : ~ inarr t (canon key) -> canon key <> VNil -> canon key' = canon key ->
  (forall k', canonical k' -> p k' = true <-> k' = canon key) ->
  node t0 = l -> hashkey strhash t0 key' = hashkey strhash t key ->
  place key newkey t0 (x ← find t0 p (hashkey strhash t0 key');
    match x with Some n => TOk (t0, SNode n) | None => newkey t0 key' end).
Proof.
  intros H1 H2 H3 H4 E1 E2. rewrite E2. unfold find. rewrite E1. change (chain_find (S (length l)) l p) with (find t p).
  destruct (hash_find key p H1 H2 H4) as (r & -> & Hr). cbn [mbind tres_bind].
  destruct r as [n|]; [left; by exists (SNode n)|right]. exists key'. by destruct Hr.
Qed.

Lemma set_spec newkey key : kvalid key -> key <> VNil -> (forall u, key = VNum u -> num_isnan u = false) ->
  place key newkey (with_nomm t 0) (lj_tab_set strhash newkey t key).
Proof.
  intros Hv Hk Hnan. unfold lj_tab_set.
  assert (canon key <> VNil) as Hck by (by intros ?%canon_nil).
  assert (forall key, key <> VNil -> kvalid key -> ~ inarr t (canon key) -> place key newkey (with_nomm t 0)
    (gen_set strhash newkey (with_nomm t 0) key)) as Hgen.
  { intros key0 Hk0 Hv0 Hin. apply found_place; try done; [by intros ?%canon_nil|]. intros. by apply lj_obj_equal_iff. }
  destruct key as [|b|u|r|u]; [done|by apply Hgen; [..|apply other_inarr]| | |by apply Hgen; [..|apply other_inarr]].
  - destruct (num_int u) as [k|] eqn:Ek.
    + destruct (num_int_some u k Hv Ek) as (Hi & Ec & _). unfold lj_tab_setint.
      pose proof (inarray_iff k Hi) as Hin. change (inarray (with_nomm t 0) k) with (inarray t k).
      destruct (inarray t k).
      * left. exists (SArr k). destruct Hin as [Hin ->]. by rewrite Ec.
      * apply found_place; try done.
        -- by rewrite Ec.
        -- by rewrite (canon_canonical _ (num_of_int_canonical k Hi)).
        -- rewrite Ec. by apply isint_iff.
        -- rewrite <- (hashkey_canon strhash t (VNum u)), Ec. done.
    + rewrite (Hnan u eq_refl). apply Hgen; [done|done|by apply not_int_inarr].
  - apply found_place; try done; [by apply other_inarr|]. intros. apply isstr_iff.
Qed.

(** [lj_tab_setinth] for an index behind the array. *)
Lemma setinth_spec newkey i : in_i32 i -> ~ inarr t (VNum (num_of_int i)) ->
  place (VNum (num_of_int i)) newkey t (lj_tab_setinth strhash newkey t i).
Proof.
  intros Hi Hin. pose proof (canon_canonical _ (num_of_int_canonical i Hi)) as Ec.
  apply found_place; rewrite ?Ec; try done. by apply isint_iff.
Qed.
End wf.

Lemma set_nil strhash newkey t : lj_tab_set strhash newkey t VNil = TErr NILIDX.
Proof. done. Qed.

Lemma set_nan strhash newkey t u : in_u64 u -> num_isnan u = true -> lj_tab_set strhash newkey t (VNum u) = TErr NANIDX.
Proof.
  intros Hu Hn. unfold lj_tab_set. destruct (num_int u) as [k|] eqn:E; [|by rewrite Hn].
  destruct (num_int_some u k Hu E) as (_ & _ & ?). congruence.
Qed.

Lemma hash_wf_same strhash t t' : node t' = node t -> freetop t' = freetop t ->
  hash_wf strhash t -> hash_wf strhash t'.
Proof.
  intros E1 E2 []. assert (hashkey strhash t' = hashkey strhash t) as EH by (apply hashkey_size; by rewrite E1).
  constructor; rewrite ?E1, ?E2, ?EH; done.
Qed.

(** ** Storing *)
Section store.
Context (strhash : Z -> Z) (t : GCtab) (W : tab_wf strhash t).


Abbreviation stored t' k v := (forall k' v',
  has t' k' v' <-> (k' = k /\ v' = v /\ v <> VNil) \/ (k' <> k /\ has t k' v')).

Lemma store_array i v : 0 <= i < asize t -> exists t', store t (SArr i) v = TOk t' /\ tab_wf strhash t' /\
  asize t' = asize t /\ node t' = node t /\ stored t' (VNum (num_of_int i)) v.
Proof.
  intros Hi. simpl. destruct (zset_is_Some (array t) i v Hi) as [a E]. rewrite E; simpl.
  exists (with_array t a). assert (zlen a = asize t) as EL by (by eapply zset_length).
  split; [done|]. split; [|split; [done|split; [done|]]].
  - destruct W as [W1 W2 W3]. split; unfold inarr, asize in *; simpl; rewrite ?EL; try done.
    by apply (hash_wf_same strhash t).
  - intros k' v'. unfold has, arr_has. simpl. split.
    + intros [[Hn (j & -> & H)]|H].
      * destruct (Z.eq_dec j i) as [->|Hj].
        -- rewrite (zget_zset_eq _ _ _ _ E) in H. left. by simplify_eq.
        -- rewrite (zget_zset_ne _ _ _ _ _ E) in H by congruence. right.
           split; [|left; split; [done|eauto]]. intros [= Eq]. apply zget_Some_range in H as Hr.
           apply num_of_int_inj in Eq; [done|by eapply asize_i32..].
      * right. split; [|by right]. intros ->. apply hash_live in H as (z & Hz & Ez & _).
        destruct (tw_disj _ _ W z Hz). rewrite Ez. by exists i.
    + intros [(-> & -> & Hn)|[Hne [[Hn (j & -> & H)]|H]]].
      * left. split; [done|]. exists i. split; [done|by eapply zget_zset_eq].
      * left. split; [done|]. exists j. split; [done|]. rewrite (zget_zset_ne _ _ _ _ _ E); congruence.
      * by right.
Qed.

Lemma store_node n k v : slot_for strhash t n k -> ~ inarr t k -> exists t', store t (SNode n) v = TOk t' /\
  tab_wf strhash t' /\ array t' = array t /\ zlen (node t') = zlen (node t) /\ key_of (node t') = key_of (node t) /\
  stored t' k v.
Proof.
  intros (S1 & S2 & S3 & S4 & S5 & S6) Hin.
  destruct (upd_node_of (node t) n (fun nd => MkNode v (n_key nd) (n_next nd)) S1)
    as (nd & l' & Hnd & E & EL & EK & EV & EX).
  pose proof (get_of _ _ _ Hnd) as (_ & G2 & G3). simpl in EK, EV, EX.
  rewrite G2, kupd_same in EK. rewrite G3, kupd_same in EX.
  exists (with_node t l'). simpl. unfold upd_node in E. rewrite Hnd in E |- *; simpl in *.
  destruct (zset (node t) n _) as [l''|]; [|done]. injection E as ->. cbn [chk mbind tres_bind].
  assert (hashkey strhash (with_node t l') = hashkey strhash t) as EH by (by apply hashkey_size).
  assert (forall z, live l' z -> z = n \/ live (node t) z) as Hlv.
  { intros z. unfold live. rewrite EV. unfold upd. case_decide; [by left|by right]. }
  split; [done|]. split; [|do 3 (split; [done|])].
  - destruct W as [W1 W2 W3]. split; [done| |].
    + constructor; simpl; rewrite ?EL, ?EK, ?EX, ?EH; try apply W2.
      * intros z Hz. rewrite EV. unfold upd. case_decide; [subst; congruence|by apply W2].
      * intros Hs. destruct (hw_single _ _ _ W2 Hs) as [H _]. exfalso. apply S3. rewrite <- S2.
        assert (n = 0) as -> by lia. by rewrite H.
      * intros z [->|Hz]%Hlv; [done|by apply W2].
    + simpl. rewrite EK. intros z [->|Hz]%Hlv; [by rewrite S2|by apply W3].
  - intros k' v'. unfold has. change (arr_has (with_node t l')) with (arr_has t). simpl. unfold hash_has. rewrite EK, EV.
    split.
    + intros [H|[Hn (z & Ez & H)]].
      * right. split; [|by left]. intros ->. by apply arr_has_inarr in H.
      * unfold upd in H. case_decide as Ezn.
        -- left. subst. done.
        -- right. split; [|right; eauto]. intros ->. apply Ezn. apply S6; [|done]. unfold live. congruence.
    + intros [(-> & -> & Hn)|[Hne [H|[Hn (z & Ez & H)]]]].
      * right. split; [done|]. exists n. by rewrite kupd_eq.
      * by left.
      * right. split; [done|]. exists z. rewrite kupd_ne; [done|]. intros ->. congruence.
Qed.

Lemma store_spec s k v : slot_of strhash t s k -> exists t', store t s v = TOk t' /\ tab_wf strhash t' /\
  asize t' = asize t /\ zlen (node t') = zlen (node t) /\ key_of (node t') = key_of (node t) /\ stored t' k v.
Proof.
  destruct s as [i|n].
  - intros [Hi ->]. destruct (store_array i v Hi) as (t' & E1 & E2 & E3 & E4 & E5). exists t'.
    rewrite E4. done.
  - intros [Hs Hin]. destruct (store_node n k v Hs Hin) as (t' & E1 & E2 & E3 & E4 & E5 & E6). exists t'.
    unfold asize. rewrite E3. done.
Qed.
End store.

(** *** A new key *)

Lemma newkey_wf strhash t t' n k : tab_wf strhash t -> inserted strhash t t' n k -> ~ inarr t k ->
  tab_wf strhash t' /\ slot_of strhash t' (SNode n) k /\ same_map t t' /\ asize t' = asize t.
Proof.
  intros W (I1 & I2 & I3 & I4 & I5 & I6 & I7 & I8) Hin.
  assert (forall k, inarr t' k <-> inarr t k) as Ein by (intros k'; unfold inarr, asize; by rewrite I1).
  split; [|split; [|split]].
  - split; [unfold asize; rewrite I1; apply W|done|]. intros z Hz. rewrite Ein.
    pose proof (live_hash _ _ Hz) as Hh. rewrite I7 in Hh. apply hash_live in Hh as (z' & Hz' & <- & _). by apply W.
  - split; [done|]. by rewrite Ein.
  - intros k' v'. unfold has, arr_has. by rewrite I1, I7.
  - unfold asize. by rewrite I1.
Qed.
End TabMap.
