(* ===== verification/LjTabRehash.v ===== *)
(** * LjTabRehash

    Resizing a Lua table.  Reinserting the pairs into parts of the computed
    sizes never meets a full hash part again, so the nesting of
    [lj_tab_newkey], [rehashtab] and [lj_tab_resize] is at most one deep. *)
From stdpp Require Import base tactics numbers list relations.
From Stdlib Require Import ZArith Lia FunctionalExtensionality.
From S2P Require Import Prelude LjTab LjTabHash LjTabKey LjTabMap.
Import Tab TabHash TabKey TabMap.
Open Scope Z_scope.

Module TabRehash.

(** ** Insertion without a rehash *)

(** The keys that go to an array of [n] slots. *)
Definition inb (n : Z) (k : TValue) : bool :=
  match k with
  | VNum u => match num_int u with Some i => (0 <=? i) && (i <? n) | None => false end
  | _ => false
  end.

Lemma inb_iff strhash t k : tab_wf strhash t -> canonical k -> inb (asize t) k = true <-> inarr t k.
Proof.
  intros W Hc. split.
  - destruct k as [| |u| |]; try done. cbn [inb]. destruct (num_int u) as [i|] eqn:E; [|done]. intros Hi.
    exists i. split; [lia|]. destruct (num_int_some u i) as (_ & E' & _); [apply Hc|done|].
    by rewrite canon_canonical in E'.
  - intros (i & Hi & ->). cbn [inb]. rewrite num_int_of_int by (by eapply asize_i32). lia.
Qed.

Lemma inb_canon n k : inb n (canon k) = inb n k.
Proof.
  destruct k as [| |u| |]; try done. cbn [canon]. destruct (u =? 2 ^ 63) eqn:E; [|done].
  apply Z.eqb_eq in E as ->. unfold inb. assert (num_int (2 ^ 63) = num_int 0) as -> by (vm_compute; done). done.
Qed.

(** How many keys the hash part can take. *)
Definition cap (t : GCtab) : Z := if zlen (node t) =? 1 then 0 else zlen (node t).
Definition nkeyed (t : GCtab) : Z := zlen (keyed (node t)).
Definition hashbound (n : Z) (ps : list (TValue * TValue)) : Z :=
  zlen (filter (fun p => inb n p.1 = false) ps).

(** The pairs [ps] have been added. *)
Record grown (strhash : Z -> Z) (t t' : GCtab) (ps : list (TValue * TValue)) : Prop := {
  gr_wf : tab_wf strhash t';
  gr_asize : asize t' = asize t;
  gr_nodes : zlen (node t') = zlen (node t);
  gr_keys : nkeyed t' <= nkeyed t + hashbound (asize t) ps;
  gr_has : forall k v, has t' k v <-> has t k v \/ (k, v) ∈ ps }.

Lemma hashbound_cons n p ps : hashbound n (p :: ps) = hashbound n [p] + hashbound n ps.
Proof.
  unfold hashbound, zlen. rewrite (filter_app _ [p] ps : filter _ (p :: ps) = _), length_app. lia.
Qed.

Lemma hashbound_app n ps qs : hashbound n (ps ++ qs) = hashbound n ps + hashbound n qs.
Proof. unfold hashbound, zlen. rewrite filter_app, length_app. lia. Qed.

Lemma hashbound_nonneg n ps : 0 <= hashbound n ps.
Proof. apply zlen_nonneg. Qed.

Lemma grown_nil strhash t : tab_wf strhash t -> grown strhash t t [].
Proof.
  intros W. constructor; try done; [unfold hashbound; simpl; unfold zlen; simpl; lia|].
  intros k v. split; [by left|]. by intros [|?%not_elem_of_nil].
Qed.

Lemma grown_app strhash t1 t2 t3 ps qs :
  grown strhash t1 t2 ps -> grown strhash t2 t3 qs -> grown strhash t1 t3 (ps ++ qs).
Proof.
  intros [A1 A2 A3 A4 A5] [B1 B2 B3 B4 B5]. constructor; try done; try congruence.
  - rewrite hashbound_app. rewrite A2 in B4. lia.
  - intros k v. rewrite B5, A5, elem_of_app. tauto.
Qed.

Lemma grown_cap strhash t t' ps : grown strhash t t' ps -> cap t' = cap t.
Proof. intros G. unfold cap. by rewrite (gr_nodes _ _ _ _ G). Qed.

(** The same table but for the metamethod cache. *)
Definition same_parts (t t' : GCtab) : Prop := array t' = array t /\ node t' = node t /\ freetop t' = freetop t.

Lemma same_parts_wf strhash t t' : same_parts t t' -> tab_wf strhash t -> tab_wf strhash t'.
Proof.
  intros (E1 & E2 & E3) [W1 W2 W3]. split.
  - unfold asize. by rewrite E1.
  - by apply (hash_wf_same strhash t).
  - unfold inarr, asize. by rewrite E1, E2.
Qed.

Lemma same_parts_slot strhash t t' s k : same_parts t t' -> slot_of strhash t s k -> slot_of strhash t' s k.
Proof.
  intros (E1 & E2 & E3). assert (hashkey strhash t' = hashkey strhash t) as EH by (apply hashkey_size; by rewrite E2).
  destruct s; simpl; unfold slot_for, inarr, asize; by rewrite ?E1, ?E2, ?EH.
Qed.

Lemma same_parts_has t t' k v : same_parts t t' -> has t' k v <-> has t k v.
Proof. intros (E1 & E2 & _). unfold has, arr_has. by rewrite E1, E2. Qed.

Section step.
Context (strhash : Z -> Z) (told : TValue -> TValue -> Prop).
Context (Hfun : forall k v v', told k v -> told k v' -> v = v').

Abbreviation newkey0 := (lj_tab_newkey strhash 0).

Lemma newkey0_spec t key : tab_wf strhash t -> canonical (canon key) -> canon key <> VNil -> ~ inarr t (canon key) ->
  (forall z, live (node t) z -> key_of (node t) z <> canon key) -> nkeyed t < cap t ->
  exists t' m, newkey0 t key = TOk (t', SNode m) /\ inserted strhash t t' m (canon key).
Proof.
  intros W Hc Hk Hin Hnew Hcap.
  destruct (newkey_body_spec strhash t (tw_hash _ _ W) key Hk Hc Hnew (fun _ _ => TFuel)) as [[_ [Hf|Hf]]|H]; [| |done];
    unfold nkeyed, cap in Hcap; exfalso.
  - rewrite Hf in Hcap. simpl in Hcap. pose proof (zlen_nonneg (keyed (node t))). lia.
  - case_match; pose proof (zlen_nonneg (keyed (node t))); lia.
Qed.

(** One more pair. *)
Lemma insert_step t t0 key v r : tab_wf strhash t -> same_parts t t0 ->
  canonical (canon key) -> canon key <> VNil -> v <> VNil ->
  (forall k v, has t k v -> told k v) -> told (canon key) v ->
  nkeyed t + hashbound (asize t) [(canon key, v)] <= cap t ->
  place strhash t key newkey0 t0 r ->
  exists t', (x ← r; store x.1 x.2 v) = TOk t' /\ grown strhash t t' [(canon key, v)].
Proof.
  intros W HS Hc Hk Hv Htold Hkv Hcap Hp. pose proof (same_parts_wf _ _ _ HS W) as W0.
  assert (forall t2 t', (forall k v, has t2 k v <-> has t k v) ->
    (forall k' v', has t' k' v' <-> k' = canon key /\ v' = v /\ v <> VNil \/ k' <> canon key /\ has t2 k' v') ->
    forall k' v', has t' k' v' <-> has t k' v' \/ (k', v') ∈ [(canon key, v)]) as Hhas.
  { intros t2 t' H1 H2 k' v'. rewrite H2, H1, list_elem_of_singleton. split.
    - intros [(-> & -> & _)|[_ H]]; [by right|by left].
    - intros [H|[= -> ->]]; [|by left]. destruct (decide (k' = canon key)) as [->|Hne]; [left|by right].
      split; [done|]. split; [|done]. eapply Hfun; [by apply Htold|done]. }
  destruct Hp as [(s & -> & Hs)|(key' & -> & Ek & Hin & Hnew)].
  - cbn [mbind tres_bind fst snd]. apply (same_parts_slot _ _ _ _ _ HS) in Hs.
    destruct (store_spec strhash t0 W0 s (canon key) v Hs) as (t' & -> & W' & E1 & E2 & E3 & E4).
    exists t'. split; [done|]. destruct HS as (S1 & S2 & S3). constructor; try done.
    + rewrite E1. unfold asize. by rewrite S1.
    + by rewrite E2, S2.
    + unfold nkeyed, keyed. rewrite E2, E3, S2. pose proof (hashbound_nonneg (asize t) [(canon key, v)]). lia.
    + apply (Hhas t0); [|done]. intros. by apply same_parts_has.
  - assert (inb (asize t) (canon key) = false) as Hinb.
    { destruct (inb _ _) eqn:E; [|done]. by apply (inb_iff strhash) in E. }
    assert (hashbound (asize t) [(canon key, v)] = 1) as Hb.
    { unfold hashbound. rewrite filter_cons_True by done. done. }
    rewrite Hb in Hcap. pose proof HS as (S1 & S2 & S3).
    assert (~ inarr t0 (canon key)) as Hin0 by (unfold inarr, asize; by rewrite S1).
    destruct (newkey0_spec t0 key') as (t1 & m & E & HI); rewrite ?Ek, ?S2; try done.
    { unfold nkeyed, cap in *. rewrite S2. lia. }
    rewrite E. cbn [mbind tres_bind fst snd]. rewrite Ek in HI.
    destruct (newkey_wf strhash t0 t1 m (canon key) W0 HI Hin0) as (W1 & Hs & Hm & Ha).
    destruct HI as (_ & _ & I3 & _ & _ & _ & _ & I8).
    destruct (store_spec strhash t1 W1 (SNode m) (canon key) v Hs) as (t' & -> & W' & E1 & E2 & E3 & E4).
    exists t'. split; [done|]. constructor; try done.
    + rewrite E1, Ha. unfold asize. by rewrite S1.
    + by rewrite E2, I3, S2.
    + unfold nkeyed, keyed in *. rewrite E2, E3, Hb. rewrite S2 in I8. lia.
    + apply (Hhas t1); [|done]. intros k' v'. rewrite (Hm k' v'). by apply same_parts_has.
Qed.

(** *** The loops of [lj_tab_resize] *)

Fixpoint arr_pairs (i : Z) (l : list TValue) : list (TValue * TValue) :=
  match l with
  | [] => []
  | v :: l => (if tvisnil v then [] else [(VNum (num_of_int i), v)]) ++ arr_pairs (i + 1) l
  end.

Fixpoint node_pairs (l : list Node) : list (TValue * TValue) :=
  match l with
  | [] => []
  | n :: l => (if tvisnil (n_val n) then [] else [(n_key n, n_val n)]) ++ node_pairs l
  end.

Lemma tvisnil_iff v : tvisnil v = true <-> v = VNil.
Proof. by destruct v. Qed.

(** What a loop needs of the pairs that are still to come. *)
Definition fits (t : GCtab) (ps : list (TValue * TValue)) : Prop :=
  tab_wf strhash t /\ (forall k v, has t k v -> told k v) /\ (forall k v, (k, v) ∈ ps -> told k v) /\
  nkeyed t + hashbound (asize t) ps <= cap t.

Lemma fits_app t t' ps qs : fits t (ps ++ qs) -> grown strhash t t' ps -> fits t' qs.
Proof.
  intros (F1 & F2 & F3 & F4) G. split; [apply G|]. split; [|split].
  - intros k v. rewrite (gr_has _ _ _ _ G). intros [H|H]; [by apply F2|apply F3, elem_of_app; by left].
  - intros k v H. apply F3, elem_of_app. by right.
  - rewrite (grown_cap _ _ _ _ G), (gr_asize _ _ _ _ G). pose proof (gr_keys _ _ _ _ G).
    rewrite hashbound_app in F4. lia.
Qed.

Lemma fits_l t ps qs : fits t (ps ++ qs) -> fits t ps.
Proof.
  intros (F1 & F2 & F3 & F4). split; [done|]. split; [done|]. split.
  - intros k v H. apply F3, elem_of_app. by left.
  - rewrite hashbound_app in F4. pose proof (hashbound_nonneg (asize t) qs). lia.
Qed.

(** A loop round: skip a nil, else insert. *)
Lemma insert_round t t0 key v r : fits t (if tvisnil v then [] else [(canon key, v)]) ->
  (v <> VNil -> same_parts t t0 /\ canonical (canon key) /\ canon key <> VNil /\ place strhash t key newkey0 t0 r) ->
  exists t', (if tvisnil v then TOk t else x ← r; store x.1 x.2 v) = TOk t' /\
  grown strhash t t' (if tvisnil v then [] else [(canon key, v)]).
Proof.
  intros F Hv. destruct (tvisnil v) eqn:E.
  - exists t. split; [done|]. by apply grown_nil, F.
  - assert (v <> VNil) as Hn by (intros ->; done). destruct (Hv Hn) as (H1 & H2 & H3 & H4).
    destruct F as (F1 & F2 & F3 & F4). apply (insert_step t t0); try done. apply F3. by apply list_elem_of_singleton.
Qed.

Lemma reinsert_array_spec l : forall t i, asize t <= i -> i + zlen l <= LJ_MAX_ASIZE -> fits t (arr_pairs i l) ->
  exists t', reinsert_array strhash newkey0 t i l = TOk t' /\ grown strhash t t' (arr_pairs i l).
Proof.
  induction l as [|v l IH]; intros t i Hi Hl F; cbn [reinsert_array arr_pairs] in *.
  - exists t. split; [done|]. by apply grown_nil, F.
  - rewrite zlen_cons in Hl. pose proof (zlen_nonneg l). pose proof (zlen_nonneg (array t)).
    assert (in_i32 i) as Hi32.
    { unfold LJ_MAX_ASIZE, LJ_MAX_ABITS in Hl. change (2 ^ (28 - 1)) with 134217728 in Hl.
      unfold in_i32, asize in *. lia. }
    pose proof (num_of_int_canonical i Hi32) as Hcan. pose proof (canon_canonical _ Hcan) as Ec.
    destruct (insert_round t t (VNum (num_of_int i)) v (lj_tab_setinth strhash newkey0 t i)) as (t1 & E1 & G1);
      rewrite ?Ec.
    { by apply fits_l in F. }
    { intros _. split; [done|]. split; [done|]. split; [done|]. apply setinth_spec; [by apply F|done|].
      intros (j & Hj & E). injection E as E. apply num_of_int_inj in E as ->; [lia|done|].
      eapply asize_i32; [by apply F|lia]. }
    rewrite E1. cbn [mbind tres_bind]. rewrite Ec in G1.
    destruct (IH t1 (i + 1)) as (t' & -> & G2); [rewrite (gr_asize _ _ _ _ G1); lia|lia|by eapply fits_app|].
    exists t'. split; [done|]. by eapply grown_app.
Qed.

Lemma reinsert_nodes_spec l : (forall n, n ∈ l -> n_val n <> VNil -> canonical (n_key n) /\ n_key n <> VNil) ->
  forall t, fits t (node_pairs l) ->
  exists t', reinsert_nodes strhash newkey0 t l = TOk t' /\ grown strhash t t' (node_pairs l).
Proof.
  induction l as [|n l IH]; intros Hl t F; cbn [reinsert_nodes node_pairs] in *.
  - exists t. split; [done|]. by apply grown_nil, F.
  - assert (n_val n <> VNil -> canonical (n_key n) /\ n_key n <> VNil) as Hn by (apply Hl; left).
    assert ((if tvisnil (n_val n) then [] else [(canon (n_key n), n_val n)]) =
      (if tvisnil (n_val n) then [] else [(n_key n, n_val n)])) as Ec.
    { destruct (tvisnil (n_val n)) eqn:E; [done|]. rewrite canon_canonical; [done|]. apply Hn. intros E'. by rewrite E' in E. }
    destruct (insert_round t (with_nomm t 0) (n_key n) (n_val n) (lj_tab_set strhash newkey0 t (n_key n))) as (t1 & E1 & G1).
    { rewrite Ec. by apply fits_l in F. }
    { intros Hv. destruct (Hn Hv) as [Hc Hk]. rewrite (canon_canonical _ Hc). split; [done|]. split; [done|]. split; [done|].
      apply set_spec; [apply F|..|done|].
      - destruct (n_key n); try done. apply Hc.
      - intros u E. rewrite E in Hc. apply Hc. }
    rewrite E1. cbn [mbind tres_bind]. rewrite Ec in G1.
    destruct (IH) with (t := t1) as (t' & -> & G2); [intros n' Hn'; apply Hl; by right|by eapply fits_app|].
    exists t'. split; [done|]. by eapply grown_app.
Qed.
End step.

(** ** [lj_tab_resize] *)

Lemma arr_pairs_elem l : forall i k v, (k, v) ∈ arr_pairs i l <->
  v <> VNil /\ exists j, k = VNum (num_of_int (i + j)) /\ zget l j = Some v.
Proof.
  induction l as [|x l IH]; intros i k v; cbn [arr_pairs].
  - split; [by intros ?%not_elem_of_nil|]. intros [_ (j & _ & H)].
    apply zget_Some_range in H. change (zlen (@nil TValue)) with 0 in H. lia.
  - rewrite elem_of_app, IH. split.
    + intros [H|[Hv (j & -> & H)]].
      * destruct (tvisnil x) eqn:E; [by apply not_elem_of_nil in H|]. apply list_elem_of_singleton in H as [= -> ->].
        split; [by intros ->|]. exists 0. by rewrite Z.add_0_r.
      * split; [done|]. exists (j + 1). apply zget_Some_range in H as Hj. split; [do 2 f_equal; lia|].
        rewrite zget_cons_pos by lia. by replace (j + 1 - 1) with j by lia.
    + intros [Hv (j & -> & H)]. apply zget_Some_range in H as Hj. destruct (Z.eq_dec j 0) as [->|Hj0].
      * left. rewrite zget_cons_0 in H. injection H as ->. rewrite Z.add_0_r.
        destruct (tvisnil v) eqn:E; [by apply tvisnil_iff in E|]. by apply list_elem_of_singleton.
      * right. split; [done|]. exists (j - 1). rewrite zget_cons_pos in H by lia. split; [do 2 f_equal; lia|done].
Qed.

Lemma node_pairs_elem l k v : (k, v) ∈ node_pairs l <-> hash_has l k v.
Proof.
  assert ((k, v) ∈ node_pairs l <-> v <> VNil /\ exists n, n ∈ l /\ n_key n = k /\ n_val n = v) as ->.
  { induction l as [|n l IH]; cbn [node_pairs].
    - split; [by intros ?%not_elem_of_nil|]. by intros [_ (n & ?%not_elem_of_nil & _)].
    - rewrite elem_of_app, IH. split.
      + intros [H|[Hv (m & Hm & H)]].
        * destruct (tvisnil (n_val n)) eqn:E; [by apply not_elem_of_nil in H|].
          apply list_elem_of_singleton in H as [= -> ->]. split; [by intros E'; rewrite E' in E|].
          exists n. split; [left|done].
        * split; [done|]. exists m. split; [by right|done].
      + intros [Hv (m & Hm & <- & <-)]. apply elem_of_cons in Hm as [->|Hm]; [left|right; eauto].
        destruct (tvisnil (n_val n)) eqn:E; [by apply tvisnil_iff in E|]. by apply list_elem_of_singleton. }
  unfold hash_has. split; intros [Hv H]; (split; [done|]).
  - destruct H as (n & Hn & E1 & E2). apply list_elem_of_lookup in Hn as (j & Hj).
    exists (Z.of_nat j). unfold key_of, val_of, zget.
    assert ((Z.of_nat j <? 0) = false) as -> by (apply Z.ltb_ge; apply Nat2Z.is_nonneg).
    by rewrite Nat2Z.id, Hj.
  - destruct H as (z & E1 & E2). unfold key_of, val_of in *. destruct (zget l z) as [n|] eqn:E; simpl in *; [|by subst].
    exists n. split; [|done]. unfold zget in E. destruct (z <? 0); [done|]. by eapply list_elem_of_lookup_2.
Qed.

Lemma has_pairs t k v : has t k v <-> (k, v) ∈ arr_pairs 0 (array t) ++ node_pairs (node t).
Proof. rewrite elem_of_app, node_pairs_elem, arr_pairs_elem. done. Qed.

(** An empty hash part. *)
Lemma nilnodes_of n : key_of (replicate n nilnode) = (fun _ => VNil) /\ val_of (replicate n nilnode) = (fun _ => VNil) /\
  nx_of (replicate n nilnode) = (fun _ => None).
Proof.
  assert (forall z, zget (replicate n nilnode) z = None \/ zget (replicate n nilnode) z = Some nilnode) as H.
  { intros z. unfold zget. destruct (z <? 0); [by left|]. destruct (replicate n nilnode !! Z.to_nat z) eqn:E; [|by left].
    apply lookup_replicate in E as [-> _]. by right. }
  split; [|split]; apply functional_extensionality; intros z; unfold key_of, val_of, nx_of;
    destruct (H z) as [-> | ->]; done.
Qed.

Lemma fresh_wf strhash t b : 0 <= b <= LJ_MAX_HBITS -> node t = replicate (Z.to_nat (2 ^ b)) nilnode ->
  freetop t = (if b =? 0 then 0 else 2 ^ b) -> asize t <= LJ_MAX_ASIZE ->
  tab_wf strhash t /\ nkeyed t = 0 /\ zlen (node t) = 2 ^ b /\ forall k v, ~ hash_has (node t) k v.
Proof.
  intros Hb En Ef Ha. destruct (nilnodes_of (Z.to_nat (2 ^ b))) as (EK & EV & EX). rewrite <- En in EK, EV, EX.
  assert (0 < 2 ^ b) as Hp by (apply Z.pow_pos_nonneg; lia).
  assert (zlen (node t) = 2 ^ b) as EL by (rewrite En, zlen_replicate; lia).
  assert (forall z, ~ live (node t) z) as Hlv by (intros z H; apply H; by rewrite EV).
  split; [split; [done| |by intros z Hz; destruct (Hlv z Hz)]|split; [|split; [done|]]].
  - constructor; rewrite ?EL, ?EK, ?EV, ?EX; try done.
    + by exists b.
    + rewrite Ef. destruct (b =? 0); lia.
    + intros a H. inversion H; done.
    + intros z Hs Hz Hr. rewrite Ef in Hr. destruct (b =? 0) eqn:E; [|lia]. apply Z.eqb_eq in E as ->. done.
    + intros Hone. assert (b = 0) as -> by (destruct (Z.eq_dec b 0) as [|Hb0]; [done|];
        pose proof (Z.pow_gt_1 2 b); lia). rewrite Ef, En. done.
    + intros z Hz. by destruct (Hlv z Hz).
  - unfold nkeyed. destruct (keyed (node t)) as [|x ks] eqn:E; [done|exfalso].
    assert (x ∈ keyed (node t)) as Hx by (rewrite E; left). apply list_elem_of_filter in Hx as [Hx _].
    apply Hx. by rewrite EK.
  - intros k v (z & Hz & _)%hash_live. by apply Hlv in Hz.
Qed.

Section resize.
Context (strhash : Z -> Z) (t : GCtab) (W : tab_wf strhash t).
Abbreviation newkey0 := (lj_tab_newkey strhash 0).

Lemma has_fun k v v' : has t k v -> has t k v' -> v = v'.
Proof.
  intros [H1|H1] H2.
  - apply arr_has_inarr in H1 as Hin. destruct Hin as (i & Hi & ->).
    destruct (has_in_array strhash t W i Hi) as (x & _ & Hx).
    assert (v = x) as -> by (apply Hx; by left). symmetry. by apply Hx.
  - apply hash_live in H1 as (z & Hz & <- & <-). destruct H2 as [H2|H2].
    + apply arr_has_inarr in H2. by destruct (tw_disj _ _ W z Hz).
    + apply hash_live in H2 as (z' & Hz' & E & <-).
      by rewrite (live_unique (live (node t)) (key_of (node t)) (hashkey strhash t) (nx_of (node t))
        (hw_ok _ _ _ (tw_hash _ _ W)) z z' Hz Hz' (eq_sym E)).
Qed.

(** The pairs that move, and the part of the array that stays. *)
Definition moving (sz : Z) : list (TValue * TValue) :=
  arr_pairs sz (drop (Z.to_nat sz) (array t)) ++ node_pairs (node t).

Lemma nodes_stored n : n ∈ node t -> n_val n <> VNil -> canonical (n_key n) /\ n_key n <> VNil.
Proof.
  intros Hn Hv. apply list_elem_of_lookup in Hn as (j & Hj).
  assert (zget (node t) (Z.of_nat j) = Some n) as E.
  { unfold zget. assert ((Z.of_nat j <? 0) = false) as -> by (apply Z.ltb_ge, Nat2Z.is_nonneg). by rewrite Nat2Z.id. }
  apply get_of in E as (E1 & E2 & _). rewrite E1 in Hv. rewrite E2. split; [apply W|].
  intros E. apply Hv. by apply W.
Qed.

Definition kept (sz : Z) : list TValue :=
  if asize t <? sz then array t ++ replicate (Z.to_nat (sz - asize t)) VNil else take (Z.to_nat sz) (array t).

Lemma kept_has sz k v : 0 <= sz ->
  has t k v <-> (v <> VNil /\ exists i, k = VNum (num_of_int i) /\ zget (kept sz) i = Some v) \/ (k, v) ∈ moving sz.
Proof.
  intros Hsz. rewrite has_pairs. unfold moving. rewrite !elem_of_app, !arr_pairs_elem.
  assert (forall v, v <> VNil -> (exists i, k = VNum (num_of_int (0 + i)) /\ zget (array t) i = Some v) <->
    (exists i, k = VNum (num_of_int i) /\ zget (kept sz) i = Some v) \/
    (exists j, k = VNum (num_of_int (sz + j)) /\ zget (drop (Z.to_nat sz) (array t)) j = Some v)) as H.
  { clear v. intros v Hv. unfold kept. destruct (asize t <? sz) eqn:E; unfold asize in E.
    - rewrite drop_ge by (unfold zlen in E; lia). split.
      + intros (i & -> & Hi). left. exists i. split; [done|]. apply zget_Some_range in Hi as Hr.
        by rewrite zget_app_l by lia.
      + intros [(i & -> & Hi)|(j & _ & Hj)]; [|apply zget_Some_range in Hj; change (zlen (@nil TValue)) with 0 in Hj; lia].
        exists i. split; [done|]. destruct (Z.lt_ge_cases i (zlen (array t))); [by rewrite zget_app_l in Hi by lia|].
        exfalso. rewrite zget_app_r in Hi by lia. unfold zget in Hi. destruct (_ <? 0); [done|].
        by apply lookup_replicate in Hi as [? _].
    - assert (array t = take (Z.to_nat sz) (array t) ++ drop (Z.to_nat sz) (array t)) as Ea by (by rewrite take_drop).
      assert (zlen (take (Z.to_nat sz) (array t)) = sz) as El by (unfold zlen in *; rewrite length_take; lia).
      revert Ea El. generalize (take (Z.to_nat sz) (array t)) (drop (Z.to_nat sz) (array t)). intros a1 a2 -> El. split.
      + intros (i & -> & Hi). destruct (Z.lt_ge_cases i sz).
        * left. exists i. by rewrite zget_app_l in Hi by lia.
        * right. exists (i - sz). rewrite zget_app_r, El in Hi by lia. split; [do 2 f_equal; lia|done].
      + intros [(i & -> & Hi)|(j & -> & Hj)].
        * exists i. split; [done|]. apply zget_Some_range in Hi as Hr. by rewrite zget_app_l by lia.
        * exists (sz + j). split; [done|]. apply zget_Some_range in Hj as Hr.
          rewrite zget_app_r, El by lia. by replace (sz + j - sz) with j by lia. }
  split.
  - intros [[Hv Hi]|Hi]; [|by right; right]. apply H in Hi as [Hi|Hi]; [by left|by right; left|done].
  - intros [[Hv Hi]|[[Hv Hi]|Hi]]; [left; split; [done|]..|by right]; apply H; eauto.
Qed.

(** The table that receives the pairs. *)
Definition emptied (sz hbits : Z) : GCtab :=
  MkTab (nomm t) (kept sz) (replicate (Z.to_nat (2 ^ hbits)) nilnode) (if hbits =? 0 then 0 else 2 ^ hbits).

Lemma kept_len sz : 0 <= sz -> zlen (kept sz) = sz.
Proof.
  intros Hsz. unfold kept, asize. destruct (_ <? _) eqn:E.
  - rewrite zlen_app, zlen_replicate. lia.
  - unfold zlen in *. rewrite length_take. lia.
Qed.

Lemma resize_eq newkey sz hbits : 0 <= sz <= LJ_MAX_ASIZE -> 0 <= hbits <= LJ_MAX_HBITS ->
  lj_tab_resize strhash newkey t sz hbits =
  (t2 ← reinsert_array strhash newkey (emptied sz hbits) sz (drop (Z.to_nat sz) (array t));
   reinsert_nodes strhash newkey t2 (node t)).
Proof.
  intros Hsz Hb.
  assert (forall t2, (if 0 <? hmask t then reinsert_nodes strhash newkey t2 (node t) else TOk t2) =
    reinsert_nodes strhash newkey t2 (node t)) as Hn.
  { intros t2. destruct (0 <? hmask t) eqn:E; [done|]. pose proof (size_cases strhash t (tw_hash _ _ W)).
    destruct (hw_single _ _ _ (tw_hash _ _ W)) as [-> _]; [unfold hmask in E; lia|done]. }
  unfold lj_tab_resize, emptied, kept.
  assert (forall t1, (if hbits =? 0 then TOk (nohpart t1) else newhpart t1 hbits) =
    TOk (MkTab (nomm t1) (array t1) (replicate (Z.to_nat (2 ^ hbits)) nilnode) (if hbits =? 0 then 0 else 2 ^ hbits))) as Hh.
  { intros t1. unfold nohpart, newhpart. destruct (hbits =? 0) eqn:E; [by apply Z.eqb_eq in E as ->|].
    by replace (LJ_MAX_HBITS <? hbits) with false by lia. }
  destruct (asize t <? sz) eqn:E1.
  - replace (LJ_MAX_ASIZE <? sz) with false by lia. cbn [mbind tres_bind]. rewrite Hh. cbn [mbind tres_bind].
    replace (sz <? asize t) with false by lia. cbn [mbind tres_bind]. rewrite Hn.
    rewrite drop_ge by (unfold asize, zlen in E1; lia). done.
  - cbn [mbind tres_bind]. rewrite Hh. cbn [mbind tres_bind]. destruct (sz <? asize t) eqn:E2.
    + unfold with_array. cbn [nomm node freetop].
      destruct (reinsert_array _ _ _ _ _); cbn [mbind tres_bind]; [apply Hn|done..].
    + cbn [mbind tres_bind]. rewrite Hn. unfold asize, zlen in E1, E2.
      rewrite drop_ge, take_ge by lia. done.
Qed.

Lemma resize_spec sz hbits : 0 <= sz <= LJ_MAX_ASIZE -> 0 <= hbits <= LJ_MAX_HBITS ->
  hashbound sz (moving sz) <= (if hbits =? 0 then 0 else 2 ^ hbits) ->
  exists t', lj_tab_resize strhash newkey0 t sz hbits = TOk t' /\ tab_wf strhash t' /\ same_map t t' /\
  asize t' = sz /\ zlen (node t') = 2 ^ hbits /\ nkeyed t' <= hashbound sz (moving sz).
Proof.
  intros Hsz Hb Hfit. rewrite resize_eq by done. pose proof (kept_len sz (proj1 Hsz)) as HK.
  destruct (fresh_wf strhash (emptied sz hbits) hbits) as (W0 & N0 & L0 & H0); try done.
  { unfold asize. simpl. lia. }
  assert (asize (emptied sz hbits) = sz) as A0 by done.
  assert (fits strhash (has t) (emptied sz hbits) (moving sz)) as F0.
  { split; [done|]. split; [|split].
    - intros k v [H|H]; [|by apply H0 in H]. apply (kept_has sz); [lia|]. by left.
    - intros k v H. apply (kept_has sz); [lia|]. by right.
    - rewrite N0, A0. unfold cap. rewrite L0. destruct (hbits =? 0) eqn:E.
      + apply Z.eqb_eq in E as ->. change (2 ^ 0 =? 1) with true. cbn iota. lia.
      + pose proof (Z.pow_gt_1 2 hbits). replace (2 ^ hbits =? 1) with false by lia. lia. }
  assert (zlen (drop (Z.to_nat sz) (array t)) <= Z.max 0 (asize t - sz)) as HD.
  { unfold asize, zlen. rewrite length_drop. lia. }
  destruct (reinsert_array_spec strhash (has t) has_fun (drop (Z.to_nat sz) (array t)) (emptied sz hbits) sz)
    as (t1 & -> & G1); [lia| |by apply fits_l in F0|].
  { pose proof (tw_asize _ _ W). lia. }
  cbn [mbind tres_bind].
  destruct (reinsert_nodes_spec strhash (has t) has_fun (node t) nodes_stored t1) as (t2 & -> & G2).
  { by eapply fits_app. }
  pose proof (grown_app _ _ _ _ _ _ G1 G2) as [G3 G4 G5 G6 G7]. exists t2. split; [done|]. split; [done|].
  split; [|split; [congruence|split; [congruence|rewrite N0, A0 in G6; unfold moving; lia]]].
  intros k v. rewrite G7, (kept_has sz k v) by lia. split.
  - intros [[H|H]|H]; [by left|by apply H0 in H|by right].
  - intros [H|H]; [left; by left|by right].
Qed.
End resize.

(** ** Counting *)

Definition binof (k : Z) : Z := if 2 <? k then lj_fls (k - 1) else 0.
Definition inbin (K : list Z) (b : Z) : Z := zlen (filter (fun k => binof k = b) K).
Definition below (K : list Z) (n : Z) : Z := zlen (filter (fun k => k < n) K).

(** The bins count the keys [K]. *)
Definition bins_of (K : list Z) (bins : list Z) : Prop :=
  zlen bins = LJ_MAX_ABITS /\ forall b, 0 <= b < LJ_MAX_ABITS -> zget bins b = Some (inbin K b).

(** Keys that may go to an array part. *)
Definition countable (K : list Z) : Prop := (forall k, k ∈ K -> 0 <= k < LJ_MAX_ASIZE) /\ zlen K < 2 ^ 31.

Lemma binof_le k b : 0 <= k -> 0 <= b -> binof k <= b <-> k <= 2 ^ (b + 1).
Proof.
  intros Hk Hb. unfold binof, lj_fls. destruct (2 <? k) eqn:E.
  - rewrite <- Z.lt_succ_r, <- Z.log2_lt_pow2 by lia. unfold Z.succ. lia.
  - split; [|lia]. intros _. transitivity (2 ^ 1); [lia|]. apply Z.pow_le_mono_r; lia.
Qed.

Lemma binof_nonneg k : 0 <= binof k.
Proof. unfold binof. case_match; [apply Z.log2_nonneg|lia]. Qed.

Lemma binof_range k : 0 <= k < LJ_MAX_ASIZE -> 0 <= binof k <= 26.
Proof.
  intros Hk. split; [apply binof_nonneg|].
  apply binof_le; [lia|lia|]. unfold LJ_MAX_ASIZE, LJ_MAX_ABITS in Hk. change (28 - 1) with 27 in Hk. change (26 + 1) with 27. lia.
Qed.

Lemma inbin_app K L b : inbin (K ++ L) b = inbin K b + inbin L b.
Proof. unfold inbin, zlen. rewrite filter_app, length_app. lia. Qed.

Lemma below_app K L n : below (K ++ L) n = below K n + below L n.
Proof. unfold below, zlen. rewrite filter_app, length_app. lia. Qed.

Lemma filter_le {A} (P : A -> Prop) `{forall x, Decision (P x)} (l : list A) : zlen (filter P l) <= zlen l.
Proof. unfold zlen. pose proof (length_filter P l). lia. Qed.

Lemma inbin_le K b : 0 <= inbin K b <= zlen K.
Proof. split; [apply zlen_nonneg|apply filter_le]. Qed.

(** [bins[b] += n] for [n] keys of bin [b]. *)
Lemma bins_add_spec K L bins b : bins_of K bins -> 0 <= b < LJ_MAX_ABITS -> (forall k, k ∈ L -> binof k = b) ->
  zlen K + zlen L < 2 ^ 31 -> exists bins', bins_add bins b (zlen L) = TOk bins' /\ bins_of (K ++ L) bins'.
Proof.
  intros [HL Hb] Hr HLb Hs. unfold bins_add. rewrite (Hb b Hr); cbn [chk mbind tres_bind].
  pose proof (inbin_le K b). pose proof (zlen_nonneg L).
  rewrite u32_small by (unfold in_u32; lia).
  destruct (zset_is_Some bins b (inbin K b + zlen L)) as [bins' E]; [lia|]. rewrite E. exists bins'. split; [done|].
  split; [by rewrite (zset_length _ _ _ _ E)|]. intros c Hc. rewrite inbin_app.
  assert (inbin L c = if decide (c = b) then zlen L else 0) as ->.
  { unfold inbin. clear -HLb. induction L as [|k L IH]; [by case_decide|].
    rewrite filter_cons. assert (binof k = b) as Ek by (apply HLb; left).
    assert (forall k, k ∈ L -> binof k = b) as HLb' by (intros; apply HLb; by right). specialize (IH HLb').
    repeat case_decide; rewrite ?zlen_cons; try lia. }
  case_decide as Ec.
  - subst c. by rewrite (zget_zset_eq _ _ _ _ E).
  - rewrite (zget_zset_ne _ _ _ _ _ E) by congruence. rewrite Hb by done. f_equal. lia.
Qed.

(** The integer keys an entry contributes. *)
Definition intkeys (key : TValue) : list Z :=
  match key with
  | VNum u => match num_int u with Some k => if u32 k <? LJ_MAX_ASIZE then [k] else [] | None => [] end
  | _ => []
  end.

Lemma num_int_range u k : num_int u = Some k -> in_i32 k.
Proof.
  unfold num_int, in_i32. cbv zeta. intros H.
  destruct (num_iszero u); [injection H as <-; lia|].
  destruct (_ || _ || _); [done|]. destruct (_ mod _ =? 0); [|done].
  destruct ((_ <=? _) && (_ <=? _)) eqn:Er; [|done]. injection H as <-. destruct (num_neg u); lia.
Qed.

Lemma max_asize : LJ_MAX_ASIZE = 134217729.
Proof. done. Qed.

Lemma intkeys_range key k : k ∈ intkeys key -> 0 <= k < LJ_MAX_ASIZE.
Proof.
  unfold intkeys. destruct key as [| |u| |]; try by intros ?%not_elem_of_nil.
  destruct (num_int u) as [i|] eqn:E; [|by intros ?%not_elem_of_nil]. apply num_int_range in E.
  destruct (u32 i <? LJ_MAX_ASIZE) eqn:Ei; [|by intros ?%not_elem_of_nil].
  intros ->%list_elem_of_singleton. rewrite max_asize in *. width_lia.
Qed.

Lemma intkeys_len key : zlen (intkeys key) <= 1.
Proof.
  unfold intkeys. destruct key as [| |u| |]; try done. destruct (num_int u) as [i|]; [|done].
  by destruct (_ <? _).
Qed.

Lemma countint_spec key K bins : bins_of K bins -> zlen K + 1 < 2 ^ 31 ->
  exists bins', countint key bins = TOk (bins', zlen (intkeys key)) /\ bins_of (K ++ intkeys key) bins'.
Proof.
  intros HB HK. unfold countint. destruct (intkeys key) as [|k L] eqn:E.
  - exists bins. rewrite app_nil_r. split; [|done]. unfold intkeys in E.
    destruct key as [| |u| |]; try done. destruct (num_int u); [|done]. by destruct (_ <? _).
  - assert (0 <= k < LJ_MAX_ASIZE) as Hk by (apply (intkeys_range key); rewrite E; left).
    unfold intkeys in E. destruct key as [| |u| |]; try done. destruct (num_int u) as [i|]; [|done].
    destruct (u32 i <? LJ_MAX_ASIZE); [|done]. injection E as -> <-. pose proof (binof_range k Hk).
    destruct (bins_add_spec K [k] bins (binof k)) as (bins' & E1 & H1); [done|unfold LJ_MAX_ABITS; lia| |done|].
    { by intros k' ->%list_elem_of_singleton. }
    unfold binof in E1. change (zlen [k]) with 1 in E1. rewrite E1. cbn [mbind tres_bind]. eauto.
Qed.

(** *** The array part *)

Fixpoint akeys (i : Z) (l : list TValue) : list Z :=
  match l with
  | [] => []
  | v :: l => (if tvisnil v then [] else [i]) ++ akeys (i + 1) l
  end.

Lemma akeys_app l1 : forall i l2, akeys i (l1 ++ l2) = akeys i l1 ++ akeys (i + zlen l1) l2.
Proof.
  induction l1 as [|v l1 IH]; intros i l2; cbn [akeys app].
  - change (zlen (@nil TValue)) with 0. by rewrite Z.add_0_r.
  - rewrite IH, <- app_assoc, zlen_cons. do 3 f_equal. lia.
Qed.

Lemma akeys_range l : forall i k, k ∈ akeys i l -> i <= k < i + zlen l.
Proof.
  induction l as [|v l IH]; intros i k; cbn [akeys]; [by intros ?%not_elem_of_nil|].
  rewrite elem_of_app, zlen_cons. pose proof (zlen_nonneg l) as Hz. intros [H|H].
  - destruct (tvisnil v); [by apply not_elem_of_nil in H|]. apply list_elem_of_singleton in H. lia.
  - apply IH in H. lia.
Qed.

Lemma akeys_len l i : zlen (akeys i l) <= zlen l.
Proof.
  revert i. induction l as [|v l IH]; intros i; cbn [akeys]; [done|]. rewrite zlen_app, zlen_cons.
  specialize (IH (i + 1)). destruct (tvisnil v); unfold zlen in *; simpl in *; lia.
Qed.

Definition seg {A} (l : list A) (i n : Z) : list A := take (Z.to_nat n) (drop (Z.to_nat i) l).

Lemma seg_cons {A} (l : list A) i n v : zget l i = Some v -> 0 < n -> seg l i n = v :: seg l (i + 1) (n - 1).
Proof.
  intros E Hn. apply zget_Some_range in E as Hi. unfold zget in E.
  destruct (i <? 0) eqn:Ei; [lia|]. unfold seg.
  rewrite (drop_S _ _ _ E). replace (Z.to_nat n) with (S (Z.to_nat (n - 1))) by lia.
  replace (Z.to_nat (i + 1)) with (S (Z.to_nat i)) by lia. done.
Qed.

Lemma count_slots_spec l n : forall i, 0 <= i -> i + Z.of_nat n <= zlen l ->
  count_slots l i n = TOk (zlen (akeys i (seg l i (Z.of_nat n)))).
Proof.
  induction n as [|n IH]; intros i Hi Hn; cbn [count_slots].
  - unfold seg. by rewrite take_0.
  - destruct (zget_is_Some l i) as [v Hv]; [lia|]. rewrite Hv. cbn [chk mbind tres_bind].
    rewrite IH by lia. cbn [mbind tres_bind]. rewrite (seg_cons _ _ _ _ Hv) by lia. cbn [akeys].
    replace (Z.of_nat (S n) - 1) with (Z.of_nat n) by lia. rewrite zlen_app. f_equal.
    destruct (tvisnil v); [change (zlen (@nil Z)) with 0; lia|change (zlen [i]) with 1; lia].
Qed.

Lemma take_seg {A} (l : list A) i n : 0 <= i -> 0 <= n ->
  take (Z.to_nat (i + n)) l = take (Z.to_nat i) l ++ seg l i n.
Proof.
  intros Hi Hn. unfold seg. rewrite take_take_drop. f_equal. lia.
Qed.

Lemma take_zlen {A} (l : list A) : take (Z.to_nat (zlen l)) l = l.
Proof. unfold zlen. rewrite Nat2Z.id. apply firstn_all. Qed.

Lemma zlen_take {A} (l : list A) i : 0 <= i <= zlen l -> zlen (take (Z.to_nat i) l) = i.
Proof. intros H. unfold zlen in *. rewrite length_take. lia. Qed.

Lemma zlen_seg {A} (l : list A) i n : 0 <= i -> 0 <= n -> i + n <= zlen l -> zlen (seg l i n) = n.
Proof. intros. unfold seg, zlen in *. rewrite length_take, length_drop. lia. Qed.

Lemma countarray_loop_spec l : 0 < zlen l <= LJ_MAX_ASIZE -> forall k b i bins, Z.of_nat k + b = LJ_MAX_ABITS -> 0 <= b ->
  i = Z.min (zlen l) (if b =? 0 then 0 else 2 ^ b + 1) -> bins_of (akeys 0 (take (Z.to_nat i) l)) bins ->
  exists bins', countarray_loop k l b i (zlen (akeys 0 (take (Z.to_nat i) l))) bins = TOk (bins', zlen (akeys 0 l)) /\
  bins_of (akeys 0 l) bins'.
Proof.
  intros Hl. rewrite max_asize in Hl. induction k as [|k IH]; intros b i bins Hb Hb0 Hi HB; cbn [countarray_loop].
  - unfold LJ_MAX_ABITS in Hb. assert (b = 28) as -> by lia. change (28 =? 0) with false in Hi. cbn iota in Hi.
    change (2 ^ 28 + 1) with 268435457 in Hi. assert (i = zlen l) as -> by lia.
    rewrite take_zlen in *. eauto.
  - assert (Z.shiftl 2 b = 2 ^ (b + 1)) as -> by (rewrite Z.shiftl_mul_pow2, Z.pow_add_r by lia; lia).
    assert (0 < 2 ^ b) as Hp by (apply Z.pow_pos_nonneg; lia).
    assert (2 ^ (b + 1) = 2 * 2 ^ b) as Hp1 by (rewrite Z.pow_add_r by lia; lia).
    destruct ((zlen l <=? 2 ^ (b + 1)) && _) eqn:Ebr.
    { apply andb_true_iff in Ebr as [E1 E2]. rewrite E1 in E2. assert (i = zlen l) as -> by lia.
      rewrite take_zlen in *. eauto. }
    set (top := if zlen l <=? 2 ^ (b + 1) then zlen l - 1 else 2 ^ (b + 1)) in *.
    assert (i <= top + 1 <= zlen l) as Ht.
    { unfold top in *. destruct (zlen l <=? 2 ^ (b + 1)) eqn:E; destruct (b =? 0) eqn:Eb; lia. }
    assert (0 <= i) as Hi0 by (destruct (b =? 0); lia).
    rewrite count_slots_spec by lia. cbn [mbind tres_bind]. rewrite Z2Nat.id by lia.
    set (S := seg l i (top + 1 - i)).
    assert (akeys 0 (take (Z.to_nat (top + 1)) l) = akeys 0 (take (Z.to_nat i) l) ++ akeys i S) as HS.
    { replace (top + 1) with (i + (top + 1 - i)) at 1 by lia. rewrite take_seg by lia. rewrite akeys_app.
      rewrite zlen_take by lia. done. }
    pose proof (akeys_len (take (Z.to_nat (top + 1)) l) 0) as HLen. rewrite HS in HLen.
    rewrite zlen_take, zlen_app in HLen by lia.
    destruct (bins_add_spec (akeys 0 (take (Z.to_nat i) l)) (akeys i S) bins b) as (bins1 & -> & HB1); try done.
    { unfold LJ_MAX_ABITS in *. lia. }
    { intros j Hj. apply akeys_range in Hj. unfold S in Hj. rewrite zlen_seg in Hj by lia.
      assert (j <= 2 ^ (b + 1)) as Hjt.
      { unfold top in *. destruct (zlen l <=? 2 ^ (b + 1)) eqn:E; lia. }
      apply Z.le_antisymm; [apply binof_le; lia|].
      destruct (b =? 0) eqn:Eb; [assert (b = 0) as -> by lia; apply binof_nonneg|].
      destruct (Z.le_gt_cases b (binof j)) as [|Hlt]; [done|exfalso].
      assert (binof j <= b - 1) as Hbj by lia. apply binof_le in Hbj; [|lia|lia].
      replace (b - 1 + 1) with b in Hbj by lia. lia. }
    { lia. }
    cbn [mbind tres_bind]. rewrite <- HS in HB1. rewrite <- zlen_app, <- HS.
    rewrite <- zlen_app, <- HS in HLen.
    rewrite u32_small by (pose proof (zlen_nonneg (akeys 0 (take (Z.to_nat (top + 1)) l))); unfold in_u32; lia).
    apply IH; [lia|lia| |done]. unfold top. replace (b + 1 =? 0) with false by lia. clear -Ht Hp1 Hi Hb0 Hp.
    destruct (zlen l <=? 2 ^ (b + 1)) eqn:E; lia.
Qed.

Lemma bins_of_nil : bins_of [] (replicate (Z.to_nat LJ_MAX_ABITS) 0).
Proof.
  split; [done|]. intros b Hb. destruct (zget_is_Some (replicate (Z.to_nat LJ_MAX_ABITS) 0) b) as [x E]; [done|].
  rewrite E. unfold zget in E. destruct (b <? 0); [done|]. by apply lookup_replicate in E as [-> _].
Qed.

Lemma countarray_spec t : asize t <= LJ_MAX_ASIZE -> exists bins',
  countarray t (replicate (Z.to_nat LJ_MAX_ABITS) 0) = TOk (bins', zlen (akeys 0 (array t))) /\
  bins_of (akeys 0 (array t)) bins'.
Proof.
  intros Ha. unfold countarray. pose proof bins_of_nil as HB. destruct (asize t =? 0) eqn:E.
  - assert (array t = []) as ->; [|eauto]. unfold asize, zlen in E. destruct (array t); [done|simpl in E; lia].
  - pose proof (zlen_nonneg (array t)).
    destruct (countarray_loop_spec (array t)) with (k := Z.to_nat LJ_MAX_ABITS) (b := 0) (i := 0)
      (bins := replicate (Z.to_nat LJ_MAX_ABITS) 0) as (bins' & E1 & H1); try done;
      [unfold asize in *; lia|simpl; lia|eauto].
Qed.

(** *** The hash part *)

Fixpoint node_ints (l : list Node) : list Z :=
  match l with
  | [] => []
  | n :: l => (if tvisnil (n_val n) then [] else intkeys (n_key n)) ++ node_ints l
  end.

Lemma node_lens l : zlen (node_ints l) <= zlen (node_pairs l) <= zlen l.
Proof.
  induction l as [|n l IH]; cbn [node_ints node_pairs]; [done|]. rewrite !zlen_app, zlen_cons.
  pose proof (intkeys_len (n_key n)). destruct (tvisnil (n_val n)); [change (zlen (@nil Z)) with 0; change (zlen (@nil (TValue * TValue))) with 0|
    change (zlen [(n_key n, n_val n)]) with 1]; lia.
Qed.

Lemma node_ints_range l k : k ∈ node_ints l -> 0 <= k < LJ_MAX_ASIZE.
Proof.
  induction l as [|n l IH]; cbn [node_ints]; [by intros ?%not_elem_of_nil|]. rewrite elem_of_app.
  intros [H|H]; [|by apply IH]. destruct (tvisnil (n_val n)); [by apply not_elem_of_nil in H|]. by eapply intkeys_range.
Qed.

Lemma counthash_spec l : forall K bins na total, bins_of K bins -> 0 <= na -> 0 <= total ->
  zlen K + zlen l < 2 ^ 31 -> na + zlen l < 2 ^ 31 -> total + zlen l < 2 ^ 31 -> exists bins',
  counthash l bins na total = TOk (bins', na + zlen (node_ints l), total + zlen (node_pairs l)) /\
  bins_of (K ++ node_ints l) bins'.
Proof.
  induction l as [|n l IH]; intros K bins na total HB Hna Ht H1 H2 H3; cbn [counthash node_ints node_pairs].
  - exists bins. change (zlen (@nil Z)) with 0. change (zlen (@nil (TValue * TValue))) with 0.
    rewrite !Z.add_0_r, app_nil_r. done.
  - rewrite zlen_cons in H1, H2, H3. pose proof (zlen_nonneg l). pose proof (zlen_nonneg K).
    destruct (tvisnil (n_val n)); [by apply IH; try lia|].
    destruct (countint_spec (n_key n) K bins HB) as (bins1 & -> & HB1); [lia|]. cbn [mbind tres_bind fst snd].
    pose proof (intkeys_len (n_key n)). pose proof (zlen_nonneg (intkeys (n_key n))).
    rewrite !u32_small by (unfold in_u32; lia).
    destruct (IH (K ++ intkeys (n_key n)) bins1 (na + zlen (intkeys (n_key n))) (total + 1)) as (bins2 & -> & HB2);
      rewrite ?zlen_app; try lia; [done|].
    exists bins2. rewrite app_assoc. split; [|done]. change (zlen [(n_key n, n_val n)]) with 1.
    do 2 f_equal; [f_equal|]; lia.
Qed.

(** *** The size of the array part *)

Lemma below_step K b : (forall k, k ∈ K -> 0 <= k) -> 0 <= b ->
  below K (2 ^ (b + 1) + 1) = (if b =? 0 then 0 else below K (2 ^ b + 1)) + inbin K b.
Proof.
  intros HK Hb. unfold below, inbin. induction K as [|k K IH]; [by destruct (b =? 0)|].
  assert (0 <= k) as Hk by (apply HK; left). specialize (IH (fun k' H => HK k' (list_elem_of_further _ _ _ H))).
  rewrite !filter_cons. pose proof (binof_le k b Hk Hb) as B1. pose proof (binof_nonneg k).
  destruct (b =? 0) eqn:Eb.
  - assert (b = 0) as -> by lia. repeat case_decide; rewrite ?zlen_cons; lia.
  - pose proof (binof_le k (b - 1) Hk) as B2. replace (b - 1 + 1) with b in B2 by lia. specialize (B2 ltac:(lia)).
    repeat case_decide; rewrite ?zlen_cons; lia.
Qed.

Lemma below_all K n : (forall k, k ∈ K -> k < n) -> below K n = zlen K.
Proof.
  intros HK. unfold below. induction K as [|k K IH]; [done|]. rewrite filter_cons_True by (apply HK; left).
  rewrite !zlen_cons, IH; [done|]. intros k' Hk'. apply HK. by right.
Qed.

Lemma below_none K n : (forall k, k ∈ K -> n <= k) -> below K n = 0.
Proof.
  intros HK. unfold below. induction K as [|k K IH]; [done|]. rewrite filter_cons_False.
  - apply IH. intros k' Hk'. apply HK. by right.
  - specialize (HK k (list_elem_of_here _ _)). lia.
Qed.

Lemma below_le K n : 0 <= below K n <= zlen K.
Proof. split; [apply zlen_nonneg|apply filter_le]. Qed.

(** The array takes the keys below its size, and they fill a quarter of it. *)
Definition good_size (K : list Z) (sz na : Z) : Prop :=
  0 <= sz <= LJ_MAX_ASIZE /\ na = below K sz /\ (sz = 0 \/ sz - 1 < 4 * na).

Lemma inbin_small K b : (forall k, k ∈ K -> 0 <= k < LJ_MAX_ASIZE) -> 0 < inbin K b -> b <= 26.
Proof.
  intros HK. unfold inbin. destruct (filter _ K) as [|k L] eqn:E; [change (zlen (@nil Z)) with 0; lia|]. intros _.
  assert (k ∈ filter (fun k => binof k = b) K) as Hk by (rewrite E; left).
  apply list_elem_of_filter in Hk as [<- Hk]. by apply binof_range, HK.
Qed.

Lemma bestasize_loop_spec K bins : bins_of K bins -> countable K -> forall fuel b sz na, 0 <= b <= 28 ->
  (29 <= Z.of_nat fuel + b) -> good_size K sz na ->
  exists sz' na', bestasize_loop fuel bins (zlen K) b (if b =? 0 then 0 else below K (2 ^ b + 1)) sz na = TOk (sz', na') /\
  good_size K sz' na'.
Proof.
  intros [HBl HB] [HK HL]. induction fuel as [|fuel IH]; intros b sz na Hb Hf HG; [lia|]. cbn [bestasize_loop].
  set (sum := if b =? 0 then 0 else below K (2 ^ b + 1)).
  assert (0 <= sum <= zlen K) as Hsum by (unfold sum; pose proof (below_le K (2 ^ b + 1)); pose proof (zlen_nonneg K); destruct (b =? 0); lia).
  rewrite Z.shiftl_1_l. rewrite (u32_small (2 * zlen K)) by (unfold in_u32; lia).
  destruct ((2 ^ b <? 2 * zlen K) && negb (sum =? zlen K)) eqn:Ec; [|eauto].
  assert (b < 28) as Hb28.
  { destruct (Z.eq_dec b 28) as [->|]; [|lia]. exfalso. assert (sum = zlen K); [|lia]. unfold sum.
    change (28 =? 0) with false. cbn iota. apply below_all. intros k Hk. specialize (HK k Hk).
    rewrite max_asize in HK. change (2 ^ 28) with 268435456. lia. }
  rewrite HB by (unfold LJ_MAX_ABITS; lia). cbn [chk mbind tres_bind].
  assert (below K (2 ^ (b + 1) + 1) = sum + inbin K b) as Hst by (apply below_step; [intros k Hk; by apply HK|lia]).
  pose proof (below_le K (2 ^ (b + 1) + 1)) as Hle. pose proof (inbin_le K b).
  assert ((if b + 1 =? 0 then 0 else below K (2 ^ (b + 1) + 1)) = sum + inbin K b) as Hs1
    by (replace (b + 1 =? 0) with false by lia; done).
  destruct (0 <? inbin K b) eqn:Ex.
  - rewrite !u32_small by (unfold in_u32; rewrite ?u32_small by (unfold in_u32; lia); lia).
    destruct (2 ^ b <? 2 * (sum + inbin K b)) eqn:Ed; rewrite <- Hs1; (apply IH; [lia|lia|]); [|done].
    rewrite Hs1. rewrite Z.shiftl_mul_pow2 by lia. replace (2 * 2 ^ b) with (2 ^ (b + 1)) by (rewrite Z.pow_add_r by lia; lia).
    assert (b <= 26) as Hb26 by (apply (inbin_small K b HK); lia).
    assert (2 ^ (b + 1) = 2 * 2 ^ b) as Hp1 by (rewrite Z.pow_add_r by lia; lia).
    split; [|split].
    + assert (2 ^ (b + 1) <= 2 ^ 27) as Hpm by (apply Z.pow_le_mono_r; lia).
      assert (0 < 2 ^ (b + 1)) by (apply Z.pow_pos_nonneg; lia). rewrite max_asize.
      change (2 ^ 27) with 134217728 in Hpm. lia.
    + lia.
    + right. lia.
  - assert (inbin K b = 0) as H0 by lia. rewrite H0, Z.add_0_r in Hs1. rewrite <- Hs1. apply IH; [lia|lia|done].
Qed.

Lemma bestasize_spec K bins : bins_of K bins -> countable K -> exists sz na,
  bestasize bins (zlen K) = TOk (sz, na) /\ good_size K sz na.
Proof.
  intros HB HK. apply (bestasize_loop_spec K bins HB HK 33 0 0 0); [lia|lia|]. split; [rewrite max_asize; lia|].
  split; [|by left]. symmetry. apply below_none. intros k Hk. by apply HK.
Qed.

(** ** The rehash *)

Lemma inb_below key sz : sz <= LJ_MAX_ASIZE -> below (intkeys key) sz = if inb sz key then 1 else 0.
Proof.
  intros Hsz. rewrite max_asize in Hsz. unfold intkeys, inb. destruct key as [| |u| |]; try done.
  destruct (num_int u) as [k|] eqn:E; [|done]. apply num_int_range in E. rewrite max_asize.
  destruct ((0 <=? k) && (k <? sz)) eqn:Ei.
  - replace (u32 k <? 134217729) with true by width_lia. apply below_all. intros k' ->%list_elem_of_singleton. lia.
  - destruct (u32 k <? 134217729) eqn:Eu; [|done]. apply below_none. intros k' ->%list_elem_of_singleton. width_lia.
Qed.

Lemma node_hashbound l sz : sz <= LJ_MAX_ASIZE ->
  hashbound sz (node_pairs l) = zlen (node_pairs l) - below (node_ints l) sz.
Proof.
  intros Hsz. induction l as [|n l IH]; cbn [node_pairs node_ints]; [done|].
  rewrite hashbound_app, below_app, zlen_app, IH. destruct (tvisnil (n_val n)); [done|].
  rewrite inb_below by done. unfold hashbound. rewrite filter_cons, filter_nil. cbn [fst].
  change (zlen [(n_key n, n_val n)]) with 1. destruct (inb sz (n_key n)); simpl.
  - change (zlen (@nil (TValue * TValue))) with 0. lia.
  - change (zlen [(n_key n, n_val n)]) with 1. lia.
Qed.

Lemma arr_pairs_len l : forall i, zlen (arr_pairs i l) = zlen (akeys i l).
Proof.
  induction l as [|v l IH]; intros i; cbn [arr_pairs akeys]; [done|]. rewrite !zlen_app, IH.
  by destruct (tvisnil v).
Qed.

Lemma arr_hashbound l sz : 0 <= sz ->
  hashbound sz (arr_pairs sz (drop (Z.to_nat sz) l)) <= zlen (akeys 0 l) - below (akeys 0 l) sz.
Proof.
  intros Hsz. transitivity (zlen (akeys sz (drop (Z.to_nat sz) l))).
  - rewrite <- arr_pairs_len. apply filter_le.
  - destruct (Z.le_gt_cases (zlen l) sz) as [Hle|Hlt].
    + rewrite drop_ge by (unfold zlen in Hle; lia). pose proof (below_le (akeys 0 l) sz).
      change (zlen (akeys sz [])) with 0. lia.
    + assert (akeys 0 l = akeys 0 (take (Z.to_nat sz) l) ++ akeys sz (drop (Z.to_nat sz) l)) as ->.
      { rewrite <- (take_drop (Z.to_nat sz) l) at 1. rewrite akeys_app. rewrite zlen_take by lia. done. }
      rewrite below_app, zlen_app. rewrite (below_none (akeys sz _)).
      * pose proof (below_le (akeys 0 (take (Z.to_nat sz) l)) sz). lia.
      * intros k Hk. apply akeys_range in Hk. lia.
Qed.

Lemma hsize2hbits_fits n : 0 <= n -> 0 <= hsize2hbits n /\
  n <= (if hsize2hbits n =? 0 then 0 else 2 ^ hsize2hbits n) /\ (LJ_MAX_HBITS < hsize2hbits n -> 2 ^ 26 < n).
Proof.
  intros Hn. unfold hsize2hbits, lj_fls, LJ_MAX_HBITS. destruct (n =? 0) eqn:E0; [simpl; lia|].
  destruct (n =? 1) eqn:E1; [change (1 =? 0) with false; change (2 ^ 1) with 2; lia|].
  pose proof (Z.log2_nonneg (n - 1)). replace (1 + Z.log2 (n - 1) =? 0) with false by lia.
  pose proof (Z.log2_spec (n - 1)) as Hs. split; [lia|]. split.
  - replace (1 + Z.log2 (n - 1)) with (Z.succ (Z.log2 (n - 1))) by lia. lia.
  - intros Hl. assert (2 ^ 26 <= 2 ^ Z.log2 (n - 1)) by (apply Z.pow_le_mono_r; lia). lia.
Qed.

(** The number of pairs of a table. *)
Definition entries (t : GCtab) : Z := zlen (arr_pairs 0 (array t)) + zlen (node_pairs (node t)).

Lemma tbind_ok {A B} (f : A -> tres B) (a : A) : mbind f (TOk a) = f a.
Proof. done. Qed.

Lemma rehashtab_unfold strhash newkey t ek b1 n1 b2 nh en b3 c sz na :
  countarray t (replicate (Z.to_nat LJ_MAX_ABITS) 0) = TOk (b1, n1) ->
  counthash (node t) b1 0 0 = TOk (b2, nh, en) -> countint ek b2 = TOk (b3, c) ->
  bestasize b3 (u32 (u32 (n1 + nh) + c)) = TOk (sz, na) ->
  rehashtab strhash newkey t ek =
  lj_tab_resize strhash newkey t sz (hsize2hbits (u32 (u32 (u32 (1 + n1) + en) - na))).
Proof.
  intros E1 E2 E3 E4. unfold rehashtab. rewrite E1, tbind_ok. cbn beta iota. rewrite E2, tbind_ok. cbn beta iota.
  rewrite E3, tbind_ok. cbn beta iota. rewrite E4, tbind_ok. reflexivity.
Qed.

Section rehash.
Context (strhash : Z -> Z) (t : GCtab) (W : tab_wf strhash t).

Lemma table_bounds : zlen (array t) <= 134217729 /\ zlen (node t) <= 67108864.
Proof.
  split; [apply (tw_asize _ _ W)|]. destruct (hw_size _ _ _ (tw_hash _ _ W)) as (b & Hb & ->).
  change 67108864 with (2 ^ 26). apply Z.pow_le_mono_r; unfold LJ_MAX_HBITS in Hb; lia.
Qed.

(** The keys that are counted. *)
Definition counted (ek : TValue) : list Z := (akeys 0 (array t) ++ node_ints (node t)) ++ intkeys ek.

Lemma counted_ok ek : countable (counted ek) /\ zlen (counted ek) =
  zlen (akeys 0 (array t)) + zlen (node_ints (node t)) + zlen (intkeys ek).
Proof.
  destruct table_bounds as [Ba Bn]. pose proof (akeys_len (array t) 0). pose proof (node_lens (node t)).
  pose proof (intkeys_len ek). unfold counted. split; [split|by rewrite !zlen_app].
  - intros k. rewrite !elem_of_app. intros [[Hk|Hk]|Hk].
    + apply akeys_range in Hk. rewrite max_asize. lia.
    + by eapply node_ints_range.
    + by eapply intkeys_range.
  - rewrite !zlen_app. lia.
Qed.

Lemma rehashtab_eq newkey ek : exists sz na, good_size (counted ek) sz na /\
  rehashtab strhash newkey t ek = lj_tab_resize strhash newkey t sz
    (hsize2hbits (1 + zlen (akeys 0 (array t)) + zlen (node_pairs (node t)) - na)).
Proof.
  destruct table_bounds as [Ba Bn].
  pose proof (akeys_len (array t) 0) as L1. pose proof (zlen_nonneg (akeys 0 (array t))) as L2.
  pose proof (node_lens (node t)) as L3. pose proof (zlen_nonneg (node_ints (node t))) as L4.
  pose proof (intkeys_len ek) as L5. pose proof (zlen_nonneg (intkeys ek)) as L6.
  destruct (counted_ok ek) as [CK CL].
  destruct (countarray_spec t (tw_asize _ _ W)) as (b1 & E1 & HB1).
  destruct (counthash_spec (node t) (akeys 0 (array t)) b1 0 0 HB1) as (b2 & E2 & HB2); try lia.
  destruct (countint_spec ek (akeys 0 (array t) ++ node_ints (node t)) b2 HB2) as (b3 & E3 & HB3);
    [rewrite zlen_app; lia|].
  rewrite !Z.add_0_l in E2. destruct (bestasize_spec (counted ek) b3 HB3 CK) as (sz & na & E4 & HG).
  exists sz, na. split; [done|]. destruct HG as (G1 & G2 & _). pose proof (below_le (counted ek) sz) as L7.
  unfold counted in G2. rewrite !below_app in G2. pose proof (inb_below ek sz (proj2 G1)) as L8.
  pose proof (below_le (akeys 0 (array t)) sz). pose proof (below_le (node_ints (node t)) sz).
  assert (u32 (u32 (zlen (akeys 0 (array t)) + zlen (node_ints (node t))) + zlen (intkeys ek)) = zlen (counted ek)) as E5.
  { rewrite CL, (u32_small (_ + zlen (node_ints (node t)))) by (unfold in_u32; lia). apply u32_small. unfold in_u32. lia. }
  rewrite <- E5 in E4. rewrite (rehashtab_unfold _ _ _ _ _ _ _ _ _ _ _ _ _ E1 E2 E3 E4).
  f_equal. f_equal. rewrite (u32_small (1 + _)) by (unfold in_u32; lia).
  rewrite (u32_small (_ + zlen (node_pairs (node t)))) by (unfold in_u32; lia).
  rewrite u32_small; [lia|]. unfold in_u32. revert L8. destruct (inb sz ek); lia.
Qed.

(** The sizes [rehashtab] computes have room for every pair and for [ek]. *)
Lemma rehashtab_sizes newkey ek : exists sz hbits,
  rehashtab strhash newkey t ek = lj_tab_resize strhash newkey t sz hbits /\
  0 <= sz <= LJ_MAX_ASIZE /\ 0 <= hbits /\ (LJ_MAX_HBITS < hbits -> 2 ^ 26 <= entries t) /\
  hashbound sz (moving t sz) + (if inb sz ek then 0 else 1) <= (if hbits =? 0 then 0 else 2 ^ hbits).
Proof.
  destruct (rehashtab_eq newkey ek) as (sz & na & (G1 & G2 & _) & E).
  set (n := 1 + zlen (akeys 0 (array t)) + zlen (node_pairs (node t)) - na) in E.
  exists sz, (hsize2hbits n). split; [done|]. split; [done|].
  pose proof (node_lens (node t)).
  pose proof (below_le (akeys 0 (array t)) sz). pose proof (below_le (node_ints (node t)) sz).
  unfold counted in G2. rewrite !below_app, (inb_below ek) in G2 by lia.
  assert (hashbound sz (moving t sz) + (if inb sz ek then 0 else 1) <= n) as Hfit.
  { unfold moving. rewrite hashbound_app, node_hashbound by lia.
    pose proof (arr_hashbound (array t) sz (proj1 G1)). unfold n. destruct (inb sz ek); lia. }
  pose proof (hashbound_nonneg sz (moving t sz)).
  destruct (hsize2hbits_fits n) as (F1 & F2 & F3); [destruct (inb sz ek); lia|].
  split; [done|]. split; [|lia]. intros Hb. apply F3 in Hb. unfold entries. rewrite arr_pairs_len.
  unfold n in Hb. destruct (inb sz ek); lia.
Qed.

Lemma resize_tabov newkey sz hbits : 0 <= sz <= LJ_MAX_ASIZE -> LJ_MAX_HBITS < hbits ->
  lj_tab_resize strhash newkey t sz hbits = TErr TABOV.
Proof.
  intros Hsz Hb. unfold lj_tab_resize, newhpart. unfold LJ_MAX_HBITS in Hb.
  replace (LJ_MAX_ASIZE <? sz) with false by lia. replace (hbits =? 0) with false by lia.
  replace (LJ_MAX_HBITS <? hbits) with true by (unfold LJ_MAX_HBITS; lia). by destruct (asize t <? sz).
Qed.

(** A rehash gives the same map, with room for one key more. *)
Lemma rehashtab_spec ek : canonical (canon ek) ->
  (rehashtab strhash (lj_tab_newkey strhash 0) t ek = TErr TABOV /\ 2 ^ 26 <= entries t) \/
  exists t', rehashtab strhash (lj_tab_newkey strhash 0) t ek = TOk t' /\ tab_wf strhash t' /\ same_map t t' /\
  (~ inarr t' (canon ek) -> nkeyed t' < cap t').
Proof.
  intros Hc. destruct (rehashtab_sizes (lj_tab_newkey strhash 0) ek) as (sz & hbits & -> & H1 & H2 & H3 & H4).
  destruct (Z.le_gt_cases hbits LJ_MAX_HBITS) as [Hb|Hb].
  - right. destruct (resize_spec strhash t W sz hbits H1) as (t' & E & W' & Hm & Ha & Hn & Hk); [done| |].
    { destruct (inb sz ek); lia. }
    exists t'. split; [done|]. split; [done|]. split; [done|]. intros Hin.
    assert (inb sz ek = false) as Hi.
    { destruct (inb sz ek) eqn:Ei; [|done]. rewrite <- Ha, <- inb_canon in Ei. by apply (inb_iff strhash) in Ei. }
    rewrite Hi in H4. unfold cap. rewrite Hn. pose proof (zlen_nonneg (keyed (node t'))). fold (nkeyed t') in *.
    pose proof (hashbound_nonneg sz (moving t sz)).
    destruct (hbits =? 0) eqn:E0; [lia|]. pose proof (Z.pow_gt_1 2 hbits). replace (2 ^ hbits =? 1) with false by lia. lia.
  - left. split; [by apply resize_tabov|by apply H3].
Qed.
End rehash.
End TabRehash.
