(* ===== verification/LjTabSpec.v ===== *)
(** * LjTabSpec

    What the tables of the virtual machine promise: setting a key changes the
    map at that key and nowhere else, whatever rehash it takes; resizing and
    duplicating keep the map. *)
From stdpp Require Import base tactics numbers list relations.
From Stdlib Require Import ZArith Lia FunctionalExtensionality.
From S2P Require Import Prelude LjTab LjTabHash LjTabKey LjTabMap LjTabRehash.
Import Tab TabHash TabKey TabMap TabRehash.
Open Scope Z_scope.

Module TabSpec.

(** A key that can be set. *)
Definition settable (key : TValue) : Prop :=
  kvalid key /\ key <> VNil /\ forall u, key = VNum u -> num_isnan u = false.

Lemma settable_canon key : settable key -> canonical (canon key) /\ canon key <> VNil.
Proof.
  intros (H1 & H2 & H3). split; [|by intros ?%canon_nil]. destruct key as [| |u| |]; try done.
  cbn [canon]. destruct (u =? 2 ^ 63) eqn:E; [done|]. split; [done|]. split; [by apply H3|]. lia.
Qed.

Lemma value_of_unique t k v v' : value_of t k v -> value_of t k v' -> v = v'.
Proof.
  intros H1 H2. destruct (decide (v = VNil)) as [->|Hv].
  - destruct (decide (v' = VNil)) as [->|Hv']; [done|]. assert (has t k v') as H by (by apply H2). by apply H1 in H as [? _].
  - assert (has t k v) as H by (by apply H1). by apply H2 in H as [? _].
Qed.

Lemma value_of_same t t' k v : same_map t t' -> value_of t k v -> value_of t' k v.
Proof. intros HS H v'. rewrite (HS k v'). apply H. Qed.

Section set.
Context (strhash : Z -> Z).
Abbreviation newkey := (lj_tab_newkey strhash 1).

(** The place for a key in a table that may have been rehashed for it. *)
Definition placed (t : GCtab) (key : TValue) (r : tres (GCtab * slot)) : Prop :=
  (r = TErr TABOV /\ 2 ^ 26 <= entries t) \/
  exists t' s, r = TOk (t', s) /\ tab_wf strhash t' /\ same_map t t' /\ slot_of strhash t' s (canon key).

(** A new key, inserted without a rehash. *)
Lemma placed_inserted t t0 t' m key : tab_wf strhash t0 -> same_map t t0 -> ~ inarr t0 (canon key) ->
  inserted strhash t0 t' m (canon key) -> placed t key (TOk (t', SNode m)).
Proof.
  intros W0 HS Hin HI. destruct (newkey_wf strhash t0 t' m (canon key) W0 HI Hin) as (W' & Hs & Hm & _).
  right. exists t', (SNode m). split; [done|]. split; [done|]. split; [by etrans|done].
Qed.

(** The retry after a rehash finds room. *)
Lemma retry_placed t t0 key : tab_wf strhash t0 -> same_map t t0 -> settable key ->
  (~ inarr t0 (canon key) -> nkeyed t0 < cap t0) -> placed t key (lj_tab_set strhash (lj_tab_newkey strhash 0) t0 key).
Proof.
  intros W0 HS Hk Hroom. destruct (settable_canon key Hk) as [Hc Hn]. destruct Hk as (K1 & K2 & K3).
  assert (same_parts t0 (with_nomm t0 0)) as HP by done. pose proof (same_parts_wf _ _ _ HP W0) as W1.
  assert (same_map t0 (with_nomm t0 0)) as HM by (intros k v; by apply same_parts_has).
  destruct (set_spec strhash t0 W0 (lj_tab_newkey strhash 0) key K1 K2 K3) as [(s & -> & Hs)|(key' & -> & Ek & Hin & Hnew)].
  - right. exists (with_nomm t0 0), s. split; [done|]. split; [done|]. split; [by etrans|].
    by apply (same_parts_slot _ t0).
  - destruct (newkey0_spec strhash (with_nomm t0 0) key') as (t' & m & -> & HI); rewrite ?Ek; try done; [by apply Hroom|].
    rewrite Ek in HI. by apply (placed_inserted t (with_nomm t0 0)).
Qed.

Lemma newkey_S d t key : lj_tab_newkey strhash (S d) t key =
  newkey_body strhash (fun t key => t ← rehashtab strhash (lj_tab_newkey strhash d) t key;
    lj_tab_set strhash (lj_tab_newkey strhash d) t key) t key.
Proof. done. Qed.

(** A place or a new key, after at most one rehash. *)
Lemma place_placed t key r : tab_wf strhash t -> settable key -> place strhash t key newkey t r -> placed t key r.
Proof.
  intros W Hk. destruct (settable_canon key Hk) as [Hc Hn].
  intros [(s & -> & Hs)|(key' & -> & Ek & Hin & Hnew)]; [right; by exists t, s|].
  assert (settable key') as Hk'.
  { split_and!.
    - destruct key' as [| |u| |]; try done. cbn [canon] in Ek. destruct (u =? 2 ^ 63) eqn:E.
      + apply Z.eqb_eq in E as ->. done.
      + rewrite <- Ek in Hc. apply Hc.
    - intros ->. by rewrite <- Ek in Hn.
    - intros u ->. cbn [canon] in Ek. destruct (u =? 2 ^ 63) eqn:E; [apply Z.eqb_eq in E as ->; apply num_mzero|].
      rewrite <- Ek in Hc. apply Hc. }
  rewrite newkey_S.
  edestruct (newkey_body_spec strhash t (tw_hash _ _ W) key') as [[E Hf]|(t' & m & E & HI)];
    rewrite ?Ek; try done; rewrite E; clear E.
  - destruct (rehashtab_spec strhash t W key') as [[-> He]|(t1 & -> & W2 & HM2 & Hroom)];
      [by rewrite Ek|by left|]. rewrite tbind_ok. rewrite Ek in Hroom.
    assert (placed t key' (lj_tab_set strhash (lj_tab_newkey strhash 0) t1 key')) as HR.
    { apply retry_placed; try done. by rewrite Ek. }
    unfold placed in *. by rewrite Ek in HR.
  - rewrite Ek in HI. by apply (placed_inserted t t).
Qed.

Lemma set_placed t key : tab_wf strhash t -> settable key -> placed t key (lj_tab_set strhash newkey t key).
Proof.
  intros W Hk. pose proof Hk as (K1 & K2 & K3).
  assert (same_parts t (with_nomm t 0)) as HP by done. pose proof (same_parts_wf _ _ _ HP W) as W1.
  assert (same_map t (with_nomm t 0)) as HM by (intros k v; by apply same_parts_has).
  assert (placed (with_nomm t 0) key (lj_tab_set strhash newkey t key)) as [H|(t' & s & E & W' & HM' & Hs)].
  { apply place_placed; [done|done|]. exact (set_spec strhash (with_nomm t 0) W1 newkey key K1 K2 K3). }
  - by left.
  - right. exists t', s. split_and!; [done|done|by etrans|done].
Qed.

(** The same for an integer. *)
Lemma setint_placed t i : tab_wf strhash t -> in_i32 i ->
  placed t (VNum (num_of_int i)) (lj_tab_setint strhash newkey t i).
Proof.
  intros W Hi. pose proof (num_of_int_canonical i Hi) as Hc. unfold lj_tab_setint.
  pose proof (inarray_iff strhash t W i Hi) as Hin. apply place_placed; [done| |].
  - split; [apply Hc|]. split; [done|]. intros u [= <-]. apply Hc.
  - destruct (inarray t i); [|by apply setinth_spec]. left. destruct Hin as [Hin ->].
    exists (SArr i). split; [done|]. by rewrite (canon_canonical _ Hc).
Qed.

(** C6: setting a key refines the update of a finite map.  In every
    well-formed table, [lj_tab_set] with a key that is neither nil nor NaN
    returns a slot, with at most one rehash and no access outside the table's
    arrays, or raises the table overflow error, which takes [2^26] pairs.
    After the value is stored in the slot the table is well-formed again and
    [lj_tab_get] gives that value for that key and what it gave before for
    every other key, numbers compared by value. *)
Theorem tab_set_get t key v : tab_wf strhash t -> settable key ->
  (lj_tab_set strhash newkey t key = TErr TABOV /\ 2 ^ 26 <= entries t) \/
  exists t' s t'', lj_tab_set strhash newkey t key = TOk (t', s) /\ store t' s v = TOk t'' /\ tab_wf strhash t'' /\
  forall k, kvalid k -> exists x, lj_tab_get strhash t'' k = TOk x /\
    if decide (canon k = canon key) then x = v else lj_tab_get strhash t k = TOk x.
Proof.
  intros W Hk. destruct (set_placed t key W Hk) as [H|(t' & s & -> & W' & HM & Hs)]; [by left|right].
  destruct (store_spec strhash t' W' s (canon key) v Hs) as (t'' & E & W'' & _ & _ & _ & Hst).
  exists t', s, t''. split; [done|]. split; [done|]. split; [done|]. intros k Hv.
  destruct (get_spec strhash t'' W'' k Hv) as (x & Ex & Hx). exists x. split; [done|]. case_decide as Ec.
  - apply (value_of_unique t'' (canon k)); [done|]. intros v'. rewrite Hst. rewrite Ec. naive_solver.
  - destruct (get_spec strhash t W k Hv) as (y & Ey & Hy). rewrite Ey. f_equal. symmetry.
    apply (value_of_unique t'' (canon k)); [done|]. intros v'. rewrite Hst, (HM (canon k) v'), (Hy v'). naive_solver.
Qed.
End set.

(** ** New, cleared and copied tables *)

Lemma empty_map strhash t b : 0 <= b <= LJ_MAX_HBITS -> node t = replicate (Z.to_nat (2 ^ b)) nilnode ->
  freetop t = (if b =? 0 then 0 else 2 ^ b) -> asize t <= LJ_MAX_ASIZE -> (forall v, v ∈ array t -> v = VNil) ->
  tab_wf strhash t /\ forall k v, ~ has t k v.
Proof.
  intros H1 H2 H3 H4 H5. destruct (fresh_wf strhash t b H1 H2 H3 H4) as (W & _ & _ & Hh). split; [done|].
  intros k v [[Hv (i & _ & Hi)]|H]; [|by apply Hh in H]. apply Hv, H5.
  unfold zget in Hi. destruct (i <? 0); [done|]. by eapply list_elem_of_lookup_2.
Qed.

Lemma replicate_nil n (v : TValue) : v ∈ replicate n VNil -> v = VNil.
Proof. intros H. apply list_elem_of_lookup in H as (i & H). by apply lookup_replicate in H as [-> _]. Qed.

Lemma new_spec strhash as_ hbits : 0 <= as_ <= LJ_MAX_ASIZE -> 0 <= hbits <= LJ_MAX_HBITS ->
  exists t, lj_tab_new as_ hbits = TOk t /\ tab_wf strhash t /\ asize t = as_ /\ forall k v, ~ has t k v.
Proof.
  intros Ha Hb. unfold lj_tab_new. replace (LJ_MAX_ASIZE <? as_) with false by lia.
  assert (zlen (replicate (Z.to_nat as_) VNil) = as_) as Hl by (rewrite zlen_replicate; lia).
  destruct (hbits =? 0) eqn:E.
  - eexists. split; [reflexivity|]. destruct (empty_map strhash (MkTab 255 (replicate (Z.to_nat as_) VNil) [nilnode] 0) 0)
      as [W H]; try done; [unfold asize; simpl; lia|apply replicate_nil].
  - unfold newhpart. replace (LJ_MAX_HBITS <? hbits) with false by lia. eexists. split; [reflexivity|]. cbn [nomm array].
    destruct (empty_map strhash (MkTab 255 (replicate (Z.to_nat as_) VNil) (replicate (Z.to_nat (2 ^ hbits)) nilnode) (2 ^ hbits)) hbits)
      as [W H]; try done; [simpl; by rewrite E|unfold asize; simpl; lia|apply replicate_nil].
Qed.

Lemma clear_spec strhash t : tab_wf strhash t -> tab_wf strhash (lj_tab_clear t) /\ forall k v, ~ has (lj_tab_clear t) k v.
Proof.
  intros W. destruct (hw_size _ _ _ (tw_hash _ _ W)) as (b & Hb & EL). unfold lj_tab_clear.
  assert (zlen (replicate (length (array t)) VNil) = asize t) as Ea by (rewrite zlen_replicate; done).
  pose proof (tw_asize _ _ W). assert (0 < 2 ^ b) by (apply Z.pow_pos_nonneg; lia).
  change (hmask (with_array t (replicate (length (array t)) VNil))) with (hmask t). unfold hmask. rewrite EL.
  destruct (0 <? 2 ^ b - 1) eqn:E.
  - apply (empty_map strhash _ b); simpl; try done.
    + f_equal. unfold zlen in EL. lia.
    + replace (b =? 0) with false; [lia|]. destruct (b =? 0) eqn:E0; [|done]. apply Z.eqb_eq in E0 as ->. done.
    + unfold asize in *. simpl. lia.
    + apply replicate_nil.
  - assert (b = 0) as ->. { destruct (Z.eq_dec b 0); [done|]. pose proof (Z.pow_gt_1 2 b). lia. }
    destruct (hw_single _ _ _ (tw_hash _ _ W) EL) as [En Ef].
    apply (empty_map strhash _ 0); simpl; try done; [unfold asize in *; simpl; lia|apply replicate_nil].
Qed.

(** ** Resizing *)

(** C31: the operations that move every pair keep the map.  [lj_tab_rehash]
    and [lj_tab_reasize] to an array that is not smaller end, without a
    nested rehash, in a well-formed table with the same pairs; the rehash may
    instead raise the overflow error of a table with [2^26] pairs.  The copy
    of a table has the pairs of its template. *)
Theorem tab_resizes strhash t : tab_wf strhash t ->
  ((lj_tab_rehash strhash 0 t = TErr TABOV /\ 2 ^ 26 <= entries t) \/
   exists t', lj_tab_rehash strhash 0 t = TOk t' /\ tab_wf strhash t' /\ same_map t t') /\
  (forall n, asize t <= n + 1 <= LJ_MAX_ASIZE ->
   exists t', lj_tab_reasize strhash 0 t n = TOk t' /\ tab_wf strhash t' /\ same_map t t' /\ asize t' = n + 1) /\
  tab_wf strhash (lj_tab_dup t) /\ same_map t (lj_tab_dup t).
Proof.
  intros W. split; [|split; [|split; [by apply (same_parts_wf strhash t)|done]]].
  - destruct (rehashtab_spec strhash t W VNil) as [H|(t' & E & W' & HM & _)]; [done|by left|right; eauto].
  - intros n Hn. unfold lj_tab_reasize. pose proof (zlen_nonneg (array t)) as H0. rewrite max_asize in Hn.
    unfold asize in Hn. rewrite u32_small by (unfold in_u32; lia).
    destruct (hw_size _ _ _ (tw_hash _ _ W)) as (b & Hb & EL). assert (0 < 2 ^ b) by (apply Z.pow_pos_nonneg; lia).
    assert ((if 0 <? hmask t then lj_fls (hmask t) + 1 else 0) = b) as ->.
    { unfold hmask, lj_fls. rewrite EL. destruct (0 <? 2 ^ b - 1) eqn:E.
      - assert (b <> 0) by (intros ->; done). rewrite Z.sub_1_r, Z.log2_pred_pow2 by lia. lia.
      - destruct (Z.eq_dec b 0); [done|]. pose proof (Z.pow_gt_1 2 b). lia. }
    destruct (resize_spec strhash t W (n + 1) b) as (t' & E & W' & HM & Ha & _); [rewrite max_asize; lia|done| |eauto].
    unfold moving. rewrite drop_ge by (unfold zlen in Hn; lia). cbn [arr_pairs app].
    destruct (b =? 0) eqn:Eb.
    + apply Z.eqb_eq in Eb as ->. destruct (hw_single _ _ _ (tw_hash _ _ W) EL) as [-> _]. done.
    + pose proof (node_lens (node t)). unfold hashbound.
      pose proof (filter_le (fun p : TValue * TValue => inb (n + 1) p.1 = false) (node_pairs (node t))). lia.
Qed.

Lemma tab_new_wf strhash : tab_wf strhash (MkTab 255 (replicate 5 VNil) [nilnode] 0).
Proof. destruct (new_spec strhash 5 0) as (t & E & W & _); [rewrite max_asize; lia|done|]. by injection E as <-. Qed.

Lemma tab_resizes_witness (t := MkTab 255 (replicate 5 VNil) [nilnode] 0) :
  asize t <= 9 + 1 /\ exists t', lj_tab_reasize (fun r => r) 0 t 9 = TOk t' /\ asize t' = 10.
Proof.
  split; [vm_compute; discriminate|].
  destruct (proj1 (proj2 (tab_resizes (fun r => r) t (tab_new_wf _))) 9) as (t' & E & _ & _ & Ha).
  - split; vm_compute; discriminate.
  - exists t'. split; [exact E|exact Ha].
Defined.

Lemma tab_set_get_witness (t := MkTab 255 (replicate 5 VNil) [nilnode] 0) :
  settable (VStr 7) /\ exists t' s, lj_tab_set (fun r => r) (lj_tab_newkey (fun r => r) 1) t (VStr 7) = TOk (t', s).
Proof.
  assert (settable (VStr 7)) as Hk by (split_and!; done). split; [exact Hk|].
  destruct (tab_set_get (fun r => r) t (VStr 7) (VBool true) (tab_new_wf _) Hk) as [[_ H]|(t' & s & t'' & E & _)].
  - exfalso. vm_compute in H. by apply H.
  - exists t', s. exact E.
Defined.
End TabSpec.
