(* ===== verification/LjTabNext.v ===== *)
(** * LjTabNext

    Traversal and length of Lua tables ([lj_tab_keyindex], [lj_tab_next],
    [lj_tab_len], [lj_tab_len_hint]).  Stepping through a table from nil gives
    each of its pairs once; the length is a border, found in a bounded number
    of steps. *)
From stdpp Require Import base tactics numbers list relations.
From Stdlib Require Import ZArith Lia.
From S2P Require Import Prelude LjTab LjTabHash LjTabKey LjTabMap LjTabRehash LjTabSpec.
Import Tab TabHash TabKey TabMap TabRehash TabSpec.
Open Scope Z_scope.

Module TabNext.

(** ** Traversal *)

(** The tag of an index stored in place of a key. *)
Definition LJ_KEYINDEX : Z := 0xfffe7fff.

Section next.
Context (strhash : Z -> Z).

(** The index behind the one of the key, [2^32-1] for a key that is not there. *)
Definition lj_tab_keyindex (t : GCtab) (key : TValue) : tres Z :=
  let hash_index :=
    r ← find t (fun k => lj_obj_equal k key) (hashkey strhash t key);
    match r with
    | Some n => TOk (u32 (asize t + (n + 1)))
    | None =>
        match key with
        | VNum u | VGC u => TOk (if hi32 u =? LJ_KEYINDEX then lo32 u else 0xffffffff)
        | _ => TOk 0xffffffff
        end
    end in
  match key with
  | VNil => TOk 0
  | VNum u =>
      match num_int u with
      | Some k => if u32 k <? asize t then TOk (u32 k + 1) else hash_index
      | None => hash_index
      end
  | _ => hash_index
  end.

(** [for (; idx < t->asize; idx++)], [k] slots left. *)
Fixpoint scan_array (k : nat) (l : list TValue) (idx : Z) : tres (option (TValue * TValue)) :=
  match k with
  | O => TOk None
  | S k' =>
      v ← chk (zget l idx);
      if tvisnil v then scan_array k' l (idx + 1) else TOk (Some (VNum (num_of_int idx), v))
  end.

(** [for (; idx <= t->hmask; idx++)], [k] nodes left. *)
Fixpoint scan_nodes (k : nat) (l : list Node) (idx : Z) : tres (option (TValue * TValue)) :=
  match k with
  | O => TOk None
  | S k' =>
      nd ← chk (zget l idx);
      if tvisnil (n_val nd) then scan_nodes k' l (idx + 1) else TOk (Some (n_key nd, n_val nd))
  end.

(** The results 1, 0 and -1 of [lj_tab_next]. *)
Inductive step := Pair (k v : TValue) | End | Invalid.

Definition lj_tab_next (t : GCtab) (key : TValue) : tres step :=
  idx ← lj_tab_keyindex t key;
  r ← scan_array (Z.to_nat (asize t - idx)) (array t) idx;
  match r with
  | Some (k, v) => TOk (Pair k v)
  | None =>
      let idx := u32 (Z.max idx (asize t) - asize t) in
      r ← scan_nodes (Z.to_nat (hmask t + 1 - idx)) (node t) idx;
      match r with
      | Some (k, v) => TOk (Pair k v)
      | None => TOk (if i32 (Z.max idx (hmask t + 1)) <? 0 then Invalid else End)
      end
  end.

(** A loop over the table: every pair from [key] on. *)
Fixpoint traverse (fuel : nat) (t : GCtab) (key : TValue) : tres (list (TValue * TValue)) :=
  match fuel with
  | O => TFuel
  | S fuel' =>
      r ← lj_tab_next t key;
      match r with
      | Pair k v => l ← traverse fuel' t k; TOk ((k, v) :: l)
      | End => TOk []
      | Invalid => TBad
      end
  end.

(** ** Length *)

(** [(tv = lj_tab_getint(t, k)) && !tvisnil(tv)] *)
Definition present (t : GCtab) (k : Z) : tres bool :=
  s ← lj_tab_getint strhash t (i32 k);
  match s with
  | Some s => v ← read t s; TOk (negb (tvisnil v))
  | None => TOk false
  end.

(** [while (hi - lo > 1) { mid = (lo+hi) >> 1; if (p(mid)) lo = mid; else hi = mid; }] *)
Fixpoint bisect (fuel : nat) (p : Z -> tres bool) (lo hi : Z) : tres Z :=
  match fuel with
  | O => TFuel
  | S fuel' =>
      if 1 <? hi - lo then
        let mid := Z.shiftr (lo + hi) 1 in
        b ← p mid;
        if b : bool then bisect fuel' p mid hi else bisect fuel' p lo mid
      else TOk lo
  end.

(** [while (p(lo)) lo++;] *)
Fixpoint linear (fuel : nat) (p : Z -> tres bool) (lo : Z) : tres Z :=
  match fuel with
  | O => TFuel
  | S fuel' => b ← p lo; if b : bool then linear fuel' p (lo + 1) else TOk lo
  end.

(** The widening search; [inr] is the result of the linear search. *)
Fixpoint widen (fuel lin : nat) (t : GCtab) (lo hi : Z) : tres (Z * Z + Z) :=
  match fuel with
  | O => TFuel
  | S fuel' =>
      b ← present t hi;
      if b : bool then
        let lo := hi in
        let hi := hi + hi in
        if INT_MAX - 2 <? hi then lo ← linear lin (present t) 1; TOk (inr (u32 (lo - 1)))
        else widen fuel' lin t lo hi
      else TOk (inl (lo, hi))
  end.

(** Doubling reaches [INT_MAX] in 32 rounds, and so does halving. *)
Definition tab_len_slow (t : GCtab) (hi : Z) : tres Z :=
  r ← widen 33 (Z.to_nat (asize t + zlen (node t) + 2)) t hi (hi + 1);
  match r with
  | inr n => TOk n
  | inl (lo, hi) => lo ← bisect 33 (present t) lo hi; TOk (u32 lo)
  end.

Definition lj_tab_len (t : GCtab) : tres Z :=
  let hi := if asize t =? 0 then 0 else asize t - 1 in
  v ← (if 0 <? hi then chk (zget (array t) hi) else TOk (VBool false));
  if (0 <? hi) && tvisnil v then
    lo ← bisect 33 (fun mid => v ← chk (zget (array t) mid); TOk (negb (tvisnil v))) 0 hi; TOk (u32 lo)
  else if hmask t =? 0 then TOk (u32 hi) else tab_len_slow t hi.

Definition lj_tab_len_hint (t : GCtab) (hint : Z) : tres Z :=
  if hint + 1 <? asize t then
    a ← chk (zget (array t) hint);
    b ← chk (zget (array t) (hint + 1));
    if negb (tvisnil a) && tvisnil b then TOk (u32 hint) else lj_tab_len t
  else if (hint + 1 <=? asize t) && (hmask t =? 0) then
    a ← chk (zget (array t) hint);
    if negb (tvisnil a) then TOk (u32 hint) else lj_tab_len t
  else lj_tab_len t.
End next.

(** ** What a traversal sees *)

Lemma drop_zget {A} (l : list A) i v : zget l i = Some v ->
  drop (Z.to_nat i) l = v :: drop (Z.to_nat (i + 1)) l.
Proof.
  intros E. apply zget_Some_range in E as Hi. unfold zget in E. destruct (i <? 0) eqn:Ei; [lia|].
  rewrite (drop_S _ _ _ E). do 2 f_equal. lia.
Qed.

Lemma scan_array_spec l k : forall i, 0 <= i -> Z.of_nat k = Z.max 0 (zlen l - i) -> exists r,
  scan_array k l i = TOk r /\
  match r with
  | None => arr_pairs i (drop (Z.to_nat i) l) = []
  | Some (key, v) => exists j, i <= j < zlen l /\ key = VNum (num_of_int j) /\
      arr_pairs i (drop (Z.to_nat i) l) = (key, v) :: arr_pairs (j + 1) (drop (Z.to_nat (j + 1)) l)
  end.
Proof.
  induction k as [|k IH]; intros i Hi Hk; cbn [scan_array].
  - exists None. split; [done|]. rewrite drop_ge; [done|]. unfold zlen in Hk. lia.
  - destruct (zget_is_Some l i) as [v Hv]; [lia|]. rewrite Hv. cbn [chk mbind tres_bind].
    rewrite (drop_zget _ _ _ Hv). cbn [arr_pairs]. destruct (tvisnil v) eqn:E.
    + destruct (IH (i + 1)) as (r & -> & Hr); [lia|lia|]. exists r. split; [done|]. cbn [app].
      destruct r as [[key w]|]; [|done]. destruct Hr as (j & Hj & Hr). exists j. split; [lia|done].
    + exists (Some (VNum (num_of_int i), v)). split; [done|]. exists i. split; [lia|done].
Qed.

Lemma scan_nodes_spec l k : forall i, 0 <= i -> Z.of_nat k = Z.max 0 (zlen l - i) -> exists r,
  scan_nodes k l i = TOk r /\
  match r with
  | None => node_pairs (drop (Z.to_nat i) l) = []
  | Some (key, v) => exists j, i <= j < zlen l /\ live l j /\ key = key_of l j /\
      node_pairs (drop (Z.to_nat i) l) = (key, v) :: node_pairs (drop (Z.to_nat (j + 1)) l)
  end.
Proof.
  induction k as [|k IH]; intros i Hi Hk; cbn [scan_nodes].
  - exists None. split; [done|]. rewrite drop_ge; [done|]. unfold zlen in Hk. lia.
  - destruct (zget_is_Some l i) as [n Hn]; [lia|]. rewrite Hn. cbn [chk mbind tres_bind].
    rewrite (drop_zget _ _ _ Hn). cbn [node_pairs]. destruct (tvisnil (n_val n)) eqn:E.
    + destruct (IH (i + 1)) as (r & -> & Hr); [lia|lia|]. exists r. split; [done|]. cbn [app].
      destruct r as [[key w]|]; [|done]. destruct Hr as (j & Hj & Hr). exists j. split; [lia|done].
    + exists (Some (n_key n, n_val n)). split; [done|]. exists i. apply get_of in Hn as (G1 & G2 & _).
      split; [lia|]. split; [|done]. unfold live. rewrite <- G1. intros E'. by rewrite E' in E.
Qed.

Section wf.
Context (strhash : Z -> Z) (t : GCtab) (W : tab_wf strhash t).

(** The pairs from an index on. *)
Definition pairs_at (idx : Z) : list (TValue * TValue) :=
  arr_pairs idx (drop (Z.to_nat idx) (array t)) ++ node_pairs (drop (Z.to_nat (idx - asize t)) (node t)).

Lemma keyindex_array i : 0 <= i < asize t -> lj_tab_keyindex strhash t (VNum (num_of_int i)) = TOk (i + 1).
Proof.
  intros Hi. pose proof (asize_i32 strhash t i W Hi) as H32. unfold lj_tab_keyindex. rewrite num_int_of_int by done.
  rewrite u32_small by (unfold in_u32, in_i32 in *; lia). by replace (i <? asize t) with true by lia.
Qed.

Lemma keyindex_node n : live (node t) n ->
  lj_tab_keyindex strhash t (key_of (node t) n) = TOk (asize t + (n + 1)).
Proof.
  intros Hn. pose proof (live_range _ _ Hn) as Hr. pose proof (tw_disj _ _ W n Hn) as Hin.
  destruct (table_bounds strhash t W) as [B1 B2]. pose proof (zlen_nonneg (array t)).
  pose proof (hw_canon _ _ _ (tw_hash _ _ W) n) as Hc. pose proof (canon_canonical _ Hc) as Ec.
  pose proof (live_key strhash t (tw_hash _ _ W) n Hn) as Hk. set (key := key_of (node t) n) in *.
  assert (kvalid key) as Hv by (destruct key; try done; apply Hc).
  destruct (hash_find strhash t W key (fun k => lj_obj_equal k key)) as (r & E & Hr');
    rewrite ?Ec; try done; [by intros; rewrite lj_obj_equal_iff, Ec|].
  assert (r = Some n) as ->.
  { destruct r as [m|]; [|by destruct Hr' as [_ Hr']; destruct (Hr' n Hn)].
    destruct Hr' as [(_ & _ & _ & _ & _ & S6) _]. rewrite Ec in S6. by rewrite (S6 n Hn). }
  unfold lj_tab_keyindex. rewrite E. cbn [mbind tres_bind].
  rewrite (u32_small (asize t + (n + 1))) by (unfold in_u32, asize in *; lia).
  destruct key as [|b|u|s|u] eqn:Ek; try done. destruct (num_int u) as [k|] eqn:Ei; [|done].
  destruct (num_int_some u k) as (H32 & E1 & _); [done|done|]. pose proof (inarray_iff strhash t W k H32) as Ha.
  unfold inarray in Ha. destruct (u32 k <? asize t); [|done]. destruct Hin. exists k. rewrite <- Ec, E1.
  split; [apply Ha|done].
Qed.

Lemma pairs_after_array i : 0 <= i <= asize t -> pairs_at i = arr_pairs i (drop (Z.to_nat i) (array t)) ++ node_pairs (node t).
Proof. intros Hi. unfold pairs_at. by replace (Z.to_nat (i - asize t)) with 0%nat by lia. Qed.

Lemma pairs_after_node n : 0 <= n -> pairs_at (asize t + n) = node_pairs (drop (Z.to_nat n) (node t)).
Proof.
  intros Hn. unfold pairs_at. rewrite drop_ge by (unfold asize, zlen; lia).
  by replace (asize t + n - asize t) with n by lia.
Qed.

(** One step: the first pair from the index of the key on, whose own index is behind it. *)
Lemma next_spec key idx : lj_tab_keyindex strhash t key = TOk idx -> 0 <= idx <= asize t + zlen (node t) ->
  match pairs_at idx with
  | [] => lj_tab_next strhash t key = TOk End
  | (k, v) :: ps => lj_tab_next strhash t key = TOk (Pair k v) /\ exists idx', idx < idx' <= asize t + zlen (node t) /\
      lj_tab_keyindex strhash t k = TOk idx' /\ pairs_at idx' = ps
  end.
Proof.
  intros E Hidx. destruct (table_bounds strhash t W) as [B1 B2]. pose proof (zlen_nonneg (array t)) as B3.
  unfold lj_tab_next. rewrite E, tbind_ok.
  destruct (scan_array_spec (array t) (Z.to_nat (asize t - idx)) idx) as (r & -> & Hr); [lia|unfold asize; lia|].
  rewrite tbind_ok. destruct r as [[k v]|].
  - destruct Hr as (j & Hj & -> & Hr). unfold asize in *. rewrite pairs_after_array by (unfold asize; lia). rewrite Hr. cbn [app].
    split; [done|]. exists (j + 1). split; [pose proof (zlen_nonneg (node t)); lia|].
    split; [apply keyindex_array; unfold asize; lia|]. by rewrite pairs_after_array by (unfold asize; lia).
  - set (n := Z.max idx (asize t) - asize t). assert (pairs_at idx = node_pairs (drop (Z.to_nat n) (node t))) as Ep.
    { unfold pairs_at. rewrite Hr. cbn [app]. do 2 f_equal. lia. }
    rewrite Ep. rewrite (u32_small n) by (unfold in_u32, n, asize in *; lia). unfold hmask.
    destruct (scan_nodes_spec (node t) (Z.to_nat (zlen (node t) - 1 + 1 - n)) n) as (r & -> & Hr'); [lia|lia|].
    rewrite tbind_ok. destruct r as [[k v]|].
    + destruct Hr' as (j & Hj & Hl & -> & Hp). rewrite Hp. split; [done|]. exists (asize t + (j + 1)).
      split; [lia|]. split; [by apply keyindex_node|]. apply pairs_after_node. lia.
    + rewrite Hr'. replace (i32 (Z.max n (zlen (node t) - 1 + 1)) <? 0) with false; [done|].
      rewrite i32_small; unfold in_i32, n, asize in *; lia.
Qed.

Lemma traverse_from fuel : forall key idx, lj_tab_keyindex strhash t key = TOk idx ->
  0 <= idx <= asize t + zlen (node t) -> asize t + zlen (node t) - idx < Z.of_nat fuel ->
  traverse strhash fuel t key = TOk (pairs_at idx).
Proof.
  induction fuel as [|fuel IH]; intros key idx E Hi Hf; [lia|]. cbn [traverse].
  pose proof (next_spec key idx E Hi) as Hn. destruct (pairs_at idx) as [|[k v] ps]; [by rewrite Hn|].
  destruct Hn as (-> & idx' & Hi' & E' & <-). rewrite tbind_ok. rewrite (IH k idx' E') by lia. done.
Qed.


Lemma arr_keys_nodup l : forall i, 0 <= i -> i + zlen l <= LJ_MAX_ASIZE -> NoDup ((arr_pairs i l).*1).
Proof.
  rewrite max_asize. induction l as [|v l IH]; intros i Hi Hl; cbn [arr_pairs]; [constructor|].
  rewrite zlen_cons in Hl. pose proof (zlen_nonneg l). rewrite fmap_app. apply NoDup_app.
  split; [destruct (tvisnil v); [constructor|apply NoDup_singleton]|]. split; [|apply IH; lia].
  intros k Hk Hk'. destruct (tvisnil v); [by apply not_elem_of_nil in Hk|]. apply list_elem_of_singleton in Hk as ->.
  apply list_elem_of_fmap in Hk' as ([k' v'] & E & Hin). cbn [fst] in E. subst k'.
  apply arr_pairs_elem in Hin as [_ (j & [= E] & Hj)]. apply zget_Some_range in Hj.
  apply num_of_int_inj in E; unfold in_i32; lia.
Qed.

Lemma node_pairs_from k v i : 0 <= i -> (k, v) ∈ node_pairs (drop (Z.to_nat i) (node t)) ->
  exists j, i <= j /\ live (node t) j /\ key_of (node t) j = k.
Proof.
  intros Hi H. apply node_pairs_elem, hash_live in H as (z & Hz & E & _). pose proof (live_range _ _ Hz) as Hr.
  exists (i + z). assert (zget (drop (Z.to_nat i) (node t)) z = zget (node t) (i + z)) as Eg.
  { unfold zget. replace (z <? 0) with false by lia. replace (i + z <? 0) with false by lia.
    rewrite lookup_drop. f_equal. lia. }
  unfold live, val_of, key_of in *. rewrite <- Eg. split; [lia|done].
Qed.

Lemma node_keys_nodup k : forall i, 0 <= i -> Z.of_nat k = Z.max 0 (zlen (node t) - i) ->
  NoDup ((node_pairs (drop (Z.to_nat i) (node t))).*1).
Proof.
  induction k as [|k IH]; intros i Hi Hk.
  - rewrite drop_ge; [constructor|]. unfold zlen in Hk. lia.
  - destruct (zget_is_Some (node t) i) as [n Hn]; [lia|]. rewrite (drop_zget _ _ _ Hn). cbn [node_pairs].
    destruct (tvisnil (n_val n)) eqn:E; cbn [app]; [apply IH; lia|].
    rewrite fmap_cons. constructor; [|apply IH; lia]. cbn [fst]. intros Hin.
    apply list_elem_of_fmap in Hin as ([k' v'] & Ek' & Hin).
    apply node_pairs_from in Hin as (j & Hj & Hl & Ek); [|lia].
    apply get_of in Hn as (G1 & G2 & _). cbn [fst] in *.
    assert (live (node t) i) as Hli by (unfold live; rewrite <- G1; intros E'; by rewrite E' in E).
    assert (j = i); [|lia]. apply (live_unique (live (node t)) (key_of (node t)) (hashkey strhash t) (nx_of (node t)));
      [apply W|done|done|congruence].
Qed.

Lemma keys_nodup : NoDup ((arr_pairs 0 (array t) ++ node_pairs (node t)).*1).
Proof.
  rewrite fmap_app. apply NoDup_app. split; [apply arr_keys_nodup; [lia|]; apply W|]. split.
  - intros k Hk Hk'. apply list_elem_of_fmap in Hk as ([k1 v1] & -> & Hk), Hk' as ([k2 v2] & E & Hk'). cbn [fst] in *.
    apply node_pairs_elem, hash_live in Hk' as (z & Hz & Ez & _). apply (tw_disj _ _ W z Hz). rewrite Ez, <- E.
    apply arr_has_inarr with v1. by apply arr_pairs_elem in Hk.
  - apply (node_keys_nodup (length (node t)) 0); [lia|]. unfold zlen. lia.
Qed.

(** C24: a traversal visits every pair once.  Calling [lj_tab_next] from nil,
    each time with the key just returned, ends after at most one call per
    slot, gives exactly the pairs of the map, no key twice, and the index of
    an invalid key is never met. *)
Theorem tab_traverse : exists ps, traverse strhash (S (Z.to_nat (asize t + zlen (node t)))) t VNil = TOk ps /\
  (forall k v, (k, v) ∈ ps <-> has t k v) /\ NoDup (ps.*1).
Proof.
  pose proof (zlen_nonneg (node t)). pose proof (zlen_nonneg (array t)).
  exists (pairs_at 0). split; [apply traverse_from; [done|unfold asize; lia..]|].
  rewrite pairs_after_array by (unfold asize; lia). split; [intros k v; by rewrite (has_pairs t k v)|apply keys_nodup].
Qed.
End wf.

Lemma tab_traverse_witness : exists ps,
  traverse (fun r => r) 7 (MkTab 255 (replicate 5 VNil) [nilnode] 0) VNil = TOk ps /\ NoDup (ps.*1).
Proof.
  destruct (tab_traverse (fun r => r) (MkTab 255 (replicate 5 VNil) [nilnode] 0) (tab_new_wf _)) as (ps & E & _ & Hn).
  exists ps. split; [exact E|exact Hn].
Defined.

(** ** Borders *)
Section len.
Context (strhash : Z -> Z) (t : GCtab) (W : tab_wf strhash t).

(** An integer key with a value. *)
Definition haskey (i : Z) : Prop := exists v, has t (VNum (num_of_int i)) v.

Definition border (n : Z) : Prop := (n = 0 \/ haskey n) /\ ~ haskey (n + 1).

Lemma has_array i v : zget (array t) i = Some v -> haskey i <-> tvisnil v = false.
Proof.
  intros E. apply zget_Some_range in E as Hi. destruct (has_in_array strhash t W i Hi) as (v' & E' & H).
  assert (v' = v) as -> by congruence. split.
  - intros (x & Hx). apply H in Hx as [-> Hn]. by destruct v.
  - intros Hn. exists v. apply H. split; [done|]. by intros ->.
Qed.

Lemma present_spec k : in_i32 k -> exists b, present strhash t k = TOk b /\ (b = true <-> haskey k).
Proof.
  intros Hk. unfold present, lj_tab_getint. rewrite i32_small by done.
  pose proof (inarray_iff strhash t W k Hk) as Hin. destruct (inarray t k).
  - destruct Hin as [Hi ->]. rewrite tbind_ok. destruct (zget_is_Some (array t) k Hi) as [v Hv].
    cbn [read]. rewrite Hv. cbn [chk]. rewrite tbind_ok. exists (negb (tvisnil v)). split; [done|].
    rewrite (has_array k v Hv). by destruct (tvisnil v).
  - unfold lj_tab_getinth. pose proof (canon_canonical _ (num_of_int_canonical k Hk)) as Ec.
    destruct (hash_find strhash t W (VNum (num_of_int k)) (isint k)) as (r & -> & Hr);
      rewrite ?Ec; [done|done|by apply isint_iff|]. rewrite !tbind_ok. rewrite Ec in Hr.
    destruct r as [n|]; cbn [option_map].
    + destruct (slot_read strhash t W (SNode n) _ Hr) as (v & -> & Hv). rewrite tbind_ok.
      exists (negb (tvisnil v)). split; [done|]. split.
      * intros Hn. exists v. apply Hv. split; [done|]. by intros ->.
      * intros (x & Hx). apply Hv in Hx as [-> Hx]. by destruct v.
    + exists false. split; [done|]. split; [done|]. intros (x & Hx). by destruct Hr as [Hr _]; destruct (Hr x).
Qed.

(** Halving the distance from a key with value to one without. *)
Lemma bisect_spec p fuel : forall lo hi, 0 <= lo < hi -> hi - lo <= 2 ^ (Z.of_nat fuel - 1) ->
  (forall k, lo < k < hi -> exists b, p k = TOk b /\ (b = true <-> haskey k)) ->
  (lo = 0 \/ haskey lo) -> ~ haskey hi ->
  exists n, bisect fuel p lo hi = TOk n /\ lo <= n < hi /\ border n.
Proof.
  induction fuel as [|fuel IH]; intros lo hi Hlh Hf Hp Hlo Hhi; [simpl in Hf; lia|]. cbn [bisect].
  destruct (1 <? hi - lo) eqn:E.
  - rewrite Z.shiftr_div_pow2 by lia. change (2 ^ 1) with 2. set (mid := (lo + hi) / 2).
    assert (lo < mid < hi /\ mid - lo <= (hi - lo + 1) / 2 /\ hi - mid <= (hi - lo + 1) / 2) as (Hm & M1 & M2)
      by (unfold mid; zlia).
    assert ((hi - lo + 1) / 2 <= 2 ^ (Z.of_nat fuel - 1)) as Hh.
    { destruct fuel as [|fuel]; [simpl in Hf; lia|].
      assert (2 ^ (Z.of_nat (S (S fuel)) - 1) = 2 * 2 ^ (Z.of_nat (S fuel) - 1)) as E2.
      { rewrite <- Z.pow_succ_r by lia. f_equal. lia. }
      rewrite E2 in Hf. assert (0 < 2 ^ (Z.of_nat (S fuel) - 1)) by (apply Z.pow_pos_nonneg; lia). zlia. }
    destruct (Hp mid Hm) as (b & -> & Hb). rewrite tbind_ok. destruct b.
    + destruct (IH mid hi) as (n & -> & Hn & HB); [lia|lia|intros; apply Hp; lia|right; by apply Hb|done|].
      exists n. split; [done|]. split; [lia|done].
    + destruct (IH lo mid) as (n & -> & Hn & HB); [lia|lia|intros; apply Hp; lia|done|by rewrite <- Hb|].
      exists n. split; [done|]. split; [lia|done].
  - exists lo. split; [done|]. split; [lia|]. split; [done|]. by replace (lo + 1) with hi by lia.
Qed.

(** Not all of [entries t + 1] integers are keys. *)
Lemma keys_bounded n : 0 <= n < 2 ^ 31 -> (forall k, 1 <= k <= n -> haskey k) -> n <= entries t.
Proof.
  intros Hn H. assert ((fun k => VNum (num_of_int k)) <$> seqZ 1 n ⊆+
    (arr_pairs 0 (array t) ++ node_pairs (node t)).*1) as HS.
  { apply NoDup_submseteq.
    - apply NoDup_fmap_2_strong; [|apply NoDup_seqZ]. intros x y Hx Hy [= E]. apply elem_of_seqZ in Hx, Hy.
      apply num_of_int_inj in E; [done|unfold in_i32; lia..].
    - intros k Hk. apply list_elem_of_fmap in Hk as (i & -> & Hi). apply elem_of_seqZ in Hi.
      destruct (H i) as (v & Hv); [lia|]. apply list_elem_of_fmap. exists (VNum (num_of_int i), v).
      split; [done|]. by apply has_pairs. }
  apply submseteq_length in HS. rewrite !length_fmap, length_seqZ, length_app in HS.
  unfold entries, zlen. lia.
Qed.

Lemma entries_bound : entries t <= asize t + zlen (node t).
Proof.
  unfold entries. rewrite arr_pairs_len. pose proof (akeys_len (array t) 0). pose proof (node_lens (node t)).
  unfold asize. lia.
Qed.

Lemma linear_spec fuel : forall lo, 1 <= lo -> (forall k, 1 <= k < lo -> haskey k) ->
  entries t + 2 - lo <= Z.of_nat fuel -> lo <= entries t + 1 ->
  exists n, linear fuel (present strhash t) lo = TOk n /\ lo <= n <= entries t + 1 /\ border (n - 1).
Proof.
  destruct (table_bounds strhash t W) as [B1 B2]. pose proof entries_bound as EB. unfold asize in EB.
  induction fuel as [|fuel IH]; intros lo Hlo Hk Hf Hb; [lia|]. cbn [linear].
  destruct (present_spec lo) as (b & -> & Hbk); [unfold in_i32; lia|]. rewrite tbind_ok. destruct b.
  - assert (forall k, 1 <= k < lo + 1 -> haskey k) as Hk'.
    { intros k Hk1. destruct (Z.eq_dec k lo) as [->|]; [by apply Hbk|apply Hk; lia]. }
    assert (lo <= entries t) as Hle by (apply keys_bounded; [lia|intros; apply Hk'; lia]).
    destruct (IH (lo + 1)) as (n & -> & Hn & HB); [lia|done|lia|lia|]. exists n. split; [done|]. split; [lia|done].
  - exists lo. split; [done|]. split; [lia|]. split.
    + destruct (Z.eq_dec lo 1) as [->|]; [by left|right]. apply Hk. lia.
    + replace (lo - 1 + 1) with lo by lia. by rewrite <- Hbk.
Qed.

Lemma widen_spec lin fuel : entries t + 1 <= Z.of_nat lin -> forall lo hi, 0 <= lo < hi -> hi <= INT_MAX - 2 ->
  2 ^ 31 <= hi * 2 ^ (Z.of_nat fuel - 1) -> (lo = 0 \/ haskey lo) ->
  exists r, widen strhash fuel lin t lo hi = TOk r /\
  match r with
  | inr n => border n /\ 0 <= n < INT_MAX
  | inl (lo', hi') => 0 <= lo' < hi' /\ hi' <= INT_MAX - 2 /\ (lo' = 0 \/ haskey lo') /\ ~ haskey hi'
  end.
Proof.
  unfold INT_MAX. intros Hlin. destruct (table_bounds strhash t W) as [B1 B2]. pose proof entries_bound as EB. unfold asize in EB.
  induction fuel as [|fuel IH]; intros lo hi Hlh Hhi Hf Hlo; [simpl in Hf; lia|]. cbn [widen].
  destruct (present_spec hi) as (b & -> & Hb); [unfold in_i32; lia|]. rewrite tbind_ok. destruct b.
  - unfold INT_MAX. destruct (2147483647 - 2 <? hi + hi) eqn:E.
    + destruct (linear_spec lin 1) as (n & -> & Hn & HB); [lia|lia|lia|pose proof (zlen_nonneg (arr_pairs 0 (array t)));
        pose proof (zlen_nonneg (node_pairs (node t))); unfold entries; lia|]. rewrite tbind_ok.
      exists (inr (u32 (n - 1))). split; [done|]. rewrite u32_small; [split; [done|unfold INT_MAX; lia]|]. unfold in_u32. lia.
    + apply IH; [lia|lia| |right; by apply Hb]. destruct fuel as [|fuel]; [simpl in Hf; lia|].
      assert (2 ^ (Z.of_nat (S (S fuel)) - 1) = 2 * 2 ^ (Z.of_nat (S fuel) - 1)) as E2.
      { rewrite <- Z.pow_succ_r by lia. f_equal. lia. }
      rewrite E2 in Hf. lia.
  - exists (inl (lo, hi)). split; [done|]. split; [done|]. split; [done|]. split; [done|]. by rewrite <- Hb.
Qed.

Lemma tab_len_slow_spec hi : 0 <= hi < LJ_MAX_ASIZE -> (hi = 0 \/ haskey hi) ->
  exists n, tab_len_slow strhash t hi = TOk n /\ border n /\ 0 <= n < INT_MAX.
Proof.
  rewrite max_asize. intros Hhi Hlo. unfold tab_len_slow. pose proof entries_bound as EB.
  destruct (widen_spec (Z.to_nat (asize t + zlen (node t) + 2)) 33) with (lo := hi) (hi := hi + 1) as (r & -> & Hr);
    try lia; [unfold INT_MAX; lia|done|]. rewrite tbind_ok.
  destruct r as [[lo' hi']|n]; [|eauto]. destruct Hr as (H1 & H2 & H3 & H4).
  destruct (bisect_spec (present strhash t) 33 lo' hi') as (n & -> & Hn & HB); try done.
  { unfold INT_MAX in H2. change (2 ^ (Z.of_nat 33 - 1)) with 4294967296. lia. }
  { intros k Hk. apply present_spec. unfold in_i32, INT_MAX in *. lia. }
  rewrite tbind_ok. exists (u32 n). split; [done|]. rewrite u32_small; [split; [done|unfold INT_MAX in *; lia]|].
  unfold in_u32, INT_MAX in *. lia.
Qed.

Lemma no_hash_key i : hmask t = 0 -> asize t <= i -> i < 2 ^ 31 -> ~ haskey i.
Proof.
  intros Hm Hi H31 (v & [[_ (j & [= E] & Hj)]|H]).
  - apply zget_Some_range in Hj. apply num_of_int_inj in E; [unfold asize in Hi; lia| |].
    + unfold in_i32. pose proof (zlen_nonneg (array t)). unfold asize in *. lia.
    + by eapply asize_i32.
  - destruct (hw_single _ _ _ (tw_hash _ _ W)) as [En _]; [unfold hmask in Hm; lia|].
    apply hash_live in H as (z & Hz & _). apply live_range in Hz as Hr. rewrite En in Hz, Hr.
    change (zlen [nilnode]) with 1 in Hr. assert (z = 0) as -> by lia. by apply Hz.
Qed.

Lemma len_spec : exists n, lj_tab_len strhash t = TOk n /\ border n /\ 0 <= n < INT_MAX.
Proof.
  destruct (table_bounds strhash t W) as [B1 B2]. pose proof (zlen_nonneg (array t)) as B3. unfold lj_tab_len.
  set (hi := if asize t =? 0 then 0 else asize t - 1).
  assert (0 <= hi <= 134217728 /\ hi <= asize t /\ (0 < hi -> hi = asize t - 1) /\ (hi = 0 -> asize t <= 1)) as (H1 & H2 & H3 & H4)
    by (unfold hi, asize in *; destruct (zlen (array t) =? 0) eqn:E; lia).
  assert (exists v, (if 0 <? hi then chk (zget (array t) hi) else TOk (VBool false)) = TOk v /\
    (0 < hi -> zget (array t) hi = Some v)) as (v & -> & Hv).
  { destruct (0 <? hi) eqn:E; [|exists (VBool false); split; [done|lia]].
    destruct (zget_is_Some (array t) hi) as [v Hv]; [unfold asize in *; lia|]. rewrite Hv. by exists v. }
  rewrite tbind_ok. destruct ((0 <? hi) && tvisnil v) eqn:E.
  - apply andb_true_iff in E as [E1 E2]. rewrite Z.ltb_lt in E1. specialize (Hv E1).
    edestruct (bisect_spec (fun mid => v ← chk (zget (array t) mid); TOk (negb (tvisnil v))) 33 0 hi) as (n & -> & Hn & HB).
    + lia.
    + change (2 ^ (Z.of_nat 33 - 1)) with 4294967296. lia.
    + intros k Hk. destruct (zget_is_Some (array t) k) as [x Hx]; [unfold asize in *; lia|]. rewrite Hx. cbn [chk].
      rewrite tbind_ok. exists (negb (tvisnil x)). split; [done|]. rewrite (has_array k x Hx). by destruct (tvisnil x).
    + by left.
    + rewrite (has_array hi v Hv). by rewrite E2.
    + rewrite tbind_ok. exists (u32 n). split; [done|]. rewrite u32_small; [split; [done|unfold INT_MAX; lia]|]. unfold in_u32. lia.
  - assert (hi = 0 \/ haskey hi) as Hb.
    { destruct (Z.eq_dec hi 0) as [|Hne]; [by left|right]. assert (0 < hi) as Hp by lia. specialize (Hv Hp).
      apply (has_array hi v Hv). replace (0 <? hi) with true in E by lia. done. }
    destruct (hmask t =? 0) eqn:Em.
    + exists (u32 hi). split; [done|]. rewrite u32_small by (unfold in_u32; lia). split; [|unfold INT_MAX; lia].
      split; [done|]. apply no_hash_key; [lia|unfold asize in *; lia|lia].
    + apply tab_len_slow_spec; [rewrite max_asize; lia|done].
Qed.

(** the length of a table is a border.  [lj_tab_len] ends within the
    rounds its searches are given, reads no slot outside the table, and
    returns an [n] such that [n] is zero or a key with a value and [n+1] is
    not; [lj_tab_len_hint] does so for every hint. *)
Theorem tab_len_border hint : 0 <= hint ->
  (exists n, lj_tab_len strhash t = TOk n /\ border n) /\
  (exists n, lj_tab_len_hint strhash t hint = TOk n /\ border n).
Proof.
  intros Hh. assert (exists n, lj_tab_len strhash t = TOk n /\ border n) as HL by (destruct len_spec as (n & ? & ? & _); eauto).
  split; [exact HL|]. destruct (table_bounds strhash t W) as [B1 B2]. unfold lj_tab_len_hint.
  destruct (hint + 1 <? asize t) eqn:E1.
  - unfold asize in E1. destruct (zget_is_Some (array t) hint) as [a Ha]; [lia|].
    destruct (zget_is_Some (array t) (hint + 1)) as [b Hb]; [lia|]. rewrite Ha, Hb. cbn [chk]. rewrite !tbind_ok.
    destruct (negb (tvisnil a) && tvisnil b) eqn:E2; [|exact HL]. exists (u32 hint). split; [done|].
    rewrite u32_small by (unfold in_u32; lia). apply andb_true_iff in E2 as [E3 E4]. split.
    + right. apply (has_array _ _ Ha). by destruct (tvisnil a).
    + rewrite (has_array _ _ Hb). by rewrite E4.
  - destruct ((hint + 1 <=? asize t) && (hmask t =? 0)) eqn:E2; [|exact HL].
    unfold asize in E1, E2. destruct (zget_is_Some (array t) hint) as [a Ha]; [lia|]. rewrite Ha. cbn [chk].
    rewrite tbind_ok. destruct (negb (tvisnil a)) eqn:E3; [|exact HL]. exists (u32 hint). split; [done|].
    rewrite u32_small by (unfold in_u32; lia). split.
    + right. apply (has_array _ _ Ha). by destruct (tvisnil a).
    + apply no_hash_key; [lia|unfold asize; lia|lia].
Qed.
End len.

Lemma tab_len_border_witness : exists n,
  lj_tab_len_hint (fun r => r) (MkTab 255 (replicate 5 VNil) [nilnode] 0) 3 = TOk n /\
  border (MkTab 255 (replicate 5 VNil) [nilnode] 0) n.
Proof.
  apply (tab_len_border (fun r => r) (MkTab 255 (replicate 5 VNil) [nilnode] 0) (tab_new_wf _) 3). discriminate.
Defined.
End TabNext.
