(* ===== verification/LjTabLife.v ===== *)
(** * LjTabLife

    The whole life of a table: any sequence of stores into a table, between
    which the collector may free strings and reuse their memory, is a sequence
    of updates of a finite map.  A node with nil value keeps its key, and when
    that key is a string that was freed its address may come back as another
    string with another hash; [lj_tab_newkey] has to keep its chains in order
    all the same. *)
From stdpp Require Import base tactics numbers list relations.
From Stdlib Require Import ZArith Lia.
From S2P Require Import Prelude LjTab LjTabHash LjTabKey LjTabMap LjTabRehash LjTabSpec LjTabNext.
Import Tab TabHash TabKey TabMap TabRehash TabSpec TabNext.
Open Scope Z_scope.

Module TabLife.

(** A store, or a collection after which strings have other hashes. *)
Inductive event := Store (key v : TValue) | Collect (strhash : Z -> Z).

Fixpoint life (strhash : Z -> Z) (t : GCtab) (es : list event) : tres ((Z -> Z) * GCtab) :=
  match es with
  | [] => TOk (strhash, t)
  | Store key v :: es' =>
      r ← lj_tab_set strhash (lj_tab_newkey strhash 1) t key;
      t' ← store r.1 r.2 v;
      life strhash t' es'
  | Collect strhash' :: es' => life strhash' t es'
  end.

(** ** The finite map *)

Definition upd (M : TValue -> TValue) (key v : TValue) : TValue -> TValue :=
  fun k => if decide (k = canon key) then v else M k.

Fixpoint contents (M : TValue -> TValue) (es : list event) : TValue -> TValue :=
  match es with
  | [] => M
  | Store key v :: es' => contents (upd M key v) es'
  | Collect _ :: es' => contents M es'
  end.

(** Keys are neither nil nor NaN; a string that is the key of a pair is alive,
    so it keeps its hash. *)
Fixpoint allowed (strhash : Z -> Z) (M : TValue -> TValue) (es : list event) : Prop :=
  match es with
  | [] => True
  | Store key v :: es' => settable key /\ allowed strhash (upd M key v) es'
  | Collect strhash' :: es' =>
      (forall r, M (VStr r) <> VNil -> strhash' r = strhash r) /\ allowed strhash' M es'
  end.

(** ** Refinement *)

(** [t] holds the map [M], whose keys are among [ks]. *)
Record holds (strhash : Z -> Z) (t : GCtab) (M : TValue -> TValue) (ks : list TValue) : Prop := {
  ho_wf : tab_wf strhash t;
  ho_map : forall k v, has t k v <-> M k = v /\ v <> VNil;
  ho_keys : forall k, M k <> VNil -> k ∈ ks }.

(** The invariant does not depend on the hashes of strings that are the key of
    no pair. *)
Lemma recycle_wf strhash strhash' t : tab_wf strhash t ->
  (forall r v, has t (VStr r) v -> strhash' r = strhash r) -> tab_wf strhash' t.
Proof.
  intros [W1 W2 W3] Hh. split; [done| |done]. destruct W2. constructor; try done.
  intros z Hz. destruct (hw_ok0 z Hz) as [J1 J2]. unfold anchored, first in *.
  assert (hashkey strhash' t (key_of (node t) z) = hashkey strhash t (key_of (node t) z)) as ->; [|done].
  unfold hashkey, key_hash. pose proof (live_hash _ _ Hz) as Hl. destruct (key_of (node t) z); try done.
  by rewrite (Hh _ _ (or_intror Hl)).
Qed.

Lemma holds_collect strhash strhash' t M ks : holds strhash t M ks ->
  (forall r, M (VStr r) <> VNil -> strhash' r = strhash r) -> holds strhash' t M ks.
Proof.
  intros [W Hm Hk] Hh. split; [|done|done]. apply (recycle_wf strhash); [done|].
  intros r v [E Hv]%Hm. apply Hh. by rewrite E.
Qed.

(** There are no more pairs than keys. *)
Lemma holds_entries strhash t M ks : holds strhash t M ks -> entries t <= zlen ks.
Proof.
  intros [W Hm Hk]. pose proof (keys_nodup strhash t W) as Hn. unfold entries. rewrite <- zlen_app.
  assert (Hs : (arr_pairs 0 (array t) ++ node_pairs (node t)).*1 ⊆+ ks).
  { apply NoDup_submseteq; [done|]. intros k Hin. apply list_elem_of_fmap in Hin as ([k' v] & -> & Hin).
    apply has_pairs, Hm in Hin as [E Hv]. apply Hk. cbn. by rewrite E. }
  apply submseteq_length in Hs. rewrite length_fmap in Hs. unfold zlen. lia.
Qed.

Lemma holds_store strhash t M ks key v : holds strhash t M ks -> settable key ->
  (lj_tab_set strhash (lj_tab_newkey strhash 1) t key = TErr TABOV /\ 2 ^ 26 <= zlen ks) \/
  exists t' s t'', lj_tab_set strhash (lj_tab_newkey strhash 1) t key = TOk (t', s) /\ store t' s v = TOk t'' /\
    holds strhash t'' (upd M key v) (canon key :: ks).
Proof.
  intros Hh Hk. pose proof Hh as [W Hm Hks].
  destruct (set_placed strhash t key W Hk) as [[E He]|(t' & s & -> & W' & HM & Hs)].
  { left. split; [done|]. pose proof (holds_entries _ _ _ _ Hh). lia. }
  right. destruct (store_spec strhash t' W' s (canon key) v Hs) as (t'' & E & W'' & _ & _ & _ & Hst).
  exists t', s, t''. split; [done|]. split; [done|]. split; [done| |].
  - intros k x. rewrite (Hst k x). unfold upd. case_decide as Ek.
    + naive_solver.
    + rewrite (HM k x), Hm. naive_solver.
  - intros k. unfold upd. case_decide as Ek; [intros _; rewrite Ek; left|]. intros Hn. right. by apply Hks.
Qed.

Lemma life_holds es : forall strhash t M ks, holds strhash t M ks -> allowed strhash M es ->
  (life strhash t es = TErr TABOV /\ 2 ^ 26 <= zlen ks + zlen es) \/
  exists h' t' ks', life strhash t es = TOk (h', t') /\ holds h' t' (contents M es) ks'.
Proof.
  induction es as [|[key v|h] es IH]; intros strhash t M ks Hh Ha; cbn [life contents allowed] in *.
  - right. eauto.
  - destruct Ha as [Hk Ha]. rewrite zlen_cons. pose proof (zlen_nonneg es).
    destruct (holds_store strhash t M ks key v Hh Hk) as [[-> Hn]|(t' & s & t'' & -> & E & Hh')].
    { left. split; [done|lia]. }
    cbn [mbind tres_bind fst snd]. rewrite E. cbn [mbind tres_bind].
    destruct (IH _ _ _ _ Hh' Ha) as [[-> Hn]|H']; [left|by right]. rewrite zlen_cons in Hn. split; [done|lia].
  - destruct Ha as [Hc Ha]. rewrite zlen_cons. pose proof (zlen_nonneg es).
    destruct (IH _ _ _ _ (holds_collect _ _ _ _ _ Hh Hc) Ha) as [[-> Hn]|H']; [left|by right]. split; [done|lia].
Qed.

(** C32: A table is a finite map for its whole life.  Start with a new table of
    any size and take any sequence of stores with keys that are neither nil nor
    NaN, and of collections, in which strings that are not the key of a pair
    may be freed and their memory reused for strings with other hashes, even
    while nodes with nil value still refer to them.  No access is outside the
    table's arrays and every loop ends; the last value stored for a key is what
    [lj_tab_get] then returns for it, and nil for a key nothing was stored for.
    Only a sequence of [2^26] events or more can raise the overflow error. *)
Theorem table_life strhash asz hbits es :
  0 <= asz <= LJ_MAX_ASIZE -> 0 <= hbits <= LJ_MAX_HBITS -> allowed strhash (fun _ => VNil) es ->
  exists t, lj_tab_new asz hbits = TOk t /\
  ((life strhash t es = TErr TABOV /\ 2 ^ 26 <= zlen es) \/
   exists h' t', life strhash t es = TOk (h', t') /\
     forall k, kvalid k -> lj_tab_get h' t' k = TOk (contents (fun _ => VNil) es (canon k))).
Proof.
  intros Ha Hb Hal. destruct (new_spec strhash asz hbits Ha Hb) as (t & E & W & _ & Hn). exists t. split; [done|].
  assert (Hh : holds strhash t (fun _ => VNil) []).
  { split; [done| |done]. intros k v. split; [by intros ?%Hn|by intros [<- ?]]. }
  destruct (life_holds es strhash t _ [] Hh Hal) as [H|(h' & t' & ks & El & [W' Hm _])]; [by left|right].
  exists h', t'. split; [done|]. intros k Hk. destruct (get_spec h' t' W' k Hk) as (v & -> & Hv). f_equal.
  apply (value_of_unique t' (canon k)); [done|]. intros v'. rewrite Hm. naive_solver.
Qed.

(** Four strings with one hash; the second one is set to nil and freed, its
    memory becomes a string with another hash, and is a key again. *)
Lemma table_life_witness :
  let h := fun _ => 0 in
  let h' := fun r => if r =? 2 then 3 else 0 in
  let es := [Store (VStr 1) (VBool true); Store (VStr 2) (VBool true); Store (VStr 3) (VBool true); Store (VStr 2) VNil;
             Collect h'; Store (VStr 4) (VBool false); Store (VStr 2) (VNum 0); Store (VStr 1) VNil] in
  exists t t', lj_tab_new 0 1 = TOk t /\ life h t es = TOk (h', t') /\
    lj_tab_get h' t' (VStr 1) = TOk VNil /\ lj_tab_get h' t' (VStr 2) = TOk (VNum 0) /\
    lj_tab_get h' t' (VStr 3) = TOk (VBool true) /\ lj_tab_get h' t' (VStr 4) = TOk (VBool false).
Proof.
  intros h h' es. destruct (table_life h 0 1 es) as (t & E & [[_ H]|(h2 & t' & El & Hg)]).
  - split; [lia|]. vm_compute. discriminate.
  - split; [lia|]. vm_compute. discriminate.
  - cbn [es allowed]. assert (Hs : forall r, settable (VStr r)) by (intros r; by split_and!).
    split_and!; try done. intros r. unfold upd, h'. cbn [canon]. destruct (Z.eqb_spec r 2) as [->|]; [|done].
    intros Hn. by destruct Hn.
  - exfalso. vm_compute in H. by apply H.
  - assert (h2 = h') as -> by (cbn [es life] in El; repeat match type of El with (?x ≫= _) = _ => destruct x; cbn [mbind tres_bind] in El; try done end;
      by injection El as <- _).
    exists t, t'. split; [exact E|]. split; [exact El|].
    split_and!; rewrite Hg by done; reflexivity.
Defined.
End TabLife.
