(* ===== verification/LjSerialize.v ===== *)
(** * LjSerialize

    The serializer of string buffers ([lj_serialize.c]): values to bytes and
    back, with the optional dictionaries of strings and metatables.

    A value is a tree; a table in it is its array part, its nodes and its
    metatable.  The encoder reads the parts of a table as they lie in memory.
    The tables the decoder makes are filled through [lj_tab_set]; here they
    are kept as the array part and the pairs in the order in which they were
    set, since [LjTabSpec] shows that, wherever it puts a node, [lj_tab_set]
    updates a finite map.  In the same way the prepared hash part of a
    dictionary is the list of its pairs.  Light userdata is its pointer value
    (the segments it is stored with are left out). *)
From stdpp Require Import base tactics numbers list.
From Stdlib Require Import ZArith Lia.
From S2P Require Import Prelude LjStr LjBuf LjTab LjTabNext.
Import Buf.
Open Scope Z_scope.

Module Serialize.

(** ** Values *)

(** [OOther] is what cannot be serialized; a metatable is named by its
    reference. *)
#[warnings="-register-all"]
Inductive obj :=
  | ONil | OFalse | OTrue
  | ONum (u : Z)
  | OStr (s : list Z)
  | OLight (ud : Z)
  | OI64 (x : Z) | OU64 (x : Z) | OComplex (re im : Z)
  | OTab (array : list obj) (node : list (obj * obj)) (mt : option Z)
  | OOther.

Definition isnil (o : obj) : bool := match o with ONil => true | _ => false end.

(** [itype(o) < LJ_TISNUM] on the bits of a value. *)
Definition tvisnum (u : Z) : bool := u32 (Z.shiftr (i64 u) 47) <? u32 (Z.lnot 13).

(** ** Results *)

Inductive serr := BUFFER_DEPTH | BUFFER_BADENC | BUFFER_BADDEC | BUFFER_BADDICTX | BUFFER_BADOPT
  | BUFFER_DUPKEY | BUFFER_EOB | BUFFER_LEFTOV | ERRMEM | ERRTAB (e : Tab.terr).

Inductive sres (A : Type) := SOk (a : A) | SErr (e : serr) | SBad | SFuel.
Arguments SOk {A} a.
Arguments SErr {A} e.
Arguments SBad {A}.
Arguments SFuel {A}.

#[export] Instance sres_ret : MRet sres := fun A a => SOk a.
#[export] Instance sres_bind : MBind sres := fun A B f o =>
  match o with SOk a => f a | SErr e => SErr e | SBad => SBad | SFuel => SFuel end.

(** Results of buffers and tables. *)
Definition lift {A} (x : res A) : sres A :=
  match x with Ok a => SOk a | ErrMem => SErr ERRMEM | Bad => SBad | NoFuel => SFuel end.
Definition liftt {A} (x : Tab.tres A) : sres A :=
  match x with Tab.TOk a => SOk a | Tab.TErr e => SErr (ERRTAB e) | Tab.TBad => SBad | Tab.TFuel => SFuel end.
(** [if (!r) goto eob] behind a call that may give no pointer. *)
Definition eob {A} (x : sres (option A)) : sres A :=
  o ← x; match o with Some a => SOk a | None => SErr BUFFER_EOB end.

(** ** Tags *)

Definition SER_TAG_NIL : Z := 0.
Definition SER_TAG_FALSE : Z := 1.
Definition SER_TAG_TRUE : Z := 2.
Definition SER_TAG_NULL : Z := 3.
Definition SER_TAG_LIGHTUD32 : Z := 4.
Definition SER_TAG_LIGHTUD64 : Z := 5.
Definition SER_TAG_INT : Z := 6.
Definition SER_TAG_NUM : Z := 7.
Definition SER_TAG_TAB : Z := 8.
Definition SER_TAG_DICT_MT : Z := SER_TAG_TAB + 6.
Definition SER_TAG_DICT_STR : Z := 15.
Definition SER_TAG_INT64 : Z := 0x10.
Definition SER_TAG_UINT64 : Z := 0x11.
Definition SER_TAG_COMPLEX : Z := 0x12.
Definition SER_TAG_STR : Z := 0x20.

(** ** Numbers of one, two or five bytes *)

(** [memcpy] of the low [n] bytes of a word. *)
Fixpoint bytes_le (n : nat) (x : Z) : list Z :=
  match n with O => [] | S n' => u8 x :: bytes_le n' (x / 256) end.

(** The word in the next [n] bytes, and what is behind them. *)
Fixpoint word_le (n : nat) (p : list Z) : option (Z * list Z) :=
  match n with
  | O => Some (0, p)
  | S n' =>
      match p with
      | [] => None
      | c :: p' => r ← word_le n' p'; Some (c + 256 * r.1, r.2)
      end
  end.

(** ** Reading

    The bytes [p] between the read and the write pointer.  The readers do no
    checks: behind the last byte they are at fault ([SBad]), and it is the
    decoder that has to compare the pointers before. *)
Definition get_u8 (p : list Z) : sres (Z * list Z) :=
  match p with [] => SBad | c :: p' => SOk (c, p') end.

Definition get_word (n : nat) (p : list Z) : sres (Z * list Z) :=
  match word_le n p with Some x => SOk x | None => SBad end.

(** The copy of [n] bytes into a new string. *)
Fixpoint get_bytes (n : nat) (p : list Z) : sres (list Z * list Z) :=
  match n with
  | O => SOk ([], p)
  | S n' => c ← get_u8 p; s ← get_bytes n' c.2; SOk (c.1 :: s.1, s.2)
  end.

Definition serialize_wu124_ (v : Z) : list Z :=
  if v <? 0x1fe0 then
    let v := v - 0xe0 in [u8 (Z.lor 0xe0 (Z.shiftr v 8)); u8 v]
  else 0xff :: bytes_le 4 v.

Definition serialize_wu124 (v : Z) : list Z := if v <? 0xe0 then [u8 v] else serialize_wu124_ v.

(** [None] is the null pointer. *)
Definition serialize_ru124_ (p : list Z) (v : Z) : sres (option (Z * list Z)) :=
  if negb (v =? 0xff) then
    if zlen p <=? 0 then SOk None
    else c ← get_u8 p; SOk (Some (Z.shiftl (Z.land v 0x1f) 8 + c.1 + 0xe0, c.2))
  else
    if zlen p <? 4 then SOk None
    else x ← get_word 4 p; SOk (Some x).

Definition serialize_ru124 (p : list Z) : sres (option (Z * list Z)) :=
  if 0 <? zlen p then
    v ← get_u8 p;
    if 0xe0 <=? v.1 then serialize_ru124_ v.2 v.1 else SOk (Some v)
  else SOk None.

(** ** Dictionaries *)

Inductive dslot (K : Type) := DKey (k : K) | DFalse | DNil | DBad.
Arguments DKey {K} k.
Arguments DFalse {K}.
Arguments DNil {K}.
Arguments DBad {K}.

(** The array slots, and the hash part once it was made. *)
Record dict (K : Type) := MkDict { d_slots : list (dslot K); d_hash : option (list (K * Z)) }.
Arguments MkDict {K} d_slots d_hash.
Arguments d_slots {K} d.
Arguments d_hash {K} d.

Section dict.
Context {K : Type} `{EqDecision K}.

Fixpoint assoc (k : K) (l : list (K * Z)) : option Z :=
  match l with [] => None | (k', i) :: l' => if decide (k = k') then Some i else assoc k l' end.

Definition d_find (d : dict K) (k : K) : option Z := assoc k (default [] (d_hash d)).

(** The array part as [lj_tab_len] sees it; without a hash part the hashes of
    strings do not matter. *)
Definition d_tab (slots : list (dslot K)) : Tab.GCtab :=
  Tab.MkTab 0 ((fun o => match o with DNil => Tab.VNil | _ => Tab.VBool true end) <$> slots) [Tab.nilnode] 0.

(** [for (i = 1; i <= len && i < dict->asize; i++)] over the slots from 1 on. *)
Fixpoint prep_loop (l : list (dslot K)) (i len : Z) (h : list (K * Z)) : sres (list (K * Z)) :=
  match l with
  | [] => SOk h
  | o :: l' =>
      if i <=? len then
        match o with
        | DKey k => prep_loop l' (i + 1) len (match assoc k h with None => h ++ [(k, i - 1)] | Some _ => h end)
        | DFalse => prep_loop l' (i + 1) len h
        | _ => SErr BUFFER_BADOPT
        end
      else SOk h
  end.

(** The same code for both kinds of keys. *)
Definition dict_prep (d : dict K) : sres (dict K) :=
  match d_hash d with
  | Some _ => SOk d
  | None =>
      len ← liftt (TabNext.lj_tab_len (fun _ => 0) (d_tab (d_slots d)));
      if len =? 0 then SOk d
      else if Tab.LJ_MAX_HBITS <? Tab.hsize2hbits len then SErr (ERRTAB Tab.TABOV)
      else h ← prep_loop (drop 1 (d_slots d)) 1 len []; SOk (MkDict (d_slots d) (Some h))
  end.
End dict.

Definition lj_serialize_dict_prep_str (d : dict (list Z)) : sres (dict (list Z)) := dict_prep d.
Definition lj_serialize_dict_prep_mt (d : dict Z) : sres (dict Z) := dict_prep d.

(** ** Tables the decoder makes *)

(** Raw equality of keys; tables and cdata objects are new ones. *)
Definition keyeq (a b : obj) : bool :=
  match a, b with
  | OFalse, OFalse | OTrue, OTrue => true
  | ONum u, ONum v => Tab.num_eq u v
  | OStr s, OStr t => bool_decide (s = t)
  | OLight u, OLight v => u =? v
  | _, _ => false
  end.

Inductive place := PArr (i : Z) | PPair (i : nat) | PNew.

Fixpoint pair_index (k : obj) (l : list (obj * obj)) : option nat :=
  match l with
  | [] => None
  | p :: l' => if keyeq p.1 k then Some O else S <$> pair_index k l'
  end.

(** The place of a key, and the value it has there. *)
Definition tab_set (arr : list obj) (pairs : list (obj * obj)) (k : obj) : sres (place * obj) :=
  let hash := match pair_index k pairs with
              | Some i => match pairs !! i with Some p => SOk (PPair i, p.2) | None => SBad end
              | None => SOk (PNew, ONil)
              end in
  match k with
  | ONil => SErr (ERRTAB Tab.NILIDX)
  | ONum u =>
      match Tab.num_int u with
      | Some i => match zget arr i with Some v => SOk (PArr i, v) | None => hash end
      | None => if Tab.num_isnan u then SErr (ERRTAB Tab.NANIDX) else hash
      end
  | _ => hash
  end.

Definition tab_store (arr : list obj) (pairs : list (obj * obj)) (p : place) (k v : obj)
    : list obj * list (obj * obj) :=
  match p with
  | PArr i => (<[Z.to_nat i := v]> arr, pairs)
  | PPair i => (arr, <[i := (k, v)]> pairs)
  | PNew => (arr, pairs ++ [(k, v)])
  end.

Section serializer.

(** The dictionaries of the buffer, and whether the FFI library is loaded. *)
Variable dict_str : option (dict (list Z)).
Variable dict_mt : option (dict Z).
Variable ffi : bool.

(** ** Encoding *)

(** [serialize_more] is [lj_buf_more] on the pointer kept in a register. *)
Definition put_more (sb : SBuf) (sz : Z) (bs : list Z) : sres SBuf :=
  lift (sb ← lj_buf_more sb (u32 sz); put_bytes sb bs).

Definition put_str (sb : SBuf) (s : list Z) : sres SBuf :=
  put_more sb (5 + zlen s) (serialize_wu124 (u32 (SER_TAG_STR + zlen s)) ++ s).

(** The array slots up to the last that is not nil. *)
Fixpoint used_slots (l : list obj) : Z :=
  match l with
  | [] => 0
  | o :: l' => let n := used_slots l' in if 0 <? n then n + 1 else if isnil o then 0 else 1
  end.

Definition used_nodes (l : list (obj * obj)) : Z := zlen (filter (fun p => isnil p.2 = false) l).

Fixpoint put_list (put : SBuf -> obj -> sres SBuf) (sb : SBuf) (l : list obj) : sres SBuf :=
  match l with [] => SOk sb | o :: l' => sb ← put sb o; put_list put sb l' end.

(** A key, looked up in the dictionary of strings. *)
Definition put_key (put : SBuf -> obj -> sres SBuf) (sb : SBuf) (k : obj) : sres SBuf :=
  match dict_str, k with
  | Some d, OStr s =>
      match d_find d s with
      | Some idx => put_more sb (1 + 5) (SER_TAG_DICT_STR :: serialize_wu124 (u32 idx))
      | None => put_str sb s
      end
  | _, _ => put sb k
  end.

(** From the last node downwards until [nhash] pairs were written. *)
Fixpoint put_nodes (put : SBuf -> obj -> sres SBuf) (sb : SBuf) (l : list (obj * obj)) (nhash : Z)
    : sres SBuf :=
  match l with
  | [] => SBad
  | (k, v) :: l' =>
      if negb (isnil v) then
        sb ← put_key put sb k;
        sb ← put sb v;
        if nhash - 1 =? 0 then SOk sb else put_nodes put sb l' (nhash - 1)
      else put_nodes put sb l' nhash
  end.

Definition put_mt (sb : SBuf) (mt : option Z) : sres SBuf :=
  match dict_mt, mt with
  | Some d, Some m =>
      match d_find d m with
      | Some idx => put_more sb (1 + 5) (SER_TAG_DICT_MT :: serialize_wu124 (u32 idx))
      | None => SOk sb
      end
  | _, _ => SOk sb
  end.

(** [depth] is the nesting still allowed. *)
Fixpoint serialize_put (depth : nat) (sb : SBuf) (o : obj) : sres SBuf :=
  match o with
  | OStr s => put_str sb s
  | ONum u => put_more sb (1 + 8) (SER_TAG_NUM :: bytes_le 8 u)
  | ONil => put_more sb 1 [SER_TAG_NIL]
  | OFalse => put_more sb 1 [SER_TAG_FALSE]
  | OTrue => put_more sb 1 [SER_TAG_TRUE]
  | OTab array node mt =>
      match depth with
      | O => SErr BUFFER_DEPTH
      | S d =>
          let narray := used_slots array in
          let one := if (0 <? narray) && isnil (default ONil (head array)) then 4 else 2 in
          let nhash := if 0 <? zlen node - 1 then used_nodes node else 0 in
          sb ← put_mt sb mt;
          sb ← put_more sb (1 + 2 * 5)
            (u8 (SER_TAG_TAB + (if negb (nhash =? 0) then 1 else 0) + (if negb (narray =? 0) then one else 0)) ::
             (if negb (narray =? 0) then serialize_wu124 narray else []) ++
             (if negb (nhash =? 0) then serialize_wu124 nhash else []));
          sb ← (if negb (narray =? 0) then
                  put_list (serialize_put d) sb
                    (drop (Z.to_nat (Z.shiftr one 2)) (take (Z.to_nat narray) array))
                else SOk sb);
          if negb (nhash =? 0) then put_nodes (serialize_put d) sb (reverse node) nhash else SOk sb
      end
  | OI64 x => put_more sb (1 + 8) (SER_TAG_INT64 :: bytes_le 8 x)
  | OU64 x => put_more sb (1 + 8) (SER_TAG_UINT64 :: bytes_le 8 x)
  | OComplex re im => put_more sb (1 + 16) (SER_TAG_COMPLEX :: bytes_le 8 re ++ bytes_le 8 im)
  | OLight ud =>
      put_more sb (1 + 8)
        (if ud =? 0 then [SER_TAG_NULL]
         else if ud =? u32 ud then SER_TAG_LIGHTUD32 :: bytes_le 4 ud
         else SER_TAG_LIGHTUD64 :: bytes_le 8 ud)
  | OOther => SErr BUFFER_BADENC
  end.

(** ** Decoding *)

(** Numbers that are not canonical NaNs. *)
Definition fixnan (u : Z) : Z := if tvisnum u then u else 0xfff8000000000000.

(** Every element takes a byte at least, which bounds the rounds; the last one
    may find the input at its end. *)
Fixpoint get_slots (get : list Z -> sres (obj * list Z)) (fuel : nat) (n : Z) (p : list Z)
    : sres (list obj * list Z) :=
  if n <=? 0 then SOk ([], p)
  else
    match fuel with
    | O => SFuel
    | S fuel' =>
        r ← get p;
        rs ← get_slots get fuel' (n - 1) r.2;
        SOk (r.1 :: rs.1, rs.2)
    end.

Fixpoint get_pairs (get : list Z -> sres (obj * list Z)) (fuel : nat) (nhash : Z)
    (t : list obj * list (obj * obj)) (p : list Z) : sres ((list obj * list (obj * obj)) * list Z) :=
  if nhash <=? 0 then SOk (t, p)
  else
    match fuel with
    | O => SFuel
    | S fuel' =>
        k ← get p;
        s ← tab_set t.1 t.2 k.1;
        if negb (isnil s.2) then SErr BUFFER_DUPKEY
        else
          v ← get k.2;
          get_pairs get fuel' (nhash - 1) (tab_store t.1 t.2 s.1 k.1 v.1) v.2
    end.

(** A dictionary slot for an index read from the buffer. *)
Definition dict_slot {K} (d : option (dict K)) (idx : Z) : sres K :=
  let idx := u32 (idx + 1) in
  match d with
  | Some d => match zget (d_slots d) idx with Some (DKey k) => SOk k | _ => SErr BUFFER_BADDICTX end
  | None => SErr BUFFER_BADDICTX
  end.

(** The metatable and the tag that follows it. *)
Definition get_mt (tp : Z) (p : list Z) : sres (option Z * Z * list Z) :=
  if tp =? SER_TAG_DICT_MT then
    r ← eob (serialize_ru124 p);
    m ← dict_slot dict_mt r.1;
    r ← eob (serialize_ru124 r.2);
    if (SER_TAG_TAB <=? r.1) && (r.1 <? SER_TAG_DICT_MT) then SOk (Some m, r.1, r.2) else SErr BUFFER_BADDEC
  else SOk (None, tp, p).

Definition get_tab (get : list Z -> sres (obj * list Z)) (tp : Z) (p : list Z) : sres (obj * list Z) :=
  m ← get_mt tp p;
  let '(mt, tp, p) := m in
  a ← (if SER_TAG_TAB + 2 <=? tp then eob (serialize_ru124 p) else SOk (0, p));
  h ← (if negb (Z.land tp 1 =? 0) then eob (serialize_ru124 a.2) else SOk (0, a.2));
  let narray := a.1 in
  let nhash := h.1 in
  if (Tab.LJ_MAX_ASIZE <? narray) || (Tab.LJ_MAX_HBITS <? Tab.hsize2hbits nhash) then SErr (ERRTAB Tab.TABOV)
  else
    let skip := if SER_TAG_TAB + 4 <=? tp then 1 else 0 in
    s ← (if negb (narray =? 0) then
           s ← get_slots get (S (length h.2)) (narray - skip) h.2;
           SOk (replicate (Z.to_nat skip) ONil ++ s.1, s.2)
         else SOk ([], h.2));
    t ← get_pairs get (S (length s.2)) nhash (s.1, []) s.2;
    SOk (OTab t.1.1 t.1.2 mt, t.2).

Definition get_cdata (tp : Z) (p : list Z) : sres (obj * list Z) :=
  let sz := if tp =? SER_TAG_COMPLEX then 16 else 8 in
  if zlen p <? sz then SErr BUFFER_EOB
  else if negb ffi then SErr BUFFER_BADDEC
  else
    x ← get_word 8 p;
    if sz =? 16 then y ← get_word 8 x.2; SOk (OComplex (fixnan x.1) (fixnan y.1), y.2)
    else SOk (if tp =? SER_TAG_INT64 then OI64 x.1 else OU64 x.1, x.2).

Definition get_light (tp : Z) (p : list Z) : sres (obj * list Z) :=
  r ← (if tp =? SER_TAG_LIGHTUD32 then if zlen p <? 4 then SErr BUFFER_EOB else get_word 4 p
       else if tp =? SER_TAG_LIGHTUD64 then if zlen p <? 8 then SErr BUFFER_EOB else get_word 8 p
       else SOk (0, p));
  SOk (OLight r.1, r.2).

(** A buffer is shorter than [2^32] bytes, so the cast of [w - r] in the
    check of the string's length changes nothing. *)
Fixpoint serialize_get (depth : nat) (p : list Z) : sres (obj * list Z) :=
  r ← eob (serialize_ru124 p);
  let '(tp, p) := r in
  if SER_TAG_STR <=? tp then
    let len := tp - SER_TAG_STR in
    if zlen p <? len then SErr BUFFER_EOB
    else s ← get_bytes (Z.to_nat len) p; SOk (OStr s.1, s.2)
  else if tp =? SER_TAG_INT then
    if zlen p <? 4 then SErr BUFFER_EOB
    else x ← get_word 4 p; SOk (ONum (Tab.num_of_int (i32 x.1)), x.2)
  else if tp =? SER_TAG_NUM then
    if zlen p <? 8 then SErr BUFFER_EOB
    else x ← get_word 8 p; SOk (ONum (fixnan x.1), x.2)
  else if tp <=? SER_TAG_TRUE then
    SOk (if tp =? SER_TAG_NIL then ONil else if tp =? SER_TAG_FALSE then OFalse else OTrue, p)
  else if tp =? SER_TAG_DICT_STR then
    x ← eob (serialize_ru124 p); s ← dict_slot dict_str x.1; SOk (OStr s, x.2)
  else if (SER_TAG_TAB <=? tp) && (tp <=? SER_TAG_DICT_MT) then
    match depth with O => SErr BUFFER_DEPTH | S d => get_tab (serialize_get d) tp p end
  else if (SER_TAG_INT64 <=? tp) && (tp <=? SER_TAG_COMPLEX) then get_cdata tp p
  else if tp <=? SER_TAG_LIGHTUD64 then get_light tp p
  else SErr BUFFER_BADDEC.

(** ** The interface *)

Definition LJ_SERIALIZE_DEPTH : nat := 100.

Definition lj_serialize_put (sb : SBuf) (o : obj) : sres SBuf := serialize_put LJ_SERIALIZE_DEPTH sb o.

(** The bytes between two offsets of a buffer, when all were written. *)
Definition sbuf_bytes (sb : SBuf) (from to : Z) : option (list Z) :=
  mapM id (take (Z.to_nat (to - from)) (drop (Z.to_nat from) (mem sb))).

(** The value, and the bytes behind it. *)
Definition lj_serialize_get (sb : SBuf) : sres (obj * list Z) :=
  match sbuf_bytes sb (r sb) (w sb) with
  | Some p => serialize_get LJ_SERIALIZE_DEPTH p
  | None => SBad
  end.
End serializer.

(** Without dictionaries, through the temporary buffer. *)
Definition lj_serialize_encode (tmpbuf : SBuf) (o : obj) : sres (list Z) :=
  sb ← serialize_put None None LJ_SERIALIZE_DEPTH (lj_bufx_set_borrow tmpbuf) o;
  match sbuf_bytes sb 0 (w sb) with Some s => SOk s | None => SBad end.

Definition lj_serialize_decode (ffi : bool) (str : list Z) : sres obj :=
  let sb := lj_bufx_set_cow str in
  match sbuf_bytes sb (r sb) (w sb) with
  | Some p =>
      x ← serialize_get None None ffi LJ_SERIALIZE_DEPTH p;
      if negb (zlen x.2 =? 0) then SErr BUFFER_LEFTOV else SOk x.1
  | None => SBad
  end.

(** *** The type a decode would give *)
Inductive IRType := IRT_NIL | IRT_FALSE | IRT_TRUE | IRT_LIGHTUD | IRT_NUM | IRT_TAB | IRT_CDATA | IRT_STR.

Definition lj_serialize_peektype (p : list Z) : sres IRType :=
  x ← serialize_ru124 p;
  SOk match x with
  | Some (tp, _) =>
      if tp =? SER_TAG_NIL then IRT_NIL
      else if tp =? SER_TAG_FALSE then IRT_FALSE
      else if tp =? SER_TAG_TRUE then IRT_TRUE
      else if (tp =? SER_TAG_NULL) || (tp =? SER_TAG_LIGHTUD32) || (tp =? SER_TAG_LIGHTUD64) then IRT_LIGHTUD
      else if (tp =? SER_TAG_INT) || (tp =? SER_TAG_NUM) then IRT_NUM
      else if (SER_TAG_TAB <=? tp) && (tp <=? SER_TAG_DICT_MT) then IRT_TAB
      else if (SER_TAG_INT64 <=? tp) && (tp <=? SER_TAG_COMPLEX) then IRT_CDATA
      else IRT_STR
  | None => IRT_NIL
  end.
End Serialize.
