(* ===== verification/LjSerializeSpec.v ===== *)
(** * LjSerializeSpec

    The serializer of [LjSerialize]: decoding gives back what was encoded, on
    any buffer and with any dictionaries; the decoder ends on every input with
    a value or an error; the type announced for specialisation is the type of
    the decoded value. *)
From stdpp Require Import base tactics numbers list.
From Stdlib Require Import ZArith Lia.
From S2P Require Import Prelude LjStr LjBuf LjTab LjTabNext LjSerialize.
Import Buf Serialize.
Open Scope Z_scope.

Module SerializeSpec.

(** ** Words *)

Lemma bytes_le_length n : forall x, length (bytes_le n x) = n.
Proof. induction n as [|n IH]; intros x; cbn [bytes_le length]; [done|]. by rewrite IH. Qed.

Lemma word_bytes n : forall x rest, 0 <= x < 256 ^ Z.of_nat n ->
  word_le n (bytes_le n x ++ rest) = Some (x, rest).
Proof.
  induction n as [|n IH]; intros x rest Hx; cbn [bytes_le word_le app].
  { change (256 ^ Z.of_nat 0) with 1 in Hx. do 2 f_equal. lia. }
  replace (Z.of_nat (S n)) with (Z.of_nat n + 1) in Hx by lia. rewrite Z.pow_add_r in Hx by lia.
  rewrite IH by (split; [apply Z.div_pos; lia|apply Z.div_lt_upper_bound; lia]).
  cbn [mbind option_bind fst snd]. do 2 f_equal. unfold u8. pose proof (Z.div_mod x 256). lia.
Qed.

Lemma wu124_len v : 1 <= zlen (serialize_wu124 v) <= 5.
Proof.
  unfold serialize_wu124, serialize_wu124_. destruct (v <? 0xe0); [done|]. destruct (v <? 0x1fe0); [done|].
  rewrite zlen_cons. unfold zlen. rewrite bytes_le_length. lia.
Qed.

(** Reads that the checks before them allow. *)
Lemma zlen_bytes_le n x : zlen (bytes_le n x) = Z.of_nat n.
Proof. unfold zlen. by rewrite bytes_le_length. Qed.

Lemma bytes_le_fit n x rest : (zlen (bytes_le n x ++ rest) <? Z.of_nat n) = false.
Proof. rewrite zlen_app, zlen_bytes_le. pose proof (zlen_nonneg rest). lia. Qed.

Lemma get_word_bytes n x rest : 0 <= x < 256 ^ Z.of_nat n ->
  get_word n (bytes_le n x ++ rest) = SOk (x, rest).
Proof. intros Hx. unfold get_word. by rewrite word_bytes. Qed.

Lemma get_word_fits n : forall p, Z.of_nat n <= zlen p -> exists x p', get_word n p = SOk (x, p') /\ zlen p' = zlen p - Z.of_nat n.
Proof.
  unfold get_word. induction n as [|n IH]; intros p Hp; cbn [word_le]; [exists 0, p; split; [done|lia]|].
  destruct p as [|c p]; [by cbn in Hp|]. rewrite zlen_cons in *. destruct (IH p) as (x & p' & E & Hl); [lia|].
  destruct (word_le n p) as [[y q]|]; [|done]. injection E as -> ->. cbn. eexists _, _. split; [done|]. lia.
Qed.

Lemma get_bytes_app s rest : get_bytes (length s) (s ++ rest) = SOk (s, rest).
Proof. induction s as [|c s IH]; cbn [get_bytes length app]; [done|]. cbn. by rewrite IH. Qed.

Lemma get_bytes_fits n : forall p, Z.of_nat n <= zlen p ->
  get_bytes n p = SOk (take n p, drop n p).
Proof.
  intros p Hp. assert (Hl : length (take n p) = n) by (rewrite length_take; unfold zlen in Hp; lia).
  rewrite <- (take_drop n p) at 1. rewrite <- Hl at 1. by rewrite get_bytes_app.
Qed.

Lemma ru124_small v rest : 0 <= v < 0xe0 -> serialize_ru124 (v :: rest) = SOk (Some (v, rest)).
Proof.
  intros Hv. unfold serialize_ru124. rewrite zlen_cons. pose proof (zlen_nonneg rest).
  replace (0 <? 1 + zlen rest) with true by lia. cbn. by replace (0xe0 <=? v) with false by lia.
Qed.

Lemma ru124_large v rest : 0xe0 <= v -> serialize_ru124 (v :: rest) = serialize_ru124_ rest v.
Proof.
  intros Hv. unfold serialize_ru124. rewrite zlen_cons. pose proof (zlen_nonneg rest).
  replace (0 <? 1 + zlen rest) with true by lia. cbn. by replace (0xe0 <=? v) with true by lia.
Qed.

Lemma ru124_wu124 v rest : in_u32 v -> serialize_ru124 (serialize_wu124 v ++ rest) = SOk (Some (v, rest)).
Proof.
  unfold in_u32, serialize_wu124, serialize_wu124_. intros Hv.
  destruct (Z.ltb_spec v 0xe0); cbn [app].
  { rewrite u8_small by (unfold in_u8; lia). apply ru124_small. lia. }
  destruct (Z.ltb_spec v 0x1fe0); cbn [app].
  - set (h := (v - 0xe0) / 256). assert (Hh : 0 <= h <= 30) by (subst h; zlia).
    rewrite Z.shiftr_div_pow2 by lia. change (2 ^ 8) with 256. fold h.
    assert (El : u8 (Z.lor 0xe0 h) = 0xe0 + h /\ Z.land (0xe0 + h) 0x1f = h).
    { clearbody h. assert (Hi : h ∈ seqZ 0 31) by (apply elem_of_seqZ; lia).
      revert Hi. generalize h. apply Forall_forall. by repeat constructor. }
    destruct El as [-> El]. rewrite ru124_large by lia. unfold serialize_ru124_.
    replace (0xe0 + h =? 0xff) with false by lia. cbn [negb]. rewrite El, zlen_cons. pose proof (zlen_nonneg rest).
    replace (1 + zlen rest <=? 0) with false by lia. cbn [get_u8 mbind sres_bind fst snd].
    rewrite Z.shiftl_mul_pow2 by lia. change (2 ^ 8) with 256. do 3 f_equal. subst h. unfold u8. zlia.
  - rewrite ru124_large by lia. unfold serialize_ru124_. change (0xff =? 0xff) with true. cbn [negb].
    change 4 with (Z.of_nat 4) at 1. rewrite bytes_le_fit, get_word_bytes; [done|]. change (256 ^ Z.of_nat 4) with 4294967296. lia.
Qed.

(** ** Writers *)

(** [f] appends [bs] to any buffer with [n] bytes of room below the limit. *)
Definition codes (f : SBuf -> sres SBuf) (n : Z) (bs : list Z) : Prop :=
  zlen bs <= n /\ forall sb c, holds sb c -> w sb + n <= LJ_MAX_BUF ->
    exists sb', f sb = SOk sb' /\ holds sb' (c ++ bs) /\ w sb' <= w sb + zlen bs.

Lemma codes_nonneg f n bs : codes f n bs -> 0 <= n.
Proof. intros [H _]. pose proof (zlen_nonneg bs). lia. Qed.

Lemma codes_id : codes SOk 0 [].
Proof.
  split; [done|]. intros sb c H _. exists sb. rewrite app_nil_r. change (zlen []) with 0. split_and!; [done|done|lia].
Qed.

Lemma codes_more n bs : zlen bs <= n -> codes (fun sb => put_more sb n bs) n bs.
Proof.
  intros Hb. pose proof (zlen_nonneg bs) as H0. split; [lia|]. intros sb c H Hw. unfold put_more.
  destruct (holds_bounds sb c H) as (B1 & B2 & _). pose proof (zlen_nonneg c). unfold LJ_MAX_BUF in *.
  rewrite u32_small by (unfold in_u32; lia).
  destruct (put_append sb c bs n H Hb) as (sb' & -> & H' & W'); [unfold LJ_MAX_BUF; lia|lia|].
  exists sb'. split_and!; [done|done|lia].
Qed.

Lemma codes_bind f g n m bs bs' :
  codes f n bs -> codes g m bs' -> codes (fun sb => sb ← f sb; g sb) (n + m) (bs ++ bs').
Proof.
  intros Cf Cg. pose proof (codes_nonneg _ _ _ Cg) as Hm0. destruct Cf as [Hn Hf], Cg as [Hm Hg].
  unfold codes. rewrite zlen_app. split; [lia|]. intros sb c H Hw.
  destruct (Hf sb c H) as (sb1 & -> & H1 & W1); [lia|]. cbn [mbind sres_bind].
  destruct (Hg sb1 _ H1) as (sb2 & -> & H2 & W2); [lia|]. exists sb2. rewrite <- app_assoc in H2.
  split_and!; [done|done|lia].
Qed.

Lemma codes_weaken f n m bs : codes f n bs -> n <= m -> codes f m bs.
Proof.
  intros [Hn Hf] Hm. split; [lia|]. intros sb c H Hw. destruct (Hf sb c H) as (sb' & E & H' & W'); [lia|].
  exists sb'. split_and!; [done|done|lia].
Qed.

Lemma codes_ext f g n bs : (forall sb, f sb = g sb) -> codes f n bs -> codes g n bs.
Proof. intros E [Hn Hf]. split; [done|]. intros sb c H Hw. rewrite <- E. by apply Hf. Qed.

(** [bs] is written for a value and read back as [v]. *)
Definition wire (f : SBuf -> sres SBuf) (get : list Z -> sres (obj * list Z)) (n : Z) (v : obj) (bs : list Z) : Prop :=
  codes f n bs /\ bs <> [] /\ forall rest, get (bs ++ rest) = SOk (v, rest).

(** ** Sequences *)

Section lists.
Context (put : SBuf -> obj -> sres SBuf) (get : list Z -> sres (obj * list Z)).
Context (bound : obj -> Z) (nf : obj -> obj).

Abbreviation item o bs := (wire (fun sb => put sb o) get (bound o) (nf o) bs).

Definition sum (l : list obj) : Z := foldr (fun o n => bound o + n) 0 l.

Lemma put_list_wire l : Forall (fun o => exists bs, item o bs) l ->
  exists bs, codes (fun sb => put_list put sb l) (sum l) bs /\ (length l <= length bs)%nat /\
    forall rest fuel, (length l <= fuel)%nat ->
      get_slots get fuel (zlen l) (bs ++ rest) = SOk (nf <$> l, rest).
Proof.
  induction 1 as [|o l (bo & Co & No & Go) _ (bl & Cl & Ll & Gl)]; cbn [put_list sum foldr].
  { exists []. split_and!; [apply codes_id|reflexivity|]. intros rest [|fuel] _; reflexivity. }
  exists (bo ++ bl). split_and!.
  - by apply codes_bind.
  - rewrite length_app. destruct bo; [done|]. cbn. lia.
  - intros rest fuel Hf. destruct fuel as [|fuel]; [cbn in Hf; lia|]. cbn [get_slots].
    rewrite zlen_cons. pose proof (zlen_nonneg l). replace (1 + zlen l <=? 0) with false by lia.
    rewrite <- app_assoc, Go. cbn [mbind sres_bind fst snd].
    replace (1 + zlen l - 1) with (zlen l) by lia. rewrite Gl by (cbn in Hf; lia). done.
Qed.

(** *** Pairs *)

Definition used (l : list (obj * obj)) : list (obj * obj) := filter (fun p => isnil p.2 = false) l.
Definition pairs (l : list (obj * obj)) : list (obj * obj) := (fun p => (nf p.1, nf p.2)) <$> used l.
End lists.

(** A key that [lj_tab_set] takes and that does not lie in an array part of
    [asz] slots. *)
Definition good_key (asz : Z) (k : obj) : Prop :=
  match k with
  | ONil => False
  | ONum u => Tab.num_isnan u = false /\ forall i, Tab.num_int u = Some i -> ~ 0 <= i < asz
  | _ => True
  end.

Fixpoint distinct (l : list (obj * obj)) : Prop :=
  match l with [] => True | p :: l' => Forall (fun q => keyeq p.1 q.1 = false) l' /\ distinct l' end.

(** The pairs [ps] can be added to a table with the pairs [acc]. *)
Definition fresh (arr : list obj) (acc ps : list (obj * obj)) : Prop :=
  Forall (fun p => good_key (zlen arr) p.1 /\ Forall (fun q => keyeq q.1 p.1 = false) acc) ps /\ distinct ps.

Lemma pair_index_none k l : Forall (fun q => keyeq q.1 k = false) l -> pair_index k l = None.
Proof. induction 1 as [|q l Hq _ IH]; cbn [pair_index]; [done|]. by rewrite Hq, IH. Qed.

Lemma zget_out {A} (l : list A) i : ~ 0 <= i < zlen l -> zget l i = None.
Proof.
  intros H. destruct (zget l i) eqn:E; [|done]. apply zget_Some_range in E. lia.
Qed.

Lemma fresh_cons arr acc p ps : fresh arr acc (p :: ps) ->
  tab_set arr acc p.1 = SOk (PNew, ONil) /\ fresh arr (acc ++ [p]) ps.
Proof.
  intros [H Hd]. apply Forall_cons in H as [[Hk Ha] H]. destruct Hd as [Hd1 Hd2]. split.
  - unfold tab_set. rewrite (pair_index_none _ _ Ha). destruct (p.1) as [| | |u| | | | | | |]; try done.
    destruct Hk as [Hn Hi]. destruct (Tab.num_int u) as [i|]; [|by rewrite Hn].
    by rewrite (zget_out arr i (Hi i eq_refl)).
  - split; [|done]. apply Forall_forall. intros q Hq.
    destruct (proj1 (Forall_forall _ _) H q Hq) as [Hg Hf]. split; [done|].
    apply Forall_app. split; [done|]. constructor; [|constructor].
    by apply (proj1 (Forall_forall _ _) Hd1 q Hq).
Qed.

Section nodes.
Context (dict_str : option (dict (list Z))).
Context (put : SBuf -> obj -> sres SBuf) (get : list Z -> sres (obj * list Z)).
Context (bound : obj -> Z) (nf : obj -> obj) (Hbound : forall o, 0 <= bound o).

Definition sum2 (l : list (obj * obj)) : Z := foldr (fun p n => bound p.1 + 6 + bound p.2 + n) 0 l.

Lemma sum2_nonneg l : 0 <= sum2 l.
Proof using Hbound.
  unfold sum2. induction l as [|[k v] l IH]; cbn [foldr fst snd]; [lia|].
  pose proof (Hbound k). pose proof (Hbound v). lia.
Qed.

Definition node_wire (p : obj * obj) : Prop :=
  (exists bs, wire (fun sb => put_key dict_str put sb p.1) get (bound p.1 + 6) (nf p.1) bs) /\
  (exists bs, wire (fun sb => put sb p.2) get (bound p.2) (nf p.2) bs).

Lemma used_nodes_cons k v l : used_nodes ((k, v) :: l) = (if isnil v then 0 else 1) + used_nodes l.
Proof.
  unfold used_nodes. rewrite filter_cons. cbn [snd]. destruct (isnil v); cbn; [done|].
  case_decide; [|done]. by rewrite zlen_cons.
Qed.

Lemma pairs_cons k v l :
  pairs nf ((k, v) :: l) = (if isnil v then [] else [(nf k, nf v)]) ++ pairs nf l.
Proof.
  unfold pairs, used. rewrite filter_cons. cbn [snd]. destruct (isnil v); cbn; [done|]. by case_decide.
Qed.

Lemma used_nodes_pairs l : used_nodes l = zlen (pairs nf l).
Proof. unfold used_nodes, pairs, used, zlen. by rewrite length_fmap. Qed.

Lemma put_nodes_wire l : Forall node_wire l -> 0 < used_nodes l ->
  exists bs, codes (fun sb => put_nodes dict_str put sb l (used_nodes l)) (sum2 l) bs /\
    used_nodes l <= zlen bs /\
    forall rest fuel arr acc, used_nodes l <= Z.of_nat fuel -> fresh arr acc (pairs nf l) ->
      get_pairs get fuel (used_nodes l) (arr, acc) (bs ++ rest) = SOk ((arr, acc ++ pairs nf l), rest).
Proof.
  induction 1 as [|[k v] l [(bk & Ck & Nk & Gk) (bv & Cv & Nv & Gv)] Hl IH]; intros Hu; [by cbn in Hu|].
  cbn [fst snd] in *. rewrite used_nodes_cons, pairs_cons in *. cbn [put_nodes sum2 foldr fst snd].
  assert (Hs : 0 <= bound k + 6 + bound v) by (apply codes_nonneg in Ck, Cv; lia).
  destruct (isnil v) eqn:Ev; cbn [negb app].
  { destruct (IH Hu) as (bs & C & L & G). exists bs. split_and!; [|done|done].
    rewrite Z.add_0_l. eapply codes_weaken; [exact C|]. unfold sum2. lia. }
  pose proof (used_nodes_pairs l) as Hp. pose proof (zlen_nonneg (pairs nf l)) as Hp0.
  assert (Hkv : 2 <= zlen (bk ++ bv)).
  { destruct bk; [done|]. destruct bv; [done|]. rewrite zlen_app, !zlen_cons.
    pose proof (zlen_nonneg bk). pose proof (zlen_nonneg bv). lia. }
  assert (Hstep : forall rest fuel arr acc n, 0 < n -> fresh arr acc ((nf k, nf v) :: pairs nf l) ->
    get_pairs get (S fuel) n (arr, acc) ((bk ++ bv) ++ rest) =
    get_pairs get fuel (n - 1) (arr, acc ++ [(nf k, nf v)]) rest /\
    fresh arr (acc ++ [(nf k, nf v)]) (pairs nf l)).
  { intros rest fuel arr acc n Hn Hf. destruct (fresh_cons _ _ _ _ Hf) as [Ht Hf']. split; [|done].
    cbn [get_pairs fst snd] in *. replace (n <=? 0) with false by lia.
    rewrite <- app_assoc, Gk. cbn [mbind sres_bind fst snd]. rewrite Ht. cbn [mbind sres_bind fst snd isnil negb].
    rewrite Gv. done. }
  destruct (Z.eqb_spec (used_nodes l) 0) as [E0|E0].
  - exists (bk ++ bv). rewrite E0. split_and!.
    + apply (codes_weaken _ (bound k + 6 + bound v)); [|pose proof (sum2_nonneg l); unfold sum2 in *; lia].
      eapply codes_ext; [|apply (codes_bind _ _ _ _ _ _ Ck Cv)]. intros sb. cbn beta.
      change (1 + 0 - 1 =? 0) with true. cbn iota.
      destruct (put_key dict_str put sb k) as [sb1| | |]; cbn; [|done..]. by destruct (put sb1 v).
    + lia.
    + intros rest fuel arr acc Hf Hfr. destruct fuel as [|fuel]; [lia|]. change (1 + 0) with 1.
      destruct (Hstep rest fuel arr acc 1 ltac:(lia) Hfr) as [-> _].
      assert (Hnil : pairs nf l = []) by (destruct (pairs nf l); [done|rewrite zlen_cons in *; pose proof (zlen_nonneg l0); lia]).
      rewrite Hnil. by destruct fuel.
  - destruct IH as (bs & C & L & G); [lia|]. exists ((bk ++ bv) ++ bs). split_and!.
    + eapply codes_ext; [|apply (codes_bind _ _ _ _ _ _ (codes_bind _ _ _ _ _ _ Ck Cv) C)]. intros sb. cbn beta.
      replace (1 + used_nodes l - 1) with (used_nodes l) by lia.
      destruct (Z.eqb_spec (used_nodes l) 0); [lia|].
      destruct (put_key dict_str put sb k) as [sb1| | |]; cbn; done.
    + rewrite zlen_app. lia.
    + intros rest fuel arr acc Hf Hfr. destruct fuel as [|fuel]; [lia|].
      rewrite <- app_assoc. destruct (Hstep (bs ++ rest) fuel arr acc (1 + used_nodes l) ltac:(lia) Hfr) as [-> Hf'].
      replace (1 + used_nodes l - 1) with (used_nodes l) by lia. rewrite G by (done || lia).
      by rewrite <- app_assoc.
Qed.
End nodes.

(** ** What is encoded and what it decodes to *)

(** The index of a key leads back to it. *)
Definition dict_ok {K} `{EqDecision K} (d : option (dict K)) : Prop :=
  forall d' k i, d = Some d' -> d_find d' k = Some i ->
    0 <= i < 4294967295 /\ zget (d_slots d') (i + 1) = Some (DKey k).

Section roundtrip.
Context (dict_str : option (dict (list Z))) (dict_mt : option (dict Z)) (ffi : bool).
Context (Hds : dict_ok dict_str) (Hdm : dict_ok dict_mt).

Definition kept_mt (mt : option Z) : option Z := d ← dict_mt; m ← mt; i ← d_find d m; Some m.

(** The decoded value: array parts end at their last slot in use, only nodes
    in use are left, metatables only if the dictionary has them, and the parts
    of complex numbers are canonical. *)
Fixpoint norm (d : nat) (o : obj) : obj :=
  match o with
  | OComplex re im => OComplex (fixnan re) (fixnan im)
  | OTab a n mt =>
      match d with
      | O => o
      | S d =>
          OTab (norm d <$> take (Z.to_nat (used_slots a)) a)
            (if 0 <? zlen n - 1 then pairs (norm d) (reverse n) else []) (kept_mt mt)
      end
  | _ => o
  end.

(** The room the encoder asks for. *)
Fixpoint bound (d : nat) (o : obj) : Z :=
  match o with
  | ONil | OFalse | OTrue => 1
  | OStr s => 5 + zlen s
  | OComplex _ _ => 17
  | OTab a n mt => match d with O => 0 | S d => 6 + (11 + (sum (bound d) a + sum2 (bound d) n)) end
  | _ => 9
  end.

(** Values of at most [d] levels of tables that can be encoded: numbers and
    pointers are words, tables are within the limits of tables and their
    nodes in use have distinct keys that do not belong into the array part. *)
Fixpoint enc_ok (d : nat) (o : obj) : Prop :=
  match o with
  | ONil | OFalse | OTrue => True
  | ONum u => in_u64 u /\ tvisnum u = true
  | OStr s => zlen s + 32 < 4294967296
  | OLight u => in_u64 u
  | OI64 x | OU64 x => in_u64 x /\ ffi = true
  | OComplex re im => in_u64 re /\ in_u64 im /\ ffi = true
  | OTab a n mt =>
      match d with
      | O => False
      | S d =>
          Forall (enc_ok d) a /\ Forall (fun p => enc_ok d p.1 /\ enc_ok d p.2) n /\
          zlen a <= Tab.LJ_MAX_ASIZE /\ zlen n <= 2 ^ Tab.LJ_MAX_HBITS /\
          Forall (fun p => good_key (zlen a) p.1) (used n) /\ distinct (used (reverse n))
      end
  | OOther => False
  end.

Lemma bound_nonneg d : forall o, 0 <= bound d o.
Proof.
  induction d as [|d IH]; intros o; destruct o; cbn [bound]; try lia; try (pose proof (zlen_nonneg s); lia).
  pose proof (sum2_nonneg (bound d) IH node).
  assert (0 <= sum (bound d) array); [|lia].
  unfold sum. clear -IH. induction array as [|o l IHl]; cbn [foldr]; [lia|]. pose proof (IH o). lia.
Qed.

Lemma norm_isnil d o : isnil (norm d o) = isnil o.
Proof. destruct d, o; done. Qed.

Lemma norm_keyeq d a b : keyeq (norm d a) (norm d b) = keyeq a b.
Proof. by destruct d, a, b. Qed.

Lemma norm_good d asz asz' k : good_key asz k -> asz' <= asz -> good_key asz' (norm d k).
Proof.
  intros H Hl. destruct d, k; cbn in *; try done; destruct H as [H1 H2]; (split; [done|]); intros i Hi;
    specialize (H2 i Hi); lia.
Qed.

Lemma norm_distinct d l : distinct l -> distinct ((fun p => (norm d p.1, norm d p.2)) <$> l).
Proof.
  induction l as [|p l IH]; cbn [distinct fmap list_fmap fst]; [done|]. intros [H1 H2]. split; [|by apply IH].
  apply Forall_fmap. eapply Forall_impl; [exact H1|]. intros q Hq. cbn. by rewrite norm_keyeq.
Qed.

(** ** Reading single values *)

Abbreviation SG := (serialize_get dict_str dict_mt ffi).
Abbreviation SP := (serialize_put dict_str dict_mt).

Lemma serialize_get_eq d p : SG d p =
  (r ← eob (serialize_ru124 p);
   let '(tp, p) := r in
   if SER_TAG_STR <=? tp then
     if zlen p <? tp - SER_TAG_STR then SErr BUFFER_EOB
     else s ← get_bytes (Z.to_nat (tp - SER_TAG_STR)) p; SOk (OStr s.1, s.2)
   else if tp =? SER_TAG_INT then
     if zlen p <? 4 then SErr BUFFER_EOB
     else x ← get_word 4 p; SOk (ONum (Tab.num_of_int (i32 x.1)), x.2)
   else if tp =? SER_TAG_NUM then
     if zlen p <? 8 then SErr BUFFER_EOB
     else x ← get_word 8 p; SOk (ONum (fixnan x.1), x.2)
   else if tp <=? SER_TAG_TRUE then
     SOk (if tp =? SER_TAG_NIL then ONil else if tp =? SER_TAG_FALSE then OFalse else OTrue, p)
   else if tp =? SER_TAG_DICT_STR then
     x ← eob (serialize_ru124 p); s ← dict_slot dict_str x.1; SOk (OStr s, x.2)
   else if (SER_TAG_TAB <=? tp) && (tp <=? SER_TAG_DICT_MT) then
     match d with O => SErr BUFFER_DEPTH | S d => get_tab dict_mt (SG d) tp p end
   else if (SER_TAG_INT64 <=? tp) && (tp <=? SER_TAG_COMPLEX) then get_cdata ffi tp p
   else if tp <=? SER_TAG_LIGHTUD64 then get_light tp p
   else SErr BUFFER_BADDEC).
Proof. by destruct d. Qed.

Lemma get_word8 x rest : in_u64 x -> get_word 8 (bytes_le 8 x ++ rest) = SOk (x, rest).
Proof. intros Hx. apply get_word_bytes. exact Hx. Qed.

(** The writers of strings, also for keys outside the dictionary. *)
Lemma str_wire d s : zlen s + 32 < 4294967296 ->
  exists bs, wire (fun sb => put_str sb s) (SG d) (5 + zlen s) (OStr s) bs.
Proof.
  intros Hs. pose proof (zlen_nonneg s) as H0. unfold put_str, SER_TAG_STR.
  rewrite u32_small by (unfold in_u32; lia). pose proof (wu124_len (0x20 + zlen s)) as Hl.
  exists (serialize_wu124 (0x20 + zlen s) ++ s). split_and!.
  - apply codes_more. rewrite zlen_app. lia.
  - intros E. apply (f_equal zlen) in E. rewrite zlen_app in E. change (zlen []) with 0 in E. lia.
  - intros rest. rewrite serialize_get_eq, <- app_assoc, ru124_wu124 by (unfold in_u32; lia).
    cbn [eob mbind sres_bind]. unfold SER_TAG_STR. replace (0x20 <=? 0x20 + zlen s) with true by lia.
    replace (0x20 + zlen s - 0x20) with (zlen s) by lia. rewrite zlen_app. pose proof (zlen_nonneg rest).
    replace (zlen s + zlen rest <? zlen s) with false by lia. unfold zlen. rewrite Nat2Z.id.
    by rewrite get_bytes_app.
Qed.

(** A tag of one byte and what follows it. *)
Lemma tag_wire d n tp bs v :
  0 <= tp < 0xe0 -> 1 + zlen bs <= n ->
  (forall rest, SG d (tp :: bs ++ rest) = SOk (v, rest)) ->
  exists bs', wire (fun sb => put_more sb n (tp :: bs)) (SG d) n v bs'.
Proof.
  intros Ht Hn Hg. exists (tp :: bs). split_and!; [|done|done]. apply codes_more. by rewrite zlen_cons.
Qed.

Lemma fixnan_num u : tvisnum u = true -> fixnan u = u.
Proof. intros H. unfold fixnan. by rewrite H. Qed.

Lemma light_wire d u : in_u64 u ->
  exists bs, wire (fun sb => SP d sb (OLight u)) (SG d) 9 (OLight u) bs.
Proof.
  intros Hu. assert (E : forall sb, SP d sb (OLight u) = put_more sb (1 + 8)
    (if u =? 0 then [SER_TAG_NULL] else if u =? u32 u then SER_TAG_LIGHTUD32 :: bytes_le 4 u
     else SER_TAG_LIGHTUD64 :: bytes_le 8 u)) by (by destruct d).
  assert (Hex : exists bs, wire (fun sb => put_more sb 9 (if u =? 0 then [SER_TAG_NULL]
    else if u =? u32 u then SER_TAG_LIGHTUD32 :: bytes_le 4 u else SER_TAG_LIGHTUD64 :: bytes_le 8 u))
    (SG d) 9 (OLight u) bs).
  { destruct (Z.eqb_spec u 0) as [->|Hn]; [|destruct (Z.eqb_spec u (u32 u)) as [Eu|Eu]]; apply tag_wire; try done;
      rewrite ?zlen_bytes_le; try lia; intros rest; rewrite serialize_get_eq; cbn [app].
    - by rewrite ru124_small.
    - rewrite ru124_small by done. cbn [eob mbind sres_bind].
      cbn -[get_word bytes_le zlen]. rewrite (bytes_le_fit 4), get_word_bytes; [done|]. change (256 ^ Z.of_nat 4) with 4294967296.
      rewrite Eu. apply u32_range.
    - rewrite ru124_small by done. cbn -[get_word bytes_le zlen]. by rewrite (bytes_le_fit 8), get_word8. }
  destruct Hex as (bs & C & N & G). exists bs. split_and!; [|done|done]. eapply codes_ext; [|exact C]. done.
Qed.

(** Values that are not tables. *)
Lemma scalar_wire d o : enc_ok d o -> (match o with OTab _ _ _ => False | _ => True end) ->
  exists bs, wire (fun sb => SP d sb o) (SG d) (bound d o) (norm d o) bs.
Proof.
  intros Ho Ht. assert (Hn : norm d o = match o with OComplex re im => OComplex (fixnan re) (fixnan im) | _ => o end)
    by (destruct d, o; done).
  rewrite Hn. destruct o as [| | |u|s|u|x|x|re im|a n mt|]; try done.
  - destruct d; apply tag_wire; try done; lia.
  - destruct d; apply tag_wire; try done; lia.
  - destruct d; apply tag_wire; try done; lia.
  - assert (Hw : in_u64 u /\ tvisnum u = true) by (by destruct d). destruct Hw as [Hu Hv].
    assert (Hg : forall rest, SG d (SER_TAG_NUM :: bytes_le 8 u ++ rest) = SOk (ONum u, rest)).
    { intros rest. rewrite serialize_get_eq, ru124_small by done. cbn -[get_word bytes_le zlen fixnan].
      rewrite (bytes_le_fit 8), get_word8 by done. cbn. by rewrite fixnan_num. }
    destruct d; apply tag_wire; try done; rewrite zlen_bytes_le; lia.
  - assert (Hs : zlen s + 32 < 4294967296) by (by destruct d). destruct d; by apply str_wire.
  - assert (Hu : in_u64 u) by (by destruct d). destruct d; by apply light_wire.
  - assert (Hw : in_u64 x /\ ffi = true) by (by destruct d). destruct Hw as [Hx Hf].
    assert (Hg : forall rest, SG d (SER_TAG_INT64 :: bytes_le 8 x ++ rest) = SOk (OI64 x, rest)).
    { intros rest. rewrite serialize_get_eq, ru124_small by done. cbn -[get_word bytes_le zlen].
      unfold get_cdata. cbn -[get_word bytes_le zlen]. rewrite (bytes_le_fit 8), Hf. cbn -[get_word bytes_le]. by rewrite get_word8. }
    destruct d; apply tag_wire; try done; rewrite zlen_bytes_le; lia.
  - assert (Hw : in_u64 x /\ ffi = true) by (by destruct d). destruct Hw as [Hx Hf].
    assert (Hg : forall rest, SG d (SER_TAG_UINT64 :: bytes_le 8 x ++ rest) = SOk (OU64 x, rest)).
    { intros rest. rewrite serialize_get_eq, ru124_small by done. cbn -[get_word bytes_le zlen].
      unfold get_cdata. cbn -[get_word bytes_le zlen]. rewrite (bytes_le_fit 8), Hf. cbn -[get_word bytes_le]. by rewrite get_word8. }
    destruct d; apply tag_wire; try done; rewrite zlen_bytes_le; lia.
  - assert (Hw : in_u64 re /\ in_u64 im /\ ffi = true) by (by destruct d). destruct Hw as (Hr & Hi & Hf).
    assert (Hg : forall rest, SG d (SER_TAG_COMPLEX :: (bytes_le 8 re ++ bytes_le 8 im) ++ rest) =
      SOk (OComplex (fixnan re) (fixnan im), rest)).
    { intros rest. rewrite serialize_get_eq, ru124_small by done. cbn -[get_word bytes_le zlen].
      unfold get_cdata. cbn -[get_word bytes_le zlen fixnan]. rewrite <- app_assoc, Hf.
      replace (zlen (bytes_le 8 re ++ bytes_le 8 im ++ rest) <? 16) with false
        by (symmetry; apply Z.ltb_ge; rewrite !zlen_app, !zlen_bytes_le; pose proof (zlen_nonneg rest); lia).
      cbn -[get_word bytes_le fixnan]. rewrite get_word8 by done.
      cbn -[get_word bytes_le fixnan]. by rewrite get_word8. }
    destruct d; apply tag_wire; try done; rewrite zlen_app, !zlen_bytes_le; lia.
  - by destruct d.
Qed.

(** Keys of nodes, found in the dictionary or not. *)
Definition key_index (k : obj) : option Z :=
  ds ← dict_str; match k with OStr s => d_find ds s | _ => None end.

Lemma put_key_eq d sb k : put_key dict_str (SP d) sb k =
  match key_index k with
  | Some i => put_more sb (1 + 5) (SER_TAG_DICT_STR :: serialize_wu124 (u32 i))
  | None => SP d sb k
  end.
Proof.
  unfold put_key, key_index. destruct dict_str as [ds|]; [|done]. cbn [mbind option_bind].
  destruct k as [| | | |s| | | | | |]; try done. destruct (d_find ds s); [done|]. by destruct d.
Qed.

Lemma key_index_slot k i : key_index k = Some i ->
  exists s, k = OStr s /\ 0 <= i < 4294967295 /\ dict_slot dict_str i = SOk s.
Proof using Hds.
  unfold key_index, dict_slot. intros H. apply bind_Some in H as (ds & E & H).
  destruct k as [| | | |s| | | | | |]; try done. destruct (Hds ds s i E H) as [Hi Hz].
  exists s. split_and!; [done|lia..|]. rewrite E, u32_small by (unfold in_u32; lia). by rewrite Hz.
Qed.

Lemma key_wire d k :
  (exists bs, wire (fun sb => SP d sb k) (SG d) (bound d k) (norm d k) bs) ->
  exists bs, wire (fun sb => put_key dict_str (SP d) sb k) (SG d) (bound d k + 6) (norm d k) bs.
Proof using Hds.
  intros (bs & C & N & G). destruct (key_index k) as [i|] eqn:Ei.
  - destruct (key_index_slot k i Ei) as (s & -> & Hi & Hs). pose proof (wu124_len i) as Hl.
    exists (SER_TAG_DICT_STR :: serialize_wu124 i). split_and!; [|done|].
    + apply (codes_ext (fun sb => put_more sb 6 (SER_TAG_DICT_STR :: serialize_wu124 i))).
      { intros sb. rewrite put_key_eq, Ei. by rewrite u32_small by (unfold in_u32; lia). }
      apply (codes_weaken _ 6); [apply codes_more; rewrite zlen_cons; lia|].
      pose proof (bound_nonneg d (OStr s)). lia.
    + intros rest. rewrite serialize_get_eq. cbn [app]. rewrite ru124_small by done.
      cbn -[dict_slot serialize_ru124]. rewrite ru124_wu124 by (unfold in_u32; lia).
      cbn -[dict_slot]. rewrite Hs. by destruct d.
  - exists bs. split_and!; [|done|done]. eapply codes_ext; [|eapply codes_weaken; [exact C|lia]].
    intros sb. cbn beta. by rewrite put_key_eq, Ei.
Qed.

(** ** Tables *)

Lemma used_slots_range a : 0 <= used_slots a <= zlen a.
Proof.
  induction a as [|o a IH]; cbn [used_slots]; [done|]. rewrite zlen_cons.
  destruct (0 <? used_slots a) eqn:E; [lia|]. destruct (isnil o); lia.
Qed.

Lemma sum_part f (a : list obj) i j : (forall o, 0 <= f o) -> sum f (drop i (take j a)) <= sum f a.
Proof.
  intros Hf. unfold sum. assert (Hp : forall l, 0 <= foldr (fun o n => f o + n) 0 l).
  { induction l as [|o l IH]; cbn [foldr]; [lia|]. pose proof (Hf o). lia. }
  revert i j. induction a as [|o a IH]; intros i j; [by rewrite take_nil, drop_nil|].
  pose proof (Hf o). pose proof (Hp a). destruct j as [|j]; cbn [take foldr]; [rewrite drop_nil; cbn; lia|].
  destruct i as [|i]; cbn [drop foldr]; [|pose proof (IH i j); lia].
  specialize (IH O j). rewrite drop_0 in IH. lia.
Qed.

Lemma sum2_reverse f (n : list (obj * obj)) : sum2 f (reverse n) = sum2 f n.
Proof.
  unfold sum2. assert (E : forall l k, foldr (fun p n => f p.1 + 6 + f p.2 + n) 0 (l ++ k) =
    foldr (fun p n => f p.1 + 6 + f p.2 + n) 0 l + foldr (fun p n => f p.1 + 6 + f p.2 + n) 0 k).
  { induction l as [|p l IH]; intros k; cbn [app foldr]; [lia|]. rewrite IH. lia. }
  induction n as [|p n IH]; [done|]. rewrite reverse_cons, E, IH. cbn [foldr]. lia.
Qed.

Lemma used_nodes_reverse n : used_nodes (reverse n) = used_nodes n.
Proof. unfold used_nodes, zlen. by rewrite filter_reverse, length_reverse. Qed.

Lemma used_nodes_range n : 0 <= used_nodes n <= zlen n.
Proof. unfold used_nodes, zlen. pose proof (length_filter (fun p : obj * obj => isnil p.2 = false) n). lia. Qed.

Lemma hbits_ok h : 0 <= h <= 2 ^ Tab.LJ_MAX_HBITS -> Tab.hsize2hbits h <= Tab.LJ_MAX_HBITS.
Proof.
  unfold Tab.hsize2hbits, Tab.LJ_MAX_HBITS, Tab.lj_fls. intros Hh.
  destruct (Z.eqb_spec h 0); [lia|]. destruct (Z.eqb_spec h 1); [lia|].
  assert (Z.log2 (h - 1) < 26) by (apply Z.log2_lt_pow2; lia). lia.
Qed.

Lemma get_tab_tag d tp rest : SER_TAG_TAB <= tp <= SER_TAG_DICT_MT ->
  SG (S d) (tp :: rest) = get_tab dict_mt (SG d) tp rest.
Proof.
  unfold SER_TAG_DICT_MT, SER_TAG_TAB. intros Ht. rewrite serialize_get_eq, ru124_small by lia.
  cbn [eob mbind sres_bind].
  unfold SER_TAG_STR, SER_TAG_INT, SER_TAG_NUM, SER_TAG_TRUE, SER_TAG_DICT_STR, SER_TAG_DICT_MT, SER_TAG_TAB.
  replace (0x20 <=? tp) with false by lia. replace (tp =? 6) with false by lia.
  replace (tp =? 7) with false by lia. replace (tp <=? 2) with false by lia.
  replace (tp =? 15) with false by lia. by replace ((8 <=? tp) && (tp <=? 8 + 6)) with true by lia.
Qed.

Definition mt_index (mt : option Z) : option Z := dm ← dict_mt; m ← mt; d_find dm m.

Lemma put_mt_eq sb mt : put_mt dict_mt sb mt =
  match mt_index mt with
  | Some i => put_more sb (1 + 5) (SER_TAG_DICT_MT :: serialize_wu124 (u32 i))
  | None => SOk sb
  end.
Proof. unfold put_mt, mt_index. destruct dict_mt as [dm|], mt as [m|]; done. Qed.

Lemma mt_index_slot mt i : mt_index mt = Some i ->
  exists m, kept_mt mt = Some m /\ 0 <= i < 4294967295 /\ dict_slot dict_mt i = SOk m.
Proof using Hdm.
  unfold mt_index, kept_mt, dict_slot. intros H.
  apply bind_Some in H as (dm & E & H). apply bind_Some in H as (m & -> & H).
  destruct (Hdm dm m i E H) as [Hi Hz]. exists m. rewrite E. cbn. rewrite H. split_and!; [done|lia..|].
  rewrite u32_small by (unfold in_u32; lia). by rewrite Hz.
Qed.

Lemma kept_none mt : mt_index mt = None -> kept_mt mt = None.
Proof.
  unfold mt_index, kept_mt. destruct dict_mt as [dm|], mt as [m|]; try done. cbn. by intros ->.
Qed.

Lemma mt_wire mt : exists bs, codes (fun sb => put_mt dict_mt sb mt) 6 bs /\
  forall d tp rest, SER_TAG_TAB <= tp < SER_TAG_DICT_MT ->
    exists tp' p', SG (S d) (bs ++ tp :: rest) = get_tab dict_mt (SG d) tp' p' /\
      get_mt dict_mt tp' p' = SOk (kept_mt mt, tp, rest).
Proof using Hdm.
  destruct (mt_index mt) as [i|] eqn:Ei.
  - destruct (mt_index_slot mt i Ei) as (m & -> & Hi & Hs). pose proof (wu124_len i) as Hl.
    exists (SER_TAG_DICT_MT :: serialize_wu124 i). split.
    { apply (codes_ext (fun sb => put_more sb 6 (SER_TAG_DICT_MT :: serialize_wu124 i))).
      - intros sb. rewrite put_mt_eq, Ei. by rewrite u32_small by (unfold in_u32; lia).
      - apply codes_more. rewrite zlen_cons. lia. }
    intros d tp rest Ht. exists SER_TAG_DICT_MT, (serialize_wu124 i ++ tp :: rest). split.
    { cbn [app]. by rewrite get_tab_tag. }
    unfold get_mt. change (SER_TAG_DICT_MT =? SER_TAG_DICT_MT) with true.
    rewrite ru124_wu124 by (unfold in_u32; lia). cbn [eob mbind sres_bind fst snd]. rewrite Hs.
    cbn [mbind sres_bind]. unfold SER_TAG_DICT_MT, SER_TAG_TAB in *. rewrite ru124_small by lia.
    cbn [eob mbind sres_bind fst snd]. by replace ((8 <=? tp) && (tp <? 8 + 6)) with true by lia.
  - exists []. rewrite (kept_none mt Ei). split.
    { eapply codes_ext; [|apply (codes_weaken _ 0 6 _ codes_id); lia]. intros sb. by rewrite put_mt_eq, Ei. }
    intros d tp rest Ht. exists tp, rest. split; [apply get_tab_tag; lia|].
    unfold get_mt. destruct (Z.eqb_spec tp SER_TAG_DICT_MT); [lia|done].
Qed.

(** The tag of a table and the numbers of slots and pairs. *)
Definition tab_tag (narray nhash one : Z) : Z :=
  SER_TAG_TAB + (if negb (nhash =? 0) then 1 else 0) + (if negb (narray =? 0) then one else 0).

Lemma tab_tag_fields narray nhash one : one = 2 \/ one = 4 ->
  let tp := tab_tag narray nhash one in
  SER_TAG_TAB <= tp < SER_TAG_DICT_MT /\ u8 tp = tp /\
  (SER_TAG_TAB + 2 <=? tp) = negb (narray =? 0) /\ (Z.land tp 1 =? 0) = (nhash =? 0) /\
  (narray <> 0 -> (SER_TAG_TAB + 4 <=? tp) = (one =? 4)).
Proof.
  intros Ho. unfold tab_tag. destruct (narray =? 0) eqn:En, (nhash =? 0), Ho as [-> | ->]; cbn;
    split_and!; try done; lia.
Qed.

(** A number that is written only if it is not 0. *)
Lemma get_count (n : Z) rest : in_u32 n ->
  (if negb (n =? 0) then eob (serialize_ru124 ((if negb (n =? 0) then serialize_wu124 n else []) ++ rest))
   else SOk (0, (if negb (n =? 0) then serialize_wu124 n else []) ++ rest)) = SOk (n, rest).
Proof.
  intros Hn. destruct (Z.eqb_spec n 0) as [->|H0]; cbn [negb]; [done|]. by rewrite ru124_wu124.
Qed.

(** Decoding a table from its parts. *)
Lemma get_tab_parts get tp0 p0 tp mt narray nhash one skip slots arr prs rest p1 p2 :
  get_mt dict_mt tp0 p0 = SOk (mt, tp, (if negb (narray =? 0) then serialize_wu124 narray else []) ++
    (if negb (nhash =? 0) then serialize_wu124 nhash else []) ++ p1) ->
  tp = tab_tag narray nhash one -> one = 2 \/ one = 4 ->
  0 <= narray <= Tab.LJ_MAX_ASIZE -> 0 <= nhash <= 2 ^ Tab.LJ_MAX_HBITS ->
  skip = (if one =? 4 then 1 else 0) ->
  (narray <> 0 -> get_slots get (S (length p1)) (narray - skip) p1 = SOk (slots, p2)) ->
  (narray = 0 -> p2 = p1) ->
  get_pairs get (S (length p2)) nhash
    (if negb (narray =? 0) then replicate (Z.to_nat skip) ONil ++ slots else [], []) p2 = SOk ((arr, prs), rest) ->
  get_tab dict_mt get tp0 p0 = SOk (OTab arr prs mt, rest).
Proof.
  intros Hm Htp Ho Ha Hh Hs Hsl Hz Hp. unfold get_tab. rewrite Hm. cbn [mbind sres_bind].
  destruct (tab_tag_fields narray nhash one Ho) as (_ & _ & F1 & F2 & F3). rewrite <- Htp in F1, F2, F3.
  rewrite F1, get_count by (unfold in_u32, Tab.LJ_MAX_ASIZE, Tab.LJ_MAX_ABITS in *; lia).
  cbn [mbind sres_bind fst snd]. rewrite F2, get_count by (unfold in_u32, Tab.LJ_MAX_HBITS in *; lia).
  cbn [mbind sres_bind fst snd].
  replace ((Tab.LJ_MAX_ASIZE <? narray) || (Tab.LJ_MAX_HBITS <? Tab.hsize2hbits nhash)) with false
    by (pose proof (hbits_ok nhash Hh); lia).
  destruct (Z.eqb_spec narray 0) as [E|E]; cbn [negb] in *.
  - rewrite (Hz E) in Hp. cbn [mbind sres_bind fst snd]. by rewrite Hp.
  - rewrite (F3 E), <- Hs, (Hsl E). cbn [mbind sres_bind fst snd]. by rewrite Hp.
Qed.
(** The slots that are written: from the first or the second one on. *)
Lemma slots_wire d a : let narray := used_slots a in
  let skip := if isnil (default ONil (head a)) then 1 else 0 in
  Forall (fun o => exists bs, wire (fun sb => SP d sb o) (SG d) (bound d o) (norm d o) bs) a ->
  narray <> 0 ->
  exists bs, codes (fun sb => put_list (SP d) sb (drop (Z.to_nat skip) (take (Z.to_nat narray) a)))
      (sum (bound d) a) bs /\
    forall rest, exists slots, get_slots (SG d) (S (length (bs ++ rest))) (narray - skip) (bs ++ rest) = SOk (slots, rest) /\
      replicate (Z.to_nat skip) ONil ++ slots = norm d <$> take (Z.to_nat narray) a.
Proof.
  intros narray skip Ha Hn. pose proof (used_slots_range a) as Hr. fold narray in Hr.
  set (l := drop (Z.to_nat skip) (take (Z.to_nat narray) a)).
  assert (Hl : zlen l = narray - skip).
  { unfold l, zlen in *. rewrite length_drop, length_take. unfold skip. destruct (isnil _); lia. }
  assert (Hf : Forall (fun o => exists bs, wire (fun sb => SP d sb o) (SG d) (bound d o) (norm d o) bs) l)
    by (by apply Forall_drop, Forall_take).
  destruct (put_list_wire (SP d) (SG d) (bound d) (norm d) l Hf) as (bs & C & L & G).
  exists bs. split; [eapply codes_weaken; [exact C|apply sum_part, bound_nonneg]|].
  intros rest. exists (norm d <$> l). rewrite <- Hl. split; [apply G; rewrite length_app; lia|].
  unfold l, skip. destruct a as [|o a]; [by cbn in *|]. destruct (Z.to_nat narray) as [|m] eqn:Em; [lia|].
  cbn [head default take]. unfold id. destruct o; cbn; try done. by destruct d.
Qed.

(** The pairs of a table can be set in the decoded one. *)
Lemma pairs_fresh d (a : list obj) n arr :
  zlen arr <= zlen a -> Forall (fun p => good_key (zlen a) p.1) (used n) -> distinct (used (reverse n)) ->
  fresh arr [] (pairs (norm d) (reverse n)).
Proof.
  intros Hz Hg Hd. split; [|by apply norm_distinct]. apply Forall_fmap, Forall_forall. intros p Hp.
  unfold used in Hp. rewrite filter_reverse in Hp. split; [|constructor]. cbn [fst].
  apply (norm_good d (zlen a)); [|done]. apply (proj1 (Forall_forall _ _) Hg). by apply elem_of_reverse.
Qed.

Lemma nodes_wire d (a : list obj) n arr :
  zlen arr <= zlen a -> Forall (fun p => good_key (zlen a) p.1) (used n) -> distinct (used (reverse n)) ->
  Forall (node_wire dict_str (SP d) (SG d) (bound d) (norm d)) n -> used_nodes n <> 0 ->
  exists bs, codes (fun sb => put_nodes dict_str (SP d) sb (reverse n) (used_nodes n)) (sum2 (bound d) n) bs /\
    forall rest, get_pairs (SG d) (S (length (bs ++ rest))) (used_nodes n) (arr, []) (bs ++ rest) =
      SOk ((arr, pairs (norm d) (reverse n)), rest).
Proof.
  intros Hz Hg Hd Hw Hu. pose proof (used_nodes_range n). rewrite <- used_nodes_reverse in Hu.
  destruct (put_nodes_wire dict_str (SP d) (SG d) (bound d) (norm d) (bound_nonneg d) (reverse n))
    as (bs & C & L & G); [by apply Forall_reverse|rewrite used_nodes_reverse in *; lia|].
  rewrite used_nodes_reverse, sum2_reverse in *. exists bs. split; [done|]. intros rest.
  rewrite G; [done| |by eapply pairs_fresh]. rewrite length_app. unfold zlen in L. lia.
Qed.

(** The two optional parts of a table. *)
Lemma array_part d a : let narray := used_slots a in
  let one := if (0 <? narray) && isnil (default ONil (head a)) then 4 else 2 in
  Forall (fun o => exists bs, wire (fun sb => SP d sb o) (SG d) (bound d o) (norm d o) bs) a ->
  exists bs, codes (fun sb => if negb (narray =? 0) then
      put_list (SP d) sb (drop (Z.to_nat (Z.shiftr one 2)) (take (Z.to_nat narray) a)) else SOk sb) (sum (bound d) a) bs /\
    forall rest, exists slots,
      (narray <> 0 -> get_slots (SG d) (S (length (bs ++ rest))) (narray - (if one =? 4 then 1 else 0)) (bs ++ rest) = SOk (slots, rest)) /\
      (narray = 0 -> rest = bs ++ rest) /\
      (if negb (narray =? 0) then replicate (Z.to_nat (if one =? 4 then 1 else 0)) ONil ++ slots else []) =
        norm d <$> take (Z.to_nat narray) a.
Proof.
  intros narray one Ha. destruct (Z.eqb_spec narray 0) as [E|E]; cbn [negb].
  - exists []. split; [apply (codes_weaken _ 0); [apply codes_id|]|].
    { pose proof (sum_part (bound d) a 0 0 (bound_nonneg d)) as H. by rewrite take_0 in H. }
    intros rest. exists []. rewrite E. split_and!; done.
  - destruct (slots_wire d a Ha E) as (bs & C & G). fold narray in C, G. pose proof (used_slots_range a) as Hr.
    fold narray in Hr.
    assert (Eo : (if one =? 4 then 1 else 0) = (if isnil (default ONil (head a)) then 1 else 0) /\
      Z.shiftr one 2 = (if isnil (default ONil (head a)) then 1 else 0)).
    { unfold one. replace (0 <? narray) with true by lia. cbn [andb]. by destruct (isnil _). }
    destruct Eo as [-> ->]. exists bs. split; [done|]. intros rest. destruct (G rest) as (slots & G1 & G2).
    exists slots. split_and!; done.
Qed.

Lemma hash_part d (a : list obj) n arr : let nhash := if 0 <? zlen n - 1 then used_nodes n else 0 in
  zlen arr <= zlen a -> Forall (fun p => good_key (zlen a) p.1) (used n) -> distinct (used (reverse n)) ->
  Forall (node_wire dict_str (SP d) (SG d) (bound d) (norm d)) n ->
  exists bs, codes (fun sb => if negb (nhash =? 0) then put_nodes dict_str (SP d) sb (reverse n) nhash else SOk sb)
      (sum2 (bound d) n) bs /\
    forall rest, get_pairs (SG d) (S (length (bs ++ rest))) nhash (arr, []) (bs ++ rest) =
      SOk ((arr, if 0 <? zlen n - 1 then pairs (norm d) (reverse n) else []), rest).
Proof.
  intros nhash Hz Hg Hd Hw. unfold nhash. clear nhash.
  assert (Hnone : exists bs, codes SOk (sum2 (bound d) n) bs /\ bs = []).
  { exists []. split; [|done]. apply (codes_weaken _ 0); [apply codes_id|apply sum2_nonneg, bound_nonneg]. }
  destruct Hnone as (bs0 & C0 & ->).
  assert (Hnil : forall rest, get_pairs (SG d) (S (length rest)) 0 (arr, []) rest = SOk ((arr, []), rest)).
  { done. }
  destruct (0 <? zlen n - 1); cbn [negb Z.eqb]; [|exists []; split; [done|exact Hnil]].
  destruct (Z.eqb_spec (used_nodes n) 0) as [E|E]; cbn [negb].
  - exists []. split; [done|]. intros rest. rewrite E. cbn [app]. rewrite Hnil.
    pose proof (used_nodes_pairs (norm d) (reverse n)) as Hp. rewrite used_nodes_reverse, E in Hp.
    destruct (pairs (norm d) (reverse n)) as [|p l]; [done|]. rewrite zlen_cons in Hp.
    pose proof (zlen_nonneg l). lia.
  - by eapply nodes_wire.
Qed.

Lemma table_wire d a n mt :
  (forall o, enc_ok d o -> exists bs, wire (fun sb => SP d sb o) (SG d) (bound d o) (norm d o) bs) ->
  enc_ok (S d) (OTab a n mt) ->
  exists bs, wire (fun sb => SP (S d) sb (OTab a n mt)) (SG (S d)) (bound (S d) (OTab a n mt))
    (norm (S d) (OTab a n mt)) bs.
Proof using Hds Hdm.
  intros IH (Ha & Hn & Hza & Hzn & Hg & Hd). cbn [serialize_put bound norm].
  assert (Hwn : Forall (node_wire dict_str (SP d) (SG d) (bound d) (norm d)) n).
  { eapply Forall_impl; [exact Hn|]. intros p [H1 H2]. split; [by apply key_wire, IH|by apply IH]. }
  destruct (array_part d a) as (ba & Ca & Ga); [eapply Forall_impl; [exact Ha|exact IH]|].
  pose proof (used_slots_range a) as Hra. pose proof (used_nodes_range n) as Hrn.
  destruct (hash_part d a n (norm d <$> take (Z.to_nat (used_slots a)) a)) as (bh & Ch & Gh); try done.
  { unfold zlen in *. rewrite length_fmap, length_take. lia. }
  set (narray := used_slots a) in *. set (nhash := if 0 <? zlen n - 1 then used_nodes n else 0) in *.
  set (one := if (0 <? narray) && isnil (default ONil (head a)) then 4 else 2) in *.
  assert (Ho : one = 2 \/ one = 4) by (unfold one; destruct (_ && _); auto).
  assert (Hnh : 0 <= nhash <= 2 ^ Tab.LJ_MAX_HBITS)
    by (pose proof (Z.pow_nonneg 2 Tab.LJ_MAX_HBITS ltac:(lia)); unfold nhash; destruct (0 <? zlen n - 1); lia).
  set (cnt := (if negb (narray =? 0) then serialize_wu124 narray else []) ++
              (if negb (nhash =? 0) then serialize_wu124 nhash else [])).
  destruct (tab_tag_fields narray nhash one Ho) as (Ft & Fu & _).
  change (SER_TAG_TAB + (if negb (nhash =? 0) then 1 else 0) + (if negb (narray =? 0) then one else 0))
    with (tab_tag narray nhash one) in *. rewrite Fu.
  destruct (mt_wire mt) as (bm & Cm & Gm).
  assert (Ct : codes (fun sb => put_more sb (1 + 2 * 5) (tab_tag narray nhash one :: cnt)) 11 (tab_tag narray nhash one :: cnt)).
  { apply codes_more. rewrite zlen_cons. unfold cnt. rewrite zlen_app.
    pose proof (wu124_len narray). pose proof (wu124_len nhash).
    destruct (negb _), (negb _); change (zlen (@nil Z)) with 0; lia. }
  exists (bm ++ (tab_tag narray nhash one :: cnt) ++ ba ++ bh). split_and!.
  - exact (codes_bind _ _ _ _ _ _ Cm (codes_bind _ _ _ _ _ _ Ct (codes_bind _ _ _ _ _ _ Ca Ch))).
  - by destruct bm.
  - intros rest. destruct (Ga (bh ++ rest)) as (slots & G1 & G2 & G3).
    destruct (Gm d (tab_tag narray nhash one) (cnt ++ ba ++ bh ++ rest) Ft) as (tp' & p' & E1 & E2).
    rewrite <- !app_assoc. cbn [app]. rewrite E1.
    unfold cnt in E2. rewrite <- app_assoc in E2.
    eapply (get_tab_parts (SG d) tp' p' _ _ narray nhash one _ slots
      _ _ rest (ba ++ bh ++ rest) (bh ++ rest) E2 eq_refl Ho); try done; [lia|].
    rewrite G3. apply Gh.
Qed.

Lemma put_get d : forall o, enc_ok d o ->
  exists bs, wire (fun sb => SP d sb o) (SG d) (bound d o) (norm d o) bs.
Proof using Hds Hdm.
  induction d as [|d IH]; intros o Ho; (destruct o as [| | | | | | | | |a n mt|]; [by apply scalar_wire..| |by apply scalar_wire]).
  - done.
  - by apply table_wire.
Qed.

(** ** The decoder on any input *)

(** A value and less input, or an error. *)
Definition okg {A} (p : list Z) (x : sres (A * list Z)) : Prop :=
  match x with SOk (_, p') => (length p' < length p)%nat | SErr _ => True | _ => False end.

(** The same when nothing may have been read. *)
Definition okg0 {A} (p : list Z) (x : sres (A * list Z)) : Prop :=
  match x with SOk (_, p') => (length p' <= length p)%nat | SErr _ => True | _ => False end.

Lemma okg_bind {A B} p (x : sres (A * list Z)) (f : A * list Z -> sres (B * list Z)) :
  okg0 p x -> (forall a p', (length p' <= length p)%nat -> okg0 p' (f (a, p'))) -> okg0 p (x ≫= f).
Proof.
  destruct x as [[a p']| | |]; cbn; try done. intros H Hf. specialize (Hf a p' H).
  destruct (f (a, p')) as [[b p'']| | |]; cbn in *; try done. lia.
Qed.

Lemma okg_weak {A} p (x : sres (A * list Z)) : okg p x -> okg0 p x.
Proof. destruct x as [[a p']| | |]; cbn; try done. lia. Qed.

(** A read is in order when the check before it left enough bytes. *)
Lemma get_word_ok n p : Z.of_nat n <= zlen p -> okg0 p (get_word n p).
Proof. intros Hp. destruct (get_word_fits n p Hp) as (x & p' & -> & Hl). unfold zlen in Hl. cbn. lia. Qed.

Lemma get_bytes_ok n p : Z.of_nat n <= zlen p -> okg0 p (get_bytes n p).
Proof. intros Hp. rewrite get_bytes_fits by done. cbn. rewrite length_drop. lia. Qed.

Lemma get_u8_ok p : 0 < zlen p -> okg p (get_u8 p).
Proof. destruct p as [|c p]; [by cbn|]. cbn. lia. Qed.

Lemma ru124_ok p : okg p (eob (serialize_ru124 p)).
Proof.
  unfold serialize_ru124. destruct (Z.ltb_spec 0 (zlen p)) as [H|]; [|done].
  pose proof (get_u8_ok p H) as H1. destruct (get_u8 p) as [[v p1]| | |]; cbn in H1; try done.
  cbn [mbind sres_bind fst snd]. destruct (0xe0 <=? v); [|done]. unfold serialize_ru124_. destruct (negb _).
  - destruct (Z.leb_spec (zlen p1) 0) as [|H2]; [done|].
    pose proof (get_u8_ok p1 H2) as H3. destruct (get_u8 p1) as [[c p2]| | |]; cbn in *; try done. lia.
  - destruct (Z.ltb_spec (zlen p1) 4) as [|H2]; [done|].
    pose proof (get_word_ok 4 p1 H2) as H3. destruct (get_word 4 p1) as [[x p2]| | |]; cbn in *; try done. lia.
Qed.

Lemma dict_slot_cases {K} (d : option (dict K)) i :
  (exists k, dict_slot d i = SOk k) \/ exists e, dict_slot d i = SErr e.
Proof.
  unfold dict_slot. destruct d as [d|]; [|eauto]. destruct (zget _ _) as [[k| | |]|]; eauto.
Qed.

Lemma pair_index_lookup k l i : pair_index k l = Some i -> is_Some (l !! i).
Proof.
  revert i. induction l as [|p l IH]; intros i; cbn [pair_index]; [done|]. destruct (keyeq p.1 k).
  - intros [= <-]. by eexists.
  - destruct (pair_index k l) as [j|]; [|done]. intros [= <-]. by apply IH.
Qed.

Lemma tab_set_cases arr prs k : (exists x, tab_set arr prs k = SOk x) \/ exists e, tab_set arr prs k = SErr e.
Proof.
  unfold tab_set. set (h := match pair_index k prs with Some _ => _ | None => _ end).
  assert (Hh : exists x, h = SOk x).
  { subst h. destruct (pair_index k prs) as [i|] eqn:E; [|eauto].
    destruct (pair_index_lookup _ _ _ E) as [p ->]. eauto. }
  destruct k as [| | |u| | | | | | |]; eauto. destruct (Tab.num_int u) as [i|].
  - destruct (zget arr i); eauto.
  - destruct (Tab.num_isnan u); eauto.
Qed.

Section loops.
Context (get : list Z -> sres (obj * list Z)) (Hget : forall p, okg p (get p)).

Lemma get_slots_ok fuel : forall n p, (length p < fuel)%nat -> okg0 p (get_slots get fuel n p).
Proof using Hget.
  induction fuel as [|fuel IH]; intros n p Hf; [lia|]. cbn [get_slots]. destruct (n <=? 0); [cbn; lia|].
  specialize (Hget p). destruct (get p) as [[o p']| | |]; cbn in *; try done.
  specialize (IH (n - 1) p' ltac:(lia)). destruct (get_slots get fuel (n - 1) p') as [[os p'']| | |]; cbn in *; try done.
  lia.
Qed.

Lemma get_pairs_ok fuel : forall n t p, (length p < fuel)%nat -> okg0 p (get_pairs get fuel n t p).
Proof using Hget.
  induction fuel as [|fuel IH]; intros n t p Hf; [lia|]. cbn [get_pairs]. destruct (n <=? 0); [cbn; lia|].
  pose proof (Hget p) as H1. destruct (get p) as [[k p1]| | |]; cbn in *; try done.
  destruct (tab_set_cases t.1 t.2 k) as [([pl v0] & ->)|(e & ->)]; cbn; [|done].
  destruct (negb _); [done|]. pose proof (Hget p1) as H2. destruct (get p1) as [[v p2]| | |]; cbn in *; try done.
  specialize (IH (n - 1) (tab_store t.1 t.2 pl k v) p2 ltac:(lia)).
  destruct (get_pairs _ _ _ _ _) as [[t' p3]| | |]; cbn in *; try done. lia.
Qed.

Lemma get_mt_ok tp p : okg0 p (get_mt dict_mt tp p).
Proof.
  unfold get_mt. destruct (tp =? SER_TAG_DICT_MT); [|cbn; lia].
  apply okg_bind; [apply okg_weak, ru124_ok|]. intros i p1 _. cbn [fst snd].
  destruct (dict_slot_cases dict_mt i) as [(m & ->)|(e & ->)]; cbn [mbind sres_bind]; [|done].
  apply okg_bind; [apply okg_weak, ru124_ok|]. intros t p2 _. cbn [fst snd]. destruct (_ && _); [cbn; lia|done].
Qed.

Lemma get_tab_ok tp p : okg0 p (get_tab dict_mt get tp p).
Proof using Hget.
  unfold get_tab. apply okg_bind; [apply get_mt_ok|]. intros [mt tp'] p1 _. cbn beta iota.
  apply okg_bind. { destruct (_ <=? tp'); [apply okg_weak, ru124_ok|cbn; lia]. }
  intros na p2 _. cbn [fst snd].
  apply okg_bind. { destruct (negb _); [apply okg_weak, ru124_ok|cbn; lia]. }
  intros nh p3 _. cbn [fst snd]. destruct (_ || _); [done|].
  apply okg_bind.
  { destruct (negb _); [|cbn; lia]. apply okg_bind; [apply get_slots_ok; lia|]. intros os p4 _. cbn. lia. }
  intros arr p5 _. cbn [fst snd]. apply okg_bind; [apply get_pairs_ok; lia|]. intros t p6 _. cbn. lia.
Qed.
End loops.

Lemma get_cdata_ok tp p : okg0 p (get_cdata ffi tp p).
Proof.
  unfold get_cdata. destruct (tp =? SER_TAG_COMPLEX).
  - destruct (Z.ltb_spec (zlen p) 16); [done|]. destruct (negb ffi); [done|].
    destruct (get_word_fits 8 p) as (x & p1 & -> & H1); [lia|]. cbn [mbind sres_bind fst snd Z.eqb Pos.eqb].
    destruct (get_word_fits 8 p1) as (y & p2 & -> & H2); [lia|]. unfold zlen in *. cbn. lia.
  - destruct (Z.ltb_spec (zlen p) 8); [done|]. destruct (negb ffi); [done|].
    apply okg_bind; [by apply get_word_ok|]. intros x p1 _. cbn. lia.
Qed.

Lemma get_light_ok tp p : okg0 p (get_light tp p).
Proof.
  unfold get_light. apply okg_bind; [|intros; cbn; lia].
  destruct (_ =? _); [destruct (Z.ltb_spec (zlen p) 4); [done|by apply get_word_ok]|].
  destruct (_ =? _); [destruct (Z.ltb_spec (zlen p) 8); [done|by apply get_word_ok]|cbn; lia].
Qed.

Lemma get_total d : forall p, okg p (SG d p).
Proof.
  induction d as [|d IH]; intros p; rewrite serialize_get_eq; pose proof (ru124_ok p) as H;
    (destruct (eob (serialize_ru124 p)) as [[tp p1]| | |]; try done); cbn [mbind sres_bind] in *.
  all: assert (Hb : forall x : sres (obj * list Z), okg0 p1 x -> okg p x)
    by (intros x Hx; destruct x as [[o p2]| | |]; cbn in *; try done; lia).
  all: apply Hb; destruct (SER_TAG_STR <=? tp) eqn:?;
    [destruct (Z.ltb_spec (zlen p1) (tp - SER_TAG_STR)); [done|];
     apply okg_bind; [apply get_bytes_ok; lia|intros; cbn; lia]|].
  all: destruct (tp =? SER_TAG_INT);
    [destruct (Z.ltb_spec (zlen p1) 4); [done|]; apply okg_bind; [by apply get_word_ok|intros; cbn; lia]|].
  all: destruct (tp =? SER_TAG_NUM);
    [destruct (Z.ltb_spec (zlen p1) 8); [done|]; apply okg_bind; [by apply get_word_ok|intros; cbn; lia]|].
  all: repeat (match goal with |- context [if ?b then _ else _] => destruct b end; try done); try (cbn; lia).
  all: try (apply okg_bind; [apply okg_weak, ru124_ok|]; intros i p2 _; cbn [fst snd];
    destruct (dict_slot_cases dict_str i) as [(m & ->)|(e & ->)]; cbn; done || lia).
  all: try apply get_cdata_ok; try apply get_light_ok.
  by apply get_tab_ok.
Qed.
End roundtrip.

(** ** Dictionaries *)

Section prep.
Context {K : Type} `{EqDecision K}.

Lemma assoc_app k (l m : list (K * Z)) :
  assoc k (l ++ m) = match assoc k l with Some i => Some i | None => assoc k m end.
Proof. induction l as [|[k' i] l IH]; cbn [assoc app]; [done|]. by destruct (decide _). Qed.

(** Every index leads back to its key. *)
Definition hash_ok (slots : list (dslot K)) (h : list (K * Z)) : Prop :=
  forall k i, assoc k h = Some i -> 0 <= i /\ zget slots (i + 1) = Some (DKey k).

Lemma zget_drop {A} (l : list A) (i : nat) x k : drop i l = x :: k -> zget l (Z.of_nat i) = Some x.
Proof.
  intros E. unfold zget. destruct (Z.ltb_spec (Z.of_nat i) 0); [lia|]. rewrite Nat2Z.id.
  rewrite <- (Nat.add_0_r i), <- lookup_drop, E. done.
Qed.

Lemma prep_loop_ok slots len : forall l (j : nat) h h', drop j slots = l -> (1 <= j)%nat -> hash_ok slots h ->
  prep_loop l (Z.of_nat j) len h = SOk h' -> hash_ok slots h'.
Proof.
  induction l as [|o l IH]; intros j h h' Hd Hj Hh; cbn [prep_loop]; [by intros [= <-]|].
  destruct (_ <=? len); [|by intros [= <-]].
  assert (Hd' : drop (S j) slots = l) by (by rewrite <- Nat.add_1_r, <- drop_drop, Hd).
  replace (Z.of_nat j + 1) with (Z.of_nat (S j)) by lia.
  destruct o as [k| | |]; try done; [|apply IH; [done|lia|done]]. apply IH; [done|lia|].
  destruct (assoc k h) eqn:E; [done|]. intros k' i. rewrite assoc_app. destruct (assoc k' h) eqn:E'.
  { intros [= <-]. by apply Hh. }
  cbn [assoc]. destruct (decide (k' = k)) as [->|]; [|done]. intros [= <-]. split; [lia|].
  replace (Z.of_nat j - 1 + 1) with (Z.of_nat j) by lia. by eapply zget_drop.
Qed.

(** A dictionary as the options of a buffer set it up. *)
Definition prepared (d : option (dict K)) : Prop :=
  d = None \/ exists slots d', zlen slots <= Tab.LJ_MAX_ASIZE /\ dict_prep (MkDict slots None) = SOk d' /\ d = Some d'.

Lemma prepared_ok d : prepared d -> dict_ok d.
Proof.
  intros [->|(slots & d' & Hz & Hp & ->)]; [done|]. intros d0 k i [= <-]. unfold dict_prep in Hp. cbn [d_hash d_slots] in Hp.
  destruct (liftt _) as [len| | |]; cbn [mbind sres_bind] in Hp; try done.
  destruct (len =? 0); [by inversion Hp; subst|]. destruct (_ <? _); [done|].
  destruct (prep_loop (drop 1 slots) 1 len []) as [h| | |] eqn:E; cbn in Hp; try done. inversion Hp; subst.
  unfold d_find. cbn [d_hash default d_slots]. unfold id. intros Hi.
  destruct (prep_loop_ok slots len (drop 1 slots) 1 [] h eq_refl (le_n 1) ltac:(done) E k i Hi) as [H0 Hg].
  split; [|done]. apply zget_Some_range in Hg.
  unfold Tab.LJ_MAX_ASIZE, Tab.LJ_MAX_ABITS in Hz. lia.
Qed.
End prep.

Lemma mapM_some (c : list Z) : mapM id (Some <$> c) = Some c.
Proof. induction c as [|x c IH]; [done|]. cbn. cbn in IH. by rewrite IH. Qed.

Lemma sbuf_bytes_holds sb c : holds sb c -> sbuf_bytes sb (r sb) (w sb) = Some c.
Proof.
  intros (pre & post & Hm & Hr & Hw & _). unfold sbuf_bytes. rewrite Hm, Hr, Hw.
  replace (zlen pre + zlen c - zlen pre) with (zlen c) by lia. unfold zlen. rewrite !Nat2Z.id.
  rewrite drop_app_length. rewrite <- (length_fmap Some c), take_app_length. apply mapM_some.
Qed.

(** The type of a value. *)
Definition irtype (o : obj) : IRType :=
  match o with
  | ONil | OOther => IRT_NIL
  | OFalse => IRT_FALSE
  | OTrue => IRT_TRUE
  | ONum _ => IRT_NUM
  | OStr _ => IRT_STR
  | OLight _ => IRT_LIGHTUD
  | OI64 _ | OU64 _ | OComplex _ _ => IRT_CDATA
  | OTab _ _ _ => IRT_TAB
  end.

Lemma get_tab_type dm get tp p o p' : get_tab dm get tp p = SOk (o, p') -> irtype o = IRT_TAB.
Proof.
  unfold get_tab. intros H. repeat match goal with
  | H : (?x ≫= ?f) = SOk _ |- _ => destruct x as [?| | |]; cbn [mbind sres_bind] in H; try done
  | H : (match ?x with (_, _) => _ end) = SOk _ |- _ => destruct x
  | H : (if ?b then _ else _) = SOk _ |- _ => destruct b; try done
  end. by injection H as <- _.
Qed.

Lemma get_cdata_type ffi tp p o p' : get_cdata ffi tp p = SOk (o, p') -> irtype o = IRT_CDATA.
Proof.
  unfold get_cdata. intros H. repeat match goal with
  | H : (?x ≫= ?f) = SOk _ |- _ => destruct x as [?| | |]; cbn [mbind sres_bind] in H; try done
  | H : (if ?b then _ else _) = SOk _ |- _ => destruct b; try done
  end; injection H as <- _; [done|]. by destruct (tp =? _).
Qed.

(** C9: Serialization round trip.  For every value of up to 100 levels of
    tables whose tables are in order (distinct keys outside the array part,
    sizes within the limits of tables), with any dictionaries set up by the
    preparation functions, encoding into any buffer with room for it succeeds
    and appends some bytes; decoding any buffer that holds those bytes and
    more gives the value back (array parts cut behind their last slot in use,
    metatables only if they are in the dictionary) and stops right behind
    them.  The stand-alone functions agree on whole strings. *)
Theorem serialize_roundtrip ds dm ffi sb c o tmp :
  prepared ds -> prepared dm -> enc_ok ffi LJ_SERIALIZE_DEPTH o ->
  holds sb c -> w sb + bound LJ_SERIALIZE_DEPTH o <= LJ_MAX_BUF ->
  zlen (mem tmp) < 4294967296 -> bound LJ_SERIALIZE_DEPTH o <= LJ_MAX_BUF ->
  (exists sb' bs, lj_serialize_put ds dm sb o = SOk sb' /\ holds sb' (c ++ bs) /\
    forall sb2 rest, holds sb2 (bs ++ rest) ->
      lj_serialize_get ds dm ffi sb2 = SOk (norm dm LJ_SERIALIZE_DEPTH o, rest)) /\
  (exists str, lj_serialize_encode tmp o = SOk str /\
    lj_serialize_decode ffi str = SOk (norm None LJ_SERIALIZE_DEPTH o)).
Proof.
  intros Hds Hdm Ho Hh Hw Ht Hw0. split.
  - destruct (put_get ds dm ffi (prepared_ok ds Hds) (prepared_ok dm Hdm) LJ_SERIALIZE_DEPTH o Ho)
      as (bs & [_ C] & _ & G).
    destruct (C sb c Hh Hw) as (sb' & E & H' & _). exists sb', bs. split_and!; [done|done|].
    intros sb2 rest H2. unfold lj_serialize_get. rewrite (sbuf_bytes_holds sb2 _ H2). apply G.
  - destruct (put_get None None ffi (prepared_ok None (or_introl eq_refl)) (prepared_ok None (or_introl eq_refl))
      LJ_SERIALIZE_DEPTH o Ho) as (bs & [Cl C] & _ & G).
    assert (Hb : holds (lj_bufx_set_borrow tmp) []).
    { exists [], (mem tmp). repeat split; done. }
    destruct (C _ _ Hb) as (sb' & E & H' & W'); [done|]. unfold lj_serialize_encode. rewrite E.
    cbn [mbind sres_bind]. pose proof (sbuf_bytes_holds sb' _ H') as Hs.
    destruct (holds_bounds sb' _ H') as (R1 & R2 & _). cbn [w lj_bufx_set_borrow app] in *.
    replace (r sb') with 0 in Hs by lia. rewrite Hs. exists bs. split; [done|].
    unfold lj_serialize_decode. specialize (G []). rewrite app_nil_r in G.
    assert (Hc : holds (lj_bufx_set_cow bs) bs).
    { exists [], []. cbn. rewrite app_nil_r. repeat split; try done.
      unfold zlen. rewrite length_fmap. unfold LJ_MAX_BUF in Hw0. unfold zlen in Cl. lia. }
    rewrite (sbuf_bytes_holds _ _ Hc), G. done.
Qed.

(** The table with the array part nil, 7, nil, the pairs x = true and 1.5 =
    (1, 2) and two nodes not in use, the string x in the dictionary. *)
Definition sample : obj :=
  OTab [ONil; ONum (Tab.num_of_int 7); ONil]
    [(OStr [120], OTrue); (ONil, ONil);
     (ONum 0x3ff8000000000000, OTab [ONil; ONum (Tab.num_of_int 1); ONum (Tab.num_of_int 2)] [(ONil, ONil)] None);
     (OStr [121], ONil)] None.
Definition sample_dict : dict (list Z) := MkDict [DNil; DKey [120]; DFalse] (Some [([120], 0)]).

Lemma num_ok d k : enc_ok false d (ONum (Tab.num_of_int k)) <->
  in_u64 (Tab.num_of_int k) /\ tvisnum (Tab.num_of_int k) = true.
Proof. by destruct d. Qed.

Lemma sample_ok : enc_ok false LJ_SERIALIZE_DEPTH sample.
Proof.
  assert (N : forall k, k ∈ [1; 2; 7] -> in_u64 (Tab.num_of_int k) /\ tvisnum (Tab.num_of_int k) = true).
  { apply Forall_forall. repeat constructor; by vm_compute. }
  assert (E : forall d a, Forall (enc_ok false d) a -> zlen a <= Tab.LJ_MAX_ASIZE ->
    enc_ok false (S d) (OTab a [(ONil, ONil)] None)).
  { intros d a Ha Hz. cbn [enc_ok]. split_and!; try done. repeat constructor; by destruct d. }
  unfold sample, LJ_SERIALIZE_DEPTH. generalize 98%nat as d. intros d. cbn [enc_ok]. split_and!.
  - constructor; [done|]. constructor; [apply N, list_elem_of_In; cbn; auto|]. constructor; done.
  - constructor; [by cbn|]. constructor; [done|]. constructor; [|constructor; [by cbn|done]]. cbn [fst snd].
    split; [by cbn|]. apply E; [|by vm_compute]. constructor; [by destruct d|].
    constructor; [apply num_ok, N, list_elem_of_In; cbn; auto|]. constructor; [apply num_ok, N, list_elem_of_In; cbn; auto|done].
  - by vm_compute.
  - by vm_compute.
  - constructor; [done|]. constructor; [|done]. cbn. split; [done|]. by vm_compute.
  - cbn. split; [|done]. constructor; done.
Qed.

Lemma serialize_roundtrip_witness :
  (exists sb' bs, lj_serialize_put (Some sample_dict) None lj_bufx_init sample = SOk sb' /\ holds sb' ([] ++ bs) /\
    forall sb2 rest, holds sb2 (bs ++ rest) ->
      lj_serialize_get (Some sample_dict) None false sb2 = SOk (norm None LJ_SERIALIZE_DEPTH sample, rest)) /\
  (exists str, lj_serialize_encode lj_buf_init sample = SOk str /\
    lj_serialize_decode false str = SOk (norm None LJ_SERIALIZE_DEPTH sample)).
Proof.
  apply (serialize_roundtrip (Some sample_dict) None false lj_bufx_init [] sample lj_buf_init).
  - right. exists [DNil; DKey [120]; DFalse], sample_dict. split_and!; [done|by vm_compute|done].
  - by left.
  - exact sample_ok.
  - exists [], []. repeat split; done.
  - by vm_compute.
  - done.
  - by vm_compute.
Defined.

(** C18: The decoder comes to an end on any input and stays within it.
    Whatever bytes a buffer holds and whatever the dictionaries are, the
    comparisons of the pointers before each read make sure that no byte, word
    or string behind the write pointer is read (a fault of the model), and the
    decoder ends: it gives a value and what is left of the bytes, less than
    before, or raises an error. *)
Theorem serialize_get_total ds dm ffi sb c : holds sb c ->
  (exists e, lj_serialize_get ds dm ffi sb = SErr e) \/
  (exists o rest, lj_serialize_get ds dm ffi sb = SOk (o, rest) /\ (length rest < length c)%nat).
Proof.
  intros H. unfold lj_serialize_get. rewrite (sbuf_bytes_holds sb c H).
  pose proof (get_total ds dm ffi LJ_SERIALIZE_DEPTH c) as Ht.
  destruct (serialize_get ds dm ffi LJ_SERIALIZE_DEPTH c) as [[o rest]|e| |]; [right; eauto|left; eauto|done|done].
Qed.

(** A string of five bytes of which two are there is an error; the string ab
    is read up to the byte behind it. *)
Lemma serialize_get_total_witness :
  lj_serialize_get None None false (lj_bufx_set_cow [37; 97; 98]) = SErr BUFFER_EOB /\
  (exists o rest, lj_serialize_get None None false (lj_bufx_set_cow [34; 97; 98; 0]) = SOk (o, rest) /\
    o = OStr [97; 98] /\ rest = [0] /\ (length rest < 4)%nat).
Proof.
  assert (H : forall c, c ∈ [[37; 97; 98]; [34; 97; 98; 0]] -> holds (lj_bufx_set_cow c) c).
  { apply Forall_forall. repeat constructor; exists [], []; repeat split; done. }
  split.
  - destruct (serialize_get_total None None false (lj_bufx_set_cow [37; 97; 98]) [37; 97; 98]) as [(e & E)|(o & rest & E & _)].
    + by apply H, list_elem_of_In; left.
    + rewrite E. vm_compute in E. by injection E as <-.
    + vm_compute in E. discriminate E.
  - destruct (serialize_get_total None None false (lj_bufx_set_cow [34; 97; 98; 0]) [34; 97; 98; 0]) as [(e & E)|(o & rest & E & Hl)].
    + by apply H, list_elem_of_In; right; left.
    + vm_compute in E. discriminate E.
    + exists o, rest. split; [exact E|]. vm_compute in E. injection E as <- <-. split_and!; [done|done|exact Hl].
Defined.

Lemma word_le_nonneg n : forall p x p', Forall in_u8 p -> word_le n p = Some (x, p') -> 0 <= x.
Proof.
  induction n as [|n IH]; intros p x p' Hp; cbn [word_le]; [intros [= <- _]; lia|].
  destruct Hp as [|c p Hc Hp]; [done|]. destruct (word_le n p) as [[y q]|] eqn:E; [|done].
  intros [= <- <-]. pose proof (IH p y q Hp E). unfold in_u8 in Hc. cbn. lia.
Qed.

Lemma ru124_nonneg p v p' : Forall in_u8 p -> serialize_ru124 p = SOk (Some (v, p')) -> 0 <= v.
Proof.
  intros Hp. unfold serialize_ru124. destruct (_ <? _); [|done].
  destruct Hp as [|c p Hc Hp]; cbn; [done|]. unfold in_u8 in Hc.
  destruct (0xe0 <=? c); [|intros [= <- <-]; lia]. unfold serialize_ru124_. destruct (negb _).
  - destruct (_ <=? _); [done|]. destruct Hp as [|c2 p Hc2 Hp]; cbn; [done|]. intros [= <- <-]. unfold in_u8 in Hc2.
    assert (0 <= Z.shiftl (Z.land c 31) 8); [|lia]. apply Z.shiftl_nonneg, Z.land_nonneg. lia.
  - destruct (_ <? _); [done|]. unfold get_word. destruct (word_le 4 p) as [[x q]|] eqn:E; cbn; [|done].
    intros [= <- <-]. by eapply word_le_nonneg.
Qed.

(** Decide the tests of a tag that arithmetic decides. *)
Ltac tags := unfold SER_TAG_STR, SER_TAG_INT, SER_TAG_NUM, SER_TAG_DICT_STR, SER_TAG_NIL, SER_TAG_FALSE,
    SER_TAG_TRUE, SER_TAG_NULL, SER_TAG_LIGHTUD32, SER_TAG_LIGHTUD64, SER_TAG_INT64, SER_TAG_COMPLEX, SER_TAG_DICT_MT,
    SER_TAG_TAB in *;
  repeat match goal with |- context [if ?b then _ else _] => destruct b eqn:?; [try (exfalso; lia)|try (exfalso; lia)] end;
  try done.

(** The announced type is right.  Whenever a value is decoded from some
    bytes, [lj_serialize_peektype] on these bytes gave the type of that
    value, so that code specialised to the type is never handed another. *)
Theorem peektype_matches ds dm ffi d p o rest :
  Forall in_u8 p -> serialize_get ds dm ffi d p = SOk (o, rest) -> lj_serialize_peektype p = SOk (irtype o).
Proof.
  intros Hp. rewrite serialize_get_eq. unfold lj_serialize_peektype.
  destruct (serialize_ru124 p) as [[[tp p1]|]| | |] eqn:E0; try done.
  pose proof (ru124_nonneg p tp p1 Hp E0) as Hn. cbn [eob mbind sres_bind]. intros Hg. f_equal. revert Hg.
  assert (Ht : forall a b : Z, (a =? b) = true -> a = b) by (intros a b; apply Z.eqb_eq).
  destruct (SER_TAG_STR <=? tp) eqn:E1.
  { destruct (_ <? _); [done|]. destruct (get_bytes _ p1); cbn; try done. intros [= <- <-]. unfold SER_TAG_STR in E1. tags. }
  destruct (tp =? SER_TAG_INT) eqn:E2.
  { apply Ht in E2 as ->. destruct (_ <? _); [done|]. destruct (get_word 4 p1) as [[x p2]| | |]; try done. by intros [= <- <-]. }
  destruct (tp =? SER_TAG_NUM) eqn:E3.
  { apply Ht in E3 as ->. destruct (_ <? _); [done|]. destruct (get_word 8 p1) as [[x p2]| | |]; try done. by intros [= <- <-]. }
  destruct (tp <=? SER_TAG_TRUE) eqn:E4.
  { intros [= <- <-]. destruct (tp =? SER_TAG_NIL) eqn:E5; [done|]. destruct (tp =? SER_TAG_FALSE) eqn:E6; [done|].
    tags. }
  destruct (tp =? SER_TAG_DICT_STR) eqn:E5.
  { apply Ht in E5 as ->. destruct (serialize_ru124 p1) as [[[x p2]|]| | |]; try done. cbn [eob mbind sres_bind fst snd].
    destruct (dict_slot ds x); cbn; try done. by intros [= <- <-]. }
  destruct ((SER_TAG_TAB <=? tp) && (tp <=? SER_TAG_DICT_MT)) eqn:E6.
  { destruct d as [|d]; [done|]. intros ->%get_tab_type. tags. }
  destruct ((SER_TAG_INT64 <=? tp) && (tp <=? SER_TAG_COMPLEX)) eqn:E7.
  { intros ->%get_cdata_type. tags. }
  destruct (tp <=? SER_TAG_LIGHTUD64) eqn:E8; [|done]. unfold get_light.
  destruct (if tp =? SER_TAG_LIGHTUD32 then _ else _) as [[x p2]| | |]; cbn [mbind sres_bind]; try done.
  intros [= <- <-]. cbn [irtype fst]. tags.
Qed.

(** The string ab. *)
Lemma peektype_matches_witness : lj_serialize_peektype [34; 97; 98] = SOk (irtype (OStr [97; 98])).
Proof.
  apply (peektype_matches None None false 1 [34; 97; 98] (OStr [97; 98]) []); [|reflexivity].
  repeat constructor; unfold in_u8; lia.
Defined.
End SerializeSpec.
