(* ===== verification/LjBcdump.v ===== *)
(** * LjBcdump

    Bytecode dumps: the writer [lj_bcwrite.c] behind [string.dump], the reader
    [lj_bcread.c] behind [load], and the format constants [lj_bcdump.h].

    A prototype is a tree: its children are among its collectable constants.
    The writer works on a string buffer ([LjBuf]) and hands each block to a
    writer function.  The reader gets its input in pieces; what lies between
    its pointers [p] and [pe], in its own buffer or in a piece, is a list of
    bytes, and an access behind [pe] is [RBad].  Template tables are kept as
    in [LjSerialize].  This file holds the operations; [LjBcdumpSpec] shows
    that what was dumped is loaded again, and what is not. *)
From stdpp Require Import base tactics numbers list.
From Stdlib Require Import ZArith Lia.
From S2P Require Import Prelude LjStr LjBuf LjStrfmt LjTab LjTabNext LjSerialize.
Import Buf Serialize.
Open Scope Z_scope.

Module Bcdump.

(** ** Prototypes *)

(** A collectable constant; the value of a cdata object is its 64-bit words. *)
Inductive kgc (P : Type) :=
  | KStr (s : list Z)
  | KChild (pt : P)
  | KTab (array : list obj) (node : list (obj * obj))
  | KI64 (x : Z) | KU64 (x : Z) | KComplex (re im : Z).
Arguments KStr {P} s.
Arguments KChild {P} pt.
Arguments KTab {P} array node.
Arguments KI64 {P} x.
Arguments KU64 {P} x.
Arguments KComplex {P} re im.

(** The memory from [lineinfo] to the end of the object, and where the other
    three pointers point into it. *)
Record debug := Debug { dbg_mem : list Z; uvinfo : Z; varinfo : Z; declname : Z }.

(** [kgcs] is in the order of memory, from [k - sizekgc] to [k - 1]; [bc] and
    [uv] are 32-bit and 16-bit words, [kn] the 64 bits of each number. *)
#[warnings="-register-all"]
Inductive GCproto := Proto {
  flags : Z; numparams : Z; framesize : Z;
  bc : list Z; kgcs : list (kgc GCproto); kn : list Z; uv : list Z;
  trace : Z; chunkname : list Z;
  firstline : Z; numline : Z; dbg : option debug }.

Definition PROTO_CHILD : Z := 0x01.
Definition PROTO_VARARG : Z := 0x02.
Definition PROTO_FFI : Z := 0x04.
Definition PROTO_ILOOP : Z := 0x10.

Definition hasflag (f m : Z) : bool := negb (Z.land f m =? 0).

(** The two words of a TValue. *)
Definition lo (u : Z) : Z := u32 u.
Definition hi (u : Z) : Z := u32 (Z.shiftr u 32).

(** ** The format *)

Definition BCDUMP_HEAD1 : Z := 0x1b.
Definition BCDUMP_HEAD2 : Z := 0x4c.
Definition BCDUMP_HEAD3 : Z := 0x4a.
Definition BCDUMP_VERSION : Z := 3.

Definition BCDUMP_F_BE : Z := 0x01.
Definition BCDUMP_F_STRIP : Z := 0x02.
Definition BCDUMP_F_FFI : Z := 0x04.
Definition BCDUMP_F_FR2 : Z := 0x08.
Definition BCDUMP_F_KNOWN : Z := BCDUMP_F_FR2 * 2 - 1.
Definition LJ_FR2 : Z := 1.

Definition BCDUMP_KGC_CHILD : Z := 0.
Definition BCDUMP_KGC_TAB : Z := 1.
Definition BCDUMP_KGC_I64 : Z := 2.
Definition BCDUMP_KGC_U64 : Z := 3.
Definition BCDUMP_KGC_COMPLEX : Z := 4.
Definition BCDUMP_KGC_STR : Z := 5.

Definition BCDUMP_KTAB_NIL : Z := 0.
Definition BCDUMP_KTAB_FALSE : Z := 1.
Definition BCDUMP_KTAB_TRUE : Z := 2.
Definition BCDUMP_KTAB_INT : Z := 3.
Definition BCDUMP_KTAB_NUM : Z := 4.
Definition BCDUMP_KTAB_STR : Z := 5.

(** A ULEB128 number; every 32-bit number has one. *)
Definition uleb (v : Z) : list Z := default [] (Strfmt.lj_strfmt_wuleb128 (u32 v)).

Definition ins_bytes (l : list Z) : list Z := concat (bytes_le 4 <$> l).
Definition uv_bytes (l : list Z) : list Z := concat (bytes_le 2 <$> l).

(** *** Instructions the compiler of traces and the interpreter patch *)
Definition BC_FORI : Z := 77.
Definition BC_JFORI : Z := 78.
Definition BC_FORL : Z := 79.
Definition BC_IFORL : Z := 80.
Definition BC_JFORL : Z := 81.
Definition BC_ITERL : Z := 82.
Definition BC_IITERL : Z := 83.
Definition BC_JITERL : Z := 84.
Definition BC_LOOP : Z := 85.
Definition BC_ILOOP : Z := 86.
Definition BC_JLOOP : Z := 87.
Definition BC_FUNCF : Z := 89.
Definition BC_FUNCV : Z := 92.

(** ** Writing constants *)

(** The room for the longest case is made first, then the room a string
    needs. *)
Definition bcwrite_ktabk (sb : SBuf) (o : obj) (narrow : bool) : sres SBuf :=
  sb ← lift (lj_buf_more sb (1 + 10));
  match o with
  | OStr str => put_more sb (5 + zlen str) (uleb (BCDUMP_KTAB_STR + zlen str) ++ str)
  | ONum u =>
      match (if narrow then Tab.num_int u else None) with
      | Some k => lift (put_bytes sb (BCDUMP_KTAB_INT :: uleb k))
      | None => lift (put_bytes sb (BCDUMP_KTAB_NUM :: uleb (lo u) ++ uleb (hi u)))
      end
  | ONil => lift (put_bytes sb [BCDUMP_KTAB_NIL])
  | OFalse => lift (put_bytes sb [BCDUMP_KTAB_FALSE])
  | OTrue => lift (put_bytes sb [BCDUMP_KTAB_TRUE])
  | _ => SBad
  end.

(** From the last node downwards until [i] pairs were written. *)
Fixpoint bcwrite_khash (sb : SBuf) (l : list (obj * obj)) (i : Z) : sres SBuf :=
  match l with
  | [] => SBad
  | (k, v) :: l' =>
      if negb (isnil v) then
        sb ← bcwrite_ktabk sb k false;
        sb ← bcwrite_ktabk sb v true;
        if i - 1 =? 0 then SOk sb else bcwrite_khash sb l' (i - 1)
      else bcwrite_khash sb l' i
  end.

Definition bcwrite_ktab (sb : SBuf) (array : list obj) (node : list (obj * obj)) : sres SBuf :=
  let narray := used_slots array in
  let nhash := if 0 <? zlen node - 1 then used_nodes node else 0 in
  sb ← lift (put_bytes sb (uleb narray ++ uleb nhash));
  sb ← (if negb (narray =? 0) then
          put_list (fun sb o => bcwrite_ktabk sb o true) sb (take (Z.to_nat narray) array)
        else SOk sb);
  if negb (nhash =? 0) then bcwrite_khash sb (reverse node) nhash else SOk sb.

(** The type code and the room needed. *)
Definition kgc_tp {P} (o : kgc P) : Z * Z :=
  match o with
  | KStr s => (BCDUMP_KGC_STR + zlen s, 5 + zlen s)
  | KChild _ => (BCDUMP_KGC_CHILD, 1)
  | KI64 _ => (BCDUMP_KGC_I64, 1 + 4 * 5)
  | KU64 _ => (BCDUMP_KGC_U64, 1 + 4 * 5)
  | KComplex _ _ => (BCDUMP_KGC_COMPLEX, 1 + 4 * 5)
  | KTab _ _ => (BCDUMP_KGC_TAB, 1 + 2 * 5)
  end.

Definition bcwrite_kgc1 {P} (sb : SBuf) (o : kgc P) : sres SBuf :=
  let '(tp, need) := kgc_tp o in
  sb ← put_more sb need (uleb tp);
  match o with
  | KStr s => lift (put_bytes sb s)
  | KTab array node => bcwrite_ktab sb array node
  | KChild _ => SOk sb
  | KI64 x | KU64 x => lift (put_bytes sb (uleb (lo x) ++ uleb (hi x)))
  | KComplex re im =>
      lift (put_bytes sb (uleb (lo re) ++ uleb (hi re) ++ uleb (lo im) ++ uleb (hi im)))
  end.

Fixpoint bcwrite_kgc {P} (sb : SBuf) (l : list (kgc P)) : sres SBuf :=
  match l with [] => SOk sb | o :: l' => sb ← bcwrite_kgc1 sb o; bcwrite_kgc sb l' end.

(** [p[-1] = (p[-1] & 7) | x] behind the bytes [p]. *)
Definition patch_last (p : list Z) (x : Z) : list Z :=
  match last p with Some c => removelast p ++ [Z.lor (Z.land c 7) x] | None => p end.

Definition knum_bytes (u : Z) : list Z :=
  match (if hi u =? TabNext.LJ_KEYINDEX then None else Tab.num_int u) with
  | Some k =>
      let p := uleb (Z.lor (u32 (2 * u32 k)) (Z.land (u32 k) 0x80000000)) in
      if k <? 0 then patch_last p (Z.land (Z.shiftr k 27) 0x18) else p
  | None =>
      let p := uleb (1 + Z.lor (u32 (2 * lo u)) (Z.land (lo u) 0x80000000)) in
      (if 0x80000000 <=? lo u then patch_last p (Z.land (Z.shiftr (lo u) 27) 0x18) else p) ++
      uleb (hi u)
  end.

Definition bcwrite_knum (sb : SBuf) (l : list Z) : sres SBuf :=
  put_more sb (10 * zlen l) (concat (knum_bytes <$> l)).

(** ** Writing prototypes *)

Section writer.

(** The first instruction of the trace with a number ([traceref(J, rd)]), the
    writer function on its data (a writer that raises an error is one that
    returns a status), and whether debug information is left out. *)
Variable startins : Z -> option Z.
Variable W : Type.
Variable wfunc : W -> list Z -> W * Z.
Variable strip : bool.

Record BCWriteCtx := Ctx { c_sb : SBuf; c_wdata : W; c_status : Z }.

Definition set_mem (sb : SBuf) (m : list (option Z)) : SBuf :=
  Sbuf m (w sb) (r sb) (ext sb) (cow sb) (borrow sb) (bsb sb).
Definition set_w (sb : SBuf) (p : Z) : SBuf :=
  Sbuf (mem sb) p (r sb) (ext sb) (cow sb) (borrow sb) (bsb sb).

(** Bytes of the buffer, read and written in place. *)
Definition peek (m : list (option Z)) (i : Z) : option Z := mjoin (zget m i).
Fixpoint poke (m : list (option Z)) (i : Z) (bs : list Z) : option (list (option Z)) :=
  match bs with [] => Some m | c :: bs' => m ← zset m i (Some c); poke m (i + 1) bs' end.

(** [q] walks over the instructions; [p] is what the code uses in the branch
    for compiled loops: the place behind the last instruction. *)
Fixpoint unpatch (n : nat) (m : list (option Z)) (q p : Z) : option (list (option Z)) :=
  match n with
  | O => Some m
  | S n' =>
      op ← peek m q;
      m ← (if (op =? BC_IFORL) || (op =? BC_IITERL) || (op =? BC_ILOOP) || (op =? BC_JFORI) then
             zset m q (Some (u8 (op - BC_IFORL + BC_FORL)))
           else if (op =? BC_JFORL) || (op =? BC_JITERL) || (op =? BC_JLOOP) then
             b2 ← peek m (p + 2);
             b3 ← peek m (p + 3);
             ins ← startins (u32 (i8 b2 + Z.shiftl (i8 b3) 8));
             poke m p (bytes_le 4 ins)
           else Some m);
      unpatch n' m (q + 4) p
  end.

Definition bcwrite_bytecode (sb : SBuf) (pt : GCproto) : sres SBuf :=
  let nbc := length (drop 1 (bc pt)) in
  let q := w sb in
  sb ← lift (put_bytes sb (ins_bytes (drop 1 (bc pt))));
  if hasflag (flags pt) PROTO_ILOOP || negb (trace pt =? 0) then
    match unpatch nbc (mem sb) q (w sb) with Some m => SOk (set_mem sb m) | None => SBad end
  else SOk sb.

(** [sizedbg] and [ofsdeclname]. *)
Definition dbg_sizes (pt : GCproto) : Z * Z :=
  match dbg pt with
  | Some d => if strip then (0, 0) else (zlen (dbg_mem d), declname d)
  | None => (0, 0)
  end.

Definition proto_head (pt : GCproto) : list Z :=
  let '(sizedbg, ofsdeclname) := dbg_sizes pt in
  [Z.land (flags pt) (Z.lor PROTO_CHILD (Z.lor PROTO_VARARG PROTO_FFI));
   numparams pt; framesize pt; zlen (uv pt)] ++
  uleb (zlen (kgcs pt)) ++ uleb (zlen (kn pt)) ++ uleb (zlen (bc pt) - 1) ++
  (if strip then []
   else uleb sizedbg ++
        (if sizedbg =? 0 then []
         else uleb (firstline pt) ++ uleb (numline pt) ++ uleb ofsdeclname)).

(** The information on one prototype, five bytes behind the start of the
    buffer. *)
Definition bcwrite_info (sb : SBuf) (pt : GCproto) : sres SBuf :=
  sb ← lift (lj_buf_need sb (u32 (5 + 4 + 6 * 5 + (zlen (bc pt) - 1) * 4 + zlen (uv pt) * 2)));
  sb ← lift (put_bytes (set_w sb 5) (proto_head pt));
  sb ← bcwrite_bytecode sb pt;
  sb ← lift (put_bytes sb (uv_bytes (uv pt)));
  sb ← bcwrite_kgc sb (kgcs pt);
  sb ← bcwrite_knum sb (kn pt);
  let sizedbg := (dbg_sizes pt).1 in
  if sizedbg =? 0 then SOk sb
  else put_more sb sizedbg (match dbg pt with Some d => dbg_mem d | None => [] end).

(** The size in front, and the block to the writer. *)
Definition bcwrite_pass (ctx : BCWriteCtx) (sb : SBuf) : sres BCWriteCtx :=
  if c_status ctx =? 0 then
    let n := u32 (sbuflen sb - 5) in
    let nn := Z.shiftr ((Tab.lj_fls n + 8) * 9) 6 in
    let q := 5 - nn in
    match poke (mem sb) q (uleb n) with
    | Some m =>
        let sb := set_mem sb m in
        match sbuf_bytes sb q (q + (nn + n)) with
        | Some bytes => let '(wd, st) := wfunc (c_wdata ctx) bytes in SOk (Ctx sb wd st)
        | None => SBad
        end
    | None => SBad
    end
  else SOk (Ctx sb (c_wdata ctx) (c_status ctx)).

(** The children first, from the last constant to the first. *)
Fixpoint bcwrite_proto (ctx : BCWriteCtx) (pt : GCproto) {struct pt} : sres BCWriteCtx :=
  ctx ← (if hasflag (flags pt) PROTO_CHILD then
           (fix children (l : list (kgc GCproto)) : sres BCWriteCtx :=
              match l with
              | [] => SOk ctx
              | o :: l' =>
                  ctx ← children l';
                  match o with KChild c => bcwrite_proto ctx c | _ => SOk ctx end
              end) (kgcs pt)
         else SOk ctx);
  sb ← bcwrite_info (c_sb ctx) pt;
  bcwrite_pass ctx sb.

Definition header_bytes (pt : GCproto) : list Z :=
  [BCDUMP_HEAD1; BCDUMP_HEAD2; BCDUMP_HEAD3; BCDUMP_VERSION;
   (if strip then BCDUMP_F_STRIP else 0) +
   (if hasflag (flags pt) PROTO_FFI then BCDUMP_F_FFI else 0) + LJ_FR2 * BCDUMP_F_FR2] ++
  (if strip then [] else uleb (zlen (chunkname pt)) ++ chunkname pt).

(** The write pointer of the buffer stays where it is. *)
Definition bcwrite_header (ctx : BCWriteCtx) (pt : GCproto) : sres BCWriteCtx :=
  sb ← lift (lj_buf_need (c_sb ctx) (u32 (5 + 5 + zlen (chunkname pt))));
  sb' ← lift (put_bytes (set_w sb 0) (header_bytes pt));
  match sbuf_bytes sb' 0 (w sb') with
  | Some bytes => let '(wd, st) := wfunc (c_wdata ctx) bytes in SOk (Ctx (set_w sb' (w sb)) wd st)
  | None => SBad
  end.

Definition bcwrite_footer (ctx : BCWriteCtx) : BCWriteCtx :=
  if c_status ctx =? 0 then
    let '(wd, st) := wfunc (c_wdata ctx) [0] in Ctx (c_sb ctx) wd st
  else ctx.

Definition cpwriter (ctx : BCWriteCtx) (pt : GCproto) : sres BCWriteCtx :=
  sb ← lift (lj_buf_need (c_sb ctx) 1024);
  ctx ← bcwrite_header (Ctx sb (c_wdata ctx) (c_status ctx)) pt;
  ctx ← bcwrite_proto ctx pt;
  SOk (bcwrite_footer ctx).

(** The data of the writer and the status; an error of the buffer is what the
    protected call turns into a status. *)
Definition lj_bcwrite (pt : GCproto) (wdata : W) : sres (W * Z) :=
  ctx ← cpwriter (Ctx lj_buf_init wdata 0) pt;
  SOk (c_wdata ctx, c_status ctx).
End writer.

Arguments Ctx {W} c_sb c_wdata c_status.
Arguments c_sb {W} b.
Arguments c_wdata {W} b.
Arguments c_status {W} b.

(** *** [string.dump] *)

Definition LUA_ERRMEM : Z := 4.

Definition writer_buf (sb : SBuf) (p : list Z) : SBuf * Z :=
  match lj_buf_putmem sb p with Ok sb' => (sb', 0) | _ => (sb, LUA_ERRMEM) end.

(** [None] is the error [LJ_ERR_STRDUMP]. *)
Definition string_dump (startins : Z -> option Z) (tmpbuf : SBuf) (pt : GCproto) (strip : bool)
    : option (list Z) :=
  match lj_bcwrite startins SBuf writer_buf strip pt (lj_buf_reset tmpbuf) with
  | SOk (sb, st) => if st =? 0 then sbuf_bytes sb 0 (w sb) else None
  | _ => None
  end.

(** ** Reading *)

Inductive rerr := BCFMT (name : list Z) | BCBAD (name : list Z) | STROV | STKOV | RMEM | RTAB (e : Tab.terr).
Inductive rres (A : Type) := ROk (a : A) | RErr (e : rerr) | RBad | RFuel.
Arguments ROk {A} a.
Arguments RErr {A} e.
Arguments RBad {A}.
Arguments RFuel {A}.

#[export] Instance rres_ret : MRet rres := fun A a => ROk a.
#[export] Instance rres_bind : MBind rres := fun A B f o =>
  match o with ROk a => f a | RErr e => RErr e | RBad => RBad | RFuel => RFuel end.

(** A reader takes bytes off the list between [p] and [pe]. *)
Definition rd (A : Type) : Type := list Z -> rres (A * list Z).
#[export] Instance rd_ret : MRet rd := fun A a p => ROk (a, p).
#[export] Instance rd_bind : MBind rd := fun A B f m p => '(a, p) ← m p; f a p.
Definition rbad {A} : rd A := fun _ => RBad.
Definition rfuel {A} : rd A := fun _ => RFuel.
Definition rfail {A} (e : rerr) : rd A := fun _ => RErr e.
Definition rlift {A} (x : sres A) : rd A := fun p =>
  match x with
  | SOk a => ROk (a, p) | SErr (ERRTAB e) => RErr (RTAB e) | SErr _ => RErr RMEM | SBad => RBad | SFuel => RFuel
  end.

Section reader.

(** The name given to [load], and the slots left on the Lua stack. *)
Variable chunkarg : list Z.
Variable room : Z.

(** The name an error message starts with. *)
Definition bcread_error (em : list Z -> rerr) : rerr :=
  match chunkarg with
  | c :: name =>
      if c =? BCDUMP_HEAD1 then em [40; 98; 105; 110; 97; 114; 121; 41]
      else if (c =? 64) || (c =? 61) then em name
      else em chunkarg
  | [] => em chunkarg
  end.

(** *** The input *)

(** What was read and not yet used, the pieces to come (an empty one ends the
    input), and whether the end was seen. *)
Record input := Input { inp : list Z; pieces : list (list Z); eof : bool }.

(** Behind bytes that are left over a piece is copied into the buffer. *)
Definition append (p : list Z) (buf : list Z) (len : Z) : rres (list Z) :=
  let n := zlen p in
  if n =? 0 then ROk buf
  else
    let n' := u32 (n + zlen buf) in
    if LJ_MAX_BUF <? (if n' <? len then len else n') then RErr RMEM
    else if n' =? n + zlen buf then ROk (p ++ buf)
    else RBad.

Fixpoint fill_loop (p : list Z) (l : list (list Z)) (len : Z) (need : bool) : rres input :=
  match l with
  | [] | [] :: _ => if need then RErr (bcread_error BCBAD) else ROk (Input p (drop 1 l) true)
  | buf :: l' =>
      p ← append p buf len;
      if zlen p <? len then fill_loop p l' len need else ROk (Input p l' false)
  end.

Definition bcread_fill (ls : input) (len : Z) (need : bool) : rres input :=
  if (LJ_MAX_BUF <? len) || eof ls then RErr (bcread_error BCBAD)
  else fill_loop (inp ls) (pieces ls) len need.

Definition bcread_need (ls : input) (len : Z) : rres input :=
  if zlen (inp ls) <? len then bcread_fill ls len true else ROk ls.

Definition bcread_want (ls : input) (len : Z) : rres input :=
  if zlen (inp ls) <? len then bcread_fill ls len false else ROk ls.

Definition bcread_mem (len : Z) : rd (list Z) := fun p =>
  if zlen p <? len then RBad else ROk (take (Z.to_nat len) p, drop (Z.to_nat len) p).

Definition bcread_byte : rd Z := fun p => match p with c :: p' => ROk (c, p') | [] => RBad end.

Definition bcread_uleb128 : rd Z := fun p =>
  match lj_buf_ruleb128 p 0 with Some (v, i) => ROk (v, drop (Z.to_nat i) p) | None => RBad end.

(** The [do ... while] loop over the bytes with the top bit set. *)
Fixpoint uleb33_loop (p : list Z) (v sh : Z) : rres (Z * list Z) :=
  match p with
  | [] => RBad
  | c :: p' =>
      let sh := sh + 7 in
      let v := Z.lor v (u32 (Z.shiftl (Z.land c 0x7f) sh)) in
      if 0x80 <=? c then uleb33_loop p' v sh else ROk (v, p')
  end.

Definition bcread_uleb128_33 : rd Z := fun p =>
  match p with
  | [] => RBad
  | c :: p' =>
      let v := Z.shiftr c 1 in
      if 0x40 <=? v then uleb33_loop p' (Z.land v 0x3f) (-1) else ROk (v, p')
  end.

(** *** Constants *)

(** [lj_str_new] on bytes of the input. *)
Definition read_str (len : Z) : rd (list Z) :=
  s ← bcread_mem len;
  if LJ_MAX_STR <=? len then rfail STROV else mret s.

Definition bcread_ktabk : rd obj :=
  tp ← bcread_uleb128;
  if BCDUMP_KTAB_STR <=? tp then
    s ← read_str (tp - BCDUMP_KTAB_STR); mret (OStr s)
  else if tp =? BCDUMP_KTAB_INT then
    v ← bcread_uleb128; mret (ONum (Tab.num_of_int (i32 v)))
  else if tp =? BCDUMP_KTAB_NUM then
    l ← bcread_uleb128; h ← bcread_uleb128; mret (ONum (l + 4294967296 * h))
  else mret (if tp =? BCDUMP_KTAB_NIL then ONil else if tp =? BCDUMP_KTAB_FALSE then OFalse else OTrue).

(** Every element takes a byte at least, which bounds the rounds. *)
Fixpoint many {A} (get : rd A) (fuel : nat) (n : Z) : rd (list A) :=
  if n <=? 0 then mret []
  else
    match fuel with
    | O => rfuel
    | S fuel' => x ← get; l ← many get fuel' (n - 1); mret (x :: l)
    end.
Definition read_many {A} (get : rd A) (n : Z) : rd (list A) := fun p => many get (S (length p)) n p.

(** The value goes where [lj_tab_set] found a place for the key. *)
Fixpoint khash_loop (fuel : nat) (nhash : Z) (t : list obj * list (obj * obj)) : rd (list obj * list (obj * obj)) :=
  if nhash <=? 0 then mret t
  else
    match fuel with
    | O => rfuel
    | S fuel' =>
        k ← bcread_ktabk;
        s ← rlift (tab_set t.1 t.2 k);
        v ← bcread_ktabk;
        khash_loop fuel' (nhash - 1) (tab_store t.1 t.2 s.1 k v)
    end.

Definition read_khash (nhash : Z) (t : list obj * list (obj * obj)) : rd (list obj * list (obj * obj)) :=
  fun p => khash_loop (S (length p)) nhash t p.

Definition bcread_ktab : rd (list obj * list (obj * obj)) :=
  narray ← bcread_uleb128;
  nhash ← bcread_uleb128;
  if (Tab.LJ_MAX_ASIZE <? narray) || (Tab.LJ_MAX_HBITS <? Tab.hsize2hbits nhash) then rfail (RTAB Tab.TABOV)
  else
    array ← read_many bcread_ktabk narray;
    read_khash nhash (array, []).

Definition read_u64 : rd Z := l ← bcread_uleb128; h ← bcread_uleb128; mret (l + 4294967296 * h).

(** Children are popped off the stack of prototypes read before. *)
Definition bcread_kgc1 (stack : list GCproto) : rd (kgc GCproto * list GCproto) :=
  tp ← bcread_uleb128;
  if BCDUMP_KGC_STR <=? tp then
    s ← read_str (tp - BCDUMP_KGC_STR); mret (KStr s, stack)
  else if tp =? BCDUMP_KGC_TAB then
    t ← bcread_ktab; mret (KTab t.1 t.2, stack)
  else if negb (tp =? BCDUMP_KGC_CHILD) then
    x ← read_u64;
    if tp =? BCDUMP_KGC_COMPLEX then
      y ← read_u64; mret (KComplex x y, stack)
    else mret (if tp =? BCDUMP_KGC_I64 then KI64 x else KU64 x, stack)
  else
    match stack with
    | [] => rfail (bcread_error BCBAD)
    | pt :: stack' => mret (KChild pt, stack')
    end.

Fixpoint kgc_loop (fuel : nat) (n : Z) (stack : list GCproto) : rd (list (kgc GCproto) * list GCproto) :=
  if n <=? 0 then mret ([], stack)
  else
    match fuel with
    | O => rfuel
    | S fuel' =>
        o ← bcread_kgc1 stack;
        l ← kgc_loop fuel' (n - 1) o.2;
        mret (o.1 :: l.1, l.2)
    end.
Definition bcread_kgc (n : Z) (stack : list GCproto) : rd (list (kgc GCproto) * list GCproto) :=
  fun p => kgc_loop (S (length p)) n stack p.

Definition bcread_knum1 : rd Z := fun p =>
  match p with
  | [] => RBad
  | c :: _ =>
      (l ← bcread_uleb128_33;
       if Z.land c 1 =? 1 then h ← bcread_uleb128; mret (l + 4294967296 * h)
       else mret (Tab.num_of_int (i32 l))) p
  end.
Definition bcread_knum (sizekn : Z) : rd (list Z) := read_many bcread_knum1 sizekn.

(** *** Prototypes *)

Fixpoint words4 (p : list Z) : list Z :=
  match p with
  | a :: b :: c :: d :: p' => a + 256 * (b + 256 * (c + 256 * d)) :: words4 p'
  | _ => []
  end.
Fixpoint words2 (p : list Z) : list Z :=
  match p with a :: b :: p' => a + 256 * b :: words2 p' | _ => [] end.

Definition BCINS_AD (o a d : Z) : Z := Z.lor o (Z.lor (Z.shiftl a 8) (Z.shiftl d 16)).

(** [f] is the flag word of the dump. *)
Definition bcread_swap (f : Z) : bool := hasflag f BCDUMP_F_BE.

Definition bcread_bytecode (f pflags frame sizebc : Z) : rd (list Z) :=
  p ← bcread_mem (u32 ((sizebc - 1) * 4));
  mret (BCINS_AD (if hasflag pflags PROTO_VARARG then BC_FUNCV else BC_FUNCF) frame 0 ::
        (if bcread_swap f then Str.lj_bswap <$> words4 p else words4 p)).

Definition bcread_uv (f sizeuv : Z) : rd (list Z) :=
  if sizeuv =? 0 then mret []
  else
    p ← bcread_mem (sizeuv * 2);
    mret (if bcread_swap f then (fun x => u16 (Z.lor (Z.shiftr x 8) (Z.shiftl x 8))) <$> words2 p else words2 p).

(** The line numbers are swapped in place. *)
Definition bcread_dbg (f sizebc sizedbg : Z) : rd (list Z) :=
  p ← bcread_mem sizedbg;
  if bcread_swap f then
    let n := 4 * (sizebc - 1) in
    if sizedbg <? n then rbad
    else mret (ins_bytes (Str.lj_bswap <$> words4 (take (Z.to_nat n) p)) ++ drop (Z.to_nat n) p)
  else mret p.

(** The size of a prototype with all its parts.  Where it is not a 32-bit
    number, the memory allocated for the prototype is too small. *)
Definition sizeof_GCproto : Z := 112.
Definition proto_size (sizebc sizekgc sizekn sizeuv sizedbg : Z) : Z :=
  (sizeof_GCproto + sizebc * 4 + sizekgc * 8 + 7) / 8 * 8 + sizekn * 8 + (sizeuv + 1) / 2 * 2 * 2 + sizedbg.

(** The numbers at the start: flags, parameters, frame size, the sizes, the
    lines and the offset of the name. *)
Record phead := Phead {
  h_flags : Z; h_numparams : Z; h_framesize : Z; h_sizeuv : Z;
  h_sizekgc : Z; h_sizekn : Z; h_sizebc : Z;
  h_sizedbg : Z; h_firstline : Z; h_numline : Z; h_ofsdeclname : Z }.

Definition bcread_phead (f : Z) : rd phead :=
  pflags ← bcread_byte;
  np ← bcread_byte;
  frame ← bcread_byte;
  sizeuv ← bcread_byte;
  sizekgc ← bcread_uleb128;
  sizekn ← bcread_uleb128;
  nbc ← bcread_uleb128;
  let sizebc := u32 (nbc + 1) in
  if hasflag f BCDUMP_F_STRIP then
    mret (Phead pflags np frame sizeuv sizekgc sizekn sizebc 0 0 0 0)
  else
    sizedbg ← bcread_uleb128;
    if sizedbg =? 0 then
      mret (Phead pflags np frame sizeuv sizekgc sizekn sizebc 0 0 0 0)
    else
      first ← bcread_uleb128;
      num ← bcread_uleb128;
      ofsdeclname ← bcread_uleb128;
      mret (Phead pflags np frame sizeuv sizekgc sizekn sizebc sizedbg (i32 first) (i32 num) ofsdeclname).

(** The pointers into the debug information, as the reader sets them. *)
Definition read_debug (f : Z) (h : phead) : rd (option debug) :=
  if h_sizedbg h =? 0 then mret None
  else
    m ← bcread_dbg f (h_sizebc h) (h_sizedbg h);
    let sizeli := (h_sizebc h - 1) * 4 in
    mret (Some (Debug m sizeli (sizeli + h_sizeuv h) (h_ofsdeclname h))).

(** [name] is the name of the chunk, [stack] the prototypes read before. *)
Definition lj_bcread_proto (f : Z) (name : list Z) (stack : list GCproto) : rd (GCproto * list GCproto) :=
  h ← bcread_phead f;
  if 4294967296 <=? proto_size (h_sizebc h) (h_sizekgc h) (h_sizekn h) (h_sizeuv h) (h_sizedbg h)
  then rbad
  else
    code ← bcread_bytecode f (h_flags h) (h_framesize h) (h_sizebc h);
    upv ← bcread_uv f (h_sizeuv h);
    k ← bcread_kgc (h_sizekgc h) stack;
    n ← bcread_knum (h_sizekn h);
    d ← read_debug f h;
    mret (Proto (h_flags h) (h_numparams h) (h_framesize h) code k.1 n upv 0 name
            (h_firstline h) (h_numline h) d, k.2).

(** *** Dumps *)

(** The rest of the signature and the version, up to the first byte that
    differs. *)
Definition bcread_magic : rd bool :=
  b1 ← bcread_byte;
  if negb (b1 =? BCDUMP_HEAD2) then mret false
  else
    b2 ← bcread_byte;
    if negb (b2 =? BCDUMP_HEAD3) then mret false
    else b3 ← bcread_byte; mret (b3 =? BCDUMP_VERSION).

(** The flags and the name of the chunk; [None] for a header that is not
    right. *)
Definition bcread_header (ls : input) : rres (option (Z * list Z) * input) :=
  ls ← bcread_want ls (3 + 5 + 5);
  '(ok, p) ← bcread_magic (inp ls);
  if negb ok then ROk (None, Input p (pieces ls) (eof ls))
  else
    '(f, p) ← bcread_uleb128 p;
    if negb (Z.land f (Z.lnot BCDUMP_F_KNOWN) =? 0) ||
       negb (Z.land f BCDUMP_F_FR2 =? LJ_FR2 * BCDUMP_F_FR2)
    then ROk (None, Input p (pieces ls) (eof ls))
    else if hasflag f BCDUMP_F_STRIP then ROk (Some (f, chunkarg), Input p (pieces ls) (eof ls))
    else
      '(len, p) ← bcread_uleb128 p;
      ls ← bcread_need (Input p (pieces ls) (eof ls)) len;
      '(name, p) ← read_str len (inp ls);
      ROk (Some (f, name), Input p (pieces ls) (eof ls)).

(** The prototypes up to the end mark; each takes a byte at least. *)
Fixpoint protos (fuel : nat) (f : Z) (name : list Z) (ls : input) (stack : list GCproto)
    : rres (input * list GCproto) :=
  match fuel with
  | O => RFuel
  | S fuel' =>
      if match inp ls with 0 :: _ => true | _ => false end then
        ROk (Input (drop 1 (inp ls)) (pieces ls) (eof ls), stack)
      else
        ls ← bcread_want ls 5;
        '(len, p) ← bcread_uleb128 (inp ls);
        let ls := Input p (pieces ls) (eof ls) in
        if len =? 0 then ROk (ls, stack)
        else
          ls ← bcread_need ls len;
          '(r, p) ← lj_bcread_proto f name stack (inp ls);
          if negb (zlen p =? zlen (inp ls) - len) then RErr (bcread_error BCBAD)
          else if room <=? zlen r.2 then RErr STKOV
          else protos fuel' f name (Input p (pieces ls) (eof ls)) (r.1 :: r.2)
  end.

(** After the first byte of the dump. *)
Definition lj_bcread (ls : input) : rres GCproto :=
  '(h, ls) ← bcread_header ls;
  match h with
  | None => RErr (bcread_error BCFMT)
  | Some (f, name) =>
      '(ls, stack) ← protos (S (length (inp ls) + length (concat (pieces ls)))) f name ls [];
      if 0 <? i32 (2 * u32 (zlen (inp ls))) then RErr (bcread_error BCBAD)
      else
        match stack with
        | [pt] => ROk pt
        | _ => RErr (bcread_error BCBAD)
        end
  end.
End reader.

(** ** Reading debug information *)

(** The bytes of a NUL-terminated string in the debug information. *)
Fixpoint cstring (p : list Z) : option (list Z) :=
  match p with [] => None | c :: p' => if c =? 0 then Some [] else s ← cstring p'; Some (c :: s) end.

(** Behind the [idx]-th NUL. *)
Fixpoint skip_names (p : list Z) (idx : Z) : option (list Z) :=
  match p with
  | [] => None
  | c :: p' =>
      if negb (c =? 0) then skip_names p' idx
      else if idx - 1 =? 0 then Some p' else skip_names p' (idx - 1)
  end.

(** [None] when it reads outside the prototype. *)
Definition lj_debug_uvname (pt : GCproto) (idx : Z) : option (list Z) :=
  match dbg pt with
  | None => Some []
  | Some d =>
      let p := drop (Z.to_nat (uvinfo d)) (dbg_mem d) in
      p ← (if idx =? 0 then Some p else skip_names p idx);
      cstring p
  end.
End Bcdump.
