(* ===== verification/LjBcdumpFormat.v ===== *)
(** * LjBcdumpFormat

    The format of bytecode dumps as functions from prototypes to bytes, and
    the proof that the writer of [LjBcdump], which works on a growing buffer
    and patches sizes and instructions in place, hands exactly these bytes to
    its writer function. *)
From stdpp Require Import base tactics numbers list.
From Stdlib Require Import ZArith Lia.
From S2P Require Import Prelude LjStr LjBuf LjStrfmt LjTab LjTabNext LjSerialize LjSerializeSpec LjBcdump.
Import Buf Serialize SerializeSpec Bcdump.
Open Scope Z_scope.

Module BcFormat.

(** ** The format *)

Definition ktabk_bytes (narrow : bool) (o : obj) : list Z :=
  match o with
  | OStr s => uleb (BCDUMP_KTAB_STR + zlen s) ++ s
  | ONum u =>
      match (if narrow then Tab.num_int u else None) with
      | Some k => BCDUMP_KTAB_INT :: uleb k
      | None => BCDUMP_KTAB_NUM :: uleb (lo u) ++ uleb (hi u)
      end
  | OFalse => [BCDUMP_KTAB_FALSE]
  | OTrue => [BCDUMP_KTAB_TRUE]
  | _ => [BCDUMP_KTAB_NIL]
  end.

(** The pairs of a template table, from the last node to the first. *)
Definition hash_pairs (node : list (obj * obj)) : list (obj * obj) :=
  if 0 <? zlen node - 1 then used (reverse node) else [].

Definition array_slots (array : list obj) : list obj := take (Z.to_nat (used_slots array)) array.

Definition pair_bytes (p : obj * obj) : list Z := ktabk_bytes false p.1 ++ ktabk_bytes true p.2.

Definition ktab_bytes (array : list obj) (node : list (obj * obj)) : list Z :=
  uleb (used_slots array) ++ uleb (zlen (hash_pairs node)) ++
  concat (ktabk_bytes true <$> array_slots array) ++ concat (pair_bytes <$> hash_pairs node).

Definition kgc_bytes {P} (o : kgc P) : list Z :=
  uleb (kgc_tp o).1 ++
  match o with
  | KStr s => s
  | KTab array node => ktab_bytes array node
  | KChild _ => []
  | KI64 x | KU64 x => uleb (lo x) ++ uleb (hi x)
  | KComplex re im => uleb (lo re) ++ uleb (hi re) ++ uleb (lo im) ++ uleb (hi im)
  end.

(** Loops that were switched off are switched on again. *)
Definition opcode (ins : Z) : Z := u8 ins.
Definition is_iloop (op : Z) : bool :=
  (op =? BC_IFORL) || (op =? BC_IITERL) || (op =? BC_ILOOP) || (op =? BC_JFORI).
Definition is_jloop (op : Z) : bool := (op =? BC_JFORL) || (op =? BC_JITERL) || (op =? BC_JLOOP).
Definition unpatch1 (ins : Z) : Z := if is_iloop (opcode ins) then ins - 1 else ins.
Definition patched (pt : GCproto) : bool := hasflag (flags pt) PROTO_ILOOP || negb (trace pt =? 0).
Definition code (pt : GCproto) : list Z :=
  if patched pt then unpatch1 <$> drop 1 (bc pt) else drop 1 (bc pt).

Section format.
Context (strip : bool).

Definition dbg_bytes (pt : GCproto) : list Z :=
  match dbg pt with Some d => if strip then [] else dbg_mem d | None => [] end.

Definition proto_bytes (pt : GCproto) : list Z :=
  proto_head strip pt ++ ins_bytes (code pt) ++ uv_bytes (uv pt) ++
  concat (kgc_bytes <$> kgcs pt) ++ concat (knum_bytes <$> kn pt) ++ dbg_bytes pt.

Definition block (pt : GCproto) : list Z := uleb (zlen (proto_bytes pt)) ++ proto_bytes pt.

(** The children, from the last to the first, then the prototype. *)
Fixpoint blocks (pt : GCproto) : list (list Z) :=
  (if hasflag (flags pt) PROTO_CHILD then
     concat (reverse (map (fun o => match o with KChild c => blocks c | _ => [] end) (kgcs pt)))
   else []) ++ [block pt].

Definition dump (pt : GCproto) : list (list Z) := header_bytes strip pt :: blocks pt ++ [[0]].
End format.

(** ** Numbers *)

Lemma uleb_ok v : in_u32 v -> Strfmt.lj_strfmt_wuleb128 v = Some (uleb v) /\ 1 <= zlen (uleb v) <= 5.
Proof.
  intros Hv. unfold uleb. rewrite u32_small by done.
  destruct (Strfmt.uleb128_roundtrip v [] [] Hv) as (bs & E & H & _). by rewrite E.
Qed.

Lemma uleb_u32 v : uleb (u32 v) = uleb v.
Proof. unfold uleb. by rewrite (u32_small (u32 v)) by apply u32_range. Qed.

Lemma uleb_len v : 1 <= zlen (uleb v) <= 5.
Proof. rewrite <- uleb_u32. apply uleb_ok, u32_range. Qed.

Lemma wuleb_len f : forall v (n : nat), 0 <= v -> (1 <= n <= f)%nat -> v < 2 ^ (7 * Z.of_nat n) ->
  exists bs, Strfmt.wuleb_loop f v = Some bs /\ zlen bs <= Z.of_nat n.
Proof.
  induction f as [|f IH]; intros v n H0 Hn Hv; [lia|]. rewrite Strfmt.wuleb_S.
  destruct (Z.leb_spec 0x80 v) as [H|H].
  - destruct n as [|[|n]]; [lia|change (2 ^ (7 * Z.of_nat 1)) with 128 in Hv; lia|].
    assert (E : 2 ^ (7 * Z.of_nat (S (S n))) = 2 ^ 7 * 2 ^ (7 * Z.of_nat (S n))).
    { rewrite <- Z.pow_add_r by lia. f_equal. lia. }
    destruct (IH (Z.shiftr v 7) (S n)) as (bs & -> & L).
    + apply Z.shiftr_nonneg. lia.
    + lia.
    + rewrite Z.shiftr_div_pow2 by lia. apply Z.div_lt_upper_bound; lia.
    + cbn [mbind option_bind]. eexists. split; [done|]. rewrite zlen_cons. lia.
  - eexists. split; [done|]. change (1 <= Z.of_nat n). lia.
Qed.

Lemma uleb_short v (n : nat) : in_u32 v -> (1 <= n <= 5)%nat -> v < 2 ^ (7 * Z.of_nat n) -> zlen (uleb v) <= Z.of_nat n.
Proof.
  intros Hv Hn Hl. destruct (wuleb_len 5 v n) as (bs & E & L); [unfold in_u32 in Hv; lia|done|done|].
  destruct (uleb_ok v Hv) as [E' _]. unfold Strfmt.lj_strfmt_wuleb128 in E'. congruence.
Qed.

Lemma wuleb_min f : forall v (n : nat) bs, Strfmt.wuleb_loop f v = Some bs -> 2 ^ (7 * Z.of_nat n) <= v -> Z.of_nat n < zlen bs.
Proof.
  induction f as [|f IH]; intros v n bs; [done|]. rewrite Strfmt.wuleb_S. destruct (Z.leb_spec 0x80 v) as [H|H].
  - destruct (Strfmt.wuleb_loop f (Z.shiftr v 7)) as [rest|] eqn:E; [|done]. intros [= <-] Hv. rewrite zlen_cons.
    pose proof (zlen_nonneg rest). destruct n as [|n]; [lia|].
    specialize (IH _ n _ E). rewrite Z.shiftr_div_pow2 in IH by lia.
    assert (E2 : 2 ^ (7 * Z.of_nat (S n)) = 2 ^ (7 * Z.of_nat n) * 2 ^ 7).
    { rewrite <- Z.pow_add_r by lia. f_equal. lia. }
    assert (2 ^ (7 * Z.of_nat n) <= v / 2 ^ 7) by (apply Z.div_le_lower_bound; lia). lia.
  - intros [= <-] Hv. destruct n as [|n]; [done|].
    assert (2 ^ 7 <= 2 ^ (7 * Z.of_nat (S n))) by (apply Z.pow_le_mono_r; lia). lia.
Qed.

(** The number of bytes the writer computes for a size is right. *)
Lemma size_len n : 0 < n < 4294967296 -> Z.shiftr ((Tab.lj_fls n + 8) * 9) 6 = zlen (uleb n).
Proof.
  intros Hn. assert (Hu : in_u32 n) by (unfold in_u32; lia). unfold Tab.lj_fls.
  destruct (uleb_ok n Hu) as [E L]. unfold Strfmt.lj_strfmt_wuleb128 in E.
  destruct (Z.log2_spec n ltac:(lia)) as [Hl Hh]. set (e := Z.log2 n) in *.
  assert (He : 0 <= e <= 31).
  { split; [apply Z.log2_nonneg|]. apply Z.lt_succ_r, (Z.pow_lt_mono_r_iff 2); [lia|unfold e; pose proof (Z.log2_nonneg n); lia|].
    change (2 ^ Z.succ 31) with 4294967296. lia. }
  set (k := Z.to_nat (e / 7)). assert (Hk : Z.of_nat k = e / 7) by (unfold k; rewrite Z2Nat.id; [done|zlia]).
  assert (H1 : zlen (uleb n) <= Z.of_nat (S k)).
  { apply uleb_short; [done|zlia|]. eapply Z.lt_le_trans; [exact Hh|]. apply Z.pow_le_mono_r; [lia|]. zlia. }
  assert (H2 : Z.of_nat k < zlen (uleb n)).
  { eapply wuleb_min; [exact E|]. etransitivity; [|exact Hl]. apply Z.pow_le_mono_r; zlia. }
  replace (zlen (uleb n)) with (e / 7 + 1) by lia.
  rewrite Z.shiftr_div_pow2 by lia. change (2 ^ 6) with 64. zlia.
Qed.

(** ** Plain buffers *)

(** The buffer of the writer: its first cells are [c]; the first five of them
    may be unwritten, which is why [holds] does not do. *)
Definition plain (sb : SBuf) (c : list (option Z)) : Prop :=
  exists post, mem sb = c ++ post /\ w sb = zlen c /\ r sb = 0 /\ ext sb = false /\ cow sb = false /\
    zlen (mem sb) < 4294967296.

Lemma plain_bounds sb c : plain sb c -> 0 <= w sb <= sbufsz sb /\ sbufsz sb < 4294967296.
Proof.
  intros (post & Hm & Hw & _ & _ & _ & Hz). unfold sbufsz in *. rewrite Hm, zlen_app in *.
  pose proof (zlen_nonneg c). pose proof (zlen_nonneg post). lia.
Qed.

Lemma grow_plain sb c sz : plain sb c -> sz <= 2147483648 ->
  exists sb', buf_grow sb sz = Ok sb' /\ plain sb' c /\ sz <= sbufsz sb'.
Proof.
  intros (post & Hm & Hw & Hr & He & Hc & Hz) Hsz. unfold buf_grow, sbufsz, sbuflen in *.
  pose proof (zlen_nonneg (mem sb)) as H0.
  set (n0 := if zlen (mem sb) <? LJ_MIN_SBUF then LJ_MIN_SBUF else zlen (mem sb)).
  assert (Hn0 : 32 <= n0 /\ zlen (mem sb) <= n0 < 4294967296).
  { unfold n0, LJ_MIN_SBUF. destruct (Z.ltb_spec (zlen (mem sb)) 32); lia. }
  destruct (grow_size_ok 31 n0 sz) as (n & -> & Hn & Hns); [lia|done| |].
  { change (2 ^ Z.of_nat 31) with 2147483648. lia. }
  cbn [mbind res_bind]. eexists. split; [done|].
  assert (Hlen : zlen (mem sb ++ replicate (Z.to_nat (n - zlen (mem sb))) None) = n).
  { rewrite zlen_app, zlen_replicate. lia. }
  split; [|cbn [mem]; by rewrite Hlen].
  exists (post ++ replicate (Z.to_nat (n - zlen (mem sb))) None). cbn [mem w r ext cow].
  rewrite Hlen. split_and!; try done; [by rewrite Hm at 1; rewrite <- app_assoc|lia].
Qed.

Lemma more_plain sb c sz : plain sb c -> 0 <= sz -> w sb + sz <= LJ_MAX_BUF ->
  exists sb', lj_buf_more sb sz = Ok sb' /\ plain sb' c /\ sz <= sbufleft sb'.
Proof.
  intros H Hs Hl. destruct (plain_bounds sb c H) as [Hb _]. pose proof H as (post & Hm & Hw & Hr & He & Hc & Hz).
  unfold lj_buf_more. destruct (Z.ltb_spec (sbufleft sb) sz) as [E|E]; [|by exists sb].
  unfold lj_buf_more2. rewrite He. unfold LJ_MAX_BUF, sbuflen in *. rewrite u32_small by (unfold in_u32; lia).
  replace (0x7fffff00 <? sz) with false by lia. replace (0x7fffff00 <? w sb + sz) with false by lia. cbn [orb].
  destruct (grow_plain sb c (w sb + sz) H ltac:(lia)) as (sb' & -> & H' & Hs'). exists sb'. split_and!; try done.
  destruct H' as (post' & _ & Hw' & _). unfold sbufleft. lia.
Qed.

Lemma need_plain sb c sz : plain sb c -> sz <= LJ_MAX_BUF ->
  exists sb', lj_buf_need sb sz = Ok sb' /\ plain sb' c /\ sz <= sbufsz sb'.
Proof.
  intros H Hl. unfold lj_buf_need. destruct (Z.ltb_spec (sbufsz sb) sz) as [E|E]; [|by exists sb].
  unfold lj_buf_need2. destruct (Z.ltb_spec LJ_MAX_BUF sz); [lia|]. unfold LJ_MAX_BUF in *.
  apply grow_plain; [done|lia].
Qed.

Lemma put_plain bs : forall sb c, plain sb c -> zlen bs <= sbufleft sb ->
  exists sb', put_bytes sb bs = Ok sb' /\ plain sb' (c ++ (Some <$> bs)) /\ sbufsz sb' = sbufsz sb.
Proof.
  induction bs as [|x bs IH]; intros sb c H Hl; cbn [put_bytes]; [by exists sb; rewrite app_nil_r|].
  destruct H as (post & Hm & Hw & Hr & He & Hc & Hz). rewrite Hc. unfold sbufleft, sbufsz in *.
  rewrite zlen_cons in Hl. pose proof (zlen_nonneg bs). rewrite Hm, zlen_app in Hl.
  destruct post as [|y post]; [change (zlen []) with 0 in Hl; lia|].
  rewrite Hm, Hw, zset_middle. cbn [chk mbind res_bind].
  destruct (IH (Sbuf (c ++ Some x :: post) (zlen c + 1) (r sb) (ext sb) false (borrow sb) (bsb sb)) (c ++ [Some x]))
    as (sb' & E & H' & S').
  - exists post. cbn [mem w r ext cow]. rewrite <- app_assoc, !zlen_app. split_and!; try done.
    rewrite Hm, zlen_app in Hz. rewrite zlen_cons in *. lia.
  - cbn [mem w]. rewrite zlen_app. rewrite zlen_cons in *. lia.
  - exists sb'. split_and!; [done|by rewrite <- app_assoc in H'|]. rewrite S'. cbn [mem]. by rewrite !zlen_app, !zlen_cons.
Qed.

Lemma put_bytes_app a : forall sb b, put_bytes sb (a ++ b) = (sb ← put_bytes sb a; put_bytes sb b).
Proof.
  induction a as [|x a IH]; intros sb b; cbn [put_bytes app]; [done|]. destruct (cow sb); [done|].
  destruct (zset _ _ _); cbn [chk mbind res_bind]; [apply IH|done].
Qed.

Lemma put_more_app sb n a b : (sb ← put_more sb n a; lift (put_bytes sb b)) = put_more sb n (a ++ b).
Proof.
  unfold put_more. destruct (lj_buf_more sb (u32 n)) as [sb1| | |]; cbn [mbind res_bind lift sres_bind]; try done.
  rewrite put_bytes_app. by destruct (put_bytes sb1 a).
Qed.

(** [f] appends [bs] to a plain buffer with [n] bytes left below the limit. *)
Definition emits (f : SBuf -> sres SBuf) (n : Z) (bs : list Z) : Prop :=
  zlen bs <= n /\ forall sb c, plain sb c -> w sb + n <= LJ_MAX_BUF ->
    exists sb', f sb = SOk sb' /\ plain sb' (c ++ (Some <$> bs)).

Lemma emits_nonneg f n bs : emits f n bs -> 0 <= n.
Proof. intros [H _]. pose proof (zlen_nonneg bs). lia. Qed.

Lemma emits_id : emits SOk 0 [].
Proof. split; [done|]. intros sb c H _. exists sb. by rewrite app_nil_r. Qed.

Lemma emits_more n bs : zlen bs <= n -> emits (fun sb => put_more sb n bs) n bs.
Proof.
  intros Hb. pose proof (zlen_nonneg bs) as H0. split; [lia|]. intros sb c H Hw. unfold put_more.
  destruct (plain_bounds sb c H) as [B _]. rewrite u32_small by (unfold in_u32, LJ_MAX_BUF in *; lia).
  destruct (more_plain sb c n H ltac:(lia) Hw) as (sb1 & -> & H1 & L1). cbn [mbind res_bind].
  destruct (put_plain bs sb1 c H1 ltac:(lia)) as (sb2 & -> & H2 & _). by exists sb2.
Qed.

Lemma emits_bind f g n m bs bs' :
  emits f n bs -> emits g m bs' -> emits (fun sb => sb ← f sb; g sb) (n + m) (bs ++ bs').
Proof.
  intros Ef Eg. pose proof (emits_nonneg _ _ _ Eg). destruct Ef as [Hn Hf], Eg as [Hm Hg].
  unfold emits. rewrite zlen_app. split; [lia|]. intros sb c H1 Hw.
  destruct (Hf sb c H1) as (sb1 & -> & H2); [lia|]. cbn [mbind sres_bind].
  assert (W : w sb1 = w sb + zlen bs).
  { destruct H1 as (? & _ & -> & _), H2 as (? & _ & -> & _). rewrite zlen_app. unfold zlen. rewrite length_fmap. lia. }
  destruct (Hg sb1 _ H2) as (sb2 & -> & H3); [lia|]. exists sb2. by rewrite <- app_assoc, <- fmap_app in H3.
Qed.

Lemma emits_weaken f n m bs : emits f n bs -> n <= m -> emits f m bs.
Proof. intros [Hn Hf] Hm. split; [lia|]. intros sb c H Hw. apply Hf; [done|lia]. Qed.

Lemma emits_ext f g n bs : (forall sb, f sb = g sb) -> emits f n bs -> emits g n bs.
Proof. intros E [Hn Hf]. split; [done|]. intros sb c H Hw. rewrite <- E. by apply Hf. Qed.

(** ** Constants *)

Definition zsum (l : list Z) : Z := foldr Z.add 0 l.

(** What can be in a template table. *)
Definition ktabk_ok (o : obj) : Prop :=
  match o with ONil | OFalse | OTrue | ONum _ | OStr _ => True | _ => False end.

(** The room the writer asks for. *)
Definition ktabk_room (o : obj) : Z := match o with OStr s => 11 + (5 + zlen s) | _ => 11 end.
Definition pair_room (p : obj * obj) : Z := ktabk_room p.1 + ktabk_room p.2.
Definition kgc_room {P} (o : kgc P) : Z :=
  match o with
  | KTab array node =>
      11 + (zsum (ktabk_room <$> array_slots array) + zsum (pair_room <$> hash_pairs node))
  | _ => (kgc_tp o).2
  end.

Lemma ktabk_emits narrow o : ktabk_ok o ->
  emits (fun sb => bcwrite_ktabk sb o narrow) (ktabk_room o) (ktabk_bytes narrow o).
Proof.
  assert (Hm : forall bs, zlen bs <= 11 -> emits (fun sb => sb ← lift (lj_buf_more sb (1 + 10)); lift (put_bytes sb bs)) 11 bs).
  { intros bs Hb. eapply emits_ext; [|apply (emits_more 11 bs Hb)]. intros sb. unfold put_more. cbn beta.
    change (u32 11) with 11. change (1 + 10) with 11. by destruct (lj_buf_more sb 11). }
  unfold bcwrite_ktabk. destruct o as [| | |u|s| | | | | |]; try done; intros _; cbn [ktabk_bytes ktabk_room]; try (by apply Hm).
  - destruct (if narrow then Tab.num_int u else None) as [k|]; apply Hm; rewrite zlen_cons, ?zlen_app.
    + pose proof (uleb_len k). lia.
    + pose proof (uleb_len (lo u)). pose proof (uleb_len (hi u)). lia.
  - rewrite <- (app_nil_l (uleb _ ++ s)).
    apply (emits_bind (fun sb => lift (lj_buf_more sb (1 + 10))) (fun sb => put_more sb (5 + zlen s) _)).
    + split; [done|]. intros sb c H Hw. destruct (more_plain sb c 11 H ltac:(lia) Hw) as (sb' & E & H' & _).
      change (1 + 10) with 11. rewrite E. exists sb'. by rewrite app_nil_r.
    + apply emits_more. rewrite zlen_app. pose proof (uleb_len (BCDUMP_KTAB_STR + zlen s)). lia.
Qed.

Lemma put_list_emits l : Forall ktabk_ok l ->
  emits (fun sb => put_list (fun sb o => bcwrite_ktabk sb o true) sb l) (zsum (ktabk_room <$> l))
    (concat (ktabk_bytes true <$> l)).
Proof.
  induction 1 as [|o l Ho _ IH]; cbn [put_list fmap list_fmap zsum foldr concat]; [apply emits_id|].
  by apply (emits_bind _ _ _ _ _ _ (ktabk_emits true o Ho)).
Qed.

Definition pair_ok (p : obj * obj) : Prop := ktabk_ok p.1 /\ ktabk_ok p.2.

Lemma used_cons k v (l : list (obj * obj)) : used ((k, v) :: l) = if isnil v then used l else (k, v) :: used l.
Proof. unfold used. rewrite filter_cons. cbn [snd]. by destruct (isnil v). Qed.

Lemma khash_emits l : Forall pair_ok (used l) -> used l <> [] ->
  emits (fun sb => bcwrite_khash sb l (zlen (used l))) (zsum (pair_room <$> used l)) (concat (pair_bytes <$> used l)).
Proof.
  induction l as [|[k v] l IH]; [done|]. rewrite used_cons. cbn [bcwrite_khash].
  destruct (isnil v) eqn:Ev; cbn [negb]; [done|]. intros [[Hk Hv] Hl]%Forall_cons _.
  cbn [fmap list_fmap zsum foldr concat]. fold (zsum (pair_room <$> used l)).
  pose proof (emits_bind _ _ _ _ _ _ (ktabk_emits false k Hk) (ktabk_emits true v Hv)) as Hp.
  rewrite zlen_cons. replace (1 + zlen (used l) - 1) with (zlen (used l)) by lia.
  destruct (used l) as [|p u] eqn:Eu.
  - cbn [zlen length Z.of_nat zsum fmap list_fmap foldr concat]. rewrite app_nil_r, Z.add_0_r.
    eapply emits_ext; [|exact Hp]. intros sb. cbn beta. change (0 =? 0) with true. cbn iota.
    destruct (bcwrite_ktabk sb k false) as [sb1| | |]; cbn; [|done..]. by destruct (bcwrite_ktabk sb1 v true).
  - rewrite <- Eu in *. eapply emits_ext; [|apply (emits_bind _ _ _ _ _ _ Hp (IH Hl ltac:(by rewrite Eu)))].
    intros sb. cbn beta. destruct (Z.eqb_spec (zlen (used l)) 0) as [E|_].
    { rewrite Eu, zlen_cons in E. pose proof (zlen_nonneg u). lia. }
    by destruct (bcwrite_ktabk sb k false).
Qed.

Lemma used_reverse (l : list (obj * obj)) : zlen (used (reverse l)) = used_nodes l.
Proof.
  unfold used, used_nodes, zlen. f_equal. apply Permutation_length. by rewrite reverse_Permutation.
Qed.

Lemma hash_pairs_len node : zlen (hash_pairs node) = if 0 <? zlen node - 1 then used_nodes node else 0.
Proof. unfold hash_pairs. destruct (0 <? zlen node - 1); [apply used_reverse|done]. Qed.

Lemma slots_range l : 0 <= used_slots l <= zlen l.
Proof.
  induction l as [|o l IH]; cbn [used_slots]; [done|]. rewrite zlen_cons.
  destruct (Z.ltb_spec 0 (used_slots l)); [lia|]. destruct (isnil o); lia.
Qed.

Lemma zlen_array_slots l : zlen (array_slots l) = used_slots l.
Proof.
  pose proof (slots_range l). unfold array_slots, zlen in *. rewrite length_take. lia.
Qed.

Definition ktab_ok (array : list obj) (node : list (obj * obj)) : Prop :=
  Forall ktabk_ok (array_slots array) /\ Forall pair_ok (hash_pairs node).

(** A template table behind its type code. *)
Lemma ktab_emits array node : ktab_ok array node ->
  emits (fun sb => sb ← put_more sb 11 (uleb BCDUMP_KGC_TAB); bcwrite_ktab sb array node)
    (11 + (zsum (ktabk_room <$> array_slots array) + zsum (pair_room <$> hash_pairs node)))
    (uleb BCDUMP_KGC_TAB ++ ktab_bytes array node).
Proof.
  intros [Ha Hn]. unfold ktab_bytes. rewrite (hash_pairs_len node).
  set (nh := if 0 <? zlen node - 1 then used_nodes node else 0).
  set (na := used_slots array).
  assert (E1 : emits (fun sb => put_more sb 11 (uleb BCDUMP_KGC_TAB ++ uleb na ++ uleb nh)) 11
    (uleb BCDUMP_KGC_TAB ++ uleb na ++ uleb nh)).
  { apply emits_more. rewrite !zlen_app. pose proof (uleb_len na). pose proof (uleb_len nh).
    change (zlen (uleb BCDUMP_KGC_TAB)) with 1. lia. }
  assert (E2 : emits (fun sb => if negb (na =? 0) then
      put_list (fun sb o => bcwrite_ktabk sb o true) sb (take (Z.to_nat na) array) else SOk sb)
    (zsum (ktabk_room <$> array_slots array)) (concat (ktabk_bytes true <$> array_slots array))).
  { destruct (Z.eqb_spec na 0) as [E|E]; cbn [negb]; [|by apply put_list_emits].
    unfold array_slots. fold na. rewrite E. apply emits_id. }
  assert (E3 : emits (fun sb => if negb (nh =? 0) then bcwrite_khash sb (reverse node) nh else SOk sb)
    (zsum (pair_room <$> hash_pairs node)) (concat (pair_bytes <$> hash_pairs node))).
  { pose proof (hash_pairs_len node) as Hl. fold nh in Hl. unfold hash_pairs in *.
    destruct (0 <? zlen node - 1); [|apply emits_id].
    destruct (Z.eqb_spec nh 0) as [E|E]; cbn [negb].
    - destruct (used (reverse node)) as [|p u]; [apply emits_id|]. rewrite zlen_cons in Hl. pose proof (zlen_nonneg u). lia.
    - rewrite <- Hl. apply khash_emits; [done|]. intros E'. by rewrite E' in Hl. }
  replace (uleb BCDUMP_KGC_TAB ++ uleb na ++ uleb nh ++ concat (ktabk_bytes true <$> array_slots array) ++
    concat (pair_bytes <$> hash_pairs node))
    with ((uleb BCDUMP_KGC_TAB ++ uleb na ++ uleb nh) ++ concat (ktabk_bytes true <$> array_slots array) ++
    concat (pair_bytes <$> hash_pairs node)) by (by rewrite <- !app_assoc).
  eapply emits_ext; [|apply (emits_bind _ _ _ _ _ _ E1 (emits_bind _ _ _ _ _ _ E2 E3))]. intros sb. cbn beta.
  rewrite <- put_more_app. unfold bcwrite_ktab. fold na nh. by destruct (put_more sb 11 (uleb BCDUMP_KGC_TAB)).
Qed.

Definition kgc_wok {P} (o : kgc P) : Prop :=
  match o with KStr s => zlen s < LJ_MAX_STR | KTab array node => ktab_ok array node | _ => True end.

Lemma kgc1_emits {P} (o : kgc P) : kgc_wok o -> emits (fun sb => bcwrite_kgc1 sb o) (kgc_room o) (kgc_bytes o).
Proof.
  intros Ho. unfold bcwrite_kgc1, kgc_bytes, kgc_room.
  assert (Hm : forall bs n tp, zlen (uleb tp ++ bs) <= n ->
    emits (fun sb => sb ← put_more sb n (uleb tp); lift (put_bytes sb bs)) n (uleb tp ++ bs)).
  { intros bs n tp H. eapply emits_ext; [|apply (emits_more n _ H)]. intros sb. by rewrite put_more_app. }
  destruct o as [s|pt|array node|x|x|re im]; cbn [kgc_tp fst snd].
  - apply Hm. rewrite zlen_app. pose proof (uleb_len (BCDUMP_KGC_STR + zlen s)). lia.
  - rewrite app_nil_r. eapply emits_ext; [|apply (emits_more 1 (uleb BCDUMP_KGC_CHILD)); done].
    intros sb. cbn beta. by destruct (put_more sb 1 (uleb BCDUMP_KGC_CHILD)).
  - by apply ktab_emits.
  - apply Hm. rewrite !zlen_app. pose proof (uleb_len (lo x)). pose proof (uleb_len (hi x)).
    change (zlen (uleb BCDUMP_KGC_I64)) with 1. lia.
  - apply Hm. rewrite !zlen_app. pose proof (uleb_len (lo x)). pose proof (uleb_len (hi x)).
    change (zlen (uleb BCDUMP_KGC_U64)) with 1. lia.
  - apply Hm. rewrite !zlen_app. pose proof (uleb_len (lo re)). pose proof (uleb_len (hi re)).
    pose proof (uleb_len (lo im)). pose proof (uleb_len (hi im)). change (zlen (uleb BCDUMP_KGC_COMPLEX)) with 1. lia.
Qed.

Lemma kgc_emits {P} (l : list (kgc P)) : Forall kgc_wok l ->
  emits (fun sb => bcwrite_kgc sb l) (zsum (kgc_room <$> l)) (concat (kgc_bytes <$> l)).
Proof.
  induction 1 as [|o l Ho _ IH]; cbn [bcwrite_kgc fmap list_fmap zsum foldr concat]; [apply emits_id|].
  by apply (emits_bind _ _ _ _ _ _ (kgc1_emits o Ho)).
Qed.

Lemma patch_last_len p x : zlen (patch_last p x) = zlen p.
Proof.
  unfold patch_last. destruct (last p) as [c|] eqn:E; [|done]. apply last_Some in E as [l ->].
  rewrite removelast_last. by rewrite !zlen_app.
Qed.

Lemma knum_len u : 1 <= zlen (knum_bytes u) <= 10.
Proof.
  unfold knum_bytes. destruct (if hi u =? TabNext.LJ_KEYINDEX then None else Tab.num_int u) as [k|].
  - pose proof (uleb_len (Z.lor (u32 (2 * u32 k)) (Z.land (u32 k) 2147483648))).
    destruct (k <? 0); rewrite ?patch_last_len; lia.
  - rewrite zlen_app. pose proof (uleb_len (1 + Z.lor (u32 (2 * lo u)) (Z.land (lo u) 2147483648))).
    pose proof (uleb_len (hi u)). destruct (2147483648 <=? lo u); rewrite ?patch_last_len; lia.
Qed.

Lemma knum_emits l : emits (fun sb => bcwrite_knum sb l) (10 * zlen l) (concat (knum_bytes <$> l)).
Proof.
  apply emits_more. induction l as [|u l IH]; cbn [fmap list_fmap concat]; [done|].
  rewrite zlen_app, zlen_cons. pose proof (knum_len u). lia.
Qed.

(** ** Instructions *)

Lemma bytes_le4 x : bytes_le 4 x = [u8 x; u8 (x / 256); u8 (x / 256 / 256); u8 (x / 256 / 256 / 256)].
Proof. done. Qed.

Lemma ins_cons i l : ins_bytes (i :: l) = bytes_le 4 i ++ ins_bytes l.
Proof. done. Qed.

Lemma zlen_ins l : zlen (ins_bytes l) = 4 * zlen l.
Proof. induction l as [|i l IH]; [done|]. rewrite ins_cons, zlen_app, IH, zlen_cons. change (zlen (bytes_le 4 i)) with 4. lia. Qed.

Lemma zlen_uv l : zlen (uv_bytes l) = 2 * zlen l.
Proof.
  induction l as [|i l IH]; [done|]. change (uv_bytes (i :: l)) with (bytes_le 2 i ++ uv_bytes l).
  rewrite zlen_app, IH, zlen_cons. change (zlen (bytes_le 2 i)) with 2. lia.
Qed.

Lemma is_iloop_pos op : is_iloop op = true -> 77 < op < 87.
Proof. unfold is_iloop, BC_IFORL, BC_IITERL, BC_ILOOP, BC_JFORI. lia. Qed.

(** Switching a loop on again decrements the opcode. *)
Lemma unpatch1_bytes i : is_iloop (opcode i) = true ->
  bytes_le 4 (unpatch1 i) = u8 (opcode i - BC_IFORL + BC_FORL) :: drop 1 (bytes_le 4 i).
Proof.
  intros H. unfold unpatch1. rewrite H. apply is_iloop_pos in H. unfold opcode in *.
  rewrite !bytes_le4. cbn [drop].
  assert (E : (i - 1) / 256 = i / 256) by (unfold u8 in H; zlia). rewrite E. f_equal.
  unfold u8, BC_IFORL, BC_FORL in *. zlia.
Qed.

Lemma unpatch_spec startins p l : forall pre post,
  Forall (fun i => is_jloop (opcode i) = false) l ->
  unpatch startins (length l) (pre ++ (Some <$> ins_bytes l) ++ post) (zlen pre) p =
  Some (pre ++ (Some <$> ins_bytes (unpatch1 <$> l)) ++ post).
Proof.
  induction l as [|i l IH]; intros pre post; [done|]. intros [Hi Hl]%Forall_cons.
  change (unpatch1 <$> i :: l) with (unpatch1 i :: (unpatch1 <$> l)). cbn [length unpatch].
  rewrite !ins_cons, !fmap_app, <- !app_assoc.
  assert (E : Some <$> bytes_le 4 i = Some (opcode i) :: (Some <$> drop 1 (bytes_le 4 i))) by done.
  unfold peek. rewrite E at 1. cbn [app]. rewrite zget_middle. cbn [mjoin option_join mbind option_bind].
  assert (Hstep : forall bs, zlen bs = 4 ->
    unpatch startins (length l) (pre ++ (Some <$> bs) ++ (Some <$> ins_bytes l) ++ post) (zlen pre + 4) p =
    Some (pre ++ (Some <$> bs) ++ (Some <$> ins_bytes (unpatch1 <$> l)) ++ post)).
  { intros bs Hb. specialize (IH (pre ++ (Some <$> bs)) post Hl). rewrite zlen_app, <- !app_assoc in IH.
    replace (zlen (Some <$> bs)) with 4 in IH by (unfold zlen in *; by rewrite length_fmap). exact IH. }
  fold (is_iloop (opcode i)). fold (is_jloop (opcode i)). destruct (is_iloop (opcode i)) eqn:Hop.
  - rewrite E. cbn [app]. rewrite zset_middle. cbn [mbind option_bind]. rewrite (unpatch1_bytes i Hop).
    apply (Hstep (u8 (opcode i - BC_IFORL + BC_FORL) :: drop 1 (bytes_le 4 i))). done.
  - rewrite Hi. cbn [mbind option_bind]. unfold unpatch1. rewrite Hop. by apply (Hstep (bytes_le 4 i)).
Qed.

(** What the code does to compiled loops: nothing.  Outside the first bytes
    of instructions with one of the four opcodes, and below the end of the
    instructions, no cell changes. *)
Lemma unpatch_frame startins p n : forall m q m', unpatch startins n m q p = Some m' ->
  q + 4 * Z.of_nat n <= p -> forall j, j < p ->
  (forall op, peek m j = Some op -> is_iloop op = false) -> zget m' j = zget m j.
Proof.
  induction n as [|n IH]; intros m q m'; cbn [unpatch]; [by intros [= <-]|]. intros H Hq j Hj Hop.
  destruct (peek m q) as [op|] eqn:Ep; cbn [mbind option_bind] in H; [|done].
  match type of H with mbind _ ?x = _ => destruct x as [m1|] eqn:E1; [|done] end. cbn [mbind option_bind] in H.
  assert (Hm1 : zget m1 j = zget m j).
  { fold (is_iloop op) in E1. destruct (is_iloop op) eqn:Eo.
    - destruct (Z.eq_dec q j) as [->|Hne]; [by rewrite (Hop op Ep) in Eo|]. by apply (zget_zset_ne _ _ _ _ _ E1).
    - match type of E1 with context [if ?b then _ else _] => destruct b end; [|congruence].
      destruct (peek m (p + 2)), (peek m (p + 3)); cbn [mbind option_bind] in E1; try done.
      destruct (startins _) as [ins|]; cbn [mbind option_bind] in E1; [|done].
      assert (Hpk : forall bs m i m', poke m i bs = Some m' -> j < i -> zget m' j = zget m j).
      { clear. induction bs as [|c bs IH]; intros m i m'; cbn [poke]; [by intros [= <-]|].
        destruct (zset m i (Some c)) as [m1|] eqn:E; cbn [mbind option_bind]; [|done]. intros H Hi.
        rewrite (IH _ _ _ H) by lia. apply (zget_zset_ne _ _ _ _ _ E). lia. }
      by apply (Hpk _ _ _ _ E1). }
  rewrite (IH _ _ _ H ltac:(lia) j Hj); [done|]. intros op' Hp'. apply Hop. unfold peek in *. by rewrite Hm1 in Hp'.
Qed.

(** ** Prototypes *)

Section writer.
Context (startins : Z -> option Z) {W : Type} (wfunc : W -> list Z -> W * Z) (strip : bool).

(** The room for one prototype. *)
Definition info_room (pt : GCproto) : Z :=
  5 + 4 + 6 * 5 + (zlen (bc pt) - 1) * 4 + zlen (uv pt) * 2 +
  zsum (kgc_room <$> kgcs pt) + 10 * zlen (kn pt) + zlen (dbg_bytes strip pt).

(** A prototype within the limits of the bytecode format and of buffers.  If
    it was patched, none of its loops is compiled. *)
Definition writable (pt : GCproto) : Prop :=
  1 <= zlen (bc pt) <= 67108864 /\ zlen (kgcs pt) <= 65536 /\ zlen (kn pt) <= 65536 /\ zlen (uv pt) < 256 /\
  Forall kgc_wok (kgcs pt) /\
  (patched pt = true -> Forall (fun i => is_jloop (opcode i) = false) (drop 1 (bc pt))) /\
  info_room pt <= LJ_MAX_BUF /\
  zlen (chunkname pt) < LJ_MAX_STR - 16.

Lemma dbg_sizes_len pt : (dbg_sizes strip pt).1 = zlen (dbg_bytes strip pt).
Proof. unfold dbg_sizes, dbg_bytes. destruct (dbg pt); [|done]. by destruct strip. Qed.

Lemma head_len pt : writable pt -> 7 <= zlen (proto_head strip pt) <= 34.
Proof.
  intros (Hb & Hk & Hn & Hu & _). unfold proto_head. destruct (dbg_sizes strip pt) as [sizedbg ofs].
  rewrite !zlen_app. pose proof (zlen_nonneg (kgcs pt)). pose proof (zlen_nonneg (kn pt)).
  assert (zlen (uleb (zlen (kgcs pt))) <= Z.of_nat 3) by (apply uleb_short; [unfold in_u32; lia|lia|change (2 ^ (7 * Z.of_nat 3)) with 2097152; lia]).
  assert (zlen (uleb (zlen (kn pt))) <= Z.of_nat 3) by (apply uleb_short; [unfold in_u32; lia|lia|change (2 ^ (7 * Z.of_nat 3)) with 2097152; lia]).
  assert (zlen (uleb (zlen (bc pt) - 1)) <= Z.of_nat 4) by (apply uleb_short; [unfold in_u32; lia|lia|change (2 ^ (7 * Z.of_nat 4)) with 268435456; lia]).
  pose proof (uleb_len (zlen (kgcs pt))). pose proof (uleb_len (zlen (kn pt))). pose proof (uleb_len (zlen (bc pt) - 1)).
  change (zlen [_; _; _; _]) with 4.
  set (tl := if strip then [] else _). assert (0 <= zlen tl <= 20); [|lia].
  unfold tl. destruct strip; [done|]. rewrite zlen_app. pose proof (uleb_len sizedbg).
  destruct (sizedbg =? 0); [change (zlen []) with 0; lia|]. rewrite !zlen_app.
  pose proof (uleb_len (firstline pt)). pose proof (uleb_len (numline pt)). pose proof (uleb_len ofs). lia.
Qed.

Lemma set_w_plain sb c g : plain sb c -> 0 <= g <= sbufsz sb -> plain (set_w sb g) (take (Z.to_nat g) (mem sb)).
Proof.
  intros (post & Hm & Hw & Hr & He & Hc & Hz) Hg. unfold sbufsz, zlen in *.
  exists (drop (Z.to_nat g) (mem sb)). cbn [mem w r ext cow set_w]. rewrite take_drop. split_and!; try done.
  unfold zlen. rewrite length_take. lia.
Qed.

Lemma bytecode_plain sb c pt : writable pt -> plain sb c -> 4 * (zlen (bc pt) - 1) <= sbufleft sb ->
  exists sb', bcwrite_bytecode startins sb pt = SOk sb' /\ plain sb' (c ++ (Some <$> ins_bytes (code pt))) /\
    sbufsz sb' = sbufsz sb.
Proof.
  intros Hw H Hl. assert (Hlen : zlen (drop 1 (bc pt)) = zlen (bc pt) - 1).
  { destruct Hw as (Hb & _). unfold zlen in *. rewrite length_drop. lia. }
  destruct (put_plain (ins_bytes (drop 1 (bc pt))) sb c H) as (sb1 & E & H1 & S1); [rewrite zlen_ins; lia|].
  unfold bcwrite_bytecode. rewrite E. cbn [lift mbind sres_bind]. fold (patched pt). unfold code.
  destruct (patched pt) eqn:Ep; [|by exists sb1].
  destruct Hw as (_ & _ & _ & _ & _ & Hj & _). specialize (Hj Ep).
  destruct H1 as (post & Hm1 & Hw1 & Hr1 & He1 & Hc1 & Hz1).
  destruct H as (post0 & _ & Hw0 & _). rewrite Hm1, Hw0, <- app_assoc, (unpatch_spec startins _ _ c post Hj).
  assert (Hlu : zlen (ins_bytes (unpatch1 <$> drop 1 (bc pt))) = zlen (ins_bytes (drop 1 (bc pt)))).
  { rewrite !zlen_ins. unfold zlen. by rewrite length_fmap. }
  assert (Hlc : zlen (c ++ (Some <$> ins_bytes (unpatch1 <$> drop 1 (bc pt))) ++ post) = zlen (mem sb1)).
  { rewrite Hm1, !zlen_app, !Buf.zlen_fmap, Hlu. lia. }
  eexists. split; [done|]. unfold sbufsz in *. cbn [set_mem mem]. rewrite Hlc. split; [|done].
  exists post. cbn [mem w r ext cow set_mem]. rewrite Hlc, <- app_assoc. split_and!; try done.
  rewrite Hw1, !zlen_app, !Buf.zlen_fmap, Hlu. lia.
Qed.

(** The information on a prototype, behind a gap of five bytes. *)
Lemma info_plain sb c pt : writable pt -> plain sb c ->
  exists sb' g, bcwrite_info startins strip sb pt = SOk sb' /\ zlen g = 5 /\
    plain sb' (g ++ (Some <$> proto_bytes strip pt)) /\ zlen (proto_bytes strip pt) <= info_room pt - 5.
Proof.
  intros Hwr H. pose proof (head_len pt Hwr) as Hh. pose proof Hwr as (Hb & Hk & Hn & Hu & Hg & _ & Hroom & _).
  pose proof (kgc_emits (kgcs pt) Hg) as Ek. pose proof (knum_emits (kn pt)) as En.
  set (bs := concat (kgc_bytes <$> kgcs pt)) in *. set (ns := concat (knum_bytes <$> kn pt)) in *.
  set (d := dbg_bytes strip pt) in *.
  assert (Ed : emits (fun sb => if (dbg_sizes strip pt).1 =? 0 then SOk sb
    else put_more sb (dbg_sizes strip pt).1 (match dbg pt with Some d => dbg_mem d | None => [] end)) (zlen d) d).
  { rewrite dbg_sizes_len. unfold d. destruct (Z.eqb_spec (zlen (dbg_bytes strip pt)) 0) as [E|E].
    - rewrite E. destruct (dbg_bytes strip pt) as [|x l]; [apply emits_id|].
      rewrite zlen_cons in E. pose proof (zlen_nonneg l). lia.
    - eapply emits_ext; [|apply (emits_more _ (dbg_bytes strip pt)); done]. intros sb0. cbn beta. f_equal.
      unfold dbg_bytes in *. destruct (dbg pt); [|done]. by destruct strip. }
  pose proof (emits_bind _ _ _ _ _ _ Ek (emits_bind _ _ _ _ _ _ En Ed)) as [Ht Hf].
  pose proof (emits_nonneg _ _ _ Ek) as N1. pose proof (emits_nonneg _ _ _ En) as N2.
  pose proof (zlen_nonneg d) as N3. pose proof (zlen_nonneg (uv pt)) as N4.
  unfold info_room in *. fold d in Hroom. unfold bcwrite_info, LJ_MAX_BUF in *.
  rewrite u32_small by (unfold in_u32; lia).
  destruct (need_plain sb c (5 + 4 + 6 * 5 + (zlen (bc pt) - 1) * 4 + zlen (uv pt) * 2) H)
    as (sb1 & -> & H1 & S1); [unfold LJ_MAX_BUF; lia|]. cbn [lift mbind sres_bind].
  set (g := take (Z.to_nat 5) (mem sb1)).
  assert (Hg5 : zlen g = 5). { unfold g, sbufsz, zlen in *. rewrite length_take. lia. }
  destruct (put_plain (proto_head strip pt) (set_w sb1 5) g) as (sb2 & -> & H2 & S2).
  { apply (set_w_plain sb1 c 5 H1). lia. }
  { unfold sbufleft, sbufsz in *. cbn [mem w set_w]. lia. }
  cbn [lift mbind sres_bind].
  assert (W2 : w sb2 = 5 + zlen (proto_head strip pt)).
  { destruct H2 as (? & _ & -> & _). by rewrite zlen_app, Buf.zlen_fmap, Hg5. }
  destruct (bytecode_plain sb2 _ pt Hwr H2) as (sb3 & -> & H3 & S3).
  { unfold sbufleft, sbufsz in *. cbn [mem set_w] in S2. lia. }
  cbn [lift mbind sres_bind].
  assert (Hc : zlen (code pt) = zlen (bc pt) - 1).
  { unfold code, zlen in *. destruct (patched pt); rewrite ?length_fmap, length_drop; lia. }
  assert (W3 : w sb3 = w sb2 + 4 * (zlen (bc pt) - 1)).
  { destruct H2 as (? & _ & -> & _), H3 as (? & _ & -> & _). rewrite (zlen_app (g ++ _)), Buf.zlen_fmap, zlen_ins. lia. }
  destruct (put_plain (uv_bytes (uv pt)) sb3 _ H3) as (sb4 & -> & H4 & S4).
  { rewrite zlen_uv. unfold sbufleft, sbufsz in *. cbn [mem set_w] in S2. lia. }
  cbn [lift mbind sres_bind].
  assert (W4 : w sb4 = w sb3 + 2 * zlen (uv pt)).
  { destruct H3 as (? & _ & -> & _), H4 as (? & _ & -> & _). rewrite (zlen_app ((g ++ _) ++ _)), Buf.zlen_fmap, zlen_uv. lia. }
  destruct (Hf sb4 _ H4) as (sb5 & E5 & H5); [unfold LJ_MAX_BUF; lia|].
  exists sb5, g. rewrite !zlen_app in Ht. split_and!; [exact E5|done| |].
  - unfold proto_bytes. fold bs ns d. rewrite !fmap_app in *. by rewrite <- !app_assoc in *.
  - unfold proto_bytes. fold bs ns d. rewrite !zlen_app, zlen_ins, zlen_uv, Hc. lia.
Qed.

(** *** The blocks *)

Lemma poke_spec bs : forall (pre old post : list (option Z)), zlen old = zlen bs ->
  poke (pre ++ old ++ post) (zlen pre) bs = Some (pre ++ (Some <$> bs) ++ post).
Proof.
  induction bs as [|x bs IH]; intros pre old post Hl.
  { destruct old as [|y old]; [done|]. rewrite zlen_cons in Hl. change (zlen []) with 0 in Hl. pose proof (zlen_nonneg old). lia. }
  destruct old as [|y old]. { rewrite zlen_cons in Hl. change (zlen []) with 0 in Hl. pose proof (zlen_nonneg bs). lia. }
  cbn [poke app]. rewrite zset_middle. cbn [mbind option_bind]. rewrite !zlen_cons in Hl.
  specialize (IH (pre ++ [Some x]) old post ltac:(lia)). rewrite zlen_app, <- !app_assoc in IH. exact IH.
Qed.

Lemma bytes_between sb (pre : list (option Z)) bs post p q : mem sb = pre ++ (Some <$> bs) ++ post ->
  p = zlen pre -> q = zlen pre + zlen bs -> sbuf_bytes sb p q = Some bs.
Proof.
  intros Hm -> ->. unfold sbuf_bytes. rewrite Hm. replace (zlen pre + zlen bs - zlen pre) with (zlen bs) by lia.
  unfold zlen. rewrite !Nat2Z.id, drop_app_length, <- (length_fmap Some bs), take_app_length. apply mapM_some.
Qed.

(** A block to the writer function, unless it has reported an error. *)
Definition feed1 (s : W * Z) (b : list Z) : W * Z := if s.2 =? 0 then wfunc s.1 b else s.

Definition wstate (ctx : BCWriteCtx W) : W * Z := (c_wdata ctx, c_status ctx).

Lemma pass_spec ctx sb g bs : plain sb (g ++ (Some <$> bs)) -> zlen g = 5 -> 0 < zlen bs ->
  exists ctx' c', bcwrite_pass W wfunc ctx sb = SOk ctx' /\ plain (c_sb ctx') c' /\
    wstate ctx' = feed1 (wstate ctx) (uleb (zlen bs) ++ bs).
Proof.
  intros H Hg Hb. destruct (plain_bounds sb _ H) as [Hw0 Hs0]. pose proof H as (post & Hm & Hw & Hr & He & Hc & Hz).
  unfold bcwrite_pass, feed1, wstate. cbn [fst snd].
  destruct (Z.eqb_spec (c_status ctx) 0) as [E0|E0]; [|by eexists _, _].
  rewrite zlen_app, Buf.zlen_fmap in Hw. unfold sbuflen. replace (w sb - 5) with (zlen bs) by lia.
  rewrite u32_small by (unfold in_u32; lia). rewrite size_len by lia.
  pose proof (uleb_len (zlen bs)) as Hu. set (u := uleb (zlen bs)) in *.
  set (k := Z.to_nat (5 - zlen u)). rewrite <- (take_drop k g), <- !app_assoc in Hm.
  assert (Hk : zlen (take k g) = 5 - zlen u /\ zlen (drop k g) = zlen u).
  { unfold k, zlen in *. rewrite length_take, length_drop. lia. }
  destruct Hk as [Hk1 Hk2]. rewrite Hm, <- Hk1, poke_spec by done.
  assert (Hlen : zlen (take k g ++ (Some <$> u) ++ (Some <$> bs) ++ post) = zlen (mem sb)).
  { rewrite Hm, !zlen_app, !Buf.zlen_fmap. lia. }
  rewrite (bytes_between _ (take k g) (u ++ bs) post).
  - destruct (wfunc (c_wdata ctx) (u ++ bs)) as [wd st] eqn:Ew. eexists _, (take k g ++ (Some <$> u) ++ (Some <$> bs)).
    split; [done|]. split; [|done]. cbn [c_sb]. exists post. cbn [set_mem mem w r ext cow]. rewrite Hlen.
    split_and!; try done; [by rewrite <- !app_assoc|]. rewrite !zlen_app, !Buf.zlen_fmap. lia.
  - cbn [set_mem mem]. by rewrite fmap_app, <- app_assoc.
  - done.
  - rewrite zlen_app. lia.
Qed.

(** A property of all prototypes of a tree. *)
Inductive every (Q : GCproto -> Prop) : GCproto -> Prop :=
  | every_node pt : Q pt -> (forall c, KChild c ∈ kgcs pt -> every Q c) -> every Q pt.

Definition kid_blocks (o : kgc GCproto) : list (list Z) :=
  match o with KChild c => blocks strip c | _ => [] end.

Lemma blocks_eq pt : blocks strip pt =
  (if hasflag (flags pt) PROTO_CHILD then concat (reverse (map kid_blocks (kgcs pt))) else []) ++ [block strip pt].
Proof. by destruct pt. Qed.

Lemma kid_blocks_cons o l :
  concat (reverse (map kid_blocks (o :: l))) = concat (reverse (map kid_blocks l)) ++ kid_blocks o.
Proof. cbn [map]. rewrite reverse_cons, concat_app. cbn [concat]. by rewrite app_nil_r. Qed.

Lemma proto_spec pt : every writable pt -> forall ctx c, plain (c_sb ctx) c ->
  exists ctx' c', bcwrite_proto startins W wfunc strip ctx pt = SOk ctx' /\ plain (c_sb ctx') c' /\
    wstate ctx' = foldl feed1 (wstate ctx) (blocks strip pt).
Proof.
  induction 1 as [pt Hwr _ IH]. intros ctx c H.
  assert (Hkids : exists ctx1 c1,
    (if hasflag (flags pt) PROTO_CHILD then
       (fix children (l : list (kgc GCproto)) : sres (BCWriteCtx W) :=
          match l with
          | [] => SOk ctx
          | o :: l' => ctx ← children l';
              match o with KChild c => bcwrite_proto startins W wfunc strip ctx c | _ => SOk ctx end
          end) (kgcs pt)
     else SOk ctx) = SOk ctx1 /\ plain (c_sb ctx1) c1 /\
    wstate ctx1 = foldl feed1 (wstate ctx)
      (if hasflag (flags pt) PROTO_CHILD then concat (reverse (map kid_blocks (kgcs pt))) else [])).
  { destruct (hasflag (flags pt) PROTO_CHILD); [|by exists ctx, c].
    revert IH. induction (kgcs pt) as [|o l IHl]; intros IH; [by exists ctx, c|].
    destruct IHl as (ctx1 & c1 & E1 & H1 & S1); [intros k Hk; apply IH; by right|].
    rewrite E1. cbn [mbind sres_bind]. rewrite kid_blocks_cons, foldl_app, <- S1.
    destruct o as [| k | | | |]; try (by exists ctx1, c1). apply (IH k ltac:(by left) ctx1 c1 H1). }
  destruct Hkids as (ctx1 & c1 & E1 & H1 & S1).
  destruct (info_plain (c_sb ctx1) c1 pt Hwr H1) as (sb & g & E2 & Hg & H2 & Hl).
  destruct (pass_spec ctx1 sb g (proto_bytes strip pt) H2 Hg) as (ctx2 & c2 & E3 & H3 & S3).
  { unfold proto_bytes. rewrite zlen_app. pose proof (head_len pt Hwr).
    match goal with |- context [zlen ?x + zlen ?y] => pose proof (zlen_nonneg y) end. lia. }
  exists ctx2, c2. split; [|split; [done|]].
  - destruct pt. cbn [bcwrite_proto]. cbn [flags kgcs] in E1. cbn [flags kgcs]. rewrite E1. cbn [mbind sres_bind].
    rewrite E2. cbn [mbind sres_bind]. exact E3.
  - rewrite blocks_eq, foldl_app, <- S1. exact S3.
Qed.

(** The writer of dumps hands the blocks of the format to the writer
    function, in order, until that reports an error, and returns its status. *)
Lemma bcwrite_spec pt wdata : every writable pt ->
  lj_bcwrite startins W wfunc strip pt wdata = SOk (foldl feed1 (wdata, 0) (dump strip pt)).
Proof.
  intros Hev. assert (Hwr : writable pt) by (by inversion Hev). destruct Hwr as (_ & _ & _ & _ & _ & _ & _ & Hname).
  unfold LJ_MAX_STR in Hname. pose proof (zlen_nonneg (chunkname pt)) as Hn0.
  assert (Hi : plain lj_buf_init []) by (by exists []).
  unfold lj_bcwrite, cpwriter. cbn [c_sb c_wdata c_status].
  destruct (need_plain lj_buf_init [] 1024 Hi) as (sb1 & -> & H1 & _); [unfold LJ_MAX_BUF; lia|].
  cbn [lift mbind sres_bind]. unfold bcwrite_header. cbn [c_sb c_wdata c_status].
  rewrite u32_small by (unfold in_u32; lia).
  destruct (need_plain sb1 [] (5 + 5 + zlen (chunkname pt)) H1) as (sb2 & -> & H2 & S2); [unfold LJ_MAX_BUF; lia|].
  cbn [lift mbind sres_bind]. destruct (plain_bounds sb2 _ H2) as [B2 B3].
  assert (Hh : zlen (header_bytes strip pt) <= 10 + zlen (chunkname pt)).
  { unfold header_bytes. rewrite zlen_app. change (zlen [_; _; _; _; _]) with 5.
    destruct strip; [change (zlen []) with 0; lia|]. rewrite zlen_app. pose proof (uleb_len (zlen (chunkname pt))). lia. }
  pose proof (set_w_plain sb2 [] 0 H2 ltac:(lia)) as H2'. cbn [Z.to_nat take] in H2'.
  destruct (put_plain (header_bytes strip pt) (set_w sb2 0) [] H2') as (sb3 & -> & H3 & S3).
  { unfold sbufleft, sbufsz in *. cbn [set_w mem w]. lia. }
  cbn [lift mbind sres_bind]. pose proof H3 as (post & Hm3 & Hw3 & _). cbn [app] in *. rewrite Buf.zlen_fmap in Hw3.
  rewrite (bytes_between sb3 [] (header_bytes strip pt) post 0 (w sb3)) by done.
  destruct (wfunc wdata (header_bytes strip pt)) as [wd st] eqn:Ew. cbn [mbind sres_bind].
  assert (Hw2 : w sb2 = 0) by (by destruct H2 as (? & _ & -> & _)).
  assert (H4 : plain (set_w sb3 (w sb2)) (take (Z.to_nat (w sb2)) (mem sb3))).
  { eapply set_w_plain; [exact H3|]. pose proof (plain_bounds _ _ H3). lia. }
  destruct (proto_spec pt Hev (Ctx (set_w sb3 (w sb2)) wd st) _ H4) as (ctx & c & -> & _ & S).
  cbn [mbind sres_bind]. unfold dump, bcwrite_footer. cbn [foldl].
  change (feed1 (wdata, 0) (header_bytes strip pt)) with (wfunc wdata (header_bytes strip pt)). rewrite Ew, foldl_app.
  change (wstate (Ctx (set_w sb3 (w sb2)) wd st)) with (wd, st) in S. rewrite <- S. cbn [foldl]. unfold feed1, wstate. cbn [fst snd].
  destruct (c_status ctx =? 0); [|done]. by destruct (wfunc (c_wdata ctx) [0]).
Qed.
End writer.

(** ** [string.dump] *)

Lemma putmem_plain sb c b : plain sb c -> w sb + zlen b <= LJ_MAX_BUF ->
  exists sb', lj_buf_putmem sb b = Ok sb' /\ plain sb' (c ++ (Some <$> b)).
Proof.
  intros H Hl. unfold lj_buf_putmem.
  destruct (more_plain sb c (zlen b) H ltac:(apply zlen_nonneg) Hl) as (sb1 & -> & H1 & L1). cbn [mbind res_bind].
  destruct (put_plain b sb1 c H1 L1) as (sb2 & -> & H2 & _). by exists sb2.
Qed.

Lemma feed_buf l : forall sb c, plain sb (Some <$> c) -> zlen c + zlen (concat l) <= LJ_MAX_BUF ->
  exists sb', foldl (feed1 writer_buf) (sb, 0) l = (sb', 0) /\ plain sb' (Some <$> c ++ concat l).
Proof.
  induction l as [|b l IH]; intros sb c H Hl; cbn [foldl concat]; [by exists sb; rewrite app_nil_r|].
  cbn [concat] in Hl. rewrite zlen_app in Hl. pose proof (zlen_nonneg (concat l)).
  assert (Hw : w sb = zlen c) by (destruct H as (? & _ & -> & _); apply Buf.zlen_fmap).
  destruct (putmem_plain sb _ b H) as (sb1 & E & H1); [lia|]. rewrite <- fmap_app in H1.
  unfold feed1 at 2. cbn [fst snd]. change (0 =? 0) with true. cbn iota. unfold writer_buf at 2. rewrite E.
  destruct (IH sb1 _ H1) as (sb2 & E2 & H2); [rewrite zlen_app; lia|]. exists sb2. by rewrite <- app_assoc in H2.
Qed.

(** It returns the blocks one after the other. *)
Lemma string_dump_spec startins tmp pt strip : every (writable strip) pt ->
  plain (lj_buf_reset tmp) [] -> zlen (concat (dump strip pt)) <= LJ_MAX_BUF ->
  string_dump startins tmp pt strip = Some (concat (dump strip pt)).
Proof.
  intros Hev Ht Hl. unfold string_dump. rewrite (bcwrite_spec _ _ _ _ _ Hev).
  destruct (feed_buf (dump strip pt) (lj_buf_reset tmp) [] Ht) as (sb & -> & H); [done|].
  change (0 =? 0) with true. cbn iota. destruct H as (post & Hm & Hw & _). cbn [app] in *.
  rewrite Buf.zlen_fmap in Hw. by apply (bytes_between sb [] _ post).
Qed.
End BcFormat.
