(* ===== verification/LjBcdumpSpec.v ===== *)
(** * LjBcdumpSpec

    The reader of [LjBcdump] on the format of [LjBcdumpFormat]: the round trip
    from [string.dump] to [load], whatever pieces the dump comes in; and what
    the reader makes of the debug information of a function. *)
From stdpp Require Import base tactics numbers list.
From Stdlib Require Import ZArith Lia.
From S2P Require Import Prelude LjStr LjBuf LjStrfmt LjTab LjTabHash LjTabMap LjTabNext LjSerialize LjSerializeSpec.
From S2P Require Import LjBcdump LjBcdumpFormat.
Import Buf Serialize SerializeSpec Bcdump BcFormat.
Open Scope Z_scope.

Module BcSpec.

(** ** Readers *)

(** [g] takes the bytes [bs] and gives [x]. *)
Definition reads {A} (g : rd A) (bs : list Z) (x : A) : Prop := forall rest, g (bs ++ rest) = ROk (x, rest).

Lemma reads_ret {A} (x : A) : reads (mret x) [] x.
Proof. done. Qed.

Lemma reads_bind {A B} (g : rd A) (f : A -> rd B) bs bs' x y :
  reads g bs x -> reads (f x) bs' y -> reads (g ≫= f) (bs ++ bs') y.
Proof. intros Hg Hf rest. unfold mbind, rd_bind. rewrite <- app_assoc, Hg. apply Hf. Qed.

Lemma reads_bind_ret {A B} (g : rd A) (f : A -> B) bs x : reads g bs x -> reads (a ← g; mret (f a)) bs (f x).
Proof. intros H rest. unfold mbind, rd_bind. rewrite H. done. Qed.

Lemma reads_byte c : reads bcread_byte [c] c.
Proof. done. Qed.

Lemma reads_uleb v : in_u32 v -> reads bcread_uleb128 (uleb v) v.
Proof.
  intros Hv rest. destruct (Strfmt.uleb128_roundtrip v [] rest Hv) as (bs & E & _ & R).
  destruct (uleb_ok v Hv) as [E' _]. rewrite E in E'. injection E' as ->. unfold bcread_uleb128.
  change (zlen []) with 0 in R. cbn [app] in R. rewrite R, Z.add_0_l. unfold zlen. by rewrite Nat2Z.id, drop_app_length.
Qed.

Lemma reads_uleb_i32 k : in_i32 k -> reads (v ← bcread_uleb128; mret (i32 v)) (uleb k) k.
Proof.
  intros Hk. rewrite <- uleb_u32. pose proof (reads_bind_ret bcread_uleb128 i32 _ _ (reads_uleb (u32 k) ltac:(apply u32_range))) as H.
  replace (i32 (u32 k)) with k in H; [done|]. width_lia.
Qed.

Lemma reads_mem s : reads (bcread_mem (zlen s)) s s.
Proof.
  intros rest. unfold bcread_mem. rewrite zlen_app. pose proof (zlen_nonneg rest).
  replace (zlen s + zlen rest <? zlen s) with false by lia. unfold zlen. by rewrite Nat2Z.id, take_app_length, drop_app_length.
Qed.

Lemma reads_str s : zlen s < LJ_MAX_STR -> reads (read_str (zlen s)) s s.
Proof.
  intros Hs. unfold read_str. rewrite <- (app_nil_r s) at 2. apply (reads_bind _ _ _ _ _ _ (reads_mem s)).
  replace (LJ_MAX_STR <=? zlen s) with false by lia. apply reads_ret.
Qed.

Lemma lo_hi u : in_u64 u -> lo u + 4294967296 * hi u = u.
Proof.
  intros Hu. unfold lo, hi. rewrite Z.shiftr_div_pow2 by lia. change (2 ^ 32) with 4294967296. unfold u32, in_u64 in *. zlia.
Qed.

Lemma lo_range u : in_u32 (lo u).
Proof. apply u32_range. Qed.
Lemma hi_range u : in_u32 (hi u).
Proof. apply u32_range. Qed.

Lemma reads_u64 u : in_u64 u -> reads read_u64 (uleb (lo u) ++ uleb (hi u)) u.
Proof.
  intros Hu. eapply reads_bind; [apply reads_uleb, lo_range|]. cbn beta.
  pose proof (reads_bind_ret bcread_uleb128 (fun h => lo u + 4294967296 * h) _ _ (reads_uleb (hi u) (hi_range u))) as H.
  cbn beta in H. by rewrite (lo_hi u Hu) in H.
Qed.

(** ** Numbers of 33 bits *)

Lemma uleb33_loop_spec f : forall v bytes rest u sh, 0 <= v -> Strfmt.wuleb_loop f v = Some bytes ->
  -1 <= sh -> 0 <= u < 2 ^ (sh + 7) -> u + v * 2 ^ (sh + 7) < 2 ^ 32 ->
  uleb33_loop (bytes ++ rest) u sh = ROk (u + v * 2 ^ (sh + 7), rest).
Proof.
  induction f as [|f IH]; intros v bytes rest u sh Hv E Hsh Hu Hlim; [done|]. rewrite Strfmt.wuleb_S in E.
  assert (Hp : 0 < 2 ^ (sh + 7)) by (apply Z.pow_pos_nonneg; lia).
  assert (Hor : forall x, 0 <= x -> u + x * 2 ^ (sh + 7) < 2 ^ 32 ->
    Z.lor u (u32 (Z.shiftl x (sh + 7))) = u + x * 2 ^ (sh + 7)).
  { intros x Hx Hxl. rewrite u32_small; [by apply Strfmt.lor_high; lia|]. rewrite Z.shiftl_mul_pow2 by lia. unfold in_u32. nia. }
  destruct (0x80 <=? v) eqn:Ev.
  - destruct (Strfmt.wuleb_loop f (Z.shiftr v 7)) as [bs|] eqn:Er; [|done]. injection E as <-.
    rewrite Strfmt.uleb_byte by done. cbn [app uleb33_loop].
    rewrite Z.shiftr_div_pow2 in Er by lia. change (2 ^ 7) with 128 in Er.
    pose proof (Z.div_mod v 128) as Hdm. assert (0 <= v mod 128 < 128) as Hm by (apply Z.mod_pos_bound; lia).
    assert (0 <= v / 128) as Hd by (apply Z.div_pos; lia).
    replace (128 <=? v mod 128 + 128) with true by lia. rewrite Strfmt.uleb_strip by done.
    assert (2 ^ (sh + 7 + 7) = 128 * 2 ^ (sh + 7)) as Ep by (rewrite (Z.pow_add_r 2 (sh + 7) 7) by lia; lia).
    rewrite Hor by nia. rewrite (IH _ _ _ _ _ Hd Er) by (lia || nia). do 2 f_equal. nia.
  - injection E as <-. rewrite u8_small by (unfold in_u8; lia). cbn [app uleb33_loop].
    replace (128 <=? v) with false by lia.
    assert (Z.land v 0x7f = v) as ->.
    { change 0x7f with (2 ^ 7 - 1). rewrite land_pow2_mask by lia. apply Z.mod_small. change (2 ^ 7) with 128. lia. }
    by rewrite Hor by lia.
Qed.

(** The low bit is dropped. *)
Lemma reads_33 n bytes : 0 <= n < 2 ^ 33 -> Strfmt.wuleb_loop 5 n = Some bytes ->
  reads bcread_uleb128_33 bytes (n / 2) /\ exists c l, bytes = c :: l /\ Z.land c 1 = n mod 2.
Proof.
  intros Hn E. rewrite Strfmt.wuleb_S in E.
  assert (H1 : forall c, Z.land c 1 = c mod 2) by (intros c; apply (land_pow2_mask c 1); lia).
  destruct (Z.leb_spec 0x80 n) as [H|H].
  - destruct (Strfmt.wuleb_loop 4 (Z.shiftr n 7)) as [bs|] eqn:Er; [|done]. injection E as <-.
    rewrite Strfmt.uleb_byte by lia. split.
    + intros rest. cbn [app]. unfold bcread_uleb128_33. rewrite Z.shiftr_div_pow2 by lia. change (2 ^ 1) with 2.
      assert (Hm : 0 <= n mod 128 < 128) by (apply Z.mod_pos_bound; lia).
      replace (0x40 <=? (n mod 128 + 128) / 2) with true by zlia.
      change 0x3f with (2 ^ 6 - 1). rewrite land_pow2_mask by lia. change (2 ^ 6) with 64.
      rewrite Z.shiftr_div_pow2 in Er by lia. change (2 ^ 7) with 128 in Er.
      rewrite (uleb33_loop_spec 4 (n / 128) bs rest _ (-1)); [|zlia|done|lia| |]; change (2 ^ (-1 + 7)) with 64; change (2 ^ 32) with 4294967296.
      * do 2 f_equal. zlia.
      * zlia.
      * change (2 ^ 33) with 8589934592 in Hn. zlia.
    + eexists _, _. split; [done|]. rewrite H1. zlia.
  - injection E as <-. rewrite u8_small by (unfold in_u8; lia). split.
    + intros rest. cbn [app]. unfold bcread_uleb128_33. rewrite Z.shiftr_div_pow2 by lia. change (2 ^ 1) with 2.
      by replace (0x40 <=? n / 2) with false by zlia.
    + eexists _, _. split; [done|]. by rewrite H1.
Qed.

(** A number of five groups of seven bits. *)
Lemma wuleb5 n : 2 ^ 28 <= n < 2 ^ 35 -> Strfmt.wuleb_loop 5 n =
  Some [n mod 128 + 128; n / 128 mod 128 + 128; n / 128 / 128 mod 128 + 128; n / 128 / 128 / 128 mod 128 + 128; n / 2 ^ 28].
Proof.
  change (2 ^ 28) with 268435456. change (2 ^ 35) with 34359738368. intros Hn.
  do 4 (rewrite Strfmt.wuleb_S; rewrite ?Z.shiftr_div_pow2 by lia; change (2 ^ 7) with 128;
    match goal with |- context [0x80 <=? ?x] => replace (0x80 <=? x) with true by zlia end).
  rewrite Strfmt.wuleb_S, ?Z.shiftr_div_pow2 by lia. change (2 ^ 7) with 128.
  replace (0x80 <=? n / 128 / 128 / 128 / 128) with false by zlia. cbn [mbind option_bind].
  rewrite !Strfmt.uleb_byte by zlia. rewrite u8_small by zlia. do 6 f_equal. zlia.
Qed.

Lemma land_bit31 k : in_u32 k -> Z.land k 0x80000000 = if 0x80000000 <=? k then 0x80000000 else 0.
Proof.
  intros Hk. unfold in_u32 in Hk. change 0x80000000 with (Z.shiftl 1 31) at 1. apply Z.bits_inj'. intros n Hn.
  rewrite Z.land_spec, Z.shiftl_spec by lia.
  assert (Hb : forall m, 0 <= m -> Z.testbit 1 m = (m =? 0)).
  { intros m Hm. destruct (Z.eqb_spec m 0) as [->|]; [done|]. by apply (Z.bits_above_log2 1 m); [lia|change (Z.log2 1) with 0; lia]. }
  destruct (Z.eqb_spec n 31) as [->|Hne].
  - change (Z.testbit 1 (31 - 31)) with true. rewrite andb_true_r.
    destruct (Z.leb_spec 0x80000000 k) as [H|H].
    + change (Z.testbit 0x80000000 31) with true. apply (Z.testbit_true k 31); [lia|]. change (2 ^ 31) with 2147483648. zlia.
    + rewrite Z.bits_0. apply (Z.testbit_false k 31); [lia|]. change (2 ^ 31) with 2147483648. zlia.
  - assert (E : Z.testbit 1 (n - 31) = false).
    { destruct (Z.ltb_spec n 31); [apply Z.testbit_neg_r; lia|]. rewrite Hb by lia. lia. }
    rewrite E, andb_false_r. destruct (0x80000000 <=? k); [|by rewrite Z.bits_0].
    change 0x80000000 with (Z.shiftl 1 31). by rewrite Z.shiftl_spec, E by lia.
Qed.

(** The word doubled and with its top bit kept, the top two bits patched in
    afterwards, is the 33-bit number. *)
Lemma bytes_33 k b x : in_u32 k -> (b = 0 \/ b = 1) -> x = Z.land (Z.shiftr k 27) 0x18 ->
  let p := uleb (b + Z.lor (u32 (2 * k)) (Z.land k 0x80000000)) in
  Strfmt.wuleb_loop 5 (2 * k + b) = Some (if 0x80000000 <=? k then patch_last p x else p).
Proof.
  intros Hk Hb Hx. cbv zeta. rewrite (land_bit31 k Hk). unfold in_u32 in Hk.
  destruct (Z.leb_spec 0x80000000 k) as [H|H].
  - set (m := k - 2147483648). set (t := m / 1073741824). set (s := 2 * m - 2147483648 * t).
    assert (Ht : t = 0 \/ t = 1) by (subst t m; zlia). assert (Hs : 0 <= s < 2147483647) by (subst s t m; zlia).
    assert (Hev : s mod 2 = 0) by (subst s t m; zlia).
    assert (Eu : u32 (2 * k) = t * 2147483648 + s) by (unfold u32; subst s t m; zlia).
    assert (El : Z.lor (u32 (2 * k)) 2147483648 = 2147483648 + s).
    { rewrite Eu. replace (t * 2147483648 + s) with (Z.lor s (Z.shiftl t 31)).
      2:{ rewrite Strfmt.lor_high by (change (2 ^ 31) with 2147483648; lia). change (2 ^ 31) with 2147483648. lia. }
      change 2147483648 with (Z.shiftl 1 31) at 1. rewrite <- Z.lor_assoc, <- Z.shiftl_lor.
      replace (Z.lor t 1) with 1 by (by destruct Ht as [-> | ->]).
      rewrite Strfmt.lor_high by (change (2 ^ 31) with 2147483648; lia). change (2 ^ 31) with 2147483648. lia. }
    rewrite El. set (a := (s + b) / 268435456). assert (Ha : 0 <= a < 8) by (subst a; zlia).
    set (v := b + (2147483648 + s)).
    assert (Ev : 2 ^ 28 <= v < 2 ^ 32) by (change (2 ^ 28) with 268435456; change (2 ^ 32) with 4294967296; lia).
    unfold uleb, Strfmt.lj_strfmt_wuleb128. rewrite u32_small by (unfold in_u32; lia).
    rewrite !wuleb5 by (change (2 ^ 28) with 268435456 in *; change (2 ^ 32) with 4294967296 in *; change (2 ^ 35) with 34359738368; lia).
    cbn [default]. unfold id, patch_last. cbn [last removelast app].
    assert (E5 : v / 2 ^ 28 = 8 + a) by (change (2 ^ 28) with 268435456; subst a v; zlia). rewrite E5.
    assert (EN : (2 * k + b) / 2 ^ 28 = 16 + 8 * t + a) by (change (2 ^ 28) with 268435456; subst a s t m; zlia). rewrite EN.
    assert (Hx' : x = 16 + 8 * t).
    { rewrite Hx, Z.shiftr_div_pow2 by lia. change (2 ^ 27) with 134217728. set (y := k / 134217728).
      assert (Hy : 16 <= y < 32 /\ (y - 16) / 8 = t) by (subst y t m; zlia). destruct Hy as [Hy <-]. clearbody y.
      assert (Hi : y ∈ seqZ 16 16) by (apply elem_of_seqZ; lia). revert Hi. clear. revert y. apply Forall_forall. by repeat constructor. }
    rewrite Hx'. assert (E8 : Z.lor (Z.land (8 + a) 7) (16 + 8 * t) = 16 + 8 * t + a).
    { clearbody a. assert (Hi : a ∈ seqZ 0 8) by (apply elem_of_seqZ; lia). destruct Ht as [-> | ->]; revert Hi; clear; revert a;
        apply Forall_forall; by repeat constructor. }
    rewrite E8. do 2 f_equal; [subst v s t m; zlia|]. f_equal; [subst v s t m; zlia|]. f_equal; [subst v s t m; zlia|].
    f_equal. subst v s t m. zlia.
  - rewrite Z.lor_0_r, (u32_small (2 * k)) by (unfold in_u32; lia). replace (2 * k + b) with (b + 2 * k) by lia.
    destruct (uleb_ok (b + 2 * k)) as [E _]; [unfold in_u32; lia|]. exact E.
Qed.

(** A number constant: not minus zero, unless it is not a number but an index
    of a traversal. *)
Definition knum_ok (u : Z) : Prop := in_u64 u /\ (hi u = TabNext.LJ_KEYINDEX \/ u <> 2 ^ 63).

Lemma num_int_exact u k : in_u64 u -> u <> 2 ^ 63 -> Tab.num_int u = Some k -> in_i32 k /\ Tab.num_of_int k = u.
Proof.
  intros Hu Hz E. destruct (TabMap.num_int_some u k Hu E) as (Hk & Hc & _). split; [done|].
  unfold TabHash.canon in Hc. destruct (Z.eqb_spec u (2 ^ 63)); [done|]. by injection Hc.
Qed.

Lemma knum_reads u : knum_ok u -> reads bcread_knum1 (knum_bytes u) u.
Proof.
  intros [Hu Hz]. unfold knum_bytes.
  assert (Hrd : forall n bytes bs y, 0 <= n < 2 ^ 33 -> Strfmt.wuleb_loop 5 n = Some bytes ->
    reads (if n mod 2 =? 1 then h ← bcread_uleb128; mret (n / 2 + 4294967296 * h) else mret (Tab.num_of_int (i32 (n / 2)))) bs y ->
    reads bcread_knum1 (bytes ++ bs) y).
  { intros n bytes bs y Hn E Hy rest. destruct (reads_33 n bytes Hn E) as [R (c & l & -> & Hc)].
    unfold bcread_knum1. rewrite <- Hc in Hy. cbn [app].
    apply (reads_bind bcread_uleb128_33 (fun l => if Z.land c 1 =? 1 then h ← bcread_uleb128; mret (l + 4294967296 * h)
      else mret (Tab.num_of_int (i32 l))) _ _ _ _ R Hy rest). }
  destruct (if hi u =? TabNext.LJ_KEYINDEX then None else Tab.num_int u) as [k|] eqn:Ek.
  - destruct (Z.eqb_spec (hi u) TabNext.LJ_KEYINDEX) as [|Hne]; [done|]. destruct Hz as [Hz|Hz]; [done|].
    destruct (num_int_exact u k Hu Hz Ek) as [Hk Hof].
    pose proof (bytes_33 (u32 k) 0 (Z.land (Z.shiftr k 27) 0x18) (u32_range k) (or_introl eq_refl)) as E.
    rewrite Z.add_0_l in E. rewrite <- (app_nil_r (if k <? 0 then _ else _)).
    assert (Hneg : (k <? 0) = (0x80000000 <=? u32 k)) by width_lia.
    rewrite Hneg. apply (Hrd (2 * u32 k + 0)).
    + pose proof (u32_range k). unfold in_u32 in *. change (2 ^ 33) with 8589934592. lia.
    + apply E. rewrite !Z.shiftr_div_pow2 by lia. change (2 ^ 27) with 134217728.
      replace (u32 k / 134217728) with (k / 134217728 + (if k <? 0 then 32 else 0)).
      2:{ unfold in_i32 in Hk. destruct (Z.ltb_spec k 0); unfold u32; zlia. }
      set (y := k / 134217728). assert (Hy : -16 <= y < 16) by (subst y; zlia). clearbody y.
      destruct (k <? 0); [|by rewrite Z.add_0_r].
      assert (Hi : y ∈ seqZ (-16) 32) by (apply elem_of_seqZ; lia). revert Hi. clear. revert y. apply Forall_forall. by repeat constructor.
    + replace ((2 * u32 k + 0) mod 2 =? 1) with false by zlia. replace ((2 * u32 k + 0) / 2) with (u32 k) by zlia.
      replace (i32 (u32 k)) with k by width_lia. rewrite Hof. apply reads_ret.
  - pose proof (bytes_33 (lo u) 1 (Z.land (Z.shiftr (lo u) 27) 0x18) (lo_range u) (or_intror eq_refl) eq_refl) as E.
    apply (Hrd (2 * lo u + 1)); [|exact E|].
    + pose proof (lo_range u). unfold in_u32 in *. change (2 ^ 33) with 8589934592. lia.
    + replace ((2 * lo u + 1) mod 2 =? 1) with true by zlia. replace ((2 * lo u + 1) / 2) with (lo u) by zlia.
      pose proof (reads_bind_ret bcread_uleb128 (fun h => lo u + 4294967296 * h) _ _ (reads_uleb (hi u) (hi_range u))) as H.
      cbn beta in H. by rewrite (lo_hi u Hu) in H.
Qed.

(** ** Sequences *)

Lemma many_reads {A} (g : rd A) (enc : A -> list Z) l : Forall (fun x => reads g (enc x) x) l ->
  forall fuel, (length l <= fuel)%nat -> reads (many g fuel (zlen l)) (concat (enc <$> l)) l.
Proof.
  induction 1 as [|x l Hx _ IH]; intros fuel Hf; [by destruct fuel|].
  destruct fuel as [|fuel]; [cbn in Hf; lia|]. cbn [many fmap list_fmap concat]. rewrite zlen_cons.
  pose proof (zlen_nonneg l). replace (1 + zlen l <=? 0) with false by lia. replace (1 + zlen l - 1) with (zlen l) by lia.
  eapply reads_bind; [exact Hx|]. cbn beta. apply (reads_bind_ret (many g fuel (zlen l)) (cons x)). apply IH. cbn in Hf. lia.
Qed.

Lemma concat_long {A} (enc : A -> list Z) l : Forall (fun x => enc x <> []) l -> (length l <= length (concat (enc <$> l)))%nat.
Proof.
  induction 1 as [|x l Hx _ IH]; cbn [fmap list_fmap concat length]; [lia|]. rewrite length_app.
  destruct (enc x); [done|]. cbn. lia.
Qed.

Lemma read_many_reads {A} (g : rd A) (enc : A -> list Z) l : Forall (fun x => reads g (enc x) x) l ->
  Forall (fun x => enc x <> []) l -> reads (read_many g (zlen l)) (concat (enc <$> l)) l.
Proof.
  intros H Hn rest. unfold read_many. apply many_reads; [done|]. pose proof (concat_long enc l Hn). rewrite length_app. lia.
Qed.

Lemma knums_read l : Forall knum_ok l -> reads (bcread_knum (zlen l)) (concat (knum_bytes <$> l)) l.
Proof.
  intros H. apply read_many_reads.
  - eapply Forall_impl; [exact H|]. apply knum_reads.
  - apply Forall_forall. intros u _ E. pose proof (knum_len u) as L. rewrite E in L. change (zlen []) with 0 in L. lia.
Qed.

(** ** Template tables *)

Definition kval_ok (o : obj) : Prop :=
  match o with
  | ONil | OFalse | OTrue => True
  | ONum u => in_u64 u /\ u <> 2 ^ 63
  | OStr s => zlen s < LJ_MAX_STR
  | _ => False
  end.

Lemma uleb_ne v : uleb v <> [].
Proof. intros E. pose proof (uleb_len v) as H. rewrite E in H. change (zlen []) with 0 in H. lia. Qed.

Lemma uleb_small v : 0 <= v < 128 -> uleb v = [v].
Proof.
  intros Hv. unfold uleb, Strfmt.lj_strfmt_wuleb128. rewrite u32_small by (unfold in_u32; lia). rewrite Strfmt.wuleb_S.
  replace (0x80 <=? v) with false by lia. cbn. by rewrite u8_small by (unfold in_u8; lia).
Qed.

Lemma ktabk_ne b o : ktabk_bytes b o <> [].
Proof.
  destruct o; cbn [ktabk_bytes]; try done; [by destruct (if b then _ else _)|].
  intros [E _]%app_nil. by apply uleb_ne in E.
Qed.

Lemma reads_tag {A} v (f : Z -> rd A) bs y : 0 <= v < 128 -> reads (f v) bs y -> reads (x ← bcread_uleb128; f x) (v :: bs) y.
Proof.
  intros Hv Hf. change (v :: bs) with ([v] ++ bs). rewrite <- (uleb_small v Hv).
  apply (reads_bind _ _ _ _ _ _ (reads_uleb v ltac:(unfold in_u32; lia)) Hf).
Qed.

Lemma ktabk_reads narrow o : kval_ok o -> reads bcread_ktabk (ktabk_bytes narrow o) o.
Proof.
  unfold bcread_ktabk. destruct o as [| | |u|s| | | | | |]; cbn [kval_ok ktabk_bytes]; try done; intros H.
  - destruct H as [Hu Hz]. destruct (if narrow then Tab.num_int u else None) as [k|] eqn:E.
    + assert (Ek : Tab.num_int u = Some k) by (by destruct narrow). destruct (num_int_exact u k Hu Hz Ek) as [Hk <-].
      apply reads_tag; [done|]. change (BCDUMP_KTAB_STR <=? BCDUMP_KTAB_INT) with false.
      change (BCDUMP_KTAB_INT =? BCDUMP_KTAB_INT) with true. cbn iota.
      rewrite <- uleb_u32. replace k with (i32 (u32 k)) at 2 by (unfold in_i32 in Hk; width_lia).
      apply (reads_bind_ret bcread_uleb128 (fun v => ONum (Tab.num_of_int (i32 v)))), reads_uleb, u32_range.
    + apply reads_tag; [done|]. change (BCDUMP_KTAB_STR <=? BCDUMP_KTAB_NUM) with false.
      change (BCDUMP_KTAB_NUM =? BCDUMP_KTAB_INT) with false. change (BCDUMP_KTAB_NUM =? BCDUMP_KTAB_NUM) with true. cbn iota.
      eapply reads_bind; [apply reads_uleb, lo_range|]. cbn beta.
      pose proof (reads_bind_ret bcread_uleb128 (fun h => ONum (lo u + 4294967296 * h)) _ _ (reads_uleb (hi u) (hi_range u))) as R.
      cbn beta in R. by rewrite (lo_hi u Hu) in R.
  - pose proof (zlen_nonneg s). unfold BCDUMP_KTAB_STR, LJ_MAX_STR in *.
    eapply reads_bind; [apply reads_uleb; unfold in_u32; lia|]. cbn beta.
    replace (5 <=? 5 + zlen s) with true by lia. replace (5 + zlen s - 5) with (zlen s) by lia.
    by apply (reads_bind_ret (read_str (zlen s)) OStr), reads_str.
Qed.

Definition kpair_ok (p : obj * obj) : Prop := kval_ok p.1 /\ kval_ok p.2.

Lemma khash_reads arr l : forall acc, Forall kpair_ok l -> fresh arr acc l ->
  forall fuel, (length l <= fuel)%nat -> reads (khash_loop fuel (zlen l) (arr, acc)) (concat (pair_bytes <$> l)) (arr, acc ++ l).
Proof.
  induction l as [|[k v] l IH]; intros acc Hl Hf fuel Hn; [rewrite app_nil_r; by destruct fuel|].
  apply Forall_cons in Hl as [[Hk Hv] Hl]. cbn [fst snd] in *. destruct fuel as [|fuel]; [cbn in Hn; lia|].
  cbn [khash_loop fmap list_fmap concat]. rewrite zlen_cons. pose proof (zlen_nonneg l).
  replace (1 + zlen l <=? 0) with false by lia. replace (1 + zlen l - 1) with (zlen l) by lia.
  destruct (fresh_cons _ _ _ _ Hf) as [Ht Hf']. cbn [fst] in Ht. unfold pair_bytes at 1. cbn [fst snd].
  rewrite <- app_assoc. eapply reads_bind; [by apply ktabk_reads|]. cbn beta. intros rest.
  unfold rlift at 1. unfold mbind at 1, rd_bind at 1. rewrite Ht. cbn [mbind rres_bind fst].
  revert rest. eapply reads_bind; [by apply ktabk_reads|]. cbn beta. cbn [tab_store].
  specialize (IH (acc ++ [(k, v)]) Hl Hf' fuel ltac:(cbn in Hn; lia)). by rewrite <- app_assoc in IH.
Qed.

(** Template tables that can be read back: within the limits of tables, the
    keys distinct and not those of the array part. *)
Definition ktab_rok (array : list obj) (node : list (obj * obj)) : Prop :=
  Forall kval_ok (array_slots array) /\ Forall kpair_ok (hash_pairs node) /\
  zlen array <= Tab.LJ_MAX_ASIZE /\ zlen node <= 2 ^ Tab.LJ_MAX_HBITS /\
  fresh (array_slots array) [] (hash_pairs node).

Lemma ktab_reads array node : ktab_rok array node ->
  reads bcread_ktab (ktab_bytes array node) (array_slots array, hash_pairs node).
Proof.
  intros (Ha & Hn & Hla & Hln & Hf). unfold bcread_ktab, ktab_bytes.
  pose proof (slots_range array) as Hr. pose proof (used_nodes_range node) as Hu.
  pose proof (hash_pairs_len node) as Hp. set (nh := zlen (hash_pairs node)) in *.
  assert (Hnh : 0 <= nh <= 2 ^ Tab.LJ_MAX_HBITS) by (destruct (0 <? zlen node - 1); lia). clear Hp.
  unfold Tab.LJ_MAX_ASIZE, Tab.LJ_MAX_ABITS, Tab.LJ_MAX_HBITS in *.
  eapply reads_bind; [apply reads_uleb; unfold in_u32; lia|]. cbn beta.
  eapply reads_bind; [apply reads_uleb; unfold in_u32; lia|]. cbn beta.
  pose proof (hbits_ok nh Hnh) as Hb. unfold Tab.LJ_MAX_HBITS in Hb.
  match goal with |- context [if ?b then _ else _] => replace b with false by lia end.
  rewrite <- (zlen_array_slots array). eapply reads_bind.
  - apply (read_many_reads bcread_ktabk (ktabk_bytes true)).
    + eapply Forall_impl; [exact Ha|]. intros o. apply ktabk_reads.
    + apply Forall_forall. intros o _. apply ktabk_ne.
  - cbn beta. intros rest. unfold read_khash. apply (khash_reads (array_slots array) (hash_pairs node) [] Hn Hf).
    rewrite length_app. pose proof (concat_long pair_bytes (hash_pairs node)) as Hl.
    etransitivity; [apply Hl|lia]. apply Forall_forall. intros p _ [E _]%app_nil. by apply ktabk_ne in E.
Qed.

(** ** Collectable constants *)

Definition kgc_rok (o : kgc GCproto) : Prop :=
  match o with
  | KStr s => zlen s < LJ_MAX_STR
  | KChild _ => True
  | KTab array node => ktab_rok array node
  | KI64 x | KU64 x => in_u64 x
  | KComplex re im => in_u64 re /\ in_u64 im
  end.

Section kgc.
Context (chunkarg : list Z) (rel : GCproto -> GCproto).

(** A constant read back: template tables without the unused slots. *)
Definition rel_kgc (o : kgc GCproto) : kgc GCproto :=
  match o with
  | KChild c => KChild (rel c)
  | KTab array node => KTab (array_slots array) (hash_pairs node)
  | o => o
  end.

Definition kid (o : kgc GCproto) : option GCproto := match o with KChild c => Some (rel c) | _ => None end.
Definition kids (l : list (kgc GCproto)) : list GCproto := omap kid l.

Lemma kgc1_reads o st : kgc_rok o ->
  reads (bcread_kgc1 chunkarg (match kid o with Some c => c :: st | None => st end)) (kgc_bytes o) (rel_kgc o, st).
Proof.
  intros H. unfold bcread_kgc1, kgc_bytes. destruct o as [s|c|array node|x|x|re im]; cbn [kgc_tp fst kid rel_kgc kgc_rok] in *.
  - pose proof (zlen_nonneg s). unfold BCDUMP_KGC_STR, LJ_MAX_STR in *.
    eapply reads_bind; [apply reads_uleb; unfold in_u32; lia|]. cbn beta.
    replace (5 <=? 5 + zlen s) with true by lia. replace (5 + zlen s - 5) with (zlen s) by lia.
    by apply (reads_bind_ret (read_str (zlen s)) (fun s => (KStr s, st))), reads_str.
  - done.
  - apply (reads_tag BCDUMP_KGC_TAB); [done|]. cbn -[bcread_ktab ktab_bytes].
    apply (reads_bind_ret bcread_ktab (fun t => (KTab t.1 t.2, st)) _ _ (ktab_reads array node H)).
  - apply (reads_tag BCDUMP_KGC_I64); [done|]. cbn -[read_u64 uleb].
    apply (reads_bind_ret read_u64 (fun x => (KI64 x, st)) _ _ (reads_u64 x H)).
  - apply (reads_tag BCDUMP_KGC_U64); [done|]. cbn -[read_u64 uleb].
    apply (reads_bind_ret read_u64 (fun x => (KU64 x, st)) _ _ (reads_u64 x H)).
  - apply (reads_tag BCDUMP_KGC_COMPLEX); [done|]. cbn -[read_u64 uleb]. destruct H as [Hr Hi].
    rewrite app_assoc. eapply reads_bind; [by apply reads_u64|]. cbn beta.
    apply (reads_bind_ret read_u64 (fun y => (KComplex re y, st)) _ _ (reads_u64 im Hi)).
Qed.

Lemma kids_cons o l st : kids (o :: l) ++ st = match kid o with Some c => c :: kids l ++ st | None => kids l ++ st end.
Proof. unfold kids. cbn. by destruct (kid o). Qed.

Lemma kgc_ne {P} (o : kgc P) : kgc_bytes o <> [].
Proof. unfold kgc_bytes. intros [E _]%app_nil. by apply uleb_ne in E. Qed.

Lemma kgc_reads l st : Forall kgc_rok l ->
  reads (bcread_kgc chunkarg (zlen l) (kids l ++ st)) (concat (kgc_bytes <$> l)) (map rel_kgc l, st).
Proof.
  intros H rest. unfold bcread_kgc.
  assert (Hf : (length l <= S (length (concat (kgc_bytes <$> l) ++ rest)))%nat).
  { rewrite length_app. pose proof (concat_long (@kgc_bytes GCproto) l) as Hl.
    etransitivity; [apply Hl|lia]. apply Forall_forall. intros o _. apply kgc_ne. }
  revert Hf. generalize (S (length (concat (kgc_bytes <$> l) ++ rest))). intros fuel Hf. revert rest.
  revert fuel Hf. induction H as [|o l Ho _ IH]; intros fuel Hf; [by destruct fuel|].
  destruct fuel as [|fuel]; [cbn in Hf; lia|]. cbn [kgc_loop fmap list_fmap concat map]. rewrite zlen_cons.
  pose proof (zlen_nonneg l). replace (1 + zlen l <=? 0) with false by lia. replace (1 + zlen l - 1) with (zlen l) by lia.
  rewrite kids_cons. eapply reads_bind; [apply (kgc1_reads o (kids l ++ st) Ho)|]. cbn beta. cbn [fst snd].
  apply (reads_bind_ret (kgc_loop chunkarg fuel (zlen l) (kids l ++ st)) (fun l => (rel_kgc o :: l.1, l.2)) _ _ (IH fuel ltac:(cbn in Hf; lia))).
Qed.
End kgc.

Lemma words4_ins l : Forall in_u32 l -> words4 (ins_bytes l) = l.
Proof.
  induction 1 as [|i l Hi _ IH]; [done|]. rewrite ins_cons, bytes_le4. cbn [app words4]. rewrite IH. f_equal.
  unfold u8. zlia.
Qed.

Lemma words2_uv l : Forall in_u16 l -> words2 (uv_bytes l) = l.
Proof.
  induction 1 as [|i l Hi _ IH]; [done|]. change (uv_bytes (i :: l)) with (u8 i :: u8 (i / 256) :: uv_bytes l).
  cbn [words2]. rewrite IH. f_equal. unfold u8. zlia.
Qed.

(** ** Prototypes *)

Section protos.
Context (chunkarg : list Z) (room : Z) (strip : bool).

(** The prototype that is read back.  Of the flags, those for children,
    varargs and cdata constants are left; the header instruction is made
    anew; the name of the chunk is that of the dump.  The debug information
    has the same bytes, but the places of the upvalue and variable names in it
    are computed. *)
Fixpoint reloaded (name : list Z) (pt : GCproto) : GCproto :=
  let d := dbg_bytes strip pt in
  Proto (Z.land (flags pt) 7) (numparams pt) (framesize pt)
    (BCINS_AD (if hasflag (flags pt) PROTO_VARARG then BC_FUNCV else BC_FUNCF) (framesize pt) 0 :: code pt)
    (map (fun o => match o with
                   | KChild c => KChild (reloaded name c)
                   | KTab array node => KTab (array_slots array) (hash_pairs node)
                   | o => o
                   end) (kgcs pt))
    (kn pt) (uv pt) 0 name
    (if zlen d =? 0 then 0 else firstline pt) (if zlen d =? 0 then 0 else numline pt)
    (if zlen d =? 0 then None
     else Some (Debug d ((zlen (bc pt) - 1) * 4) ((zlen (bc pt) - 1) * 4 + zlen (uv pt)) (dbg_sizes strip pt).2)).

(** A prototype whose fields are in the ranges of their types. *)
Definition readable (pt : GCproto) : Prop :=
  in_u8 (numparams pt) /\ in_u8 (framesize pt) /\ Forall in_u32 (bc pt) /\ Forall in_u16 (uv pt) /\
  Forall kgc_rok (kgcs pt) /\ Forall knum_ok (kn pt) /\ in_i32 (firstline pt) /\ in_i32 (numline pt) /\
  (forall d, dbg pt = Some d -> in_u32 (declname d)) /\
  (forall c, KChild c ∈ kgcs pt -> hasflag (flags pt) PROTO_CHILD = true).

Definition dumpable (pt : GCproto) : Prop := writable strip pt /\ readable pt.

(** The flags of the dump. *)
Definition dflags (ffi : bool) : Z :=
  (if strip then BCDUMP_F_STRIP else 0) + (if ffi then BCDUMP_F_FFI else 0) + LJ_FR2 * BCDUMP_F_FR2.

Lemma dflags_strip ffi : hasflag (dflags ffi) BCDUMP_F_STRIP = strip.
Proof. unfold dflags. by destruct strip, ffi. Qed.

Lemma dflags_swap ffi : bcread_swap (dflags ffi) = false.
Proof. unfold dflags. by destruct strip, ffi. Qed.

Lemma dbg_small pt : writable strip pt -> zlen (dbg_bytes strip pt) <= LJ_MAX_BUF - 39.
Proof.
  intros (Hb & _ & _ & _ & Hg & _ & Hroom & _). unfold info_room in Hroom.
  pose proof (emits_nonneg _ _ _ (kgc_emits (kgcs pt) Hg)). pose proof (zlen_nonneg (uv pt)). pose proof (zlen_nonneg (kn pt)). lia.
Qed.

Definition head_of (pt : GCproto) : phead :=
  let n := (dbg_sizes strip pt).1 in
  Phead (Z.land (flags pt) 7) (numparams pt) (framesize pt) (zlen (uv pt)) (zlen (kgcs pt)) (zlen (kn pt)) (zlen (bc pt))
    n (if n =? 0 then 0 else firstline pt) (if n =? 0 then 0 else numline pt) (if n =? 0 then 0 else (dbg_sizes strip pt).2).

Lemma head_reads ffi pt : dumpable pt -> reads (bcread_phead (dflags ffi)) (proto_head strip pt) (head_of pt).
Proof.
  intros [Hwr (_ & _ & _ & _ & _ & _ & Hfl & Hnl & Hd & _)]. pose proof Hwr as (Hb & Hk & Hn & Hu & _).
  unfold bcread_phead, proto_head, head_of. rewrite dflags_strip.
  pose proof (dbg_sizes_len strip pt) as Hs. assert (Hs1 : 0 <= (dbg_sizes strip pt).1 < 4294967296).
  { pose proof (zlen_nonneg (dbg_bytes strip pt)). pose proof (dbg_small pt Hwr). unfold LJ_MAX_BUF in *. lia. }
  assert (Hs2 : in_u32 (dbg_sizes strip pt).2).
  { unfold dbg_sizes. destruct (dbg pt) as [d|]; [|done]. destruct strip; [done|]. by apply Hd. }
  destruct (dbg_sizes strip pt) as [sizedbg ofs]. cbn [fst snd] in *.
  pose proof (zlen_nonneg (kgcs pt)). pose proof (zlen_nonneg (kn pt)).
  change (Z.lor PROTO_CHILD (Z.lor PROTO_VARARG PROTO_FFI)) with 7.
  do 4 (eapply (reads_bind bcread_byte _ [_]); [apply reads_byte|]; cbn beta).
  do 3 (eapply reads_bind; [apply reads_uleb; unfold in_u32; lia|]; cbn beta).
  replace (zlen (bc pt) - 1 + 1) with (zlen (bc pt)) by lia. rewrite (u32_small (zlen (bc pt))) by (unfold in_u32; lia).
  destruct strip.
  { assert (sizedbg = 0) as -> by (rewrite Hs; unfold dbg_bytes; by destruct (dbg pt)). apply reads_ret. }
  eapply reads_bind; [apply reads_uleb; unfold in_u32; lia|]. cbn beta.
  destruct (Z.eqb_spec sizedbg 0) as [->|Hne]; [apply reads_ret|].
  rewrite <- (uleb_u32 (firstline pt)), <- (uleb_u32 (numline pt)).
  do 2 (eapply reads_bind; [apply reads_uleb, u32_range|]; cbn beta).
  replace (i32 (u32 (firstline pt))) with (firstline pt) by (unfold in_i32 in *; width_lia).
  replace (i32 (u32 (numline pt))) with (numline pt) by (unfold in_i32 in *; width_lia).
  apply (reads_bind_ret bcread_uleb128 (fun o => Phead _ _ _ _ _ _ _ _ _ _ o)), reads_uleb, Hs2.
Qed.

Lemma size_fits pt : writable strip pt ->
  (4294967296 <=? proto_size (zlen (bc pt)) (zlen (kgcs pt)) (zlen (kn pt)) (zlen (uv pt)) (zlen (dbg_bytes strip pt))) = false.
Proof.
  intros Hwr. pose proof (dbg_small pt Hwr) as Hd. destruct Hwr as (Hb & Hk & Hn & Hu & _).
  unfold LJ_MAX_BUF in Hd. unfold proto_size, sizeof_GCproto. apply Z.leb_gt.
  assert ((112 + zlen (bc pt) * 4 + zlen (kgcs pt) * 8 + 7) / 8 * 8 <= 112 + zlen (bc pt) * 4 + zlen (kgcs pt) * 8 + 7) by zlia.
  assert ((zlen (uv pt) + 1) / 2 * 2 <= zlen (uv pt) + 1) by zlia. lia.
Qed.

Lemma zlen_code pt : 1 <= zlen (bc pt) -> zlen (code pt) = zlen (bc pt) - 1.
Proof. intros H. unfold code, zlen in *. destruct (patched pt); rewrite ?length_fmap, length_drop; lia. Qed.

Lemma code_words pt : Forall in_u32 (bc pt) -> Forall in_u32 (code pt).
Proof.
  intros H. assert (Hd : Forall in_u32 (drop 1 (bc pt))) by (by apply Forall_drop). unfold code.
  destruct (patched pt); [|done]. apply Forall_fmap. eapply Forall_impl; [exact Hd|]. intros i Hi. cbn. unfold unpatch1.
  destruct (is_iloop (opcode i)) eqn:E; [|done]. apply is_iloop_pos in E. unfold opcode, u8, in_u32 in *. zlia.
Qed.

Lemma debug_reads ffi pt : dumpable pt ->
  reads (read_debug (dflags ffi) (head_of pt)) (dbg_bytes strip pt) (dbg (reloaded [] pt)).
Proof.
  intros _. unfold read_debug, head_of. cbn [h_sizedbg h_sizebc h_sizeuv h_ofsdeclname]. rewrite dbg_sizes_len.
  destruct pt as [fl np fs b ks ns u tr cn f1 nl d]. cbn [reloaded dbg]. set (pt := Proto fl np fs b ks ns u tr cn f1 nl d).
  destruct (Z.eqb_spec (zlen (dbg_bytes strip pt)) 0) as [E|E].
  - destruct (dbg_bytes strip pt) as [|x l]; [apply reads_ret|]. rewrite zlen_cons in E. pose proof (zlen_nonneg l). lia.
  - rewrite <- (app_nil_r (dbg_bytes strip pt)) at 2. eapply reads_bind.
    + unfold bcread_dbg. rewrite <- (app_nil_r (dbg_bytes strip pt)) at 2. eapply reads_bind; [apply reads_mem|].
      cbn beta. rewrite dflags_swap. apply reads_ret.
    + cbn beta. apply reads_ret.
Qed.

Lemma reloaded_kgcs name pt : kgcs (reloaded name pt) = map (rel_kgc (reloaded name)) (kgcs pt).
Proof. by destruct pt. Qed.

(** Behind its children on the stack, a prototype is read back. *)
Lemma proto_reads ffi name pt st : dumpable pt ->
  reads (lj_bcread_proto chunkarg (dflags ffi) name (kids (reloaded name) (kgcs pt) ++ st)) (proto_bytes strip pt)
    (reloaded name pt, st).
Proof.
  intros Hpt. pose proof Hpt as [Hwr (Hnp & Hfs & Hbc & Huv & Hg & Hn & _)]. pose proof Hwr as (Hb & _ & _ & Hu & _).
  unfold lj_bcread_proto, proto_bytes. eapply reads_bind; [by apply head_reads|]. cbn beta.
  pose proof (dbg_sizes_len strip pt) as Hs.
  unfold head_of at 1 2 3 4 5. cbn [h_flags h_framesize h_sizebc h_sizekgc h_sizekn h_sizeuv h_sizedbg].
  rewrite Hs, (size_fits pt Hwr).
  eapply (reads_bind (bcread_bytecode _ _ _ _)).
  { unfold bcread_bytecode, head_of. cbn [h_flags h_framesize h_sizebc]. rewrite dflags_swap.
    rewrite u32_small by (unfold in_u32; lia).
    replace ((zlen (bc pt) - 1) * 4) with (zlen (ins_bytes (code pt))) by (rewrite zlen_ins, zlen_code; lia).
    apply (reads_bind_ret (bcread_mem _) (fun p => _ :: words4 p)), reads_mem. }
  cbn beta. rewrite (words4_ins _ (code_words pt Hbc)).
  eapply (reads_bind (bcread_uv _ _) _ _ _ (uv pt)).
  { unfold bcread_uv, head_of. cbn [h_sizeuv]. rewrite dflags_swap. destruct (Z.eqb_spec (zlen (uv pt)) 0) as [E|E].
    - replace (uv pt) with (@nil Z) by (destruct (uv pt) as [|x l]; [done|]; rewrite zlen_cons in E; pose proof (zlen_nonneg l); lia).
      apply reads_ret.
    - replace (zlen (uv pt) * 2) with (zlen (uv_bytes (uv pt))) by (rewrite zlen_uv; lia).
      pose proof (reads_bind_ret (bcread_mem _) words2 _ _ (reads_mem (uv_bytes (uv pt)))) as R. rewrite (words2_uv _ Huv) in R. exact R. }
  cbn beta. eapply (reads_bind (bcread_kgc _ _ _)); [by apply kgc_reads|]. cbn beta.
  eapply (reads_bind (bcread_knum _)); [by apply knums_read|]. cbn beta.
  rewrite <- (app_nil_r (dbg_bytes strip pt)). eapply reads_bind; [by apply debug_reads|]. cbn beta. cbn [fst snd].
  assert (E : Proto (h_flags (head_of pt)) (h_numparams (head_of pt)) (h_framesize (head_of pt))
    (BCINS_AD (if hasflag (h_flags (head_of pt)) PROTO_VARARG then BC_FUNCV else BC_FUNCF) (h_framesize (head_of pt)) 0 :: code pt)
    (map (rel_kgc (reloaded name)) (kgcs pt)) (kn pt) (uv pt) 0 name (h_firstline (head_of pt)) (h_numline (head_of pt))
    (dbg (reloaded [] pt)) = reloaded name pt).
  { rewrite <- (reloaded_kgcs name pt). unfold head_of. cbn [h_flags h_numparams h_framesize h_firstline h_numline]. rewrite Hs.
    destruct pt as [fl np fs b ks ns u tr cn f1 nl d]. cbn [reloaded dbg flags numparams framesize kgcs kn uv firstline numline].
    replace (hasflag (Z.land fl 7) PROTO_VARARG) with (hasflag fl PROTO_VARARG); [done|].
    unfold hasflag. by rewrite <- Z.land_assoc. }
  rewrite <- E. apply reads_ret.
Qed.

(** ** The input *)

(** All the bytes still to be read. *)
Definition total (ls : input) : list Z := inp ls ++ concat (pieces ls).

(** The pieces to come are not empty, there is none after the end, and all of
    it fits into a buffer. *)
Definition input_ok (ls : input) : Prop :=
  Forall (fun b => b <> []) (pieces ls) /\ (eof ls = true -> pieces ls = []) /\ zlen (total ls) <= LJ_MAX_BUF.

Lemma zlen_0 {A} (l : list A) : zlen l = 0 -> l = [].
Proof. destruct l as [|x l]; [done|]. rewrite zlen_cons. pose proof (zlen_nonneg l). lia. Qed.

Lemma fill_spec len need l : forall p, Forall (fun b => b <> []) l -> zlen (p ++ concat l) <= LJ_MAX_BUF ->
  len <= LJ_MAX_BUF -> zlen p < len -> (len <= zlen (p ++ concat l) \/ need = false) ->
  exists ls', fill_loop chunkarg p l len need = ROk ls' /\ input_ok ls' /\ total ls' = p ++ concat l /\
    (len <= zlen (inp ls') \/ pieces ls' = []).
Proof.
  induction l as [|buf l IH]; intros p Hne Hmax Hlen Hp Hor; cbn [fill_loop].
  { cbn [concat] in *. rewrite app_nil_r in *. destruct Hor as [Hor|Hor]; [lia|]. rewrite Hor.
    exists (Input p [] true). unfold input_ok, total. cbn [inp pieces eof concat drop]. rewrite app_nil_r. split_and!; try done. by right. }
  apply Forall_cons in Hne as [Hb Hne]. destruct buf as [|x buf]; [done|]. cbn [concat] in *. set (b := x :: buf) in *.
  assert (Ha : append p b len = ROk (p ++ b)).
  { unfold append. destruct (Z.eqb_spec (zlen p) 0) as [E|E]; [by rewrite (zlen_0 p E)|].
    rewrite !zlen_app in Hmax. pose proof (zlen_nonneg p). pose proof (zlen_nonneg b). pose proof (zlen_nonneg (concat l)).
    unfold LJ_MAX_BUF in *. rewrite u32_small by (unfold in_u32; lia). rewrite Z.eqb_refl.
    destruct (Z.ltb_spec (zlen p + zlen b) len);
      match goal with |- context [if ?b then _ else _] => replace b with false by lia end; done. }
  rewrite Ha. cbn [mbind rres_bind]. rewrite app_assoc in *. destruct (Z.ltb_spec (zlen (p ++ b)) len) as [Hl|Hl].
  - apply IH; done.
  - exists (Input (p ++ b) l false). unfold input_ok, total. cbn [inp pieces eof]. split_and!; try done. by left.
Qed.

Lemma refill ls len need : input_ok ls -> len <= LJ_MAX_BUF ->
  (len <= zlen (total ls) \/ (need = false /\ eof ls = false)) ->
  exists ls', (if zlen (inp ls) <? len then bcread_fill chunkarg ls len need else ROk ls) = ROk ls' /\
    input_ok ls' /\ total ls' = total ls /\ (len <= zlen (inp ls') \/ inp ls' = total ls).
Proof.
  intros Hok Hlen Hor. pose proof Hok as (Hne & He & Hmax).
  destruct (Z.ltb_spec (zlen (inp ls)) len) as [Hl|Hl]; [|exists ls; split_and!; try done; by left].
  assert (Ee : eof ls = false).
  { destruct (eof ls) eqn:E; [|done]. destruct Hor as [Hor|[_ Hor]]; [|done].
    unfold total in Hor. rewrite (He eq_refl) in Hor. cbn [concat] in Hor. rewrite app_nil_r in Hor. lia. }
  unfold bcread_fill. rewrite Ee. replace (LJ_MAX_BUF <? len) with false by lia. cbn [orb].
  destruct (fill_spec len need (pieces ls) (inp ls) Hne Hmax Hlen Hl) as (ls' & -> & Hok' & Ht & Hin); [tauto|].
  exists ls'. split_and!; try done. destruct Hin as [Hin|Hin]; [by left|]. right. unfold total in *. rewrite Hin in Ht.
  cbn [concat] in Ht. by rewrite app_nil_r in Ht.
Qed.

(** What was read first is at the front of what is there. *)
Lemma front ls bs rest : total ls = bs ++ rest -> (zlen bs <= zlen (inp ls) \/ inp ls = total ls) ->
  exists r, inp ls = bs ++ r /\ r ++ concat (pieces ls) = rest.
Proof.
  intros Ht Hor. assert (Hl : zlen bs <= zlen (inp ls)).
  { destruct Hor as [H|H]; [done|]. rewrite H, Ht, zlen_app. pose proof (zlen_nonneg rest). lia. }
  exists (drop (length bs) (inp ls)). unfold total in Ht.
  assert (E : take (length bs) (inp ls) = bs).
  { apply (f_equal (take (length bs))) in Ht. rewrite take_app_length, take_app_le in Ht by (unfold zlen in Hl; lia). done. }
  assert (Ei : inp ls = bs ++ drop (length bs) (inp ls)) by (rewrite <- E at 1; by rewrite take_drop).
  split; [exact Ei|]. rewrite Ei, <- app_assoc in Ht. by apply app_inv_head in Ht.
Qed.

(** The input behind what was read. *)
Lemma input_after ls bs rest r : input_ok ls -> total ls = bs ++ rest -> r ++ concat (pieces ls) = rest ->
  input_ok (Input r (pieces ls) (eof ls)) /\ total (Input r (pieces ls) (eof ls)) = rest.
Proof.
  intros (Hne & He & Hmax) Ht Hr. unfold input_ok, total in *. cbn [inp pieces eof]. rewrite Hr.
  rewrite Ht, zlen_app in Hmax. pose proof (zlen_nonneg bs). split_and!; try done. lia.
Qed.

(** ** Dumps *)

Section dump.
Context (ffi : bool) (name : list Z).
Abbreviation PS := (protos chunkarg room).

Lemma uleb_nonzero n : 0 < n < 4294967296 -> exists c l, uleb n = c :: l /\ c <> 0.
Proof.
  intros Hn. destruct (uleb_ok n) as [E _]; [unfold in_u32; lia|]. unfold Strfmt.lj_strfmt_wuleb128 in E.
  rewrite Strfmt.wuleb_S in E. destruct (Z.leb_spec 0x80 n) as [H|H].
  - destruct (Strfmt.wuleb_loop 4 _); [|done]. injection E as <-. rewrite Strfmt.uleb_byte by lia.
    eexists _, _. split; [done|]. zlia.
  - injection E as <-. rewrite u8_small by (unfold in_u8; lia). exists n, []. split; [done|lia].
Qed.

Lemma block_reads pt st fuel ls rest : dumpable pt -> input_ok ls -> total ls = block strip pt ++ rest -> zlen st < room ->
  exists ls', PS (S fuel) (dflags ffi) name ls (kids (reloaded name) (kgcs pt) ++ st) =
      PS fuel (dflags ffi) name ls' (reloaded name pt :: st) /\ input_ok ls' /\ total ls' = rest.
Proof.
  intros Hpt Hok Ht Hroom. pose proof Hpt as [Hwr _]. pose proof (head_len strip pt Hwr) as Hh.
  set (n := zlen (proto_bytes strip pt)). pose proof Hok as (_ & _ & Hmax).
  assert (Hn : 7 <= n <= LJ_MAX_BUF).
  { rewrite Ht in Hmax. unfold block in Hmax. rewrite !zlen_app in Hmax. fold n in Hmax. pose proof (zlen_nonneg rest).
    pose proof (uleb_len n). split; [|lia]. unfold n, proto_bytes. rewrite zlen_app.
    match goal with |- context [zlen ?x + zlen ?y] => pose proof (zlen_nonneg y) end. lia. }
  assert (Hlt : 5 <= zlen (total ls)).
  { rewrite Ht. unfold block. rewrite !zlen_app. fold n. pose proof (uleb_len n). pose proof (zlen_nonneg rest). lia. }
  unfold LJ_MAX_BUF in *. destruct (uleb_nonzero n) as (c & l & Eu & Hc); [lia|].
  unfold block in Ht. fold n in Ht. rewrite <- app_assoc in Ht. cbn [protos].
  assert (E0 : (match inp ls with 0 :: _ => true | _ => false end) = false).
  { destruct (inp ls) as [|c' l'] eqn:Ei; [done|]. unfold total in Ht. rewrite Ei, Eu in Ht. cbn [app] in Ht. injection Ht as -> _.
    by destruct c. }
  rewrite E0. unfold bcread_want.
  destruct (refill ls 5 false Hok) as (ls1 & -> & Hok1 & Ht1 & Hin1); [unfold LJ_MAX_BUF; lia|by left|]. cbn [mbind rres_bind].
  rewrite Ht in Ht1. destruct (front ls1 (uleb n) (proto_bytes strip pt ++ rest) Ht1) as (r1 & Er1 & Hr1).
  { destruct Hin1 as [Hin1|Hin1]; [left; pose proof (uleb_len n); lia|right; congruence]. }
  rewrite Er1, reads_uleb by (unfold in_u32; lia). cbn [mbind rres_bind].
  destruct (input_after ls1 _ _ _ Hok1 Ht1 Hr1) as [Hok2 Ht2]. set (ls2 := Input r1 (pieces ls1) (eof ls1)) in *.
  destruct (Z.eqb_spec n 0) as [|_]; [lia|]. unfold bcread_need.
  destruct (refill ls2 n true Hok2) as (ls3 & -> & Hok3 & Ht3 & Hin3); [unfold LJ_MAX_BUF; lia| |].
  { left. rewrite Ht2, zlen_app. pose proof (zlen_nonneg rest). lia. }
  cbn [mbind rres_bind]. rewrite Ht2 in Ht3, Hin3. destruct (front ls3 (proto_bytes strip pt) rest Ht3) as (r3 & Er3 & Hr3).
  { destruct Hin3 as [Hin3|Hin3]; [by left|right; congruence]. }
  rewrite Er3, (proto_reads ffi name pt st Hpt). cbn [mbind rres_bind fst snd]. rewrite zlen_app. fold n.
  replace (zlen r3 =? n + zlen r3 - n) with true by lia. cbn [negb]. replace (room <=? zlen st) with false by lia.
  destruct (input_after ls3 _ _ _ Hok3 Ht3 Hr3) as [Hok4 Ht4]. by eexists.
Qed.

Lemma kids_none pt : hasflag (flags pt) PROTO_CHILD = false -> dumpable pt -> kids (reloaded name) (kgcs pt) = [].
Proof.
  intros Hf (_ & _ & _ & _ & _ & _ & _ & _ & _ & _ & Hc). unfold kids. revert Hc.
  induction (kgcs pt) as [|o l IH]; intros Hc; [done|]. cbn. destruct o as [|c| | | |]; cbn; try (apply IH; intros c' Hc'; apply (Hc c'); by right).
  specialize (Hc c ltac:(by left)). congruence.
Qed.

Lemma kids_len l : zlen (kids (reloaded name) l) <= zlen (concat (reverse (map (kid_blocks strip) l))).
Proof.
  induction l as [|o l IH]; [done|]. rewrite kid_blocks_cons, zlen_app. pose proof (zlen_nonneg (kid_blocks strip o)).
  unfold kids in *. cbn. destruct o as [|c| | | |]; cbn [kid kid_blocks] in *; try lia.
  rewrite zlen_cons, blocks_eq, zlen_app. change (zlen [block strip c]) with 1.
  match goal with |- context [zlen ?x + 1] => pose proof (zlen_nonneg x) end. lia.
Qed.

Lemma tree_reads pt : every dumpable pt -> forall st fuel ls rest,
  input_ok ls -> total ls = concat (blocks strip pt) ++ rest -> zlen st + zlen (blocks strip pt) <= room ->
  exists ls', PS (length (blocks strip pt) + fuel) (dflags ffi) name ls st =
      PS fuel (dflags ffi) name ls' (reloaded name pt :: st) /\ input_ok ls' /\ total ls' = rest.
Proof.
  induction 1 as [pt Hpt _ IH]. intros st fuel ls rest Hok Ht Hroom. rewrite blocks_eq in *.
  set (kb := if hasflag (flags pt) PROTO_CHILD then concat (reverse (map (kid_blocks strip) (kgcs pt))) else []) in *.
  rewrite length_app, concat_app, <- app_assoc in *. rewrite zlen_app in Hroom. change (zlen [block strip pt]) with 1 in Hroom.
  cbn [length concat] in *. rewrite app_nil_r in *. replace (length kb + 1 + fuel)%nat with (length kb + S fuel)%nat by lia.
  assert (Hkids : exists ls1, PS (length kb + S fuel) (dflags ffi) name ls st =
      PS (S fuel) (dflags ffi) name ls1 (kids (reloaded name) (kgcs pt) ++ st) /\ input_ok ls1 /\ total ls1 = block strip pt ++ rest).
  { unfold kb in *. destruct (hasflag (flags pt) PROTO_CHILD) eqn:Ef.
    2:{ rewrite (kids_none pt Ef Hpt). by exists ls. }
    clear kb Hpt Ef. revert IH Ht Hroom. generalize (block strip pt ++ rest) as rest'. revert ls Hok fuel.
    induction (kgcs pt) as [|o l IHl]; intros ls Hok fuel rest' IH Ht Hroom; [by exists ls|].
    rewrite kid_blocks_cons in *. rewrite length_app, concat_app, <- app_assoc in *. rewrite zlen_app in Hroom.
    pose proof (zlen_nonneg (kid_blocks strip o)) as Hz.
    rewrite <- Nat.add_assoc.
    destruct (IHl ls Hok (length (kid_blocks strip o) + fuel)%nat (concat (kid_blocks strip o) ++ rest')) as (ls1 & E1 & Hok1 & Ht1);
      [intros c Hc; apply IH; by right|done|lia|].
    replace (length (kid_blocks strip o) + S fuel)%nat with (S (length (kid_blocks strip o) + fuel)) by lia. rewrite E1.
    rewrite kids_cons. destruct o as [|c| | | |]; cbn [kid kid_blocks] in *; try (exists ls1; split_and!; done).
    replace (S (length (blocks strip c) + fuel)) with (length (blocks strip c) + S fuel)%nat by lia.
    apply (IH c ltac:(by left) _ _ ls1 rest' Hok1 Ht1).
    rewrite zlen_app. pose proof (kids_len l). lia. }
  destruct Hkids as (ls1 & -> & Hok1 & Ht1). apply (block_reads pt st fuel ls1 rest Hpt Hok1 Ht1).
  pose proof (zlen_nonneg kb). lia.
Qed.

Lemma end_reads fuel ls st : input_ok ls -> total ls = [0] ->
  exists ls', PS (S fuel) (dflags ffi) name ls st = ROk (ls', st) /\ inp ls' = [].
Proof.
  intros Hok Ht. cbn [protos]. pose proof Hok as (Hne & He & _). destruct (inp ls) as [|c l] eqn:Ei.
  - unfold bcread_want. destruct (refill ls 5 false Hok) as (ls1 & E & Hok1 & Ht1 & Hin1); [done| |].
    { right. split; [done|]. destruct (eof ls); [|done]. unfold total in Ht. by rewrite Ei, (He eq_refl) in Ht. }
    rewrite Ei in E |- *. rewrite E. cbn [mbind rres_bind]. rewrite Ht in *.
    destruct (front ls1 [0] [] Ht1) as (r & Er & Hr); [destruct Hin1 as [H|H]; [left; etransitivity; [|exact H]; done|right; congruence]|].
    rewrite Er. rewrite (reads_uleb 0 ltac:(done) r : bcread_uleb128 ([0] ++ r) = _). cbn [mbind rres_bind].
    change (0 =? 0) with true. cbn iota. eexists. split; [done|]. cbn [inp]. by apply app_nil in Hr as [-> _].
  - unfold total in Ht. rewrite Ei in Ht. injection Ht as -> Ht. apply app_nil in Ht as [-> _]. by eexists.
Qed.
End dump.

Lemma header_reads ls pt rest : writable strip pt -> input_ok ls -> eof ls = false ->
  total ls = drop 1 (header_bytes strip pt) ++ rest ->
  exists ls', bcread_header chunkarg ls =
    ROk (Some (dflags (hasflag (flags pt) PROTO_FFI), if strip then chunkarg else chunkname pt), ls') /\
    input_ok ls' /\ total ls' = rest.
Proof.
  intros (_ & _ & _ & _ & _ & _ & _ & Hname) Hok He Ht. unfold LJ_MAX_STR in Hname. pose proof (zlen_nonneg (chunkname pt)) as Hn0.
  unfold bcread_header, bcread_want. destruct (refill ls 13 false Hok) as (ls1 & E & Hok1 & Ht1 & Hin1); [done|by right|].
  change (3 + 5 + 5) with 13. rewrite E. cbn [mbind rres_bind]. rewrite Ht in Ht1, Hin1.
  set (fl := dflags (hasflag (flags pt) PROTO_FFI)).
  set (tl := if strip then [] else uleb (zlen (chunkname pt))).
  set (nm := if strip then [] else chunkname pt).
  assert (Eh : drop 1 (header_bytes strip pt) = ([BCDUMP_HEAD2; BCDUMP_HEAD3; BCDUMP_VERSION; fl] ++ tl) ++ nm).
  { unfold header_bytes, tl, nm, fl, dflags. by destruct strip. }
  rewrite Eh, <- app_assoc in Ht1, Hin1.
  destruct (front ls1 _ _ Ht1) as (r1 & Er1 & Hr1).
  { destruct Hin1 as [H|H]; [left|right; congruence]. unfold tl. rewrite zlen_app. change (zlen [_; _; _; _]) with 4.
    destruct strip; [change (zlen []) with 0; lia|]. pose proof (uleb_len (zlen (chunkname pt))). lia. }
  destruct (input_after ls1 _ _ _ Hok1 Ht1 Hr1) as [Hok2 Ht2].
  rewrite Er1, <- app_assoc. change (bcread_magic ([BCDUMP_HEAD2; BCDUMP_HEAD3; BCDUMP_VERSION; fl] ++ tl ++ r1)) with
    (@ROk (bool * list Z) (true, [fl] ++ tl ++ r1)). cbn [mbind rres_bind negb].
  assert (Hf : 0 <= fl < 128 /\ Z.land fl (Z.lnot BCDUMP_F_KNOWN) = 0 /\ Z.land fl BCDUMP_F_FR2 = LJ_FR2 * BCDUMP_F_FR2).
  { unfold fl, dflags. by destruct strip, (hasflag (flags pt) PROTO_FFI). }
  destruct Hf as (Hf1 & Hf2 & Hf3). pose proof (reads_uleb fl ltac:(unfold in_u32; lia) (tl ++ r1)) as Rf.
  rewrite (uleb_small fl Hf1) in Rf. rewrite Rf. cbn [mbind rres_bind]. rewrite Hf2, Hf3, !Z.eqb_refl. cbn [negb orb].
  unfold fl at 1. rewrite dflags_strip. unfold tl, nm in *. clear tl nm. destruct strip; cbn [app] in *.
  { by eexists. }
  rewrite reads_uleb by (unfold in_u32; lia). cbn [mbind rres_bind]. unfold bcread_need.
  destruct (refill _ (zlen (chunkname pt)) true Hok2) as (ls3 & -> & Hok3 & Ht3 & Hin3); [unfold LJ_MAX_BUF; lia| |].
  { left. rewrite Ht2, zlen_app. pose proof (zlen_nonneg rest). lia. }
  cbn [mbind rres_bind]. rewrite Ht2 in Ht3, Hin3. destruct (front ls3 (chunkname pt) rest Ht3) as (r3 & Er3 & Hr3).
  { destruct Hin3 as [H|H]; [by left|right; congruence]. }
  rewrite Er3, reads_str by (unfold LJ_MAX_STR; lia). cbn [mbind rres_bind].
  destruct (input_after ls3 _ _ _ Hok3 Ht3 Hr3) as [Hok4 Ht4]. by eexists.
Qed.

(** The root comes back, whatever pieces the dump comes in. *)
Lemma bcread_spec ls pt : every dumpable pt -> input_ok ls -> eof ls = false ->
  total ls = drop 1 (concat (dump strip pt)) -> zlen (blocks strip pt) <= room ->
  lj_bcread chunkarg room ls = ROk (reloaded (if strip then chunkarg else chunkname pt) pt).
Proof.
  intros Hev Hok He Ht Hroom. assert (Hwr : writable strip pt) by (by inversion Hev as [? [H _] _]).
  unfold dump in Ht. cbn [concat] in Ht. unfold lj_bcread.
  destruct (header_reads ls pt (concat (blocks strip pt ++ [[0]])) Hwr Hok He) as (ls1 & -> & Hok1 & Ht1).
  { rewrite Ht. unfold header_bytes. by cbn [app drop]. }
  cbn [mbind rres_bind]. rewrite concat_app in Ht1. change (concat [[0]]) with [0] in Ht1.
  assert (Hlen : (length (blocks strip pt) < length (inp ls1) + length (concat (pieces ls1)))%nat).
  { rewrite <- length_app. change (inp ls1 ++ concat (pieces ls1)) with (total ls1). rewrite Ht1, length_app.
    assert (Hb : Forall (fun b => b <> []) (blocks strip pt)).
    { clear -Hev. induction Hev as [pt _ _ IH]. rewrite blocks_eq. apply Forall_app. split.
      - destruct (hasflag _ _); [|constructor]. revert IH. induction (kgcs pt) as [|o l IHl]; intros IH; [constructor|].
        rewrite kid_blocks_cons. apply Forall_app. split; [apply IHl; intros c Hc; apply IH; by right|].
        destruct o as [|c| | | |]; try constructor. apply IH. by left.
      - repeat constructor. unfold block. intros [E _]%app_nil. by apply uleb_ne in E. }
    pose proof (concat_long (fun b : list Z => b) (blocks strip pt) Hb) as Hl. rewrite list_fmap_id in Hl. cbn [length]. lia. }
  set (f := S (length (inp ls1) + length (concat (pieces ls1)))).
  replace f with (length (blocks strip pt) + S (f - length (blocks strip pt) - 1))%nat by (unfold f; lia).
  destruct (tree_reads (hasflag (flags pt) PROTO_FFI) (if strip then chunkarg else chunkname pt) pt Hev []
    (S (f - length (blocks strip pt) - 1)) ls1 [0] Hok1 Ht1) as (ls2 & -> & Hok2 & Ht2); [done|].
  destruct (end_reads (hasflag (flags pt) PROTO_FFI) (if strip then chunkarg else chunkname pt) (f - length (blocks strip pt) - 1)
    ls2 [reloaded (if strip then chunkarg else chunkname pt) pt] Hok2 Ht2) as (ls3 & -> & Hi3).
  cbn [mbind rres_bind]. rewrite Hi3. by change (0 <? i32 (2 * u32 (zlen []))) with false.
Qed.
End protos.

Lemma every_impl (P Q : GCproto -> Prop) pt : (forall p, P p -> Q p) -> every P pt -> every Q pt.
Proof. intros H. induction 1 as [pt Hp _ IH]. constructor; [by apply H|exact IH]. Qed.

(** C4: Dump round trip.  For every tree of prototypes within the limits of
    the format and without compiled loops: the writer hands the header, the
    prototypes (children before parents) and the end mark to any writer
    function until that reports an error, and returns its status;
    [string.dump] returns their concatenation; and from it, in whatever
    pieces it comes, the reader makes the tree again.  Its constants,
    upvalues, lines and code are those that were dumped, switched-off loops
    being switched on again. *)
Theorem bcdump_roundtrip (startins : Z -> option Z) (W : Type) (wfunc : W -> list Z -> W * Z) (wdata : W)
    (strip : bool) (pt : GCproto) (chunkarg : list Z) (room : Z)
    (Hpt : every (dumpable strip) pt) (Hmax : zlen (concat (dump strip pt)) <= LJ_MAX_BUF)
    (Hroom : zlen (blocks strip pt) <= room) :
  lj_bcwrite startins W wfunc strip pt wdata = SOk (foldl (feed1 wfunc) (wdata, 0) (dump strip pt)) /\
  (forall tmp, plain (lj_buf_reset tmp) [] -> string_dump startins tmp pt strip = Some (concat (dump strip pt))) /\
  (forall p l, Forall (fun b => b <> []) l -> BCDUMP_HEAD1 :: p ++ concat l = concat (dump strip pt) ->
     lj_bcread chunkarg room (Input p l false) = ROk (reloaded strip (if strip then chunkarg else chunkname pt) pt)).
Proof.
  assert (Hwr : every (writable strip) pt) by (apply (every_impl (dumpable strip)); [by intros p []|done]).
  split; [by apply bcwrite_spec|]. split; [intros tmp Ht; by apply string_dump_spec|]. intros p l Hl E.
  apply bcread_spec; try done.
  - unfold input_ok, total. cbn [inp pieces eof]. split_and!; try done. rewrite <- E, zlen_cons in Hmax. lia.
  - unfold total. cbn [inp pieces]. by rewrite <- E.
Qed.

(** A function with a string, a template table, a 64-bit integer and an inner
    function with a loop that was switched off. *)
Definition sample_child : GCproto :=
  Proto 16 1 2 [BCINS_AD BC_FUNCF 2 0; 0x12345650; 0x4b] [KStr [104; 105]] [] [0x8000] 0 [61; 115] 3 1
    (Some (Debug [3; 0; 0; 0; 3; 0; 0; 0; 3; 0; 0; 0; 4; 0; 0; 0; 120; 0; 0; 102; 0] 16 18 19)).
Definition sample_proto : GCproto :=
  Proto 3 0 5 [BCINS_AD BC_FUNCV 5 0; 0x33; 0x4b]
    [KTab [ONil; ONum (Tab.num_of_int (-7)); ONil] [(OStr [120], OTrue); (ONil, ONil)];
     KChild sample_child; KI64 0xfffffffffffffff0]
    [Tab.num_of_int (-5); 0x3ff8000080000001] [] 0 [61; 115] 1 9 None.

Lemma sample_dumpable : every (dumpable false) sample_proto.
Proof.
  assert (Hn : forall k, k ∈ [-7; -5] -> in_u64 (Tab.num_of_int k) /\ Tab.num_of_int k <> 2 ^ 63).
  { apply Forall_forall. repeat constructor; vm_compute; congruence. }
  assert (Hw : forall pt, pt ∈ [sample_proto; sample_child] -> writable false pt).
  { apply Forall_forall. repeat apply Forall_cons_2; [| |constructor]; unfold writable;
      (split; [vm_compute; split; congruence|]); do 3 (split; [vm_compute; congruence|]);
      (split; [repeat constructor|]); (split; [vm_compute; intros; repeat constructor|]); split; vm_compute; congruence. }
  constructor.
  - split; [apply Hw; by left|]. unfold readable. do 2 (split; [vm_compute; split; congruence|]).
    do 2 (split; [repeat constructor; vm_compute; congruence|]). split.
    { constructor; [|repeat constructor; vm_compute; congruence]. cbn [kgc_rok]. split_and!.
      - change (array_slots _) with [ONil; ONum (Tab.num_of_int (-7))]. constructor; [done|].
        constructor; [apply (Hn (-7)); by left|done].
      - repeat constructor.
      - vm_compute. congruence.
      - vm_compute. congruence.
      - by repeat constructor. }
    split.
    { destruct (Hn (-5)) as [N1 N2]; [right; by left|]. constructor; [by split; [|right]|].
      constructor; [|constructor]. split; [vm_compute; split; congruence|right; vm_compute; congruence]. }
    do 2 (split; [vm_compute; split; congruence|]). done.
  - intros c [E|[E|[E|E]%elem_of_cons]%elem_of_cons]%elem_of_cons;
      [discriminate E|injection E as ->|discriminate E|by apply elem_of_nil in E].
    constructor; [|intros c [E|E]%elem_of_cons; [discriminate E|by apply elem_of_nil in E]].
    split; [apply Hw; right; by left|]. unfold readable. do 2 (split; [vm_compute; split; congruence|]).
    do 4 (split; [repeat constructor; vm_compute; congruence|]). do 2 (split; [vm_compute; split; congruence|]).
    split; [intros d [= <-]; vm_compute; split; congruence|].
    intros c [E|E]%elem_of_cons; [discriminate E|by apply elem_of_nil in E].
Qed.

(** It is dumped and loaded in pieces of one and more bytes. *)
Lemma bcdump_roundtrip_witness :
  string_dump (fun _ => None) lj_buf_init sample_proto false = Some (concat (dump false sample_proto)) /\
  lj_bcread [61; 120] 100 (Input [] ((fun c => [c]) <$> drop 1 (concat (dump false sample_proto))) false) =
    ROk (reloaded false [61; 115] sample_proto).
Proof.
  destruct (bcdump_roundtrip (fun _ => None) unit (fun _ _ => (tt, 0)) tt false sample_proto [61; 120] 100
    sample_dumpable) as (_ & Hs & Hr); [by vm_compute|by vm_compute|]. split.
  - apply Hs. by exists [].
  - apply (Hr [] ((fun c => [c]) <$> drop 1 (concat (dump false sample_proto))));
      [apply Forall_fmap, Forall_forall; discriminate|by vm_compute].
Defined.

(** A compiled loop stays compiled in the dump: where the prototype has one of
    the instructions [JFORL], [JITERL] and [JLOOP], which name a trace of
    this process, so has the dump, although the code means to put the
    original instruction there. *)
Theorem compiled_loops_dumped startins sb c pt sb' i ins :
  plain sb c -> 4 * (zlen (bc pt) - 1) <= sbufleft sb -> bcwrite_bytecode startins sb pt = SOk sb' ->
  drop 1 (bc pt) !! i = Some ins -> is_jloop (opcode ins) = true ->
  peek (mem sb') (w sb + 4 * Z.of_nat i) = Some (opcode ins).
Proof.
  intros H Hl Hb Hi Hj. set (l := drop 1 (bc pt)) in *.
  assert (Hlen : zlen l <= zlen (bc pt) - 1).
  { pose proof (lookup_lt_Some _ _ _ Hi). unfold l, zlen in *. rewrite length_drop in *. lia. }
  destruct (put_plain (ins_bytes l) sb c H) as (sb1 & E & (post & Hm & Hw & _) & _); [rewrite zlen_ins; lia|].
  destruct H as (post0 & _ & Hw0 & _).
  assert (Hcell : peek (mem sb1) (w sb + 4 * Z.of_nat i) = Some (opcode ins)).
  { rewrite Hm, Hw0. unfold peek. clearbody l. clear -Hi. revert c i Hi. induction l as [|x l IH]; intros c i Hi; [done|].
    rewrite ins_cons, fmap_app, <- app_assoc. destruct i as [|i].
    - injection Hi as ->. rewrite <- app_assoc, Z.mul_0_r, Z.add_0_r. 
      change (Some <$> bytes_le 4 ins) with (Some (opcode ins) :: (Some <$> drop 1 (bytes_le 4 ins))). cbn [app]. by rewrite zget_middle.
    - specialize (IH (c ++ (Some <$> bytes_le 4 x)) i Hi). rewrite zlen_app, <- !app_assoc in IH.
      replace (zlen (Some <$> bytes_le 4 x)) with 4 in IH by done.
      replace (zlen c + 4 * Z.of_nat (S i)) with (zlen c + 4 + 4 * Z.of_nat i) by lia. rewrite <- !app_assoc. exact IH. }
  unfold bcwrite_bytecode in Hb. fold l in Hb. rewrite E in Hb. cbn [lift mbind sres_bind] in Hb.
  destruct (hasflag (flags pt) PROTO_ILOOP || negb (trace pt =? 0)); [|by injection Hb as <-].
  destruct (unpatch startins (length l) (mem sb1) (w sb) (w sb1)) as [m|] eqn:Eu; [|done]. injection Hb as <-. cbn [set_mem mem].
  pose proof (lookup_lt_Some _ _ _ Hi) as Hlt. rewrite zlen_app, Buf.zlen_fmap, zlen_ins in Hw. unfold zlen at 2 in Hw.
  unfold peek. rewrite (unpatch_frame startins _ _ _ _ _ Eu ltac:(lia) (w sb + 4 * Z.of_nat i) ltac:(lia)); [exact Hcell|].
  intros op Hop. rewrite Hcell in Hop. injection Hop as <-. unfold is_jloop, is_iloop in *.
  unfold BC_JFORL, BC_JITERL, BC_JLOOP, BC_IFORL, BC_IITERL, BC_ILOOP, BC_JFORI in *. lia.
Qed.
End BcSpec.
