(* ===== verification/LjDebugInfo.v ===== *)
(** * LjDebugInfo

    The debug information of a function: the parser writes it ([fs_prep_line],
    [fs_prep_var] and the fixups of [lj_parse.c]), [lj_debug.c] looks up lines,
    upvalue names and local variables in it, and the reader of dumps finds its
    parts again.  Lookups on what the parser wrote are right; after a dump was
    loaded, lines are, but names are looked for in the wrong place. *)
From stdpp Require Import base tactics numbers list.
From Stdlib Require Import ZArith Lia.
From S2P Require Import Prelude LjStr LjBuf LjStrfmt LjTab LjTabNext LjSerialize LjSerializeSpec LjBcdump LjBcdumpFormat LjBcdumpSpec.
Import Buf Serialize Bcdump BcFormat BcSpec.
Open Scope Z_scope.

Module DebugInfo.

(** ** What the parser writes *)

(** A variable is named by a string, or by a number if the compiler made it. *)
Inductive vname := VFixed (n : Z) | VName (s : list Z).

(** An entry of the stack of variables; gotos and labels lie there too. *)
Record VarInfo := Var { v_name : vname; startpc : Z; endpc : Z; isgotolabel : bool }.

Definition VARNAME_END : Z := 0.
Definition VARNAME__MAX : Z := 7.

Definition name_bytes (n : vname) : list Z :=
  match n with VFixed n => [n] | VName s => s ++ [0] end.

(** Local variable names and compressed ranges. *)
Fixpoint prep_vars (lastpc : Z) (vs : list VarInfo) : list Z :=
  match vs with
  | [] => []
  | v :: vs' =>
      if isgotolabel v then prep_vars lastpc vs'
      else name_bytes (v_name v) ++ uleb (startpc v - lastpc) ++ uleb (endpc v - startpc v) ++ prep_vars (startpc v) vs'
  end.

(** The upvalue names, each with its NUL. *)
Definition prep_uvnames (uvnames : list (list Z)) : list Z := concat ((fun s => s ++ [0]) <$> uvnames).

(** The temporary buffer, [ofsvar] and [ofsdeclname]. *)
Definition fs_prep_var (uvnames : list (list Z)) (vs : list VarInfo) (decl : list Z) : list Z * Z * Z :=
  let un := prep_uvnames uvnames in
  let vars := prep_vars 0 vs ++ [0] in
  (un ++ vars ++ decl ++ [0], zlen un, zlen un + zlen vars).

(** The lines in front, one more than there are instructions (the decoded
    entries, without the width [fs_prep_line] picks for them), and the pointers
    as the fixups set them. *)
Definition fs_debug (lines : list Z) (uvnames : list (list Z)) (vs : list VarInfo) (decl : list Z) : debug :=
  let '(bytes, ofsvar, ofsdecl) := fs_prep_var uvnames vs decl in
  let ofsdbg := zlen lines * 4 in
  Debug (ins_bytes lines ++ bytes) ofsdbg (ofsdbg + ofsvar) (ofsdbg + ofsdecl).

(** ** Lookups *)

Definition read_uleb (p : list Z) : option (Z * list Z) :=
  match lj_buf_ruleb128 p 0 with Some (v, i) => Some (v, drop (Z.to_nat i) p) | None => None end.

(** The names of the variables the compiler makes. *)
Definition VARNAMES : list Z :=
  [40; 102; 111; 114; 32; 105; 110; 100; 101; 120; 41; 0;
   40; 102; 111; 114; 32; 108; 105; 109; 105; 116; 41; 0;
   40; 102; 111; 114; 32; 115; 116; 101; 112; 41; 0;
   40; 102; 111; 114; 32; 103; 101; 110; 101; 114; 97; 116; 111; 114; 41; 0;
   40; 102; 111; 114; 32; 115; 116; 97; 116; 101; 41; 0;
   40; 102; 111; 114; 32; 99; 111; 110; 116; 114; 111; 108; 41; 0].

Definition fixed_name (vn : Z) : option (list Z) :=
  p ← (if vn - 1 =? 0 then Some VARNAMES else skip_names VARNAMES (vn - 1)); cstring p.

(** Up to the NUL behind a name. *)
Fixpoint skip_name (p : list Z) : option (list Z) :=
  match p with [] => None | c :: p' => if c =? 0 then Some p else skip_name p' end.

(** [None] when the loop reads outside the debug information; every round
    takes a byte at least. *)
Fixpoint varname_loop (fuel : nat) (p : list Z) (lastpc pc slot : Z) : option (option (list Z)) :=
  match fuel with
  | O => None
  | S fuel' =>
      let name := p in
      vn ← head p;
      if (vn <? VARNAME__MAX) && (vn =? VARNAME_END) then Some None
      else
        p ← (if vn <? VARNAME__MAX then Some p else skip_name (drop 1 p));
        let p := drop 1 p in
        '(d, p) ← read_uleb p;
        let start := u32 (lastpc + d) in
        if pc <? start then Some None
        else
          '(n, p) ← read_uleb p;
          if pc <? u32 (start + n) then
            if slot =? 0 then
              s ← (if vn <? VARNAME__MAX then fixed_name vn else cstring name); Some (Some s)
            else varname_loop fuel' p start pc (slot - 1)
          else varname_loop fuel' p start pc slot
  end.

Definition debug_varname (pt : GCproto) (pc slot : Z) : option (option (list Z)) :=
  match dbg pt with
  | None => Some None
  | Some d => let p := drop (Z.to_nat (varinfo d)) (dbg_mem d) in varname_loop (S (length p)) p 0 pc slot
  end.

Definition lj_debug_line (pt : GCproto) (pc : Z) : option Z :=
  match dbg pt with
  | Some d =>
      if pc <=? zlen (bc pt) then i32 ∘ fst <$> word_le 4 (drop (Z.to_nat (pc * 4)) (dbg_mem d)) else Some 0
  | None => Some 0
  end.

(** ** Lookups on what the parser wrote *)

Lemma read_uleb_spec v rest : in_u32 v -> read_uleb (uleb v ++ rest) = Some (v, rest).
Proof.
  intros Hv. pose proof (reads_uleb v Hv rest) as H. unfold bcread_uleb128, read_uleb in *.
  destruct (lj_buf_ruleb128 (uleb v ++ rest) 0) as [[x i]|]; [|done]. by injection H as -> ->.
Qed.

(** Names as C strings. *)
Definition cname (s : list Z) : Prop := Forall (fun c => c <> 0) s.

Lemma cstring_spec s rest : cname s -> cstring (s ++ 0 :: rest) = Some s.
Proof.
  induction 1 as [|c s Hc _ IH]; [done|]. cbn [app cstring]. destruct (Z.eqb_spec c 0); [done|]. by rewrite IH.
Qed.

Lemma skip_name_spec s rest : cname s -> skip_name (s ++ 0 :: rest) = Some (0 :: rest).
Proof.
  induction 1 as [|c s Hc _ IH]; [done|]. cbn [app skip_name]. by destruct (Z.eqb_spec c 0).
Qed.

Lemma skip_names_one s rest idx : cname s ->
  skip_names (s ++ 0 :: rest) idx = if idx - 1 =? 0 then Some rest else skip_names rest (idx - 1).
Proof.
  induction 1 as [|c s Hc _ IH]; [done|]. cbn [app skip_names]. destruct (Z.eqb_spec c 0); [done|]. cbn [negb]. exact IH.
Qed.

Lemma skip_names_spec l : forall idx rest, Forall cname l -> 1 <= idx <= zlen l ->
  skip_names (prep_uvnames l ++ rest) idx = Some (prep_uvnames (drop (Z.to_nat idx) l) ++ rest).
Proof.
  induction l as [|s l IH]; intros idx rest H Hi; [change (zlen []) with 0 in Hi; lia|].
  apply Forall_cons in H as [Hs Hl]. rewrite zlen_cons in Hi.
  change (prep_uvnames (s :: l)) with ((s ++ [0]) ++ prep_uvnames l). rewrite <- !app_assoc. cbn [app].
  rewrite skip_names_one by done. destruct (Z.eqb_spec (idx - 1) 0) as [E|E].
  - replace idx with 1 by lia. done.
  - rewrite IH by (done || lia). by replace (Z.to_nat idx) with (S (Z.to_nat (idx - 1))) by lia.
Qed.

(** The name of upvalue [idx], whatever is behind the names. *)
Lemma uvname_spec l idx s rest : Forall cname l -> 0 <= idx -> l !! Z.to_nat idx = Some s ->
  (p ← (if idx =? 0 then Some (prep_uvnames l ++ rest) else skip_names (prep_uvnames l ++ rest) idx); cstring p) = Some s.
Proof.
  intros Hl Hi Hs. pose proof (lookup_lt_Some _ _ _ Hs) as Hlt.
  assert (Hd : cstring (prep_uvnames (drop (Z.to_nat idx) l) ++ rest) = Some s).
  { rewrite (drop_S _ _ _ Hs). change (prep_uvnames (s :: ?l)) with ((s ++ [0]) ++ prep_uvnames l).
    rewrite <- !app_assoc. cbn [app]. apply cstring_spec. by eapply (Forall_lookup_1 cname). }
  destruct (Z.eqb_spec idx 0) as [->|Hne]; [exact Hd|]. rewrite skip_names_spec; [exact Hd|done|].
  unfold zlen. lia.
Qed.

(** *** Local variables *)

(** The printed name of a variable. *)
Definition name_str (n : vname) : list Z :=
  match n with VName s => s | VFixed n => default [] (fixed_name n) end.

Definition vname_ok (n : vname) : Prop :=
  match n with
  | VFixed n => VARNAME_END < n < VARNAME__MAX
  | VName s => cname s /\ exists c s', s = c :: s' /\ VARNAME__MAX <= c
  end.

Definition var_ok (v : VarInfo) : Prop := vname_ok (v_name v) /\ 0 <= startpc v <= endpc v /\ endpc v < 4294967296.

(** The variables come into scope in the order of the stack. *)
Fixpoint ordered (lastpc : Z) (vs : list VarInfo) : Prop :=
  match vs with
  | [] => True
  | v :: vs' => if isgotolabel v then ordered lastpc vs' else lastpc <= startpc v /\ ordered (startpc v) vs'
  end.

Definition live (pc : Z) (v : VarInfo) : Prop := isgotolabel v = false /\ startpc v <= pc < endpc v.
#[global] Instance live_dec pc v : Decision (live pc v) := ltac:(unfold live; apply _).

(** The names of the variables in scope at an instruction. *)
Definition in_scope (pc : Z) (vs : list VarInfo) : list (list Z) := (name_str ∘ v_name) <$> filter (live pc) vs.

Lemma not_yet pc vs : forall lastpc, ordered lastpc vs -> pc < lastpc -> in_scope pc vs = [].
Proof.
  unfold in_scope. induction vs as [|v vs IH]; intros lastpc Ho Hp; [done|]. cbn [ordered] in Ho. rewrite filter_cons.
  destruct (isgotolabel v) eqn:Eg.
  - rewrite decide_False by (intros [? _]; congruence). by apply (IH lastpc).
  - destruct Ho as [H1 H2]. rewrite decide_False by (intros [_ ?]; lia). apply (IH (startpc v)); [done|lia].
Qed.

Lemma fixed_name_some n : VARNAME_END < n < VARNAME__MAX -> fixed_name n = Some (name_str (VFixed n)).
Proof.
  intros Hn. assert (Hi : n ∈ seqZ 1 6) by (apply elem_of_seqZ; unfold VARNAME_END, VARNAME__MAX in Hn; lia).
  revert Hi. clear. revert n. apply Forall_forall. by repeat constructor.
Qed.

(** One entry: its name is found, and the rest is behind it. *)
Lemma name_entry n rest : vname_ok n ->
  exists vn l, name_bytes n ++ rest = vn :: l /\ vn <> VARNAME_END /\
    (if vn <? VARNAME__MAX then Some (vn :: l) else skip_name l) = Some ((if vn <? VARNAME__MAX then vn else 0) :: rest) /\
    (if vn <? VARNAME__MAX then fixed_name vn else cstring (vn :: l)) = Some (name_str n).
Proof.
  destruct n as [n|s]; cbn [vname_ok name_bytes].
  - intros Hn. exists n, rest. unfold VARNAME_END, VARNAME__MAX in *. replace (n <? 7) with true by lia.
    split_and!; [done|lia|done|by apply fixed_name_some].
  - intros [Hs (c & s' & -> & Hc)]. rewrite <- app_assoc. exists c, (s' ++ 0 :: rest). unfold VARNAME_END, VARNAME__MAX in *.
    replace (c <? 7) with false by lia. split_and!; [done|lia| |].
    + apply skip_name_spec. by apply Forall_cons in Hs as [_ Hs].
    + by apply (cstring_spec (c :: s')).
Qed.

Lemma varname_loop_spec pc vs rest : forall fuel lastpc slot, Forall var_ok vs -> ordered lastpc vs -> 0 <= lastpc -> 0 <= slot ->
  (length (prep_vars lastpc vs) < fuel)%nat ->
  varname_loop fuel (prep_vars lastpc vs ++ 0 :: rest) lastpc pc slot = Some (in_scope pc vs !! Z.to_nat slot).
Proof.
  induction vs as [|v vs IH]; intros fuel lastpc slot Hok Ho Hl Hs Hf; (destruct fuel as [|fuel]; [lia|]).
  { cbn. by rewrite lookup_nil. }
  apply Forall_cons in Hok as [[Hn Hr] Hok]. cbn [prep_vars ordered length] in *. unfold in_scope. rewrite filter_cons.
  destruct (isgotolabel v) eqn:Eg.
  { rewrite decide_False by (intros [? _]; congruence). apply IH; (done || lia). }
  destruct Ho as [Ho1 Ho2]. rewrite <- !app_assoc.
  destruct (name_entry (v_name v) (uleb (startpc v - lastpc) ++ uleb (endpc v - startpc v) ++ prep_vars (startpc v) vs ++ 0 :: rest) Hn)
    as (vn & l & El & Hvn & Hskip & Hname).
  assert (Hf' : (length (prep_vars (startpc v) vs) < fuel)%nat).
  { rewrite !length_app in Hf. pose proof (uleb_len (startpc v - lastpc)). unfold zlen in *. lia. }
  rewrite El. cbn [varname_loop head mbind option_bind drop]. destruct (Z.eqb_spec vn VARNAME_END) as [|_]; [done|].
  rewrite andb_false_r. rewrite ?drop_0, Hskip. cbn [mbind option_bind drop]. rewrite ?drop_0.
  rewrite read_uleb_spec by (unfold in_u32; lia). cbn [mbind option_bind].
  replace (u32 (lastpc + (startpc v - lastpc))) with (startpc v) by (rewrite u32_small; [lia|unfold in_u32; lia]).
  destruct (Z.ltb_spec pc (startpc v)) as [Hp|Hp].
  - rewrite decide_False by (intros [_ ?]; lia). fold (in_scope pc vs). by rewrite (not_yet pc vs (startpc v) Ho2 Hp), lookup_nil.
  - rewrite read_uleb_spec by (unfold in_u32; lia). cbn [mbind option_bind].
    replace (u32 (startpc v + (endpc v - startpc v))) with (endpc v) by (rewrite u32_small; [lia|unfold in_u32; lia]).
    destruct (Z.ltb_spec pc (endpc v)) as [He|He].
    + rewrite decide_True by (done || lia). cbn [fmap list_fmap]. destruct (Z.eqb_spec slot 0) as [->|Hsl].
      * rewrite Hname. done.
      * rewrite IH by (done || lia). by replace (Z.to_nat slot) with (S (Z.to_nat (slot - 1))) by lia.
    + rewrite decide_False by (intros [_ ?]; lia). apply IH; (done || lia).
Qed.

(** *** The lookups *)

Section compiled.
Context (pt : GCproto) (lines : list Z) (uvnames : list (list Z)) (vs : list VarInfo) (decl : list Z).
Context (Hdbg : dbg pt = Some (fs_debug lines uvnames vs decl)).

Lemma line_at pc line : Forall (fun l => 0 <= l < 2147483648) lines -> 0 <= pc <= zlen (bc pt) ->
  lines !! Z.to_nat pc = Some line -> lj_debug_line pt pc = Some line.
Proof using Hdbg.
  intros Hl Hpc Hi. unfold lj_debug_line. rewrite Hdbg. replace (pc <=? zlen (bc pt)) with true by lia.
  cbn [fs_debug fs_prep_var dbg_mem]. set (rest := prep_uvnames uvnames ++ _).
  assert (Hd : drop (Z.to_nat (pc * 4)) (ins_bytes lines ++ rest) = bytes_le 4 line ++ ins_bytes (drop (S (Z.to_nat pc)) lines) ++ rest).
  { rewrite <- (take_drop_middle lines _ _ Hi) at 1. unfold ins_bytes. rewrite fmap_app, concat_app, <- app_assoc.
    assert (Hz : zlen (ins_bytes (take (Z.to_nat pc) lines)) = pc * 4).
    { rewrite zlen_ins. unfold zlen. rewrite length_take. pose proof (lookup_lt_Some _ _ _ Hi). lia. }
    rewrite <- Hz. unfold zlen. rewrite Nat2Z.id. unfold ins_bytes. rewrite drop_app_length. cbn [fmap list_fmap concat]. by rewrite <- app_assoc. }
  rewrite Hd. pose proof (Forall_lookup_1 _ _ _ _ Hl Hi) as Hr. cbn beta in Hr.
  rewrite SerializeSpec.word_bytes by (change (256 ^ Z.of_nat 4) with 4294967296; lia). cbn. f_equal. width_lia.
Qed.

Lemma uvname_at idx s : Forall cname uvnames -> 0 <= idx -> uvnames !! Z.to_nat idx = Some s ->
  lj_debug_uvname pt idx = Some s.
Proof using Hdbg.
  intros Hn Hi Hs. unfold lj_debug_uvname. rewrite Hdbg. cbn [fs_debug fs_prep_var dbg_mem uvinfo].
  replace (zlen lines * 4) with (zlen (ins_bytes lines)) by (rewrite zlen_ins; lia).
  unfold zlen. rewrite Nat2Z.id, drop_app_length. by apply uvname_spec.
Qed.

Lemma varname_at pc slot : Forall var_ok vs -> ordered 0 vs -> 0 <= slot ->
  debug_varname pt pc slot = Some (in_scope pc vs !! Z.to_nat slot).
Proof using Hdbg.
  intros Hv Ho Hs. unfold debug_varname. rewrite Hdbg. cbn [fs_debug fs_prep_var dbg_mem varinfo].
  replace (zlen lines * 4 + zlen (prep_uvnames uvnames)) with (zlen (ins_bytes lines ++ prep_uvnames uvnames))
    by (rewrite zlen_app, zlen_ins; lia).
  rewrite app_assoc. unfold zlen. rewrite Nat2Z.id, drop_app_length, <- app_assoc. cbn [app].
  apply varname_loop_spec; try (done || lia). rewrite length_app. lia.
Qed.
End compiled.

(** C20: Debug lookups are right.  In a function whose debug information was
    laid out by the parser, every instruction has the line it was compiled
    for, every upvalue its name, and the [slot]-th variable in scope at an
    instruction is found by walking the compressed ranges: the one with that
    rank among the variables that have started and not ended there, or none. *)
Theorem debug_lookup_correct (pt : GCproto) (lines : list Z) (uvnames : list (list Z)) (vs : list VarInfo) (decl : list Z)
    (Hdbg : dbg pt = Some (fs_debug lines uvnames vs decl)) (Hlines : Forall (fun l => 0 <= l < 2147483648) lines)
    (Hnames : Forall cname uvnames) (Hvars : Forall var_ok vs) (Hord : ordered 0 vs) :
  (forall pc line, 0 <= pc <= zlen (bc pt) -> lines !! Z.to_nat pc = Some line -> lj_debug_line pt pc = Some line) /\
  (forall idx s, 0 <= idx -> uvnames !! Z.to_nat idx = Some s -> lj_debug_uvname pt idx = Some s) /\
  (forall pc slot, 0 <= slot -> debug_varname pt pc slot = Some (in_scope pc vs !! Z.to_nat slot)).
Proof.
  split_and!.
  - intros pc line. by apply (line_at pt lines uvnames vs decl).
  - intros idx s. by apply (uvname_at pt lines uvnames vs decl).
  - intros pc slot. by apply (varname_at pt lines uvnames vs decl).
Qed.

(** A function with the upvalue x, the parameters ab and c and a loop. *)
Definition sample_vars : list VarInfo :=
  [Var (VName [97; 98]) 1 9 false; Var (VName [99]) 1 9 false; Var (VFixed 1) 3 7 false; Var (VName [108]) 4 4 true;
   Var (VName [105]) 4 7 false].
Definition sample_compiled : GCproto :=
  Proto 0 2 6 [BCINS_AD BC_FUNCF 6 0; 1; 2; 3; 4; 5; 6; 7; 0x4b] [] [] [0x8000] 0 [61; 115] 3 5
    (Some (fs_debug [3; 4; 4; 5; 5; 6; 6; 7; 8; 8] [[120]] sample_vars [102])).

Lemma debug_lookup_correct_witness :
  lj_debug_line sample_compiled 5 = Some 6 /\ lj_debug_uvname sample_compiled 0 = Some [120] /\
  debug_varname sample_compiled 5 3 = Some (Some [105]) /\ debug_varname sample_compiled 8 2 = Some None.
Proof.
  destruct (debug_lookup_correct sample_compiled [3; 4; 4; 5; 5; 6; 6; 7; 8; 8] [[120]] sample_vars [102] eq_refl) as (Hl & Hu & Hv).
  - repeat constructor; lia.
  - repeat constructor; lia.
  - repeat constructor; cbn; try lia; eexists _, _; (split; [reflexivity|]); unfold VARNAME__MAX; lia.
  - cbn. lia.
  - split_and!; [apply Hl; [by vm_compute|reflexivity]|by apply Hu|by rewrite Hv|by rewrite Hv].
Defined.

(** ** After a dump *)

(** In a function that was dumped with its debug information and loaded again,
    lines and the declared name are where they were.  But the reader takes
    the lines to be two fewer than the parser writes and the upvalue names to
    be one byte each: it looks for the upvalue names eight bytes too early,
    and for the variables another byte too early for every character of an
    upvalue name. *)
Theorem reloaded_names_misplaced (pt : GCproto) (lines : list Z) (uvnames : list (list Z)) (vs : list VarInfo) (decl name : list Z) :
  dbg pt = Some (fs_debug lines uvnames vs decl) -> zlen lines = zlen (bc pt) + 1 -> zlen uvnames = zlen (uv pt) ->
  exists d, dbg (reloaded false name pt) = Some d /\ dbg_mem d = dbg_mem (fs_debug lines uvnames vs decl) /\
    declname d = declname (fs_debug lines uvnames vs decl) /\
    uvinfo d = uvinfo (fs_debug lines uvnames vs decl) - 8 /\
    varinfo d = varinfo (fs_debug lines uvnames vs decl) - 8 - zlen (concat uvnames).
Proof.
  intros Hd Hl Hu. destruct pt as [fl np fs b ks ns u tr cn f1 nl dg]. cbn [dbg bc uv] in *. subst dg.
  cbn [reloaded dbg]. unfold dbg_bytes. cbn [dbg bc uv fs_debug fs_prep_var dbg_mem].
  assert (Hn : zlen (prep_uvnames uvnames) = zlen (concat uvnames) + zlen uvnames).
  { clear. unfold prep_uvnames. induction uvnames as [|s l IH]; [done|]. cbn [fmap list_fmap concat].
    rewrite !zlen_app, IH. change (zlen [0]) with 1. rewrite zlen_cons. lia. }
  destruct (Z.eqb_spec (zlen (ins_bytes lines ++ prep_uvnames uvnames ++ (prep_vars 0 vs ++ [0]) ++ decl ++ [0])) 0) as [E|E].
  { rewrite !zlen_app in E. change (zlen [0]) with 1 in E.
    pose proof (zlen_nonneg (ins_bytes lines)). pose proof (zlen_nonneg (prep_uvnames uvnames)). pose proof (zlen_nonneg (prep_vars 0 vs)).
    pose proof (zlen_nonneg decl). lia. }
  eexists. split; [done|]. cbn [dbg_mem declname uvinfo varinfo dbg_sizes dbg snd fst]. split_and!; [done|done|lia|lia].
Qed.

(** The upvalue x of the sample function is called by the character of a line
    number afterwards. *)
Lemma reloaded_name_wrong :
  lj_debug_uvname sample_compiled 0 = Some [120] /\
  lj_debug_uvname (reloaded false [61; 115] sample_compiled) 0 = Some [8] /\
  lj_debug_line (reloaded false [61; 115] sample_compiled) 5 = lj_debug_line sample_compiled 5.
Proof. by vm_compute. Qed.
End DebugInfo.
