(* ===== verification/Dasm.v ===== *)
(** * Dasm

    The DynASM x86 encoding engine ([dasm_x86.h], built by [dasm_x86.c] with
    [DASM_CHECKS]): pass 1 stores the actions of each [dasm_put] call and
    chains the references to labels not seen yet, pass 2 ([dasm_link]) shrinks
    branches and alignments and fixes the label offsets, pass 3
    ([dasm_encode]) writes the code.  This file holds the three passes as the
    source has them; [DasmPut], [DasmLink] and [DasmEncode] prove what they
    assemble.

    The source keeps byte offsets in [int]s: a sum or difference of offsets
    that leaves the range is undefined and faults here ([sint]).  Positions
    are bounded by the buffers, which every access checks. *)
From stdpp Require Import base tactics numbers list gmap.
From Stdlib Require Import ZArith Lia.
From S2P Require Import Prelude.
Open Scope Z_scope.

Module Dasm.

(** ** Constants *)

Definition DASM_DISP : Z := 233.
Definition DASM_IMM_S : Z := 234.
Definition DASM_IMM_B : Z := 235.
Definition DASM_IMM_W : Z := 236.
Definition DASM_IMM_D : Z := 237.
Definition DASM_IMM_WB : Z := 238.
Definition DASM_IMM_DB : Z := 239.
Definition DASM_VREG : Z := 240.
Definition DASM_SPACE : Z := 241.
Definition DASM_SETLABEL : Z := 242.
Definition DASM_REL_A : Z := 243.
Definition DASM_REL_LG : Z := 244.
Definition DASM_REL_PC : Z := 245.
Definition DASM_IMM_LG : Z := 246.
Definition DASM_IMM_PC : Z := 247.
Definition DASM_LABEL_LG : Z := 248.
Definition DASM_LABEL_PC : Z := 249.
Definition DASM_ALIGN : Z := 250.
Definition DASM_EXTERN : Z := 251.
Definition DASM_ESC : Z := 252.
Definition DASM_MARK : Z := 253.
Definition DASM_SECTION : Z := 254.
Definition DASM_STOP : Z := 255.

Definition DASM_MAXSECPOS : Z := 25.

Definition DASM_S_OK : Z := 0x00000000.
Definition DASM_S_PHASE : Z := 0x02000000.
Definition DASM_S_MATCH_SEC : Z := 0x03000000.
Definition DASM_S_RANGE_I : Z := 0x11000000.
Definition DASM_S_RANGE_SEC : Z := 0x12000000.
Definition DASM_S_RANGE_LG : Z := 0x13000000.
Definition DASM_S_RANGE_PC : Z := 0x14000000.
Definition DASM_S_RANGE_VREG : Z := 0x15000000.
Definition DASM_S_UNDEF_L : Z := 0x21000000.
Definition DASM_S_UNDEF_PC : Z := 0x22000000.

Definition DASM_POS2BIAS (pos : Z) : Z := Z.land pos 0xff000000.
Definition DASM_SEC2POS (sec : Z) : Z := Z.shiftl sec 24.
Definition DASM_POS2SEC (pos : Z) : Z := Z.shiftr pos 24.

(** ** State *)

(** The result of arithmetic on [int]s. *)
Definition sint (n : Z) : outcome Z :=
  if (-2147483648 <=? n) && (n <? 2147483648) then Done n else Fault.

(** A section: the written cells of its buffer by true index, the size of the
    buffer in bytes, the bias [buf - rbuf], and the three counters. *)
Record dasm_Section := Sec {
  buf : gmap Z Z;
  bsize : Z;
  rbias : Z;
  pos : Z;
  epos : Z;
  ofs : Z }.

(** The label arrays are lists, their sizes in bytes four times the lengths;
    [globals] is the array given to [dasm_setupglobal]. *)
Record dasm_State := State {
  actionlist : list Z;
  lglabels : list Z;
  pclabels : list Z;
  globals : list Z;
  section : Z;
  codesize : Z;
  status : Z;
  sections : list dasm_Section }.

Definition with_status (D : dasm_State) (st : Z) : dasm_State :=
  State (actionlist D) (lglabels D) (pclabels D) (globals D) (section D) (codesize D) st (sections D).
Definition with_section (D : dasm_State) (s : Z) : dasm_State :=
  State (actionlist D) (lglabels D) (pclabels D) (globals D) s (codesize D) (status D) (sections D).
Definition with_sections (D : dasm_State) (l : list dasm_Section) : dasm_State :=
  State (actionlist D) (lglabels D) (pclabels D) (globals D) (section D) (codesize D) (status D) l.
Definition with_lglabels (D : dasm_State) (l : list Z) : dasm_State :=
  State (actionlist D) l (pclabels D) (globals D) (section D) (codesize D) (status D) (sections D).
Definition with_pclabels (D : dasm_State) (l : list Z) : dasm_State :=
  State (actionlist D) (lglabels D) l (globals D) (section D) (codesize D) (status D) (sections D).
Definition with_globals (D : dasm_State) (l : list Z) : dasm_State :=
  State (actionlist D) (lglabels D) (pclabels D) l (section D) (codesize D) (status D) (sections D).
Definition with_codesize (D : dasm_State) (n : Z) : dasm_State :=
  State (actionlist D) (lglabels D) (pclabels D) (globals D) (section D) n (status D) (sections D).

(** The byte [actionlist[p]]. *)
Definition act (D : dasm_State) (p : Z) : outcome Z := acc (zget (actionlist D) p).

Definition get_sec (D : dasm_State) (s : Z) : outcome dasm_Section := acc (zget (sections D) s).

Definition set_sec (D : dasm_State) (s : Z) (x : dasm_Section) : outcome dasm_State :=
  l ← acc (zset (sections D) s x); Done (with_sections D l).

(** [b[pos]] with [b] the biased buffer of section [s]. *)
Definition rb (D : dasm_State) (s pos : Z) : outcome Z :=
  x ← get_sec D s; acc (buf x !! (pos - rbias x)).

Definition wb (D : dasm_State) (s pos' v : Z) : outcome dasm_State :=
  x ← get_sec D s;
  let i := pos' - rbias x in
  if (0 <=? i) && (4 * i <? bsize x) then
    set_sec D s (Sec (<[i := v]> (buf x)) (bsize x) (rbias x) (pos x) (epos x) (ofs x))
  else Fault.

(** Cells through [DASM_POS2PTR]. *)
Definition rp (D : dasm_State) (pos : Z) : outcome Z := rb D (DASM_POS2SEC pos) pos.
Definition wp (D : dasm_State) (pos v : Z) : outcome dasm_State := wb D (DASM_POS2SEC pos) pos v.

(** ** Allocation and setup *)

(** [DASM_M_GROW]: the new size in bytes. *)
Fixpoint grow_loop (fuel : nat) (sz need : Z) : outcome Z :=
  match fuel with
  | O => OutOfFuel
  | S fuel' => if sz <? need then grow_loop fuel' (sz + sz) need else Done sz
  end.

(** 64 doublings exhaust [size_t]. *)
Definition DASM_M_GROW (sz need : Z) : outcome Z :=
  if sz <? need then grow_loop 64 (if sz <? 16 then 16 else sz) need else Done sz.

(** The fields [dasm_setup] sets are zero until then. *)
Definition dasm_init (maxsection : Z) : dasm_State :=
  State [] [] [] [] 0 0 0
    ((fun i => Sec ∅ 0 (DASM_SEC2POS i) 0 0 0) <$> seqZ 0 maxsection).

(** The bytes [realloc] adds are indeterminate: [junk]. *)
Definition dasm_setupglobal (junk : Z -> Z) (D : dasm_State) (gl : list Z) : outcome dasm_State :=
  sz ← DASM_M_GROW (4 * zlen (lglabels D)) (4 * (10 + zlen gl));
  Done (with_lglabels (with_globals D gl)
    (lglabels D ++ (junk <$> seqZ (zlen (lglabels D)) (sz / 4 - zlen (lglabels D))))).

Definition dasm_growpc (D : dasm_State) (maxpc : Z) : outcome dasm_State :=
  sz ← DASM_M_GROW (4 * zlen (pclabels D)) (4 * maxpc);
  Done (with_pclabels D
    (pclabels D ++ replicate (Z.to_nat (sz / 4 - zlen (pclabels D))) 0)).

Definition dasm_setup (D : dasm_State) (al : list Z) : dasm_State :=
  State al (replicate (length (lglabels D)) 0) (replicate (length (pclabels D)) 0)
    (globals D) 0 (codesize D) DASM_S_OK
    (imap (fun i x => Sec (buf x) (bsize x) (rbias x) (DASM_SEC2POS (Z.of_nat i)) (epos x) 0)
      (sections D)).

(** ** Labels *)

Inductive slot := LG (i : Z) | PC (i : Z).

Definition labels (D : dasm_State) (pl : slot) : list Z :=
  match pl with LG _ => lglabels D | PC _ => pclabels D end.
Definition slot_idx (pl : slot) : Z := match pl with LG i | PC i => i end.

Definition getl (D : dasm_State) (pl : slot) : outcome Z := acc (zget (labels D pl) (slot_idx pl)).
Definition setl (D : dasm_State) (pl : slot) (v : Z) : outcome dasm_State :=
  l ← acc (zset (labels D pl) (slot_idx pl) v);
  Done (match pl with LG _ => with_lglabels D l | PC _ => with_pclabels D l end).

(** [CKPL]: the byte offset is compared as a [size_t]. *)
Definition ckpl (D : dasm_State) (pl : slot) : bool :=
  (0 <=? slot_idx pl) && (slot_idx pl <? zlen (labels D pl)).
Definition ckpl_status (pl : slot) : Z :=
  match pl with LG _ => DASM_S_RANGE_LG | PC _ => DASM_S_RANGE_PC end.

(** [while (n > 0) { pb = DASM_POS2PTR(D, n); n = *pb; *pb = v; }]. *)
Fixpoint collapse (fuel : nat) (D : dasm_State) (n v : Z) : outcome dasm_State :=
  match fuel with
  | O => OutOfFuel
  | S fuel' =>
      if 0 <? n then
        n' ← rp D n; D' ← wp D n v; collapse fuel' D' n' v
      else Done D
  end.

(** A chain visits each written cell at most once. *)
Definition cells (D : dasm_State) : list (Z * Z) :=
  mjoin (imap (fun s x => (fun kv => (Z.of_nat s, kv.1)) <$> map_to_list (buf x)) (sections D)).
Definition chain_fuel (D : dasm_State) : nat := S (length (cells D)).

(** ** Pass 1 *)

Definition short (n : Z) : bool := Z.land (n + 128) (-256) =? 0.

(** How a [case] of the switch goes on: to the next action with the new
    action pointer, position and offset, or out through a failed check. *)
Inductive ck := Go (D : dasm_State) (p pos ofs mrm : Z) (args : list Z) | CkFail (D : dasm_State) (st p : Z).

(** The actions with an argument, but for [DASM_VREG]; [p] is behind the
    action byte and [pos] behind the stored argument. *)
Definition put_arg (D : dasm_State) (s action p pos ofs mrm n : Z) (args : list Z) : outcome ck :=
  let ob := Done (Go D p pos (ofs + 1) (-1) args) in
  let range := Done (CkFail D DASM_S_RANGE_I p) in
  if action =? DASM_DISP then
    brk ← (if n =? 0 then
             m ← (if mrm <? 0 then act D (p - 2) else Done mrm); Done (negb (Z.land m 7 =? 5))
           else Done false);
    if (brk : bool) then Done (Go D p pos ofs (-1) args)
    else if short n then ob else Done (Go D p pos (ofs + 4) (-1) args)
  else if action =? DASM_IMM_DB then
    if short n then ob else Done (Go D p pos (ofs + 4) (-1) args)
  else if (action =? DASM_REL_A) || (action =? DASM_IMM_D) then Done (Go D p pos (ofs + 4) (-1) args)
  else if action =? DASM_IMM_S then if short n then ob else range
  else if action =? DASM_IMM_B then if Z.land n (-256) =? 0 then ob else range
  else if (action =? DASM_IMM_WB) && short n then ob
  else if (action =? DASM_IMM_WB) || (action =? DASM_IMM_W) then
    if Z.land n (-65536) =? 0 then Done (Go D p pos (ofs + 2) (-1) args) else range
  else if action =? DASM_SPACE then Done (Go D (p + 1) pos (ofs + n) (-1) args)
  else D ← wb D s (pos - 2) (-0x40000000); Done (Go D p pos ofs (-1) args).

Definition put_vreg (D : dasm_State) (s p pos ofs mrm n : Z) (args : list Z) : outcome ck :=
  t ← act D p;
  if negb ((Z.land n (-16) =? 0) && (negb (n =? 4) || negb (Z.shiftr t 5 =? 2)))
  then Done (CkFail D DASM_S_RANGE_VREG p)
  else
    mrm ← (if t <? 0x40 then
             p1 ← act D (p + 1); Done (if p1 =? DASM_DISP then n else mrm)
           else Done mrm);
    ofs ← sint (if (t <? 0x20) && (Z.land n 7 =? 4) then ofs + 1 else ofs);
    let k := Z.land (Z.shiftr t 3) 3 in
    n ← (if k =? 3 then x ← rb D s (pos - 3); Done (Z.lor n x) else Done n);
    n ← (if 2 <=? k then x ← rb D s (pos - 2); Done (Z.lor n x) else Done n);
    if (1 <=? k) && (n <=? 7) then
      x ← rb D s (pos - 1); D ← wb D s (pos - 1) (Z.lor x 0x10);
      Done (Go D (p + 1) pos (ofs - 1) mrm args)
    else Done (Go D (p + 1) pos ofs mrm args).

(** From [putrel] and [linkrel] to the end of the case. *)
Definition linkrel (D : dasm_State) (s action p pos ofs mrm : Z) (args : list Z) (pl : slot) (n : Z) : outcome ck :=
  D ← (if n <? 0 then wb D s pos (- n) else D ← wb D s pos n; setl D pl pos);
  let pos := pos + 1 in
  let ofs := ofs + 4 in
  if (action =? DASM_REL_LG) || (action =? DASM_REL_PC) then
    D ← wb D s pos ofs; Done (Go D p (pos + 1) ofs mrm args)
  else Done (Go D p pos ofs mrm args).

Definition putrel (D : dasm_State) (s action p pos ofs mrm : Z) (args : list Z) (pl : slot) : outcome ck :=
  if negb (ckpl D pl) then Done (CkFail D (ckpl_status pl) p)
  else n ← getl D pl; linkrel D s action p pos ofs mrm args pl n.

Definition putlabel (D : dasm_State) (s p pos ofs mrm : Z) (args : list Z) (pl : slot) : outcome ck :=
  if negb (ckpl D pl) then Done (CkFail D (ckpl_status pl) p)
  else
    n ← getl D pl;
    D ← collapse (chain_fuel D) D n pos;
    D ← setl D pl (- pos);
    D ← wb D s pos ofs;
    Done (Go D p (pos + 1) ofs mrm args).

(** References and labels. *)
Definition put_ref (D : dasm_State) (s action p pos ofs mrm : Z) (args : list Z) : outcome ck :=
  if (action =? DASM_REL_LG) || (action =? DASM_IMM_LG) then
    n ← act D p;
    if n <=? 246 then
      ok ← (if 10 <=? n then Done true else x ← getl D (LG n); Done (x <? 0));
      if negb ok then Done (CkFail D DASM_S_RANGE_LG (p + 1))
      else putrel D s action (p + 1) pos ofs mrm args (LG n)
    else
      n' ← getl D (LG (n - 246));
      linkrel D s action (p + 1) pos ofs mrm args (LG (n - 246)) (if n' <? 0 then 0 else n')
  else if (action =? DASM_REL_PC) || (action =? DASM_IMM_PC) then
    match args with
    | [] => Fault
    | n :: args => putrel D s action p pos ofs mrm args (PC n)
    end
  else if action =? DASM_LABEL_LG then
    n ← act D p; putlabel D s (p + 1) pos ofs mrm args (LG n)
  else
    match args with
    | [] => Fault
    | n :: args => putlabel D s p pos ofs mrm args (PC n)
    end.

Definition put_end (D : dasm_State) (s pos' ofs' : Z) : outcome dasm_State :=
  x ← get_sec D s;
  set_sec D s (Sec (buf x) (bsize x) (rbias x) pos' (epos x) ofs').

(** Every iteration consumes a byte of the action list: its length is enough
    fuel. *)
Fixpoint put_loop (fuel : nat) (D : dasm_State) (s p pos ofs mrm : Z) (args : list Z) : outcome dasm_State :=
  match fuel with
  | O => OutOfFuel
  | S fuel' =>
      let next (c : outcome ck) : outcome dasm_State :=
        c ← c;
        match c with
        | Go D p pos ofs mrm args => ofs ← sint ofs; put_loop fuel' D s p pos ofs mrm args
        | CkFail D st p => Done (with_status D (Z.lor st (p - 1)))
        end in
      action ← act D p;
      let p := p + 1 in
      if action <? DASM_DISP then next (Done (Go D p pos (ofs + 1) mrm args))
      else if action <=? DASM_REL_A then
        match args with
        | [] => Fault
        | n :: args =>
            D ← wb D s pos n;
            if action =? DASM_VREG then next (put_vreg D s p (pos + 1) ofs mrm n args)
            else next (put_arg D s action p (pos + 1) ofs mrm n args)
        end
      else if action <=? DASM_LABEL_PC then next (put_ref D s action p pos ofs mrm args)
      else if action =? DASM_ALIGN then
        m ← act D p;
        let ofs := ofs + m in
        D ← wb D s pos ofs; next (Done (Go D (p + 1) (pos + 1) ofs mrm args))
      else if action =? DASM_EXTERN then next (Done (Go D (p + 2) pos (ofs + 4) mrm args))
      else if action =? DASM_ESC then next (Done (Go D (p + 1) pos (ofs + 1) mrm args))
      else if action =? DASM_MARK then m ← act D (p - 2); next (Done (Go D p pos ofs m args))
      else if action =? DASM_SECTION then
        n ← act D p;
        if n <? zlen (sections D) then put_end (with_section D n) s pos ofs
        else Done (with_status D (Z.lor DASM_S_RANGE_SEC (p - 1)))
      else put_end D s pos ofs
  end.

(** The growth at the head of [dasm_put]. *)
Definition put_grow (D : dasm_State) (s : Z) : outcome dasm_State :=
  x ← get_sec D s;
  if epos x <=? pos x then
    sz ← DASM_M_GROW (bsize x) (bsize x + 2 * DASM_MAXSECPOS * 4);
    set_sec D s (Sec (buf x) sz (DASM_POS2BIAS (pos x)) (pos x)
      (i32 (sz / 4 - DASM_MAXSECPOS + DASM_POS2BIAS (pos x))) (ofs x))
  else Done D.

Definition dasm_put (D : dasm_State) (start : Z) (args : list Z) : outcome dasm_State :=
  let s := section D in
  D ← put_grow D s;
  x ← get_sec D s;
  D ← wb D s (pos x) start;
  put_loop (S (length (actionlist D))) D s start (pos x + 1) (ofs x) (-1) args.

(** ** Pass 2 *)

(** The first PC label with an open chain. *)
Fixpoint undef_pc (l : list Z) (pc : Z) : option Z :=
  match l with
  | [] => None
  | n :: l => if 0 <? n then Some pc else undef_pc l (pc + 1)
  end.

(** Globals not defined here: their chains become markers. *)
Fixpoint link_globals (D : dasm_State) (l : list Z) (idx : Z) : outcome dasm_State :=
  match l with
  | [] => Done D
  | n :: l =>
      D ← (if 10 <=? idx then collapse (chain_fuel D) D n (- idx) else Done D);
      link_globals D l (idx + 1)
  end.

(** [for (i = secnum; i < hi; i++) lofs += D->sections[i].ofs;] *)
Fixpoint add_ofs (k : nat) (D : dasm_State) (i lofs : Z) : outcome Z :=
  match k with
  | O => Done lofs
  | S k' => x ← get_sec D i; lofs ← sint (lofs + ofs x); add_ofs k' D (i + 1) lofs
  end.

Definition shrink_of (op : Z) : Z :=
  if op =? 0xe9 then 3 else if Z.land op 0xf0 =? 0x80 then 4 else 0.

(** The branch cases; the result is the final shrink. *)
Definition link_rel (D : dasm_State) (secnum op pos ofs : Z) : outcome Z :=
  let shrink := shrink_of op in
  if shrink =? 0 then Done 0
  else
    lpos ← rb D secnum pos;
    if lpos <? 0 then Done 0
    else
      lofs ← rp D lpos;
      lofs ← (if pos <? lpos then
                add_ofs (Z.to_nat (DASM_POS2SEC lpos - secnum)) D secnum lofs
              else sint (lofs - ofs));
      est ← rb D secnum (pos + 1);
      lofs ← sint (lofs - est);
      Done (if (-128 - shrink <=? lofs) && (lofs <=? 127) then shrink else 0).

Fixpoint link_acts (fuel : nat) (D : dasm_State) (secnum p pos ofs : Z) : outcome (dasm_State * Z * Z) :=
  match fuel with
  | O => OutOfFuel
  | S fuel' =>
      action ← act D p;
      let p := p + 1 in
      if (action =? DASM_REL_LG) || (action =? DASM_REL_PC) then
        op ← act D (p - 2);
        shrink ← link_rel D secnum op pos ofs;
        ofs ← sint (ofs - shrink);
        D ← wb D secnum (pos + 1) shrink;
        link_acts fuel' D secnum (if action =? DASM_REL_LG then p + 1 else p) (pos + 2) ofs
      else if (action =? DASM_SPACE) || (action =? DASM_IMM_LG) || (action =? DASM_VREG) then
        link_acts fuel' D secnum (p + 1) (pos + 1) ofs
      else if ((DASM_DISP <=? action) && (action <=? DASM_REL_A)) || (action =? DASM_IMM_PC) then
        link_acts fuel' D secnum p (pos + 1) ofs
      else if (action =? DASM_LABEL_LG) || (action =? DASM_LABEL_PC) then
        n ← rb D secnum pos; n ← sint (n + ofs); D ← wb D secnum pos n;
        link_acts fuel' D secnum (if action =? DASM_LABEL_LG then p + 1 else p) (pos + 1) ofs
      else if action =? DASM_ALIGN then
        n ← rb D secnum pos; m ← act D p;
        n ← sint (n + ofs); ofs ← sint (ofs - Z.land n m);
        link_acts fuel' D secnum (p + 1) (pos + 1) ofs
      else if action =? DASM_EXTERN then link_acts fuel' D secnum (p + 2) pos ofs
      else if action =? DASM_ESC then link_acts fuel' D secnum (p + 1) pos ofs
      else if (action =? DASM_SECTION) || (action =? DASM_STOP) then Done (D, pos, ofs)
      else link_acts fuel' D secnum p pos ofs
  end.

Fixpoint link_section (fuel : nat) (D : dasm_State) (secnum pos lastpos ofs : Z) : outcome (dasm_State * Z) :=
  match fuel with
  | O => OutOfFuel
  | S fuel' =>
      if pos =? lastpos then Done (D, ofs)
      else
        start ← rb D secnum pos;
        r ← link_acts (S (length (actionlist D))) D secnum start (pos + 1) ofs;
        let '(D, pos, ofs) := r in
        link_section fuel' D secnum pos lastpos ofs
  end.

Fixpoint link_sections (k : nat) (D : dasm_State) (secnum ofs' : Z) : outcome (dasm_State * Z) :=
  match k with
  | O => Done (D, ofs')
  | S k' =>
      x ← get_sec D secnum;
      r ← link_section (S (size (buf x))) D secnum (DASM_SEC2POS secnum) (pos x) ofs';
      let '(D, ofs') := r in
      x ← get_sec D secnum;
      ofs' ← sint (ofs' + ofs x);
      link_sections k' D (secnum + 1) ofs'
  end.

(** The returned status, the size stored through [szp], the new state. *)
Definition dasm_link (D : dasm_State) : outcome (Z * Z * dasm_State) :=
  if negb (status D =? DASM_S_OK) then Done (status D, 0, D)
  else match undef_pc (pclabels D) 0 with
  | Some pc => Done (Z.lor DASM_S_UNDEF_PC pc, 0, D)
  | None =>
      D ← link_globals D (lglabels D) 0;
      r ← link_sections (length (sections D)) D 0 0;
      let '(D, ofs) := r in
      Done (DASM_S_OK, ofs, with_codesize D ofs)
  end.

(** ** Pass 3 *)

Section encode.
(** [DASM_EXTERN_FUNC] by address, index and type; the address of the code
    buffer and its capacity in bytes. *)
Context (extern_func : Z -> Z -> Z -> Z) (base cap : Z).

(** [*cp++ = x]. *)
Definition dasmb (out : list Z) (x : Z) : outcome (list Z) :=
  if zlen out <? cap then Done (out ++ [u8 x]) else Fault.
Definition dasmw (out : list Z) (x : Z) : outcome (list Z) :=
  out ← dasmb out x; dasmb out (Z.shiftr x 8).
Definition dasmd (out : list Z) (x : Z) : outcome (list Z) :=
  out ← dasmw out x; dasmw out (Z.shiftr x 16).

(** A read-modify-write of a byte written before. *)
Definition modb (out : list Z) (i : Z) (f : Z -> Z) : outcome (list Z) :=
  x ← acc (zget out i); acc (zset out i (u8 (f x))).

(** [while (++ex < cp) ex[-1] = *ex; cp--;] *)
Definition cut (out : list Z) (ex : Z) : list Z :=
  if ex <? zlen out then take (Z.to_nat ex) out ++ drop (Z.to_nat ex + 1) out
  else take (length out - 1) out.

(** The [VREG] case: the output and the mark. *)
Definition enc_vreg (out : list Z) (mark : option Z) (n t : Z) : outcome (list Z * option Z) :=
  let ex := zlen out - Z.land t 7 in
  r ← (if negb (Z.land n 8 =? 0) && (t <? 0xa0) then
         e ← acc (zget out ex);
         out ← (if negb (Z.land e 0x80 =? 0)
                then modb out (ex + 1) (fun x => Z.lxor x (Z.shiftl 0x20 (Z.shiftr t 6)))
                else modb out ex (fun x => Z.lxor x (Z.shiftl 1 (Z.shiftr t 6))));
         Done (out, mark, Z.land n 7)
       else if negb (Z.land n 0x10 =? 0) then
         e ← acc (zget out ex);
         r ← (if negb (Z.land e 0x80 =? 0) then
                out ← modb out ex (fun _ => 0xc5);
                e2 ← acc (zget out (ex + 2));
                out ← modb out (ex + 1) (fun x => Z.lor (Z.land x 0x80) e2);
                Done (out, ex + 2)
              else Done (out, ex));
         let '(out, ex) := r in
         Done (cut out ex, (fun m => m - 1) <$> mark, Z.land n 7)
       else Done (out, mark, n));
  let '(out, mark, n) := (r : list Z * option Z * Z) in
  if 0xc0 <=? t then
    out ← modb out (zlen out - 1) (fun x => Z.lxor x (Z.shiftl n 4)); Done (out, mark)
  else if 0x40 <=? t then
    out ← modb out (zlen out - 1) (fun x => Z.lxor x (Z.shiftl n 3)); Done (out, mark)
  else if (n =? 4) && (t <? 0x20) then
    out ← modb out (zlen out - 1) (fun x => Z.lxor x n);
    out ← dasmb out 0x20;
    out ← modb out (zlen out - 1) (fun x => Z.lxor x n); Done (out, mark)
  else
    out ← modb out (zlen out - 1) (fun x => Z.lxor x n); Done (out, mark).

(** The [DISP] case; [next] is the action that follows. *)
Definition enc_disp (out : list Z) (mark : option Z) (n next : Z) : outcome (list Z * option Z) :=
  let mm := default (zlen out) mark in
  let mark' := if negb (next =? DASM_IMM_DB) && negb (next =? DASM_IMM_WB) then None else Some mm in
  brk ← (if n =? 0 then
           m ← acc (zget out (mm - 1));
           m ← (if Z.land m 7 =? 4 then x ← acc (zget out mm); Done (Z.land x 7)
                else Done (Z.land m 7));
           Done (negb (m =? 5))
         else Done false);
  if (brk : bool) then out ← modb out (mm - 1) (fun x => x - 0x80); Done (out, mark')
  else if negb (short n) then out ← dasmd out n; Done (out, mark')
  else
    out ← modb out (mm - 1) (fun x => x - 0x40);
    out ← dasmb out n; Done (out, mark').

(** [db:] of the sign-extended immediates. *)
Definition enc_db (out : list Z) (mark : option Z) (n : Z) : outcome (list Z * option Z) :=
  out ← modb out (default (zlen out) mark - 2) (fun x => x + 2);
  out ← dasmb out n; Done (out, None).

(** The remaining actions with an argument and no reference. *)
Definition enc_imm (out : list Z) (mark : option Z) (action n : Z) : outcome (list Z * option Z) :=
  if (action =? DASM_IMM_S) || (action =? DASM_IMM_B) then out ← dasmb out n; Done (out, mark)
  else if action =? DASM_IMM_DB then
    if short n then enc_db out mark n else out ← dasmd out n; Done (out, None)
  else if action =? DASM_IMM_D then out ← dasmd out n; Done (out, mark)
  else if action =? DASM_IMM_WB then
    if short n then enc_db out mark n else out ← dasmw out n; Done (out, None)
  else out ← dasmw out n; Done (out, mark).

(** [rel_a:]; a difference of addresses counts modulo [2 ^ 32], the bits
    [dasmd] stores. *)
Definition enc_rel_a (out : list Z) (n : Z) : outcome (list Z) :=
  dasmd out (n - i32 (base + zlen out + 4)).

(** [rel_pc:] with the cell of the label and the shrink. *)
Definition enc_rel_pc (D : dasm_State) (out : list Z) (n shrink : Z) : outcome (list Z) :=
  pb ← rp D n;
  if pb <? 0 then n ← rp D (n + 1); enc_rel_a out n
  else
    n ← sint (pb - (zlen out + 4 - shrink));
    if shrink =? 0 then dasmd out n
    else if shrink =? 4 then
      x ← acc (zget out (zlen out - 1));
      let out := take (length out - 1) out in
      out ← modb out (zlen out - 1) (fun _ => x - 0x10); dasmb out n
    else out ← modb out (zlen out - 1) (fun _ => 0xeb); dasmb out n.

(** [while (n--) *cp++ = fill;] *)
Fixpoint enc_space (k : nat) (out : list Z) (fill : Z) : outcome (list Z) :=
  match k with O => Done out | S k' => out ← dasmb out fill; enc_space k' out fill end.

(** [while (((cp-base) & n)) *cp++ = 0x90;]: the mask is a byte, so 256 steps
    reach a multiple of 256. *)
Fixpoint enc_align (fuel : nat) (out : list Z) (n : Z) : outcome (list Z) :=
  match fuel with
  | O => OutOfFuel
  | S fuel' =>
      if Z.land (zlen out) n =? 0 then Done out
      else out ← dasmb out 0x90; enc_align fuel' out n
  end.

(** [D->globals[idx]] with its bias of ten. *)
Definition get_global (D : dasm_State) (idx : Z) : outcome Z := acc (zget (globals D) (idx - 10)).
Definition set_global (D : dasm_State) (idx v : Z) : outcome dasm_State :=
  l ← acc (zset (globals D) (idx - 10) v); Done (with_globals D l).

(** [*b] through the unbiased buffer. *)
Definition zb (D : dasm_State) (s i : Z) : outcome Z := x ← get_sec D s; acc (buf x !! i).

(** One put record: the new state, index and output. *)
Fixpoint enc_acts (fuel : nat) (D : dasm_State) (s p b : Z) (out : list Z) (mark : option Z)
    : outcome (dasm_State * Z * list Z) :=
  match fuel with
  | O => OutOfFuel
  | S fuel' =>
      action ← act D p;
      let p := p + 1 in
      let hasarg := (DASM_DISP <=? action) && (action <=? DASM_ALIGN) in
      n ← (if hasarg then zb D s b else Done 0);
      let b := if hasarg then b + 1 else b in
      if action =? DASM_DISP then
        next ← act D p;
        r ← enc_disp out mark n next; enc_acts fuel' D s p b r.1 r.2
      else if action =? DASM_VREG then
        t ← act D p;
        r ← enc_vreg out mark n t; enc_acts fuel' D s (p + 1) b r.1 r.2
      else if (DASM_IMM_S <=? action) && (action <=? DASM_IMM_DB) then
        r ← enc_imm out mark action n; enc_acts fuel' D s p b r.1 r.2
      else if action =? DASM_REL_A then
        out ← enc_rel_a out n; enc_acts fuel' D s p b out mark
      else if (action =? DASM_REL_LG) || (action =? DASM_REL_PC) then
        let p := if action =? DASM_REL_LG then p + 1 else p in
        out ← (if (action =? DASM_REL_LG) && (n <? 0) then
                 a ← get_global D (- n); enc_rel_a out (i32 a)
               else shrink ← zb D s b; enc_rel_pc D out n shrink);
        enc_acts fuel' D s p (b + 1) out mark
      else if (action =? DASM_IMM_LG) || (action =? DASM_IMM_PC) then
        let p := if action =? DASM_IMM_LG then p + 1 else p in
        v ← (if (action =? DASM_IMM_LG) && (n <? 0) then
               a ← get_global D (- n); Done (i32 a)
             else
               pb ← rp D n;
               if pb <? 0 then rp D (n + 1) else Done (pb + i32 base));
        out ← dasmd out v; enc_acts fuel' D s p b out mark
      else if action =? DASM_LABEL_LG then
        idx ← act D p;
        D ← (if 10 <=? idx then
               next ← act D (p + 1);
               v ← (if next =? DASM_SETLABEL then zb D s b else Done n);
               set_global D idx (base + v)
             else Done D);
        enc_acts fuel' D s (p + 1) b out mark
      else if (action =? DASM_LABEL_PC) || (action =? DASM_SETLABEL) then
        enc_acts fuel' D s p b out mark
      else if action =? DASM_SPACE then
        fill ← act D p;
        if n <? 0 then Fault
        else out ← enc_space (Z.to_nat n) out fill; enc_acts fuel' D s (p + 1) b out mark
      else if action =? DASM_ALIGN then
        n ← act D p;
        out ← enc_align 257 out n; enc_acts fuel' D s (p + 1) b out mark
      else if action =? DASM_EXTERN then
        ty ← act D p; idx ← act D (p + 1);
        out ← dasmd out (extern_func (base + zlen out) idx ty);
        enc_acts fuel' D s (p + 2) b out mark
      else if action =? DASM_MARK then enc_acts fuel' D s p b out (Some (zlen out))
      else if action =? DASM_ESC then
        x ← act D p; out ← dasmb out x; enc_acts fuel' D s (p + 1) b out mark
      else if (action =? DASM_SECTION) || (action =? DASM_STOP) then Done (D, b, out)
      else out ← dasmb out action; enc_acts fuel' D s p b out mark
  end.

Fixpoint enc_section (fuel : nat) (D : dasm_State) (s b endb : Z) (out : list Z)
    : outcome (dasm_State * list Z) :=
  match fuel with
  | O => OutOfFuel
  | S fuel' =>
      if b =? endb then Done (D, out)
      else
        start ← zb D s b;
        r ← enc_acts (S (length (actionlist D))) D s start (b + 1) out None;
        let '(D, b, out) := r in
        enc_section fuel' D s b endb out
  end.

Fixpoint enc_sections (k : nat) (D : dasm_State) (s : Z) (out : list Z) : outcome (dasm_State * list Z) :=
  match k with
  | O => Done (D, out)
  | S k' =>
      x ← get_sec D s;
      r ← enc_section (S (size (buf x))) D s 0 (pos x - rbias x) out;
      let '(D, out) := r in
      enc_sections k' D (s + 1) out
  end.

(** The returned status, the bytes written, the new state. *)
Definition dasm_encode (D : dasm_State) : outcome (Z * list Z * dasm_State) :=
  r ← enc_sections (length (sections D)) D 0 [];
  let '(D, out) := r in
  Done (if codesize D =? zlen out then DASM_S_OK else DASM_S_PHASE, out, D).
End encode.

(** ** Queries and checks *)

Definition dasm_getpclabel (D : dasm_State) (pc : Z) : outcome Z :=
  match zget (pclabels D) pc with
  | Some pos => if pos <? 0 then rp D (- pos) else Done (if 0 <? pos then -1 else -2)
  | None => Done (-2)
  end.

(** [for (i = 1; i <= 9; i++)] over the local labels. *)
Fixpoint check_locals (k : nat) (D : dasm_State) (i : Z) : outcome dasm_State :=
  match k with
  | O => Done D
  | S k' =>
      n ← getl D (LG i);
      if 0 <? n then Done (with_status D (Z.lor DASM_S_UNDEF_L i))
      else D ← setl D (LG i) 0; check_locals k' D (i + 1)
  end.

Definition dasm_checkstep (D : dasm_State) (secmatch : Z) : outcome (Z * dasm_State) :=
  D ← (if status D =? DASM_S_OK then check_locals 9 D 1 else Done D);
  let D := if (status D =? DASM_S_OK) && (0 <=? secmatch) && negb (section D =? secmatch)
           then with_status D (Z.lor DASM_S_MATCH_SEC (section D)) else D in
  Done (status D, D).
End Dasm.
