(* ===== verification/DasmSpec.v ===== *)
(** * DasmSpec

    What the encoding engine of [Dasm] is to assemble, independently of how
    it does so: the instructions of an action list as a syntax with the bytes
    the preprocessor emits for them, the binding of references to labels, and
    the relation between a program and its code. *)
From stdpp Require Import base tactics numbers list gmap.
From Stdlib Require Import ZArith Lia.
From S2P Require Import Prelude Dasm.
Import Dasm.
Open Scope Z_scope.

Module DasmSpec.

#[export] Instance slot_eq_dec : EqDecision slot.
Proof. solve_decision. Defined.

(** ** Programs *)

(** A reference: to the next or the last definition of a local label, to a
    global label, to a PC label. *)
Inductive ref := Fwd (k : Z) | Bwd (k : Z) | Glob (k : Z) | Pc (k : Z).

(** Literal bytes, immediates, padding, external addresses, labels, branches
    and absolute references; the address of [n] relative to the next
    instruction; an opcode and operand byte with an immediate of [n] as a byte
    or as a double word ([wide]) or word; an operand byte [rm] without index
    byte and its displacement.  Left out are registers and marks known only at
    run time ([DASM_VREG], [DASM_MARK]), and labels set to an address
    ([DASM_SETLABEL]). *)
Inductive instr :=
| Lit (b : Z) | Esc (b : Z)
| ImmS (n : Z) | ImmB (n : Z) | ImmW (n : Z) | ImmD (n : Z)
| Space (n fill : Z) | Align (m : Z) | Extern (idx ty : Z)
| Label (pl : slot)
| Jmp (r : ref) | Jcc (cc : Z) (r : ref) | Call (r : ref) | Abs (r : ref)
| RelA (n : Z) | Alu (wide : bool) (op rm n : Z) | Mem (rm n : Z).

Definition ref_slot (r : ref) : slot :=
  match r with Fwd k | Bwd k | Glob k => LG k | Pc k => PC k end.

Definition ref_acts (lg pc : Z) (r : ref) : list Z :=
  match r with
  | Fwd k => [lg; 246 + k]
  | Bwd k | Glob k => [lg; k]
  | Pc _ => [pc]
  end.
Definition ref_args (r : ref) : list Z := match r with Pc k => [k] | _ => [] end.

(** The action list bytes and the [dasm_put] arguments of an instruction. *)
Definition acts (i : instr) : list Z :=
  match i with
  | Lit b => [b]
  | Esc b => [DASM_ESC; b]
  | ImmS _ => [DASM_IMM_S] | ImmB _ => [DASM_IMM_B]
  | ImmW _ => [DASM_IMM_W] | ImmD _ => [DASM_IMM_D]
  | Space _ fill => [DASM_SPACE; fill]
  | Align m => [DASM_ALIGN; m]
  | Extern idx ty => [DASM_EXTERN; ty; idx]
  | Label (LG k) => [DASM_LABEL_LG; k]
  | Label (PC _) => [DASM_LABEL_PC]
  | Jmp r => [DASM_ESC; 0xe9] ++ ref_acts DASM_REL_LG DASM_REL_PC r
  | Jcc cc r => [0x0f; 0x80 + cc] ++ ref_acts DASM_REL_LG DASM_REL_PC r
  | Call r => [0xe8] ++ ref_acts DASM_REL_LG DASM_REL_PC r
  | Abs r => ref_acts DASM_IMM_LG DASM_IMM_PC r
  | RelA _ => [DASM_REL_A]
  | Alu wide op rm _ => [op; rm; if wide then DASM_IMM_DB else DASM_IMM_WB]
  | Mem rm _ => [rm; DASM_DISP]
  end.

Definition args (i : instr) : list Z :=
  match i with
  | ImmS n | ImmB n | ImmW n | ImmD n | Space n _ | RelA n | Alu _ _ _ n | Mem _ n => [n]
  | Label (PC k) => [k]
  | Jmp r | Jcc _ r | Call r | Abs r => ref_args r
  | _ => []
  end.

(** Cells used in the section buffer, and the size in bytes before
    shrinking. *)
Definition npos (i : instr) : Z :=
  match i with
  | Lit _ | Esc _ | Extern _ _ => 0
  | Jmp _ | Jcc _ _ | Call _ => 2
  | _ => 1
  end.

(** An immediate that fits a byte is stored as one; a displacement of 0 is
    left out unless the base is register 5. *)
Definition is_byte (n : Z) : bool := (-128 <=? n) && (n <=? 127).
Definition no_disp (rm n : Z) : bool := (n =? 0) && negb (Z.land rm 7 =? 5).

Definition esz (i : instr) : Z :=
  match i with
  | Lit _ | Esc _ | ImmS _ | ImmB _ => 1
  | ImmW _ => 2
  | ImmD _ | Extern _ _ | Abs _ | RelA _ => 4
  | Alu wide _ _ n => 2 + (if is_byte n then 1 else if wide then 4 else 2)
  | Mem rm n => 1 + (if no_disp rm n then 0 else if is_byte n then 1 else 4)
  | Space n _ => n
  | Align m => m
  | Label _ => 0
  | Jmp _ | Call _ => 5
  | Jcc _ _ => 6
  end.

Definition code_npos (c : list instr) : Z := foldr (fun i n => npos i + n) 0 c.
Definition code_esz (c : list instr) : Z := foldr (fun i n => esz i + n) 0 c.

(** A [dasm_put] call: where its actions start, the instructions, and whether
    it ends with a change of section. *)
Record put := Put { p_start : Z; p_code : list instr; p_end : option Z }.

Definition end_acts (o : option Z) : list Z :=
  match o with None => [DASM_STOP] | Some n => [DASM_SECTION; n] end.

Definition put_acts (c : put) : list Z := concat (acts <$> p_code c) ++ end_acts (p_end c).
Definition put_args (c : put) : list Z := concat (args <$> p_code c).

(** The bytes at an address of the action list. *)
Definition code_at (al : list Z) (p : Z) (bs : list Z) : Prop :=
  exists pre post, al = pre ++ bs ++ post /\ zlen pre = p.

(** *** Well-formed programs: operands in range, as the preprocessor and the
    run-time checks require. *)

(** [nlg], [npc]: sizes of the label arrays; [ngl]: number of globals. *)
Section wf.
Context (nlg npc ngl : Z).

Definition wf_slot (pl : slot) : Prop :=
  match pl with
  | LG k => 1 <= k <= 246 /\ k < nlg /\ k < 10 + ngl
  | PC k => 0 <= k < npc
  end.

Definition wf_ref (r : ref) : Prop :=
  wf_slot (ref_slot r) /\
  match r with Fwd k | Bwd k => 1 <= k <= 9 | Glob k => 10 <= k | Pc _ => True end.

Definition wf_instr (i : instr) : Prop :=
  match i with
  | Lit b => 0 <= b < DASM_DISP
  | Esc b => in_u8 b
  | ImmS n => -128 <= n <= 127
  | ImmB n => in_u8 n
  | ImmW n => in_u16 n
  | ImmD n => in_i32 n
  | Space n fill => 0 <= n /\ in_u8 fill
  | Align m => exists k, 0 <= k <= 8 /\ m = 2 ^ k - 1
  | Extern idx ty => in_u8 idx /\ in_u8 ty
  | Label pl => wf_slot pl
  | Jmp r | Call r | Abs r => wf_ref r
  | Jcc cc r => 0 <= cc < 16 /\ wf_ref r
  | RelA n => in_i32 n
  | Alu wide op rm n => 0 <= op < DASM_DISP /\ 0 <= rm < DASM_DISP /\
      if wide then in_i32 n else -128 <= n < 65536
  | Mem rm n => 0x80 <= rm < 0xc0 /\ Z.land rm 7 <> 4 /\ in_i32 n
  end.
End wf.

(** ** Binding of references

    A label is defined at a position, or has references waiting for it.  A
    label definition binds all waiting references; a forward reference to a
    local label always waits. *)

Inductive lstate := Def (q : Z) | Pend (l : list Z).

(** The cells of the section buffers that have their value of pass 1, the
    labels, and the positions of the label definitions. *)
Record ghost := Gh { kn : gmap Z Z; lb : slot -> lstate; lbs : gset Z }.

Definition upd {A B} `{EqDecision A} (f : A -> B) (a : A) (b : B) : A -> B :=
  fun x => if decide (x = a) then b else f x.

Definition pend (g : ghost) (pl : slot) : list Z :=
  match lb g pl with Def _ => [] | Pend l => l end.

Definition gput (g : ghost) (x v : Z) : ghost := Gh (<[x := v]> (kn g)) (lb g) (lbs g).

Definition gwait (g : ghost) (x : Z) (pl : slot) (l : list Z) : ghost :=
  Gh (kn g) (upd (lb g) pl (Pend (x :: l))) (lbs g).

Definition gref (g : ghost) (x : Z) (r : ref) : option ghost :=
  match lb g (ref_slot r), r with
  | Def _, Fwd _ => Some (gwait g x (ref_slot r) [])
  | Def q, _ => Some (gput g x q)
  | Pend l, Bwd _ => None
  | Pend l, _ => Some (gwait g x (ref_slot r) l)
  end.

Definition bind_all (m : gmap Z Z) (l : list Z) (q : Z) : gmap Z Z :=
  foldr (fun y m => <[y := q]> m) m l.

Definition glabel (g : ghost) (x e : Z) (pl : slot) : ghost :=
  Gh (<[x := e]> (bind_all (kn g) (pend g pl) x)) (upd (lb g) pl (Def x)) ({[x]} ∪ lbs g).

(** An instruction at position [x] and estimated offset [e]. *)
Definition gstep (g : ghost) (x e : Z) (i : instr) : option ghost :=
  match i with
  | Lit _ | Esc _ | Extern _ _ => Some g
  | ImmS n | ImmB n | ImmW n | ImmD n | Space n _ | RelA n | Alu _ _ _ n | Mem _ n => Some (gput g x n)
  | Align m => Some (gput g x (e + m))
  | Label pl => Some (glabel g x e pl)
  | Jmp r | Jcc _ r | Call r => g ← gref g x r; Some (gput g (x + 1) (e + esz i))
  | Abs r => gref g x r
  end.

Fixpoint gcode (g : ghost) (x e : Z) (c : list instr) : option ghost :=
  match c with
  | [] => Some g
  | i :: c => g ← gstep g x e i; gcode g (x + npos i) (e + esz i) c
  end.

(** A program in progress: the next position and offset of each section, its
    calls so far, and the active section. *)
Record pst := Pst {
  gh : ghost; cur : Z -> Z; est : Z -> Z; placed : Z -> list put; asec : Z }.

Definition pst0 : pst :=
  Pst (Gh ∅ (fun _ => Pend []) ∅) DASM_SEC2POS (fun _ => 0) (fun _ => []) 0.

Definition gcall (P : pst) (c : put) : option pst :=
  let s := asec P in
  let x := cur P s in
  g ← gcode (gput (gh P) x (p_start c)) (x + 1) (est P s) (p_code c);
  Some (Pst g (upd (cur P) s (x + 1 + code_npos (p_code c)))
    (upd (est P) s (est P s + code_esz (p_code c)))
    (upd (placed P) s (placed P s ++ [c]))
    (default s (p_end c))).

Fixpoint gprog (P : pst) (cs : list put) : option pst :=
  match cs with [] => Some P | c :: cs => P ← gcall P c; gprog P cs end.

(** ** Assembled code *)

(** A placed instruction: its position, its estimated global offset, itself. *)
Record place := Place { px : Z; pG : Z; pi : instr }.

Fixpoint places (x G : Z) (c : list instr) : list place :=
  match c with
  | [] => []
  | i :: c => Place x G i :: places (x + npos i) (G + esz i) c
  end.

Fixpoint sec_places (x G : Z) (cs : list put) : list place :=
  match cs with
  | [] => []
  | c :: cs => places (x + 1) G (p_code c) ++
      sec_places (x + 1 + code_npos (p_code c)) (G + code_esz (p_code c)) cs
  end.

(** All sections from [s] on, one after the other. *)
Fixpoint layout (P : pst) (k : nat) (s G : Z) : list place :=
  match k with
  | O => []
  | S k' => sec_places (DASM_SEC2POS s) G (placed P s) ++ layout P k' (s + 1) (G + est P s)
  end.

Definition le32 (n : Z) : list Z := [u8 n; u8 (Z.shiftr n 8); u8 (Z.shiftr n 16); u8 (Z.shiftr (Z.shiftr n 16) 8)].
Definition le16 (n : Z) : list Z := [u8 n; u8 (Z.shiftr n 8)].

Section assembled.
Context (extern_func : Z -> Z -> Z -> Z) (base : Z).
(** The address of each label, by its position, and the label each reference
    is bound to. *)
Context (addr tgt : Z -> Z).

(** The code of a branch at [A] with its long form [long] and its short
    opcode: the displacement counts from the end of the instruction. *)
Definition branch (A x : Z) (long : list Z) (short : Z) (bs : list Z) : Prop :=
  bs = long ++ le32 (addr (tgt x) - (A + zlen long + 4)) \/
  (let d := addr (tgt x) - (A + 2) in bs = [short; u8 d] /\ -128 <= d <= 127).

(** [bs] is code for the instruction at position [x] when it lies at [A]. *)
Definition encodes (A x : Z) (i : instr) (bs : list Z) : Prop :=
  match i with
  | Lit b | Esc b | ImmB b => bs = [b]
  | ImmS n => bs = [u8 n]
  | ImmW n => bs = le16 n
  | ImmD n => bs = le32 n
  | Space n fill => bs = replicate (Z.to_nat n) fill
  | Align m => exists n, bs = replicate n 0x90 /\ Z.of_nat n <= m /\ (A + Z.of_nat n) mod (m + 1) = 0
  | Extern idx ty => bs = le32 (extern_func (base + A) idx ty)
  | Label _ => bs = [] /\ addr x = A
  | Jmp _ => branch A x [0xe9] 0xeb bs
  | Jcc cc _ => branch A x [0x0f; 0x80 + cc] (0x70 + cc) bs
  | Call _ => bs = 0xe8 :: le32 (addr (tgt x) - (A + 5))
  | Abs _ => bs = le32 (addr (tgt x) + i32 base)
  | RelA n => bs = le32 (n - i32 (base + A + 4))
  | Alu wide op rm n => bs =
      if is_byte n then [op + 2; rm; u8 n] else [op; rm] ++ (if wide then le32 n else le16 n)
  | Mem rm n => bs =
      if no_disp rm n then [rm - 0x80] else if is_byte n then [rm - 0x40; u8 n] else rm :: le32 n
  end.

(** The code of a sequence of placed instructions from address [A] on. *)
Fixpoint assembled (A : Z) (l : list place) (out : list Z) : Prop :=
  match l with
  | [] => out = []
  | p :: l => exists bs out', out = bs ++ out' /\ encodes A (px p) (pi p) bs /\
      assembled (A + zlen bs) l out'
  end.
End assembled.
End DasmSpec.
