(* ===== verification/DasmPut.v ===== *)
(** * DasmPut

    Pass 1 of the encoding engine: a sequence of [dasm_put] calls stores the
    cells the binding of [DasmSpec] prescribes, with the waiting references
    of a label chained through their own cells. *)
From stdpp Require Import base tactics numbers list gmap.
From Stdlib Require Import ZArith Lia.
From S2P Require Import Prelude Dasm DasmSpec.
Import Dasm DasmSpec.
Open Scope Z_scope.

Module DasmPut.

(** ** Cells *)

Definition cell (D : dasm_State) (x : Z) : option Z :=
  y ← zget (sections D) (DASM_POS2SEC x); buf y !! (x - rbias y).

Lemma rp_cell D x : rp D x = acc (cell D x).
Proof. unfold rp, rb, get_sec, cell. by destruct (zget _ _). Qed.

(** Everything but the cells. *)
Definition sec_meta (x : dasm_Section) : Z * Z * Z * Z * Z := (bsize x, rbias x, pos x, epos x, ofs x).
Definition smeta (D : dasm_State) (s : Z) : option (Z * Z * Z * Z * Z) := sec_meta <$> zget (sections D) s.

Record frame (D D' : dasm_State) : Prop := Frame {
  fr_al : actionlist D' = actionlist D;
  fr_gl : globals D' = globals D;
  fr_sec : section D' = section D;
  fr_cs : codesize D' = codesize D;
  fr_st : status D' = status D;
  fr_lg : length (lglabels D') = length (lglabels D);
  fr_pc : length (pclabels D') = length (pclabels D);
  fr_n : length (sections D') = length (sections D);
  fr_meta : forall s, smeta D' s = smeta D s }.

#[export] Instance frame_refl : Reflexive frame.
Proof. by constructor. Qed.
#[export] Instance frame_trans : Transitive frame.
Proof.
  intros D1 D2 D3 [] []. constructor; try congruence.
Qed.

(** Every section keeps its bias. *)
Definition biased (D : dasm_State) : Prop :=
  forall s b r p e o, smeta D s = Some (b, r, p, e, o) -> r = DASM_SEC2POS s.

Lemma biased_frame D D' : frame D D' -> biased D -> biased D'.
Proof. intros F H s b r p e o. rewrite (fr_meta _ _ F). apply H. Qed.

(** A position of section [s]. *)
Definition in_sec (s x : Z) : Prop := DASM_SEC2POS s <= x < DASM_SEC2POS s + 16777216.

Lemma sec2pos s : DASM_SEC2POS s = s * 16777216.
Proof. unfold DASM_SEC2POS. rewrite Z.shiftl_mul_pow2 by lia. done. Qed.

Lemma pos2sec x : DASM_POS2SEC x = x / 16777216.
Proof. unfold DASM_POS2SEC. rewrite Z.shiftr_div_pow2 by lia. done. Qed.

Lemma in_sec_pos2sec s x : in_sec s x -> DASM_POS2SEC x = s.
Proof. unfold in_sec. rewrite sec2pos, pos2sec. zlia. Qed.

Lemma in_sec_bias s x : 0 <= s < 128 -> in_sec s x -> DASM_POS2BIAS x = DASM_SEC2POS s.
Proof.
  intros Hs Hx. rewrite <- (in_sec_pos2sec s x Hx) in *. unfold DASM_POS2BIAS, DASM_SEC2POS, DASM_POS2SEC in *.
  replace (Z.shiftr x 24) with (Z.land (Z.shiftr x 24) (Z.ones 8)).
  2:{ rewrite Z.land_ones by lia. apply Z.mod_small. lia. }
  change 0xff000000 with (Z.shiftl (Z.ones 8) 24).
  apply Z.bits_inj'. intros n Hn. rewrite Z.land_spec, !Z.shiftl_spec by lia.
  destruct (Z.ltb_spec n 24).
  - rewrite !(Z.testbit_neg_r _ (n - 24)) by lia. apply andb_false_r.
  - rewrite Z.land_spec, Z.shiftr_spec by lia. do 2 f_equal. lia.
Qed.

(** What a write at [x] does to the cells. *)
Record wrote (D D' : dasm_State) (x v : Z) : Prop := Wrote {
  wr_eq : cell D' x = Some v;
  wr_ne : forall y, y <> x -> cell D' y = cell D y;
  wr_frame : frame D D';
  wr_lg : lglabels D' = lglabels D;
  wr_pc : pclabels D' = pclabels D }.

(** [x] is inside the buffer of section [s]. *)
Definition room (D : dasm_State) (s x : Z) : Prop :=
  in_sec s x /\ exists b r p e o, smeta D s = Some (b, r, p, e, o) /\ 4 * (x - r) < b.

Lemma room_frame D D' s x : frame D D' -> room D s x -> room D' s x.
Proof. unfold room. intros F. by rewrite (fr_meta _ _ F). Qed.

Lemma smeta_Some D s t : smeta D s = Some t -> exists y, zget (sections D) s = Some y /\ t = sec_meta y.
Proof. unfold smeta. intros (y & -> & ->)%fmap_Some. eauto. Qed.

Lemma smeta_insert D s y y' l t :
  zget (sections D) s = Some y -> zset (sections D) s y' = Some l ->
  sec_meta y' = sec_meta y -> smeta (with_sections D l) t = smeta D t.
Proof.
  intros Hg Hs Hm. unfold smeta. cbn. destruct (Z.eq_dec t s) as [->|Hne].
  - rewrite (zget_zset_eq _ _ _ _ Hs), Hg. cbn. by rewrite Hm.
  - by rewrite (zget_zset_ne _ _ _ _ _ Hs) by congruence.
Qed.

Lemma wb_wrote D s x v :
  biased D -> room D s x -> exists D', wb D s x v = Done D' /\ wrote D D' x v.
Proof.
  intros HB (Hx & b & r & p & e & o & Hm & Hlt).
  pose proof (HB _ _ _ _ _ _ Hm) as ->.
  destruct (smeta_Some _ _ _ Hm) as (y & Hy & Ht). unfold sec_meta in Ht. simplify_eq.
  unfold wb, get_sec. rewrite Hy. cbn [acc mbind outcome_bind].
  unfold in_sec in Hx. replace (0 <=? x - rbias y) with true by lia.
  replace (4 * (x - rbias y) <? bsize y) with true by lia. cbn [andb].
  unfold set_sec.
  set (y' := Sec _ _ _ _ _ _).
  destruct (zset_is_Some (sections D) s y') as [l Hl]; [by eapply zget_Some_range|].
  rewrite Hl. cbn [acc mbind outcome_bind]. eexists. split; [done|].
  assert (Hps : DASM_POS2SEC x = s) by (apply in_sec_pos2sec; done).
  constructor; try done.
  - unfold cell. cbn. rewrite Hps, (zget_zset_eq _ _ _ _ Hl). cbn.
    apply lookup_insert_eq.
  - intros z Hz. unfold cell. cbn. destruct (Z.eq_dec (DASM_POS2SEC z) s) as [E|Hne].
    + rewrite E, (zget_zset_eq _ _ _ _ Hl), Hy. cbn. apply lookup_insert_ne. lia.
    + by rewrite (zget_zset_ne _ _ _ _ _ Hl) by congruence.
  - constructor; try done.
    + cbn. apply zset_Some in Hl as [_ ->]. apply length_insert.
    + intros t. by eapply smeta_insert.
Qed.

(** Reads through the biased buffer of the section. *)
Lemma rb_cell D s x : in_sec s x -> rb D s x = acc (cell D x).
Proof. intros H. rewrite <- rp_cell. unfold rp. by rewrite (in_sec_pos2sec s x). Qed.

(** Cells that hold a value are among the counted ones. *)
Lemma cell_in_cells D x v :
  biased D -> cell D x = Some v -> (DASM_POS2SEC x, x - DASM_SEC2POS (DASM_POS2SEC x)) ∈ cells D.
Proof.
  intros HB. unfold cell. intros (y & Hy & Hv)%bind_Some.
  assert (rbias y = DASM_SEC2POS (DASM_POS2SEC x)) as Hr.
  { apply (HB _ (bsize y) _ (pos y) (epos y) (ofs y)). unfold smeta. by rewrite Hy. }
  rewrite Hr in Hv. unfold cells. apply list_elem_of_join.
  unfold zget in Hy. case_match eqn:E; [done|].
  eexists. split; [|apply list_elem_of_lookup; exists (Z.to_nat (DASM_POS2SEC x));
    rewrite list_lookup_imap, Hy; cbn; reflexivity].
  apply list_elem_of_fmap. eexists (_, v). split; [|by apply elem_of_map_to_list].
  cbn. f_equal. lia.
Qed.

Lemma nodup_cells_length D (l : list Z) :
  biased D -> NoDup l -> (forall x, x ∈ l -> is_Some (cell D x)) -> (length l <= length (cells D))%nat.
Proof.
  intros HB Hnd Hl.
  set (f := fun x => (DASM_POS2SEC x, x - DASM_SEC2POS (DASM_POS2SEC x))).
  rewrite <- (length_fmap f l). apply submseteq_length, NoDup_submseteq.
  - apply NoDup_fmap_2; [|done]. intros x y. unfold f. intros [= E1 E2]. rewrite E1 in E2. lia.
  - intros z (x & -> & Hx)%list_elem_of_fmap. destruct (Hl x Hx) as [v Hv].
    exact (cell_in_cells D x v HB Hv).
Qed.

(** ** Chains *)

(** The chain anchored at [v] runs through the cells [l] and ends with 0. *)
Fixpoint chain (D : dasm_State) (v : Z) (l : list Z) : Prop :=
  match l with
  | [] => v = 0
  | x :: l => v = x /\ 0 < x /\ exists v', cell D x = Some v' /\ chain D v' l
  end.

Lemma chain_same D D' v l : (forall y, y ∈ l -> cell D' y = cell D y) -> chain D v l -> chain D' v l.
Proof.
  revert v. induction l as [|x l IH]; intros v H; cbn; [done|].
  intros (-> & Hx & v' & Hv & Hc). split; [done|]. split; [done|]. exists v'.
  rewrite H by constructor. split; [done|]. apply IH; [|done]. intros. apply H. by constructor.
Qed.

Lemma chain_is_Some D v l x : chain D v l -> x ∈ l -> is_Some (cell D x).
Proof.
  revert v. induction l as [|y l IH]; intros v; cbn; [by intros _ ?%not_elem_of_nil|].
  intros (-> & Hx & v' & Hv & Hc) [->|H]%elem_of_cons; [by eexists|by eapply IH].
Qed.

Definition same_labels (D D' : dasm_State) : Prop :=
  lglabels D' = lglabels D /\ pclabels D' = pclabels D.

(** Collapsing a chain stores [v] in each of its cells and nowhere else. *)
Lemma collapse_spec v l : forall fuel D n,
  (length l < fuel)%nat -> biased D -> chain D n l -> NoDup l ->
  (forall x, x ∈ l -> room D (DASM_POS2SEC x) x) ->
  exists D', collapse fuel D n v = Done D' /\ frame D D' /\ same_labels D D' /\
    (forall y, y ∈ l -> cell D' y = Some v) /\ (forall y, (y ∉ l) -> cell D' y = cell D y).
Proof.
  induction l as [|x l IH]; intros [|fuel] D n Hf HB Hc Hnd Hr; try (cbn in Hf; lia); cbn in Hc.
  - subst n. exists D. cbn. split; [done|]. split; [done|]. split; [done|].
    split; [by intros y ?%not_elem_of_nil|done].
  - destruct Hc as (-> & Hx & v' & Hv & Hc). apply NoDup_cons in Hnd as [Hni Hnd].
    cbn [collapse]. replace (0 <? x) with true by lia.
    rewrite rp_cell, Hv. cbn [acc mbind outcome_bind].
    destruct (wb_wrote D (DASM_POS2SEC x) x v HB) as (D1 & E1 & W); [apply Hr; constructor|].
    unfold wp. rewrite E1. cbn [mbind outcome_bind].
    destruct (IH fuel D1 v') as (D' & -> & F & L & Hin & Hout).
    + cbn in Hf. lia.
    + eapply biased_frame; [apply W|done].
    + eapply chain_same; [|done]. intros y Hy. apply (wr_ne _ _ _ _ W). by intros ->.
    + done.
    + intros y Hy. eapply room_frame; [apply W|]. apply Hr. by constructor.
    + exists D'. split; [done|]. split; [by etrans; [apply W|]|].
      split; [destruct L, W; split; congruence|]. split.
      * intros y [->|Hy]%elem_of_cons; [|by apply Hin]. rewrite Hout by done. apply W.
      * intros y [Hy1 Hy2]%not_elem_of_cons. rewrite Hout by done. by apply W.
Qed.

(** ** The invariant of pass 1 *)

Definition slot_val (D : dasm_State) (ls : lstate) (v : Z) : Prop :=
  match ls with Def q => 0 < q /\ v = - q | Pend l => chain D v l end.

(** [D] holds the known cells, each label slot its definition or chain; the
    cells in use lie below the current positions. *)
Record inv (D : dasm_State) (g : ghost) (cur : Z -> Z) : Prop := Inv {
  i_kn : forall x v, kn g !! x = Some v -> cell D x = Some v;
  i_slot : forall pl, ckpl D pl = true ->
    exists v, zget (labels D pl) (slot_idx pl) = Some v /\ slot_val D (lb g pl) v;
  i_nd : forall pl, NoDup (pend g pl);
  i_dis : forall pl pl' x, x ∈ pend g pl -> x ∈ pend g pl' -> pl = pl';
  i_kp : forall pl x, x ∈ pend g pl -> kn g !! x = None;
  i_room : forall pl x, x ∈ pend g pl -> room D (DASM_POS2SEC x) x;
  i_occ : forall x, is_Some (kn g !! x) \/ (exists pl, x ∈ pend g pl) -> x < cur (DASM_POS2SEC x);
  i_bias : biased D }.

Lemma ckpl_frame D D' pl : frame D D' -> ckpl D' pl = ckpl D pl.
Proof.
  intros F. unfold ckpl, zlen. f_equal. destruct pl; cbn; by rewrite ?(fr_lg _ _ F), ?(fr_pc _ _ F).
Qed.

Lemma upd_eq {A B} `{EqDecision A} (f : A -> B) a b : upd f a b a = b.
Proof. unfold upd. by rewrite decide_True. Qed.
Lemma upd_ne {A B} `{EqDecision A} (f : A -> B) a b c : c <> a -> upd f a b c = f c.
Proof. intros. unfold upd. by rewrite decide_False. Qed.

Lemma occ_upd (cur : Z -> Z) s x y : cur s = x -> y < cur (DASM_POS2SEC y) ->
  y < upd cur s (x + 1) (DASM_POS2SEC y).
Proof.
  intros <-. unfold upd. case_decide as E; [|done]. rewrite E. lia.
Qed.

Lemma occ_new (cur : Z -> Z) s x : in_sec s x -> x < upd cur s (x + 1) (DASM_POS2SEC x).
Proof. intros H. rewrite (in_sec_pos2sec s x H), upd_eq. lia. Qed.

Lemma fresh D g cur s x : inv D g cur -> in_sec s x -> cur s = x ->
  kn g !! x = None /\ forall pl, x ∉ pend g pl.
Proof.
  intros I Hx Hc. assert (~ x < cur (DASM_POS2SEC x)) as Hn.
  { rewrite (in_sec_pos2sec s x Hx). lia. }
  split.
  - apply eq_None_not_Some. intros H. apply Hn, (i_occ _ _ _ I). by left.
  - intros pl H. apply Hn, (i_occ _ _ _ I). right. by exists pl.
Qed.

(** A fresh cell with a value of its own. *)
Lemma inv_write D D' g cur s x v :
  inv D g cur -> in_sec s x -> cur s = x -> wrote D D' x v ->
  inv D' (gput g x v) (upd cur s (x + 1)).
Proof.
  intros I Hx Hc W. destruct (fresh _ _ _ _ _ I Hx Hc) as [Hk Hp].
  constructor; cbn.
  - intros y u. destruct (Z.eq_dec y x) as [->|Hne].
    + rewrite lookup_insert_eq. intros [= <-]. apply W.
    + rewrite lookup_insert_ne by done. rewrite (wr_ne _ _ _ _ W y Hne). apply I.
  - intros pl. rewrite (ckpl_frame _ _ _ (wr_frame _ _ _ _ W)). intros Hp'.
    destruct (i_slot _ _ _ I pl Hp') as (u & Hu & Hs). exists u. split.
    { destruct pl; cbn in *; by rewrite ?(wr_lg _ _ _ _ W), ?(wr_pc _ _ _ _ W). }
    specialize (Hp pl). unfold pend in Hp. destruct (lb g pl); cbn in *; [done|].
    eapply chain_same; [|done]. intros y Hy. apply W. by intros ->.
  - apply I.
  - apply I.
  - intros pl y Hy. rewrite lookup_insert_ne; [by eapply I|]. intros <-. by eapply Hp.
  - intros pl y Hy. eapply room_frame; [apply W|]. by eapply I.
  - intros y Hy. destruct (Z.eq_dec y x) as [->|Hne]; [by apply occ_new|].
    rewrite lookup_insert_ne in Hy by done. apply occ_upd; [done|]. by apply I.
  - eapply biased_frame; [apply W|apply I].
Qed.

(** Setting a label slot. *)
Record setlab (D D' : dasm_State) (pl : slot) (v : Z) : Prop := Setlab {
  sl_cell : forall x, cell D' x = cell D x;
  sl_frame : frame D D';
  sl_eq : zget (labels D' pl) (slot_idx pl) = Some v;
  sl_ne : forall pl', pl' <> pl -> zget (labels D' pl') (slot_idx pl') = zget (labels D pl') (slot_idx pl') }.

Lemma setl_spec D pl v : ckpl D pl = true -> exists D', setl D pl v = Done D' /\ setlab D D' pl v.
Proof.
  unfold ckpl. intros H. unfold setl.
  destruct (zset_is_Some (labels D pl) (slot_idx pl) v) as [l Hl]; [lia|].
  rewrite Hl. cbn [acc mbind outcome_bind]. eexists. split; [done|].
  pose proof (zset_length _ _ _ _ Hl) as Hlen. unfold zlen in Hlen.
  destruct pl as [k|k]; cbn in *; constructor; cbn; try done.
  - constructor; cbn; try done; lia.
  - by eapply zget_zset_eq.
  - intros [k'|k'] Hne; cbn; [|done]. eapply zget_zset_ne; [done|congruence].
  - constructor; cbn; try done; lia.
  - by eapply zget_zset_eq.
  - intros [k'|k'] Hne; cbn; [done|]. eapply zget_zset_ne; [done|congruence].
Qed.

Lemma getl_spec D pl v : zget (labels D pl) (slot_idx pl) = Some v -> getl D pl = Done v.
Proof. unfold getl. by intros ->. Qed.

Lemma pend_upd m lbf lbset pl ls pl' :
  pend (Gh m (upd lbf pl ls) lbset) pl' =
  if decide (pl' = pl) then match ls with Def _ => [] | Pend l => l end
  else match lbf pl' with Def _ => [] | Pend l => l end.
Proof. unfold pend. cbn. unfold upd. by case_decide. Qed.

(** A reference that waits: it joins the chain of its slot. *)
Lemma inv_wait D D1 D2 g cur s x pl n :
  inv D g cur -> in_sec s x -> cur s = x -> 0 < x -> room D s x ->
  wrote D D1 x n -> setlab D1 D2 pl x -> chain D n (pend g pl) ->
  inv D2 (gwait g x pl (pend g pl)) (upd cur s (x + 1)).
Proof.
  intros I Hx Hc Hpos Hroom W S Hch. destruct (fresh _ _ _ _ _ I Hx Hc) as [Hk Hp].
  assert (frame D D2) as F by (etrans; [apply W|apply S]).
  assert (forall y, y <> x -> cell D2 y = cell D y) as Hne.
  { intros y Hy. rewrite (sl_cell _ _ _ _ S). by apply W. }
  assert (forall pl' y, y ∈ pend g pl' -> cell D2 y = cell D y) as Hsame.
  { intros pl' y Hy. apply Hne. intros ->. by eapply Hp. }
  assert (forall pl', pend (gwait g x pl (pend g pl)) pl' =
    if decide (pl' = pl) then x :: pend g pl else pend g pl') as Hpend.
  { intros pl'. unfold gwait. by rewrite pend_upd. }
  constructor.
  - intros y u Hy. cbn in Hy. rewrite Hne; [by apply I|]. congruence.
  - intros pl'. rewrite (ckpl_frame _ _ _ F). intros Hck. cbn [gwait lb]. unfold upd. case_decide as E.
    + subst pl'. exists x. split; [apply S|]. cbn. split; [done|]. split; [done|]. exists n.
      rewrite (sl_cell _ _ _ _ S). split; [apply W|]. eapply chain_same; [apply Hsame|done].
    + destruct (i_slot _ _ _ I pl' Hck) as (u & Hu & Hs). exists u.
      rewrite (sl_ne _ _ _ _ S) by done. split.
      { destruct pl'; cbn in *; by rewrite ?(wr_lg _ _ _ _ W), ?(wr_pc _ _ _ _ W). }
      specialize (Hsame pl'). unfold pend in Hsame. destruct (lb g pl'); cbn in *; [done|].
      by eapply chain_same.
  - intros pl'. rewrite Hpend. case_decide; [|apply I]. apply NoDup_cons. split; [apply Hp|apply I].
  - intros pl1 pl2 y. rewrite !Hpend. repeat case_decide; subst; try done.
    + intros [->|Hy]%elem_of_cons Hy'; [by apply Hp in Hy'|]. by eapply I.
    + intros Hy' [->|Hy]%elem_of_cons; [by apply Hp in Hy'|]. by eapply I.
    + apply I.
  - intros pl' y. rewrite Hpend. case_decide; [|apply I].
    intros [->|Hy]%elem_of_cons; [done|]. by eapply I.
  - intros pl' y. rewrite Hpend. intros Hy. eapply room_frame; [done|].
    case_decide; [|by eapply I]. apply elem_of_cons in Hy as [->|Hy]; [|by eapply I].
    by rewrite (in_sec_pos2sec s x Hx).
  - intros y Hy. destruct (Z.eq_dec y x) as [->|Hyx]; [by apply occ_new|].
    apply occ_upd; [done|]. apply (i_occ _ _ _ I). destruct Hy as [Hy|[pl' Hy]]; [by left|].
    right. rewrite Hpend in Hy. case_decide; [|by eexists].
    apply elem_of_cons in Hy as [->|Hy]; [done|by eexists].
  - eapply biased_frame; [done|apply I].
Qed.

Lemma bind_all_in m l q y : y ∈ l -> bind_all m l q !! y = Some q.
Proof.
  induction l as [|z l IH]; [by intros ?%not_elem_of_nil|]. cbn.
  destruct (Z.eq_dec z y) as [->|Hne]; [by rewrite lookup_insert_eq|].
  rewrite lookup_insert_ne by done. intros [->|H]%elem_of_cons; [done|by apply IH].
Qed.

Lemma bind_all_out m l q y : (y ∉ l) -> bind_all m l q !! y = m !! y.
Proof.
  induction l as [|z l IH]; [done|]. cbn. intros [Hne H]%not_elem_of_cons.
  rewrite lookup_insert_ne by done. by apply IH.
Qed.

(** A label definition: the waiting references are bound to it. *)
Lemma inv_label D D1 D2 D3 g cur s x e pl :
  inv D g cur -> in_sec s x -> cur s = x -> 0 < x ->
  frame D D1 -> same_labels D D1 ->
  (forall y, y ∈ pend g pl -> cell D1 y = Some x) -> (forall y, (y ∉ pend g pl) -> cell D1 y = cell D y) ->
  setlab D1 D2 pl (- x) -> wrote D2 D3 x e ->
  inv D3 (glabel g x e pl) (upd cur s (x + 1)).
Proof.
  intros I Hx Hc Hpos F1 L1 Hin Hout S W. destruct (fresh _ _ _ _ _ I Hx Hc) as [Hk Hp].
  assert (frame D D3) as F by (etrans; [apply F1|etrans; [apply S|apply W]]).
  assert (forall y, y <> x -> cell D3 y = cell D1 y) as Hne.
  { intros y Hy. rewrite (wr_ne _ _ _ _ W) by done. apply S. }
  assert (forall pl', pend (glabel g x e pl) pl' = if decide (pl' = pl) then [] else pend g pl') as Hpend.
  { intros pl'. unfold glabel. by rewrite pend_upd. }
  constructor.
  - intros y u. cbn [glabel kn]. destruct (Z.eq_dec y x) as [->|Hyx].
    + rewrite lookup_insert_eq. intros [= <-]. apply W.
    + rewrite lookup_insert_ne by done. rewrite Hne by done.
      destruct (decide (y ∈ pend g pl)) as [Hy|Hy].
      * rewrite bind_all_in by done. intros [= <-]. by apply Hin.
      * rewrite bind_all_out by done. rewrite Hout by done. apply I.
  - intros pl'. rewrite (ckpl_frame _ _ _ F). intros Hck. cbn [glabel lb]. unfold upd. case_decide as E.
    + subst pl'. exists (- x). split; [|done]. rewrite <- (sl_eq _ _ _ _ S).
      destruct pl; cbn; by rewrite ?(wr_lg _ _ _ _ W), ?(wr_pc _ _ _ _ W).
    + destruct (i_slot _ _ _ I pl' Hck) as (u & Hu & Hs). exists u. split.
      { rewrite <- Hu. destruct L1 as [L1 L2].
        replace (labels D3 pl') with (labels D2 pl')
          by (destruct pl'; cbn; by rewrite ?(wr_lg _ _ _ _ W), ?(wr_pc _ _ _ _ W)).
        rewrite (sl_ne _ _ _ _ S) by done. destruct pl'; cbn; congruence. }
      pose proof (Hp pl') as Hp'. pose proof (i_dis _ _ _ I pl' pl) as Hd.
      unfold pend in Hp', Hd. destruct (lb g pl') as [|l]; cbn in *; [done|].
      eapply chain_same; [|done]. intros y Hy. rewrite Hne; [|by intros ->].
      apply Hout. intros Hy'. by apply E, (Hd y).
  - intros pl'. rewrite Hpend. case_decide; [constructor|apply I].
  - intros pl1 pl2 y. rewrite !Hpend. repeat case_decide; subst; try done;
      try (by intros ?%not_elem_of_nil); try (by intros _ ?%not_elem_of_nil). apply I.
  - intros pl' y. rewrite Hpend. case_decide as E; [by intros ?%not_elem_of_nil|]. intros Hy.
    cbn [glabel kn]. rewrite lookup_insert_ne; [|intros <-; by eapply Hp].
    rewrite bind_all_out; [by eapply I|]. intros Hy'. apply E. by eapply I.
  - intros pl' y. rewrite Hpend. case_decide; [by intros ?%not_elem_of_nil|]. intros Hy.
    eapply room_frame; [done|]. by eapply I.
  - intros y Hy. destruct (Z.eq_dec y x) as [->|Hyx]; [by apply occ_new|].
    apply occ_upd; [done|]. apply (i_occ _ _ _ I). destruct Hy as [Hy|[pl' Hy]].
    + cbn [glabel kn] in Hy. rewrite lookup_insert_ne in Hy by done.
      destruct (decide (y ∈ pend g pl)) as [Hin'|Hin']; [right; by eexists|].
      rewrite bind_all_out in Hy by done. by left.
    + right. rewrite Hpend in Hy. case_decide; [by apply not_elem_of_nil in Hy|by eexists].
  - eapply biased_frame; [done|apply I].
Qed.

(** ** Single actions *)

Lemma inv_ext D g cur cur' : (forall s, cur' s = cur s) -> inv D g cur -> inv D g cur'.
Proof. intros H []. constructor; try done. intros. rewrite H. auto. Qed.

Lemma upd_upd {A B} `{EqDecision A} (f : A -> B) a b c x : upd (upd f a b) a c x = upd f a c x.
Proof. unfold upd. by case_decide. Qed.
Lemma upd_same {A B} `{EqDecision A} (f : A -> B) a x : upd f a (f a) x = f x.
Proof. unfold upd. case_decide; congruence. Qed.

Definition rooms (D : dasm_State) (s x n : Z) : Prop := forall y, x <= y < x + n -> room D s y.

Lemma rooms_frame D D' s x n : frame D D' -> rooms D s x n -> rooms D' s x n.
Proof. intros F H y Hy. eapply room_frame; eauto. Qed.

Lemma code_at_act D p a bs : code_at (actionlist D) p (a :: bs) -> act D p = Done a.
Proof.
  intros (pre & post & E & <-). unfold act. rewrite E. cbn [app]. by rewrite zget_middle.
Qed.

Lemma code_at_cons al p a bs : code_at al p (a :: bs) -> code_at al (p + 1) bs.
Proof.
  intros (pre & post & -> & <-). exists (pre ++ [a]), post. split; [by rewrite <- app_assoc|].
  zlen_simpl. lia.
Qed.

Lemma code_at_app al p xs bs : code_at al p (xs ++ bs) -> code_at al (p + zlen xs) bs.
Proof.
  intros (pre & post & -> & <-). exists (pre ++ xs), post. split; [by rewrite <- !app_assoc|].
  by rewrite zlen_app.
Qed.

(** Decide the comparisons of literal numbers. *)
Ltac ground :=
  repeat match goal with
  | |- context [?a =? ?b] => let v := eval vm_compute in (a =? b) in
      match v with true => change (a =? b) with v | false => change (a =? b) with v end
  | |- context [?a <? ?b] => let v := eval vm_compute in (a <? b) in
      match v with true => change (a <? b) with v | false => change (a <? b) with v end
  | |- context [?a <=? ?b] => let v := eval vm_compute in (a <=? b) in
      match v with true => change (a <=? b) with v | false => change (a <=? b) with v end
  end; cbn [andb orb negb].

Ltac run := cbn [acc mbind outcome_bind]; ground; cbn [acc mbind outcome_bind].

Lemma short_iff n : short n = true <-> -128 <= n <= 127.
Proof.
  unfold short. rewrite Z.eqb_eq. change (-256) with (Z.lnot (Z.ones 8)).
  rewrite <- Z.ldiff_land, Z.ldiff_ones_r by lia.
  rewrite Z.shiftl_mul_pow2, Z.shiftr_div_pow2 by lia. change (2 ^ 8) with 256. zlia.
Qed.

Lemma land_high n k : 0 <= k -> 0 <= n < 2 ^ k -> Z.land n (- 2 ^ k) = 0.
Proof.
  intros Hk Hn. replace (- 2 ^ k) with (Z.lnot (Z.ones k)).
  2:{ rewrite Z.ones_equiv. unfold Z.lnot. lia. }
  rewrite <- Z.ldiff_land, Z.ldiff_ones_r by lia.
  rewrite Z.shiftl_mul_pow2, Z.shiftr_div_pow2 by lia. rewrite Z.div_small by lia. done.
Qed.

(** The cell of a reference. *)
Lemma ref_cell D g cur s x r g' :
  inv D g cur -> room D s x -> cur s = x -> 0 < x -> ckpl D (ref_slot r) = true ->
  gref g x r = Some g' ->
  exists v, zget (labels D (ref_slot r)) (slot_idx (ref_slot r)) = Some v /\
    (match r with Bwd _ => v < 0 | _ => True end) /\
    let n := match r with Fwd _ => if v <? 0 then 0 else v | _ => v end in
    exists D', (if n <? 0 then wb D s x (- n) else D ← wb D s x n; setl D (ref_slot r) x) = Done D' /\
      frame D D' /\ inv D' g' (upd cur s (x + 1)).
Proof.
  intros I Hroom Hc Hpos Hck Hg. pose proof Hroom as [Hx _].
  destruct (i_slot _ _ _ I _ Hck) as (v & Hv & Hs). exists v. split; [done|].
  assert (Hwait : forall n, chain D n (pend g (ref_slot r)) -> g' = gwait g x (ref_slot r) (pend g (ref_slot r)) ->
    exists D', (D ← wb D s x n; setl D (ref_slot r) x) = Done D' /\
      frame D D' /\ inv D' g' (upd cur s (x + 1))).
  { intros n Hch ->. destruct (wb_wrote D s x n (i_bias _ _ _ I) Hroom) as (D1 & -> & W).
    cbn [mbind outcome_bind]. destruct (setl_spec D1 (ref_slot r) x) as (D2 & -> & S).
    { by rewrite (ckpl_frame _ _ _ (wr_frame _ _ _ _ W)). }
    exists D2. split; [done|]. split; [etrans; [apply W|apply S]|]. by eapply inv_wait. }
  assert (Hdef : forall q, g' = gput g x q -> exists D', wb D s x q = Done D' /\
      frame D D' /\ inv D' g' (upd cur s (x + 1))).
  { intros q ->. destruct (wb_wrote D s x q (i_bias _ _ _ I) Hroom) as (D1 & -> & W).
    exists D1. split; [done|]. split; [apply W|]. by eapply inv_write. }
  unfold gref in Hg. unfold pend in Hwait. destruct (lb g (ref_slot r)) as [q|l] eqn:El; cbn in Hs.
  - destruct Hs as [Hq ->]. split; [destruct r; [done|lia|done..]|].
    destruct r as [k|k|k|k]; simplify_eq; cbn zeta.
    + replace (- q <? 0) with true by lia. change (0 <? 0) with false. cbv iota. by apply Hwait.
    + replace (- q <? 0) with true by lia. rewrite Z.opp_involutive. by apply Hdef.
    + replace (- q <? 0) with true by lia. rewrite Z.opp_involutive. by apply Hdef.
    + replace (- q <? 0) with true by lia. rewrite Z.opp_involutive. by apply Hdef.
  - assert ((v <? 0) = false) as Hv0. { destruct l; cbn in Hs; lia. }
    destruct r as [k|k|k|k]; simplify_eq; (split; [done|]); cbn zeta;
      rewrite ?Hv0; cbv iota; rewrite ?Hv0; by apply Hwait.
Qed.

(** The reference actions: [rel] tells a branch from an absolute address. *)
Lemma put_ref_spec (rel : bool) D g cur s p x e mrm r rest g' bs :
  inv D g cur -> rooms D s x (if rel then 2 else 1) -> cur s = x -> 0 < x ->
  wf_ref (zlen (lglabels D)) (zlen (pclabels D)) (zlen (globals D)) r -> gref g x r = Some g' ->
  let lg := if rel then DASM_REL_LG else DASM_IMM_LG in
  let pc := if rel then DASM_REL_PC else DASM_IMM_PC in
  code_at (actionlist D) p (ref_acts lg pc r ++ bs) ->
  exists D' a, act D p = Done a /\ DASM_REL_A < a <= DASM_LABEL_PC /\
    put_ref D s a (p + 1) x e mrm (ref_args r ++ rest) =
      Done (Go D' (p + zlen (ref_acts lg pc r)) (x + if rel then 2 else 1) (e + 4) mrm rest) /\
    frame D D' /\
    inv D' (if rel then gput g' (x + 1) (e + 4) else g') (upd cur s (x + if rel then 2 else 1)).
Proof.
  intros I Hrooms Hc Hpos [Hwf Hk] Hg lg pc Hcode.
  assert (room D s x) as Hroom by (apply Hrooms; destruct rel; lia).
  assert (ckpl D (ref_slot r) = true) as Hck.
  { unfold ckpl. destruct r; cbn in *; lia. }
  destruct (ref_cell D g cur s x r g' I Hroom Hc Hpos Hck Hg) as (v & Hv & Hbwd & D1 & HD1 & F1 & I1).
  cbn zeta in HD1.
  (* the common tail *)
  set (n := match r with Fwd _ => if v <? 0 then 0 else v | _ => v end) in *.
  set (dx := if rel then 2 else 1) in *.
  assert (Htail : forall a p', (a = lg \/ a = pc) -> exists D',
    linkrel D s a p' x e mrm rest (ref_slot r) n = Done (Go D' p' (x + dx) (e + 4) mrm rest) /\
    frame D D' /\ inv D' (if rel then gput g' (x + 1) (e + 4) else g') (upd cur s (x + dx))).
  { intros a p' Ha. unfold linkrel. rewrite HD1. cbn [mbind outcome_bind]. destruct rel.
    - destruct (wb_wrote D1 s (x + 1) (e + 4) (i_bias _ _ _ I1)) as (D2 & E2 & W).
      { eapply room_frame; [done|]. apply Hrooms. lia. }
      replace ((a =? DASM_REL_LG) || (a =? DASM_REL_PC)) with true by (destruct Ha; subst a; done).
      rewrite E2. exists D2. cbn [mbind outcome_bind]. split; [by rewrite <- Z.add_assoc|].
      split; [etrans; [done|apply W]|].
      eapply inv_ext; [|eapply inv_write; [apply I1| |apply upd_eq|done]].
      + intros t. unfold dx. rewrite upd_upd. by rewrite <- Z.add_assoc.
      + apply (Hrooms (x + 1)). lia.
    - replace ((a =? DASM_REL_LG) || (a =? DASM_REL_PC)) with false by (destruct Ha; subst a; done).
      exists D1. done. }
  assert (Hput : forall a p', (a = lg \/ a = pc) -> match r with Fwd _ => False | _ => True end ->
    putrel D s a p' x e mrm rest (ref_slot r) = linkrel D s a p' x e mrm rest (ref_slot r) n).
  { intros a p' _ Hr. unfold putrel. rewrite Hck. cbn [negb].
    rewrite (getl_spec _ _ _ Hv). cbn [mbind outcome_bind]. by destruct r. }
  assert (Hlg : DASM_REL_A < lg <= DASM_LABEL_PC /\ ((lg =? DASM_REL_LG) || (lg =? DASM_IMM_LG)) = true)
    by (unfold lg; by destruct rel).
  assert (Hpc : DASM_REL_A < pc <= DASM_LABEL_PC /\ ((pc =? DASM_REL_LG) || (pc =? DASM_IMM_LG)) = false /\
    ((pc =? DASM_REL_PC) || (pc =? DASM_IMM_PC)) = true) by (unfold pc; by destruct rel).
  destruct Hlg as [Hlg1 Hlg2], Hpc as (Hpc1 & Hpc2 & Hpc3).
  destruct r as [k|k|k|k]; cbn [ref_acts ref_args ref_slot app zlen] in *.
  - destruct (Htail lg (p + 1 + 1) ltac:(by left)) as (D' & E & F & I').
    exists D', lg. split; [by eapply code_at_act|]. split; [done|]. split; [|done].
    unfold put_ref. rewrite Hlg2. rewrite (code_at_act _ _ _ _ (code_at_cons _ _ _ _ Hcode)).
    cbn [mbind outcome_bind]. replace (246 + k <=? 246) with false by lia.
    replace (246 + k - 246) with k by lia. rewrite (getl_spec D (LG k) v Hv). cbn [mbind outcome_bind].
    fold n. rewrite E. zlen_simpl. do 2 f_equal. lia.
  - destruct (Htail lg (p + 1 + 1) ltac:(by left)) as (D' & E & F & I').
    exists D', lg. split; [by eapply code_at_act|]. split; [done|]. split; [|done].
    unfold put_ref. rewrite Hlg2. rewrite (code_at_act _ _ _ _ (code_at_cons _ _ _ _ Hcode)).
    cbn [mbind outcome_bind]. replace (k <=? 246) with true by lia. replace (10 <=? k) with false by lia.
    rewrite (getl_spec D (LG k) v Hv). cbn [mbind outcome_bind]. replace (v <? 0) with true by lia.
    cbn [negb]. rewrite (Hput lg) by (first [by left|done]). rewrite E. zlen_simpl. do 2 f_equal. lia.
  - destruct (Htail lg (p + 1 + 1) ltac:(by left)) as (D' & E & F & I').
    exists D', lg. split; [by eapply code_at_act|]. split; [done|]. split; [|done].
    unfold put_ref. rewrite Hlg2. rewrite (code_at_act _ _ _ _ (code_at_cons _ _ _ _ Hcode)).
    cbn [mbind outcome_bind]. cbn in Hwf. replace (k <=? 246) with true by lia. replace (10 <=? k) with true by lia.
    cbn [mbind outcome_bind negb]. rewrite (Hput lg) by (first [by left|done]). rewrite E.
    zlen_simpl. do 2 f_equal. lia.
  - destruct (Htail pc (p + 1) ltac:(by right)) as (D' & E & F & I').
    exists D', pc. split; [by eapply code_at_act|]. split; [done|]. split; [|done].
    unfold put_ref. rewrite Hpc2, Hpc3. cbn [app].
    rewrite (Hput pc) by (first [by right|done]). rewrite E. done.
Qed.

(** ** The loop of [dasm_put] *)

(** Offsets that an [int] holds. *)
Lemma sint_ok n : in_i32 n -> sint n = Done n.
Proof. unfold in_i32, sint. intros H. by replace ((-2147483648 <=? n) && (n <? 2147483648)) with true by lia. Qed.

(** The next action, at an offset in range. *)
Ltac next_act := cbn [mbind outcome_bind]; rewrite sint_ok by zlia; cbn [mbind outcome_bind].

Section steps.
Context (fuel : nat) (D : dasm_State) (s p x e mrm : Z) (al : list Z).
Context (He : 0 <= e).

Lemma loop_lit b : act D p = Done b -> b < DASM_DISP -> e + 1 < 2147483648 ->
  put_loop (S fuel) D s p x e mrm al = put_loop fuel D s (p + 1) x (e + 1) mrm al.
Proof.
  intros Ha Hb Hi. cbn [put_loop]. rewrite Ha. cbn [mbind outcome_bind].
  replace (b <? DASM_DISP) with true by lia. by next_act.
Qed.

Lemma loop_esc : act D p = Done DASM_ESC -> e + 1 < 2147483648 ->
  put_loop (S fuel) D s p x e mrm al = put_loop fuel D s (p + 2) x (e + 1) mrm al.
Proof. intros Ha Hi. cbn [put_loop]. rewrite Ha. run. next_act. by rewrite <- Z.add_assoc. Qed.

Lemma loop_extern : act D p = Done DASM_EXTERN -> e + 4 < 2147483648 ->
  put_loop (S fuel) D s p x e mrm al = put_loop fuel D s (p + 3) x (e + 4) mrm al.
Proof. intros Ha Hi. cbn [put_loop]. rewrite Ha. run. next_act. by rewrite <- Z.add_assoc. Qed.

Lemma loop_ref a D' p' x' e' al' : act D p = Done a -> DASM_REL_A < a <= DASM_LABEL_PC ->
  put_ref D s a (p + 1) x e mrm al = Done (Go D' p' x' e' mrm al') -> in_i32 e' ->
  put_loop (S fuel) D s p x e mrm al = put_loop fuel D' s p' x' e' mrm al'.
Proof.
  intros Ha Hr E Hi. cbn [put_loop]. rewrite Ha. cbn [mbind outcome_bind].
  unfold DASM_REL_A, DASM_LABEL_PC, DASM_DISP in *.
  replace (a <? 233) with false by lia. replace (a <=? 243) with false by lia.
  replace (a <=? 249) with true by lia. rewrite E. by next_act.
Qed.

Lemma loop_arg a n D1 p' e' : act D p = Done a -> DASM_DISP <= a <= DASM_REL_A -> a <> DASM_VREG ->
  wb D s x n = Done D1 ->
  put_arg D1 s a (p + 1) (x + 1) e mrm n al = Done (Go D1 p' (x + 1) e' (-1) al) -> in_i32 e' ->
  put_loop (S fuel) D s p x e mrm (n :: al) = put_loop fuel D1 s p' (x + 1) e' (-1) al.
Proof.
  intros Ha Hr Hv Hw E Hi. cbn [put_loop]. rewrite Ha. cbn [mbind outcome_bind].
  unfold DASM_REL_A, DASM_VREG, DASM_DISP in *.
  replace (a <? 233) with false by lia. replace (a <=? 243) with true by lia.
  rewrite Hw. cbn [mbind outcome_bind]. replace (a =? 240) with false by lia. rewrite E. by next_act.
Qed.

Lemma loop_align m D1 : act D p = Done DASM_ALIGN -> act D (p + 1) = Done m ->
  wb D s x (e + m) = Done D1 -> in_i32 (e + m) ->
  put_loop (S fuel) D s p x e mrm al = put_loop fuel D1 s (p + 2) (x + 1) (e + m) mrm al.
Proof.
  intros Ha Hm Hw Hi. cbn [put_loop]. rewrite Ha. run. rewrite Hm. cbn [mbind outcome_bind].
  rewrite Hw. next_act. by rewrite <- Z.add_assoc.
Qed.
End steps.

(** A run of literal bytes. *)
Lemma loop_lits ops : forall fuel D s p x e mrm al bs, 0 <= e ->
  code_at (actionlist D) p (ops ++ bs) -> Forall (fun b => b < DASM_DISP) ops -> e + zlen ops < 2147483648 ->
  put_loop (length ops + fuel) D s p x e mrm al = put_loop fuel D s (p + zlen ops) x (e + zlen ops) mrm al.
Proof.
  induction ops as [|b ops IH]; intros fuel D s p x e mrm al bs He Hc Hb Hi; cbn [length Nat.add app] in *.
  - zlen_simpl. by rewrite !Z.add_0_r.
  - apply Forall_cons in Hb as [Hb Hops]. rewrite zlen_cons in *. pose proof (zlen_nonneg ops).
    rewrite (loop_lit _ _ _ _ _ _ _ _ He b) by (try done; try lia; by eapply code_at_act).
    rewrite (IH _ _ _ _ _ _ _ _ bs) by (try done; try lia; by eapply code_at_cons). f_equal; lia.
Qed.

Definition nact (i : instr) : nat :=
  match i with Jmp _ | Call _ | Mem _ _ => 2 | Jcc _ _ | Alu _ _ _ _ => 3 | _ => 1 end.

Lemma is_byte_iff n : is_byte n = true <-> -128 <= n <= 127.
Proof. unfold is_byte. lia. Qed.

Lemma short_is_byte n : short n = is_byte n.
Proof. apply eq_true_iff_eq. by rewrite short_iff, is_byte_iff. Qed.

Lemma esz_nonneg nlg npc ngl i : wf_instr nlg npc ngl i -> 0 <= esz i.
Proof.
  destruct i; cbn; try lia; repeat case_match; try lia.
  intros (k & Hk & ->). pose proof (Z.pow_pos_nonneg 2 k). lia.
Qed.

Section put_instr.
Context (D : dasm_State) (g : ghost) (cur : Z -> Z) (s p x e : Z).
Context (I : inv D g cur) (Hc : cur s = x) (Hpos : 0 < x) (He : 0 <= e).

(** An instruction stores its cells and advances the counters. *)
Definition puts (i : instr) : Prop :=
  forall g' bs rest,
  wf_instr (zlen (lglabels D)) (zlen (pclabels D)) (zlen (globals D)) i ->
  code_at (actionlist D) p (acts i ++ bs) ->
  rooms D s x (npos i) -> e + esz i < 2147483648 ->
  gstep g x e i = Some g' ->
  exists D', frame D D' /\ inv D' g' (upd cur s (x + npos i)) /\
    forall fuel, put_loop (nact i + fuel) D s p x e (-1) (args i ++ rest) =
      put_loop fuel D' s (p + zlen (acts i)) (x + npos i) (e + esz i) (-1) rest.

Lemma inv_0 : inv D g (upd cur s (x + 0)).
Proof. eapply inv_ext; [|done]. intros t. rewrite Z.add_0_r, <- Hc. apply upd_same. Qed.

Lemma puts_bytes i : match i with Lit _ | Esc _ | Extern _ _ => True | _ => False end -> puts i.
Proof.
  intros Hi g' bs rest Hwf Hcode _ Hsz Hg. exists D. split; [done|].
  destruct i; try done; injection Hg as <-; (split; [apply inv_0|]); intros fuel;
    cbn [acts app] in Hcode; cbn [npos nact args app acts esz Nat.add] in *; zlen_simpl; rewrite ?Z.add_0_r.
  - eapply loop_lit; [done|by eapply code_at_act|cbn in Hwf; lia|done].
  - rewrite loop_esc by (try done; by eapply code_at_act). f_equal; lia.
  - rewrite loop_extern by (try done; by eapply code_at_act). f_equal; lia.
Qed.

(** Literal bytes, then an action with an argument. *)
Lemma puts_shape i ops a tl n : acts i = ops ++ a :: tl -> args i = [n] -> npos i = 1 ->
  nact i = (length ops + 1)%nat -> Forall (fun b => b < DASM_DISP) ops -> zlen ops <= esz i ->
  DASM_DISP <= a <= DASM_REL_A -> a <> DASM_VREG -> gstep g x e i = Some (gput g x n) ->
  (forall D1 bs rest, code_at (actionlist D1) p (acts i ++ bs) ->
    put_arg D1 s a (p + zlen ops + 1) (x + 1) (e + zlen ops) (-1) n rest =
      Done (Go D1 (p + zlen (acts i)) (x + 1) (e + esz i) (-1) rest)) -> puts i.
Proof.
  intros Ha Hn Hx Hk Hops Hz Hra Hv Hg' Hput g' bs rest _ Hcode Hr Hsz Hg.
  rewrite Hg' in Hg. injection Hg as <-. rewrite Hx in *. pose proof (zlen_nonneg ops).
  destruct (wb_wrote D s x n (i_bias _ _ _ I)) as (D1 & Hw & W); [apply Hr; lia|].
  exists D1. split; [apply W|]. split.
  { eapply inv_write; [done| |done|done]. apply (Hr x). lia. }
  intros fuel. specialize (Hput D1 bs rest). rewrite (fr_al _ _ (wr_frame _ _ _ _ W)) in Hput.
  specialize (Hput Hcode). rewrite Hk, Hn, <- Nat.add_assoc. rewrite Ha, <- app_assoc in Hcode.
  rewrite (loop_lits ops _ _ _ _ _ _ _ _ _ He Hcode Hops) by lia. cbn [Nat.add app].
  eapply loop_arg; [|done|done|done|exact Hput|unfold in_i32; lia].
  eapply code_at_act, code_at_app, Hcode.
Qed.

Lemma puts_imm i : match i with ImmS _ | ImmB _ | ImmW _ | ImmD _ | Space _ _ | RelA _ => True | _ => False end -> puts i.
Proof.
  intros Hi g' bs rest Hwf.
  assert (0 <= esz i) as Hz by (by eapply esz_nonneg).
  destruct i as [| |n|n|n|n|n fill| | | | | | | |n| |]; try done; cbn in Hwf;
    (eapply (puts_shape _ [] _ _ n); [done|done|done|done|constructor|done|done|done|done| |exact Hwf]);
    intros D1 bs1 rest1 _; cbn [acts esz]; unfold put_arg; ground; zlen_simpl; rewrite ?Z.add_0_r.
  - by rewrite (proj2 (short_iff n)) by lia.
  - change (-256) with (- 2 ^ 8). by rewrite land_high by (try (cbn; unfold in_u8 in Hwf); lia).
  - change (-65536) with (- 2 ^ 16). by rewrite land_high by (try (cbn; unfold in_u16 in Hwf); lia).
  - done.
  - do 2 f_equal. lia.
  - done.
Qed.

Lemma puts_alu wide op rm n : puts (Alu wide op rm n).
Proof.
  intros g' bs rest Hwf. pose proof Hwf as (Hop & Hrm & Hn).
  assert (Hlit : Forall (fun b => b < DASM_DISP) [op; rm]) by (repeat constructor; lia).
  assert (Hz : zlen [op; rm] <= esz (Alu wide op rm n)) by (cbn [esz]; zlen_simpl; repeat case_match; lia).
  eapply (puts_shape _ [op; rm] (if wide then DASM_IMM_DB else DASM_IMM_WB) [] n);
    [done|done|done|done|done|done|by destruct wide|by destruct wide|done| |exact Hwf].
  intros D1 bs1 rest1 _. unfold put_arg. cbn [esz acts]. rewrite short_is_byte.
  destruct wide; ground; zlen_simpl; destruct (is_byte n) eqn:Eb; ground.
  - do 2 f_equal; lia.
  - do 2 f_equal; lia.
  - do 2 f_equal; lia.
  - assert (0 <= n) as Hn0. { apply Z.nlt_ge. intros Hlt. rewrite (proj2 (is_byte_iff n)) in Eb by lia. done. }
    change (-65536) with (- 2 ^ 16). rewrite land_high by (try (cbn in Hn); lia). change (0 =? 0) with true. cbv iota.
    do 2 f_equal; lia.
Qed.

Lemma puts_mem rm n : puts (Mem rm n).
Proof.
  intros g' bs rest Hwf. pose proof Hwf as (Hrm & Hrm4 & Hn).
  assert (Hlit : Forall (fun b => b < DASM_DISP) [rm]) by (repeat constructor; unfold DASM_DISP; lia).
  assert (Hz : zlen [rm] <= esz (Mem rm n)) by (cbn [esz]; zlen_simpl; repeat case_match; lia).
  eapply (puts_shape _ [rm] DASM_DISP [] n); [done|done|done|done|done|done|done|done|done| |exact Hwf].
  intros D1 bs1 rest1 Hcode. cbn [acts app] in Hcode. unfold put_arg. cbn [esz acts]. rewrite short_is_byte. ground.
  replace (p + zlen [rm] + 1 - 2) with p by (zlen_simpl; lia). rewrite (code_at_act _ _ _ _ Hcode).
  cbn [mbind outcome_bind]. unfold no_disp. zlen_simpl.
  destruct (n =? 0), (Z.land rm 7 =? 5), (is_byte n); cbn [mbind outcome_bind negb andb]; do 2 f_equal; lia.
Qed.

Lemma puts_align m : puts (Align m).
Proof.
  intros g' bs rest Hwf Hcode Hr Hsz [= <-]. pose proof (esz_nonneg _ _ _ _ Hwf) as Hm. cbn [npos acts esz] in *.
  destruct (wb_wrote D s x (e + m) (i_bias _ _ _ I)) as (D1 & Hw & W); [apply Hr; lia|].
  exists D1. split; [apply W|]. split.
  { eapply inv_write; [done| |done|done]. apply (Hr x). lia. }
  intros fuel. cbn [nact Nat.add args app]. rewrite (loop_align _ _ _ _ _ _ _ _ m D1).
  - zlen_simpl. f_equal; lia.
  - by eapply code_at_act.
  - eapply code_at_act, code_at_cons, Hcode.
  - done.
  - unfold in_i32. lia.
Qed.

Lemma slot_ckpl pl : wf_slot (zlen (lglabels D)) (zlen (pclabels D)) (zlen (globals D)) pl -> ckpl D pl = true.
Proof. unfold ckpl. destruct pl; cbn; lia. Qed.

Lemma putlabel_spec pl p' mrm rest : room D s x -> ckpl D pl = true ->
  exists D', putlabel D s p' x e mrm rest pl = Done (Go D' p' (x + 1) e mrm rest) /\
    frame D D' /\ inv D' (glabel g x e pl) (upd cur s (x + 1)).
Proof.
  intros Hr Hck. destruct (i_slot _ _ _ I pl Hck) as (v & Hv & Hs).
  unfold putlabel. rewrite Hck, (getl_spec _ _ _ Hv). cbn [negb mbind outcome_bind].
  assert (exists D1, collapse (chain_fuel D) D v x = Done D1 /\ frame D D1 /\ same_labels D D1 /\
    (forall y, y ∈ pend g pl -> cell D1 y = Some x) /\
    (forall y, (y ∉ pend g pl) -> cell D1 y = cell D y)) as (D1 & -> & F1 & L1 & Hin & Hout).
  { destruct (lb g pl) as [q|l] eqn:El; cbn in Hs.
    - exists D. destruct Hs as [Hq ->]. unfold chain_fuel. cbn [collapse].
      replace (0 <? - q) with false by lia. split; [done|]. split; [done|]. split; [done|].
      unfold pend. rewrite El. split; [by intros y ?%not_elem_of_nil|done].
    - assert (pend g pl = l) as Hp by (unfold pend; by rewrite El). rewrite Hp.
      pose proof (i_nd _ _ _ I pl) as Hnd. rewrite Hp in Hnd.
      apply collapse_spec; try done; [|apply I|].
      + unfold chain_fuel. assert (length l <= length (cells D))%nat; [|lia].
        apply nodup_cells_length; [apply I|done|]. intros y Hy. by eapply chain_is_Some.
      + intros y Hy. apply (i_room _ _ _ I pl). by rewrite Hp. }
  cbn [mbind outcome_bind]. destruct (setl_spec D1 pl (- x)) as (D2 & -> & S).
  { by rewrite (ckpl_frame _ _ _ F1). }
  cbn [mbind outcome_bind]. assert (frame D D2) as F2 by (etrans; [done|apply S]).
  destruct (wb_wrote D2 s x e) as (D3 & -> & W).
  { eapply biased_frame; [done|apply I]. }
  { by eapply room_frame. }
  cbn [mbind outcome_bind]. exists D3. split; [done|]. split; [etrans; [done|apply W]|].
  exact (inv_label D D1 D2 D3 g cur s x e pl I (proj1 Hr) Hc Hpos F1 L1 Hin Hout S W).
Qed.

Lemma puts_label pl : puts (Label pl).
Proof.
  intros g' bs rest Hwf Hcode Hr Hsz [= <-]. cbn [npos esz] in *.
  assert (room D s x) as Hroom by (apply Hr; lia).
  destruct (putlabel_spec pl (p + zlen (acts (Label pl))) (-1) rest Hroom (slot_ckpl pl Hwf))
    as (D' & E & F & I').
  exists D'. split; [done|]. split; [done|]. intros fuel. cbn [nact Nat.add].
  rewrite Z.add_0_r. eapply (loop_ref _ _ _ _ _ _ _ _ (match pl with LG _ => DASM_LABEL_LG | PC _ => DASM_LABEL_PC end)).
  - destruct pl; cbn [acts app] in Hcode; by eapply code_at_act.
  - by destruct pl.
  - destruct pl as [k|k]; unfold put_ref; ground; cbn [args app acts] in *.
    + rewrite (code_at_act _ _ _ _ (code_at_cons _ _ _ _ Hcode)). cbn [mbind outcome_bind].
      revert E. zlen_simpl. by replace (p + 1 + 1) with (p + (1 + (1 + 0))) by lia.
    + revert E. zlen_simpl. by rewrite Z.add_0_r.
  - unfold in_i32. lia.
Qed.

Lemma puts_abs r : puts (Abs r).
Proof.
  intros g' bs rest Hwf Hcode Hr Hsz Hg. cbn [npos acts gstep wf_instr esz] in *.
  destruct (put_ref_spec false D g cur s p x e (-1) r rest g' bs I Hr Hc Hpos Hwf Hg Hcode)
    as (D' & a & Ha & Hra & E & F & I').
  exists D'. split; [done|]. split; [done|]. intros fuel. cbn [nact Nat.add args].
  eapply loop_ref; try done. unfold in_i32. lia.
Qed.

End put_instr.

(** A branch: its opcode bytes, then the reference. *)
Lemma puts_branch D g cur s p x e i r ops :
  inv D g cur -> cur s = x -> 0 < x -> 0 <= e -> 4 <= esz i ->
  acts i = ops ++ ref_acts DASM_REL_LG DASM_REL_PC r -> args i = ref_args r -> npos i = 2 ->
  gstep g x e i = (g ← gref g x r; Some (gput g (x + 1) (e + esz i))) ->
  (wf_instr (zlen (lglabels D)) (zlen (pclabels D)) (zlen (globals D)) i ->
    wf_ref (zlen (lglabels D)) (zlen (pclabels D)) (zlen (globals D)) r) ->
  (forall fuel mrm al bs, code_at (actionlist D) p (ops ++ bs) -> e + esz i < 2147483648 ->
    wf_instr (zlen (lglabels D)) (zlen (pclabels D)) (zlen (globals D)) i ->
    put_loop (nact i + fuel) D s p x e mrm al =
    put_loop (S fuel) D s (p + zlen ops) x (e + (esz i - 4)) mrm al) ->
  puts D g cur s p x e i.
Proof.
  intros I Hc Hpos He He4 Hacts Hargs Hn Hgs Hwfr Hops g' bs rest Hwf Hcode Hr Hsz Hg.
  rewrite Hgs in Hg. destruct (gref g x r) as [g1|] eqn:Eg; cbn in Hg; [|done]. injection Hg as <-.
  rewrite Hacts, <- app_assoc in Hcode. rewrite Hn in Hr.
  destruct (put_ref_spec true D g cur s (p + zlen ops) x (e + (esz i - 4)) (-1) r rest g1 bs
    I Hr Hc Hpos (Hwfr Hwf) Eg (code_at_app _ _ _ _ Hcode)) as (D' & a & Ha & Hra & E & F & I').
  exists D'. split; [done|]. rewrite Hn.
  replace (e + (esz i - 4) + 4) with (e + esz i) in * by lia. split; [done|].
  intros fuel. rewrite (Hops fuel (-1) _ _ Hcode Hsz Hwf), Hargs.
  rewrite (loop_ref _ _ _ _ _ _ _ _ a D' _ _ _ rest Ha Hra E) by (unfold in_i32; lia).
  f_equal. rewrite Hacts. cbn [ref_acts]. rewrite zlen_app. lia.
Qed.

Lemma put_instr D g cur s p x e i :
  inv D g cur -> cur s = x -> 0 < x -> 0 <= e -> puts D g cur s p x e i.
Proof.
  intros I Hc Hpos He. destruct i as [b|b|n|n|n|n|n f|m|idx ty|pl|r|cc r|r|r|n|w op rm n|rm n];
    try (by apply puts_bytes); try (by apply puts_imm).
  - by apply puts_align.
  - by apply puts_label.
  - eapply (puts_branch _ _ _ _ _ _ _ _ r [DASM_ESC; 0xe9]); try done.
    intros fuel mrm al bs Hcode Hsz _. cbn [nact Nat.add esz] in *.
    rewrite loop_esc by (try lia; by eapply code_at_act). zlen_simpl. f_equal; lia.
  - eapply (puts_branch _ _ _ _ _ _ _ _ r [0x0f; 0x80 + cc]); try done; [by intros []|].
    intros fuel mrm al bs Hcode Hsz [Hcc _]. cbn [esz] in *.
    assert (Forall (fun b => b < DASM_DISP) [0x0f; 0x80 + cc]) as Hlit by (repeat constructor; unfold DASM_DISP; lia).
    rewrite (loop_lits [0x0f; 0x80 + cc] (S fuel) _ _ _ _ _ _ _ bs He Hcode Hlit) by (zlen_simpl; lia).
    zlen_simpl. f_equal; lia.
  - eapply (puts_branch _ _ _ _ _ _ _ _ r [0xe8]); try done.
    intros fuel mrm al bs Hcode Hsz _. cbn [esz] in *.
    rewrite (loop_lits [0xe8] (S fuel) _ _ _ _ _ _ _ bs He Hcode) by (by repeat constructor || (zlen_simpl; lia)).
    zlen_simpl. f_equal; lia.
  - by apply puts_abs.
  - by apply puts_alu.
  - by apply puts_mem.
Qed.

(** ** Layout

    What the known cells say about each placed instruction. *)

(** A reference is bound to a label definition, or waits. *)
Definition rc (g : ghost) (x : Z) : Prop :=
  (exists q, q ∈ lbs g /\ kn g !! x = Some q) \/ exists pl, x ∈ pend g pl.

Definition pok (g : ghost) (p : place) : Prop :=
  let '(Place x e i) := p in
  match i with
  | Lit _ | Esc _ | Extern _ _ => True
  | ImmS n | ImmB n | ImmW n | ImmD n | Space n _ | RelA n | Alu _ _ _ n | Mem _ n => kn g !! x = Some n
  | Align m => kn g !! x = Some (e + m)
  | Label _ => kn g !! x = Some e /\ x ∈ lbs g
  | Jmp _ | Jcc _ _ | Call _ => kn g !! (x + 1) = Some (e + esz i) /\ rc g x
  | Abs _ => rc g x
  end.

(** Later stages keep what is known, and bind waiting references to labels. *)
Record ext (g g' : ghost) : Prop := Ext {
  e_kn : kn g ⊆ kn g';
  e_lbs : lbs g ⊆ lbs g';
  e_rc : forall y, rc g y -> rc g' y }.

#[export] Instance ext_refl : Reflexive ext.
Proof. by constructor. Qed.
#[export] Instance ext_trans : Transitive ext.
Proof. intros g1 g2 g3 [] []. constructor; [by etrans|by etrans|auto]. Qed.

Lemma pok_ext g g' p : ext g g' -> pok g p -> pok g' p.
Proof.
  intros [Hk Hl Hr]. pose proof (fun x v => lookup_weaken (kn g) (kn g') x v) as Hw.
  destruct p as [x e []]; cbn; try done; try (intros; by eapply Hw); try (intros; by apply Hr);
    intros [H1 H2]; (split; [by eapply Hw|auto]).
Qed.

(** Definitions are label positions. *)
Definition ld (g : ghost) : Prop := forall pl q, lb g pl = Def q -> q ∈ lbs g.

Definition new_label (g : ghost) (x : Z) (i : instr) (q : Z) : Prop :=
  q ∈ lbs g \/ q = x /\ exists pl, i = Label pl.

Lemma gput_ext g x v : kn g !! x = None -> ext g (gput g x v) /\ kn (gput g x v) !! x = Some v.
Proof.
  intros H. split; [|apply lookup_insert_eq]. constructor; [by apply insert_subseteq|done|].
  intros y [(q & Hq & Hy)|Hy]; [left|by right]. exists q. split; [done|].
  cbn. rewrite lookup_insert_ne; [done|]. congruence.
Qed.

Lemma gref_ext g x r g' : kn g !! x = None -> ld g -> gref g x r = Some g' ->
  ext g g' /\ ld g' /\ rc g' x /\ lbs g' = lbs g /\ kn g' = kn g \/
  ext g g' /\ ld g' /\ rc g' x /\ lbs g' = lbs g /\ exists q, kn g' = <[x := q]> (kn g).
Proof.
  intros Hx Hld Hg. unfold gref in Hg.
  assert (Hput : forall q, lb g (ref_slot r) = Def q -> g' = gput g x q ->
    ext g g' /\ ld g' /\ rc g' x /\ lbs g' = lbs g /\ exists q, kn g' = <[x := q]> (kn g)).
  { intros q Hl ->. destruct (gput_ext g x q Hx) as [He Hk]. split; [done|]. split; [done|].
    split; [left; exists q; split; [by eapply Hld|done]|]. split; [done|]. by exists q. }
  assert (Hwait : forall l, pend g (ref_slot r) = l -> g' = gwait g x (ref_slot r) l ->
    ext g g' /\ ld g' /\ rc g' x /\ lbs g' = lbs g /\ kn g' = kn g).
  { intros l Hl ->. split; [|split; [|split; [|done]]].
    - constructor; try done. intros y [Hy|[pl Hy]]; [by left|right]. exists pl.
      unfold gwait. rewrite pend_upd. case_decide; [|done]. subst. by apply elem_of_cons; right.
    - intros pl q. cbn. unfold upd. case_decide; [done|apply Hld].
    - right. exists (ref_slot r). unfold gwait. rewrite pend_upd, decide_True by done. constructor. }
  unfold pend in Hwait. destruct (lb g (ref_slot r)) as [q|l] eqn:El; destruct r; simplify_eq;
    first [by left; eapply Hwait|by right; eapply Hput].
Qed.

Lemma glabel_ext g x e pl : kn g !! x = None -> (forall pl, x ∉ pend g pl) ->
  (forall pl y, y ∈ pend g pl -> kn g !! y = None) -> ld g ->
  ext g (glabel g x e pl) /\ ld (glabel g x e pl).
Proof.
  intros Hx Hp Hkp Hld. split.
  - constructor; cbn.
    + apply map_subseteq_spec. intros y v Hy. rewrite lookup_insert_ne by congruence.
      rewrite bind_all_out; [done|]. intros Hin. apply Hkp in Hin. congruence.
    + set_solver.
    + intros y [(q & Hq & Hy)|[pl' Hy]].
      * left. exists q. split; [set_solver|]. cbn. rewrite lookup_insert_ne by congruence.
        rewrite bind_all_out; [done|]. intros Hin. apply Hkp in Hin. congruence.
      * destruct (decide (pl' = pl)) as [->|Hne].
        -- left. exists x. split; [set_solver|]. cbn.
           rewrite lookup_insert_ne; [by apply bind_all_in|]. intros <-. by eapply Hp.
        -- right. exists pl'. unfold glabel. by rewrite pend_upd, decide_False.
  - intros pl' q. cbn. unfold upd. case_decide; [intros [= <-]; set_solver|].
    intros Hq%Hld. set_solver.
Qed.

Lemma gstep_layout D g cur s x e i g' :
  inv D g cur -> cur s = x -> rooms D s x (npos i) -> ld g -> gstep g x e i = Some g' ->
  ext g g' /\ ld g' /\ pok g' (Place x e i) /\ forall q, q ∈ lbs g' -> new_label g x i q.
Proof.
  intros I Hc Hr Hld Hg.
  assert (Hput : forall v, npos i = 1 -> g' = gput g x v ->
    ext g g' /\ ld g' /\ kn g' !! x = Some v /\ forall q, q ∈ lbs g' -> new_label g x i q).
  { intros v Hn ->. rewrite Hn in Hr.
    destruct (fresh _ _ _ _ _ I (proj1 (Hr x ltac:(lia))) Hc) as [Hx _].
    destruct (gput_ext g x v Hx). split; [done|]. split; [done|]. split; [done|]. by left. }
  assert (Hbr : forall r, npos i = 2 -> gstep g x e i = (g ← gref g x r; Some (gput g (x + 1) (e + esz i))) ->
    ext g g' /\ ld g' /\ (kn g' !! (x + 1) = Some (e + esz i) /\ rc g' x) /\
    forall q, q ∈ lbs g' -> new_label g x i q).
  { intros r Hn E. rewrite E in Hg. apply bind_Some in Hg as (g1 & Hg1 & [= <-]). rewrite Hn in Hr.
    destruct (fresh _ _ _ _ _ I (proj1 (Hr x ltac:(lia))) Hc) as [Hx _].
    assert (kn g !! (x + 1) = None) as Hx1.
    { apply eq_None_not_Some. intros HS.
      pose proof (i_occ _ _ _ I (x + 1) ltac:(by left)) as Hlt.
      rewrite (in_sec_pos2sec s (x + 1)) in Hlt by (apply Hr; lia). lia. }
    assert (ext g g1 /\ ld g1 /\ rc g1 x /\ lbs g1 = lbs g /\ kn g1 !! (x + 1) = None) as (He & Hl & Hrc & Hlb & Hk1).
    { destruct (gref_ext g x r g1 Hx Hld Hg1) as [(?&?&?&?&->)|(?&?&?&?&[q ->])]; [done|].
      do 4 (split; [done|]). rewrite lookup_insert_ne by lia. done. }
    destruct (gput_ext g1 (x + 1) (e + esz i) Hk1) as [He' Hk'].
    split; [by etrans|]. split; [done|]. split; [split; [done|by apply He']|].
    intros q Hq. left. cbn in Hq. by rewrite <- Hlb. }
  destruct i as [b|b|n|n|n|n|n f|m|idx ty|pl|r|cc r|r|r|n|w op rm n|rm n]; cbn [pok];
    try (injection Hg as <-; split; [done|]; split; [done|]; split; [done|by left]);
    try (injection Hg as <-; by apply Hput); try (by eapply Hbr).
  - injection Hg as <-. destruct (fresh _ _ _ _ _ I (proj1 (Hr x ltac:(cbn; lia))) Hc) as [Hx Hp].
    destruct (glabel_ext g x e pl Hx Hp (i_kp _ _ _ I) Hld) as [He Hl].
    split; [done|]. split; [done|]. split.
    + cbn. rewrite lookup_insert_eq. split; [done|set_solver].
    + intros q. cbn. intros [Hq|Hq]%elem_of_union; [|by left].
      right. split; [set_solver|by eexists].
  - cbn [gstep] in Hg. destruct (fresh _ _ _ _ _ I (proj1 (Hr x ltac:(cbn; lia))) Hc) as [Hx _].
    destruct (gref_ext g x r g' Hx Hld Hg) as [(?&?&?&Hl&_)|(?&?&?&Hl&_)];
      (split; [done|]; split; [done|]; split; [done|]; intros q Hq; left; by rewrite <- Hl).
Qed.

(** *** Code and calls *)

(** What a stretch of placed code adds. *)
Definition lays (g g' : ghost) (l : list place) : Prop :=
  ext g g' /\ ld g' /\ Forall (pok g') l /\
  forall q, q ∈ lbs g' -> q ∈ lbs g \/ exists p pl, p ∈ l /\ px p = q /\ pi p = Label pl.

Lemma lays_cons g g1 g' x e i l :
  ext g g1 -> pok g1 (Place x e i) -> (forall q, q ∈ lbs g1 -> new_label g x i q) ->
  lays g1 g' l -> lays g g' (Place x e i :: l).
Proof.
  intros He Hp Hn (He' & Hld & Hf & Hq). split; [by etrans|]. split; [done|]. 
  split; [constructor; [by eapply pok_ext|done]|]. intros q H.
  destruct (Hq q H) as [[H1|[-> [pl ->]]]%Hn|(p & pl & Hin & Hpx & Hpi)].
  - by left.
  - right. exists (Place x e (Label pl)), pl. split; [constructor|done].
  - right. exists p, pl. split; [by constructor|done].
Qed.

(** ** Whole calls *)

Definition code_nact (c : list instr) : nat := foldr (fun i n => (nact i + n)%nat) 0%nat c.

Lemma npos_nonneg i : 0 <= npos i.
Proof. destruct i; done. Qed.
Lemma code_npos_nonneg c : 0 <= code_npos c.
Proof.
  induction c as [|i c IH]; [done|]. change (code_npos (i :: c)) with (npos i + code_npos c).
  pose proof (npos_nonneg i). lia.
Qed.

Lemma code_esz_nonneg nlg npc ngl c : Forall (wf_instr nlg npc ngl) c -> 0 <= code_esz c.
Proof.
  induction 1 as [|i c Hi _ IH]; [done|]. change (code_esz (i :: c)) with (esz i + code_esz c).
  pose proof (esz_nonneg _ _ _ _ Hi). lia.
Qed.

Lemma put_code c : forall D g cur s p x e g' rest bs,
  inv D g cur -> cur s = x -> 0 < x -> 0 <= e -> e + code_esz c < 2147483648 ->
  Forall (wf_instr (zlen (lglabels D)) (zlen (pclabels D)) (zlen (globals D))) c ->
  code_at (actionlist D) p (concat (acts <$> c) ++ bs) ->
  rooms D s x (code_npos c) -> ld g -> gcode g x e c = Some g' ->
  exists D', frame D D' /\ inv D' g' (upd cur s (x + code_npos c)) /\ lays g g' (places x e c) /\
    forall fuel, put_loop (code_nact c + fuel) D s p x e (-1) (concat (args <$> c) ++ rest) =
      put_loop fuel D' s (p + zlen (concat (acts <$> c))) (x + code_npos c) (e + code_esz c) (-1) rest.
Proof.
  induction c as [|i c IH]; intros D g cur s p x e g' rest bs I Hc Hpos He Hsz Hwf Hcode Hr Hld Hg.
  - exists D. cbn in Hg. injection Hg as <-. split; [done|]. split; [by apply inv_0|].
    split; [split; [done|]; split; [done|]; split; [constructor|by left]|].
    intros fuel. cbn. zlen_simpl. by rewrite !Z.add_0_r.
  - apply Forall_cons in Hwf as [Hwi Hwf]. cbn [gcode] in Hg. apply bind_Some in Hg as (g1 & Hg1 & Hg).
    cbn [fmap list_fmap concat] in *. rewrite <- app_assoc in Hcode.
    pose proof (npos_nonneg i). pose proof (code_npos_nonneg c).
    change (code_npos (i :: c)) with (npos i + code_npos c) in *.
    change (code_esz (i :: c)) with (esz i + code_esz c) in *.
    pose proof (esz_nonneg _ _ _ _ Hwi). pose proof (code_esz_nonneg _ _ _ _ Hwf).
    destruct (put_instr D g cur s p x e i I Hc Hpos He g1 _ (concat (args <$> c) ++ rest) Hwi Hcode)
      as (D1 & F1 & I1 & E1); [intros y Hy; apply Hr; lia|lia|done|].
    destruct (gstep_layout D g cur s x e i g1 I Hc) as (Hx1 & Hld1 & Hp1 & Hn1);
      [intros y Hy; apply Hr; lia|done|done|].
    assert (HW : zlen (lglabels D1) = zlen (lglabels D) /\ zlen (pclabels D1) = zlen (pclabels D) /\
      globals D1 = globals D) by (unfold zlen; by rewrite (fr_lg _ _ F1), (fr_pc _ _ F1), (fr_gl _ _ F1)).
    destruct HW as (HW1 & HW2 & HW3).
    destruct (IH D1 g1 (upd cur s (x + npos i)) s (p + zlen (acts i)) (x + npos i) (e + esz i) g' rest bs)
      as (D' & F' & I' & HL & E'); try done.
    + apply upd_eq.
    + lia.
    + lia.
    + lia.
    + by rewrite HW1, HW2, HW3.
    + rewrite (fr_al _ _ F1). by apply code_at_app.
    + eapply rooms_frame; [done|]. intros y Hy. apply Hr. lia.
    + exists D'. split; [by etrans|]. split.
      { eapply inv_ext; [|done]. intros t. rewrite upd_upd. by rewrite Z.add_assoc. }
      split; [by eapply lays_cons|].
      intros fuel. cbn [code_nact foldr]. rewrite <- Nat.add_assoc. fold (code_nact c).
      rewrite <- app_assoc, E1, E', zlen_app. f_equal; lia.
Qed.

Lemma code_nact_le c : Z.of_nat (code_nact c) <= zlen (concat (acts <$> c)).
Proof.
  induction c as [|i c IH]; [done|]. cbn [fmap list_fmap concat code_nact foldr].
  fold (code_nact c). rewrite zlen_app.
  assert (Z.of_nat (nact i) <= zlen (acts i)); [|lia].
  destruct i as [| | | | | | | | |[]|[]|? []|[]|[]| | |]; cbn [nact acts ref_acts app]; zlen_simpl; lia.
Qed.

(** An update of a section that keeps its cells. *)
Lemma set_sec_meta D s y y' :
  zget (sections D) s = Some y -> buf y' = buf y -> rbias y' = rbias y ->
  exists l, set_sec D s y' = Done (with_sections D l) /\
    length l = length (sections D) /\
    (forall x, cell (with_sections D l) x = cell D x) /\
    smeta (with_sections D l) s = Some (sec_meta y') /\
    (forall t, t <> s -> smeta (with_sections D l) t = smeta D t).
Proof.
  intros Hy Hb Hr. unfold set_sec.
  destruct (zset_is_Some (sections D) s y') as [l Hl]; [by eapply zget_Some_range|].
  rewrite Hl. exists l. split; [done|]. split.
  { apply zset_Some in Hl as [_ ->]. apply length_insert. }
  split; [|split].
  - intros x. unfold cell. cbn. destruct (Z.eq_dec (DASM_POS2SEC x) s) as [->|Hne].
    + rewrite (zget_zset_eq _ _ _ _ Hl), Hy. cbn. by rewrite Hb, Hr.
    + by rewrite (zget_zset_ne _ _ _ _ _ Hl) by congruence.
  - unfold smeta. cbn. by rewrite (zget_zset_eq _ _ _ _ Hl).
  - intros t Ht. unfold smeta. cbn. by rewrite (zget_zset_ne _ _ _ _ _ Hl) by congruence.
Qed.

(** The invariant depends on the state only through cells, labels and rooms. *)
Lemma inv_transport D D' g cur :
  (forall x, cell D' x = cell D x) -> lglabels D' = lglabels D -> pclabels D' = pclabels D ->
  (forall s x, room D s x -> room D' s x) -> biased D' ->
  inv D g cur -> inv D' g cur.
Proof.
  intros Hc Hl Hp Hr HB I. constructor; try apply I; try done.
  - intros x v H. rewrite Hc. by apply I.
  - intros pl Hck. assert (ckpl D pl = true) as Hck'.
    { unfold ckpl in *. destruct pl; cbn in *; by rewrite ?Hl, ?Hp in Hck. }
    destruct (i_slot _ _ _ I pl Hck') as (v & Hv & Hs). exists v. split.
    { destruct pl; cbn in *; by rewrite ?Hl, ?Hp. }
    destruct (lb g pl); cbn in *; [done|]. eapply chain_same; [|done]. intros. apply Hc.
  - intros pl x H. by eapply Hr, I.
Qed.

Lemma grow_loop_spec fuel : forall sz need, 0 < sz -> 0 < need -> need <= sz * 2 ^ Z.of_nat fuel ->
  exists r, grow_loop (S fuel) sz need = Done r /\ need <= r /\ (r = sz \/ r < 2 * need).
Proof.
  induction fuel as [|fuel IH]; intros sz need Hs Hn Hle.
  - cbn. change (2 ^ Z.of_nat 0) with 1 in Hle. replace (sz <? need) with false by lia.
    exists sz. split; [done|]. split; [lia|by left].
  - change (grow_loop (S (S fuel)) sz need) with
      (if sz <? need then grow_loop (S fuel) (sz + sz) need else Done sz).
    destruct (Z.ltb_spec sz need).
    + destruct (IH (sz + sz) need) as (r & -> & Hr & Hb); [lia|lia| |].
      { replace (Z.of_nat (S fuel)) with (Z.of_nat fuel + 1) in Hle by lia.
        rewrite Z.pow_add_r in Hle by lia. change (2 ^ 1) with 2 in Hle. lia. }
      exists r. split; [done|]. split; [done|]. right. lia.
    + exists sz. split; [done|]. split; [lia|by left].
Qed.

(** The buffer of a section: its counters, and room for one more call. *)
Definition sec_ok (D : dasm_State) (P : pst) (s : Z) : Prop :=
  exists b e, smeta D s = Some (b, DASM_SEC2POS s, cur P s, e, est P s) /\
    0 <= b <= 8 * (cur P s - DASM_SEC2POS s) + 1024 /\
    0 <= cur P s - DASM_SEC2POS s <= b / 4 /\
    (b = 0 /\ e = 0 \/ e = b / 4 - DASM_MAXSECPOS + DASM_SEC2POS s).

Lemma put_grow_spec D P s :
  biased D -> sec_ok D P s -> 0 <= s < 126 -> cur P s < DASM_SEC2POS s + 16777216 ->
  exists D' b e, put_grow D s = Done D' /\
    (forall x, cell D' x = cell D x) /\
    actionlist D' = actionlist D /\ globals D' = globals D /\ section D' = section D /\
    status D' = status D /\ lglabels D' = lglabels D /\ pclabels D' = pclabels D /\
    length (sections D') = length (sections D) /\
    (forall t, t <> s -> smeta D' t = smeta D t) /\
    smeta D' s = Some (b, DASM_SEC2POS s, cur P s, e, est P s) /\
    (forall t x, room D t x -> room D' t x) /\
    0 <= b <= 8 * (cur P s - DASM_SEC2POS s) + 1024 /\
    0 <= cur P s - DASM_SEC2POS s <= b / 4 - DASM_MAXSECPOS /\
    e = b / 4 - DASM_MAXSECPOS + DASM_SEC2POS s.
Proof.
  intros HB (b & e & Hm & Hb & Hp & He) Hs Hc. unfold DASM_MAXSECPOS in *.
  destruct (smeta_Some _ _ _ Hm) as (y & Hy & Ht). unfold sec_meta in Ht. simplify_eq.
  unfold put_grow, get_sec. rewrite Hy. cbn [acc mbind outcome_bind].
  destruct (Z.leb_spec (epos y) (pos y)) as [Hle|Hgt].
  - unfold DASM_M_GROW, DASM_MAXSECPOS. change (2 * 25 * 4) with 200.
    replace (bsize y <? bsize y + 200) with true by lia.
    destruct (grow_loop_spec 63 (if bsize y <? 16 then 16 else bsize y) (bsize y + 200)) as (r & -> & Hr & Hr').
    { destruct (Z.ltb_spec (bsize y) 16); lia. }
    { lia. }
    { change (2 ^ Z.of_nat 63) with 9223372036854775808. destruct (Z.ltb_spec (bsize y) 16); lia. }
    assert (r < 2 * (bsize y + 200)) as Hlt.
    { destruct Hr' as [->|]; [|done]. destruct (Z.ltb_spec (bsize y) 16); lia. }
    clear Hr'. cbn [mbind outcome_bind].
    assert (DASM_POS2BIAS (pos y) = DASM_SEC2POS s) as Hbias.
    { apply in_sec_bias; [lia|]. unfold in_sec. lia. }
    rewrite Hbias.
    destruct (set_sec_meta D s y (Sec (buf y) r (DASM_SEC2POS s) (pos y)
      (i32 (r / 4 - 25 + DASM_SEC2POS s)) (ofs y)) Hy eq_refl) as (l & -> & Hlen & Hcell & Hms & Hmt).
    { cbn. congruence. }
    rewrite sec2pos in *.
    rewrite i32_small in Hms by zlia. unfold sec_meta in Hms; cbn in Hms.
    eexists _, r, _. split; [done|]. split; [done|]. do 6 (split; [done|]). split; [done|].
    split; [done|]. split; [rewrite H1, H0; exact Hms|]. split.
    { intros t z (Hz & b' & r' & p' & e' & o' & Hm' & Hz'). split; [done|].
      destruct (Z.eq_dec t s) as [->|Hne]; [|rewrite Hmt by done; by exists b', r', p', e', o'].
      rewrite Hms. do 5 eexists. split; [done|]. rewrite Hm in Hm'. simplify_eq. lia. }
    repeat split; zlia.
  - exists D, (bsize y), (epos y). do 10 (split; [done|]). split; [by rewrite Hm|]. split; [by intros t x|].
    rewrite sec2pos in *. repeat split; lia.
Qed.

(** The start cells of the calls in a section. *)
Fixpoint starts (m : gmap Z Z) (x : Z) (cs : list put) : Prop :=
  match cs with
  | [] => True
  | c :: cs => m !! x = Some (p_start c) /\ starts m (x + 1 + code_npos (p_code c)) cs
  end.

Definition puts_npos (cs : list put) : Z := foldr (fun c n => 1 + code_npos (p_code c) + n) 0 cs.
Definition puts_esz (cs : list put) : Z := foldr (fun c n => code_esz (p_code c) + n) 0 cs.

Lemma puts_npos_nonneg cs : 0 <= puts_npos cs.
Proof.
  induction cs as [|c cs IH]; cbn; [done|]. pose proof (code_npos_nonneg (p_code c)).
  unfold puts_npos in IH. lia.
Qed.

Lemma starts_mono m m' x cs : m ⊆ m' -> starts m x cs -> starts m' x cs.
Proof.
  intros H. revert x. induction cs as [|c cs IH]; intros x; cbn; [done|].
  intros [H1 H2]. split; [by eapply lookup_weaken|by apply IH].
Qed.

Lemma starts_snoc m x cs c : starts m x cs -> m !! (x + puts_npos cs) = Some (p_start c) ->
  starts m x (cs ++ [c]).
Proof.
  revert x. induction cs as [|c' cs IH]; intros x; cbn.
  - rewrite Z.add_0_r. done.
  - intros [H1 H2] H. split; [done|]. apply IH; [done|].
    rewrite <- H. f_equal. unfold puts_npos. lia.
Qed.

Lemma sec_places_snoc x G cs c :
  sec_places x G (cs ++ [c]) =
  sec_places x G cs ++ places (x + puts_npos cs + 1) (G + puts_esz cs) (p_code c).
Proof.
  revert x G. induction cs as [|c' cs IH]; intros x G; cbn [sec_places app puts_npos puts_esz foldr].
  - by rewrite app_nil_r, !Z.add_0_r.
  - rewrite IH, <- app_assoc. do 2 f_equal. f_equal; unfold puts_npos, puts_esz; lia.
Qed.

Lemma puts_npos_snoc cs c : puts_npos (cs ++ [c]) = puts_npos cs + 1 + code_npos (p_code c).
Proof. induction cs as [|c' cs IH]; cbn in *; [lia|]. unfold puts_npos in *. lia. Qed.
Lemma puts_esz_snoc cs c : puts_esz (cs ++ [c]) = puts_esz cs + code_esz (p_code c).
Proof. induction cs as [|c' cs IH]; cbn in *; [lia|]. unfold puts_esz in *. lia. Qed.

Section programs.
(** The action list, the number of sections, the sizes of the label arrays
    and the array of globals, all fixed while code is put. *)
Context (al : list Z) (nsec nlg npc : Z) (gl : list Z) (Hnsec : nsec <= 126).

(** A call as the preprocessor generates it: at most 25 buffer positions. *)
Definition wf_put (c : put) : Prop :=
  code_at al (p_start c) (put_acts c) /\
  Forall (wf_instr nlg npc (zlen gl)) (p_code c) /\
  1 + code_npos (p_code c) <= DASM_MAXSECPOS /\
  match p_end c with Some n => 0 <= n < nsec | None => True end.

(** The sections hold the calls placed in them. *)
Record plok (P : pst) : Prop := Plok {
  pl_ld : ld (gh P);
  pl_starts : forall s, starts (kn (gh P)) (DASM_SEC2POS s) (placed P s);
  pl_places : forall s, Forall (pok (gh P)) (sec_places (DASM_SEC2POS s) 0 (placed P s));
  pl_cur : forall s, cur P s = DASM_SEC2POS s + puts_npos (placed P s);
  pl_est : forall s, est P s = puts_esz (placed P s);
  pl_lbs : forall q, q ∈ lbs (gh P) -> exists s p pl, 0 <= s < nsec /\
    p ∈ sec_places (DASM_SEC2POS s) 0 (placed P s) /\ px p = q /\ pi p = Label pl;
  pl_wf : forall s, Forall wf_put (placed P s) }.

Record rel (D : dasm_State) (P : pst) : Prop := Rel {
  r_inv : inv D (gh P) (cur P);
  r_secs : forall s, 0 <= s < nsec -> sec_ok D P s;
  r_n : zlen (sections D) = nsec;
  r_asec : section D = asec P;
  r_arange : 0 <= asec P < nsec;
  r_st : status D = DASM_S_OK;
  r_al : actionlist D = al;
  r_lg : zlen (lglabels D) = nlg;
  r_pc : zlen (pclabels D) = npc;
  r_gl : globals D = gl;
  r_pl : plok P }.

Lemma puts_esz_nonneg cs : Forall wf_put cs -> 0 <= puts_esz cs.
Proof.
  induction 1 as [|c cs (_ & Hc & _) _ IH]; [done|].
  change (puts_esz (c :: cs)) with (code_esz (p_code c) + puts_esz cs).
  pose proof (code_esz_nonneg _ _ _ _ Hc). lia.
Qed.

Lemma plok_est_nonneg P s : plok P -> 0 <= est P s.
Proof. intros PL. rewrite (pl_est _ PL). apply puts_esz_nonneg, PL. Qed.

(** One more call. *)
Lemma plok_call P c g' :
  plok P -> wf_put c -> 0 <= asec P < nsec ->
  kn (gh P) !! cur P (asec P) = None ->
  lays (gput (gh P) (cur P (asec P)) (p_start c)) g'
    (places (cur P (asec P) + 1) (est P (asec P)) (p_code c)) ->
  plok (Pst g' (upd (cur P) (asec P) (cur P (asec P) + 1 + code_npos (p_code c)))
    (upd (est P) (asec P) (est P (asec P) + code_esz (p_code c)))
    (upd (placed P) (asec P) (placed P (asec P) ++ [c])) (default (asec P) (p_end c))).
Proof.
  intros PL Hwf Hs Hfresh (He & Hld & Hf & Hq). set (s := asec P) in *. set (x := cur P s) in *.
  destruct (gput_ext (gh P) x (p_start c) Hfresh) as [He0 Hk0].
  assert (ext (gh P) g') as Hext by (by etrans).
  assert (forall t, Forall (pok g') (sec_places (DASM_SEC2POS t) 0 (placed P t))) as Hold.
  { intros t. eapply Forall_impl; [apply (pl_places _ PL)|]. intros p. by apply pok_ext. }
  assert (Hplaces : sec_places (DASM_SEC2POS s) 0 (placed P s ++ [c]) =
    sec_places (DASM_SEC2POS s) 0 (placed P s) ++ places (x + 1) (est P s) (p_code c)).
  { rewrite sec_places_snoc. unfold x. by rewrite (pl_cur _ PL), (pl_est _ PL). }
  constructor; cbn [gh cur est placed]; try done.
  - intros t. assert (starts (kn g') (DASM_SEC2POS t) (placed P t)) as Hst.
    { eapply starts_mono; [apply Hext|apply PL]. }
    unfold upd. case_decide; [|done]. subst t. apply starts_snoc; [done|].
    rewrite <- (pl_cur _ PL). eapply lookup_weaken; [apply Hk0|apply He].
  - intros t. unfold upd. case_decide; [|done]. subst t. rewrite Hplaces. by apply Forall_app.
  - intros t. unfold upd. case_decide; [|apply PL]. subst t. rewrite puts_npos_snoc.
    unfold x. rewrite (pl_cur _ PL). lia.
  - intros t. unfold upd. case_decide; [|apply PL]. subst t. rewrite puts_esz_snoc, (pl_est _ PL). lia.
  - intros q H. destruct (Hq q H) as [Hin|(p & pl & Hin & Hpx & Hpi)].
    + destruct (pl_lbs _ PL q Hin) as (t & p & pl & Ht & Hp & Hpx & Hpi).
      exists t, p, pl. split; [done|]. split; [|done]. unfold upd. case_decide; [|done].
      subst t. rewrite Hplaces. apply elem_of_app. by left.
    + exists s, p, pl. split; [done|]. split; [|done]. rewrite upd_eq, Hplaces.
      apply elem_of_app. by right.
  - intros t. unfold upd. case_decide; [|apply PL]. apply Forall_app. split; [apply PL|].
    by apply Forall_singleton.
Qed.

Lemma code_at_nonneg p bs : code_at al p bs -> 0 <= p /\ p + zlen bs <= zlen al.
Proof.
  intros (pre & post & -> & <-). zlen_simpl. pose proof (zlen_nonneg pre). pose proof (zlen_nonneg post). lia.
Qed.

(** The end of a call. *)
Lemma put_loop_end fuel D s p x e mrm o b r p' e' o' :
  match o with Some n => 0 <= n < zlen (sections D) | None => True end ->
  code_at (actionlist D) p (end_acts o) -> section D = s ->
  smeta D s = Some (b, r, p', e', o') ->
  exists D', put_loop (S fuel) D s p x e mrm [] = Done D' /\
    (forall y, cell D' y = cell D y) /\
    actionlist D' = actionlist D /\ globals D' = globals D /\ section D' = default s o /\
    status D' = status D /\ lglabels D' = lglabels D /\ pclabels D' = pclabels D /\
    length (sections D') = length (sections D) /\
    (forall t, t <> s -> smeta D' t = smeta D t) /\
    smeta D' s = Some (b, r, x, e', e).
Proof.
  intros Ho Hcode Hsec Hm. destruct (smeta_Some _ _ _ Hm) as (y & Hy & Ht).
  unfold sec_meta in Ht. simplify_eq.
  assert (Hend : forall D0, sections D0 = sections D -> actionlist D0 = actionlist D ->
    globals D0 = globals D -> status D0 = status D -> lglabels D0 = lglabels D -> pclabels D0 = pclabels D ->
    section D0 = default (section D) o ->
    exists D', put_end D0 (section D) x e = Done D' /\
    (forall y, cell D' y = cell D y) /\
    actionlist D' = actionlist D /\ globals D' = globals D /\ section D' = default (section D) o /\
    status D' = status D /\ lglabels D' = lglabels D /\ pclabels D' = pclabels D /\
    length (sections D') = length (sections D) /\
    (forall t, t <> section D -> smeta D' t = smeta D t) /\
    smeta D' (section D) = Some (bsize y, rbias y, x, epos y, e)).
  { intros D0 E0 E1 E2 E3 E4 E5 E6. unfold put_end, get_sec. rewrite E0, Hy. cbn [acc mbind outcome_bind].
    destruct (set_sec_meta D0 (section D) y (Sec (buf y) (bsize y) (rbias y) x (epos y) e))
      as (l & -> & Hl & Hc & Hms & Hmt); [congruence|done..|].
    eexists. split; [done|]. split.
    { intros z. rewrite Hc. unfold cell. by rewrite E0. }
    do 6 (split; [done|]). split; [cbn; congruence|]. split; [|done].
    intros t Ht. rewrite Hmt by done. unfold smeta. by rewrite E0. }
  cbn [put_loop]. destruct o as [n|]; cbn [end_acts] in Hcode; rewrite (code_at_act _ _ _ _ Hcode); run.
  - rewrite (code_at_act _ _ _ _ (code_at_cons _ _ _ _ Hcode)). cbn [mbind outcome_bind].
    replace (n <? zlen (sections D)) with true by lia. by apply Hend.
  - by apply Hend.
Qed.

Lemma biased_meta D D' s b p e o :
  biased D -> (forall t, t <> s -> smeta D' t = smeta D t) ->
  smeta D' s = Some (b, DASM_SEC2POS s, p, e, o) -> biased D'.
Proof.
  intros HB Ht Hs t b' r' p' e' o'. destruct (Z.eq_dec t s) as [->|Hne].
  - rewrite Hs. by intros [= <- <- <- <- <-].
  - rewrite Ht by done. apply HB.
Qed.

Lemma dasm_put_spec D P c P' :
  rel D P -> wf_put c -> gcall P c = Some P' ->
  cur P' (asec P) <= DASM_SEC2POS (asec P) + 16777216 -> est P' (asec P) < 2147483648 ->
  exists D', dasm_put D (p_start c) (put_args c) = Done D' /\ rel D' P'.
Proof.
  intros R Hwfc Hg Hbound Hsize. pose proof Hwfc as (Hcode & Hwf & Hmax & Hend).
  unfold gcall in Hg. apply bind_Some in Hg as (g' & Hg & [= <-]). cbn [cur est] in Hbound, Hsize. rewrite upd_eq in Hbound, Hsize.
  pose proof (plok_est_nonneg P (asec P) (r_pl _ _ R)) as Hest.
  set (s := asec P) in *. set (x := cur P s) in *.
  pose proof (code_npos_nonneg (p_code c)) as Hnn. unfold DASM_MAXSECPOS in Hmax.
  unfold dasm_put. rewrite (r_asec _ _ R). fold s.
  pose proof (r_arange _ _ R) as Hs. fold s in Hs.
  destruct (put_grow_spec D P s (i_bias _ _ _ (r_inv _ _ R)) (r_secs _ _ R s Hs)) as
    (D1 & b & e & -> & Hc1 & Hal1 & Hgl1 & Hsec1 & Hst1 & Hlg1 & Hpc1 & Hn1 & Hmt1 & Hms1 & Hr1 & Hb & Hp & He);
    [lia|fold x; lia|]. fold x in Hms1, Hp, Hb. unfold DASM_MAXSECPOS in *.
  assert (biased D1) as HB1 by (eapply biased_meta; [apply (i_bias _ _ _ (r_inv _ _ R))|done..]).
  assert (inv D1 (gh P) (cur P)) as I1 by (eapply inv_transport; try done; apply R).
  assert (rooms D1 s x (1 + code_npos (p_code c))) as Hroom.
  { intros y Hy. split; [unfold in_sec; lia|]. do 5 eexists. split; [done|]. zlia. }
  destruct (smeta_Some _ _ _ Hms1) as (y & Hy & Ht). unfold sec_meta in Ht.
  cbn [mbind outcome_bind]. unfold get_sec. rewrite Hy. cbn [acc mbind outcome_bind].
  replace (pos y) with x by congruence. replace (ofs y) with (est P s) by congruence.
  destruct (wb_wrote D1 s x (p_start c) HB1) as (D2 & -> & W); [apply Hroom; lia|].
  cbn [mbind outcome_bind]. pose proof (wr_frame _ _ _ _ W) as F2.
  assert (0 <= x) as Hx0. { rewrite sec2pos in Hp. lia. }
  assert (HW : zlen (lglabels D2) = nlg /\ zlen (pclabels D2) = npc /\ globals D2 = gl /\ actionlist D2 = al).
  { rewrite (wr_lg _ _ _ _ W), (wr_pc _ _ _ _ W), (fr_gl _ _ F2), (fr_al _ _ F2), Hal1, Hgl1, Hlg1, Hpc1.
    destruct R. done. }
  destruct HW as (HWl & HWp & HWg & HWa).
  destruct (put_code (p_code c) D2 (gput (gh P) x (p_start c)) (upd (cur P) s (x + 1)) s (p_start c)
    (x + 1) (est P s) g' [] (end_acts (p_end c))) as (D3 & F3 & I3 & HL & E3); try done.
  { eapply inv_write; [done| |done|done]. apply (Hroom x). lia. }
  { apply upd_eq. }
  { lia. }
  { by rewrite HWl, HWp, HWg. }
  { by rewrite HWa. }
  { eapply rooms_frame; [done|]. intros z Hz. apply Hroom. lia. }
  { apply (pl_ld _ (r_pl _ _ R)). }
  assert (exists k, S (length (actionlist D2)) = (code_nact (p_code c) + S k)%nat) as [k ->].
  { exists (length (actionlist D2) - code_nact (p_code c))%nat. rewrite HWa.
    pose proof (code_nact_le (p_code c)). destruct (code_at_nonneg _ _ Hcode) as [? Hlen].
    unfold put_acts in Hlen. rewrite zlen_app in Hlen. unfold zlen in *. lia. }
  unfold put_args. rewrite <- (app_nil_r (concat _)), E3.
  assert (smeta D3 s = Some (b, DASM_SEC2POS s, x, e, est P s)) as Hm3.
  { by rewrite (fr_meta _ _ F3), (fr_meta _ _ F2). }
  assert (frame D1 D3) as F13 by (by etrans).
  destruct (put_loop_end k D3 s (p_start c + zlen (concat (acts <$> p_code c))) (x + 1 + code_npos (p_code c))
    (est P s + code_esz (p_code c)) (-1) (p_end c) b (DASM_SEC2POS s) x e (est P s)) as
    (D4 & -> & Hc4 & Hal4 & Hgl4 & Hsec4 & Hst4 & Hlg4 & Hpc4 & Hn4 & Hmt4 & Hms4); try done.
  { destruct (p_end c); [|done]. unfold zlen. rewrite (fr_n _ _ F13), Hn1. fold (zlen (sections D)).
    by rewrite (r_n _ _ R). }
  { rewrite (fr_al _ _ F3), HWa. apply code_at_app, Hcode. }
  { rewrite (fr_sec _ _ F13), Hsec1. apply R. }
  exists D4. split; [done|].
  assert (biased D4) as HB4.
  { eapply biased_meta; [|done..]. by eapply biased_frame. }
  assert (Hother : forall t, t <> s -> smeta D4 t = smeta D t).
  { intros t Ht'. rewrite Hmt4, (fr_meta _ _ F13), Hmt1; done. }
  constructor; cbn [gh cur est placed asec].
  - apply inv_ext with (upd (upd (cur P) s (x + 1)) s (x + 1 + code_npos (p_code c))).
    { intros t. by rewrite upd_upd. }
    eapply inv_transport; [exact Hc4|done|done| |done|exact I3].
    intros t z (Hz & b' & r' & p' & e' & o' & Hm' & Hlt). split; [done|].
    destruct (Z.eq_dec t s) as [->|Hne].
    + rewrite Hm3 in Hm'. simplify_eq. rewrite Hms4. do 5 eexists. done.
    + rewrite Hmt4 by done. by exists b', r', p', e', o'.
  - intros t Htr. unfold sec_ok. cbn [cur est]. destruct (Z.eq_dec t s) as [->|Hne].
    + rewrite !upd_eq, Hms4. exists b, e. unfold DASM_MAXSECPOS. split; [done|].
      split; [lia|]. split; [zlia|]. by right.
    + rewrite !upd_ne by done. rewrite Hother by done. by apply (r_secs _ _ R).
  - unfold zlen. rewrite Hn4, (fr_n _ _ F13), Hn1. apply R.
  - by rewrite Hsec4.
  - destruct (p_end c); cbn; [done|apply R].
  - rewrite Hst4, (fr_st _ _ F13), Hst1. apply R.
  - rewrite Hal4, (fr_al _ _ F3). done.
  - rewrite Hlg4. unfold zlen. rewrite (fr_lg _ _ F3). done.
  - rewrite Hpc4. unfold zlen. rewrite (fr_pc _ _ F3). done.
  - rewrite Hgl4, (fr_gl _ _ F3). done.
  - apply plok_call; try done; [apply R|].
    apply (fresh D1 (gh P) (cur P) s x); [done| |done]. apply (Hroom x). lia.
Qed.

(** A sequence of calls. *)
Fixpoint put_all (D : dasm_State) (cs : list put) : outcome dasm_State :=
  match cs with
  | [] => Done D
  | c :: cs => D ← dasm_put D (p_start c) (put_args c); put_all D cs
  end.

Lemma gcall_cur_mono P c P' t : gcall P c = Some P' -> cur P t <= cur P' t.
Proof.
  unfold gcall. intros (g' & Hg & [= <-])%bind_Some. cbn. unfold upd. case_decide as E; [|lia].
  subst. pose proof (code_npos_nonneg (p_code c)). lia.
Qed.

Lemma gprog_cur_mono cs : forall P P' t, gprog P cs = Some P' -> cur P t <= cur P' t.
Proof.
  induction cs as [|c cs IH]; intros P P' t; cbn.
  - intros [= <-]. lia.
  - intros (P1 & H1 & H)%bind_Some. apply gcall_cur_mono with (t := t) in H1. apply IH with (t := t) in H. lia.
Qed.

(** Estimated sizes only grow. *)
Lemma gcall_est_mono P c P' t : wf_put c -> gcall P c = Some P' -> est P t <= est P' t.
Proof.
  unfold gcall. intros (_ & Hc & _) (g' & Hg & [= <-])%bind_Some. cbn. unfold upd. case_decide as E; [|lia].
  subst. pose proof (code_esz_nonneg _ _ _ _ Hc). lia.
Qed.

Lemma gprog_est_mono cs : forall P P' t, Forall wf_put cs -> gprog P cs = Some P' -> est P t <= est P' t.
Proof.
  induction cs as [|c cs IH]; intros P P' t Hwf; cbn.
  - intros [= <-]. lia.
  - intros (P1 & H1 & H)%bind_Some. apply Forall_cons in Hwf as [Hc Hwf].
    apply gcall_est_mono with (t := t) in H1; [|done]. apply IH with (t := t) in H; [|done]. lia.
Qed.

Lemma put_all_spec cs : forall D P P',
  rel D P -> Forall wf_put cs -> gprog P cs = Some P' ->
  (forall s, cur P' s <= DASM_SEC2POS s + 16777216) -> (forall s, 0 <= s < nsec -> est P' s < 2147483648) ->
  exists D', put_all D cs = Done D' /\ rel D' P'.
Proof.
  induction cs as [|c cs IH]; intros D P P' R Hwf Hg Hb Hsz; cbn in *.
  - injection Hg as <-. by exists D.
  - apply Forall_cons in Hwf as [Hc Hwf]. apply bind_Some in Hg as (P1 & H1 & H).
    destruct (dasm_put_spec D P c P1 R Hc H1) as (D1 & -> & R1).
    { etrans; [by apply gprog_cur_mono with (1 := H)|apply Hb]. }
    { pose proof (gprog_est_mono cs P1 P' (asec P) Hwf H). pose proof (Hsz _ (r_arange _ _ R)). lia. }
    cbn [mbind outcome_bind]. by apply (IH D1 P1 P').
Qed.
End programs.
End DasmPut.
