(* ===== verification/DasmLink.v ===== *)
(** * DasmLink

    Pass 2 of the encoding engine: [dasm_link] on the cells of pass 1 computes
    the final addresses.  The first half is the algorithm on placed
    instructions and what it establishes (final label cells, short branches in
    range); the second half shows that the source's loops run it. *)
From stdpp Require Import base tactics numbers list gmap.
From Stdlib Require Import ZArith Lia.
From S2P Require Import Prelude Dasm DasmSpec DasmPut.
Import Dasm DasmSpec DasmPut.
Open Scope Z_scope.

Module DasmLink.

(** ** The algorithm on placed instructions *)

Definition kmax (i : instr) : Z := match i with Jmp _ => 3 | Jcc _ _ => 4 | _ => 0 end.

Section p2.
(** The estimated offset of each section. *)
Context (B : Z -> Z).
(** The label each reference is bound to. *)
Context (tgt : Z -> Z).
(** A bound of all offsets. *)
Context (T : Z).

(** The bytes cut from the instruction, given the cells so far and the
    adjustment of the offsets so far. *)
Definition p2k (m : gmap Z Z) (adj : Z) (p : place) : Z :=
  match pi p with
  | Jmp _ | Jcc _ _ =>
      let k := kmax (pi p) in
      let q := default 0 (m !! px p) in
      let d := if px p <? q then default 0 (m !! q) + B (DASM_POS2SEC q) - (pG p + esz (pi p))
               else default 0 (m !! q) - (pG p + adj + esz (pi p)) in
      if (-128 - k <=? d) && (d <=? 127) then k else 0
  | Align mk => Z.land (pG p + adj + mk) mk
  | _ => 0
  end.

Definition p2m (m : gmap Z Z) (adj : Z) (p : place) : gmap Z Z :=
  match pi p with
  | Label _ => <[px p := pG p + adj]> m
  | Jmp _ | Jcc _ _ | Call _ => <[px p + 1 := p2k m adj p]> m
  | _ => m
  end.

Fixpoint p2 (m : gmap Z Z) (adj : Z) (l : list place) : gmap Z Z * Z :=
  match l with
  | [] => (m, adj)
  | p :: l => p2 (p2m m adj p) (adj - p2k m adj p) l
  end.

Lemma p2_app m adj l1 l2 : p2 m adj (l1 ++ l2) = let '(m, adj) := p2 m adj l1 in p2 m adj l2.
Proof. revert m adj. induction l1 as [|p l1 IH]; intros m adj; cbn; [done|apply IH]. Qed.

(** Positions ascend, and each offset follows from the one before. *)
Fixpoint asc (lo : Z) (l : list place) : Prop :=
  match l with [] => True | p :: l => lo <= px p /\ asc (px p + npos (pi p)) l end.
Fixpoint conG (G : Z) (l : list place) : Prop :=
  match l with [] => True | p :: l => pG p = G /\ conG (G + esz (pi p)) l end.

Lemma asc_mono lo lo' l : lo' <= lo -> asc lo l -> asc lo' l.
Proof. destruct l; cbn; [done|]. intros ? [? ?]. split; [lia|done]. Qed.

Lemma asc_ge lo l p : asc lo l -> p ∈ l -> lo <= px p.
Proof.
  revert lo. induction l as [|p' l IH]; intros lo; cbn; [by intros _ ?%not_elem_of_nil|].
  intros [Hlo Ha] [->|Hp]%elem_of_cons; [done|]. pose proof (npos_nonneg (pi p')).
  specialize (IH _ Ha Hp). lia.
Qed.

Lemma p2m_below m adj p y : y < px p -> p2m m adj p !! y = m !! y.
Proof. intros H. unfold p2m. destruct (pi p); try done; rewrite lookup_insert_ne by lia; done. Qed.

Lemma p2m_above m adj p y : px p + npos (pi p) <= y -> p2m m adj p !! y = m !! y.
Proof.
  intros H. unfold p2m. destruct (pi p); try done; cbn in H; rewrite lookup_insert_ne by lia; done.
Qed.

Lemma p2_below l : forall m adj lo y, asc lo l -> y < lo -> (p2 m adj l).1 !! y = m !! y.
Proof.
  induction l as [|p l IH]; intros m adj lo y; cbn; [done|]. intros [Hlo Ha] Hy.
  rewrite (IH _ _ (px p + npos (pi p))) by (pose proof (npos_nonneg (pi p)); try done; lia).
  apply p2m_below. lia.
Qed.

Lemma p2_other l : forall m adj y, (forall p, p ∈ l -> y < px p \/ px p + npos (pi p) <= y) ->
  (p2 m adj l).1 !! y = m !! y.
Proof.
  induction l as [|p l IH]; intros m adj y H; cbn; [done|].
  rewrite IH by (intros p' Hp'; apply H; by constructor).
  destruct (H p ltac:(constructor)); [by apply p2m_below|by apply p2m_above].
Qed.

(** Cuts only shorten, by at most the estimated size. *)
Definition wf_size (p : place) : Prop :=
  match pi p with
  | Space n _ => 0 <= n
  | Align mk => exists k, 0 <= k <= 8 /\ mk = 2 ^ k - 1
  | _ => True
  end.

Lemma align_land a k : 0 <= k -> Z.land a (2 ^ k - 1) = a mod 2 ^ k.
Proof. apply land_pow2_mask. Qed.

Lemma p2k_range m adj p : wf_size p -> 0 <= p2k m adj p <= esz (pi p).
Proof.
  unfold wf_size, p2k. destruct (pi p); cbn; try lia; try (repeat case_match; lia).
  intros (k & Hk & ->). rewrite align_land by lia.
  pose proof (Z.mod_pos_bound (pG p + adj + (2 ^ k - 1)) (2 ^ k) (Z.pow_pos_nonneg 2 k ltac:(lia) ltac:(lia))). lia.
Qed.

Lemma p2_adj_le l : forall m adj, Forall wf_size l -> (p2 m adj l).2 <= adj.
Proof.
  induction l as [|p l IH]; intros m adj Hw; cbn [p2]; [done|]. apply Forall_cons in Hw as [Hp Hw].
  pose proof (p2k_range m adj p Hp). specialize (IH (p2m m adj p) (adj - p2k m adj p) Hw). lia.
Qed.

(** The final cell of a label: not before the start, not behind its estimate. *)
Lemma p2_label l : forall m adj lo G p pl,
  asc lo l -> conG G l -> Forall wf_size l -> p ∈ l -> pi p = Label pl ->
  exists a, (p2 m adj l).1 !! px p = Some a /\ G + adj <= a <= pG p + adj.
Proof.
  induction l as [|p' l IH]; intros m adj lo G p pl Ha HG Hw Hp Hpl; [by apply not_elem_of_nil in Hp|].
  cbn in Ha, HG. destruct Ha as [Hlo Ha], HG as [HG HG']. apply Forall_cons in Hw as [Hw1 Hw].
  cbn [p2]. apply elem_of_cons in Hp as [<-|Hp].
  - exists (G + adj). rewrite (p2_below _ _ _ _ _ Ha) by (rewrite Hpl; cbn; lia).
    unfold p2m. rewrite Hpl, lookup_insert_eq. split; [by rewrite HG|lia].
  - pose proof (p2k_range m adj p' Hw1).
    destruct (IH (p2m m adj p') (adj - p2k m adj p') _ _ p pl Ha HG' Hw Hp Hpl) as (a & Hk & Hr).
    exists a. split; [done|]. lia.
Qed.

(** ** What pass 2 establishes *)

(** The cut an instruction at address [A] shows in the final cells. *)
Definition kf (m : gmap Z Z) (A : Z) (p : place) : Z :=
  match pi p with
  | Jmp _ | Jcc _ _ | Call _ => default 0 (m !! (px p + 1))
  | Align mk => Z.land (A + mk) mk
  | _ => 0
  end.

(** The label a reference is bound to and its address. *)
Definition bound (m : gmap Z Z) (x : Z) (a : Z) : Prop :=
  exists q, q = tgt x /\ m !! x = Some q /\ 0 < q /\ m !! q = Some a /\ 0 <= a <= T.

Definition fok (m : gmap Z Z) (A : Z) (p : place) : Prop :=
  match pi p with
  | Lit _ | Esc _ | Extern _ _ => True
  | ImmS n | ImmB n | ImmW n | ImmD n | Space n _ | RelA n | Alu _ _ _ n | Mem _ n => m !! px p = Some n
  | Align _ => is_Some (m !! px p)
  | Label _ => m !! px p = Some A /\ 0 <= A
  | Jmp _ | Jcc _ _ | Call _ => exists a k, bound m (px p) a /\ m !! (px p + 1) = Some k /\
      (k = 0 \/ k = kmax (pi p) /\ -128 <= a - (A + esz (pi p) - k) <= 127)
  | Abs _ => exists a, bound m (px p) a
  end.

Fixpoint fin (m : gmap Z Z) (A : Z) (l : list place) : Prop :=
  match l with [] => True | p :: l => fok m A p /\ fin m (A + esz (pi p) - kf m A p) l end.

(** The address behind a sequence. *)
Fixpoint endA (m : gmap Z Z) (A : Z) (l : list place) : Z :=
  match l with [] => A | p :: l => endA m (A + esz (pi p) - kf m A p) l end.

Definition tot (l : list place) : Z := foldr (fun p n => esz (pi p) + n) 0 l.

(** The cells of pass 1, read off [m]; [lab q]: a label definition at [q]. *)
Definition pre (m : gmap Z Z) (lab : Z -> Prop) (p : place) : Prop :=
  match pi p with
  | Lit _ | Esc _ | Extern _ _ => True
  | ImmS n | ImmB n | ImmW n | ImmD n | Space n _ | RelA n | Alu _ _ _ n | Mem _ n => m !! px p = Some n
  | Align _ => is_Some (m !! px p)
  | Label _ => m !! px p = Some (pG p - B (DASM_POS2SEC (px p)))
  | Jmp _ | Jcc _ _ | Call _ => is_Some (m !! (px p + 1)) /\ exists q, q = tgt (px p) /\ m !! px p = Some q /\ lab q
  | Abs _ => exists q, q = tgt (px p) /\ m !! px p = Some q /\ lab q
  end.

(** [pre] only reads cells at and behind the instruction. *)
Lemma pre_agree m m' lab p : (forall y, px p <= y -> m' !! y = m !! y) -> pre m lab p -> pre m' lab p.
Proof.
  intros H. unfold pre. destruct (pi p); try done; rewrite ?H by lia; done.
Qed.

(** Bound to an earlier definition, or to one in [l]. *)
Definition lab_in (old : Z -> Prop) (l : list place) (q : Z) : Prop :=
  old q \/ exists p pl, p ∈ l /\ px p = q /\ pi p = Label pl.

Definition old_ok (m : gmap Z Z) (lo A : Z) (old : Z -> Prop) : Prop :=
  forall q, old q -> 0 < q < lo /\ exists a, m !! q = Some a /\ 0 <= a <= A.

Lemma tot_nonneg l : Forall wf_size l -> 0 <= tot l.
Proof.
  induction 1 as [|p l Hw _ IH]; [done|]. change (tot (p :: l)) with (esz (pi p) + tot l).
  pose proof (p2k_range ∅ 0 p Hw). lia.
Qed.

Lemma conG_le G l p : conG G l -> Forall wf_size l -> p ∈ l -> G <= pG p <= G + tot l.
Proof.
  revert G. induction l as [|p' l IH]; intros G; [by intros _ _ ?%not_elem_of_nil|].
  intros [HG HG'] [Hw Hwl]%Forall_cons. change (tot (p' :: l)) with (esz (pi p') + tot l).
  pose proof (p2k_range ∅ 0 p' Hw). pose proof (tot_nonneg l Hwl).
  intros [->|Hp]%elem_of_cons; [lia|]. pose proof (IH _ HG' Hwl Hp). lia.
Qed.

(** The final address of the target of a reference in the first instruction,
    with the cells pass 2 reads for it. *)
Lemma p2_target m adj lo G old p l q :
  asc lo (p :: l) -> 0 < lo -> conG G (p :: l) -> Forall wf_size (p :: l) -> 0 <= G + adj ->
  G + tot (p :: l) + adj <= T ->
  old_ok m lo (G + adj) old -> Forall (pre m (lab_in old (p :: l))) l ->
  1 <= npos (pi p) -> match pi p with Label _ => False | _ => True end -> lab_in old (p :: l) q ->
  let k := p2k m adj p in
  exists a, (p2 m adj (p :: l)).1 !! q = Some a /\ 0 <= a <= T /\ 0 < q /\
    (q < px p /\ m !! q = Some a /\ a <= G + adj \/
     px p < q /\ exists e, m !! q = Some (e - B (DASM_POS2SEC q)) /\ G + esz (pi p) + adj - k <= a <= e + adj - k).
Proof.
  intros Ha Hlo0 HG Hw HA HT Hold Hpre Hnp Hnl Hq.
  pose proof (fun p' => conG_le G _ p' HG Hw) as Hall. pose proof (Hall p ltac:(constructor)) as Hp0.
  destruct Ha as [Hlo Ha], HG as [HG HG']. cbn zeta.
  apply Forall_cons in Hw as [Hw1 Hw]. pose proof (npos_nonneg (pi p)).
  pose proof (p2k_range m adj p Hw1) as Hk. destruct Hq as [Hq|(p' & pl & Hp' & <- & Hpl)].
  - destruct (Hold q Hq) as (Hq0 & a & Hm & Har). exists a. cbn [p2].
    rewrite (p2_below _ _ _ _ _ Ha) by lia. rewrite p2m_below by lia.
    split; [done|]. split; [lia|]. split; [lia|]. left. split; [lia|]. split; [done|lia].
  - apply elem_of_cons in Hp' as [->|Hp']; [by rewrite Hpl in Hnl|].
    destruct (p2_label l (p2m m adj p) (adj - p2k m adj p) _ _ p' pl Ha HG' Hw Hp' Hpl) as (a & Hm & Har).
    exists a. cbn [p2]. split; [done|]. pose proof (asc_ge _ _ _ Ha Hp') as Hge.
    pose proof (Hall p' ltac:(by constructor)).
    split; [lia|]. split; [lia|]. right.
    pose proof (proj1 (Forall_forall _ _) Hpre p' Hp') as Hp. unfold pre in Hp. rewrite Hpl in Hp.
    split; [lia|]. exists (pG p'). split; [done|lia].
Qed.

(** The cut of a branch: nothing, or the short form with its reach checked. *)
Lemma p2k_branch m adj p : match pi p with Jmp _ | Jcc _ _ | Call _ => True | _ => False end ->
  p2k m adj p = 0 \/
  p2k m adj p = kmax (pi p) /\
  forall q, m !! px p = Some q ->
    let d := if px p <? q then default 0 (m !! q) + B (DASM_POS2SEC q) - (pG p + esz (pi p))
             else default 0 (m !! q) - (pG p + adj + esz (pi p)) in
    -128 - kmax (pi p) <= d <= 127.
Proof.
  intros Hi. unfold p2k. destruct (pi p) as [| | | | | | | | | |r|cc r|r| | | |] eqn:E; try done; [..|by left];
    cbn zeta; (match goal with |- context [if ?b then kmax _ else 0] => destruct b eqn:Ek end; [right|by left]);
    (split; [done|]); intros q Hq; rewrite Hq in Ek;
    change (default 0 (Some q)) with q in Ek; cbn [kmax esz] in *; destruct (px p <? q); lia.
Qed.

(** The cells of the first instruction and behind it, before the rest runs. *)
Lemma p2_head m adj lo p l y :
  asc lo (p :: l) -> y < px p + npos (pi p) -> (p2 m adj (p :: l)).1 !! y = p2m m adj p !! y.
Proof. intros [_ Ha] Hy. cbn [p2]. by apply p2_below with (px p + npos (pi p)). Qed.

(** The labels defined up to and including the first instruction. *)
Definition old_next (old : Z -> Prop) (p : place) (q : Z) : Prop :=
  old q \/ q = px p /\ exists pl, pi p = Label pl.

Lemma old_ok_next m adj lo G old p l :
  asc lo (p :: l) -> 0 < lo -> conG G (p :: l) -> wf_size p -> 0 <= G + adj ->
  old_ok m lo (G + adj) old ->
  old_ok (p2m m adj p) (px p + npos (pi p)) (G + esz (pi p) + (adj - p2k m adj p)) (old_next old p).
Proof.
  intros [Hlo Ha] Hlo0 [HG _] Hw HA Hold. pose proof (npos_nonneg (pi p)) as Hnn.
  pose proof (p2k_range m adj p Hw) as Hk. intros q [Hq|[-> [pl Hpl]]].
  - destruct (Hold q Hq) as (Hq0 & a & Hm & Har). split; [lia|]. exists a.
    rewrite p2m_below by lia. split; [done|lia].
  - rewrite Hpl. cbn. split; [lia|]. exists (G + adj). unfold p2m. rewrite Hpl, lookup_insert_eq.
    split; [by rewrite HG|]. unfold p2k. rewrite Hpl. lia.
Qed.

Lemma pre_next m adj lo old p l :
  asc lo (p :: l) -> Forall (pre m (lab_in old (p :: l))) l ->
  Forall (pre (p2m m adj p) (lab_in (old_next old p) l)) l.
Proof.
  intros [_ Ha] Hpre. apply Forall_forall. intros p' Hp'.
  pose proof (proj1 (Forall_forall _ _) Hpre p' Hp') as H'.
  pose proof (asc_ge _ _ _ Ha Hp'). apply pre_agree with m.
  { intros y Hy. apply p2m_above. lia. }
  assert (Hsub : forall q, lab_in old (p :: l) q -> lab_in (old_next old p) l q).
  { intros q [Hq|(p1 & pl & [->|Hp1]%elem_of_cons & Hx & Hpl)]; [by left; left| |].
    - left. right. split; [done|]. by exists pl.
    - right. by exists p1, pl. }
  unfold pre in *. destruct (pi p'); try done.
  all: try (destruct H' as (H1 & q & H2 & H3 & H4); split; [done|]; exists q; by auto).
  destruct H' as (q & H2 & H3 & H4). exists q. auto.
Qed.

(** The first instruction ends with its final cells. *)
Lemma p2_fok m adj lo G old p l :
  asc lo (p :: l) -> 0 < lo -> conG G (p :: l) -> Forall wf_size (p :: l) -> 0 <= G + adj ->
  G + tot (p :: l) + adj <= T ->
  old_ok m lo (G + adj) old -> pre m (lab_in old (p :: l)) p -> Forall (pre m (lab_in old (p :: l))) l ->
  fok (p2 m adj (p :: l)).1 (G + adj) p.
Proof.
  intros Ha Hlo0 HG Hw HA Hmax Hold Hp Hpre.
  assert (HT := fun q => p2_target m adj lo G old p l q Ha Hlo0 HG Hw HA Hmax Hold Hpre).
  assert (Hbelow := fun y => p2_head m adj lo p l y Ha). destruct HG as [HG _].
  set (k := p2k m adj p) in *. set (m2 := (p2 m adj (p :: l)).1) in *.
  assert (Hbr : forall q, 1 <= npos (pi p) -> match pi p with Label _ => False | _ => True end ->
    q = tgt (px p) -> m !! px p = Some q -> lab_in old (p :: l) q ->
    exists a, bound m2 (px p) a /\
     (q < px p /\ m !! q = Some a /\ a <= G + adj \/
      px p < q /\ exists e, m !! q = Some (e - B (DASM_POS2SEC q)) /\ G + esz (pi p) + adj - k <= a <= e + adj - k)).
  { intros q Hn Hnl Htq Hq Hlab. destruct (HT q Hn Hnl Hlab) as (a & Hm & Ha0 & Hq0 & Hc).
    exists a. split; [|done]. exists q. split; [done|]. split; [|done]. rewrite Hbelow by lia. unfold p2m.
    destruct (pi p); try done; by rewrite lookup_insert_ne by lia. }
  assert (Hbranch : match pi p with Jmp _ | Jcc _ _ | Call _ => True | _ => False end ->
    (exists q, q = tgt (px p) /\ m !! px p = Some q /\ lab_in old (p :: l) q) ->
    exists a k', bound m2 (px p) a /\ m2 !! (px p + 1) = Some k' /\
    (k' = 0 \/ k' = kmax (pi p) /\ -128 <= a - (G + adj + esz (pi p) - k') <= 127)).
  { intros Hi (q & Htq & Hq & Hlab). destruct (Hbr q) as (a & Hb & Hc); try done; [by destruct (pi p)..|].
    exists a, k. split; [done|]. split.
    { rewrite Hbelow by (destruct (pi p); cbn; try done; lia). unfold p2m. destruct (pi p); try done;
        by rewrite lookup_insert_eq. }
    destruct (p2k_branch m adj p Hi) as [Hk0|[Hkm Hd]]; [by left|right]. split; [done|].
    assert (5 <= esz (pi p) /\ 0 <= kmax (pi p) <= 4) as [He Hkr] by (destruct (pi p); cbn; try done; lia).
    specialize (Hd q Hq). cbn zeta in Hd. unfold k in *. rewrite Hkm in *.
    destruct Hc as [(Hlt & Hmq & Hle)|(Hlt & e & Hmq & Hr)]; rewrite Hmq in Hd; cbn [from_option] in Hd; unfold id in Hd.
    - replace (px p <? q) with false in Hd by lia. lia.
    - replace (px p <? q) with true in Hd by lia. lia. }
  unfold pre in Hp. unfold fok.
  destruct (pi p) as [| | | | | | | | |pl|r|cc r|r|r| | |] eqn:E; try done;
    try (by rewrite Hbelow by (cbn; lia); unfold p2m; rewrite E);
    try (apply Hbranch; [done|apply Hp]).
  - rewrite Hbelow by (cbn; lia). unfold p2m. rewrite E, lookup_insert_eq. split; [by rewrite HG|done].
  - destruct Hp as (q & Htq & Hq & Hlab). destruct (Hbr q) as (a & Hb & _); try done. by exists a.
Qed.

Lemma p2_fin l : forall m adj lo G old,
  asc lo l -> 0 < lo -> conG G l -> Forall wf_size l -> 0 <= G + adj -> G + tot l + adj <= T ->
  old_ok m lo (G + adj) old -> Forall (pre m (lab_in old l)) l ->
  fin (p2 m adj l).1 (G + adj) l /\ endA (p2 m adj l).1 (G + adj) l = G + tot l + (p2 m adj l).2.
Proof.
  induction l as [|p l IH]; intros m adj lo G old Ha Hlo0 HG Hw HA HT Hold Hpre; [split; [done|]; cbn; lia|].
  apply Forall_cons in Hpre as [Hp Hpre].
  pose proof (p2_fok m adj lo G old p l Ha Hlo0 HG Hw HA HT Hold Hp Hpre) as Hf.
  assert (Hbelow := fun y => p2_head m adj lo p l y Ha).
  pose proof (pre_next m adj lo old p l Ha Hpre) as Hpre'.
  assert (Hw1 : wf_size p) by (by apply Forall_cons in Hw as [? _]).
  pose proof (old_ok_next m adj lo G old p l Ha Hlo0 HG Hw1 HA Hold) as Hold'.
  cbn [asc conG] in Ha, HG. destruct Ha as [Hlo Ha], HG as [HG HG'].
  apply Forall_cons in Hw as [_ Hw]. pose proof (npos_nonneg (pi p)) as Hnn.
  pose proof (p2k_range m adj p Hw1) as Hk.
  set (k := p2k m adj p) in *. set (m2 := (p2 m adj (p :: l)).1) in *.
  assert (Hkf : kf m2 (G + adj) p = k).
  { unfold kf, k, p2k. rewrite <- HG. unfold p2m in Hbelow.
    destruct (pi p) eqn:E; try done; rewrite Hbelow by (cbn; lia); rewrite lookup_insert_eq; cbn;
      unfold p2k; by rewrite E. }
  cbn [fin endA]. rewrite Hkf.
  match goal with |- (?X /\ ?Y) /\ ?Z => cut (Y /\ Z); [tauto|] end.
  replace (G + adj + esz (pi p) - k) with (G + esz (pi p) + (adj - k)) by lia.
  unfold m2. cbn [p2]. change (tot (p :: l)) with (esz (pi p) + tot l) in *. rewrite (Z.add_assoc G).
  apply (IH (p2m m adj p) (adj - k) (px p + npos (pi p)) (G + esz (pi p)) (old_next old p)); try done; lia.
Qed.
End p2.

(** ** The loops of [dasm_link] *)

Definition holds (D : dasm_State) (m : gmap Z Z) : Prop := forall x v, m !! x = Some v -> cell D x = Some v.

Lemma holds_write D D' m x v : holds D m -> wrote D D' x v -> holds D' (<[x := v]> m).
Proof.
  intros H W y u. destruct (Z.eq_dec y x) as [->|Hne].
  - rewrite lookup_insert_eq. intros [= <-]. apply W.
  - rewrite lookup_insert_ne by done. rewrite (wr_ne _ _ _ _ W) by done. apply H.
Qed.

Lemma holds_rb D m s x v : holds D m -> in_sec s x -> m !! x = Some v -> rb D s x = Done v.
Proof. intros H Hs Hm. rewrite rb_cell by done. by rewrite (H _ _ Hm). Qed.

Lemma holds_rp D m x v : holds D m -> m !! x = Some v -> rp D x = Done v.
Proof. intros H Hm. rewrite rp_cell. by rewrite (H _ _ Hm). Qed.

(** Comparisons of a literal byte with the action codes. *)
Ltac lit_cases b :=
  repeat match goal with
  | |- context [b =? ?c] => replace (b =? c) with false by
      (unfold DASM_DISP, DASM_IMM_S, DASM_IMM_DB, DASM_VREG, DASM_SPACE, DASM_SETLABEL, DASM_REL_A, DASM_REL_LG, DASM_REL_PC,
         DASM_IMM_LG, DASM_IMM_PC, DASM_LABEL_LG, DASM_LABEL_PC, DASM_ALIGN, DASM_EXTERN, DASM_ESC, DASM_MARK,
         DASM_SECTION, DASM_STOP in *; lia)
  | |- context [?c <=? b] => replace (c <=? b) with false by (unfold DASM_DISP, DASM_IMM_S in *; lia)
  end; cbn [andb orb].

Section lk.
Context (fuel : nat) (D : dasm_State) (s p x o : Z).

Lemma lk_lit b : act D p = Done b -> b < DASM_DISP ->
  link_acts (S fuel) D s p x o = link_acts fuel D s (p + 1) x o.
Proof. intros Ha Hb. cbn [link_acts]. rewrite Ha. cbn [mbind outcome_bind]. by lit_cases b. Qed.

Lemma lk_esc : act D p = Done DASM_ESC -> link_acts (S fuel) D s p x o = link_acts fuel D s (p + 2) x o.
Proof. intros Ha. cbn [link_acts]. rewrite Ha. run. by rewrite <- Z.add_assoc. Qed.

Lemma lk_extern : act D p = Done DASM_EXTERN -> link_acts (S fuel) D s p x o = link_acts fuel D s (p + 3) x o.
Proof. intros Ha. cbn [link_acts]. rewrite Ha. run. by rewrite <- Z.add_assoc. Qed.

Lemma lk_align n mk : act D p = Done DASM_ALIGN -> act D (p + 1) = Done mk -> rb D s x = Done n ->
  in_i32 (n + o) -> in_i32 (o - Z.land (n + o) mk) ->
  link_acts (S fuel) D s p x o = link_acts fuel D s (p + 2) (x + 1) (o - Z.land (n + o) mk).
Proof.
  intros Ha Hm Hn Hi1 Hi2. cbn [link_acts]. rewrite Ha. run. rewrite Hn, Hm. cbn [mbind outcome_bind].
  rewrite (sint_ok _ Hi1). cbn [mbind outcome_bind]. rewrite (sint_ok _ Hi2). cbn [mbind outcome_bind].
  by rewrite <- Z.add_assoc.
Qed.

(** Plain cells: arguments, and references to absolute addresses. *)
Lemma lk_arg i bs : code_at (actionlist D) p (acts i ++ bs) ->
  match i with ImmS _ | ImmB _ | ImmW _ | ImmD _ | Space _ _ | Abs _ | RelA _ => True | _ => False end ->
  link_acts (S fuel) D s p x o = link_acts fuel D s (p + zlen (acts i)) (x + 1) o.
Proof.
  intros Hc Hi. cbn [link_acts].
  destruct i as [| | | | | | | | | | | | |[]| | |]; try done; cbn [acts ref_acts app] in *;
    rewrite (code_at_act _ _ _ _ Hc); run; zlen_simpl; rewrite ?Z.add_0_r; try done; f_equal; lia.
Qed.

(** The argument of an action behind literal bytes. *)
Lemma lk_shape a bs : code_at (actionlist D) p (a :: bs) -> a = DASM_IMM_DB \/ a = DASM_IMM_WB \/ a = DASM_DISP ->
  link_acts (S fuel) D s p x o = link_acts fuel D s (p + 1) (x + 1) o.
Proof. intros Hc [->|[->| ->]]; cbn [link_acts]; rewrite (code_at_act _ _ _ _ Hc); by run. Qed.

Lemma lk_label pl bs n D' : code_at (actionlist D) p (acts (Label pl) ++ bs) ->
  rb D s x = Done n -> in_i32 (n + o) -> wb D s x (n + o) = Done D' ->
  link_acts (S fuel) D s p x o = link_acts fuel D' s (p + zlen (acts (Label pl))) (x + 1) o.
Proof.
  intros Hc Hn Hi Hw. cbn [link_acts]. destruct pl as [k|k]; cbn [acts app] in *;
    rewrite (code_at_act _ _ _ _ Hc); run; rewrite Hn; cbn [mbind outcome_bind];
    rewrite (sint_ok _ Hi); cbn [mbind outcome_bind];
    rewrite Hw; cbn [mbind outcome_bind]; ground; zlen_simpl; f_equal; lia.
Qed.

Lemma lk_rel r op bs k D' : code_at (actionlist D) (p - 1) (op :: ref_acts DASM_REL_LG DASM_REL_PC r ++ bs) ->
  link_rel D s op x o = Done k -> in_i32 (o - k) -> wb D s (x + 1) k = Done D' ->
  link_acts (S fuel) D s p x o =
  link_acts fuel D' s (p + zlen (ref_acts DASM_REL_LG DASM_REL_PC r)) (x + 2) (o - k).
Proof.
  intros Hc Hk Hi Hw. pose proof (code_at_act _ _ _ _ Hc) as Hop.
  pose proof (code_at_cons _ _ _ _ Hc) as Hc'. replace (p - 1 + 1) with p in Hc' by lia.
  cbn [link_acts]. destruct r; cbn [ref_acts app] in *; rewrite (code_at_act _ _ _ _ Hc'); run;
    replace (p + 1 - 2) with (p - 1) by lia; rewrite Hop; cbn [mbind outcome_bind]; rewrite Hk;
    cbn [mbind outcome_bind]; rewrite (sint_ok _ Hi); cbn [mbind outcome_bind]; rewrite Hw;
    cbn [mbind outcome_bind]; ground; zlen_simpl; f_equal; lia.
Qed.
End lk.

(** A run of literal bytes. *)
Lemma lk_lits ops : forall fuel D s p x o bs, code_at (actionlist D) p (ops ++ bs) ->
  Forall (fun b => b < DASM_DISP) ops ->
  link_acts (length ops + fuel) D s p x o = link_acts fuel D s (p + zlen ops) x o.
Proof.
  induction ops as [|b ops IH]; intros fuel D s p x o bs Hc Hb; cbn [length Nat.add app] in *.
  - zlen_simpl. by rewrite Z.add_0_r.
  - apply Forall_cons in Hb as [Hb Hops]. rewrite zlen_cons.
    rewrite (lk_lit _ _ _ _ _ _ b) by (try done; by eapply code_at_act).
    rewrite (IH _ _ _ _ _ _ bs) by (try done; by eapply code_at_cons). f_equal; lia.
Qed.

(** The end of a record. *)
Lemma lk_end fuel D s p x o e : code_at (actionlist D) p (end_acts e) ->
  link_acts (S fuel) D s p x o = Done (D, x, o).
Proof.
  intros Hc. cbn [link_acts]. destruct e; cbn [end_acts] in Hc; rewrite (code_at_act _ _ _ _ Hc); by run.
Qed.

(** A section buffer with [n] calls has at least [n] cells. *)
Fixpoint start_pos (x : Z) (cs : list put) : list Z :=
  match cs with [] => [] | c :: cs => x :: start_pos (x + 1 + code_npos (p_code c)) cs end.

Lemma start_pos_ge x cs y : y ∈ start_pos x cs -> x <= y.
Proof.
  revert x. induction cs as [|c cs IH]; intros x; cbn; [by intros ?%not_elem_of_nil|].
  intros [->|H]%elem_of_cons; [lia|]. apply IH in H. pose proof (code_npos_nonneg (p_code c)). lia.
Qed.

Lemma start_pos_NoDup x cs : NoDup (start_pos x cs).
Proof.
  revert x. induction cs as [|c cs IH]; intros x; cbn; [constructor|]. apply NoDup_cons. split; [|apply IH].
  intros H%start_pos_ge. pose proof (code_npos_nonneg (p_code c)). lia.
Qed.

Lemma starts_lookup m x cs y : starts m x cs -> y ∈ start_pos x cs -> is_Some (m !! y).
Proof.
  revert x. induction cs as [|c cs IH]; intros x; cbn; [by intros _ ?%not_elem_of_nil|].
  intros [H1 H2] [->|H]%elem_of_cons; [by eexists|by eapply IH].
Qed.

Lemma NoDup_map_size (m : gmap Z Z) (l : list Z) :
  NoDup l -> (forall y, y ∈ l -> is_Some (m !! y)) -> (length l <= size m)%nat.
Proof.
  intros Hnd H. rewrite <- (size_list_to_set (C := gset Z) l Hnd), <- (size_dom (D := gset Z) m).
  apply subseteq_size. intros y Hy%elem_of_list_to_set. by apply elem_of_dom, H.
Qed.

Lemma wf_instr_wf_size nlg npc ngl p : wf_instr nlg npc ngl (pi p) -> wf_size p.
Proof. unfold wf_size. destruct (pi p); cbn; try done. by intros []. Qed.

Section link.
Context (al : list Z) (nsec nlg npc : Z) (gl : list Z).
Context (P : pst).

(** The estimated offsets of the sections. *)
Fixpoint Bn (k : nat) : Z := match k with O => 0 | S k' => Bn k' + est P (Z.of_nat k') end.
Definition B (t : Z) : Z := Bn (Z.to_nat t).

Lemma B_succ t : 0 <= t -> B (t + 1) = B t + est P t.
Proof.
  intros H. unfold B. replace (Z.to_nat (t + 1)) with (S (Z.to_nat t)) by lia. cbn [Bn]. do 2 f_equal. lia.
Qed.

Context (PL : plok al nsec nlg npc gl P).

Lemma B_mono t u : 0 <= t <= u -> 0 <= B t <= B u.
Proof.
  intros Ht. unfold B. assert (Z.to_nat t <= Z.to_nat u)%nat as Hle by lia. revert Hle.
  generalize (Z.to_nat t) as a, (Z.to_nat u) as b. intros a b Hle.
  assert (forall k, 0 <= est P (Z.of_nat k)) as He by (intros k; by eapply plok_est_nonneg).
  assert (0 <= Bn a) by (clear Hle; induction a as [|a IH]; cbn; [lia|specialize (He a); lia]).
  induction Hle as [|b Hle IH]; [lia|]. cbn. specialize (He b). lia.
Qed.

Lemma est_B t : 0 <= t < nsec -> B t + est P t <= B nsec.
Proof. intros Ht. rewrite <- B_succ by lia. apply B_mono. lia. Qed.

(** The estimated size of the code: offsets and their differences fit. *)
Context (Hsize : B nsec < 1073741824).
Context (Hnopend : forall pl, pend (gh P) pl = []).
Context (Hlim : forall s, cur P s <= DASM_SEC2POS s + 16777216).

Abbreviation kn1 := (kn (gh P)).
Abbreviation labs := (lbs (gh P)).

(** What the loops keep: the sections' counters, the cells [m], and that
    cells from [x] on are those of pass 1. *)
Record lst (D : dasm_State) (m : gmap Z Z) (x : Z) : Prop := Lst {
  l_al : actionlist D = al;
  l_meta : forall t, 0 <= t < nsec -> exists b e, smeta D t = Some (b, DASM_SEC2POS t, cur P t, e, est P t) /\
    cur P t - DASM_SEC2POS t <= b / 4;
  l_n : zlen (sections D) = nsec;
  l_bias : biased D;
  l_holds : holds D m;
  l_agree : forall y, x <= y -> m !! y = kn1 !! y;
  l_dom : forall y, is_Some (kn1 !! y) -> is_Some (m !! y);
  l_lab : forall q v, q ∈ labs -> m !! q = Some v -> 0 <= v <= B nsec }.

Lemma lst_frame D D' m m' x x' :
  lst D m x -> frame D D' -> x <= x' -> holds D' m' -> (forall y, x' <= y -> m' !! y = m !! y) ->
  (forall y, is_Some (m !! y) -> is_Some (m' !! y)) ->
  (forall y v, m' !! y = Some v -> m !! y = Some v \/ 0 <= v <= B nsec) -> lst D' m' x'.
Proof.
  intros L F Hx Hh Ha Hd Hl. constructor.
  - rewrite (fr_al _ _ F). apply L.
  - intros t Ht. rewrite (fr_meta _ _ F). by apply L.
  - unfold zlen. rewrite (fr_n _ _ F). apply L.
  - eapply biased_frame; [done|apply L].
  - done.
  - intros y Hy. rewrite Ha by done. apply L. lia.
  - intros y Hy. by apply Hd, L.
  - intros q v Hq [Hv|Hv]%Hl; [by eapply L|done].
Qed.

(** The cells so far stay. *)
Lemma lst_later D m x x' : lst D m x -> x <= x' -> lst D m x'.
Proof. intros L Hx. eapply lst_frame; [done|done|done|apply L|done|done|by left]. Qed.

(** A cell written behind [x]. *)
Lemma lst_write D D' m x x' y v : lst D m x -> wrote D D' y v -> x <= y < x' -> 0 <= v <= B nsec ->
  lst D' (<[y := v]> m) x'.
Proof.
  intros L W Hy Hv. eapply lst_frame; [done|apply W|lia|eapply holds_write; [apply L|done]|..].
  - intros z Hz. apply lookup_insert_ne. lia.
  - intros z Hz. destruct (Z.eq_dec z y) as [->|]; [rewrite lookup_insert_eq; by eexists|by rewrite lookup_insert_ne].
  - intros z u. destruct (Z.eq_dec z y) as [->|]; [rewrite lookup_insert_eq; intros [= <-]; by right|].
    rewrite lookup_insert_ne by done. by left.
Qed.

(** A position below the end of its section. *)
Lemma l_room D m x0 s x : lst D m x0 -> 0 <= s < nsec -> DASM_SEC2POS s <= x < cur P s -> room D s x.
Proof.
  intros L Hs Hx. split; [unfold in_sec; specialize (Hlim s); lia|].
  destruct (l_meta _ _ _ L s Hs) as (b & e & Hm & Hb). do 5 eexists. split; [done|]. zlia.
Qed.

Lemma lab_sec q : q ∈ labs -> 0 <= DASM_POS2SEC q < nsec /\ 0 < q /\ is_Some (kn1 !! q).
Proof.
  intros Hq. destruct (pl_lbs _ _ _ _ _ _ PL q Hq) as (t & p & pl & Ht & Hp & Hx & Hpl).
  pose proof (pl_places _ _ _ _ _ _ PL t) as Hf. rewrite Forall_forall in Hf. specialize (Hf p Hp).
  destruct p as [x e i]; cbn in *. subst. cbn in Hf. destruct Hf as [Hk _].
  assert (DASM_SEC2POS t + 1 <= q < DASM_SEC2POS t + puts_npos (placed P t)) as Hr.
  { clear -Hp. revert Hp. generalize 0 as G. generalize (DASM_SEC2POS t) as x0. generalize (placed P t) as cs.
    induction cs as [|c cs IH]; intros x0 G; cbn [sec_places puts_npos foldr]; [by intros ?%not_elem_of_nil|].
    pose proof (code_npos_nonneg (p_code c)).
    pose proof (puts_npos_nonneg cs).
    fold (puts_npos cs). intros [Hp|Hp]%elem_of_app; [|apply IH in Hp; lia].
    assert (forall c x G, Place q e (Label pl) ∈ places x G c -> x <= q < x + code_npos c) as Hc.
    { clear. induction c as [|i c IH]; intros x G; cbn [places]; [by intros ?%not_elem_of_nil|].
      change (code_npos (i :: c)) with (npos i + code_npos c). pose proof (code_npos_nonneg c). pose proof (npos_nonneg i).
      intros [[= <- <- <-]|H']%elem_of_cons; [cbn; lia|]. apply IH in H'. lia. }
    apply Hc in Hp. lia. }
  assert (in_sec t q) as Hin.
  { unfold in_sec. specialize (Hlim t). rewrite (pl_cur _ _ _ _ _ _ PL) in Hlim. lia. }
  rewrite (in_sec_pos2sec t q Hin). split; [done|]. split; [rewrite sec2pos in *; lia|by eexists].
Qed.

Lemma rc_bound x : rc (gh P) x -> exists q, q ∈ labs /\ kn1 !! x = Some q.
Proof.
  intros [(q & Hq & Hk)|[pl Hp]]; [by exists q|]. rewrite Hnopend in Hp. by apply not_elem_of_nil in Hp.
Qed.

Lemma add_ofs_spec D m x k : forall i lofs, lst D m x -> 0 <= i -> i + Z.of_nat k <= nsec ->
  0 <= lofs -> lofs + B (i + Z.of_nat k) - B i < 2147483648 ->
  add_ofs k D i lofs = Done (lofs + B (i + Z.of_nat k) - B i).
Proof.
  induction k as [|k IH]; intros i lofs L Hi Hk H0 Hmax.
  - cbn. f_equal. rewrite Z.add_0_r. lia.
  - cbn [add_ofs]. destruct (l_meta _ _ _ L i ltac:(lia)) as (b & e & Hm & _).
    destruct (smeta_Some _ _ _ Hm) as (y & Hy & Ht). unfold get_sec. rewrite Hy. cbn [acc mbind outcome_bind].
    replace (ofs y) with (est P i) by (unfold sec_meta in Ht; congruence).
    pose proof (plok_est_nonneg _ _ _ _ _ P i PL) as He. pose proof (B_succ i Hi) as HB.
    assert (i + Z.of_nat (S k) = i + 1 + Z.of_nat k) as Ek by lia. rewrite Ek in *.
    pose proof (B_mono (i + 1) (i + 1 + Z.of_nat k) ltac:(lia)).
    rewrite sint_ok by (unfold in_i32; lia). cbn [mbind outcome_bind].
    rewrite IH by (try done; lia). f_equal. lia.
Qed.

Section instr.
Context (D : dasm_State) (m : gmap Z Z) (s p x e o : Z) (i : instr).
Context (L : lst D m x) (Hs : 0 <= s < nsec) (Hx : DASM_SEC2POS s <= x) (Hxn : x + npos i <= cur P s).
Context (Hpok : pok (gh P) (Place x e i)) (Hwf : wf_instr nlg npc (zlen gl) i).
Context (He : 0 <= e) (Hei : e + esz i <= est P s) (Hoe : 0 <= e + o) (Ho : o <= B s).

Abbreviation pl := (Place x (e + B s) i).
Abbreviation adj := (o - B s).

Definition links : Prop := forall bs, code_at al p (acts i ++ bs) ->
  exists D', frame D D' /\ lst D' (p2m B m adj pl) (x + npos i) /\
    forall fuel, link_acts (nact i + fuel) D s p x o =
      link_acts fuel D' s (p + zlen (acts i)) (x + npos i) (o - p2k B m adj pl).

Lemma here_size : wf_size pl.
Proof using Hwf. by eapply (wf_instr_wf_size _ _ _ pl). Qed.

(** The offsets here, all in range. *)
Lemma here_bounds : 0 <= esz i /\ 0 <= B s /\ B s + est P s <= B nsec /\ 0 <= p2k B m adj pl <= esz i.
Proof using PL Hs Hwf.
  pose proof (esz_nonneg _ _ _ _ Hwf). pose proof (est_B s Hs). pose proof (B_mono s s ltac:(lia)).
  pose proof (p2k_range B m adj pl here_size) as Hk. cbn [pi] in Hk. lia.
Qed.

Lemma lst_same : p2m B m adj pl = m -> lst D (p2m B m adj pl) (x + npos i).
Proof.
  intros ->. pose proof (npos_nonneg i). eapply lst_later; [done|lia].
Qed.

Lemma in_here y : x <= y < x + npos i -> in_sec s y /\ room D s y.
Proof.
  intros Hy. assert (room D s y) as Hr by (eapply l_room; [done|done|lia]). split; [apply Hr|done].
Qed.

Lemma links_bytes : match i with Lit _ | Esc _ | Extern _ _ => True | _ => False end -> links.
Proof.
  intros Hi bs Hc. rewrite <- (l_al _ _ _ L) in Hc. exists D. split; [done|].
  split; [apply lst_same; by destruct i|]. intros fuel.
  destruct i; try done; cbn [nact Nat.add npos p2k pi]; cbn [acts app] in *; zlen_simpl; rewrite !Z.add_0_r, Z.sub_0_r.
  - eapply lk_lit; [by eapply code_at_act|]. cbn in Hwf. lia.
  - rewrite lk_esc by (by eapply code_at_act). f_equal; lia.
  - rewrite lk_extern by (by eapply code_at_act). f_equal; lia.
Qed.

(** Literal bytes, then an action with an argument. *)
Lemma links_shape ops a : acts i = ops ++ [a] -> a = DASM_IMM_DB \/ a = DASM_IMM_WB \/ a = DASM_DISP ->
  Forall (fun b => b < DASM_DISP) ops -> nact i = (length ops + 1)%nat ->
  match i with Alu _ _ _ _ | Mem _ _ => True | _ => False end -> links.
Proof.
  intros Ea Ha Hops Hn Hi bs Hc. rewrite <- (l_al _ _ _ L) in Hc. exists D. split; [done|].
  split; [apply lst_same; by destruct i|]. intros fuel. rewrite Ea, <- app_assoc in Hc.
  replace (npos i) with 1 by (by destruct i). replace (p2k B m adj pl) with 0 by (by destruct i).
  rewrite Hn, <- Nat.add_assoc, (lk_lits ops _ _ _ _ _ _ _ Hc Hops), Z.sub_0_r.
  rewrite (lk_shape _ _ _ _ _ _ a bs (code_at_app _ _ _ _ Hc) Ha). f_equal. rewrite Ea, zlen_app. zlen_simpl. lia.
Qed.

Lemma links_arg : match i with ImmS _ | ImmB _ | ImmW _ | ImmD _ | Space _ _ | Abs _ | RelA _ => True | _ => False end -> links.
Proof.
  intros Hi bs Hc. rewrite <- (l_al _ _ _ L) in Hc. exists D. split; [done|].
  split; [apply lst_same; by destruct i|]. intros fuel.
  replace (nact i) with 1%nat by (by destruct i). replace (npos i) with 1 by (by destruct i).
  replace (p2k B m adj pl) with 0 by (by destruct i). rewrite Z.sub_0_r. by eapply lk_arg.
Qed.

Lemma links_align mk : i = Align mk -> links.
Proof.
  intros E bs Hc. rewrite <- (l_al _ _ _ L) in Hc. exists D. split; [done|].
  split; [apply lst_same; by rewrite E|]. intros fuel. destruct (in_here x) as [Hin _]; [rewrite E; cbn; lia|].
  pose proof here_bounds as (Hz & HB & HB' & Hk).
  rewrite E in *. cbn [nact Nat.add npos p2k pi px pG acts app pok esz] in *.
  replace (e + B s + adj + mk) with (e + mk + o) in * by lia.
  rewrite (lk_align _ _ _ _ _ _ (e + mk) mk).
  - by zlen_simpl.
  - by eapply code_at_act.
  - eapply code_at_act, code_at_cons, Hc.
  - eapply holds_rb; [apply L|done|]. rewrite (l_agree _ _ _ L) by lia. done.
  - unfold in_i32. lia.
  - unfold in_i32. lia.
Qed.

Lemma links_label sl : i = Label sl -> links.
Proof.
  intros E bs Hc. rewrite <- (l_al _ _ _ L) in Hc. destruct (in_here x) as [Hin Hr]; [rewrite E; cbn; lia|].
  pose proof here_bounds as (Hz & HB & HB' & _).
  rewrite E in *. cbn [pok esz] in *. destruct Hpok as [Hk _].
  destruct (wb_wrote D s x (e + o) (l_bias _ _ _ L) Hr) as (D' & Hw & W).
  exists D'. split; [apply W|]. unfold p2m. cbn [pi px pG npos nact Nat.add p2k].
  replace (e + B s + (o - B s)) with (e + o) by lia. split.
  - eapply lst_write; [done|done|lia|lia].
  - intros fuel. rewrite Z.sub_0_r. apply (lk_label _ _ _ _ _ _ sl bs e D'); [done| |unfold in_i32; lia|done].
    eapply holds_rb; [apply L|done|]. rewrite (l_agree _ _ _ L) by lia. done.
Qed.

Lemma link_rel_spec op : match i with Jmp _ | Jcc _ _ | Call _ => True | _ => False end ->
  shrink_of op = kmax i -> link_rel D s op x o = Done (p2k B m adj pl).
Proof.
  intros Hi Hop. unfold link_rel. rewrite Hop.
  destruct (in_here x) as [Hin0 _]; [destruct i; cbn; try done; lia|].
  destruct (in_here (x + 1)) as [Hin1 _]; [destruct i; cbn; try done; lia|].
  assert (kn1 !! (x + 1) = Some (e + esz i) /\ rc (gh P) x) as [Hke Hrc] by (by destruct i).
  destruct (rc_bound x Hrc) as (q & Hq & Hkq). destruct (lab_sec q Hq) as (Hsq & Hq0 & Hqs).
  destruct (l_dom _ _ _ L q Hqs) as [v Hv]. pose proof (l_lab _ _ _ L q v Hq Hv) as Hvr.
  pose proof here_bounds as (Hz & HB & HB' & _).
  assert (m !! x = Some q) as Hmx by (by rewrite (l_agree _ _ _ L) by lia).
  assert (m !! (x + 1) = Some (e + esz i)) as Hmx1 by (by rewrite (l_agree _ _ _ L) by lia).
  unfold p2k. cbn [pi px pG]. rewrite Hmx. change (default 0 (Some q)) with q. rewrite Hv.
  change (default 0 (Some v)) with v.
  assert (Hrun : (lpos ← rb D s x; if lpos <? 0 then Done 0 else
      lofs ← rp D lpos;
      lofs ← (if x <? lpos then add_ofs (Z.to_nat (DASM_POS2SEC lpos - s)) D s lofs else sint (lofs - o));
      est ← rb D s (x + 1);
      lofs ← sint (lofs - est);
      Done (if (-128 - kmax i <=? lofs) && (lofs <=? 127) then kmax i else 0)) =
    Done (let d := if x <? q then v + B (DASM_POS2SEC q) - (e + B s + esz i) else v - (e + B s + adj + esz i) in
      if (-128 - kmax i <=? d) && (d <=? 127) then kmax i else 0)).
  { rewrite (holds_rb _ _ _ _ _ (l_holds _ _ _ L) Hin0 Hmx). cbn [mbind outcome_bind].
    replace (q <? 0) with false by lia.
    rewrite (holds_rp _ _ _ _ (l_holds _ _ _ L) Hv). cbn [mbind outcome_bind].
    destruct (Z.ltb_spec x q) as [Hlt|Hge].
    - assert (s <= DASM_POS2SEC q) as Hle.
      { unfold in_sec in Hin0. rewrite sec2pos in Hin0. rewrite pos2sec. zlia. }
      pose proof (B_mono s (DASM_POS2SEC q) ltac:(lia)). pose proof (B_mono (DASM_POS2SEC q) nsec ltac:(lia)).
      assert (s + Z.of_nat (Z.to_nat (DASM_POS2SEC q - s)) = DASM_POS2SEC q) as Eq by lia.
      rewrite (add_ofs_spec D m x) by (try done; rewrite ?Eq; lia). cbn [mbind outcome_bind]. rewrite Eq.
      rewrite (holds_rb _ _ _ _ _ (l_holds _ _ _ L) Hin1 Hmx1). cbn [mbind outcome_bind].
      rewrite sint_ok by (unfold in_i32; lia). cbn [mbind outcome_bind]. cbn zeta.
      by replace (v + B (DASM_POS2SEC q) - B s - (e + esz i)) with (v + B (DASM_POS2SEC q) - (e + B s + esz i)) by lia.
    - rewrite sint_ok by (unfold in_i32; lia). cbn [mbind outcome_bind].
      rewrite (holds_rb _ _ _ _ _ (l_holds _ _ _ L) Hin1 Hmx1). cbn [mbind outcome_bind].
      rewrite sint_ok by (unfold in_i32; lia). cbn [mbind outcome_bind]. cbn zeta.
      by replace (v - o - (e + esz i)) with (v - (e + B s + adj + esz i)) by lia. }
  destruct i; try done; cbn [kmax] in *; ground; try done; exact Hrun.
Qed.

Lemma links_branch r ops op : acts i = ops ++ op :: ref_acts DASM_REL_LG DASM_REL_PC r ->
  match i with Jmp _ | Jcc _ _ | Call _ => True | _ => False end -> shrink_of op = kmax i ->
  (forall fuel bs, code_at al p (ops ++ op :: bs) ->
    link_acts (nact i + fuel) D s p x o = link_acts (S fuel) D s (p + zlen ops + 1) x o) -> links.
Proof.
  intros Ha Hi Hop Hskip bs Hc. rewrite Ha, <- app_assoc in Hc. cbn [app] in Hc.
  destruct (in_here (x + 1)) as [_ Hr]; [destruct i; cbn; try done; lia|].
  destruct (wb_wrote D s (x + 1) (p2k B m adj pl) (l_bias _ _ _ L) Hr) as (D' & Hw & W).
  pose proof here_bounds as (Hz & HB & HB' & Hk).
  exists D'. split; [apply W|].
  assert (npos i = 2) as Hn by (by destruct i). rewrite Hn.
  assert (p2m B m adj pl = <[x + 1 := p2k B m adj pl]> m) as -> by (unfold p2m; cbn; by destruct i).
  split.
  - eapply lst_write; [done|done|lia|lia].
  - intros fuel. rewrite (Hskip fuel _ Hc).
    rewrite (lk_rel _ _ _ _ _ _ r op bs (p2k B m adj pl) D').
    + rewrite Ha, zlen_app, zlen_cons. f_equal; lia.
    + rewrite (l_al _ _ _ L). apply code_at_app in Hc.
      by replace (p + zlen ops + 1 - 1) with (p + zlen ops) by lia.
    + by apply link_rel_spec.
    + unfold in_i32. lia.
    + done.
Qed.

Lemma shrink_jcc cc : 0 <= cc < 16 -> shrink_of (0x80 + cc) = 4.
Proof.
  intros Hcc. pose proof (u8_exhaustive (fun b => negb ((128 <=? b) && (b <? 144)) || (shrink_of b =? 4))
    ltac:(by vm_compute) (0x80 + cc) ltac:(unfold in_u8; lia)) as H. cbn beta in H.
  replace (128 <=? 128 + cc) with true in H by lia. replace (128 + cc <? 144) with true in H by lia.
  cbn in H. by apply Z.eqb_eq.
Qed.

Lemma link_instr : links.
Proof.
  pose proof (l_al _ _ _ L) as Hal.
  assert (exists j, i = j) as [j E] by eauto.
  destruct j as [b|b|n|n|n|n|n f|mk|idx ty|sl|r|cc r|r|r|n|w op rm n|rm n];
    try (apply links_bytes; by rewrite E); try (apply links_arg; by rewrite E).
  - by apply links_align with mk.
  - by apply links_label with sl.
  - apply (links_branch r [DASM_ESC] 0xe9); [by rewrite E|by rewrite E|by rewrite E|].
    intros fuel bs Hc. rewrite E. cbn [nact Nat.add]. rewrite <- Hal in Hc.
    rewrite lk_esc by (by eapply code_at_act). zlen_simpl. f_equal; lia.
  - pose proof Hwf as Hwf'. rewrite E in Hwf'. destruct Hwf' as [Hcc _].
    apply (links_branch r [0x0f] (0x80 + cc)); [by rewrite E|by rewrite E|rewrite E; by apply shrink_jcc|].
    intros fuel bs Hc. rewrite E. cbn [nact Nat.add]. rewrite <- Hal in Hc. cbn [app] in Hc.
    rewrite (lk_lit _ _ _ _ _ _ 0x0f); [|by eapply code_at_act|done].
    rewrite (lk_lit _ _ _ _ _ _ (0x80 + cc)); [|eapply code_at_act, code_at_cons, Hc|unfold DASM_DISP; lia].
    zlen_simpl. f_equal; lia.
  - apply (links_branch r [] 0xe8); [by rewrite E|by rewrite E|by rewrite E|].
    intros fuel bs Hc. rewrite E. cbn [nact Nat.add]. rewrite <- Hal in Hc. cbn [app] in Hc.
    rewrite (lk_lit _ _ _ _ _ _ 0xe8); [|by eapply code_at_act|done]. zlen_simpl. f_equal; lia.
  - pose proof Hwf as Hwf'. rewrite E in Hwf'. destruct Hwf' as (Hop & Hrm & _).
    apply (links_shape [op; rm] (if w then DASM_IMM_DB else DASM_IMM_WB)); rewrite ?E; try done.
    + destruct w; [by left|by right; left].
    + repeat constructor; lia.
  - pose proof Hwf as Hwf'. rewrite E in Hwf'. destruct Hwf' as (Hrm & _).
    apply (links_shape [rm] DASM_DISP); rewrite ?E; try done; [by right; right|].
    repeat constructor; unfold DASM_DISP; lia.
Qed.
End instr.

Lemma link_code c : forall D m s p x e o bs,
  lst D m x -> 0 <= s < nsec -> DASM_SEC2POS s <= x -> x + code_npos c <= cur P s ->
  Forall (pok (gh P)) (places x e c) -> Forall (wf_instr nlg npc (zlen gl)) c ->
  code_at al p (concat (acts <$> c) ++ bs) ->
  0 <= e -> e + code_esz c <= est P s -> 0 <= e + o -> o <= B s ->
  let r := p2 B m (o - B s) (places x (e + B s) c) in
  exists D', frame D D' /\ lst D' r.1 (x + code_npos c) /\ 0 <= e + code_esz c + (r.2 + B s) /\ r.2 + B s <= B s /\
    forall fuel, link_acts (code_nact c + fuel) D s p x o =
      link_acts fuel D' s (p + zlen (concat (acts <$> c))) (x + code_npos c) (r.2 + B s).
Proof.
  induction c as [|i c IH]; intros D m s p x e o bs L Hs Hx Hxn Hpok Hwf Hc He Hei Hoe Ho; cbn zeta.
  - exists D. cbn. rewrite !Z.add_0_r. do 2 (split; [done|]). do 2 (split; [lia|]). intros fuel. zlen_simpl. f_equal; lia.
  - cbn [places] in *. apply Forall_cons in Hpok as [Hp Hpok]. apply Forall_cons in Hwf as [Hw Hwf].
    cbn [fmap list_fmap concat] in *. rewrite <- app_assoc in Hc.
    change (code_npos (i :: c)) with (npos i + code_npos c) in *.
    change (code_esz (i :: c)) with (esz i + code_esz c) in *.
    pose proof (npos_nonneg i). pose proof (code_npos_nonneg c). pose proof (code_esz_nonneg _ _ _ _ Hwf).
    destruct (link_instr D m s p x e o i L Hs Hx ltac:(lia) Hp Hw He ltac:(lia) Hoe Ho _ Hc) as (D1 & F1 & L1 & E1).
    destruct (here_bounds m s x e o i Hs Hw) as (_ & _ & _ & Hk).
    cbn [p2]. set (k := p2k B m (o - B s) (Place x (e + B s) i)) in *.
    set (m1 := p2m B m (o - B s) (Place x (e + B s) i)) in *.
    destruct (IH D1 m1 s (p + zlen (acts i)) (x + npos i) (e + esz i) (o - k) bs) as (D' & F' & L' & Hlo & Hhi & E');
      try done; [lia|lia|by apply code_at_app|lia|lia|lia|lia|].
    cbn zeta in L', E', Hlo, Hhi. replace (o - k - B s) with (o - B s - k) in * by lia.
    replace (e + esz i + B s) with (e + B s + esz i) in * by lia.
    exists D'. split; [by etrans|]. split; [by rewrite Z.add_assoc|]. split; [lia|]. split; [done|].
    intros fuel. change (code_nact (i :: c)) with (nact i + code_nact c)%nat.
    rewrite <- Nat.add_assoc, E1, E', zlen_app. f_equal; lia.
Qed.

Lemma link_calls cs : forall D m s x e o fuel,
  lst D m x -> 0 <= s < nsec -> DASM_SEC2POS s <= x -> x + puts_npos cs = cur P s ->
  starts kn1 x cs -> Forall (pok (gh P)) (sec_places x e cs) ->
  Forall (wf_put al nsec nlg npc gl) cs -> (length cs < fuel)%nat ->
  0 <= e -> e + puts_esz cs = est P s -> 0 <= e + o -> o <= B s ->
  let r := p2 B m (o - B s) (sec_places x (e + B s) cs) in
  exists D', frame D D' /\ lst D' r.1 (cur P s) /\ 0 <= est P s + (r.2 + B s) /\ r.2 + B s <= B s /\
    link_section fuel D s x (cur P s) o = Done (D', r.2 + B s).
Proof.
  induction cs as [|c cs IH]; intros D m s x e o [|fuel] L Hs Hx Hxn Hst Hpok Hwf Hf He Hei Hoe Ho; try (cbn in Hf; lia); cbn zeta.
  - exists D. cbn in Hxn, Hei. rewrite Z.add_0_r in *. subst x. do 2 (split; [done|]). cbn. do 2 (split; [lia|]).
    rewrite Z.eqb_refl. do 2 f_equal. lia.
  - cbn [sec_places starts] in *. destruct Hst as [Hst1 Hst]. apply Forall_app in Hpok as [Hp Hpok].
    apply Forall_cons in Hwf as [(Hcode & Hwfi & _ & _) Hwf].
    change (puts_npos (c :: cs)) with (1 + code_npos (p_code c) + puts_npos cs) in *.
    change (puts_esz (c :: cs)) with (code_esz (p_code c) + puts_esz cs) in *.
    pose proof (code_npos_nonneg (p_code c)). pose proof (code_esz_nonneg _ _ _ _ Hwfi).
    pose proof (puts_npos_nonneg cs) as Hnn. pose proof (puts_esz_nonneg _ _ _ _ _ _ Hwf).
    cbn [link_section]. replace (x =? cur P s) with false by lia.
    assert (in_sec s x) as Hin. { unfold in_sec. specialize (Hlim s). lia. }
    assert (m !! x = Some (p_start c)) as Hmx by (by rewrite (l_agree _ _ _ L) by lia).
    rewrite (holds_rb _ _ _ _ _ (l_holds _ _ _ L) Hin Hmx). cbn [mbind outcome_bind].
    destruct (link_code (p_code c) D m s (p_start c) (x + 1) e o (end_acts (p_end c))) as (D1 & F1 & L1 & Hlo1 & Hhi1 & E1);
      try done; [eapply lst_later; [done|lia]|lia|lia|lia|].
    assert (exists k, S (length (actionlist D)) = (code_nact (p_code c) + S k)%nat) as [k ->].
    { exists (length (actionlist D) - code_nact (p_code c))%nat. rewrite (l_al _ _ _ L).
      pose proof (code_nact_le (p_code c)). destruct (code_at_nonneg _ _ _ Hcode) as [? Hlen].
      unfold put_acts in Hlen. rewrite zlen_app in Hlen. unfold zlen in *. lia. }
    rewrite E1, (lk_end _ _ _ _ _ _ (p_end c)).
    2:{ rewrite (l_al _ _ _ L1). apply code_at_app, Hcode. }
    cbn [mbind outcome_bind]. rewrite p2_app.
    destruct (p2 B m (o - B s) (places (x + 1) (e + B s) (p_code c))) as [m1 adj1] eqn:E2. cbn [fst snd] in *.
    destruct (IH D1 m1 s (x + 1 + code_npos (p_code c)) (e + code_esz (p_code c)) (adj1 + B s) fuel)
      as (D' & F' & L' & Hlo' & Hhi' & E'); try done; [lia|lia|cbn in Hf; lia|lia|lia|].
    cbn zeta in L', E', Hlo', Hhi'. replace (adj1 + B s - B s) with adj1 in * by lia.
    replace (e + code_esz (p_code c) + B s) with (e + B s + code_esz (p_code c)) in * by lia.
    exists D'. split; [by etrans|]. done.
Qed.

Lemma length_start_pos x cs : length (start_pos x cs) = length cs.
Proof. revert x. induction cs as [|c cs IH]; intros x; cbn; [done|]. by rewrite IH. Qed.

Lemma start_in_sec t y : 0 <= t < nsec -> y ∈ start_pos (DASM_SEC2POS t) (placed P t) ->
  DASM_SEC2POS t <= y < cur P t.
Proof.
  intros Ht Hv. split; [by eapply start_pos_ge|]. rewrite (pl_cur _ _ _ _ _ _ PL).
  revert Hv. generalize (DASM_SEC2POS t) as x0. induction (placed P t) as [|c cs IH]; intros x0; cbn;
    [by intros ?%not_elem_of_nil|]. pose proof (code_npos_nonneg (p_code c)).
  pose proof (puts_npos_nonneg cs).
  unfold puts_npos in *. intros [->|Hv]%elem_of_cons; [lia|]. apply IH in Hv. lia.
Qed.

(** The calls of a section fit its fuel. *)
Lemma calls_fuel D m x s y : lst D m x -> 0 <= s < nsec -> zget (sections D) s = Some y ->
  (length (placed P s) < S (size (buf y)))%nat.
Proof.
  intros L Hs Hy. set (ps := start_pos (DASM_SEC2POS s) (placed P s)).
  rewrite <- (length_start_pos (DASM_SEC2POS s) (placed P s)). fold ps.
  rewrite <- (length_fmap (fun z => z - DASM_SEC2POS s) ps).
  assert (length ((fun z => (z - DASM_SEC2POS s)%Z) <$> ps) <= size (buf y))%nat; [|lia].
  apply NoDup_map_size.
  - apply NoDup_fmap_2; [intros a b; lia|apply start_pos_NoDup].
  - intros z (v & -> & Hv)%list_elem_of_fmap.
    destruct (starts_lookup _ _ _ v (pl_starts _ _ _ _ _ _ PL s) Hv) as [u Hu].
    destruct (l_dom _ _ _ L v ltac:(by eexists)) as [w Hw].
    pose proof (l_holds _ _ _ L v w Hw) as Hcell.
    assert (in_sec s v) as Hin.
    { pose proof (start_pos_ge _ _ _ Hv). unfold in_sec. split; [done|].
      pose proof (start_in_sec s v Hs Hv). specialize (Hlim s). lia. }
    unfold cell in Hcell. rewrite (in_sec_pos2sec s v Hin), Hy in Hcell. cbn in Hcell.
    destruct (l_meta _ _ _ L s Hs) as (b & e & Hm & _). unfold smeta in Hm. rewrite Hy in Hm. cbn in Hm.
    unfold sec_meta in Hm. replace (DASM_SEC2POS s) with (rbias y) by congruence. by eexists.
Qed.

Lemma link_all k : forall D m s x o,
  lst D m x -> 0 <= s -> s + Z.of_nat k = nsec -> x <= DASM_SEC2POS s -> 0 <= o <= B s ->
  let r := p2 B m (o - B s) (layout P k s (B s)) in
  exists D' x', frame D D' /\ lst D' r.1 x' /\ link_sections k D s o = Done (D', r.2 + B nsec).
Proof.
  induction k as [|k IH]; intros D m s x o L Hs Hk Hx Ho; cbn zeta.
  - exists D, x. split; [done|]. split; [done|]. cbn. do 2 f_equal. replace nsec with s by lia. lia.
  - cbn [layout link_sections]. destruct (l_meta _ _ _ L s ltac:(lia)) as (b & e & Hm & _).
    destruct (smeta_Some _ _ _ Hm) as (y & Hy & Ht). unfold get_sec. rewrite Hy. cbn [acc mbind outcome_bind].
    replace (pos y) with (cur P s) by (unfold sec_meta in Ht; congruence).
    destruct (link_calls (placed P s) D m s (DASM_SEC2POS s) 0 o (S (size (buf y)))) as (D1 & F1 & L1 & Hlo1 & Hhi1 & E1).
    { by eapply lst_later. }
    { lia. }
    { lia. }
    { symmetry. apply (pl_cur _ _ _ _ _ _ PL). }
    { apply (pl_starts _ _ _ _ _ _ PL). }
    { apply (pl_places _ _ _ _ _ _ PL). }
    { apply (pl_wf _ _ _ _ _ _ PL). }
    { by eapply calls_fuel; [|lia|]. }
    { done. }
    { symmetry. apply (pl_est _ _ _ _ _ _ PL). }
    { lia. }
    { lia. }
    rewrite E1. cbn [mbind outcome_bind]. cbn zeta in L1, Hlo1, Hhi1. rewrite Z.add_0_l in *. rewrite p2_app.
    destruct (p2 B m (o - B s) (sec_places (DASM_SEC2POS s) (B s) (placed P s))) as [m1 adj1]. cbn [fst snd] in *.
    destruct (l_meta _ _ _ L1 s ltac:(lia)) as (b1 & e1 & Hm1 & _).
    destruct (smeta_Some _ _ _ Hm1) as (y1 & Hy1 & Ht1). rewrite Hy1. cbn [acc mbind outcome_bind].
    replace (ofs y1) with (est P s) by (unfold sec_meta in Ht1; congruence).
    pose proof (B_succ s Hs) as HB. pose proof (est_B s ltac:(lia)).
    rewrite sint_ok by (unfold in_i32; lia). cbn [mbind outcome_bind].
    destruct (IH D1 m1 (s + 1) (cur P s) (adj1 + B s + est P s) L1) as (D' & x' & F' & L' & E').
    { lia. } { lia. } { specialize (Hlim s). rewrite !sec2pos in *. lia. } { lia. }
    cbn zeta in L', E'. rewrite HB in *. replace (adj1 + B s + est P s - (B s + est P s)) with adj1 in * by lia.
    exists D', x'. split; [by etrans|]. done.
Qed.

(** *** The layout as a sequence *)

Lemma asc_app lo hi l1 l2 : asc lo l1 -> lo <= hi -> (forall p, p ∈ l1 -> px p + npos (pi p) <= hi) ->
  asc hi l2 -> asc lo (l1 ++ l2).
Proof.
  revert lo. induction l1 as [|p l1 IH]; intros lo; cbn.
  - intros _ Hle _ Ha. by eapply asc_mono.
  - intros [Hlo Ha] Hle Hall H2. split; [done|]. apply IH; [done| |..|done].
    + apply Hall. constructor.
    + intros p' Hp'. apply Hall. by constructor.
Qed.

Lemma conG_app G l1 l2 : conG G l1 -> conG (G + tot l1) l2 -> conG G (l1 ++ l2).
Proof.
  revert G. induction l1 as [|p l1 IH]; intros G; cbn; [by rewrite Z.add_0_r|].
  intros [HG HG'] H2. split; [done|]. apply IH; [done|]. fold (tot l1) in H2. by rewrite <- Z.add_assoc.
Qed.

Lemma tot_app l1 l2 : tot (l1 ++ l2) = tot l1 + tot l2.
Proof. induction l1 as [|p l1 IH]; cbn; [done|]. unfold tot in *. lia. Qed.

Lemma places_seq c : forall x G,
  asc x (places x G c) /\ conG G (places x G c) /\ tot (places x G c) = code_esz c /\
  (forall p, p ∈ places x G c -> px p + npos (pi p) <= x + code_npos c).
Proof.
  induction c as [|i c IH]; intros x G; cbn [places].
  - repeat split; try done. by intros p ?%not_elem_of_nil.
  - destruct (IH (x + npos i) (G + esz i)) as (H1 & H2 & H3 & H4).
    change (code_npos (i :: c)) with (npos i + code_npos c).
    pose proof (code_npos_nonneg c). split; [split; [cbn; lia|done]|]. split; [done|]. split.
    + change (tot (Place x G i :: places (x + npos i) (G + esz i) c)) with (esz i + tot (places (x + npos i) (G + esz i) c)).
      by rewrite H3.
    + intros p [->|Hp]%elem_of_cons; [cbn; lia|]. apply H4 in Hp. lia.
Qed.

Lemma sec_places_seq cs : forall x G,
  asc (x + 1) (sec_places x G cs) /\ conG G (sec_places x G cs) /\ tot (sec_places x G cs) = puts_esz cs /\
  (forall p, p ∈ sec_places x G cs -> px p + npos (pi p) <= x + puts_npos cs).
Proof.
  induction cs as [|c cs IH]; intros x G; cbn [sec_places].
  - repeat split; try done. by intros p ?%not_elem_of_nil.
  - destruct (places_seq (p_code c) (x + 1) G) as (H1 & H2 & H3 & H4).
    destruct (IH (x + 1 + code_npos (p_code c)) (G + code_esz (p_code c))) as (H1' & H2' & H3' & H4').
    change (puts_npos (c :: cs)) with (1 + code_npos (p_code c) + puts_npos cs).
    pose proof (code_npos_nonneg (p_code c)). pose proof (puts_npos_nonneg cs). split; [|split; [|split]].
    + eapply asc_app; [done| |done|eapply asc_mono; [|done]]; lia.
    + apply conG_app; [done|]. by rewrite H3.
    + rewrite tot_app, H3, H3'. done.
    + intros p [Hp|Hp]%elem_of_app; [apply H4 in Hp; lia|apply H4' in Hp; lia].
Qed.

Lemma layout_seq k : forall s, 0 <= s ->
  asc (DASM_SEC2POS s + 1) (layout P k s (B s)) /\ conG (B s) (layout P k s (B s)) /\
  tot (layout P k s (B s)) = B (s + Z.of_nat k) - B s.
Proof.
  induction k as [|k IH]; intros s Hs; cbn [layout].
  - repeat split; try done. rewrite Z.add_0_r. cbn. lia.
  - destruct (sec_places_seq (placed P s) (DASM_SEC2POS s) (B s)) as (H1 & H2 & H3 & H4).
    rewrite <- B_succ by done. destruct (IH (s + 1) ltac:(lia)) as (H1' & H2' & H3').
    pose proof (Hlim s) as Hl. rewrite (pl_cur _ _ _ _ _ _ PL) in Hl.
    pose proof (puts_npos_nonneg (placed P s)). split; [|split].
    + eapply (asc_app _ (DASM_SEC2POS s + puts_npos (placed P s) + 1)); [done|lia|intros p Hp%H4; lia|].
      eapply asc_mono; [|done]. rewrite !sec2pos in *. lia.
    + apply conG_app; [done|]. rewrite H3, <- (pl_est _ _ _ _ _ _ PL). by rewrite <- B_succ by done.
    + rewrite tot_app, H3, H3', <- (pl_est _ _ _ _ _ _ PL), B_succ by done.
      replace (s + 1 + Z.of_nat k) with (s + Z.of_nat (S k)) by lia. lia.
Qed.

Definition unG (b : Z) (p : place) : place := Place (px p) (pG p - b) (pi p).

Lemma places_shift b c : forall x G p, p ∈ places x (G + b) c -> unG b p ∈ places x G c.
Proof.
  induction c as [|i c IH]; intros x G p; cbn [places]; [by intros ?%not_elem_of_nil|].
  intros [->|Hp]%elem_of_cons; apply elem_of_cons.
  - left. unfold unG. cbn. f_equal. lia.
  - right. apply IH. by replace (G + esz i + b) with (G + b + esz i) by lia.
Qed.

Lemma sec_places_shift b cs : forall x G p, p ∈ sec_places x (G + b) cs -> unG b p ∈ sec_places x G cs.
Proof.
  induction cs as [|c cs IH]; intros x G p; cbn [sec_places]; [by intros ?%not_elem_of_nil|].
  intros [Hp|Hp]%elem_of_app; apply elem_of_app.
  - left. by apply places_shift.
  - right. apply IH. by replace (G + code_esz (p_code c) + b) with (G + b + code_esz (p_code c)) by lia.
Qed.

Lemma places_instr c : forall x G p, p ∈ places x G c -> pi p ∈ c.
Proof.
  induction c as [|i c IH]; intros x G p; cbn [places]; [by intros ?%not_elem_of_nil|].
  intros [->|Hp]%elem_of_cons; [constructor|]. apply elem_of_cons. right. by eapply IH.
Qed.

Lemma sec_places_instr cs : forall x G p, p ∈ sec_places x G cs -> exists c, c ∈ cs /\ pi p ∈ p_code c.
Proof.
  induction cs as [|c cs IH]; intros x G p; cbn [sec_places]; [by intros ?%not_elem_of_nil|].
  intros [Hp|Hp]%elem_of_app.
  - exists c. split; [constructor|]. by eapply places_instr.
  - destruct (IH _ _ _ Hp) as (c' & Hc & Hi). exists c'. split; [by constructor|done].
Qed.

Lemma layout_elem k : forall s p, 0 <= s -> p ∈ layout P k s (B s) ->
  exists t, s <= t < s + Z.of_nat k /\ p ∈ sec_places (DASM_SEC2POS t) (B t) (placed P t).
Proof.
  induction k as [|k IH]; intros s p Hs; cbn [layout]; [by intros ?%not_elem_of_nil|].
  intros [Hp|Hp]%elem_of_app; [exists s; split; [lia|done]|].
  rewrite <- B_succ in Hp by done. destruct (IH (s + 1) p ltac:(lia) Hp) as (t & Ht & Hp').
  exists t. split; [lia|done].
Qed.

Lemma elem_layout k : forall s t p, 0 <= s -> s <= t < s + Z.of_nat k ->
  p ∈ sec_places (DASM_SEC2POS t) (B t) (placed P t) -> p ∈ layout P k s (B s).
Proof.
  induction k as [|k IH]; intros s t p Hs Ht Hp; [lia|]. cbn [layout]. apply elem_of_app.
  destruct (Z.eq_dec t s) as [->|Hne]; [by left|right]. rewrite <- B_succ by done.
  apply (IH (s + 1) t); [lia|lia|done].
Qed.

(** The other direction of [sec_places_shift], for one label. *)
Lemma places_unshift b c : forall x G p, p ∈ places x G c -> Place (px p) (pG p + b) (pi p) ∈ places x (G + b) c.
Proof.
  induction c as [|i c IH]; intros x G p; cbn [places]; [by intros ?%not_elem_of_nil|].
  intros [->|Hp]%elem_of_cons; apply elem_of_cons; [by left|right].
  replace (G + b + esz i) with (G + esz i + b) by lia. by apply IH.
Qed.

Lemma sec_places_unshift b cs : forall x G p, p ∈ sec_places x G cs ->
  Place (px p) (pG p + b) (pi p) ∈ sec_places x (G + b) cs.
Proof.
  induction cs as [|c cs IH]; intros x G p; cbn [sec_places]; [by intros ?%not_elem_of_nil|].
  intros [Hp|Hp]%elem_of_app; apply elem_of_app.
  - left. by apply places_unshift.
  - right. replace (G + b + code_esz (p_code c)) with (G + code_esz (p_code c) + b) by lia. by apply IH.
Qed.

(** The estimates of the labels. *)
Lemma lab_est q v : q ∈ labs -> kn1 !! q = Some v -> 0 <= v <= B nsec.
Proof.
  intros Hq Hv. destruct (pl_lbs _ _ _ _ _ _ PL q Hq) as (t & p & sl & Ht & Hp & <- & Hpl).
  pose proof (pl_places _ _ _ _ _ _ PL t) as Hf. rewrite Forall_forall in Hf. specialize (Hf p Hp).
  destruct (sec_places_seq (placed P t) (DASM_SEC2POS t) 0) as (_ & HG & Htot & _).
  assert (Forall wf_size (sec_places (DASM_SEC2POS t) 0 (placed P t))) as Hws.
  { apply Forall_forall. intros p' (c & Hc & Hi)%sec_places_instr.
    pose proof (pl_wf _ _ _ _ _ _ PL t) as Hw. rewrite Forall_forall in Hw.
    destruct (Hw c Hc) as (_ & Hwi & _). rewrite Forall_forall in Hwi. by eapply wf_instr_wf_size, Hwi. }
  pose proof (conG_le B 0 _ p HG Hws Hp) as Hr. rewrite Htot, <- (pl_est _ _ _ _ _ _ PL) in Hr.
  pose proof (est_B t Ht). pose proof (B_mono t t ltac:(lia)).
  destruct p as [x e i]; cbn in *. subst i. cbn in Hf. destruct Hf as [Hk _].
  rewrite Hk in Hv. injection Hv as <-. lia.
Qed.

Definition tgt_of (x : Z) : Z := default 0 (kn1 !! x).

Context (Hn0 : 0 <= nsec).
Abbreviation lay := (layout P (Z.to_nat nsec) 0 0).

Lemma lay_B : lay = layout P (Z.to_nat nsec) 0 (B 0).
Proof. done. Qed.

Lemma lab_lay q : q ∈ labs -> exists p pl, p ∈ lay /\ px p = q /\ pi p = Label pl.
Proof.
  intros Hq. destruct (pl_lbs _ _ _ _ _ _ PL q Hq) as (t & p & pl & Ht & Hp & Hx & Hpl).
  exists (Place (px p) (pG p + B t) (pi p)), pl. split; [|done]. rewrite lay_B.
  apply (elem_layout _ 0 t); [lia|lia|]. apply (sec_places_unshift (B t)) in Hp. by rewrite Z.add_0_l in Hp.
Qed.

Lemma lay_pre : Forall (pre B tgt_of kn1 (lab_in (fun _ => False) lay)) lay.
Proof.
  apply Forall_forall. intros p Hp. pose proof Hp as Hp0. rewrite lay_B in Hp.
  destruct (layout_elem _ 0 p ltac:(lia) Hp) as (t & Ht & Hpt).
  destruct (sec_places_seq (placed P t) (DASM_SEC2POS t) (B t)) as (Ha & _ & _ & Hhi).
  pose proof (asc_ge _ _ _ Ha Hpt) as Hlo. pose proof (Hhi _ Hpt) as Hhi'.
  rewrite <- (Z.add_0_l (B t)) in Hpt. apply sec_places_shift in Hpt.
  pose proof (pl_places _ _ _ _ _ _ PL t) as Hf. rewrite Forall_forall in Hf. specialize (Hf _ Hpt).
  assert (Hlab : forall x, rc (gh P) x -> exists q, q = tgt_of x /\ kn1 !! x = Some q /\ lab_in (fun _ => False) lay q).
  { intros x Hr. destruct (rc_bound x Hr) as (q & Hq & Hk). exists q. unfold tgt_of. rewrite Hk. split; [done|]. split; [done|]. right. by apply lab_lay. }
  unfold unG in Hf. unfold pok in Hf. unfold pre. destruct (pi p) eqn:E; try done.
  - destruct Hf as [Hk _]. rewrite Hk. f_equal. rewrite (in_sec_pos2sec t); [lia|].
    unfold in_sec. specialize (Hlim t). rewrite (pl_cur _ _ _ _ _ _ PL) in Hlim. cbn in Hhi'. lia.
  - destruct Hf as [Hk Hr]. split; [by eexists|auto].
  - destruct Hf as [Hk Hr]. split; [by eexists|auto].
  - destruct Hf as [Hk Hr]. split; [by eexists|auto].
  - auto.
Qed.

Lemma lay_wf : Forall (fun p => wf_instr nlg npc (zlen gl) (pi p)) lay.
Proof.
  apply Forall_forall. intros p Hp. rewrite lay_B in Hp.
  destruct (layout_elem _ 0 p ltac:(lia) Hp) as (t & Ht & Hpt).
  destruct (sec_places_instr _ _ _ _ Hpt) as (c & Hc & Hi).
  pose proof (pl_wf _ _ _ _ _ _ PL t) as Hw. rewrite Forall_forall in Hw.
  destruct (Hw c Hc) as (_ & Hwi & _). rewrite Forall_forall in Hwi. by apply Hwi.
Qed.

Lemma lay_size : Forall wf_size lay.
Proof.
  eapply Forall_impl; [apply lay_wf|]. intros p. apply wf_instr_wf_size.
Qed.

(** Start cells lie outside the instructions. *)
Lemma start_outside cs : forall x G y p, y ∈ start_pos x cs -> p ∈ sec_places x G cs ->
  y < px p \/ px p + npos (pi p) <= y.
Proof.
  induction cs as [|c cs IH]; intros x G y p; cbn [start_pos sec_places]; [by intros ?%not_elem_of_nil|].
  destruct (places_seq (p_code c) (x + 1) G) as (Ha & _ & _ & Hhi).
  pose proof (code_npos_nonneg (p_code c)).
  destruct (sec_places_seq cs (x + 1 + code_npos (p_code c)) (G + code_esz (p_code c))) as (Ha' & _ & _ & _).
  intros [->|Hy]%elem_of_cons [Hp|Hp]%elem_of_app.
  - left. pose proof (asc_ge _ _ _ Ha Hp). lia.
  - left. pose proof (asc_ge _ _ _ Ha' Hp). lia.
  - right. apply Hhi in Hp. apply start_pos_ge in Hy. lia.
  - by eapply IH.
Qed.

Lemma starts_same m m' x cs : (forall y, y ∈ start_pos x cs -> m' !! y = m !! y) -> starts m x cs -> starts m' x cs.
Proof.
  revert x. induction cs as [|c cs IH]; intros x H; cbn; [done|]. intros [H1 H2]. split.
  - rewrite H by constructor. done.
  - apply IH; [|done]. intros y Hy. apply H. by constructor.
Qed.

Lemma lay_starts t : 0 <= t < nsec -> starts (p2 B kn1 0 lay).1 (DASM_SEC2POS t) (placed P t).
Proof.
  intros Ht. eapply starts_same; [|apply (pl_starts _ _ _ _ _ _ PL)]. intros y Hy. apply p2_other.
  intros p Hp. rewrite lay_B in Hp. destruct (layout_elem _ 0 p ltac:(lia) Hp) as (u & Hu & Hpu).
  destruct (Z.eq_dec u t) as [->|Hne]; [by eapply start_outside|].
  pose proof (start_in_sec t y Ht Hy) as Hyr.
  destruct (sec_places_seq (placed P u) (DASM_SEC2POS u) (B u)) as (Ha & _ & _ & Hhi).
  pose proof (asc_ge _ _ _ Ha Hpu). apply Hhi in Hpu. rewrite <- (pl_cur _ _ _ _ _ _ PL) in Hpu.
  pose proof (Hlim u). pose proof (Hlim t). rewrite !sec2pos in *. lia.
Qed.

(** The result of pass 2. *)
Lemma lay_fin : let r := p2 B kn1 0 lay in fin tgt_of (B nsec) r.1 0 lay /\ endA r.1 0 lay = r.2 + B nsec.
Proof.
  destruct (layout_seq (Z.to_nat nsec) 0 ltac:(lia)) as (Ha & HG & Ht). rewrite lay_B.
  destruct (p2_fin B tgt_of (B nsec) lay kn1 0 (DASM_SEC2POS 0 + 1) 0 (fun _ => False)) as [Hf He]; try done.
  - apply lay_size.
  - rewrite lay_B, Ht. change (B 0) with 0. replace (0 + Z.of_nat (Z.to_nat nsec)) with nsec by lia. lia.
  - apply lay_pre.
  - split; [done|]. rewrite lay_B in He. change (0 + 0) with 0 in He. rewrite He, Ht. change (B 0) with 0.
    replace (0 + Z.of_nat (Z.to_nat nsec)) with nsec by lia. lia.
Qed.
End link.

Lemma est_le P nsec s : (forall t, 0 <= est P t) -> 0 <= s < nsec -> est P s <= B P nsec.
Proof.
  intros He Hs. unfold B. rewrite <- (Z2Nat.id s) by lia.
  assert (Z.to_nat s < Z.to_nat nsec)%nat as Hlt by lia. revert Hlt. generalize (Z.to_nat s) as a.
  assert (forall b, 0 <= Bn P b) as Hb.
  { intros b. induction b as [|b IH]; cbn; [lia|]. specialize (He (Z.of_nat b)). lia. }
  induction (Z.to_nat nsec) as [|b IH]; intros a Hlt; [lia|]. cbn. specialize (He (Z.of_nat b)). specialize (Hb b).
  destruct (Nat.eq_dec a b) as [->|Hne]; [lia|]. specialize (IH a ltac:(lia)). lia.
Qed.

(** No label waits: the checks and the treatment of globals do nothing. *)
Lemma undef_pc_none l pc : Forall (fun n => n <= 0) l -> undef_pc l pc = None.
Proof.
  revert pc. induction l as [|n l IH]; intros pc; cbn; [done|]. intros [Hn Hl]%Forall_cons.
  replace (0 <? n) with false by lia. by apply IH.
Qed.

Lemma link_globals_id l : forall D idx, Forall (fun n => n <= 0) l -> link_globals D l idx = Done D.
Proof.
  induction l as [|n l IH]; intros D idx; cbn [link_globals]; [done|]. intros [Hn Hl]%Forall_cons.
  unfold chain_fuel. cbn [collapse]. replace (0 <? n) with false by lia.
  destruct (10 <=? idx); cbn [mbind outcome_bind]; by apply IH.
Qed.

Lemma labels_nonpos D g cur : inv D g cur -> (forall pl, pend g pl = []) ->
  Forall (fun n => n <= 0) (lglabels D) /\ Forall (fun n => n <= 0) (pclabels D).
Proof.
  intros I Hp.
  assert (Hs : forall pl v, ckpl D pl = true -> zget (labels D pl) (slot_idx pl) = Some v -> v <= 0).
  { intros pl v Hck Hv. destruct (i_slot _ _ _ I pl Hck) as (v' & Hv' & Hs). assert (v' = v) by congruence. subst v'.
    specialize (Hp pl). unfold pend in Hp. destruct (lb g pl) as [q|l]; cbn in Hs; [lia|]. subst l. cbn in Hs. lia. }
  split; apply Forall_lookup; intros k v Hk; pose proof (lookup_lt_Some _ _ _ Hk) as Hlt.
  - apply (Hs (LG (Z.of_nat k))); [unfold ckpl, zlen; cbn; lia|].
    cbn. unfold zget. replace (Z.of_nat k <? 0) with false by lia. by rewrite Nat2Z.id.
  - apply (Hs (PC (Z.of_nat k))); [unfold ckpl, zlen; cbn; lia|].
    cbn. unfold zget. replace (Z.of_nat k <? 0) with false by lia. by rewrite Nat2Z.id.
Qed.

Lemma dasm_link_spec al nsec nlg npc gl D P :
  rel al nsec nlg npc gl D P -> 0 <= nsec -> (forall pl, pend (gh P) pl = []) ->
  (forall s, cur P s <= DASM_SEC2POS s + 16777216) -> B P nsec < 1073741824 ->
  exists D' m sz x, dasm_link D = Done (DASM_S_OK, sz, D') /\ codesize D' = sz /\ globals D' = gl /\
    sz <= B P nsec /\
    lst al nsec P D' m x /\
    fin (tgt_of P) (B P nsec) m 0 (layout P (Z.to_nat nsec) 0 0) /\ endA m 0 (layout P (Z.to_nat nsec) 0 0) = sz /\
    (forall t, 0 <= t < nsec -> starts m (DASM_SEC2POS t) (placed P t)).
Proof.
  intros R Hn0 Hp Hlim Hsize. destruct (labels_nonpos _ _ _ (r_inv _ _ _ _ _ _ _ R) Hp) as [Hlg Hpc].
  unfold dasm_link. rewrite (r_st _ _ _ _ _ _ _ R). change (negb (DASM_S_OK =? DASM_S_OK)) with false. cbn [negb].
  rewrite (undef_pc_none _ _ Hpc), (link_globals_id _ _ _ Hlg). cbn [mbind outcome_bind].
  pose proof (r_pl _ _ _ _ _ _ _ R) as PL.
  assert (lst al nsec P D (kn (gh P)) 0) as L.
  { constructor; try done; try apply R; try apply (r_inv _ _ _ _ _ _ _ R);
      [|exact (i_kn _ _ _ (r_inv _ _ _ _ _ _ _ R))|by eapply lab_est].
    intros t Ht. destruct (r_secs _ _ _ _ _ _ _ R t Ht) as (b & e & Hm & _ & Hb & _). exists b, e. split; [done|lia]. }
  destruct (link_all al nsec nlg npc gl P PL Hsize Hp Hlim (length (sections D)) D (kn (gh P)) 0 0 0 L) as (D' & x & F & L' & E);
    [lia|rewrite <- (r_n _ _ _ _ _ _ _ R); unfold zlen; lia|done|done|].
  change (B P 0) with 0 in *. change (0 - 0) with 0 in *.
  replace (length (sections D)) with (Z.to_nat nsec) in * by (rewrite <- (r_n _ _ _ _ _ _ _ R); unfold zlen; lia).
  rewrite E. cbn [mbind outcome_bind]. destruct (lay_fin al nsec nlg npc gl P PL Hp Hlim Hn0) as [Hf He].
  cbn zeta in *. do 4 eexists. split; [done|]. split; [done|]. split; [cbn; rewrite (fr_gl _ _ F); apply R|].
  split. { pose proof (p2_adj_le (B P) _ (kn (gh P)) 0 (lay_size al nsec nlg npc gl P PL)). lia. }
  split; [|split; [exact Hf|split; [exact He|]]].
  - destruct L'. constructor; done.
  - by apply (lay_starts al nsec nlg npc gl P PL Hlim).
Qed.
End DasmLink.
