(* ===== verification/DasmEncode.v ===== *)
(** * DasmEncode

    Pass 3 of the encoding engine: [dasm_encode] writes the code the final
    cells prescribe.  The file ends with what the three passes together
    guarantee for a program. *)
From stdpp Require Import base tactics numbers list gmap.
From Stdlib Require Import ZArith Lia.
From S2P Require Import Prelude Dasm DasmSpec DasmPut DasmLink.
Import Dasm DasmSpec DasmPut DasmLink.
Open Scope Z_scope.

Module DasmEncode.

(** ** Writing bytes *)

Section bytes.
Context (cap : Z).

Lemma dasmb_ok out x : zlen out < cap -> dasmb cap out x = Done (out ++ [u8 x]).
Proof. intros H. unfold dasmb. by replace (zlen out <? cap) with true by lia. Qed.

Lemma dasmw_ok out x : zlen out + 2 <= cap -> dasmw cap out x = Done (out ++ le16 x).
Proof.
  intros H. unfold dasmw. rewrite dasmb_ok by lia. cbn [mbind outcome_bind].
  rewrite dasmb_ok by (zlen_simpl; lia). by rewrite <- app_assoc.
Qed.

Lemma dasmd_ok out x : zlen out + 4 <= cap -> dasmd cap out x = Done (out ++ le32 x).
Proof.
  intros H. unfold dasmd. rewrite dasmw_ok by lia. cbn [mbind outcome_bind].
  rewrite dasmw_ok by (unfold le16; zlen_simpl; lia). by rewrite <- app_assoc.
Qed.

Lemma zlen_le32 n : zlen (le32 n) = 4.
Proof. done. Qed.

Lemma modb_last out x f : modb (out ++ [x]) (zlen (out ++ [x]) - 1) f = Done (out ++ [u8 (f x)]).
Proof.
  unfold modb. replace (zlen (out ++ [x]) - 1) with (zlen out) by (zlen_simpl; lia).
  rewrite zget_middle. cbn [acc mbind outcome_bind]. by rewrite zset_middle.
Qed.

Lemma enc_space_ok k : forall out fill, zlen out + Z.of_nat k <= cap -> in_u8 fill ->
  enc_space cap k out fill = Done (out ++ replicate k fill).
Proof.
  induction k as [|k IH]; intros out fill H Hf; cbn [enc_space]; [by rewrite app_nil_r|].
  rewrite dasmb_ok by lia. cbn [mbind outcome_bind]. rewrite u8_small by done.
  rewrite IH by (try done; zlen_simpl; lia). by rewrite <- app_assoc.
Qed.

Lemma enc_align_steps mk j : forall fuel out, (j < fuel)%nat -> zlen out + Z.of_nat j <= cap ->
  (forall i, 0 <= i < Z.of_nat j -> Z.land (zlen out + i) mk <> 0) ->
  Z.land (zlen out + Z.of_nat j) mk = 0 ->
  enc_align cap fuel out mk = Done (out ++ replicate j 0x90).
Proof.
  induction j as [|j IH]; intros [|fuel] out Hf Hcap Hne Heq; try lia; cbn [enc_align].
  - rewrite Z.add_0_r in Heq. rewrite Heq. by rewrite app_nil_r.
  - pose proof (Hne 0 ltac:(lia)) as H0. rewrite Z.add_0_r in H0.
    replace (Z.land (zlen out) mk =? 0) with false by lia.
    rewrite dasmb_ok by lia. cbn [mbind outcome_bind]. rewrite IH.
    + by rewrite <- app_assoc.
    + lia.
    + zlen_simpl. lia.
    + intros i Hi. specialize (Hne (1 + i) ltac:(lia)). zlen_simpl.
      by replace (zlen out + (1 + 0) + i) with (zlen out + (1 + i)) by lia.
    + zlen_simpl. rewrite <- Heq. f_equal. lia.
Qed.

(** The padding in front of an aligned address. *)
Lemma enc_align_ok out k : 0 <= k <= 8 ->
  let mk := 2 ^ k - 1 in
  let j := mk - Z.land (zlen out + mk) mk in
  zlen out + j <= cap ->
  enc_align cap 257 out mk = Done (out ++ replicate (Z.to_nat j) 0x90) /\
  0 <= j <= mk /\ (zlen out + j) mod (mk + 1) = 0.
Proof.
  intros Hk mk j Hcap. subst mk j. rewrite align_land in * by lia.
  assert (0 < 2 ^ k) as Hp by (apply Z.pow_pos_nonneg; lia).
  assert (2 ^ k <= 256) as Hp8. { change 256 with (2 ^ 8). apply Z.pow_le_mono_r; lia. }
  set (N := 2 ^ k) in *. set (A := zlen out) in *.
  pose proof (Z.mod_pos_bound (A + (N - 1)) N Hp) as Hm.
  pose proof (Z.div_mod (A + (N - 1)) N ltac:(lia)) as Hd.
  set (r := (A + (N - 1)) mod N) in *. set (c := (A + (N - 1)) / N) in *.
  assert (A + (N - 1 - r) = c * N) as HA by lia.
  replace (N - 1 + 1) with N by lia. rewrite HA, Z.mod_mul by lia.
  split; [|split; [lia|done]].
  apply enc_align_steps.
  - lia.
  - fold A. lia.
  - intros i Hi. fold A. unfold N. rewrite align_land by lia. fold N.
    replace (A + i) with ((N - (N - 1 - r - i)) + (c - 1) * N) by lia.
    rewrite Z.mod_add by lia. rewrite Z.mod_small by lia. lia.
  - fold A. replace (A + Z.of_nat (Z.to_nat (N - 1 - r))) with (c * N) by lia.
    unfold N. rewrite align_land by lia. fold N. by rewrite Z.mod_mul by lia.
Qed.
End bytes.

(** ** Single actions *)

Section steps.
Context (ef : Z -> Z -> Z -> Z) (base cap : Z).
Context (fuel : nat) (D : dasm_State) (s p b : Z) (out : list Z).
Abbreviation run_enc := (enc_acts ef base cap).

Lemma en_lit c : act D p = Done c -> 0 <= c < DASM_DISP -> zlen out < cap ->
  run_enc (S fuel) D s p b out None = run_enc fuel D s (p + 1) b (out ++ [c]) None.
Proof.
  intros Ha Hc Hcap. cbn [enc_acts]. rewrite Ha. cbn [mbind outcome_bind]. lit_cases c.
  rewrite dasmb_ok by done. cbn [mbind outcome_bind].
  rewrite u8_small by (unfold in_u8, DASM_DISP in *; lia). done.
Qed.

Lemma en_esc c : act D p = Done DASM_ESC -> act D (p + 1) = Done c -> in_u8 c -> zlen out < cap ->
  run_enc (S fuel) D s p b out None = run_enc fuel D s (p + 2) b (out ++ [c]) None.
Proof.
  intros Ha Hc Hu Hcap. cbn [enc_acts]. rewrite Ha. run. rewrite Hc. cbn [mbind outcome_bind].
  rewrite dasmb_ok by done. cbn [mbind outcome_bind]. rewrite u8_small by done. by rewrite <- Z.add_assoc.
Qed.

Lemma en_extern ty idx : act D p = Done DASM_EXTERN -> act D (p + 1) = Done ty -> act D (p + 2) = Done idx ->
  zlen out + 4 <= cap ->
  run_enc (S fuel) D s p b out None =
  run_enc fuel D s (p + 3) b (out ++ le32 (ef (base + zlen out) idx ty)) None.
Proof.
  intros Ha Ht Hi Hcap. cbn [enc_acts]. rewrite Ha. run. rewrite Ht. cbn [mbind outcome_bind].
  replace (p + 1 + 1) with (p + 2) by lia. rewrite Hi. cbn [mbind outcome_bind].
  rewrite dasmd_ok by done. cbn [mbind outcome_bind]. by rewrite <- Z.add_assoc.
Qed.

Lemma en_imm i n bs' : code_at (actionlist D) p (acts i ++ bs') -> zb D s b = Done n ->
  match i with ImmS k | ImmB k | ImmW k | ImmD k => n = k | _ => False end ->
  zlen out + esz i <= cap ->
  run_enc (S fuel) D s p b out None =
  run_enc fuel D s (p + 1) (b + 1)
    (out ++ match i with ImmW _ => le16 n | ImmD _ => le32 n | _ => [u8 n] end) None.
Proof.
  intros Hc Hn Hi Hcap. cbn [enc_acts].
  destruct i; try done; subst n; cbn [acts app esz] in *; rewrite (code_at_act _ _ _ _ Hc); run;
    rewrite Hn; cbn [mbind outcome_bind]; unfold enc_imm; ground.
  - by rewrite dasmb_ok by lia.
  - by rewrite dasmb_ok by lia.
  - by rewrite dasmw_ok by lia.
  - by rewrite dasmd_ok by lia.
Qed.

Lemma en_space n fill : act D p = Done DASM_SPACE -> act D (p + 1) = Done fill -> zb D s b = Done n ->
  0 <= n -> in_u8 fill -> zlen out + n <= cap ->
  run_enc (S fuel) D s p b out None =
  run_enc fuel D s (p + 2) (b + 1) (out ++ replicate (Z.to_nat n) fill) None.
Proof.
  intros Ha Hf Hn H0 Hu Hcap. cbn [enc_acts]. rewrite Ha. run. rewrite Hn. cbn [mbind outcome_bind].
  rewrite Hf. cbn [mbind outcome_bind]. replace (n <? 0) with false by lia.
  rewrite enc_space_ok by (try done; lia). cbn [mbind outcome_bind]. by rewrite <- Z.add_assoc.
Qed.

Lemma en_align n mk out' : act D p = Done DASM_ALIGN -> act D (p + 1) = Done mk -> zb D s b = Done n ->
  enc_align cap 257 out mk = Done out' ->
  run_enc (S fuel) D s p b out None = run_enc fuel D s (p + 2) (b + 1) out' None.
Proof.
  intros Ha Hm Hn Ho. cbn [enc_acts]. rewrite Ha. run. rewrite Hn. cbn [mbind outcome_bind].
  rewrite Hm. cbn [mbind outcome_bind]. rewrite Ho. cbn [mbind outcome_bind]. by rewrite <- Z.add_assoc.
Qed.

Lemma en_rel r n k out' bs' : code_at (actionlist D) p (ref_acts DASM_REL_LG DASM_REL_PC r ++ bs') ->
  zb D s b = Done n -> 0 <= n -> zb D s (b + 1) = Done k -> enc_rel_pc base cap D out n k = Done out' ->
  run_enc (S fuel) D s p b out None =
  run_enc fuel D s (p + zlen (ref_acts DASM_REL_LG DASM_REL_PC r)) (b + 2) out' None.
Proof.
  intros Hc Hn H0 Hk Ho. cbn [enc_acts].
  destruct r; cbn [ref_acts app] in *; rewrite (code_at_act _ _ _ _ Hc); run; rewrite Hn;
    cbn [mbind outcome_bind]; replace (n <? 0) with false by lia; cbn [andb];
    rewrite Hk; cbn [mbind outcome_bind]; rewrite Ho; cbn [mbind outcome_bind]; zlen_simpl; f_equal; lia.
Qed.

Lemma en_abs r n a bs' : code_at (actionlist D) p (ref_acts DASM_IMM_LG DASM_IMM_PC r ++ bs') ->
  zb D s b = Done n -> 0 <= n -> rp D n = Done a -> 0 <= a -> zlen out + 4 <= cap ->
  run_enc (S fuel) D s p b out None =
  run_enc fuel D s (p + zlen (ref_acts DASM_IMM_LG DASM_IMM_PC r)) (b + 1) (out ++ le32 (a + i32 base)) None.
Proof.
  intros Hc Hn H0 Ha Ha0 Hcap. cbn [enc_acts].
  destruct r; cbn [ref_acts app] in *; rewrite (code_at_act _ _ _ _ Hc); run; rewrite Hn;
    cbn [mbind outcome_bind]; replace (n <? 0) with false by lia; cbn [andb];
    rewrite Ha; cbn [mbind outcome_bind]; replace (a <? 0) with false by lia; cbn [mbind outcome_bind];
    rewrite dasmd_ok by done; cbn [mbind outcome_bind]; zlen_simpl; f_equal; lia.
Qed.

End steps.

Lemma en_label ef base cap D s p b out sl n c bs' :
  code_at (actionlist D) p (acts (Label sl) ++ c :: bs') ->
  c <> DASM_SETLABEL -> zb D s b = Done n ->
  match sl with LG k => k < 10 + zlen (globals D) | PC _ => True end ->
  exists l, length l = length (globals D) /\ forall fuel,
    enc_acts ef base cap (S fuel) D s p b out None =
    enc_acts ef base cap fuel (with_globals D l) s (p + zlen (acts (Label sl))) (b + 1) out None.
Proof.
  intros Hc Hne Hn Hk.
  assert (Hsame : with_globals D (globals D) = D) by (by destruct D).
  destruct sl as [k|k]; cbn [acts app] in *; pose proof (code_at_act _ _ _ _ Hc) as Ha.
  - pose proof (code_at_act _ _ _ _ (code_at_cons _ _ _ _ Hc)) as Ha1.
    pose proof (code_at_act _ _ _ _ (code_at_cons _ _ _ _ (code_at_cons _ _ _ _ Hc))) as Ha2.
    destruct (Z.leb_spec 10 k).
    + destruct (zset_is_Some (globals D) (k - 10) (base + n)) as [l Hl]; [lia|].
      exists l. split; [apply zset_Some in Hl as [_ ->]; apply length_insert|].
      intros fuel. cbn [enc_acts]. rewrite Ha. run. rewrite Hn. cbn [mbind outcome_bind].
      rewrite Ha1. cbn [mbind outcome_bind]. replace (10 <=? k) with true by lia.
      rewrite Ha2. cbn [mbind outcome_bind]. replace (c =? DASM_SETLABEL) with false by lia.
      cbn [mbind outcome_bind]. unfold set_global. rewrite Hl. cbn [acc mbind outcome_bind].
      zlen_simpl. f_equal; lia.
    + exists (globals D). split; [done|]. rewrite Hsame.
      intros fuel. cbn [enc_acts]. rewrite Ha. run. rewrite Hn. cbn [mbind outcome_bind].
      rewrite Ha1. cbn [mbind outcome_bind]. replace (10 <=? k) with false by lia. cbn [mbind outcome_bind].
      zlen_simpl. f_equal; lia.
  - exists (globals D). split; [done|]. rewrite Hsame.
    intros fuel. cbn [enc_acts]. rewrite Ha. run. rewrite Hn. cbn [mbind outcome_bind]. zlen_simpl. f_equal; lia.
Qed.

Lemma en_end ef base cap fuel D s p b out e : code_at (actionlist D) p (end_acts e) ->
  enc_acts ef base cap (S fuel) D s p b out None = Done (D, b, out).
Proof.
  intros Hc. cbn [enc_acts]. destruct e; cbn [end_acts] in Hc; rewrite (code_at_act _ _ _ _ Hc); by run.
Qed.

(** ** Instructions, calls and sections *)

Section encode.
Context (ef : Z -> Z -> Z -> Z) (base cap : Z).
Context (al : list Z) (nsec nlg npc : Z) (gl : list Z) (P : pst).
Context (PL : plok al nsec nlg npc gl P).
Context (Hlim : forall s, cur P s <= DASM_SEC2POS s + 16777216).
Context (Hsize : B P nsec < 1073741824) (Hcapsz : cap <= B P nsec).
(** The final cells and the labels the references are bound to. *)
Context (m : gmap Z Z) (csz : Z).

(** What no instruction starts with. *)
Definition head_ok (c : Z) : Prop := c <> DASM_SETLABEL /\ c <> DASM_IMM_DB /\ c <> DASM_IMM_WB.

Definition addr (q : Z) : Z := default 0 (m !! q).
Abbreviation tgt := (tgt_of P).
Abbreviation encodes1 := (encodes ef base addr tgt).

(** The cells stay as they are; only globals are written. *)
Definition est3 (D : dasm_State) : Prop := (exists x, lst al nsec P D m x) /\
  zlen (globals D) = zlen gl /\ codesize D = csz.

Lemma est3_globals D l : est3 D -> length l = length (globals D) -> est3 (with_globals D l).
Proof.
  intros (( x & L) & Hg & Hc) Hl. split; [|split; [unfold zlen in *; cbn; lia|done]].
  exists x. destruct L. by constructor.
Qed.

Lemma est3_al D : est3 D -> actionlist D = al.
Proof. intros [[x L] _]. apply L. Qed.

Lemma est3_zb D s x v : est3 D -> 0 <= s < nsec -> in_sec s x -> m !! x = Some v ->
  zb D s (x - DASM_SEC2POS s) = Done v.
Proof.
  intros [[x0 L] _] Hs Hin Hm. pose proof (l_holds _ _ _ _ _ _ L _ _ Hm) as Hc.
  destruct (l_meta _ _ _ _ _ _ L s Hs) as (b & e & Hsm & _).
  destruct (smeta_Some _ _ _ Hsm) as (y & Hy & Ht).
  unfold zb, get_sec. rewrite Hy. cbn [acc mbind outcome_bind].
  unfold cell in Hc. rewrite (in_sec_pos2sec s x Hin), Hy in Hc. cbn in Hc.
  replace (DASM_SEC2POS s) with (rbias y) by (unfold sec_meta in Ht; congruence). by rewrite Hc.
Qed.

Lemma est3_rp D x v : est3 D -> m !! x = Some v -> rp D x = Done v.
Proof. intros [[x0 L] _] Hm. eapply holds_rp; [apply L|done]. Qed.

Section instr.
Context (D : dasm_State) (s p x G : Z) (out : list Z) (i : instr).
Context (E3 : est3 D) (Hs : 0 <= s < nsec) (Hx : DASM_SEC2POS s <= x)
  (Hxn : x + npos i <= DASM_SEC2POS s + 16777216).
Abbreviation pl := (Place x G i).
Abbreviation A := (zlen out).
Context (Hfok : fok tgt (B P nsec) m A pl) (Hwf : wf_instr nlg npc (zlen gl) i).
Context (Hcap : A + esz i - kf m A pl <= cap).

Definition encs : Prop := forall c bs', code_at al p (acts i ++ c :: bs') -> head_ok c ->
  exists D' bs, est3 D' /\ encodes1 A x i bs /\ zlen bs = esz i - kf m A pl /\
    forall fuel, enc_acts ef base cap (nact i + fuel) D s p (x - DASM_SEC2POS s) out None =
      enc_acts ef base cap fuel D' s (p + zlen (acts i)) (x + npos i - DASM_SEC2POS s) (out ++ bs) None.

Lemma here y : x <= y < x + npos i -> in_sec s y.
Proof. unfold in_sec. lia. Qed.

Lemma encs_bytes : match i with Lit _ | Esc _ | Extern _ _ => True | _ => False end -> encs.
Proof.
  intros Hi c bs' Hc _. rewrite <- (est3_al D E3) in Hc. exists D.
  destruct i as [b|b| | | | | | |idx ty| | | | | | | |]; try done; cbn [kf pi esz] in *;
    cbn [acts app nact Nat.add npos encodes] in *; zlen_simpl; rewrite ?Z.add_0_r.
  - exists [b]. split; [done|]. split; [done|]. split; [done|]. intros fuel.
    eapply en_lit; [by eapply code_at_act|done|lia].
  - exists [b]. split; [done|]. split; [done|]. split; [done|]. intros fuel.
    eapply (en_esc _ _ _ _ _ _ _ _ _ b); [by eapply code_at_act|eapply code_at_act, code_at_cons, Hc|done|lia].
  - eexists. split; [done|]. split; [done|]. split; [done|]. intros fuel.
    eapply (en_extern _ _ _ _ _ _ _ _ _ ty idx); [by eapply code_at_act|eapply code_at_act, code_at_cons, Hc| |lia].
    replace (p + 2) with (p + 1 + 1) by lia. eapply code_at_act, code_at_cons, code_at_cons, Hc.
Qed.

Lemma encs_imm : match i with ImmS _ | ImmB _ | ImmW _ | ImmD _ => True | _ => False end -> encs.
Proof.
  intros Hi c bs' Hc _. rewrite <- (est3_al D E3) in Hc. exists D.
  assert (exists n, m !! x = Some n /\ match i with ImmS k | ImmB k | ImmW k | ImmD k => n = k | _ => False end)
    as (n & Hn & Hni) by (destruct i as [| |k|k|k|k| | | | | | | | | | |]; try done; by exists k).
  exists (match i with ImmW _ => le16 n | ImmD _ => le32 n | _ => [u8 n] end).
  assert (kf m A pl = 0) as Hk by (by destruct i). rewrite Hk in *.
  split; [done|]. split; [|split].
  - destruct i; try done; subst n; cbn; try done. by rewrite u8_small.
  - by destruct i.
  - intros fuel. replace (nact i) with 1%nat by (by destruct i). replace (npos i) with 1 by (by destruct i).
    replace (zlen (acts i)) with 1 by (by destruct i). cbn [Nat.add].
    replace (x + 1 - DASM_SEC2POS s) with (x - DASM_SEC2POS s + 1) by lia.
    eapply en_imm; [done| |done|lia]. apply est3_zb; try done. apply here. destruct i; cbn; try done; lia.
Qed.

Lemma encs_space n fill : i = Space n fill -> encs.
Proof.
  intros E c bs' Hc _. rewrite <- (est3_al D E3) in Hc. exists D, (replicate (Z.to_nat n) fill).
  assert (in_sec s x) as Hin by (apply here; rewrite E; cbn; lia).
  rewrite E in *. cbn [kf pi esz fok px] in *. cbn [acts app nact Nat.add npos wf_instr] in *. destruct Hwf as [Hn Hf].
  split; [done|]. split; [done|]. split; [rewrite zlen_replicate; lia|]. intros fuel.
  rewrite (en_space _ _ _ _ _ _ _ _ _ n fill (code_at_act _ _ _ _ Hc) (code_at_act _ _ _ _ (code_at_cons _ _ _ _ Hc))
    (est3_zb _ _ _ _ E3 Hs Hin Hfok) Hn Hf) by lia.
  zlen_simpl. f_equal; lia.
Qed.

Lemma encs_align mk : i = Align mk -> encs.
Proof.
  intros E c bs' Hc _. rewrite <- (est3_al D E3) in Hc. exists D.
  assert (in_sec s x) as Hin by (apply here; rewrite E; cbn; lia).
  rewrite E in *. cbn [kf pi esz fok px] in *. cbn [acts app nact Nat.add npos wf_instr] in *.
  destruct Hwf as (k & Hk & ->). destruct Hfok as [n Hn].
  destruct (enc_align_ok cap out k Hk ltac:(lia)) as (Ho & Hj & Hmod).
  exists (replicate (Z.to_nat (2 ^ k - 1 - Z.land (A + (2 ^ k - 1)) (2 ^ k - 1))) 0x90).
  split; [done|]. split; [|split].
  - cbn. eexists. split; [done|]. rewrite Z2Nat.id by lia. split; [lia|done].
  - rewrite zlen_replicate. lia.
  - intros fuel. rewrite (en_align _ _ _ _ _ _ _ _ _ n (2 ^ k - 1) _ (code_at_act _ _ _ _ Hc)
      (code_at_act _ _ _ _ (code_at_cons _ _ _ _ Hc)) (est3_zb _ _ _ _ E3 Hs Hin Hn) Ho).
    zlen_simpl. f_equal; lia.
Qed.

Lemma encs_label sl : i = Label sl -> encs.
Proof.
  intros E c bs' Hc (Hne & _). rewrite <- (est3_al D E3) in Hc.
  assert (in_sec s x) as Hin by (apply here; rewrite E; cbn; lia).
  rewrite E in *. cbn [kf pi esz fok px] in *. cbn [nact Nat.add npos wf_instr] in *. destruct Hfok as [Hm HA].
  assert (match sl with LG k => k < 10 + zlen (globals D) | PC _ => True end) as Hk.
  { destruct sl; [|done]. rewrite (proj1 (proj2 E3)). cbn in Hwf. lia. }
  destruct (en_label ef base cap D s p (x - DASM_SEC2POS s) out sl A c bs' Hc Hne) as (l & Hl & Hrun);
    [by apply est3_zb|done|].
  exists (with_globals D l), []. split; [by apply est3_globals|]. split.
  { cbn. split; [done|]. unfold addr. by rewrite Hm. }
  split; [done|]. intros fuel. rewrite Hrun, app_nil_r. f_equal; lia.
Qed.

(** The reference part of a branch, behind its opcode bytes [ops]. *)
Lemma bound_read a : bound tgt (B P nsec) m x a -> in_sec s x ->
  exists q, zb D s (x - DASM_SEC2POS s) = Done q /\ 0 <= q /\ rp D q = Done a /\ 0 <= a <= B P nsec /\ addr (tgt x) = a.
Proof.
  intros (q & -> & Hmx & Hq & Hma & Ha) Hin. exists (tgt x). split; [by apply est3_zb|]. split; [lia|].
  split; [by apply est3_rp|]. split; [done|]. unfold addr. by rewrite Hma.
Qed.

Lemma encs_abs r : i = Abs r -> encs.
Proof.
  intros E c bs' Hc _. rewrite <- (est3_al D E3) in Hc. exists D.
  assert (in_sec s x) as Hin by (apply here; rewrite E; cbn; lia).
  rewrite E in *. cbn [kf pi esz fok px] in *. cbn [acts app nact Nat.add npos wf_instr] in *.
  destruct Hfok as [a Hb]. destruct (bound_read a Hb Hin) as (q & Hq & Hq0 & Ha & Ha0 & Hadr).
  exists (le32 (a + i32 base)). split; [done|]. split; [cbn; by rewrite Hadr|]. split; [done|].
  intros fuel. rewrite (en_abs _ _ _ _ _ _ _ _ _ r q a (c :: bs') Hc Hq Hq0 Ha) by lia.
  f_equal; lia.
Qed.

Lemma encs_rela n : i = RelA n -> encs.
Proof.
  intros E c bs' Hc _. rewrite <- (est3_al D E3) in Hc. exists D.
  assert (in_sec s x) as Hin by (apply here; rewrite E; cbn; lia).
  rewrite E in *. cbn [kf pi esz fok px] in *. cbn [acts app nact Nat.add npos] in *.
  exists (le32 (n - i32 (base + A + 4))). split; [done|]. split; [done|]. split; [done|]. intros fuel.
  cbn [enc_acts]. rewrite (code_at_act _ _ _ _ Hc). run. rewrite (est3_zb _ _ _ _ E3 Hs Hin Hfok).
  cbn [mbind outcome_bind]. unfold enc_rel_a. rewrite dasmd_ok by lia. cbn [mbind outcome_bind]. zlen_simpl.
  f_equal; lia.
Qed.

(** The opcode is two bytes before the immediate. *)
Lemma modb_opcode o op rm f : modb ((o ++ [op]) ++ [rm]) (zlen ((o ++ [op]) ++ [rm]) - 2) f =
  Done ((o ++ [u8 (f op)]) ++ [rm]).
Proof.
  unfold modb. replace (zlen ((o ++ [op]) ++ [rm]) - 2) with (zlen o) by (zlen_simpl; lia).
  rewrite <- !app_assoc. cbn [app]. rewrite zget_middle. cbn [acc mbind outcome_bind]. by rewrite zset_middle.
Qed.

Lemma encs_alu w op rm n : i = Alu w op rm n -> encs.
Proof.
  intros E c bs' Hc _. rewrite <- (est3_al D E3) in Hc. exists D.
  assert (in_sec s x) as Hin by (apply here; rewrite E; cbn; lia).
  rewrite E in *. cbn [kf pi esz fok px] in *. cbn [acts app nact Nat.add npos encodes] in *.
  destruct Hwf as (Hop & Hrm & Hn). eexists. split; [done|]. split; [done|]. split.
  { destruct (is_byte n), w; done. }
  intros fuel. assert (2 <= 2 + (if is_byte n then 1 else if w then 4 else 2)) as Hz by (repeat case_match; lia).
  rewrite (en_lit _ _ _ _ _ _ _ _ _ op (code_at_act _ _ _ _ Hc) Hop) by lia. apply code_at_cons in Hc.
  rewrite (en_lit _ _ _ _ _ _ _ _ _ rm (code_at_act _ _ _ _ Hc) Hrm) by (zlen_simpl; lia). apply code_at_cons in Hc.
  cbn [enc_acts]. rewrite (code_at_act _ _ _ _ Hc).
  destruct w; run; rewrite (est3_zb _ _ _ _ E3 Hs Hin Hfok); cbn [mbind outcome_bind]; unfold enc_imm; ground;
    rewrite short_is_byte; (destruct (is_byte n) eqn:Eb;
      [unfold enc_db; cbn [from_option]; unfold default; rewrite modb_opcode; cbn [mbind outcome_bind];
       rewrite dasmb_ok by (zlen_simpl; lia); rewrite (u8_small (op + 2)) by (unfold in_u8, DASM_DISP in *; lia)
      |rewrite ?dasmd_ok, ?dasmw_ok by (zlen_simpl; lia)]);
    cbn [mbind outcome_bind fst snd]; rewrite <- !app_assoc; cbn [app]; zlen_simpl; f_equal; lia.
Qed.

Lemma encs_mem rm n : i = Mem rm n -> encs.
Proof.
  intros E c bs' Hc (_ & Hdb & Hwb). rewrite <- (est3_al D E3) in Hc. exists D.
  assert (in_sec s x) as Hin by (apply here; rewrite E; cbn; lia).
  rewrite E in *. cbn [kf pi esz fok px] in *. cbn [acts app nact Nat.add npos encodes] in *.
  destruct Hwf as (Hrm & Hrm4 & Hn). eexists. split; [done|]. split; [done|]. split.
  { destruct (no_disp rm n), (is_byte n); done. }
  intros fuel. assert (1 <= 1 + (if no_disp rm n then 0 else if is_byte n then 1 else 4)) as Hz by (repeat case_match; lia).
  rewrite (en_lit _ _ _ _ _ _ _ _ _ rm (code_at_act _ _ _ _ Hc)) by (unfold DASM_DISP; lia). apply code_at_cons in Hc.
  cbn [enc_acts]. rewrite (code_at_act _ _ _ _ Hc). run. rewrite (est3_zb _ _ _ _ E3 Hs Hin Hfok).
  cbn [mbind outcome_bind]. rewrite (code_at_act _ _ _ _ (code_at_cons _ _ _ _ Hc)). cbn [mbind outcome_bind].
  unfold enc_disp, default, from_option. replace (c =? DASM_IMM_DB) with false by lia.
  replace (c =? DASM_IMM_WB) with false by lia. cbn [negb andb].
  replace (zlen (out ++ [rm]) - 1) with (zlen out) by (zlen_simpl; lia). rewrite zget_middle. cbn [acc mbind outcome_bind].
  replace (Z.land rm 7 =? 4) with false by lia. cbn [mbind outcome_bind]. rewrite short_is_byte.
  assert (Hmod : forall v, 0 <= rm - v < 256 -> modb (out ++ [rm]) (zlen out) (fun y => y - v) = Done (out ++ [rm - v])).
  { intros v Hv. unfold modb. rewrite zget_middle. cbn [acc mbind outcome_bind]. rewrite zset_middle.
    by rewrite u8_small by (unfold in_u8; lia). }
  unfold no_disp in *. destruct (n =? 0), (Z.land rm 7 =? 5), (is_byte n); cbn [mbind outcome_bind negb andb] in *;
    rewrite ?(Hmod 0x80), ?(Hmod 0x40) by lia; cbn [mbind outcome_bind];
    rewrite ?dasmb_ok, ?dasmd_ok by (zlen_simpl; lia);
    cbn [mbind outcome_bind fst snd]; rewrite <- ?app_assoc; cbn [app]; zlen_simpl; f_equal; lia.
Qed.

(** The opcode bytes a branch starts with. *)
Definition long_op : list Z :=
  match i with Jmp _ => [0xe9] | Jcc cc _ => [0x0f; 0x80 + cc] | _ => [0xe8] end.

Lemma enc_rel_ok q a k : match i with Jmp _ | Jcc _ _ | Call _ => True | _ => False end ->
  rp D q = Done a -> 0 <= a <= B P nsec -> addr (tgt x) = a -> A + esz i - k <= cap -> 0 <= k ->
  (k = 0 \/ k = kmax i /\ -128 <= a - (A + esz i - k) <= 127) ->
  exists bs, enc_rel_pc base cap D (out ++ long_op) q k = Done (out ++ bs) /\
    encodes1 A x i bs /\ zlen bs = esz i - k.
Proof.
  intros Hi Hrp Ha Hadr Hcap' Hk0 Hk. pose proof (zlen_nonneg out). pose proof (zlen_nonneg long_op).
  assert (zlen long_op = esz i - 4 /\ A + zlen long_op = zlen (out ++ long_op)) as [Hlen Hlen'].
  { rewrite zlen_app. split; [|done]. unfold long_op. by destruct i. }
  unfold enc_rel_pc. rewrite Hrp. cbn [mbind outcome_bind]. replace (a <? 0) with false by lia.
  assert (k <= 4) as Hk4 by (destruct Hk as [->|[-> _]]; destruct i; cbn; try done; lia).
  rewrite sint_ok by (unfold in_i32; rewrite <- Hlen'; lia). cbn [mbind outcome_bind].
  destruct Hk as [->|[-> Hd]].
  - change (0 =? 0) with true. cbv iota. rewrite dasmd_ok by lia.
    replace (a - (zlen (out ++ long_op) + 4 - 0)) with (a - (A + zlen long_op + 4)) by lia.
    rewrite <- app_assoc. eexists. split; [done|]. rewrite Z.sub_0_r. split.
    + unfold long_op in *. destruct i; try done; cbn [encodes]; unfold branch; rewrite Hadr; try (by left).
      cbn [app]. do 3 f_equal. zlen_simpl. lia.
    + rewrite zlen_app, Hlen, zlen_le32. lia.
  - unfold long_op in *. destruct i as [| | | | | | | | | |r|cc r|r| | | |]; try done; cbn [kmax esz] in *; ground.
    + rewrite modb_last. cbn [mbind outcome_bind]. rewrite dasmb_ok by (zlen_simpl; lia).
      rewrite <- app_assoc. eexists. split; [done|]. split; [|done]. right. cbn zeta. rewrite Hadr.
      split; [|zlen_simpl; lia]. change (u8 0xeb) with 0xeb. cbn [app]. do 3 f_equal. zlen_simpl. lia.
    + replace (zlen (out ++ [0x0f; 0x80 + cc]) - 1) with (zlen (out ++ [0x0f])) by (zlen_simpl; lia).
      replace (out ++ [0x0f; 0x80 + cc]) with ((out ++ [0x0f]) ++ [0x80 + cc]) in * by (by rewrite <- app_assoc).
      rewrite zget_middle. cbn [acc mbind outcome_bind].
      replace (take (length ((out ++ [0x0f]) ++ [0x80 + cc]) - 1) ((out ++ [0x0f]) ++ [0x80 + cc])) with (out ++ [0x0f]).
      2:{ rewrite length_app. cbn [length]. rewrite Nat.add_sub. by rewrite take_app_length. }
      rewrite modb_last. cbn [mbind outcome_bind]. rewrite dasmb_ok by (zlen_simpl; lia).
      rewrite <- app_assoc. eexists. split; [done|]. split; [|done]. right. cbn zeta. rewrite Hadr.
      destruct Hwf as [Hcc _]. rewrite (u8_small (128 + cc - 16)) by (unfold in_u8; lia).
      split; [|zlen_simpl; lia]. cbn [app]. f_equal; [lia|]. do 2 f_equal. zlen_simpl. lia.
    + rewrite dasmd_ok by (zlen_simpl; lia). rewrite <- app_assoc. eexists. split; [done|]. split; [|done].
      cbn. rewrite Hadr. do 2 f_equal. zlen_simpl. lia.
Qed.

Lemma encs_branch r ops :
  match i with Jmp r' | Jcc _ r' | Call r' => r' = r | _ => False end ->
  acts i = ops ++ ref_acts DASM_REL_LG DASM_REL_PC r ->
  (forall fuel bs, code_at al p (ops ++ bs) -> A + zlen long_op <= cap ->
    enc_acts ef base cap (nact i + fuel) D s p (x - DASM_SEC2POS s) out None =
    enc_acts ef base cap (S fuel) D s (p + zlen ops) (x - DASM_SEC2POS s) (out ++ long_op) None) -> encs.
Proof.
  intros Hi Hacts Hops c bs' Hc _. rewrite Hacts, <- app_assoc in Hc.
  assert (npos i = 2) as Hn by (by destruct i).
  assert (in_sec s x /\ in_sec s (x + 1)) as [Hin Hin1] by (split; apply here; lia).
  assert (exists a k, bound tgt (B P nsec) m x a /\ m !! (x + 1) = Some k /\
    (k = 0 \/ k = kmax i /\ -128 <= a - (A + esz i - k) <= 127) /\ kf m A pl = k) as (a & k & Hb & Hk & Hkr & Hkf).
  { unfold fok in Hfok. cbn [pi px] in Hfok. unfold kf. cbn [pi px].
    destruct i; try done; destruct Hfok as (a & k & Hb & Hk & Hr); exists a, k; rewrite Hk; done. }
  pose proof Hcap as Hcap'. rewrite Hkf in Hcap' |- *. destruct (bound_read a Hb Hin) as (q & Hq & Hq0 & Ha & Ha0 & Hadr).
  assert (kmax i <= 4 /\ 5 <= esz i /\ zlen long_op = esz i - 4 /\ (kmax i = 4 -> zlen long_op = 2) /\
    (kmax i <> 4 -> zlen long_op = 1)) as (Hkm & He & Hlen & Hl4 & Hl3) by (unfold long_op; destruct i; try done; cbn; split_and!; lia || done).
  destruct (enc_rel_ok q a k) as (bs & Hrel & Henc & Hbs); try done; [by destruct i|destruct Hkr as [->|[-> _]]; [done|by destruct i]|].
  exists D, bs. split; [done|]. split; [done|]. split; [done|]. intros fuel.
  rewrite (Hops fuel _ Hc) by lia.
  rewrite (en_rel _ _ _ _ _ _ _ _ _ r q k (out ++ bs) (c :: bs')); try done.
  - rewrite Hn, Hacts, zlen_app. f_equal; lia.
  - rewrite (est3_al D E3). by apply code_at_app.
  - replace (x - DASM_SEC2POS s + 1) with (x + 1 - DASM_SEC2POS s) by lia. by apply est3_zb.
Qed.

Lemma enc_instr : encs.
Proof.
  pose proof (est3_al D E3) as Hal. assert (exists j, i = j) as [j E] by eauto.
  destruct j as [b|b|n|n|n|n|n f|mk|idx ty|sl|r|cc r|r|r|n|w op rm n|rm n];
    try (apply encs_bytes; by rewrite E); try (apply encs_imm; by rewrite E).
  - by apply encs_space with n f.
  - by apply encs_align with mk.
  - by apply encs_label with sl.
  - apply (encs_branch r [DASM_ESC; 0xe9]); [by rewrite E|by rewrite E|].
    intros fuel bs Hc Hcp. unfold long_op in *. rewrite E in *. cbn [nact Nat.add]. rewrite <- Hal in Hc. cbn [app] in Hc.
    rewrite (en_esc _ _ _ _ _ _ _ _ _ 0xe9 (code_at_act _ _ _ _ Hc) (code_at_act _ _ _ _ (code_at_cons _ _ _ _ Hc)));
      [done|done|zlen_simpl; lia].
  - assert (0 <= cc < 16) as Hcc. { pose proof Hwf as H. rewrite E in H. apply H. }
    apply (encs_branch r [0x0f; 0x80 + cc]); [by rewrite E|by rewrite E|].
    intros fuel bs Hc Hcp. unfold long_op in *. rewrite E in *. cbn [nact Nat.add]. rewrite <- Hal in Hc. cbn [app] in Hc.
    rewrite (en_lit _ _ _ _ _ _ _ _ _ 0x0f (code_at_act _ _ _ _ Hc)); [|done|zlen_simpl; lia].
    rewrite (en_lit _ _ _ _ _ _ _ _ _ (0x80 + cc) (code_at_act _ _ _ _ (code_at_cons _ _ _ _ Hc)));
      [|unfold DASM_DISP; lia|zlen_simpl; lia].
    rewrite <- app_assoc. zlen_simpl. f_equal; lia.
  - apply (encs_branch r [0xe8]); [by rewrite E|by rewrite E|].
    intros fuel bs Hc Hcp. unfold long_op in *. rewrite E in *. cbn [nact Nat.add]. rewrite <- Hal in Hc. cbn [app] in Hc.
    rewrite (en_lit _ _ _ _ _ _ _ _ _ 0xe8 (code_at_act _ _ _ _ Hc)); [|done|zlen_simpl; lia].
    zlen_simpl. f_equal; lia.
  - by apply encs_abs with r.
  - by apply encs_rela with n.
  - by apply encs_alu with w op rm n.
  - by apply encs_mem with rm n.
Qed.
End instr.

Lemma kf_le A p : fok tgt (B P nsec) m A p -> wf_size p -> kf m A p <= esz (pi p).
Proof.
  unfold fok, wf_size, kf. destruct (pi p); cbn; try done; try lia; try (repeat case_match; lia).
  1:{ intros _ (k & Hk & ->). rewrite align_land by lia.
      pose proof (Z.mod_pos_bound (A + (2 ^ k - 1)) (2 ^ k) (Z.pow_pos_nonneg 2 k ltac:(lia) ltac:(lia))). lia. }
  all: intros (a & k & _ & -> & [->|[-> _]]) _; cbn; lia.
Qed.

Lemma endA_ge l : forall A, fin tgt (B P nsec) m A l -> Forall wf_size l -> A <= endA m A l.
Proof.
  induction l as [|p l IH]; intros A; cbn; [lia|]. intros [Hf Hl] [Hw Hwl]%Forall_cons.
  pose proof (kf_le A p Hf Hw). specialize (IH _ Hl Hwl). lia.
Qed.

Lemma endA_app l1 l2 : forall A, endA m A (l1 ++ l2) = endA m (endA m A l1) l2.
Proof. induction l1 as [|p l1 IH]; intros A; cbn; [done|apply IH]. Qed.

Lemma fin_app l1 l2 : forall A, fin tgt (B P nsec) m A (l1 ++ l2) <-> fin tgt (B P nsec) m A l1 /\ fin tgt (B P nsec) m (endA m A l1) l2.
Proof. induction l1 as [|p l1 IH]; intros A; cbn; [tauto|]. rewrite IH. tauto. Qed.

Abbreviation assembled1 := (assembled ef base addr tgt).

Lemma assembled_app l1 l2 : forall A b1 b2, assembled1 A l1 b1 -> assembled1 (A + zlen b1) l2 b2 ->
  assembled1 A (l1 ++ l2) (b1 ++ b2).
Proof.
  induction l1 as [|p l1 IH]; intros A b1 b2; cbn [assembled app].
  - intros ->. by rewrite zlen_nil, Z.add_0_r.
  - intros (bs & out' & -> & He & Ha) H2. exists bs, (out' ++ b2). rewrite <- app_assoc. split; [done|].
    split; [done|]. apply IH; [done|]. rewrite zlen_app in H2. by rewrite <- Z.add_assoc.
Qed.

(** No instruction starts with one of these actions. *)
Lemma acts_head c o : Forall (wf_instr nlg npc (zlen gl)) c ->
  exists h t, concat (acts <$> c) ++ end_acts o = h :: t /\ head_ok h.
Proof.
  intros [|i c' Hi _]; cbn [fmap list_fmap concat app].
  - destruct o; by do 2 eexists.
  - destruct i as [b| | | | | | | | |[]|[]|? []|[]|[]| |w op rm n|rm n]; cbn [acts ref_acts app];
      do 2 eexists; (split; [reflexivity|]); try done; cbn in Hi;
      unfold head_ok, DASM_DISP, DASM_SETLABEL, DASM_IMM_DB, DASM_IMM_WB in *; lia.
Qed.

Lemma wf_instr_size c x G : Forall (wf_instr nlg npc (zlen gl)) c -> Forall wf_size (places x G c).
Proof.
  intros H. apply Forall_forall. intros p Hp%places_instr. rewrite Forall_forall in H.
  by eapply wf_instr_wf_size, H.
Qed.

Lemma enc_code o c : forall D s p x G out,
  est3 D -> 0 <= s < nsec -> DASM_SEC2POS s <= x -> x + code_npos c <= DASM_SEC2POS s + 16777216 ->
  fin tgt (B P nsec) m (zlen out) (places x G c) -> Forall (wf_instr nlg npc (zlen gl)) c ->
  endA m (zlen out) (places x G c) <= cap -> code_at al p (concat (acts <$> c) ++ end_acts o) ->
  exists D' bs, est3 D' /\ assembled1 (zlen out) (places x G c) bs /\
    zlen (out ++ bs) = endA m (zlen out) (places x G c) /\
    forall fuel, enc_acts ef base cap (code_nact c + fuel) D s p (x - DASM_SEC2POS s) out None =
      enc_acts ef base cap fuel D' s (p + zlen (concat (acts <$> c))) (x + code_npos c - DASM_SEC2POS s) (out ++ bs) None.
Proof.
  induction c as [|i c IH]; intros D s p x G out E3 Hs Hx Hxn Hf Hw Hcap Hc.
  - exists D, []. cbn. rewrite app_nil_r, Z.add_0_r. do 3 (split; [done|]). intros fuel. zlen_simpl. by rewrite Z.add_0_r.
  - cbn [places fin endA] in *. destruct Hf as [Hf0 Hf]. apply Forall_cons in Hw as [Hwi Hw]. cbn [pi] in *.
    cbn [fmap list_fmap concat] in *. rewrite <- app_assoc in Hc.
    change (code_npos (i :: c)) with (npos i + code_npos c) in *.
    pose proof (npos_nonneg i). pose proof (code_npos_nonneg c).
    pose proof (endA_ge _ _ Hf (wf_instr_size c _ _ Hw)) as Hge.
    destruct (acts_head c o Hw) as (h & t & Hht & Hne).
    assert (Hc1 := Hc). rewrite Hht in Hc1.
    destruct (enc_instr D s p x G out i E3 Hs Hx ltac:(lia) Hf0 Hwi ltac:(lia) _ _ Hc1 Hne) as (D1 & b1 & E1 & He & Hl & Hrun).
    assert (zlen out + esz i - kf m (zlen out) (Place x G i) = zlen (out ++ b1)) as HA by (rewrite zlen_app; lia).
    rewrite HA in *.
    destruct (IH D1 s (p + zlen (acts i)) (x + npos i) (G + esz i) (out ++ b1)) as (D' & b2 & E2 & Ha & Hl2 & Hrun2);
      try done; [lia|lia|by apply code_at_app|].
    exists D', (b1 ++ b2). split; [done|]. split; [|split].
    + cbn [assembled]. exists b1, b2. split; [done|]. split; [done|]. by rewrite <- zlen_app.
    + rewrite app_assoc. done.
    + intros fuel. change (code_nact (i :: c)) with (nact i + code_nact c)%nat.
      rewrite <- Nat.add_assoc, Hrun, Hrun2, zlen_app, <- app_assoc. f_equal; lia.
Qed.

Lemma enc_calls cs : forall D s x G out fuel,
  est3 D -> 0 <= s < nsec -> DASM_SEC2POS s <= x -> x + puts_npos cs = cur P s ->
  starts m x cs -> fin tgt (B P nsec) m (zlen out) (sec_places x G cs) ->
  Forall (wf_put al nsec nlg npc gl) cs -> endA m (zlen out) (sec_places x G cs) <= cap ->
  Forall wf_size (sec_places x G cs) -> (length cs < fuel)%nat ->
  exists D' bs, est3 D' /\ assembled1 (zlen out) (sec_places x G cs) bs /\
    zlen (out ++ bs) = endA m (zlen out) (sec_places x G cs) /\
    enc_section ef base cap fuel D s (x - DASM_SEC2POS s) (cur P s - DASM_SEC2POS s) out = Done (D', out ++ bs).
Proof.
  induction cs as [|c cs IH]; intros D s x G out [|fuel] E3 Hs Hx Hxn Hst Hf Hw Hcap Hws Hfuel; try (cbn in Hfuel; lia).
  - exists D, []. cbn in *. rewrite app_nil_r, Z.add_0_r in *. subst x. do 3 (split; [done|]). by rewrite Z.eqb_refl.
  - cbn [sec_places starts] in *. destruct Hst as [Hst1 Hst]. apply fin_app in Hf as [Hf1 Hf2].
    apply Forall_app in Hws as [Hws1 Hws2]. rewrite endA_app in *.
    apply Forall_cons in Hw as [(Hcode & Hwfi & _ & _) Hw].
    change (puts_npos (c :: cs)) with (1 + code_npos (p_code c) + puts_npos cs) in *.
    pose proof (code_npos_nonneg (p_code c)). pose proof (puts_npos_nonneg cs).
    specialize (Hlim s) as Hl. pose proof (endA_ge _ _ Hf2 Hws2) as Hge.
    cbn [enc_section]. replace (x - DASM_SEC2POS s =? cur P s - DASM_SEC2POS s) with false by lia.
    rewrite (est3_zb D s x (p_start c) E3 Hs) by (try done; unfold in_sec; lia). cbn [mbind outcome_bind].
    destruct (enc_code (p_end c) (p_code c) D s (p_start c) (x + 1) G out) as (D1 & b1 & E1 & Ha1 & Hl1 & Hrun); try done; [lia..|].
    assert (exists k, S (length (actionlist D)) = (code_nact (p_code c) + S k)%nat) as [k ->].
    { exists (length (actionlist D) - code_nact (p_code c))%nat. rewrite (est3_al D E3).
      pose proof (code_nact_le (p_code c)). destruct (code_at_nonneg _ _ _ Hcode) as [? Hlen].
      unfold put_acts in Hlen. rewrite zlen_app in Hlen. unfold zlen in *. lia. }
    replace (x - DASM_SEC2POS s + 1) with (x + 1 - DASM_SEC2POS s) by lia.
    rewrite Hrun, (en_end _ _ _ _ _ _ _ _ _ (p_end c)).
    2:{ rewrite (est3_al D1 E1). apply code_at_app, Hcode. }
    cbn [mbind outcome_bind]. rewrite <- Hl1 in *.
    destruct (IH D1 s (x + 1 + code_npos (p_code c)) (G + code_esz (p_code c)) (out ++ b1) fuel)
      as (D' & b2 & E2 & Ha2 & Hl2 & Hrun2); try done; [lia|lia|cbn in Hfuel; lia|].
    exists D', (b1 ++ b2). split; [done|]. split; [|split].
    + apply assembled_app; [done|]. by rewrite <- zlen_app.
    + by rewrite app_assoc.
    + rewrite Hrun2. by rewrite <- app_assoc.
Qed.

Lemma enc_all k : forall D s out,
  est3 D -> 0 <= s -> s + Z.of_nat k = nsec -> (forall t, 0 <= t < nsec -> starts m (DASM_SEC2POS t) (placed P t)) ->
  let l := layout P k s (B P s) in
  fin tgt (B P nsec) m (zlen out) l -> endA m (zlen out) l <= cap -> Forall wf_size l ->
  exists D' bs, est3 D' /\ assembled1 (zlen out) l bs /\
    zlen (out ++ bs) = endA m (zlen out) l /\
    enc_sections ef base cap k D s out = Done (D', out ++ bs).
Proof.
  induction k as [|k IH]; intros D s out E3 Hs Hk Hst; cbn zeta; cbn [layout enc_sections].
  - intros _ _ _. exists D, []. cbn. rewrite app_nil_r. done.
  - intros [Hf1 Hf2]%fin_app Hcap [Hw1 Hw2]%Forall_app. rewrite endA_app in *.
    rewrite <- (B_succ P s Hs) in *. pose proof (endA_ge _ _ Hf2 Hw2) as Hge.
    destruct E3 as ([x0 L] & Hg & Hc). destruct (l_meta _ _ _ _ _ _ L s ltac:(lia)) as (b & e & Hm & _).
    destruct (smeta_Some _ _ _ Hm) as (y & Hy & Ht). unfold get_sec. rewrite Hy. cbn [acc mbind outcome_bind].
    replace (pos y - rbias y) with (cur P s - DASM_SEC2POS s) by (unfold sec_meta in Ht; congruence).
    destruct (enc_calls (placed P s) D s (DASM_SEC2POS s) (B P s) out (S (size (buf y)))) as (D1 & b1 & E1 & Ha1 & Hl1 & Hrun).
    { split; [by eexists|by split]. }
    { lia. }
    { lia. }
    { symmetry. apply (pl_cur _ _ _ _ _ _ PL). }
    { apply Hst. lia. }
    { done. }
    { apply (pl_wf _ _ _ _ _ _ PL). }
    { lia. }
    { done. }
    { eapply calls_fuel; [done|done|done|lia|done]. }
    rewrite Z.sub_diag in Hrun. rewrite Hrun. cbn [mbind outcome_bind]. rewrite <- Hl1 in *.
    destruct (IH D1 (s + 1) (out ++ b1)) as (D' & b2 & E2 & Ha2 & Hl2 & Hrun2); try done; [lia|lia|].
    exists D', (b1 ++ b2). split; [done|]. split; [|split].
    + apply assembled_app; [done|]. by rewrite <- zlen_app.
    + by rewrite app_assoc.
    + rewrite Hrun2. by rewrite <- app_assoc.
Qed.
End encode.

(** ** The three passes *)

(** A state ready for code: sections, globals, PC labels, action list. *)
Definition fresh_state (junk : Z -> Z) (nsec : Z) (gl : list Z) (maxpc : Z) (al : list Z) : outcome dasm_State :=
  D ← dasm_setupglobal junk (dasm_init nsec) gl;
  D ← dasm_growpc D maxpc;
  Done (dasm_setup D al).

Lemma grow_ok need : 0 <= need < 2 ^ 60 -> exists r, DASM_M_GROW 0 need = Done r /\ need <= r /\ 0 <= r.
Proof.
  intros H. unfold DASM_M_GROW. destruct (Z.ltb_spec 0 need).
  - change (if 0 <? 16 then 16 else 0) with 16. destruct (grow_loop_spec 63 16 need) as (r & E & Hr & _); [lia|lia| |].
    { change (2 ^ Z.of_nat 63) with 9223372036854775808. change (2 ^ 60) with 1152921504606846976 in H. lia. }
    exists r. split; [done|lia].
  - exists 0. split; [done|lia].
Qed.

Lemma zlen_seqZ a n : 0 <= n -> zlen (seqZ a n) = n.
Proof. intros H. unfold zlen. rewrite length_seqZ. lia. Qed.

Lemma zget_replicate {A} (x : A) n i : 0 <= i < Z.of_nat n -> zget (replicate n x) i = Some x.
Proof.
  intros H. unfold zget. replace (i <? 0) with false by lia. apply lookup_replicate_2. lia.
Qed.

(** The sections after [dasm_setup]. *)
Lemma setup_sections nsec s : 0 <= s < nsec ->
  zget (imap (fun i x => Sec (buf x) (bsize x) (rbias x) (DASM_SEC2POS (Z.of_nat i)) (epos x) 0)
    ((fun i => Sec ∅ 0 (DASM_SEC2POS i) 0 0 0) <$> seqZ 0 nsec)) s =
  Some (Sec ∅ 0 (DASM_SEC2POS s) (DASM_SEC2POS s) 0 0).
Proof.
  intros H. unfold zget. replace (s <? 0) with false by lia.
  rewrite list_lookup_imap, list_lookup_fmap, lookup_seqZ_lt by lia. cbn [fmap option_fmap option_map].
  rewrite Z2Nat.id by lia. done.
Qed.

Lemma fresh_rel junk nsec gl maxpc al : 1 <= nsec <= 126 -> zlen gl < 2 ^ 32 -> 0 <= maxpc < 2 ^ 32 ->
  exists D nlg npc, fresh_state junk nsec gl maxpc al = Done D /\ rel al nsec nlg npc gl D pst0 /\
    10 + zlen gl <= nlg /\ maxpc <= npc.
Proof.
  intros Hn Hg Hp. change (2 ^ 32) with 4294967296 in *. pose proof (zlen_nonneg gl).
  unfold fresh_state, dasm_setupglobal. change (4 * zlen (lglabels (dasm_init nsec))) with 0.
  destruct (grow_ok (4 * (10 + zlen gl))) as (r & -> & Hr & Hr0); [change (2 ^ 60) with 1152921504606846976; lia|].
  cbn [mbind outcome_bind]. unfold dasm_growpc. cbn [with_lglabels with_globals dasm_init pclabels].
  change (4 * zlen []) with 0.
  destruct (grow_ok (4 * maxpc)) as (r' & -> & Hr' & Hr0'); [change (2 ^ 60) with 1152921504606846976; lia|].
  cbn [mbind outcome_bind]. eexists _, (r / 4), (r' / 4). split; [done|].
  change (zlen []) with 0. rewrite !Z.sub_0_r. cbn [app lglabels dasm_init].
  split; [|zlia].
  assert (Hlg : forall i, 0 <= i < r / 4 -> zget (replicate (length (junk <$> seqZ 0 (r / 4))) 0) i = Some 0).
  { intros i Hi. apply zget_replicate. rewrite length_fmap, length_seqZ. lia. }
  set (D0 := dasm_setup _ al).
  assert (Hsm : forall s, 0 <= s < nsec -> smeta D0 s = Some (0, DASM_SEC2POS s, DASM_SEC2POS s, 0, 0)).
  { intros s Hs. unfold smeta, D0. cbn [dasm_setup sections with_pclabels with_lglabels with_globals dasm_init].
    by rewrite setup_sections. }
  assert (HL : zlen (lglabels D0) = r / 4 /\ zlen (pclabels D0) = r' / 4).
  { unfold D0. cbn [dasm_setup lglabels pclabels with_pclabels with_lglabels with_globals dasm_init].
    rewrite !zlen_replicate, length_fmap, length_seqZ, length_replicate. zlia. }
  destruct HL as [HL1 HL2].
  assert (HN : zlen (sections D0) = nsec).
  { unfold D0, zlen. cbn [dasm_setup sections with_pclabels with_lglabels with_globals dasm_init].
    rewrite length_imap, length_fmap, length_seqZ. lia. }
  constructor; try done; cbn [pst0 gh cur est asec]; try (by unfold D0); try lia.
  - constructor; cbn [kn lb pend].
    + by intros x v.
    + intros pl Hck. exists 0. split; [|done]. unfold ckpl in Hck. destruct pl as [k|k]; cbn [labels slot_idx] in *.
      * apply Hlg. lia.
      * unfold D0. cbn [dasm_setup pclabels with_pclabels with_lglabels with_globals dasm_init].
        apply zget_replicate. rewrite length_replicate. lia.
    + intros pl. constructor.
    + by intros pl pl' x ?%not_elem_of_nil.
    + by intros pl x ?%not_elem_of_nil.
    + by intros pl x ?%not_elem_of_nil.
    + intros x [[v Hv]|[pl Hv]]; [done|by apply not_elem_of_nil in Hv].
    + intros s b rr p e o Hm. assert (0 <= s < nsec) as Hs.
      { rewrite <- HN. unfold smeta in Hm. apply fmap_Some in Hm as (y & Hy & _). by eapply zget_Some_range. }
      rewrite Hsm in Hm by done. congruence.
  - intros s Hs. exists 0, 0. cbn [pst0 cur est]. rewrite Hsm by done. split; [done|].
    split; [lia|]. split; [rewrite Z.sub_diag; done|by left].
  - constructor; cbn; try done. intros s. by rewrite Z.add_0_r.
Qed.

Lemma wf_put_mono al nsec nlg npc nlg' npc' gl c : nlg <= nlg' -> npc <= npc' ->
  wf_put al nsec nlg npc gl c -> wf_put al nsec nlg' npc' gl c.
Proof.
  intros H1 H2 (Hc & Hw & Hr). split; [done|]. split; [|done]. eapply Forall_impl; [done|].
  assert (Hs : forall pl, wf_slot nlg npc (zlen gl) pl -> wf_slot nlg' npc' (zlen gl) pl)
    by (intros [k|k]; cbn; lia).
  assert (Hrf : forall r, wf_ref nlg npc (zlen gl) r -> wf_ref nlg' npc' (zlen gl) r)
    by (intros r []; split; auto).
  intros []; cbn; auto. intros []. auto.
Qed.

(** C10: a program of [dasm_put] calls over the instructions of
    [DasmSpec.instr] (literal and escaped bytes, the immediates IMM_S, IMM_B,
    IMM_W and IMM_D, SPACE, ALIGN, EXTERN, labels, jumps, conditional jumps,
    calls and absolute references to labels, REL_A, an IMM_DB or IMM_WB behind
    its opcode and operand byte, a DISP behind an operand byte without index
    byte), with operands in range, at most 25 positions per call, references
    that all find their labels, sections within their 24 bits of positions and
    less than [2 ^ 30] bytes of estimated code, goes through the three passes
    without an error, an access out of bounds or an overflow of an [int]
    offset: the code fills exactly the size [dasm_link] reports, every
    instruction is encoded at its address, every label has the address it lies
    at, and every branch, long or shrunk to its short form, reaches the label
    its reference is bound to.  Programs with VREG, MARK, SETLABEL, an IMM_DB
    or IMM_WB behind a DISP, or a DISP behind an index byte are not covered:
    [vreg_overruns] shows that the claim fails for VREG. *)
Theorem dasm_assembles (junk : Z -> Z) (nsec : Z) (gl : list Z) (maxpc : Z) (al : list Z)
    (cs : list put) (P : pst) (ef : Z -> Z -> Z -> Z) (base : Z)
    (Hnsec : 1 <= nsec <= 126) (Hgl : zlen gl < 2 ^ 31) (Hpc : 0 <= maxpc < 2 ^ 31)
    (Hwf : Forall (wf_put al nsec (10 + zlen gl) maxpc gl) cs)
    (Hbind : gprog pst0 cs = Some P) (Hdefined : forall pl, pend (gh P) pl = [])
    (Hlim : forall s, cur P s <= DASM_SEC2POS s + 16777216)
    (Hsize : B P nsec < 2 ^ 30) :
  exists D0 D1 D2 D3 sz out addr,
    fresh_state junk nsec gl maxpc al = Done D0 /\
    put_all D0 cs = Done D1 /\
    dasm_link D1 = Done (DASM_S_OK, sz, D2) /\
    dasm_encode ef base sz D2 = Done (DASM_S_OK, out, D3) /\
    zlen out = sz /\
    assembled ef base addr (tgt_of P) 0 (layout P (Z.to_nat nsec) 0 0) out.
Proof.
  change (2 ^ 31) with 2147483648 in *. change (2 ^ 30) with 1073741824 in *.
  destruct (fresh_rel junk nsec gl maxpc al Hnsec) as (D0 & nlg & npc & E0 & R0 & Hnlg & Hnpc); [lia..|].
  assert (Forall (wf_put al nsec nlg npc gl) cs) as Hwf'.
  { eapply Forall_impl; [done|]. intros c. by apply wf_put_mono. }
  destruct (put_all_spec al nsec nlg npc gl ltac:(lia) cs D0 pst0 P R0 Hwf' Hbind Hlim) as (D1 & E1 & R1).
  { intros s Hs. assert (est P s <= B P nsec) as Hle; [|lia]. apply est_le; [|done].
    intros t. exact (gprog_est_mono al nsec nlg npc gl cs pst0 P t Hwf' Hbind). }
  pose proof (r_pl _ _ _ _ _ _ _ R1) as PL.
  destruct (dasm_link_spec al nsec nlg npc gl D1 P R1 ltac:(lia) Hdefined Hlim Hsize)
    as (D2 & m & sz & x & E2 & Hcs & Hg & Hszle & L & Hfin & Hend & Hst).
  assert (Forall wf_size (layout P (Z.to_nat nsec) 0 0)) as Hws.
  { by apply (lay_size al nsec nlg npc gl P PL). }
  destruct (enc_all ef base sz al nsec nlg npc gl P PL Hlim Hsize Hszle m sz (Z.to_nat nsec) D2 0 []) as (D3 & out & E3 & Ha & Hl & Erun).
  { split; [by exists x|]. rewrite Hg. done. }
  { lia. }
  { lia. }
  { done. }
  { done. }
  { change (B P 0) with 0. change (zlen []) with 0. rewrite Hend. done. }
  { done. }
  change (B P 0) with 0 in *. change (zlen []) with 0 in *. cbn [app] in *. rewrite Hend in Hl.
  exists D0, D1, D2, D3, sz, out, (addr m). split; [done|]. split; [done|]. split; [done|].
  split; [|split; [done|done]]. unfold dasm_encode.
  replace (length (sections D2)) with (Z.to_nat nsec) by (rewrite <- (l_n _ _ _ _ _ _ L); unfold zlen; lia).
  rewrite Erun. cbn [mbind outcome_bind]. rewrite (proj2 (proj2 E3)), Hl, Z.eqb_refl. done.
Qed.

(** A memory operand, arithmetic with a short and a long immediate, a forward
    conditional branch over an aligned block, a loop back to a local
    label, and a call to a PC label, in two sections. *)
Definition sample_acts : list Z :=
  put_acts (Put 0 [Label (LG 1); Lit 0x8b; Mem 0x83 8; Alu true 0x81 0xc0 1000; Alu false 0x81 0xc1 5; Jcc 4 (Fwd 2); Align 3; Label (LG 2); Jmp (Bwd 1)] (Some 1)) ++
  put_acts (Put 25 [Label (PC 0); Space 2 0xcc] (Some 0)) ++
  put_acts (Put 30 [Call (Pc 0); Lit 0xe8; RelA 7] None).

Definition sample : list put :=
  [Put 0 [Label (LG 1); Lit 0x8b; Mem 0x83 8; Alu true 0x81 0xc0 1000; Alu false 0x81 0xc1 5; Jcc 4 (Fwd 2); Align 3; Label (LG 2); Jmp (Bwd 1)] (Some 1);
   Put 25 [Label (PC 0); Space 2 0xcc] (Some 0);
   Put 30 [Call (Pc 0); Lit 0xe8; RelA 7] None].

Definition sample_P : pst := default pst0 (gprog pst0 sample).

Lemma sample_bind : gprog pst0 sample = Some sample_P.
Proof.
  assert (is_Some (gprog pst0 sample)) as [P' E] by (eexists; vm_compute; reflexivity).
  unfold sample_P. by rewrite E.
Qed.

Lemma sample_lb : lb (gh sample_P) =
  upd (upd (upd (upd (fun _ => Pend []) (LG 1) (Def 1)) (LG 2) (Pend [5])) (LG 2) (Def 8)) (PC 0) (Def 16777217).
Proof. reflexivity. Qed.

Lemma sample_pend pl : pend (gh sample_P) pl = [].
Proof. unfold pend. rewrite sample_lb. unfold upd. repeat case_decide; done. Qed.

Lemma sample_cur : cur sample_P = upd (upd (upd DASM_SEC2POS 0 11) 1 16777219) 0 15.
Proof. reflexivity. Qed.

(** Operands in range, by computation but for the alignment. *)
Ltac operands :=
  repeat (apply Forall_cons; split); try (by apply Forall_nil); cbn; unfold wf_ref, in_u8, in_i32, DASM_DISP; cbn;
  change (zlen []) with 0; try lia; try (exists 2; split; [lia|done]);
  try (split_and!; lia || done).

Lemma sample_wf : Forall (wf_put sample_acts 2 10 1 []) sample.
Proof.
  apply Forall_cons. split.
  { split; [exists [], (drop 25 sample_acts); split; reflexivity|]. split; [operands|split; [done|cbn; lia]]. }
  apply Forall_cons. split.
  { split; [exists (take 25 sample_acts), (drop 30 sample_acts); split; reflexivity|].
    split; [operands|split; [done|cbn; lia]]. }
  apply Forall_cons. split; [|by apply Forall_nil].
  split; [exists (take 30 sample_acts), []; split; reflexivity|]. split; [operands|split; [done|done]].
Qed.

Lemma dasm_assembles_witness :
  exists D0 D1 D2 D3 sz out addr,
    fresh_state (fun _ => 9) 2 [] 1 sample_acts = Done D0 /\
    put_all D0 sample = Done D1 /\
    dasm_link D1 = Done (DASM_S_OK, sz, D2) /\
    dasm_encode (fun _ _ _ => 0) 0 sz D2 = Done (DASM_S_OK, out, D3) /\
    zlen out = sz /\
    assembled (fun _ _ _ => 0) 0 addr (tgt_of sample_P) 0 (layout sample_P (Z.to_nat 2) 0 0) out.
Proof.
  apply (dasm_assembles (fun _ => 9) 2 [] 1 sample_acts sample sample_P (fun _ _ _ => 0) 0).
  - lia.
  - by vm_compute.
  - by vm_compute.
  - apply sample_wf.
  - apply sample_bind.
  - apply sample_pend.
  - intros s. rewrite sample_cur. unfold upd. repeat case_decide; subst; rewrite ?sec2pos; lia.
  - by vm_compute.
Defined.

(** The actions of [push Rq(n)] with a register known only at run time: a REX
    prefix that is dropped again for the first eight registers. *)
Definition push_acts : list Z := [0x40; 0x50; DASM_VREG; 0x2a; DASM_STOP].

(** One call, then the three passes with a code buffer [slack] bytes larger
    than the reported size: size, status and code. *)
Definition assemble1 (junk : Z -> Z) (ef : Z -> Z -> Z -> Z) (base slack : Z) (al args : list Z)
    : outcome (Z * Z * list Z) :=
  D ← fresh_state junk 1 [] 0 al;
  D ← dasm_put D 0 args;
  r ← dasm_link D;
  let '(_, sz, D) := r in
  r ← dasm_encode ef base (sz + slack) D;
  let '(st, out, _) := r in
  Done (sz, st, out).

(** when the last instruction is [push Rq(n)] with one of the first eight
    registers, a code buffer of the size [dasm_link] reports is one byte too
    small for [dasm_encode]: the opcode is written behind it before the REX
    prefix is dropped. *)
Theorem vreg_overruns (junk : Z -> Z) (ef : Z -> Z -> Z -> Z) (base n : Z) (Hn : 0 <= n <= 7) :
  assemble1 junk ef base 0 push_acts [n] = Fault /\
  assemble1 junk ef base 1 push_acts [n] = Done (1, DASM_S_OK, [0x50 + n]).
Proof.
  assert (n ∈ [0; 1; 2; 3; 4; 5; 6; 7]) as Hin.
  { change [0; 1; 2; 3; 4; 5; 6; 7] with (seqZ 0 8). apply elem_of_seqZ. lia. }
  repeat (apply elem_of_cons in Hin as [->|Hin]); [..|by apply not_elem_of_nil in Hin];
    vm_compute; split; reflexivity.
Qed.

Lemma vreg_overruns_witness :
  assemble1 (fun _ => 0) (fun _ _ _ => 0) 4096 0 push_acts [3] = Fault /\
  assemble1 (fun _ => 0) (fun _ _ _ => 0) 4096 1 push_acts [3] = Done (1, DASM_S_OK, [0x53]).
Proof. apply (vreg_overruns (fun _ => 0) (fun _ _ _ => 0) 4096 3). lia. Defined.
End DasmEncode.
