(* ===== verification/LibTable.v ===== *)
(** * LibTable

    [table.sort] ([lib_table.c]): the quicksort of the Lua libraries with a
    median of three as its pivot, a call for the smaller half and a loop for
    the larger one.  The table is the list of its values from index 1 on; an
    access outside it is a fault.  The comparison is whatever the program
    passes, and may raise an error. *)
From stdpp Require Import base tactics numbers list.
From Stdlib Require Import ZArith Lia.
From S2P Require Import Prelude.
Open Scope Z_scope.

Module Sort.

(** "invalid order function for sorting", or an error of the comparison. *)
Inductive SortErr := TABSORT | COMPARE.
Inductive tres (A : Type) := TOk (a : A) | TErr (e : SortErr) | TFault | TFuel.
Arguments TOk {A} a.
Arguments TErr {A} e.
Arguments TFault {A}.
Arguments TFuel {A}.

#[export] Instance tres_ret : MRet tres := fun A a => TOk a.
#[export] Instance tres_bind : MBind tres := fun A B f o =>
  match o with TOk a => f a | TErr e => TErr e | TFault => TFault | TFuel => TFuel end.
Definition tchk {A} (o : option A) : tres A := match o with Some a => TOk a | None => TFault end.

Section sort.

(** The values of the table; [lt a b] is whether [a] is less than [b], [None]
    if the comparison raises an error. *)
Context {V : Type} (lt : V -> V -> option bool).

Definition lua_rawgeti (t : list V) (i : Z) : tres V := tchk (zget t (i - 1)).
Definition lua_rawseti (t : list V) (i : Z) (v : V) : tres (list V) := tchk (zset t (i - 1) v).

(** The two values on the top of the stack, [y] above [x]. *)
Definition set2 (t : list V) (i j : Z) (x y : V) : tres (list V) :=
  t ← lua_rawseti t i y; lua_rawseti t j x.

(** The comparison depends on its two values only; it may raise an error. *)
Definition sort_comp (a b : V) : tres bool := match lt a b with Some r => TOk r | None => TErr COMPARE end.

(** [while (lua_rawgeti(L, 1, ++i), sort_comp(L, -1, -2))] *)
Fixpoint scan_up (fuel : nat) (t : list V) (P : V) (u i : Z) : tres (Z * V) :=
  match fuel with
  | O => TFuel
  | S fuel' =>
      let i := i + 1 in
      x ← lua_rawgeti t i;
      b ← sort_comp x P;
      if b : bool then if u <=? i then TErr TABSORT else scan_up fuel' t P u i else TOk (i, x)
  end.

(** [while (lua_rawgeti(L, 1, --j), sort_comp(L, -3, -1))] *)
Fixpoint scan_down (fuel : nat) (t : list V) (P : V) (l j : Z) : tres (Z * V) :=
  match fuel with
  | O => TFuel
  | S fuel' =>
      let j := j - 1 in
      y ← lua_rawgeti t j;
      b ← sort_comp P y;
      if b : bool then if j <=? l then TErr TABSORT else scan_down fuel' t P l j else TOk (j, y)
  end.

(** A loop over the table takes an index a round. *)
Definition rounds (t : list V) : nat := S (length t).

(** [for (;;)]: the table and the place of the pivot. *)
Fixpoint partition (fuel : nat) (t : list V) (P : V) (l u i j : Z) : tres (list V * Z) :=
  match fuel with
  | O => TFuel
  | S fuel' =>
      r ← scan_up (rounds t) t P u i;
      let '(i, x) := r in
      r ← scan_down (rounds t) t P l j;
      let '(j, y) := r in
      if j <? i then TOk (t, i) else t ← set2 t i j x y; partition fuel' t P l u i j
  end.

(** [a[u] < a[l]?] *)
Definition sort_ends (t : list V) (l u : Z) : tres (list V) :=
  x ← lua_rawgeti t l;
  y ← lua_rawgeti t u;
  b ← sort_comp y x;
  if b : bool then set2 t l u x y else TOk t.

(** [a[i] < a[l]?], [a[u] < a[i]?] *)
Definition sort_middle (t : list V) (l i u : Z) : tres (list V) :=
  x ← lua_rawgeti t i;
  y ← lua_rawgeti t l;
  b ← sort_comp x y;
  if b : bool then set2 t i l x y
  else
    y ← lua_rawgeti t u;
    b ← sort_comp y x;
    if b : bool then set2 t i u x y else TOk t.

(** A round of [while (l < u)] up to the split: the table and the place of the
    pivot, or none if it is sorted. *)
Definition sort_split (t : list V) (l u : Z) : tres (list V * option Z) :=
  t ← sort_ends t l u;
  if u - l =? 1 then TOk (t, None)
  else
    let i := Z.quot (i32 (l + u)) 2 in
    t ← sort_middle t l i u;
    if u - l =? 2 then TOk (t, None)
    else
      P ← lua_rawgeti t i;
      x ← lua_rawgeti t (u - 1);
      t ← set2 t i (u - 1) P x;
      r ← partition (rounds t) t P l u l (u - 1);
      let '(t, i) := r in
      x ← lua_rawgeti t (u - 1);
      y ← lua_rawgeti t i;
      t ← set2 t (u - 1) i x y;
      TOk (t, Some i).

Section recursion.

(** The recursive call. *)
Variable rec : list V -> Z -> Z -> tres (list V).

Fixpoint sort_loop (fuel : nat) (t : list V) (l u : Z) : tres (list V) :=
  match fuel with
  | O => TFuel
  | S fuel' =>
      if l <? u then
        r ← sort_split t l u;
        let '(t, split) := r in
        match split with
        | None => TOk t
        | Some i =>
            let '(j, i, l, u) :=
              if i - l <? u - i then let j := l in let i := i - 1 in let l := i + 2 in (j, i, l, u)
              else let j := i + 1 in let i := u in let u := j - 2 in (j, i, l, u) in
            t ← rec t j i;
            sort_loop fuel' t l u
        end
      else TOk t
  end.
End recursion.

(** [depth] is how deep the calls may nest. *)
Fixpoint auxsort (depth : nat) (t : list V) (l u : Z) : tres (list V) :=
  match depth with
  | O => TFuel
  | S depth' => sort_loop (auxsort depth') (rounds t) t l u
  end.

(** Calls nest no deeper than the logarithm of the length, at most 31. *)
Definition table_sort (t : list V) : tres (list V) := auxsort 31 t 1 (zlen t).
End sort.
End Sort.
