(* ===== verification/LibTableSpec.v ===== *)
(** * LibTableSpec

    [table.sort] ([LibTable]) sorts: under a strict weak order it returns a
    sorted permutation of the table; under any comparison at all it stays
    inside the table, nests its calls no deeper than the logarithm of the
    length and ends, with a permutation of the table or with an error. *)
From stdpp Require Import base tactics numbers list.
From Stdlib Require Import ZArith Lia.
From S2P Require Import Prelude LibTable.
Open Scope Z_scope.

Module SortSpec.
Import Sort.

Section sort.
Context {V : Type} (lt : V -> V -> option bool).

(** [x] may stand before [y]. *)
Definition le (x y : V) : Prop := lt y x = Some false.

(** A comparison that raises no error and orders the values. *)
Record strict_weak : Prop := {
  sw_total : forall x y, exists b, lt x y = Some b;
  sw_asym : forall x y, lt x y = Some true -> le x y;
  sw_trans : forall x y z, le x y -> le y z -> le x z
}.

Lemma sw_refl x : strict_weak -> le x x.
Proof using.
  intros H. destruct (sw_total H x x) as [[] E]; [|done]. pose proof (sw_asym H x x E) as E'. exact E'.
Qed.

(** ** Ranges of the table *)

Definition get (t : list V) (k : Z) : option V := zget t (k - 1).

(** [t'] is [t] with the values from [l] to [u] in another order. *)
Record within (l u : Z) (t t' : list V) : Prop := {
  w_perm : t' ≡ₚ t;
  w_out : forall k, ~ l <= k <= u -> get t' k = get t k;
  w_in : forall k, l <= k <= u -> exists k', l <= k' <= u /\ get t' k = get t k'
}.

(** All values from [l] to [u] satisfy [Q]. *)
Definition all (l u : Z) (Q : V -> Prop) (t : list V) : Prop := forall k x, l <= k <= u -> get t k = Some x -> Q x.
Definition sorted (l u : Z) (t : list V) : Prop :=
  forall a b x y, l <= a -> a <= b -> b <= u -> get t a = Some x -> get t b = Some y -> le x y.

Lemma within_refl l u t : within l u t t.
Proof using. split; [done|done|eauto]. Qed.
Lemma within_trans l u t1 t2 t3 : within l u t1 t2 -> within l u t2 t3 -> within l u t1 t3.
Proof using.
  intros [P1 O1 I1] [P2 O2 I2]. split; [by etrans|intros k Hk; by rewrite O2, O1|].
  intros k Hk. destruct (I2 k Hk) as (k2 & H2 & E2). destruct (I1 k2 H2) as (k1 & H1 & E1). exists k1. split; [done|congruence].
Qed.
Lemma within_mono l u l' u' t t' : l' <= l -> u <= u' -> within l u t t' -> within l' u' t t'.
Proof using.
  intros Hl Hu [P O I]. split; [done|intros k Hk; apply O; lia|]. intros k Hk.
  destruct (decide (l <= k <= u)) as [Hin|Hout]; [destruct (I k Hin) as (k' & ? & ?)|]; [exists k'|exists k]; (split; [lia|auto]).
Qed.
Lemma within_len l u t t' : within l u t t' -> zlen t' = zlen t.
Proof using. intros [P _ _]. unfold zlen. by rewrite P. Qed.

Lemma all_within l u a b Q t t' : a <= l -> u <= b -> within l u t t' -> all a b Q t -> all a b Q t'.
Proof using.
  intros Ha Hb [_ O I] H k x Hk Hx. destruct (decide (l <= k <= u)) as [Hin|Hout].
  - destruct (I k Hin) as (k' & Hk' & E). apply (H k' x); [lia|congruence].
  - apply (H k x); [done|by rewrite <- O].
Qed.
Lemma all_apart l u a b Q t t' : b < l \/ u < a -> within l u t t' -> all a b Q t -> all a b Q t'.
Proof using. intros Hd [_ O _] H k x Hk Hx. apply (H k x Hk). rewrite <- O; [done|lia]. Qed.
Lemma sorted_apart l u a b t t' : b < l \/ u < a -> within l u t t' -> sorted a b t -> sorted a b t'.
Proof using. intros Hd [_ O _] H c d x y Ha Hc Hb Hx Hy. apply (H c d x y); auto; rewrite <- O; (done || lia). Qed.

Lemma sorted_join l i u P t : strict_weak -> get t i = Some P ->
  all l (i - 1) (fun x => le x P) t -> all (i + 1) u (fun x => le P x) t ->
  sorted l (i - 1) t -> sorted (i + 1) u t -> sorted l u t.
Proof using.
  intros Hsw Hi Hl Hu S1 S2 a b x y Ha Hab Hb Hx Hy.
  assert (Hle : forall k z, l <= k -> k <= i -> get t k = Some z -> le z P).
  { intros k z H1 H2 Hz. destruct (decide (k = i)) as [->|]; [|apply (Hl k z); [lia|done]].
    rewrite Hi in Hz. injection Hz as <-. by apply sw_refl. }
  assert (Hge : forall k z, i <= k -> k <= u -> get t k = Some z -> le P z).
  { intros k z H1 H2 Hz. destruct (decide (k = i)) as [->|]; [|apply (Hu k z); [lia|done]].
    rewrite Hi in Hz. injection Hz as <-. by apply sw_refl. }
  destruct (Z.lt_ge_cases b i); [apply (S1 a b); (lia || done)|].
  destruct (Z.lt_ge_cases i a); [apply (S2 a b); (lia || done)|].
  apply (sw_trans Hsw x P y); [apply (Hle a); (lia || done)|apply (Hge b); (lia || done)].
Qed.

(** ** Accesses *)

Lemma get_some t k : 1 <= k <= zlen t -> exists x, get t k = Some x.
Proof using. intros Hk. apply zget_is_Some. lia. Qed.
Lemma rawgeti_ok t k x : get t k = Some x -> lua_rawgeti t k = TOk x.
Proof using. unfold get, lua_rawgeti. by intros ->. Qed.

Lemma set2_ok t i j x y l u : get t i = Some x -> get t j = Some y -> l <= i <= u -> l <= j <= u ->
  exists t', set2 t i j x y = TOk t' /\ within l u t t' /\ get t' i = Some y /\ get t' j = Some x /\
    (forall k, k <> i -> k <> j -> get t' k = get t k).
Proof using.
  intros Hx Hy Hi Hj. unfold get in *. pose proof (zget_Some_range _ _ _ Hx). pose proof (zget_Some_range _ _ _ Hy).
  destruct (zset_is_Some t (i - 1) y) as [t1 E1]; [lia|]. pose proof (zset_length _ _ _ _ E1).
  destruct (zset_is_Some t1 (j - 1) x) as [t2 E2]; [lia|].
  assert (Hne : forall k, k <> i -> k <> j -> zget t2 (k - 1) = zget t (k - 1)).
  { intros k H3 H4. rewrite (zget_zset_ne _ _ _ _ _ E2), (zget_zset_ne _ _ _ _ _ E1); [done|lia|lia]. }
  assert (Hgj : zget t2 (j - 1) = Some x) by exact (zget_zset_eq _ _ _ _ E2).
  assert (Hgi : zget t2 (i - 1) = Some y).
  { destruct (decide (i = j)) as [->|]; [congruence|].
    rewrite (zget_zset_ne _ _ _ _ _ E2) by lia. exact (zget_zset_eq _ _ _ _ E1). }
  exists t2. unfold set2, lua_rawseti. rewrite E1. cbn [tchk mbind tres_bind]. rewrite E2. split; [done|].
  split; [|done]. split.
  - apply zset_Some in E1 as [_ ->], E2 as [_ ->]. apply Permutation_insert_swap; unfold zget in *;
      [by destruct (i - 1 <? 0)|by destruct (j - 1 <? 0)].
  - intros k Hk. apply Hne; intros ->; lia.
  - intros k Hk. unfold get. destruct (decide (k = i)) as [->|]; [exists j; split; [done|congruence]|].
    destruct (decide (k = j)) as [->|]; [exists i; split; [done|congruence]|]. exists k. split; [done|by apply Hne].
Qed.

(** ** Outcomes *)

(** A result with [R], and with [S] if the comparison is an order; an error
    only if it is none. *)
Definition ends_with {A} (R S : A -> Prop) (r : tres A) : Prop :=
  match r with TOk a => R a /\ (strict_weak -> S a) | TErr _ => ~ strict_weak | TFault | TFuel => False end.

Lemma ends_bind {A B} (R S : A -> Prop) (R' S' : B -> Prop) (r : tres A) (f : A -> tres B) :
  ends_with R S r -> (forall a, R a -> (strict_weak -> S a) -> ends_with R' S' (f a)) -> ends_with R' S' (a ← r; f a).
Proof using. destruct r; cbn; naive_solver. Qed.
Lemma ends_impl {A} (R S R' S' : A -> Prop) r : ends_with R S r ->
  (forall a, R a -> R' a) -> (forall a, R a -> strict_weak -> S a -> S' a) -> ends_with R' S' r.
Proof using. destruct r; cbn; naive_solver. Qed.

Lemma comp_ok a b : ends_with (fun r => lt a b = Some r) (fun _ => True) (sort_comp lt a b).
Proof using. unfold sort_comp. destruct (lt a b) eqn:E; [done|]. intros H. destruct (sw_total H a b); congruence. Qed.

(** ** The partition *)

Lemma scan_up_ok t P u : u <= zlen t -> forall fuel i, 0 <= i < u -> u - i < Z.of_nat fuel ->
  (strict_weak -> exists k z, i < k <= u /\ get t k = Some z /\ le P z) ->
  ends_with (fun r => i < r.1 <= u /\ get t r.1 = Some r.2 /\ le P r.2 /\ all (i + 1) (r.1 - 1) (fun z => lt z P = Some true) t)
    (fun _ => True) (scan_up lt fuel t P u i).
Proof using.
  intros Hu. induction fuel as [|fuel IH]; intros i Hi Hf Hstop; [lia|]. cbn [scan_up].
  destruct (get_some t (i + 1)) as [x Hx]; [lia|]. rewrite (rawgeti_ok t _ x Hx). cbn [mbind tres_bind].
  eapply ends_bind; [apply comp_ok|]. intros [] Hc _; cbn beta in Hc.
  - assert (Hstop' : strict_weak -> exists k z, i + 1 < k <= u /\ get t k = Some z /\ le P z).
    { intros Hsw. destruct (Hstop Hsw) as (k & z & Hk & Hz & Hl). exists k, z. split; [|done].
      destruct (decide (k = i + 1)) as [->|]; [unfold le in Hl; congruence|lia]. }
    destruct (Z.leb_spec u (i + 1)); [intros Hsw; destruct (Hstop' Hsw) as (? & ? & ? & _); lia|].
    eapply ends_impl; [apply IH; [lia|lia|done]| |done].
    intros [i' y] (H1 & H2 & H3 & H4). cbn [fst snd] in *. split_and!; [lia|lia|done|done|].
    intros k z Hk Hz. destruct (decide (k = i + 1)) as [->|]; [congruence|]. apply (H4 k z); [lia|done].
  - cbn. split; [|done]. split_and!; [lia|lia|done|done|]. intros k z Hk. lia.
Qed.

Lemma scan_down_ok t P l : 1 <= l -> forall fuel j, l < j <= zlen t -> j - l < Z.of_nat fuel ->
  (strict_weak -> exists k z, l <= k < j /\ get t k = Some z /\ le z P) ->
  ends_with (fun r => l <= r.1 < j /\ get t r.1 = Some r.2 /\ le r.2 P /\ all (r.1 + 1) (j - 1) (fun z => lt P z = Some true) t)
    (fun _ => True) (scan_down lt fuel t P l j).
Proof using.
  intros Hl. induction fuel as [|fuel IH]; intros j Hj Hf Hstop; [lia|]. cbn [scan_down].
  destruct (get_some t (j - 1)) as [y Hy]; [lia|]. rewrite (rawgeti_ok t _ y Hy). cbn [mbind tres_bind].
  eapply ends_bind; [apply comp_ok|]. intros [] Hc _; cbn beta in Hc.
  - assert (Hstop' : strict_weak -> exists k z, l <= k < j - 1 /\ get t k = Some z /\ le z P).
    { intros Hsw. destruct (Hstop Hsw) as (k & z & Hk & Hz & Hle). exists k, z. split; [|done].
      destruct (decide (k = j - 1)) as [->|]; [unfold le in Hle; congruence|lia]. }
    destruct (Z.leb_spec (j - 1) l); [intros Hsw; destruct (Hstop' Hsw) as (? & ? & ? & _); lia|].
    eapply ends_impl; [apply IH; [lia|lia|done]| |done].
    intros [j' x] (H1 & H2 & H3 & H4). cbn [fst snd] in *. split_and!; [lia|lia|done|done|].
    intros k z Hk Hz. destruct (decide (k = j - 1)) as [->|]; [congruence|]. apply (H4 k z); [lia|done].
  - cbn. split; [|done]. split_and!; [lia|lia|done|done|]. intros k z Hk. lia.
Qed.

(** The invariant: a[l..i] <= P <= a[j..u]. *)
Definition parted (P : V) (l u i j : Z) (t : list V) : Prop :=
  get t (u - 1) = Some P /\ all l i (fun z => le z P) t /\ all j u (fun z => le P z) t.

Lemma all_extend_up P l i i' t : strict_weak -> all l i (fun z => le z P) t ->
  all (i + 1) (i' - 1) (fun z => lt z P = Some true) t -> all l (i' - 1) (fun z => le z P) t.
Proof using.
  intros Hsw H1 H2 k z Hk Hz. destruct (Z.le_gt_cases k i); [apply (H1 k z); (lia || done)|].
  apply (sw_asym Hsw), (H2 k z); (lia || done).
Qed.
Lemma all_extend_down P u j j' t : strict_weak -> all j u (fun z => le P z) t ->
  all (j' + 1) (j - 1) (fun z => lt P z = Some true) t -> all (j' + 1) u (fun z => le P z) t.
Proof using.
  intros Hsw H1 H2 k z Hk Hz. destruct (Z.le_gt_cases j k); [apply (H1 k z); (lia || done)|].
  apply (sw_asym Hsw), (H2 k z); (lia || done).
Qed.

Lemma partition_ok P l u : 1 <= l -> forall fuel t i j,
  u <= zlen t -> l <= i <= j -> j <= u - 1 -> i < u - 1 -> l < j -> j - i < Z.of_nat fuel ->
  (strict_weak -> parted P l u i j t) ->
  ends_with (fun r => within l u t r.1 /\ l < r.2 <= u)
    (fun r => r.2 <= u - 1 /\ parted P l u (r.2 - 1) r.2 r.1) (partition lt fuel t P l u i j).
Proof using.
  intros Hl. induction fuel as [|fuel IH]; intros t i j Hu Hi Hj Hiu Hlj Hf Hp; [lia|]. cbn [partition].
  assert (Hr : Z.of_nat (rounds t) = zlen t + 1) by (unfold rounds, zlen; lia).
  eapply ends_bind; [apply (scan_up_ok t P u Hu); [lia|lia|]|].
  { intros Hsw. destruct (Hp Hsw) as (Hg & _ & _). exists (u - 1), P. split; [lia|]. split; [done|by apply sw_refl]. }
  intros [i' x] (Hi1 & Hx & HPx & Hup) _. cbn [fst snd] in *.
  eapply ends_bind; [apply (scan_down_ok t P l Hl); [lia|lia|]|].
  { intros Hsw. destruct (Hp Hsw) as (_ & Ha & _). destruct (get_some t l) as [z Hz]; [lia|].
    exists l, z. split; [lia|]. split; [done|]. apply (Ha l z); (lia || done). }
  intros [j' y] (Hj1 & Hy & HyP & Hdn) _. cbn [fst snd] in *.
  assert (Hord : strict_weak -> i' <= u - 1 /\ get t (u - 1) = Some P /\
    all l (i' - 1) (fun z => le z P) t /\ all (j' + 1) u (fun z => le P z) t).
  { intros Hsw. destruct (Hp Hsw) as (Hg & Ha & Hb). split_and!;
      [|done|by apply (all_extend_up P l i)|by apply (all_extend_down P u j)].
    destruct (Z.le_gt_cases i' (u - 1)) as [|Hgt]; [done|].
    pose proof (Hup (u - 1) P ltac:(lia) Hg) as E. pose proof (sw_refl P Hsw) as E'. unfold le in E'. congruence. }
  destruct (Z.ltb_spec j' i').
  - split; [split; [apply within_refl|cbn; lia]|]. intros Hsw. destruct (Hord Hsw) as (H1 & H2 & H3 & H4). cbn [fst snd].
    split; [done|]. split_and!; [done|done|]. intros k z Hk Hz. apply (H4 k z); (lia || done).
  - destruct (set2_ok t i' j' x y l u Hx Hy ltac:(lia) ltac:(lia)) as (t' & -> & Hw & Hgi & Hgj & Hne). cbn [mbind tres_bind].
    eapply ends_impl; [apply (IH t' i' j')| |].
    1-6: rewrite ?(within_len _ _ _ _ Hw); lia.
    + intros Hsw. destruct (Hord Hsw) as (H1 & H2 & H3 & H4). split_and!.
      * rewrite Hne; (done || lia).
      * intros k z Hk Hz. destruct (decide (k = i')) as [->|]; [congruence|].
        apply (H3 k z); [lia|]. rewrite <- Hne; (done || lia).
      * intros k z Hk Hz. destruct (decide (k = j')) as [->|]; [congruence|].
        apply (H4 k z); [lia|]. rewrite <- Hne; (done || lia).
    + intros r [H1 H2]. split; [by eapply within_trans|done].
    + intros r _ _ H1. done.
Qed.

(** ** A round *)

Lemma sort_ends_ok t l u : 1 <= l -> l < u <= zlen t ->
  ends_with (within l u t) (fun t' => forall x y, get t' l = Some x -> get t' u = Some y -> le x y) (sort_ends lt t l u).
Proof using.
  intros Hl Hu. unfold sort_ends. destruct (get_some t l) as [x Hx]; [lia|]. destruct (get_some t u) as [y Hy]; [lia|].
  rewrite (rawgeti_ok t l x Hx), (rawgeti_ok t u y Hy). cbn [mbind tres_bind].
  eapply ends_bind; [apply comp_ok|]. intros [] Hc _; cbn beta in Hc.
  - destruct (set2_ok t l u x y l u Hx Hy ltac:(lia) ltac:(lia)) as (t' & -> & Hw & Hg1 & Hg2 & _).
    split; [done|]. intros Hsw x' y' E1 E2. rewrite Hg1 in E1. rewrite Hg2 in E2. injection E1 as <-. injection E2 as <-.
    by apply (sw_asym Hsw).
  - split; [apply within_refl|]. intros _ x' y' E1 E2. rewrite Hx in E1. rewrite Hy in E2. injection E1 as <-. by injection E2 as <-.
Qed.

Lemma sort_middle_ok t l i u : 1 <= l -> l < i < u -> u <= zlen t ->
  (strict_weak -> forall x y, get t l = Some x -> get t u = Some y -> le x y) ->
  ends_with (within l u t) (fun t' => forall x P y, get t' l = Some x -> get t' i = Some P -> get t' u = Some y -> le x P /\ le P y)
    (sort_middle lt t l i u).
Proof using.
  intros Hl Hi Hu Hends. unfold sort_middle. destruct (get_some t l) as [x Hx]; [lia|].
  destruct (get_some t i) as [P HP]; [lia|]. destruct (get_some t u) as [y Hy]; [lia|].
  rewrite (rawgeti_ok t l x Hx), (rawgeti_ok t u y Hy), (rawgeti_ok t i P HP). cbn [mbind tres_bind].
  eapply ends_bind; [apply comp_ok|]. intros [] Hc _; cbn beta in Hc.
  - destruct (set2_ok t i l P x l u HP Hx ltac:(lia) ltac:(lia)) as (t' & -> & Hw & Hg1 & Hg2 & Hne).
    split; [done|]. intros Hsw x' P' y' E1 E2 E3. rewrite Hne in E3 by lia.
    rewrite Hg2 in E1. rewrite Hg1 in E2. rewrite Hy in E3. injection E1 as <-. injection E2 as <-. injection E3 as <-.
    split; [by apply (sw_asym Hsw)|by apply Hends].
  - eapply ends_bind; [apply comp_ok|]. intros [] Hc2 _; cbn beta in Hc2.
    + destruct (set2_ok t i u P y l u HP Hy ltac:(lia) ltac:(lia)) as (t' & -> & Hw & Hg1 & Hg2 & Hne).
      split; [done|]. intros Hsw x' P' y' E1 E2 E3. rewrite Hne in E1 by lia.
      rewrite Hg1 in E2. rewrite Hg2 in E3. rewrite Hx in E1. injection E1 as <-. injection E2 as <-. injection E3 as <-.
      split; [by apply Hends|by apply (sw_asym Hsw)].
    + split; [apply within_refl|]. intros _ x' P' y' E1 E2 E3. rewrite Hx in E1. rewrite HP in E2. rewrite Hy in E3.
      injection E1 as <-. injection E2 as <-. by injection E3 as <-.
Qed.

(** The pivot stands at [i], the smaller values before it, the larger behind. *)
Definition split_at (l u i : Z) (t : list V) : Prop :=
  exists P, get t i = Some P /\ all l (i - 1) (fun z => le z P) t /\ all (i + 1) u (fun z => le P z) t.

Lemma sorted_two l t : strict_weak -> (forall x y, get t l = Some x -> get t (l + 1) = Some y -> le x y) -> sorted l (l + 1) t.
Proof using.
  intros Hsw H a b x y Ha Hab Hb Hx Hy. destruct (decide (a = b)) as [->|].
  - rewrite Hx in Hy. injection Hy as <-. by apply sw_refl.
  - replace a with l in * by lia. replace b with (l + 1) in * by lia. by apply H.
Qed.

Lemma sorted_three l t : strict_weak -> (exists P, get t (l + 1) = Some P) ->
  (forall x P y, get t l = Some x -> get t (l + 1) = Some P -> get t (l + 2) = Some y -> le x P /\ le P y) ->
  1 <= l -> l + 2 <= zlen t -> sorted l (l + 2) t.
Proof using.
  intros Hsw [P HP] H H1 H2. destruct (get_some t l) as [x Hx]; [lia|]. destruct (get_some t (l + 2)) as [y Hy]; [lia|].
  destruct (H x P y Hx HP Hy) as [HxP HPy]. apply (sorted_join l (l + 1) (l + 2) P); try done.
  - intros k z Hk Hz. replace k with l in * by lia. congruence.
  - intros k z Hk Hz. replace k with (l + 2) in * by lia. congruence.
  - intros a b v w Ha Hab Hb Hv Hw. replace a with l in * by lia. replace b with l in * by lia.
    rewrite Hv in Hw. injection Hw as <-. by apply sw_refl.
  - intros a b v w Ha Hab Hb Hv Hw. replace a with (l + 2) in * by lia. replace b with (l + 2) in * by lia.
    rewrite Hv in Hw. injection Hw as <-. by apply sw_refl.
Qed.

(** The pivot is put between the halves. *)
Lemma place_pivot P l u i t : l < i <= u -> 1 <= l -> l + 3 <= u <= zlen t ->
  exists t', (x ← lua_rawgeti t (u - 1); y ← lua_rawgeti t i; t ← set2 t (u - 1) i x y; TOk (t, Some i)) = TOk (t', Some i) /\
    within l u t t' /\ (i <= u - 1 -> parted P l u (i - 1) i t -> split_at l u i t').
Proof using.
  intros Hi Hl Hu. destruct (get_some t (u - 1)) as [x Hx]; [lia|]. destruct (get_some t i) as [y Hy]; [lia|].
  rewrite (rawgeti_ok t _ x Hx), (rawgeti_ok t i y Hy). cbn [mbind tres_bind].
  destruct (set2_ok t (u - 1) i x y l u Hx Hy ltac:(lia) ltac:(lia)) as (t' & -> & Hw & Hg1 & Hg2 & Hne). cbn [mbind tres_bind].
  exists t'. split_and!; [done|done|]. intros Hiu (HP & Ha & Hb). rewrite Hx in HP. injection HP as ->. exists P. split_and!; [done| |].
  - intros k z Hk Hz. apply (Ha k z Hk). rewrite <- Hne; (done || lia).
  - intros k z Hk Hz. destruct (decide (k = u - 1)) as [->|].
    + rewrite Hg1 in Hz. injection Hz as <-. apply (Hb i y); [lia|done].
    + apply (Hb k z); [lia|]. rewrite <- Hne; (done || lia).
Qed.

Lemma sort_split_ok t l u : 1 <= l -> l < u <= zlen t -> zlen t <= 2 ^ 30 ->
  ends_with (fun r => within l u t r.1 /\ match r.2 with None => True | Some i => l < i <= u /\ 3 <= u - l end)
    (fun r => match r.2 with None => sorted l u r.1 | Some i => split_at l u i r.1 end) (sort_split lt t l u).
Proof using.
  intros Hl Hu Hmax. unfold sort_split. eapply ends_bind; [by apply sort_ends_ok|]. intros t1 Hw1 Hs1.
  pose proof (within_len _ _ _ _ Hw1) as L1.
  destruct (Z.eqb_spec (u - l) 1) as [E|].
  { split; [by split|]. intros Hsw. cbn. replace u with (l + 1) in * by lia. apply sorted_two; [done|]. by apply Hs1. }
  rewrite i32_small by (unfold in_i32; lia).
  assert (Hi : l < Z.quot (l + u) 2 < u) by (rewrite Z.quot_div_nonneg by lia; pose proof (Z.div_mod (l + u) 2); pose proof (Z.mod_pos_bound (l + u) 2); lia).
  assert (Hi2 : u - l = 2 -> Z.quot (l + u) 2 = l + 1).
  { intros E. replace (l + u) with ((l + 1) * 2) by lia. apply Z.quot_mul. lia. }
  set (i := Z.quot (l + u) 2) in *. clearbody i.
  eapply ends_bind; [apply sort_middle_ok; [done|done|lia|done]|]. intros t2 Hw2 Hs2.
  pose proof (within_len _ _ _ _ Hw2) as L2. pose proof (within_trans _ _ _ _ _ Hw1 Hw2) as Hw12.
  destruct (Z.eqb_spec (u - l) 2) as [E|].
  { split; [by split|]. intros Hsw. cbn. rewrite (Hi2 E) in *. replace u with (l + 2) in * by lia.
    apply sorted_three; [done|apply get_some; lia|by apply Hs2|done|lia]. }
  destruct (get_some t2 i) as [P HP]; [lia|]. destruct (get_some t2 (u - 1)) as [x Hx]; [lia|].
  rewrite (rawgeti_ok t2 i P HP), (rawgeti_ok t2 _ x Hx). cbn [mbind tres_bind].
  destruct (set2_ok t2 i (u - 1) P x l u HP Hx ltac:(lia) ltac:(lia)) as (t3 & -> & Hw3 & Hg1 & Hg2 & Hne). cbn [mbind tres_bind].
  pose proof (within_len _ _ _ _ Hw3) as L3.
  eapply ends_bind; [apply (partition_ok P l u Hl); try lia|].
  { unfold rounds, zlen in *. lia. }
  { intros Hsw. destruct (get_some t2 l) as [a Ha]; [lia|]. destruct (get_some t2 u) as [b Hb]; [lia|].
    destruct (Hs2 Hsw a P b Ha HP Hb) as [HaP HPb]. split_and!; [done| |].
    - intros k z Hk Hz. replace k with l in * by lia. rewrite Hne in Hz by lia. congruence.
    - intros k z Hk Hz. destruct (decide (k = u - 1)) as [->|].
      + rewrite Hg2 in Hz. injection Hz as <-. by apply sw_refl.
      + replace k with u in * by lia. rewrite Hne in Hz by lia. congruence. }
  intros [t4 i'] [Hw4 Hi'] Hs4. cbn [fst snd] in *. pose proof (within_len _ _ _ _ Hw4) as L4.
  destruct (place_pivot P l u i' t4 Hi' Hl ltac:(lia)) as (t5 & -> & Hw5 & Hs5). split; cbn [fst snd].
  - split; [|lia]. by eapply within_trans; [|exact Hw5]; eapply within_trans; [|exact Hw4]; eapply within_trans.
  - intros Hsw. destruct (Hs4 Hsw) as [? ?]. by apply Hs5.
Qed.

(** ** The sort *)

Definition sorts (l u : Z) (t : list V) : tres (list V) -> Prop := ends_with (within l u t) (sorted l u).

Lemma sorted_empty l u t : u <= l -> strict_weak -> sorted l u t.
Proof using.
  intros H Hsw a b x y Ha Hab Hb Hx Hy. replace b with a in * by lia. rewrite Hx in Hy. injection Hy as <-. by apply sw_refl.
Qed.

(** The halves are sorted one after the other. *)
Lemma halves_ok (r1 r2 : list V -> Z -> Z -> tres (list V)) t l u i a b c d :
  l < i <= u -> (a = l /\ b = i - 1 /\ c = i + 1 /\ d = u \/ a = i + 1 /\ b = u /\ c = l /\ d = i - 1) ->
  (strict_weak -> split_at l u i t) -> sorts a b t (r1 t a b) ->
  (forall t', zlen t' = zlen t -> sorts c d t' (r2 t' c d)) ->
  sorts l u t (t ← r1 t a b; r2 t c d).
Proof using.
  intros Hi Hab Hs H1 H2. eapply ends_bind; [exact H1|]. intros t1 W1 S1.
  eapply ends_impl; [apply (H2 t1), (within_len _ _ _ _ W1)| |].
  - intros t2 W2. eapply within_trans; [apply (within_mono a b); [lia|lia|done]|apply (within_mono c d); [lia|lia|done]].
  - intros t2 W2 Hsw S2. destruct (Hs Hsw) as (P & HP & Hlo & Hhi). specialize (S1 Hsw).
    assert (HP2 : get t2 i = Some P) by (rewrite (w_out _ _ _ _ W2), (w_out _ _ _ _ W1); (done || lia)).
    apply (sorted_apart c d a b t1 t2) in S1; [|lia|done].
    apply (sorted_join l i u P); [done|done| | | |];
      destruct Hab as [(-> & -> & -> & ->)|(-> & -> & -> & ->)]; try done.
    + apply (all_apart (i + 1) u _ _ _ t1); [lia|done|]. apply (all_within l (i - 1) _ _ _ t); (done || lia).
    + apply (all_within l (i - 1) _ _ _ t1); [lia|lia|done|]. apply (all_apart (i + 1) u _ _ _ t); (done || lia).
    + apply (all_within (i + 1) u _ _ _ t1); [lia|lia|done|]. apply (all_apart l (i - 1) _ _ _ t); (done || lia).
    + apply (all_apart l (i - 1) _ _ _ t1); [lia|done|]. apply (all_within (i + 1) u _ _ _ t); (done || lia).
Qed.

Lemma sort_loop_ok rec (m : Z) :
  (forall t l u, 1 <= l -> u <= zlen t -> zlen t <= 2 ^ 30 -> 2 * (u - l + 1) <= m -> 3 <= m -> sorts l u t (rec t l u)) ->
  forall fuel t l u, 1 <= l -> u <= zlen t -> zlen t <= 2 ^ 30 -> u - l <= m -> 0 < Z.of_nat fuel -> u - l < Z.of_nat fuel ->
  sorts l u t (sort_loop lt rec fuel t l u).
Proof using.
  intros Hrec. induction fuel as [|fuel IH]; intros t l u Hl Hu Hmax Hm Hf0 Hf; [lia|]. cbn [sort_loop].
  destruct (Z.ltb_spec l u) as [Hlt|Hge].
  2:{ split; [apply within_refl|]. by apply sorted_empty. }
  eapply ends_bind; [apply sort_split_ok; lia|]. intros [t1 [i|]] [W1 Hi] S1; cbn [fst snd] in *; [|by split].
  pose proof (within_len _ _ _ _ W1) as L1. destruct Hi as [Hi H3].
  assert (Hgo : forall a b c d, (a = l /\ b = i - 1 /\ c = i + 1 /\ d = u \/ a = i + 1 /\ b = u /\ c = l /\ d = i - 1) ->
    2 * (b - a + 1) <= m -> sorts l u t (t ← rec t1 a b; sort_loop lt rec fuel t c d)).
  { intros a b c d Hab Hsz. eapply ends_impl; [apply (halves_ok rec (sort_loop lt rec fuel) t1 l u i a b c d)| |done]; try done.
    - apply Hrec; lia.
    - intros t' Ht'. apply IH; lia.
    - intros t2 W2. by eapply within_trans. }
  destruct (Z.ltb_spec (i - l) (u - i)).
  - replace (i - 1 + 2) with (i + 1) by lia. apply Hgo; [lia|lia].
  - replace (i + 1 - 2) with (i - 1) by lia. apply Hgo; [lia|lia].
Qed.

Lemma auxsort_ok : forall depth t l u, 1 <= l -> u <= zlen t -> zlen t <= 2 ^ 30 ->
  u - l + 1 < 2 ^ Z.of_nat depth -> (0 < depth)%nat -> sorts l u t (auxsort lt depth t l u).
Proof using.
  induction depth as [|depth IH]; intros t l u Hl Hu Hmax Hd Hd0; [lia|]. cbn [auxsort].
  rewrite Nat2Z.inj_succ, Z.pow_succ_r in Hd by lia.
  apply (sort_loop_ok _ (2 * 2 ^ Z.of_nat depth - 2)); try done; try lia.
  - intros t' l' u' Hl' Hu' Hmax' Hsz H3. apply IH; try done; [lia|]. destruct depth; [cbn in *; lia|lia].
  - unfold rounds, zlen in *. lia.
Qed.

(** C3: under a comparison that is a strict weak order, [table.sort] returns a
    permutation of the table in which no value is less than one before it; under
    any other comparison, also one that raises errors or contradicts itself,
    it still touches no index outside the table, ends, and returns a
    permutation of it or raises an error.  Calls nest at most 31 deep. *)
Theorem table_sort_correct (t : list V) (Hmax : zlen t <= 2 ^ 30) :
  match table_sort lt t with
  | TOk t' => t' ≡ₚ t /\ (strict_weak -> forall i j x y, i <= j -> zget t' i = Some x -> zget t' j = Some y -> le x y)
  | TErr _ => ~ strict_weak
  | TFault | TFuel => False
  end.
Proof using.
  pose proof (zlen_nonneg t). unfold table_sort.
  pose proof (auxsort_ok 31 t 1 (zlen t) ltac:(lia) ltac:(lia) Hmax ltac:(cbn; lia) ltac:(lia)) as H1.
  destruct (auxsort lt 31 t 1 (zlen t)) as [t'| | |]; try done. destruct H1 as [W S]. split; [apply (w_perm _ _ _ _ W)|].
  intros Hsw i j x y Hij Hx Hy. pose proof (zget_Some_range _ _ _ Hx). pose proof (zget_Some_range _ _ _ Hy).
  pose proof (within_len _ _ _ _ W). apply (S Hsw (i + 1) (j + 1) x y); try lia;
    unfold get; by rewrite Z.add_simpl_r.
Qed.
End sort.

(** Integers by [<]. *)
Lemma table_sort_correct_witness :
  let lt x y := Some (x <? y) in
  strict_weak lt /\ table_sort lt [5; 3; 9; 1; 3; 7; 2] = TOk [1; 2; 3; 3; 5; 7; 9] /\
  [1; 2; 3; 3; 5; 7; 9] ≡ₚ [5; 3; 9; 1; 3; 7; 2].
Proof.
  intros lt. split; [split; unfold le, lt|].
  - intros x y. eauto.
  - intros x y [= H%Z.ltb_lt]. f_equal. apply Z.ltb_ge. lia.
  - intros x y z [= H1%Z.ltb_ge] [= H2%Z.ltb_ge]. f_equal. apply Z.ltb_ge. lia.
  - assert (E : table_sort lt [5; 3; 9; 1; 3; 7; 2] = TOk [1; 2; 3; 3; 5; 7; 9]) by (by vm_compute).
    split; [exact E|]. pose proof (table_sort_correct lt [5; 3; 9; 1; 3; 7; 2] ltac:(by vm_compute)) as H.
    rewrite E in H. apply H.
Defined.

(** A comparison that is always true ends with the error for it. *)
Example table_sort_invalid : table_sort (fun _ _ : Z => Some true) [1; 2; 3; 4; 5] = TErr TABSORT.
Proof. by vm_compute. Qed.
End SortSpec.
