(* ===== verification/LibTableInsert.v ===== *)
(** * LibTableInsert

    [table.insert] ([lib_table.c]) on the tables of the virtual machine
    ([LjTab]): the elements behind the position move up by one, every other
    pair stays, whatever array, hash part and rehash that takes. *)
From stdpp Require Import base tactics numbers list.
From Stdlib Require Import ZArith Lia.
From S2P Require Import Prelude LjTab LjTabHash LjTabKey LjTabMap LjTabRehash LjTabSpec LjTabNext.
Import Tab TabHash TabKey TabMap TabRehash TabSpec TabNext.
Open Scope Z_scope.

Module TabInsert.
Section insert.
Context (strhash : Z -> Z).
Abbreviation newkey := (lj_tab_newkey strhash 1).

(** [for (...; i > n; i--)], [k] times. *)
Fixpoint insert_shift (k : nat) (t : GCtab) (i : Z) : tres GCtab :=
  match k with
  | O => TOk t
  | S k' =>
      r ← lj_tab_setint strhash newkey t i;
      let '(t, dst) := r in
      src ← lj_tab_getint strhash t (i - 1);
      v ← match src with Some src => read t src | None => TOk VNil end;
      t ← store t dst v;
      insert_shift k' t (i - 1)
  end.

(** [pos] is the second of three arguments. *)
Definition table_insert (t : GCtab) (pos : option Z) (v : TValue) : tres GCtab :=
  len ← lj_tab_len strhash t;
  let i := i32 len + 1 in
  r ← match pos with
      | None => TOk (t, i)
      | Some n => t ← insert_shift (Z.to_nat (i - n)) t i; TOk (t, n)
      end;
  let '(t, i) := r in
  r ← lj_tab_setint strhash newkey t i;
  let '(t, dst) := r in
  store t dst v.

(** ** Integer keys *)

Definition ikey (i : Z) : TValue := VNum (num_of_int i).

Lemma ikey_canon i : in_i32 i -> canon (ikey i) = ikey i.
Proof using. intros Hi. by apply canon_canonical, num_of_int_canonical. Qed.
Lemma ikey_inj i j : in_i32 i -> in_i32 j -> ikey i = ikey j -> i = j.
Proof using. intros Hi Hj [= E]. by apply num_of_int_inj. Qed.

Lemma getint_value t i : tab_wf strhash t -> in_i32 i -> exists v,
  (s ← lj_tab_getint strhash t i; match s with Some s => read t s | None => TOk VNil end) = TOk v /\ value_of t (ikey i) v.
Proof using.
  intros W Hi. destruct (get_spec strhash t W (ikey i)) as (v & E & Hv).
  { apply (num_of_int_canonical i Hi). }
  rewrite ikey_canon in Hv by done. exists v. split; [|done]. unfold lj_tab_get, ikey in E. by rewrite num_int_of_int in E.
Qed.

(** [t'] has [v] for the integer [i], and the pairs of [t] elsewhere. *)
Definition updated (t t' : GCtab) (i : Z) (v : TValue) : Prop :=
  forall k x, has t' k x <-> (k = ikey i /\ x = v /\ v <> VNil) \/ (k <> ikey i /\ has t k x).

(** A slot for an integer, and the value stored there. *)
Lemma setint_store t i : tab_wf strhash t -> in_i32 i ->
  (lj_tab_setint strhash newkey t i = TErr TABOV /\ 2 ^ 26 <= entries t) \/
  exists t' s, lj_tab_setint strhash newkey t i = TOk (t', s) /\ tab_wf strhash t' /\ same_map t t' /\
    forall v, exists t'', store t' s v = TOk t'' /\ tab_wf strhash t'' /\ updated t t'' i v.
Proof using.
  intros W Hi. destruct (setint_placed strhash t i W Hi) as [H|(t' & s & E & W' & HM & Hs)]; [by left|right].
  exists t', s. split_and!; [done|done|done|]. intros v. fold (ikey i) in Hs. rewrite ikey_canon in Hs by done.
  destruct (store_spec strhash t' W' s (ikey i) v Hs) as (t'' & Est & W'' & _ & _ & _ & Hst).
  exists t''. split_and!; [done|done|]. intros k x. by rewrite Hst, (HM k x).
Qed.

(** It is at most one pair more. *)
Lemma updated_entries t t' i v : tab_wf strhash t' -> updated t t' i v -> entries t' <= entries t + 1.
Proof using.
  intros W' Hu. pose proof (keys_nodup strhash t' W') as Hn.
  assert (Hsub : (arr_pairs 0 (array t') ++ node_pairs (node t')).*1 ⊆+ ikey i :: (arr_pairs 0 (array t) ++ node_pairs (node t)).*1).
  { apply NoDup_submseteq; [done|]. intros k Hk. apply list_elem_of_fmap in Hk as ([k' x] & -> & Hk). cbn [fst].
    apply has_pairs, Hu in Hk as [[-> _]|[_ Hk]]; [by left|right]. apply list_elem_of_fmap. exists (k', x).
    split; [done|by apply has_pairs]. }
  apply submseteq_length in Hsub. cbn [length] in Hsub. rewrite !length_fmap, !length_app in Hsub.
  unfold entries, zlen. lia.
Qed.

(** ** The shift *)

(** The values below the indices from [lo + 1] to [hi] have moved up. *)
Definition shifted (t t' : GCtab) (lo hi : Z) : Prop :=
  forall k x, has t' k x <->
    (exists j, lo < j <= hi /\ k = ikey j /\ has t (ikey (j - 1)) x) \/
    ((forall j, lo < j <= hi -> k <> ikey j) /\ has t k x).

Lemma shifted_step t t1 t2 lo hi v : - 2 ^ 31 <= lo < hi -> hi < 2 ^ 31 -> value_of t (ikey (hi - 1)) v -> updated t t1 hi v ->
  shifted t1 t2 lo (hi - 1) -> shifted t t2 lo hi.
Proof using.
  intros Hlo Hhi Hv Hu Hs k x. rewrite (Hs k x). split.
  - intros [(j & Hj & -> & H)|[Hno H]].
    + left. exists j. split_and!; [lia|lia|done|]. apply Hu in H as [[E _]|[_ H]]; [|done].
      apply ikey_inj in E; unfold in_i32; lia.
    + apply Hu in H as [(-> & -> & Hn)|[Hne H]].
      * left. exists hi. split_and!; [lia|lia|done|]. by apply Hv.
      * right. split; [|done]. intros j Hj ->. destruct (decide (j = hi)) as [->|]; [done|]. apply (Hno j); [lia|done].
  - intros [(j & Hj & -> & H)|[Hno H]].
    + destruct (decide (j = hi)) as [->|Hne].
      * right. split; [intros j Hj' E; apply ikey_inj in E; unfold in_i32; lia|].
        apply Hu. left. apply Hv in H as [-> Hn]. done.
      * left. exists j. split_and!; [lia|lia|done|]. apply Hu. right. split; [|done].
        intros E. apply ikey_inj in E; unfold in_i32; lia.
    + right. split; [intros j Hj; apply Hno; lia|]. apply Hu. right. split; [apply Hno; lia|done].
Qed.

Lemma insert_shift_ok : forall k t i, tab_wf strhash t -> - 2 ^ 31 <= i - Z.of_nat k -> i < 2 ^ 31 ->
  (insert_shift k t i = TErr TABOV /\ 2 ^ 26 <= entries t + Z.of_nat k) \/
  exists t', insert_shift k t i = TOk t' /\ tab_wf strhash t' /\ entries t' <= entries t + Z.of_nat k /\
    shifted t t' (i - Z.of_nat k) i.
Proof using.
  induction k as [|k IH]; intros t i W Hlo Hhi; cbn [insert_shift].
  { right. exists t. split_and!; [done|done|lia|]. intros key x. split; [|naive_solver lia].
    intros H. right. split; [intros j Hj; lia|done]. }
  destruct (setint_store t i W) as [[-> He]|(t1 & s & -> & W1 & HM & Hst)]; [unfold in_i32; lia|left; split; [done|lia]|].
  rewrite tbind_ok. destruct (getint_value t1 (i - 1) W1) as (v & Ev & Hv); [unfold in_i32; lia|].
  assert (Hv' : value_of t (ikey (i - 1)) v) by (intros x; rewrite <- (HM _ x); apply Hv).
  destruct (Hst v) as (t2 & Es & W2 & Hu). pose proof (updated_entries _ _ _ _ W2 Hu) as He.
  assert (Estep : (src ← lj_tab_getint strhash t1 (i - 1); v ← match src with Some src => read t1 src | None => TOk VNil end;
    t ← store t1 s v; insert_shift k t (i - 1)) = insert_shift k t2 (i - 1)).
  { destruct (lj_tab_getint strhash t1 (i - 1)) as [src| | |]; try done. rewrite tbind_ok in Ev. by rewrite tbind_ok, Ev, tbind_ok, Es. }
  rewrite Estep. destruct (IH t2 (i - 1) W2) as [[-> Hb]|(t3 & -> & W3 & He3 & Hs)]; [lia|lia|left; split; [done|lia]|].
  right. exists t3. split_and!; [done|done|lia|]. replace (i - 1 - Z.of_nat k) with (i - Z.of_nat (S k)) in Hs by lia.
  apply (shifted_step t t2 t3 _ _ v); (done || lia).
Qed.

(** ** table.insert *)

Lemma get_ikey t i : tab_wf strhash t -> in_i32 i -> exists x, lj_tab_get strhash t (ikey i) = TOk x /\ value_of t (ikey i) x.
Proof using.
  intros W Hi. destruct (get_spec strhash t W (ikey i)) as (x & E & Hx); [apply (num_of_int_canonical i Hi)|].
  exists x. rewrite ikey_canon in Hx by done. done.
Qed.

(** Tables with the same pairs for two keys give the same for them. *)
Lemma get_same t t' k k' : tab_wf strhash t -> tab_wf strhash t' -> kvalid k -> kvalid k' ->
  (forall x, has t' (canon k') x <-> has t (canon k) x) -> lj_tab_get strhash t' k' = lj_tab_get strhash t k.
Proof using.
  intros W W' Hk Hk' H. destruct (get_spec strhash t W k Hk) as (x & -> & Hx), (get_spec strhash t' W' k' Hk') as (y & -> & Hy).
  f_equal. apply (value_of_unique t' (canon k')); [done|]. intros z. rewrite H. apply Hx.
Qed.

Lemma shift_set t t1 t2 n p v : - 2 ^ 31 <= p < 2 ^ 31 -> 0 <= n < INT_MAX -> tab_wf strhash t -> tab_wf strhash t2 ->
  shifted t t1 (Z.min p (n + 1)) (n + 1) -> updated t1 t2 p v ->
  (forall i, in_i32 i -> lj_tab_get strhash t2 (ikey i) =
    if decide (i = p) then TOk v
    else if decide (p < i <= n + 1) then lj_tab_get strhash t (ikey (i - 1)) else lj_tab_get strhash t (ikey i)) /\
  (forall k, kvalid k -> (forall i, in_i32 i -> canon k <> ikey i) -> lj_tab_get strhash t2 k = lj_tab_get strhash t k).
Proof using.
  unfold INT_MAX. intros Hp Hn W W2 Hs Hu.
  assert (Hkv : forall i, in_i32 i -> kvalid (ikey i)) by (intros i Hi; apply (num_of_int_canonical i Hi)).
  assert (Hinj : forall i j, in_i32 i -> - 2 ^ 31 <= j < 2 ^ 31 -> ikey i = ikey j -> i = j) by (intros i j Hi Hj; apply ikey_inj; [done|unfold in_i32; lia]).
  split.
  - intros i Hi. case_decide as E1; [|case_decide as E2].
    + subst i. destruct (get_ikey t2 p W2 Hi) as (x & -> & Hx). f_equal. apply (value_of_unique t2 (ikey p)); [done|].
      intros z. rewrite (Hu (ikey p) z). naive_solver.
    + apply get_same; auto; [apply Hkv; unfold in_i32 in *; lia|]. intros x.
      rewrite !ikey_canon by (unfold in_i32 in *; lia). rewrite (Hu (ikey i) x), (Hs (ikey i) x). split.
      * intros [[E _]|[_ [(j & Hj & E & H)|[Hno _]]]].
        -- apply Hinj in E; [done|done|lia].
        -- apply Hinj in E; [by subst j|done|lia].
        -- destruct (Hno i); [lia|done].
      * intros H. right. split; [intros E; apply Hinj in E; [done|done|lia]|]. left. exists i. split; [lia|done].
    + apply get_same; auto. intros x. rewrite ikey_canon by done. rewrite (Hu (ikey i) x), (Hs (ikey i) x). split.
      * intros [[E _]|[_ [(j & Hj & E & _)|[_ H]]]]; [|apply Hinj in E; [lia|done|lia]|done].
        apply Hinj in E; [done|done|lia].
      * intros H. right. split; [intros E; apply Hinj in E; [done|done|lia]|]. right. split; [|done].
        intros j Hj E. apply Hinj in E; [lia|done|lia].
  - intros k Hk Hno. apply get_same; auto. intros x. rewrite (Hu (canon k) x), (Hs (canon k) x).
    assert (Hne : forall j, - 2 ^ 31 <= j < 2 ^ 31 -> canon k <> ikey j) by (intros j Hj; apply Hno; unfold in_i32; lia).
    split.
    + intros [[E _]|[_ [(j & Hj & E & _)|[_ H]]]]; [by apply Hne in E|by apply Hne in E; [|lia]|done].
    + intros H. right. split; [by apply Hne|]. right. split; [|done]. intros j Hj. apply Hne. lia.
Qed.

(** C14: [table.insert] on any well-formed table.  With [n] the length the code
    computes, a border of the table, and [p] the position, by default [n+1]:
    afterwards [p] has the new value, the indices from [p+1] to [n+1] have the
    values that stood one below, and every other key, integer or not, has the
    value it had; the table is well-formed again, whichever rehashes the new
    element took.  The only other outcome is the table overflow error, which
    takes about [2^26] pairs. *)
Theorem table_insert_shifts (t : GCtab) (pos : option Z) (v : TValue)
  (W : tab_wf strhash t) (Hpos : forall p, pos = Some p -> in_i32 p) :
  exists n, lj_tab_len strhash t = TOk n /\ border t n /\
  let p := default (n + 1) pos in
  (table_insert t pos v = TErr TABOV /\ 2 ^ 26 <= entries t + Z.max 0 (n + 1 - p)) \/
  exists t', table_insert t pos v = TOk t' /\ tab_wf strhash t' /\
    (forall i, in_i32 i -> lj_tab_get strhash t' (ikey i) =
      if decide (i = p) then TOk v
      else if decide (p < i <= n + 1) then lj_tab_get strhash t (ikey (i - 1)) else lj_tab_get strhash t (ikey i)) /\
    (forall k, kvalid k -> (forall i, in_i32 i -> canon k <> ikey i) -> lj_tab_get strhash t' k = lj_tab_get strhash t k).
Proof using.
  destruct (len_spec strhash t W) as (n & En & Hb & Hn). exists n. split; [done|]. split; [done|]. intros p.
  assert (Hp : - 2 ^ 31 <= p < 2 ^ 31).
  { unfold p, INT_MAX in *. destruct pos as [q|]; cbn [default id]; [|lia]. pose proof (Hpos q eq_refl). unfold in_i32 in *. lia. }
  set (k := Z.to_nat (n + 1 - p)).
  assert (Ei : table_insert t pos v = (t1 ← insert_shift k t (n + 1);
    r ← lj_tab_setint strhash newkey t1 p; let '(t2, dst) := r in store t2 dst v)).
  { unfold table_insert. rewrite En, tbind_ok. rewrite i32_small by (unfold in_i32, INT_MAX in *; lia).
    unfold k, p. destruct pos as [q|]; cbn [default id].
    - by destruct (insert_shift _ t (n + 1)).
    - by replace (Z.to_nat (n + 1 - (n + 1))) with O by lia. }
  rewrite Ei. unfold INT_MAX in Hn.
  destruct (insert_shift_ok k t (n + 1) W) as [[-> He]|(t1 & -> & W1 & He & Hs)]; [lia|lia|left; split; [done|lia]|].
  rewrite tbind_ok. destruct (setint_store t1 p W1) as [[-> He2]|(t2 & s & -> & _ & _ & Hst)]; [unfold in_i32; lia|left; split; [done|lia]|].
  rewrite tbind_ok. destruct (Hst v) as (t3 & E3 & W3 & Hu). right. exists t3. split; [exact E3|]. split; [done|].
  apply (shift_set t t1 t3 n p v); [done|unfold INT_MAX; lia|done|done| |done].
  by replace (n + 1 - Z.of_nat k) with (Z.min p (n + 1)) in Hs by lia.
Qed.
End insert.

(** Two values and a full array; a string at position 2. *)
Lemma table_insert_shifts_witness (t := MkTab 255 [VNil; VBool true; VBool false] [nilnode] 0) :
  exists t', table_insert (fun r => r) t (Some 2) (VStr 7) = TOk t' /\
    lj_tab_get (fun r => r) t' (ikey 1) = TOk (VBool true) /\ lj_tab_get (fun r => r) t' (ikey 2) = TOk (VStr 7) /\
    lj_tab_get (fun r => r) t' (ikey 3) = TOk (VBool false).
Proof.
  assert (W : tab_wf (fun r => r) t).
  { pose proof (tab_new_wf (fun r => r)) as [W1 W2 W3]. split; [by vm_compute|by apply (hash_wf_same _ (MkTab 255 (replicate 5 VNil) [nilnode] 0) t)|].
    intros z Hz. exfalso. apply (live_range [nilnode]) in Hz as Hr. change (zlen [nilnode]) with 1 in Hr.
    assert (z = 0) as -> by lia. by apply Hz. }
  destruct (table_insert_shifts (fun r => r) t (Some 2) (VStr 7) W) as (n & En & _ & H).
  { intros p [= <-]. unfold in_i32. lia. }
  assert (n = 2) as -> by (vm_compute in En; congruence).
  destruct H as [[_ He]|(t' & E & _ & H & _)]; [vm_compute in He; congruence|].
  exists t'. split; [exact E|]. rewrite !H by (unfold in_i32; lia). cbn [default id].
  split_and!; repeat (case_decide; try lia); try done; by vm_compute.
Defined.
End TabInsert.
